(* ===== verification/_CoqProject ===== *)
-Q . S2P
Prelude.v
Schema.v
Codec.v
CodecFacts.v
Wire.v
Datagrams.v
Frame.v
FrameFacts.v
FrameProps.v
GenHeader.v
Transfer.v
TransferFacts.v
Reassembly.v
State.v
StateFacts.v
Uplink.v
UplinkFacts.v
Composite.v
CompositeFacts.v
CompositeRoutes.v
Packed.v
PackedFacts.v
PositionerFacts.v
OutputKeep.v
OutputKeepFacts.v
OutputKeepProps.v
Ordered.v
Kv.v
KvWriter.v
KvDedup.v
KvReplay.v
KvStore.v
KvMutate.v
KvProps.v
KvWatch.v
KvRetain.v
KvReopen.v
KvRun.v
ChannelPool.v
Channel.v
ChannelPoolFacts.v
ChannelFacts.v
ChannelLinks.v
ChannelRegistry.v
ChannelProps.v
FamilyLimits.v
Core.v
CoreControl.v
FamilyLimitsFacts.v
ProcessLimits.v
CoreWire.v
CoreDescriptors.v
CoreControlFacts.v
CoreProps.v
Native.v
NativeFacts.v
NativeInvariant.v
NativeTransfer.v
NativeUpload.v
NativeFramed.v
NativeProps.v
WireLayout.v
NetWire.v
MuxFlows.v
Mux.v
MuxFacts.v
MuxInvariant.v
MuxRun.v
MuxStream.v
MuxWatch.v
MuxStreamFacts.v
MuxProps.v
KvWire.v
ChannelWire.v
RelayWire.v
EnvWire.v
Forwarder.v
ProcessWire.v
ReadOnly.v
FamilyWires.v
