(* ===== verification/Prelude.v ===== *)
(** * A verification library for YAS

    YAS is a terminal multiplexer and compositor: servers hold terminals,
    surfaces, files and processes, and clients reach them over one framed
    protocol. Its Rust workspace is under [src/crates]. This library models the
    protocol core and the parts of the transport and server with state of their
    own, and proves what makes each correct.

    ** The program's parts and the files that model them

    Every message is bytes written by an [Encode] and read by a [Decode]
    implementation over the primitives of [yas/src/codec.rs]. Messages travel in
    frames ([yas/src/frame.rs]) whose policies come from the generated registry
    ([yas/src/generated.rs]); frames travel on a reliable stream, or, when the
    registry allows, as datagrams. A stream and its datagram sideband are bound
    together by [composite-transport/src/lib.rs]; over the public network the
    datagrams are sealed by [uplink/src/datagram.rs]. Families share Transfer
    ([yas/src/transfer.rs]) for bulk bytes and State ([yas/src/state.rs]) for
    watched state. [yas/src/packed.rs] checks codec payloads,
    [server/src/output_keep.rs] bounds what a process's output costs, and
    [compositor/src/positioner.rs] places popups. Sessions share two services
    of the server: the revisioned key-value store ([server/src/kv.rs]) with its
    writer thread and database, and the registry of named channels
    ([server/src/channel.rs]) that connects one session to another. A client
    reaches a server through [client/src/native.rs]; [client/src/client.rs]
    shares that session among many callers, with a reader and a writer task,
    and carries Transfer streams ([client/src/transfer.rs]), State
    subscriptions ([client/src/state.rs]) and datagram flows. A server may be
    shared over WebRTC: [webrtc-forwarder/src] decides which consumers it
    starts a peer for.

    - [Prelude]: results with the [?] operator as bind, machine integers, little
      endian bytes, UTF-8 validity, list helpers, tactics and hint databases.
    - [Schema]: constants and the operation and limit tables of [generated.rs].
    - [Codec]: [Error], [Decoder] (a state-and-error monad over input and
      offset), the [put_*] writers, [Extensions]. [CodecFacts]: [reads p bs a]
      (a reader returns [a] over [bs]) and [spells] (its inverse), with the
      tactics [reads_step] and [dec_inv] that step through a layout.
    - [Wire]: the [Encode]/[Decode] traits as classes, and [WireLaws], the
      interface a message type offers its clients: appending, round trip,
      canonicity. [Datagrams]: the three datagram payloads of [net.rs],
      [surface.rs], [media.rs].
    - [Frame], [FrameFacts], [FrameProps]: headers, envelopes, [FrameCodec],
      stream and datagram framing. [GenHeader]: the generated
      header codec, equivalent to the hand-written one.
    - [Transfer], [TransferFacts], [Reassembly]: the Transfer messages, upload
      stages, and [MessageReceiver], refined against an abstract reassembly of
      byte strings.
    - [State], [StateFacts]: WATCH, STATE events, STATE_ACK.
    - [Uplink], [UplinkFacts]: sealing, the replay window, epoch keys.
    - [Composite], [CompositeFacts], [CompositeRoutes]: ingress classification,
      preface replay, pairing, the sideband, datagram routes.
    - [Packed], [PackedFacts]: the packed codec validators.
    - [PositionerFacts]: popup placement in wrapping [i32].
    - [OutputKeep], [OutputKeepFacts], [OutputKeepProps]: head-and-tail output.
    - [Ordered]: keys with an order, and a [BTreeMap]'s iteration and
      [pop_first].
    - [Kv]: the store, its limits, the mutations, watches and replay records.
      [KvWriter]: opening it from the database (interface [Redb] with
      [RedbLaws]), and the system of store, queue and writer thread as a
      transition function. [KvDedup] (record format), [KvReplay] (retention),
      [KvStore], [KvMutate] (invariant and abstract commit), [KvProps],
      [KvWatch], [KvRetain], [KvReopen] (with pruning, and what a restart reads
      back), [KvRun] (runs).
    - [ChannelPool], [ChannelPoolFacts]: reference-counted admission.
      [Channel]: the fabric and its operations, over the interfaces [Mpsc] and
      [HashOrder]. [ChannelFacts], [ChannelLinks], [ChannelRegistry]: its
      invariant operation by operation, and runs. [ChannelProps].
    - [FamilyLimits]: the [Limits] record of each of the eighteen families that
      advertise one. [FamilyLimitsFacts], [ProcessLimits]: the class
      [FamilyLimitsLaws] and an instance per family.
    - [Core], [CoreControl]: every message of [yas/src/core.rs], HELLO
      negotiation, and the catalogue checks against the registry. [CoreWire],
      [CoreDescriptors], [CoreControlFacts]: their wire laws. [CoreProps]: what
      HELLO establishes.
    - [Native]: the sequential client, its calls in a state-and-error monad over
      what arrives. [NativeFacts] (calls end), [NativeInvariant] (the session's
      invariant, call by call), [NativeTransfer] (well-formed streams and
      downloads), [NativeUpload], [NativeFramed]
      (the framed reader), [NativeProps].
    - [WireLayout]: wire laws from what an encoder wrote: signed integers, enum
      tags ([Tag]), flags, messages nested in others or left out, parts with a
      writer and a reader of their own ([Field]), and the tactics [law_direct]
      and [law_recheck]. [NetWire], [KvWire], [ChannelWire], [RelayWire]: every
      message of [net.rs], [kv.rs], [channel.rs] and [relay.rs] of [yas/src].
      [EnvWire]: those of [env.rs], the [SnapshotAssembler], the server's
      [encode_environment_batches] ([server/src/yas.rs]) and the client's
      assembly ([client/src/kv.rs]). [ProcessWire]: those of [process.rs], and
      the exit of a process from the server's streams ([server/src/process.rs],
      [yas_process.rs], [yas.rs]) to the client ([client/src/process.rs]).
      [FamilyWires]: their laws together.
    - [ReadOnly]: the rewriting of a client's HELLO by a relay that shares a
      server read-only ([yas/src/read_only.rs]).
    - [Forwarder]: admission of WebRTC consumers, the event loop around it and
      the DTLS filter ([webrtc-forwarder/src]).
    - [MuxFlows]: datagram flows ([client/src/net.rs]). [Mux]: the multiplexed
      session: router, requests, queues, the two tasks. [MuxFacts],
      [MuxInvariant], [MuxRun]: its invariant, operation by operation and over
      runs, and which frames reach whom. [MuxStream]: byte streams and sinks;
      [MuxWatch]: collected deliveries and State subscriptions.
      [MuxStreamFacts]: credit and completion. [MuxProps].

    A Rust [Type::method] is the definition [Type_method]; a struct is a record
    with a short field prefix, an enum an inductive type. A method taking
    [&mut self] returns the new state beside its result; an early return is a
    [reject_if] or the error branch of a bind, in the order of the source. A
    [u8] to [u64] is a [Z], its range stated by the [_wf] predicates; wrapping,
    checked and saturating arithmetic are written out. [usize] has 64 bits, and
    a slice is at most [isize::MAX] bytes long.

    ** What the theorems show

    - Frames: one direction's codec decodes what it encodes, on a stream with
      exact consumption and with every proper prefix reported as truncated;
      whatever decodes is within the negotiated limits and policies; before
      HELLO only HELLO passes; policies are the registry's; datagrams carry only
      eligible, loss-tolerant Events.
    - Transfer and State: the receiver refines
      reassembly, is bounded, completes every message sent to it and keeps
      interleaved messages apart; STATE events survive receivers of another
      version; upload stages stay protected.
    - Uplink: no sequence is accepted twice, exactly which packets are
      delivered, refused packets change nothing, nonces never repeat.
    - Composite: classification accepts exactly the encoded offers and is
      invisible to direct links; pairing neither loses nor mispairs a half;
      routes are isolated, and every drop is counted.
    - Packed: the f32 validator as a statement about bit patterns; the Surface
      envelope round-trips and normalises.
    - Positioner: on input within 2^24 the machine arithmetic is exact, and
      popups that may slide or resize end up within bounds of extent 1 or more;
      the program checks no such bound, and beyond it a popup can be placed off
      screen ([popup_off_screen]).
    - Output: every byte and character is sent, kept or counted, whatever the
      chunking, and cuts fall between characters of the whole stream; the EXIT
      event of every process is valid, and the client reads in it exactly what
      the server dropped of each kept stream, which is all that is missing of
      it, but for the unsent rest of a tail that was cut short as it was sent.
    - KV: a mutation refines an atomic, deduplicated commit on an abstract map,
      and is refused, with each error, exactly when stated; a watch replays to the store's
      contents; admission to the writer is exact; after a crash at any point
      the reopened store is a prefix of the commits that contains every one
      confirmed as durable; pruning of old replay records terminates.
    - Channels: in every reachable state links are symmetric, no two pairs and
      no pending connect share a connect id, names and listeners correspond, and the pool is charged for exactly what is held;
      messages reach the paired end and nobody else; an endpoint that leaves
      leaves nothing behind and its peers are told; a connect with room goes
      through; the search for a registry id terminates.
    - Core: a client accepts a HELLO Result iff it is an agreement (everything
      selected was offered, everything required was selected); an accepted
      catalogue is ordered, closed under dependencies and within the registry;
      every family's valid limits can be advertised and are read back; the wire
      laws of every Core message.
    - Native client: from HELLO on, whatever is called, the session stays one the
      client agreed to and parked frames stay within its budget; every call
      returns; a request that is answered returns the answer with other events
      parked in order; downloads return the bytes the chunks make up, uploads
      write all of theirs; the framed reader's own copies of the Core traffic do
      to its fields what the sequential client's do to the session, and without
      datagrams the two return the same frames.
    - Multiplexed client: under any interleaving of its tasks and callers every
      waiting caller is known to the router and parked frames stay within their
      budget; a closed session leaves nobody waiting; a stream gets all of its
      frames, those that came before it was claimed too, and nobody else's; a
      Result ends the one call that asked; a stream's credit is never exceeded
      nor more than a window ahead, and reading it returns all the bytes sent;
      an upload queues all of its own and then CLOSE.

    - Wire families: every message of KV, Channel, Relay, Net, Env and
      Process, of Transfer and State and every datagram payload is read back as
      written, and nothing else is accepted. The [_wf] predicates ask for the
      ranges of the types and, where the encoder writes what no decoder returns,
      exclude it: a descriptor with no direction ([Descriptor_wf], which
      [directionless_refused] shows to be needed), and [Status::Unknown] with
      the code of a named status ([wf_status]).
    - Read-only sessions: however a client's stream is cut into chunks, either
      nothing of it has been sent on or its HELLO asks for a read-only session,
      the rest unchanged; a HELLO with room for the extension goes through.
    - Environment: the server sends exactly the environments that are ordered
      and within the limits, and the client assembles what was sent; whatever
      batches come, an assembler that finishes has the whole of an ordered
      snapshot.
    - Forwarder: whatever the signaling server sends, a peer is only started
      for, and only told, what was sealed with the key of its access; pending
      consumers and peers are bounded, presences expire, and an authentic offer
      is served exactly when there is a place for it as it arrives (a task that
      ended during the turn's wait still holds its own), whatever the pending
      pool holds.

    ** Parameters, bounds and fuel

    Third-party code is a parameter with its documented contract: LZ4 in
    [Frame], HKDF and the AEAD in [Uplink], tokio's streams and channels (the
    classes [AsyncStream], [AsyncSink], [Channel]) in [Composite], tokio's mpsc
    ([Mpsc]) in [Channel], redb, blake3, the clock and the environment in [Kv]
    and [KvWriter], blake3 in [Native], and in [Forwarder] base64, JSON, the
    sealed box, UUIDs and SDP, and the signal numbers in [ProcessWire]; the
    witnesses instantiate each. The order in which a hash
    map is iterated, and where a ring buffer's storage wraps, are arguments the
    theorems quantify over.
    Loops with a bound of their own use it as fuel: the extension loop the hard
    maximum of 4096 entries, [opus_packets] and [metadata_loop] the declared
    count, [Counter_bytes_loop] the length of the data. [Counter_byte_loop] has
    fuel 2, as a byte is read again at most once, and [feed_loop] twice the
    length of the data for the same reason; the proofs show neither runs out.
    [registry_id_loop] tries one id more than there are listeners and
    [prune_persisted_operation_replays] runs once more than the table has
    records; both are proved enough. The native client's loops run once more
    than there are arrivals and parked frames, uploads once per byte. A poll of
    the multiplexed client's streams runs once more than its queue has frames,
    a poll of an upload once per byte and frame besides: it returns pending
    only when the queue is empty or, for uploads, the credit used up.

    ** What is not modelled

    Error texts, asynchronous scheduling (an operation of the sideband, the
    router or the channel fabric is atomic, as is what the client does under
    its lock; the KV writer's steps interleave with the sessions', the client's
    tasks with its callers, a forwarder's turns with what its peers' tasks do to
    their entries, during a turn's wait too). Closing the multiplexed session
    ([shared_close]) is one step, although the source takes the router's lock,
    then the datagrams', then sets the closed flag. The broadcast queue of a
    store's changes ([NATIVE_CHANGE_QUEUE]) is an unbounded list: a receiver
    that lags behind it is not modelled. A process's pipes, and bytes its reader
    had not handed on when it was stopped, are outside of [ProcessWire]. Not
    modelled either are the other wire families (of which only the limits, and the
    datagrams of Surface and Media, are modelled) and the client's typed calls
    over them, the uplink handshake, the server's session loops, the
    forwarder's peer tasks, the spawning of processes, the compositor, media encoders and the processes
    around them: the first are more of the same layouts, the rest is glue over
    operating-system services and third-party stacks. *)

From Stdlib Require Export ZArith Lia.
From coqutil Require Export Byte Word.LittleEndianList.
From stdpp Require Export base list gmap strings numbers.

#[global] Open Scope Z_scope.
#[global] Set Default Goal Selector "!".

Abbreviation byte := Corelib.Init.Byte.byte.

Create HintDb yas.
Create Rewrite HintDb len.

(** ** Results: Rust's [Result<T, E>] with the [?] operator as monadic bind *)

Inductive result (E A : Type) : Type :=
| Ok (a : A)
| Err (e : E).
Arguments Ok {E A} _.
Arguments Err {E A} _.

#[global] Instance result_ret {E} : MRet (result E) := fun _ a => Ok a.
#[global] Instance result_bind {E} : MBind (result E) :=
  fun _ _ k m => match m with Ok a => k a | Err e => Err e end.

Definition is_ok {E A} (r : result E A) : bool :=
  match r with Ok _ => true | Err _ => false end.

(** [o.ok_or(e)] *)
Definition ok_or {E A} (o : option A) (e : E) : result E A :=
  match o with Some a => Ok a | None => Err e end.

(** [if cond { return Err(e); }] *)
Definition reject_if {E} (cond : bool) (e : E) : result E () :=
  if cond then Err e else Ok ().

(** [for x in l { f(x)?; }] *)
Fixpoint for_each {E A} (f : A → result E ()) (l : list A) : result E () :=
  match l with
  | [] => Ok ()
  | x :: l' => _ ← f x; for_each f l'
  end.

(** [for x in l { f(x, &mut acc)?; }] *)
Fixpoint try_fold {E A S} (f : A → S → result E S) (l : list A) (acc : S) : result E S :=
  match l with
  | [] => Ok acc
  | x :: l' => acc' ← f x acc; try_fold f l' acc'
  end.

Lemma bind_ok {E A B} (m : result E A) (k : A → result E B) b :
  m ≫= k = Ok b ↔ ∃ a, m = Ok a ∧ k a = Ok b.
Proof.
  destruct m as [a|]; cbn; [|split; [done|intros (? & [=] & _)]].
  split; [by eexists|intros (? & [= ->] & ?); done].
Qed.

Lemma bind_is_ok {E A B} (k : A → result E B) a : (Ok a ≫= k) = k a.
Proof. done. Qed.

Lemma reject_if_ok {E} c (e : E) u : reject_if c e = Ok u ↔ c = false.
Proof. destruct c, u; cbn; naive_solver. Qed.

Lemma reject_if_false {E} c (e : E) : c = false → reject_if c e = Ok ().
Proof. by intros ->. Qed.

Lemma reject_bind_ok {E A} b (e : E) (k : () → result E A) a :
  (reject_if b e ≫= k) = Ok a ↔ b = false ∧ k () = Ok a.
Proof. destruct b; cbn; naive_solver. Qed.

Lemma guard_false b P `{Decision P} : b && bool_decide P = false ↔ (P → b = false).
Proof. destruct b; case_bool_decide; naive_solver. Qed.

Lemma ok_or_ok {E A} (o : option A) (e : E) a : ok_or o e = Ok a ↔ o = Some a.
Proof. destruct o; cbn; naive_solver. Qed.

Lemma for_each_ok {E A} (f : A → result E ()) l u :
  for_each f l = Ok u ↔ Forall (λ x, f x = Ok ()) l.
Proof.
  destruct u. induction l as [|x l IH]; cbn; [done|].
  rewrite Forall_cons_iff, <- IH. destruct (f x) as [[]|]; cbn; naive_solver.
Qed.

Lemma try_fold_app {E A S} (f : A → S → result E S) l1 l2 acc :
  try_fold f (l1 ++ l2) acc = try_fold f l1 acc ≫= try_fold f l2.
Proof.
  revert acc. induction l1 as [|x l1 IH]; intros acc; cbn; [done|].
  destruct (f x acc); cbn; auto.
Qed.

(** ** Lengths *)

Definition len {A} (l : list A) : Z := Z.of_nat (length l).

Lemma len_nonneg {A} (l : list A) : 0 <= len l.
Proof. unfold len. lia. Qed.
Lemma len_app {A} (l1 l2 : list A) : len (l1 ++ l2) = len l1 + len l2.
Proof. unfold len. rewrite length_app. lia. Qed.
Lemma len_nil {A} : len (@nil A) = 0.
Proof. done. Qed.
Lemma len_cons {A} (x : A) l : len (x :: l) = 1 + len l.
Proof. unfold len. cbn [length]. lia. Qed.
Lemma len_zero {A} (l : list A) : len l = 0 ↔ l = [].
Proof. destruct l; rewrite ?len_cons; [done|]. pose proof (len_nonneg l). naive_solver lia. Qed.

Lemma to_nat_len {A} (l : list A) : Z.to_nat (len l) = length l.
Proof. unfold len. lia. Qed.

(** [v.is_empty()] *)
Definition is_nil {A} (l : list A) : bool := match l with [] => true | _ => false end.
Lemma is_nil_true {A} (l : list A) : is_nil l = true ↔ l = [].
Proof. by destruct l. Qed.
Lemma is_nil_false {A} (l : list A) : is_nil l = false ↔ l ≠ [].
Proof. by destruct l. Qed.

(** ** Machine integers

    A [u8], [u16], [u32], [u64] or [usize] is a [Z] in its range; arithmetic
    that can wrap, saturate or fail is written out. [usize] has 64 bits and a
    slice is at most [isize::MAX] bytes long, as Rust guarantees. *)

Abbreviation is_u8 z := (0 <= z < 256).
Abbreviation is_u16 z := (0 <= z < 65536).
Abbreviation is_u32 z := (0 <= z < 4294967296).
Abbreviation is_u64 z := (0 <= z < 18446744073709551616).

Definition U8_MAX : Z := 255.
Definition U16_MAX : Z := 65535.
Definition U32_MAX : Z := 4294967295.
Definition U64_MAX : Z := 18446744073709551615.
Definition USIZE_MAX : Z := 18446744073709551615.
Definition ISIZE_MAX : Z := 9223372036854775807.

(** [a.checked_add(b)] on [u64]/[usize]: [None] on overflow. *)
Definition checked_add_u64 (a b : Z) : option Z :=
  if a + b <=? U64_MAX then Some (a + b) else None.
(** [a.checked_sub(b)] on an unsigned type. *)
Definition checked_sub (a b : Z) : option Z := if b <=? a then Some (a - b) else None.
(** [a.saturating_sub(b)] on an unsigned type. *)
Definition saturating_sub (a b : Z) : Z := Z.max 0 (a - b).
Definition saturating_add_u64 (a b : Z) : Z := Z.min U64_MAX (a + b).
Definition saturating_mul_u64 (a b : Z) : Z := Z.min U64_MAX (a * b).
Definition checked_mul_u64 (a b : Z) : option Z :=
  if a * b <=? U64_MAX then Some (a * b) else None.
(** [u16::try_from(n)] and [u32::try_from(n)] for an unsigned [n]. *)
Definition try_u16 (n : Z) : option Z := if n <=? U16_MAX then Some n else None.
Definition try_u32 (n : Z) : option Z := if n <=? U32_MAX then Some n else None.
Definition try_u8 (n : Z) : option Z := if n <=? U8_MAX then Some n else None.
(** [value as u8], [value as u16] *)
Definition as_u8 (z : Z) : Z := z mod 256.
Definition as_u16 (z : Z) : Z := z mod 65536.
Definition as_u32 (z : Z) : Z := z mod 4294967296.
(** [u8::from(b)], [u16::from(b)] *)
Definition of_bool (b : bool) : Z := if b then 1 else 0.
(** [x & !mask != 0]: some bit outside [mask] is set. *)
Definition has_other_bits (x mask : Z) : bool := negb (Z.land x (Z.lnot mask) =? 0).
(** [x & mask != 0] *)
Definition has_bits (x mask : Z) : bool := negb (Z.land x mask =? 0).

Lemma checked_add_u64_some a b c : checked_add_u64 a b = Some c ↔ c = a + b ∧ a + b <= U64_MAX.
Proof. unfold checked_add_u64. destruct (Z.leb_spec (a + b) U64_MAX); naive_solver lia. Qed.

(** ** Little-endian integers: [to_le_bytes] and [from_le_bytes] *)

Definition to_le (n : nat) (z : Z) : list byte := le_split n z.
Definition from_le (bs : list byte) : Z := le_combine bs.

Lemma length_to_le n z : length (to_le n z) = n.
Proof. apply length_le_split. Qed.
Lemma len_to_le n z : len (to_le n z) = Z.of_nat n.
Proof. unfold len. by rewrite length_to_le. Qed.
Lemma from_to_le n z : 0 <= z < 2 ^ (Z.of_nat n * 8) → from_le (to_le n z) = z.
Proof. intros Hz. unfold from_le, to_le. rewrite le_combine_split. by apply Z.mod_small. Qed.
Lemma to_from_le n bs : length bs = n → to_le n (from_le bs) = bs.
Proof. intros <-. apply split_le_combine. Qed.
Lemma from_le_bound bs : 0 <= from_le bs < 2 ^ (8 * len bs).
Proof. apply le_combine_bound. Qed.

(** One byte: [out.push(b)] and [bytes[0]]. *)
Definition byte_of (z : Z) : byte := byte.of_Z z.
Definition byte_val (b : byte) : Z := byte.unsigned b.

Lemma byte_of_val b : byte_of (byte_val b) = b.
Proof. apply byte.of_Z_unsigned. Qed.
Lemma byte_val_of z : is_u8 z → byte_val (byte_of z) = z.
Proof. intros Hz. unfold byte_val, byte_of. rewrite byte.unsigned_of_Z. by apply Z.mod_small. Qed.
Lemma byte_val_bound b : is_u8 (byte_val b).
Proof. apply byte.unsigned_range. Qed.

#[global] Instance byte_eq_decision : EqDecision byte := Byte.byte_eq_dec.
#[global] Instance byte_countable : Countable byte.
Proof.
  refine (inj_countable' Byte.to_N (fun n => default Byte.x00 (Byte.of_N n)) _).
  intros b. by rewrite Byte.of_to_N.
Defined.

(** [[0; n]] *)
Definition zeros (n : nat) : list byte := replicate n Byte.x00.

(** A byte string written as numbers. *)
Definition bytes_of (l : list Z) : list byte := map byte_of l.

(** ** Slices *)

(** [s.get(a..b)] *)
Definition slice_get (s : list byte) (a b : Z) : option (list byte) :=
  if (a <=? b) && (b <=? len s)
  then Some (take (Z.to_nat (b - a)) (drop (Z.to_nat a) s)) else None.

(** [s.starts_with(p)] and [s.ends_with(p)] *)
Definition starts_with (s p : list byte) : bool := bool_decide (take (length p) s = p).
Definition ends_with (s p : list byte) : bool :=
  (length p <=? length s)%nat && bool_decide (drop (length s - length p) s = p).

(** [l.windows(2).any(|pair| bad(pair[0], pair[1]))] *)
Fixpoint any_adjacent {A} (bad : A → A → bool) (l : list A) : bool :=
  match l with
  | x :: (y :: _) as l' => bad x y || any_adjacent bad l'
  | _ => false
  end.

(** [l.iter().find(p)] *)
Fixpoint find_first {A} (p : A → bool) (l : list A) : option A :=
  match l with
  | [] => None
  | x :: l' => if p x then Some x else find_first p l'
  end.

Lemma find_first_some {A} (p : A → bool) l x :
  find_first p l = Some x → x ∈ l ∧ p x = true.
Proof.
  induction l as [|y l IH]; cbn; [done|]. destruct (p y) eqn:E.
  - intros [= ->]. split; [left|done].
  - intros H. destruct (IH H). split; [by right|done].
Qed.

Lemma find_first_none {A} (p : A → bool) l :
  find_first p l = None ↔ ∀ x, x ∈ l → p x = false.
Proof.
  induction l as [|y l IH]; cbn; [set_solver|]. destruct (p y) eqn:E.
  - split; [done|]. intros H. specialize (H y (list_elem_of_here y l)). congruence.
  - rewrite IH. split; intros H x Hx.
    + apply elem_of_cons in Hx as [->|Hx]; auto.
    + apply H. by right.
Qed.

(** ** UTF-8: [core::str::from_utf8]

    A Rust [str] is a byte string in well-formed UTF-8 (no overlong form, no
    surrogate, nothing above U+10FFFF); a [String] is modelled as its bytes. *)

Definition in_range (lo hi : Z) (b : byte) : bool := (lo <=? byte_val b) && (byte_val b <=? hi).
Definition is_cont : byte → bool := in_range 0x80 0xBF.

Fixpoint utf8_valid (l : list byte) : bool :=
  match l with
  | [] => true
  | b0 :: l0 =>
    if in_range 0x00 0x7F b0 then utf8_valid l0
    else match l0 with
    | [] => false
    | b1 :: l1 =>
      if in_range 0xC2 0xDF b0 then is_cont b1 && utf8_valid l1
      else match l1 with
      | [] => false
      | b2 :: l2 =>
        if in_range 0xE0 0xEF b0 then
          in_range (if byte_val b0 =? 0xE0 then 0xA0 else 0x80)
                   (if byte_val b0 =? 0xED then 0x9F else 0xBF) b1
          && is_cont b2 && utf8_valid l2
        else match l2 with
        | [] => false
        | b3 :: l3 =>
          in_range 0xF0 0xF4 b0
          && in_range (if byte_val b0 =? 0xF0 then 0x90 else 0x80)
                      (if byte_val b0 =? 0xF4 then 0x8F else 0xBF) b1
          && is_cont b2 && is_cont b3 && utf8_valid l3
        end
      end
    end
  end.

Definition from_utf8 (l : list byte) : option (list byte) :=
  if utf8_valid l then Some l else None.

(** ** Automation *)

(** Splits a hypothesis of the form [computation = Ok _] into the steps that
    succeeded. *)
Ltac inv_ok1 :=
  match goal with
  | H : _ ≫= _ = Ok _ |- _ =>
      let a := fresh "v" in let Ha := fresh "Hv" in
      apply bind_ok in H as (a & Ha & H)
  | H : reject_if _ _ = Ok _ |- _ => apply reject_if_ok in H
  | H : ok_or _ _ = Ok _ |- _ => apply ok_or_ok in H
  | H : Ok _ = Ok _ |- _ => injection H as H; try subst
  | H : Some _ = Some _ |- _ => injection H as H; try subst
  | H : Err _ = Ok _ |- _ => discriminate H
  | H : None = Some _ |- _ => discriminate H
  | x : () |- _ => destruct x
  end.
Ltac inv_ok := repeat (inv_ok1; cbn beta iota in * ).

(** Case-splits every [if] and [match] of a hypothesis. *)
Ltac split_match H :=
  repeat match type of H with
  | context [match ?x with _ => _ end] => destruct x eqn:?; try discriminate H
  end.

#[global] Hint Rewrite @len_app @len_nil @len_cons @len_to_le : len.
Ltac len_lia :=
  autorewrite with len in *;
  repeat match goal with
  | |- context [len ?l] =>
      lazymatch goal with
      | _ : 0 <= len l |- _ => fail
      | _ => pose proof (len_nonneg l)
      end
  end; lia.
