(* ===== verification/Schema.v ===== *)
(** * Schema: the generated registry of [crates/yas/src/generated.rs]

    The transport, state, core and transfer constants, and the per-family
    tables of operations (class, kind, direction, SENSITIVE and compression
    policy, datagram predicate) and limits that [FrameCodec], [HELLO]
    negotiation and the datagram path consult. The tables are transcribed in
    full, the operation layouts (documentation strings) left out. *)

From S2P Require Import Prelude.

Record OperationMetadata := mkOp {
  op_name : string; op_class : Z; op_kind : Z; op_direction : Z;
  op_sensitive : Z; op_compression : Z; op_datagram : Z
}.

Inductive LimitValueType := U32 | U64.

Definition LimitValueType_width (t : LimitValueType) : Z := match t with U32 => 4 | U64 => 8 end.

Record LimitMetadata := mkLimit {
  lim_name : string; lim_tag : Z; lim_type : LimitValueType; lim_required : bool;
  lim_hard_min : Z; lim_hard_max : Z
}.

Record FamilyMetadata := mkFamily {
  fam_name : string; fam_id : Z; fam_version : Z; fam_dependencies : list Z;
  fam_operations : list OperationMetadata; fam_limits : list LimitMetadata
}.

(** ** Constants of [transport] *)

Definition transport_PREFACE : list byte := bytes_of [89; 65; 83; 0; 1; 0; 13; 10].
Definition transport_PROTOCOL_MAJOR : Z := 1.
Definition transport_STREAM_LENGTH_BITS : Z := 32.
Definition transport_STREAM_LENGTH_BYTES : Z := 4.
Definition transport_EVENT_HEADER_BYTES : Z := 5.
Definition transport_CORRELATED_HEADER_BYTES : Z := 9.
Definition transport_RECOMMENDED_WIRE_FRAME : Z := 1048576.
Definition transport_RECOMMENDED_DECODED_FRAME : Z := 4194304.
Definition transport_RECOMMENDED_BUFFERED : Z := 16777216.
Definition transport_CLASS_MASK : Z := 3.
Definition transport_META_COMPRESSED : Z := 4.
Definition transport_META_SENSITIVE : Z := 8.
Definition transport_META_RESERVED : Z := 240.
Definition transport_PRE_HELLO_MAX_FRAME : Z := 65536.
Definition transport_HARD_MAX_WIRE_FRAME : Z := 16777216.
Definition transport_HARD_MAX_DECODED_FRAME : Z := 67108864.
Definition transport_HARD_MAX_DATAGRAM : Z := 65536.
Definition transport_HARD_MAX_BULK_CHUNK : Z := 65536.
Definition transport_HARD_MAX_BUFFERED : Z := 1073741824.
Definition transport_HARD_MAX_EXTENSION_ENTRIES : Z := 4096.
Definition transport_HARD_MAX_TYPED_RECORDS : Z := 4096.
Definition transport_class_EVENT : Z := 0.
Definition transport_class_REQUEST : Z := 1.
Definition transport_class_RESULT : Z := 2.
Definition transport_codec_LZ4 : Z := 1.
Definition transport_direction_CLIENT_TO_SERVER : Z := 0.
Definition transport_direction_SERVER_TO_CLIENT : Z := 1.
Definition transport_direction_BIDIRECTIONAL : Z := 2.
Definition transport_policy_ALLOWED : Z := 0.
Definition transport_policy_REQUIRED : Z := 1.
Definition transport_policy_FORBIDDEN : Z := 2.
Definition transport_datagram_predicate_FORBIDDEN : Z := 0.
Definition transport_datagram_predicate_NET_NATIVE_FLOW : Z := 1.
Definition transport_datagram_predicate_SURFACE_FRAME : Z := 2.
Definition transport_datagram_predicate_MEDIA_FRAME : Z := 3.

(** ** Constants of [state] *)

Definition state_WATCH_RESUME : Z := 1.
Definition state_MODE_SNAPSHOT : Z := 0.
Definition state_MODE_REPLAY : Z := 1.
Definition state_PHASE_SNAPSHOT_BEGIN : Z := 0.
Definition state_PHASE_SNAPSHOT_RECORDS : Z := 1.
Definition state_PHASE_SNAPSHOT_END : Z := 2.
Definition state_PHASE_DELTA : Z := 3.
Definition state_PHASE_RESET : Z := 4.
Definition state_RECORD_ADD : Z := 0.
Definition state_RECORD_REPLACE : Z := 1.
Definition state_RECORD_PATCH : Z := 2.
Definition state_RECORD_REMOVE : Z := 3.

(** ** Constants of [family] *)

Definition family_CORE : Z := 0x0000.
Definition family_TRANSFER : Z := 0x0001.
Definition family_RELAY : Z := 0x0002.
Definition family_TERMINAL : Z := 0x0010.
Definition family_CLIENT : Z := 0x0011.
Definition family_SURFACE : Z := 0x0020.
Definition family_SELECTION : Z := 0x0021.
Definition family_DESKTOP : Z := 0x0022.
Definition family_MEDIA : Z := 0x0023.
Definition family_FONT : Z := 0x0024.
Definition family_FS : Z := 0x0030.
Definition family_GIT : Z := 0x0031.
Definition family_LSP : Z := 0x0032.
Definition family_KV : Z := 0x0033.
Definition family_PROCESS : Z := 0x0040.
Definition family_NET : Z := 0x0041.
Definition family_CHANNEL : Z := 0x0042.
Definition family_EXTENSION : Z := 0x0043.
Definition family_EVENTS : Z := 0x0044.
Definition family_ENV : Z := 0x0045.

(** ** Constants of [packed_codec] *)

Definition packed_codec_events_codec_v1_ID : Z := 1.
Definition packed_codec_events_codec_v1_RECORD_REQUIRED : Z := 1.
Definition packed_codec_events_codec_v1_RECORD_FLAGS_MASK : Z := 1.
Definition packed_codec_EVENTS_CODEC_V1 : Z := packed_codec_events_codec_v1_ID.
Definition packed_codec_media_codec_av1_444_ID : Z := 261.
Definition packed_codec_MEDIA_CODEC_AV1_444 : Z := packed_codec_media_codec_av1_444_ID.
Definition packed_codec_media_codec_av1_ID : Z := 257.
Definition packed_codec_MEDIA_CODEC_AV1 : Z := packed_codec_media_codec_av1_ID.
Definition packed_codec_media_codec_h264_444_ID : Z := 260.
Definition packed_codec_MEDIA_CODEC_H264_444 : Z := packed_codec_media_codec_h264_444_ID.
Definition packed_codec_media_codec_h264_ID : Z := 256.
Definition packed_codec_MEDIA_CODEC_H264 : Z := packed_codec_media_codec_h264_ID.
Definition packed_codec_media_codec_mjpeg_ID : Z := 259.
Definition packed_codec_MEDIA_CODEC_MJPEG : Z := packed_codec_media_codec_mjpeg_ID.
Definition packed_codec_media_codec_opus_ID : Z := 3.
Definition packed_codec_media_codec_opus_WIRE_SAMPLE_RATE : Z := 48000.
Definition packed_codec_media_codec_opus_MAX_PACKET_BYTES : Z := 1275.
Definition packed_codec_MEDIA_CODEC_OPUS : Z := packed_codec_media_codec_opus_ID.
Definition packed_codec_media_codec_pcm_f32le_ID : Z := 2.
Definition packed_codec_media_codec_pcm_f32le_SAMPLE_BYTES : Z := 4.
Definition packed_codec_MEDIA_CODEC_PCM_F32LE : Z := packed_codec_media_codec_pcm_f32le_ID.
Definition packed_codec_media_codec_pcm_s16le_ID : Z := 1.
Definition packed_codec_media_codec_pcm_s16le_SAMPLE_BYTES : Z := 2.
Definition packed_codec_MEDIA_CODEC_PCM_S16LE : Z := packed_codec_media_codec_pcm_s16le_ID.
Definition packed_codec_media_codec_vp9_ID : Z := 258.
Definition packed_codec_MEDIA_CODEC_VP9 : Z := packed_codec_media_codec_vp9_ID.
Definition packed_codec_surface_codec_av1_v1_ID : Z := 2.
Definition packed_codec_surface_codec_av1_v1_METADATA_COLOR_SPACE : Z := 1.
Definition packed_codec_surface_codec_av1_v1_METADATA_DAMAGE : Z := 2.
Definition packed_codec_surface_codec_av1_v1_METADATA_DIMENSIONS : Z := 3.
Definition packed_codec_surface_codec_av1_v1_MAX_DAMAGE_RECTS : Z := 256.
Definition packed_codec_surface_codec_av1_v1_METADATA_LOGICAL_DIMENSIONS : Z := 4.
Definition packed_codec_SURFACE_CODEC_AV1_V1 : Z := packed_codec_surface_codec_av1_v1_ID.
Definition packed_codec_surface_codec_h264_v1_ID : Z := 1.
Definition packed_codec_surface_codec_h264_v1_METADATA_COLOR_SPACE : Z := 1.
Definition packed_codec_surface_codec_h264_v1_METADATA_DAMAGE : Z := 2.
Definition packed_codec_surface_codec_h264_v1_METADATA_DIMENSIONS : Z := 3.
Definition packed_codec_surface_codec_h264_v1_MAX_DAMAGE_RECTS : Z := 256.
Definition packed_codec_surface_codec_h264_v1_METADATA_LOGICAL_DIMENSIONS : Z := 4.
Definition packed_codec_SURFACE_CODEC_H264_V1 : Z := packed_codec_surface_codec_h264_v1_ID.
Definition packed_codec_surface_codec_png_v1_ID : Z := 3.
Definition packed_codec_surface_codec_png_v1_METADATA_COLOR_SPACE : Z := 1.
Definition packed_codec_surface_codec_png_v1_METADATA_DAMAGE : Z := 2.
Definition packed_codec_surface_codec_png_v1_METADATA_DIMENSIONS : Z := 3.
Definition packed_codec_surface_codec_png_v1_MAX_DAMAGE_RECTS : Z := 256.
Definition packed_codec_surface_codec_png_v1_METADATA_LOGICAL_DIMENSIONS : Z := 4.
Definition packed_codec_SURFACE_CODEC_PNG_V1 : Z := packed_codec_surface_codec_png_v1_ID.
Definition packed_codec_terminal_grid_codec_v1_ID : Z := 1.
Definition packed_codec_terminal_grid_codec_v1_GRID_PATCH_RUN : Z := 0.
Definition packed_codec_terminal_grid_codec_v1_GRID_PATCH_LIST : Z := 1.
Definition packed_codec_terminal_grid_codec_v1_GRID_PATCH_BITMAP : Z := 2.
Definition packed_codec_terminal_grid_codec_v1_GRID_COPY_RECT : Z := 3.
Definition packed_codec_terminal_grid_codec_v1_GRID_FILL_RECT : Z := 4.
Definition packed_codec_terminal_grid_codec_v1_COMPONENT_LINE_FLAGS : Z := 0.
Definition packed_codec_terminal_grid_codec_v1_COMPONENT_OVERFLOW_STRINGS : Z := 1.
Definition packed_codec_terminal_grid_codec_v1_COMPONENT_HYPERLINKS : Z := 2.
Definition packed_codec_terminal_grid_codec_v1_COMPONENT_KEYBOARD_FLAGS : Z := 3.
Definition packed_codec_terminal_grid_codec_v1_COMPONENT_REQUIRED : Z := 1.
Definition packed_codec_terminal_grid_codec_v1_CELL_BYTES : Z := 12.
Definition packed_codec_terminal_grid_codec_v1_MAX_ULEB32_BYTES : Z := 5.
Definition packed_codec_terminal_grid_codec_v1_MAX_HYPERLINK_URI_BYTES : Z := 4096.
Definition packed_codec_terminal_grid_codec_v1_GOLDEN_FRAME_FLAGS : Z := 253.
Definition packed_codec_TERMINAL_GRID_CODEC_V1 : Z := packed_codec_terminal_grid_codec_v1_ID.

(** ** Constants of [core] *)

Definition core_VERSION : Z := 1.
Definition core_request_HELLO : Z := 0x0000.
Definition core_request_PING : Z := 0x0001.
Definition core_request_CANCEL : Z := 0x0002.
Definition core_request_SESSION_INFO : Z := 0x0003.
Definition core_request_CLIENT_UPDATE : Z := 0x0004.
Definition core_request_SHUTDOWN : Z := 0x0005.
Definition core_event_GOAWAY : Z := 0x0000.
Definition core_event_SESSION_UPDATE : Z := 0x0001.
Definition core_event_FAMILY_UPDATE : Z := 0x0002.
Definition core_status_OK : Z := 0.
Definition core_status_INVALID : Z := 1.
Definition core_status_UNSUPPORTED : Z := 2.
Definition core_status_NOT_FOUND : Z := 3.
Definition core_status_CONFLICT : Z := 4.
Definition core_status_BUSY : Z := 5.
Definition core_status_UNAVAILABLE : Z := 6.
Definition core_status_RESOURCE_EXHAUSTED : Z := 7.
Definition core_status_RATE_LIMITED : Z := 8.
Definition core_status_TIMEOUT : Z := 9.
Definition core_status_CANCELLED : Z := 10.
Definition core_status_STALE : Z := 11.
Definition core_status_IO : Z := 12.
Definition core_status_INTERNAL : Z := 13.
Definition core_RUNTIME_AVAILABLE : Z := 0.
Definition core_RUNTIME_DEGRADED : Z := 1.
Definition core_RUNTIME_UNAVAILABLE : Z := 2.
Definition core_DIRECTION_ACCEPTS : Z := 1.
Definition core_DIRECTION_SENDS : Z := 2.
Definition core_CLIENT_HELLO_IDLE_TIMEOUT_EXTENSION : Z := 1.
Definition core_CLIENT_HELLO_PLATFORM_EXTENSION : Z := 2.
Definition core_CLIENT_HELLO_INITIAL_WATCHES_EXTENSION : Z := 3.
Definition core_CLIENT_HELLO_READ_ONLY_SESSION_EXTENSION : Z := 4.
Definition core_CLIENT_HELLO_IDENTIFIER_EXTENSION : Z := 5.
Definition core_MAX_CLIENT_IDENTIFIER_BYTES : Z := 1024.
Definition core_SERVER_HELLO_INITIAL_WATCH_RESULTS_EXTENSION : Z := 1.
Definition core_SERVER_HELLO_NEGOTIATED_CODECS_EXTENSION : Z := 2.
Definition core_SERVER_HELLO_PLATFORM_EXTENSION : Z := 3.
Definition core_SERVER_HELLO_EXTENSION_SUPPORT_EXTENSION : Z := 4.
Definition core_EXTENSION_SUPPORT_PERSISTENT : Z := 1.
Definition core_EXTENSION_SUPPORT_WASMI : Z := 2.
Definition core_EXTENSION_SUPPORT_QUICKJS : Z := 4.
Definition core_EXTENSION_SUPPORT_COMMAND_PROVIDER : Z := 8.
Definition core_SESSION_INFO_SERVER_DIAGNOSTICS_EXTENSION : Z := 1.
Definition core_GOAWAY_REASON_EXTENSION : Z := 1.

(** ** Constants of [transfer] *)

Definition transfer_VERSION : Z := 1.
Definition transfer_event_BYTE_DATA : Z := 0x0000.
Definition transfer_event_MESSAGE_DATA : Z := 0x0001.
Definition transfer_event_CREDIT : Z := 0x0002.
Definition transfer_event_CLOSE : Z := 0x0003.
Definition transfer_event_RESET : Z := 0x0004.
Definition transfer_MODE_BYTE : Z := 0.
Definition transfer_MODE_MESSAGE : Z := 1.
Definition transfer_DIRECTION_RECEIVER_TO_SENDER : Z := 1.
Definition transfer_DIRECTION_SENDER_TO_RECEIVER : Z := 2.
Definition transfer_MESSAGE_START : Z := 1.
Definition transfer_MESSAGE_END : Z := 2.
Definition transfer_MAX_OPEN_MESSAGES_EXTENSION : Z := 1.
Definition transfer_SENSITIVE_CONTENT_EXTENSION : Z := 2.
Definition transfer_UPLOAD_STAGE_EXTENSION : Z := 3.
Definition transfer_MAX_UPLOAD_STAGE_LIFETIME_NS : Z := 3600000000000.
Definition transfer_DELIVERY_INLINE : Z := 0.
Definition transfer_DELIVERY_TRANSFER : Z := 1.

(** ** Constants of [relay] *)

Definition relay_VERSION : Z := 1.
Definition relay_MAX_ROUTES : Z := 65536.
Definition relay_MAX_LINKS_PER_SESSION : Z := 4096.
Definition relay_MAX_PENDING_CONNECTS : Z := 1024.
Definition relay_MAX_EARLY_DATA : Z := 65536.
Definition relay_CONNECT_TIMEOUT_NS : Z := 300000000000.
Definition relay_MAX_BUFFERED_PER_LINK : Z := 1073741824.
Definition relay_LIMIT_MAX_ROUTES : Z := 1.
Definition relay_LIMIT_MAX_LINKS_PER_SESSION : Z := 2.
Definition relay_LIMIT_MAX_PENDING_CONNECTS : Z := 3.
Definition relay_LIMIT_MAX_EARLY_DATA : Z := 4.
Definition relay_LIMIT_CONNECT_TIMEOUT_NS : Z := 5.
Definition relay_LIMIT_MAX_BUFFERED_PER_LINK : Z := 6.

(** ** Constants of [font] *)

Definition font_VERSION : Z := 1.
Definition font_MAX_FAMILIES : Z := 65535.
Definition font_MAX_FACES_PER_FAMILY : Z := 65535.
Definition font_MAX_DESCRIPTION_BYTES : Z := 67108864.
Definition font_MAX_FACE_BYTES : Z := 67108864.
Definition font_MAX_CONCURRENT_FETCHES : Z := 1024.
Definition font_MAX_SCAN_DURATION_NS : Z := 300000000000.
Definition font_MAX_REFRESH_INTERVAL_NS : Z := 86400000000000.
Definition font_LIMIT_MAX_FAMILIES : Z := 1.
Definition font_LIMIT_MAX_FACES_PER_FAMILY : Z := 2.
Definition font_LIMIT_MAX_DESCRIPTION_BYTES : Z := 3.
Definition font_LIMIT_MAX_FACE_BYTES : Z := 4.
Definition font_LIMIT_MAX_CONCURRENT_FETCHES : Z := 5.
Definition font_LIMIT_MAX_SCAN_DURATION_NS : Z := 6.
Definition font_LIMIT_REFRESH_INTERVAL_NS : Z := 7.

(** ** Constants of [terminal] *)

Definition terminal_VERSION : Z := 1.
Definition terminal_MAX_TERMINALS_PER_SESSION : Z := 65535.
Definition terminal_MAX_VIEWS_PER_SESSION : Z := 4096.
Definition terminal_MAX_VIEW_ROWS : Z := 4096.
Definition terminal_MAX_VIEW_COLS : Z := 4096.
Definition terminal_MAX_INPUT_BYTES : Z := 16384.
Definition terminal_MAX_INLINE_QUERY_BYTES : Z := 32768.
Definition terminal_MAX_QUERY_RECORDS : Z := 4096.
Definition terminal_MAX_HYPERLINK_URI_BYTES : Z := 4096.
Definition terminal_LIMIT_MAX_TERMINALS_PER_SESSION : Z := 1.
Definition terminal_LIMIT_MAX_VIEWS_PER_SESSION : Z := 2.
Definition terminal_LIMIT_MAX_VIEW_ROWS : Z := 3.
Definition terminal_LIMIT_MAX_VIEW_COLS : Z := 4.
Definition terminal_LIMIT_MAX_INPUT_BYTES : Z := 5.
Definition terminal_LIMIT_MAX_INLINE_QUERY_BYTES : Z := 6.
Definition terminal_LIMIT_MAX_QUERY_RECORDS : Z := 7.
Definition terminal_LIMIT_MAX_HYPERLINK_URI_BYTES : Z := 8.

(** ** Constants of [client] *)

Definition client_VERSION : Z := 1.
Definition client_MAX_ACTIVE_SUBSCRIPTIONS : Z := 4096.
Definition client_MAX_PUBLISHED_CLIENTS : Z := 4096.
Definition client_LIMIT_MAX_PUBLISHED_CLIENTS : Z := 1.
Definition client_LIMIT_MAX_ACTIVE_SUBSCRIPTIONS : Z := 2.

(** ** Constants of [surface] *)

Definition surface_VERSION : Z := 1.
Definition surface_MAX_INLINE_CURSOR_BYTES : Z := 32768.
Definition surface_FRAME_KEYFRAME : Z := 1.
Definition surface_FRAME_CODEC_CONFIG : Z := 2.
Definition surface_FRAME_DISCARDABLE : Z := 4.
Definition surface_FRAME_END_OF_STREAM : Z := 8.
Definition surface_FRAME_GAP : Z := 16.
Definition surface_FRAME_DATAGRAM_ELIGIBLE : Z := 32.
Definition surface_FRAME_FLAGS_MASK : Z := 63.
Definition surface_MAX_REMOTE_CONTACTS : Z := 64.
Definition surface_MAX_SURFACES_PER_SESSION : Z := 4096.
Definition surface_MAX_VIEWS_PER_SESSION : Z := 4096.
Definition surface_MAX_VIEW_DIMENSION : Z := 4096.
Definition surface_MAX_VIEW_PIXELS : Z := 16777216.
Definition surface_MAX_FRAME_RATE : Z := 240.
Definition surface_MAX_APP_ENDPOINTS_PER_SESSION : Z := 1024.
Definition surface_MAX_APP_ENDPOINT_LIFETIME_NS : Z := 86400000000000.
Definition surface_LIMIT_MAX_SURFACES_PER_SESSION : Z := 1.
Definition surface_LIMIT_MAX_VIEWS_PER_SESSION : Z := 2.
Definition surface_LIMIT_MAX_VIEW_DIMENSION : Z := 3.
Definition surface_LIMIT_MAX_VIEW_PIXELS : Z := 4.
Definition surface_LIMIT_MAX_FRAME_RATE : Z := 5.
Definition surface_LIMIT_MAX_INLINE_CURSOR_BYTES : Z := 6.
Definition surface_LIMIT_MAX_REMOTE_CONTACTS : Z := 7.
Definition surface_LIMIT_MAX_APP_ENDPOINTS_PER_SESSION : Z := 8.
Definition surface_LIMIT_MAX_APP_ENDPOINT_LIFETIME_NS : Z := 9.
Definition surface_CODEC_AV1_V1 : Z := packed_codec_SURFACE_CODEC_AV1_V1.
Definition surface_CODEC_H264_V1 : Z := packed_codec_SURFACE_CODEC_H264_V1.
Definition surface_CODEC_PNG_V1 : Z := packed_codec_SURFACE_CODEC_PNG_V1.

(** ** Constants of [selection] *)

Definition selection_VERSION : Z := 1.
Definition selection_MAX_INLINE_BYTES : Z := 32768.
Definition selection_MAX_ITEMS : Z := 256.
Definition selection_MAX_MIME_BYTES : Z := 255.
Definition selection_MAX_ITEM_NAME_BYTES : Z := 1024.
Definition selection_MAX_ACTIVE_DRAGS_PER_SESSION : Z := 256.
Definition selection_MAX_STAGES_PER_SESSION : Z := 256.
Definition selection_MAX_STAGED_BYTES_PER_STAGE : Z := 1073741824.
Definition selection_LIMIT_MAX_INLINE_BYTES : Z := 1.
Definition selection_LIMIT_MAX_ITEMS : Z := 2.
Definition selection_LIMIT_MAX_MIME_BYTES : Z := 3.
Definition selection_LIMIT_MAX_ITEM_NAME_BYTES : Z := 4.
Definition selection_LIMIT_MAX_ACTIVE_DRAGS_PER_SESSION : Z := 5.
Definition selection_LIMIT_MAX_STAGES_PER_SESSION : Z := 6.
Definition selection_LIMIT_MAX_STAGED_BYTES_PER_STAGE : Z := 7.
Definition selection_MAX_MUTATION_REPLAYS : Z := 65536.
Definition selection_LIMIT_MAX_MUTATION_REPLAYS : Z := 8.

(** ** Constants of [desktop] *)

Definition desktop_VERSION : Z := 1.
Definition desktop_MAX_INLINE_ASSET_BYTES : Z := 32768.
Definition desktop_MAX_INLINE_MENU_BYTES : Z := 32768.
Definition desktop_MAX_MENU_NODES : Z := 4096.
Definition desktop_MAX_NOTIFICATION_ACTIONS : Z := 256.
Definition desktop_MAX_TRAY_ITEMS : Z := 1024.
Definition desktop_MAX_NOTIFICATIONS : Z := 4096.
Definition desktop_LIMIT_MAX_TRAY_ITEMS : Z := 1.
Definition desktop_LIMIT_MAX_NOTIFICATIONS : Z := 2.
Definition desktop_LIMIT_MAX_MENU_NODES : Z := 3.
Definition desktop_LIMIT_MAX_NOTIFICATION_ACTIONS : Z := 4.
Definition desktop_LIMIT_MAX_INLINE_MENU_BYTES : Z := 5.
Definition desktop_LIMIT_MAX_INLINE_ASSET_BYTES : Z := 6.

(** ** Constants of [media] *)

Definition media_VERSION : Z := 1.
Definition media_MAX_INLINE_METADATA_BYTES : Z := 32768.
Definition media_MAX_INLINE_ASSET_BYTES : Z := 32768.
Definition media_FRAME_KEYFRAME : Z := 1.
Definition media_FRAME_DISCONTINUITY : Z := 2.
Definition media_FRAME_END_OF_STREAM : Z := 4.
Definition media_FRAME_DISCARDABLE : Z := 8.
Definition media_FRAME_CODEC_CONFIG : Z := 16.
Definition media_FRAME_FLAGS_MASK : Z := 31.
Definition media_MAX_FORMATS : Z := 64.
Definition media_MAX_PORTAL_METADATA_BYTES : Z := 32768.
Definition media_MAX_PORTAL_STRING_BYTES : Z := 4096.
Definition media_MAX_PORTAL_BODY_BYTES : Z := 16384.
Definition media_MAX_PORTAL_CHOICES : Z := 16.
Definition media_MAX_PORTAL_CHOICE_OPTIONS : Z := 16.
Definition media_MAX_SCREENCAST_CANDIDATES : Z := 64.
Definition media_MAX_DEVICES : Z := 256.
Definition media_MAX_LEASES_PER_SESSION : Z := 64.
Definition media_MAX_STREAMS_PER_SESSION : Z := 256.
Definition media_MAX_PORTALS_PER_SESSION : Z := 64.
Definition media_MAX_PLAYERS : Z := 1024.
Definition media_LIMIT_MAX_DEVICES : Z := 1.
Definition media_LIMIT_MAX_LEASES_PER_SESSION : Z := 2.
Definition media_LIMIT_MAX_STREAMS_PER_SESSION : Z := 3.
Definition media_LIMIT_MAX_PORTALS_PER_SESSION : Z := 4.
Definition media_LIMIT_MAX_PLAYERS : Z := 5.
Definition media_LIMIT_MAX_FORMATS : Z := 6.
Definition media_LIMIT_MAX_INLINE_METADATA_BYTES : Z := 7.
Definition media_LIMIT_MAX_INLINE_ASSET_BYTES : Z := 8.
Definition media_LIMIT_MAX_PORTAL_METADATA_BYTES : Z := 9.
Definition media_LIMIT_MAX_PORTAL_STRING_BYTES : Z := 10.
Definition media_LIMIT_MAX_PORTAL_BODY_BYTES : Z := 11.
Definition media_LIMIT_MAX_PORTAL_CHOICES : Z := 12.
Definition media_LIMIT_MAX_PORTAL_CHOICE_OPTIONS : Z := 13.
Definition media_LIMIT_MAX_SCREENCAST_CANDIDATES : Z := 14.
Definition media_CODEC_AV1_444 : Z := packed_codec_MEDIA_CODEC_AV1_444.
Definition media_CODEC_AV1 : Z := packed_codec_MEDIA_CODEC_AV1.
Definition media_CODEC_H264_444 : Z := packed_codec_MEDIA_CODEC_H264_444.
Definition media_CODEC_H264 : Z := packed_codec_MEDIA_CODEC_H264.
Definition media_CODEC_MJPEG : Z := packed_codec_MEDIA_CODEC_MJPEG.
Definition media_CODEC_OPUS : Z := packed_codec_MEDIA_CODEC_OPUS.
Definition media_CODEC_PCM_F32LE : Z := packed_codec_MEDIA_CODEC_PCM_F32LE.
Definition media_CODEC_PCM_S16LE : Z := packed_codec_MEDIA_CODEC_PCM_S16LE.
Definition media_CODEC_VP9 : Z := packed_codec_MEDIA_CODEC_VP9.

(** ** Constants of [fs] *)

Definition fs_VERSION : Z := 1.
Definition fs_MAX_ROOTS_PER_SESSION : Z := 64.
Definition fs_MAX_WATCHES_PER_ROOT : Z := 32.
Definition fs_MAX_PATH_COMPONENTS : Z := 1024.
Definition fs_MAX_COMPONENT_BYTES : Z := 4096.
Definition fs_MAX_PATH_BYTES : Z := 65535.
Definition fs_MAX_INLINE_BYTES : Z := 32768.
Definition fs_MAX_QUERY_RECORDS : Z := 8192.
Definition fs_MAX_QUERY_BYTES : Z := 4194304.
Definition fs_MAX_STAGES_PER_SESSION : Z := 16.
Definition fs_MAX_STAGED_BYTES : Z := 67108864.
Definition fs_MAX_BATCH_ITEMS : Z := 256.
Definition fs_MAX_QUERY_CONCURRENCY : Z := 8.
Definition fs_MAX_CATALOG_ENTRIES : Z := 1000000.
Definition fs_LIMIT_MAX_ROOTS_PER_SESSION : Z := 1.
Definition fs_LIMIT_MAX_WATCHES_PER_ROOT : Z := 2.
Definition fs_LIMIT_MAX_PATH_COMPONENTS : Z := 3.
Definition fs_LIMIT_MAX_COMPONENT_BYTES : Z := 4.
Definition fs_LIMIT_MAX_PATH_BYTES : Z := 5.
Definition fs_LIMIT_MAX_INLINE_BYTES : Z := 6.
Definition fs_LIMIT_MAX_QUERY_RECORDS : Z := 7.
Definition fs_LIMIT_MAX_QUERY_BYTES : Z := 8.
Definition fs_LIMIT_MAX_STAGES_PER_SESSION : Z := 9.
Definition fs_LIMIT_MAX_STAGED_BYTES : Z := 10.
Definition fs_LIMIT_MAX_BATCH_ITEMS : Z := 11.
Definition fs_LIMIT_MAX_QUERY_CONCURRENCY : Z := 12.
Definition fs_LIMIT_MAX_CATALOG_ENTRIES : Z := 13.
Definition fs_LIMIT_CAPABILITIES : Z := 14.
Definition fs_CAPABILITY_FLAGS : Z := 127.

(** ** Constants of [git] *)

Definition git_VERSION : Z := 1.
Definition git_MAX_REPOSITORIES_PER_SESSION : Z := 64.
Definition git_MAX_WATCHES_PER_REPOSITORY : Z := 32.
Definition git_MAX_WATCHED_QUERIES_PER_REPOSITORY : Z := 16.
Definition git_MAX_QUERY_RECORDS : Z := 4096.
Definition git_MAX_QUERY_BYTES : Z := 4194304.
Definition git_MAX_CURSOR_BYTES : Z := 4096.
Definition git_MAX_SPEC_BYTES : Z := 4096.
Definition git_MAX_INLINE_BYTES : Z := 32768.
Definition git_MAX_CONCURRENT_QUERIES : Z := 8.
Definition git_MAX_CONCURRENT_FETCHES : Z := 4.
Definition git_LIMIT_MAX_REPOSITORIES_PER_SESSION : Z := 1.
Definition git_LIMIT_MAX_WATCHES_PER_REPOSITORY : Z := 2.
Definition git_LIMIT_MAX_WATCHED_QUERIES_PER_REPOSITORY : Z := 3.
Definition git_LIMIT_MAX_QUERY_RECORDS : Z := 4.
Definition git_LIMIT_MAX_QUERY_BYTES : Z := 5.
Definition git_LIMIT_MAX_CURSOR_BYTES : Z := 6.
Definition git_LIMIT_MAX_SPEC_BYTES : Z := 7.
Definition git_LIMIT_MAX_INLINE_BYTES : Z := 8.
Definition git_LIMIT_MAX_CONCURRENT_QUERIES : Z := 9.
Definition git_LIMIT_MAX_CONCURRENT_FETCHES : Z := 10.

(** ** Constants of [lsp] *)

Definition lsp_VERSION : Z := 1.
Definition lsp_MAX_WORKSPACES_PER_SESSION : Z := 64.
Definition lsp_MAX_WATCHES_PER_WORKSPACE : Z := 32.
Definition lsp_MAX_QUERY_RECORDS : Z := 4096.
Definition lsp_MAX_QUERY_BYTES : Z := 4194304.
Definition lsp_MAX_CURSOR_BYTES : Z := 4096.
Definition lsp_MAX_INLINE_BUFFER_BYTES : Z := 32768.
Definition lsp_MAX_BUFFER_BYTES : Z := 67108864.
Definition lsp_MAX_BUFFERS_PER_WORKSPACE : Z := 1024.
Definition lsp_MAX_STAGES_PER_SESSION : Z := 16.
Definition lsp_MAX_SERVERS : Z := 256.
Definition lsp_MAX_DIAGNOSTICS_PER_FILE : Z := 4096.
Definition lsp_MAX_CONCURRENT_QUERIES : Z := 8.
Definition lsp_LIMIT_MAX_WORKSPACES_PER_SESSION : Z := 1.
Definition lsp_LIMIT_MAX_WATCHES_PER_WORKSPACE : Z := 2.
Definition lsp_LIMIT_MAX_QUERY_RECORDS : Z := 3.
Definition lsp_LIMIT_MAX_QUERY_BYTES : Z := 4.
Definition lsp_LIMIT_MAX_CURSOR_BYTES : Z := 5.
Definition lsp_LIMIT_MAX_INLINE_BUFFER_BYTES : Z := 6.
Definition lsp_LIMIT_MAX_BUFFER_BYTES : Z := 7.
Definition lsp_LIMIT_MAX_BUFFERS_PER_WORKSPACE : Z := 8.
Definition lsp_LIMIT_MAX_STAGES_PER_SESSION : Z := 9.
Definition lsp_LIMIT_MAX_DIAGNOSTICS_PER_FILE : Z := 10.
Definition lsp_LIMIT_MAX_SERVERS : Z := 11.
Definition lsp_LIMIT_MAX_CONCURRENT_QUERIES : Z := 12.

(** ** Constants of [kv] *)

Definition kv_VERSION : Z := 1.
Definition kv_MAX_KEY_BYTES : Z := 256.
Definition kv_MAX_VALUE_BYTES : Z := 4194304.
Definition kv_MAX_INLINE_BYTES : Z := 32768.
Definition kv_MAX_ENTRIES : Z := 16384.
Definition kv_MAX_STORE_BYTES : Z := 268435456.
Definition kv_MAX_NAMESPACES_PER_SESSION : Z := 16.
Definition kv_MAX_STAGES_PER_SESSION : Z := 16.
Definition kv_MAX_STAGED_BYTES_PER_SESSION : Z := 67108864.
Definition kv_MAX_BATCH_ITEMS : Z := 256.
Definition kv_LIMIT_MAX_KEY_BYTES : Z := 1.
Definition kv_LIMIT_MAX_VALUE_BYTES : Z := 2.
Definition kv_LIMIT_MAX_INLINE_BYTES : Z := 3.
Definition kv_LIMIT_MAX_ENTRIES : Z := 4.
Definition kv_LIMIT_MAX_STORE_BYTES : Z := 5.
Definition kv_LIMIT_MAX_NAMESPACES_PER_SESSION : Z := 6.
Definition kv_LIMIT_MAX_STAGES_PER_SESSION : Z := 7.
Definition kv_LIMIT_MAX_STAGED_BYTES_PER_SESSION : Z := 8.
Definition kv_LIMIT_MAX_BATCH_ITEMS : Z := 9.

(** ** Constants of [process] *)

Definition process_VERSION : Z := 1.
Definition process_SPAWN_LAUNCHER_FLAGS : Z := 12.
Definition process_SPAWN_LAUNCHER_FLAGS_EXTENDED : Z := 60.
Definition process_MAX_ARGC : Z := 1024.
Definition process_MAX_ARG_BYTES : Z := 1048576.
Definition process_MAX_ENVC : Z := 256.
Definition process_MAX_ENV_BYTES : Z := 1048576.
Definition process_MAX_PROCESSES_PER_SESSION : Z := 16.
Definition process_MAX_PROCESSES : Z := 64.
Definition process_MAX_PENDING_SPAWNS : Z := 8.
Definition process_MAX_STREAM_BUFFER_BYTES : Z := 8388608.
Definition process_MAX_DETACHED_RETENTION_NS : Z := 300000000000.
Definition process_MAX_PROCESSES_PER_SESSION_EXTENDED : Z := 16384.
Definition process_MAX_PROCESSES_EXTENDED : Z := 65536.
Definition process_MAX_PENDING_SPAWNS_EXTENDED : Z := 4096.
Definition process_MAX_STREAM_BUFFER_BYTES_EXTENDED : Z := 1073741824.
Definition process_MAX_ENVC_EXTENDED : Z := 16384.
Definition process_MAX_PENDING_WAITS : Z := 65536.
Definition process_MAX_PENDING_OPERATIONS : Z := 16384.
Definition process_LEGACY_PENDING_WAITS : Z := 32.
Definition process_LEGACY_PENDING_OPERATIONS : Z := 16.
Definition process_LIMIT_MAX_PROCESSES_PER_SESSION_EXTENDED : Z := 12.
Definition process_LIMIT_MAX_PROCESSES_EXTENDED : Z := 13.
Definition process_LIMIT_MAX_PENDING_SPAWNS_EXTENDED : Z := 14.
Definition process_LIMIT_MAX_STREAM_BUFFER_BYTES_EXTENDED : Z := 15.
Definition process_LIMIT_MAX_ENVC_EXTENDED : Z := 16.
Definition process_LIMIT_MAX_PENDING_WAITS : Z := 17.
Definition process_LIMIT_MAX_PENDING_OPERATIONS : Z := 18.
Definition process_LIMIT_MAX_ARGC : Z := 1.
Definition process_LIMIT_MAX_ARG_BYTES : Z := 2.
Definition process_LIMIT_MAX_ENVC : Z := 3.
Definition process_LIMIT_MAX_ENV_BYTES : Z := 4.
Definition process_LIMIT_MAX_PROCESSES_PER_SESSION : Z := 5.
Definition process_LIMIT_MAX_PROCESSES : Z := 6.
Definition process_LIMIT_MAX_PENDING_SPAWNS : Z := 7.
Definition process_LIMIT_MAX_STREAM_BUFFER_BYTES : Z := 8.
Definition process_LIMIT_MAX_DETACHED_RETENTION_NS : Z := 9.
Definition process_MAX_MUTATION_REPLAYS : Z := 65536.
Definition process_LIMIT_MAX_MUTATION_REPLAYS : Z := 10.
Definition process_LIMIT_LAUNCHER_FLAGS : Z := 11.
Definition process_LIMIT_LAUNCHER_FLAGS_EXTENDED : Z := 19.

(** ** Constants of [net] *)

Definition net_VERSION : Z := 1.
Definition net_MAX_HOST_BYTES : Z := 255.
Definition net_MAX_LOCAL_ADDRESS_BYTES : Z := 4096.
Definition net_MAX_PIPE_NAME_BYTES : Z := 4096.
Definition net_MAX_ALPN_PROTOCOLS : Z := 16.
Definition net_MAX_ALPN_BYTES : Z := 255.
Definition net_MAX_EARLY_DATA_BYTES : Z := 16384.
Definition net_MAX_FLOWS_PER_SESSION : Z := 256.
Definition net_MAX_PENDING_OPENS : Z := 32.
Definition net_MAX_BUFFERED_PER_FLOW : Z := 8388608.
Definition net_MAX_DATAGRAM_PAYLOAD : Z := 65507.
Definition net_MAX_DATAGRAM_QUEUE : Z := 256.
Definition net_CONNECT_TIMEOUT_NS : Z := 10000000000.
Definition net_LIMIT_MAX_HOST_BYTES : Z := 1.
Definition net_LIMIT_MAX_LOCAL_ADDRESS_BYTES : Z := 2.
Definition net_LIMIT_MAX_PIPE_NAME_BYTES : Z := 3.
Definition net_LIMIT_MAX_ALPN_PROTOCOLS : Z := 4.
Definition net_LIMIT_MAX_ALPN_BYTES : Z := 5.
Definition net_LIMIT_MAX_EARLY_DATA_BYTES : Z := 6.
Definition net_LIMIT_MAX_FLOWS_PER_SESSION : Z := 7.
Definition net_LIMIT_MAX_PENDING_OPENS : Z := 8.
Definition net_LIMIT_MAX_BUFFERED_PER_FLOW : Z := 9.
Definition net_LIMIT_MAX_DATAGRAM_PAYLOAD : Z := 10.
Definition net_LIMIT_MAX_DATAGRAM_QUEUE : Z := 11.
Definition net_LIMIT_CONNECT_TIMEOUT_NS : Z := 12.
Definition net_MAX_MUTATION_REPLAYS : Z := 65536.
Definition net_LIMIT_MAX_MUTATION_REPLAYS : Z := 13.

(** ** Constants of [channel] *)

Definition channel_VERSION : Z := 1.
Definition channel_MAX_NAME_BYTES : Z := 255.
Definition channel_MAX_METADATA_BYTES : Z := 65536.
Definition channel_MAX_LISTENERS_PER_SESSION : Z := 32.
Definition channel_MAX_CHANNELS_PER_SESSION : Z := 128.
Definition channel_MAX_PENDING_CONNECTS : Z := 32.
Definition channel_MAX_MESSAGE_BYTES : Z := 16777216.
Definition channel_MAX_OPEN_MESSAGES : Z := 16.
Definition channel_CONNECT_TIMEOUT_NS : Z := 30000000000.
Definition channel_LIMIT_MAX_NAME_BYTES : Z := 1.
Definition channel_LIMIT_MAX_METADATA_BYTES : Z := 2.
Definition channel_LIMIT_MAX_LISTENERS_PER_SESSION : Z := 3.
Definition channel_LIMIT_MAX_CHANNELS_PER_SESSION : Z := 4.
Definition channel_LIMIT_MAX_PENDING_CONNECTS : Z := 5.
Definition channel_LIMIT_MAX_MESSAGE_BYTES : Z := 6.
Definition channel_LIMIT_MAX_OPEN_MESSAGES : Z := 7.
Definition channel_LIMIT_CONNECT_TIMEOUT_NS : Z := 8.
Definition channel_MAX_MUTATION_REPLAYS : Z := 65536.
Definition channel_LIMIT_MAX_MUTATION_REPLAYS : Z := 9.

(** ** Constants of [extension] *)

Definition extension_VERSION : Z := 1.
Definition extension_MAX_NAME_BYTES : Z := 255.
Definition extension_MAX_ARGS : Z := 1024.
Definition extension_MAX_ARGUMENT_BYTES : Z := 1048576.
Definition extension_MAX_OBJECT_BYTES : Z := 67108864.
Definition extension_MAX_OUTPUT_RECORD_BYTES : Z := 1048576.
Definition extension_MAX_COMMAND_DESCRIPTOR_BYTES : Z := 65536.
Definition extension_MAX_COMMAND_RECORDS : Z := 32.
Definition extension_MAX_DEFINITIONS : Z := 1024.
Definition extension_MAX_OBJECT_STAGES_PER_SESSION : Z := 8.
Definition extension_MAX_FOLLOWS_PER_SESSION : Z := 128.
Definition extension_MAX_RUNNING_ATTEMPTS : Z := 32.
Definition extension_MAX_MEMORY_BYTES : Z := 134217728.
Definition extension_MAX_JOB_BYTES : Z := 67108864.
Definition extension_MAX_MUTATION_REPLAYS : Z := 65536.
Definition extension_LIMIT_MAX_NAME_BYTES : Z := 1.
Definition extension_LIMIT_MAX_ARGS : Z := 2.
Definition extension_LIMIT_MAX_ARGUMENT_BYTES : Z := 3.
Definition extension_LIMIT_MAX_OBJECT_BYTES : Z := 4.
Definition extension_LIMIT_MAX_OUTPUT_RECORD_BYTES : Z := 5.
Definition extension_LIMIT_MAX_COMMAND_DESCRIPTOR_BYTES : Z := 6.
Definition extension_LIMIT_MAX_COMMAND_RECORDS : Z := 7.
Definition extension_LIMIT_MAX_DEFINITIONS : Z := 8.
Definition extension_LIMIT_MAX_OBJECT_STAGES_PER_SESSION : Z := 9.
Definition extension_LIMIT_MAX_FOLLOWS_PER_SESSION : Z := 10.
Definition extension_LIMIT_MAX_RUNNING_ATTEMPTS : Z := 11.
Definition extension_LIMIT_MAX_MEMORY_BYTES : Z := 12.
Definition extension_LIMIT_MAX_JOB_BYTES : Z := 13.
Definition extension_LIMIT_MAX_MUTATION_REPLAYS : Z := 14.

(** ** Constants of [events] *)

Definition events_VERSION : Z := 1.
Definition events_MIN_RING_BYTES : Z := 4096.
Definition events_MAX_RING_BYTES : Z := 67104768.
Definition events_MAX_STREAMS_PER_SESSION : Z := 16.
Definition events_MAX_RECORDINGS : Z := 64.
Definition events_MAX_RECORDING_PATH_BYTES : Z := 4096.
Definition events_MAX_LIVE_BATCH_BYTES : Z := 65536.
Definition events_MAX_PENDING_DUMPS : Z := 4.
Definition events_LIMIT_MIN_RING_BYTES : Z := 1.
Definition events_LIMIT_MAX_RING_BYTES : Z := 2.
Definition events_LIMIT_MAX_STREAMS_PER_SESSION : Z := 3.
Definition events_LIMIT_MAX_RECORDINGS : Z := 4.
Definition events_LIMIT_MAX_RECORDING_PATH_BYTES : Z := 5.
Definition events_LIMIT_MAX_LIVE_BATCH_BYTES : Z := 6.
Definition events_LIMIT_MAX_PENDING_DUMPS : Z := 7.
Definition events_MAX_MUTATION_REPLAYS : Z := 65536.
Definition events_LIMIT_MAX_MUTATION_REPLAYS : Z := 8.

(** ** Constants of [env] *)

Definition env_VERSION : Z := 1.
Definition env_MAX_KEY_BYTES : Z := 4096.
Definition env_MAX_VALUE_BYTES : Z := 1048576.
Definition env_MAX_ENTRIES : Z := 8192.
Definition env_MAX_TOTAL_DATA_BYTES : Z := 4194304.
Definition env_MAX_INLINE_BYTES : Z := 32768.
Definition env_MAX_BATCH_BYTES : Z := 1052686.
Definition env_LIMIT_MAX_KEY_BYTES : Z := 1.
Definition env_LIMIT_MAX_VALUE_BYTES : Z := 2.
Definition env_LIMIT_MAX_ENTRIES : Z := 3.
Definition env_LIMIT_MAX_TOTAL_DATA_BYTES : Z := 4.
Definition env_LIMIT_MAX_INLINE_BYTES : Z := 5.
Definition env_LIMIT_MAX_BATCH_BYTES : Z := 6.

(** ** Operations and limits of every family *)

Definition core_OPERATIONS : list OperationMetadata := [
  mkOp "HELLO" 1 0 0 0 2 0;
  mkOp "PING" 1 1 2 0 0 0;
  mkOp "CANCEL" 1 2 2 0 0 0;
  mkOp "SESSION_INFO" 1 3 0 0 0 0;
  mkOp "CLIENT_UPDATE" 1 4 0 0 0 0;
  mkOp "SHUTDOWN" 1 5 0 1 0 0;
  mkOp "GOAWAY" 0 0 1 0 0 0;
  mkOp "SESSION_UPDATE" 0 1 1 0 0 0;
  mkOp "FAMILY_UPDATE" 0 2 1 0 0 0
].
Definition core_LIMITS : list LimitMetadata := [

].

Definition transfer_OPERATIONS : list OperationMetadata := [
  mkOp "BYTE_DATA" 0 0 2 0 2 0;
  mkOp "MESSAGE_DATA" 0 1 2 0 2 0;
  mkOp "CREDIT" 0 2 2 0 0 0;
  mkOp "CLOSE" 0 3 2 0 0 0;
  mkOp "RESET" 0 4 2 0 0 0
].
Definition transfer_LIMITS : list LimitMetadata := [

].

Definition relay_OPERATIONS : list OperationMetadata := [
  mkOp "WATCH" 1 0 0 0 0 0;
  mkOp "UNWATCH" 1 1 0 0 0 0;
  mkOp "CONNECT" 1 2 0 1 0 0;
  mkOp "DISCONNECT" 1 3 0 0 0 0;
  mkOp "STATE" 0 0 1 0 0 0;
  mkOp "STATE_ACK" 0 1 0 0 0 0
].
Definition relay_LIMITS : list LimitMetadata := [
  mkLimit "MAX_ROUTES" 1 U32 true 1 65536;
  mkLimit "MAX_LINKS_PER_SESSION" 2 U32 true 1 4096;
  mkLimit "MAX_PENDING_CONNECTS" 3 U32 true 1 1024;
  mkLimit "MAX_EARLY_DATA" 4 U32 true 0 65536;
  mkLimit "CONNECT_TIMEOUT_NS" 5 U64 true 1 300000000000;
  mkLimit "MAX_BUFFERED_PER_LINK" 6 U64 true 1 1073741824
].

Definition terminal_OPERATIONS : list OperationMetadata := [
  mkOp "WATCH" 1 0 0 0 0 0;
  mkOp "UNWATCH" 1 1 0 0 0 0;
  mkOp "CREATE" 1 2 0 1 0 0;
  mkOp "RESTART" 1 3 0 1 0 0;
  mkOp "SIGNAL" 1 4 0 0 0 0;
  mkOp "CLOSE" 1 5 0 0 0 0;
  mkOp "SET_DEADLINE" 1 6 0 0 0 0;
  mkOp "RESIZE" 1 7 0 0 0 0;
  mkOp "SET_FOCUS" 1 8 0 0 0 0;
  mkOp "SCROLL" 1 9 0 0 0 0;
  mkOp "OPEN_VIEW" 1 10 0 0 0 0;
  mkOp "CONFIGURE_VIEW" 1 11 0 0 0 0;
  mkOp "RESET_VIEW" 1 12 0 0 0 0;
  mkOp "READ" 1 13 0 1 0 0;
  mkOp "SEARCH" 1 14 0 1 0 0;
  mkOp "CWD" 1 15 0 1 0 0;
  mkOp "JOURNAL" 1 16 0 1 0 0;
  mkOp "OUTPUT" 1 17 0 1 0 0;
  mkOp "WAIT" 1 18 0 1 0 0;
  mkOp "COPY_RANGE" 1 19 0 1 0 0;
  mkOp "CLOSE_VIEW" 1 20 0 0 0 0;
  mkOp "SEARCH_CATALOG" 1 21 0 1 0 0;
  mkOp "STATE" 0 0 1 1 0 0;
  mkOp "STATE_ACK" 0 1 0 0 0 0;
  mkOp "WRITE" 0 16 0 1 0 0;
  mkOp "INPUT" 0 17 0 1 0 0;
  mkOp "MOUSE" 0 18 0 1 0 0;
  mkOp "WHEEL" 0 19 0 1 0 0;
  mkOp "WHEEL_AT" 0 20 0 1 0 0;
  mkOp "FRAME" 0 32 1 1 2 0;
  mkOp "FRAME_CHUNK" 0 33 1 1 2 0;
  mkOp "FRAME_ACK" 0 34 0 0 0 0
].
Definition terminal_LIMITS : list LimitMetadata := [
  mkLimit "MAX_TERMINALS_PER_SESSION" 1 U32 true 1 65535;
  mkLimit "MAX_VIEWS_PER_SESSION" 2 U32 true 1 4096;
  mkLimit "MAX_VIEW_ROWS" 3 U32 true 1 4096;
  mkLimit "MAX_VIEW_COLS" 4 U32 true 1 4096;
  mkLimit "MAX_INPUT_BYTES" 5 U32 true 1 16384;
  mkLimit "MAX_INLINE_QUERY_BYTES" 6 U32 true 1 32768;
  mkLimit "MAX_QUERY_RECORDS" 7 U32 true 1 4096;
  mkLimit "MAX_HYPERLINK_URI_BYTES" 8 U32 true 1 4096
].

Definition client_OPERATIONS : list OperationMetadata := [
  mkOp "WATCH" 1 0 0 0 0 0;
  mkOp "UNWATCH" 1 1 0 0 0 0;
  mkOp "DISCONNECT" 1 2 0 1 0 0;
  mkOp "STATE" 0 0 1 1 0 0;
  mkOp "STATE_ACK" 0 1 0 0 0 0
].
Definition client_LIMITS : list LimitMetadata := [
  mkLimit "MAX_PUBLISHED_CLIENTS" 1 U32 true 1 4096;
  mkLimit "MAX_ACTIVE_SUBSCRIPTIONS" 2 U32 true 1 4096
].

Definition surface_OPERATIONS : list OperationMetadata := [
  mkOp "WATCH" 1 0 0 0 0 0;
  mkOp "UNWATCH" 1 1 0 0 0 0;
  mkOp "CREATE_APP_ENDPOINT" 1 2 0 1 0 0;
  mkOp "OPEN_VIEW" 1 3 0 0 0 0;
  mkOp "CONFIGURE_VIEW" 1 4 0 0 0 0;
  mkOp "RESET_VIEW" 1 5 0 0 0 0;
  mkOp "CLOSE_VIEW" 1 6 0 0 0 0;
  mkOp "CAPTURE" 1 7 0 1 0 0;
  mkOp "RESIZE" 1 8 0 0 0 0;
  mkOp "FOCUS" 1 9 0 0 0 0;
  mkOp "CLOSE" 1 10 0 0 0 0;
  mkOp "RELEASE_APP_ENDPOINT" 1 11 0 0 0 0;
  mkOp "STATE" 0 0 1 1 0 0;
  mkOp "STATE_ACK" 0 1 0 0 0 0;
  mkOp "KEY" 0 16 0 1 0 0;
  mkOp "TEXT" 0 17 0 1 0 0;
  mkOp "PREEDIT" 0 18 0 1 0 0;
  mkOp "POINTER" 0 19 0 1 0 0;
  mkOp "AXIS" 0 20 0 1 0 0;
  mkOp "TOUCH" 0 21 0 1 0 0;
  mkOp "FRAME_ACK" 0 22 0 0 0 0;
  mkOp "FRAME" 0 32 1 1 2 2;
  mkOp "REMOTE_INPUT" 0 33 1 1 0 0
].
Definition surface_LIMITS : list LimitMetadata := [
  mkLimit "MAX_SURFACES_PER_SESSION" 1 U32 true 1 4096;
  mkLimit "MAX_VIEWS_PER_SESSION" 2 U32 true 1 4096;
  mkLimit "MAX_VIEW_DIMENSION" 3 U32 true 1 4096;
  mkLimit "MAX_VIEW_PIXELS" 4 U64 true 1 16777216;
  mkLimit "MAX_FRAME_RATE" 5 U32 true 1 240;
  mkLimit "MAX_INLINE_CURSOR_BYTES" 6 U32 true 1 32768;
  mkLimit "MAX_REMOTE_CONTACTS" 7 U32 true 1 64;
  mkLimit "MAX_APP_ENDPOINTS_PER_SESSION" 8 U32 true 1 1024;
  mkLimit "MAX_APP_ENDPOINT_LIFETIME_NS" 9 U64 true 1 86400000000000
].

Definition selection_OPERATIONS : list OperationMetadata := [
  mkOp "WATCH" 1 0 0 0 0 0;
  mkOp "UNWATCH" 1 1 0 0 0 0;
  mkOp "SET" 1 2 0 1 0 0;
  mkOp "SET_BEGIN" 1 3 0 1 0 0;
  mkOp "SET_COMMIT" 1 4 0 0 0 0;
  mkOp "GET" 1 5 2 1 0 0;
  mkOp "CLEAR" 1 6 0 0 0 0;
  mkOp "DRAG_BEGIN" 1 7 0 1 0 0;
  mkOp "DRAG_DROP" 1 8 0 1 0 0;
  mkOp "DRAG_CANCEL" 1 9 0 0 0 0;
  mkOp "STATE" 0 0 1 1 0 0;
  mkOp "STATE_ACK" 0 1 0 0 0 0;
  mkOp "DRAG_ENTER" 0 16 2 1 0 0;
  mkOp "DRAG_MOTION" 0 17 2 1 0 0;
  mkOp "DRAG_LEAVE" 0 18 2 1 0 0
].
Definition selection_LIMITS : list LimitMetadata := [
  mkLimit "MAX_INLINE_BYTES" 1 U32 true 1 32768;
  mkLimit "MAX_ITEMS" 2 U32 true 1 256;
  mkLimit "MAX_MIME_BYTES" 3 U32 true 1 255;
  mkLimit "MAX_ITEM_NAME_BYTES" 4 U32 true 1 1024;
  mkLimit "MAX_ACTIVE_DRAGS_PER_SESSION" 5 U32 true 1 256;
  mkLimit "MAX_STAGES_PER_SESSION" 6 U32 true 1 256;
  mkLimit "MAX_STAGED_BYTES_PER_STAGE" 7 U64 true 1 1073741824;
  mkLimit "MAX_MUTATION_REPLAYS" 8 U32 true 1 65536
].

Definition desktop_OPERATIONS : list OperationMetadata := [
  mkOp "WATCH" 1 0 0 0 0 0;
  mkOp "UNWATCH" 1 1 0 0 0 0;
  mkOp "GET_MENU" 1 2 0 1 0 0;
  mkOp "TRAY_ACTION" 1 3 0 1 0 0;
  mkOp "NOTIFICATION_ACTION" 1 4 0 1 0 0;
  mkOp "FETCH_ASSET" 1 5 0 1 0 0;
  mkOp "STATE" 0 0 1 1 0 0;
  mkOp "STATE_ACK" 0 1 0 0 0 0
].
Definition desktop_LIMITS : list LimitMetadata := [
  mkLimit "MAX_TRAY_ITEMS" 1 U32 true 1 1024;
  mkLimit "MAX_NOTIFICATIONS" 2 U32 true 1 4096;
  mkLimit "MAX_MENU_NODES" 3 U32 true 1 4096;
  mkLimit "MAX_NOTIFICATION_ACTIONS" 4 U32 true 1 256;
  mkLimit "MAX_INLINE_MENU_BYTES" 5 U32 true 1 32768;
  mkLimit "MAX_INLINE_ASSET_BYTES" 6 U32 true 1 32768
].

Definition media_OPERATIONS : list OperationMetadata := [
  mkOp "WATCH" 1 0 0 0 0 0;
  mkOp "UNWATCH" 1 1 0 0 0 0;
  mkOp "OPEN_OUTPUT" 1 2 0 1 0 0;
  mkOp "ACQUIRE_DEVICE" 1 3 0 1 0 0;
  mkOp "RELEASE_DEVICE" 1 4 0 1 0 0;
  mkOp "PORTAL_REPLY" 1 5 0 1 0 0;
  mkOp "PLAYER_ACTION" 1 6 0 1 0 0;
  mkOp "CLOSE_STREAM" 1 7 0 1 0 0;
  mkOp "FETCH_ASSET" 1 8 0 1 0 0;
  mkOp "PORTAL_CLOSE" 1 9 0 1 0 0;
  mkOp "STATE" 0 0 1 1 0 0;
  mkOp "STATE_ACK" 0 1 0 0 0 0;
  mkOp "PORTAL_REQUEST" 0 16 1 1 0 0;
  mkOp "FRAME" 0 32 2 1 2 3;
  mkOp "FRAME_ACK" 0 33 2 1 0 0;
  mkOp "STREAM_STATUS" 0 34 1 1 0 0;
  mkOp "PLAYOUT_REPORT" 0 35 0 1 0 0
].
Definition media_LIMITS : list LimitMetadata := [
  mkLimit "MAX_DEVICES" 1 U32 true 1 256;
  mkLimit "MAX_LEASES_PER_SESSION" 2 U32 true 1 64;
  mkLimit "MAX_STREAMS_PER_SESSION" 3 U32 true 1 256;
  mkLimit "MAX_PORTALS_PER_SESSION" 4 U32 true 1 64;
  mkLimit "MAX_PLAYERS" 5 U32 true 1 1024;
  mkLimit "MAX_FORMATS" 6 U32 true 1 64;
  mkLimit "MAX_INLINE_METADATA_BYTES" 7 U32 true 1 32768;
  mkLimit "MAX_INLINE_ASSET_BYTES" 8 U32 true 1 32768;
  mkLimit "MAX_PORTAL_METADATA_BYTES" 9 U32 true 1 32768;
  mkLimit "MAX_PORTAL_STRING_BYTES" 10 U32 true 1 4096;
  mkLimit "MAX_PORTAL_BODY_BYTES" 11 U32 true 1 16384;
  mkLimit "MAX_PORTAL_CHOICES" 12 U32 true 1 16;
  mkLimit "MAX_PORTAL_CHOICE_OPTIONS" 13 U32 true 1 16;
  mkLimit "MAX_SCREENCAST_CANDIDATES" 14 U32 true 1 64
].

Definition font_OPERATIONS : list OperationMetadata := [
  mkOp "WATCH" 1 0 0 0 0 0;
  mkOp "UNWATCH" 1 1 0 0 0 0;
  mkOp "DESCRIBE" 1 2 0 0 0 0;
  mkOp "FETCH" 1 3 0 0 0 0;
  mkOp "STATE" 0 0 1 0 0 0;
  mkOp "STATE_ACK" 0 1 0 0 0 0
].
Definition font_LIMITS : list LimitMetadata := [
  mkLimit "MAX_FAMILIES" 1 U32 true 1 65535;
  mkLimit "MAX_FACES_PER_FAMILY" 2 U32 true 1 65535;
  mkLimit "MAX_DESCRIPTION_BYTES" 3 U64 true 1 67108864;
  mkLimit "MAX_FACE_BYTES" 4 U64 true 1 67108864;
  mkLimit "MAX_CONCURRENT_FETCHES" 5 U32 true 1 1024;
  mkLimit "MAX_SCAN_DURATION_NS" 6 U64 true 1 300000000000;
  mkLimit "REFRESH_INTERVAL_NS" 7 U64 true 0 86400000000000
].

Definition fs_OPERATIONS : list OperationMetadata := [
  mkOp "OPEN" 1 0 0 1 0 0;
  mkOp "CLOSE" 1 1 0 1 0 0;
  mkOp "WATCH" 1 2 0 1 0 0;
  mkOp "UNWATCH" 1 3 0 1 0 0;
  mkOp "FETCH" 1 4 0 1 0 0;
  mkOp "READ" 1 5 0 1 0 0;
  mkOp "SEARCH" 1 6 0 1 0 0;
  mkOp "INDEX" 1 7 0 1 0 0;
  mkOp "GREP" 1 8 0 1 0 0;
  mkOp "STAGE_WRITE" 1 9 0 1 0 0;
  mkOp "COMMIT" 1 10 0 1 0 0;
  mkOp "APPLY" 1 11 0 1 0 0;
  mkOp "PUBLISH" 1 12 0 1 0 0;
  mkOp "STATE" 0 0 1 1 0 0;
  mkOp "STATE_ACK" 0 1 0 0 0 0
].
Definition fs_LIMITS : list LimitMetadata := [
  mkLimit "MAX_ROOTS_PER_SESSION" 1 U32 true 1 64;
  mkLimit "MAX_WATCHES_PER_ROOT" 2 U32 true 1 32;
  mkLimit "MAX_PATH_COMPONENTS" 3 U32 true 1 1024;
  mkLimit "MAX_COMPONENT_BYTES" 4 U32 true 1 4096;
  mkLimit "MAX_PATH_BYTES" 5 U32 true 1 65535;
  mkLimit "MAX_INLINE_BYTES" 6 U32 true 1 32768;
  mkLimit "MAX_QUERY_RECORDS" 7 U32 true 1 8192;
  mkLimit "MAX_QUERY_BYTES" 8 U32 true 1 4194304;
  mkLimit "MAX_STAGES_PER_SESSION" 9 U32 true 1 16;
  mkLimit "MAX_STAGED_BYTES" 10 U64 true 1 67108864;
  mkLimit "MAX_BATCH_ITEMS" 11 U32 true 1 256;
  mkLimit "MAX_QUERY_CONCURRENCY" 12 U32 true 1 8;
  mkLimit "MAX_CATALOG_ENTRIES" 13 U32 true 1 1000000;
  mkLimit "CAPABILITIES" 14 U32 false 0 4294967295
].

Definition git_OPERATIONS : list OperationMetadata := [
  mkOp "OPEN" 1 0 0 1 0 0;
  mkOp "CLOSE" 1 1 0 1 0 0;
  mkOp "WATCH" 1 2 0 1 0 0;
  mkOp "UNWATCH" 1 3 0 1 0 0;
  mkOp "QUERY" 1 4 0 1 0 0;
  mkOp "WATCH_QUERY" 1 5 0 1 0 0;
  mkOp "UNWATCH_QUERY" 1 6 0 1 0 0;
  mkOp "FETCH" 1 7 0 1 0 0;
  mkOp "STATE" 0 0 1 1 0 0;
  mkOp "STATE_ACK" 0 1 0 0 0 0;
  mkOp "QUERY_STATE" 0 2 1 1 0 0;
  mkOp "QUERY_STATE_ACK" 0 3 0 0 0 0;
  mkOp "PROGRESS" 0 4 1 1 0 0;
  mkOp "CLOSED" 0 5 1 1 0 0
].
Definition git_LIMITS : list LimitMetadata := [
  mkLimit "MAX_REPOSITORIES_PER_SESSION" 1 U32 true 1 64;
  mkLimit "MAX_WATCHES_PER_REPOSITORY" 2 U32 true 1 32;
  mkLimit "MAX_WATCHED_QUERIES_PER_REPOSITORY" 3 U32 true 1 16;
  mkLimit "MAX_QUERY_RECORDS" 4 U32 true 1 4096;
  mkLimit "MAX_QUERY_BYTES" 5 U32 true 1 4194304;
  mkLimit "MAX_CURSOR_BYTES" 6 U32 true 1 4096;
  mkLimit "MAX_SPEC_BYTES" 7 U32 true 1 4096;
  mkLimit "MAX_INLINE_BYTES" 8 U32 true 1 32768;
  mkLimit "MAX_CONCURRENT_QUERIES" 9 U32 true 1 8;
  mkLimit "MAX_CONCURRENT_FETCHES" 10 U32 true 1 4
].

Definition lsp_OPERATIONS : list OperationMetadata := [
  mkOp "OPEN" 1 0 0 1 0 0;
  mkOp "CLOSE" 1 1 0 1 0 0;
  mkOp "WATCH" 1 2 0 1 0 0;
  mkOp "UNWATCH" 1 3 0 1 0 0;
  mkOp "QUERY" 1 4 0 1 0 0;
  mkOp "BUFFER_PUT" 1 5 0 1 0 0;
  mkOp "BUFFER_BEGIN" 1 6 0 1 0 0;
  mkOp "BUFFER_COMMIT" 1 7 0 1 0 0;
  mkOp "BUFFER_CLOSE" 1 8 0 1 0 0;
  mkOp "LIST_SERVERS" 1 9 0 1 0 0;
  mkOp "STOP_SERVER" 1 10 0 1 0 0;
  mkOp "STATE" 0 0 1 1 0 0;
  mkOp "STATE_ACK" 0 1 0 0 0 0;
  mkOp "CLOSED" 0 2 1 1 0 0
].
Definition lsp_LIMITS : list LimitMetadata := [
  mkLimit "MAX_WORKSPACES_PER_SESSION" 1 U32 true 1 64;
  mkLimit "MAX_WATCHES_PER_WORKSPACE" 2 U32 true 1 32;
  mkLimit "MAX_QUERY_RECORDS" 3 U32 true 1 4096;
  mkLimit "MAX_QUERY_BYTES" 4 U32 true 1 4194304;
  mkLimit "MAX_CURSOR_BYTES" 5 U32 true 1 4096;
  mkLimit "MAX_INLINE_BUFFER_BYTES" 6 U32 true 1 32768;
  mkLimit "MAX_BUFFER_BYTES" 7 U64 true 1 67108864;
  mkLimit "MAX_BUFFERS_PER_WORKSPACE" 8 U32 true 1 1024;
  mkLimit "MAX_STAGES_PER_SESSION" 9 U32 true 1 16;
  mkLimit "MAX_DIAGNOSTICS_PER_FILE" 10 U32 true 1 4096;
  mkLimit "MAX_SERVERS" 11 U32 true 1 256;
  mkLimit "MAX_CONCURRENT_QUERIES" 12 U32 true 1 8
].

Definition kv_OPERATIONS : list OperationMetadata := [
  mkOp "OPEN" 1 0 0 1 0 0;
  mkOp "CLOSE" 1 1 0 0 0 0;
  mkOp "WATCH" 1 2 0 1 0 0;
  mkOp "UNWATCH" 1 3 0 0 0 0;
  mkOp "GET" 1 4 0 1 0 0;
  mkOp "STAGE_VALUE" 1 5 0 1 0 0;
  mkOp "PUT" 1 6 0 1 0 0;
  mkOp "DELETE" 1 7 0 1 0 0;
  mkOp "BATCH" 1 8 0 1 0 0;
  mkOp "STATE" 0 0 1 1 0 0;
  mkOp "STATE_ACK" 0 1 0 0 0 0
].
Definition kv_LIMITS : list LimitMetadata := [
  mkLimit "MAX_KEY_BYTES" 1 U32 true 1 256;
  mkLimit "MAX_VALUE_BYTES" 2 U64 true 0 4194304;
  mkLimit "MAX_INLINE_BYTES" 3 U32 true 0 32768;
  mkLimit "MAX_ENTRIES" 4 U32 true 1 16384;
  mkLimit "MAX_STORE_BYTES" 5 U64 true 1 268435456;
  mkLimit "MAX_NAMESPACES_PER_SESSION" 6 U32 true 1 16;
  mkLimit "MAX_STAGES_PER_SESSION" 7 U32 true 1 16;
  mkLimit "MAX_STAGED_BYTES_PER_SESSION" 8 U64 true 1 67108864;
  mkLimit "MAX_BATCH_ITEMS" 9 U32 true 1 256
].

Definition process_OPERATIONS : list OperationMetadata := [
  mkOp "WATCH" 1 0 0 1 0 0;
  mkOp "UNWATCH" 1 1 0 0 0 0;
  mkOp "SPAWN" 1 2 0 1 0 0;
  mkOp "ATTACH" 1 3 0 1 0 0;
  mkOp "CONTROL" 1 4 0 1 0 0;
  mkOp "WAIT" 1 5 0 1 0 0;
  mkOp "STATE" 0 0 1 1 0 0;
  mkOp "STATE_ACK" 0 1 0 0 0 0;
  mkOp "EXIT" 0 2 1 1 0 0
].
Definition process_LIMITS : list LimitMetadata := [
  mkLimit "MAX_ARGC" 1 U32 true 1 1024;
  mkLimit "MAX_ARG_BYTES" 2 U32 true 1 1048576;
  mkLimit "MAX_ENVC" 3 U32 true 1 256;
  mkLimit "MAX_ENV_BYTES" 4 U32 true 1 1048576;
  mkLimit "MAX_PROCESSES_PER_SESSION" 5 U32 true 1 16;
  mkLimit "MAX_PROCESSES" 6 U32 true 1 64;
  mkLimit "MAX_PENDING_SPAWNS" 7 U32 true 1 8;
  mkLimit "MAX_STREAM_BUFFER_BYTES" 8 U64 true 1 8388608;
  mkLimit "MAX_DETACHED_RETENTION_NS" 9 U64 true 1 300000000000;
  mkLimit "MAX_MUTATION_REPLAYS" 10 U32 true 1 65536;
  mkLimit "LAUNCHER_FLAGS" 11 U32 false 0 12;
  mkLimit "MAX_PROCESSES_PER_SESSION_EXTENDED" 12 U32 false 1 16384;
  mkLimit "MAX_PROCESSES_EXTENDED" 13 U32 false 1 65536;
  mkLimit "MAX_PENDING_SPAWNS_EXTENDED" 14 U32 false 1 4096;
  mkLimit "MAX_STREAM_BUFFER_BYTES_EXTENDED" 15 U64 false 1 1073741824;
  mkLimit "MAX_ENVC_EXTENDED" 16 U32 false 1 16384;
  mkLimit "MAX_PENDING_WAITS" 17 U32 false 1 65536;
  mkLimit "MAX_PENDING_OPERATIONS" 18 U32 false 1 16384;
  mkLimit "LAUNCHER_FLAGS_EXTENDED" 19 U32 false 0 65535
].

Definition net_OPERATIONS : list OperationMetadata := [
  mkOp "OPEN" 1 0 0 1 0 0;
  mkOp "CLOSE" 1 1 0 1 0 0;
  mkOp "DATAGRAM" 0 0 2 1 2 1;
  mkOp "DATAGRAM_STATS" 0 1 1 1 0 0
].
Definition net_LIMITS : list LimitMetadata := [
  mkLimit "MAX_HOST_BYTES" 1 U32 true 1 255;
  mkLimit "MAX_LOCAL_ADDRESS_BYTES" 2 U32 true 1 4096;
  mkLimit "MAX_PIPE_NAME_BYTES" 3 U32 true 1 4096;
  mkLimit "MAX_ALPN_PROTOCOLS" 4 U32 true 1 16;
  mkLimit "MAX_ALPN_BYTES" 5 U32 true 1 255;
  mkLimit "MAX_EARLY_DATA_BYTES" 6 U32 true 0 16384;
  mkLimit "MAX_FLOWS_PER_SESSION" 7 U32 true 1 256;
  mkLimit "MAX_PENDING_OPENS" 8 U32 true 1 32;
  mkLimit "MAX_BUFFERED_PER_FLOW" 9 U64 true 1 8388608;
  mkLimit "MAX_DATAGRAM_PAYLOAD" 10 U32 true 1 65507;
  mkLimit "MAX_DATAGRAM_QUEUE" 11 U32 true 1 256;
  mkLimit "CONNECT_TIMEOUT_NS" 12 U64 true 1 10000000000;
  mkLimit "MAX_MUTATION_REPLAYS" 13 U32 true 1 65536
].

Definition channel_OPERATIONS : list OperationMetadata := [
  mkOp "WATCH" 1 0 0 1 0 0;
  mkOp "UNWATCH" 1 1 0 0 0 0;
  mkOp "LISTEN" 1 2 0 1 0 0;
  mkOp "CLOSE_LISTENER" 1 3 0 0 0 0;
  mkOp "CONNECT" 1 4 0 1 0 0;
  mkOp "STATE" 0 0 1 1 0 0;
  mkOp "STATE_ACK" 0 1 0 0 0 0;
  mkOp "ACCEPT" 0 2 1 1 0 0
].
Definition channel_LIMITS : list LimitMetadata := [
  mkLimit "MAX_NAME_BYTES" 1 U32 true 1 255;
  mkLimit "MAX_METADATA_BYTES" 2 U32 true 0 65536;
  mkLimit "MAX_LISTENERS_PER_SESSION" 3 U32 true 1 32;
  mkLimit "MAX_CHANNELS_PER_SESSION" 4 U32 true 1 128;
  mkLimit "MAX_PENDING_CONNECTS" 5 U32 true 1 32;
  mkLimit "MAX_MESSAGE_BYTES" 6 U64 true 1 16777216;
  mkLimit "MAX_OPEN_MESSAGES" 7 U32 true 1 16;
  mkLimit "CONNECT_TIMEOUT_NS" 8 U64 true 1 30000000000;
  mkLimit "MAX_MUTATION_REPLAYS" 9 U32 true 1 65536
].

Definition extension_OPERATIONS : list OperationMetadata := [
  mkOp "WATCH" 1 0 0 1 0 0;
  mkOp "UNWATCH" 1 1 0 0 0 0;
  mkOp "OBJECT_BEGIN" 1 2 0 1 0 0;
  mkOp "OBJECT_COMMIT" 1 3 0 1 0 0;
  mkOp "DEPLOY" 1 4 0 1 0 0;
  mkOp "CONTROL" 1 5 0 1 0 0;
  mkOp "FOLLOW" 1 6 0 1 0 0;
  mkOp "DISCOVER_COMMANDS" 1 7 0 1 0 0;
  mkOp "REGISTER_COMMAND" 1 8 0 1 0 0;
  mkOp "STATE" 0 0 1 1 0 0;
  mkOp "STATE_ACK" 0 1 0 0 0 0;
  mkOp "ATTEMPT_CONTEXT" 0 2 1 1 0 0;
  mkOp "ATTEMPT_OUTPUT" 0 3 0 1 0 0
].
Definition extension_LIMITS : list LimitMetadata := [
  mkLimit "MAX_NAME_BYTES" 1 U32 true 1 255;
  mkLimit "MAX_ARGS" 2 U32 true 1 1024;
  mkLimit "MAX_ARGUMENT_BYTES" 3 U64 true 1 1048576;
  mkLimit "MAX_OBJECT_BYTES" 4 U64 true 1 67108864;
  mkLimit "MAX_OUTPUT_RECORD_BYTES" 5 U32 true 1 1048576;
  mkLimit "MAX_COMMAND_DESCRIPTOR_BYTES" 6 U32 true 1 65536;
  mkLimit "MAX_COMMAND_RECORDS" 7 U32 true 1 32;
  mkLimit "MAX_DEFINITIONS" 8 U32 true 1 1024;
  mkLimit "MAX_OBJECT_STAGES_PER_SESSION" 9 U32 true 1 8;
  mkLimit "MAX_FOLLOWS_PER_SESSION" 10 U32 true 1 128;
  mkLimit "MAX_RUNNING_ATTEMPTS" 11 U32 true 1 32;
  mkLimit "MAX_MEMORY_BYTES" 12 U64 true 1 134217728;
  mkLimit "MAX_JOB_BYTES" 13 U64 true 1 67108864;
  mkLimit "MAX_MUTATION_REPLAYS" 14 U32 true 1 65536
].

Definition events_OPERATIONS : list OperationMetadata := [
  mkOp "GET_CONFIG" 1 0 0 1 0 0;
  mkOp "SET_CONFIG" 1 1 0 1 0 0;
  mkOp "DUMP" 1 2 0 1 0 0;
  mkOp "START_STREAM" 1 3 0 1 0 0;
  mkOp "STOP_STREAM" 1 4 0 1 0 0;
  mkOp "START_RECORDING" 1 5 0 1 0 0;
  mkOp "STOP_RECORDING" 1 6 0 1 0 0;
  mkOp "LIST_RECORDINGS" 1 7 0 1 0 0;
  mkOp "RECORD" 0 0 1 1 2 0;
  mkOp "GAP" 0 1 1 1 0 0;
  mkOp "STREAM_STOPPED" 0 2 1 1 0 0
].
Definition events_LIMITS : list LimitMetadata := [
  mkLimit "MIN_RING_BYTES" 1 U64 true 4096 67104768;
  mkLimit "MAX_RING_BYTES" 2 U64 true 4096 67104768;
  mkLimit "MAX_STREAMS_PER_SESSION" 3 U32 true 1 16;
  mkLimit "MAX_RECORDINGS" 4 U32 true 1 64;
  mkLimit "MAX_RECORDING_PATH_BYTES" 5 U32 true 1 4096;
  mkLimit "MAX_LIVE_BATCH_BYTES" 6 U32 true 1 65536;
  mkLimit "MAX_PENDING_DUMPS" 7 U32 true 1 4;
  mkLimit "MAX_MUTATION_REPLAYS" 8 U32 true 1 65536
].

Definition env_OPERATIONS : list OperationMetadata := [
  mkOp "GET" 1 0 0 1 0 0
].
Definition env_LIMITS : list LimitMetadata := [
  mkLimit "MAX_KEY_BYTES" 1 U32 true 1 4096;
  mkLimit "MAX_VALUE_BYTES" 2 U32 true 0 1048576;
  mkLimit "MAX_ENTRIES" 3 U32 true 1 8192;
  mkLimit "MAX_TOTAL_DATA_BYTES" 4 U64 true 1 4194304;
  mkLimit "MAX_INLINE_BYTES" 5 U32 true 1 32768;
  mkLimit "MAX_BATCH_BYTES" 6 U32 true 1 1052686
].

Definition FAMILIES : list FamilyMetadata := [
  mkFamily "yas.core" 0 1 [] core_OPERATIONS core_LIMITS;
  mkFamily "yas.transfer" 1 1 [] transfer_OPERATIONS transfer_LIMITS;
  mkFamily "yas.relay" 2 1 [1] relay_OPERATIONS relay_LIMITS;
  mkFamily "yas.terminal" 16 1 [1] terminal_OPERATIONS terminal_LIMITS;
  mkFamily "yas.client" 17 1 [] client_OPERATIONS client_LIMITS;
  mkFamily "yas.surface" 32 1 [1] surface_OPERATIONS surface_LIMITS;
  mkFamily "yas.selection" 33 1 [1] selection_OPERATIONS selection_LIMITS;
  mkFamily "yas.desktop" 34 1 [1] desktop_OPERATIONS desktop_LIMITS;
  mkFamily "yas.media" 35 1 [1] media_OPERATIONS media_LIMITS;
  mkFamily "yas.font" 36 1 [1] font_OPERATIONS font_LIMITS;
  mkFamily "yas.fs" 48 1 [1] fs_OPERATIONS fs_LIMITS;
  mkFamily "yas.git" 49 1 [1] git_OPERATIONS git_LIMITS;
  mkFamily "yas.lsp" 50 1 [1] lsp_OPERATIONS lsp_LIMITS;
  mkFamily "yas.kv" 51 1 [1] kv_OPERATIONS kv_LIMITS;
  mkFamily "yas.process" 64 1 [1] process_OPERATIONS process_LIMITS;
  mkFamily "yas.net" 65 1 [1] net_OPERATIONS net_LIMITS;
  mkFamily "yas.channel" 66 1 [1] channel_OPERATIONS channel_LIMITS;
  mkFamily "yas.extension" 67 1 [1; 66] extension_OPERATIONS extension_LIMITS;
  mkFamily "yas.events" 68 1 [1] events_OPERATIONS events_LIMITS;
  mkFamily "yas.env" 69 1 [1] env_OPERATIONS env_LIMITS
].

(** [family_metadata]: the metadata of one exact family version. *)
Definition family_metadata (family_id version : Z) : option FamilyMetadata :=
  find_first (fun f => (fam_id f =? family_id) && (fam_version f =? version)) FAMILIES.

(** [operation]: one canonical Request or Event operation of a family. *)
Definition operation (family_id class kind : Z) : option OperationMetadata :=
  f ← find_first (fun f => fam_id f =? family_id) FAMILIES;
  find_first (fun op => (op_class op =? class) && (op_kind op =? kind)) (fam_operations f).
