(* ===== verification/Codec.v ===== *)
(** * Codec: the wire primitives of [crates/yas/src/codec.rs]

    The error type, the bounds-checked [Decoder], the [put_*] writers and the
    [Extensions] tail every YAS message ends with. A writer takes the output
    buffer and returns it extended; a reader is a state-and-error computation
    over the [Decoder] record of the source (input slice and offset). *)

From S2P Require Import Prelude Schema.

Inductive Error : Type :=
| Truncated
| TrailingBytes (n : Z)
| Invalid (what : string)
| InvalidUtf8
| LengthOverflow
| LimitExceeded (limit : string) (actual maximum : Z)
| UnsupportedCodec (codec : Z)
| Compression.

#[global] Instance Error_eq_dec : EqDecision Error.
Proof. solve_decision. Defined.

Abbreviation HARD_MAX_EXTENSION_ENTRIES := transport_HARD_MAX_EXTENSION_ENTRIES.

(** ** Writers *)

Definition put_u16 (out : list byte) (value : Z) : list byte := out ++ to_le 2 value.
Definition put_u32 (out : list byte) (value : Z) : list byte := out ++ to_le 4 value.
Definition put_u64 (out : list byte) (value : Z) : list byte := out ++ to_le 8 value.
(** Signed values go out in two's complement. *)
Definition put_i16 (out : list byte) (value : Z) : list byte := out ++ to_le 2 value.
Definition put_i32 (out : list byte) (value : Z) : list byte := out ++ to_le 4 value.
Definition put_i64 (out : list byte) (value : Z) : list byte := out ++ to_le 8 value.
(** [out.push(value)] *)
Definition push_u8 (out : list byte) (value : Z) : list byte := out ++ [byte_of value].

Definition put_len_u16 (out : list byte) (n : Z) : result Error (list byte) :=
  v ← ok_or (try_u16 n) LengthOverflow;
  Ok (put_u16 out v).

Definition put_len_u32 (out : list byte) (n : Z) : result Error (list byte) :=
  v ← ok_or (try_u32 n) LengthOverflow;
  Ok (put_u32 out v).

Definition put_bytes_u16 (out value : list byte) : result Error (list byte) :=
  out ← put_len_u16 out (len value);
  Ok (out ++ value).

Definition put_bytes_u32 (out value : list byte) : result Error (list byte) :=
  out ← put_len_u32 out (len value);
  Ok (out ++ value).

Definition put_string_u16 (out value : list byte) : result Error (list byte) :=
  put_bytes_u16 out value.

Definition put_string_u32 (out value : list byte) : result Error (list byte) :=
  put_bytes_u32 out value.

(** ** The decoder *)

Record Decoder := mkDecoder { dec_input : list byte; dec_offset : Z }.

Definition decoder (A : Type) : Type := Decoder → result Error (A * Decoder).

#[global] Instance decoder_ret : MRet decoder := fun _ a d => Ok (a, d).
#[global] Instance decoder_bind : MBind decoder :=
  fun _ _ k p d => match p d with Ok (a, d') => k a d' | Err e => Err e end.

(** A fallible computation that does not touch the decoder. *)
Definition lift {A} (r : result Error A) : decoder A :=
  fun d => match r with Ok a => Ok (a, d) | Err e => Err e end.
Definition reject (cond : bool) (e : Error) : decoder () := lift (reject_if cond e).
Definition fail {A} (e : Error) : decoder A := lift (Err e).

(** Runs a reader over a fresh decoder of [input] and returns its value. *)
Definition run {A} (p : decoder A) (d : Decoder) : result Error A :=
  '(a, _) ← p d; Ok a.

Definition Decoder_new (input : list byte) : Decoder :=
  {| dec_input := input; dec_offset := 0 |}.

Definition Decoder_remaining (d : Decoder) : Z := len (dec_input d) - dec_offset d.

Definition Decoder_is_empty (d : Decoder) : bool := Decoder_remaining d =? 0.

(** Reads of the decoder's position inside a reader. *)
Definition remaining : decoder Z := fun d => Ok (Decoder_remaining d, d).
Definition is_empty : decoder bool := fun d => Ok (Decoder_is_empty d, d).

Definition dec_take (n : Z) : decoder (list byte) := fun d =>
  stop ← ok_or (checked_add_u64 (dec_offset d) n) LengthOverflow;
  value ← ok_or (slice_get (dec_input d) (dec_offset d) stop) Truncated;
  Ok (value, {| dec_input := dec_input d; dec_offset := stop |}).

Definition dec_rest : decoder (list byte) := fun d =>
  Ok (drop (Z.to_nat (dec_offset d)) (dec_input d),
      {| dec_input := dec_input d; dec_offset := len (dec_input d) |}).

Definition dec_u8 : decoder Z :=
  bs ← dec_take 1; mret (match bs with b :: _ => byte_val b | [] => 0 end).
Definition dec_u16 : decoder Z := bs ← dec_take 2; mret (from_le bs).
Definition dec_u32 : decoder Z := bs ← dec_take 4; mret (from_le bs).
Definition dec_u64 : decoder Z := bs ← dec_take 8; mret (from_le bs).
(** Two's complement of a [bits]-wide unsigned value. *)
Definition to_signed (bits : Z) (u : Z) : Z := if u <? 2 ^ (bits - 1) then u else u - 2 ^ bits.
Definition dec_i16 : decoder Z := bs ← dec_take 2; mret (to_signed 16 (from_le bs)).
Definition dec_i32 : decoder Z := bs ← dec_take 4; mret (to_signed 32 (from_le bs)).
Definition dec_i64 : decoder Z := bs ← dec_take 8; mret (to_signed 64 (from_le bs)).
Definition dec_array_16 : decoder (list byte) := dec_take 16.
Definition dec_array_32 : decoder (list byte) := dec_take 32.

Definition dec_len_bytes_u16 : decoder (list byte) := n ← dec_u16; dec_take n.
Definition dec_len_bytes_u32 : decoder (list byte) := n ← dec_u32; dec_take n.

Definition dec_string_u16 : decoder (list byte) :=
  bytes ← dec_len_bytes_u16; lift (ok_or (from_utf8 bytes) InvalidUtf8).
Definition dec_string_u32 : decoder (list byte) :=
  bytes ← dec_len_bytes_u32; lift (ok_or (from_utf8 bytes) InvalidUtf8).

Definition dec_finish : decoder () := fun d =>
  if dec_offset d =? len (dec_input d) then Ok ((), d)
  else Err (TrailingBytes (Decoder_remaining d)).

(** [for _ in 0..n { v.push(p(decoder)?); }] *)
Fixpoint dec_repeat {A} (n : nat) (p : decoder A) : decoder (list A) :=
  match n with
  | O => mret []
  | S n' => x ← p; xs ← dec_repeat n' p; mret (x :: xs)
  end.

(** ** Extensions *)

Record Extension := mkExtension { ext_tag : Z; ext_required : bool; ext_value : list byte }.

Abbreviation Extensions := (list Extension).

#[global] Instance Extension_eq_dec : EqDecision Extension.
Proof. solve_decision. Defined.

(** [previous.is_some_and(|tag| tag >= next)] *)
Definition tag_not_after (previous : option Z) (tag : Z) : bool :=
  match previous with Some old => tag <=? old | None => false end.

Fixpoint tags_ordered (previous : option Z) (l : Extensions) : bool :=
  match l with
  | [] => true
  | e :: l' => negb (tag_not_after previous (ext_tag e)) && tags_ordered (Some (ext_tag e)) l'
  end.

Definition Extensions_validate (exts : Extensions) : result Error () :=
  _ ← reject_if (HARD_MAX_EXTENSION_ENTRIES <? len exts)
        (LimitExceeded "extension entries" (len exts) HARD_MAX_EXTENSION_ENTRIES);
  reject_if (negb (tags_ordered None exts)) (Invalid "extension tag order").

Definition encode_entry (e : Extension) (out : list byte) : result Error (list byte) :=
  let out := put_u16 out (ext_tag e) in
  let out := put_u16 out (of_bool (ext_required e)) in
  out ← put_len_u32 out (len (ext_value e));
  Ok (out ++ ext_value e).

Definition Extensions_encode_entries (exts : Extensions) (out : list byte)
    : result Error (list byte) :=
  _ ← Extensions_validate exts;
  try_fold encode_entry exts out.

Definition Extensions_encode_tail (exts : Extensions) (out : list byte)
    : result Error (list byte) :=
  entries ← Extensions_encode_entries exts [];
  out ← put_len_u32 out (len entries);
  Ok (out ++ entries).

(** The loop of [decode_entries]. [room] is how many more entries the hard
    maximum admits, [count] how many were read. *)
Fixpoint decode_entries_loop (room : nat) (count : Z) (previous : option Z)
    : decoder Extensions :=
  fin ← is_empty;
  if (fin : bool) then mret [] else
  match room with
  | O => fail (LimitExceeded "extension entries" (count + 1) HARD_MAX_EXTENSION_ENTRIES)
  | S room' =>
      tag ← dec_u16;
      _ ← reject (tag_not_after previous tag) (Invalid "extension tag order");
      flags ← dec_u16;
      _ ← reject (has_other_bits flags 1) (Invalid "extension flags");
      value ← dec_len_bytes_u32;
      rest ← decode_entries_loop room' (count + 1) (Some tag);
      mret ({| ext_tag := tag; ext_required := has_bits flags 1; ext_value := value |} :: rest)
  end.

(** The loop bound is a large unary number: compare terms before unfolding it. *)
#[global] Strategy 1000 [run decode_entries_loop].

Definition Extensions_decode_entries (input : list byte) : result Error Extensions :=
  run (decode_entries_loop (Z.to_nat HARD_MAX_EXTENSION_ENTRIES) 0 None) (Decoder_new input).

Definition dec_extensions : decoder Extensions :=
  bytes ← dec_len_bytes_u32; lift (Extensions_decode_entries bytes).

Definition Extensions_decode (input : list byte) : result Error Extensions :=
  entries ← run (entries ← dec_len_bytes_u32; _ ← dec_finish; mret entries) (Decoder_new input);
  Extensions_decode_entries entries.

Definition limit_u32 (tag value : Z) : Extension :=
  {| ext_tag := as_u16 tag; ext_required := false; ext_value := to_le 4 value |}.

Definition limit_u64 (tag value : Z) : Extension :=
  {| ext_tag := as_u16 tag; ext_required := false; ext_value := to_le 8 value |}.

(** [extensions.0.iter().find(|extension| extension.tag == tag)] *)
Definition find_ext (exts : Extensions) (tag : Z) : option Extension :=
  find_first (fun e => ext_tag e =? tag) exts.

(** [bytes.try_into::<[u8; n]>()] read as an integer. *)
Definition le_exact (n : Z) (bytes : list byte) : option Z :=
  if len bytes =? n then Some (from_le bytes) else None.

Definition read_limit_u32 (exts : Extensions) (tag : Z) : result Error Z :=
  e ← ok_or (find_ext exts (as_u16 tag)) (Invalid "missing family limit");
  ok_or (le_exact 4 (ext_value e)) (Invalid "family limit length").

Definition read_limit_u64 (exts : Extensions) (tag : Z) : result Error Z :=
  e ← ok_or (find_ext exts (as_u16 tag)) (Invalid "missing family limit");
  ok_or (le_exact 8 (ext_value e)) (Invalid "family limit length").

Definition reject_unknown_required_extensions (exts : Extensions) (known : list Z)
    (context : string) : result Error () :=
  _ ← Extensions_validate exts;
  reject_if (existsb (fun e => ext_required e && negb (existsb (Z.eqb (ext_tag e)) known)) exts)
    (Invalid context).
