(* ===== verification/CodecFacts.v ===== *)
(** * CodecFacts: what the wire primitives promise each other

    [dec_at d l]: decoder [d] stands at the unread bytes [l].
    [reads p bs a]: on input that starts with [bs], reader [p] returns [a] and
    consumes exactly [bs] - what a message's encoder promises its decoder.
    [reads_end] is the same for a reader that consumes its whole input.
    [spells p enc wf]: whatever [p] accepts, the bytes it consumed are exactly
    [enc] of the value it returned, and the value is well-formed - the converse,
    that a decoder accepts nothing but encodings. *)

From S2P Require Import Prelude Schema Codec.

Definition dec_at (d : Decoder) (l : list byte) : Prop :=
  0 <= dec_offset d ∧ dec_offset d + len l = len (dec_input d) ∧
  drop (Z.to_nat (dec_offset d)) (dec_input d) = l ∧ len (dec_input d) <= ISIZE_MAX.

Definition reads {A} (p : decoder A) (bs : list byte) (a : A) : Prop :=
  ∀ d rest, dec_at d (bs ++ rest) → ∃ d', p d = Ok (a, d') ∧ dec_at d' rest.

Definition reads_end {A} (p : decoder A) (bs : list byte) (a : A) : Prop :=
  ∀ d, dec_at d bs → ∃ d', p d = Ok (a, d') ∧ dec_at d' [].

Definition spells {A} (p : decoder A) (enc : A → list byte) (wf : A → Prop) : Prop :=
  ∀ d l a d', dec_at d l → p d = Ok (a, d') →
    ∃ rest, l = enc a ++ rest ∧ dec_at d' rest ∧ wf a.

(** A length-prefixed byte string, as one unit of a layout. *)
Definition lp16 (bs : list byte) : list byte := to_le 2 (len bs) ++ bs.
Definition lp32 (bs : list byte) : list byte := to_le 4 (len bs) ++ bs.

(** ** Positions *)

Lemma dec_at_new input : len input <= ISIZE_MAX → dec_at (Decoder_new input) input.
Proof. intros. unfold dec_at, Decoder_new; cbn. rewrite drop_0. lia || (repeat split; lia). Qed.

Lemma dec_at_len d l : dec_at d l → Decoder_remaining d = len l.
Proof. unfold dec_at, Decoder_remaining. lia. Qed.

Lemma dec_at_fits d l : dec_at d l → len l <= ISIZE_MAX.
Proof. unfold dec_at. lia. Qed.

Lemma dec_at_inj d l1 l2 : dec_at d l1 → dec_at d l2 → l1 = l2.
Proof. unfold dec_at. intros (_&_&<-&_) (_&_&<-&_). done. Qed.

Lemma dec_at_advance d bs rest :
  dec_at d (bs ++ rest) →
  dec_at {| dec_input := dec_input d; dec_offset := dec_offset d + len bs |} rest.
Proof.
  unfold dec_at; cbn. intros (H0 & H1 & H2 & H3). rewrite len_app in H1.
  pose proof (len_nonneg bs). repeat split; [lia|lia| |lia].
  rewrite Z2Nat.inj_add by lia. unfold len. rewrite Nat2Z.id.
  by rewrite <- drop_drop, H2, drop_app_length.
Qed.

Lemma dec_take_at d bs rest :
  dec_at d (bs ++ rest) →
  dec_take (len bs) d
  = Ok (bs, {| dec_input := dec_input d; dec_offset := dec_offset d + len bs |}).
Proof.
  intros (H0 & H1 & H2 & H3). rewrite len_app in H1.
  pose proof (len_nonneg bs). pose proof (len_nonneg rest).
  unfold dec_take, checked_add_u64.
  destruct (Z.leb_spec (dec_offset d + len bs) U64_MAX) as [_|Hov];
    [|unfold ISIZE_MAX, U64_MAX in *; lia].
  cbn. unfold slice_get.
  replace (_ && _) with true by lia. cbn.
  replace (dec_offset d + len bs - dec_offset d) with (len bs) by lia.
  unfold len at 1. rewrite Nat2Z.id, H2. by rewrite take_app_length.
Qed.

Lemma dec_take_ok d l n bs d' :
  dec_at d l → dec_take n d = Ok (bs, d') →
  ∃ rest, l = bs ++ rest ∧ len bs = n ∧ dec_at d' rest.
Proof.
  intros Hd H. unfold dec_take in H. inv_ok.
  apply checked_add_u64_some in Hv as [-> _].
  unfold slice_get in Hv0. split_match Hv0. inv_ok.
  pose proof Hd as (H0 & H1 & H2 & H3).
  rewrite H2 in *. replace (dec_offset d + n - dec_offset d) with n in * by lia.
  exists (drop (Z.to_nat n) l). rewrite take_drop.
  assert (len (take (Z.to_nat n) l) = n) as Hn.
  { unfold len in *. rewrite length_take. lia. }
  split; [done|]. split; [done|].
  pose proof (dec_at_advance d (take (Z.to_nat n) l) (drop (Z.to_nat n) l)) as Hadv.
  rewrite take_drop, Hn in Hadv. by apply Hadv.
Qed.

(** ** [reads]: composing readers along an encoding *)

Lemma reads_mret {A} (a : A) : reads (mret a) [] a.
Proof. intros d rest Hd. by exists d. Qed.

Lemma reads_bind {A B} (p : decoder A) (k : A → decoder B) bs1 bs2 a b :
  reads p bs1 a → reads (k a) bs2 b → reads (p ≫= k) (bs1 ++ bs2) b.
Proof.
  intros Hp Hk d rest Hd. rewrite <- app_assoc in Hd.
  destruct (Hp _ _ Hd) as (d1 & E1 & Hd1). destruct (Hk _ _ Hd1) as (d2 & E2 & Hd2).
  exists d2. split; [|done]. unfold mbind, decoder_bind. by rewrite E1.
Qed.

Lemma reads_bind_nil {A B} (p : decoder A) (k : A → decoder B) bs a b :
  reads p [] a → reads (k a) bs b → reads (p ≫= k) bs b.
Proof. intros. change bs with ([] ++ bs). by eapply reads_bind. Qed.

Lemma reads_end_bind {A B} (p : decoder A) (k : A → decoder B) bs1 bs2 a b :
  reads p bs1 a → reads_end (k a) bs2 b → reads_end (p ≫= k) (bs1 ++ bs2) b.
Proof.
  intros Hp Hk d Hd.
  destruct (Hp _ _ Hd) as (d1 & E1 & Hd1). destruct (Hk _ Hd1) as (d2 & E2 & Hd2).
  exists d2. split; [|done]. unfold mbind, decoder_bind. by rewrite E1.
Qed.

Lemma reads_end_bind_nil {A B} (p : decoder A) (k : A → decoder B) bs a b :
  reads p [] a → reads_end (k a) bs b → reads_end (p ≫= k) bs b.
Proof. intros. change bs with ([] ++ bs). by eapply reads_end_bind. Qed.

Lemma reads_end_bind_all {A B} (p : decoder A) (k : A → decoder B) bs a b :
  reads_end p bs a → reads_end (k a) [] b → reads_end (p ≫= k) bs b.
Proof.
  intros Hp Hk d Hd.
  destruct (Hp _ Hd) as (d1 & E1 & Hd1). destruct (Hk _ Hd1) as (d2 & E2 & Hd2).
  exists d2. split; [|done]. unfold mbind, decoder_bind. by rewrite E1.
Qed.

Lemma reads_reads_end {A} (p : decoder A) bs a : reads p bs a → reads_end p bs a.
Proof. intros Hp d Hd. apply (Hp d []). by rewrite app_nil_r. Qed.

Lemma reads_lift {A} (r : result Error A) a : r = Ok a → reads (lift r) [] a.
Proof. intros -> d rest Hd. by exists d. Qed.

Lemma reads_reject c e : c = false → reads (reject c e) [] ().
Proof. intros ->. by apply reads_lift. Qed.

Lemma reads_take n bs : len bs = n → reads (dec_take n) bs bs.
Proof.
  intros <- d rest Hd. eexists. split; [by apply (dec_take_at _ _ rest)|].
  by apply dec_at_advance.
Qed.

Lemma reads_int n z (p : decoder Z) :
  p = (bs ← dec_take (Z.of_nat n); mret (from_le bs)) →
  0 <= z < 2 ^ (Z.of_nat n * 8) → reads p (to_le n z) z.
Proof.
  intros -> Hz. rewrite <- (app_nil_r (to_le n z)).
  eapply reads_bind; [apply reads_take, len_to_le|].
  rewrite from_to_le by done. apply reads_mret.
Qed.

Lemma reads_u8 z : is_u8 z → reads dec_u8 [byte_of z] z.
Proof.
  intros Hz. change [byte_of z] with ([byte_of z] ++ []).
  eapply reads_bind; [by apply reads_take|].
  cbn. rewrite byte_val_of by done. apply reads_mret.
Qed.
Lemma reads_u16 z : is_u16 z → reads dec_u16 (to_le 2 z) z.
Proof. intros. by apply reads_int. Qed.
Lemma reads_u32 z : is_u32 z → reads dec_u32 (to_le 4 z) z.
Proof. intros. by apply reads_int. Qed.
Lemma reads_u64 z : is_u64 z → reads dec_u64 (to_le 8 z) z.
Proof. intros. by apply reads_int. Qed.

Lemma reads_array_16 bs : length bs = 16%nat → reads dec_array_16 bs bs.
Proof. intros H. apply reads_take. unfold len. by rewrite H. Qed.
Lemma reads_array_32 bs : length bs = 32%nat → reads dec_array_32 bs bs.
Proof. intros H. apply reads_take. unfold len. by rewrite H. Qed.

Lemma reads_len_bytes_u16 bs : len bs <= U16_MAX →
  reads dec_len_bytes_u16 (lp16 bs) bs.
Proof.
  intros H. pose proof (len_nonneg bs). unfold U16_MAX in H.
  eapply reads_bind; [apply reads_u16; lia|by apply reads_take].
Qed.
Lemma reads_len_bytes_u32 bs : len bs <= U32_MAX →
  reads dec_len_bytes_u32 (lp32 bs) bs.
Proof.
  intros H. pose proof (len_nonneg bs). unfold U32_MAX in H.
  eapply reads_bind; [apply reads_u32; lia|by apply reads_take].
Qed.

Lemma reads_string_u16 bs : len bs <= U16_MAX → utf8_valid bs = true →
  reads dec_string_u16 (lp16 bs) bs.
Proof.
  intros H Hu. rewrite <- (app_nil_r (_ bs)).
  eapply reads_bind; [by apply reads_len_bytes_u16|].
  apply reads_lift. unfold from_utf8. by rewrite Hu.
Qed.
Lemma reads_string_u32 bs : len bs <= U32_MAX → utf8_valid bs = true →
  reads dec_string_u32 (lp32 bs) bs.
Proof.
  intros H Hu. rewrite <- (app_nil_r (_ bs)).
  eapply reads_bind; [by apply reads_len_bytes_u32|].
  apply reads_lift. unfold from_utf8. by rewrite Hu.
Qed.

Lemma reads_end_rest bs : reads_end dec_rest bs bs.
Proof.
  intros d (H0 & H1 & H2 & H3). eexists. unfold dec_rest. rewrite H2. split; [done|].
  unfold dec_at; cbn. rewrite to_nat_len, drop_all.
  pose proof (len_nonneg (dec_input d)).
  split; [lia|]. split; [by rewrite len_nil, Z.add_0_r|]. done.
Qed.

Lemma reads_end_finish : reads_end dec_finish [] ().
Proof.
  intros d Hd. exists d. split; [|done]. destruct Hd as (H0 & H1 & _).
  unfold dec_finish. rewrite len_nil in H1. replace (_ =? _) with true by lia. done.
Qed.

Lemma reads_end_mret {A} (a : A) : reads_end (mret a) [] a.
Proof. apply reads_reads_end, reads_mret. Qed.

Lemma reads_repeat {A} (p : decoder A) (enc : A → list byte) l :
  Forall (λ a, reads p (enc a) a) l →
  reads (dec_repeat (length l) p) (concat (map enc l)) l.
Proof.
  induction l as [|x l IH]; intros HF; cbn; [apply reads_mret|].
  apply Forall_cons_iff in HF as [Hx HF].
  eapply reads_bind; [done|]. rewrite <- (app_nil_r (concat _)).
  eapply reads_bind; [by apply IH|]. apply reads_mret.
Qed.

Lemma run_reads_end {A} (p : decoder A) bs a :
  reads_end p bs a → len bs <= ISIZE_MAX → run p (Decoder_new bs) = Ok a.
Proof.
  intros Hp Hlen. destruct (Hp _ (dec_at_new _ Hlen)) as (d' & E & _).
  unfold run. by rewrite E.
Qed.

(** ** [spells]: inverting a successful decode *)

Lemma decoder_bind_ok {A B} (p : decoder A) (k : A → decoder B) d b d' :
  (p ≫= k) d = Ok (b, d') ↔ ∃ a d1, p d = Ok (a, d1) ∧ k a d1 = Ok (b, d').
Proof.
  unfold mbind, decoder_bind. destruct (p d) as [[a d1]|e]; split.
  - intros H. by exists a, d1.
  - intros (? & ? & [= -> ->] & H). done.
  - done.
  - by intros (? & ? & [=] & _).
Qed.

Lemma lift_ok {A} (r : result Error A) d a d' : lift r d = Ok (a, d') ↔ r = Ok a ∧ d' = d.
Proof. unfold lift. destruct r; naive_solver. Qed.

Lemma reject_ok c e d u d' : reject c e d = Ok (u, d') ↔ c = false ∧ d' = d.
Proof. unfold reject. by rewrite lift_ok, reject_if_ok. Qed.

Lemma run_ok {A} (p : decoder A) d a : run p d = Ok a ↔ ∃ d', p d = Ok (a, d').
Proof. unfold run. destruct (p d) as [[a' d']|]; cbn; naive_solver. Qed.

Lemma spells_u8 : spells dec_u8 (λ z, [byte_of z]) (λ z, is_u8 z).
Proof.
  intros d l a d' Hd H. unfold dec_u8 in H.
  apply decoder_bind_ok in H as (bs & d1 & H & [= <- <-]).
  destruct (dec_take_ok _ _ _ _ _ Hd H) as (rest & -> & Hn & Hd1).
  destruct bs as [|b bs]; [discriminate Hn|].
  rewrite len_cons in Hn. assert (bs = []) as -> by (apply len_zero; lia).
  exists rest. rewrite byte_of_val. split; [done|]. split; [done|apply byte_val_bound].
Qed.

Lemma spells_int n (p : decoder Z) :
  p = (bs ← dec_take (Z.of_nat n); mret (from_le bs)) →
  spells p (to_le n) (λ z, 0 <= z < 2 ^ (Z.of_nat n * 8)).
Proof.
  intros -> d l a d' Hd H. apply decoder_bind_ok in H as (bs & d1 & H & [= <- <-]).
  destruct (dec_take_ok _ _ _ _ _ Hd H) as (rest & -> & Hn & Hd1).
  exists rest. rewrite to_from_le by (unfold len in Hn; lia).
  split; [done|]. split; [done|]. rewrite <- Hn, Z.mul_comm. apply from_le_bound.
Qed.

Lemma spells_u16 : spells dec_u16 (to_le 2) (λ z, is_u16 z).
Proof. by apply (spells_int 2). Qed.
Lemma spells_u32 : spells dec_u32 (to_le 4) (λ z, is_u32 z).
Proof. by apply (spells_int 4). Qed.
Lemma spells_u64 : spells dec_u64 (to_le 8) (λ z, is_u64 z).
Proof. by apply (spells_int 8). Qed.

Lemma spells_take n : spells (dec_take n) (λ bs, bs) (λ bs, len bs = n).
Proof.
  intros d l a d' Hd H. destruct (dec_take_ok _ _ _ _ _ Hd H) as (rest & -> & Hn & Hd1).
  by exists rest.
Qed.

Lemma spells_array_16 : spells dec_array_16 (λ bs, bs) (λ bs, length bs = 16%nat).
Proof.
  intros d l a d' Hd H. destruct (spells_take _ _ _ _ _ Hd H) as (rest & -> & Hr & Hn).
  exists rest. split; [done|]. split; [done|]. unfold len in Hn. lia.
Qed.
Lemma spells_array_32 : spells dec_array_32 (λ bs, bs) (λ bs, length bs = 32%nat).
Proof.
  intros d l a d' Hd H. destruct (spells_take _ _ _ _ _ Hd H) as (rest & -> & Hr & Hn).
  exists rest. split; [done|]. split; [done|]. unfold len in Hn. lia.
Qed.

Lemma spells_len_bytes_u16 :
  spells dec_len_bytes_u16 lp16 (λ bs, len bs <= U16_MAX).
Proof.
  intros d l a d' Hd H. apply decoder_bind_ok in H as (n & d1 & H1 & H2).
  destruct (spells_u16 _ _ _ _ Hd H1) as (r1 & -> & Hd1 & Hn).
  destruct (spells_take _ _ _ _ _ Hd1 H2) as (r2 & -> & Hd2 & <-).
  exists r2. unfold lp16. rewrite <- app_assoc. unfold U16_MAX. split; [done|]. split; [done|lia].
Qed.
Lemma spells_len_bytes_u32 :
  spells dec_len_bytes_u32 lp32 (λ bs, len bs <= U32_MAX).
Proof.
  intros d l a d' Hd H. apply decoder_bind_ok in H as (n & d1 & H1 & H2).
  destruct (spells_u32 _ _ _ _ Hd H1) as (r1 & -> & Hd1 & Hn).
  destruct (spells_take _ _ _ _ _ Hd1 H2) as (r2 & -> & Hd2 & <-).
  exists r2. unfold lp32. rewrite <- app_assoc. unfold U32_MAX. split; [done|]. split; [done|lia].
Qed.

Lemma from_utf8_some l l' : from_utf8 l = Some l' ↔ l' = l ∧ utf8_valid l = true.
Proof. unfold from_utf8. destruct (utf8_valid l); naive_solver. Qed.

Lemma spells_string_u16 :
  spells dec_string_u16 lp16
    (λ bs, len bs <= U16_MAX ∧ utf8_valid bs = true).
Proof.
  intros d l a d' Hd H. apply decoder_bind_ok in H as (bs & d1 & H1 & H2).
  apply lift_ok in H2 as [[-> Hu]%ok_or_ok%from_utf8_some ->].
  destruct (spells_len_bytes_u16 _ _ _ _ Hd H1) as (r1 & -> & Hd1 & Hn). by exists r1.
Qed.
Lemma spells_string_u32 :
  spells dec_string_u32 lp32
    (λ bs, len bs <= U32_MAX ∧ utf8_valid bs = true).
Proof.
  intros d l a d' Hd H. apply decoder_bind_ok in H as (bs & d1 & H1 & H2).
  apply lift_ok in H2 as [[-> Hu]%ok_or_ok%from_utf8_some ->].
  destruct (spells_len_bytes_u32 _ _ _ _ Hd H1) as (r1 & -> & Hd1 & Hn). by exists r1.
Qed.

Lemma dec_rest_ok d l bs d' : dec_at d l → dec_rest d = Ok (bs, d') → bs = l ∧ dec_at d' [].
Proof.
  intros Hd H. destruct (reads_end_rest l d Hd) as (d2 & E & Hd2). rewrite H in E.
  by injection E as -> ->.
Qed.

Lemma dec_finish_ok d l u d' : dec_at d l → dec_finish d = Ok (u, d') → l = [] ∧ d' = d.
Proof.
  intros (H0 & H1 & _) H. unfold dec_finish in H. split_match H. injection H as <- <-.
  split; [|done]. apply len_zero. lia.
Qed.

Lemma spells_repeat {A} (p : decoder A) enc wf n :
  spells p enc wf →
  spells (dec_repeat n p) (λ l, concat (map enc l)) (λ l, Forall wf l ∧ length l = n).
Proof.
  intros Hp. induction n as [|n IH]; cbn; intros d l a d' Hd H.
  - injection H as <- <-. by exists l.
  - apply decoder_bind_ok in H as (x & d1 & H1 & H).
    apply decoder_bind_ok in H as (xs & d2 & H2 & [= <- <-]).
    destruct (Hp _ _ _ _ Hd H1) as (r1 & -> & Hd1 & Hx).
    destruct (IH _ _ _ _ Hd1 H2) as (r2 & -> & Hd2 & HF & Hl).
    exists r2. cbn. rewrite <- app_assoc. split; [done|]. split; [done|].
    split; [by constructor|by rewrite Hl].
Qed.

(** ** Flag words *)

Lemma has_other_bits_ones f k : 0 <= k → 0 <= f →
  has_other_bits f (Z.ones k) = false ↔ f < 2 ^ k.
Proof.
  intros Hk Hf. unfold has_other_bits. rewrite negb_false_iff, Z.eqb_eq.
  rewrite <- Z.ldiff_land, Z.ldiff_ones_r, Z.shiftl_mul_pow2, Z.shiftr_div_pow2 by done.
  assert (0 < 2 ^ k) by (apply Z.pow_pos_nonneg; lia).
  split; intros H1.
  - assert (f / 2 ^ k = 0) as [?|?]%Z.div_small_iff by nia; lia.
  - rewrite Z.div_small by lia. done.
Qed.

Lemma flag_of_bool f : 0 <= f → has_other_bits f 1 = false → f = of_bool (has_bits f 1).
Proof.
  intros Hf H. apply (has_other_bits_ones f 1) in H; [|lia|done]. change (2 ^ 1) with 2 in H.
  assert (f = 0 ∨ f = 1) as [-> | ->] by lia; done.
Qed.

(** ** Automation for layouts *)

Create HintDb reads.
Create HintDb spells.
#[export] Hint Resolve reads_u8 reads_u16 reads_u32 reads_u64 reads_array_16 reads_array_32
  reads_len_bytes_u16 reads_len_bytes_u32 reads_string_u16 reads_string_u32 reads_take : reads.
#[export] Hint Resolve spells_u8 spells_u16 spells_u32 spells_u64 spells_array_16 spells_array_32
  spells_len_bytes_u16 spells_len_bytes_u32 spells_string_u16 spells_string_u32 spells_take
  : spells.
#[export] Hint Extern 5 (_ <= _ < _) => lia : reads.
#[export] Hint Extern 5 (_ <= _) => lia : reads.
#[export] Hint Extern 5 (@eq bool _ _) => lia : reads.

Lemma reads_end_bind_last {A B} (p : decoder A) (k : A → decoder B) bs a b :
  reads p bs a → reads_end (k a) [] b → reads_end (p ≫= k) bs b.
Proof. intros. eapply reads_end_bind_all; [by apply reads_reads_end|done]. Qed.

(** One step of a reader along its layout; [side] closes the conditions. *)
Ltac reads_step side :=
  lazymatch goal with
  | |- reads_end (mret _) [] _ => apply reads_end_mret
  | |- reads (mret _) [] _ => apply reads_mret
  | |- reads_end (dec_rest ≫= _) _ _ =>
      eapply reads_end_bind_all; [apply reads_end_rest|cbn beta]
  | |- reads_end (dec_finish ≫= _) _ _ =>
      eapply reads_end_bind_all; [apply reads_end_finish|cbn beta]
  | |- reads_end (reject _ _ ≫= _) _ _ =>
      eapply reads_end_bind_nil; [apply reads_reject; side|cbn beta]
  | |- reads_end (lift _ ≫= _) _ _ =>
      eapply reads_end_bind_nil; [apply reads_lift; side|cbn beta]
  | |- reads (reject _ _ ≫= _) _ _ =>
      eapply reads_bind_nil; [apply reads_reject; side|cbn beta]
  | |- reads (lift _ ≫= _) _ _ =>
      eapply reads_bind_nil; [apply reads_lift; side|cbn beta]
  | |- reads_end (_ ≫= _) (_ ++ _) _ =>
      eapply reads_end_bind; [solve [eauto with reads | side]|cbn beta]
  | |- reads_end (_ ≫= _) _ _ =>
      eapply reads_end_bind_last; [solve [eauto with reads | side]|cbn beta]
  | |- reads (_ ≫= _) (_ ++ _) _ =>
      eapply reads_bind; [solve [eauto with reads | side]|cbn beta]
  end.

(** Inverts a successful decode, one primitive at a time, replacing the unread
    bytes by what the primitive spelled. *)
Ltac dec_inv1 :=
  match goal with
  | H : (_ ≫= _) _ = Ok (_, _) |- _ =>
      let a := fresh "x" in let d := fresh "d" in let Ha := fresh "Hp" in
      apply decoder_bind_ok in H as (a & d & Ha & H); cbn beta in H
  | H : lift _ _ = Ok (_, _) |- _ =>
      let E := fresh "Hl" in apply lift_ok in H as [E ->]
  | H : reject _ _ _ = Ok (_, _) |- _ =>
      let E := fresh "Hc" in apply reject_ok in H as [E ->]
  | H : mret _ _ = Ok (_, _) |- _ => injection H as <- <-
  | Hd : dec_at ?d ?l, H : dec_rest ?d = Ok (_, _) |- _ =>
      let E := fresh "Hr" in let Hd' := fresh "Hd" in
      destruct (dec_rest_ok _ _ _ _ Hd H) as [E Hd']; clear Hd H; subst
  | Hd : dec_at ?d ?l, H : dec_finish ?d = Ok (_, _) |- _ =>
      let E := fresh "Hr" in
      destruct (dec_finish_ok _ _ _ _ Hd H) as [E ->]; clear H; subst
  | Hd : dec_at ?d ?l, H : ?p ?d = Ok (?a, ?d') |- _ =>
      let Hs := fresh "Hs" in let r := fresh "r" in
      let Hd' := fresh "Hd" in let Hw := fresh "Hw" in
      eassert (spells p _ _) as Hs by (solve [eauto with spells]);
      destruct (Hs _ _ _ _ Hd H) as (r & -> & Hd' & Hw); clear Hs Hd H; cbn beta in Hw
  | x : () |- _ => destruct x
  end.
Ltac dec_inv := repeat dec_inv1.
