(* ===== verification/Wire.v ===== *)
(** * Wire: the [Encode]/[Decode] traits with their laws, and the extension tail

    [Encode] and [Decode] are the traits of [codec.rs]. [WireLaws] is what a
    message type promises whoever puts it on the wire: encoding appends to the
    buffer, decoding inverts encoding, and decoding accepts nothing but the
    bytes the encoder produces for the value it returns. Clients (frames,
    transfers, relays) are proved against this interface. *)

From S2P Require Import Prelude Schema Codec CodecFacts.

Class Encode (A : Type) := encode_to : A → list byte → result Error (list byte).
Class Decode (A : Type) := decode : list byte → result Error A.

(** The default method [encode]. *)
Definition encode `{Encode A} (v : A) : result Error (list byte) := encode_to v [].

Class WireLaws (A : Type) `{Encode A, Decode A} (wf : A → Prop) := {
  wire_append : ∀ (v : A) out o,
    encode_to v out = Ok o ↔ ∃ bs, encode v = Ok bs ∧ o = out ++ bs;
  wire_roundtrip : ∀ (v : A) bs,
    wf v → encode v = Ok bs → len bs <= ISIZE_MAX → decode bs = Ok v;
  wire_canonical : ∀ (v : A) bs,
    len bs <= ISIZE_MAX → decode bs = Ok v → wf v ∧ encode v = Ok bs
}.

Section Laws.
Context `{WireLaws A wf}.

(** No two well-formed values share an encoding. *)
Lemma wire_injective (v1 v2 : A) bs :
  wf v1 → wf v2 → len bs <= ISIZE_MAX → encode v1 = Ok bs → encode v2 = Ok bs → v1 = v2.
Proof.
  intros W1 W2 Hl E1 E2.
  pose proof (wire_roundtrip v1 bs W1 E1 Hl). pose proof (wire_roundtrip v2 bs W2 E2 Hl).
  congruence.
Qed.

(** No two byte strings decode to the same value. *)
Lemma wire_unambiguous (v : A) bs1 bs2 :
  len bs1 <= ISIZE_MAX → len bs2 <= ISIZE_MAX →
  decode bs1 = Ok v → decode bs2 = Ok v → bs1 = bs2.
Proof.
  intros L1 L2 D1 D2.
  destruct (wire_canonical v bs1 L1 D1) as [_ E1].
  destruct (wire_canonical v bs2 L2 D2) as [_ E2]. congruence.
Qed.
End Laws.

(** ** The extension tail *)

Definition entry_bytes (e : Extension) : list byte :=
  to_le 2 (ext_tag e) ++ to_le 2 (of_bool (ext_required e)) ++ lp32 (ext_value e).
Definition entries_bytes (exts : Extensions) : list byte := concat (map entry_bytes exts).
Definition tail_bytes (exts : Extensions) : list byte := lp32 (entries_bytes exts).

(** The type invariant of [Extension]: a [u16] tag. *)
Definition ext_wf (e : Extension) : Prop := is_u16 (ext_tag e).

Definition exts_wf (exts : Extensions) : Prop := Forall ext_wf exts.

(** The lists of extensions that fit the wire format. *)
Definition exts_ok (exts : Extensions) : Prop :=
  exts_wf exts ∧ Extensions_validate exts = Ok () ∧ len (entries_bytes exts) <= U32_MAX.

Lemma len_lp32 bs : len (lp32 bs) = 4 + len bs.
Proof. unfold lp32. by rewrite len_app, len_to_le. Qed.
Lemma len_lp16 bs : len (lp16 bs) = 2 + len bs.
Proof. unfold lp16. by rewrite len_app, len_to_le. Qed.
#[export] Hint Rewrite len_lp16 len_lp32 : len.

Lemma put_len_u32_ok out n o : put_len_u32 out n = Ok o ↔ o = out ++ to_le 4 n ∧ n <= U32_MAX.
Proof.
  unfold put_len_u32, try_u32. destruct (Z.leb_spec n U32_MAX); cbn; unfold put_u32;
    split; naive_solver lia.
Qed.
Lemma put_len_u16_ok out n o : put_len_u16 out n = Ok o ↔ o = out ++ to_le 2 n ∧ n <= U16_MAX.
Proof.
  unfold put_len_u16, try_u16. destruct (Z.leb_spec n U16_MAX); cbn; unfold put_u16;
    split; naive_solver lia.
Qed.
Lemma put_bytes_u32_ok out bs o : put_bytes_u32 out bs = Ok o ↔ o = out ++ lp32 bs ∧ len bs <= U32_MAX.
Proof.
  unfold put_bytes_u32, lp32. rewrite bind_ok. setoid_rewrite put_len_u32_ok. split.
  - intros (? & [-> ?] & [= <-]). by rewrite app_assoc.
  - intros [-> ?]. eexists. split; [done|]. by rewrite app_assoc.
Qed.
Lemma put_bytes_u16_ok out bs o : put_bytes_u16 out bs = Ok o ↔ o = out ++ lp16 bs ∧ len bs <= U16_MAX.
Proof.
  unfold put_bytes_u16, lp16. rewrite bind_ok. setoid_rewrite put_len_u16_ok. split.
  - intros (? & [-> ?] & [= <-]). by rewrite app_assoc.
  - intros [-> ?]. eexists. split; [done|]. by rewrite app_assoc.
Qed.

Lemma encode_entry_ok e out o :
  encode_entry e out = Ok o ↔ o = out ++ entry_bytes e ∧ len (ext_value e) <= U32_MAX.
Proof.
  unfold encode_entry, entry_bytes, lp32, put_u16. rewrite bind_ok.
  setoid_rewrite put_len_u32_ok. split.
  - intros (? & [-> ?] & [= <-]). by rewrite <- !app_assoc.
  - intros [-> ?]. eexists. split; [done|]. by rewrite <- !app_assoc.
Qed.

Lemma encode_entries_fold exts out o :
  try_fold encode_entry exts out = Ok o
  ↔ o = out ++ entries_bytes exts ∧ Forall (λ e, len (ext_value e) <= U32_MAX) exts.
Proof.
  revert out. induction exts as [|e exts IH]; intros out; cbn.
  - rewrite app_nil_r. split; [by intros [= ->]|intros [-> _]; done].
  - rewrite bind_ok. setoid_rewrite encode_entry_ok. rewrite Forall_cons_iff.
    setoid_rewrite IH. split.
    + intros (? & [-> ?] & -> & ?). by rewrite <- app_assoc.
    + intros (-> & ? & ?). eexists. split; [done|]. by rewrite <- app_assoc.
Qed.

Lemma entries_values_fit exts :
  len (entries_bytes exts) <= U32_MAX → Forall (λ e, len (ext_value e) <= U32_MAX) exts.
Proof.
  unfold entries_bytes. induction exts as [|e exts IH]; cbn; [done|].
  unfold entry_bytes at 1. intros H. autorewrite with len in H.
  pose proof (len_nonneg (concat (map entry_bytes exts))). pose proof (len_nonneg (ext_value e)).
  constructor; [lia|apply IH; lia].
Qed.

Lemma Extensions_encode_entries_ok exts out o :
  Extensions_encode_entries exts out = Ok o ↔
  o = out ++ entries_bytes exts ∧ Extensions_validate exts = Ok () ∧
  Forall (λ e, len (ext_value e) <= U32_MAX) exts.
Proof.
  unfold Extensions_encode_entries. rewrite bind_ok. setoid_rewrite encode_entries_fold. split.
  - intros ([] & ? & -> & ?). done.
  - intros (-> & ? & ?). by exists ().
Qed.

Lemma Extensions_encode_tail_ok exts out o :
  Extensions_encode_tail exts out = Ok o ↔
  o = out ++ tail_bytes exts ∧ Extensions_validate exts = Ok () ∧
  len (entries_bytes exts) <= U32_MAX.
Proof.
  unfold Extensions_encode_tail, tail_bytes, lp32. split.
  - intros (? & (-> & ? & ?)%Extensions_encode_entries_ok
      & (? & [-> ?]%put_len_u32_ok & [= <-])%bind_ok)%bind_ok. by rewrite app_assoc.
  - intros (-> & Hv & Hl). apply bind_ok. exists (entries_bytes exts).
    rewrite Extensions_encode_entries_ok. split; [by eauto using entries_values_fit|].
    apply bind_ok. eexists. rewrite put_len_u32_ok. split; [done|]. by rewrite app_assoc.
Qed.

Lemma is_empty_at d l : dec_at d l → is_empty d = Ok (is_nil l, d).
Proof.
  intros Hd. unfold is_empty, Decoder_is_empty. rewrite (dec_at_len _ _ Hd). do 3 f_equal.
  destruct l; rewrite ?len_cons; [done|]. pose proof (len_nonneg l). cbn. lia.
Qed.

(** Entering the loop body of [decode_entries]. *)
Lemma reads_end_is_empty {A} (k : bool → decoder A) bs a :
  reads_end (k (is_nil bs)) bs a → reads_end (is_empty ≫= k) bs a.
Proof.
  intros Hk d Hd. destruct (Hk d Hd) as (d' & E & Hd'). exists d'. split; [|done].
  unfold mbind, decoder_bind. by rewrite (is_empty_at _ _ Hd).
Qed.

Lemma entries_bytes_cons e exts : entries_bytes (e :: exts) = entry_bytes e ++ entries_bytes exts.
Proof. done. Qed.

Lemma entry_bytes_nonempty e bs : is_nil (entry_bytes e ++ bs) = false.
Proof.
  apply is_nil_false. intros H. apply (f_equal len) in H. unfold entry_bytes in H.
  autorewrite with len in H. pose proof (len_nonneg bs). pose proof (len_nonneg (ext_value e)). lia.
Qed.

Lemma decode_entries_reads room count prev exts :
  (length exts <= room)%nat → tags_ordered prev exts = true → exts_wf exts →
  Forall (λ e, len (ext_value e) <= U32_MAX) exts →
  reads_end (decode_entries_loop room count prev) (entries_bytes exts) exts.
Proof.
  revert room count prev. induction exts as [|e exts IH]; intros room count prev Hr Ht Hw Hv.
  - destruct room; apply reads_end_is_empty, reads_end_mret.
  - apply Forall_cons_iff in Hw as [He Hw]. apply Forall_cons_iff in Hv as [Hve Hv].
    cbn in Ht. apply andb_true_iff in Ht as [Ht1%negb_true_iff Ht].
    destruct room as [|room]; [cbn in Hr; lia|]. cbn in Hr. unfold ext_wf in He.
    apply reads_end_is_empty. rewrite entries_bytes_cons, entry_bytes_nonempty.
    unfold entry_bytes. rewrite <- !app_assoc.
    reads_step idtac. reads_step ltac:(exact Ht1).
    eapply reads_end_bind; [apply (reads_u16 (of_bool (ext_required e))); by destruct (ext_required e)|].
    cbn beta. reads_step ltac:(by destruct (ext_required e)).
    reads_step idtac.
    eapply reads_end_bind_all; [by apply IH; [lia|..]|].
    replace (has_bits (of_bool (ext_required e)) 1) with (ext_required e)
      by by destruct (ext_required e).
    destruct e. apply reads_end_mret.
Qed.

Lemma decode_entries_spells room count prev d l exts d' :
  dec_at d l → decode_entries_loop room count prev d = Ok (exts, d') →
  l = entries_bytes exts ∧ dec_at d' [] ∧ (length exts <= room)%nat ∧
  tags_ordered prev exts = true ∧ exts_wf exts.
Proof.
  revert count prev d l exts. induction room as [|room IH]; intros count prev d l exts Hd H;
    cbn [decode_entries_loop] in H; apply decoder_bind_ok in H as (fin & d1 & E & H);
    rewrite (is_empty_at _ _ Hd) in E; injection E as <- <-; destruct l as [|b l]; cbn in H.
  1,3: injection H as <- <-; split; [done|]; split; [done|]; cbn; split; [lia|];
    split; [done|by constructor].
  1: discriminate H.
  dec_inv.
  match goal with
  | Hd : dec_at ?d ?l, H : decode_entries_loop _ _ _ ?d = Ok _ |- _ =>
      destruct (IH _ _ _ _ _ Hd H) as (-> & Hd' & Hlen & Hto & Hwf)
  end.
  rewrite (flag_of_bool x1) by (lia || done).
  rewrite entries_bytes_cons. unfold entry_bytes; cbn. rewrite <- !app_assoc.
  replace (has_bits (of_bool (has_bits x1 1)) 1) with (has_bits x1 1) by by destruct (has_bits x1 1).
  split; [done|]. split; [done|]. split; [lia|]. split.
  - match goal with H : tag_not_after _ _ = false |- _ => by rewrite H end.
  - by constructor.
Qed.

Lemma Extensions_validate_ok exts :
  Extensions_validate exts = Ok () ↔
  len exts <= HARD_MAX_EXTENSION_ENTRIES ∧ tags_ordered None exts = true.
Proof.
  unfold Extensions_validate, transport_HARD_MAX_EXTENSION_ENTRIES. split.
  - intros H. inv_ok. apply negb_false_iff in H. split; [lia|done].
  - intros [Hl ->]. by replace (4096 <? len exts) with false by lia.
Qed.

Lemma extension_room (exts : Extensions) :
  (length exts <= Z.to_nat HARD_MAX_EXTENSION_ENTRIES)%nat ↔ len exts <= HARD_MAX_EXTENSION_ENTRIES.
Proof. assert (0 <= HARD_MAX_EXTENSION_ENTRIES) by done. unfold len. lia. Qed.

Lemma Extensions_decode_entries_bytes exts :
  exts_ok exts → Extensions_decode_entries (entries_bytes exts) = Ok exts.
Proof.
  intros (Hw & [Hl Ht]%Extensions_validate_ok & Hb). apply run_reads_end.
  - apply decode_entries_reads; [|done|done|by apply entries_values_fit].
    by apply extension_room.
  - unfold U32_MAX, ISIZE_MAX in *. lia.
Qed.

Lemma decode_entries_run room count bs exts :
  len bs <= ISIZE_MAX →
  run (decode_entries_loop room count None) (Decoder_new bs) = Ok exts →
  bs = entries_bytes exts ∧ (length exts <= room)%nat ∧ tags_ordered None exts = true ∧ exts_wf exts.
Proof.
  intros Hb (d' & H)%run_ok.
  apply (decode_entries_spells _ _ _ _ bs) in H as (-> & _ & Hl & Ht & Hw); [done|].
  by apply dec_at_new.
Qed.

Lemma Extensions_decode_entries_ok bs exts :
  len bs <= U32_MAX → Extensions_decode_entries bs = Ok exts →
  bs = entries_bytes exts ∧ exts_ok exts.
Proof.
  intros Hb H. unfold Extensions_decode_entries in H.
  assert (len bs <= ISIZE_MAX) as Hi by (unfold U32_MAX, ISIZE_MAX in *; lia).
  destruct (decode_entries_run _ _ _ _ Hi H) as (-> & Hl & Ht & Hw).
  split; [done|]. split; [done|]. split; [|done]. apply Extensions_validate_ok.
  by rewrite <- extension_room.
Qed.

Lemma reads_extensions exts : exts_ok exts → reads dec_extensions (tail_bytes exts) exts.
Proof.
  intros Hok. unfold dec_extensions, tail_bytes. rewrite <- (app_nil_r (lp32 _)).
  eapply reads_bind; [apply reads_len_bytes_u32, Hok|].
  by apply reads_lift, Extensions_decode_entries_bytes.
Qed.

Lemma spells_extensions : spells dec_extensions tail_bytes exts_ok.
Proof.
  intros d l exts d' Hd H. unfold dec_extensions in H. dec_inv.
  apply Extensions_decode_entries_ok in Hl as [-> Hok]; [|done]. by exists r.
Qed.

#[export] Hint Resolve reads_extensions : reads.
#[export] Hint Resolve spells_extensions : spells.

#[export] Instance Extensions_Encode : Encode Extensions := Extensions_encode_tail.
#[export] Instance Extensions_Decode : Decode Extensions := Extensions_decode.

(** The laws from a layout: the encoder writes [bytes v] exactly when [v] fits,
    and the decoder inverts that. *)
Lemma wire_laws_intro {A} `{Encode A, Decode A} (wf fits : A → Prop) (bytes : A → list byte) :
  (∀ (v : A) out o, encode_to v out = Ok o ↔ o = out ++ bytes v ∧ fits v) →
  (∀ v, wf v → fits v → len (bytes v) <= ISIZE_MAX → decode (bytes v) = Ok v) →
  (∀ bs v, len bs <= ISIZE_MAX → decode bs = Ok v → bs = bytes v ∧ wf v ∧ fits v) →
  WireLaws A wf.
Proof.
  intros Henc Hrt Hcan. split.
  - intros v out o. unfold encode. setoid_rewrite Henc. split.
    + intros [-> Hf]. by exists (bytes v).
    + by intros (? & [-> Hf] & ->).
  - intros v bs Hw [-> Hf]%Henc Hl. by apply Hrt.
  - intros v bs Hl (-> & Hw & Hf)%Hcan; [|done]. split; [done|]. by apply Henc.
Qed.

Lemma Extensions_decode_ok bs exts :
  len bs <= ISIZE_MAX → Extensions_decode bs = Ok exts → bs = tail_bytes exts ∧ exts_ok exts.
Proof.
  intros Hl H. unfold Extensions_decode in H. inv_ok. apply run_ok in Hv as (d' & Hv).
  pose proof (dec_at_new _ Hl). dec_inv.
  apply Extensions_decode_entries_ok in H as [-> Hok]; [|done].
  unfold tail_bytes. by rewrite app_nil_r.
Qed.

#[export] Instance Extensions_WireLaws : WireLaws Extensions exts_wf.
Proof.
  apply wire_laws_intro with (bytes := tail_bytes)
    (fits := λ exts, Extensions_validate exts = Ok () ∧ len (entries_bytes exts) <= U32_MAX).
  - apply Extensions_encode_tail_ok.
  - intros exts Hw [Hv Hb] Hl. unfold decode, Extensions_Decode, Extensions_decode.
    rewrite (run_reads_end _ _ (entries_bytes exts)); [by apply Extensions_decode_entries_bytes| |done].
    unfold tail_bytes. reads_step idtac. reads_step idtac. reads_step idtac.
  - intros bs exts Hl [-> Hok]%Extensions_decode_ok; [|done]. split; [done|].
    destruct Hok as (? & ? & ?). done.
Qed.

(** ** Tactics for the encoder side of a layout *)

Lemma put_string_u16_ok out bs o :
  put_string_u16 out bs = Ok o ↔ o = out ++ lp16 bs ∧ len bs <= U16_MAX.
Proof. apply put_bytes_u16_ok. Qed.
Lemma put_string_u32_ok out bs o :
  put_string_u32 out bs = Ok o ↔ o = out ++ lp32 bs ∧ len bs <= U32_MAX.
Proof. apply put_bytes_u32_ok. Qed.

(** Two byte strings built by the same writes. *)
Ltac bytes_eq :=
  unfold put_u16, put_u32, put_u64, push_u8, lp16, lp32, tail_bytes in *;
  rewrite <- ?app_assoc; cbn [app]; reflexivity.

(** Reads off what a successful encoder run wrote and checked. *)
Ltac enc_inv1 :=
  match goal with
  | H : put_len_u16 _ _ = Ok _ |- _ => apply put_len_u16_ok in H as [-> ?]
  | H : put_len_u32 _ _ = Ok _ |- _ => apply put_len_u32_ok in H as [-> ?]
  | H : put_bytes_u16 _ _ = Ok _ |- _ => apply put_bytes_u16_ok in H as [-> ?]
  | H : put_bytes_u32 _ _ = Ok _ |- _ => apply put_bytes_u32_ok in H as [-> ?]
  | H : put_string_u16 _ _ = Ok _ |- _ => apply put_string_u16_ok in H as [-> ?]
  | H : put_string_u32 _ _ = Ok _ |- _ => apply put_string_u32_ok in H as [-> ?]
  | H : Extensions_encode_tail _ _ = Ok _ |- _ =>
      apply Extensions_encode_tail_ok in H as (-> & ? & ?)
  | _ => inv_ok1; cbn beta iota in *
  end.
Ltac enc_inv := repeat enc_inv1.

(** Runs an encoder whose checks hold. *)
Ltac enc_step :=
  lazymatch goal with
  | |- reject_if _ _ ≫= _ = Ok _ =>
      apply reject_bind_ok; split; [first [assumption | lia]|cbn beta]
  | |- _ ≫= _ = Ok _ =>
      apply bind_ok; eexists; split;
      [ first [ apply put_len_u16_ok; split; [reflexivity|assumption || lia]
              | apply put_len_u32_ok; split; [reflexivity|assumption || lia]
              | apply put_bytes_u16_ok; split; [reflexivity|assumption || lia]
              | apply put_bytes_u32_ok; split; [reflexivity|assumption || lia]
              | apply put_string_u16_ok; split; [reflexivity|assumption || lia]
              | apply put_string_u32_ok; split; [reflexivity|assumption || lia]
              | eassumption ]
      | cbn beta ]
  | |- Extensions_encode_tail _ _ = Ok _ =>
      apply Extensions_encode_tail_ok; split; [bytes_eq|done]
  | |- put_string_u32 _ _ = Ok _ => apply put_string_u32_ok; split; [bytes_eq|done]
  | |- reject_if _ _ = Ok _ => apply reject_if_ok; first [assumption | lia]
  | |- Ok _ = Ok _ => f_equal; bytes_eq
  end.
Ltac enc_run := repeat enc_step.

(** ** Messages whose decoder re-runs the encoder's checks *)

(** The encoder accepts the value. *)
Definition encodable `{Encode A} (v : A) : Prop := is_ok (encode v) = true.

Lemma is_ok_iff {E A} (r : result E A) : is_ok r = true ↔ ∃ a, r = Ok a.
Proof. destruct r; cbn; naive_solver. Qed.

Lemma encodable_iff `{Encode A} (bytes : A → list byte) (fits : A → Prop) (v : A) :
  (∀ out o, encode_to v out = Ok o ↔ o = out ++ bytes v ∧ fits v) → encodable v ↔ fits v.
Proof.
  intros Henc. unfold encodable, encode. rewrite is_ok_iff. setoid_rewrite Henc. naive_solver.
Qed.

(** [value.encode_to(&mut ignored)?; Ok(value)] *)
Lemma recheck_ok `{Encode A} (r : result Error A) (v : A) :
  (x ← r; _ ← encode_to x []; Ok x) = Ok v ↔ r = Ok v ∧ encodable v.
Proof.
  unfold encodable, encode. rewrite is_ok_iff, bind_ok. split.
  - intros (x & -> & (o & E & [= ->])%bind_ok). eauto.
  - intros [-> [o E]]. exists v. split; [done|]. apply bind_ok. eauto.
Qed.

(** The laws from a layout and a reader of it. *)
Lemma wire_laws_checked {A} `{Encode A, Decode A} (wf : A → Prop) (bytes : A → list byte)
    (read : decoder A) :
  (∀ (v : A) out o, encode_to v out = Ok o ↔ o = out ++ bytes v ∧ encodable v) →
  (∀ bs v, decode bs = Ok v ↔ run read (Decoder_new bs) = Ok v ∧ encodable v) →
  (∀ v, wf v → encodable v → reads_end read (bytes v) v) →
  (∀ bs v d', dec_at (Decoder_new bs) bs → read (Decoder_new bs) = Ok (v, d') →
    bs = bytes v ∧ wf v) →
  WireLaws A wf.
Proof.
  intros Henc Hdec Hr Hs. apply wire_laws_intro with (bytes := bytes) (fits := encodable).
  - done.
  - intros v Hw Hf Hl. apply Hdec. split; [|done]. by apply run_reads_end; [apply Hr|].
  - intros bs v Hl [(d' & E)%run_ok Hf]%Hdec.
    destruct (Hs _ _ _ (dec_at_new _ Hl) E). done.
Qed.

(** Splits the checks an encoder makes before it writes. *)
Ltac enc_checked :=
  unfold encodable, encode, encode_to;
  repeat match goal with
  | |- context [?c ≫= _] => destruct c as [[]|]; cbn [mbind result_bind is_ok]; [|naive_solver]
  end;
  unfold put_u16, put_u32, put_u64, push_u8; rewrite <- ?app_assoc;
  try (split; [by intros [= <-]|by intros [-> _]]).

(** Follows a reader along a layout, and inverts it. *)
Ltac read_layout := repeat reads_step ltac:(first [assumption | lia]).

(** The same for a decoder that makes a check of its own. *)
Lemma wire_laws_reader {A} `{Encode A, Decode A} (wf fits : A → Prop) (check : A → result Error ())
    (bytes : A → list byte) (read : decoder A) :
  (∀ (v : A) out o, encode_to v out = Ok o ↔ o = out ++ bytes v ∧ fits v) →
  (∀ bs, decode bs = (v ← run read (Decoder_new bs); _ ← check v; Ok v)) →
  (∀ v, wf v → fits v → check v = Ok () ∧ reads_end read (bytes v) v) →
  (∀ bs v d', dec_at (Decoder_new bs) bs → read (Decoder_new bs) = Ok (v, d') →
    check v = Ok () → bs = bytes v ∧ wf v ∧ fits v) →
  WireLaws A wf.
Proof.
  intros Henc Hdec Hr Hs. apply wire_laws_intro with (bytes := bytes) (fits := fits).
  - done.
  - intros v Hw Hf Hl. destruct (Hr v Hw Hf) as [Hc Hre]. rewrite Hdec.
    by rewrite (run_reads_end _ _ _ Hre Hl), bind_is_ok, Hc.
  - intros bs v Hl Hd. rewrite Hdec in Hd. inv_ok. apply run_ok in Hv as (d' & E).
    by apply (Hs _ _ d' (dec_at_new _ Hl) E).
Qed.

(** A message nested at the end of another: [T::decode(decoder.rest())]. *)
Section Nested.
Context `{WireLaws A wf}.

Lemma reads_end_nested {B} (f : A → B) v bs :
  wf v → encode v = Ok bs →
  reads_end (rest ← dec_rest; x ← lift (decode rest); mret (f x)) bs (f v).
Proof.
  intros Hw E d Hd. pose proof (dec_at_fits _ _ Hd) as Hl.
  pose proof (wire_roundtrip v bs Hw E Hl) as Hdec. revert d Hd.
  change (reads_end (rest ← dec_rest; x ← lift (decode rest); mret (f x)) bs (f v)).
  reads_step idtac. reads_step ltac:(exact Hdec). apply reads_end_mret.
Qed.

Lemma nested_ok {B} (f : A → B) d l y d' :
  dec_at d l → (rest ← dec_rest; x ← lift (decode rest); mret (f x)) d = Ok (y, d') →
  ∃ v, y = f v ∧ wf v ∧ encode v = Ok l ∧ dec_at d' [].
Proof.
  intros Hd E. pose proof (dec_at_fits _ _ Hd) as Hl. dec_inv.
  match goal with Hv : decode _ = Ok ?v |- _ =>
    destruct (wire_canonical v l Hl Hv); by exists v end.
Qed.
End Nested.
