(* ===== verification/Datagrams.v ===== *)
(** * Datagrams: the three Event payloads that may travel as transport datagrams

    [net.rs] [Datagram], [surface.rs] [SurfaceFrame] and [media.rs]
    [MediaFrame], with the predicates that make a frame datagram-eligible.
    Each decoder re-runs the encoder on the value it read, so the checks of
    the encoder are the checks of the decoder. *)

From S2P Require Import Prelude Schema Codec CodecFacts Wire.

Abbreviation MAX_DATAGRAM_PAYLOAD := net_MAX_DATAGRAM_PAYLOAD.

(** ** Net *)

Record Datagram := mkDatagram {
  dg_flow_handle : Z; dg_sequence : Z; dg_payload : list byte
}.

Definition net_validate_handle (value : Z) : result Error () :=
  reject_if (value =? 0) (Invalid "zero Net flow handle").

#[export] Instance Datagram_encode_to : Encode Datagram := fun v out =>
  _ ← net_validate_handle (dg_flow_handle v);
  _ ← reject_if (MAX_DATAGRAM_PAYLOAD <? len (dg_payload v))
        (LimitExceeded "Net datagram payload bytes" (len (dg_payload v)) MAX_DATAGRAM_PAYLOAD);
  let out := put_u64 out (dg_flow_handle v) in
  let out := put_u64 out (dg_sequence v) in
  Ok (out ++ dg_payload v).

Definition Datagram_read : decoder Datagram :=
  flow_handle ← dec_u64;
  sequence ← dec_u64;
  payload ← dec_rest;
  mret (mkDatagram flow_handle sequence payload).

#[export] Instance Datagram_decode : Decode Datagram := fun input =>
  value ← run Datagram_read (Decoder_new input);
  _ ← encode_to value [];
  Ok value.

(** ** Surface *)

Record SurfaceFrame := mkSurfaceFrame {
  sf_view_id : Z; sf_sequence : Z; sf_base_sequence : Z; sf_capture_ns : Z;
  sf_presentation_ns : Z; sf_flags : Z; sf_codec_version : Z; sf_fragment_index : Z;
  sf_fragment_count : Z; sf_complete_len : Z; sf_payload : list byte
}.

Definition surface_view (value : Z) : result Error () :=
  reject_if (value =? 0) (Invalid "zero Surface view ID").

Definition surface_valid_codec (value : Z) : bool :=
  (value =? as_u16 surface_CODEC_H264_V1) || (value =? as_u16 surface_CODEC_AV1_V1)
  || (value =? as_u16 surface_CODEC_PNG_V1).

Definition SurfaceFrame_datagram_eligible (v : SurfaceFrame) : bool :=
  let forbidden := Z.lor (Z.lor (as_u16 surface_FRAME_KEYFRAME) (as_u16 surface_FRAME_CODEC_CONFIG))
                     (as_u16 surface_FRAME_END_OF_STREAM) in
  has_bits (sf_flags v) (as_u16 surface_FRAME_DATAGRAM_ELIGIBLE)
  && has_bits (sf_flags v) (as_u16 surface_FRAME_DISCARDABLE)
  && negb (has_bits (sf_flags v) forbidden).

#[export] Instance SurfaceFrame_encode_to : Encode SurfaceFrame := fun v out =>
  _ ← surface_view (sf_view_id v);
  _ ← reject_if (negb (surface_valid_codec (sf_codec_version v))
        || has_other_bits (sf_flags v) (as_u16 surface_FRAME_FLAGS_MASK)
        || (sf_fragment_count v =? 0) || (sf_fragment_count v <=? sf_fragment_index v)
        || (sf_complete_len v =? 0) || is_nil (sf_payload v)
        || (sf_complete_len v <? len (sf_payload v))
        || (transport_HARD_MAX_BULK_CHUNK <? len (sf_payload v)))
      (Invalid "Surface FRAME fragments");
  let out := put_u32 out (sf_view_id v) in
  let out := put_u64 out (sf_sequence v) in
  let out := put_u64 out (sf_base_sequence v) in
  let out := put_u64 out (sf_capture_ns v) in
  let out := put_u64 out (sf_presentation_ns v) in
  let out := put_u16 out (sf_flags v) in
  let out := put_u16 out (sf_codec_version v) in
  let out := put_u16 out (sf_fragment_index v) in
  let out := put_u16 out (sf_fragment_count v) in
  let out := put_u32 out (sf_complete_len v) in
  Ok (out ++ sf_payload v).

Definition SurfaceFrame_read : decoder SurfaceFrame :=
  view_id ← dec_u32;
  sequence ← dec_u64;
  base_sequence ← dec_u64;
  capture_ns ← dec_u64;
  presentation_ns ← dec_u64;
  flags ← dec_u16;
  codec_version ← dec_u16;
  fragment_index ← dec_u16;
  fragment_count ← dec_u16;
  complete_len ← dec_u32;
  payload ← dec_rest;
  _ ← dec_finish;
  mret (mkSurfaceFrame view_id sequence base_sequence capture_ns presentation_ns flags
          codec_version fragment_index fragment_count complete_len payload).

#[export] Instance SurfaceFrame_decode : Decode SurfaceFrame := fun input =>
  value ← run SurfaceFrame_read (Decoder_new input);
  _ ← encode_to value [];
  Ok value.

(** ** Media *)

Record MediaFrame := mkMediaFrame {
  mf_stream_handle : Z; mf_sequence : Z; mf_capture_time : Z; mf_presentation_time : Z;
  mf_codec_version : Z; mf_flags : Z; mf_fragment_index : Z; mf_fragment_count : Z;
  mf_complete_len : Z; mf_payload : list byte
}.

Definition media_handle (value : Z) (name : string) : result Error () :=
  reject_if (value =? 0) (Invalid name).

Definition media_audio_codec (codec : Z) : bool :=
  (codec =? as_u16 media_CODEC_PCM_S16LE) || (codec =? as_u16 media_CODEC_PCM_F32LE)
  || (codec =? as_u16 media_CODEC_OPUS).

Definition media_video_codec (codec : Z) : bool :=
  (codec =? as_u16 media_CODEC_H264) || (codec =? as_u16 media_CODEC_AV1)
  || (codec =? as_u16 media_CODEC_H264_444) || (codec =? as_u16 media_CODEC_AV1_444)
  || (codec =? as_u16 media_CODEC_VP9) || (codec =? as_u16 media_CODEC_MJPEG).

Definition MediaFrame_datagram_eligible (v : MediaFrame) : bool :=
  let forbidden := Z.lor (Z.lor (as_u16 media_FRAME_KEYFRAME) (as_u16 media_FRAME_CODEC_CONFIG))
                     (as_u16 media_FRAME_END_OF_STREAM) in
  has_bits (mf_flags v) (as_u16 media_FRAME_DISCARDABLE)
  && negb (has_bits (mf_flags v) forbidden).

#[export] Instance MediaFrame_encode_to : Encode MediaFrame := fun v out =>
  _ ← media_handle (mf_stream_handle v) "zero Media stream handle";
  _ ← reject_if ((negb (media_audio_codec (mf_codec_version v))
                  && negb (media_video_codec (mf_codec_version v)))
        || has_other_bits (mf_flags v) (as_u16 media_FRAME_FLAGS_MASK)
        || (mf_fragment_count v =? 0) || (mf_fragment_count v <=? mf_fragment_index v)
        || (mf_complete_len v =? 0) || is_nil (mf_payload v)
        || (mf_complete_len v <? len (mf_payload v))
        || (transport_HARD_MAX_BULK_CHUNK <? len (mf_payload v)))
      (Invalid "Media frame");
  let out := put_u64 out (mf_stream_handle v) in
  let out := put_u64 out (mf_sequence v) in
  let out := put_u64 out (mf_capture_time v) in
  let out := put_u64 out (mf_presentation_time v) in
  let out := put_u16 out (mf_codec_version v) in
  let out := put_u16 out (mf_flags v) in
  let out := put_u16 out (mf_fragment_index v) in
  let out := put_u16 out (mf_fragment_count v) in
  let out := put_u32 out (mf_complete_len v) in
  Ok (out ++ mf_payload v).

Definition MediaFrame_read : decoder MediaFrame :=
  stream_handle ← dec_u64;
  sequence ← dec_u64;
  capture_time ← dec_u64;
  presentation_time ← dec_u64;
  codec_version ← dec_u16;
  flags ← dec_u16;
  fragment_index ← dec_u16;
  fragment_count ← dec_u16;
  complete_len ← dec_u32;
  payload ← dec_rest;
  _ ← dec_finish;
  mret (mkMediaFrame stream_handle sequence capture_time presentation_time codec_version flags
          fragment_index fragment_count complete_len payload).

#[export] Instance MediaFrame_decode : Decode MediaFrame := fun input =>
  value ← run MediaFrame_read (Decoder_new input);
  _ ← encode_to value [];
  Ok value.

(** ** Layouts and wire laws *)

Definition Datagram_wf (v : Datagram) : Prop :=
  is_u64 (dg_flow_handle v) ∧ is_u64 (dg_sequence v).

Definition Datagram_bytes (v : Datagram) : list byte :=
  to_le 8 (dg_flow_handle v) ++ to_le 8 (dg_sequence v) ++ dg_payload v.

Definition SurfaceFrame_wf (v : SurfaceFrame) : Prop :=
  is_u32 (sf_view_id v) ∧ is_u64 (sf_sequence v) ∧ is_u64 (sf_base_sequence v) ∧
  is_u64 (sf_capture_ns v) ∧ is_u64 (sf_presentation_ns v) ∧ is_u16 (sf_flags v) ∧
  is_u16 (sf_codec_version v) ∧ is_u16 (sf_fragment_index v) ∧ is_u16 (sf_fragment_count v) ∧
  is_u32 (sf_complete_len v).

Definition SurfaceFrame_bytes (v : SurfaceFrame) : list byte :=
  to_le 4 (sf_view_id v) ++ to_le 8 (sf_sequence v) ++ to_le 8 (sf_base_sequence v) ++
  to_le 8 (sf_capture_ns v) ++ to_le 8 (sf_presentation_ns v) ++ to_le 2 (sf_flags v) ++
  to_le 2 (sf_codec_version v) ++ to_le 2 (sf_fragment_index v) ++
  to_le 2 (sf_fragment_count v) ++ to_le 4 (sf_complete_len v) ++ sf_payload v.

Definition MediaFrame_wf (v : MediaFrame) : Prop :=
  is_u64 (mf_stream_handle v) ∧ is_u64 (mf_sequence v) ∧ is_u64 (mf_capture_time v) ∧
  is_u64 (mf_presentation_time v) ∧ is_u16 (mf_codec_version v) ∧ is_u16 (mf_flags v) ∧
  is_u16 (mf_fragment_index v) ∧ is_u16 (mf_fragment_count v) ∧ is_u32 (mf_complete_len v).

Definition MediaFrame_bytes (v : MediaFrame) : list byte :=
  to_le 8 (mf_stream_handle v) ++ to_le 8 (mf_sequence v) ++ to_le 8 (mf_capture_time v) ++
  to_le 8 (mf_presentation_time v) ++ to_le 2 (mf_codec_version v) ++ to_le 2 (mf_flags v) ++
  to_le 2 (mf_fragment_index v) ++ to_le 2 (mf_fragment_count v) ++
  to_le 4 (mf_complete_len v) ++ mf_payload v.

Lemma Datagram_encode_ok v out o :
  encode_to v out = Ok o ↔ o = out ++ Datagram_bytes v ∧ encodable v.
Proof. unfold Datagram_bytes, encodable, encode, encode_to, Datagram_encode_to. enc_checked. Qed.

Lemma SurfaceFrame_encode_ok v out o :
  encode_to v out = Ok o ↔ o = out ++ SurfaceFrame_bytes v ∧ encodable v.
Proof. unfold SurfaceFrame_bytes, encodable, encode, encode_to, SurfaceFrame_encode_to. enc_checked. Qed.

Lemma MediaFrame_encode_ok v out o :
  encode_to v out = Ok o ↔ o = out ++ MediaFrame_bytes v ∧ encodable v.
Proof. unfold MediaFrame_bytes, encodable, encode, encode_to, MediaFrame_encode_to. enc_checked. Qed.

#[export] Instance Datagram_WireLaws : WireLaws Datagram Datagram_wf.
Proof.
  apply wire_laws_checked with (bytes := Datagram_bytes) (read := Datagram_read).
  - apply Datagram_encode_ok.
  - intros bs v. apply recheck_ok.
  - intros [h s p] [Hh Hs] _. unfold Datagram_read, Datagram_bytes; cbn in *. read_layout.
  - intros bs v d' Hd H. unfold Datagram_read in H. dec_inv. split; [done|]. by split.
Qed.

#[export] Instance SurfaceFrame_WireLaws : WireLaws SurfaceFrame SurfaceFrame_wf.
Proof.
  apply wire_laws_checked with (bytes := SurfaceFrame_bytes) (read := SurfaceFrame_read).
  - apply SurfaceFrame_encode_ok.
  - intros bs v. apply recheck_ok.
  - intros [] Hw _. unfold SurfaceFrame_wf, SurfaceFrame_read, SurfaceFrame_bytes in *; cbn in *.
    destruct_and! Hw. read_layout.
  - intros bs v d' Hd H. unfold SurfaceFrame_read in H. dec_inv. by split.
Qed.

#[export] Instance MediaFrame_WireLaws : WireLaws MediaFrame MediaFrame_wf.
Proof.
  apply wire_laws_checked with (bytes := MediaFrame_bytes) (read := MediaFrame_read).
  - apply MediaFrame_encode_ok.
  - intros bs v. apply recheck_ok.
  - intros [] Hw _. unfold MediaFrame_wf, MediaFrame_read, MediaFrame_bytes in *; cbn in *.
    destruct_and! Hw. read_layout.
  - intros bs v d' Hd H. unfold MediaFrame_read in H. dec_inv. by split.
Qed.
