(* ===== verification/Frame.v ===== *)
(** * Frame: the framing layer of [crates/yas/src/frame.rs]

    Headers, envelopes, negotiated limits, and the [FrameCodec] that encodes
    and decodes one frame for a message link, a byte stream or a transport
    datagram. LZ4 (the [lz4_flex] crate) is a parameter of the definitions that
    call it. *)

From S2P Require Import Prelude Schema Codec CodecFacts Wire Datagrams.

Abbreviation LZ4_CODEC := transport_codec_LZ4.
Abbreviation PREFACE := transport_PREFACE.

(** ** Headers *)

Inductive Class_ := Event | Request | Result.

#[global] Instance Class_eq_dec : EqDecision Class_.
Proof. solve_decision. Defined.

(** [class as u8] *)
Definition Class_u8 (c : Class_) : Z :=
  match c with
  | Event => transport_class_EVENT
  | Request => transport_class_REQUEST
  | Result => transport_class_RESULT
  end.

(** The inverse of [class as u8] on a number. *)
Definition Class_of_u8 (z : Z) : option Class_ :=
  if z =? transport_class_EVENT then Some Event
  else if z =? transport_class_REQUEST then Some Request
  else if z =? transport_class_RESULT then Some Result
  else None.

Lemma Class_of_to_u8 c : Class_of_u8 (Class_u8 c) = Some c.
Proof. by destruct c. Qed.

#[global] Instance Class_countable : Countable Class_ :=
  inj_countable Class_u8 Class_of_u8 Class_of_to_u8.

Definition Class_from_meta (meta : Z) : result Error Class_ :=
  ok_or (Class_of_u8 (Z.land meta transport_CLASS_MASK)) (Invalid "frame class").

Record FrameHeader := mkHeader {
  fh_family : Z; fh_kind : Z; fh_class : Class_; fh_request_id : option Z;
  fh_compressed : bool; fh_sensitive : bool
}.

#[global] Instance FrameHeader_eq_dec : EqDecision FrameHeader.
Proof. solve_decision. Defined.

Definition FrameHeader_event (family kind : Z) : FrameHeader :=
  mkHeader family kind Event None false false.
Definition FrameHeader_request (family kind request_id : Z) : FrameHeader :=
  mkHeader family kind Request (Some request_id) false false.
Definition FrameHeader_result (family kind request_id : Z) : FrameHeader :=
  mkHeader family kind Result (Some request_id) false false.

Definition FrameHeader_encoded_len (h : FrameHeader) : Z :=
  match fh_class h with
  | Event => transport_EVENT_HEADER_BYTES
  | Request | Result => transport_CORRELATED_HEADER_BYTES
  end.

Definition FrameHeader_validate (h : FrameHeader) : result Error () :=
  match fh_class h, fh_request_id h with
  | Event, None => Ok ()
  | (Request | Result), Some request_id =>
      reject_if (request_id =? 0) (Invalid "request ID presence")
  | _, _ => Err (Invalid "request ID presence")
  end.

Definition FrameHeader_meta (h : FrameHeader) : Z :=
  let meta := Class_u8 (fh_class h) in
  let meta := if fh_compressed h then Z.lor meta transport_META_COMPRESSED else meta in
  if fh_sensitive h then Z.lor meta transport_META_SENSITIVE else meta.

Definition FrameHeader_encode_to (h : FrameHeader) (out : list byte) : result Error (list byte) :=
  _ ← FrameHeader_validate h;
  let out := put_u16 out (fh_family h) in
  let out := put_u16 out (fh_kind h) in
  let out := push_u8 out (FrameHeader_meta h) in
  Ok (match fh_request_id h with Some request_id => put_u32 out request_id | None => out end).

Definition FrameHeader_decode_from : decoder FrameHeader :=
  family ← dec_u16;
  kind ← dec_u16;
  meta ← dec_u8;
  _ ← reject (has_bits meta transport_META_RESERVED) (Invalid "frame meta reserved bits");
  class ← lift (Class_from_meta meta);
  request_id ← match class with
               | Event => mret None
               | Request | Result => request_id ← dec_u32; mret (Some request_id)
               end;
  mret (mkHeader family kind class request_id
          (has_bits meta transport_META_COMPRESSED) (has_bits meta transport_META_SENSITIVE)).

(** A decoded frame; the payload is always decompressed. *)
Record Frame := mkFrame { fr_header : FrameHeader; fr_payload : list byte }.

(** ** Envelopes *)

Record EventEnvelope := mkEvent {
  ev_family : Z; ev_kind : Z; ev_payload : list byte; ev_compressed : bool; ev_sensitive : bool
}.
Record RequestEnvelope := mkRequest {
  rq_family : Z; rq_kind : Z; rq_request_id : Z; rq_payload : list byte;
  rq_compressed : bool; rq_sensitive : bool
}.
Record ResultEnvelope := mkResult {
  rs_family : Z; rs_kind : Z; rs_request_id : Z; rs_payload : list byte;
  rs_compressed : bool; rs_sensitive : bool
}.
Inductive Envelope :=
| EnvEvent (v : EventEnvelope)
| EnvRequest (v : RequestEnvelope)
| EnvResult (v : ResultEnvelope).

Definition Frame_from_envelope (envelope : Envelope) : Frame :=
  match envelope with
  | EnvEvent v =>
      mkFrame (mkHeader (ev_family v) (ev_kind v) Event None (ev_compressed v) (ev_sensitive v))
        (ev_payload v)
  | EnvRequest v =>
      mkFrame (mkHeader (rq_family v) (rq_kind v) Request (Some (rq_request_id v))
                 (rq_compressed v) (rq_sensitive v)) (rq_payload v)
  | EnvResult v =>
      mkFrame (mkHeader (rs_family v) (rs_kind v) Result (Some (rs_request_id v))
                 (rs_compressed v) (rs_sensitive v)) (rs_payload v)
  end.

(** [None] is the panic of [request_id.unwrap()]. *)
Definition Envelope_from_frame (frame : Frame) : option Envelope :=
  let h := fr_header frame in
  match fh_class h with
  | Event =>
      Some (EnvEvent (mkEvent (fh_family h) (fh_kind h) (fr_payload frame)
                        (fh_compressed h) (fh_sensitive h)))
  | Request =>
      request_id ← fh_request_id h;
      Some (EnvRequest (mkRequest (fh_family h) (fh_kind h) request_id (fr_payload frame)
                          (fh_compressed h) (fh_sensitive h)))
  | Result =>
      request_id ← fh_request_id h;
      Some (EnvResult (mkResult (fh_family h) (fh_kind h) request_id (fr_payload frame)
                         (fh_compressed h) (fh_sensitive h)))
  end.

(** ** Limits *)

Record FrameLimits := mkLimits { max_wire_frame : Z; max_decoded_frame : Z }.

Inductive DatagramContext := NetNativeFlow | CtxSurfaceFrame | CtxMediaFrame.

#[global] Instance DatagramContext_eq_dec : EqDecision DatagramContext.
Proof. solve_decision. Defined.

Definition FrameLimits_pre_hello : FrameLimits :=
  mkLimits transport_PRE_HELLO_MAX_FRAME transport_PRE_HELLO_MAX_FRAME.
Definition FrameLimits_recommended : FrameLimits :=
  mkLimits transport_RECOMMENDED_WIRE_FRAME transport_RECOMMENDED_DECODED_FRAME.

Definition FrameLimits_validate (l : FrameLimits) : result Error FrameLimits :=
  _ ← reject_if (max_wire_frame l <? transport_CORRELATED_HEADER_BYTES)
        (Invalid "wire frame limit");
  _ ← reject_if (transport_HARD_MAX_WIRE_FRAME <? max_wire_frame l)
        (LimitExceeded "wire frame" (max_wire_frame l) transport_HARD_MAX_WIRE_FRAME);
  _ ← reject_if (max_decoded_frame l <? max_wire_frame l) (Invalid "decoded frame limit");
  _ ← reject_if (transport_HARD_MAX_DECODED_FRAME <? max_decoded_frame l)
        (LimitExceeded "decoded frame" (max_decoded_frame l) transport_HARD_MAX_DECODED_FRAME);
  Ok l.

(** ** The codec *)

(** (family, class, kind) *)
Abbreviation OperationKey := (Z * Class_ * Z)%type.

Record FrameCodec := mkCodec {
  fc_limits : FrameLimits;
  fc_codecs : gset Z;
  fc_compression_required : gset OperationKey;
  fc_compression_forbidden : gset OperationKey;
  fc_sensitive_required : gset OperationKey;
  fc_sensitive_forbidden : gset OperationKey;
  fc_hello_only : bool
}.

(** The loop over [negotiated_codecs]. *)
Fixpoint negotiate_codecs (previous : option Z) (codecs : gset Z) (l : list Z)
    : result Error (gset Z) :=
  match l with
  | [] => Ok codecs
  | codec :: l' =>
      _ ← reject_if ((codec =? 0) || tag_not_after previous codec)
            (Invalid "negotiated codec order");
      _ ← reject_if (negb (codec =? LZ4_CODEC)) (UnsupportedCodec codec);
      negotiate_codecs (Some codec) ({[ codec ]} ∪ codecs) l'
  end.

(** [match operation.class] of [FrameCodec::new] *)
Definition schema_class (class : Z) : result Error Class_ :=
  if class =? transport_class_EVENT then Ok Event
  else if class =? transport_class_REQUEST then Ok Request
  else Err (Invalid "schema operation class").

(** A Request policy also covers its correlated Result. *)
Definition policy_keys (family : Z) (class : Class_) (kind : Z) : list OperationKey :=
  match class with
  | Request => [(family, class, kind); (family, Result, kind)]
  | _ => [(family, class, kind)]
  end.

(** [set.extend(keys)] when the operation's policy is [wanted]. *)
Definition extend_if (wanted policy : Z) (keys : list OperationKey) (s : gset OperationKey)
    : gset OperationKey :=
  if policy =? wanted then list_to_set keys ∪ s else s.

(** The body of the loop over a family's operations. *)
Definition add_operation (family : FamilyMetadata) (op : OperationMetadata) (c : FrameCodec)
    : result Error FrameCodec :=
  class ← schema_class (op_class op);
  let keys := policy_keys (fam_id family) class (op_kind op) in
  Ok {| fc_limits := fc_limits c; fc_codecs := fc_codecs c;
        fc_compression_required :=
          extend_if transport_policy_REQUIRED (op_compression op) keys (fc_compression_required c);
        fc_compression_forbidden :=
          extend_if transport_policy_FORBIDDEN (op_compression op) keys (fc_compression_forbidden c);
        fc_sensitive_required :=
          extend_if transport_policy_REQUIRED (op_sensitive op) keys (fc_sensitive_required c);
        fc_sensitive_forbidden :=
          extend_if transport_policy_FORBIDDEN (op_sensitive op) keys (fc_sensitive_forbidden c);
        fc_hello_only := fc_hello_only c |}.

Definition add_family (family : FamilyMetadata) (c : FrameCodec) : result Error FrameCodec :=
  try_fold (add_operation family) (fam_operations family) c.

Definition FrameCodec_new (limits : FrameLimits) (negotiated_codecs : list Z)
    : result Error FrameCodec :=
  limits ← FrameLimits_validate limits;
  codecs ← negotiate_codecs None ∅ negotiated_codecs;
  try_fold add_family FAMILIES (mkCodec limits codecs ∅ ∅ ∅ ∅ false).

(** The policy sets are large: compare terms before building them. *)
#[global] Strategy 1000 [FrameCodec_new].

(** [None] is the panic of [expect]. *)
Definition FrameCodec_pre_hello : option FrameCodec :=
  match FrameCodec_new FrameLimits_pre_hello [] with
  | Ok c =>
      Some (mkCodec (fc_limits c) (fc_codecs c) (fc_compression_required c)
              (fc_compression_forbidden c) (fc_sensitive_required c) (fc_sensitive_forbidden c)
              true)
  | Err _ => None
  end.

Definition FrameCodec_forbid_compression (c : FrameCodec) (family : Z) (class : Class_) (kind : Z)
    : FrameCodec :=
  mkCodec (fc_limits c) (fc_codecs c) (fc_compression_required c)
    ({[ (family, class, kind) ]} ∪ fc_compression_forbidden c)
    (fc_sensitive_required c) (fc_sensitive_forbidden c) (fc_hello_only c).

Definition FrameCodec_require_compression (c : FrameCodec) (family : Z) (class : Class_) (kind : Z)
    : FrameCodec :=
  mkCodec (fc_limits c) (fc_codecs c) ({[ (family, class, kind) ]} ∪ fc_compression_required c)
    (fc_compression_forbidden c)
    (fc_sensitive_required c) (fc_sensitive_forbidden c) (fc_hello_only c).

Definition FrameCodec_require_sensitive (c : FrameCodec) (family : Z) (class : Class_) (kind : Z)
    : FrameCodec :=
  mkCodec (fc_limits c) (fc_codecs c) (fc_compression_required c) (fc_compression_forbidden c)
    ({[ (family, class, kind) ]} ∪ fc_sensitive_required c)
    (fc_sensitive_forbidden c) (fc_hello_only c).

Definition FrameCodec_forbid_sensitive (c : FrameCodec) (family : Z) (class : Class_) (kind : Z)
    : FrameCodec :=
  mkCodec (fc_limits c) (fc_codecs c) (fc_compression_required c) (fc_compression_forbidden c)
    (fc_sensitive_required c) ({[ (family, class, kind) ]} ∪ fc_sensitive_forbidden c)
    (fc_hello_only c).

Definition header_key (h : FrameHeader) : OperationKey := (fh_family h, fh_class h, fh_kind h).

Definition validate_schema_flags (c : FrameCodec) (h : FrameHeader) : result Error () :=
  _ ← reject_if (fc_hello_only c
        && (negb (fh_family h =? family_CORE) || negb (fh_kind h =? core_request_HELLO)
            || bool_decide (fh_class h = Event) || fh_compressed h))
      (Invalid "pre-HELLO frame");
  let key := header_key h in
  _ ← reject_if (negb (fh_compressed h) && bool_decide (key ∈ fc_compression_required c))
      (Invalid "missing required compression");
  _ ← reject_if (fh_compressed h && bool_decide (key ∈ fc_compression_forbidden c))
      (Invalid "compression-forbidden frame");
  _ ← reject_if (negb (fh_sensitive h) && bool_decide (key ∈ fc_sensitive_required c))
      (Invalid "missing SENSITIVE flag");
  reject_if (fh_sensitive h && bool_decide (key ∈ fc_sensitive_forbidden c))
      (Invalid "forbidden SENSITIVE flag").

Definition check_wire_len (c : FrameCodec) (n : Z) : result Error () :=
  _ ← reject_if (max_wire_frame (fc_limits c) <? n)
        (LimitExceeded "wire frame" n (max_wire_frame (fc_limits c)));
  if n <? transport_EVENT_HEADER_BYTES then
    Err (if n =? 0 then Invalid "empty frame" else Truncated)
  else Ok ().

Definition check_decoded_len (c : FrameCodec) (header_len payload_len : Z) : result Error () :=
  decoded ← ok_or (checked_add_u64 header_len payload_len) LengthOverflow;
  reject_if (max_decoded_frame (fc_limits c) <? decoded)
    (LimitExceeded "decoded frame" decoded (max_decoded_frame (fc_limits c))).

Definition validate_datagram_header (h : FrameHeader) (receive_max_datagram : Z)
    : result Error () :=
  reject_if ((receive_max_datagram =? 0) || (transport_HARD_MAX_DATAGRAM <? receive_max_datagram)
      || negb (bool_decide (fh_class h = Event)) || fh_compressed h
      || (fh_family h =? family_CORE) || (fh_family h =? family_TRANSFER))
    (Invalid "transport datagram frame").

Definition check_datagram_len (n receive_max_datagram : Z) : result Error () :=
  let maximum := Z.min receive_max_datagram transport_HARD_MAX_DATAGRAM in
  reject_if ((maximum =? 0) || (maximum <? n)) (LimitExceeded "transport datagram" n maximum).

(** [r.is_ok_and(p)] *)
Definition is_ok_and {E A} (r : result E A) (p : A → bool) : bool :=
  match r with Ok a => p a | Err _ => false end.

Definition validate_datagram_predicate (frame : Frame) (context : DatagramContext)
    : result Error () :=
  let h := fr_header frame in
  op ← ok_or (operation (fh_family h) (Class_u8 (fh_class h)) (fh_kind h))
         (Invalid "transport datagram predicate");
  eligible ←
    (if op_datagram op =? transport_datagram_predicate_NET_NATIVE_FLOW then
       Ok (bool_decide (context = NetNativeFlow)
           && is_ok (decode (fr_payload frame) : result Error Datagram))
     else if op_datagram op =? transport_datagram_predicate_SURFACE_FRAME then
       Ok (bool_decide (context = CtxSurfaceFrame)
           && is_ok_and (decode (fr_payload frame)) SurfaceFrame_datagram_eligible)
     else if op_datagram op =? transport_datagram_predicate_MEDIA_FRAME then
       Ok (bool_decide (context = CtxMediaFrame)
           && is_ok_and (decode (fr_payload frame)) MediaFrame_datagram_eligible)
     else if op_datagram op =? transport_datagram_predicate_FORBIDDEN then Ok false
     else Err (Invalid "unknown transport datagram predicate"));
  reject_if (negb eligible) (Invalid "transport datagram predicate").

Definition validate_preface (input : list byte) : result Error () :=
  _ ← reject_if (len input <? len PREFACE) Truncated;
  reject_if (negb (len input =? len PREFACE) || negb (bool_decide (input = PREFACE)))
    (Invalid "preface").

Section Lz4.
(** [lz4_flex::block::compress] and [decompress(input, uncompressed_size)]. *)
Context (compress : list byte → list byte) (decompress : list byte → Z → option (list byte)).

Definition FrameCodec_encode (c : FrameCodec) (frame : Frame) : result Error (list byte) :=
  let h := fr_header frame in
  _ ← validate_schema_flags c h;
  _ ← FrameHeader_validate h;
  let header_len := FrameHeader_encoded_len h in
  _ ← check_decoded_len c header_len (len (fr_payload frame));
  out ← FrameHeader_encode_to h [];
  out ← (if fh_compressed h then
           _ ← reject_if (bool_decide (header_key h ∈ fc_compression_forbidden c))
                 (Invalid "compression-forbidden frame");
           _ ← reject_if (negb (bool_decide (LZ4_CODEC ∈ fc_codecs c)))
                 (UnsupportedCodec LZ4_CODEC);
           let out := put_u16 out LZ4_CODEC in
           let out := put_u16 out 0 in
           out ← put_len_u32 out (len (fr_payload frame));
           Ok (out ++ compress (fr_payload frame))
         else Ok (out ++ fr_payload frame));
  _ ← check_wire_len c (len out);
  Ok out.

(** The payload of [decode], after the header. *)
Definition decode_payload (c : FrameCodec) (h : FrameHeader) : decoder (list byte) :=
  let header_len := FrameHeader_encoded_len h in
  if fh_compressed h then
    _ ← reject (bool_decide (header_key h ∈ fc_compression_forbidden c))
          (Invalid "compression-forbidden frame");
    codec ← dec_u16;
    reserved ← dec_u16;
    _ ← reject (negb (reserved =? 0)) (Invalid "compressed payload reserved field");
    decoded_len ← dec_u32;
    _ ← lift (check_decoded_len c header_len decoded_len);
    _ ← reject (negb (bool_decide (codec ∈ fc_codecs c))) (UnsupportedCodec codec);
    if codec =? LZ4_CODEC then
      rest ← dec_rest; lift (ok_or (decompress rest decoded_len) Compression)
    else fail (UnsupportedCodec codec)
  else
    payload ← dec_rest;
    _ ← lift (check_decoded_len c header_len (len payload));
    mret payload.

Definition FrameCodec_read (c : FrameCodec) : decoder Frame :=
  h ← FrameHeader_decode_from;
  _ ← lift (FrameHeader_validate h);
  _ ← lift (validate_schema_flags c h);
  payload ← decode_payload c h;
  _ ← dec_finish;
  mret (mkFrame h payload).

Definition FrameCodec_decode (c : FrameCodec) (input : list byte) : result Error Frame :=
  _ ← check_wire_len c (len input);
  run (FrameCodec_read c) (Decoder_new input).

(** One frame for a byte-stream link, with its [u32] length. *)
Definition FrameCodec_encode_stream (c : FrameCodec) (frame : Frame) : result Error (list byte) :=
  encoded ← FrameCodec_encode c frame;
  out ← put_len_u32 [] (len encoded);
  Ok (out ++ encoded).

(** The first frame of a byte stream and the bytes it took. *)
Definition FrameCodec_decode_stream (c : FrameCodec) (input : list byte)
    : result Error (Frame * Z) :=
  _ ← reject_if (len input <? 4) Truncated;
  let n := from_le (take 4 input) in
  _ ← check_wire_len c n;
  stop ← ok_or (checked_add_u64 4 n) LengthOverflow;
  bytes ← ok_or (slice_get input 4 stop) Truncated;
  frame ← FrameCodec_decode c bytes;
  Ok (frame, stop).

Definition FrameCodec_encode_datagram (c : FrameCodec) (frame : Frame)
    (receive_max_datagram : Z) (context : DatagramContext) : result Error (list byte) :=
  _ ← validate_datagram_header (fr_header frame) receive_max_datagram;
  _ ← validate_datagram_predicate frame context;
  encoded ← FrameCodec_encode c frame;
  _ ← check_datagram_len (len encoded) receive_max_datagram;
  Ok encoded.

Definition FrameCodec_decode_datagram (c : FrameCodec) (input : list byte)
    (receive_max_datagram : Z) (context : DatagramContext) : result Error Frame :=
  _ ← check_datagram_len (len input) receive_max_datagram;
  frame ← FrameCodec_decode c input;
  _ ← validate_datagram_header (fr_header frame) receive_max_datagram;
  _ ← validate_datagram_predicate frame context;
  Ok frame.

End Lz4.
