(* ===== verification/FrameFacts.v ===== *)
(** * FrameFacts: the framing layer is a faithful, bounded, policy-enforcing codec *)

From S2P Require Import Prelude Schema Codec CodecFacts Wire Datagrams Frame.

(** ** Headers *)

(** The type invariant of [FrameHeader]: field widths. *)
Definition FrameHeader_wf (h : FrameHeader) : Prop :=
  is_u16 (fh_family h) ∧ is_u16 (fh_kind h) ∧
  match fh_request_id h with Some r => is_u32 r | None => True end.

Definition request_id_bytes (h : FrameHeader) : list byte :=
  match fh_request_id h with Some r => to_le 4 r | None => [] end.

Definition FrameHeader_bytes (h : FrameHeader) : list byte :=
  to_le 2 (fh_family h) ++ to_le 2 (fh_kind h) ++ [byte_of (FrameHeader_meta h)]
  ++ request_id_bytes h.

Lemma FrameHeader_validate_ok h u :
  FrameHeader_validate h = Ok u ↔
  match fh_request_id h with
  | None => fh_class h = Event
  | Some r => fh_class h ≠ Event ∧ r ≠ 0
  end.
Proof.
  destruct u. unfold FrameHeader_validate.
  destruct (fh_class h), (fh_request_id h) as [r|]; rewrite ?reject_if_ok; cbn; naive_solver lia.
Qed.

Lemma header_len_range h : 5 <= FrameHeader_encoded_len h <= 9.
Proof. by destruct h as [? ? [] ? ? ?]. Qed.

Lemma len_request_id_bytes h :
  FrameHeader_validate h = Ok () → 5 + len (request_id_bytes h) = FrameHeader_encoded_len h.
Proof.
  unfold FrameHeader_validate, request_id_bytes, FrameHeader_encoded_len.
  destruct (fh_class h), (fh_request_id h); intros H; try discriminate H; by rewrite ?len_to_le.
Qed.

Lemma len_FrameHeader_bytes h :
  FrameHeader_validate h = Ok () → len (FrameHeader_bytes h) = FrameHeader_encoded_len h.
Proof.
  intros H. rewrite <- (len_request_id_bytes h H). unfold FrameHeader_bytes.
  autorewrite with len. lia.
Qed.

Lemma FrameHeader_encode_ok h out o :
  FrameHeader_encode_to h out = Ok o ↔
  o = out ++ FrameHeader_bytes h ∧ FrameHeader_validate h = Ok ().
Proof.
  unfold FrameHeader_encode_to, FrameHeader_bytes, request_id_bytes, put_u16, put_u32, push_u8.
  destruct (FrameHeader_validate h) as [[]|]; cbn; [|naive_solver].
  destruct (fh_request_id h); rewrite <- ?app_assoc, ?app_nil_r; split;
    [by intros [= <-]|by intros [-> _]|by intros [= <-]|by intros [-> _]].
Qed.

Lemma FrameHeader_meta_facts h :
  let m := FrameHeader_meta h in
  is_u8 m ∧ has_bits m transport_META_RESERVED = false ∧
  Class_from_meta m = Ok (fh_class h) ∧
  has_bits m transport_META_COMPRESSED = fh_compressed h ∧
  has_bits m transport_META_SENSITIVE = fh_sensitive h.
Proof. destruct h as [? ? [] ? [] []]; done. Qed.

(** A meta byte without reserved bits is the one its three fields make. *)
Lemma meta_spelled (b : byte) family kind class rid :
  has_bits (byte_val b) transport_META_RESERVED = false →
  Class_from_meta (byte_val b) = Ok class →
  FrameHeader_meta (mkHeader family kind class rid
    (has_bits (byte_val b) transport_META_COMPRESSED)
    (has_bits (byte_val b) transport_META_SENSITIVE)) = byte_val b.
Proof.
  intros H1 H2.
  destruct b; try (vm_compute in H1; discriminate H1);
    vm_compute in H2; try discriminate H2; injection H2 as <-; vm_compute; reflexivity.
Qed.

Lemma reads_header h :
  FrameHeader_wf h → FrameHeader_validate h = Ok () →
  reads FrameHeader_decode_from (FrameHeader_bytes h) h.
Proof.
  intros (Hf & Hk & Hr) Hv. destruct (FrameHeader_meta_facts h) as (Hm & H1 & H2 & H3 & H4).
  unfold FrameHeader_decode_from, FrameHeader_bytes.
  reads_step idtac. reads_step idtac. reads_step idtac. reads_step ltac:(exact H1).
  reads_step ltac:(exact H2). rewrite H3, H4.
  apply FrameHeader_validate_ok in Hv. unfold request_id_bytes.
  destruct h as [f k c [r|] z s]; cbn in *.
  - destruct Hv as [Hc _]. rewrite <- (app_nil_r (to_le 4 r)).
    destruct c; [done| |]; (eapply reads_bind; [|apply reads_mret]);
      rewrite <- (app_nil_r (to_le 4 r)); (eapply reads_bind; [by apply reads_u32|apply reads_mret]).
  - subst c. apply (reads_bind_nil _ _ [] None); [apply reads_mret|apply reads_mret].
Qed.

Lemma spells_header :
  spells FrameHeader_decode_from FrameHeader_bytes FrameHeader_wf.
Proof.
  intros d l h d' Hd H. unfold FrameHeader_decode_from in H. dec_inv.
  assert (∃ b, x1 = byte_val b) as [b ->].
  { exists (byte_of x1). by rewrite byte_val_of. }
  unfold FrameHeader_bytes. rewrite meta_spelled by done. unfold FrameHeader_wf, request_id_bytes; cbn.
  destruct x3; dec_inv; (eexists; split; [|split; [done|]]);
    [by rewrite <- ?app_assoc|done|by rewrite <- ?app_assoc|done|by rewrite <- ?app_assoc|done].
Qed.
#[export] Hint Resolve spells_header : spells.

(** ** The codec's checks *)

Lemma check_wire_len_ok c n u :
  check_wire_len c n = Ok u ↔ 5 <= n <= max_wire_frame (fc_limits c).
Proof.
  destruct u. unfold check_wire_len, transport_EVENT_HEADER_BYTES. split.
  - intros H. inv_ok. destruct (Z.ltb_spec n 5); [discriminate H|]. lia.
  - intros H. replace (_ <? n) with false by lia. cbn. by replace (n <? 5) with false by lia.
Qed.

Lemma check_decoded_len_ok c a b u :
  check_decoded_len c a b = Ok u ↔ a + b <= U64_MAX ∧ a + b <= max_decoded_frame (fc_limits c).
Proof.
  destruct u. unfold check_decoded_len. rewrite bind_ok. setoid_rewrite ok_or_ok.
  setoid_rewrite checked_add_u64_some. setoid_rewrite reject_if_ok. split.
  - intros (? & [-> ?] & ?). lia.
  - intros [? ?]. exists (a + b). split; [done|lia].
Qed.

Lemma FrameLimits_validate_ok l l' :
  FrameLimits_validate l = Ok l' ↔
  l' = l ∧ 9 <= max_wire_frame l <= max_decoded_frame l ∧
  max_wire_frame l <= transport_HARD_MAX_WIRE_FRAME ∧
  max_decoded_frame l <= transport_HARD_MAX_DECODED_FRAME.
Proof.
  unfold FrameLimits_validate, transport_CORRELATED_HEADER_BYTES. split.
  - intros H. inv_ok. split; [done|lia].
  - intros (-> & ? & ? & ?). rewrite !reject_if_false by lia. done.
Qed.

(** The invariant of a [FrameCodec]: validated limits, and no codec but the
    one this build implements. *)
Definition FrameCodec_wf (c : FrameCodec) : Prop :=
  FrameLimits_validate (fc_limits c) = Ok (fc_limits c) ∧ fc_codecs c ⊆ {[ LZ4_CODEC ]}.

Lemma FrameCodec_wf_bounds c :
  FrameCodec_wf c →
  9 <= max_wire_frame (fc_limits c) <= 16777216 ∧ max_decoded_frame (fc_limits c) <= 67108864.
Proof.
  intros [(_ & ? & ? & ?)%FrameLimits_validate_ok _].
  unfold transport_HARD_MAX_WIRE_FRAME, transport_HARD_MAX_DECODED_FRAME in *. lia.
Qed.

(** ** Construction and policy changes *)

Lemma negotiate_codecs_ok prev s l s' :
  negotiate_codecs prev s l = Ok s' → s ⊆ {[ LZ4_CODEC ]} → s' ⊆ {[ LZ4_CODEC ]}.
Proof.
  revert prev s. induction l as [|x l IH]; intros prev s H Hs; cbn in H.
  - by injection H as <-.
  - inv_ok. apply (IH _ _ H). assert (x = LZ4_CODEC) as -> by lia. set_solver.
Qed.

(** What the registry says of an operation key: some operation of the
    registry has the policy [wanted] in field [field] and covers the key, as
    its own class or as the Result of a Request. *)
Definition covers (f : FamilyMetadata) (op : OperationMetadata) (key : OperationKey) : Prop :=
  ∃ class, schema_class (op_class op) = Ok class ∧ key ∈ policy_keys (fam_id f) class (op_kind op).

Definition op_policy (field : OperationMetadata → Z) (wanted : Z)
    (ops : list (FamilyMetadata * OperationMetadata)) (key : OperationKey) : Prop :=
  ∃ f op, (f, op) ∈ ops ∧ field op = wanted ∧ covers f op key.

(** Every operation of the registry, with its family. *)
Definition registry : list (FamilyMetadata * OperationMetadata) :=
  concat (map (λ f, map (pair f) (fam_operations f)) FAMILIES).

(** The four policy sets say exactly what the listed operations say. *)
Definition policies_of (ops : list (FamilyMetadata * OperationMetadata)) (c : FrameCodec) : Prop :=
  ∀ key,
  (key ∈ fc_compression_required c ↔ op_policy op_compression transport_policy_REQUIRED ops key) ∧
  (key ∈ fc_compression_forbidden c ↔ op_policy op_compression transport_policy_FORBIDDEN ops key) ∧
  (key ∈ fc_sensitive_required c ↔ op_policy op_sensitive transport_policy_REQUIRED ops key) ∧
  (key ∈ fc_sensitive_forbidden c ↔ op_policy op_sensitive transport_policy_FORBIDDEN ops key).

Definition add_registered (p : FamilyMetadata * OperationMetadata) : FrameCodec → result Error FrameCodec :=
  add_operation p.1 p.2.

Lemma add_family_flat f ops c :
  try_fold (add_operation f) ops c = try_fold add_registered (map (pair f) ops) c.
Proof.
  revert c. induction ops as [|op ops IH]; intros c; [done|]. cbn [map try_fold].
  change (add_registered (f, op) c) with (add_operation f op c).
  destruct (add_operation f op c); [apply IH|done].
Qed.

Lemma add_families_flat fs c :
  try_fold add_family fs c
  = try_fold add_registered (concat (map (λ f, map (pair f) (fam_operations f)) fs)) c.
Proof.
  revert c. induction fs as [|f fs IH]; intros c; [done|]. cbn [map concat try_fold].
  rewrite try_fold_app, <- add_family_flat.
  change (try_fold (add_operation f) (fam_operations f) c) with (add_family f c).
  destruct (add_family f c); [apply IH|done].
Qed.

Lemma elem_of_extend_if wanted policy keys s key :
  key ∈ extend_if wanted policy keys s ↔ (policy = wanted ∧ key ∈ keys) ∨ key ∈ s.
Proof.
  unfold extend_if. destruct (Z.eqb_spec policy wanted).
  - rewrite elem_of_union, elem_of_list_to_set. naive_solver.
  - naive_solver.
Qed.

Lemma op_policy_snoc field wanted ops f op class key :
  schema_class (op_class op) = Ok class →
  op_policy field wanted (ops ++ [(f, op)]) key ↔
  (field op = wanted ∧ key ∈ policy_keys (fam_id f) class (op_kind op))
  ∨ op_policy field wanted ops key.
Proof.
  intros Hc. unfold op_policy, covers. setoid_rewrite elem_of_app.
  setoid_rewrite list_elem_of_singleton. split.
  - intros (f' & op' & [Hin|[= -> ->]] & Hw & class' & Hc' & Hk); [right; by eauto 10|left].
    rewrite Hc in Hc'. by injection Hc' as ->.
  - intros [[Hw Hk]|(f' & op' & Hin & Hw & class' & Hc' & Hk)]; [|by eauto 10].
    exists f, op. eauto 10.
Qed.

Lemma add_operation_policies ops f op c c' :
  policies_of ops c → add_operation f op c = Ok c' → policies_of (ops ++ [(f, op)]) c'.
Proof.
  intros HP H key. unfold add_operation in H. inv_ok. destruct (HP key) as (H1 & H2 & H3 & H4).
  cbn. rewrite !elem_of_extend_if, !(op_policy_snoc _ _ _ _ _ _ _ Hv). tauto.
Qed.

Lemma add_registered_policies todo done c c' :
  policies_of done c → try_fold add_registered todo c = Ok c' → policies_of (done ++ todo) c'.
Proof.
  revert done c. induction todo as [|[f op] todo IH]; intros done c HP H; cbn in H.
  - injection H as <-. by rewrite app_nil_r.
  - inv_ok. rewrite cons_middle, app_assoc. apply (IH _ _ (add_operation_policies _ _ _ _ _ HP Hv) H).
Qed.

(** [add_operation] touches nothing but the policy sets. *)
Lemma add_registered_frame todo c c' :
  try_fold add_registered todo c = Ok c' →
  fc_limits c' = fc_limits c ∧ fc_codecs c' = fc_codecs c ∧ fc_hello_only c' = fc_hello_only c.
Proof.
  revert c. induction todo as [|[f op] todo IH]; intros c H; cbn in H.
  - by injection H as <-.
  - inv_ok. destruct (IH _ H) as (-> & -> & ->). unfold add_registered, add_operation in Hv.
    inv_ok. done.
Qed.

Lemma op_policy_nil field wanted key : op_policy field wanted [] key ↔ False.
Proof. split; [|done]. intros (? & ? & []%not_elem_of_nil & _). Qed.

Lemma policies_of_nil limits codecs : policies_of [] (mkCodec limits codecs ∅ ∅ ∅ ∅ false).
Proof. intros key; cbn. by rewrite !op_policy_nil, !elem_of_empty. Qed.

Lemma FrameCodec_new_ok limits codecs c :
  FrameCodec_new limits codecs = Ok c →
  FrameCodec_wf c ∧ fc_limits c = limits ∧ fc_hello_only c = false ∧ policies_of registry c.
Proof.
  intros H. unfold FrameCodec_new in H. inv_ok. rewrite add_families_flat in H.
  destruct (add_registered_frame _ _ _ H) as (El & Ec & Eh); cbn in El, Ec, Eh.
  pose proof Hv as (-> & _)%FrameLimits_validate_ok.
  split; [|split; [done|split; [done|]]].
  - unfold FrameCodec_wf. rewrite El, Ec. split; [done|].
    by apply (negotiate_codecs_ok _ _ _ _ Hv0).
  - by apply (add_registered_policies _ [] _ _ (policies_of_nil _ _)) in H.
Qed.

(** The registry itself is accepted: construction fails only on bad limits or
    on a bad list of codecs. *)
Lemma registry_accepted c : ∃ c', try_fold add_family FAMILIES c = Ok c'.
Proof.
  rewrite add_families_flat. fold registry.
  assert (forallb (λ p, is_ok (schema_class (op_class p.2))) registry = true) as HF
    by (vm_compute; reflexivity).
  revert c HF. induction registry as [|[f op] l IH]; intros c HF; [by exists c|].
  cbn in HF. apply andb_true_iff in HF as [H HF].
  assert (∃ c1, add_registered (f, op) c = Ok c1) as [c1 E].
  { unfold add_registered, add_operation. cbn in H |- *.
    destruct (schema_class (op_class op)); [by eexists|discriminate H]. }
  cbn [try_fold]. rewrite E. by apply IH.
Qed.

(** ** Encoding and decoding one frame *)

Definition payload_bytes (compress : list byte → list byte) (f : Frame) : list byte :=
  if fh_compressed (fr_header f) then
    to_le 2 LZ4_CODEC ++ to_le 2 0 ++ to_le 4 (len (fr_payload f)) ++ compress (fr_payload f)
  else fr_payload f.

Definition frame_bytes (compress : list byte → list byte) (f : Frame) : list byte :=
  FrameHeader_bytes (fr_header f) ++ payload_bytes compress f.

(** What a codec requires of a frame it carries. *)
Definition frame_fits (c : FrameCodec) (f : Frame) : Prop :=
  validate_schema_flags c (fr_header f) = Ok () ∧
  FrameHeader_validate (fr_header f) = Ok () ∧
  FrameHeader_encoded_len (fr_header f) + len (fr_payload f) <= max_decoded_frame (fc_limits c).

(** The compression a frame asks for is negotiated. *)
Definition codec_available (c : FrameCodec) (f : Frame) : Prop :=
  fh_compressed (fr_header f) = true → LZ4_CODEC ∈ fc_codecs c.

Lemma validate_schema_flags_ok c h u :
  validate_schema_flags c h = Ok u ↔
  (fc_hello_only c = true →
    fh_family h = family_CORE ∧ fh_kind h = core_request_HELLO ∧ fh_class h ≠ Event ∧
    fh_compressed h = false) ∧
  (header_key h ∈ fc_compression_required c → fh_compressed h = true) ∧
  (header_key h ∈ fc_compression_forbidden c → fh_compressed h = false) ∧
  (header_key h ∈ fc_sensitive_required c → fh_sensitive h = true) ∧
  (header_key h ∈ fc_sensitive_forbidden c → fh_sensitive h = false).
Proof.
  unfold validate_schema_flags. rewrite !reject_bind_ok, reject_if_ok, !guard_false.
  destruct (fc_hello_only c); [|cbn; rewrite !negb_false_iff; intuition discriminate].
  cbn [andb]. rewrite !orb_false_iff, !negb_false_iff, bool_decide_eq_false, !Z.eqb_eq. tauto.
Qed.

Section Lz4Facts.
Context (compress : list byte → list byte) (decompress : list byte → Z → option (list byte)).
(** The documented contract of [lz4_flex]: decompressing a compressed block
    into a buffer of its original size gives the block back, and the output
    never exceeds the size asked for. *)
Context (lz4_roundtrip : ∀ p, decompress (compress p) (len p) = Some p).
Context (lz4_bounded : ∀ z n p, decompress z n = Some p → len p <= n).

Abbreviation enc := (FrameCodec_encode compress).
Abbreviation dec := (FrameCodec_decode decompress).

(** Exactly which frames a codec encodes, and to what bytes. *)
Lemma FrameCodec_encode_ok c f bs :
  FrameCodec_wf c →
  enc c f = Ok bs ↔
  bs = frame_bytes compress f ∧ frame_fits c f ∧ codec_available c f ∧
  len bs <= max_wire_frame (fc_limits c).
Proof.
  intros [_ Hb]%FrameCodec_wf_bounds.
  unfold FrameCodec_encode, frame_bytes, payload_bytes, frame_fits, codec_available. split.
  - intros H. inv_ok. apply FrameHeader_encode_ok in Hv2 as [-> _].
    apply check_decoded_len_ok in Hv1 as [_ Hd]. apply check_wire_len_ok in Hv4 as [_ Hw].
    destruct (fh_compressed (fr_header f)) eqn:Ec; enc_inv; cbn [app] in *.
    + match goal with H : negb (bool_decide _) = false |- _ =>
        apply negb_false_iff, bool_decide_eq_true in H end.
      split; [unfold put_u16; by rewrite <- !app_assoc|done].
    + done.
  - intros (-> & (Hs & Hh & Hd) & Ha & Hw).
    rewrite Hs, Hh. cbn [mbind result_bind]. pose proof (len_nonneg (fr_payload f)).
    pose proof (header_len_range (fr_header f)).
    rewrite (proj2 (check_decoded_len_ok _ _ _ ())) by (unfold U64_MAX; lia). cbn [mbind result_bind].
    rewrite (proj2 (FrameHeader_encode_ok _ [] _) (conj eq_refl Hh)). cbn [mbind result_bind app].
    pose proof (len_FrameHeader_bytes _ Hh) as Hhl.
    assert (len (fr_payload f) <= U32_MAX) as H32 by (unfold U32_MAX; lia).
    apply validate_schema_flags_ok in Hs as (_ & _ & Hcf & _).
    destruct (fh_compressed (fr_header f)) eqn:Ec.
    + rewrite (bool_decide_eq_false_2 (_ ∈ fc_compression_forbidden c)) by (intros Hk%Hcf; congruence).
      rewrite bool_decide_eq_true_2 by auto. cbn [negb reject_if mbind result_bind].
      rewrite (proj2 (put_len_u32_ok _ _ _) (conj eq_refl H32)).
      cbn [mbind result_bind]. unfold put_u16. rewrite <- !app_assoc in *.
      rewrite (proj2 (check_wire_len_ok _ _ ())); [done|]. split; [|done]. autorewrite with len. len_lia.
    + cbn [mbind result_bind]. rewrite (proj2 (check_wire_len_ok _ _ ())); [done|].
      split; [|done]. autorewrite with len. lia.
Qed.

Lemma decode_payload_reads c f :
  FrameCodec_wf c → frame_fits c f → codec_available c f →
  reads_end (decode_payload decompress c (fr_header f)) (payload_bytes compress f) (fr_payload f).
Proof.
  intros [_ Hb]%FrameCodec_wf_bounds (Hs & Hh & Hd) Ha.
  apply validate_schema_flags_ok in Hs as (_ & _ & Hcf & _).
  pose proof (len_nonneg (fr_payload f)).
  pose proof (header_len_range (fr_header f)).
  assert (check_decoded_len c (FrameHeader_encoded_len (fr_header f)) (len (fr_payload f)) = Ok ())
    as Hcd by (apply check_decoded_len_ok; unfold U64_MAX; lia).
  unfold decode_payload, payload_bytes, codec_available in *.
  destruct (fh_compressed (fr_header f)).
  - reads_step ltac:(apply bool_decide_eq_false_2; intros Hk%Hcf; congruence).
    do 2 reads_step ltac:(by apply reads_u16). reads_step ltac:(done).
    reads_step ltac:(idtac). reads_step ltac:(exact Hcd).
    reads_step ltac:(by rewrite bool_decide_eq_true_2 by auto).
    cbn [Z.eqb Pos.eqb]. eapply reads_end_bind_all; [apply reads_end_rest|].
    apply reads_reads_end, reads_lift. by rewrite lz4_roundtrip.
  - reads_step idtac. reads_step ltac:(exact Hcd). reads_step idtac.
Qed.

Lemma FrameCodec_decode_bytes c f :
  FrameCodec_wf c → FrameHeader_wf (fr_header f) → frame_fits c f → codec_available c f →
  len (frame_bytes compress f) <= max_wire_frame (fc_limits c) →
  dec c (frame_bytes compress f) = Ok f.
Proof.
  intros Hc Hw Hf Ha Hl. pose proof (FrameCodec_wf_bounds c Hc) as [Hb1 Hb2].
  unfold FrameCodec_decode. pose proof Hf as (Hs & Hh & _).
  rewrite (proj2 (check_wire_len_ok _ _ ())).
  2:{ split; [|done]. unfold frame_bytes. rewrite len_app, len_FrameHeader_bytes by done.
      pose proof (len_nonneg (payload_bytes compress f)). pose proof (header_len_range (fr_header f)). lia. }
  cbn [mbind result_bind]. apply run_reads_end; [|unfold ISIZE_MAX; lia].
  unfold FrameCodec_read, frame_bytes.
  eapply reads_end_bind; [by apply reads_header|]. cbn beta.
  reads_step ltac:(exact Hh). reads_step ltac:(exact Hs).
  eapply reads_end_bind_all; [by apply decode_payload_reads|].
  reads_step idtac. destruct f. reads_step idtac.
Qed.

(** What a successful decode says of the bytes and of the frame. *)
Lemma decode_payload_ok c h d l p d' :
  dec_at d l → decode_payload decompress c h d = Ok (p, d') →
  FrameHeader_encoded_len h + len p <= max_decoded_frame (fc_limits c) ∧
  (if fh_compressed h then LZ4_CODEC ∈ fc_codecs c else l = p) ∧ dec_at d' [].
Proof.
  intros Hd H. unfold decode_payload in H. destruct (fh_compressed h).
  - dec_inv. destruct (Z.eqb_spec x0 LZ4_CODEC) as [->|]; [|discriminate H].
    dec_inv. inv_ok.
    match goal with H : decompress _ _ = Some _ |- _ => apply lz4_bounded in H end.
    match goal with H : check_decoded_len _ _ _ = Ok _ |- _ =>
      apply check_decoded_len_ok in H end.
    match goal with H : negb (bool_decide _) = false |- _ =>
      apply negb_false_iff, bool_decide_eq_true in H end.
    split; [lia|done].
  - dec_inv.
    match goal with H : check_decoded_len _ _ _ = Ok _ |- _ =>
      apply check_decoded_len_ok in H end.
    split; [lia|done].
Qed.

Lemma FrameCodec_decode_inv c bs f :
  FrameCodec_wf c → dec c bs = Ok f →
  5 <= len bs <= max_wire_frame (fc_limits c) ∧ FrameHeader_wf (fr_header f) ∧
  frame_fits c f ∧ codec_available c f ∧
  (fh_compressed (fr_header f) = false → bs = frame_bytes compress f).
Proof.
  intros Hc H. pose proof (FrameCodec_wf_bounds c Hc) as [Hb1 Hb2].
  unfold FrameCodec_decode in H. inv_ok. apply check_wire_len_ok in Hv.
  apply run_ok in H as (d' & H). pose proof (dec_at_new bs ltac:(unfold ISIZE_MAX; lia)) as Hd.
  unfold FrameCodec_read in H.
  apply decoder_bind_ok in H as (h & d1 & Hh & H).
  destruct (spells_header _ _ _ _ Hd Hh) as (l & -> & Hd1 & Hw). clear Hd Hh.
  apply decoder_bind_ok in H as ([] & ? & [Hval ->]%lift_ok & H).
  apply decoder_bind_ok in H as ([] & ? & [Hflags ->]%lift_ok & H).
  apply decoder_bind_ok in H as (p & d2 & Hp & H).
  destruct (decode_payload_ok _ _ _ _ _ _ Hd1 Hp) as (Hb & Hl & Hd2). dec_inv.
  unfold frame_fits, codec_available, frame_bytes, payload_bytes; cbn.
  do 2 (split; [done|]). split; [done|].
  destruct (fh_compressed h); [done|]. subst l. done.
Qed.

(** C4: a frame that the codec of one direction encodes, the same codec
    decodes back to the same frame - header, flags and payload - whether or not
    the payload travels compressed. *)
Theorem frame_roundtrip c f bs :
  FrameCodec_wf c → FrameHeader_wf (fr_header f) → enc c f = Ok bs → dec c bs = Ok f.
Proof.
  intros Hc Hw (-> & Hf & Ha & Hl)%FrameCodec_encode_ok; [|done].
  by apply FrameCodec_decode_bytes.
Qed.

(** Whatever bytes arrive, a frame that decodes is within the negotiated
    wire and decoded limits, has a request id exactly when its class needs one
    (and never 0), obeys every compression and SENSITIVE policy of the codec,
    and is compressed only with a negotiated codec. *)
Theorem decoded_frame_within_contract c bs f :
  FrameCodec_wf c → dec c bs = Ok f →
  5 <= len bs <= max_wire_frame (fc_limits c) ∧
  FrameHeader_encoded_len (fr_header f) + len (fr_payload f) <= max_decoded_frame (fc_limits c) ∧
  match fh_request_id (fr_header f) with
  | None => fh_class (fr_header f) = Event
  | Some r => fh_class (fr_header f) ≠ Event ∧ r ≠ 0
  end ∧
  let key := header_key (fr_header f) in
  (key ∈ fc_compression_required c → fh_compressed (fr_header f) = true) ∧
  (key ∈ fc_compression_forbidden c → fh_compressed (fr_header f) = false) ∧
  (key ∈ fc_sensitive_required c → fh_sensitive (fr_header f) = true) ∧
  (key ∈ fc_sensitive_forbidden c → fh_sensitive (fr_header f) = false) ∧
  (fh_compressed (fr_header f) = true → LZ4_CODEC ∈ fc_codecs c).
Proof.
  intros Hc H. destruct (FrameCodec_decode_inv _ _ _ Hc H) as (Hl & Hw & (Hs & Hh & Hb) & Ha & _).
  apply validate_schema_flags_ok in Hs as (_ & Hs). apply FrameHeader_validate_ok in Hh.
  split; [done|]. split; [done|]. split; [done|]. cbn. unfold codec_available in Ha. tauto.
Qed.

(** An uncompressed frame has one encoding only: bytes that decode to
    it are the bytes the encoder produces for it. *)
Theorem uncompressed_frame_canonical c bs f :
  FrameCodec_wf c → dec c bs = Ok f → fh_compressed (fr_header f) = false → enc c f = Ok bs.
Proof.
  intros Hc H Hu. destruct (FrameCodec_decode_inv _ _ _ Hc H) as (Hl & Hw & Hf & Ha & Hb).
  apply FrameCodec_encode_ok; [done|]. split; [by apply Hb|]. split; [done|]. split; [done|lia].
Qed.

(** ** Byte streams *)

Lemma FrameCodec_encode_stream_ok c f bs :
  FrameCodec_wf c →
  FrameCodec_encode_stream compress c f = Ok bs ↔ ∃ body, enc c f = Ok body ∧ bs = lp32 body.
Proof.
  intros Hc. unfold FrameCodec_encode_stream, lp32. rewrite bind_ok. split.
  - intros (body & E & H). exists body. split; [done|]. by enc_inv.
  - intros (body & E & ->). exists body. split; [done|].
    pose proof (FrameCodec_wf_bounds c Hc) as [Hb1 Hb2].
    apply FrameCodec_encode_ok in E as (_ & _ & _ & Hl); [|done].
    assert (len body <= U32_MAX) as H32 by (unfold U32_MAX; lia).
    by rewrite (proj2 (put_len_u32_ok _ _ _) (conj eq_refl H32)).
Qed.

Lemma slice_get_lp32 body rest : slice_get (lp32 body ++ rest) 4 (4 + len body) = Some body.
Proof.
  pose proof (len_nonneg body). pose proof (len_nonneg rest).
  unfold slice_get. autorewrite with len. replace (_ && _) with true by lia.
  replace (4 + len body - 4) with (len body) by lia. rewrite to_nat_len.
  unfold lp32. rewrite <- app_assoc, drop_app_length' by by rewrite length_to_le.
  by rewrite take_app_length.
Qed.

Lemma take_lp32 body rest : take 4 (lp32 body ++ rest) = to_le 4 (len body).
Proof. unfold lp32. rewrite <- app_assoc. apply take_app_length'. by rewrite length_to_le. Qed.

Lemma decode_stream_encoded c f bs rest :
  FrameCodec_wf c → FrameHeader_wf (fr_header f) →
  FrameCodec_encode_stream compress c f = Ok bs →
  FrameCodec_decode_stream decompress c (bs ++ rest) = Ok (f, len bs).
Proof.
  intros Hc Hw (body & E & ->)%FrameCodec_encode_stream_ok; [|done].
  pose proof (FrameCodec_wf_bounds c Hc) as [Hb1 Hb2].
  apply FrameCodec_encode_ok in E as (-> & Hf & Ha & Hlen); [|done].
  pose proof (FrameCodec_decode_bytes c f Hc Hw Hf Ha Hlen) as Hd.
  destruct (FrameCodec_decode_inv _ _ _ Hc Hd) as (Hl & _).
  remember (frame_bytes compress f) as body eqn:Eb; clear Eb.
  unfold FrameCodec_decode_stream. rewrite take_lp32, from_to_le by lia.
  pose proof (len_nonneg rest). autorewrite with len.
  rewrite reject_if_false, bind_is_ok by lia.
  rewrite (proj2 (check_wire_len_ok _ _ ()) Hl), bind_is_ok.
  rewrite (proj2 (checked_add_u64_some 4 (len body) _)) by (unfold U64_MAX; split; [done|lia]).
  cbn [ok_or]. rewrite bind_is_ok, slice_get_lp32. cbn [ok_or].
  by rewrite bind_is_ok, Hd, bind_is_ok.
Qed.

(** On a byte stream, the encoding of a frame followed by anything decodes
    to that frame and reports exactly the bytes the frame took, so that the
    reader resumes at the next frame. *)
Theorem stream_roundtrip c f bs rest :
  FrameCodec_wf c → FrameHeader_wf (fr_header f) →
  FrameCodec_encode_stream compress c f = Ok bs →
  FrameCodec_decode_stream decompress c (bs ++ rest) = Ok (f, len bs).
Proof. apply decode_stream_encoded. Qed.

End Lz4Facts.
