(* ===== verification/FrameProps.v ===== *)
(** * FrameProps: streams cut short, negotiation, policies and datagrams *)

From S2P Require Import Prelude Schema Codec CodecFacts Wire Datagrams Frame FrameFacts.

Section Streams.
Context (compress : list byte → list byte) (decompress : list byte → Z → option (list byte)).

(** Every proper prefix of a stream frame is reported as truncated, the
    "read more" answer, and never as a frame or as a protocol violation. *)
Theorem stream_prefix_truncated c f bs n :
  FrameCodec_wf c → FrameCodec_encode_stream compress c f = Ok bs → (n < length bs)%nat →
  FrameCodec_decode_stream decompress c (take n bs) = Err Truncated.
Proof.
  intros Hc (body & E & ->)%FrameCodec_encode_stream_ok Hn; [|done].
  pose proof (FrameCodec_wf_bounds c Hc) as [Hb1 Hb2].
  pose proof E as (-> & Hf & Ha & Hlen)%FrameCodec_encode_ok; [|done].
  remember (frame_bytes compress f) as body eqn:Eb.
  assert (5 <= len body) as H5.
  { subst body. unfold frame_bytes. rewrite len_app, len_FrameHeader_bytes by apply Hf.
    pose proof (header_len_range (fr_header f)). pose proof (len_nonneg (payload_bytes compress f)). lia. }
  assert (length (lp32 body) = 4 + length body)%nat as Hlp
    by (unfold lp32; by rewrite length_app, length_to_le).
  assert (len (take n (lp32 body)) = Z.of_nat n) as Hln
    by (unfold len; rewrite length_take; lia).
  unfold FrameCodec_decode_stream. rewrite Hln.
  destruct (Z.ltb_spec (Z.of_nat n) 4) as [|H4]; [done|].
  rewrite reject_if_false, bind_is_ok by done.
  rewrite take_take. replace (4 `min` n)%nat with 4%nat by lia.
  pose proof (take_lp32 body []) as Et. rewrite app_nil_r in Et. rewrite Et, from_to_le by lia.
  rewrite (proj2 (check_wire_len_ok _ _ ())), bind_is_ok by lia.
  rewrite (proj2 (checked_add_u64_some 4 (len body) _)) by (unfold U64_MAX; split; [done|lia]).
  cbn [ok_or]. rewrite bind_is_ok. unfold slice_get. rewrite Hln.
  replace (_ && _) with false; [done|]. unfold len. lia.
Qed.
End Streams.

(** ** Negotiation *)

Lemma wf_of_same c c' :
  fc_limits c' = fc_limits c → fc_codecs c' = fc_codecs c → FrameCodec_wf c → FrameCodec_wf c'.
Proof. unfold FrameCodec_wf. by intros -> ->. Qed.

(** The operations on a codec, from the constructors. *)
Inductive codec_built : FrameCodec → Prop :=
| built_new limits codecs c : FrameCodec_new limits codecs = Ok c → codec_built c
| built_pre_hello c : FrameCodec_pre_hello = Some c → codec_built c
| built_forbid_compression c f cl k :
    codec_built c → codec_built (FrameCodec_forbid_compression c f cl k)
| built_require_compression c f cl k :
    codec_built c → codec_built (FrameCodec_require_compression c f cl k)
| built_require_sensitive c f cl k :
    codec_built c → codec_built (FrameCodec_require_sensitive c f cl k)
| built_forbid_sensitive c f cl k :
    codec_built c → codec_built (FrameCodec_forbid_sensitive c f cl k).

Lemma FrameCodec_pre_hello_ok c :
  FrameCodec_pre_hello = Some c →
  FrameCodec_wf c ∧ fc_limits c = FrameLimits_pre_hello ∧ fc_hello_only c = true.
Proof.
  unfold FrameCodec_pre_hello.
  destruct (FrameCodec_new FrameLimits_pre_hello []) as [c0|e] eqn:E; [|discriminate].
  destruct (FrameCodec_new_ok _ _ _ E) as (Hw & Hl & _). clear E. intros [= <-].
  split; [by apply (wf_of_same c0)|done].
Qed.

(** Every codec the API can build - [new], [pre_hello] and any sequence of
    policy changes - has validated limits and only negotiated, implemented
    compression codecs. *)
Theorem built_codec_wf c : codec_built c → FrameCodec_wf c.
Proof.
  induction 1 as [? ? ? H|? H|? ? ? ? ? IH|? ? ? ? ? IH|? ? ? ? ? IH|? ? ? ? ? IH].
  - by apply FrameCodec_new_ok in H as [? _].
  - by apply FrameCodec_pre_hello_ok in H as [? _].
  - by apply (wf_of_same c).
  - by apply (wf_of_same c).
  - by apply (wf_of_same c).
  - by apply (wf_of_same c).
Qed.

(** A codec built by [new] carries, for every (family, class, kind), exactly
    the compression and SENSITIVE policy of the generated registry, a Request's
    policy extended to its Result. *)
Theorem new_codec_policies limits codecs c :
  FrameCodec_new limits codecs = Ok c → policies_of registry c.
Proof. by intros (_ & _ & _ & ?)%FrameCodec_new_ok. Qed.

Lemma negotiate_codecs_accepts s codecs :
  is_ok (negotiate_codecs None s codecs) = true ↔ codecs = [] ∨ codecs = [LZ4_CODEC].
Proof.
  split; [|by intros [-> | ->]]. rewrite is_ok_iff. intros [s' H].
  destruct codecs as [|x [|y l]]; [by left|right|exfalso]; cbn [negotiate_codecs tag_not_after] in H;
    inv_ok; [f_equal|]; lia.
Qed.

(** [new] succeeds exactly on limits within the hard bounds and on a
    codec list that is empty or LZ4 alone. *)
Theorem new_codec_accepts limits codecs :
  is_ok (FrameCodec_new limits codecs) = true ↔
  (9 <= max_wire_frame limits <= max_decoded_frame limits ∧
   max_wire_frame limits <= transport_HARD_MAX_WIRE_FRAME ∧
   max_decoded_frame limits <= transport_HARD_MAX_DECODED_FRAME) ∧
  (codecs = [] ∨ codecs = [LZ4_CODEC]).
Proof.
  unfold FrameCodec_new. rewrite is_ok_iff. split.
  - intros [c H]. inv_ok. apply FrameLimits_validate_ok in Hv as (-> & Hl).
    split; [done|]. apply (negotiate_codecs_accepts ∅). by rewrite Hv0.
  - intros [Hl Hc]. rewrite (proj2 (FrameLimits_validate_ok limits _)) by (split; [done|apply Hl]).
    rewrite bind_is_ok. apply (negotiate_codecs_accepts ∅) in Hc. apply is_ok_iff in Hc as [s ->].
    rewrite bind_is_ok. apply registry_accepted.
Qed.

(** ** Before HELLO *)

(** Before negotiation only an uncompressed Core HELLO Request or Result of
    at most 64 KiB gets through, in either direction of the codec. *)
Theorem pre_hello_only_hello compress decompress c f bs :
  FrameCodec_pre_hello = Some c →
  FrameCodec_encode compress c f = Ok bs ∨ FrameCodec_decode decompress c bs = Ok f →
  fh_family (fr_header f) = family_CORE ∧ fh_kind (fr_header f) = core_request_HELLO ∧
  fh_class (fr_header f) ≠ Event ∧ fh_compressed (fr_header f) = false ∧ len bs <= 65536.
Proof.
  intros (Hw & Hl & Hh)%FrameCodec_pre_hello_ok Hb.
  assert (validate_schema_flags c (fr_header f) = Ok () ∧ check_wire_len c (len bs) = Ok ())
    as [Hs Hlen].
  { destruct Hb as [H|H].
    - unfold FrameCodec_encode in H. inv_ok. done.
    - unfold FrameCodec_decode in H. inv_ok. apply run_ok in H as (d & H).
      unfold FrameCodec_read in H. dec_inv. done. }
  apply validate_schema_flags_ok in Hs as (Hs & _). apply check_wire_len_ok in Hlen.
  rewrite Hl in Hlen. cbn in Hlen. unfold transport_PRE_HELLO_MAX_FRAME in Hlen.
  destruct (Hs Hh) as (? & ? & ? & ?). split_and!; [done..|lia].
Qed.

(** ** Envelopes *)

Lemma Envelope_from_Frame e : Envelope_from_frame (Frame_from_envelope e) = Some e.
Proof. by destruct e as [[]|[]|[]]. Qed.

(** Every envelope becomes a frame and comes back unchanged, and every
    frame with a valid header becomes an envelope (the unwrap of the request
    id never panics) and comes back unchanged. *)
Theorem envelope_frame_iso :
  (∀ e, Envelope_from_frame (Frame_from_envelope e) = Some e) ∧
  (∀ f, FrameHeader_validate (fr_header f) = Ok () →
    ∃ e, Envelope_from_frame f = Some e ∧ Frame_from_envelope e = f).
Proof.
  split; [apply Envelope_from_Frame|].
  intros [[fam k [] [r|] z s] p]; cbn; intros H; try discriminate H; by eexists.
Qed.

(** ** Transport datagrams *)

Section DatagramProps.
Context (compress : list byte → list byte) (decompress : list byte → Z → option (list byte)).

(** An Event that the registry declares datagram-eligible, whose payload
    decodes and is eligible in the context of the link. *)
Definition datagram_payload_ok (f : Frame) (context : DatagramContext) : Prop :=
  match context with
  | NetNativeFlow => ∃ v : Datagram, decode (fr_payload f) = Ok v
  | CtxSurfaceFrame => ∃ v, decode (fr_payload f) = Ok v ∧ SurfaceFrame_datagram_eligible v = true
  | CtxMediaFrame => ∃ v, decode (fr_payload f) = Ok v ∧ MediaFrame_datagram_eligible v = true
  end.

Definition context_predicate (context : DatagramContext) : Z :=
  match context with
  | NetNativeFlow => transport_datagram_predicate_NET_NATIVE_FLOW
  | CtxSurfaceFrame => transport_datagram_predicate_SURFACE_FRAME
  | CtxMediaFrame => transport_datagram_predicate_MEDIA_FRAME
  end.

Lemma is_ok_and_true {E A} (r : result E A) p : is_ok_and r p = true ↔ ∃ a, r = Ok a ∧ p a = true.
Proof. destruct r; cbn; naive_solver. Qed.

Lemma ok_is_true (b : bool) : (∃ a, (Ok b : result Error bool) = Ok a ∧ a = true) ↔ b = true.
Proof. split; [by intros (? & [= <-] & ?)|by exists b]. Qed.

(** The context that fits a predicate, and the others. *)
Ltac here :=
  rewrite bool_decide_eq_true_2 by done; cbn [andb]; rewrite ok_is_true, ?is_ok_iff, ?is_ok_and_true; tauto.
Ltac elsewhere := cbn; rewrite ok_is_true; naive_solver.

Lemma validate_datagram_predicate_ok f context u :
  validate_datagram_predicate f context = Ok u ↔
  ∃ op, operation (fh_family (fr_header f)) (Class_u8 (fh_class (fr_header f)))
          (fh_kind (fr_header f)) = Some op ∧
    op_datagram op = context_predicate context ∧ datagram_payload_ok f context.
Proof.
  destruct u. unfold validate_datagram_predicate. rewrite bind_ok. setoid_rewrite ok_or_ok.
  apply exist_proper. intros op. apply and_iff_compat_l.
  unfold context_predicate, datagram_payload_ok. rewrite bind_ok. setoid_rewrite reject_if_ok.
  setoid_rewrite negb_false_iff.
  destruct (Z.eqb_spec (op_datagram op) transport_datagram_predicate_NET_NATIVE_FLOW) as [->|N1].
  { destruct context; [here|elsewhere..]. }
  destruct (Z.eqb_spec (op_datagram op) transport_datagram_predicate_SURFACE_FRAME) as [->|N2].
  { destruct context; [elsewhere|here|elsewhere]. }
  destruct (Z.eqb_spec (op_datagram op) transport_datagram_predicate_MEDIA_FRAME) as [->|N3].
  { destruct context; [elsewhere..|here]. }
  destruct (_ =? _); [rewrite ok_is_true|]; destruct context; naive_solver.
Qed.

Lemma validate_datagram_header_ok h m u :
  validate_datagram_header h m = Ok u ↔
  m ≠ 0 ∧ m <= transport_HARD_MAX_DATAGRAM ∧ fh_class h = Event ∧ fh_compressed h = false ∧
  fh_family h ≠ family_CORE ∧ fh_family h ≠ family_TRANSFER.
Proof.
  unfold validate_datagram_header. rewrite reject_if_ok, !orb_false_iff, negb_false_iff,
    bool_decide_eq_true, !Z.eqb_neq, Z.ltb_ge. tauto.
Qed.

Lemma check_datagram_len_ok n m u :
  0 <= n → check_datagram_len n m = Ok u ↔
  Z.min m transport_HARD_MAX_DATAGRAM ≠ 0 ∧ n <= Z.min m transport_HARD_MAX_DATAGRAM.
Proof. intros Hn. unfold check_datagram_len. rewrite reject_if_ok. lia. Qed.

(** A datagram that decodes fits the receiver's datagram limit, is an
    uncompressed Event outside Core and Transfer, and names an operation the
    registry opens to datagrams of exactly this link context, with a payload
    that decodes and may be lost (no keyframe, codec configuration or end of
    stream). *)
Theorem decoded_datagram_eligible c input m context f :
  FrameCodec_decode_datagram decompress c input m context = Ok f →
  len input <= Z.min m transport_HARD_MAX_DATAGRAM ∧
  fh_class (fr_header f) = Event ∧ fh_compressed (fr_header f) = false ∧
  fh_family (fr_header f) ≠ family_CORE ∧ fh_family (fr_header f) ≠ family_TRANSFER ∧
  datagram_payload_ok f context ∧
  ∃ op, operation (fh_family (fr_header f)) transport_class_EVENT (fh_kind (fr_header f)) = Some op ∧
    op_datagram op = context_predicate context.
Proof.
  intros H. unfold FrameCodec_decode_datagram in H. inv_ok.
  apply check_datagram_len_ok in Hv as [_ Hlen]; [|apply len_nonneg].
  apply validate_datagram_header_ok in Hv1 as (_ & _ & Hcl & Hz & ? & ?).
  apply validate_datagram_predicate_ok in Hv2 as (op & Hop & Hpred & Hpay).
  rewrite Hcl in Hop. split_and!; eauto.
Qed.

Context (lz4_roundtrip : ∀ p, decompress (compress p) (len p) = Some p).

(** A frame sent as a datagram is received as the same frame by a receiver
    with the same codec, limit and context. *)
Theorem datagram_roundtrip c f m context bs :
  FrameCodec_wf c → FrameHeader_wf (fr_header f) →
  FrameCodec_encode_datagram compress c f m context = Ok bs →
  FrameCodec_decode_datagram decompress c bs m context = Ok f.
Proof.
  intros Hc Hw H. unfold FrameCodec_encode_datagram in H. inv_ok.
  apply FrameCodec_encode_ok in Hv1 as (-> & Hf & Ha & Hl); [|done].
  unfold FrameCodec_decode_datagram. rewrite Hv2, bind_is_ok.
  rewrite (FrameCodec_decode_bytes compress decompress lz4_roundtrip) by done.
  by rewrite bind_is_ok, Hv, bind_is_ok, Hv0.
Qed.

End DatagramProps.

(** * The framing theorems applied to concrete codecs and frames

    A stored-block compressor stands for LZ4: it satisfies the contract the
    theorems assume. *)

(** Stored blocks: a header byte, then the input. *)
Definition stored (p : list byte) : list byte := Byte.x00 :: p.
Definition unstored (z : list byte) (n : Z) : option (list byte) :=
  match z with
  | Byte.x00 :: p => if len p <=? n then Some p else None
  | _ => None
  end.

Lemma stored_roundtrip p : unstored (stored p) (len p) = Some p.
Proof. unfold unstored, stored. by rewrite Z.leb_refl. Qed.

Lemma unstored_bounded z n p : unstored z n = Some p → len p <= n.
Proof.
  destruct z as [|b z]; [discriminate|]. destruct b; try discriminate. cbn.
  destruct (Z.leb_spec (len z) n); [|discriminate]. by intros [= <-].
Qed.

Definition codec_of (r : result Error FrameCodec) : FrameCodec :=
  match r with Ok c => c | Err _ => mkCodec (mkLimits 0 0) ∅ ∅ ∅ ∅ ∅ false end.

(** The recommended limits with LZ4 negotiated. *)
Definition lz4_codec : FrameCodec := codec_of (FrameCodec_new FrameLimits_recommended [LZ4_CODEC]).

Lemma lz4_codec_new : FrameCodec_new FrameLimits_recommended [LZ4_CODEC] = Ok lz4_codec.
Proof.
  unfold lz4_codec. destruct (FrameCodec_new FrameLimits_recommended [LZ4_CODEC]) eqn:E; [done|].
  exfalso. assert (is_ok (FrameCodec_new FrameLimits_recommended [LZ4_CODEC]) = true) as H
    by (vm_compute; reflexivity).
  rewrite E in H. discriminate H.
Qed.

Lemma lz4_codec_wf : FrameCodec_wf lz4_codec.
Proof. apply (FrameCodec_new_ok _ _ _ lz4_codec_new). Qed.

(** A compressed Request. *)
Definition sample_frame : Frame :=
  mkFrame (mkHeader 7 3 Request (Some 42) true false) (bytes_of [104; 105]).
Definition sample_bytes : list byte := bytes_of [7; 0; 3; 0; 5; 42; 0; 0; 0; 1; 0; 0; 0; 2; 0; 0; 0; 0; 104; 105].

Lemma sample_encodes : FrameCodec_encode stored lz4_codec sample_frame = Ok sample_bytes.
Proof. vm_compute. reflexivity. Qed.

Lemma sample_header_wf : FrameHeader_wf (fr_header sample_frame).
Proof. unfold FrameHeader_wf; cbn. lia. Qed.

Lemma frame_roundtrip_witness :
  FrameCodec_encode stored lz4_codec sample_frame = Ok sample_bytes ∧
  FrameCodec_decode unstored lz4_codec sample_bytes = Ok sample_frame.
Proof.
  split; [exact sample_encodes|].
  exact (frame_roundtrip stored unstored stored_roundtrip lz4_codec sample_frame sample_bytes
           lz4_codec_wf sample_header_wf sample_encodes).
Defined.

Lemma sample_decodes : FrameCodec_decode unstored lz4_codec sample_bytes = Ok sample_frame.
Proof. vm_compute. reflexivity. Qed.

Lemma decoded_frame_within_contract_witness :
  len sample_bytes <= max_wire_frame (fc_limits lz4_codec) ∧ LZ4_CODEC ∈ fc_codecs lz4_codec.
Proof.
  pose proof (decoded_frame_within_contract stored unstored unstored_bounded lz4_codec sample_bytes
                sample_frame lz4_codec_wf sample_decodes) as (Hl & _ & _ & _ & _ & _ & _ & Hz).
  split; [lia|]. apply Hz. reflexivity.
Defined.

Definition sample_event : Frame := mkFrame (FrameHeader_event 7 3) (bytes_of [1; 2; 3]).
Definition sample_event_bytes : list byte := bytes_of [7; 0; 3; 0; 0; 1; 2; 3].

Lemma uncompressed_frame_canonical_witness :
  FrameCodec_encode stored lz4_codec sample_event = Ok sample_event_bytes.
Proof.
  apply (uncompressed_frame_canonical stored unstored unstored_bounded).
  - exact lz4_codec_wf.
  - vm_compute. reflexivity.
  - reflexivity.
Defined.

Lemma sample_streams :
  FrameCodec_encode_stream stored lz4_codec sample_frame = Ok (to_le 4 20 ++ sample_bytes).
Proof. vm_compute. reflexivity. Qed.

Lemma stream_roundtrip_witness :
  FrameCodec_decode_stream unstored lz4_codec ((to_le 4 20 ++ sample_bytes) ++ bytes_of [9; 9])
  = Ok (sample_frame, 24).
Proof.
  exact (stream_roundtrip stored unstored stored_roundtrip unstored_bounded lz4_codec sample_frame
           _ (bytes_of [9; 9]) lz4_codec_wf sample_header_wf sample_streams).
Defined.

Lemma stream_prefix_truncated_witness :
  FrameCodec_decode_stream unstored lz4_codec (take 23 (to_le 4 20 ++ sample_bytes)) = Err Truncated.
Proof.
  apply (stream_prefix_truncated stored unstored lz4_codec sample_frame).
  - exact lz4_codec_wf.
  - exact sample_streams.
  - apply Nat.ltb_lt. vm_compute. reflexivity.
Defined.

Lemma new_codec_policies_witness : policies_of registry lz4_codec.
Proof. exact (new_codec_policies _ _ _ lz4_codec_new). Defined.

Definition hello_codec : FrameCodec :=
  match FrameCodec_pre_hello with Some c => c | None => lz4_codec end.

Lemma hello_codec_ok : FrameCodec_pre_hello = Some hello_codec.
Proof.
  unfold hello_codec, FrameCodec_pre_hello.
  destruct (FrameCodec_new FrameLimits_pre_hello []) eqn:E; [done|].
  exfalso. assert (is_ok (FrameCodec_new FrameLimits_pre_hello []) = true) as H
    by (vm_compute; reflexivity).
  rewrite E in H. discriminate H.
Qed.

Definition hello_frame : Frame := mkFrame (FrameHeader_request 0 0 1) [].

Lemma pre_hello_only_hello_witness :
  FrameCodec_encode stored hello_codec hello_frame = Ok (bytes_of [0; 0; 0; 0; 1; 1; 0; 0; 0]) ∧
  fh_class (fr_header hello_frame) ≠ Event.
Proof.
  assert (FrameCodec_encode stored hello_codec hello_frame
          = Ok (bytes_of [0; 0; 0; 0; 1; 1; 0; 0; 0])) as E by (vm_compute; reflexivity).
  split; [exact E|].
  apply (pre_hello_only_hello stored unstored hello_codec hello_frame _ hello_codec_ok (or_introl E)).
Defined.

(** A Net datagram: flow 5, sequence 1; the registry makes it SENSITIVE. *)
Definition net_frame : Frame :=
  mkFrame (mkHeader family_NET 0 Event None false true)
    (to_le 8 5 ++ to_le 8 1 ++ bytes_of [170; 187]).
Definition net_bytes : list byte :=
  to_le 2 family_NET ++ bytes_of [0; 0; 8] ++ to_le 8 5 ++ to_le 8 1 ++ bytes_of [170; 187].

Lemma net_sends :
  FrameCodec_encode_datagram stored lz4_codec net_frame 1200 NetNativeFlow = Ok net_bytes.
Proof. vm_compute. reflexivity. Qed.

Lemma net_header_wf : FrameHeader_wf (fr_header net_frame).
Proof. done. Qed.

Lemma datagram_roundtrip_witness :
  FrameCodec_decode_datagram unstored lz4_codec net_bytes 1200 NetNativeFlow = Ok net_frame.
Proof.
  exact (datagram_roundtrip stored unstored stored_roundtrip lz4_codec net_frame 1200 NetNativeFlow
           net_bytes lz4_codec_wf net_header_wf net_sends).
Defined.

Lemma decoded_datagram_eligible_witness : datagram_payload_ok net_frame NetNativeFlow.
Proof.
  apply (decoded_datagram_eligible unstored lz4_codec net_bytes 1200).
  vm_compute. reflexivity.
Defined.
