(* ===== verification/GenHeader.v ===== *)
(** * GenHeader: the generated header codec of [crates/yas/src/generated.rs]

    [GeneratedFrameHeader] is a second, allocation-free implementation of the
    frame header, emitted by the schema generator next to the tables. *)

From S2P Require Import Prelude Schema Codec CodecFacts Wire Frame FrameFacts.

Inductive GeneratedHeaderError :=
| GenTruncated | GenInvalidClass | GenReservedMeta | GenRequestIdPresence | GenZeroRequestId.

Record GeneratedFrameHeader := mkGenHeader {
  gh_family : Z; gh_kind : Z; gh_class : Z; gh_request_id : option Z;
  gh_compressed : bool; gh_sensitive : bool
}.

Definition GeneratedFrameHeader_encoded_len (h : GeneratedFrameHeader) : Z :=
  if gh_class h =? transport_class_EVENT then transport_EVENT_HEADER_BYTES
  else transport_CORRELATED_HEADER_BYTES.

(** The nine-byte array and how much of it is the header. *)
Definition GeneratedFrameHeader_encode (h : GeneratedFrameHeader)
    : result GeneratedHeaderError (list byte * Z) :=
  let event := gh_class h =? transport_class_EVENT in
  _ ← reject_if (negb event && negb (gh_class h =? transport_class_REQUEST)
                 && negb (gh_class h =? transport_class_RESULT)) GenInvalidClass;
  _ ← reject_if (negb (eqb event (match gh_request_id h with None => true | Some _ => false end)))
        GenRequestIdPresence;
  _ ← reject_if (match gh_request_id h with Some r => r =? 0 | None => false end) GenZeroRequestId;
  let meta := Z.lor (Z.lor (gh_class h) (if gh_compressed h then transport_META_COMPRESSED else 0))
                (if gh_sensitive h then transport_META_SENSITIVE else 0) in
  let output := to_le 2 (gh_family h) ++ to_le 2 (gh_kind h) ++ [byte_of meta]
                ++ match gh_request_id h with Some r => to_le 4 r | None => zeros 4 end in
  Ok (output, GeneratedFrameHeader_encoded_len h).

(** [input[a..a+n]] as a little-endian integer; the source indexes only below
    the length it has checked. *)
Definition le_at (input : list byte) (a n : nat) : Z := from_le (take n (drop a input)).

Definition GeneratedFrameHeader_decode (input : list byte)
    : result GeneratedHeaderError (GeneratedFrameHeader * Z) :=
  _ ← reject_if (len input <? transport_EVENT_HEADER_BYTES) GenTruncated;
  let meta := le_at input 4 1 in
  _ ← reject_if (has_bits meta transport_META_RESERVED) GenReservedMeta;
  let class := Z.land meta transport_CLASS_MASK in
  let correlated := (class =? transport_class_REQUEST) || (class =? transport_class_RESULT) in
  _ ← reject_if (negb (class =? transport_class_EVENT) && negb correlated) GenInvalidClass;
  let n := if correlated then transport_CORRELATED_HEADER_BYTES else transport_EVENT_HEADER_BYTES in
  _ ← reject_if (len input <? n) GenTruncated;
  request_id ← (if correlated then
                  let value := le_at input 5 4 in
                  _ ← reject_if (value =? 0) GenZeroRequestId; Ok (Some value)
                else Ok None);
  Ok (mkGenHeader (le_at input 0 2) (le_at input 2 2) class request_id
        (has_bits meta transport_META_COMPRESSED) (has_bits meta transport_META_SENSITIVE), n).

(** The generated header of a hand-written one. *)
Definition generated (h : FrameHeader) : GeneratedFrameHeader :=
  mkGenHeader (fh_family h) (fh_kind h) (Class_u8 (fh_class h)) (fh_request_id h)
    (fh_compressed h) (fh_sensitive h).

(** The generated encoder and the hand-written one produce the same header
    bytes, and refuse the same headers. *)
Lemma generated_encode_same h :
  match GeneratedFrameHeader_encode (generated h), FrameHeader_encode_to h [] with
  | Ok (output, n), Ok bytes => take (Z.to_nat n) output = bytes ∧ n = FrameHeader_encoded_len h
  | Err _, Err _ => True
  | _, _ => False
  end.
Proof.
  destruct h as [f k [] [r|] z s]; cbn; try done.
  - destruct z, s; done.
  - destruct (Z.eqb_spec r 0); cbn; [done|]. destruct z, s; done.
  - destruct (Z.eqb_spec r 0); cbn; [done|]. destruct z, s; done.
Qed.

Lemma le_at_here n bs (rest : list byte) : length bs = n → le_at (bs ++ rest) 0 n = from_le bs.
Proof. intros <-. unfold le_at. by rewrite drop_0, take_app_length. Qed.

Lemma le_at_skip k a n (l1 l2 : list byte) :
  length l1 = k → le_at (l1 ++ l2) (k + a) n = le_at l2 a n.
Proof. intros <-. unfold le_at. by rewrite <- drop_drop, drop_app_length. Qed.

Lemma from_le_single b : from_le [b] = byte_val b.
Proof. by destruct b. Qed.

(** The fields at their offsets in a header's bytes. *)
Lemma header_fields h rest :
  FrameHeader_wf h →
  let input := FrameHeader_bytes h ++ rest in
  le_at input 0 2 = fh_family h ∧ le_at input 2 2 = fh_kind h ∧
  le_at input 4 1 = FrameHeader_meta h ∧
  (∀ r, fh_request_id h = Some r → le_at input 5 4 = r).
Proof.
  intros (Hf & Hk & Hr). cbn. unfold FrameHeader_bytes. rewrite <- !app_assoc.
  destruct (FrameHeader_meta_facts h) as (Hm & _).
  assert (length (to_le 2 (fh_family h)) = 2%nat ∧ length (to_le 2 (fh_kind h)) = 2%nat) as [E1 E2]
    by by rewrite !length_to_le.
  assert (∀ a n l, le_at (to_le 2 (fh_family h) ++ to_le 2 (fh_kind h) ++ l) (4 + a) n = le_at l a n)
    as Hskip.
  { intros a n l. etransitivity; [apply (le_at_skip 2 (2 + a)); done|]. by apply (le_at_skip 2 a). }
  split; [rewrite le_at_here, from_to_le by done; done|]. split; [|split].
  - etransitivity; [by apply (le_at_skip 2 0)|]. rewrite le_at_here, from_to_le by done. done.
  - etransitivity; [apply (Hskip 0%nat)|]. rewrite le_at_here by done.
    rewrite from_le_single. by apply byte_val_of.
  - intros r Er. rewrite Er in Hr. etransitivity; [apply (Hskip 1%nat)|].
    unfold request_id_bytes. rewrite Er. etransitivity; [by apply (le_at_skip 1 0)|].
    rewrite le_at_here by by rewrite length_to_le. by apply from_to_le.
Qed.

Lemma class_of_meta m c :
  Class_from_meta m = Ok c → Z.land m transport_CLASS_MASK = Class_u8 c.
Proof.
  unfold Class_from_meta, Class_of_u8. intros H%ok_or_ok. split_match H; injection H as <-; cbn; lia.
Qed.

Lemma generated_decode_bytes h rest :
  FrameHeader_wf h → FrameHeader_validate h = Ok () →
  GeneratedFrameHeader_decode (FrameHeader_bytes h ++ rest)
  = Ok (generated h, len (FrameHeader_bytes h)).
Proof.
  intros Hw Hv. destruct (header_fields h rest Hw) as (F1 & F2 & F3 & F4).
  destruct (FrameHeader_meta_facts h) as (_ & H1 & H2%class_of_meta & H3 & H4).
  pose proof (len_FrameHeader_bytes h Hv) as Hl. pose proof (header_len_range h).
  pose proof (len_nonneg rest). apply FrameHeader_validate_ok in Hv.
  unfold GeneratedFrameHeader_decode. rewrite F1, F2, F3, H1, H2, H3, H4, len_app, Hl.
  replace (_ <? transport_EVENT_HEADER_BYTES) with false by (unfold transport_EVENT_HEADER_BYTES; lia).
  destruct h as [f k c r z s]. unfold generated. cbn in Hv, F4.
  destruct c, r as [r|]; try (by destruct Hv); try discriminate Hv; cbn -[Z.ltb len].
  - by rewrite reject_if_false by (unfold transport_EVENT_HEADER_BYTES; lia).
  - rewrite (F4 r eq_refl), (reject_if_false (_ <? _)) by (unfold transport_CORRELATED_HEADER_BYTES; lia).
    rewrite bind_is_ok. by rewrite reject_if_false by lia.
  - rewrite (F4 r eq_refl), (reject_if_false (_ <? _)) by (unfold transport_CORRELATED_HEADER_BYTES; lia).
    rewrite bind_is_ok. by rewrite reject_if_false by lia.
Qed.

Lemma split_at (n : nat) (l : list byte) :
  (n <= length l)%nat → ∃ l1 l2, l = l1 ++ l2 ∧ length l1 = n.
Proof.
  intros H. exists (take n l), (drop n l). rewrite take_drop, length_take. split; [done|lia].
Qed.

(** Any input the generated decoder accepts starts with a valid header. *)
Lemma generated_decode_inv input g n :
  GeneratedFrameHeader_decode input = Ok (g, n) →
  ∃ h rest, input = FrameHeader_bytes h ++ rest ∧ FrameHeader_wf h ∧ FrameHeader_validate h = Ok ().
Proof.
  intros H. unfold GeneratedFrameHeader_decode in H. inv_ok.
  unfold transport_EVENT_HEADER_BYTES in Hv. unfold len in *. apply Z.ltb_ge in Hv.
  destruct (split_at 2 input) as (bf & l1 & -> & Lf); [lia|]. rewrite length_app in Hv.
  destruct (split_at 2 l1) as (bk & l2 & -> & Lk); [lia|]. rewrite length_app in Hv.
  destruct l2 as [|b l3]; [cbn in Hv; lia|].
  replace (le_at (bf ++ bk ++ b :: l3) 4 1) with (byte_val b) in *.
  2:{ symmetry. etransitivity; [by apply (le_at_skip 2 2)|].
      etransitivity; [by apply (le_at_skip 2 0)|]. etransitivity; [by apply (le_at_here 1 [b])|].
      apply from_le_single. }
  assert (∃ c, Class_from_meta (byte_val b) = Ok c) as [c Hc].
  { unfold Class_from_meta, Class_of_u8. cbn in Hv1 |- *. by repeat case_match; eauto. }
  pose proof (class_of_meta _ _ Hc) as Ec. rewrite Ec in *.
  pose proof (from_le_bound bf) as Bf. pose proof (from_le_bound bk) as Bk.
  unfold len in Bf, Bk. rewrite Lf in Bf. rewrite Lk in Bk.
  assert (∃ rid rest, l3 = match rid with Some r => to_le 4 r | None => [] end ++ rest ∧
     match rid with None => c = Event | Some r => c ≠ Event ∧ r ≠ 0 end ∧
     match rid with Some r => is_u32 r | None => True end) as (rid & rest & -> & Hrid & Wr).
  { apply Z.ltb_ge in Hv2. rewrite !length_app in Hv2. cbn [length] in Hv2.
    destruct c; cbn in Hv2, Hv3; [by exists None, l3| |];
      (destruct (split_at 4 l3) as (br & rest & -> & Lr);
        [unfold transport_CORRELATED_HEADER_BYTES in Hv2; lia|];
       pose proof (from_le_bound br) as Br; unfold len in Br; rewrite Lr in Br;
       exists (Some (from_le br)), rest; rewrite to_from_le by done; inv_ok;
       split; [done|]; split; [|done]; split; [done|]; intros E0;
       match goal with H : (le_at _ _ _ =? 0) = false |- _ => apply Z.eqb_neq in H; apply H end;
       etransitivity; [by apply (le_at_skip 2 3)|];
       etransitivity; [by apply (le_at_skip 2 1)|];
       etransitivity; [by apply (le_at_skip 1 0 4 [b])|];
       by rewrite le_at_here). }
  exists (mkHeader (from_le bf) (from_le bk) c rid (has_bits (byte_val b) transport_META_COMPRESSED)
            (has_bits (byte_val b) transport_META_SENSITIVE)), rest.
  split; [|split].
  - unfold FrameHeader_bytes. rewrite meta_spelled by done. cbn.
    rewrite !to_from_le, byte_of_val by done. by rewrite <- !app_assoc.
  - done.
  - by apply FrameHeader_validate_ok.
Qed.

(** On every input, the generated decoder and the hand-written decoder with
    its validation accept the same headers, read the same fields and consume
    the same number of bytes. *)
Lemma generated_decode_same input g n :
  len input <= ISIZE_MAX →
  GeneratedFrameHeader_decode input = Ok (g, n) ↔
  ∃ h d, FrameHeader_decode_from (Decoder_new input) = Ok (h, d) ∧
    FrameHeader_validate h = Ok () ∧ g = generated h ∧ Decoder_remaining d = len input - n.
Proof.
  intros Hl. split.
  - intros H. destruct (generated_decode_inv _ _ _ H) as (h & rest & -> & Hw & Hv).
    rewrite generated_decode_bytes in H by done. injection H as <- <-.
    destruct (reads_header h Hw Hv _ _ (dec_at_new _ Hl)) as (d & E & Hd).
    exists h, d. rewrite (dec_at_len _ _ Hd), len_app. repeat split; [done|done|lia].
  - intros (h & d & E & Hv & -> & Hn).
    destruct (spells_header _ _ _ _ (dec_at_new _ Hl) E) as (rest & -> & Hd & Hw).
    rewrite generated_decode_bytes by done. rewrite (dec_at_len _ _ Hd), len_app in Hn.
    do 2 f_equal. lia.
Qed.

(** The two frame header codecs of the repository agree. The generated
    encoder and the hand-written one produce the same header bytes and refuse
    the same headers; and on every input the generated decoder and the
    hand-written decoder with its validation accept the same headers, read the
    same fields and consume the same number of bytes. *)
Theorem generated_header_agrees input g n h0 :
  len input <= ISIZE_MAX →
  match GeneratedFrameHeader_encode (generated h0), FrameHeader_encode_to h0 [] with
  | Ok (output, n), Ok bytes => take (Z.to_nat n) output = bytes ∧ n = FrameHeader_encoded_len h0
  | Err _, Err _ => True
  | _, _ => False
  end ∧
  (GeneratedFrameHeader_decode input = Ok (g, n) ↔
   ∃ h d, FrameHeader_decode_from (Decoder_new input) = Ok (h, d) ∧
     FrameHeader_validate h = Ok () ∧ g = generated h ∧ Decoder_remaining d = len input - n).
Proof. intros Hl. split; [apply generated_encode_same|by apply generated_decode_same]. Qed.

Lemma generated_header_agrees_witness :
  let input := bytes_of [1; 0; 2; 0; 9; 7; 0; 0; 0; 255] in
  GeneratedFrameHeader_decode input = Ok (mkGenHeader 1 2 1 (Some 7) false true, 9) ∧
  ∃ h d, FrameHeader_decode_from (Decoder_new input) = Ok (h, d) ∧
    FrameHeader_validate h = Ok () ∧ mkGenHeader 1 2 1 (Some 7) false true = generated h ∧
    Decoder_remaining d = len input - 9.
Proof.
  assert (GeneratedFrameHeader_decode (bytes_of [1; 0; 2; 0; 9; 7; 0; 0; 0; 255])
          = Ok (mkGenHeader 1 2 1 (Some 7) false true, 9)) as H by (vm_compute; reflexivity).
  split; [exact H|]. refine (proj1 (proj2 (generated_header_agrees _ _ 9 (FrameHeader_event 1 2) _)) H).
  vm_compute. discriminate.
Defined.
