(* ===== verification/Transfer.v ===== *)
(** * Transfer: the bulk-transfer messages of [crates/yas/src/transfer.rs]

    Upload stages, transfer descriptors, the five Transfer events, inline-or-
    transfer deliveries, and the stateful [MessageReceiver]. *)

From S2P Require Import Prelude Schema Codec CodecFacts Wire.

Abbreviation HARD_MAX_BULK_CHUNK := transport_HARD_MAX_BULK_CHUNK.
Abbreviation MAX_UPLOAD_STAGE_LIFETIME_NS := transfer_MAX_UPLOAD_STAGE_LIFETIME_NS.

(** ** Upload stages *)

Record UploadStage := mkStage { us_staging_handle : Z; us_expires_server_ns : Z }.
Record UploadStageKey := mkStageKey { usk_content_family : Z; usk_staging_handle : Z }.

Definition UploadStage_validate (s : UploadStage) : result Error () :=
  reject_if ((us_staging_handle s =? 0) || (us_expires_server_ns s =? 0))
    (Invalid "Transfer upload-stage extension").

Definition UploadStage_validate_at (s : UploadStage) (created_server_ns : Z) : result Error () :=
  _ ← UploadStage_validate s;
  lifetime ← ok_or (checked_sub (us_expires_server_ns s) created_server_ns)
               (Invalid "Transfer upload-stage expiry");
  reject_if ((lifetime =? 0) || (MAX_UPLOAD_STAGE_LIFETIME_NS <? lifetime))
    (Invalid "Transfer upload-stage expiry").

Definition UploadStage_is_expired_at (s : UploadStage) (now_server_ns : Z) : result Error bool :=
  _ ← UploadStage_validate s;
  Ok (us_expires_server_ns s <=? now_server_ns).

Definition UploadStage_extension (s : UploadStage) : result Error Extension :=
  _ ← UploadStage_validate s;
  let value := put_u64 [] (us_staging_handle s) in
  let value := put_u64 value (us_expires_server_ns s) in
  Ok (mkExtension (as_u16 transfer_UPLOAD_STAGE_EXTENSION) true value).

(** ** Modes and directions *)

Inductive Mode := ModeByte | ModeMessage.

#[global] Instance Mode_eq_dec : EqDecision Mode.
Proof. solve_decision. Defined.

Definition Mode_u8 (m : Mode) : Z :=
  match m with
  | ModeByte => as_u8 transfer_MODE_BYTE
  | ModeMessage => as_u8 transfer_MODE_MESSAGE
  end.

Definition Mode_try_from (value : Z) : result Error Mode :=
  if value =? as_u8 transfer_MODE_BYTE then Ok ModeByte
  else if value =? as_u8 transfer_MODE_MESSAGE then Ok ModeMessage
  else Err (Invalid "transfer mode").

Record Direction := mkDirection { receiver_to_sender : bool; sender_to_receiver : bool }.

#[global] Instance Direction_eq_dec : EqDecision Direction.
Proof. solve_decision. Defined.

Definition RECEIVER_TO_SENDER : Direction := mkDirection true false.
Definition SENDER_TO_RECEIVER : Direction := mkDirection false true.
Definition BIDIRECTIONAL : Direction := mkDirection true true.

Definition Direction_bits (d : Direction) : Z :=
  Z.lor (of_bool (receiver_to_sender d) * as_u8 transfer_DIRECTION_RECEIVER_TO_SENDER)
        (of_bool (sender_to_receiver d) * as_u8 transfer_DIRECTION_SENDER_TO_RECEIVER).

Definition Direction_from_bits (bits : Z) : result Error Direction :=
  let known := as_u8 (Z.lor transfer_DIRECTION_RECEIVER_TO_SENDER
                            transfer_DIRECTION_SENDER_TO_RECEIVER) in
  _ ← reject_if (has_other_bits bits known || (bits =? 0)) (Invalid "transfer direction");
  Ok (mkDirection (has_bits bits (as_u8 transfer_DIRECTION_RECEIVER_TO_SENDER))
        (has_bits bits (as_u8 transfer_DIRECTION_SENDER_TO_RECEIVER))).

(** ** Descriptors *)

Record Descriptor := mkDescriptor {
  td_transfer_id : Z; td_mode : Mode; td_direction : Direction;
  td_receiver_send_credit : Z; td_sender_send_credit : Z;
  td_max_item_bytes : Z; td_max_chunk_bytes : Z;
  td_content_family : Z; td_content_kind : Z; td_content_version : Z;
  td_extensions : Extensions
}.

Definition Descriptor_sensitive_content (d : Descriptor) : result Error bool :=
  match find_ext (td_extensions d) (as_u16 transfer_SENSITIVE_CONTENT_EXTENSION) with
  | None => Ok false
  | Some e =>
      _ ← reject_if (negb (ext_required e) || negb (is_nil (ext_value e)))
            (Invalid "Transfer sensitive-content extension");
      Ok true
  end.

Definition Descriptor_max_open_messages (d : Descriptor) : result Error Z :=
  match find_ext (td_extensions d) (as_u16 transfer_MAX_OPEN_MESSAGES_EXTENSION) with
  | None => Ok 1
  | Some e =>
      _ ← reject_if (negb (len (ext_value e) =? 4)) (Invalid "Transfer max-open-messages extension");
      let value := from_le (ext_value e) in
      _ ← reject_if (value =? 0) (Invalid "zero Transfer max-open-messages");
      Ok value
  end.

Definition Descriptor_upload_stage (d : Descriptor) : result Error (option UploadStage) :=
  match find_ext (td_extensions d) (as_u16 transfer_UPLOAD_STAGE_EXTENSION) with
  | None => Ok None
  | Some e =>
      _ ← reject_if (negb (ext_required e) || negb (len (ext_value e) =? 16))
            (Invalid "Transfer upload-stage extension");
      let stage := mkStage (from_le (take 8 (ext_value e))) (from_le (drop 8 (ext_value e))) in
      _ ← UploadStage_validate stage;
      Ok (Some stage)
  end.

Definition Descriptor_upload_stage_key (d : Descriptor) : result Error (option UploadStageKey) :=
  stage ← Descriptor_upload_stage d;
  Ok (option_map (fun s => mkStageKey (td_content_family d) (us_staging_handle s)) stage).

Definition Descriptor_require_upload_stage (d : Descriptor) (staging_handle : Z)
    : result Error UploadStage :=
  stage ← Descriptor_upload_stage d;
  match stage with
  | Some s => if us_staging_handle s =? staging_handle then Ok s
              else Err (Invalid "Transfer upload-stage identity")
  | None => Err (Invalid "Transfer upload-stage identity")
  end.

Definition Descriptor_requires_sensitive_frame (d : Descriptor) (kind : Z) : result Error bool :=
  if (kind =? transfer_event_BYTE_DATA) || (kind =? transfer_event_MESSAGE_DATA)
     || (kind =? transfer_event_CLOSE) || (kind =? transfer_event_RESET)
  then Descriptor_sensitive_content d
  else if kind =? transfer_event_CREDIT then Ok false
  else Err (Invalid "Transfer event kind").

Definition is_some {A} (o : option A) : bool := match o with Some _ => true | None => false end.

Definition Descriptor_validate (d : Descriptor) : result Error () :=
  _ ← reject_if (td_transfer_id d =? 0) (Invalid "zero transfer ID");
  _ ← reject_if (negb (receiver_to_sender (td_direction d)) && negb (td_receiver_send_credit d =? 0))
        (Invalid "credit for disallowed transfer direction");
  _ ← reject_if (negb (sender_to_receiver (td_direction d)) && negb (td_sender_send_credit d =? 0))
        (Invalid "credit for disallowed transfer direction");
  _ ← match td_mode d with
      | ModeByte => reject_if (negb (td_max_item_bytes d =? 0)) (Invalid "BYTE max item bytes")
      | ModeMessage => reject_if (td_max_item_bytes d =? 0) (Invalid "MESSAGE max item bytes")
      end;
  _ ← reject_if ((td_max_chunk_bytes d =? 0) || (HARD_MAX_BULK_CHUNK <? td_max_chunk_bytes d))
        (Invalid "transfer max chunk bytes");
  _ ← reject_unknown_required_extensions (td_extensions d)
        [as_u16 transfer_MAX_OPEN_MESSAGES_EXTENSION; as_u16 transfer_SENSITIVE_CONTENT_EXTENSION;
         as_u16 transfer_UPLOAD_STAGE_EXTENSION]
        "unknown required Transfer descriptor extension";
  let has_message_extension :=
    existsb (fun e => ext_tag e =? as_u16 transfer_MAX_OPEN_MESSAGES_EXTENSION) (td_extensions d) in
  _ ← reject_if (bool_decide (td_mode d = ModeByte) && has_message_extension)
        (Invalid "BYTE max-open-messages extension");
  _ ← Descriptor_max_open_messages d;
  sensitive ← Descriptor_sensitive_content d;
  stage ← Descriptor_upload_stage d;
  reject_if (is_some stage
      && (negb (bool_decide (td_mode d = ModeByte))
          || negb (bool_decide (td_direction d = RECEIVER_TO_SENDER))
          || negb (td_sender_send_credit d =? 0) || negb sensitive))
    (Invalid "Transfer upload-stage descriptor").

#[export] Instance Descriptor_encode_to : Encode Descriptor := fun d out =>
  _ ← Descriptor_validate d;
  let out := put_u32 out (td_transfer_id d) in
  let out := push_u8 out (Mode_u8 (td_mode d)) in
  let out := push_u8 out (Direction_bits (td_direction d)) in
  let out := put_u16 out 0 in
  let out := put_u64 out (td_receiver_send_credit d) in
  let out := put_u64 out (td_sender_send_credit d) in
  let out := put_u64 out (td_max_item_bytes d) in
  let out := put_u32 out (td_max_chunk_bytes d) in
  let out := put_u16 out (td_content_family d) in
  let out := put_u16 out (td_content_kind d) in
  let out := put_u16 out (td_content_version d) in
  Extensions_encode_tail (td_extensions d) out.

Definition Descriptor_read : decoder Descriptor :=
  transfer_id ← dec_u32;
  mode ← dec_u8;
  mode ← lift (Mode_try_from mode);
  direction ← dec_u8;
  direction ← lift (Direction_from_bits direction);
  flags ← dec_u16;
  _ ← reject (negb (flags =? 0)) (Invalid "transfer descriptor flags");
  receiver_send_credit ← dec_u64;
  sender_send_credit ← dec_u64;
  max_item_bytes ← dec_u64;
  max_chunk_bytes ← dec_u32;
  content_family ← dec_u16;
  content_kind ← dec_u16;
  content_version ← dec_u16;
  extensions ← dec_extensions;
  _ ← dec_finish;
  mret (mkDescriptor transfer_id mode direction receiver_send_credit sender_send_credit
          max_item_bytes max_chunk_bytes content_family content_kind content_version extensions).

#[export] Instance Descriptor_decode : Decode Descriptor := fun input =>
  value ← run Descriptor_read (Decoder_new input);
  _ ← Descriptor_validate value;
  Ok value.

(** ** Deliveries *)

Inductive Delivery := Inline (bytes : list byte) | DTransfer (descriptor : Descriptor).

Record InlineOrTransfer := mkDelivery {
  it_byte_len : Z; it_content_hash : list byte; it_delivery : Delivery
}.

#[export] Instance InlineOrTransfer_encode_to : Encode InlineOrTransfer := fun v out =>
  match it_delivery v with
  | Inline bytes =>
      if len bytes =? it_byte_len v then
        let out := push_u8 out (as_u8 transfer_DELIVERY_INLINE) in
        let out := out ++ zeros 3 in
        let out := put_u64 out (it_byte_len v) in
        let out := out ++ it_content_hash v in
        out ← put_len_u32 out (len bytes);
        Ok (out ++ bytes)
      else Err (Invalid "inline delivery length")
  | DTransfer descriptor =>
      if bool_decide (td_mode descriptor = ModeByte) && (td_max_item_bytes descriptor =? 0) then
        let out := push_u8 out (as_u8 transfer_DELIVERY_TRANSFER) in
        let out := out ++ zeros 3 in
        let out := put_u64 out (it_byte_len v) in
        let out := out ++ it_content_hash v in
        encode_to descriptor out
      else Err (Invalid "non-BYTE delivery transfer")
  end.

Definition InlineOrTransfer_read : decoder InlineOrTransfer :=
  kind ← dec_u8;
  reserved ← dec_take 3;
  _ ← reject (negb (bool_decide (reserved = zeros 3))) (Invalid "delivery reserved bytes");
  byte_len ← dec_u64;
  content_hash ← dec_array_32;
  delivery ← (if kind =? as_u8 transfer_DELIVERY_INLINE then
                bytes ← dec_len_bytes_u32; mret (Inline bytes)
              else if kind =? as_u8 transfer_DELIVERY_TRANSFER then
                rest ← dec_rest; descriptor ← lift (decode rest); mret (DTransfer descriptor)
              else fail (Invalid "delivery kind"));
  _ ← dec_finish;
  mret (mkDelivery byte_len content_hash delivery).

#[export] Instance InlineOrTransfer_decode : Decode InlineOrTransfer := fun input =>
  value ← run InlineOrTransfer_read (Decoder_new input);
  _ ← encode_to value [];
  Ok value.

(** ** Events *)

Record ByteData := mkByteData { bd_transfer_id : Z; bd_offset : Z; bd_data : list byte }.

#[export] Instance ByteData_encode_to : Encode ByteData := fun v out =>
  _ ← reject_if ((bd_transfer_id v =? 0) || is_nil (bd_data v)
                 || (HARD_MAX_BULK_CHUNK <? len (bd_data v))) (Invalid "BYTE_DATA");
  let out := put_u32 out (bd_transfer_id v) in
  let out := put_u64 out (bd_offset v) in
  Ok (out ++ bd_data v).

Definition ByteData_read : decoder ByteData :=
  transfer_id ← dec_u32;
  offset ← dec_u64;
  data ← dec_rest;
  _ ← dec_finish;
  mret (mkByteData transfer_id offset data).

#[export] Instance ByteData_decode : Decode ByteData := fun input =>
  value ← run ByteData_read (Decoder_new input);
  _ ← encode_to value [];
  Ok value.

Definition MESSAGE_START : Z := as_u8 transfer_MESSAGE_START.
Definition MESSAGE_END : Z := as_u8 transfer_MESSAGE_END.

Record MessageData := mkMessageData {
  md_transfer_id : Z; md_sequence : Z; md_fragment_offset : Z;
  md_start : bool; md_end : bool; md_data : list byte
}.

Definition MessageData_flags (v : MessageData) : Z :=
  Z.lor (of_bool (md_start v) * MESSAGE_START) (of_bool (md_end v) * MESSAGE_END).

#[export] Instance MessageData_encode_to : Encode MessageData := fun v out =>
  _ ← reject_if ((md_transfer_id v =? 0) || is_nil (md_data v)
                 || (HARD_MAX_BULK_CHUNK <? len (md_data v))) (Invalid "MESSAGE_DATA");
  let out := put_u32 out (md_transfer_id v) in
  let out := put_u64 out (md_sequence v) in
  let out := put_u64 out (md_fragment_offset v) in
  let out := push_u8 out (MessageData_flags v) in
  let out := out ++ zeros 3 in
  Ok (out ++ md_data v).

Definition MessageData_read : decoder MessageData :=
  transfer_id ← dec_u32;
  sequence ← dec_u64;
  fragment_offset ← dec_u64;
  flags ← dec_u8;
  _ ← reject (has_other_bits flags (Z.lor MESSAGE_START MESSAGE_END))
        (Invalid "MESSAGE_DATA flags or reserved bytes");
  reserved ← dec_take 3;
  _ ← reject (negb (bool_decide (reserved = zeros 3)))
        (Invalid "MESSAGE_DATA flags or reserved bytes");
  data ← dec_rest;
  _ ← dec_finish;
  mret (mkMessageData transfer_id sequence fragment_offset
          (has_bits flags MESSAGE_START) (has_bits flags MESSAGE_END) data).

#[export] Instance MessageData_decode : Decode MessageData := fun input =>
  value ← run MessageData_read (Decoder_new input);
  _ ← encode_to value [];
  Ok value.

Record Credit := mkCredit { cr_transfer_id : Z; cr_cumulative_limit : Z }.

#[export] Instance Credit_encode_to : Encode Credit := fun v out =>
  _ ← reject_if (cr_transfer_id v =? 0) (Invalid "zero transfer ID");
  let out := put_u32 out (cr_transfer_id v) in
  Ok (put_u64 out (cr_cumulative_limit v)).

Definition Credit_read : decoder Credit :=
  transfer_id ← dec_u32;
  cumulative_limit ← dec_u64;
  _ ← dec_finish;
  mret (mkCredit transfer_id cumulative_limit).

#[export] Instance Credit_decode : Decode Credit := fun input =>
  value ← run Credit_read (Decoder_new input);
  _ ← reject_if (cr_transfer_id value =? 0) (Invalid "zero transfer ID");
  Ok value.

Record Close := mkClose {
  cl_transfer_id : Z; cl_final_data_bytes : Z; cl_status : Z; cl_detail : list byte
}.

#[export] Instance Close_encode_to : Encode Close := fun v out =>
  _ ← reject_if (cl_transfer_id v =? 0) (Invalid "zero transfer ID");
  let out := put_u32 out (cl_transfer_id v) in
  let out := put_u64 out (cl_final_data_bytes v) in
  let out := put_u16 out (cl_status v) in
  let out := put_u16 out 0 in
  out ← put_len_u32 out (len (cl_detail v));
  Ok (out ++ cl_detail v).

Definition Close_read : decoder Close :=
  transfer_id ← dec_u32;
  final_data_bytes ← dec_u64;
  status ← dec_u16;
  reserved ← dec_u16;
  _ ← reject (negb (reserved =? 0)) (Invalid "CLOSE reserved field");
  detail ← dec_len_bytes_u32;
  _ ← dec_finish;
  mret (mkClose transfer_id final_data_bytes status detail).

#[export] Instance Close_decode : Decode Close := fun input =>
  value ← run Close_read (Decoder_new input);
  _ ← reject_if (cl_transfer_id value =? 0) (Invalid "zero transfer ID");
  Ok value.

Record Reset := mkReset { rst_transfer_id : Z; rst_status : Z; rst_detail : list byte }.

#[export] Instance Reset_encode_to : Encode Reset := fun v out =>
  _ ← reject_if (rst_transfer_id v =? 0) (Invalid "zero transfer ID");
  let out := put_u32 out (rst_transfer_id v) in
  let out := put_u16 out (rst_status v) in
  let out := put_u16 out 0 in
  out ← put_len_u32 out (len (rst_detail v));
  Ok (out ++ rst_detail v).

Definition Reset_read : decoder Reset :=
  transfer_id ← dec_u32;
  status ← dec_u16;
  reserved ← dec_u16;
  _ ← reject (negb (reserved =? 0)) (Invalid "RESET reserved field");
  detail ← dec_len_bytes_u32;
  _ ← dec_finish;
  mret (mkReset transfer_id status detail).

#[export] Instance Reset_decode : Decode Reset := fun input =>
  value ← run Reset_read (Decoder_new input);
  _ ← reject_if (rst_transfer_id value =? 0) (Invalid "zero transfer ID");
  Ok value.

Definition Reset_disposed_upload_stage (r : Reset) (d : Descriptor)
    : result Error (option UploadStage) :=
  _ ← reject_if (negb (rst_transfer_id r =? td_transfer_id d))
        (Invalid "Transfer RESET descriptor mismatch");
  _ ← Descriptor_validate d;
  Descriptor_upload_stage d.

Definition Reset_disposed_upload_stage_key (r : Reset) (d : Descriptor)
    : result Error (option UploadStageKey) :=
  _ ← reject_if (negb (rst_transfer_id r =? td_transfer_id d))
        (Invalid "Transfer RESET descriptor mismatch");
  _ ← Descriptor_validate d;
  Descriptor_upload_stage_key d.

Definition Reset_disposed_upload_stage_from (r : Reset) (staging_handle : Z)
    (descriptors : list Descriptor) : result Error (option UploadStage) :=
  match find_first (fun d => td_transfer_id d =? rst_transfer_id r) descriptors with
  | None => Ok None
  | Some d =>
      stage ← Reset_disposed_upload_stage r d;
      stage ← ok_or stage (Invalid "Transfer RESET missing upload stage");
      _ ← reject_if (negb (us_staging_handle stage =? staging_handle))
            (Invalid "Transfer RESET upload-stage identity");
      Ok (Some stage)
  end.

(** ** The MESSAGE receiver *)

Record MessageReceiver := mkReceiver {
  mr_max_item_bytes : Z; mr_max_open_messages : Z;
  (** sequence to the next expected offset *)
  mr_open : gmap Z Z
}.

Definition MessageReceiver_new (d : Descriptor) : result Error MessageReceiver :=
  _ ← Descriptor_validate d;
  _ ← reject_if (negb (bool_decide (td_mode d = ModeMessage)))
        (Invalid "MESSAGE receiver for BYTE transfer");
  max_open_messages ← Descriptor_max_open_messages d;
  Ok (mkReceiver (td_max_item_bytes d) max_open_messages ∅).

Definition set_open (r : MessageReceiver) (open : gmap Z Z) : MessageReceiver :=
  mkReceiver (mr_max_item_bytes r) (mr_max_open_messages r) open.

Definition open_messages (r : MessageReceiver) : Z := Z.of_nat (size (mr_open r)).

Definition item_limit (actual maximum : Z) : Error :=
  LimitExceeded "Transfer message item" actual maximum.

(** The result of [accept] and the receiver it leaves behind: a continuation
    that goes over the item limit has already advanced [*next]. *)
Definition accept (r : MessageReceiver) (f : MessageData) : result Error bool * MessageReceiver :=
  if is_nil (md_data f) then (Err (Invalid "empty MESSAGE_DATA fragment"), r)
  else
    let data_len := len (md_data f) in
    if md_start f then
      if negb (md_fragment_offset f =? 0) || is_some (mr_open r !! md_sequence f) then
        (Err (Invalid "MESSAGE START"), r)
      else if mr_max_open_messages r <=? open_messages r then
        (Err (Invalid "too many open messages"), r)
      else if mr_max_item_bytes r <? data_len then
        (Err (item_limit data_len (mr_max_item_bytes r)), r)
      else if md_end f then (Ok true, r)
      else (Ok false, set_open r (<[md_sequence f := data_len]> (mr_open r)))
    else
      match mr_open r !! md_sequence f with
      | None => (Err (Invalid "MESSAGE fragment without START"), r)
      | Some next =>
          if negb (md_fragment_offset f =? next) then
            (Err (Invalid "MESSAGE fragment offset"), r)
          else
            match checked_add_u64 next data_len with
            | None => (Err LengthOverflow, r)
            | Some next =>
                let r := set_open r (<[md_sequence f := next]> (mr_open r)) in
                if mr_max_item_bytes r <? next then (Err (item_limit next (mr_max_item_bytes r)), r)
                else if md_end f then (Ok true, set_open r (delete (md_sequence f) (mr_open r)))
                else (Ok false, r)
            end
      end.
