(* ===== verification/TransferFacts.v ===== *)
(** * TransferFacts: Transfer messages obey the wire laws *)

From S2P Require Import Prelude Schema Codec CodecFacts Wire Transfer.

(** ** Descriptors *)

(** Field widths, and a direction: [Direction::default()] allows neither way
    and has no encoding. *)
Definition Descriptor_wf (d : Descriptor) : Prop :=
  is_u32 (td_transfer_id d) ∧ is_u64 (td_receiver_send_credit d) ∧
  is_u64 (td_sender_send_credit d) ∧ is_u64 (td_max_item_bytes d) ∧
  is_u32 (td_max_chunk_bytes d) ∧ is_u16 (td_content_family d) ∧ is_u16 (td_content_kind d) ∧
  is_u16 (td_content_version d) ∧ exts_wf (td_extensions d) ∧
  td_direction d ≠ mkDirection false false.

Definition Descriptor_bytes (d : Descriptor) : list byte :=
  to_le 4 (td_transfer_id d) ++ [byte_of (Mode_u8 (td_mode d))] ++
  [byte_of (Direction_bits (td_direction d))] ++ to_le 2 0 ++
  to_le 8 (td_receiver_send_credit d) ++ to_le 8 (td_sender_send_credit d) ++
  to_le 8 (td_max_item_bytes d) ++ to_le 4 (td_max_chunk_bytes d) ++
  to_le 2 (td_content_family d) ++ to_le 2 (td_content_kind d) ++
  to_le 2 (td_content_version d) ++ tail_bytes (td_extensions d).

Definition Descriptor_fits (d : Descriptor) : Prop :=
  Descriptor_validate d = Ok () ∧ len (entries_bytes (td_extensions d)) <= U32_MAX.

Lemma Descriptor_validate_exts d :
  Descriptor_validate d = Ok () → Extensions_validate (td_extensions d) = Ok ().
Proof.
  intros H. unfold Descriptor_validate in H. inv_ok.
  match goal with H : reject_unknown_required_extensions _ _ _ = Ok _ |- _ =>
    unfold reject_unknown_required_extensions in H; inv_ok end. done.
Qed.

Lemma Descriptor_encode_ok d out o :
  encode_to d out = Ok o ↔ o = out ++ Descriptor_bytes d ∧ Descriptor_fits d.
Proof.
  unfold encode_to, Descriptor_encode_to, Descriptor_bytes, Descriptor_fits. rewrite bind_ok. split.
  - intros ([] & Hv & H). apply Extensions_encode_tail_ok in H as (-> & _ & Hl).
    split; [bytes_eq|done].
  - intros (-> & Hv & Hl). exists (). split; [done|]. apply Extensions_encode_tail_ok.
    split; [bytes_eq|]. split; [by apply Descriptor_validate_exts|done].
Qed.

Lemma Mode_roundtrip m : Mode_try_from (Mode_u8 m) = Ok m.
Proof. by destruct m. Qed.

Lemma Mode_try_from_ok z m : Mode_try_from z = Ok m → z = Mode_u8 m.
Proof. unfold Mode_try_from. intros H. split_match H; injection H as <-; cbn; lia. Qed.

Lemma Direction_roundtrip d :
  d ≠ mkDirection false false → Direction_from_bits (Direction_bits d) = Ok d.
Proof. by destruct d as [[] []]. Qed.

Lemma Direction_from_bits_ok z d :
  is_u8 z → Direction_from_bits z = Ok d → z = Direction_bits d ∧ d ≠ mkDirection false false.
Proof.
  intros Hz H. unfold Direction_from_bits in H. inv_ok. apply orb_false_iff in Hv as [Ho Hz0].
  apply (has_other_bits_ones z 2) in Ho; [|lia|lia]. change (2 ^ 2) with 4 in Ho.
  assert (z = 1 ∨ z = 2 ∨ z = 3) as [-> | [-> | ->]] by lia; done.
Qed.

#[export] Instance Descriptor_WireLaws : WireLaws Descriptor Descriptor_wf.
Proof.
  apply wire_laws_reader with (fits := Descriptor_fits) (check := Descriptor_validate)
    (bytes := Descriptor_bytes) (read := Descriptor_read).
  - apply Descriptor_encode_ok.
  - done.
  - intros d Hw [Hv Hl]. split; [done|]. pose proof (Descriptor_validate_exts d Hv) as He.
    unfold Descriptor_wf in Hw. destruct_and! Hw. assert (exts_ok (td_extensions d)) by done.
    unfold Descriptor_read, Descriptor_bytes.
    reads_step idtac. reads_step ltac:(apply reads_u8; by destruct (td_mode d)).
    reads_step ltac:(apply Mode_roundtrip).
    reads_step ltac:(apply reads_u8; by destruct (td_direction d) as [[] []]).
    reads_step ltac:(by apply Direction_roundtrip).
    reads_step ltac:(by apply reads_u16). reads_step ltac:(done). read_layout. destruct d. read_layout.
  - intros bs d d' Hd H Hv. unfold Descriptor_read in H. dec_inv.
    repeat match goal with
    | H : Mode_try_from _ = Ok _ |- _ => apply Mode_try_from_ok in H; subst
    | H : Direction_from_bits _ = Ok _ |- _ => apply Direction_from_bits_ok in H as [-> ?]; [|done]
    | H : negb (_ =? 0) = false |- _ => apply negb_false_iff, Z.eqb_eq in H; subst
    | H : exts_ok _ |- _ => destruct H as (? & ? & ?)
    end.
    unfold Descriptor_bytes, Descriptor_wf, Descriptor_fits; cbn. rewrite app_nil_r. done.
Qed.

(** A descriptor that allows neither direction is not read back, by any reader. *)
Lemma directionless_refused (d : Descriptor) bs (d' : Descriptor) :
  td_direction d = mkDirection false false → encode d = Ok bs → len bs <= ISIZE_MAX → decode bs ≠ Ok d'.
Proof.
  intros Hd He Hl Hr. destruct (wire_canonical d' bs Hl Hr) as [Hw He'].
  apply Descriptor_encode_ok in He as [-> _], He' as [E _]. unfold Descriptor_bytes in E. cbn [app] in E.
  apply app_inj_1 in E as [_ E]; [|by rewrite !length_to_le]. injection E as _ E _. rewrite Hd in E.
  unfold Descriptor_wf in Hw. destruct_and! Hw. by destruct (td_direction d') as [[] []].
Qed.

(** ** Events *)

Definition ByteData_wf (v : ByteData) : Prop := is_u32 (bd_transfer_id v) ∧ is_u64 (bd_offset v).
Definition ByteData_bytes (v : ByteData) : list byte :=
  to_le 4 (bd_transfer_id v) ++ to_le 8 (bd_offset v) ++ bd_data v.

Lemma ByteData_encode_ok v out o :
  encode_to v out = Ok o ↔ o = out ++ ByteData_bytes v ∧ encodable v.
Proof. unfold ByteData_bytes, encodable, encode, encode_to, ByteData_encode_to. enc_checked. Qed.

#[export] Instance ByteData_WireLaws : WireLaws ByteData ByteData_wf.
Proof.
  apply wire_laws_checked with (bytes := ByteData_bytes) (read := ByteData_read).
  - apply ByteData_encode_ok.
  - intros bs v. apply recheck_ok.
  - intros v [? ?] _. unfold ByteData_read, ByteData_bytes. read_layout. destruct v. read_layout.
  - intros bs v d' Hd H. unfold ByteData_read in H. dec_inv. by split.
Qed.

Definition MessageData_wf (v : MessageData) : Prop :=
  is_u32 (md_transfer_id v) ∧ is_u64 (md_sequence v) ∧ is_u64 (md_fragment_offset v).
Definition MessageData_bytes (v : MessageData) : list byte :=
  to_le 4 (md_transfer_id v) ++ to_le 8 (md_sequence v) ++ to_le 8 (md_fragment_offset v) ++
  [byte_of (MessageData_flags v)] ++ zeros 3 ++ md_data v.

Lemma MessageData_encode_ok v out o :
  encode_to v out = Ok o ↔ o = out ++ MessageData_bytes v ∧ encodable v.
Proof. unfold MessageData_bytes, encodable, encode, encode_to, MessageData_encode_to. enc_checked. Qed.

Lemma MessageData_flags_facts v :
  let f := MessageData_flags v in
  is_u8 f ∧ has_other_bits f (Z.lor MESSAGE_START MESSAGE_END) = false ∧
  has_bits f MESSAGE_START = md_start v ∧ has_bits f MESSAGE_END = md_end v.
Proof. by destruct v as [? ? ? [] [] ?]. Qed.

Lemma MessageData_flags_spelled f id s o d :
  is_u8 f → has_other_bits f (Z.lor MESSAGE_START MESSAGE_END) = false →
  MessageData_flags (mkMessageData id s o (has_bits f MESSAGE_START) (has_bits f MESSAGE_END) d) = f.
Proof.
  intros Hf H. apply (has_other_bits_ones f 2) in H; [|lia|lia]. change (2 ^ 2) with 4 in H.
  assert (f = 0 ∨ f = 1 ∨ f = 2 ∨ f = 3) as [-> | [-> | [-> | ->]]] by lia; done.
Qed.

(** Three reserved zero bytes. *)
Lemma reads_zeros : reads (dec_take 3) (zeros 3) (zeros 3).
Proof. by apply reads_take. Qed.

Lemma reserved_zeros (bs : list byte) : negb (bool_decide (bs = zeros 3)) = false ↔ bs = zeros 3.
Proof. by rewrite negb_false_iff, bool_decide_eq_true. Qed.

#[export] Instance MessageData_WireLaws : WireLaws MessageData MessageData_wf.
Proof.
  apply wire_laws_checked with (bytes := MessageData_bytes) (read := MessageData_read).
  - apply MessageData_encode_ok.
  - intros bs v. apply recheck_ok.
  - intros v (? & ? & ?) _. destruct (MessageData_flags_facts v) as (Hf & Ho & Hs & He).
    unfold MessageData_read, MessageData_bytes. do 4 reads_step idtac. reads_step ltac:(exact Ho).
    reads_step ltac:(apply reads_zeros). reads_step ltac:(by apply reserved_zeros).
    rewrite Hs, He. read_layout. destruct v. read_layout.
  - intros bs v d' Hd H. unfold MessageData_read in H. dec_inv.
    match goal with H : negb _ = false |- _ => apply reserved_zeros in H as -> end.
    unfold MessageData_bytes. rewrite MessageData_flags_spelled by done. by split.
Qed.

Definition Credit_wf (v : Credit) : Prop := is_u32 (cr_transfer_id v) ∧ is_u64 (cr_cumulative_limit v).
Definition Credit_bytes (v : Credit) : list byte :=
  to_le 4 (cr_transfer_id v) ++ to_le 8 (cr_cumulative_limit v).

#[export] Instance Credit_WireLaws : WireLaws Credit Credit_wf.
Proof.
  apply wire_laws_reader with (fits := λ v, (cr_transfer_id v =? 0) = false)
    (check := λ v, reject_if (cr_transfer_id v =? 0) (Invalid "zero transfer ID"))
    (bytes := Credit_bytes) (read := Credit_read).
  - intros v out o. unfold encode_to, Credit_encode_to, Credit_bytes. split.
    + intros H. enc_inv. split; [bytes_eq|done].
    + intros [-> H]. enc_run.
  - done.
  - intros v [? ?] Hz. split; [by apply reject_if_ok|].
    unfold Credit_read, Credit_bytes. read_layout. destruct v. read_layout.
  - intros bs v d' Hd H Hc. apply reject_if_ok in Hc. unfold Credit_read in H. dec_inv.
    unfold Credit_bytes; cbn. by rewrite app_nil_r.
Qed.

Definition Close_wf (v : Close) : Prop :=
  is_u32 (cl_transfer_id v) ∧ is_u64 (cl_final_data_bytes v) ∧ is_u16 (cl_status v).
Definition Close_bytes (v : Close) : list byte :=
  to_le 4 (cl_transfer_id v) ++ to_le 8 (cl_final_data_bytes v) ++ to_le 2 (cl_status v) ++
  to_le 2 0 ++ lp32 (cl_detail v).

#[export] Instance Close_WireLaws : WireLaws Close Close_wf.
Proof.
  apply wire_laws_reader with
    (fits := λ v, (cl_transfer_id v =? 0) = false ∧ len (cl_detail v) <= U32_MAX)
    (check := λ v, reject_if (cl_transfer_id v =? 0) (Invalid "zero transfer ID"))
    (bytes := Close_bytes) (read := Close_read).
  - intros v out o. unfold encode_to, Close_encode_to, Close_bytes. split.
    + intros H. enc_inv. split; [bytes_eq|done].
    + intros [-> [H Hl]]. enc_run.
  - done.
  - intros v (? & ? & ?) [Hz Hl]. split; [by apply reject_if_ok|].
    unfold Close_read, Close_bytes. do 3 reads_step idtac. reads_step ltac:(by apply reads_u16).
    reads_step ltac:(done). read_layout. destruct v. read_layout.
  - intros bs v d' Hd H Hc. apply reject_if_ok in Hc. unfold Close_read in H. dec_inv.
    match goal with H : negb (_ =? 0) = false |- _ => apply negb_false_iff, Z.eqb_eq in H as -> end.
    unfold Close_bytes; cbn. by rewrite app_nil_r.
Qed.

Definition Reset_wf (v : Reset) : Prop := is_u32 (rst_transfer_id v) ∧ is_u16 (rst_status v).
Definition Reset_bytes (v : Reset) : list byte :=
  to_le 4 (rst_transfer_id v) ++ to_le 2 (rst_status v) ++ to_le 2 0 ++ lp32 (rst_detail v).

#[export] Instance Reset_WireLaws : WireLaws Reset Reset_wf.
Proof.
  apply wire_laws_reader with
    (fits := λ v, (rst_transfer_id v =? 0) = false ∧ len (rst_detail v) <= U32_MAX)
    (check := λ v, reject_if (rst_transfer_id v =? 0) (Invalid "zero transfer ID"))
    (bytes := Reset_bytes) (read := Reset_read).
  - intros v out o. unfold encode_to, Reset_encode_to, Reset_bytes. split.
    + intros H. enc_inv. split; [bytes_eq|done].
    + intros [-> [H Hl]]. enc_run.
  - done.
  - intros v (? & ?) [Hz Hl]. split; [by apply reject_if_ok|].
    unfold Reset_read, Reset_bytes. do 2 reads_step idtac. reads_step ltac:(by apply reads_u16).
    reads_step ltac:(done). read_layout. destruct v. read_layout.
  - intros bs v d' Hd H Hc. apply reject_if_ok in Hc. unfold Reset_read in H. dec_inv.
    match goal with H : negb (_ =? 0) = false |- _ => apply negb_false_iff, Z.eqb_eq in H as -> end.
    unfold Reset_bytes; cbn. by rewrite app_nil_r.
Qed.

(** ** Deliveries *)

Definition InlineOrTransfer_wf (v : InlineOrTransfer) : Prop :=
  is_u64 (it_byte_len v) ∧ length (it_content_hash v) = 32%nat ∧
  match it_delivery v with Inline _ => True | DTransfer d => Descriptor_wf d end.

Definition InlineOrTransfer_bytes (v : InlineOrTransfer) : list byte :=
  match it_delivery v with
  | Inline bytes =>
      [byte_of (as_u8 transfer_DELIVERY_INLINE)] ++ zeros 3 ++ to_le 8 (it_byte_len v) ++
      it_content_hash v ++ lp32 bytes
  | DTransfer d =>
      [byte_of (as_u8 transfer_DELIVERY_TRANSFER)] ++ zeros 3 ++ to_le 8 (it_byte_len v) ++
      it_content_hash v ++ Descriptor_bytes d
  end.

Definition InlineOrTransfer_fits (v : InlineOrTransfer) : Prop :=
  match it_delivery v with
  | Inline bytes => len bytes = it_byte_len v ∧ len bytes <= U32_MAX
  | DTransfer d => td_mode d = ModeByte ∧ td_max_item_bytes d = 0 ∧ Descriptor_fits d
  end.

Lemma InlineOrTransfer_encode_ok v out o :
  encode_to v out = Ok o ↔ o = out ++ InlineOrTransfer_bytes v ∧ InlineOrTransfer_fits v.
Proof.
  unfold encode_to, InlineOrTransfer_encode_to, InlineOrTransfer_bytes, InlineOrTransfer_fits.
  destruct (it_delivery v) as [bytes|d].
  - destruct (Z.eqb_spec (len bytes) (it_byte_len v)); [|naive_solver]. split.
    + intros H. enc_inv. split; [bytes_eq|done].
    + intros (-> & _ & Hl). enc_run.
  - destruct (bool_decide (td_mode d = ModeByte)) eqn:Em.
    2:{ apply bool_decide_eq_false in Em. naive_solver. }
    apply bool_decide_eq_true in Em. cbn [andb].
    destruct (Z.eqb_spec (td_max_item_bytes d) 0); [|naive_solver].
    rewrite Descriptor_encode_ok. unfold push_u8, put_u64. rewrite <- !app_assoc. naive_solver.
Qed.

#[export] Instance InlineOrTransfer_WireLaws : WireLaws InlineOrTransfer InlineOrTransfer_wf.
Proof.
  apply wire_laws_checked with (bytes := InlineOrTransfer_bytes) (read := InlineOrTransfer_read).
  - intros v out o. rewrite (encodable_iff _ _ v (InlineOrTransfer_encode_ok v)).
    apply InlineOrTransfer_encode_ok.
  - intros bs v. apply recheck_ok.
  - intros v (Hb & Hh & Hw) Hf%(encodable_iff _ _ v (InlineOrTransfer_encode_ok v)).
    unfold InlineOrTransfer_read, InlineOrTransfer_bytes, InlineOrTransfer_fits in *.
    destruct v as [n h [bytes|d]]; cbn [it_delivery it_byte_len it_content_hash] in *.
    + destruct Hf as [_ Hl]. reads_step ltac:(by apply reads_u8).
      reads_step ltac:(apply reads_zeros). reads_step ltac:(by apply reserved_zeros).
      do 2 reads_step idtac. cbn [Z.eqb as_u8]. eapply reads_end_bind_last; [|read_layout].
      rewrite <- (app_nil_r (lp32 bytes)).
      eapply reads_bind; [by apply reads_len_bytes_u32|apply reads_mret].
    + destruct Hf as (_ & _ & Hf). reads_step ltac:(by apply reads_u8).
      reads_step ltac:(apply reads_zeros). reads_step ltac:(by apply reserved_zeros).
      do 2 reads_step idtac. cbn. eapply reads_end_bind_all; [|read_layout].
      apply reads_end_nested; [done|]. by apply Descriptor_encode_ok.
  - intros bs v d' Hd H. unfold InlineOrTransfer_read in H.
    apply decoder_bind_ok in H as (kind & d1 & Hk & H). dec_inv.
    match goal with H : negb _ = false |- _ => apply reserved_zeros in H as -> end.
    unfold InlineOrTransfer_bytes, InlineOrTransfer_wf; cbn.
    assert (∀ l : list byte, len l = 32 → length l = 32%nat) as H32 by (unfold len; lia).
    match goal with H : (if _ then _ else _) _ = Ok _ |- _ => revert H end.
    destruct (Z.eqb_spec kind (as_u8 transfer_DELIVERY_INLINE)) as [->|]; [intros Hdel|].
    { dec_inv. rewrite app_nil_r. split_and!; first [lia|auto]. }
    destruct (Z.eqb_spec kind (as_u8 transfer_DELIVERY_TRANSFER)) as [->|]; intros Hdel.
    + destruct (nested_ok _ _ _ _ _ Hd Hdel) as (v & -> & Hwv & [-> _]%Descriptor_encode_ok & _).
      split_and!; first [lia|auto].
    + done.
Qed.
