(* ===== verification/Reassembly.v ===== *)
(** * Reassembly: [MessageReceiver] implements message reassembly

    The receiver of [transfer.rs] keeps one number per open message. The
    specification keeps the bytes received so far, and says what is delivered;
    the receiver simulates it, so what its caller appends between a START and
    the END it reports is the message that was sent. *)

From S2P Require Import Prelude Schema Codec CodecFacts Wire Transfer TransferFacts.

(** ** Specification *)

(** The bytes of every open message. *)
Abbreviation Partial := (gmap Z (list byte)).

(** One fragment, with the message it completes. *)
Definition reassemble (max_item max_open : Z) (s : Partial) (f : MessageData)
    : option (Partial * option (list byte)) :=
  if is_nil (md_data f) then None else
  if md_start f then
    if (md_fragment_offset f =? 0) && negb (is_some (s !! md_sequence f))
       && (Z.of_nat (size s) <? max_open) && (len (md_data f) <=? max_item) then
      if md_end f then Some (s, Some (md_data f))
      else Some (<[md_sequence f := md_data f]> s, None)
    else None
  else
    acc ← s !! md_sequence f;
    if (md_fragment_offset f =? len acc) && (len (acc ++ md_data f) <=? max_item) then
      if md_end f then Some (delete (md_sequence f) s, Some (acc ++ md_data f))
      else Some (<[md_sequence f := acc ++ md_data f]> s, None)
    else None.

(** The receiver's offsets are the lengths of the partial messages. *)
Definition represents (r : MessageReceiver) (s : Partial) : Prop := mr_open r = len <$> s.

Definition same_limits (r r' : MessageReceiver) : Prop :=
  mr_max_item_bytes r' = mr_max_item_bytes r ∧ mr_max_open_messages r' = mr_max_open_messages r.

Lemma represents_lookup r s k : represents r s → mr_open r !! k = len <$> s !! k.
Proof. intros ->. apply lookup_fmap. Qed.

Lemma represents_size r s : represents r s → size (mr_open r) = size s.
Proof. intros ->. apply map_size_fmap. Qed.

Lemma represents_insert r s k acc :
  represents r s → represents (set_open r (<[k := len acc]> (mr_open r))) (<[k := acc]> s).
Proof. unfold represents. cbn. intros ->. by rewrite fmap_insert. Qed.

Lemma accept_start r s f :
  represents r s → is_nil (md_data f) = false → md_start f = true →
  match reassemble (mr_max_item_bytes r) (mr_max_open_messages r) s f with
  | Some (s', out) => ∃ r', accept r f = (Ok (is_some out), r') ∧ represents r' s' ∧ same_limits r r'
  | None => ∃ e, accept r f = (Err e, r)
  end.
Proof.
  intros HR Hn Hs. unfold reassemble, accept. rewrite Hn, Hs.
  rewrite (represents_lookup _ _ _ HR). unfold open_messages. rewrite (represents_size _ _ HR).
  destruct (md_fragment_offset f =? 0); cbn; [|by eexists].
  destruct (s !! md_sequence f) as [acc|]; cbn; [by eexists|].
  rewrite (Z.leb_antisym _ (mr_max_open_messages r)).
  destruct (_ <? mr_max_open_messages r); cbn; [|by eexists].
  rewrite (Z.leb_antisym _ (len _)). destruct (mr_max_item_bytes r <? len (md_data f)); cbn; [by eexists|].
  destruct (md_end f).
  - by eexists.
  - eexists. split; [done|]. split; [by apply represents_insert|done].
Qed.

Lemma accept_continue r s f :
  represents r s → mr_max_item_bytes r <= U64_MAX → is_nil (md_data f) = false → md_start f = false →
  match reassemble (mr_max_item_bytes r) (mr_max_open_messages r) s f with
  | Some (s', out) => ∃ r', accept r f = (Ok (is_some out), r') ∧ represents r' s' ∧ same_limits r r'
  | None => ∃ e r', accept r f = (Err e, r')
  end.
Proof.
  intros HR Hm Hn Hs. unfold reassemble, accept. rewrite Hn, Hs.
  rewrite (represents_lookup _ _ _ HR).
  destruct (s !! md_sequence f) as [acc|] eqn:Ea; cbn; [|by do 2 eexists].
  destruct (md_fragment_offset f =? len acc); cbn; [|by do 2 eexists].
  rewrite len_app. unfold checked_add_u64.
  destruct (Z.leb_spec (len acc + len (md_data f)) U64_MAX) as [Hu|Hu].
  2:{ replace (_ <=? mr_max_item_bytes r) with false by lia. by do 2 eexists. }
  rewrite Z.leb_antisym. cbn.
  destruct (mr_max_item_bytes r <? _); cbn; [by do 2 eexists|].
  destruct (md_end f).
  - eexists. split; [done|]. split; [|done]. unfold represents; cbn.
    rewrite delete_insert_eq. unfold represents in HR. rewrite HR. by rewrite fmap_delete.
  - eexists. split; [done|]. split; [|done]. rewrite <- len_app. by apply represents_insert.
Qed.

Lemma accept_refines r s f :
  represents r s → mr_max_item_bytes r <= U64_MAX →
  match reassemble (mr_max_item_bytes r) (mr_max_open_messages r) s f with
  | Some (s', out) => ∃ r', accept r f = (Ok (is_some out), r') ∧ represents r' s' ∧ same_limits r r'
  | None => ∃ e r', accept r f = (Err e, r')
  end.
Proof.
  intros HR Hm. destruct (is_nil (md_data f)) eqn:En.
  { unfold reassemble, accept. rewrite En. by do 2 eexists. }
  destruct (md_start f) eqn:Es; [|by apply accept_continue].
  pose proof (accept_start r s f HR En Es) as H.
  destruct (reassemble _ _ s f) as [[s' out]|]; [done|]. destruct H as [e H]. by exists e, r.
Qed.

(** ** Whole messages *)

(** A run of fragments, with the message each one completes, if any. *)
Fixpoint reassemble_all (max_item max_open : Z) (s : Partial) (fs : list MessageData)
    : option (Partial * list (option (list byte))) :=
  match fs with
  | [] => Some (s, [])
  | f :: fs' =>
      '(s1, out) ← reassemble max_item max_open s f;
      '(s2, outs) ← reassemble_all max_item max_open s1 fs';
      Some (s2, out :: outs)
  end.

(** The receiver over a run of fragments, stopping at the first error. *)
Fixpoint accept_all (r : MessageReceiver) (fs : list MessageData)
    : result Error (list bool) * MessageReceiver :=
  match fs with
  | [] => (Ok [], r)
  | f :: fs' =>
      match accept r f with
      | (Ok b, r1) =>
          match accept_all r1 fs' with
          | (Ok bs, r2) => (Ok (b :: bs), r2)
          | (Err e, r2) => (Err e, r2)
          end
      | (Err e, r1) => (Err e, r1)
      end
  end.

(** How a sender cuts a message into chunks, from an offset on. *)
Fixpoint fragments (id seq off : Z) (start : bool) (chunks : list (list byte)) : list MessageData :=
  match chunks with
  | [] => []
  | c :: chunks' =>
      mkMessageData id seq off start (is_nil chunks') c :: fragments id seq (off + len c) false chunks'
  end.

Lemma map_replicate_is_some n :
  map is_some (replicate n (@None (list byte))) = replicate n false.
Proof. induction n; cbn; congruence. Qed.

Lemma is_nil_of {A} (l : list A) : l ≠ [] → is_nil l = false.
Proof. by destruct l. Qed.

(** The rest of a message, once it has started. *)
Lemma reassemble_rest max_item max_open id seq chunks : ∀ (s : Partial) acc,
  chunks ≠ [] → Forall (λ c, c ≠ []) chunks → len (acc ++ concat chunks) <= max_item →
  reassemble_all max_item max_open (<[seq := acc]> s) (fragments id seq (len acc) false chunks)
  = Some (delete seq s, replicate (length chunks - 1) None ++ [Some (acc ++ concat chunks)]).
Proof.
  induction chunks as [|c chunks IH]; intros s acc Hne HF Hl; [done|].
  apply Forall_cons_iff in HF as [Hc HF]. cbn in Hl.
  cbn [fragments reassemble_all]. unfold reassemble at 1. cbn [md_data md_start md_end md_sequence
    md_fragment_offset]. rewrite (is_nil_of c Hc), lookup_insert_eq.
  cbn [mbind option_bind]. rewrite Z.eqb_refl, !len_app in *. pose proof (len_nonneg (concat chunks)).
  replace (len acc + len c <=? max_item) with true by lia. cbn [andb].
  destruct chunks as [|c' chunks]; cbn [is_nil].
  - cbn. by rewrite delete_insert_eq, app_nil_r.
  - rewrite insert_insert_eq. rewrite <- len_app.
    specialize (IH s (acc ++ c)). cbn in IH. rewrite <- !app_assoc in IH. cbn.
    rewrite IH; [by rewrite ?Nat.sub_0_r|done|done|]. cbn [concat] in *. autorewrite with len in *. lia.
Qed.

Lemma reassemble_message max_item max_open id seq chunks (s : Partial) :
  s !! seq = None → Z.of_nat (size s) < max_open → chunks ≠ [] → Forall (λ c, c ≠ []) chunks →
  len (concat chunks) <= max_item →
  reassemble_all max_item max_open s (fragments id seq 0 true chunks)
  = Some (s, replicate (length chunks - 1) None ++ [Some (concat chunks)]).
Proof.
  intros Hs Hroom Hne HF Hl. destruct chunks as [|c chunks]; [done|].
  apply Forall_cons_iff in HF as [Hc HF]. cbn in Hl. autorewrite with len in Hl.
  pose proof (len_nonneg (concat chunks)).
  cbn [fragments reassemble_all]. unfold reassemble at 1. cbn [md_data md_start md_end md_sequence
    md_fragment_offset]. rewrite (is_nil_of c Hc), Hs. cbn [is_some negb].
  replace (Z.of_nat (size s) <? max_open) with true by lia.
  replace (len c <=? max_item) with true by lia. cbn [Z.eqb andb].
  destruct chunks as [|c' chunks]; cbn [is_nil].
  - cbn. by rewrite app_nil_r.
  - cbn [mbind option_bind]. rewrite Z.add_0_l, reassemble_rest; [|done|done|].
    + cbn. by rewrite delete_id, ?Nat.sub_0_r.
    + by autorewrite with len.
Qed.

Lemma accept_all_refines r s fs :
  represents r s → mr_max_item_bytes r <= U64_MAX →
  match reassemble_all (mr_max_item_bytes r) (mr_max_open_messages r) s fs with
  | Some (s', outs) =>
      ∃ r', accept_all r fs = (Ok (map is_some outs), r') ∧ represents r' s' ∧ same_limits r r'
  | None => ∃ e r', accept_all r fs = (Err e, r')
  end.
Proof.
  revert r s. induction fs as [|f fs IH]; intros r s HR Hm; cbn [reassemble_all accept_all].
  - by exists r.
  - pose proof (accept_refines r s f HR Hm) as Hf.
    destruct (reassemble _ _ s f) as [[s1 o]|]; cbn [mbind option_bind].
    2:{ destruct Hf as (e & r1 & ->). by exists e, r1. }
    destruct Hf as (r1 & -> & HR1 & [L1 L2]). specialize (IH r1 s1 HR1). rewrite L1, L2 in IH.
    specialize (IH Hm). destruct (reassemble_all _ _ s1 fs) as [[s2 outs]|]; cbn [mbind option_bind].
    + destruct IH as (r2 & -> & HR2 & [L3 L4]). exists r2. split; [done|]. split; [done|].
      split; congruence.
    + destruct IH as (e & r2 & ->). by exists e, r2.
Qed.

(** ** Interleaved messages *)

(** The messages a run delivers on one sequence. *)
Definition delivered (seq : Z) (fs : list MessageData) (outs : list (option (list byte)))
    : list (list byte) :=
  omap snd (filter (λ p : MessageData * option (list byte), md_sequence p.1 = seq) (zip fs outs)).

Definition of_sequence (seq : Z) (fs : list MessageData) : list MessageData :=
  filter (λ f, md_sequence f = seq) fs.

(** A fragment of another sequence leaves this one alone. *)
Lemma reassemble_other max_item max_open s f s' out seq :
  reassemble max_item max_open s f = Some (s', out) → md_sequence f ≠ seq → s' !! seq = s !! seq.
Proof.
  unfold reassemble. intros H Hne. destruct (is_nil _); [discriminate H|]. destruct (md_start f).
  - destruct (_ && _ && _ && _); [|discriminate H].
    destruct (md_end f); injection H as <- <-; [done|by rewrite lookup_insert_ne].
  - destruct (s !! md_sequence f) as [acc|]; [|discriminate H]. cbn [mbind option_bind] in H.
    destruct (_ && _); [|discriminate H].
    destruct (md_end f); injection H as <- <-; [by rewrite lookup_delete_ne|by rewrite lookup_insert_ne].
Qed.

Lemma reassemble_all_other max_item max_open seq fs : ∀ s s' outs,
  reassemble_all max_item max_open s fs = Some (s', outs) → of_sequence seq fs = [] →
  s' !! seq = s !! seq ∧ delivered seq fs outs = [].
Proof.
  unfold delivered, of_sequence.
  induction fs as [|f fs IH]; intros s s' outs H Hf; cbn [reassemble_all] in H.
  - by injection H as <- <-.
  - destruct (reassemble _ _ s f) as [[s1 o]|] eqn:E1; [|discriminate H]. cbn [mbind option_bind] in H.
    destruct (reassemble_all _ _ s1 fs) as [[s2 outs']|] eqn:E2; [|discriminate H].
    injection H as <- <-. rewrite filter_cons in Hf. destruct (decide _) as [|Hne]; [done|].
    destruct (IH _ _ _ E2 Hf) as [Hs Ho]. split.
    + rewrite Hs. by apply (reassemble_other _ _ _ _ _ _ _ E1).
    + cbn [zip zip_with]. rewrite filter_cons. destruct (decide _); [done|]. apply Ho.
Qed.

(** One message among others, from the point it has reached. *)
Lemma reassemble_all_rest max_item max_open id seq fs : ∀ s s' outs acc chunks,
  reassemble_all max_item max_open s fs = Some (s', outs) →
  s !! seq = Some acc → chunks ≠ [] →
  of_sequence seq fs = fragments id seq (len acc) false chunks →
  s' !! seq = None ∧ delivered seq fs outs = [acc ++ concat chunks].
Proof.
  induction fs as [|f fs IH]; intros s s' outs acc chunks H Hs Hne Hf; cbn [reassemble_all] in H.
  { by destruct chunks. }
  destruct (reassemble _ _ s f) as [[s1 o]|] eqn:E1; [|discriminate H]. cbn [mbind option_bind] in H.
  destruct (reassemble_all _ _ s1 fs) as [[s2 outs']|] eqn:E2; [|discriminate H].
  injection H as <- <-. unfold delivered, of_sequence in *. cbn [zip zip_with].
  rewrite filter_cons in Hf. rewrite filter_cons. cbn [fst].
  destruct (decide (md_sequence f = seq)) as [Hseq|Hother].
  2:{ pose proof (reassemble_other _ _ _ _ _ _ _ E1 Hother) as Hsame. rewrite <- Hsame in Hs.
      destruct (IH _ _ _ _ _ E2 Hs Hne Hf) as [? Ho]. done. }
  destruct chunks as [|c chunks]; [done|]. cbn [fragments] in Hf. injection Hf as -> Hf.
  unfold reassemble in E1. cbn [md_data md_start md_end md_sequence md_fragment_offset] in E1.
  destruct (is_nil c); [discriminate E1|]. rewrite Hs in E1. cbn [mbind option_bind] in E1.
  destruct (_ && _); [|discriminate E1]. destruct chunks as [|c' chunks]; cbn [is_nil] in E1;
    injection E1 as <- <-.
  - destruct (reassemble_all_other _ _ seq _ _ _ _ E2 Hf) as [Hn Ho].
    rewrite lookup_delete_eq in Hn. split; [done|]. cbn. unfold delivered in Ho.
    by rewrite Ho, app_nil_r.
  - rewrite <- len_app in Hf.
    destruct (IH _ _ _ (acc ++ c) (c' :: chunks) E2) as [? Ho];
      [by rewrite lookup_insert_eq|done|done|].
    split; [done|]. cbn. cbn in Ho. by rewrite Ho, <- app_assoc.
Qed.

Lemma reassemble_all_message max_item max_open id seq fs : ∀ s s' outs chunks,
  reassemble_all max_item max_open s fs = Some (s', outs) →
  s !! seq = None → chunks ≠ [] → of_sequence seq fs = fragments id seq 0 true chunks →
  s' !! seq = None ∧ delivered seq fs outs = [concat chunks].
Proof.
  induction fs as [|f fs IH]; intros s s' outs chunks H Hs Hne Hf; cbn [reassemble_all] in H.
  { by destruct chunks. }
  destruct (reassemble _ _ s f) as [[s1 o]|] eqn:E1; [|discriminate H]. cbn [mbind option_bind] in H.
  destruct (reassemble_all _ _ s1 fs) as [[s2 outs']|] eqn:E2; [|discriminate H].
  injection H as <- <-. unfold delivered, of_sequence in *. cbn [zip zip_with].
  rewrite filter_cons in Hf. rewrite filter_cons. cbn [fst].
  destruct (decide (md_sequence f = seq)) as [Hseq|Hother].
  2:{ pose proof (reassemble_other _ _ _ _ _ _ _ E1 Hother) as Hsame. rewrite <- Hsame in Hs.
      by apply (IH _ _ _ _ E2 Hs). }
  destruct chunks as [|c chunks]; [done|]. cbn [fragments] in Hf. injection Hf as -> Hf.
  unfold reassemble in E1. cbn [md_data md_start md_end md_sequence md_fragment_offset] in E1.
  destruct (is_nil c); [discriminate E1|]. destruct (_ && _ && _ && _); [|discriminate E1].
  destruct chunks as [|c' chunks]; cbn [is_nil] in E1; injection E1 as <- <-.
  - destruct (reassemble_all_other _ _ seq _ _ _ _ E2 Hf) as [Hn Ho]. split; [congruence|].
    cbn. unfold delivered in Ho. by rewrite Ho, app_nil_r.
  - destruct (reassemble_all_rest _ _ id seq _ _ _ _ c (c' :: chunks) E2) as [? Ho];
      [by rewrite lookup_insert_eq|done|done|]. done.
Qed.

(** ** Properties of the receiver *)

(** C3: the receiver simulates reassembly over any run of fragments: it accepts
    the runs the specification accepts, answers [true] on exactly the fragments
    that complete a message, and ends representing the same partial messages;
    a run the specification refuses, it refuses. *)
Theorem receiver_refines_reassembly r s fs :
  represents r s → mr_max_item_bytes r <= U64_MAX →
  match reassemble_all (mr_max_item_bytes r) (mr_max_open_messages r) s fs with
  | Some (s', outs) =>
      ∃ r', accept_all r fs = (Ok (map is_some outs), r') ∧ represents r' s' ∧ same_limits r r'
  | None => ∃ e r', accept_all r fs = (Err e, r')
  end.
Proof. apply accept_all_refines. Qed.

(** Any message of at most [max_item_bytes] bytes, cut into non-empty chunks
    and sent on a free sequence while the receiver has room for one more open
    message, is accepted fragment by fragment, completes at its last fragment
    and nowhere else, and leaves the receiver as it was. *)
Theorem fragmented_message_completes r s id seq chunks :
  represents r s → mr_max_item_bytes r <= U64_MAX →
  mr_open r !! seq = None → open_messages r < mr_max_open_messages r →
  chunks ≠ [] → Forall (λ c, c ≠ []) chunks → len (concat chunks) <= mr_max_item_bytes r →
  accept_all r (fragments id seq 0 true chunks)
  = (Ok (replicate (length chunks - 1) false ++ [true]), r).
Proof.
  intros HR Hm Hfree Hroom Hne HF Hl.
  pose proof (accept_all_refines r s (fragments id seq 0 true chunks) HR Hm) as H.
  rewrite (represents_lookup _ _ _ HR) in Hfree. unfold open_messages in Hroom.
  rewrite (represents_size _ _ HR) in Hroom.
  rewrite reassemble_message in H; [|by destruct (s !! seq)|done..].
  destruct H as (r' & -> & HR' & [L1 L2]). f_equal.
  - by rewrite map_app, map_replicate_is_some.
  - destruct r, r'. unfold represents in *. cbn in *. congruence.
Qed.

(** Messages may interleave: however the fragments of several sequences are
    mixed in an accepted run, a sequence whose fragments are those of one message
    delivers exactly that message, once. *)
Theorem interleaved_message_intact r s fs bs r' id seq chunks :
  represents r s → mr_max_item_bytes r <= U64_MAX → accept_all r fs = (Ok bs, r') →
  mr_open r !! seq = None → chunks ≠ [] → of_sequence seq fs = fragments id seq 0 true chunks →
  ∃ outs, bs = map is_some outs ∧ delivered seq fs outs = [concat chunks] ∧
    mr_open r' !! seq = None.
Proof.
  intros HR Hm Ha Hfree Hne Hf. pose proof (accept_all_refines r s fs HR Hm) as H.
  destruct (reassemble_all _ _ s fs) as [[s' outs]|] eqn:E.
  2:{ destruct H as (e & r2 & H). by rewrite H in Ha. }
  destruct H as (r2 & H & HR' & _). rewrite H in Ha. injection Ha as <- <-.
  rewrite (represents_lookup _ _ _ HR) in Hfree.
  destruct (reassemble_all_message _ _ id seq fs _ _ _ chunks E) as [Hn Hd]; [|done|done|].
  { by destruct (s !! seq). }
  exists outs. split; [done|]. split; [done|]. by rewrite (represents_lookup _ _ _ HR'), Hn.
Qed.

(** ** Bounds *)

(** The receivers a descriptor's transfer goes through; the flag says that no
    fragment has been refused yet. *)
Inductive reached (d : Descriptor) : bool → MessageReceiver → Prop :=
| reached_new r : MessageReceiver_new d = Ok r → reached d true r
| reached_accept ok r f res r' :
    reached d ok r → accept r f = (res, r') → reached d (ok && is_ok res) r'.

Definition offsets_ok (r : MessageReceiver) : Prop :=
  map_Forall (λ _ n, 0 < n <= mr_max_item_bytes r) (mr_open r).

Lemma is_nil_len {A} (l : list A) : is_nil l = false → 0 < len l.
Proof. destruct l; [done|]. rewrite len_cons. pose proof (len_nonneg l). lia. Qed.

Lemma size_insert_le (m : gmap Z Z) k v : (size (<[k := v]> m) <= S (size m))%nat.
Proof. rewrite map_size_insert. destruct (m !! k); cbn; unfold id; lia. Qed.

Lemma size_insert_some (m : gmap Z Z) k v w : m !! k = Some w → size (<[k := v]> m) = size m.
Proof. intros H. by rewrite map_size_insert, H. Qed.

Lemma accept_count r f res r' :
  accept r f = (res, r') → open_messages r <= mr_max_open_messages r →
  open_messages r' <= mr_max_open_messages r' ∧ same_limits r r'.
Proof.
  unfold accept, open_messages, same_limits. intros H Hle.
  destruct (is_nil _); [by injection H as <- <-|]. destruct (md_start f).
  - destruct (_ || _); [by injection H as <- <-|].
    destruct (Z.leb_spec (mr_max_open_messages r) (Z.of_nat (size (mr_open r)))) as [|Hlt];
      [by injection H as <- <-|].
    destruct (_ <? _); [by injection H as <- <-|].
    destruct (md_end f); injection H as <- <-; [done|]. cbn.
    pose proof (size_insert_le (mr_open r) (md_sequence f) (len (md_data f))). split; [lia|done].
  - destruct (mr_open r !! md_sequence f) as [next|] eqn:El; [|by injection H as <- <-].
    destruct (negb _); [by injection H as <- <-|].
    destruct (checked_add_u64 _ _) as [n|]; [|by injection H as <- <-]. cbn in H.
    pose proof (size_insert_some (mr_open r) (md_sequence f) n next El) as Es.
    destruct (_ <? n); [injection H as <- <-; cbn; rewrite Es; done|].
    destruct (md_end f); injection H as <- <-; cbn; [|rewrite Es; done].
    split; [|done]. etransitivity; [|exact Hle].
    apply Nat2Z.inj_le. rewrite delete_insert_eq, map_size_delete, El. apply Nat.le_pred_l.
Qed.

Lemma accept_offsets r f b r' : accept r f = (Ok b, r') → offsets_ok r → offsets_ok r'.
Proof.
  unfold accept, offsets_ok. intros H HF.
  destruct (is_nil (md_data f)) eqn:En; [discriminate H|]. apply is_nil_len in En.
  destruct (md_start f).
  - destruct (_ || _); [discriminate H|]. destruct (_ <=? _); [discriminate H|].
    destruct (Z.ltb_spec (mr_max_item_bytes r) (len (md_data f))); [discriminate H|].
    destruct (md_end f); injection H as <- <-; [done|]. cbn. apply map_Forall_insert_2; [lia|done].
  - destruct (mr_open r !! md_sequence f) as [next|] eqn:El; [|discriminate H].
    pose proof (map_Forall_lookup_1 _ _ _ _ HF El) as Hn. cbn in Hn.
    destruct (negb _); [discriminate H|].
    destruct (checked_add_u64 _ _) as [n|] eqn:Ea; [|discriminate H].
    apply checked_add_u64_some in Ea as [-> _]. cbn in H.
    destruct (Z.ltb_spec (mr_max_item_bytes r) (next + len (md_data f))); [discriminate H|].
    assert (map_Forall (λ _ n, 0 < n <= mr_max_item_bytes r)
              (<[md_sequence f := next + len (md_data f)]> (mr_open r))) as HF'
      by (apply map_Forall_insert_2; [lia|done]).
    destruct (md_end f); injection H as <- <-; [|done]. cbn. by apply map_Forall_delete.
Qed.

(** At every point of a transfer the receiver holds at most
    [max_open_messages] open messages - also after a refused fragment - and
    while no fragment has been refused every open message is within
    [max_item_bytes]. *)
Theorem receiver_bounded d ok r :
  reached d ok r →
  open_messages r <= mr_max_open_messages r ∧
  (ok = true → map_Forall (λ _ n, 0 < n <= mr_max_item_bytes r) (mr_open r)).
Proof.
  induction 1 as [r H|ok r f res r' _ [IH1 IH2] H].
  - unfold MessageReceiver_new in H. inv_ok. unfold open_messages. cbn [mr_open mr_max_open_messages].
    rewrite map_size_empty. split.
    + unfold Descriptor_max_open_messages in Hv1. destruct (find_ext _ _) as [e|].
      * inv_ok. pose proof (from_le_bound (ext_value e)). lia.
      * inv_ok. lia.
    + intros _. apply map_Forall_empty.
  - destruct (accept_count _ _ _ _ H IH1) as [? _]. split; [done|].
    intros [-> Hok]%andb_true_iff. destruct res as [b|]; [|discriminate Hok].
    by apply (accept_offsets _ _ _ _ H), IH2.
Qed.

(** * Wire laws, upload stages and witnesses of the Transfer family *)

(** ** Upload stages *)

Definition UploadStage_wf (s : UploadStage) : Prop :=
  is_u64 (us_staging_handle s) ∧ is_u64 (us_expires_server_ns s).

Lemma UploadStage_extension_ok s e :
  UploadStage_extension s = Ok e →
  e = mkExtension 3 true (to_le 8 (us_staging_handle s) ++ to_le 8 (us_expires_server_ns s)) ∧
  UploadStage_validate s = Ok ().
Proof. unfold UploadStage_extension. intros H. inv_ok. done. Qed.

(** A descriptor that carries the extension of an upload stage yields that
    stage, and only that stage: the handle and expiry survive the wire form. *)
Theorem upload_stage_roundtrip s e d :
  UploadStage_wf s → UploadStage_extension s = Ok e →
  find_ext (td_extensions d) transfer_UPLOAD_STAGE_EXTENSION = Some e →
  Descriptor_upload_stage d = Ok (Some s).
Proof.
  intros [H1 H2] [-> Hv]%UploadStage_extension_ok Hf.
  unfold Descriptor_upload_stage. change (as_u16 transfer_UPLOAD_STAGE_EXTENSION)
    with transfer_UPLOAD_STAGE_EXTENSION. rewrite Hf. cbn [ext_required ext_value].
  rewrite len_app, !len_to_le. rewrite take_app_length', drop_app_length' by by rewrite length_to_le.
  rewrite !from_to_le by done.
  replace (mkStage _ _) with s by by destruct s.
  rewrite reject_if_false, bind_is_ok by done. by rewrite Hv.
Qed.

(** A valid descriptor with an upload stage moves bytes towards the sender
    of the descriptor only, grants no credit the other way, and forces the
    SENSITIVE flag on every frame that carries or closes the upload. *)
Theorem upload_descriptor_protected d s kind :
  Descriptor_validate d = Ok () → Descriptor_upload_stage d = Ok (Some s) →
  kind ∈ [transfer_event_BYTE_DATA; transfer_event_MESSAGE_DATA; transfer_event_CLOSE;
          transfer_event_RESET] →
  td_mode d = ModeByte ∧ td_direction d = RECEIVER_TO_SENDER ∧ td_sender_send_credit d = 0 ∧
  us_staging_handle s ≠ 0 ∧ us_expires_server_ns s ≠ 0 ∧
  Descriptor_requires_sensitive_frame d kind = Ok true.
Proof.
  intros H Hs Hk. unfold Descriptor_validate in H. inv_ok. rewrite Hs in Hv8. injection Hv8 as <-.
  cbn [is_some andb] in H. rewrite !orb_false_iff, !negb_false_iff, !bool_decide_eq_true in H.
  destruct H as [[[Hm Hd] Hc] ->].
  unfold Descriptor_upload_stage in Hs. destruct (find_ext _ _) as [e|]; [|discriminate Hs].
  inv_ok. unfold UploadStage_validate in *. inv_ok.
  split_and!; [done|done|lia|lia|lia|].
  unfold Descriptor_requires_sensitive_frame. rewrite Hv7.
  by repeat (apply elem_of_cons in Hk as [->|Hk]; [reflexivity|]); apply elem_of_nil in Hk.
Qed.

(** A RESET discards an upload stage only through a valid descriptor of
    the same transfer among those it is resolved against, and only the stage
    the caller named. *)
Theorem reset_discards_named_stage r handle ds s :
  Reset_disposed_upload_stage_from r handle ds = Ok (Some s) →
  us_staging_handle s = handle ∧
  ∃ d, d ∈ ds ∧ td_transfer_id d = rst_transfer_id r ∧ Descriptor_validate d = Ok () ∧
    Descriptor_upload_stage d = Ok (Some s).
Proof.
  unfold Reset_disposed_upload_stage_from. intros H.
  destruct (find_first _ ds) as [d|] eqn:E; [|discriminate H]. inv_ok.
  unfold Reset_disposed_upload_stage in Hv. inv_ok.
  destruct (find_first_some _ _ _ E) as [Hin Hid]. split; [lia|].
  exists d. split_and!; [done|lia|done|done].
Qed.

(** A descriptor that allows neither direction passes validation and is
    encoded, and no decoder accepts the result. *)
Definition directionless : Descriptor :=
  mkDescriptor 1 ModeByte (mkDirection false false) 0 0 0 1 0 0 0 [].

Lemma directionless_not_decodable :
  ∃ bs, encode directionless = Ok bs ∧
    (decode bs : result Error Descriptor) = Err (Invalid "transfer direction").
Proof. exists (Descriptor_bytes directionless). split; vm_compute; reflexivity. Qed.

(** ** Witnesses *)

Definition sample_stage : UploadStage := mkStage 77 1000.
Definition sensitive_ext : Extension := mkExtension 2 true [].
Definition stage_ext : Extension := mkExtension 3 true (to_le 8 77 ++ to_le 8 1000).
Definition upload_descriptor : Descriptor :=
  mkDescriptor 9 ModeByte RECEIVER_TO_SENDER 4096 0 0 1024 5 1 1 [sensitive_ext; stage_ext].

Lemma upload_descriptor_protected_witness :
  Descriptor_requires_sensitive_frame upload_descriptor transfer_event_CLOSE = Ok true.
Proof.
  apply (upload_descriptor_protected upload_descriptor sample_stage).
  - vm_compute. reflexivity.
  - vm_compute. reflexivity.
  - right. right. left.
Defined.

Lemma reset_discards_named_stage_witness :
  us_staging_handle sample_stage = 77 ∧
  ∃ d, d ∈ [upload_descriptor] ∧ td_transfer_id d = 9 ∧ Descriptor_validate d = Ok () ∧
    Descriptor_upload_stage d = Ok (Some sample_stage).
Proof.
  apply (reset_discards_named_stage (mkReset 9 0 []) 77 [upload_descriptor] sample_stage).
  vm_compute. reflexivity.
Defined.

(** A MESSAGE transfer of items up to ten bytes, two open at a time. *)
Definition message_descriptor : Descriptor :=
  mkDescriptor 4 ModeMessage BIDIRECTIONAL 100 100 10 8 5 1 1 [mkExtension 1 false (to_le 4 2)].
Definition fresh_receiver : MessageReceiver := mkReceiver 10 2 ∅.

Lemma fresh_receiver_new : MessageReceiver_new message_descriptor = Ok fresh_receiver.
Proof. vm_compute. reflexivity. Qed.

Lemma fresh_represents : represents fresh_receiver ∅.
Proof. unfold represents. cbn. by rewrite fmap_empty. Qed.

Definition two_chunks : list (list byte) := [bytes_of [1; 2; 3]; bytes_of [4; 5]].

Lemma receiver_refines_reassembly_witness :
  ∃ r', accept_all fresh_receiver (fragments 4 1 0 true two_chunks) = (Ok [false; true], r') ∧
    represents r' ∅ ∧ same_limits fresh_receiver r'.
Proof.
  pose proof (receiver_refines_reassembly fresh_receiver ∅ (fragments 4 1 0 true two_chunks)
    fresh_represents ltac:(vm_compute; discriminate)) as H.
  assert (reassemble_all (mr_max_item_bytes fresh_receiver) (mr_max_open_messages fresh_receiver) ∅
            (fragments 4 1 0 true two_chunks) = Some (∅, [None; Some (bytes_of [1; 2; 3; 4; 5])]))
    as E by (vm_compute; reflexivity).
  rewrite E in H. exact H.
Defined.

Lemma fragmented_message_completes_witness :
  accept_all fresh_receiver (fragments 4 1 0 true two_chunks) = (Ok [false; true], fresh_receiver).
Proof.
  apply (fragmented_message_completes fresh_receiver ∅ 4 1 two_chunks).
  - exact fresh_represents.
  - vm_compute. discriminate.
  - reflexivity.
  - reflexivity.
  - discriminate.
  - repeat constructor; discriminate.
  - vm_compute. discriminate.
Defined.

(** Two messages interleaved on sequences 1 and 2. *)
Definition interleaved : list MessageData :=
  [ mkMessageData 4 1 0 true false (bytes_of [1; 2; 3]);
    mkMessageData 4 2 0 true false (bytes_of [9]);
    mkMessageData 4 1 3 false true (bytes_of [4; 5]);
    mkMessageData 4 2 1 false true (bytes_of [8]) ].

Lemma interleaved_message_intact_witness :
  ∃ outs, [false; false; true; true] = map is_some outs ∧
    delivered 1 interleaved outs = [bytes_of [1; 2; 3; 4; 5]] ∧ mr_open fresh_receiver !! 1 = None.
Proof.
  apply (interleaved_message_intact fresh_receiver ∅ interleaved [false; false; true; true]
           fresh_receiver 4 1 two_chunks).
  - exact fresh_represents.
  - vm_compute. discriminate.
  - vm_compute. reflexivity.
  - reflexivity.
  - discriminate.
  - vm_compute. reflexivity.
Defined.

Lemma receiver_bounded_witness :
  open_messages fresh_receiver <= mr_max_open_messages fresh_receiver ∧
  (true = true → map_Forall (λ _ n, 0 < n <= mr_max_item_bytes fresh_receiver) (mr_open fresh_receiver)).
Proof.
  apply (receiver_bounded message_descriptor true). apply reached_new. exact fresh_receiver_new.
Defined.
