(* ===== verification/State.v ===== *)
(** * State: the watch/state messages of [crates/yas/src/state.rs]

    Every stateful family shares these: WATCH and its result, UNWATCH, the
    revisioned STATE event with its typed records, and STATE_ACK. *)

From S2P Require Import Prelude Schema Codec CodecFacts Wire.

Definition WATCH_RESUME : Z := as_u16 state_WATCH_RESUME.
Abbreviation HARD_MAX_TYPED_RECORDS := transport_HARD_MAX_TYPED_RECORDS.

Record Cursor := mkCursor { cu_boot_id : list byte; cu_revision : Z }.

(** ** WATCH *)

Record Watch := mkWatch {
  wa_initial_credit : Z; wa_resume : option Cursor; wa_extensions : Extensions
}.

#[export] Instance Watch_encode_to : Encode Watch := fun v out =>
  let out := put_u16 out (match wa_resume v with Some _ => WATCH_RESUME | None => 0 end) in
  let out := put_u16 out 0 in
  let out := put_u64 out (wa_initial_credit v) in
  out ← match wa_resume v with
        | Some cursor =>
            _ ← reject_if (cu_revision cursor =? 0) (Invalid "zero state revision");
            Ok (put_u64 (out ++ cu_boot_id cursor) (cu_revision cursor))
        | None => Ok out
        end;
  Extensions_encode_tail (wa_extensions v) out.

Definition Watch_read : decoder Watch :=
  flags ← dec_u16;
  _ ← reject (has_other_bits flags WATCH_RESUME) (Invalid "WATCH flags or reserved field");
  reserved ← dec_u16;
  _ ← reject (negb (reserved =? 0)) (Invalid "WATCH flags or reserved field");
  initial_credit ← dec_u64;
  resume ← (if has_bits flags WATCH_RESUME then
              boot_id ← dec_array_16;
              revision ← dec_u64;
              _ ← reject (revision =? 0) (Invalid "zero state revision");
              mret (Some (mkCursor boot_id revision))
            else mret None);
  extensions ← dec_extensions;
  _ ← dec_finish;
  mret (mkWatch initial_credit resume extensions).

#[export] Instance Watch_decode : Decode Watch := fun input => run Watch_read (Decoder_new input).

Inductive WatchMode := Snapshot | Replay.

Definition WatchMode_u8 (m : WatchMode) : Z :=
  match m with Snapshot => as_u8 state_MODE_SNAPSHOT | Replay => as_u8 state_MODE_REPLAY end.

Definition WatchMode_try_from (value : Z) : result Error WatchMode :=
  if value =? as_u8 state_MODE_SNAPSHOT then Ok Snapshot
  else if value =? as_u8 state_MODE_REPLAY then Ok Replay
  else Err (Invalid "WATCH result mode").

Record WatchResult := mkWatchResult {
  wr_subscription_id : Z; wr_mode : WatchMode; wr_current_revision : Z; wr_extensions : Extensions
}.

#[export] Instance WatchResult_encode_to : Encode WatchResult := fun v out =>
  _ ← reject_if ((wr_subscription_id v =? 0) || (wr_current_revision v =? 0))
        (Invalid "WATCH result identity or revision");
  let out := put_u32 out (wr_subscription_id v) in
  let out := push_u8 out (WatchMode_u8 (wr_mode v)) in
  let out := out ++ zeros 3 in
  let out := put_u64 out (wr_current_revision v) in
  Extensions_encode_tail (wr_extensions v) out.

Definition WatchResult_read : decoder WatchResult :=
  subscription_id ← dec_u32;
  mode ← dec_u8;
  mode ← lift (WatchMode_try_from mode);
  reserved ← dec_take 3;
  _ ← reject (negb (bool_decide (reserved = zeros 3))) (Invalid "WATCH result reserved bytes");
  current_revision ← dec_u64;
  extensions ← dec_extensions;
  _ ← dec_finish;
  mret (mkWatchResult subscription_id mode current_revision extensions).

#[export] Instance WatchResult_decode : Decode WatchResult := fun input =>
  value ← run WatchResult_read (Decoder_new input);
  _ ← encode_to value [];
  Ok value.

Record Unwatch := mkUnwatch { uw_subscription_id : Z }.

#[export] Instance Unwatch_encode_to : Encode Unwatch := fun v out =>
  _ ← reject_if (uw_subscription_id v =? 0) (Invalid "zero subscription ID");
  Ok (put_u32 out (uw_subscription_id v)).

Definition Unwatch_read : decoder Unwatch :=
  subscription_id ← dec_u32;
  _ ← dec_finish;
  mret (mkUnwatch subscription_id).

#[export] Instance Unwatch_decode : Decode Unwatch := fun input =>
  value ← run Unwatch_read (Decoder_new input);
  _ ← reject_if (uw_subscription_id value =? 0) (Invalid "zero subscription ID");
  Ok value.

(** ** STATE *)

Inductive Phase := SnapshotBegin | SnapshotRecords | SnapshotEnd | Delta | PhaseReset.

Definition Phase_u8 (p : Phase) : Z :=
  match p with
  | SnapshotBegin => as_u8 state_PHASE_SNAPSHOT_BEGIN
  | SnapshotRecords => as_u8 state_PHASE_SNAPSHOT_RECORDS
  | SnapshotEnd => as_u8 state_PHASE_SNAPSHOT_END
  | Delta => as_u8 state_PHASE_DELTA
  | PhaseReset => as_u8 state_PHASE_RESET
  end.

Definition Phase_try_from (value : Z) : result Error Phase :=
  if value =? as_u8 state_PHASE_SNAPSHOT_BEGIN then Ok SnapshotBegin
  else if value =? as_u8 state_PHASE_SNAPSHOT_RECORDS then Ok SnapshotRecords
  else if value =? as_u8 state_PHASE_SNAPSHOT_END then Ok SnapshotEnd
  else if value =? as_u8 state_PHASE_DELTA then Ok Delta
  else if value =? as_u8 state_PHASE_RESET then Ok PhaseReset
  else Err (Invalid "STATE phase").

Inductive RecordKind := Add | Replace | Patch | Remove | Family (kind : Z).

Definition RecordKind_wire (k : RecordKind) : Z :=
  match k with
  | Add => as_u16 state_RECORD_ADD
  | Replace => as_u16 state_RECORD_REPLACE
  | Patch => as_u16 state_RECORD_PATCH
  | Remove => as_u16 state_RECORD_REMOVE
  | Family kind => kind
  end.

Definition RecordKind_family (kind : Z) : result Error RecordKind :=
  if kind <=? as_u16 state_RECORD_REMOVE then Err (Invalid "family state record kind")
  else Ok (Family kind).

Definition RecordKind_known (value : Z) (family_kinds : list Z) : option RecordKind :=
  if value =? as_u16 state_RECORD_ADD then Some Add
  else if value =? as_u16 state_RECORD_REPLACE then Some Replace
  else if value =? as_u16 state_RECORD_PATCH then Some Patch
  else if value =? as_u16 state_RECORD_REMOVE then Some Remove
  else if existsb (Z.eqb value) family_kinds then Some (Family value)
  else None.

Record StateRecord := mkRecord { re_kind : RecordKind; re_required : bool; re_body : list byte }.

(** [matches!(kind, Family(kind) if kind <= RECORD_REMOVE)] *)
Definition family_kind_reserved (k : RecordKind) : bool :=
  match k with Family kind => kind <=? as_u16 state_RECORD_REMOVE | _ => false end.

Definition StateRecord_encode_to (r : StateRecord) (out : list byte) : result Error (list byte) :=
  _ ← reject_if (family_kind_reserved (re_kind r)) (Invalid "family state record kind");
  body_len ← ok_or (checked_add_u64 4 (len (re_body r))) LengthOverflow;
  out ← put_len_u32 out body_len;
  let out := put_u16 out (RecordKind_wire (re_kind r)) in
  let out := put_u16 out (of_bool (re_required r)) in
  Ok (out ++ re_body r).

Record StateEvent := mkState {
  se_subscription_id : Z; se_phase : Phase; se_flags : Z; se_from_revision : Z;
  se_to_revision : Z; se_records : list StateRecord
}.

(** The revision guard of each phase. *)
Definition revision_transition_ok (v : StateEvent) : bool :=
  match se_phase v with
  | SnapshotBegin => se_from_revision v =? 0
  | SnapshotRecords | SnapshotEnd => se_from_revision v =? se_to_revision v
  | Delta | PhaseReset =>
      negb (se_from_revision v =? 0) && (se_from_revision v <? se_to_revision v)
  end.

Definition is_marker (p : Phase) : bool :=
  match p with SnapshotBegin | PhaseReset => true | _ => false end.

Definition StateEvent_validate (v : StateEvent) : result Error () :=
  _ ← reject_if ((se_subscription_id v =? 0) || (se_to_revision v =? 0))
        (Invalid "STATE identity or revision");
  _ ← reject_if (negb (revision_transition_ok v)) (Invalid "STATE revision transition");
  _ ← reject_if (is_marker (se_phase v) && negb (is_nil (se_records v)))
        (Invalid "records in marker STATE event");
  reject_if (HARD_MAX_TYPED_RECORDS <? len (se_records v))
    (LimitExceeded "typed records" (len (se_records v)) HARD_MAX_TYPED_RECORDS).

(** One record of [decode_with]; [None] is an optional record of unknown kind. *)
Definition StateRecord_read (family_record_kinds : list Z) : decoder (option StateRecord) :=
  raw_kind ← dec_u16;
  record_flags ← dec_u16;
  _ ← reject (has_other_bits record_flags 1) (Invalid "state record flags");
  let required := has_bits record_flags 1 in
  record ← match RecordKind_known raw_kind family_record_kinds with
           | Some kind => body ← dec_rest; mret (Some (mkRecord kind required body))
           | None =>
               if negb required then _ ← dec_rest; mret None
               else fail (Invalid "unknown required state record")
           end;
  _ ← dec_finish;
  mret record.

Definition dec_record (family_record_kinds : list Z) : decoder (option StateRecord) :=
  record_len ← dec_u32;
  _ ← reject (record_len <? 4) (Invalid "state record length");
  bytes ← dec_take record_len;
  lift (run (StateRecord_read family_record_kinds) (Decoder_new bytes)).

Definition StateEvent_read (allowed_flags : Z) (family_record_kinds : list Z) : decoder StateEvent :=
  subscription_id ← dec_u32;
  phase ← dec_u8;
  phase ← lift (Phase_try_from phase);
  flags ← dec_u8;
  _ ← reject (has_other_bits flags allowed_flags) (Invalid "family STATE flags");
  reserved ← dec_u16;
  _ ← reject (negb (reserved =? 0)) (Invalid "STATE reserved field");
  from_revision ← dec_u64;
  to_revision ← dec_u64;
  record_count ← dec_u16;
  _ ← reject (HARD_MAX_TYPED_RECORDS <? record_count)
        (LimitExceeded "typed records" record_count HARD_MAX_TYPED_RECORDS);
  records ← dec_repeat (Z.to_nat record_count) (dec_record family_record_kinds);
  _ ← dec_finish;
  mret (mkState subscription_id phase flags from_revision to_revision (omap id records)).

Definition StateEvent_decode_with (input : list byte) (allowed_flags : Z)
    (family_record_kinds : list Z) : result Error StateEvent :=
  value ← run (StateEvent_read allowed_flags family_record_kinds) (Decoder_new input);
  _ ← StateEvent_validate value;
  Ok value.

#[export] Instance StateEvent_encode_to : Encode StateEvent := fun v out =>
  _ ← StateEvent_validate v;
  let out := put_u32 out (se_subscription_id v) in
  let out := push_u8 out (Phase_u8 (se_phase v)) in
  let out := push_u8 out (se_flags v) in
  let out := put_u16 out 0 in
  let out := put_u64 out (se_from_revision v) in
  let out := put_u64 out (se_to_revision v) in
  n ← ok_or (try_u16 (len (se_records v))) LengthOverflow;
  let out := put_u16 out n in
  try_fold StateRecord_encode_to (se_records v) out.

#[export] Instance StateEvent_decode : Decode StateEvent := fun input =>
  StateEvent_decode_with input U8_MAX [].

Record StateAck := mkAck {
  ak_subscription_id : Z; ak_applied_revision : Z; ak_cumulative_byte_limit : Z
}.

#[export] Instance StateAck_encode_to : Encode StateAck := fun v out =>
  _ ← reject_if (ak_subscription_id v =? 0) (Invalid "zero subscription ID");
  let out := put_u32 out (ak_subscription_id v) in
  let out := put_u64 out (ak_applied_revision v) in
  Ok (put_u64 out (ak_cumulative_byte_limit v)).

Definition StateAck_read : decoder StateAck :=
  subscription_id ← dec_u32;
  applied_revision ← dec_u64;
  cumulative_byte_limit ← dec_u64;
  _ ← dec_finish;
  mret (mkAck subscription_id applied_revision cumulative_byte_limit).

#[export] Instance StateAck_decode : Decode StateAck := fun input =>
  value ← run StateAck_read (Decoder_new input);
  _ ← reject_if (ak_subscription_id value =? 0) (Invalid "zero subscription ID");
  Ok value.
