(* ===== verification/StateFacts.v ===== *)
(** * StateFacts: watch and state messages on the wire, and records a receiver
    does not know *)

From S2P Require Import Prelude Schema Codec CodecFacts Wire Datagrams Transfer TransferFacts State.

(** Three reserved zero bytes. *)
Lemma reads_zeros3 : reads (dec_take 3) (zeros 3) (zeros 3).
Proof. by apply reads_take. Qed.

Lemma zeros3_ok (bs : list byte) : negb (bool_decide (bs = zeros 3)) = false ↔ bs = zeros 3.
Proof. by rewrite negb_false_iff, bool_decide_eq_true. Qed.

(** ** WATCH *)

Definition Watch_wf (v : Watch) : Prop :=
  is_u64 (wa_initial_credit v) ∧ exts_wf (wa_extensions v) ∧
  match wa_resume v with
  | Some c => length (cu_boot_id c) = 16%nat ∧ is_u64 (cu_revision c)
  | None => True
  end.

Definition resume_bytes (r : option Cursor) : list byte :=
  match r with Some c => cu_boot_id c ++ to_le 8 (cu_revision c) | None => [] end.

Definition Watch_flags (v : Watch) : Z :=
  match wa_resume v with Some _ => WATCH_RESUME | None => 0 end.

Definition Watch_bytes (v : Watch) : list byte :=
  to_le 2 (Watch_flags v) ++ to_le 2 0 ++ to_le 8 (wa_initial_credit v) ++
  resume_bytes (wa_resume v) ++ tail_bytes (wa_extensions v).

Definition Watch_fits (v : Watch) : Prop :=
  match wa_resume v with Some c => cu_revision c ≠ 0 | None => True end ∧
  Extensions_validate (wa_extensions v) = Ok () ∧ len (entries_bytes (wa_extensions v)) <= U32_MAX.

Lemma Watch_encode_ok v out o : encode_to v out = Ok o ↔ o = out ++ Watch_bytes v ∧ Watch_fits v.
Proof.
  unfold encode_to, Watch_encode_to, Watch_bytes, Watch_fits, resume_bytes, Watch_flags.
  destruct (wa_resume v) as [c|].
  - destruct (Z.eqb_spec (cu_revision c) 0); [naive_solver|].
    cbn [reject_if mbind result_bind]. rewrite Extensions_encode_tail_ok.
    unfold put_u16, put_u64. rewrite <- !app_assoc. naive_solver.
  - cbn [mbind result_bind]. rewrite Extensions_encode_tail_ok.
    unfold put_u16, put_u64. rewrite <- !app_assoc. naive_solver.
Qed.

#[export] Instance Watch_WireLaws : WireLaws Watch Watch_wf.
Proof.
  apply wire_laws_reader with (fits := Watch_fits) (check := λ _, Ok ())
    (bytes := Watch_bytes) (read := Watch_read).
  - apply Watch_encode_ok.
  - intros bs. unfold decode, Watch_decode. by destruct (run _ _).
  - intros v (Hc & He & Hr) (Hz & Hv & Hl). split; [done|]. assert (exts_ok (wa_extensions v)) by done.
    unfold Watch_read, Watch_bytes, Watch_flags, resume_bytes. destruct v as [cr [c|] ex]; cbn in *.
    + destruct Hr as [Hb Hrev]. do 2 reads_step ltac:(first [by apply reads_u16|done]).
      reads_step ltac:(by apply reads_u16). reads_step ltac:(done). reads_step idtac.
      change (has_bits WATCH_RESUME WATCH_RESUME) with true. cbn iota.
      eapply (reads_end_bind _ _ (cu_boot_id c ++ to_le 8 (cu_revision c))); cbn beta;
        [|read_layout].
      reads_step idtac. rewrite <- (app_nil_r (to_le 8 _)). reads_step idtac.
      reads_step ltac:(lia). destruct c. apply reads_mret.
    + do 2 reads_step ltac:(first [by apply reads_u16|done]).
      reads_step ltac:(by apply reads_u16). reads_step ltac:(done). reads_step idtac.
      change (has_bits 0 WATCH_RESUME) with false. cbn iota.
      eapply reads_end_bind_nil; [apply reads_mret|]. cbn beta. read_layout.
  - intros bs v d' Hd H _. unfold Watch_read in H. dec_inv.
    pose proof (flag_of_bool x ltac:(lia) Hc0) as Hx. apply negb_false_iff, Z.eqb_eq in Hc. subst x1.
    change (has_bits x 1) with (has_bits x WATCH_RESUME) in Hx. revert Hp4 Hx.
    unfold Watch_bytes, Watch_wf, Watch_fits, Watch_flags, resume_bytes.
    destruct (has_bits x WATCH_RESUME); intros Hp4 ->; dec_inv;
      match goal with H : exts_ok _ |- _ => destruct H as (? & ? & ?) end; cbn in *.
    + rewrite app_nil_r, <- !app_assoc. split_and!; try done; unfold len in *; lia.
    + by rewrite app_nil_r.
Qed.

Definition WatchResult_wf (v : WatchResult) : Prop :=
  is_u32 (wr_subscription_id v) ∧ is_u64 (wr_current_revision v) ∧ exts_wf (wr_extensions v).

Definition WatchResult_bytes (v : WatchResult) : list byte :=
  to_le 4 (wr_subscription_id v) ++ [byte_of (WatchMode_u8 (wr_mode v))] ++ zeros 3 ++
  to_le 8 (wr_current_revision v) ++ tail_bytes (wr_extensions v).

Definition WatchResult_fits (v : WatchResult) : Prop :=
  (wr_subscription_id v =? 0) || (wr_current_revision v =? 0) = false ∧
  Extensions_validate (wr_extensions v) = Ok () ∧ len (entries_bytes (wr_extensions v)) <= U32_MAX.

Lemma WatchResult_encode_ok v out o :
  encode_to v out = Ok o ↔ o = out ++ WatchResult_bytes v ∧ WatchResult_fits v.
Proof.
  unfold encode_to, WatchResult_encode_to, WatchResult_bytes, WatchResult_fits. split.
  - intros H. enc_inv. split; [unfold push_u8 in *; bytes_eq|done].
  - intros (-> & H & Hv & Hl). enc_step. enc_step.
Qed.

Lemma WatchMode_roundtrip m : WatchMode_try_from (WatchMode_u8 m) = Ok m.
Proof. by destruct m. Qed.

Lemma WatchMode_try_from_ok z m : WatchMode_try_from z = Ok m → z = WatchMode_u8 m.
Proof. unfold WatchMode_try_from. intros H. split_match H; injection H as <-; cbn; lia. Qed.

#[export] Instance WatchResult_WireLaws : WireLaws WatchResult WatchResult_wf.
Proof.
  apply wire_laws_checked with (bytes := WatchResult_bytes) (read := WatchResult_read).
  - intros v out o. rewrite (encodable_iff _ _ v (WatchResult_encode_ok v)). apply WatchResult_encode_ok.
  - intros bs v. apply recheck_ok.
  - intros v (? & ? & ?) (_ & ? & ?)%(encodable_iff _ _ v (WatchResult_encode_ok v)).
    assert (exts_ok (wr_extensions v)) by done. unfold WatchResult_read, WatchResult_bytes.
    reads_step idtac. reads_step ltac:(apply reads_u8; by destruct (wr_mode v)).
    reads_step ltac:(apply WatchMode_roundtrip). reads_step ltac:(apply reads_zeros3).
    reads_step ltac:(by apply zeros3_ok). read_layout. destruct v. read_layout.
  - intros bs v d' Hd H. unfold WatchResult_read in H. dec_inv.
    match goal with H : negb _ = false |- _ => apply zeros3_ok in H as -> end.
    match goal with H : WatchMode_try_from _ = Ok _ |- _ => apply WatchMode_try_from_ok in H; subst end.
    match goal with H : exts_ok _ |- _ => destruct H as (? & _) end.
    unfold WatchResult_bytes, WatchResult_wf; cbn. by rewrite app_nil_r.
Qed.

Definition Unwatch_wf (v : Unwatch) : Prop := is_u32 (uw_subscription_id v).

#[export] Instance Unwatch_WireLaws : WireLaws Unwatch Unwatch_wf.
Proof.
  apply wire_laws_reader with (fits := λ v, (uw_subscription_id v =? 0) = false)
    (check := λ v, reject_if (uw_subscription_id v =? 0) (Invalid "zero subscription ID"))
    (bytes := λ v, to_le 4 (uw_subscription_id v)) (read := Unwatch_read).
  - intros v out o. unfold encode_to, Unwatch_encode_to. split.
    + intros H. enc_inv. split; [bytes_eq|done].
    + intros [-> H]. enc_run.
  - done.
  - intros v Hw Hz. split; [by apply reject_if_ok|]. unfold Unwatch_read, Unwatch_wf in *.
    read_layout. destruct v. read_layout.
  - intros bs v d' Hd H Hc. apply reject_if_ok in Hc. unfold Unwatch_read in H. dec_inv.
    cbn. by rewrite app_nil_r.
Qed.

Definition StateAck_wf (v : StateAck) : Prop :=
  is_u32 (ak_subscription_id v) ∧ is_u64 (ak_applied_revision v) ∧ is_u64 (ak_cumulative_byte_limit v).

#[export] Instance StateAck_WireLaws : WireLaws StateAck StateAck_wf.
Proof.
  apply wire_laws_reader with (fits := λ v, (ak_subscription_id v =? 0) = false)
    (check := λ v, reject_if (ak_subscription_id v =? 0) (Invalid "zero subscription ID"))
    (bytes := λ v, to_le 4 (ak_subscription_id v) ++ to_le 8 (ak_applied_revision v) ++
                   to_le 8 (ak_cumulative_byte_limit v)) (read := StateAck_read).
  - intros v out o. unfold encode_to, StateAck_encode_to. split.
    + intros H. enc_inv. split; [bytes_eq|done].
    + intros [-> H]. enc_run.
  - done.
  - intros v (? & ? & ?) Hz. split; [by apply reject_if_ok|]. unfold StateAck_read.
    read_layout. destruct v. read_layout.
  - intros bs v d' Hd H Hc. apply reject_if_ok in Hc. unfold StateAck_read in H. dec_inv.
    cbn. by rewrite app_nil_r.
Qed.

(** ** STATE *)

Definition StateRecord_wf (r : StateRecord) : Prop :=
  match re_kind r with Family k => is_u16 k | _ => True end.

Definition record_body (r : StateRecord) : list byte :=
  to_le 2 (RecordKind_wire (re_kind r)) ++ to_le 2 (of_bool (re_required r)) ++ re_body r.
Definition record_bytes (r : StateRecord) : list byte := lp32 (record_body r).

Definition StateRecord_fits (r : StateRecord) : Prop :=
  family_kind_reserved (re_kind r) = false ∧ 4 + len (re_body r) <= U32_MAX.

Lemma len_record_body r : len (record_body r) = 4 + len (re_body r).
Proof. unfold record_body. autorewrite with len. lia. Qed.

Lemma StateRecord_encode_ok r out o :
  StateRecord_encode_to r out = Ok o ↔ o = out ++ record_bytes r ∧ StateRecord_fits r.
Proof.
  unfold StateRecord_encode_to, StateRecord_fits, record_bytes, lp32. rewrite len_record_body.
  unfold record_body. rewrite reject_bind_ok. split.
  - intros [Hk H]. enc_inv. apply checked_add_u64_some in Hv as [-> _].
    split; [unfold put_u16; by rewrite <- !app_assoc|done].
  - intros (-> & Hk & Hl). split; [done|].
    assert (4 + len (re_body r) <= U64_MAX) as H64 by (unfold U64_MAX, U32_MAX in *; lia).
    rewrite (proj2 (checked_add_u64_some 4 _ _) (conj eq_refl H64)).
    cbn [ok_or mbind result_bind]. rewrite (proj2 (put_len_u32_ok out _ _) (conj eq_refl Hl)).
    cbn [mbind result_bind]. unfold put_u16. by rewrite <- !app_assoc.
Qed.

Lemma records_encode_ok rs out o :
  try_fold StateRecord_encode_to rs out = Ok o ↔
  o = out ++ concat (map record_bytes rs) ∧ Forall StateRecord_fits rs.
Proof.
  revert out. induction rs as [|r rs IH]; intros out; cbn.
  - rewrite app_nil_r. split; [by intros [= ->]|intros [-> _]; done].
  - rewrite bind_ok. setoid_rewrite StateRecord_encode_ok. rewrite Forall_cons_iff.
    setoid_rewrite IH. split.
    + intros (? & [-> ?] & -> & ?). by rewrite <- app_assoc.
    + intros (-> & ? & ?). eexists. split; [done|]. by rewrite <- app_assoc.
Qed.

(** What a receiver that knows [kinds] makes of a record: it keeps the ones it
    knows, skips the optional ones it does not, and refuses the rest. *)
Definition view_record (kinds : list Z) (r : StateRecord) : result Error (option StateRecord) :=
  match re_kind r with
  | Family k =>
      if existsb (Z.eqb k) kinds then Ok (Some r)
      else if re_required r then Err (Invalid "unknown required state record") else Ok None
  | _ => Ok (Some r)
  end.

Definition view_records (kinds : list Z) (rs : list StateRecord)
    : result Error (list StateRecord) :=
  xs ← mapM (view_record kinds) rs; Ok (omap id xs).

Lemma known_of_wire kinds r :
  family_kind_reserved (re_kind r) = false →
  RecordKind_known (RecordKind_wire (re_kind r)) kinds =
  match re_kind r with
  | Family k => if existsb (Z.eqb k) kinds then Some (re_kind r) else None
  | _ => Some (re_kind r)
  end.
Proof.
  unfold family_kind_reserved, RecordKind_known, RecordKind_wire.
  destruct (re_kind r) as [| | | |k]; try done. intros Hr.
  change (as_u16 state_RECORD_REMOVE) with 3 in *. change (as_u16 state_RECORD_ADD) with 0.
  change (as_u16 state_RECORD_REPLACE) with 1. change (as_u16 state_RECORD_PATCH) with 2.
  repeat case_match; try lia; done.
Qed.

Lemma record_flags_facts b :
  is_u16 (of_bool b) ∧ has_other_bits (of_bool b) 1 = false ∧ has_bits (of_bool b) 1 = b.
Proof. by destruct b. Qed.

(** [answers p bs r]: over a decoder that starts with [bs], [p] returns what [r]
    says: its value with exactly [bs] consumed, or its error. *)
Definition answers {A} (p : decoder A) (bs : list byte) (r : result Error A) : Prop :=
  ∀ d rest, dec_at d (bs ++ rest) →
  match r with
  | Ok a => ∃ d', p d = Ok (a, d') ∧ dec_at d' rest
  | Err e => p d = Err e
  end.

Lemma answers_bind {A B} (p : decoder A) (k : A → decoder B) bs1 bs2 a r :
  reads p bs1 a → answers (k a) bs2 r → answers (p ≫= k) (bs1 ++ bs2) r.
Proof.
  intros Hp Hk d rest Hd. rewrite <- app_assoc in Hd. destruct (Hp _ _ Hd) as (d1 & E & Hd1).
  specialize (Hk _ _ Hd1). unfold mbind, decoder_bind. by rewrite E.
Qed.

Lemma answers_fail_bind {A B} e (k : A → decoder B) bs : answers (fail e ≫= k) bs (Err e).
Proof. intros d rest _. done. Qed.

Lemma answers_lift {A} (r : result Error A) : answers (lift r) [] r.
Proof. intros d rest Hd. destruct r; [by exists d|done]. Qed.

Lemma answers_run {A} (p : decoder A) bs e :
  answers p bs (Err e) → len bs <= ISIZE_MAX → run p (Decoder_new bs) = Err e.
Proof.
  intros H Hl. unfold run. rewrite (H (Decoder_new bs) []); [done|].
  rewrite app_nil_r. by apply dec_at_new.
Qed.

Lemma answers_repeat {A B} (p : decoder B) (enc : A → list byte) (view : A → result Error B) l :
  Forall (λ a, answers p (enc a) (view a)) l →
  answers (dec_repeat (length l) p) (concat (map enc l)) (mapM view l).
Proof.
  induction l as [|x l IH]; intros HF d rest Hd; [by exists d|].
  apply Forall_cons_iff in HF as [Hx HF]. cbn in Hd. rewrite <- app_assoc in Hd.
  specialize (Hx _ _ Hd). cbn. unfold mbind, decoder_bind, result_bind.
  destruct (view x) as [y|e]; [|by rewrite Hx].
  destruct Hx as (d1 & -> & Hd1). specialize (IH HF _ _ Hd1).
  destruct (mapM view l) as [ys|e]; [|by rewrite IH].
  destruct IH as (d2 & -> & Hd2). by exists d2.
Qed.

(** Reading the body of one record. *)
Lemma run_record_ok kinds r x :
  StateRecord_wf r → StateRecord_fits r →
  match RecordKind_known (RecordKind_wire (re_kind r)) kinds with
  | Some kind => x = Some (mkRecord kind (re_required r) (re_body r))
  | None => re_required r = false ∧ x = None
  end →
  run (StateRecord_read kinds) (Decoder_new (record_body r)) = Ok x.
Proof.
  intros Hw [Hk Hl] Hx. destruct (record_flags_facts (re_required r)) as (Hf & Ho & Hb).
  assert (is_u16 (RecordKind_wire (re_kind r))) as Hwire
    by (unfold StateRecord_wf in Hw; destruct (re_kind r); done).
  apply run_reads_end; [|rewrite len_record_body; unfold ISIZE_MAX, U32_MAX in *; lia].
  unfold StateRecord_read, record_body.
  reads_step idtac. reads_step ltac:(by apply reads_u16). reads_step ltac:(exact Ho).
  rewrite Hb. destruct (RecordKind_known _ kinds) as [kind|].
  - subst x. eapply reads_end_bind_all; [|read_layout].
    eapply reads_end_bind_all; [apply reads_end_rest|apply reads_end_mret].
  - destruct Hx as [-> ->]. cbn [negb]. eapply reads_end_bind_all; [|read_layout].
    eapply reads_end_bind_all; [apply reads_end_rest|apply reads_end_mret].
Qed.

Lemma run_record kinds r :
  StateRecord_wf r → StateRecord_fits r →
  run (StateRecord_read kinds) (Decoder_new (record_body r)) = view_record kinds r.
Proof.
  intros Hw HF. pose proof (run_record_ok kinds r) as Hok. pose proof HF as [Hk Hl].
  pose proof (known_of_wire kinds r Hk) as Hkn. unfold view_record.
  destruct (re_kind r) as [| | | |k] eqn:Er;
    try (apply Hok; [done|done|]; rewrite Hkn; destruct r; cbn in *; by subst).
  destruct (existsb (Z.eqb k) kinds); [apply Hok; [done|done|]; rewrite Hkn; destruct r; cbn in *; by subst|].
  destruct (re_required r) eqn:Eq; [|apply Hok; [done|done|by rewrite Hkn]].
  apply answers_run; [|rewrite len_record_body; unfold ISIZE_MAX, U32_MAX in *; lia].
  unfold record_body, StateRecord_read. rewrite Er, Eq. unfold StateRecord_wf in Hw. rewrite Er in Hw.
  eapply answers_bind; [by apply reads_u16|]. eapply answers_bind; [by apply (reads_u16 1)|].
  rewrite <- (app_nil_l (re_body r)). eapply answers_bind; [by apply reads_reject|].
  cbn [RecordKind_wire] in Hkn |- *. rewrite Hkn. apply answers_fail_bind.
Qed.

Lemma answers_record kinds r :
  StateRecord_wf r → StateRecord_fits r → answers (dec_record kinds) (record_bytes r) (view_record kinds r).
Proof.
  intros Hw HF. pose proof HF as [_ Hl]. pose proof (len_nonneg (re_body r)).
  pose proof (len_record_body r) as Hb. unfold dec_record, record_bytes, lp32.
  eapply answers_bind; [apply reads_u32; unfold U32_MAX in *; lia|].
  rewrite <- (app_nil_l (record_body r)) at 2.
  eapply answers_bind; [apply reads_reject; apply Z.ltb_ge; lia|].
  rewrite <- (app_nil_r (record_body r)) at 2.
  eapply answers_bind; [by apply reads_take|]. rewrite run_record by done. apply answers_lift.
Qed.

Definition StateEvent_wf (v : StateEvent) : Prop :=
  is_u32 (se_subscription_id v) ∧ is_u8 (se_flags v) ∧ is_u64 (se_from_revision v) ∧
  is_u64 (se_to_revision v) ∧ Forall StateRecord_wf (se_records v).

Definition event_header (v : StateEvent) : list byte :=
  to_le 4 (se_subscription_id v) ++ [byte_of (Phase_u8 (se_phase v))] ++ [byte_of (se_flags v)] ++
  to_le 2 0 ++ to_le 8 (se_from_revision v) ++ to_le 8 (se_to_revision v) ++
  to_le 2 (len (se_records v)).

Lemma StateEvent_validate_ok v :
  StateEvent_validate v = Ok () ↔
  se_subscription_id v ≠ 0 ∧ se_to_revision v ≠ 0 ∧ revision_transition_ok v = true ∧
  (is_marker (se_phase v) = true → se_records v = []) ∧ len (se_records v) <= HARD_MAX_TYPED_RECORDS.
Proof.
  unfold StateEvent_validate. rewrite !reject_bind_ok, reject_if_ok, negb_false_iff.
  destruct (is_marker (se_phase v)), (se_records v); cbn [is_nil negb andb];
    rewrite orb_false_iff, !Z.eqb_neq, Z.ltb_ge; naive_solver.
Qed.

Lemma StateEvent_encode_ok v bs :
  encode v = Ok bs ↔
  bs = event_header v ++ concat (map record_bytes (se_records v)) ∧
  StateEvent_validate v = Ok () ∧ Forall StateRecord_fits (se_records v).
Proof.
  unfold encode, encode_to, StateEvent_encode_to. rewrite bind_ok. unfold event_header. split.
  - intros ([] & Hv & H). apply bind_ok in H as (n & Hn & H).
    apply ok_or_ok in Hn. unfold try_u16 in Hn. split_match Hn. injection Hn as <-.
    apply records_encode_ok in H as [-> ?]. split; [|done].
    unfold put_u16, put_u32, put_u64, push_u8. by rewrite <- !app_assoc.
  - intros (-> & Hv & HF). exists (). split; [done|].
    apply StateEvent_validate_ok in Hv as (_ & _ & _ & _ & Hl). unfold try_u16.
    replace (len (se_records v) <=? U16_MAX) with true
      by (symmetry; apply Z.leb_le; unfold HARD_MAX_TYPED_RECORDS, U16_MAX in *; lia).
    cbn [ok_or mbind result_bind]. apply records_encode_ok. split; [|done].
    unfold put_u16, put_u32, put_u64, push_u8. by rewrite <- !app_assoc.
Qed.

Lemma Phase_try_from_u8 p : is_u8 (Phase_u8 p) ∧ Phase_try_from (Phase_u8 p) = Ok p.
Proof. destruct p; done. Qed.

Lemma length_omap_le {A B} (f : A → option B) l : (length (omap f l) <= length l)%nat.
Proof. induction l as [|x l IH]; cbn; [lia|]. destruct (f x); cbn; lia. Qed.

Lemma length_mapM {E A B} (f : A → result E B) l k : mapM f l = Ok k → length k = length l.
Proof.
  revert k. induction l as [|x l IH]; intros k H; [by injection H as <-|]. cbn in H.
  apply bind_ok in H as (y & _ & (ys & Hy & [= <-])%bind_ok). cbn. by rewrite (IH _ Hy).
Qed.

(** The event with its records replaced by the ones a receiver keeps. *)
Definition with_records (v : StateEvent) (rs : list StateRecord) : StateEvent :=
  mkState (se_subscription_id v) (se_phase v) (se_flags v) (se_from_revision v)
    (se_to_revision v) rs.

(** Dropping records never invalidates an event. *)
Lemma validate_fewer v rs :
  StateEvent_validate v = Ok () → (length rs <= length (se_records v))%nat →
  StateEvent_validate (with_records v rs) = Ok ().
Proof.
  rewrite !StateEvent_validate_ok. intros (? & ? & ? & Hm & Hl) Hle. cbn.
  split; [done|]. split; [done|]. split; [done|]. split; [|unfold len in *; lia].
  intros Hk. specialize (Hm Hk). rewrite Hm in Hle. destruct rs; [done|cbn in Hle; lia].
Qed.

Ltac answers_step :=
  lazymatch goal with
  | |- answers (reject _ _ ≫= _) ?bs _ =>
      rewrite <- (app_nil_l bs); eapply answers_bind; [apply reads_reject; first [done|lia]|cbn beta]
  | |- answers (lift _ ≫= _) ?bs _ =>
      rewrite <- (app_nil_l bs); eapply answers_bind; [apply reads_lift; done|cbn beta]
  | |- answers (_ ≫= _) (_ ++ _) _ =>
      eapply answers_bind; [solve [eauto with reads]|cbn beta]
  end.

(** The whole event, over the result of reading its records. *)
Lemma answers_event v allowed kinds :
  StateEvent_wf v → StateEvent_validate v = Ok () → Forall StateRecord_fits (se_records v) →
  has_other_bits (se_flags v) allowed = false →
  len (event_header v ++ concat (map record_bytes (se_records v))) <= ISIZE_MAX →
  run (StateEvent_read allowed kinds)
      (Decoder_new (event_header v ++ concat (map record_bytes (se_records v)))) =
  (rs ← view_records kinds (se_records v); Ok (with_records v rs)).
Proof.
  intros (H1 & H2 & H3 & H4 & H5) Hv HF Hfl Hlen.
  apply StateEvent_validate_ok in Hv as (_ & _ & _ & _ & Hl).
  destruct (Phase_try_from_u8 (se_phase v)) as [Hp8 Hp].
  assert (is_u16 (len (se_records v))) as Hu
    by (pose proof (len_nonneg (se_records v)); unfold HARD_MAX_TYPED_RECORDS in *; lia).
  assert (answers (dec_repeat (Z.to_nat (len (se_records v))) (dec_record kinds))
            (concat (map record_bytes (se_records v))) (mapM (view_record kinds) (se_records v))) as Hr.
  { unfold len. rewrite Nat2Z.id. apply answers_repeat. rewrite Forall_forall in *. intros r Hin.
    by apply answers_record; auto. }
  unfold view_records. destruct (mapM _ _) as [xs|e] eqn:Em; cbn [mbind result_bind].
  - apply run_reads_end; [|done]. unfold event_header. rewrite <- !app_assoc.
    unfold StateEvent_read.
    do 11 reads_step ltac:(first [done|apply Hp|exact Hfl|apply Z.ltb_ge; lia]).
    eapply reads_end_bind_last; [exact Hr|]. read_layout.
  - apply answers_run; [|done]. unfold event_header. rewrite <- !app_assoc.
    unfold StateEvent_read. repeat answers_step.
    intros d rest Hd. unfold mbind, decoder_bind. by rewrite (Hr d rest Hd).
Qed.

(** A STATE event crosses versions. For every well-formed event that encodes,
    and every receiver that allows its flags and knows the family record kinds
    [kinds], decoding returns the same event with the optional records of
    unknown kind dropped and everything else kept, in order; if a required
    record has an unknown kind the event is refused, with that error. *)
Theorem state_event_forward_compatible v bs allowed kinds :
  StateEvent_wf v → encode v = Ok bs → len bs <= ISIZE_MAX →
  has_other_bits (se_flags v) allowed = false →
  StateEvent_decode_with bs allowed kinds =
  (rs ← view_records kinds (se_records v); Ok (with_records v rs)).
Proof.
  intros Hw (-> & Hv & HF)%StateEvent_encode_ok Hlen Hfl. unfold StateEvent_decode_with.
  rewrite answers_event by done. unfold view_records.
  destruct (mapM _ _) as [xs|e] eqn:Em; cbn [mbind result_bind]; [|done].
  rewrite validate_fewer; [done|done|]. rewrite <- (length_mapM _ _ _ Em). apply length_omap_le.
Qed.

Definition sample_event : StateEvent :=
  mkState 7 Delta 1 4 5
    [mkRecord Add true [Byte.x61]; mkRecord (Family 9) false [Byte.x62]; mkRecord (Family 8) true []].

Definition sample_bytes : list byte :=
  Eval vm_compute in (match encode sample_event with Ok bs => bs | Err _ => [] end).

Lemma state_event_forward_compatible_witness :
  StateEvent_decode_with sample_bytes 1 [8] =
    Ok (with_records sample_event [mkRecord Add true [Byte.x61]; mkRecord (Family 8) true []]) ∧
  StateEvent_decode_with sample_bytes 1 [9] = Err (Invalid "unknown required state record").
Proof.
  assert (StateEvent_wf sample_event) as Hw by (repeat split; repeat constructor; lia || done).
  assert (encode sample_event = Ok sample_bytes) as He by (vm_compute; reflexivity).
  assert (len sample_bytes <= ISIZE_MAX) as Hl by (vm_compute; discriminate).
  split.
  - exact (state_event_forward_compatible sample_event sample_bytes 1 [8] Hw He Hl eq_refl).
  - exact (state_event_forward_compatible sample_event sample_bytes 1 [9] Hw He Hl eq_refl).
Defined.
