(* ===== verification/Uplink.v ===== *)
(** * Uplink: sealed datagrams of [crates/uplink/src/datagram.rs]

    The sender's packet counter, the epoch keys, and the receiver with its
    128-packet replay window. HKDF and AES-GCM (the [ring] or [aws-lc] crate
    behind [crate::crypto]) are parameters. *)

From S2P Require Import Prelude.

Definition REKEY_INTERVAL : Z := Z.shiftl 1 20.
Definition DATAGRAM_OVERHEAD : Z := 8 + 16.
Definition MAX_PLAINTEXT : Z := 65536 - DATAGRAM_OVERHEAD.
(** b"YAS-UPLINK-v2-datagram" *)
Definition KEY_LABEL : list byte :=
  bytes_of [89; 65; 83; 45; 85; 80; 76; 73; 78; 75; 45; 118; 50; 45; 100; 97; 116; 97; 103; 114; 97; 109].

(** [u64::to_be_bytes] and [from_be_bytes] *)
Definition to_be (n : nat) (z : Z) : list byte := rev (to_le n z).
Definition from_be (bs : list byte) : Z := from_le (rev bs).

(** Twelve bytes: four zeros, then the counter. *)
Definition nonce (sequence : Z) : list byte := zeros 4 ++ to_be 8 sequence.
Definition aad (token : list byte) (sequence : Z) : list byte := token ++ to_be 8 sequence.

Section Datagrams.
Context {Key : Type}.
(** HKDF-SHA256 with salt and input key material, expanded to an AES-256 key. *)
Context (hkdf_key : list byte → list byte → list (list byte) → Key).
(** AES-256-GCM: key, nonce, associated data, text. *)
Context (aead_seal : Key → list byte → list byte → list byte → option (list byte)).
Context (aead_open : Key → list byte → list byte → list byte → option (list byte)).

Record KeyState := mkKeys {
  ks_root : list byte; ks_token : list byte; ks_direction : Z; ks_cached : option (Z * Key)
}.

Definition KeyState_new (root token : list byte) (direction : Z) : KeyState :=
  mkKeys root token direction None.

Definition KeyState_derive (k : KeyState) (epoch : Z) : Key :=
  hkdf_key (ks_token k) (ks_root k) [KEY_LABEL; [byte_of (ks_direction k)]; to_be 8 epoch].

Definition set_cached (k : KeyState) (c : option (Z * Key)) : KeyState :=
  mkKeys (ks_root k) (ks_token k) (ks_direction k) c.

(** [self.keys.cached.as_ref().is_none_or(|(cached, _)| *cached != epoch)] *)
Definition cache_misses (k : KeyState) (epoch : Z) : bool :=
  match ks_cached k with None => true | Some (cached, _) => negb (cached =? epoch) end.

Record DatagramSender := mkSender { ds_keys : KeyState; ds_sequence : option Z }.
Record DatagramReceiver := mkDgReceiver {
  dr_keys : KeyState; dr_highest : option Z; dr_window : Z
}.

(** [None] is the panic of [expect] on key material that is not 64 bytes. *)
Definition datagram_pair (material token : list byte) (client : bool)
    : option (DatagramSender * DatagramReceiver) :=
  if len material =? 64 then
    let c2s := KeyState_new (take 32 material) token 0 in
    let s2c := KeyState_new (drop 32 material) token 1 in
    let '(send, receive) := if client then (c2s, s2c) else (s2c, c2s) in
    Some (mkSender send (Some 0), mkDgReceiver receive None 0)
  else None.

(** [a.checked_add(1)] on [u64] is [checked_add_u64 a 1]. *)
Definition seal (s : DatagramSender) (plaintext : list byte) : option (list byte) * DatagramSender :=
  if MAX_PLAINTEXT <? len plaintext then (None, s) else
  match ds_sequence s with
  | None => (None, s)
  | Some sequence =>
      let epoch := sequence / REKEY_INTERVAL in
      let keys := if cache_misses (ds_keys s) epoch
                  then set_cached (ds_keys s) (Some (epoch, KeyState_derive (ds_keys s) epoch))
                  else ds_keys s in
      let s := mkSender keys (checked_add_u64 sequence 1) in
      match ks_cached keys with
      | None => (None, s)
      | Some (_, key) =>
          match aead_seal key (nonce sequence) (aad (ks_token keys) sequence) plaintext with
          | None => (None, s)
          | Some ciphertext => (Some (to_be 8 sequence ++ ciphertext), s)
          end
      end
  end.

(** The replay check: [behind >= 128 || window & (1 << behind) != 0]. *)
Definition replayed (r : DatagramReceiver) (sequence : Z) : bool :=
  match dr_highest r with
  | Some highest =>
      (sequence <=? highest)
      && ((128 <=? highest - sequence)
          || negb (Z.land (dr_window r) (Z.shiftl 1 (highest - sequence)) =? 0))
  | None => false
  end.

(** [window.checked_shl(n).unwrap_or(0)] on [u128] *)
Definition checked_shl_u128 (window n : Z) : Z :=
  if n <? 128 then (Z.shiftl window n) mod 2 ^ 128 else 0.

(** [highest] and [window] after a packet is authenticated. *)
Definition note_sequence (highest : option Z) (window sequence : Z) : option Z * Z :=
  match highest with
  | Some h =>
      if sequence <=? h then (Some h, Z.lor window (Z.shiftl 1 (h - sequence)))
      else (Some sequence, Z.lor (checked_shl_u128 window (Z.min (sequence - h) 128)) 1)
  | None => (Some sequence, 1)
  end.

Definition open (r : DatagramReceiver) (packet : list byte)
    : option (list byte) * DatagramReceiver :=
  if negb ((DATAGRAM_OVERHEAD <=? len packet) && (len packet <=? 65536)) then (None, r) else
  let sequence := from_be (take 8 packet) in
  if replayed r sequence then (None, r) else
  let epoch := sequence / REKEY_INTERVAL in
  let candidate := if cache_misses (dr_keys r) epoch
                   then Some (KeyState_derive (dr_keys r) epoch) else None in
  match match candidate with Some k => Some k | None => snd <$> ks_cached (dr_keys r) end with
  | None => (None, r)
  | Some key =>
      match aead_open key (nonce sequence) (aad (ks_token (dr_keys r)) sequence) (drop 8 packet) with
      | None => (None, r)
      | Some plaintext =>
          let keys := match candidate with
                      | Some k => set_cached (dr_keys r) (Some (epoch, k))
                      | None => dr_keys r
                      end in
          let '(highest, window) := note_sequence (dr_highest r) (dr_window r) sequence in
          (Some plaintext, mkDgReceiver keys highest window)
      end
  end.

End Datagrams.
Arguments KeyState : clear implicits.
Arguments DatagramSender : clear implicits.
Arguments DatagramReceiver : clear implicits.
