(* ===== verification/UplinkFacts.v ===== *)
(** * UplinkFacts: replay protection, authentication order and delivery *)

From S2P Require Import Prelude Uplink.

(** ** Big-endian counters *)

Lemma length_to_be n z : length (to_be n z) = n.
Proof. unfold to_be. by rewrite length_rev, length_to_le. Qed.
Lemma len_to_be n z : len (to_be n z) = Z.of_nat n.
Proof. unfold len. by rewrite length_to_be. Qed.
Lemma from_to_be n z : 0 <= z < 2 ^ (Z.of_nat n * 8) → from_be (to_be n z) = z.
Proof. intros H. unfold from_be, to_be. rewrite rev_involutive. by apply from_to_le. Qed.
Lemma from_be_nonneg bs : 0 <= from_be bs.
Proof. apply from_le_bound. Qed.

(** ** The replay window as a set *)

(** [highest] and [window] are the trace of the sequences accepted so far: the
    newest one, and which of the 128 up to it. *)
Definition window_of (accepted : list Z) (highest : option Z) (window : Z) : Prop :=
  match highest with
  | None => accepted = []
  | Some h =>
      h ∈ accepted ∧ (∀ s, s ∈ accepted → s <= h) ∧
      ∀ i, 0 <= i < 128 → Z.testbit window i = true ↔ h - i ∈ accepted
  end.

Lemma land_bit w b : 0 <= b → negb (Z.land w (Z.shiftl 1 b) =? 0) = Z.testbit w b.
Proof.
  intros Hb. destruct (Z.testbit w b) eqn:E.
  - apply negb_true_iff, Z.eqb_neq. intros H. apply (f_equal (fun z => Z.testbit z b)) in H.
    rewrite Z.land_spec, Z.bits_0, E, Z.shiftl_spec, Z.sub_diag in H by lia. discriminate H.
  - apply negb_false_iff, Z.eqb_eq. apply Z.bits_inj'. intros i Hi.
    rewrite Z.land_spec, Z.bits_0, Z.shiftl_spec by lia.
    destruct (Z.eq_dec i b) as [->|Hne]; [by rewrite E|].
    destruct (Z.ltb_spec i b); [rewrite (Z.testbit_neg_r 1) by lia; apply andb_false_r|].
    replace (Z.testbit 1 (i - b)) with false; [apply andb_false_r|].
    symmetry. change 1 with (2 ^ 0). apply Z.pow2_bits_false. lia.
Qed.

Lemma testbit_one i : 0 <= i → Z.testbit 1 i = (i =? 0).
Proof.
  intros Hi. change 1 with (2 ^ 0) at 1. destruct (Z.eqb_spec i 0) as [->|Hne]; [done|].
  apply Z.pow2_bits_false. lia.
Qed.

Lemma testbit_shl_u128 w n i : 0 <= n → 0 <= i < 128 →
  Z.testbit (checked_shl_u128 w n) i = (n <=? i) && Z.testbit w (i - n).
Proof.
  intros Hn Hi. unfold checked_shl_u128. destruct (Z.ltb_spec n 128).
  - rewrite Z.mod_pow2_bits_low, Z.shiftl_spec by lia. destruct (Z.leb_spec n i); [done|].
    cbn. apply Z.testbit_neg_r. lia.
  - rewrite Z.bits_0. symmetry. apply andb_false_iff. left. lia.
Qed.

Section Window.
Context {Key : Type}.
Implicit Types r : DatagramReceiver Key.

(** The replay check refuses what was accepted, and what is too old to know. *)
Lemma replayed_iff r accepted seq :
  window_of accepted (dr_highest r) (dr_window r) →
  replayed r seq = false ↔ (seq ∉ accepted) ∧ ∀ s, s ∈ accepted → s - seq < 128.
Proof.
  unfold window_of, replayed. destruct (dr_highest r) as [h|].
  2:{ intros ->. set_solver. }
  intros (Hh & Hmax & Hbit). destruct (Z.leb_spec seq h) as [Hle|Hgt]; cbn [andb].
  - rewrite land_bit, orb_false_iff by lia. split.
    + intros [Hw Hb]. split.
      * intros Hin. replace seq with (h - (h - seq)) in Hin by lia.
        apply Hbit in Hin; [congruence|lia].
      * intros s Hs%Hmax. lia.
    + intros [Hnin Hs]. specialize (Hs h Hh). split; [lia|].
      destruct (Z.testbit (dr_window r) (h - seq)) eqn:E; [|done]. apply Hbit in E; [|lia].
      replace (h - (h - seq)) with seq in E by lia. done.
  - split; [|done]. intros _. split; [intros Hs%Hmax; lia|intros s Hs%Hmax; lia].
Qed.

Lemma note_old h w accepted seq :
  window_of accepted (Some h) w → seq <= h → h - seq < 128 →
  window_of (seq :: accepted) (Some h) (Z.lor w (Z.shiftl 1 (h - seq))).
Proof.
  intros (Hh & Hmax & Hbit) Hle Hb. split; [by right|]. split.
  { intros s [->|Hs]%elem_of_cons; auto. }
  intros i Hi. rewrite Z.lor_spec, Z.shiftl_spec, orb_true_iff, Hbit, elem_of_cons by lia.
  destruct (Z.ltb_spec i (h - seq)).
  - rewrite Z.testbit_neg_r by lia. split; [intros [?|?]; auto; discriminate|].
    intros [?|?]; [lia|auto].
  - rewrite testbit_one by lia. split; intros [?|?]; auto; [left; lia|right; lia].
Qed.

Lemma note_new h w accepted seq :
  window_of accepted (Some h) w → h < seq →
  window_of (seq :: accepted) (Some seq) (Z.lor (checked_shl_u128 w (Z.min (seq - h) 128)) 1).
Proof.
  intros (Hh & Hmax & Hbit) Hgt. split; [by left|]. split.
  { intros s [->|Hs%Hmax]%elem_of_cons; lia. }
  intros i Hi. rewrite Z.lor_spec, orb_true_iff, testbit_one, testbit_shl_u128, elem_of_cons by lia.
  rewrite andb_true_iff. split.
  - intros [[Hn Hw]|Hi0]; [right|left; lia].
    apply Z.leb_le in Hn. rewrite Z.min_l in Hn, Hw by lia. apply Hbit in Hw; [|lia].
    replace (h - (i - (seq - h))) with (seq - i) in Hw by lia. done.
  - intros [?|Hin]; [right; lia|]. pose proof (Hmax _ Hin). left.
    rewrite Z.min_l by lia. split; [lia|]. apply Hbit; [lia|].
    by replace (h - (i - (seq - h))) with (seq - i) by lia.
Qed.

Lemma note_sequence_window r accepted seq :
  window_of accepted (dr_highest r) (dr_window r) → replayed r seq = false →
  let '(h, w) := note_sequence (dr_highest r) (dr_window r) seq in window_of (seq :: accepted) h w.
Proof.
  intros HW Hr. pose proof HW as HW'. apply (replayed_iff r accepted seq) in HW'.
  apply HW' in Hr as [Hnin Hs]. unfold note_sequence.
  destruct (dr_highest r) as [h|].
  - destruct (Z.leb_spec seq h).
    + apply note_old; [done|done|]. apply Hs. apply HW.
    + by apply note_new.
  - cbn in HW. subst accepted. split; [by left|]. split; [intros s ->%list_elem_of_singleton; lia|].
    intros i Hi. rewrite testbit_one, list_elem_of_singleton by lia. lia.
Qed.
End Window.

(** ** Histories *)

Section Datagrams.
Context {Key : Type}.
Context (hkdf_key : list byte → list byte → list (list byte) → Key).
Context (aead_seal : Key → list byte → list byte → list byte → option (list byte)).
Context (aead_open : Key → list byte → list byte → list byte → option (list byte)).

Abbreviation seal' := (seal hkdf_key aead_seal).
Abbreviation open' := (open hkdf_key aead_open).
Abbreviation derive := (KeyState_derive hkdf_key).

Definition packet_sequence (packet : list byte) : Z := from_be (take 8 packet).

(** The receivers reachable from fresh keys over any packets an adversary may
    deliver, with the sequences accepted so far. *)
Inductive received (keys : KeyState Key) : list Z → DatagramReceiver Key → Prop :=
| received_new : received keys [] (mkDgReceiver keys None 0)
| received_accepted seqs r packet plaintext r' :
    received keys seqs r → open' r packet = (Some plaintext, r') →
    received keys (packet_sequence packet :: seqs) r'
| received_refused seqs r packet r' :
    received keys seqs r → open' r packet = (None, r') → received keys seqs r'.

(** The senders reachable from fresh keys, with the sequences used so far. *)
Inductive sent (keys : KeyState Key) : list Z → DatagramSender Key → Prop :=
| sent_new : sent keys [] (mkSender keys (Some 0))
| sent_packet seqs s plaintext packet s' :
    sent keys seqs s → seal' s plaintext = (Some packet, s') →
    sent keys (packet_sequence packet :: seqs) s'
| sent_nothing seqs s plaintext s' :
    sent keys seqs s → seal' s plaintext = (None, s') → sent keys seqs s'.

(** The key cache: it belongs to these keys and holds the key of its epoch. *)
Definition cache_of (keys k : KeyState Key) : Prop :=
  ks_root k = ks_root keys ∧ ks_token k = ks_token keys ∧ ks_direction k = ks_direction keys ∧
  match ks_cached k with None => True | Some (e, key) => key = derive keys e end.

Lemma cache_derive keys k e : cache_of keys k → derive k e = derive keys e.
Proof. intros (E1 & E2 & E3 & _). unfold KeyState_derive. by rewrite E1, E2, E3. Qed.

Lemma cache_set keys k e :
  cache_of keys k → cache_of keys (set_cached k (Some (e, derive k e))).
Proof.
  intros H. rewrite (cache_derive keys k e H). destruct H as (? & ? & ? & _).
  unfold cache_of, set_cached; cbn. done.
Qed.

Lemma cache_hit keys k e :
  cache_of keys k → cache_misses k e = false → snd <$> ks_cached k = Some (derive keys e).
Proof.
  intros (_ & _ & _ & H). unfold cache_misses. destruct (ks_cached k) as [[e' key]|]; [|done].
  intros He%negb_false_iff%Z.eqb_eq. subst. done.
Qed.

(** What [open] does on keys with a sound cache: the packet is judged under
    the key of its own epoch. *)
Lemma open_eq keys r packet :
  cache_of keys (dr_keys r) →
  let seq := packet_sequence packet in
  open' r packet =
  if (DATAGRAM_OVERHEAD <=? len packet) && (len packet <=? 65536) && negb (replayed r seq) then
    match aead_open (derive keys (seq / REKEY_INTERVAL)) (nonce seq) (aad (ks_token keys) seq)
            (drop 8 packet) with
    | None => (None, r)
    | Some plaintext =>
        let '(h, w) := note_sequence (dr_highest r) (dr_window r) seq in
        (Some plaintext,
         mkDgReceiver (if cache_misses (dr_keys r) (seq / REKEY_INTERVAL)
                       then set_cached (dr_keys r) (Some (seq / REKEY_INTERVAL,
                              derive (dr_keys r) (seq / REKEY_INTERVAL)))
                       else dr_keys r) h w)
    end
  else (None, r).
Proof.
  intros Hc. cbn. unfold open. fold (packet_sequence packet).
  destruct (_ && _); cbn [negb andb]; [|done].
  destruct (replayed r (packet_sequence packet)); cbn [negb]; [done|].
  assert (ks_token (dr_keys r) = ks_token keys) as -> by apply Hc.
  destruct (cache_misses (dr_keys r) (packet_sequence packet / REKEY_INTERVAL)) eqn:Em.
  - by rewrite <- (cache_derive keys _ _ Hc).
  - by rewrite (cache_hit keys _ _ Hc Em).
Qed.

(** The invariant of the reachable receivers. *)
Lemma received_inv keys seqs r :
  received keys seqs r → ks_cached keys = None →
  cache_of keys (dr_keys r) ∧ window_of seqs (dr_highest r) (dr_window r) ∧ NoDup seqs.
Proof.
  intros HR Hk. induction HR as [|seqs r packet pt r' _ (Hc & HW & HN) H|seqs r packet r' _ (Hc & HW & HN) H].
  - split; [|split; [done|constructor]]. unfold cache_of; cbn. by rewrite Hk.
  - rewrite (open_eq keys) in H by done. destruct (_ && _) eqn:Eg; [|discriminate H].
    apply andb_true_iff in Eg as [_ Hr%negb_true_iff].
    destruct (aead_open _ _ _ _) as [pt'|]; [|discriminate H].
    pose proof (note_sequence_window r seqs (packet_sequence packet) HW Hr) as HW'.
    destruct (note_sequence _ _ _) as [h w]. injection H as _ <-. cbn. split; [|split; [done|]].
    + destruct (cache_misses _ _); [by apply cache_set|done].
    + constructor; [|done]. by apply (replayed_iff r seqs).
  - rewrite (open_eq keys) in H by done. destruct (_ && _); [|by injection H as <-].
    destruct (aead_open _ _ _ _); [|by injection H as <-].
    destruct (note_sequence _ _ _). discriminate H.
Qed.

(** C5: no datagram is ever delivered twice: whatever packets arrive, in
    whatever order, the sequences the receiver accepts are distinct. *)
Theorem no_sequence_accepted_twice keys seqs r :
  ks_cached keys = None → received keys seqs r → NoDup seqs.
Proof. intros Hk HR. by apply (received_inv keys seqs r). Qed.

(** Exactly which packets are delivered, after any history: those of legal
    size that authenticate under the key of their own epoch, whose sequence was
    not accepted before and is less than 128 behind every accepted one. Loss
    and reordering within the window lose nothing else. *)
Theorem open_accepts_exactly keys seqs r packet plaintext :
  ks_cached keys = None → received keys seqs r →
  let seq := packet_sequence packet in
  (open' r packet).1 = Some plaintext ↔
  DATAGRAM_OVERHEAD <= len packet <= 65536 ∧ (seq ∉ seqs) ∧ (∀ s, s ∈ seqs → s - seq < 128) ∧
  aead_open (derive keys (seq / REKEY_INTERVAL)) (nonce seq) (aad (ks_token keys) seq)
    (drop 8 packet) = Some plaintext.
Proof.
  intros Hk HR. cbn. destruct (received_inv keys seqs r HR Hk) as (Hc & HW & _).
  rewrite (open_eq keys) by done.
  pose proof (replayed_iff r seqs (packet_sequence packet) HW) as Hrep.
  destruct (_ && _) eqn:Eg.
  - apply andb_true_iff in Eg as [Hl Hr%negb_true_iff]. apply Hrep in Hr as [? ?].
    destruct (aead_open _ _ _ _) as [pt|].
    + destruct (note_sequence _ _ _) as [h w]. cbn. split; [|naive_solver].
      intros [= ->]. split_and!; [lia|lia|done..].
    + cbn. naive_solver.
  - cbn. split; [done|]. intros (Hl & Hn & Hs & _). exfalso.
    rewrite (proj2 Hrep (conj Hn Hs)), andb_true_r in Eg. lia.
Qed.

(** Authentication comes before any state change: a packet that is not
    delivered - forged, replayed, late or malformed - leaves the receiver's
    window, highest sequence and keys exactly as they were. *)
Theorem refused_packet_changes_nothing (r : DatagramReceiver Key) packet :
  (open hkdf_key aead_open r packet).1 = None → (open hkdf_key aead_open r packet).2 = r.
Proof.
  unfold open. destruct (negb _); [done|]. destruct (replayed _ _); [done|].
  destruct (cache_misses _ _); [|destruct (ks_cached (dr_keys r)) as [[e k]|]; [|done]]; cbn [fmap option_fmap option_map snd];
    destruct (aead_open _ _ _ _); try done; by destruct (note_sequence _ _ _).
Qed.

(** ** The sender *)

(** The keys a sender holds after using sequence [seq]. *)
Definition rekeyed (k : KeyState Key) (seq : Z) : KeyState Key :=
  if cache_misses k (seq / REKEY_INTERVAL)
  then set_cached k (Some (seq / REKEY_INTERVAL, derive k (seq / REKEY_INTERVAL))) else k.

Lemma rekeyed_cache keys k seq :
  cache_of keys k →
  cache_of keys (rekeyed k seq) ∧
  snd <$> ks_cached (rekeyed k seq) = Some (derive keys (seq / REKEY_INTERVAL)).
Proof.
  intros Hc. unfold rekeyed. destruct (cache_misses k _) eqn:Em.
  - split; [by apply cache_set|]. cbn. by rewrite (cache_derive keys).
  - split; [done|]. by apply cache_hit.
Qed.

Lemma seal_eq keys s pt :
  cache_of keys (ds_keys s) →
  seal' s pt =
  if MAX_PLAINTEXT <? len pt then (None, s) else
  match ds_sequence s with
  | None => (None, s)
  | Some seq =>
      let s' := mkSender (rekeyed (ds_keys s) seq) (checked_add_u64 seq 1) in
      match aead_seal (derive keys (seq / REKEY_INTERVAL)) (nonce seq) (aad (ks_token keys) seq) pt with
      | None => (None, s')
      | Some c => (Some (to_be 8 seq ++ c), s')
      end
  end.
Proof.
  intros Hc. unfold seal. destruct (_ <? _); [done|]. destruct (ds_sequence s) as [seq|]; [|done].
  fold (rekeyed (ds_keys s) seq). destruct (rekeyed_cache keys _ seq Hc) as [(_ & -> & _) Hk].
  destruct (ks_cached (rekeyed (ds_keys s) seq)) as [[e k]|]; [|discriminate Hk].
  by injection Hk as ->.
Qed.

Lemma some_pair_eq {A B} (a a' : A) (b b' : B) : (Some a, b) = (Some a', b') → a = a' ∧ b = b'.
Proof. by intros [= -> ->]. Qed.

Lemma packet_sequence_sealed seq c :
  0 <= seq <= U64_MAX → packet_sequence (to_be 8 seq ++ c) = seq.
Proof.
  intros H. unfold packet_sequence. rewrite take_app_length' by by rewrite length_to_be.
  apply from_to_be. unfold U64_MAX in H. cbn. lia.
Qed.

(** The counter is above every sequence used, until it runs out. *)
Lemma sent_inv keys seqs s :
  sent keys seqs s → ks_cached keys = None →
  cache_of keys (ds_keys s) ∧ NoDup seqs ∧
  match ds_sequence s with
  | Some n => 0 <= n <= U64_MAX ∧ ∀ q, q ∈ seqs → q < n
  | None => True
  end.
Proof.
  intros HS Hk. induction HS as [|seqs s pt packet s' _ (Hc & HN & Hn) H|seqs s pt s' _ (Hc & HN & Hn) H].
  - split; [unfold cache_of; cbn; by rewrite Hk|]. split; [constructor|]. cbn.
    split; [done|]. by intros q ?%not_elem_of_nil.
  - rewrite (seal_eq keys) in H by done. destruct (_ <? _); [discriminate H|].
    destruct (ds_sequence s) as [n|]; [|discriminate H]. destruct Hn as [Hb Hlt].
    destruct (aead_seal _ _ _ _) as [c|]; [|discriminate H]. apply some_pair_eq in H as [<- <-].
    rewrite packet_sequence_sealed by done. cbn. split; [by apply rekeyed_cache|].
    split; [constructor; [|done]; intros ?%Hlt; lia|].
    destruct (checked_add_u64 n 1) as [m|] eqn:E; [|done].
    apply checked_add_u64_some in E as [-> ?]. split; [lia|].
    intros q [->|Hq%Hlt]%elem_of_cons; lia.
  - rewrite (seal_eq keys) in H by done. destruct (_ <? _); [by injection H as <-|].
    destruct (ds_sequence s) as [n|] eqn:En; [|injection H as <-; by rewrite En].
    destruct Hn as [Hb Hlt]. destruct (aead_seal _ _ _ _); [discriminate H|]. injection H as <-. cbn.
    split; [by apply rekeyed_cache|]. split; [done|].
    destruct (checked_add_u64 n 1) as [m|] eqn:E; [|done].
    apply checked_add_u64_some in E as [-> ?]. split; [lia|]. intros q Hq%Hlt. lia.
Qed.

(** A sender never uses a sequence (and so never a nonce under one key)
    twice, over any run of seals including failed ones: the counter only moves
    up and stops for good at its end instead of wrapping. *)
Theorem sender_sequences_unique keys seqs s :
  ks_cached keys = None → sent keys seqs s →
  NoDup seqs ∧ match ds_sequence s with Some n => n ∉ seqs | None => ∀ pt, (seal' s pt).1 = None end.
Proof.
  intros Hk HS. destruct (sent_inv keys seqs s HS Hk) as (Hc & HN & Hn). split; [done|].
  destruct (ds_sequence s) as [n|] eqn:En.
  - intros ?%(proj2 Hn). lia.
  - intros pt. unfold seal. rewrite En. by destruct (_ <? _).
Qed.

(** End to end, any packet the sender sealed is opened to its plaintext by
    any receiver of the same direction, whatever was lost, reordered or forged
    before it, unless its sequence was already accepted or fell 128 behind. *)
Theorem sealed_datagram_delivered keys sseqs s pt packet s' rseqs r :
  (∀ k n a p c, aead_seal k n a p = Some c → aead_open k n a c = Some p ∧ len c = len p + 16) →
  ks_cached keys = None → sent keys sseqs s → received keys rseqs r →
  seal' s pt = (Some packet, s') →
  (packet_sequence packet ∉ rseqs) → (∀ q, q ∈ rseqs → q - packet_sequence packet < 128) →
  (open' r packet).1 = Some pt.
Proof.
  intros Haead Hk HS HR H Hnew Hwin. destruct (sent_inv keys sseqs s HS Hk) as (Hc & _ & Hn).
  destruct (received_inv keys rseqs r HR Hk) as (Hcr & HW & _).
  rewrite (seal_eq keys) in H by done.
  destruct (Z.ltb_spec MAX_PLAINTEXT (len pt)) as [|Hlen]; [discriminate H|].
  destruct (ds_sequence s) as [n|]; [|discriminate H]. destruct Hn as [Hb _].
  destruct (aead_seal _ _ _ _) as [c|] eqn:Es; [|discriminate H].
  apply Haead in Es as [Ho Hlc]. apply some_pair_eq in H as [<- _].
  rewrite (open_eq keys) by done. rewrite packet_sequence_sealed in * by done.
  rewrite (proj2 (replayed_iff r rseqs n HW) (conj Hnew Hwin)).
  rewrite len_app, len_to_be. pose proof (len_nonneg pt). unfold MAX_PLAINTEXT, DATAGRAM_OVERHEAD in *.
  change (Z.of_nat 8) with 8. rewrite !(proj2 (Z.leb_le _ _)) by lia. cbn [andb negb].
  rewrite drop_app_length' by by rewrite length_to_be. rewrite Ho. by destruct (note_sequence _ _ _).
Qed.
End Datagrams.

(** ** Witnesses: a toy AEAD whose tag is the nonce *)

Definition toy_tag (n : list byte) : list byte := take 16 (n ++ zeros 16).
Definition toy_hkdf (salt ikm : list byte) (info : list (list byte)) : () := ().
Definition toy_seal (k : ()) (n a p : list byte) : option (list byte) := Some (toy_tag n ++ p).
Definition toy_open (k : ()) (n a c : list byte) : option (list byte) :=
  if bool_decide (take 16 c = toy_tag n) then Some (drop 16 c) else None.

Lemma toy_aead k n a p c :
  toy_seal k n a p = Some c → toy_open k n a c = Some p ∧ len c = len p + 16.
Proof.
  intros [= <-]. assert (length (toy_tag n) = 16%nat) as Ht.
  { unfold toy_tag. rewrite length_take, length_app. unfold zeros. rewrite length_replicate. lia. }
  unfold toy_open. rewrite take_app_length', drop_app_length' by done.
  rewrite bool_decide_eq_true_2 by done. split; [done|]. rewrite len_app. unfold len. rewrite Ht. lia.
Qed.

Definition toy_keys : KeyState () := KeyState_new (zeros 32) (zeros 16) 0.
Definition toy_sender0 : DatagramSender () := mkSender toy_keys (Some 0).
Definition toy_receiver0 : DatagramReceiver () := mkDgReceiver toy_keys None 0.
Definition toy_seal0 := seal toy_hkdf toy_seal toy_sender0 (bytes_of [1]).
Definition toy_sender1 : DatagramSender () := toy_seal0.2.
Definition toy_seal1 := seal toy_hkdf toy_seal toy_sender1 (bytes_of [2]).
Definition packet0 : list byte := match toy_seal0.1 with Some p => p | None => [] end.
Definition packet1 : list byte := match toy_seal1.1 with Some p => p | None => [] end.
(** The second packet overtakes the first. *)
Definition toy_open1 := open toy_hkdf toy_open toy_receiver0 packet1.
Definition toy_receiver1 : DatagramReceiver () := toy_open1.2.

Lemma toy_received : received toy_hkdf toy_open toy_keys [1] toy_receiver1.
Proof.
  change [1] with [packet_sequence packet1].
  apply (received_accepted _ _ _ [] toy_receiver0 packet1 (bytes_of [2])).
  - apply received_new.
  - vm_compute. reflexivity.
Qed.

Lemma no_sequence_accepted_twice_witness : NoDup [1].
Proof. exact (no_sequence_accepted_twice toy_hkdf toy_open toy_keys [1] toy_receiver1 eq_refl toy_received). Defined.

Lemma open_accepts_exactly_witness :
  (open toy_hkdf toy_open toy_receiver1 packet0).1 = Some (bytes_of [1]).
Proof.
  apply (open_accepts_exactly toy_hkdf toy_open toy_keys [1] toy_receiver1 packet0 (bytes_of [1])
           eq_refl toy_received).
  split; [vm_compute; split; discriminate|].
  split; [intros ?%list_elem_of_singleton; discriminate|].
  split; [|vm_compute; reflexivity].
  intros s ->%list_elem_of_singleton. vm_compute. reflexivity.
Defined.

Lemma refused_packet_changes_nothing_witness :
  (open toy_hkdf toy_open toy_receiver1 packet1).2 = toy_receiver1.
Proof.
  apply (refused_packet_changes_nothing toy_hkdf toy_open). vm_compute. reflexivity.
Defined.

Lemma toy_sent : sent toy_hkdf toy_seal toy_keys [0] toy_sender1.
Proof.
  change [0] with [packet_sequence packet0].
  apply (sent_packet _ _ _ [] toy_sender0 (bytes_of [1]) packet0).
  - apply sent_new.
  - vm_compute. reflexivity.
Qed.

Lemma sender_sequences_unique_witness : NoDup [0] ∧ (1 ∉ [0]).
Proof. exact (sender_sequences_unique toy_hkdf toy_seal toy_keys [0] toy_sender1 eq_refl toy_sent). Defined.

Lemma sealed_datagram_delivered_witness :
  (open toy_hkdf toy_open toy_receiver1 packet0).1 = Some (bytes_of [1]).
Proof.
  apply (sealed_datagram_delivered toy_hkdf toy_seal toy_open toy_keys [] toy_sender0 (bytes_of [1])
           packet0 toy_sender1 [1] toy_receiver1).
  - exact toy_aead.
  - reflexivity.
  - apply sent_new.
  - exact toy_received.
  - vm_compute. reflexivity.
  - intros ?%list_elem_of_singleton. discriminate.
  - intros q ->%list_elem_of_singleton. vm_compute. reflexivity.
Defined.
