(* ===== verification/Composite.v ===== *)
(** * Composite: accepted-link plumbing of [crates/composite-transport/src/lib.rs]

    A reliable YAS stream and its optional datagram sideband arrive as two local
    streams. [classify] reads the selector of one, [Pairing] joins the two
    halves, the sideband carries length-prefixed datagrams, and
    [RoutedDatagramRoutes] spreads one physical datagram lane over sessions.

    Tokio is outside the repository: the streams and channels it provides are
    the classes [AsyncStream], [AsyncSink] and [Channel], whose laws are its
    documented behaviour; the model is a function of any instance. An operation
    that a Rust [assert!] may abort returns an [option], [None] being the panic. *)

From S2P Require Import Prelude Schema.

Abbreviation Token := (list byte).

Inductive io_error := IoFailed (code : Z) | InvalidData (detail : string).

(** ** What the runtime provides *)

(** A readable stream, seen from its owner: [contents] is what it will still
    deliver before it ends or fails. *)
Class AsyncStream (S : Type) := {
  contents : S → list byte;
  read_exact : S → Z → result io_error (list byte * S);
  poll_read : S → Z → option (list byte * S);
  read_exact_ok : ∀ s n, 0 <= n <= len (contents s) →
    ∃ s', read_exact s n = Ok (take (Z.to_nat n) (contents s), s') ∧
          contents s' = drop (Z.to_nat n) (contents s);
  read_exact_short : ∀ s n, len (contents s) < n → is_ok (read_exact s n) = false;
  poll_read_prefix : ∀ s cap bs s', poll_read s cap = Some (bs, s') →
    contents s = bs ++ contents s' ∧ len bs <= cap
}.

(** A writable stream: [written] is what it has taken so far. *)
Class AsyncSink (W : Type) := {
  written : W → list byte;
  write_all : W → list byte → result io_error W;
  write_all_ok : ∀ w bs w', write_all w bs = Ok w' → written w' = written w ++ bs
}.

Inductive TrySendError := Full_ | Closed_.

(** A bounded multi-producer channel. *)
Class Channel (C : Type) := {
  ch_new : Z → C;
  ch_queue : C → list (list byte);
  ch_capacity : C → Z;
  ch_closed : C → bool;
  ch_try_send : C → list byte → result TrySendError C;
  ch_recv : C → option (list byte * C);
  ch_drop_sender : C → C;
  ch_new_queue : ∀ n, ch_queue (ch_new n) = [] ∧ ch_capacity (ch_new n) = n ∧
                      ch_closed (ch_new n) = false;
  ch_try_send_spec : ∀ c m,
    if ch_closed c then ch_try_send c m = Err Closed_
    else if ch_capacity c <=? len (ch_queue c) then ch_try_send c m = Err Full_
    else ∃ c', ch_try_send c m = Ok c' ∧ ch_queue c' = ch_queue c ++ [m] ∧
               ch_capacity c' = ch_capacity c ∧ ch_closed c' = false;
  ch_recv_spec : ∀ c, match ch_queue c with
    | [] => ch_recv c = None
    | m :: q => ∃ c', ch_recv c = Some (m, c') ∧ ch_queue c' = q ∧
                      ch_capacity c' = ch_capacity c ∧ ch_closed c' = ch_closed c
    end;
  ch_drop_queue : ∀ c, ch_queue (ch_drop_sender c) = ch_queue c
}.

(** ** Offers *)

Definition TOKEN_BYTES : Z := 16.
Definition ROUTED_DATAGRAM_HEADER : Z := TOKEN_BYTES.
Definition MAIN_SELECTOR : list byte := bytes_of [0x59; 0x41; 0x53; 0x43; 0x4d; 0x50; 0x01; 0x01].
Definition DATAGRAM_SELECTOR : list byte :=
  bytes_of [0x59; 0x41; 0x53; 0x43; 0x4d; 0x50; 0x01; 0x02].
Definition SELECTOR_BYTES : Z := len MAIN_SELECTOR.
Definition RESERVED_BYTES : Z := 4.
Definition PREAMBLE_BYTES : Z := SELECTOR_BYTES + TOKEN_BYTES + 4 + RESERVED_BYTES.

Inductive Role := Main | SideDatagram.
#[global] Instance Role_eq_dec : EqDecision Role.
Proof. solve_decision. Defined.

Definition Role_selector (r : Role) : list byte :=
  match r with Main => MAIN_SELECTOR | SideDatagram => DATAGRAM_SELECTOR end.

Record Offer := mkOffer { of_role : Role; of_token : Token; of_max_datagram : Z }.

(** [token == [0; TOKEN_BYTES]] *)
Definition zero_token (t : Token) : bool := bool_decide (t = zeros (Z.to_nat TOKEN_BYTES)).

Definition Offer_validate (o : Offer) : result io_error () :=
  _ ← reject_if (zero_token (of_token o)) (InvalidData "zero composite ingress token");
  reject_if ((of_max_datagram o <? transport_EVENT_HEADER_BYTES)
             || (transport_HARD_MAX_DATAGRAM <? of_max_datagram o))
    (InvalidData "invalid composite datagram maximum").

Definition Offer_new (role : Role) (token : Token) (max_datagram : Z) : result io_error Offer :=
  let value := mkOffer role token max_datagram in
  _ ← Offer_validate value;
  Ok value.

Definition Offer_encode (o : Offer) : result io_error (list byte) :=
  _ ← Offer_validate o;
  Ok (Role_selector (of_role o) ++ of_token o ++ to_le 4 (of_max_datagram o)
      ++ zeros (Z.to_nat RESERVED_BYTES)).

Definition write_offer `{AsyncSink W} (stream : W) (offer : Offer) : result io_error W :=
  bytes ← Offer_encode offer;
  write_all stream bytes.

(** ** Classification of one ingress *)

Record ReplayPreface (S : Type) := mkReplay { rp_inner : S; rp_offset : Z }.
Arguments mkReplay {S}.
Arguments rp_inner {S}.
Arguments rp_offset {S}.

Definition ReplayPreface_new {S} (inner : S) : ReplayPreface S := mkReplay inner 0.

Inductive Ingress (S : Type) :=
| Direct (r : ReplayPreface S)
| CompositeLink (offer : Offer) (stream : S).
Arguments Direct {S}.
Arguments CompositeLink {S}.

Definition classify `{AsyncStream St} (stream : St) : result io_error (Ingress St) :=
  '(selector, stream) ← read_exact stream SELECTOR_BYTES;
  if bool_decide (selector = transport_PREFACE) then Ok (Direct (ReplayPreface_new stream)) else
  role ← (if bool_decide (selector = MAIN_SELECTOR) then Ok Main
          else if bool_decide (selector = DATAGRAM_SELECTOR) then Ok SideDatagram
          else Err (InvalidData "unknown local YAS ingress selector"));
  '(tail, stream) ← read_exact stream (PREAMBLE_BYTES - SELECTOR_BYTES);
  let token := take (Z.to_nat TOKEN_BYTES) tail in
  let max_datagram := from_le (take 4 (drop (Z.to_nat TOKEN_BYTES) tail)) in
  _ ← reject_if (negb (bool_decide (drop (Z.to_nat (TOKEN_BYTES + 4)) tail
                                    = zeros (Z.to_nat RESERVED_BYTES))))
        (InvalidData "nonzero composite preamble reserved bytes");
  offer ← Offer_new role token max_datagram;
  Ok (CompositeLink offer stream).

(** One read into a buffer with [cap] bytes of room; [None]: nothing was read. *)
Definition ReplayPreface_poll_read `{AsyncStream St} (r : ReplayPreface St) (cap : Z)
    : option (list byte * ReplayPreface St) :=
  if (rp_offset r <? len transport_PREFACE) && negb (cap =? 0) then
    let remaining := drop (Z.to_nat (rp_offset r)) transport_PREFACE in
    let count := Z.min (len remaining) cap in
    Some (take (Z.to_nat count) remaining, mkReplay (rp_inner r) (rp_offset r + count))
  else
    '(bs, inner) ← poll_read (rp_inner r) cap;
    Some (bs, mkReplay inner (rp_offset r)).

(** ** Pairing *)

Record Pair (T : Type) := mkPair {
  pr_token : Token; pr_max_datagram : Z; pr_main : T; pr_datagram : T
}.
Arguments mkPair {T}.
Arguments pr_token {T}.
Arguments pr_max_datagram {T}.
Arguments pr_main {T}.
Arguments pr_datagram {T}.

Record Pending (T : Type) := mkPending {
  pe_max_datagram : Z; pe_inserted : Z; pe_main : option T; pe_datagram : option T
}.
Arguments mkPending {T}.
Arguments pe_max_datagram {T}.
Arguments pe_inserted {T}.
Arguments pe_main {T}.
Arguments pe_datagram {T}.

Inductive PairError := PairFull | DuplicateRole | MaximumMismatch.

Record Pairing (T : Type) := mkPairing {
  pending : gmap Token (Pending T); max_pending : Z; timeout : Z
}.
Arguments mkPairing {T}.
Arguments pending {T}.
Arguments max_pending {T}.
Arguments timeout {T}.

Definition set_pending {T} (p : Pairing T) (m : gmap Token (Pending T)) : Pairing T :=
  mkPairing m (max_pending p) (timeout p).

Definition Pairing_new {T} (max_pending timeout : Z) : option (Pairing T) :=
  if (max_pending =? 0) || (timeout =? 0) then None else Some (mkPairing ∅ max_pending timeout).

Definition Pairing_len {T} (p : Pairing T) : Z := Z.of_nat (size (pending p)).

(** The slot of a role, and the entry with that slot filled. *)
Definition role_slot {T} (r : Role) (e : Pending T) : option T :=
  match r with Main => pe_main e | SideDatagram => pe_datagram e end.
Definition fill_slot {T} (r : Role) (e : Pending T) (x : T) : Pending T :=
  match r with
  | Main => mkPending (pe_max_datagram e) (pe_inserted e) (Some x) (pe_datagram e)
  | SideDatagram => mkPending (pe_max_datagram e) (pe_inserted e) (pe_main e) (Some x)
  end.

(** The first half of [insert]: the table with the new half stored. *)
Definition store_half {T} (p : Pairing T) (offer : Offer) (stream : T) (now : Z)
    : result PairError (gmap Token (Pending T)) :=
  match pending p !! of_token offer with
  | Some e =>
      if negb (pe_max_datagram e =? of_max_datagram offer) then Err MaximumMismatch
      else match role_slot (of_role offer) e with
           | Some _ => Err DuplicateRole
           | None => Ok (<[of_token offer := fill_slot (of_role offer) e stream]> (pending p))
           end
  | None =>
      if max_pending p <=? Pairing_len p then Err PairFull
      else Ok (<[of_token offer :=
                   fill_slot (of_role offer) (mkPending (of_max_datagram offer) now None None) stream]>
                 (pending p))
  end.

Definition Pairing_insert {T} (p : Pairing T) (offer : Offer) (stream : T) (now : Z)
    : result PairError (option (Pair T)) * Pairing T :=
  match store_half p offer stream now with
  | Err e => (Err e, p)
  | Ok m =>
      match m !! of_token offer with
      | Some (mkPending mx _ (Some main) (Some datagram)) =>
          (Ok (Some (mkPair (of_token offer) mx main datagram)),
           set_pending p (delete (of_token offer) m))
      | _ => (Ok None, set_pending p m)
      end
  end.

(** [now.saturating_duration_since(inserted) >= timeout] *)
Definition late {T} (p : Pairing T) (now : Z) (e : Pending T) : bool :=
  timeout p <=? Z.max 0 (now - pe_inserted e).

(** [streams.extend(option)] twice *)
Definition halves {T} (e : Pending T) : list T :=
  option_list (pe_main e) ++ option_list (pe_datagram e).

Fixpoint expire_loop {T} (tokens : list Token) (m : gmap Token (Pending T)) (streams : list T)
    : list T * gmap Token (Pending T) :=
  match tokens with
  | [] => (streams, m)
  | t :: tokens' =>
      match m !! t with
      | Some e => expire_loop tokens' (delete t m) (streams ++ halves e)
      | None => expire_loop tokens' m streams
      end
  end.

(** [entries] is the order in which the hash map is iterated. *)
Definition Pairing_expire {T} (p : Pairing T) (entries : list (Token * Pending T)) (now : Z)
    : list T * Pairing T :=
  let expired := map fst (filter (fun x => late p now x.2 = true) entries) in
  let '(streams, m) := expire_loop expired (pending p) [] in
  (streams, set_pending p m).

(** ** The sideband *)

Definition write_datagram `{AsyncSink W} (stream : W) (frame : list byte) (max_datagram : Z)
    : result io_error W :=
  _ ← reject_if (is_nil frame || (Z.min max_datagram transport_HARD_MAX_DATAGRAM <? len frame))
        (InvalidData "sideband datagram exceeds negotiated maximum");
  length ← ok_or (try_u32 (len frame)) (InvalidData "sideband length overflow");
  stream ← write_all stream (to_le 4 length);
  write_all stream frame.

Definition read_datagram `{AsyncStream St} (stream : St) (max_datagram : Z)
    : result io_error (list byte * St) :=
  '(bytes, stream) ← read_exact stream 4;
  let length := from_le bytes in
  _ ← reject_if ((length =? 0) || (Z.min max_datagram transport_HARD_MAX_DATAGRAM <? length))
        (InvalidData "invalid sideband datagram length");
  read_exact stream length.

Record QueueCounters := mkCounters { qc_oversized : Z; qc_congested : Z; qc_closed : Z }.

(** [fetch_add(1)] on an [AtomicU64] wraps. *)
Definition fetch_add_1 (n : Z) : Z := (n + 1) mod 2 ^ 64.

Definition count_oversized (q : QueueCounters) :=
  mkCounters (fetch_add_1 (qc_oversized q)) (qc_congested q) (qc_closed q).
Definition count_congested (q : QueueCounters) :=
  mkCounters (qc_oversized q) (fetch_add_1 (qc_congested q)) (qc_closed q).
Definition count_closed (q : QueueCounters) :=
  mkCounters (qc_oversized q) (qc_congested q) (fetch_add_1 (qc_closed q)).

(** What every clone of one sender shares with its receiver: this crate's
    [DatagramSender] and [DatagramReceiver]. *)
Record Sideband (C : Type) := mkSideband {
  sb_channel : C; sb_max_datagram : Z; sb_counters : QueueCounters; sb_available : bool
}.
Arguments mkSideband {C}.
Arguments sb_channel {C}.
Arguments sb_max_datagram {C}.
Arguments sb_counters {C}.
Arguments sb_available {C}.

Definition bounded_datagrams `{Channel C} (capacity max_datagram : Z) : option (Sideband C) :=
  if (capacity =? 0) || (max_datagram =? 0) || (transport_HARD_MAX_DATAGRAM <? max_datagram)
  then None
  else Some (mkSideband (ch_new capacity) max_datagram (mkCounters 0 0 0) true).

Definition set_counters {C} (s : Sideband C) (q : QueueCounters) : Sideband C :=
  mkSideband (sb_channel s) (sb_max_datagram s) q (sb_available s).

(** [Err] hands the frame back. *)
Definition Sideband_try_send `{Channel C} (s : Sideband C) (frame : list byte)
    : result (list byte) () * Sideband C :=
  if is_nil frame || (sb_max_datagram s <? len frame) then
    (Err frame, set_counters s (count_oversized (sb_counters s)))
  else if negb (sb_available s) then
    (Err frame, set_counters s (count_closed (sb_counters s)))
  else match ch_try_send (sb_channel s) frame with
       | Ok c => (Ok (), mkSideband c (sb_max_datagram s) (sb_counters s) (sb_available s))
       | Err Full_ => (Err frame, set_counters s (count_congested (sb_counters s)))
       | Err Closed_ => (Err frame, set_counters s (count_closed (sb_counters s)))
       end.

Definition Sideband_is_closed `{Channel C} (s : Sideband C) : bool :=
  negb (sb_available s) || ch_closed (sb_channel s).

Definition Sideband_disable {C} (s : Sideband C) : Sideband C :=
  mkSideband (sb_channel s) (sb_max_datagram s) (sb_counters s) false.

Definition Sideband_recv `{Channel C} (s : Sideband C) : option (list byte * Sideband C) :=
  '(m, c) ← ch_recv (sb_channel s);
  Some (m, mkSideband c (sb_max_datagram s) (sb_counters s) (sb_available s)).

(** ** Routed datagrams *)

Inductive RouteRegistrationError := InvalidToken | InvalidMaximum | RoutesFull | RouteDuplicate.
Inductive RouteDatagramError := InvalidEnvelope | UnknownRoute | Oversized | Congested | RouteClosed.

(** The sender half of a route is a handle into the store of channels, which
    the receiver returned by [register] shares. *)
Record RoutedDatagramRoute := mkRoute { ro_sender : Z; ro_maximum : Z }.

Record RoutedDatagramRoutes (C : Type) := mkRoutes {
  routes : gmap Token RoutedDatagramRoute; max_routes : Z;
  channels : gmap Z C; next_channel : Z
}.
Arguments mkRoutes {C}.
Arguments routes {C}.
Arguments max_routes {C}.
Arguments channels {C}.
Arguments next_channel {C}.

Definition valid_datagram_maximum (maximum : Z) : bool :=
  (transport_EVENT_HEADER_BYTES <=? maximum) && (maximum <=? transport_HARD_MAX_DATAGRAM).

Definition Routes_new {C} (max_routes : Z) : option (RoutedDatagramRoutes C) :=
  if max_routes =? 0 then None else Some (mkRoutes ∅ max_routes ∅ 0).

Definition Routes_len {C} (r : RoutedDatagramRoutes C) : Z := Z.of_nat (size (routes r)).

(** Returns the handle of the route's receiver. *)
Definition Routes_register `{Channel C} (r : RoutedDatagramRoutes C) (token : Token)
    (maximum capacity : Z) : option (result RouteRegistrationError Z * RoutedDatagramRoutes C) :=
  if zero_token token then Some (Err InvalidToken, r)
  else if negb (valid_datagram_maximum maximum) then Some (Err InvalidMaximum, r)
  else if capacity =? 0 then None
  else match routes r !! token with
       | Some _ => Some (Err RouteDuplicate, r)
       | None =>
           if max_routes r <=? Routes_len r then Some (Err RoutesFull, r)
           else Some (Ok (next_channel r),
                  mkRoutes (<[token := mkRoute (next_channel r) maximum]> (routes r)) (max_routes r)
                    (<[next_channel r := ch_new capacity]> (channels r)) (next_channel r + 1))
       end.

Definition Routes_set_maximum {C} (r : RoutedDatagramRoutes C) (token : Token) (maximum : Z)
    : result RouteRegistrationError () * RoutedDatagramRoutes C :=
  if negb (valid_datagram_maximum maximum) then (Err InvalidMaximum, r)
  else match routes r !! token with
       | None => (Err InvalidToken, r)
       | Some route =>
           (Ok (), mkRoutes (<[token := mkRoute (ro_sender route) maximum]> (routes r))
                     (max_routes r) (channels r) (next_channel r))
       end.

Definition Routes_remove `{Channel C} (r : RoutedDatagramRoutes C) (token : Token)
    : bool * RoutedDatagramRoutes C :=
  match routes r !! token with
  | None => (false, r)
  | Some route =>
      (true, mkRoutes (delete token (routes r)) (max_routes r)
               (alter ch_drop_sender (ro_sender route) (channels r)) (next_channel r))
  end.

Definition Routes_clear `{Channel C} (r : RoutedDatagramRoutes C) : RoutedDatagramRoutes C :=
  mkRoutes ∅ (max_routes r)
    (foldr (fun x m => alter ch_drop_sender (ro_sender x.2) m) (channels r) (map_to_list (routes r)))
    (next_channel r).

Definition encode_routed_datagram (token : Token) (payload : list byte) (maximum : Z)
    : result RouteDatagramError (list byte) :=
  _ ← reject_if (zero_token token || is_nil payload) InvalidEnvelope;
  _ ← reject_if (negb (valid_datagram_maximum maximum) || (maximum <? len payload)) Oversized;
  Ok (token ++ payload).

Definition split_routed_datagram (bytes : list byte)
    : result RouteDatagramError (Token * list byte) :=
  _ ← reject_if (len bytes <=? ROUTED_DATAGRAM_HEADER) InvalidEnvelope;
  let token := take (Z.to_nat ROUTED_DATAGRAM_HEADER) bytes in
  _ ← reject_if (zero_token token) InvalidEnvelope;
  Ok (token, drop (Z.to_nat ROUTED_DATAGRAM_HEADER) bytes).

(** The channel a route's sender points to; a live sender always has one. *)
Definition Routes_route `{Channel C} (r : RoutedDatagramRoutes C) (bytes : list byte)
    : result RouteDatagramError () * RoutedDatagramRoutes C :=
  match split_routed_datagram bytes with
  | Err e => (Err e, r)
  | Ok (token, payload) =>
      match routes r !! token with
      | None => (Err UnknownRoute, r)
      | Some route =>
          if ro_maximum route <? len payload then (Err Oversized, r)
          else match channels r !! ro_sender route with
               | None => (Err RouteClosed, r)
               | Some c =>
                   match ch_try_send c payload with
                   | Ok c' => (Ok (), mkRoutes (routes r) (max_routes r)
                                        (<[ro_sender route := c']> (channels r)) (next_channel r))
                   | Err Full_ => (Err Congested, r)
                   | Err Closed_ => (Err RouteClosed, r)
                   end
               end
      end
  end.
