(* ===== verification/CompositeFacts.v ===== *)
(** * CompositeFacts: ingress classification, replay and pairing

    Theorems about the first half of [crates/composite-transport/src/lib.rs]. *)

From S2P Require Import Prelude Schema Composite.

(** ** Classification *)

Section Ingress.
Context `{AsyncStream St}.
Implicit Types (s : St) (o : Offer).

(** The type invariant of [Offer]: a 16-byte token and a [u32] maximum. *)
Definition Offer_wf o : Prop := len (of_token o) = TOKEN_BYTES ∧ is_u32 (of_max_datagram o).

Definition offer_bytes o : list byte :=
  Role_selector (of_role o) ++ of_token o ++ to_le 4 (of_max_datagram o) ++ zeros 4.

Lemma Offer_encode_ok o bs :
  Offer_encode o = Ok bs ↔ bs = offer_bytes o ∧ Offer_validate o = Ok ().
Proof.
  unfold Offer_encode, offer_bytes. rewrite bind_ok. split.
  - by intros ([] & ? & [= <-]).
  - intros [-> ?]. by exists ().
Qed.

Lemma len_selector r : len (Role_selector r) = SELECTOR_BYTES.
Proof. by destruct r. Qed.

(** Reading exactly the first part of what a stream holds. *)
Lemma read_exact_app s n l1 l2 :
  contents s = l1 ++ l2 → len l1 = n → ∃ s', read_exact s n = Ok (l1, s') ∧ contents s' = l2.
Proof.
  intros Hc <-. destruct (read_exact_ok s (len l1)) as (s' & E & Hs').
  { rewrite Hc, len_app. pose proof (len_nonneg l1). pose proof (len_nonneg l2). lia. }
  exists s'. rewrite Hc, to_nat_len in E, Hs'. by rewrite take_app_length in E; rewrite drop_app_length in Hs'.
Qed.

(** What a successful exact read returned. *)
Lemma read_exact_inv s n l s' :
  0 <= n → read_exact s n = Ok (l, s') → contents s = l ++ contents s' ∧ len l = n.
Proof.
  intros Hn E. destruct (Z.lt_ge_cases (len (contents s)) n) as [Hlt|Hge].
  { pose proof (read_exact_short s n Hlt) as Hf. by rewrite E in Hf. }
  destruct (read_exact_ok s n) as (s2 & E2 & Hs2); [lia|]. rewrite E in E2.
  injection E2 as -> ->. rewrite Hs2. split; [by rewrite take_drop|].
  unfold len in *. rewrite length_take. lia.
Qed.

Lemma role_of_selector r :
  (if bool_decide (Role_selector r = MAIN_SELECTOR) then Ok Main
   else if bool_decide (Role_selector r = DATAGRAM_SELECTOR) then Ok SideDatagram
   else Err (InvalidData "unknown local YAS ingress selector")) = Ok r.
Proof. by destruct r. Qed.

Lemma selector_of_role selector r :
  (if bool_decide (selector = MAIN_SELECTOR) then Ok Main
   else if bool_decide (selector = DATAGRAM_SELECTOR) then Ok SideDatagram
   else Err (InvalidData "unknown local YAS ingress selector")) = Ok r → selector = Role_selector r.
Proof. repeat case_bool_decide; by intros [= <-]. Qed.

Lemma Offer_new_ok role token mx o :
  Offer_new role token mx = Ok o ↔ o = mkOffer role token mx ∧ Offer_validate o = Ok ().
Proof.
  unfold Offer_new. rewrite bind_ok. split.
  - by intros ([] & ? & [= <-]).
  - intros [-> ?]. by exists ().
Qed.

Lemma classify_offer s o rest :
  Offer_wf o → Offer_validate o = Ok () → contents s = offer_bytes o ++ rest →
  ∃ s', classify s = Ok (CompositeLink o s') ∧ contents s' = rest.
Proof.
  intros [Ht Hm] Hv Hc. unfold offer_bytes in Hc. rewrite <- !app_assoc in Hc.
  destruct (read_exact_app s SELECTOR_BYTES _ _ Hc (len_selector _)) as (s1 & E1 & Hc1).
  unfold classify. rewrite E1. cbn [mbind result_bind].
  replace (bool_decide (Role_selector (of_role o) = transport_PREFACE)) with false
    by (by destruct (of_role o)).
  rewrite role_of_selector. cbn [mbind result_bind].
  rewrite (app_assoc (to_le 4 _)), (app_assoc (of_token o)) in Hc1.
  destruct (read_exact_app s1 (PREAMBLE_BYTES - SELECTOR_BYTES) _ _ Hc1) as (s2 & E2 & Hc2).
  { autorewrite with len. by rewrite Ht. }
  rewrite E2. cbn [mbind result_bind].
  assert (length (of_token o) = 16%nat) as Hl by (unfold len, TOKEN_BYTES in Ht; lia).
  change (Z.to_nat (TOKEN_BYTES + 4)) with (16 + 4)%nat. change (Z.to_nat TOKEN_BYTES) with 16%nat.
  rewrite (take_app_length' _ _ 16), (drop_app_length' _ _ 16) by done.
  rewrite (take_app_length' _ _ 4) by (by rewrite length_to_le). rewrite from_to_le by (cbn; lia).
  rewrite <- drop_drop, (drop_app_length' _ _ 16), (drop_app_length' _ _ 4) by (by rewrite ?length_to_le).
  rewrite bool_decide_true by done. cbn [negb reject_if mbind result_bind].
  rewrite (proj2 (Offer_new_ok _ _ _ o)); [by exists s2|]. by destruct o.
Qed.

Lemma classify_composite_inv s o s' :
  classify s = Ok (CompositeLink o s') →
  Offer_wf o ∧ Offer_validate o = Ok () ∧ contents s = offer_bytes o ++ contents s'.
Proof.
  unfold classify. intros ((sel & s1) & E1 & E)%bind_ok. case_bool_decide as Hp; [done|].
  apply bind_ok in E as (r & ->%selector_of_role & E).
  apply bind_ok in E as ((tail & s2) & E2 & E). apply reject_bind_ok in E as [Hz E].
  apply bind_ok in E as (o' & Ho & [= -> ->]). apply Offer_new_ok in Ho as [-> Hv].
  apply read_exact_inv in E1 as [Hc1 _]; [|done]. apply read_exact_inv in E2 as [Hc2 Hl]; [|done].
  apply negb_false_iff, bool_decide_eq_true in Hz. change (PREAMBLE_BYTES - SELECTOR_BYTES) with 24 in Hl.
  change (Z.to_nat (TOKEN_BYTES + 4)) with (16 + 4)%nat in Hz. change (Z.to_nat TOKEN_BYTES) with 16%nat in *.
  assert (length tail = 24%nat) as Hl' by (unfold len in Hl; lia).
  assert (length (take 4 (drop 16 tail)) = 4%nat) as H4 by (rewrite length_take, length_drop; lia).
  split_and!; [|done|].
  - split; cbn; [unfold len, TOKEN_BYTES; rewrite length_take; lia|].
    pose proof (from_le_bound (take 4 (drop 16 tail))) as Hb. unfold len in Hb. rewrite H4 in Hb. done.
  - rewrite Hc1, Hc2. unfold offer_bytes. cbn [of_role of_token of_max_datagram]. rewrite to_from_le by done.
    rewrite <- !app_assoc. f_equal. rewrite <- drop_drop in Hz.
    change (zeros 4) with (zeros (Z.to_nat RESERVED_BYTES)). rewrite <- Hz.
    rewrite !app_assoc, <- (app_assoc (take 16 tail)). by rewrite take_drop, take_drop.
Qed.

(** Composite ingress accepts exactly the encoded offers. A stream that
    starts with the encoding of an offer is classified as that offer, with
    everything after the preamble left in the stream; and a stream classified
    as an offer started with that offer's encoding, which is a valid one. *)
Theorem classify_exactly_offers s o rest :
  Offer_wf o →
  (∃ bs, Offer_encode o = Ok bs ∧ contents s = bs ++ rest) ↔
  (∃ s', classify s = Ok (CompositeLink o s') ∧ contents s' = rest).
Proof.
  intros Hw. split.
  - intros (bs & [-> Hv]%Offer_encode_ok & Hc). by apply classify_offer.
  - intros (s' & (_ & Hv & Hc)%classify_composite_inv & <-). exists (offer_bytes o).
    by rewrite Offer_encode_ok.
Qed.

(** ** Replay of the preface *)

(** What a direct session will still read. *)
Definition unread (r : ReplayPreface St) : list byte :=
  drop (Z.to_nat (rp_offset r)) transport_PREFACE ++ contents (rp_inner r).

(** A session's reads, each with the room its buffer had. *)
Fixpoint read_session (caps : list Z) (r : ReplayPreface St) : list byte * ReplayPreface St :=
  match caps with
  | [] => ([], r)
  | cap :: caps' =>
      match ReplayPreface_poll_read r cap with
      | None => read_session caps' r
      | Some (bs, r') => let '(bs', r'') := read_session caps' r' in (bs ++ bs', r'')
      end
  end.

Lemma poll_read_unread r cap bs r' :
  0 <= rp_offset r → 0 <= cap → ReplayPreface_poll_read r cap = Some (bs, r') →
  unread r = bs ++ unread r' ∧ len bs <= cap ∧ 0 <= rp_offset r'.
Proof.
  unfold ReplayPreface_poll_read, unread. intros H0 Hcap E.
  destruct (_ && _) eqn:Hg.
  - apply andb_true_iff in Hg as [Hlt Hne]. injection E as <- <-. cbn [rp_inner rp_offset].
    set (rem := drop _ _). pose proof (len_nonneg rem).
    assert (0 <= Z.min (len rem) cap) by lia. rewrite app_assoc. split; [|split; [|lia]].
    + f_equal. rewrite Z2Nat.inj_add, <- drop_drop by lia. by rewrite take_drop.
    + unfold len. rewrite length_take. lia.
  - apply bind_Some in E as ((bs' & inner) & Ei & [= <- <-]). cbn [rp_inner rp_offset].
    destruct (poll_read_prefix _ _ _ _ Ei) as [Hc Hl]. split; [|done].
    destruct (Z.eqb_spec cap 0) as [->|].
    + assert (bs' = []) as -> by (apply len_zero; pose proof (len_nonneg bs'); lia).
      cbn in Hc |- *. by rewrite Hc.
    + rewrite andb_true_r in Hg. apply Z.ltb_ge in Hg.
      rewrite (drop_ge transport_PREFACE) by (unfold len in Hg; lia). by rewrite Hc.
Qed.

Lemma read_session_unread caps r :
  0 <= rp_offset r → Forall (λ cap, 0 <= cap) caps →
  let '(bs, r') := read_session caps r in unread r = bs ++ unread r'.
Proof.
  revert r. induction caps as [|cap caps IH]; intros r H0 HF; cbn; [done|].
  apply Forall_cons_iff in HF as [Hcap HF].
  destruct (ReplayPreface_poll_read r cap) as [[bs r1]|] eqn:E; [|by apply IH].
  destruct (poll_read_unread _ _ _ _ H0 Hcap E) as (Hu & _ & H1).
  specialize (IH r1 H1 HF). destruct (read_session caps r1) as [bs' r'].
  by rewrite Hu, IH, app_assoc.
Qed.

Lemma classify_direct_inv s r :
  classify s = Ok (Direct r) → rp_offset r = 0 ∧ unread r = contents s.
Proof.
  unfold classify. intros ((sel & s1) & E1 & E)%bind_ok.
  apply read_exact_inv in E1 as [Hc _]; [|done]. case_bool_decide as Hp.
  - injection E as <-. split; [done|]. unfold unread. cbn. by rewrite Hc, Hp.
  - apply bind_ok in E as (? & _ & ((? & ?) & _ & E)%bind_ok).
    by apply reject_bind_ok in E as [_ (? & _ & [=])%bind_ok].
Qed.

(** A direct link is unaware of classification. Once a stream is classified
    as an ordinary YAS link, whatever sizes the session reads with, the bytes it
    has read followed by the bytes it will still read are exactly the bytes the
    stream held before classification consumed its preface. *)
Theorem direct_link_sees_whole_stream s r caps :
  classify s = Ok (Direct r) → Forall (λ cap, 0 <= cap) caps →
  let '(bs, r') := read_session caps r in contents s = bs ++ unread r'.
Proof.
  intros [H0 <-]%classify_direct_inv HF. apply read_session_unread; [lia|done].
Qed.
End Ingress.

(** ** Pairing *)

Section Pairing.
Context {T : Type}.
Implicit Types (p : Pairing T) (e : Pending T) (m : gmap Token (Pending T)) (w : T).

(** The halves of an entry, each with the offer that brought it. *)
Definition entry_offers (x : Token * Pending T) : list (Offer * T) :=
  (pair (mkOffer Main x.1 (pe_max_datagram x.2)) <$> option_list (pe_main x.2)) ++
  (pair (mkOffer SideDatagram x.1 (pe_max_datagram x.2)) <$> option_list (pe_datagram x.2)).

Definition table_offers m : list (Offer * T) := map_to_list m ≫= entry_offers.

Definition pair_offers (q : Pair T) : list (Offer * T) :=
  [(mkOffer Main (pr_token q) (pr_max_datagram q), pr_main q);
   (mkOffer SideDatagram (pr_token q) (pr_max_datagram q), pr_datagram q)].

(** Exactly one half of every pending link has arrived, and the table is bounded. *)
Definition half_open e : Prop :=
  match pe_main e, pe_datagram e with Some _, None | None, Some _ => True | _, _ => False end.
Definition Pairing_inv p : Prop :=
  Pairing_len p <= max_pending p ∧ map_Forall (λ _ e, half_open e) (pending p).

Lemma table_delete m t e :
  m !! t = Some e → table_offers m ≡ₚ entry_offers (t, e) ++ table_offers (delete t m).
Proof. intros H. unfold table_offers. by rewrite <- (map_to_list_delete m t e H). Qed.

Lemma table_insert m t e :
  m !! t = None → table_offers (<[t := e]> m) ≡ₚ entry_offers (t, e) ++ table_offers m.
Proof. intros H. unfold table_offers. by rewrite map_to_list_insert. Qed.

Lemma new_entry offer w now :
  let e := fill_slot (of_role offer) (mkPending (of_max_datagram offer) now None None) w in
  half_open e ∧ entry_offers (of_token offer, e) = [(offer, w)].
Proof. by destruct offer as [[] t mx]. Qed.

(** The other half of a half-open entry completes it. *)
Lemma complete_entry offer w e :
  half_open e → pe_max_datagram e = of_max_datagram offer → role_slot (of_role offer) e = None →
  ∃ q, fill_slot (of_role offer) e w =
         mkPending (pr_max_datagram q) (pe_inserted e) (Some (pr_main q)) (Some (pr_datagram q)) ∧
       pr_token q = of_token offer ∧
       pair_offers q ≡ₚ (offer, w) :: entry_offers (of_token offer, e).
Proof.
  destruct offer as [r t mx], e as [mx' at_ [a|] [b|]], r; cbn; try done; intros _ -> _.
  - exists (mkPair t mx a w). split_and!; [done|done|]. apply perm_swap.
  - by exists (mkPair t mx w b).
Qed.

Lemma size_delete_le m t : (size (delete t m) <= size m)%nat.
Proof. apply map_subseteq_size, delete_subseteq. Qed.

(** What one [insert] does to the table and where the new half goes. *)
Lemma insert_accounts p offer w now :
  Pairing_inv p →
  let '(r, p') := Pairing_insert p offer w now in
  Pairing_inv p' ∧
  (offer, w) :: table_offers (pending p) ≡ₚ
  table_offers (pending p') ++
  match r with
  | Ok (Some q) => pair_offers q
  | Ok None => []
  | Err _ => [(offer, w)]
  end.
Proof.
  intros Hinv. pose proof Hinv as [Hsz HF]. unfold Pairing_insert, store_half. unfold Pairing_len in *.
  pose proof (Permutation_cons_append (table_offers (pending p)) (offer, w)) as Hrej.
  destruct (pending p !! of_token offer) as [e|] eqn:He.
  - pose proof (map_Forall_lookup_1 _ _ _ _ HF He) as Hh. cbn beta in Hh.
    destruct (Z.eqb_spec (pe_max_datagram e) (of_max_datagram offer)) as [Hmx|]; cbn [negb];
      [|done].
    destruct (role_slot (of_role offer) e) eqn:Hs; [done|].
    destruct (complete_entry offer w e Hh Hmx Hs) as (q & -> & Hq & Hp).
    rewrite lookup_insert_eq. cbn [pending set_pending]. rewrite delete_insert_eq.
    split.
    + split; [cbn; unfold Pairing_len; cbn; pose proof (size_delete_le (pending p) (of_token offer)); lia|].
      cbn. by apply map_Forall_delete.
    + destruct q as [tq mq mainq dgq]. cbn in Hq. subst tq. cbn [pr_max_datagram pr_main pr_datagram] in *.
      rewrite Hp, (table_delete _ _ _ He), app_comm_cons. apply Permutation_app_comm.
  - destruct (Z.leb_spec (max_pending p) (Z.of_nat (size (pending p)))) as [|Hlt];
      [done|].
    destruct (new_entry offer w now) as [Hh Hn].
    destruct (fill_slot _ _ w) as [mx at_ [a|] [b|]] eqn:Ef; try done;
      rewrite lookup_insert_eq; cbn [pending set_pending]; rewrite app_nil_r;
      (split; [split|rewrite (table_insert _ _ _ He); by rewrite Hn]).
    all: unfold Pairing_len, set_pending; cbn [pending max_pending].
    all: try (rewrite map_size_insert_None by done; lia).
    all: by apply map_Forall_insert_2.
Qed.

Lemma expire_loop_accounts tokens m ss :
  let '(ss', m') := expire_loop tokens m ss in
  ∃ ex, ss' = ss ++ map snd ex ∧ table_offers m ≡ₚ table_offers m' ++ ex.
Proof.
  revert m ss. induction tokens as [|t tokens IH]; intros m ss; cbn.
  - exists []. by rewrite !app_nil_r.
  - destruct (m !! t) as [e|] eqn:He; [|apply IH].
    specialize (IH (delete t m) (ss ++ halves e)). destruct (expire_loop _ _ _) as [ss' m'].
    destruct IH as (ex & -> & Hp). exists (entry_offers (t, e) ++ ex). split.
    + rewrite map_app, <- app_assoc. do 2 f_equal. unfold entry_offers, halves.
      rewrite map_app. by destruct e as [? ? [] []].
    + rewrite (table_delete _ _ _ He), Hp, !app_assoc.
      apply Permutation_app_tail, Permutation_app_comm.
Qed.

Lemma expire_loop_lookup tokens m ss t :
  (expire_loop tokens m ss).2 !! t = if decide (t ∈ tokens) then None else m !! t.
Proof.
  revert m ss. induction tokens as [|t' tokens IH]; intros m ss; cbn [expire_loop].
  - by rewrite decide_False by set_solver.
  - destruct (m !! t') as [e|] eqn:He; rewrite IH; repeat case_decide; try set_solver.
    + assert (t = t') as -> by set_solver. by rewrite lookup_delete_eq.
    + by rewrite lookup_delete_ne by set_solver.
Qed.

(** The table after [expire]: the entries that are not late, and no others. *)
Lemma expire_table p entries now :
  entries ≡ₚ map_to_list (pending p) →
  pending (Pairing_expire p entries now).2 =
  filter (λ x, late p now x.2 = false) (pending p).
Proof.
  intros Hen. unfold Pairing_expire. apply map_eq. intros t.
  pose proof (expire_loop_lookup (map fst (filter (λ x, late p now x.2 = true) entries))
                (pending p) [] t) as Hl.
  destruct (expire_loop _ _ _) as [ss m']. cbn in Hl |- *. rewrite Hl, map_lookup_filter.
  assert (t ∈ map fst (filter (λ x, late p now x.2 = true) entries) ↔
          ∃ e, pending p !! t = Some e ∧ late p now e = true) as Ht.
  { rewrite list_elem_of_fmap. split.
    - intros ([t' e] & -> & [? Hin]%list_elem_of_filter). exists e. split; [|done].
      apply elem_of_map_to_list. by rewrite <- Hen.
    - intros (e & He & Hle). exists (t, e). split; [done|]. apply list_elem_of_filter. split; [done|].
      rewrite Hen. by apply elem_of_map_to_list. }
  destruct (pending p !! t) as [e|] eqn:He; cbn.
  - case_decide as Hd; case_guard as Hg; cbn in *; try done; exfalso.
    + apply Ht in Hd as (e' & [= <-] & ?). congruence.
    + apply Hd, Ht. exists e. split; [done|]. by destruct (late p now e).
  - by case_decide.
Qed.

Lemma expire_accounts p entries now :
  let '(ss, p') := Pairing_expire p entries now in
  ∃ ex, ss = map snd ex ∧ table_offers (pending p) ≡ₚ table_offers (pending p') ++ ex.
Proof.
  unfold Pairing_expire. set (ts := map fst _).
  pose proof (expire_loop_accounts ts (pending p) []) as H. by destruct (expire_loop _ _ _).
Qed.

Lemma expire_inv p entries now :
  Pairing_inv p → entries ≡ₚ map_to_list (pending p) → Pairing_inv (Pairing_expire p entries now).2.
Proof.
  intros [Hsz HF] Hen. pose proof (expire_table p entries now Hen) as Ht.
  assert (max_pending (Pairing_expire p entries now).2 = max_pending p) as Hm
    by (unfold Pairing_expire; by destruct (expire_loop _ _ _)).
  unfold Pairing_inv, Pairing_len in *. rewrite Ht, Hm. split.
  - pose proof (map_subseteq_size _ _ (map_filter_subseteq (λ x, late p now x.2 = false) (pending p))). lia.
  - intros t e [He _]%map_lookup_filter_Some. exact (HF t e He).
Qed.

(** *** Histories *)

(** An accept loop over one table: what was offered to it, and what came out. *)
Record history := mkHistory {
  h_table : Pairing T; h_offered : list (Offer * T); h_pairs : list (Pair T);
  h_expired : list T; h_rejected : list (Offer * T)
}.

Inductive pairing_step : history → history → Prop :=
| step_insert h offer w now r p' :
    Pairing_insert (h_table h) offer w now = (r, p') →
    pairing_step h
      (mkHistory p' ((offer, w) :: h_offered h)
         (match r with Ok (Some q) => q :: h_pairs h | _ => h_pairs h end)
         (h_expired h)
         (match r with Err _ => (offer, w) :: h_rejected h | _ => h_rejected h end))
| step_expire h entries now ss p' :
    entries ≡ₚ map_to_list (pending (h_table h)) →
    Pairing_expire (h_table h) entries now = (ss, p') →
    pairing_step h
      (mkHistory p' (h_offered h) (h_pairs h) (h_expired h ++ ss) (h_rejected h)).

Definition accounted (h : history) : Prop :=
  Pairing_inv (h_table h) ∧
  ∃ ex, h_expired h = map snd ex ∧
    h_offered h ≡ₚ table_offers (pending (h_table h)) ++ (h_pairs h ≫= pair_offers) ++ ex ++ h_rejected h.

Lemma accounted_step h h' : pairing_step h h' → accounted h → accounted h'.
Proof.
  intros Hs (Hinv & ex & Hex & Hp). destruct Hs as [h offer w now r p' E|h entries now ss p' Hen E].
  - pose proof (insert_accounts (h_table h) offer w now Hinv) as H. rewrite E in H.
    destruct H as [Hi Ha]. split; [done|]. exists ex. split; [done|]. cbn [h_table h_offered h_pairs h_rejected].
    rewrite Hp, app_comm_cons, Ha. destruct r as [[q|]|err]; cbn [mbind list_bind]; solve_Permutation.
  - pose proof (expire_accounts (h_table h) entries now) as H.
    pose proof (expire_inv (h_table h) entries now Hinv Hen) as Hi. rewrite E in H, Hi.
    destruct H as (ex' & -> & Ha). split; [done|]. exists (ex ++ ex'). cbn.
    split; [by rewrite Hex, map_app|]. rewrite Hp, Ha. solve_Permutation.
Qed.
End Pairing.

(** No accepted half is lost, duplicated or mispaired. Over any sequence of
    insertions and expiries from a fresh table, the halves offered are exactly,
    each once, those still pending, those handed out in pairs (every pair made
    of a main and a datagram half offered with its token and its maximum), those
    expired and those refused; and the table never exceeds its cap, each entry
    holding exactly one half. *)
Theorem pairing_accounts {T} max tmo (p0 : Pairing T) h :
  Pairing_new max tmo = Some p0 → 0 <= max →
  rtc pairing_step (mkHistory p0 [] [] [] []) h → accounted h.
Proof.
  unfold Pairing_new. destruct (_ || _); [done|]. intros [= <-] Hm Hr.
  assert (accounted (mkHistory (mkPairing ∅ max tmo) [] [] [] [] : @history T)) as H0.
  { split; [split; [unfold Pairing_len; cbn [h_table pending max_pending]; rewrite map_size_empty; lia
                  |apply map_Forall_empty]|].
    exists []. split; [done|]. unfold table_offers. cbn. by rewrite map_to_list_empty. }
  revert H0. induction Hr as [|x y z Hs _ IH]; [done|]. intros H0.
  by apply IH, (accounted_step _ _ Hs).
Qed.

(** Expiry drops exactly the late halves. Whatever order the hash map is
    iterated in, the table afterwards is the table before restricted to the
    entries younger than the timeout, and the streams handed back are, with
    the remaining table, all the halves there were. *)
Theorem expire_drops_exactly_late {T} (p : Pairing T) entries now :
  entries ≡ₚ map_to_list (pending p) →
  let '(ss, p') := Pairing_expire p entries now in
  pending p' = filter (λ x, late p now x.2 = false) (pending p) ∧
  ∃ ex, ss = map snd ex ∧ table_offers (pending p) ≡ₚ table_offers (pending p') ++ ex.
Proof.
  intros Hen. pose proof (expire_table p entries now Hen) as Ht.
  pose proof (expire_accounts p entries now) as Ha.
  by destruct (Pairing_expire p entries now) as [ss p'].
Qed.

(** ** A concrete stream, and the theorems at concrete inputs *)

(** A stream whose bytes are all there already. *)
#[export] Instance list_stream : AsyncStream (list byte).
Proof.
  refine {|
    contents := fun l => l;
    read_exact := fun l n =>
      if n <=? len l then Ok (take (Z.to_nat n) l, drop (Z.to_nat n) l) else Err (IoFailed 0);
    poll_read := fun l cap =>
      if 0 <=? cap then Some (take (Z.to_nat cap) l, drop (Z.to_nat cap) l) else None
  |}.
  - intros l n [_ Hn%Z.leb_le]. rewrite Hn. by eexists.
  - intros l n Hn%Z.leb_gt. by rewrite Hn.
  - intros l cap bs l'. destruct (Z.leb_spec 0 cap); [|done]. intros [= <- <-].
    rewrite take_drop. split; [done|]. unfold len. rewrite length_take. lia.
Defined.

Definition sample_token : Token := bytes_of [1; 2; 3; 4; 5; 6; 7; 8; 9; 10; 11; 12; 13; 14; 15; 16].
Definition sample_main : Offer := mkOffer Main sample_token 1200.
Definition sample_side : Offer := mkOffer SideDatagram sample_token 1200.

Lemma classify_exactly_offers_witness :
  ∃ s', classify (offer_bytes sample_side ++ bytes_of [7; 8]) = Ok (CompositeLink sample_side s') ∧
        s' = bytes_of [7; 8].
Proof.
  refine (proj1 (classify_exactly_offers (offer_bytes sample_side ++ bytes_of [7; 8]) sample_side
                   (bytes_of [7; 8]) _) _).
  - split; [vm_compute; reflexivity|cbn; lia].
  - exists (offer_bytes sample_side). split; [vm_compute; reflexivity|reflexivity].
Defined.

Lemma direct_link_sees_whole_stream_witness :
  let s := transport_PREFACE ++ bytes_of [7; 8; 9] in
  let '(bs, r') := read_session [3; 0; 7; 2] (ReplayPreface_new (bytes_of [7; 8; 9])) in
  s = bs ++ unread r'.
Proof.
  assert (classify (transport_PREFACE ++ bytes_of [7; 8; 9]) =
          Ok (Direct (ReplayPreface_new (bytes_of [7; 8; 9])))) as Hc by (vm_compute; reflexivity).
  assert (Forall (λ cap, 0 <= cap) [3; 0; 7; 2]) as Hf by (repeat constructor; lia).
  exact (direct_link_sees_whole_stream _ _ _ Hc Hf).
Defined.

Lemma pairing_accounts_witness :
  ∃ h : @history nat, h_pairs h = [mkPair sample_token 1200 1%nat 2%nat] ∧ accounted h.
Proof.
  eexists (mkHistory (mkPairing ∅ 4 10) [(sample_side, 2%nat); (sample_main, 1%nat)] _ [] []).
  split; [reflexivity|].
  apply (pairing_accounts 4 10 (mkPairing ∅ 4 10)); [reflexivity|lia|].
  eapply rtc_l; [apply (step_insert _ sample_main 1%nat 5); reflexivity|]. cbn beta iota.
  eapply rtc_l; [apply (step_insert _ sample_side 2%nat 6); reflexivity|].
  cbn beta iota. apply rtc_refl.
Defined.
