(* ===== verification/CompositeRoutes.v ===== *)
(** * CompositeRoutes: the sideband and the routed datagram lane

    Theorems about the second half of [crates/composite-transport/src/lib.rs]. *)

From S2P Require Import Prelude Schema Composite CompositeFacts.

(** ** Sideband framing *)

Section Framing.
Context `{AsyncStream St, AsyncSink W}.

Lemma write_datagram_inv (w w' : W) frame mx :
  write_datagram w frame mx = Ok w' →
  written w' = written w ++ to_le 4 (len frame) ++ frame ∧
  0 < len frame <= Z.min mx transport_HARD_MAX_DATAGRAM.
Proof.
  unfold write_datagram. intros H1. inv_ok.
  apply orb_false_iff in Hv as [Hn%is_nil_false Hl%Z.ltb_ge].
  unfold try_u32 in Hv0. split_match Hv0. injection Hv0 as <-.
  apply write_all_ok in Hv1, H1. rewrite H1, Hv1, <- app_assoc. split; [done|].
  pose proof (len_nonneg frame). pose proof (proj1 (len_zero frame)).
  split; [|done]. destruct (Z.eq_dec (len frame) 0); [naive_solver|lia].
Qed.

Lemma read_datagram_inv (s s' : St) mx frame :
  read_datagram s mx = Ok (frame, s') →
  contents s = to_le 4 (len frame) ++ frame ++ contents s' ∧
  0 < len frame <= Z.min mx transport_HARD_MAX_DATAGRAM.
Proof.
  unfold read_datagram. intros ((bs & s1) & E1 & E)%bind_ok. apply reject_bind_ok in E as [Hg E].
  apply read_exact_inv in E1 as [Hc1 Hl1]; [|done].
  pose proof (from_le_bound bs) as Hb. apply read_exact_inv in E as [Hc2 Hl2]; [|lia].
  rewrite Hl2, to_from_le by (unfold len in Hl1; lia). rewrite Hc1, Hc2. split; [done|].
  apply orb_false_iff in Hg as [?%Z.eqb_neq ?%Z.ltb_ge]. lia.
Qed.

Lemma read_datagram_framed (s : St) mx frame rest :
  0 < len frame <= Z.min mx transport_HARD_MAX_DATAGRAM →
  contents s = to_le 4 (len frame) ++ frame ++ rest →
  ∃ s', read_datagram s mx = Ok (frame, s') ∧ contents s' = rest.
Proof.
  intros Hl Hc. destruct (read_exact_app s 4 _ _ Hc) as (s1 & E1 & Hc1); [by rewrite len_to_le|].
  destruct (read_exact_app s1 (len frame) _ _ Hc1 eq_refl) as (s2 & E2 & Hc2).
  exists s2. split; [|done]. unfold read_datagram. rewrite E1. cbn [mbind result_bind].
  rewrite from_to_le by (unfold transport_HARD_MAX_DATAGRAM in *; cbn; lia).
  rewrite reject_if_false by (apply orb_false_iff; rewrite Z.eqb_neq, Z.ltb_ge; lia).
  cbn [mbind result_bind]. done.
Qed.

(** Sideband framing loses nothing and allocates nothing hostile. Whatever
    [write_datagram] appends, a reader with the same maximum that finds it at
    the head of its stream returns exactly that frame and leaves the rest; and
    no frame a reader returns is empty or longer than the negotiated and hard
    maxima. *)
Theorem sideband_framing (w w' : W) mx frame sent :
  write_datagram w frame mx = Ok w' → written w' = written w ++ sent →
  (∀ (s : St) rest, contents s = sent ++ rest →
     ∃ s', read_datagram s mx = Ok (frame, s') ∧ contents s' = rest) ∧
  (∀ (s s' : St) f, read_datagram s mx = Ok (f, s') →
     0 < len f <= Z.min mx transport_HARD_MAX_DATAGRAM ∧
     contents s = to_le 4 (len f) ++ f ++ contents s').
Proof.
  intros [Hw Hl]%write_datagram_inv Hs. rewrite Hw in Hs. apply app_inv_head in Hs as <-. split.
  - intros s rest Hc. rewrite <- app_assoc in Hc. by apply read_datagram_framed.
  - intros s s' f [Hc Hf]%read_datagram_inv. done.
Qed.
End Framing.

(** ** The bounded queue *)

Section Queue.
Context `{Channel C}.
Implicit Types (s : Sideband C).

Inductive sideband_op := Send (frame : list byte) | Recv | Disable.

(** A run of the shared sideband, with what was attempted, accepted and received. *)
Record sideband_log := mkLog {
  lg_state : Sideband C; lg_attempts : Z; lg_accepted : list (list byte);
  lg_received : list (list byte)
}.

Definition sideband_apply (l : sideband_log) (o : sideband_op) : sideband_log :=
  match o with
  | Send f =>
      let '(r, s') := Sideband_try_send (lg_state l) f in
      mkLog s' (lg_attempts l + 1)
        (if is_ok r then lg_accepted l ++ [f] else lg_accepted l) (lg_received l)
  | Recv =>
      match Sideband_recv (lg_state l) with
      | None => l
      | Some (m, s') => mkLog s' (lg_attempts l) (lg_accepted l) (lg_received l ++ [m])
      end
  | Disable => mkLog (Sideband_disable (lg_state l)) (lg_attempts l) (lg_accepted l) (lg_received l)
  end.

Definition drops (q : QueueCounters) : Z := qc_oversized q + qc_congested q + qc_closed q.

(** Everything accepted was received or is queued, in order; the queue is within
    its capacity; everything else is in exactly one counter. *)
Definition log_ok (cap mx : Z) (l : sideband_log) : Prop :=
  let s := lg_state l in
  let q := sb_counters s in
  lg_accepted l = lg_received l ++ ch_queue (sb_channel s) ∧
  len (ch_queue (sb_channel s)) <= cap ∧ ch_capacity (sb_channel s) = cap ∧
  sb_max_datagram s = mx ∧
  Forall (λ f, f ≠ [] ∧ len f <= mx) (lg_accepted l) ∧
  0 <= qc_oversized q ∧ 0 <= qc_congested q ∧ 0 <= qc_closed q ∧
  lg_attempts l = len (lg_accepted l) + drops q.

Lemma fetch_add_1_small n : 0 <= n < 2 ^ 64 - 1 → fetch_add_1 n = n + 1.
Proof. intros Hn. unfold fetch_add_1. apply Z.mod_small. lia. Qed.

Lemma log_ok_send cap mx l f :
  log_ok cap mx l → lg_attempts l < 2 ^ 64 - 1 → log_ok cap mx (sideband_apply l (Send f)).
Proof.
  intros (Ha & Hq & Hc & Hm & HF & H0 & H1 & H2 & Hn) Hlt. unfold drops in Hn.
  pose proof (len_nonneg (lg_accepted l)). cbn [sideband_apply]. unfold Sideband_try_send.
  destruct (is_nil f || (sb_max_datagram (lg_state l) <? len f)) eqn:Eg;
    [|destruct (negb (sb_available (lg_state l)));
      [|pose proof (ch_try_send_spec (sb_channel (lg_state l)) f) as Hs;
        destruct (ch_closed (sb_channel (lg_state l)));
        [rewrite Hs|destruct (_ <=? _) eqn:Ef; [rewrite Hs|destruct Hs as (c' & -> & Hq' & Hc' & _)]]]].
  5: { apply orb_false_iff in Eg as [Hn0%is_nil_false Hl%Z.ltb_ge]. apply Z.leb_gt in Ef.
       unfold log_ok, drops.
       cbn [lg_state lg_accepted lg_received lg_attempts sb_channel sb_counters sb_max_datagram is_ok].
       rewrite Hq', Hc', Ha, !len_app, len_cons, len_nil. rewrite Ha, len_app in Hn.
       split_and!; try done; try lia; [by rewrite <- app_assoc|].
       apply Forall_app. rewrite <- Ha. split; [done|]. repeat constructor; [done|lia]. }
  all: repeat split; cbn; try done; unfold drops; cbn; rewrite ?fetch_add_1_small by lia; lia.
Qed.

Lemma log_ok_other cap mx l o :
  log_ok cap mx l → match o with Send _ => False | _ => True end → log_ok cap mx (sideband_apply l o).
Proof.
  intros Hlog Ho. pose proof Hlog as (Ha & Hq & Hc & Hm & Hr). destruct o as [f| |]; [done| |done]. cbn. unfold Sideband_recv.
  pose proof (ch_recv_spec (sb_channel (lg_state l))) as Hs.
  destruct (ch_queue (sb_channel (lg_state l))) as [|m q] eqn:Eq.
  - by rewrite Hs.
  - destruct Hs as (c' & -> & Hq' & Hc' & _). rewrite len_cons in Hq.
    unfold log_ok. cbn [mbind option_bind lg_state lg_accepted lg_received lg_attempts sb_channel
      sb_counters sb_max_datagram]. rewrite Hq', Hc'.
    split; [by rewrite Ha, <- app_assoc|]. split; [lia|]. done.
Qed.

(** The optional path never blocks and hides no loss. Over any sequence of
    sends, receives and disables on a fresh bounded queue (fewer than 2^64
    sends), every send was either accepted or added one to exactly one of the
    drop counters; the accepted frames are, in order, the received ones
    followed by the queued ones; the queue never exceeds its capacity; and no
    accepted frame is empty or oversized. *)
Theorem sideband_accounts capacity mx s0 ops :
  bounded_datagrams capacity mx = Some s0 → 0 <= capacity →
  len (omap (λ o, match o with Send f => Some f | _ => None end) ops) < 2 ^ 64 →
  log_ok capacity mx (foldl sideband_apply (mkLog s0 0 [] []) ops).
Proof.
  unfold bounded_datagrams. destruct (_ || _); [done|]. intros [= <-] Hcap.
  assert (log_ok capacity mx (mkLog (mkSideband (ch_new capacity) mx (mkCounters 0 0 0) true) 0 [] [])) as H0.
  { destruct (ch_new_queue capacity) as (Hq & Hc & _). repeat split; cbn; try rewrite Hq; done. }
  assert (lg_attempts (mkLog (mkSideband (ch_new capacity) mx (mkCounters 0 0 0) true) 0 [] []) = 0) as Hn
    by done.
  revert H0 Hn. generalize (mkLog (mkSideband (ch_new capacity) mx (mkCounters 0 0 0) true) 0 [] []).
  intros l0 H0 Hn Hlen.
  assert (lg_attempts l0 + len (omap (λ o, match o with Send f => Some f | _ => None end) ops) < 2 ^ 64)
    as Hb by lia. clear Hlen Hn.
  revert l0 H0 Hb. induction ops as [|o ops IH]; intros l0 H0 Hb; cbn [foldl]; [done|].
  destruct o as [f| |]; cbn [omap list_omap] in Hb.
  - rewrite len_cons in Hb. apply IH; [apply log_ok_send; [done|]|].
    + pose proof (len_nonneg (omap (λ o, match o with Send f => Some f | _ => None end) ops)).
      unfold omap in *. lia.
    + cbn. destruct (Sideband_try_send (lg_state l0) f) as [r s']. cbn. lia.
  - apply IH; [by apply log_ok_other|]. cbn. destruct (Sideband_recv (lg_state l0)) as [[m s']|]; done.
  - apply IH; [by apply log_ok_other|done].
Qed.
End Queue.

(** ** Routes *)

Section Routes.
Context `{Channel C}.
Implicit Types (r : RoutedDatagramRoutes C) (t : Token).

(** What one session sees of the router: its ceiling and its channel. *)
Definition route_view r t : option (Z * C) :=
  route ← routes r !! t;
  c ← channels r !! ro_sender route;
  Some (ro_maximum route, c).

Definition Routes_inv r : Prop :=
  Routes_len r <= max_routes r ∧
  (∀ i, is_Some (channels r !! i) → i < next_channel r) ∧
  map_Forall (λ t route, zero_token t = false ∧ valid_datagram_maximum (ro_maximum route) = true ∧
                         is_Some (channels r !! ro_sender route)) (routes r) ∧
  (∀ t1 t2 ro1 ro2, routes r !! t1 = Some ro1 → routes r !! t2 = Some ro2 →
     ro_sender ro1 = ro_sender ro2 → t1 = t2).

(** The operations of the router and of the receivers [register] handed out. *)
Inductive route_op :=
| Register (t : Token) (maximum capacity : Z)
| SetMaximum (t : Token) (maximum : Z)
| RemoveRoute (t : Token)
| ClearRoutes
| RouteBytes (bytes : list byte)
| ReceiveFrom (handle : Z).

Definition route_apply r (o : route_op) : RoutedDatagramRoutes C :=
  match o with
  | Register t mx cap => match Routes_register r t mx cap with Some (_, r') => r' | None => r end
  | SetMaximum t mx => (Routes_set_maximum r t mx).2
  | RemoveRoute t => (Routes_remove r t).2
  | ClearRoutes => Routes_clear r
  | RouteBytes bytes => (Routes_route r bytes).2
  | ReceiveFrom i =>
      match channels r !! i ≫= ch_recv with
      | Some (_, c) => mkRoutes (routes r) (max_routes r) (<[i := c]> (channels r)) (next_channel r)
      | None => r
      end
  end.

(** Replacing the contents of channels that exist keeps the invariant. *)
Lemma inv_same_channels r chs :
  Routes_inv r → dom chs = dom (channels r) →
  Routes_inv (mkRoutes (routes r) (max_routes r) chs (next_channel r)).
Proof.
  intros (Hsz & Hn & HF & Hi) Hd. split_and!; cbn; try done.
  - intros i Hs. apply Hn. rewrite <- elem_of_dom in *. by rewrite <- Hd.
  - intros t ro Ht. destruct (HF t ro Ht) as (? & ? & ?). split_and!; try done.
    rewrite <- elem_of_dom in *. by rewrite Hd.
Qed.

(** So does dropping routes. *)
Lemma inv_fewer_routes r m :
  Routes_inv r → m ⊆ routes r →
  Routes_inv (mkRoutes m (max_routes r) (channels r) (next_channel r)).
Proof.
  intros (Hsz & Hn & HF & Hi) Hm. split_and!; cbn; try done.
  - unfold Routes_len in *. cbn. apply map_subseteq_size in Hm. lia.
  - intros t ro Ht. apply HF. by eapply lookup_weaken.
  - intros t1 t2 ro1 ro2 H1 H2. eapply Hi; by eapply lookup_weaken.
Qed.

Lemma inv_register r t mx cap :
  Routes_inv r → Routes_inv (route_apply r (Register t mx cap)).
Proof.
  intros Hinv. pose proof Hinv as (Hsz & Hn & HF & Hi). cbn. unfold Routes_register.
  destruct (zero_token t) eqn:Hz; [done|]. destruct (valid_datagram_maximum mx) eqn:Hv; cbn [negb]; [|done].
  destruct (cap =? 0); [done|]. destruct (routes r !! t) eqn:Ht; [done|].
  destruct (Z.leb_spec (max_routes r) (Routes_len r)); [done|]. unfold Routes_len in *.
  assert (∀ t' ro, routes r !! t' = Some ro → ro_sender ro ≠ next_channel r) as Hfresh.
  { intros t' ro Hr. destruct (HF t' ro Hr) as (_ & _ & Hs). apply Hn in Hs. lia. }
  split_and!; cbn.
  - unfold Routes_len. cbn. rewrite map_size_insert_None by done. lia.
  - intros i. rewrite lookup_insert_is_Some. intros [->|[_ Hs]]; [lia|]. apply Hn in Hs. lia.
  - apply map_Forall_insert_2.
    + split_and!; cbn; [done|done|]. by rewrite lookup_insert_eq.
    + intros t' ro Hr. destruct (HF t' ro Hr) as (? & ? & ?). split_and!; [done|done|].
      by rewrite lookup_insert_ne by (symmetry; eauto).
  - intros t1 t2 ro1 ro2 [[<- <-]|[_ Hr1]]%lookup_insert_Some [[<- <-]|[_ Hr2]]%lookup_insert_Some; cbn;
      [done| | |eauto].
    + intros Hs. by destruct (Hfresh t2 ro2 Hr2).
    + intros Hs. by destruct (Hfresh t1 ro1 Hr1).
Qed.

Lemma inv_set_maximum r t mx :
  Routes_inv r → Routes_inv (route_apply r (SetMaximum t mx)).
Proof.
  intros Hinv. pose proof Hinv as (Hsz & Hn & HF & Hi). cbn. unfold Routes_set_maximum.
  destruct (valid_datagram_maximum mx) eqn:Hv; cbn [negb]; [|done].
  destruct (routes r !! t) as [ro|] eqn:Ht; [|done]. destruct (HF t ro Ht) as (Hz & _ & Hs).
  split_and!; cbn; [| done | |].
  - unfold Routes_len in *. cbn. by rewrite map_size_insert_Some.
  - apply map_Forall_insert_2; [|done]. by split_and!.
  - intros t1 t2 ro1 ro2 [[<- <-]|[_ Hr1]]%lookup_insert_Some [[<- <-]|[_ Hr2]]%lookup_insert_Some; cbn;
      [done| | |eauto]; intros E; eauto.
Qed.

Lemma dom_drop_senders (l : list (Token * RoutedDatagramRoute)) (m : gmap Z C) :
  dom (foldr (λ x m, alter ch_drop_sender (ro_sender x.2) m) m l) = dom m.
Proof. induction l as [|x l IH]; cbn; [done|]. by rewrite dom_alter_L. Qed.

Lemma dom_replace (m : gmap Z C) i c c' : m !! i = Some c → dom (<[i := c']> m) = dom m.
Proof. intros Hc. rewrite dom_insert_L. assert (i ∈ dom m) by (by eapply elem_of_dom_2). set_solver. Qed.

Lemma route_apply_inv r o : Routes_inv r → Routes_inv (route_apply r o).
Proof.
  intros Hinv. destruct o as [t mx cap|t mx|t| |bytes|i].
  - by apply inv_register.
  - by apply inv_set_maximum.
  - unfold route_apply, Routes_remove. destruct (routes r !! t) as [ro|]; [|done]. cbn [snd].
    pose proof (inv_fewer_routes r _ Hinv (delete_subseteq (routes r) t)) as Hd.
    refine (inv_same_channels _ _ Hd _). apply dom_alter_L.
  - unfold route_apply, Routes_clear.
    pose proof (inv_fewer_routes r _ Hinv (map_empty_subseteq (routes r))) as Hd.
    refine (inv_same_channels _ _ Hd _). apply dom_drop_senders.
  - unfold route_apply, Routes_route. destruct (split_routed_datagram bytes) as [[t pl]|]; [|done].
    destruct (routes r !! t) as [ro|]; [|done]. destruct (_ <? _); [done|].
    destruct (channels r !! ro_sender ro) as [c|] eqn:Hc; [|done].
    destruct (ch_try_send c pl) as [c'|[]]; try done. apply inv_same_channels; [done|].
    by apply dom_replace with c.
  - cbn. destruct (channels r !! i) as [c|] eqn:Hc; cbn; [|done].
    destruct (ch_recv c) as [[m c']|]; [|done]. apply inv_same_channels; [done|].
    by apply dom_replace with c.
Qed.

(** The router's state stays sound. From any sound state every operation,
    of the router or of a receiver it handed out, leads to a sound state: at
    most [max_routes] routes, none for the zero token, every ceiling within the
    transport's bounds, every route with a channel of its own. *)
Theorem routes_invariant mx r0 ops :
  Routes_new mx = Some r0 → 0 <= mx → Routes_inv (foldl route_apply r0 ops).
Proof.
  unfold Routes_new. destruct (mx =? 0); [done|]. intros [= <-] Hmx.
  assert (Routes_inv (mkRoutes ∅ mx ∅ 0)) as H0.
  { split_and!; cbn [routes channels max_routes next_channel].
    - unfold Routes_len. cbn [routes]. rewrite map_size_empty. lia.
    - intros i. rewrite lookup_empty. by intros [? [=]].
    - apply map_Forall_empty.
    - intros t1 t2 ro1 ro2. by rewrite lookup_empty. }
  revert H0. generalize (mkRoutes ∅ mx ∅ 0 : RoutedDatagramRoutes C).
  induction ops as [|o ops IH]; intros r Hr; [done|]. by apply IH, route_apply_inv.
Qed.

Lemma len_token_split t pl : len t = TOKEN_BYTES → zero_token t = false → pl ≠ [] →
  split_routed_datagram (t ++ pl) = Ok (t, pl).
Proof.
  intros Hl Hz Hp. unfold split_routed_datagram.
  assert (length t = Z.to_nat ROUTED_DATAGRAM_HEADER) as Ht
    by (unfold ROUTED_DATAGRAM_HEADER; unfold len in Hl; lia).
  rewrite take_app_length', drop_app_length' by done. rewrite Hz.
  assert (0 < len pl) by (pose proof (len_nonneg pl); pose proof (proj1 (len_zero pl));
    destruct (Z.eq_dec (len pl) 0); [naive_solver|lia]).
  assert ((len (t ++ pl) <=? ROUTED_DATAGRAM_HEADER) = false) as ->; [|done].
  apply Z.leb_gt. rewrite len_app, Hl. unfold ROUTED_DATAGRAM_HEADER. lia.
Qed.

(** The view of a session after a route's channel was replaced. *)
Lemma view_replace r t ro c c' :
  Routes_inv r → routes r !! t = Some ro → channels r !! ro_sender ro = Some c →
  let r' := mkRoutes (routes r) (max_routes r) (<[ro_sender ro := c']> (channels r)) (next_channel r) in
  route_view r' t = Some (ro_maximum ro, c') ∧ ∀ t', t' ≠ t → route_view r' t' = route_view r t'.
Proof.
  intros (_ & _ & _ & Hi) Hr Hc. unfold route_view. cbn [routes channels]. split.
  - rewrite Hr. cbn. by rewrite lookup_insert_eq.
  - intros t' Hne. destruct (routes r !! t') as [ro'|] eqn:Hr'; cbn; [|done].
    rewrite lookup_insert_ne; [done|]. intros Heq. apply Hne. symmetry. by eapply Hi.
Qed.

(** C35: Routing is exact and isolated. A payload encoded for a session whose
    route is up, within its live ceiling, has exactly one of three fates, each
    decided by that session's channel alone: appended to the channel's queue,
    refused as congested because the queue is full, or refused as closed. No
    other session's ceiling or channel changes in any case. *)
Theorem routing_exact_and_isolated r t pl mx bs maximum c :
  Routes_inv r → len t = TOKEN_BYTES → encode_routed_datagram t pl mx = Ok bs →
  route_view r t = Some (maximum, c) → len pl <= maximum →
  let '(res, r') := Routes_route r bs in
  (∀ t', t' ≠ t → route_view r' t' = route_view r t') ∧
  (if ch_closed c then res = Err RouteClosed ∧ r' = r
   else if ch_capacity c <=? len (ch_queue c) then res = Err Congested ∧ r' = r
   else res = Ok () ∧ ∃ c', route_view r' t = Some (maximum, c') ∧ ch_queue c' = ch_queue c ++ [pl]).
Proof.
  intros Hinv Ht He Hv Hle. unfold encode_routed_datagram in He. inv_ok.
  apply orb_false_iff in Hv0 as [Hz Hn%is_nil_false].
  unfold Routes_route. rewrite len_token_split by done.
  unfold route_view in Hv. apply bind_Some in Hv as (ro & Hr & Hv). rewrite Hr.
  apply bind_Some in Hv as (c0 & Hc & [= <- <-]). rewrite (proj2 (Z.ltb_ge _ _) Hle), Hc.
  pose proof (ch_try_send_spec c0 pl) as Hs. destruct (ch_closed c0); [by rewrite Hs|].
  destruct (ch_capacity c0 <=? len (ch_queue c0)); [by rewrite Hs|].
  destruct Hs as (c' & -> & Hq & _). destruct (view_replace r t ro c0 c' Hinv Hr Hc) as [Hview Hothers].
  split; [done|]. split; [done|]. by exists c'.
Qed.
End Routes.

(** ** Concrete runtimes, and the theorems at concrete inputs *)

#[export] Instance list_sink : AsyncSink (list byte).
Proof.
  refine {| written := fun l => l; write_all := fun l bs => Ok (l ++ bs) |}.
  by intros w bs w' [= <-].
Defined.

(** A FIFO queue with a capacity. *)
#[export] Instance queue_channel : Channel (Z * list (list byte)).
Proof.
  refine {|
    ch_new := fun n => (n, []);
    ch_queue := snd;
    ch_capacity := fst;
    ch_closed := fun _ => false;
    ch_try_send := fun c m => if c.1 <=? len c.2 then Err Full_ else Ok (c.1, c.2 ++ [m]);
    ch_recv := fun c => match c.2 with [] => None | m :: q => Some (m, (c.1, q)) end;
    ch_drop_sender := fun c => c
  |}; [done| | |done].
  - intros [n q] m. cbn [fst snd]. destruct (n <=? len q); [done|]. by eexists.
  - intros [n [|m q]]; cbn; [done|]. by eexists.
Defined.

Definition sample_pay : list byte := bytes_of [1; 2; 3; 4; 5; 6].

Lemma sideband_framing_witness :
  ∃ s', read_datagram (to_le 4 6 ++ sample_pay ++ bytes_of [9]) 1200 = Ok (sample_pay, s') ∧
        s' = bytes_of [9].
Proof.
  refine (proj1 (sideband_framing (St := list byte) (W := list byte)
    [] (to_le 4 6 ++ sample_pay) 1200 sample_pay (to_le 4 6 ++ sample_pay) _ _) _ (bytes_of [9]) _).
  - vm_compute. reflexivity.
  - reflexivity.
  - reflexivity.
Defined.

Lemma sideband_accounts_witness :
  log_ok 1 8 (foldl sideband_apply
    (mkLog (mkSideband (1, []) 8 (mkCounters 0 0 0) true : Sideband (Z * list (list byte))) 0 [] [])
    [Send sample_pay; Send sample_pay; Recv; Send []; Send sample_pay; Disable; Send sample_pay]).
Proof.
  refine (sideband_accounts (C := Z * list (list byte)) 1 8 _ _ _ _ _).
  - reflexivity.
  - lia.
  - vm_compute. reflexivity.
Defined.

Lemma routes_invariant_witness :
  Routes_inv (foldl route_apply (mkRoutes ∅ 2 ∅ 0 : RoutedDatagramRoutes (Z * list (list byte)))
    [Register sample_token 32 1; RouteBytes (sample_token ++ sample_pay); ReceiveFrom 0;
     SetMaximum sample_token 5; RemoveRoute sample_token; ClearRoutes]).
Proof. apply (routes_invariant 2); [reflexivity|lia]. Defined.

Definition sample_routes : RoutedDatagramRoutes (Z * list (list byte)) :=
  mkRoutes {[ sample_token := mkRoute 0 32 ]} 2 {[ 0 := (1, []) ]} 1.

Lemma routing_exact_and_isolated_witness :
  let '(res, r') := Routes_route sample_routes (sample_token ++ sample_pay) in
  (∀ t', t' ≠ sample_token → route_view r' t' = route_view sample_routes t') ∧
  res = Ok () ∧ ∃ c', route_view r' sample_token = Some (32, c') ∧ ch_queue c' = [] ++ [sample_pay].
Proof.
  assert (Routes_inv sample_routes) as Hinv.
  { split_and!.
    - vm_compute. discriminate.
    - intros i. cbn. rewrite lookup_singleton_is_Some. intros <-. done.
    - apply map_Forall_singleton. split_and!; [vm_compute; reflexivity|reflexivity|by exists (1, [])].
    - intros t1 t2 ro1 ro2 Hr1 Hr2. unfold sample_routes in Hr1, Hr2. cbn [routes] in Hr1, Hr2.
      apply lookup_singleton_Some in Hr1 as [<- _].
      by apply lookup_singleton_Some in Hr2 as [<- _]. }
  assert (route_view sample_routes sample_token = Some (32, (1, []))) as Hv by (vm_compute; reflexivity).
  assert (encode_routed_datagram sample_token sample_pay 32 = Ok (sample_token ++ sample_pay)) as He
    by (vm_compute; reflexivity).
  assert (len sample_token = TOKEN_BYTES) as Ht by (vm_compute; reflexivity).
  assert (len sample_pay <= 32) as Hl by (vm_compute; discriminate).
  exact (routing_exact_and_isolated sample_routes sample_token sample_pay 32 _ 32 _ Hinv Ht He Hv Hl).
Defined.
