(* ===== verification/Packed.v ===== *)
(** * Packed: the packed codec validators of [crates/yas/src/packed.rs]

    The framing YAS owns around audio, video and surface payloads: sample
    alignment and canonical samples for PCM, packet framing for Opus, start
    markers for the video codecs, and the metadata envelope of a Surface frame. *)

From Stdlib Require Import Floats.SpecFloat.
From S2P Require Import Prelude Schema Codec CodecFacts Wire.

(** ** Start markers and sample frames *)

Definition require_sample_frames (payload : list byte) (channels sample_bytes : Z)
    : result Error () :=
  frame_bytes ← ok_or (let n := channels * sample_bytes in
                       if n <=? USIZE_MAX then Some n else None) LengthOverflow;
  reject_if (is_nil payload || negb (len payload mod frame_bytes =? 0))
    (Invalid "Media PCM sample frame").

Fixpoint opus_packets (count : nat) : decoder () :=
  match count with
  | O => mret ()
  | S count' =>
      packet_len ← dec_u16;
      _ ← reject ((packet_len =? 0) || (packed_codec_media_codec_opus_MAX_PACKET_BYTES <? packet_len))
            (Invalid "Opus packet length");
      _ ← dec_take packet_len;
      opus_packets count'
  end.

Definition validate_opus (payload : list byte) : result Error () :=
  run (packet_count ← dec_u16;
       reserved ← dec_u16;
       _ ← reject (negb (reserved =? 0) || (packet_count =? 0)) (Invalid "Opus packet count");
       _ ← opus_packets (Z.to_nat packet_count);
       dec_finish) (Decoder_new payload).

Definition require_h264 (payload : list byte) : result Error () :=
  if starts_with payload (bytes_of [0; 0; 1]) || starts_with payload (bytes_of [0; 0; 0; 1])
  then Ok () else Err (Invalid "H.264 Annex-B access unit").

Definition require_av1 (payload : list byte) : result Error () :=
  if match payload with
     | b :: _ => Z.land (Z.shiftr (byte_val b) 3) 0x0f =? 2
     | [] => false
     end
  then Ok () else Err (Invalid "AV1 temporal delimiter").

Definition require_png (payload : list byte) : result Error () :=
  if starts_with payload (bytes_of [0x89; 80; 78; 71; 0x0d; 0x0a; 0x1a; 0x0a])
  then Ok () else Err (Invalid "PNG signature").

(** ** Canonical f32 samples *)

(** [f32::from_bits]: IEEE 754 binary32. *)
Definition f32_from_bits (bits : Z) : spec_float :=
  let s := Z.testbit bits 31 in
  let e := Z.land (Z.shiftr bits 23) 0xff in
  let m := Z.land bits 0x7fffff in
  if e =? 0xff then (if m =? 0 then S754_infinity s else S754_nan)
  else if e =? 0 then
    (match m with Zpos p => S754_finite s p (-149) | _ => S754_zero s end)
  else
    (match m + 0x800000 with Zpos p => S754_finite s p (e - 150) | _ => S754_nan end).

Definition f32_is_finite (v : spec_float) : bool :=
  match v with S754_zero _ | S754_finite _ _ _ => true | _ => false end.

Definition f32_one (negative : bool) : spec_float := S754_finite negative 0x800000 (-23).

(** [(-1.0..=1.0).contains(&value)] *)
Definition f32_in_unit (v : spec_float) : bool :=
  SFleb (f32_one true) v && SFleb v (f32_one false).

Definition canonical_sample (bits : Z) : bool :=
  let value := f32_from_bits bits in
  negb (negb (f32_is_finite value) || negb (f32_in_unit value) || (bits =? 0x80000000)).

(** [payload.as_chunks::<4>().0]: the whole 4-byte chunks. *)
Fixpoint as_chunks_4 (l : list byte) : list (list byte) :=
  match l with
  | a :: b :: c :: d :: l' => [a; b; c; d] :: as_chunks_4 l'
  | _ => []
  end.

Definition validate_f32_samples (payload : list byte) : result Error () :=
  for_each (fun sample => reject_if (negb (canonical_sample (from_le sample)))
                            (Invalid "canonical Media f32 sample")) (as_chunks_4 payload).

Definition validate_media (codec : Z) (payload : list byte) (channels : Z) : result Error () :=
  _ ← reject_if (channels =? 0) (Invalid "Media channel count");
  if codec =? packed_codec_MEDIA_CODEC_PCM_S16LE then require_sample_frames payload channels 2
  else if codec =? packed_codec_MEDIA_CODEC_PCM_F32LE then
    _ ← require_sample_frames payload channels 4;
    validate_f32_samples payload
  else if codec =? packed_codec_MEDIA_CODEC_OPUS then validate_opus payload
  else if (codec =? packed_codec_MEDIA_CODEC_H264) || (codec =? packed_codec_MEDIA_CODEC_H264_444)
  then require_h264 payload
  else if (codec =? packed_codec_MEDIA_CODEC_AV1) || (codec =? packed_codec_MEDIA_CODEC_AV1_444)
  then require_av1 payload
  else if codec =? packed_codec_MEDIA_CODEC_VP9 then
    reject_if (is_nil payload) (Invalid "empty VP9 frame")
  else if codec =? packed_codec_MEDIA_CODEC_MJPEG then
    reject_if ((len payload <? 4) || negb (starts_with payload (bytes_of [0xff; 0xd8]))
               || negb (ends_with payload (bytes_of [0xff; 0xd9])))
      (Invalid "MJPEG interchange datastream")
  else Err (UnsupportedCodec codec).

(** ** The Surface envelope *)

Record SurfaceColorSpace := mkColor { cs_primaries : Z; cs_transfer : Z; cs_matrix : Z; cs_range : Z }.
Record SurfaceDamageRect := mkRect { rc_x : Z; rc_y : Z; rc_width : Z; rc_height : Z }.
Record SurfaceDimensions := mkDims { dm_width : Z; dm_height : Z }.

Record SurfacePayload := mkSurface {
  sp_color_space : option SurfaceColorSpace; sp_damage : option (list SurfaceDamageRect);
  sp_dimensions : option SurfaceDimensions; sp_logical_dimensions : option SurfaceDimensions;
  sp_bitstream : list byte
}.

Abbreviation METADATA_COLOR_SPACE := packed_codec_surface_codec_h264_v1_METADATA_COLOR_SPACE.
Abbreviation METADATA_DAMAGE := packed_codec_surface_codec_h264_v1_METADATA_DAMAGE.
Abbreviation METADATA_DIMENSIONS := packed_codec_surface_codec_h264_v1_METADATA_DIMENSIONS.
Abbreviation METADATA_LOGICAL_DIMENSIONS :=
  packed_codec_surface_codec_h264_v1_METADATA_LOGICAL_DIMENSIONS.
Abbreviation MAX_DAMAGE_RECTS := packed_codec_surface_codec_h264_v1_MAX_DAMAGE_RECTS.

Definition color_space_body : decoder SurfaceColorSpace :=
  primaries ← dec_u8; transfer ← dec_u8; matrix ← dec_u8; range ← dec_u8;
  _ ← dec_finish;
  mret (mkColor primaries transfer matrix range).

Definition damage_rect : decoder SurfaceDamageRect :=
  x ← dec_u32; y ← dec_u32; width ← dec_u32; height ← dec_u32;
  _ ← reject ((width =? 0) || (height =? 0)) (Invalid "empty Surface damage rectangle");
  mret (mkRect x y width height).

Definition damage_body : decoder (list SurfaceDamageRect) :=
  rect_count ← dec_u16;
  reserved ← dec_u16;
  left ← remaining;
  _ ← reject (negb (reserved =? 0) || (MAX_DAMAGE_RECTS <? rect_count) || (left / 16 <? rect_count))
        (Invalid "Surface damage count");
  rectangles ← dec_repeat (Z.to_nat rect_count) damage_rect;
  _ ← dec_finish;
  mret rectangles.

Definition dimensions_body : decoder SurfaceDimensions :=
  width ← dec_u32; height ← dec_u32;
  _ ← reject ((width =? 0) || (height =? 0)) (Invalid "empty Surface dimensions");
  _ ← dec_finish;
  mret (mkDims width height).

(** One metadata entry, stored into the payload under construction. *)
Definition apply_metadata (tag flags : Z) (body : list byte) (v : SurfacePayload)
    : result Error SurfacePayload :=
  if tag =? METADATA_COLOR_SPACE then
    c ← run color_space_body (Decoder_new body);
    Ok (mkSurface (Some c) (sp_damage v) (sp_dimensions v) (sp_logical_dimensions v) (sp_bitstream v))
  else if tag =? METADATA_DAMAGE then
    d ← run damage_body (Decoder_new body);
    Ok (mkSurface (sp_color_space v) (Some d) (sp_dimensions v) (sp_logical_dimensions v) (sp_bitstream v))
  else if (tag =? METADATA_DIMENSIONS) || (tag =? METADATA_LOGICAL_DIMENSIONS) then
    d ← run dimensions_body (Decoder_new body);
    if tag =? METADATA_DIMENSIONS then
      Ok (mkSurface (sp_color_space v) (sp_damage v) (Some d) (sp_logical_dimensions v) (sp_bitstream v))
    else Ok (mkSurface (sp_color_space v) (sp_damage v) (sp_dimensions v) (Some d) (sp_bitstream v))
  else if has_bits flags 1 then Err (Invalid "required Surface metadata")
  else Ok v.

Fixpoint metadata_loop (count : nat) (previous : option Z) (v : SurfacePayload)
    : decoder SurfacePayload :=
  match count with
  | O => mret v
  | S count' =>
      tag ← dec_u16;
      flags ← dec_u16;
      length ← dec_u32;
      body ← dec_take length;
      _ ← reject (tag_not_after previous tag || has_other_bits flags 1)
            (Invalid "Surface metadata order or flags");
      v ← lift (apply_metadata tag flags body v);
      metadata_loop count' (Some tag) v
  end.

Definition surface_codec_registered (codec : Z) : bool :=
  (codec =? packed_codec_SURFACE_CODEC_H264_V1) || (codec =? packed_codec_SURFACE_CODEC_AV1_V1)
  || (codec =? packed_codec_SURFACE_CODEC_PNG_V1).

(** The [match codec] over the bitstream that both directions share. *)
Definition require_bitstream (codec : Z) (bitstream : list byte) : result Error () :=
  if codec =? packed_codec_SURFACE_CODEC_H264_V1 then require_h264 bitstream
  else if codec =? packed_codec_SURFACE_CODEC_AV1_V1 then require_av1 bitstream
  else if codec =? packed_codec_SURFACE_CODEC_PNG_V1 then require_png bitstream
  else Err (UnsupportedCodec codec).

Definition set_bitstream (v : SurfacePayload) (bitstream : list byte) : SurfacePayload :=
  mkSurface (sp_color_space v) (sp_damage v) (sp_dimensions v) (sp_logical_dimensions v) bitstream.

Definition surface_read (codec : Z) : decoder SurfacePayload :=
  count ← dec_u8;
  reserved ← dec_take 3;
  _ ← reject (negb (bool_decide (reserved = zeros 3))) (Invalid "Surface metadata reserved bytes");
  v ← metadata_loop (Z.to_nat count) None (mkSurface None None None None []);
  bitstream ← dec_rest;
  _ ← lift (require_bitstream codec bitstream);
  mret (set_bitstream v bitstream).

Definition decode_surface (codec : Z) (payload : list byte) : result Error SurfacePayload :=
  _ ← reject_if (negb (surface_codec_registered codec)) (UnsupportedCodec codec);
  run (surface_read codec) (Decoder_new payload).

Definition encode_color_space (c : SurfaceColorSpace) (out : list byte) : list byte :=
  let out := put_u16 out (as_u16 METADATA_COLOR_SPACE) in
  let out := put_u16 out 0 in
  let out := put_u32 out 4 in
  out ++ [byte_of (cs_primaries c); byte_of (cs_transfer c); byte_of (cs_matrix c); byte_of (cs_range c)].

Definition encode_rect (r : SurfaceDamageRect) (out : list byte) : result Error (list byte) :=
  _ ← reject_if ((rc_width r =? 0) || (rc_height r =? 0)) (Invalid "empty Surface damage rectangle");
  Ok (put_u32 (put_u32 (put_u32 (put_u32 out (rc_x r)) (rc_y r)) (rc_width r)) (rc_height r)).

Definition encode_damage (damage : list SurfaceDamageRect) (out : list byte)
    : result Error (list byte) :=
  _ ← reject_if (MAX_DAMAGE_RECTS <? len damage) (Invalid "Surface damage count");
  let out := put_u16 out (as_u16 METADATA_DAMAGE) in
  let out := put_u16 out 0 in
  product ← ok_or (if len damage * 16 <=? USIZE_MAX then Some (len damage * 16) else None) LengthOverflow;
  body_len ← ok_or (checked_add_u64 4 product) LengthOverflow;
  out ← put_len_u32 out body_len;
  n ← ok_or (try_u16 (len damage)) LengthOverflow;
  let out := put_u16 out n in
  let out := put_u16 out 0 in
  try_fold encode_rect damage out.

Definition encode_dimensions (tag : Z) (d : option SurfaceDimensions) (out : list byte)
    : result Error (list byte) :=
  match d with
  | None => Ok out
  | Some d =>
      _ ← reject_if ((dm_width d =? 0) || (dm_height d =? 0)) (Invalid "empty Surface dimensions");
      let out := put_u16 out (as_u16 tag) in
      let out := put_u16 out 0 in
      let out := put_u32 out 8 in
      Ok (put_u32 (put_u32 out (dm_width d)) (dm_height d))
  end.

Definition is_some_1 {A} (o : option A) : Z := match o with Some _ => 1 | None => 0 end.

Definition encode_surface (codec : Z) (v : SurfacePayload) : result Error (list byte) :=
  _ ← require_bitstream codec (sp_bitstream v);
  let count := is_some_1 (sp_color_space v) + is_some_1 (sp_damage v)
               + is_some_1 (sp_dimensions v) + is_some_1 (sp_logical_dimensions v) in
  let out := push_u8 [] count in
  let out := out ++ zeros 3 in
  let out := match sp_color_space v with Some c => encode_color_space c out | None => out end in
  out ← match sp_damage v with Some d => encode_damage d out | None => Ok out end;
  out ← encode_dimensions METADATA_DIMENSIONS (sp_dimensions v) out;
  out ← encode_dimensions METADATA_LOGICAL_DIMENSIONS (sp_logical_dimensions v) out;
  Ok (out ++ sp_bitstream v).
