(* ===== verification/PackedFacts.v ===== *)
(** * PackedFacts: theorems about the packed codec validators *)

From Stdlib Require Import Floats.SpecFloat.
From S2P Require Import Prelude Schema Codec CodecFacts Wire Packed.

(** ** Canonical f32 samples *)

(** The three fields of a binary32 word. *)
Lemma f32_sign bits : is_u32 bits → of_bool (Z.testbit bits 31) = bits / 2147483648.
Proof.
  intros Hb. assert (0 <= 31) as H31 by lia. pose proof (Z.testbit_spec' bits 31 H31) as Ht.
  change (2 ^ 31) with 2147483648 in Ht. rewrite Z.mod_small in Ht.
  - rewrite <- Ht. by destruct (Z.testbit bits 31).
  - split; [apply Z.div_pos; lia|]. apply Z.div_lt_upper_bound; lia.
Qed.

Lemma f32_exponent bits : Z.land (Z.shiftr bits 23) 0xff = (bits / 8388608) mod 256.
Proof. rewrite Z.shiftr_div_pow2 by lia. exact (Z.land_ones (bits / 8388608) 8 ltac:(lia)). Qed.

Lemma f32_mantissa bits : Z.land bits 0x7fffff = bits mod 8388608.
Proof. exact (Z.land_ones bits 23 ltac:(lia)). Qed.

Lemma f32_fields bits : is_u32 bits →
  bits = of_bool (Z.testbit bits 31) * 2147483648 + Z.land (Z.shiftr bits 23) 0xff * 8388608
         + Z.land bits 0x7fffff ∧
  0 <= Z.land (Z.shiftr bits 23) 0xff < 256 ∧ 0 <= Z.land bits 0x7fffff < 8388608.
Proof.
  intros Hb. rewrite f32_sign, f32_exponent, f32_mantissa by done.
  replace (bits / 2147483648) with (bits / 8388608 / 256) by (by rewrite Z.div_div).
  Z.to_euclidean_division_equations. lia.
Qed.

Lemma in_unit_finite s p e :
  f32_in_unit (S754_finite s p e) = (e <? -23) || ((e =? -23) && (Z.pos p <=? 0x800000)).
Proof.
  unfold f32_in_unit, SFleb, f32_one, SFcompare.
  generalize 8388608%positive. intros q. rewrite !Pos.compare_cont_spec.
  rewrite (Z.compare_antisym e (-23)), (Pos.compare_antisym p q).
  assert ((Z.pos p <=? Z.pos q) = match (p ?= q)%positive with Gt => false | _ => true end) as -> by done.
  destruct (Z.compare_spec e (-23)) as [->|H|H].
  - destruct s, (p ?= q)%positive; done.
  - replace (e <? -23) with true by lia. by destruct s.
  - replace (e <? -23) with false by lia. replace (e =? -23) with false by lia. by destruct s.
Qed.

(** The accepted words are those of magnitude at most one, but for minus zero. *)
Lemma canonical_sample_bits bits : is_u32 bits →
  canonical_sample bits = (bits <=? 0x3f800000) || ((0x80000000 <? bits) && (bits <=? 0xbf800000)).
Proof.
  intros Hb. destruct (f32_fields bits Hb) as (Hd & He & Hm). unfold canonical_sample, f32_from_bits.
  set (s := Z.testbit bits 31) in *. set (e := Z.land (Z.shiftr bits 23) 0xff) in *.
  set (m := Z.land bits 0x7fffff) in *. clearbody s e m.
  apply eq_true_iff_eq. destruct (Z.eqb_spec e 0xff) as [->|He1].
  { assert ((bits <=? 0x3f800000) || ((0x80000000 <? bits) && (bits <=? 0xbf800000)) = false) as ->
      by (destruct s; cbn [of_bool] in Hd; lia).
    destruct (m =? 0); [destruct s|]; done. }
  destruct (Z.eqb_spec e 0) as [->|He0].
  - destruct m as [|p|p]; [|rewrite in_unit_finite; cbn [f32_is_finite]|lia].
    + destruct s; cbn [of_bool] in Hd; cbn; lia.
    + destruct s; cbn [of_bool] in Hd; lia.
  - destruct (m + 0x800000) as [|p|p] eqn:Hp; [lia| |lia]. rewrite in_unit_finite. cbn [f32_is_finite].
    destruct s; cbn [of_bool] in Hd; lia.
Qed.

Lemma and_iff_compat_l' (A B C : Prop) : (A → B ↔ C) → A ∧ B ↔ A ∧ C.
Proof. tauto. Qed.

Lemma as_chunks_4_forall (P : list byte → Prop) l n :
  length l = (4 * n)%nat →
  Forall P (as_chunks_4 l) ↔ ∀ i, (i < n)%nat → P (take 4 (drop (4 * i) l)).
Proof.
  revert l. induction n as [|n IH]; intros l Hl.
  - destruct l; [|done]. cbn. split; [lia|by constructor].
  - destruct l as [|a [|b [|c [|d l]]]]; try (cbn in Hl; lia). cbn [as_chunks_4].
    rewrite Forall_cons_iff, IH by (cbn in Hl; lia). split.
    + intros [H0 Hr] [|i] Hi; [done|]. replace (4 * S i)%nat with (S (S (S (S (4 * i))))) by lia.
      apply Hr. lia.
    + intros H. split; [apply (H 0%nat); lia|]. intros i Hi. specialize (H (S i)).
      replace (4 * S i)%nat with (S (S (S (S (4 * i))))) in H by lia. apply H. lia.
Qed.

(** The f32 PCM validator accepts exactly canonical unit samples. A payload
    passes exactly when there is at least one channel, it is a nonzero whole
    number of sample frames, and every sample's bit pattern is that of a float
    of magnitude at most one and is not minus zero: no NaN, no infinity, nothing
    louder than full scale. *)
Theorem f32_validator_exact payload channels :
  is_u8 channels →
  validate_media packed_codec_MEDIA_CODEC_PCM_F32LE payload channels = Ok () ↔
  channels ≠ 0 ∧ payload ≠ [] ∧ len payload mod (channels * 4) = 0 ∧
  ∀ i, 4 * Z.of_nat i < len payload →
    let bits := from_le (take 4 (drop (4 * i) payload)) in
    bits <= 0x3f800000 ∨ 0x80000000 < bits <= 0xbf800000.
Proof.
  intros Hc. unfold validate_media. rewrite reject_bind_ok, Z.eqb_neq.
  change (packed_codec_MEDIA_CODEC_PCM_F32LE =? packed_codec_MEDIA_CODEC_PCM_S16LE) with false.
  change (packed_codec_MEDIA_CODEC_PCM_F32LE =? packed_codec_MEDIA_CODEC_PCM_F32LE) with true.
  cbv iota. unfold require_sample_frames. replace (channels * 4 <=? USIZE_MAX) with true by (unfold USIZE_MAX; lia).
  cbn [ok_or]. rewrite bind_is_ok. rewrite reject_bind_ok, orb_false_iff, is_nil_false, negb_false_iff, Z.eqb_eq.
  unfold validate_f32_samples. rewrite for_each_ok. apply and_iff_compat_l'. intros Hn.
  etransitivity; [|apply Logic.and_assoc]. apply and_iff_compat_l'. intros [_ Hm].
  assert (∃ n, length payload = (4 * n)%nat) as [n Hl].
  { exists (length payload / 4)%nat. apply Z.mod_divide in Hm as [k Hk]; [|lia]. unfold len in Hk.
    apply Nat2Z.inj. rewrite Nat2Z.inj_mul, Nat2Z.inj_div, Hk.
    replace (k * (channels * 4)) with (k * channels * Z.of_nat 4) by lia. rewrite Z.div_mul by lia. lia. }
  rewrite (as_chunks_4_forall _ _ n Hl). unfold len. rewrite Hl.
  assert (∀ i, (i < n)%nat → is_u32 (from_le (take 4 (drop (4 * i) payload)))) as Hb.
  { intros i Hi. pose proof (from_le_bound (take 4 (drop (4 * i) payload))) as Hb.
    replace (len (take 4 (drop (4 * i) payload))) with 4 in Hb; [done|].
    unfold len. rewrite length_take, length_drop. lia. }
  split; intros H i Hi.
  - assert (i < n)%nat as Hi' by lia. specialize (H i Hi').
    apply reject_if_ok, negb_false_iff in H. rewrite canonical_sample_bits in H by auto. cbn zeta. lia.
  - rewrite canonical_sample_bits by auto. apply reject_if_ok, negb_false_iff.
    specialize (H i). cbn zeta in H. lia.
Qed.

Lemma f32_validator_exact_witness :
  validate_media packed_codec_MEDIA_CODEC_PCM_F32LE (bytes_of [0; 0; 128; 63; 0; 0; 0; 191]) 2 = Ok ().
Proof.
  refine (proj2 (f32_validator_exact (bytes_of [0; 0; 128; 63; 0; 0; 0; 191]) 2 _) _); [lia|].
  split_and!; [done|done|vm_compute; reflexivity|]. intros [|[|i]] Hi.
  - left. vm_compute. discriminate.
  - right. vm_compute. split; [reflexivity|discriminate].
  - exfalso. change (len (bytes_of [0; 0; 128; 63; 0; 0; 0; 191])) with 8 in Hi. lia.
Defined.

(** ** The Surface envelope *)

Definition color_wf (c : SurfaceColorSpace) : Prop :=
  is_u8 (cs_primaries c) ∧ is_u8 (cs_transfer c) ∧ is_u8 (cs_matrix c) ∧ is_u8 (cs_range c).
Definition rect_wf (r : SurfaceDamageRect) : Prop :=
  is_u32 (rc_x r) ∧ is_u32 (rc_y r) ∧ is_u32 (rc_width r) ∧ is_u32 (rc_height r).
Definition dims_wf (d : SurfaceDimensions) : Prop := is_u32 (dm_width d) ∧ is_u32 (dm_height d).

Definition on_some {A} (P : A → Prop) (o : option A) : Prop :=
  match o with Some a => P a | None => True end.

(** The field ranges of the Rust types. *)
Definition SurfacePayload_wf (v : SurfacePayload) : Prop :=
  on_some color_wf (sp_color_space v) ∧ on_some (Forall rect_wf) (sp_damage v) ∧
  on_some dims_wf (sp_dimensions v) ∧ on_some dims_wf (sp_logical_dimensions v).

Definition rect_ok (r : SurfaceDamageRect) : Prop :=
  (rc_width r =? 0) || (rc_height r =? 0) = false.
Definition dims_ok (d : SurfaceDimensions) : Prop :=
  (dm_width d =? 0) || (dm_height d =? 0) = false.
Definition damage_ok (l : list SurfaceDamageRect) : Prop :=
  len l <= MAX_DAMAGE_RECTS ∧ Forall rect_ok l.

(** What the envelope demands beyond the ranges. *)
Definition surface_ok (v : SurfacePayload) : Prop :=
  on_some damage_ok (sp_damage v) ∧ on_some dims_ok (sp_dimensions v) ∧
  on_some dims_ok (sp_logical_dimensions v).

Definition color_bytes (c : SurfaceColorSpace) : list byte :=
  [byte_of (cs_primaries c)] ++ [byte_of (cs_transfer c)] ++ [byte_of (cs_matrix c)]
  ++ [byte_of (cs_range c)].
Definition rect_bytes (r : SurfaceDamageRect) : list byte :=
  to_le 4 (rc_x r) ++ to_le 4 (rc_y r) ++ to_le 4 (rc_width r) ++ to_le 4 (rc_height r).
Definition damage_bytes (l : list SurfaceDamageRect) : list byte :=
  to_le 2 (len l) ++ to_le 2 0 ++ concat (map rect_bytes l).
Definition dims_bytes (d : SurfaceDimensions) : list byte :=
  to_le 4 (dm_width d) ++ to_le 4 (dm_height d).
Definition item_bytes (tag : Z) (body : list byte) : list byte :=
  to_le 2 tag ++ to_le 2 0 ++ lp32 body.

(** The entry of a tag, when its value is present. *)
Definition entry {A} (tag : Z) (bytes : A → list byte) (o : option A) : list byte :=
  match o with Some a => item_bytes tag (bytes a) | None => [] end.

Definition surface_bytes (v : SurfacePayload) : list byte :=
  [byte_of (is_some_1 (sp_color_space v) + is_some_1 (sp_damage v) + is_some_1 (sp_dimensions v)
            + is_some_1 (sp_logical_dimensions v))] ++ zeros 3 ++
  entry 1 color_bytes (sp_color_space v) ++ entry 2 damage_bytes (sp_damage v) ++
  entry 3 dims_bytes (sp_dimensions v) ++ entry 4 dims_bytes (sp_logical_dimensions v) ++
  sp_bitstream v.

Lemma rects_encode_ok l out o :
  try_fold encode_rect l out = Ok o ↔ o = out ++ concat (map rect_bytes l) ∧ Forall rect_ok l.
Proof.
  revert out. induction l as [|r l IH]; intros out; cbn.
  - rewrite app_nil_r. split; [by intros [= ->]|intros [-> _]; done].
  - unfold encode_rect at 1. rewrite bind_ok. setoid_rewrite reject_bind_ok. setoid_rewrite IH.
    rewrite Forall_cons_iff. unfold rect_ok at 2, rect_bytes at 2, put_u32. split.
    + intros (? & [? [= <-]] & -> & ?). by rewrite <- !app_assoc.
    + intros (-> & ? & ?). eexists. split; [done|]. by rewrite <- !app_assoc.
Qed.

Lemma len_rects l : len (concat (map rect_bytes l)) = 16 * len l.
Proof.
  induction l as [|r l IH]; cbn [map concat]; [done|]. rewrite len_app, IH, len_cons.
  unfold rect_bytes. autorewrite with len. lia.
Qed.

Lemma len_damage_bytes l : len (damage_bytes l) = 4 + 16 * len l.
Proof. unfold damage_bytes. autorewrite with len. rewrite len_rects. lia. Qed.

Lemma encode_damage_ok l out o :
  encode_damage l out = Ok o ↔ o = out ++ item_bytes 2 (damage_bytes l) ∧ damage_ok l.
Proof.
  unfold encode_damage, damage_ok, item_bytes, lp32. rewrite reject_bind_ok, Z.ltb_ge, len_damage_bytes.
  unfold damage_bytes.
  change (as_u16 METADATA_DAMAGE) with 2. change MAX_DAMAGE_RECTS with 256.
  pose proof (len_nonneg l) as Hl.
  assert (len l <= 256 →
    (product ← ok_or (if len l * 16 <=? USIZE_MAX then Some (len l * 16) else None) LengthOverflow;
     body_len ← ok_or (checked_add_u64 4 product) LengthOverflow;
     out ← put_len_u32 (put_u16 (put_u16 out 2) 0) body_len;
     n ← ok_or (try_u16 (len l)) LengthOverflow;
     try_fold encode_rect l (put_u16 (put_u16 out n) 0)) =
    try_fold encode_rect l
      (out ++ to_le 2 2 ++ to_le 2 0 ++ to_le 4 (4 + 16 * len l) ++ to_le 2 (len l) ++ to_le 2 0)) as Hk.
  { intros Hle. replace (len l * 16 <=? USIZE_MAX) with true by (unfold USIZE_MAX; lia).
    cbn [ok_or]. rewrite bind_is_ok. unfold checked_add_u64.
    replace (4 + len l * 16 <=? U64_MAX) with true by (unfold U64_MAX; lia).
    cbn [ok_or]. rewrite bind_is_ok. unfold put_len_u32, try_u32, try_u16.
    replace (4 + len l * 16 <=? U32_MAX) with true by (unfold U32_MAX; lia).
    replace (len l <=? U16_MAX) with true by (unfold U16_MAX; lia).
    cbn [ok_or]. rewrite !bind_is_ok. unfold put_u16, put_u32. rewrite <- !app_assoc.
    by replace (len l * 16) with (16 * len l) by lia. }
  split.
  - intros [Hle H]. rewrite Hk in H by done. apply rects_encode_ok in H as [-> HF].
    split; [|done]. by rewrite <- !app_assoc.
  - intros (-> & Hle & HF). split; [done|]. rewrite Hk by done.
    apply rects_encode_ok. split; [|done]. by rewrite <- !app_assoc.
Qed.

Lemma encode_dimensions_ok tag d out o : is_u16 tag →
  encode_dimensions tag d out = Ok o ↔ o = out ++ entry tag dims_bytes d ∧ on_some dims_ok d.
Proof.
  intros Ht. unfold encode_dimensions, entry, on_some, item_bytes, lp32, dims_bytes, dims_ok.
  destruct d as [d|]; [|rewrite app_nil_r; naive_solver]. rewrite reject_bind_ok.
  replace (as_u16 tag) with tag by (unfold as_u16; rewrite Z.mod_small; lia).
  replace (len (to_le 4 (dm_width d) ++ to_le 4 (dm_height d))) with 8 by (by autorewrite with len).
  unfold put_u16, put_u32. rewrite <- !app_assoc. naive_solver.
Qed.

Lemma encode_surface_ok codec v bs :
  encode_surface codec v = Ok bs ↔
  bs = surface_bytes v ∧ require_bitstream codec (sp_bitstream v) = Ok () ∧ surface_ok v.
Proof.
  unfold encode_surface, surface_bytes, surface_ok. rewrite bind_ok.
  set (head := match sp_color_space v with Some c => _ | None => _ end).
  assert (head = [byte_of (is_some_1 (sp_color_space v) + is_some_1 (sp_damage v)
                           + is_some_1 (sp_dimensions v) + is_some_1 (sp_logical_dimensions v))]
                 ++ zeros 3 ++ entry 1 color_bytes (sp_color_space v)) as ->.
  { subst head. destruct (sp_color_space v); cbn [entry]; [|by rewrite app_nil_r].
    unfold encode_color_space, put_u16, put_u32, push_u8. by rewrite <- !app_assoc. }
  set (head := _ ++ zeros 3 ++ _).
  assert (∀ o, match sp_damage v with Some d => encode_damage d head | None => Ok head end = Ok o ↔
               o = head ++ entry 2 damage_bytes (sp_damage v) ∧ on_some damage_ok (sp_damage v)) as Hd.
  { intros o. destruct (sp_damage v); [apply encode_damage_ok|]. cbn. rewrite app_nil_r. naive_solver. }
  setoid_rewrite bind_ok. setoid_rewrite Hd. setoid_rewrite bind_ok.
  setoid_rewrite (encode_dimensions_ok METADATA_DIMENSIONS _ _ _ ltac:(done)).
  setoid_rewrite bind_ok.
  setoid_rewrite (encode_dimensions_ok METADATA_LOGICAL_DIMENSIONS _ _ _ ltac:(done)).
  change METADATA_DIMENSIONS with 3. change METADATA_LOGICAL_DIMENSIONS with 4. split.
  - intros ([] & Hb & o1 & [-> ?] & o2 & [-> ?] & o3 & [-> ?] & [= <-]).
    subst head. rewrite <- !app_assoc. done.
  - intros (-> & Hb & ? & ? & ?). exists (). split; [done|].
    do 3 (eexists; split; [done|]). subst head. by rewrite <- !app_assoc.
Qed.

(** *** Decoding *)

Lemma run_color c : color_wf c → run color_space_body (Decoder_new (color_bytes c)) = Ok c.
Proof.
  intros (? & ? & ? & ?). apply run_reads_end; [|done]. unfold color_space_body, color_bytes.
  destruct c as [c1 c2 c3 c4]; cbn [cs_primaries cs_transfer cs_matrix cs_range] in *. read_layout.
Qed.

Lemma run_dims d : dims_wf d → dims_ok d → run dimensions_body (Decoder_new (dims_bytes d)) = Ok d.
Proof.
  intros [? ?] Hok. apply run_reads_end; [|unfold dims_bytes; by autorewrite with len].
  unfold dimensions_body, dims_bytes, dims_ok in *. destruct d as [dw dh]; cbn [dm_width dm_height] in *. read_layout.
Qed.

Lemma reads_rect r : rect_wf r → rect_ok r → reads damage_rect (rect_bytes r) r.
Proof.
  intros (? & ? & ? & ?) Hok. unfold damage_rect, rect_bytes, rect_ok in *.
  destruct r as [x y rw rh]; cbn [rc_x rc_y rc_width rc_height] in *.
  rewrite <- (app_nil_r (to_le 4 rh)).
  repeat reads_step ltac:(first [assumption|lia]).
Qed.

Lemma run_damage l :
  Forall rect_wf l → damage_ok l → run damage_body (Decoder_new (damage_bytes l)) = Ok l.
Proof.
  intros Hw [Hl HF]. change MAX_DAMAGE_RECTS with 256 in Hl. pose proof (len_nonneg l).
  apply run_reads_end; [|rewrite len_damage_bytes; unfold ISIZE_MAX; lia].
  unfold damage_body, damage_bytes. reads_step idtac. reads_step idtac.
  intros d Hd. pose proof (dec_at_len _ _ Hd) as Hrem. rewrite len_rects in Hrem.
  assert (reads_end (_ ← reject (negb (0 =? 0) || (MAX_DAMAGE_RECTS <? len l) || (16 * len l / 16 <? len l))
                            (Invalid "Surface damage count");
                     rectangles ← dec_repeat (Z.to_nat (len l)) damage_rect;
                     _ ← dec_finish; mret rectangles) (concat (map rect_bytes l)) l) as Hr.
  { eapply reads_end_bind_nil; [apply reads_reject|].
    - change MAX_DAMAGE_RECTS with 256. rewrite Z.mul_comm, Z.div_mul by done. lia.
    - cbn beta. rewrite to_nat_len. eapply reads_end_bind_last; [apply reads_repeat|read_layout].
      rewrite Forall_forall in *. intros r Hin. apply reads_rect; auto. }
  specialize (Hr d Hd). unfold mbind at 1, decoder_bind at 1, remaining. by rewrite Hrem.
Qed.

Lemma reads_metadata n prev tag body v v' bs w :
  is_u16 tag → len body <= U32_MAX → tag_not_after prev tag = false →
  apply_metadata tag 0 body v = Ok v' →
  reads (metadata_loop n (Some tag) v') bs w →
  reads (metadata_loop (S n) prev v) (item_bytes tag body ++ bs) w.
Proof.
  intros Ht Hl Hp Ha Hr. cbn [metadata_loop]. unfold item_bytes, lp32. rewrite <- !app_assoc.
  eapply reads_bind; [by apply reads_u16|]. eapply reads_bind; [by apply (reads_u16 0)|].
  eapply reads_bind; [apply reads_u32; unfold U32_MAX in *; pose proof (len_nonneg body); lia|].
  eapply reads_bind; [by apply reads_take|].
  eapply reads_bind_nil; [apply reads_reject; by rewrite Hp|].
  eapply reads_bind_nil; [by apply reads_lift|]. done.
Qed.

(** Each entry stores its value. *)
Lemma apply_color c v : color_wf c →
  apply_metadata 1 0 (color_bytes c) v =
  Ok (mkSurface (Some c) (sp_damage v) (sp_dimensions v) (sp_logical_dimensions v) (sp_bitstream v)).
Proof. intros Hc. unfold apply_metadata. change (1 =? METADATA_COLOR_SPACE) with true. cbv iota. by rewrite run_color. Qed.
Lemma apply_damage l v : Forall rect_wf l → damage_ok l →
  apply_metadata 2 0 (damage_bytes l) v =
  Ok (mkSurface (sp_color_space v) (Some l) (sp_dimensions v) (sp_logical_dimensions v) (sp_bitstream v)).
Proof.
  intros Hw Hk. unfold apply_metadata. change (2 =? METADATA_COLOR_SPACE) with false.
  change (2 =? METADATA_DAMAGE) with true. cbv iota. by rewrite run_damage.
Qed.
Lemma apply_dims d v : dims_wf d → dims_ok d →
  apply_metadata 3 0 (dims_bytes d) v =
  Ok (mkSurface (sp_color_space v) (sp_damage v) (Some d) (sp_logical_dimensions v) (sp_bitstream v)).
Proof.
  intros Hw Hk. unfold apply_metadata. change (3 =? METADATA_COLOR_SPACE) with false.
  change (3 =? METADATA_DAMAGE) with false. change (3 =? METADATA_DIMENSIONS) with true.
  cbn [orb]. by rewrite run_dims.
Qed.
Lemma apply_logical d v : dims_wf d → dims_ok d →
  apply_metadata 4 0 (dims_bytes d) v =
  Ok (mkSurface (sp_color_space v) (sp_damage v) (sp_dimensions v) (Some d) (sp_bitstream v)).
Proof.
  intros Hw Hk. unfold apply_metadata. change (4 =? METADATA_COLOR_SPACE) with false.
  change (4 =? METADATA_DAMAGE) with false. change (4 =? METADATA_DIMENSIONS) with false.
  change (4 =? METADATA_LOGICAL_DIMENSIONS) with true. cbn [orb]. by rewrite run_dims.
Qed.

Lemma len_damage_fits l : damage_ok l → len (damage_bytes l) <= U32_MAX.
Proof. intros [Hl _]. rewrite len_damage_bytes. change MAX_DAMAGE_RECTS with 256 in Hl. unfold U32_MAX. lia. Qed.
Lemma len_dims_fits d : len (dims_bytes d) <= U32_MAX.
Proof. unfold dims_bytes. autorewrite with len. unfold U32_MAX. lia. Qed.

(** One optional entry of the table. *)
Lemma reads_entry {A} n prev tag (bytes : A → list byte) (o : option A)
    (put : option A → SurfacePayload) bs w :
  is_u16 tag → tag_not_after prev tag = false →
  (∀ a, o = Some a → len (bytes a) <= U32_MAX ∧
        apply_metadata tag 0 (bytes a) (put None) = Ok (put (Some a))) →
  (∀ prev', tag_not_after prev' (tag + 1) = false → reads (metadata_loop n prev' (put o)) bs w) →
  reads (metadata_loop (match o with Some _ => S n | None => n end) prev (put None))
    (entry tag bytes o ++ bs) w.
Proof.
  intros Ht Hp Ha Hr. destruct o as [a|]; cbn [entry app].
  - destruct (Ha a eq_refl). eapply reads_metadata; [done..|]. apply Hr. cbn. lia.
  - apply Hr. destruct prev as [q|]; cbn in *; [lia|done].
Qed.

Definition opt_succ {A} (o : option A) (n : nat) : nat := match o with Some _ => S n | None => n end.

Lemma count_entries {A B C D} (a : option A) (b : option B) (c : option C) (d : option D) :
  is_u8 (is_some_1 a + is_some_1 b + is_some_1 c + is_some_1 d) ∧
  Z.to_nat (is_some_1 a + is_some_1 b + is_some_1 c + is_some_1 d) =
  opt_succ a (opt_succ b (opt_succ c (opt_succ d 0))).
Proof. destruct a, b, c, d; done. Qed.

Lemma reads_entries v :
  SurfacePayload_wf v → surface_ok v →
  reads (metadata_loop
           (opt_succ (sp_color_space v) (opt_succ (sp_damage v)
              (opt_succ (sp_dimensions v) (opt_succ (sp_logical_dimensions v) 0))))
           None (mkSurface None None None None []))
    (entry 1 color_bytes (sp_color_space v) ++ entry 2 damage_bytes (sp_damage v) ++
     entry 3 dims_bytes (sp_dimensions v) ++ entry 4 dims_bytes (sp_logical_dimensions v) ++ [])
    (mkSurface (sp_color_space v) (sp_damage v) (sp_dimensions v) (sp_logical_dimensions v) []).
Proof.
  destruct v as [c l d g b]. intros (Hc & Hl & Hd & Hg) (Hl' & Hd' & Hg').
  cbn [sp_color_space sp_damage sp_dimensions sp_logical_dimensions] in *.
  apply (reads_entry _ None 1 color_bytes c (λ o, mkSurface o None None None [])); [lia|done| |].
  { intros a ->. split; [done|by apply apply_color]. }
  intros p1 Hp1.
  apply (reads_entry _ p1 2 damage_bytes l (λ o, mkSurface c o None None [])); [lia|done| |].
  { intros a ->. split; [by apply len_damage_fits|by apply apply_damage]. }
  intros p2 Hp2.
  apply (reads_entry _ p2 3 dims_bytes d (λ o, mkSurface c l o None [])); [lia|done| |].
  { intros a ->. split; [apply len_dims_fits|by apply apply_dims]. }
  intros p3 Hp3.
  apply (reads_entry _ p3 4 dims_bytes g (λ o, mkSurface c l d o [])); [lia|done| |].
  { intros a ->. split; [apply len_dims_fits|by apply apply_logical]. }
  intros p4 _. apply reads_mret.
Qed.

Lemma codec_registered codec bs :
  require_bitstream codec bs = Ok () → surface_codec_registered codec = true.
Proof.
  unfold require_bitstream, surface_codec_registered.
  destruct (codec =? packed_codec_SURFACE_CODEC_H264_V1), (codec =? packed_codec_SURFACE_CODEC_AV1_V1),
    (codec =? packed_codec_SURFACE_CODEC_PNG_V1); done.
Qed.

Lemma decode_surface_bytes codec v :
  SurfacePayload_wf v → surface_ok v → require_bitstream codec (sp_bitstream v) = Ok () →
  len (surface_bytes v) <= ISIZE_MAX → decode_surface codec (surface_bytes v) = Ok v.
Proof.
  intros Hw Hk Hb Hlen. unfold decode_surface. rewrite (codec_registered _ _ Hb). cbn [negb reject_if].
  rewrite bind_is_ok. apply run_reads_end; [|done]. unfold surface_read, surface_bytes.
  destruct (count_entries (sp_color_space v) (sp_damage v) (sp_dimensions v) (sp_logical_dimensions v))
    as [Hc Hn].
  eapply reads_end_bind; [by apply reads_u8|]. cbn beta.
  eapply reads_end_bind; [by apply reads_take|]. cbn beta.
  eapply reads_end_bind_nil; [apply reads_reject; by rewrite bool_decide_true|]. cbn beta. rewrite Hn.
  pose proof (reads_entries v Hw Hk) as Hr. rewrite app_nil_r in Hr. rewrite !app_assoc. rewrite !app_assoc in Hr.
  eapply reads_end_bind; [exact Hr|]. cbn beta.
  eapply reads_end_bind_all; [apply reads_end_rest|]. cbn beta.
  eapply reads_end_bind_nil; [by apply reads_lift|]. cbn beta.
  unfold set_bitstream. cbn [sp_color_space sp_damage sp_dimensions sp_logical_dimensions].
  destruct v. apply reads_end_mret.
Qed.

(** *** What decoding guarantees *)

Lemma spells_rect : spells damage_rect rect_bytes (λ r, rect_wf r ∧ rect_ok r).
Proof.
  intros d l r d' Hd H. unfold damage_rect in H. dec_inv. eexists. split; [|split; [done|]].
  - unfold rect_bytes. cbn [rc_x rc_y rc_width rc_height]. by rewrite <- !app_assoc.
  - split; [unfold rect_wf; cbn; lia|done].
Qed.

#[local] Hint Resolve spells_rect spells_repeat : spells.

Lemma color_body_good body c :
  len body <= ISIZE_MAX → run color_space_body (Decoder_new body) = Ok c → color_wf c.
Proof.
  intros Hlen [d' H]%run_ok. pose proof (dec_at_new _ Hlen) as Hat. unfold color_space_body in H.
  dec_inv. unfold color_wf. cbn. lia.
Qed.

Lemma dims_body_good body d :
  len body <= ISIZE_MAX → run dimensions_body (Decoder_new body) = Ok d → dims_wf d ∧ dims_ok d.
Proof.
  intros Hlen [d' H]%run_ok. pose proof (dec_at_new _ Hlen) as Hat. unfold dimensions_body in H.
  dec_inv. split; [unfold dims_wf; cbn; lia|done].
Qed.

Lemma damage_body_good body l :
  len body <= ISIZE_MAX → run damage_body (Decoder_new body) = Ok l → Forall rect_wf l ∧ damage_ok l.
Proof.
  intros Hlen [d' H]%run_ok. pose proof (dec_at_new _ Hlen) as Hat. unfold damage_body in H.
  apply decoder_bind_ok in H as (n & d1 & H1 & H). destruct (spells_u16 _ _ _ _ Hat H1) as (r1 & _ & Hd1 & Hn).
  apply decoder_bind_ok in H as (z & d2 & H2 & H). destruct (spells_u16 _ _ _ _ Hd1 H2) as (r2 & _ & Hd2 & _).
  apply decoder_bind_ok in H as (left & d3 & [= <- <-] & H).
  apply decoder_bind_ok in H as ([] & d4 & [Hg ->]%reject_ok & H).
  apply decoder_bind_ok in H as (rs & d5 & H3 & H).
  destruct (spells_repeat _ _ _ _ spells_rect _ _ _ _ Hd2 H3) as (r3 & _ & _ & HF & Hl).
  apply decoder_bind_ok in H as (u & d6 & _ & [= -> _]).
  assert (Forall rect_wf l ∧ Forall rect_ok l) as [HF1 HF2]
    by (split; (eapply Forall_impl; [|exact HF]; naive_solver)).
  split; [done|]. split; [|done].
  unfold len. rewrite Hl. change MAX_DAMAGE_RECTS with 256 in *. lia.
Qed.

Lemma apply_metadata_good tag flags body v v' :
  len body <= ISIZE_MAX → apply_metadata tag flags body v = Ok v' →
  SurfacePayload_wf v ∧ surface_ok v → SurfacePayload_wf v' ∧ surface_ok v'.
Proof.
  intros Hlen H Hgood. unfold apply_metadata in H. unfold SurfacePayload_wf, surface_ok in *.
  destruct (tag =? METADATA_COLOR_SPACE).
  { apply bind_ok in H as (c & ?%color_body_good & [= <-]); [|done]. cbn. tauto. }
  destruct (tag =? METADATA_DAMAGE).
  { apply bind_ok in H as (l & [? ?]%damage_body_good & [= <-]); [|done]. cbn. tauto. }
  destruct (tag =? METADATA_DIMENSIONS); cbn [orb] in H.
  { apply bind_ok in H as (l & [? ?]%dims_body_good & [= <-]); [|done]. cbn. tauto. }
  destruct (tag =? METADATA_LOGICAL_DIMENSIONS).
  { apply bind_ok in H as (l & [? ?]%dims_body_good & [= <-]); [|done]. cbn. tauto. }
  destruct (has_bits flags 1); [done|]. by injection H as <-.
Qed.

Lemma metadata_loop_good n prev v d l w d' :
  dec_at d l → metadata_loop n prev v d = Ok (w, d') →
  SurfacePayload_wf v ∧ surface_ok v →
  (SurfacePayload_wf w ∧ surface_ok w) ∧ ∃ l', dec_at d' l'.
Proof.
  revert prev v d l. induction n as [|n IH]; intros prev v d l Hd H Hg.
  - injection H as <- <-. by split; [|exists l].
  - cbn [metadata_loop] in H.
    apply decoder_bind_ok in H as (tag & d1 & H1 & H). destruct (spells_u16 _ _ _ _ Hd H1) as (r1 & _ & Hd1 & _).
    apply decoder_bind_ok in H as (fl & d2 & H2 & H). destruct (spells_u16 _ _ _ _ Hd1 H2) as (r2 & _ & Hd2 & _).
    apply decoder_bind_ok in H as (n3 & d3 & H3 & H). destruct (spells_u32 _ _ _ _ Hd2 H3) as (r3 & _ & Hd3 & Hn).
    apply decoder_bind_ok in H as (body & d4 & H4 & H).
    destruct (spells_take _ _ _ _ _ Hd3 H4) as (r4 & _ & Hd4 & Hl).
    apply decoder_bind_ok in H as ([] & d5 & [_ ->]%reject_ok & H).
    apply decoder_bind_ok in H as (v1 & d6 & [Ha ->]%lift_ok & H).
    eapply IH; [exact Hd4|exact H|]. eapply apply_metadata_good; [|exact Ha|done].
    unfold ISIZE_MAX. lia.
Qed.

Lemma decode_surface_good codec bs v :
  len bs <= ISIZE_MAX → decode_surface codec bs = Ok v →
  SurfacePayload_wf v ∧ surface_ok v ∧ require_bitstream codec (sp_bitstream v) = Ok ().
Proof.
  unfold decode_surface. intros Hlen [_ [d' H]%run_ok]%reject_bind_ok.
  pose proof (dec_at_new _ Hlen) as Hd. unfold surface_read in H.
  apply decoder_bind_ok in H as (n & d1 & H1 & H). destruct (spells_u8 _ _ _ _ Hd H1) as (r1 & _ & Hd1 & _).
  apply decoder_bind_ok in H as (z & d2 & H2 & H). destruct (spells_take _ _ _ _ _ Hd1 H2) as (r2 & _ & Hd2 & _).
  apply decoder_bind_ok in H as ([] & d3 & [_ ->]%reject_ok & H).
  apply decoder_bind_ok in H as (w & d4 & H3 & H).
  destruct (metadata_loop_good _ _ _ _ _ _ _ Hd2 H3) as [[Hw Hk] _]; [by repeat split|].
  apply decoder_bind_ok in H as (rest & d5 & _ & H).
  apply decoder_bind_ok in H as ([] & d6 & [Hb ->]%lift_ok & [= <- _]). done.
Qed.

Lemma len_surface_bytes v : surface_ok v → len (sp_bitstream v) <= U32_MAX →
  len (surface_bytes v) <= ISIZE_MAX.
Proof.
  intros (Hl & _) Hb. unfold surface_bytes, ISIZE_MAX, U32_MAX in *. rewrite !len_app, len_cons.
  change (len (zeros 3)) with 3.
  assert (len (entry 1 color_bytes (sp_color_space v)) <= 12) by (by destruct (sp_color_space v)).
  assert (∀ t d, len (entry t dims_bytes d) <= 16) as Hd.
  { intros t [d|]; [|done]. cbn [entry]. unfold item_bytes, lp32, dims_bytes. autorewrite with len. lia. }
  pose proof (Hd 3 (sp_dimensions v)). pose proof (Hd 4 (sp_logical_dimensions v)).
  assert (len (entry 2 damage_bytes (sp_damage v)) <= 8 + 4 + 16 * 256).
  { destruct (sp_damage v) as [l|]; [|vm_compute; discriminate]. destruct Hl as [Hl _]. change MAX_DAMAGE_RECTS with 256 in Hl.
    cbn [entry]. unfold item_bytes. autorewrite with len. rewrite len_damage_bytes. lia. }
  rewrite len_nil. lia.
Qed.

(** The Surface envelope round-trips and normalises. Decoding what
    [encode_surface] produced for a payload returns that payload; and whatever
    [decode_surface] accepts (unknown optional metadata included, which it
    drops) is a payload [encode_surface] accepts under the same codec, whose
    encoding decodes to the same payload. *)
Theorem surface_envelope_roundtrip codec :
  (∀ v bs, SurfacePayload_wf v → encode_surface codec v = Ok bs → len bs <= ISIZE_MAX →
     decode_surface codec bs = Ok v) ∧
  (∀ v bs, len bs <= ISIZE_MAX → decode_surface codec bs = Ok v → len (sp_bitstream v) <= U32_MAX →
     ∃ bs', encode_surface codec v = Ok bs' ∧ decode_surface codec bs' = Ok v).
Proof.
  split.
  - intros v bs Hw (-> & Hb & Hk)%encode_surface_ok Hlen. by apply decode_surface_bytes.
  - intros v bs Hlen (Hw & Hk & Hb)%decode_surface_good Hbl; [|done]. exists (surface_bytes v). split.
    + by rewrite encode_surface_ok.
    + apply decode_surface_bytes; [done..|]. by apply len_surface_bytes.
Qed.

Definition sample_surface : SurfacePayload :=
  mkSurface (Some (mkColor 1 1 1 0)) (Some [mkRect 0 0 16 9]) (Some (mkDims 424 302)) None
    (bytes_of [0; 0; 0; 1; 101; 136]).

Lemma surface_envelope_roundtrip_witness :
  decode_surface packed_codec_SURFACE_CODEC_H264_V1 (surface_bytes sample_surface) = Ok sample_surface.
Proof.
  refine (proj1 (surface_envelope_roundtrip packed_codec_SURFACE_CODEC_H264_V1)
            sample_surface (surface_bytes sample_surface) _ _ _).
  - repeat split; repeat constructor; cbn; lia.
  - vm_compute. reflexivity.
  - vm_compute. discriminate.
Defined.
