(* ===== verification/PositionerFacts.v ===== *)
(** * PositionerFacts: popup placement is exact and stays within bounds *)

From S2P Require Import Prelude.

(** * Popup placement of [crates/compositor/src/positioner.rs]

    [compute_position] places a popup next to its anchor rectangle and flips,
    slides or resizes it into the bounds. The numbers come from the Wayland
    client unchecked and the release profile does not check overflow, so [i32]
    arithmetic wraps: every sum and difference goes through [norm], which is
    [wrap_i32] for the program ([compute_position]) and the identity for the
    exact integer reading ([compute_exact]) it is compared with. *)

Record PositionerGeometry := mkGeometry {
  pg_size : Z * Z; pg_anchor_rect : Z * Z * Z * Z; pg_anchor : Z; pg_gravity : Z;
  pg_constraint_adjustment : Z; pg_offset : Z * Z
}.

Definition CONSTRAINT_SLIDE_X : Z := 1.
Definition CONSTRAINT_SLIDE_Y : Z := 2.
Definition CONSTRAINT_FLIP_X : Z := 4.
Definition CONSTRAINT_FLIP_Y : Z := 8.
Definition CONSTRAINT_RESIZE_X : Z := 16.
Definition CONSTRAINT_RESIZE_Y : Z := 32.

(** Two's complement [i32]. *)
Definition wrap_i32 (z : Z) : Z := (z + 2147483648) mod 4294967296 - 2147483648.

Definition flip_anchor_x (anchor : Z) : Z :=
  if anchor =? 3 then 4 else if anchor =? 4 then 3 else if anchor =? 5 then 7
  else if anchor =? 7 then 5 else if anchor =? 6 then 8 else if anchor =? 8 then 6 else anchor.

Definition flip_anchor_y (anchor : Z) : Z :=
  if anchor =? 1 then 2 else if anchor =? 2 then 1 else if anchor =? 5 then 6
  else if anchor =? 6 then 5 else if anchor =? 7 then 8 else if anchor =? 8 then 7 else anchor.

Definition flip_gravity_x (gravity : Z) : Z := flip_anchor_x gravity.
Definition flip_gravity_y (gravity : Z) : Z := flip_anchor_y gravity.

(** A popup: position in parent coordinates and size. *)
Record placement := mkPlace { px : Z; py : Z; pw : Z; ph : Z }.

Section Arithmetic.
Variable norm : Z → Z.

Definition add_i32 (a b : Z) : Z := norm (a + b).
Definition sub_i32 (a b : Z) : Z := norm (a - b).
Definition neg_i32 (a : Z) : Z := norm (- a).
(** [a / 2], rounding towards zero *)
Definition half (a : Z) : Z := norm (Z.quot a 2).

Definition anchor_point (g : PositionerGeometry) (anchor : Z) : Z * Z :=
  let '(ax, ay, aw, ah) := pg_anchor_rect g in
  if anchor =? 1 then (add_i32 ax (half aw), ay)
  else if anchor =? 2 then (add_i32 ax (half aw), add_i32 ay ah)
  else if anchor =? 3 then (ax, add_i32 ay (half ah))
  else if anchor =? 4 then (add_i32 ax aw, add_i32 ay (half ah))
  else if anchor =? 5 then (ax, ay)
  else if anchor =? 6 then (ax, add_i32 ay ah)
  else if anchor =? 7 then (add_i32 ax aw, ay)
  else if anchor =? 8 then (add_i32 ax aw, add_i32 ay ah)
  else (add_i32 ax (half aw), add_i32 ay (half ah)).

Definition gravity_offset (gravity pw ph : Z) : Z * Z :=
  if gravity =? 1 then (neg_i32 (half pw), neg_i32 ph)
  else if gravity =? 2 then (neg_i32 (half pw), 0)
  else if gravity =? 3 then (neg_i32 pw, neg_i32 (half ph))
  else if gravity =? 4 then (0, neg_i32 (half ph))
  else if gravity =? 5 then (neg_i32 pw, neg_i32 ph)
  else if gravity =? 6 then (neg_i32 pw, 0)
  else if gravity =? 7 then (0, neg_i32 ph)
  else if gravity =? 8 then (0, 0)
  else (neg_i32 (half pw), neg_i32 (half ph)).

Definition raw_position (g : PositionerGeometry) (anchor gravity : Z) : placement :=
  let '(ref_x, ref_y) := anchor_point g anchor in
  let '(pw, ph) := pg_size g in
  let '(gx, gy) := gravity_offset gravity pw ph in
  mkPlace (add_i32 (add_i32 ref_x gx) (fst (pg_offset g)))
          (add_i32 (add_i32 ref_y gy) (snd (pg_offset g)))
          (Z.max pw 1) (Z.max ph 1).

(** The bounds of one axis: the parent's absolute position, the first and the
    end coordinate. *)
Record axis := mkAxis { parent : Z; lo : Z; hi : Z }.

(** The popup lies within an axis' bounds. *)
Definition fits_axis (a : axis) (p size : Z) : bool :=
  (lo a <=? add_i32 (parent a) p) && (add_i32 (add_i32 (parent a) p) size <=? hi a).

(** [(lo - abs).max(0) + (abs + size - hi).max(0)] *)
Definition overflow (a : axis) (p size : Z) : Z :=
  let abs := add_i32 (parent a) p in
  add_i32 (Z.max (sub_i32 (lo a) abs) 0) (Z.max (sub_i32 (add_i32 abs size) (hi a)) 0).

Definition slide (a : axis) (p size : Z) : Z :=
  let abs := add_i32 (parent a) p in
  let p := if hi a <? add_i32 abs size then sub_i32 p (sub_i32 (add_i32 abs size) (hi a)) else p in
  let abs := add_i32 (parent a) p in
  if abs <? lo a then add_i32 p (sub_i32 (lo a) abs) else p.

Definition resize (a : axis) (p size : Z) : Z * Z :=
  let abs := add_i32 (parent a) p in
  let '(p, size) :=
    if abs <? lo a then
      let delta := sub_i32 (lo a) abs in (add_i32 p delta, sub_i32 size delta)
    else (p, size) in
  let size := if hi a <? add_i32 (add_i32 (parent a) p) size
              then sub_i32 (hi a) (add_i32 (parent a) p) else size in
  (p, Z.max size 1).

Definition fits (ax ay : axis) (r : placement) : bool :=
  fits_axis ax (px r) (pw r) && fits_axis ay (py r) (ph r).

(** FLIP_X: [inl] returns the flipped popup at once; [inr] goes on with the
    better of the two and the anchor and gravity it has. *)
Definition flip_x (g : PositionerGeometry) (ax ay : axis) (r : placement)
    : placement + (placement * Z * Z) :=
  if has_bits (pg_constraint_adjustment g) CONSTRAINT_FLIP_X then
    let fa := flip_anchor_x (pg_anchor g) in
    let fg := flip_gravity_x (pg_gravity g) in
    let f := raw_position g fa fg in
    if fits ax ay f then inl f
    else if overflow ax (px f) (pw f) <? overflow ax (px r) (pw r) then inr (f, fa, fg)
    else inr (r, pg_anchor g, pg_gravity g)
  else inr (r, pg_anchor g, pg_gravity g).

Definition flip_y (g : PositionerGeometry) (ax ay : axis) (r : placement)
    (cur_anchor cur_gravity : Z) : placement + placement :=
  if has_bits (pg_constraint_adjustment g) CONSTRAINT_FLIP_Y then
    let f := raw_position g (flip_anchor_y cur_anchor) (flip_gravity_y cur_gravity) in
    if fits ax ay f then inl f
    else if overflow ay (py f) (ph f) <? overflow ay (py r) (ph r) then inr f
    else inr r
  else inr r.

(** SLIDE and RESIZE, along X then Y. *)
Definition adjust (ca : Z) (ax ay : axis) (r : placement) : placement :=
  let x := if has_bits ca CONSTRAINT_SLIDE_X then slide ax (px r) (pw r) else px r in
  let y := if has_bits ca CONSTRAINT_SLIDE_Y then slide ay (py r) (ph r) else py r in
  let '(x, w) := if has_bits ca CONSTRAINT_RESIZE_X then resize ax x (pw r) else (x, pw r) in
  let '(y, h) := if has_bits ca CONSTRAINT_RESIZE_Y then resize ay y (ph r) else (y, ph r) in
  mkPlace x y w h.

(** The bounds of each axis. *)
Definition axis_x (parent_abs : Z * Z) (bounds : Z * Z * Z * Z) : axis :=
  let '(bx, _, bw, _) := bounds in mkAxis (fst parent_abs) bx (add_i32 bx bw).
Definition axis_y (parent_abs : Z * Z) (bounds : Z * Z * Z * Z) : axis :=
  let '(_, by_, _, bh) := bounds in mkAxis (snd parent_abs) by_ (add_i32 by_ bh).

Definition compute (g : PositionerGeometry) (parent_abs : Z * Z) (bounds : Z * Z * Z * Z)
    : placement :=
  let ca := pg_constraint_adjustment g in
  let ax := axis_x parent_abs bounds in
  let ay := axis_y parent_abs bounds in
  let r := raw_position g (pg_anchor g) (pg_gravity g) in
  if fits ax ay r || (ca =? 0) then r else
  match flip_x g ax ay r with
  | inl f => f
  | inr (r, cur_anchor, cur_gravity) =>
      match flip_y g ax ay r cur_anchor cur_gravity with
      | inl f => f
      | inr r => adjust ca ax ay r
      end
  end.
End Arithmetic.

(** The program, and its exact reading. *)
Definition compute_position := compute wrap_i32.
Definition compute_exact := compute (fun z => z).

(** ** Wrap-around does not happen on sane input *)

Lemma wrap_i32_id z : -2147483648 <= z <= 2147483647 → wrap_i32 z = z.
Proof. intros Hz. unfold wrap_i32. rewrite Z.mod_small; lia. Qed.

(** Coordinates and sizes up to 2^24 in magnitude: more than any screen. The program
    does not check that its numbers are. *)
Definition sane (z : Z) : Prop := -16777216 <= z <= 16777216.

Definition sane_geometry (g : PositionerGeometry) : Prop :=
  let '(ax, ay, aw, ah) := pg_anchor_rect g in
  sane (fst (pg_size g)) ∧ sane (snd (pg_size g)) ∧ sane ax ∧ sane ay ∧ sane aw ∧ sane ah ∧
  sane (fst (pg_offset g)) ∧ sane (snd (pg_offset g)).

Definition sane_bounds (parent_abs : Z * Z) (bounds : Z * Z * Z * Z) : Prop :=
  let '(bx, by_, bw, bh) := bounds in
  sane (fst parent_abs) ∧ sane (snd parent_abs) ∧ sane bx ∧ sane by_ ∧ sane bw ∧ sane bh.

Abbreviation exact := (fun z : Z => z).

(** Positions of raw popups, and the axes they are tested against. *)
Definition sane_place (r : placement) : Prop :=
  -83886080 <= px r <= 83886080 ∧ -83886080 <= py r <= 83886080 ∧
  1 <= pw r <= 16777216 ∧ 1 <= ph r <= 16777216.
Definition sane_axis (a : axis) : Prop :=
  sane (parent a) ∧ sane (lo a) ∧ -33554432 <= hi a <= 33554432.

(** Removes every wrap whose argument [lia] can bound. *)
Ltac unwrap :=
  unfold add_i32, sub_i32, neg_i32, half in *;
  repeat match goal with
  | |- context [wrap_i32 ?z] => rewrite (wrap_i32_id z) by lia
  | H : context [wrap_i32 ?z] |- _ => rewrite (wrap_i32_id z) in H by lia
  end.

Lemma half_bound a : sane a → wrap_i32 (Z.quot a 2) = Z.quot a 2 ∧ sane (Z.quot a 2).
Proof.
  unfold sane. intros Ha. assert (-16777216 <= Z.quot a 2 <= 16777216) as Hq.
  { Z.to_euclidean_division_equations. lia. }
  split; [apply wrap_i32_id; lia|done].
Qed.

Lemma anchor_point_exact g a : sane_geometry g →
  anchor_point wrap_i32 g a = anchor_point exact g a ∧
  -33554432 <= fst (anchor_point exact g a) <= 33554432 ∧
  -33554432 <= snd (anchor_point exact g a) <= 33554432.
Proof.
  unfold sane_geometry, anchor_point. destruct (pg_anchor_rect g) as [[[ax ay] aw] ah].
  intros (_ & _ & Hx & Hy & Hw & Hh & _). destruct (half_bound aw Hw) as [Ew Sw].
  destruct (half_bound ah Hh) as [Eh Sh]. unfold add_i32, half. rewrite !Ew, !Eh. unfold sane in *.
  repeat case_match; cbn [fst snd]; unwrap; (split; [done|lia]).
Qed.

Lemma gravity_offset_exact gr w h : sane w → sane h →
  gravity_offset wrap_i32 gr w h = gravity_offset exact gr w h ∧
  sane (fst (gravity_offset exact gr w h)) ∧ sane (snd (gravity_offset exact gr w h)).
Proof.
  intros Hw Hh. destruct (half_bound w Hw) as [Ew Sw]. destruct (half_bound h Hh) as [Eh Sh].
  unfold gravity_offset, neg_i32, half. rewrite !Ew, !Eh. unfold sane in *.
  repeat case_match; cbn [fst snd]; unwrap; (split; [done|lia]).
Qed.

(** A popup of the size the client asked for. *)
Definition candidate (g : PositionerGeometry) (r : placement) : Prop :=
  sane_place r ∧ pw r = Z.max (fst (pg_size g)) 1 ∧ ph r = Z.max (snd (pg_size g)) 1.

Lemma raw_position_exact g a gr : sane_geometry g →
  raw_position wrap_i32 g a gr = raw_position exact g a gr ∧ candidate g (raw_position exact g a gr).
Proof.
  intros Hg. destruct (anchor_point_exact g a Hg) as (Ea & Bx & By).
  assert (sane (fst (pg_size g)) ∧ sane (snd (pg_size g)) ∧
          sane (fst (pg_offset g)) ∧ sane (snd (pg_offset g))) as (Hw & Hh & Hx & Hy).
  { unfold sane_geometry in Hg. destruct (pg_anchor_rect g) as [[[? ?] ?] ?]. tauto. }
  destruct (gravity_offset_exact gr _ _ Hw Hh) as (Eg & Gx & Gy).
  unfold candidate, raw_position. rewrite Ea. destruct (anchor_point exact g a) as [rx ry].
  destruct (pg_size g) as [w h]. cbn [fst snd] in *. rewrite Eg.
  destruct (gravity_offset exact gr w h) as [gx gy]. cbn [fst snd] in *.
  unfold sane, sane_place in *. unwrap. cbn [px py pw ph]. split; [done|lia].
Qed.

Section Axis.
Context (a : axis) (p size : Z).
Hypothesis Ha : sane_axis a.
Hypothesis Hp : -83886080 <= p <= 83886080.
Hypothesis Hs : 1 <= size <= 16777216.

Lemma fits_axis_exact : fits_axis wrap_i32 a p size = fits_axis exact a p size.
Proof. destruct Ha as (? & ? & ?). unfold sane in *. unfold fits_axis. unwrap. done. Qed.

Lemma overflow_exact : overflow wrap_i32 a p size = overflow exact a p size.
Proof. destruct Ha as (? & ? & ?). unfold sane in *. unfold overflow. unwrap. done. Qed.

Lemma slide_exact : slide wrap_i32 a p size = slide exact a p size.
Proof. destruct Ha as (? & ? & ?). unfold sane in *. unfold slide. repeat case_match; unwrap; lia. Qed.

(** Where a slide ends: inside, if the popup is small enough, else at the start. *)
Lemma slide_bound :
  -150994944 <= slide exact a p size <= 150994944 ∧
  lo a <= parent a + slide exact a p size ∧
  (size <= hi a - lo a → parent a + slide exact a p size + size <= hi a) ∧
  (hi a - lo a < size → parent a + slide exact a p size = lo a ∨
                        parent a + slide exact a p size + size <= hi a).
Proof.
  destruct Ha as (? & ? & ?). unfold sane in *. unfold slide, add_i32, sub_i32.
  repeat case_match; repeat split; lia.
Qed.
End Axis.

Lemma resize_exact a p size : sane_axis a → -150994944 <= p <= 150994944 → 1 <= size <= 16777216 →
  resize wrap_i32 a p size = resize exact a p size.
Proof.
  intros (? & ? & ?) Hp Hs. unfold sane in *. unfold resize, add_i32, sub_i32.
  rewrite !(wrap_i32_id (parent a + p)) by lia. destruct (Z.ltb_spec (parent a + p) (lo a)).
  - unwrap. done.
  - unwrap. done.
Qed.

Section Placement.
Context (g : PositionerGeometry) (par : Z * Z) (bounds : Z * Z * Z * Z).
Hypothesis Hg : sane_geometry g.
Hypothesis Hb : sane_bounds par bounds.

Abbreviation ax := (axis_x exact par bounds).
Abbreviation ay := (axis_y exact par bounds).

Lemma axes_exact :
  axis_x wrap_i32 par bounds = ax ∧ axis_y wrap_i32 par bounds = ay ∧ sane_axis ax ∧ sane_axis ay.
Proof.
  unfold sane_bounds, axis_x, axis_y, sane_axis, sane in *. destruct bounds as [[[bx by_] bw] bh].
  unwrap. cbn [parent lo hi]. repeat split; try lia.
Qed.

Lemma fits_exact r : candidate g r → fits wrap_i32 ax ay r = fits exact ax ay r.
Proof.
  intros [(? & ? & ? & ?) _]. destruct axes_exact as (_ & _ & Hx & Hy). unfold fits.
  by rewrite !fits_axis_exact.
Qed.

Lemma flip_x_exact r : candidate g r →
  flip_x wrap_i32 g ax ay r = flip_x exact g ax ay r ∧
  ∃ c, candidate g c ∧ (flip_x exact g ax ay r = inl c ∧ fits exact ax ay c = true ∨
                       ∃ a gr, flip_x exact g ax ay r = inr (c, a, gr)).
Proof.
  intros Hr. destruct axes_exact as (_ & _ & Hx & Hy). unfold flip_x.
  destruct (raw_position_exact g (flip_anchor_x (pg_anchor g)) (flip_gravity_x (pg_gravity g)) Hg) as [-> Hf].
  pose proof Hf as [(? & ? & ? & ?) _]. pose proof Hr as [(? & ? & ? & ?) _].
  rewrite fits_exact, !overflow_exact by done.
  destruct (has_bits _ _); [|by split; [|exists r; split; [|right; eauto]]].
  destruct (fits exact ax ay _) eqn:Ef; [split; [done|]; eexists; split; [exact Hf|by left]|].
  destruct (_ <? _); split; try done; eexists; (split; [|right; eauto]); done.
Qed.

Lemma flip_y_exact r a gr : candidate g r →
  flip_y wrap_i32 g ax ay r a gr = flip_y exact g ax ay r a gr ∧
  ∃ c, candidate g c ∧ (flip_y exact g ax ay r a gr = inl c ∧ fits exact ax ay c = true ∨
                       flip_y exact g ax ay r a gr = inr c).
Proof.
  intros Hr. destruct axes_exact as (_ & _ & Hx & Hy). unfold flip_y.
  destruct (raw_position_exact g (flip_anchor_y a) (flip_gravity_y gr) Hg) as [-> Hf].
  pose proof Hf as [(? & ? & ? & ?) _]. pose proof Hr as [(? & ? & ? & ?) _].
  rewrite fits_exact, !overflow_exact by done.
  destruct (has_bits _ _); [|by split; [|exists r; split; [|right]]].
  destruct (fits exact ax ay _) eqn:Ef; [split; [done|]; eexists; split; [exact Hf|by left]|].
  destruct (_ <? _); split; try done; eexists; (split; [|by right]); done.
Qed.

Lemma adjust_exact ca r : candidate g r → adjust wrap_i32 ca ax ay r = adjust exact ca ax ay r.
Proof.
  intros [(? & ? & ? & ?) _]. destruct axes_exact as (_ & _ & Hx & Hy). unfold adjust.
  rewrite !slide_exact by done.
  pose proof (slide_bound ax (px r) (pw r)). pose proof (slide_bound ay (py r) (ph r)).
  rewrite !resize_exact; [done|done| |done|done| |done]; case_match; naive_solver lia.
Qed.

(** How a popup comes out: a candidate that fits, or the one candidate adjusted. *)
Lemma compute_cases :
  compute wrap_i32 g par bounds = compute exact g par bounds ∧
  ∃ c, candidate g c ∧
    (compute exact g par bounds = c ∧
       (fits exact ax ay c = true ∨ pg_constraint_adjustment g = 0) ∨
     compute exact g par bounds = adjust exact (pg_constraint_adjustment g) ax ay c).
Proof.
  destruct axes_exact as (Ex & Ey & _). unfold compute. rewrite Ex, Ey.
  destruct (raw_position_exact g (pg_anchor g) (pg_gravity g) Hg) as [-> Hr]. rewrite fits_exact by done.
  destruct (fits exact ax ay (raw_position exact g (pg_anchor g) (pg_gravity g))) eqn:Ef; cbn [orb].
  { split; [done|]. eexists. split; [exact Hr|]. by left; split; [|left]. }
  destruct (Z.eqb_spec (pg_constraint_adjustment g) 0).
  { split; [done|]. eexists. split; [exact Hr|]. by left; split; [|right]. }
  destruct (flip_x_exact _ Hr) as (-> & c & Hc & [[-> Hfit]|(a & gr & ->)]).
  { split; [done|]. exists c. split; [done|]. by left; split; [|left]. }
  destruct (flip_y_exact _ a gr Hc) as (-> & c' & Hc' & [[-> Hfit]| ->]).
  { split; [done|]. exists c'. split; [done|]. by left; split; [|left]. }
  rewrite adjust_exact by done. split; [done|]. exists c'. split; [done|]. by right.
Qed.
End Placement.

(** Popup placement computes with true integers. For geometry within 2^24 of
    the origin, the wrapping 32-bit arithmetic of [compute_position] returns what
    exact arithmetic returns: no intermediate sum overflows, on any path. *)
Theorem placement_is_exact g par bounds :
  sane_geometry g → sane_bounds par bounds →
  compute_position g par bounds = compute_exact g par bounds.
Proof. intros Hg Hb. by destruct (compute_cases g par bounds Hg Hb) as [? _]. Qed.

(** What one axis of the result satisfies. *)
Definition axis_constrained (slides resizes : bool) (parent_abs lo extent size0 p size : Z) : Prop :=
  1 <= size ∧
  (slides = true → resizes = true ∨ size0 <= extent → 1 <= extent →
   lo <= parent_abs + p ∧ parent_abs + p + size <= lo + extent) ∧
  (resizes = false → size = size0).

Lemma axis_constrained_ok a p size slides resizes : sane_axis a →
  -83886080 <= p <= 83886080 → 1 <= size <= 16777216 →
  let p1 := if slides : bool then slide exact a p size else p in
  let '(p2, size2) := if resizes : bool then resize exact a p1 size else (p1, size) in
  axis_constrained slides resizes (parent a) (lo a) (hi a - lo a) size p2 size2.
Proof.
  intros Ha Hp Hs. pose proof (slide_bound a p size Ha Hp Hs) as (_ & H1 & H2 & H3).
  unfold axis_constrained. destruct slides, resizes; unfold resize, add_i32, sub_i32;
    repeat case_match; simplify_eq; repeat split; try done; try lia; intros; naive_solver lia.
Qed.

(** C40: Constrained popups end up on screen, when the client's geometry, the parent's
    position and the bounds are all within 2^24 in magnitude (the program checks no such
    bound; beyond it sums can wrap, and [popup_off_screen] is one that does). Whatever the
    anchor, gravity and flips, the placed popup is then at least 1x1; on each axis where
    the bounds' extent is at least 1, the client allows sliding, and it either allows
    resizing or asked for a size within the bounds, the popup lies within the bounds; and
    without leave to resize it keeps its size (at least 1). *)
Theorem popup_constrained g px0 py0 bx by_ bw bh :
  sane_geometry g → sane_bounds (px0, py0) (bx, by_, bw, bh) →
  let ca := pg_constraint_adjustment g in
  let r := compute_position g (px0, py0) (bx, by_, bw, bh) in
  axis_constrained (has_bits ca CONSTRAINT_SLIDE_X) (has_bits ca CONSTRAINT_RESIZE_X)
    px0 bx bw (Z.max (fst (pg_size g)) 1) (px r) (pw r) ∧
  axis_constrained (has_bits ca CONSTRAINT_SLIDE_Y) (has_bits ca CONSTRAINT_RESIZE_Y)
    py0 by_ bh (Z.max (snd (pg_size g)) 1) (py r) (ph r).
Proof.
  intros Hg Hb. destruct (compute_cases g _ _ Hg Hb) as (E & c & [Hc [Hw Hh]] & Hcase).
  destruct (axes_exact _ _ Hb) as (_ & _ & Hx & Hy). cbn zeta. unfold compute_position. rewrite E, <- Hw, <- Hh.
  destruct Hc as (Hpx & Hpy & Hpw & Hph).
  destruct Hcase as [[-> [Hf|Hz]]| ->].
  - apply andb_true_iff in Hf as [[?%Z.leb_le ?%Z.leb_le]%andb_true_iff [?%Z.leb_le ?%Z.leb_le]%andb_true_iff].
    cbn [axis_x axis_y fst snd parent lo hi] in *. unfold add_i32 in *.
    split; (split; [lia|]; split; [intros; lia|done]).
  - rewrite Hz. split; (split; [lia|]; split; [done|done]).
  - unfold adjust.
    pose proof (axis_constrained_ok _ (px c) (pw c) (has_bits (pg_constraint_adjustment g) CONSTRAINT_SLIDE_X)
                  (has_bits (pg_constraint_adjustment g) CONSTRAINT_RESIZE_X) Hx Hpx Hpw) as H1.
    pose proof (axis_constrained_ok _ (py c) (ph c) (has_bits (pg_constraint_adjustment g) CONSTRAINT_SLIDE_Y)
                  (has_bits (pg_constraint_adjustment g) CONSTRAINT_RESIZE_Y) Hy Hpy Hph) as H2.
    cbn zeta in H1, H2.
    destruct (if has_bits _ CONSTRAINT_RESIZE_X then _ else _) as [x w].
    destruct (if has_bits _ CONSTRAINT_RESIZE_Y then _ else _) as [y h]. cbn [px py pw ph].
    cbn [axis_x axis_y fst snd parent lo hi] in H1, H2. unfold add_i32 in H1, H2.
    rewrite (Z.add_comm bx bw), Z.add_simpl_r in H1. rewrite (Z.add_comm by_ bh), Z.add_simpl_r in H2. done.
Qed.

(** Beyond 2^24: an anchor near the largest [i32], every adjustment allowed. The right
    edge of the popup wraps to a negative number, which counts as within the bounds. *)
Definition far_popup : PositionerGeometry := mkGeometry (100, 100) (2147483632, 0, 1, 1) 0 8 63 (0, 0).

Example popup_off_screen : px (compute_position far_popup (8, 8) (0, 0, 1000, 700)) = 2147483632.
Proof. vm_compute. reflexivity. Qed.

(** ** At a concrete input: a menu that would leave the screen on the right *)

Definition sample_popup : PositionerGeometry :=
  mkGeometry (300, 900) (900, 10, 80, 20) 7 8 63 (0, 4).

Lemma sample_popup_sane : sane_geometry sample_popup ∧ sane_bounds (8, 30) (8, 30, 1000, 700).
Proof. unfold sane_geometry, sane_bounds, sane. cbn. lia. Qed.

Lemma placement_is_exact_witness :
  compute_position sample_popup (8, 30) (8, 30, 1000, 700) = mkPlace 600 0 300 700 ∧
  compute_position sample_popup (8, 30) (8, 30, 1000, 700) =
  compute_exact sample_popup (8, 30) (8, 30, 1000, 700).
Proof.
  split; [vm_compute; reflexivity|].
  apply (placement_is_exact sample_popup (8, 30) (8, 30, 1000, 700)); apply sample_popup_sane.
Defined.

Lemma popup_constrained_witness :
  let r := compute_position sample_popup (8, 30) (8, 30, 1000, 700) in
  axis_constrained true true 8 8 1000 300 (px r) (pw r) ∧
  axis_constrained true true 30 30 700 900 (py r) (ph r).
Proof.
  exact (popup_constrained sample_popup 8 30 8 30 1000 700
           (proj1 sample_popup_sane) (proj2 sample_popup_sane)).
Defined.
