(* ===== verification/OutputKeep.v ===== *)
(** * OutputKeep: a process output kept as its head and tail

    [crates/server/src/output_keep.rs]: the WHATWG UTF-8 scanner, the counter
    of what is dropped, and [KeptOutput]. Counters are [u64] in the source and
    count bytes of one stream, which stays below 2^64. *)

From S2P Require Import Prelude.

Record Elision := mkElision {
  el_offset : Z; el_bytes : Z; el_lines : Z; el_code_points : Z; el_utf16_units : Z
}.

Definition Elision_default : Elision := mkElision 0 0 0 0 0.

(** ** The scanner *)

Record Utf8Scan := mkScan { sc_needed : Z; sc_seen : Z; sc_lower : Z; sc_upper : Z }.

Definition Utf8Scan_default : Utf8Scan := mkScan 0 0 0x80 0xBF.

Inductive Step := Pending | Char (units : Z) (newline : bool) | Again.

#[global] Instance Step_eq_dec : EqDecision Step.
Proof. solve_decision. Defined.

Definition between_characters (s : Utf8Scan) : bool := sc_needed s =? 0.

Definition Utf8Scan_step (s : Utf8Scan) (b : byte) : Step * Utf8Scan :=
  if sc_needed s =? 0 then
    if in_range 0x00 0x7F b then (Char 1 (byte_val b =? 10), s)
    else if in_range 0xC2 0xDF b then
      (Pending, mkScan 1 (sc_seen s) (sc_lower s) (sc_upper s))
    else if in_range 0xE0 0xEF b then
      let lower := if byte_val b =? 0xE0 then 0xA0 else sc_lower s in
      let upper := if byte_val b =? 0xE0 then sc_upper s
                   else if byte_val b =? 0xED then 0x9F else sc_upper s in
      (Pending, mkScan 2 (sc_seen s) lower upper)
    else if in_range 0xF0 0xF4 b then
      let lower := if byte_val b =? 0xF0 then 0x90 else sc_lower s in
      let upper := if byte_val b =? 0xF0 then sc_upper s
                   else if byte_val b =? 0xF4 then 0x8F else sc_upper s in
      (Pending, mkScan 3 (sc_seen s) lower upper)
    else (Char 1 false, s)
  else if negb (in_range (sc_lower s) (sc_upper s) b) then (Again, Utf8Scan_default)
  else
    let seen := sc_seen s + 1 in
    if seen <? sc_needed s then (Pending, mkScan (sc_needed s) seen 0x80 0xBF)
    else (Char (if sc_needed s =? 3 then 2 else 1) false, Utf8Scan_default).

(** ** The counter *)

Record Counter := mkCounter { ct_scan : Utf8Scan; ct_counts : Elision }.

Definition Counter_default : Counter := mkCounter Utf8Scan_default Elision_default.

Definition Counter_count (c : Counter) (units : Z) (newline : bool) : Counter :=
  let e := ct_counts c in
  mkCounter (ct_scan c)
    (mkElision (el_offset e) (el_bytes e) (el_lines e + of_bool newline)
       (el_code_points e + 1) (el_utf16_units e + units)).

Definition add_bytes (c : Counter) (n : Z) : Counter :=
  let e := ct_counts c in
  mkCounter (ct_scan c)
    (mkElision (el_offset e) (el_bytes e + n) (el_lines e) (el_code_points e) (el_utf16_units e)).

Definition set_scan (c : Counter) (s : Utf8Scan) : Counter := mkCounter s (ct_counts c).

(** The [loop] of [Counter::byte]; a byte is read at most twice. *)
Fixpoint Counter_byte_loop (fuel : nat) (c : Counter) (b : byte) : Counter :=
  match fuel with
  | O => c
  | S fuel =>
      let '(step, s) := Utf8Scan_step (ct_scan c) b in
      let c := set_scan c s in
      match step with
      | Pending => c
      | Char units newline => Counter_count c units newline
      | Again => Counter_byte_loop fuel (Counter_count c 1 false) b
      end
  end.

Definition Counter_byte (c : Counter) (b : byte) : Counter := Counter_byte_loop 2 (add_bytes c 1) b.

Definition is_ascii (b : byte) : bool := byte_val b <? 128.

(** [data.iter().position(|byte| !byte.is_ascii()).unwrap_or(data.len())] *)
Fixpoint ascii_run (data : list byte) : nat :=
  match data with
  | b :: data' => if is_ascii b then S (ascii_run data') else O
  | [] => O
  end.

Definition count_newlines (data : list byte) : Z :=
  len (List.filter (fun b => byte_val b =? 10) data).

(** A run of ASCII at once. *)
Definition add_ascii (c : Counter) (ascii : list byte) : Counter :=
  let e := ct_counts c in
  mkCounter (ct_scan c)
    (mkElision (el_offset e) (el_bytes e + len ascii) (el_lines e + count_newlines ascii)
       (el_code_points e + len ascii) (el_utf16_units e + len ascii)).

(** The [while] of [Counter::bytes] over the bytes not yet read; every turn
    reads at least one. *)
Fixpoint Counter_bytes_loop (fuel : nat) (c : Counter) (data : list byte) : Counter :=
  match fuel, data with
  | S fuel, b :: data' =>
      let run := ascii_run data in
      if between_characters (ct_scan c) && (0 <? run)%nat then
        Counter_bytes_loop fuel (add_ascii c (take run data)) (drop run data)
      else Counter_bytes_loop fuel (Counter_byte c b) data'
  | _, _ => c
  end.

Definition Counter_bytes (c : Counter) (data : list byte) : Counter :=
  Counter_bytes_loop (length data) c data.

Definition continue_with (c : Counter) (b : byte) : bool * Counter :=
  let '(step, s) := Utf8Scan_step (ct_scan c) b in
  let c := set_scan c s in
  match step with
  | Again => (false, Counter_count c 1 false)
  | Pending => (true, add_bytes c 1)
  | Char units newline => (true, Counter_count (add_bytes c 1) units newline)
  end.

Definition Counter_end (c : Counter) : Counter :=
  if negb (between_characters (ct_scan c)) then
    Counter_count (set_scan c Utf8Scan_default) 1 false
  else c.

(** ** The kept output *)

Record KeptOutput := mkKept {
  ko_head : Z; ko_tail : Z; ko_head_len : Z; ko_head_scan : Utf8Scan; ko_head_done : bool;
  ko_ring : list byte; ko_dropped : Counter; ko_finished : bool;
  ko_tail_out : list byte; ko_tail_sent : Z
}.

Definition KeptOutput_new (head tail : Z) : KeptOutput :=
  mkKept head tail 0 Utf8Scan_default false [] Counter_default false [] 0.

Definition sends_now (k : KeptOutput) : bool := negb (ko_head_done k) && negb (ko_finished k).

Definition tail_is_out (k : KeptOutput) : bool :=
  ko_finished k && (ko_tail_sent k =? len (ko_tail_out k)).

Definition next_tail_chunk (k : KeptOutput) (max : Z) : option (list byte) * KeptOutput :=
  let rest := drop (Z.to_nat (ko_tail_sent k)) (ko_tail_out k) in
  if negb (ko_finished k) || is_nil rest then (None, k)
  else
    let chunk := take (Z.to_nat (Z.min (len rest) max)) rest in
    (Some chunk,
     mkKept (ko_head k) (ko_tail k) (ko_head_len k) (ko_head_scan k) (ko_head_done k) (ko_ring k)
       (ko_dropped k) (ko_finished k) (ko_tail_out k) (ko_tail_sent k + len chunk)).

(** Updates of the head, and of the ring with what it dropped. *)
Definition set_head (k : KeptOutput) (head_len : Z) (scan : Utf8Scan) (head_done : bool) : KeptOutput :=
  mkKept (ko_head k) (ko_tail k) head_len scan head_done (ko_ring k) (ko_dropped k) (ko_finished k)
    (ko_tail_out k) (ko_tail_sent k).
Definition set_ring (k : KeptOutput) (ring : list byte) (dropped : Counter) : KeptOutput :=
  mkKept (ko_head k) (ko_tail k) (ko_head_len k) (ko_head_scan k) (ko_head_done k) ring dropped
    (ko_finished k) (ko_tail_out k) (ko_tail_sent k).

(** [keep]; [cut] is where the deque's storage wraps around, so that
    [as_slices] gives the first [cut] bytes and the rest. *)
Definition keep (k : KeptOutput) (cut : nat) (data : list byte) : KeptOutput :=
  if is_nil data then k else
  let ring := ko_ring k in
  let excess := saturating_sub (len ring + len data) (ko_tail k) in
  let from_ring := Z.min excess (len ring) in
  let k :=
    if 0 <? from_ring then
      let first := take cut ring in
      let second := drop cut ring in
      let in_first := Z.min from_ring (len first) in
      let dropped := Counter_bytes (ko_dropped k) (take (Z.to_nat in_first) first) in
      let dropped := Counter_bytes dropped (take (Z.to_nat (from_ring - in_first)) second) in
      set_ring k (drop (Z.to_nat from_ring) ring) dropped
    else k in
  let from_data := excess - from_ring in
  let dropped := Counter_bytes (ko_dropped k) (take (Z.to_nat from_data) data) in
  set_ring k (ko_ring k ++ drop (Z.to_nat from_data) data) dropped.

(** The [while] of [feed] over the bytes not yet taken, with how many were; a
    byte is read at most twice. *)
Fixpoint feed_loop (fuel : nat) (k : KeptOutput) (data : list byte) (taken : nat)
    : KeptOutput * nat :=
  match fuel, data with
  | S fuel, b :: data' =>
      if ko_head_done k then (k, taken)
      else if (ko_head k <=? ko_head_len k) && between_characters (ko_head_scan k) then
        (set_head k (ko_head_len k) (ko_head_scan k) true, taken)
      else
        let '(step, s) := Utf8Scan_step (ko_head_scan k) b in
        match step with
        | Again =>
            feed_loop fuel (set_head k (ko_head_len k) s (ko_head k <=? ko_head_len k)) data taken
        | Pending | Char _ _ =>
            feed_loop fuel (set_head k (ko_head_len k + 1) s false) data' (S taken)
        end
  | _, _ => (k, taken)
  end.

(** What goes out now, and the new state. *)
Definition feed (k : KeptOutput) (cut : nat) (data : list byte) : list byte * KeptOutput :=
  if ko_finished k then ([], k) else
  let '(k, taken) := feed_loop (2 * length data) k data 0 in
  (take taken data, keep k cut (drop taken data)).

(** The first [while] of [finish]: the dropped bytes may end within a
    character. It pops the ring, so the ring's length bounds it. *)
Fixpoint finish_character (ring : list byte) (dropped : Counter) : list byte * Counter :=
  if between_characters (ct_scan dropped) then (ring, dropped) else
  match ring with
  | [] => ([], Counter_end dropped)
  | b :: ring' =>
      let '(continued, dropped) := continue_with dropped b in
      if (continued : bool) then finish_character ring' dropped else (ring, dropped)
  end.

(** The second [while]: lone continuation bytes at the front. *)
Fixpoint drop_continuations (ring : list byte) (dropped : Counter) : list byte * Counter :=
  match ring with
  | b :: ring' => if in_range 0x80 0xBF b then drop_continuations ring' (Counter_byte dropped b)
                  else (ring, dropped)
  | [] => ([], dropped)
  end.

Definition finish (k : KeptOutput) : KeptOutput :=
  if ko_finished k then k else
  let '(ring, dropped) := finish_character (ko_ring k) (ko_dropped k) in
  let '(ring, dropped) := if 0 <? el_bytes (ct_counts dropped)
                          then drop_continuations ring dropped else (ring, dropped) in
  mkKept (ko_head k) (ko_tail k) (ko_head_len k) (ko_head_scan k) (ko_head_done k) [] dropped true
    ring (ko_tail_sent k).

Definition drop_rest (k : KeptOutput) : KeptOutput :=
  if ko_finished k then k else
  let k := finish k in
  let dropped := Counter_end (Counter_bytes (ko_dropped k) (ko_tail_out k)) in
  mkKept (ko_head k) (ko_tail k) (ko_head_len k) (ko_head_scan k) (ko_head_done k) (ko_ring k)
    dropped (ko_finished k) [] (ko_tail_sent k).

Definition elision (k : KeptOutput) : option Elision :=
  let e := ct_counts (ko_dropped k) in
  if 0 <? el_bytes e then
    Some (mkElision (ko_head_len k) (el_bytes e) (el_lines e) (el_code_points e) (el_utf16_units e))
  else None.
