(* ===== verification/OutputKeepFacts.v ===== *)
(** * OutputKeepFacts: what the kept output and its counts say of the stream

    The reference is a decoder that cuts a byte stream into tokens: the bytes
    of one character, or of one ill-formed sequence that decodes to a
    replacement. The scanner and counter are related to it, the bulk ASCII path
    to the byte-wise one, and the cuts of [KeptOutput] are shown to fall
    between tokens. *)

From S2P Require Import Prelude OutputKeep.

(** ** The scanner's states *)

(** Between characters a scanner is in its initial state; within one it knows
    how many bytes it needs and which may come next. *)
Definition scan_wf (s : Utf8Scan) : Prop :=
  s = Utf8Scan_default ∨
  (0 < sc_needed s <= 3 ∧ 0 <= sc_seen s < sc_needed s ∧ 0x80 <= sc_lower s ∧ sc_upper s <= 0xBF).

Lemma between_default s : scan_wf s → between_characters s = true ↔ s = Utf8Scan_default.
Proof.
  unfold between_characters. intros [->|(H & _)]; [done|]. split; [lia|by intros ->].
Qed.

Lemma step_wf s b : scan_wf s → scan_wf (Utf8Scan_step s b).2.
Proof.
  intros Hs. unfold Utf8Scan_step. destruct (Z.eqb_spec (sc_needed s) 0) as [H0|H0].
  - destruct Hs as [->|(? & _)]; [|lia]. cbn [sc_seen sc_lower sc_upper Utf8Scan_default].
    repeat case_match; first [by left|right; cbn; lia].
  - destruct Hs as [->|(Hn & Hsn & Hl & Hu)]; [done|].
    destruct (negb _); [by left|]. destruct (Z.ltb_spec (sc_seen s + 1) (sc_needed s)); [|by left].
    right. cbn. lia.
Qed.

(** A scanner between characters takes any byte. *)
Lemma step_default_takes b : (Utf8Scan_step Utf8Scan_default b).1 ≠ Again.
Proof. unfold Utf8Scan_step; cbn. repeat case_match; done. Qed.

(** A refusal puts the scanner between characters. *)
Lemma step_again s b s' : Utf8Scan_step s b = (Again, s') → s' = Utf8Scan_default.
Proof.
  unfold Utf8Scan_step. intros H. destruct (sc_needed s =? 0).
  - repeat case_match; discriminate H.
  - destruct (negb _); [by injection H as <-|]. destruct (_ <? _); discriminate H.
Qed.

Lemma step_again_pending s b s' :
  Utf8Scan_step s b = (Again, s') → between_characters s = false.
Proof.
  unfold Utf8Scan_step, between_characters. destruct (sc_needed s =? 0); [|done].
  intros H. repeat case_match; discriminate H.
Qed.

(** Within a character, a byte that is no continuation byte is refused. *)
Lemma step_pending_refuses s b :
  scan_wf s → between_characters s = false → in_range 0x80 0xBF b = false →
  Utf8Scan_step s b = (Again, Utf8Scan_default).
Proof.
  unfold between_characters, Utf8Scan_step. intros Hs -> Hb.
  destruct Hs as [->|(_ & _ & Hl & Hu)].
  - cbn. unfold in_range in *. by rewrite Hb.
  - replace (in_range _ _ b) with false; [done|]. unfold in_range in *. lia.
Qed.

(** A continuation byte between characters is a character of its own. *)
Lemma step_lone_continuation b :
  in_range 0x80 0xBF b = true → Utf8Scan_step Utf8Scan_default b = (Char 1 false, Utf8Scan_default).
Proof.
  unfold Utf8Scan_step, in_range; cbn. intros H.
  repeat (match goal with |- context [if ?c then _ else _] => replace c with false by lia end). done.
Qed.

(** ** The reference decoder *)

Record Token := mkToken { tk_bytes : list byte; tk_units : Z; tk_newline : bool }.

(** A character that ends unfinished: a replacement. *)
Definition replacement (p : list byte) : Token := mkToken p 1 false.

(** The decoder's state: the scanner and the bytes of the character it is in. *)
Abbreviation Dec := (Utf8Scan * list byte)%type.

Definition dec_byte (st : Dec) (b : byte) : list Token * Dec :=
  let '(s, p) := st in
  match Utf8Scan_step s b with
  | (Pending, s') => ([], (s', p ++ [b]))
  | (Char u n, s') => ([mkToken (p ++ [b]) u n], (s', []))
  | (Again, s') =>
      match Utf8Scan_step s' b with
      | (Pending, s'') => ([replacement p], (s'', [b]))
      | (Char u n, s'') => ([replacement p; mkToken [b] u n], (s'', []))
      | (Again, s'') => ([replacement p], (s'', [b]))
      end
  end.

Fixpoint dec_bytes (st : Dec) (l : list byte) : list Token * Dec :=
  match l with
  | [] => ([], st)
  | b :: l' =>
      let '(ts, st1) := dec_byte st b in
      let '(ts', st2) := dec_bytes st1 l' in
      (ts ++ ts', st2)
  end.

Definition dec_start : Dec := (Utf8Scan_default, []).
Definition dec_flush (st : Dec) : list Token :=
  if between_characters st.1 then [] else [replacement st.2].

(** The tokens of a whole stream. *)
Definition decode_text (l : list byte) : list Token :=
  let '(ts, st) := dec_bytes dec_start l in ts ++ dec_flush st.

(** How a decoder stands after reading [l]. *)
Definition scan_after (l : list byte) : Utf8Scan := (dec_bytes dec_start l).2.1.

Lemma dec_bytes_app st l1 l2 :
  dec_bytes st (l1 ++ l2) =
  let '(ts, st1) := dec_bytes st l1 in
  let '(ts', st2) := dec_bytes st1 l2 in (ts ++ ts', st2).
Proof.
  revert st. induction l1 as [|b l1 IH]; intros st; cbn.
  - by destruct (dec_bytes st l2).
  - destruct (dec_byte st b) as [ts st1]. rewrite IH.
    destruct (dec_bytes st1 l1) as [ts1 st2]. destruct (dec_bytes st2 l2) as [ts2 st3].
    by rewrite app_assoc.
Qed.

Definition dec_wf (st : Dec) : Prop :=
  scan_wf st.1 ∧ (between_characters st.1 = true → st.2 = []).

Lemma dec_byte_wf st b : dec_wf st → dec_wf (dec_byte st b).2.
Proof.
  destruct st as [s p]. intros [Hs Hp]. unfold dec_byte.
  pose proof (step_wf s b Hs) as H1. destruct (Utf8Scan_step s b) as [[| |] s'] eqn:E; cbn in H1.
  - split; [done|]. cbn. intros Hb. exfalso. unfold Utf8Scan_step in E.
    destruct (Z.eqb_spec (sc_needed s) 0).
    + repeat case_match; try discriminate E; injection E as <-; discriminate Hb.
    + destruct (negb _); [discriminate E|]. destruct (_ <? _); [|discriminate E].
      injection E as <-. unfold between_characters in Hb. cbn in Hb. lia.
  - by split.
  - apply step_again in E as ->. pose proof (step_wf _ b H1) as H2.
    pose proof (step_default_takes b) as Hd.
    destruct (Utf8Scan_step Utf8Scan_default b) as [[| |] s''] eqn:E2; [|by split|done].
    split; [done|]. cbn. intros Hb. exfalso. unfold Utf8Scan_step in E2; cbn in E2.
    repeat case_match; try discriminate E2; injection E2 as <-; discriminate Hb.
Qed.

Lemma dec_bytes_wf st l : dec_wf st → dec_wf (dec_bytes st l).2.
Proof.
  revert st. induction l as [|b l IH]; intros st Hs; [done|]. cbn.
  pose proof (dec_byte_wf st b Hs) as H1. destruct (dec_byte st b) as [ts st1]. cbn in H1.
  specialize (IH st1 H1). by destruct (dec_bytes st1 l).
Qed.

Lemma dec_start_wf : dec_wf dec_start.
Proof. split; [by left|done]. Qed.

Lemma scan_after_wf l : scan_wf (scan_after l).
Proof. apply (dec_bytes_wf _ l dec_start_wf). Qed.

(** ** Clean cuts *)

(** A stream may be cut after [l1] and before [l2] without changing how either
    part decodes: the decoder is between characters there, or the next byte
    cannot continue the character it is in. *)
Definition clean (l1 l2 : list byte) : Prop :=
  between_characters (scan_after l1) = true ∨
  match l2 with [] => True | b :: _ => (Utf8Scan_step (scan_after l1) b).1 = Again end.

Lemma dec_byte_refused st b :
  (Utf8Scan_step st.1 b).1 = Again →
  dec_byte st b = (replacement st.2 :: (dec_byte dec_start b).1, (dec_byte dec_start b).2).
Proof.
  destruct st as [s p]. unfold dec_start. cbn [fst snd dec_byte].
  destruct (Utf8Scan_step s b) as [[| |] s'] eqn:E; try done. intros _.
  apply step_again in E as ->. pose proof (step_default_takes b) as Hd. revert Hd.
  by destruct (Utf8Scan_step Utf8Scan_default b) as [[| |] s''].
Qed.

Lemma decode_text_clean l1 l2 :
  clean l1 l2 → decode_text (l1 ++ l2) = decode_text l1 ++ decode_text l2.
Proof.
  unfold clean, scan_after, decode_text. rewrite dec_bytes_app.
  pose proof (dec_bytes_wf _ l1 dec_start_wf) as [Hs Hp].
  destruct (dec_bytes dec_start l1) as [ts [s p]]; cbn in *. intros Hcl.
  destruct (between_characters s) eqn:Eb.
  - apply between_default in Eb; [|done]. subst s. rewrite (Hp eq_refl). fold dec_start.
    destruct (dec_bytes dec_start l2) as [ts2 st2]. unfold dec_flush at 2; cbn.
    by rewrite app_nil_r, app_assoc.
  - destruct Hcl as [?|Hcl]; [done|]. unfold dec_flush at 2. cbn [fst snd]. rewrite Eb.
    destruct l2 as [|b l2]; cbn [dec_bytes].
    + unfold dec_flush; cbn. by rewrite Eb, !app_nil_r.
    + rewrite (dec_byte_refused (s, p) b) by done. cbn [snd].
      destruct (dec_byte dec_start b) as [ts1 st1]. cbn [fst snd].
      destruct (dec_bytes st1 l2) as [ts2 st2]. by rewrite <- !app_assoc.
Qed.

(** A tail that starts with no continuation byte may follow anything. *)
Lemma clean_no_continuation l1 b l2 : in_range 0x80 0xBF b = false → clean l1 (b :: l2).
Proof.
  intros Hb. unfold clean. destruct (between_characters (scan_after l1)) eqn:E; [by left|right].
  by rewrite (step_pending_refuses _ _ (scan_after_wf l1) E Hb).
Qed.

Lemma clean_nil l : clean l [].
Proof. by right. Qed.

(** ** The counter *)

Definition sum_units (ts : list Token) : Z := foldr (λ t z, tk_units t + z) 0 ts.
Definition sum_lines (ts : list Token) : Z := foldr (λ t z, of_bool (tk_newline t) + z) 0 ts.

(** The counts of a piece of text that decodes to [ts]. *)
Definition tally (data : list byte) (ts : list Token) : Elision :=
  mkElision 0 (len data) (sum_lines ts) (len ts) (sum_units ts).

(** [c] has counted [data] and is where a decoder is after it. *)
Definition counted (c : Counter) (data : list byte) : Prop :=
  let '(ts, st) := dec_bytes dec_start data in ct_scan c = st.1 ∧ ct_counts c = tally data ts.

(** [c] has counted [data] to its end. *)
Definition counted_all (c : Counter) (data : list byte) : Prop :=
  ct_scan c = Utf8Scan_default ∧ ct_counts c = tally data (decode_text data).

Lemma sum_units_app l1 l2 : sum_units (l1 ++ l2) = sum_units l1 + sum_units l2.
Proof. unfold sum_units, sum_lines in *. induction l1; cbn; lia. Qed.
Lemma sum_lines_app l1 l2 : sum_lines (l1 ++ l2) = sum_lines l1 + sum_lines l2.
Proof. unfold sum_units, sum_lines in *. induction l1; cbn; lia. Qed.

Lemma Elision_eq a b c d e a' b' c' d' e' :
  a = a' → b = b' → c = c' → d = d' → e = e' → mkElision a b c d e = mkElision a' b' c' d' e'.
Proof. congruence. Qed.

Ltac counts_eq :=
  unfold tally; cbn; apply Elision_eq;
  autorewrite with len; rewrite ?sum_units_app, ?sum_lines_app; cbn; lia.

Lemma counted_default : counted Counter_default [].
Proof. done. Qed.

Lemma counted_byte c data b : counted c data → counted (Counter_byte c b) (data ++ [b]).
Proof.
  unfold counted. rewrite dec_bytes_app. destruct (dec_bytes dec_start data) as [ts [s p]].
  intros [Hs Hc]. cbn in Hs. cbn [dec_bytes dec_byte]. unfold Counter_byte. cbn [Counter_byte_loop].
  cbn [add_bytes ct_scan]. rewrite Hs.
  destruct (Utf8Scan_step s b) as [[|u n|] s'] eqn:E.
  - split; [done|]. cbn. rewrite Hc. counts_eq.
  - split; [done|]. cbn. rewrite Hc. counts_eq.
  - apply step_again in E as ->. cbn [set_scan Counter_count ct_scan].
    pose proof (step_default_takes b) as Hd.
    destruct (Utf8Scan_step Utf8Scan_default b) as [[|u n|] s''] eqn:E2; [| |done].
    + split; [done|]. cbn. rewrite Hc. counts_eq.
    + split; [done|]. cbn. rewrite Hc. counts_eq.
Qed.

Lemma set_scan_id c : set_scan c (ct_scan c) = c.
Proof. by destruct c. Qed.

Lemma Counter_byte_ascii c b :
  between_characters (ct_scan c) = true → is_ascii b = true → Counter_byte c b = add_ascii c [b].
Proof.
  intros Hb Ha. unfold Counter_byte. cbn [Counter_byte_loop]. unfold Utf8Scan_step at 1.
  cbn [add_bytes ct_scan]. unfold between_characters in Hb. rewrite Hb.
  assert (in_range 0x00 0x7F b = true) as ->.
  { unfold in_range, is_ascii in *. pose proof (byte_val_bound b). lia. }
  unfold Counter_count, set_scan, add_ascii, add_bytes, count_newlines; cbn.
  f_equal. destruct (byte_val b =? 10); by apply Elision_eq.
Qed.

Lemma add_ascii_nil c : add_ascii c [] = c.
Proof.
  destruct c as [s [a b d e f]]. unfold add_ascii, count_newlines; cbn. f_equal.
  apply Elision_eq; rewrite ?len_nil; lia.
Qed.

Lemma add_ascii_app c l1 l2 : add_ascii (add_ascii c l1) l2 = add_ascii c (l1 ++ l2).
Proof.
  unfold add_ascii, count_newlines; cbn. f_equal. rewrite List.filter_app, !len_app.
  apply Elision_eq; lia.
Qed.

Lemma fold_ascii c l :
  between_characters (ct_scan c) = true → forallb is_ascii l = true →
  foldl Counter_byte c l = add_ascii c l.
Proof.
  revert c. induction l as [|b l IH]; intros c Hb Ha; [by rewrite add_ascii_nil|].
  cbn in Ha. apply andb_true_iff in Ha as [Hab Ha]. cbn [foldl].
  rewrite Counter_byte_ascii by done. rewrite IH by done. apply (add_ascii_app c [b] l).
Qed.

Lemma ascii_run_ascii data : forallb is_ascii (take (ascii_run data) data) = true.
Proof. induction data as [|b l IH]; cbn; [done|]. destruct (is_ascii b) eqn:E; cbn; [|done]. by rewrite E. Qed.

Lemma Counter_bytes_loop_fold fuel c data :
  (length data <= fuel)%nat → Counter_bytes_loop fuel c data = foldl Counter_byte c data.
Proof.
  revert c data. induction fuel as [|fuel IH]; intros c data Hl.
  - destruct data; [done|cbn in Hl; lia].
  - destruct data as [|b data]; [done|]. cbn [Counter_bytes_loop].
    destruct (between_characters (ct_scan c)) eqn:Eb; cbn [andb].
    2:{ rewrite IH; [done|]. cbn in Hl. lia. }
    destruct (Nat.ltb_spec 0 (ascii_run (b :: data))) as [Hr|Hr].
    2:{ rewrite IH; [done|]. cbn in Hl. lia. }
    rewrite IH by (rewrite length_drop; cbn [length] in *; lia).
    rewrite <- fold_ascii by (done || apply ascii_run_ascii).
    rewrite <- foldl_app. by rewrite take_drop.
Qed.

Lemma Counter_bytes_foldl c data : Counter_bytes c data = foldl Counter_byte c data.
Proof. by apply Counter_bytes_loop_fold. Qed.

Lemma Counter_bytes_app c l1 l2 :
  Counter_bytes c (l1 ++ l2) = Counter_bytes (Counter_bytes c l1) l2.
Proof. by rewrite !Counter_bytes_foldl, foldl_app. Qed.

Lemma Counter_bytes_nil c : Counter_bytes c [] = c.
Proof. done. Qed.

Lemma counted_bytes c data more : counted c data → counted (Counter_bytes c more) (data ++ more).
Proof.
  rewrite Counter_bytes_foldl. revert c data. induction more as [|b more IH]; intros c data Hc.
  - by rewrite app_nil_r.
  - cbn. rewrite cons_middle, app_assoc. by apply IH, counted_byte.
Qed.

Lemma counted_scan c data : counted c data → ct_scan c = scan_after data.
Proof. unfold counted, scan_after. destruct (dec_bytes _ _) as [ts st]. by intros [? _]. Qed.

Lemma counted_bytes_count c data : counted c data → el_bytes (ct_counts c) = len data.
Proof. unfold counted. destruct (dec_bytes _ _) as [ts st]. by intros [_ ->]. Qed.

(** Between characters, what was counted is counted to its end. *)
Lemma counted_between c data :
  counted c data → between_characters (ct_scan c) = true → counted_all c data.
Proof.
  unfold counted, counted_all, decode_text. pose proof (dec_bytes_wf _ data dec_start_wf) as [Hs _].
  destruct (dec_bytes dec_start data) as [ts st]. intros [Es Ec] Hb. rewrite Es in *.
  unfold dec_flush. rewrite Hb, app_nil_r. split; [|done]. by apply between_default.
Qed.

(** Ending a pending character as a replacement. *)
Lemma counted_replaced c data :
  counted c data → between_characters (ct_scan c) = false →
  counted_all (Counter_count (set_scan c Utf8Scan_default) 1 false) data.
Proof.
  unfold counted, counted_all, decode_text. destruct (dec_bytes dec_start data) as [ts st].
  intros [Es Ec] Hb. rewrite Es in Hb. unfold dec_flush. rewrite Hb. split; [done|].
  cbn. rewrite Ec. counts_eq.
Qed.

Lemma counted_end c data : counted c data → counted_all (Counter_end c) data.
Proof.
  intros Hc. unfold Counter_end. destruct (between_characters (ct_scan c)) eqn:E; cbn.
  - by apply counted_between.
  - by apply counted_replaced.
Qed.

Lemma continue_with_byte c b :
  (Utf8Scan_step (ct_scan c) b).1 ≠ Again → continue_with c b = (true, Counter_byte c b).
Proof.
  intros H. unfold continue_with, Counter_byte. cbn [Counter_byte_loop add_bytes ct_scan].
  by destruct (Utf8Scan_step (ct_scan c) b) as [[| |] s].
Qed.

Lemma finish_character_ok ring c d :
  counted c d →
  let '(ring', c') := finish_character ring c in
  ∃ d', ring = d' ++ ring' ∧ counted_all c' (d ++ d') ∧ clean (d ++ d') ring'.
Proof.
  revert c d. induction ring as [|b ring IH]; intros c d Hc; cbn [finish_character];
    destruct (between_characters (ct_scan c)) eqn:Eb.
  - exists []. rewrite (app_nil_r d). split; [done|]. split; [by apply counted_between|apply clean_nil].
  - exists []. rewrite (app_nil_r d). split; [done|]. split; [by apply counted_end|apply clean_nil].
  - exists []. rewrite (app_nil_r d). split; [done|]. split; [by apply counted_between|].
    left. by rewrite <- (counted_scan c d Hc).
  - destruct (Utf8Scan_step (ct_scan c) b) as [st s] eqn:E.
    destruct (decide (st = Again)) as [->|Hne].
    + unfold continue_with. rewrite E. apply step_again in E as E'. subst s. cbn beta iota.
      exists []. rewrite (app_nil_r d). split; [done|]. split; [by apply counted_replaced|].
      right. rewrite <- (counted_scan c d Hc). by rewrite E.
    + rewrite continue_with_byte by by rewrite E. specialize (IH _ _ (counted_byte c d b Hc)).
      destruct (finish_character ring (Counter_byte c b)) as [ring' c'].
      destruct IH as (d' & -> & Hall & Hcl). exists (b :: d'). rewrite <- app_assoc in Hall, Hcl. done.
Qed.

Lemma decode_lone_continuation b :
  in_range 0x80 0xBF b = true → decode_text [b] = [mkToken [b] 1 false].
Proof.
  intros Hb. unfold decode_text. cbn [dec_bytes]. unfold dec_start, dec_byte.
  by rewrite step_lone_continuation.
Qed.

Lemma scan_after_snoc d b :
  clean d [b] → scan_after (d ++ [b]) = (Utf8Scan_step Utf8Scan_default b).2.
Proof.
  unfold scan_after, clean. rewrite dec_bytes_app. pose proof (dec_bytes_wf _ d dec_start_wf) as [Hs _].
  unfold scan_after. destruct (dec_bytes dec_start d) as [ts [s p]]; cbn [fst snd] in *.
  intros Hcl. cbn [dec_bytes dec_byte].
  destruct (between_characters s) eqn:Eb.
  - apply between_default in Eb as ->; [|done]. pose proof (step_default_takes b) as Hd. revert Hd.
    by destruct (Utf8Scan_step Utf8Scan_default b) as [[| |] s'].
  - destruct Hcl as [?|Hcl]; [done|]. destruct (Utf8Scan_step s b) as [[| |] s'] eqn:E; try done.
    apply step_again in E as ->. by destruct (Utf8Scan_step Utf8Scan_default b) as [[| |] s''].
Qed.

Lemma counted_all_continuation c d b :
  counted_all c d → clean d [b] → in_range 0x80 0xBF b = true →
  counted_all (Counter_byte c b) (d ++ [b]).
Proof.
  intros [Hs Hc] Hcl Hb. unfold counted_all. rewrite decode_text_clean by done.
  rewrite decode_lone_continuation by done. unfold Counter_byte. cbn [Counter_byte_loop add_bytes ct_scan].
  rewrite Hs, step_lone_continuation by done. split; [done|]. cbn. rewrite Hc. counts_eq.
Qed.

Lemma drop_continuations_ok ring c d :
  counted_all c d → clean d ring →
  let '(ring', c') := drop_continuations ring c in
  ∃ d', ring = d' ++ ring' ∧ counted_all c' (d ++ d') ∧ clean (d ++ d') ring' ∧
    match ring' with [] => True | b :: _ => in_range 0x80 0xBF b = false end.
Proof.
  revert c d. induction ring as [|b ring IH]; intros c d Hc Hcl; cbn [drop_continuations].
  - exists []. rewrite (app_nil_r d). split_and!; done.
  - destruct (in_range 0x80 0xBF b) eqn:Eb.
    2:{ exists []. rewrite (app_nil_r d). split_and!; done. }
    assert (clean d [b]) as Hcb by exact Hcl.
    specialize (IH _ _ (counted_all_continuation c d b Hc Hcb Eb)).
    destruct (drop_continuations ring (Counter_byte c b)) as [ring' c'].
    destruct IH as (d' & -> & Hall & Hcl' & Hf).
    + left. rewrite scan_after_snoc by done. by rewrite step_lone_continuation.
    + exists (b :: d'). rewrite <- app_assoc in Hall, Hcl'. done.
Qed.

(** ** Counting on *)

Definition plus_counts (a b : Elision) : Elision :=
  mkElision (el_offset a + el_offset b) (el_bytes a + el_bytes b) (el_lines a + el_lines b)
    (el_code_points a + el_code_points b) (el_utf16_units a + el_utf16_units b).

(** The same counter with [e] counted before it. *)
Definition after_counts (e : Elision) (c : Counter) : Counter :=
  mkCounter (ct_scan c) (plus_counts e (ct_counts c)).

Lemma after_counts_count e c u n :
  Counter_count (after_counts e c) u n = after_counts e (Counter_count c u n).
Proof. unfold Counter_count, after_counts, plus_counts; cbn. f_equal. apply Elision_eq; lia. Qed.

Lemma after_counts_byte e c b : Counter_byte (after_counts e c) b = after_counts e (Counter_byte c b).
Proof.
  unfold Counter_byte. assert (add_bytes (after_counts e c) 1 = after_counts e (add_bytes c 1)) as ->.
  { unfold add_bytes, after_counts, plus_counts; cbn. f_equal. apply Elision_eq; lia. }
  generalize (add_bytes c 1). intros c0. generalize 2%nat as fuel. intros fuel.
  revert c0. induction fuel as [|fuel IH]; intros c0; [done|]. cbn [Counter_byte_loop].
  change (ct_scan (after_counts e c0)) with (ct_scan c0).
  destruct (Utf8Scan_step (ct_scan c0) b) as [st s].
  change (set_scan (after_counts e c0) s) with (after_counts e (set_scan c0 s)).
  destruct st; [done|by rewrite after_counts_count|]. by rewrite after_counts_count, IH.
Qed.

Lemma after_counts_bytes e c l : Counter_bytes (after_counts e c) l = after_counts e (Counter_bytes c l).
Proof.
  rewrite !Counter_bytes_foldl. revert c. induction l as [|b l IH]; intros c; [done|]. cbn [foldl].
  by rewrite after_counts_byte, IH.
Qed.

Lemma after_counts_end e c : Counter_end (after_counts e c) = after_counts e (Counter_end c).
Proof.
  unfold Counter_end. change (ct_scan (after_counts e c)) with (ct_scan c).
  destruct (negb _); [|done]. apply (after_counts_count e (set_scan c Utf8Scan_default)).
Qed.

(** Counting on past a clean cut, to the end. *)
Lemma counted_all_more c d more :
  counted_all c d → clean d more →
  ct_counts (Counter_end (Counter_bytes c more)) = tally (d ++ more) (decode_text (d ++ more)).
Proof.
  intros [Hs Hc] Hcl. rewrite decode_text_clean by done.
  assert (c = after_counts (tally d (decode_text d)) Counter_default) as ->.
  { destruct c as [s e]. cbn in Hs, Hc. subst. unfold after_counts, plus_counts; cbn. f_equal.
    apply Elision_eq; lia. }
  rewrite after_counts_bytes, after_counts_end.
  destruct (counted_end _ _ (counted_bytes _ _ more counted_default)) as [_ E]. cbn [app] in E.
  cbn [after_counts ct_counts]. rewrite E. unfold plus_counts, tally; cbn.
  apply Elision_eq; autorewrite with len; rewrite ?sum_units_app, ?sum_lines_app; lia.
Qed.
