(* ===== verification/OutputKeepProps.v ===== *)
(** * OutputKeepProps: the kept output accounts for every byte and character *)

From S2P Require Import Prelude OutputKeep OutputKeepFacts.

(** ** Taking the head, byte by byte *)

(** [feed_loop] with each byte's two readings in one turn. *)
Fixpoint take_head (k : KeptOutput) (data : list byte) : KeptOutput * nat :=
  match data with
  | [] => (k, O)
  | b :: data' =>
      if ko_head_done k then (k, O)
      else if (ko_head k <=? ko_head_len k) && between_characters (ko_head_scan k) then
        (set_head k (ko_head_len k) (ko_head_scan k) true, O)
      else
        match Utf8Scan_step (ko_head_scan k) b with
        | (Again, s) =>
            if ko_head k <=? ko_head_len k then (set_head k (ko_head_len k) s true, O)
            else
              let s := (Utf8Scan_step s b).2 in
              let '(k', n) := take_head (set_head k (ko_head_len k + 1) s false) data' in (k', S n)
        | (_, s) =>
            let '(k', n) := take_head (set_head k (ko_head_len k + 1) s false) data' in (k', S n)
        end
  end.

(** The fuel of [feed] is enough: its loop is [take_head]. *)
Lemma feed_loop_take_head fuel k data taken :
  (2 * length data <= fuel)%nat →
  feed_loop fuel k data taken = let '(k', n) := take_head k data in (k', (taken + n)%nat).
Proof.
  revert k fuel taken. induction data as [|b data IH]; intros k fuel taken Hf.
  - destruct fuel; cbn; by rewrite Nat.add_0_r.
  - cbn [length] in Hf. destruct fuel as [|fuel]; [lia|]. cbn [feed_loop take_head].
    destruct (ko_head_done k) eqn:Ed; [by rewrite Nat.add_0_r|].
    destruct ((ko_head k <=? ko_head_len k) && _) eqn:Eg; [by rewrite Nat.add_0_r|].
    destruct (Utf8Scan_step (ko_head_scan k) b) as [[| |] s] eqn:E.
    1,2: rewrite IH by lia; destruct (take_head _ data); f_equal; lia.
    apply step_again in E as ->. destruct fuel as [|fuel]; [lia|]. cbn [feed_loop set_head ko_head_done].
    destruct (ko_head k <=? ko_head_len k) eqn:Eh; [by rewrite Nat.add_0_r|].
    cbn [set_head ko_head ko_head_len ko_head_scan]. rewrite Eh. cbn [andb].
    pose proof (step_default_takes b) as Hd.
    destruct (Utf8Scan_step Utf8Scan_default b) as [[| |] s'] eqn:E'; [| |done].
    1,2: rewrite IH by lia; destruct (take_head _ data); f_equal; lia.
Qed.

(** The state of the head after it took [h], with [rest] the bytes that
    followed it. *)
Record head_inv (head : Z) (h rest : list byte) (k : KeptOutput) : Prop := {
  hi_head : ko_head k = head;
  hi_len : ko_head_len k = len h;
  hi_open : ko_head_done k = false → ko_head_scan k = scan_after h ∧ rest = [];
  hi_done : ko_head_done k = true → head <= len h ∧ rest ≠ [] ∧ clean h rest;
  hi_short : len h <= head + 3
}.

(** While a character is open past the head's size, how far past. *)
Definition head_slack (head : Z) (h : list byte) (k : KeptOutput) : Prop :=
  ko_head_done k = false →
  between_characters (ko_head_scan k) = false → len h <= head + sc_seen (ko_head_scan k).

(** The other fields. *)
Definition same_rest (k k' : KeptOutput) : Prop :=
  ko_tail k' = ko_tail k ∧ ko_ring k' = ko_ring k ∧ ko_dropped k' = ko_dropped k ∧
  ko_finished k' = ko_finished k ∧ ko_tail_out k' = ko_tail_out k ∧ ko_tail_sent k' = ko_tail_sent k.

Lemma step_pending_seen s b s' :
  scan_wf s → Utf8Scan_step s b = (Pending, s') →
  between_characters s' = false ∧
  sc_seen s' = (if between_characters s then 0 else sc_seen s + 1).
Proof.
  unfold Utf8Scan_step, between_characters. intros Hs H.
  destruct (Z.eqb_spec (sc_needed s) 0).
  - destruct Hs as [->|(? & _)]; [|lia].
    repeat case_match; try discriminate H; injection H as <-; done.
  - destruct (negb _); [discriminate H|]. destruct (_ <? _); [|discriminate H]. injection H as <-.
    cbn. split; [lia|done].
Qed.

Lemma step_char_between s b u n s' :
  scan_wf s → Utf8Scan_step s b = (Char u n, s') → s' = Utf8Scan_default.
Proof.
  unfold Utf8Scan_step. intros Hs H. destruct (Z.eqb_spec (sc_needed s) 0).
  - destruct Hs as [->|(? & _)]; [|lia]. repeat case_match; try discriminate H; by injection H.
  - destruct (negb _); [discriminate H|]. destruct (_ <? _); [discriminate H|]. by injection H.
Qed.

(** How the decoder stands one byte later. *)
Lemma scan_after_byte h b :
  scan_after (h ++ [b]) =
  match Utf8Scan_step (scan_after h) b with
  | (Again, s) => (Utf8Scan_step s b).2
  | (_, s) => s
  end.
Proof.
  unfold scan_after. rewrite dec_bytes_app. destruct (dec_bytes dec_start h) as [ts [s p]].
  cbn [dec_bytes dec_byte fst snd]. destruct (Utf8Scan_step s b) as [[| |] s'] eqn:E; [done|done|].
  by destruct (Utf8Scan_step s' b) as [[| |] s''].
Qed.

(** One more byte of head. *)
Lemma head_grows head h k b :
  ko_head_done k = false → head_inv head h [] k → head_slack head h k →
  (ko_head k <=? ko_head_len k) && between_characters (ko_head_scan k) = false →
  ((Utf8Scan_step (ko_head_scan k) b).1 = Again → (ko_head k <=? ko_head_len k) = false) →
  let k' := set_head k (ko_head_len k + 1) (scan_after (h ++ [b])) false in
  head_inv head (h ++ [b]) [] k' ∧ head_slack head (h ++ [b]) k'.
Proof.
  intros Hd [Hh Hl Ho _ Hs] Hsl Hg Ha. destruct (Ho Hd) as [Hsc _]. specialize (Hsl Hd).
  rewrite Hh, Hl, Hsc in *. pose proof (scan_after_wf h) as Hwf.
  pose proof (scan_after_byte h b) as Hnext. pose proof (scan_after_wf (h ++ [b])) as Hwf'.
  assert (between_characters (scan_after (h ++ [b])) = false →
          len (h ++ [b]) <= head + sc_seen (scan_after (h ++ [b]))) as Hslack.
  { intros Hb. rewrite Hnext in Hb |- *. rewrite len_app, len_cons, len_nil.
    destruct (Utf8Scan_step (scan_after h) b) as [[|u n|] s] eqn:E.
    - destruct (step_pending_seen _ _ _ Hwf E) as [_ ->].
      destruct (between_characters (scan_after h)); [lia|]. specialize (Hsl eq_refl). lia.
    - apply step_char_between in E as ->; done.
    - apply step_again in E as ->. destruct (Utf8Scan_step Utf8Scan_default b) as [[|u n|] s'] eqn:E2;
        cbn [snd] in *.
      + destruct (step_pending_seen _ _ _ (or_introl eq_refl) E2) as [_ ->]. cbn.
        specialize (Ha eq_refl). lia.
      + apply step_char_between in E2 as ->; [done|by left].
      + by pose proof (step_default_takes b); rewrite E2 in *. }
  split; [|by intros _; apply Hslack].
  split; cbn; [done|by rewrite len_app|done|done|].
  rewrite len_app, len_cons, len_nil.
  destruct (between_characters (scan_after h)) eqn:Eb; [lia|]. specialize (Hsl eq_refl).
  destruct Hwf as [Hw|(? & ? & _)]; [by rewrite Hw in Eb|]. lia.
Qed.

Lemma take_head_ok head data : ∀ h k,
  ko_head_done k = false → head_inv head h [] k → head_slack head h k →
  let '(k', n) := take_head k data in
  (n <= length data)%nat ∧ head_inv head (h ++ take n data) (drop n data) k' ∧
  head_slack head (h ++ take n data) k' ∧ same_rest k k'.
Proof.
  induction data as [|b data IH]; intros h k Hd Hinv Hsl; cbn [take_head].
  { cbn. by rewrite app_nil_r. }
  rewrite Hd. pose proof Hinv as [Hh Hl Ho _ Hs]. destruct (Ho Hd) as [Hsc _].
  destruct ((ko_head k <=? ko_head_len k) && between_characters (ko_head_scan k)) eqn:Eg.
  { apply andb_true_iff in Eg as [Hle Hb]. rewrite take_0, app_nil_r. split; [lia|].
    split; [|split; [by intros ?|done]]. split; cbn; [done|done|done| |done].
    intros _. split; [lia|]. split; [done|]. left. by rewrite <- Hsc. }
  pose proof (head_grows head h k b Hd Hinv Hsl Eg) as Hgrow.
  rewrite scan_after_byte, <- Hsc in Hgrow.
  assert (∀ s, (let k' := set_head k (ko_head_len k + 1) s false in
                head_inv head (h ++ [b]) [] k' ∧ head_slack head (h ++ [b]) k') →
    let '(k', n) := (let '(k', n) := take_head (set_head k (ko_head_len k + 1) s false) data in (k', S n)) in
    (n <= length (b :: data))%nat ∧ head_inv head (h ++ take n (b :: data)) (drop n (b :: data)) k' ∧
    head_slack head (h ++ take n (b :: data)) k' ∧ same_rest k k') as Hrec.
  { intros s [Hi Hsk]. specialize (IH (h ++ [b]) (set_head k (ko_head_len k + 1) s false) eq_refl Hi Hsk).
    destruct (take_head _ data) as [k' n]. destruct IH as (Hn & Hi' & Hs' & Hr).
    rewrite <- !app_assoc in Hi', Hs'. cbn. split; [lia|]. done. }
  destruct (Utf8Scan_step (ko_head_scan k) b) as [[|u n|] s] eqn:E.
  - apply Hrec, Hgrow. done.
  - apply Hrec, Hgrow. done.
  - destruct (ko_head k <=? ko_head_len k) eqn:Ele; [|by apply Hrec, Hgrow].
    rewrite take_0, app_nil_r. split; [lia|]. split; [|split; [by intros ?|done]].
    split; cbn; [done|done|done| |done]. intros _. split; [lia|]. split; [done|]. right.
    by rewrite <- Hsc, E.
Qed.

(** ** The ring *)

Lemma take_slices cut n (ring : list byte) :
  take (Z.to_nat (Z.min n (len (take cut ring)))) (take cut ring)
  ++ take (Z.to_nat (n - Z.min n (len (take cut ring)))) (drop cut ring) = take (Z.to_nat n) ring.
Proof.
  rewrite <- (take_drop cut ring) at 5. rewrite take_app. unfold len.
  f_equal; [|f_equal; lia]. destruct (Z.leb_spec n (Z.of_nat (length (take cut ring)))).
  - by rewrite Z.min_l by lia.
  - rewrite Z.min_r by lia. rewrite Nat2Z.id, firstn_all. symmetry. apply take_ge. lia.
Qed.

Lemma drop_slices c cut n (ring : list byte) :
  Counter_bytes
    (Counter_bytes c (take (Z.to_nat (Z.min n (len (take cut ring)))) (take cut ring)))
    (take (Z.to_nat (n - Z.min n (len (take cut ring)))) (drop cut ring))
  = Counter_bytes c (take (Z.to_nat n) ring).
Proof. by rewrite <- Counter_bytes_app, take_slices. Qed.

Definition excess_of (k : KeptOutput) (data : list byte) : nat :=
  Z.to_nat (saturating_sub (len (ko_ring k) + len data) (ko_tail k)).

(** The ring holds the last bytes, and what leaves it is counted in order,
    wherever the deque's storage wraps. *)
Lemma keep_eq k cut data :
  len (ko_ring k) <= ko_tail k →
  keep k cut data =
  set_ring k (drop (excess_of k data) (ko_ring k ++ data))
    (Counter_bytes (ko_dropped k) (take (excess_of k data) (ko_ring k ++ data))).
Proof.
  intros Hr. pose proof (len_nonneg (ko_ring k)). pose proof (len_nonneg data).
  unfold keep, excess_of, saturating_sub. destruct data as [|b data].
  { cbn [is_nil]. change (len (@nil byte)) with 0. rewrite app_nil_r, Z.max_l by lia. by destruct k. }
  cbn [is_nil]. remember (b :: data) as l eqn:El. clear El.
  remember (Z.max 0 (len (ko_ring k) + len l - ko_tail k)) as e eqn:Ee.
  rewrite take_app, drop_app. destruct (Z.ltb_spec 0 (Z.min e (len (ko_ring k)))) as [Hpos|Hpos].
  - cbn zeta. rewrite drop_slices. unfold set_ring.
    cbn [ko_head ko_tail ko_head_len ko_head_scan ko_head_done ko_ring ko_dropped ko_finished
         ko_tail_out ko_tail_sent].
    rewrite (Counter_bytes_app _ (take (Z.to_nat e) _)).
    assert (Z.to_nat (e - Z.min e (len (ko_ring k))) = (Z.to_nat e - length (ko_ring k))%nat) as ->
      by (unfold len; lia).
    assert (take (Z.to_nat (Z.min e (len (ko_ring k)))) (ko_ring k) = take (Z.to_nat e) (ko_ring k)) as ->.
    { destruct (Z.leb_spec e (len (ko_ring k))); [by rewrite Z.min_l|]. rewrite Z.min_r by lia.
      unfold len. rewrite Nat2Z.id, firstn_all. symmetry. apply take_ge. unfold len in *. lia. }
    assert (drop (Z.to_nat (Z.min e (len (ko_ring k)))) (ko_ring k) = drop (Z.to_nat e) (ko_ring k)) as ->.
    { destruct (Z.leb_spec e (len (ko_ring k))); [by rewrite Z.min_l|]. rewrite Z.min_r by lia.
      unfold len. rewrite Nat2Z.id, drop_all. symmetry. apply drop_ge. unfold len in *. lia. }
    done.
  - assert (e = 0 ∨ ko_ring k = []) as Hcase.
    { destruct (ko_ring k); [by right|left]. rewrite len_cons in Hpos.
      pose proof (len_nonneg l0). lia. }
    destruct Hcase as [He|Hn].
    + rewrite He. cbn. rewrite Z.min_l by lia. cbn. by rewrite !drop_0.
    + rewrite Hn. change (len (@nil byte)) with 0. cbn [length]. rewrite Z.min_r, Z.sub_0_r, Nat.sub_0_r by lia.
      by rewrite firstn_nil, drop_nil.
Qed.

(** ** The invariant of a stream being read *)

(** [h] went out as the head, [d] was dropped, and the ring holds what came
    last. *)
Record kept_inv (head tail : Z) (h d : list byte) (k : KeptOutput) : Prop := {
  ki_head : head_inv head h (d ++ ko_ring k) k;
  ki_slack : head_slack head h k;
  ki_tail : ko_tail k = tail;
  ki_ring : len (ko_ring k) <= tail;
  ki_full : d = [] ∨ len (ko_ring k) = tail;
  ki_dropped : counted (ko_dropped k) d;
  ki_open : ko_finished k = false ∧ ko_tail_out k = [] ∧ ko_tail_sent k = 0
}.

Lemma clean_extend l1 l2 l3 : l2 ≠ [] → clean l1 l2 → clean l1 (l2 ++ l3).
Proof. unfold clean. destruct l2; [done|]. done. Qed.

Lemma head_inv_set_ring head h rest k ring dropped :
  head_inv head h rest k → head_inv head h rest (set_ring k ring dropped).
Proof. by intros [? ? ? ? ?]. Qed.

Lemma keep_inv head tail h d k cut data :
  head_inv head h (d ++ ko_ring k ++ data) k → head_slack head h k →
  ko_tail k = tail → len (ko_ring k) <= tail → d = [] ∨ len (ko_ring k) = tail →
  counted (ko_dropped k) d → ko_finished k = false ∧ ko_tail_out k = [] ∧ ko_tail_sent k = 0 →
  ∃ d', kept_inv head tail h d' (keep k cut data) ∧
    d' ++ ko_ring (keep k cut data) = d ++ ko_ring k ++ data.
Proof.
  intros Hi Hs Ht Hr Hf Hc Ho. rewrite keep_eq by lia.
  set (e := excess_of k data). exists (d ++ take e (ko_ring k ++ data)).
  assert ((d ++ take e (ko_ring k ++ data)) ++ drop e (ko_ring k ++ data) = d ++ ko_ring k ++ data)
    as Happ by by rewrite <- app_assoc, take_drop.
  pose proof (len_nonneg (ko_ring k)). pose proof (len_nonneg data).
  assert (len (drop e (ko_ring k ++ data)) = Z.min tail (len (ko_ring k) + len data)) as Hlen.
  { unfold e, excess_of, saturating_sub, len in *. rewrite length_drop, length_app. lia. }
  split; [|exact Happ]. split; cbn.
  - rewrite Happ. by apply head_inv_set_ring.
  - done.
  - done.
  - lia.
  - rewrite Hlen. destruct (Z.leb_spec (len (ko_ring k) + len data) tail); [|right; lia].
    assert (e = O) as -> by (unfold e, excess_of, saturating_sub; lia).
    destruct Hf as [->|Hf]; [by left|right; lia].
  - by apply counted_bytes.
  - done.
Qed.

Lemma feed_inv head tail h d k cut data :
  kept_inv head tail h d k →
  let '(out, k') := feed k cut data in
  ∃ d', kept_inv head tail (h ++ out) d' k' ∧
    (h ++ out) ++ d' ++ ko_ring k' = (h ++ d ++ ko_ring k) ++ data.
Proof.
  intros [Hi Hs Ht Hr Hf Hc Ho]. unfold feed. destruct Ho as (Hfin & Hto & Hts). rewrite Hfin.
  rewrite feed_loop_take_head by lia. destruct (ko_head_done k) eqn:Ed.
  - assert (take_head k data = (k, O)) as -> by (destruct data; cbn; [done|by rewrite Ed]).
    cbn [Nat.add]. rewrite take_0, drop_0. destruct Hi as [H1 H2 H3 H4 H5]. destruct (H4 Ed) as (Hle & Hne & Hcl).
    destruct (keep_inv head tail h d k cut data) as (d' & Hk & Happ); [|done..|].
    + split; [done|done|congruence| |done]. intros _. split; [done|].
      rewrite app_assoc. split; [by destruct (d ++ ko_ring k)|]. by apply clean_extend.
    + exists d'. rewrite app_nil_r. split; [done|]. by rewrite Happ, <- !app_assoc.
  - pose proof (hi_open _ _ _ _ Hi Ed) as [_ Hrest]. apply app_eq_nil in Hrest as [-> Hring].
    rewrite Hring in *. pose proof (take_head_ok head data h k Ed Hi Hs) as Hth.
    destruct (take_head k data) as [k1 n].
    destruct Hth as (Hn & Hi1 & Hs1 & (R1 & R2 & R3 & R4 & R5 & R6)). cbn [Nat.add].
    destruct (keep_inv head tail (h ++ take n data) [] k1 cut (drop n data)) as (d' & Hk & Happ).
    + by rewrite R2, Hring.
    + done.
    + congruence.
    + by rewrite R2, Hring.
    + by left.
    + by rewrite R3.
    + by rewrite R4, R5, R6.
    + exists d'. split; [done|]. rewrite Happ, R2, Hring. cbn. rewrite app_nil_r.
      by rewrite <- app_assoc, take_drop.
Qed.

(** The states of a stream: [sent] went out so far, [stream] was read so far. *)
Inductive kept (head tail : Z) : list byte → list byte → KeptOutput → Prop :=
| kept_new : kept head tail [] [] (KeptOutput_new head tail)
| kept_feed sent stream k cut data out k' :
    kept head tail sent stream k → feed k cut data = (out, k') →
    kept head tail (sent ++ out) (stream ++ data) k'.

Lemma kept_has_inv head tail sent stream k :
  0 <= head → 0 <= tail → kept head tail sent stream k →
  ∃ d, kept_inv head tail sent d k ∧ sent ++ d ++ ko_ring k = stream.
Proof.
  intros Hh Ht. induction 1 as [|sent stream k cut data out k' _ (d & Hk & Happ) H].
  - exists []. split; [|done]. split; cbn; try done.
    + split; cbn; [done|done|done|done|unfold len; cbn; lia].
    + by left.
  - pose proof (feed_inv head tail sent d k cut data Hk) as Hf. rewrite H in Hf.
    destruct Hf as (d' & Hk' & E). exists d'. by rewrite <- Happ.
Qed.

(** What [finish] leaves: the stream in three parts, cut cleanly. *)
Lemma finish_parts head tail h d k :
  kept_inv head tail h d k →
  ∃ d', let k' := finish k in
    d' ++ ko_tail_out k' = d ++ ko_ring k ∧ counted_all (ko_dropped k') d' ∧
    clean d' (ko_tail_out k') ∧ len (ko_tail_out k') <= len (ko_ring k) ∧
    (d' = [] ∨ match ko_tail_out k' with [] => True | b :: _ => in_range 0x80 0xBF b = false end) ∧
    ko_head_len k' = ko_head_len k ∧ ko_finished k' = true ∧ ko_tail_sent k' = 0.
Proof.
  intros [Hi Hs Ht Hr Hf Hc Ho]. destruct Ho as (Hfin & Hto & Hts). unfold finish. rewrite Hfin.
  pose proof (finish_character_ok (ko_ring k) (ko_dropped k) d Hc) as H1.
  destruct (finish_character (ko_ring k) (ko_dropped k)) as [ring1 c1].
  destruct H1 as (d1 & E1 & Ha1 & Hcl1).
  assert (el_bytes (ct_counts c1) = len (d ++ d1)) as Hb by (by destruct Ha1 as [_ ->]).
  rewrite Hb. destruct (Z.ltb_spec 0 (len (d ++ d1))) as [Hpos|Hpos].
  - pose proof (drop_continuations_ok ring1 c1 (d ++ d1) Ha1 Hcl1) as H2.
    destruct (drop_continuations ring1 c1) as [ring2 c2]. destruct H2 as (d2 & E2 & Ha2 & Hcl2 & Hf2).
    exists ((d ++ d1) ++ d2). cbn. rewrite E1, E2, <- !app_assoc in *.
    split_and!; try done; [autorewrite with len; pose proof (len_nonneg d1); pose proof (len_nonneg d2); lia|by right].
  - exists (d ++ d1). cbn. rewrite E1, <- !app_assoc.
    assert (d ++ d1 = []) as Hnil by (apply len_zero; pose proof (len_nonneg (d ++ d1)); lia).
    split_and!; try done; [autorewrite with len; pose proof (len_nonneg d1); lia|by left].
Qed.

(** ** Properties *)

(** The optimised counter, which takes runs of ASCII at once, counts exactly
    what reading the bytes one by one counts, from any state. *)
Theorem bulk_count_is_bytewise c data :
  Counter_bytes c data = foldl Counter_byte c data.
Proof. apply Counter_bytes_foldl. Qed.

Lemma kept_clean head tail sent d k :
  kept_inv head tail sent d k → clean sent (d ++ ko_ring k).
Proof.
  intros [[H1 H2 H3 H4 H5] _ _ _ _ _ _]. destruct (ko_head_done k) eqn:E.
  - by apply H4.
  - destruct (H3 eq_refl) as [_ ->]. apply clean_nil.
Qed.

(** Nothing is lost unaccounted. However a stream was read in pieces, once
    it is finished the head that went out, what was dropped and the tail are,
    in order, the stream; the tail fits its limit, the head is at least what was
    asked (or everything) and at most three bytes more; and the elision reports
    the dropped bytes, characters, UTF-16 units and lines as a decoder of the
    dropped text counts them, at the offset where the head ended. *)
Theorem kept_output_accounts head tail sent stream k :
  0 <= head → 0 <= tail → kept head tail sent stream k →
  let k' := finish k in
  ∃ dropped,
    stream = sent ++ dropped ++ ko_tail_out k' ∧
    len (ko_tail_out k') <= tail ∧
    len sent <= head + 3 ∧ (sent = stream ∨ head <= len sent) ∧
    elision k' =
      if len dropped =? 0 then None
      else let t := tally dropped (decode_text dropped) in
           Some (mkElision (len sent) (el_bytes t) (el_lines t) (el_code_points t) (el_utf16_units t)).
Proof.
  intros Hh Ht HK. destruct (kept_has_inv _ _ _ _ _ Hh Ht HK) as (d & Hk & E).
  destruct (finish_parts head tail sent d k Hk) as (d' & E' & [_ Hcount] & _ & Hlen & _ & Hhl & _ & _).
  exists d'. rewrite E'. pose proof Hk as [[H1 H2 H3 H4 H5] _ _ Hr _ _ _].
  split_and!; [done|lia|done| |].
  - destruct (ko_head_done k) eqn:Ed; [right; by apply H4|left].
    destruct (H3 eq_refl) as [_ Hn]. by rewrite <- E, Hn, app_nil_r.
  - unfold elision. rewrite Hcount, Hhl, H2. cbn [tally el_bytes].
    pose proof (len_nonneg d'). destruct (Z.eqb_spec (len d') 0); destruct (Z.ltb_spec 0 (len d'));
      done || lia.
Qed.

(** The cuts fall between characters: decoding the whole stream gives the
    characters of the head, then of the dropped part, then of the tail, each
    decoded on its own; and the head followed directly by the tail decodes to
    the characters of the two. *)
Theorem cuts_between_characters head tail sent stream k :
  0 <= head → 0 <= tail → kept head tail sent stream k →
  let kept_tail := ko_tail_out (finish k) in
  ∃ dropped, stream = sent ++ dropped ++ kept_tail ∧
    decode_text stream = decode_text sent ++ decode_text dropped ++ decode_text kept_tail ∧
    decode_text (sent ++ kept_tail) = decode_text sent ++ decode_text kept_tail.
Proof.
  intros Hh Ht HK. destruct (kept_has_inv _ _ _ _ _ Hh Ht HK) as (d & Hk & E).
  destruct (finish_parts head tail sent d k Hk) as (d' & E' & _ & Hcl & _ & Hfirst & _ & _ & _).
  pose proof (kept_clean head tail sent d k Hk) as Hc. exists d'. cbn zeta.
  rewrite <- E' in E, Hc. split; [done|]. rewrite <- E, decode_text_clean by done.
  rewrite (decode_text_clean d') by done. split; [done|].
  apply decode_text_clean. destruct Hfirst as [->|Hfirst]; [done|].
  destruct (ko_tail_out (finish k)) as [|b t]; [apply clean_nil|by apply clean_no_continuation].
Qed.

(** A stream stopped before its tail went out is accounted to its end: all
    but the head counts as dropped, with the exact character counts. *)
Theorem drop_rest_accounts head tail sent stream k :
  0 <= head → 0 <= tail → kept head tail sent stream k →
  ∃ dropped, stream = sent ++ dropped ∧ ko_tail_out (drop_rest k) = [] ∧
    ct_counts (ko_dropped (drop_rest k)) = tally dropped (decode_text dropped).
Proof.
  intros Hh Ht HK. destruct (kept_has_inv _ _ _ _ _ Hh Ht HK) as (d & Hk & E).
  destruct (finish_parts head tail sent d k Hk) as (d' & E' & Ha & Hcl & _).
  pose proof (ki_open _ _ _ _ _ Hk) as (Hfin & _).
  unfold drop_rest. rewrite Hfin. cbn. exists (d' ++ ko_tail_out (finish k)).
  rewrite E'. split; [done|]. split; [done|]. rewrite <- E'.
  apply counted_all_more; done.
Qed.

(** ** Chunking *)

Lemma take_head_bound data : ∀ k,
  let '(k', n) := take_head k data in
  (n <= length data)%nat ∧ ((n < length data)%nat → ko_head_done k' = true).
Proof.
  induction data as [|b data IH]; intros k; cbn [take_head]; [cbn; split; lia|].
  destruct (ko_head_done k) eqn:Ed; [cbn; split; [lia|done]|].
  destruct (_ && _); [cbn; split; [lia|done]|].
  assert (∀ k0, let '(k', n) := (let '(k', n) := take_head k0 data in (k', S n)) in
            (n <= length (b :: data))%nat ∧ ((n < length (b :: data))%nat → ko_head_done k' = true)) as Hrec.
  { intros k0. specialize (IH k0). destruct (take_head k0 data) as [k' n]. destruct IH as [? Hd].
    cbn. split; [lia|]. intros ?. apply Hd. lia. }
  destruct (Utf8Scan_step (ko_head_scan k) b) as [[| |] s]; [apply Hrec|apply Hrec|].
  destruct (_ <=? _); [cbn; split; [lia|done]|apply Hrec].
Qed.

Lemma take_head_fields data : ∀ k, same_rest k (take_head k data).1.
Proof.
  induction data as [|b data IH]; intros k; cbn [take_head]; [done|].
  destruct (ko_head_done k); [done|]. destruct (_ && _); [done|].
  assert (∀ l s d, same_rest k ((let '(k', n) := take_head (set_head k l s d) data in (k', S n)).1)) as Hrec.
  { intros l s d. specialize (IH (set_head k l s d)). by destruct (take_head (set_head k l s d) data). }
  destruct (Utf8Scan_step (ko_head_scan k) b) as [[| |] s]; [apply Hrec|apply Hrec|].
  destruct (_ <=? _); [done|apply Hrec].
Qed.

Lemma take_head_done k data : ko_head_done k = true → take_head k data = (k, O).
Proof. intros H. destruct data; cbn; [done|]. by rewrite H. Qed.

Lemma take_head_app l1 l2 : ∀ k,
  take_head k (l1 ++ l2) =
  let '(k1, n1) := take_head k l1 in
  let '(k2, n2) := take_head k1 l2 in (k2, (n1 + n2)%nat).
Proof.
  induction l1 as [|b l1 IH]; intros k; cbn [app take_head]; [by destruct (take_head k l2)|].
  destruct (ko_head_done k) eqn:Ed; [by rewrite take_head_done|].
  destruct (_ && _); [by rewrite take_head_done|].
  assert (∀ k0, (let '(k', n) := take_head k0 (l1 ++ l2) in (k', S n)) =
    let '(k1, n1) := (let '(k', n) := take_head k0 l1 in (k', S n)) in
    let '(k2, n2) := take_head k1 l2 in (k2, (n1 + n2)%nat)) as Hrec.
  { intros k0. rewrite IH. destruct (take_head k0 l1) as [k1 n1]. by destruct (take_head k1 l2). }
  destruct (Utf8Scan_step (ko_head_scan k) b) as [[| |] s]; [apply Hrec|apply Hrec|].
  destruct (_ <=? _); [by rewrite take_head_done|apply Hrec].
Qed.

Lemma len_kept k x :
  len (ko_ring k) <= ko_tail k →
  len (drop (excess_of k x) (ko_ring k ++ x)) = Z.min (ko_tail k) (len (ko_ring k) + len x).
Proof.
  intros Hr. pose proof (len_nonneg x). pose proof (len_nonneg (ko_ring k)).
  unfold excess_of, saturating_sub, len in *. rewrite length_drop, length_app. lia.
Qed.

Lemma excess_of_app k x y c :
  len (ko_ring k) <= ko_tail k →
  excess_of k (x ++ y) =
  (excess_of k x + excess_of (set_ring k (drop (excess_of k x) (ko_ring k ++ x)) c) y)%nat.
Proof.
  intros Hr. pose proof (len_nonneg x). pose proof (len_nonneg y). pose proof (len_nonneg (ko_ring k)).
  unfold excess_of at 3. cbn [set_ring ko_ring ko_tail]. rewrite len_kept by done.
  unfold excess_of, saturating_sub. rewrite len_app. lia.
Qed.

Lemma excess_of_le k x :
  len (ko_ring k) <= ko_tail k → (excess_of k x <= length (ko_ring k ++ x))%nat.
Proof.
  intros Hr. pose proof (len_nonneg (ko_ring k)).
  unfold excess_of, saturating_sub, len in *. rewrite length_app. lia.
Qed.

Lemma keep_keep k cut1 cut2 cut x y :
  len (ko_ring k) <= ko_tail k → keep (keep k cut1 x) cut2 y = keep k cut (x ++ y).
Proof.
  intros Hr. rewrite (keep_eq k cut), (keep_eq k cut1 x) by done.
  pose proof (excess_of_le k x Hr) as He.
  rewrite keep_eq by (cbn [set_ring ko_ring ko_tail]; rewrite len_kept by done; lia).
  rewrite (excess_of_app k x y (Counter_bytes (ko_dropped k) (take (excess_of k x) (ko_ring k ++ x))))
    by done.
  generalize (excess_of (set_ring k (drop (excess_of k x) (ko_ring k ++ x))
    (Counter_bytes (ko_dropped k) (take (excess_of k x) (ko_ring k ++ x)))) y) as e2. intros e2.
  unfold set_ring. cbn [ko_ring ko_dropped ko_head ko_tail ko_head_len ko_head_scan ko_head_done
    ko_finished ko_tail_out ko_tail_sent].
  rewrite app_assoc. generalize dependent (excess_of k x). intros e1 He.
  generalize dependent (ko_ring k ++ x). intros A He. f_equal.
  - rewrite <- drop_drop. by rewrite (drop_app_le A).
  - rewrite <- Counter_bytes_app. f_equal. rewrite <- (take_drop e1 A) at 3. rewrite <- app_assoc.
    rewrite take_app_add'; [done|]. rewrite length_take. lia.
Qed.

Lemma feed_feed k cut1 cut2 cut a b :
  ko_finished k = false → len (ko_ring k) <= ko_tail k →
  feed k cut (a ++ b) =
  let '(out1, k1) := feed k cut1 a in
  let '(out2, k2) := feed k1 cut2 b in (out1 ++ out2, k2).
Proof.
  intros Hf Hr. unfold feed. rewrite Hf. rewrite !feed_loop_take_head by lia. rewrite take_head_app.
  pose proof (take_head_bound a k) as Hb. pose proof (take_head_fields a k) as Hk.
  destruct (take_head k a) as [k1 n1]. cbn [fst] in Hk. destruct Hb as [Hn1 Hd1].
  destruct Hk as (R1 & R2 & R3 & R4 & R5 & R6). cbn [Nat.add].
  destruct (Nat.ltb_spec n1 (length a)) as [Hlt|Hge].
  - specialize (Hd1 Hlt). rewrite (take_head_done k1 b Hd1). cbn [Nat.add].
    rewrite Nat.add_0_r, take_app_le, drop_app_le by lia.
    rewrite <- (keep_keep k1 cut1 cut2) by (rewrite R1, R2; done).
    rewrite (keep_eq k1 cut1) by (rewrite R1, R2; done). cbn [set_ring ko_finished]. rewrite R4, Hf.
    rewrite feed_loop_take_head by lia. rewrite take_head_done by done. cbn [Nat.add].
    by rewrite take_0, drop_0, app_nil_r.
  - assert (n1 = length a) as -> by lia. rewrite take_ge, drop_ge by lia.
    change (keep k1 cut1 []) with k1. rewrite R4, Hf. rewrite feed_loop_take_head by lia.
    pose proof (take_head_fields b k1) as Hk2. destruct (take_head k1 b) as [k2 n2]. cbn [Nat.add].
    cbn [fst] in Hk2. destruct Hk2 as (Q1 & Q2 & _).
    rewrite take_app_add', drop_app_add' by done. f_equal.
    by rewrite !keep_eq by (rewrite Q1, Q2, R1, R2; done).
Qed.

(** How the stream was cut into reads, and where the ring's storage wrapped,
    makes no difference: the bytes sent and the state reached are those of
    reading the whole stream at once. *)
Theorem chunking_irrelevant head tail sent stream k cut :
  0 <= head → 0 <= tail → kept head tail sent stream k →
  feed (KeptOutput_new head tail) cut stream = (sent, k).
Proof.
  intros Hh Ht HK. revert cut.
  induction HK as [|sent stream k cut1 data out k' HK IH H]; intros cut; [done|].
  rewrite (feed_feed _ cut cut1) by (done || (unfold len; cbn; lia)). by rewrite IH, H.
Qed.

(** ** Sending the tail *)

(** [next_tail_chunk] until it answers nothing. *)
Fixpoint drain_tail (fuel : nat) (k : KeptOutput) (max : Z) : list (list byte) * KeptOutput :=
  match fuel with
  | O => ([], k)
  | S fuel =>
      match next_tail_chunk k max with
      | (None, k') => ([], k')
      | (Some chunk, k') => let '(chunks, k2) := drain_tail fuel k' max in (chunk :: chunks, k2)
      end
  end.

Lemma drain_tail_ok max fuel : ∀ k,
  0 < max → ko_finished k = true → 0 <= ko_tail_sent k <= len (ko_tail_out k) →
  (Z.to_nat (len (ko_tail_out k) - ko_tail_sent k) <= fuel)%nat →
  let '(chunks, k') := drain_tail fuel k max in
  concat chunks = drop (Z.to_nat (ko_tail_sent k)) (ko_tail_out k) ∧
  Forall (λ c, 0 < len c <= max) chunks ∧ tail_is_out k' = true.
Proof.
  induction fuel as [|fuel IH]; intros k Hm Hf Hs Hl; cbn [drain_tail].
  - unfold tail_is_out. rewrite Hf. split_and!; [|done|lia].
    rewrite drop_ge; [done|]. unfold len in *. lia.
  - unfold next_tail_chunk. rewrite Hf. cbn [negb orb].
    destruct (is_nil (drop (Z.to_nat (ko_tail_sent k)) (ko_tail_out k))) eqn:En.
    + apply is_nil_true in En. rewrite En. split_and!; [done|done|]. unfold tail_is_out. rewrite Hf.
      apply (f_equal length) in En. rewrite length_drop in En. cbn in En. unfold len in *. lia.
    + apply is_nil_false in En.
      set (rest := drop (Z.to_nat (ko_tail_sent k)) (ko_tail_out k)) in *.
      set (chunk := take (Z.to_nat (Z.min (len rest) max)) rest).
      assert (len rest = len (ko_tail_out k) - ko_tail_sent k) as Hrest.
      { unfold rest, len in *. rewrite length_drop. lia. }
      assert (0 < len rest) as Hpos.
      { pose proof (len_nonneg rest). destruct (decide (len rest = 0)); [|lia].
        by apply len_zero in e. }
      assert (len chunk = Z.min (len rest) max) as Hc.
      { unfold chunk, len in *. rewrite length_take. lia. }
      match goal with |- context [drain_tail fuel ?k1 max] => specialize (IH k1) end.
      cbn [ko_tail_sent ko_tail_out ko_finished] in IH.
      destruct (drain_tail fuel _ max) as [chunks k'].
      destruct IH as (Hcat & HF & Hout); [done|done|lia|lia|].
      cbn [concat]. split_and!; [|by constructor; [lia|]|done].
      rewrite Hcat, Z2Nat.inj_add by lia. rewrite <- drop_drop. fold rest.
      rewrite Hc. apply take_drop.
Qed.

(** Once finished, asking for chunks of any positive size sends the whole
    tail, in order, in non-empty chunks within that size, and then reports the
    tail as out. *)
Theorem tail_sent_completely head tail sent stream k max :
  0 <= head → 0 <= tail → kept head tail sent stream k → 0 < max →
  let '(chunks, k') := drain_tail (length (ko_tail_out (finish k))) (finish k) max in
  concat chunks = ko_tail_out (finish k) ∧ Forall (λ c, 0 < len c <= max) chunks ∧
  tail_is_out k' = true.
Proof.
  intros Hh Ht HK Hm. destruct (kept_has_inv _ _ _ _ _ Hh Ht HK) as (d & Hk & _).
  destruct (finish_parts head tail sent d k Hk) as (d' & _ & _ & _ & _ & _ & _ & Hfin & Hts).
  pose proof (len_nonneg (ko_tail_out (finish k))).
  pose proof (drain_tail_ok max (length (ko_tail_out (finish k))) (finish k) Hm Hfin) as Hd.
  rewrite Hts in Hd. rewrite drop_0 in Hd. apply Hd; [lia|]. unfold len. lia.
Qed.

(** ** Witnesses *)

(** "héllo wörld" with two bytes of head and five of tail. *)
Definition sample_text : list byte :=
  bytes_of [104; 195; 169; 108; 108; 111; 32; 119; 195; 182; 114; 108; 100].
Definition sample_kept : KeptOutput := (feed (KeptOutput_new 2 5) 0 sample_text).2.

Lemma sample_is_kept : kept 2 5 (bytes_of [104; 195; 169]) sample_text sample_kept.
Proof.
  change (bytes_of [104; 195; 169]) with ([] ++ bytes_of [104; 195; 169]).
  change sample_text with ([] ++ sample_text) at 1.
  apply (kept_feed 2 5 [] [] (KeptOutput_new 2 5) 0); [apply kept_new|]. vm_compute. reflexivity.
Qed.

Lemma kept_output_accounts_witness :
  ∃ dropped, sample_text = bytes_of [104; 195; 169] ++ dropped ++ ko_tail_out (finish sample_kept) ∧
    len (ko_tail_out (finish sample_kept)) <= 5.
Proof.
  destruct (kept_output_accounts 2 5 _ _ _ ltac:(lia) ltac:(lia) sample_is_kept)
    as (dropped & E & Hl & _).
  exists dropped. split; [exact E|exact Hl].
Defined.

Lemma cuts_between_characters_witness :
  decode_text (bytes_of [104; 195; 169] ++ ko_tail_out (finish sample_kept))
  = decode_text (bytes_of [104; 195; 169]) ++ decode_text (ko_tail_out (finish sample_kept)).
Proof.
  destruct (cuts_between_characters 2 5 _ _ _ ltac:(lia) ltac:(lia) sample_is_kept)
    as (dropped & _ & _ & E).
  exact E.
Defined.

Lemma drop_rest_accounts_witness : ko_tail_out (drop_rest sample_kept) = [].
Proof.
  destruct (drop_rest_accounts 2 5 _ _ _ ltac:(lia) ltac:(lia) sample_is_kept)
    as (dropped & _ & E & _).
  exact E.
Defined.

Lemma chunking_irrelevant_witness :
  feed (KeptOutput_new 2 5) 3 sample_text = (bytes_of [104; 195; 169], sample_kept).
Proof. apply (chunking_irrelevant 2 5); [lia|lia|exact sample_is_kept]. Defined.

Lemma tail_sent_completely_witness :
  let '(chunks, k') := drain_tail (length (ko_tail_out (finish sample_kept))) (finish sample_kept) 2 in
  concat chunks = ko_tail_out (finish sample_kept) ∧ Forall (λ c, 0 < len c <= 2) chunks ∧
  tail_is_out k' = true.
Proof. apply (tail_sent_completely 2 5 _ _ _ 2 ltac:(lia) ltac:(lia) sample_is_kept). lia. Defined.
