(* ===== verification/Ordered.v ===== *)
(** * Ordered: Rust's [Ord] on keys and the iteration order of [BTreeMap]

    A [BTreeMap<K, V>] or [BTreeSet<K>] is a finite map or set whose iteration
    visits the keys in ascending order. The map itself is a [gmap]; this file
    gives the orders the sources use ([u64], byte strings, arrays and pairs),
    [btree_iter], the ascending list of a map's bindings, and the lemmas that
    make loops over it independent of how the map was built. *)

From S2P Require Import Prelude.
From S2P Require Import Composite.
From stdpp Require Export sorting.

#[global] Open Scope Z_scope.

(** ** Total orders on keys: the [Ord] instances *)

Class KeyOrder (K : Type) := {
  key_leb : K → K → bool;
  key_leb_trans x y z : key_leb x y = true → key_leb y z = true → key_leb x z = true;
  key_leb_antisym x y : key_leb x y = true → key_leb y x = true → x = y;
  key_leb_total x y : key_leb x y = true ∨ key_leb y x = true
}.

Definition key_le `{KeyOrder K} (x y : K) : Prop := key_leb x y = true.
Definition key_ltb `{KeyOrder K} (x y : K) : bool := negb (key_leb y x).

Section key_order.
Context `{KeyOrder K}.

#[global] Instance key_le_dec (x y : K) : Decision (key_le x y).
Proof. unfold key_le. apply _. Defined.
#[global] Instance key_le_trans : Transitive (key_le (K := K)).
Proof. intros x y z. apply key_leb_trans. Qed.
#[global] Instance key_le_antisym : AntiSymm (=) (key_le (K := K)).
Proof. intros x y. apply key_leb_antisym. Qed.
#[global] Instance key_le_total : Total (key_le (K := K)).
Proof. intros x y. apply key_leb_total. Qed.

Lemma key_le_refl (x : K) : key_le x x.
Proof. by destruct (key_leb_total x x). Qed.

Lemma key_ltb_spec (x y : K) : key_ltb x y = true ↔ key_le x y ∧ x ≠ y.
Proof.
  unfold key_ltb, key_le. rewrite negb_true_iff. split.
  - intros E. destruct (key_leb_total x y) as [|E']; [|congruence].
    split; [done|]. intros ->. congruence.
  - intros [E Hne]. destruct (key_leb y x) eqn:E'; [|done].
    destruct Hne. by apply key_leb_antisym.
Qed.

Lemma key_ltb_false (x y : K) : key_ltb x y = false ↔ key_le y x.
Proof. unfold key_ltb, key_le. apply negb_false_iff. Qed.

Lemma key_ltb_irrefl (x : K) : key_ltb x x = false.
Proof. apply key_ltb_false, key_le_refl. Qed.
Lemma key_ltb_trans (x y z : K) : key_ltb x y = true → key_ltb y z = true → key_ltb x z = true.
Proof.
  rewrite !key_ltb_spec. intros [H1 N1] [H2 N2]. split; [by trans y|].
  intros ->. destruct N1. by apply (anti_symm key_le).
Qed.
End key_order.

#[global] Program Instance Z_key_order : KeyOrder Z := {| key_leb := Z.leb |}.
Next Obligation. cbn. intros. lia. Qed.
Next Obligation. cbn. intros. lia. Qed.
Next Obligation. cbn. intros. lia. Qed.

Lemma byte_val_inj a b : byte_val a = byte_val b → a = b.
Proof. intros E. by rewrite <- (byte_of_val a), <- (byte_of_val b), E. Qed.

(** [u8]'s order. *)
#[global] Program Instance byte_key_order : KeyOrder byte :=
  {| key_leb a b := byte_val a <=? byte_val b |}.
Next Obligation. cbn. intros. lia. Qed.
Next Obligation. cbn. intros. apply byte_val_inj. lia. Qed.
Next Obligation. cbn. intros. lia. Qed.

(** The lexicographic order of slices, vectors and arrays. *)
Fixpoint lex_leb `{KeyOrder K, EqDecision K} (l1 l2 : list K) : bool :=
  match l1, l2 with
  | [], _ => true
  | _ :: _, [] => false
  | x :: l1', y :: l2' =>
      if bool_decide (x = y) then lex_leb l1' l2' else key_leb x y
  end.

#[global] Program Instance list_key_order `{KeyOrder K, EqDecision K} : KeyOrder (list K) :=
  {| key_leb := lex_leb |}.
Next Obligation.
  intros K HK ? x. induction x as [|a x IH]; intros [|b y] [|c z]; cbn; try done.
  repeat case_bool_decide; simplify_eq; eauto using key_leb_trans.
  intros H1 H2. by destruct (key_leb_antisym _ _ H1 H2).
Qed.
Next Obligation.
  intros K HK ? x. induction x as [|a x IH]; intros [|b y]; cbn; try done.
  repeat case_bool_decide; simplify_eq; intros H1 H2.
  - f_equal. by apply IH.
  - by destruct (key_leb_antisym _ _ H1 H2).
Qed.
Next Obligation.
  intros K HK ? x. induction x as [|a x IH]; intros [|b y]; cbn; eauto.
  repeat case_bool_decide; simplify_eq; [apply IH|apply key_leb_total].
Qed.

(** The order of pairs. *)
#[global] Program Instance prod_key_order `{KeyOrder K1, EqDecision K1, KeyOrder K2} :
    KeyOrder (K1 * K2) :=
  {| key_leb p q := if bool_decide (p.1 = q.1) then key_leb p.2 q.2 else key_leb p.1 q.1 |}.
Next Obligation.
  intros K1 HK1 HE K2 HK2 [a1 a2] [b1 b2] [c1 c2]; cbn.
  repeat case_bool_decide; simplify_eq; eauto using key_leb_trans.
  intros Ha Hb. by destruct (key_leb_antisym _ _ Ha Hb).
Qed.
Next Obligation.
  intros K1 HK1 HE K2 HK2 [a1 a2] [b1 b2]; cbn.
  repeat case_bool_decide; simplify_eq; intros Ha Hb.
  - f_equal. by apply key_leb_antisym.
  - by destruct (key_leb_antisym _ _ Ha Hb).
Qed.
Next Obligation.
  intros K1 HK1 HE K2 HK2 [a1 a2] [b1 b2]; cbn.
  repeat case_bool_decide; simplify_eq; apply key_leb_total.
Qed.

(** ** Sorting: [v.sort_unstable()] on distinct keys *)

Definition sort_keys `{KeyOrder K} (l : list K) : list K := merge_sort key_le l.

Section sort.
Context `{KeyOrder K}.
Implicit Types l : list K.

Lemma sort_keys_perm l : sort_keys l ≡ₚ l.
Proof. apply merge_sort_Permutation. Qed.
Lemma sort_keys_sorted l : StronglySorted key_le (sort_keys l).
Proof. apply (StronglySorted_merge_sort _). Qed.
Lemma sort_keys_unique l l' : StronglySorted key_le l' → l' ≡ₚ l → sort_keys l = l'.
Proof.
  intros Hs Hp. apply (StronglySorted_unique key_le); [apply sort_keys_sorted|done|].
  by rewrite sort_keys_perm.
Qed.
End sort.

(** ** Iteration over a [BTreeMap] *)

Section btree.
Context `{KeyOrder K, Countable K} {A : Type}.
Implicit Types m : gmap K A.

Definition binding_le : relation (K * A) := λ p q, key_le p.1 q.1.

#[global] Instance binding_le_dec p q : Decision (binding_le p q).
Proof. unfold binding_le. apply _. Defined.

(** [map.iter()]: the bindings in ascending key order. *)
Definition btree_iter m : list (K * A) := merge_sort binding_le (map_to_list m).

(** [map.pop_first()], the result dropped. *)
Definition btree_pop_first m : gmap K A :=
  match btree_iter m with
  | [] => m
  | (k, _) :: _ => delete k m
  end.

#[local] Instance binding_le_trans : Transitive binding_le.
Proof. intros p q r. unfold binding_le. apply key_le_trans. Qed.
#[local] Instance binding_le_total : Total binding_le.
Proof. intros p q. apply (total key_le). Qed.

Lemma btree_iter_perm m : btree_iter m ≡ₚ map_to_list m.
Proof. apply merge_sort_Permutation. Qed.
Lemma btree_iter_sorted m : StronglySorted binding_le (btree_iter m).
Proof. apply (StronglySorted_merge_sort _). Qed.
Lemma btree_iter_nodup m : NoDup (btree_iter m).*1.
Proof. rewrite btree_iter_perm. apply NoDup_fst_map_to_list. Qed.
Lemma elem_of_btree_iter m k a : (k, a) ∈ btree_iter m ↔ m !! k = Some a.
Proof. rewrite btree_iter_perm. apply elem_of_map_to_list. Qed.
Lemma list_to_map_btree_iter m : list_to_map (btree_iter m) = m.
Proof.
  etrans; [|apply list_to_map_to_list]. apply list_to_map_proper; [apply btree_iter_nodup|].
  apply btree_iter_perm.
Qed.
Lemma length_btree_iter m : length (btree_iter m) = size m.
Proof. rewrite btree_iter_perm. apply length_map_to_list. Qed.

(** Ascending lists with distinct keys are determined by their bindings. *)
Lemma sorted_bindings_unique (l1 l2 : list (K * A)) :
  StronglySorted binding_le l1 → StronglySorted binding_le l2 →
  NoDup l1.*1 → l1 ≡ₚ l2 → l1 = l2.
Proof.
  intros H1 H2 Hnd Hp. apply (StronglySorted_unique_strong binding_le); [|done..].
  intros [k1 a1] [k2 a2] Hi1 Hi2 L1 L2. unfold binding_le in *. cbn in *.
  assert (k1 = k2) as -> by by apply (anti_symm key_le).
  rewrite <- Hp in Hi2. f_equal.
  apply list_elem_of_lookup in Hi1 as [i Hi], Hi2 as [j Hj].
  assert (i = j) as ->; [|congruence].
  eapply (NoDup_lookup _ _ _ k2 Hnd); rewrite list_lookup_fmap; by simplify_option_eq.
Qed.

Lemma btree_iter_unique m (l : list (K * A)) :
  StronglySorted binding_le l → NoDup l.*1 → (∀ k a, (k, a) ∈ l ↔ m !! k = Some a) →
  btree_iter m = l.
Proof.
  intros Hs Hnd Hl. symmetry. apply sorted_bindings_unique; [done|apply btree_iter_sorted|done|].
  apply NoDup_Permutation; [by eapply NoDup_fmap_1|eapply NoDup_fmap_1, btree_iter_nodup|].
  intros [k a]. by rewrite Hl, elem_of_btree_iter.
Qed.
End btree.
