(* ===== verification/Kv.v ===== *)
(** * Kv: the server's key-value store ([crates/server/src/kv.rs])

    The in-memory store with its compare-and-swap mutations, the retained
    operation replays, the write-behind admission budget and queue, the writer
    thread, and opening a store from its database. The database engine (redb),
    BLAKE3, the clock and the environment are parameters. *)

From S2P Require Import Prelude Schema Composite Ordered.

(** ** Result statuses ([crates/yas/src/core.rs]) *)

Inductive Status :=
| Status_Ok | Status_Invalid | Status_Unsupported | Status_NotFound | Status_Conflict
| Status_Busy | Status_Unavailable | Status_ResourceExhausted | Status_RateLimited
| Status_Timeout | Status_Cancelled | Status_Stale | Status_Io | Status_Internal
| Status_Unknown (code : Z).

#[global] Instance Status_eq_dec : EqDecision Status.
Proof. solve_decision. Defined.

Definition Status_code (s : Status) : Z :=
  match s with
  | Status_Ok => core_status_OK
  | Status_Invalid => core_status_INVALID
  | Status_Unsupported => core_status_UNSUPPORTED
  | Status_NotFound => core_status_NOT_FOUND
  | Status_Conflict => core_status_CONFLICT
  | Status_Busy => core_status_BUSY
  | Status_Unavailable => core_status_UNAVAILABLE
  | Status_ResourceExhausted => core_status_RESOURCE_EXHAUSTED
  | Status_RateLimited => core_status_RATE_LIMITED
  | Status_Timeout => core_status_TIMEOUT
  | Status_Cancelled => core_status_CANCELLED
  | Status_Stale => core_status_STALE
  | Status_Io => core_status_IO
  | Status_Internal => core_status_INTERNAL
  | Status_Unknown code => code
  end.

Definition Status_from_code (code : Z) : Status :=
  if code =? core_status_OK then Status_Ok
  else if code =? core_status_INVALID then Status_Invalid
  else if code =? core_status_UNSUPPORTED then Status_Unsupported
  else if code =? core_status_NOT_FOUND then Status_NotFound
  else if code =? core_status_CONFLICT then Status_Conflict
  else if code =? core_status_BUSY then Status_Busy
  else if code =? core_status_UNAVAILABLE then Status_Unavailable
  else if code =? core_status_RESOURCE_EXHAUSTED then Status_ResourceExhausted
  else if code =? core_status_RATE_LIMITED then Status_RateLimited
  else if code =? core_status_TIMEOUT then Status_Timeout
  else if code =? core_status_CANCELLED then Status_Cancelled
  else if code =? core_status_STALE then Status_Stale
  else if code =? core_status_IO then Status_Io
  else if code =? core_status_INTERNAL then Status_Internal
  else Status_Unknown code.

(** ** Constants *)

Definition MAX_PENDING_WRITES : Z := 64.
Definition MAX_RECENT_OPERATION_REPLAYS : Z := 1024.
Definition OPERATION_RECORD_MAGIC : list byte := bytes_of [89; 75; 79; 49].
Definition OPERATION_RECORD_HEADER_BYTES : Z := 56.
Definition OPERATION_RESULT_ENCODED_BYTES : Z := 58.
Definition OPERATION_PRUNE_BATCH : Z := 1024.
Definition STAGE_WITNESS_ENCODED_BYTES : Z := 50.
Definition MAX_BATCH_ITEMS : Z := kv_MAX_BATCH_ITEMS.

(** ** Limits ([crates/yas/src/kv.rs]) *)

Record KvLimits := mkKvLimits {
  kl_max_key_bytes : Z; kl_max_value_bytes : Z; kl_max_inline_bytes : Z; kl_max_entries : Z;
  kl_max_store_bytes : Z; kl_max_namespaces_per_session : Z; kl_max_stages_per_session : Z;
  kl_max_staged_bytes_per_session : Z; kl_max_batch_items : Z
}.

Definition KvLimits_HARD : KvLimits := {|
  kl_max_key_bytes := kv_MAX_KEY_BYTES;
  kl_max_value_bytes := kv_MAX_VALUE_BYTES;
  kl_max_inline_bytes := kv_MAX_INLINE_BYTES;
  kl_max_entries := kv_MAX_ENTRIES;
  kl_max_store_bytes := kv_MAX_STORE_BYTES;
  kl_max_namespaces_per_session := kv_MAX_NAMESPACES_PER_SESSION;
  kl_max_stages_per_session := kv_MAX_STAGES_PER_SESSION;
  kl_max_staged_bytes_per_session := kv_MAX_STAGED_BYTES_PER_SESSION;
  kl_max_batch_items := MAX_BATCH_ITEMS
|}.

Definition MAX_STAGE_WITNESSES_PER_OPERATION : Z := kl_max_stages_per_session KvLimits_HARD.

(** The environment: [std::env::var(name).ok().and_then(|v| v.parse().ok())]. *)
Definition KvEnv := string → option Z.

Definition env_budget (env : KvEnv) (name : string) (fallback : Z) : Z :=
  default fallback (env name).
Definition value_max (env : KvEnv) : Z := env_budget env "YAS_KV_VALUE_MAX" (4 * 1024 * 1024).
Definition total_max (env : KvEnv) : Z := env_budget env "YAS_KV_TOTAL_MAX" (256 * 1024 * 1024).
Definition max_entries (env : KvEnv) : Z := env_budget env "YAS_KV_MAX_ENTRIES" 16384.

Definition writer_queue_max_bytes (env : KvEnv) : Z :=
  let hard := KvLimits_HARD in
  let values := Z.min (total_max env) (kl_max_store_bytes hard) in
  let metadata :=
    saturating_add_u64
      (saturating_mul_u64 (kl_max_key_bytes hard) MAX_BATCH_ITEMS)
      (saturating_add_u64
         (saturating_add_u64 OPERATION_RECORD_HEADER_BYTES
            (saturating_mul_u64 OPERATION_RESULT_ENCODED_BYTES MAX_BATCH_ITEMS))
         (saturating_mul_u64 MAX_STAGE_WITNESSES_PER_OPERATION STAGE_WITNESS_ENCODED_BYTES)) in
  saturating_add_u64 values metadata.

Definition native_limits (env : KvEnv) : KvLimits :=
  let hard := KvLimits_HARD in
  {| kl_max_key_bytes := kl_max_key_bytes hard;
     kl_max_value_bytes := Z.min (value_max env) (kl_max_value_bytes hard);
     kl_max_inline_bytes := kl_max_inline_bytes hard;
     kl_max_entries := Z.min (default U32_MAX (try_u32 (max_entries env))) (kl_max_entries hard);
     kl_max_store_bytes := Z.min (total_max env) (kl_max_store_bytes hard);
     kl_max_namespaces_per_session := kl_max_namespaces_per_session hard;
     kl_max_stages_per_session := kl_max_stages_per_session hard;
     kl_max_staged_bytes_per_session := kl_max_staged_bytes_per_session hard;
     kl_max_batch_items := kl_max_batch_items hard |}.

(** ** Data

    Keys and values are byte strings; an operation id is a [[u8; 16]], a hash
    or fingerprint a [[u8; 32]]. *)

Abbreviation Key := (list byte) (only parsing).
Abbreviation OperationId := (list byte) (only parsing).
Abbreviation Hash := (list byte) (only parsing).

Record Entry := mkEntry {
  en_value : list byte; en_hash : Hash; en_mtime_ns : Z; en_modification_revision : Z
}.

Abbreviation Entries := (gmap Key Entry).

(** [value] is [None] for a delete, else the bytes, mtime and revision. *)
Record PersistedMutation := mkPersisted {
  pm_key : Key; pm_value : option (list byte * Z * Z)
}.

Record NativeEntry := mkNativeEntry {
  ne_key : Key; ne_value : list byte; ne_content_hash : Hash; ne_mtime_ns : Z;
  ne_modification_revision : Z
}.

Inductive NativeChangeRecord :=
| Upsert (entry : NativeEntry) (added : bool)
| Remove (key : Key) (modification_revision : Z).

Record NativeChange := mkChange {
  nc_from_revision : Z; nc_to_revision : Z; nc_records : list NativeChangeRecord
}.

Inductive Precondition :=
| Any
| Absent
| HashIs (hash : Hash)
| RevisionIs (revision : Z)
| HashAndRevision (content_hash : Hash) (modification_revision : Z).

Inductive NativeMutation :=
| Put (key : Key) (precondition : Precondition) (value : list byte) (content_hash : Hash)
| Delete (key : Key) (precondition : Precondition).

Record NativeMutationResult := mkResult {
  mr_status : Status; mr_modification_revision : Z; mr_mtime_ns : Z; mr_content_hash : Hash;
  mr_byte_len : Z
}.

Record NativeStageWitness := mkWitness {
  sw_ordinal : Z; sw_original_handle : Z; sw_byte_len : Z; sw_content_hash : Hash
}.

Record NativeDedupResult := mkDedup {
  dd_fingerprint : Hash; dd_store_revision : Z; dd_settlement_sequence : Z;
  dd_results : list NativeMutationResult; dd_stage_witnesses : list NativeStageWitness
}.

Abbreviation Operations := (gmap OperationId NativeDedupResult).

Record RetainedOperationSet := mkRetained {
  ro_values : Operations; ro_order : list OperationId; ro_maximum_store_revision : Z;
  ro_maximum_sequence : Z
}.

Record OperationReplayPlan := mkPlan {
  rp_values : Operations; rp_order : list OperationId; rp_evicted : list OperationId
}.

(** [durable] is [true] where the source returns the receiver of the job's reply. *)
Record NativeCommit := mkCommit {
  cm_store_revision : Z; cm_results : list NativeMutationResult; cm_durable : bool;
  cm_persistence_failed : bool
}.

Inductive NativeMutationError := Mutation_Invalid | Mutation_ResourceExhausted | OperationConflict.

(** ** Write-behind admission *)

Record WriterBudget := mkBudget {
  wb_jobs : Z; wb_bytes : Z; wb_max_jobs : Z; wb_max_bytes : Z
}.

Definition WriterBudget_new (max_jobs max_bytes : Z) : WriterBudget :=
  mkBudget 0 0 max_jobs max_bytes.

(** A permit for [bytes] of the one budget of the process. *)
Record WriterPermit := mkPermit { wp_bytes : Z }.

Definition WriterBudget_try_reserve (b : WriterBudget) (bytes : Z) :
    option (WriterPermit * WriterBudget) :=
  next_jobs ← checked_add_u64 (wb_jobs b) 1;
  next_bytes ← checked_add_u64 (wb_bytes b) bytes;
  if (wb_max_jobs b <? next_jobs) || (wb_max_bytes b <? next_bytes) then None
  else Some (mkPermit bytes, mkBudget next_jobs next_bytes (wb_max_jobs b) (wb_max_bytes b)).

(** [impl Drop for WriterPermit] *)
Definition WriterPermit_drop (p : WriterPermit) (b : WriterBudget) : WriterBudget :=
  mkBudget (saturating_sub (wb_jobs b) 1) (saturating_sub (wb_bytes b) (wp_bytes p))
           (wb_max_jobs b) (wb_max_bytes b).

(** [native_reply] is [true] where the job carries a reply sender. *)
Record WriteJob := mkJob {
  wj_mutations : list PersistedMutation; wj_operation : option (OperationId * list byte);
  wj_evicted_operations : list OperationId; wj_native_reply : bool; wj_permit : WriterPermit
}.

(** What a [WriterHandle] points to, shared with the writer thread: the bounded
    channel (its queue, and whether the receiver still exists) and the budget. *)
Record WriterLink := mkLink {
  wl_budget : WriterBudget; wl_queue : list WriteJob; wl_capacity : Z; wl_connected : bool
}.

Definition set_budget (l : WriterLink) (b : WriterBudget) : WriterLink :=
  mkLink b (wl_queue l) (wl_capacity l) (wl_connected l).
Definition set_queue (l : WriterLink) (q : list WriteJob) : WriterLink :=
  mkLink (wl_budget l) q (wl_capacity l) (wl_connected l).
(** Dropping a job releases its permit. *)
Definition drop_job (l : WriterLink) (j : WriteJob) : WriterLink :=
  set_budget l (WriterPermit_drop (wj_permit j) (wl_budget l)).

Inductive TrySendError := TrySend_Full | TrySend_Disconnected.

(** [SyncSender::try_send]: on failure the job comes back to the caller. *)
Definition try_send (l : WriterLink) (j : WriteJob) : option TrySendError * WriterLink :=
  if negb (wl_connected l) then (Some TrySend_Disconnected, l)
  else if wl_capacity l <=? len (wl_queue l) then (Some TrySend_Full, l)
  else (None, set_queue l (wl_queue l ++ [j])).

(** ** The store

    [writer] says whether the store still holds its writer handle; what the
    handle points to is the [WriterLink] beside the store. [native_changes] is
    the broadcast sender: the changes sent so far, a subscription being a
    position in that sequence. The queue's bound, past which a subscriber that lags
    loses changes, is not modelled. *)

Record Store := mkStore {
  st_entries : Entries; st_native_changes : list NativeChange; st_operations : Operations;
  st_operation_order : list OperationId; st_next_operation_sequence : Z; st_writer : bool;
  st_total_bytes : Z; st_revision : Z
}.

Definition set_writer (st : Store) (w : bool) : Store :=
  mkStore (st_entries st) (st_native_changes st) (st_operations st) (st_operation_order st)
          (st_next_operation_sequence st) w (st_total_bytes st) (st_revision st).
Definition set_operations (st : Store) (plan : OperationReplayPlan) : Store :=
  mkStore (st_entries st) (st_native_changes st) (rp_values plan) (rp_order plan)
          (saturating_add_u64 (st_next_operation_sequence st) 1) (st_writer st)
          (st_total_bytes st) (st_revision st).
Definition set_entries (st : Store) (entries : Entries) (total_bytes revision : Z) : Store :=
  mkStore entries (st_native_changes st) (st_operations st) (st_operation_order st)
          (st_next_operation_sequence st) (st_writer st) total_bytes revision.
Definition send_change (st : Store) (c : NativeChange) : Store :=
  mkStore (st_entries st) (st_native_changes st ++ [c]) (st_operations st)
          (st_operation_order st) (st_next_operation_sequence st) (st_writer st)
          (st_total_bytes st) (st_revision st).

(** [Ok None] for a memory-only store, [Ok (Some permit)] on admission. *)
Definition reserve_write (st : Store) (l : WriterLink) (bytes : Z) :
    result NativeMutationError (option WriterPermit * WriterLink) :=
  if st_writer st then
    match WriterBudget_try_reserve (wl_budget l) bytes with
    | Some (permit, b) => Ok (Some permit, set_budget l b)
    | None => Err Mutation_ResourceExhausted
    end
  else Ok (None, l).

Definition enqueue_job (st : Store) (l : WriterLink) (j : WriteJob) : bool * Store * WriterLink :=
  if negb (st_writer st) then (false, st, drop_job l j)
  else match try_send l j with
  | (None, l') => (true, st, l')
  | (Some TrySend_Disconnected, l') => (false, set_writer st false, drop_job l' j)
  | (Some TrySend_Full, l') => (false, set_writer st false, drop_job l' j)
  end.

(** ** Operation records: [encode_native_dedup] and [decode_native_dedup] *)

Definition encode_result (item : NativeMutationResult) : list byte :=
  to_le 2 (Status_code (mr_status item)) ++ to_le 8 (mr_modification_revision item)
  ++ to_le 8 (mr_mtime_ns item) ++ mr_content_hash item ++ to_le 8 (mr_byte_len item).

Definition encode_stage_witness (w : NativeStageWitness) : list byte :=
  to_le 2 (sw_ordinal w) ++ to_le 8 (sw_original_handle w) ++ to_le 8 (sw_byte_len w)
  ++ sw_content_hash w.

Definition encode_native_dedup (r : NativeDedupResult) : list byte :=
  OPERATION_RECORD_MAGIC ++ to_le 8 (dd_settlement_sequence r) ++ dd_fingerprint r
  ++ to_le 8 (dd_store_revision r) ++ to_le 2 (as_u16 (len (dd_results r)))
  ++ to_le 2 (as_u16 (len (dd_stage_witnesses r)))
  ++ concat (map encode_result (dd_results r))
  ++ concat (map encode_stage_witness (dd_stage_witnesses r)).

(** [raw[a..b]], within the length the decoder has checked. *)
Definition slice (raw : list byte) (a b : Z) : list byte :=
  take (Z.to_nat (b - a)) (drop (Z.to_nat a) raw).
Definition le_slice (raw : list byte) (a b : Z) : Z := from_le (slice raw a b).

(** [for _ in 0..count]: the results and the offset after them. *)
Fixpoint decode_results (raw : list byte) (offset : Z) (count : nat) :
    list NativeMutationResult * Z :=
  match count with
  | O => ([], offset)
  | S count' =>
      let item :=
        mkResult (Status_from_code (le_slice raw offset (offset + 2)))
                 (le_slice raw (offset + 2) (offset + 10)) (le_slice raw (offset + 10) (offset + 18))
                 (slice raw (offset + 18) (offset + 50)) (le_slice raw (offset + 50) (offset + 58)) in
      let '(items, offset') := decode_results raw (offset + 58) count' in
      (item :: items, offset')
  end.

(** [for ordinal in 0..witness_count], from [ordinal] on. *)
Fixpoint decode_stage_witnesses (raw : list byte) (offset ordinal : Z) (count : nat) :
    option (list NativeStageWitness) :=
  match count with
  | O => Some []
  | S count' =>
      let encoded_ordinal := le_slice raw offset (offset + 2) in
      if negb (encoded_ordinal =? ordinal) then None else
      let original_handle := le_slice raw (offset + 2) (offset + 10) in
      if original_handle =? 0 then None else
      let byte_len := le_slice raw (offset + 10) (offset + 18) in
      if kl_max_value_bytes KvLimits_HARD <? byte_len then None else
      let w := mkWitness encoded_ordinal original_handle byte_len
                         (slice raw (offset + 18) (offset + 50)) in
      rest ← decode_stage_witnesses raw (offset + 50) (ordinal + 1) count';
      Some (w :: rest)
  end.

Definition decode_native_dedup (raw : list byte) : option NativeDedupResult :=
  if (len raw <? OPERATION_RECORD_HEADER_BYTES) || negb (starts_with raw OPERATION_RECORD_MAGIC)
  then None else
  let settlement_sequence := le_slice raw 4 12 in
  let fingerprint := slice raw 12 44 in
  let store_revision := le_slice raw 44 52 in
  let count := le_slice raw 52 54 in
  let witness_count := le_slice raw 54 56 in
  if (MAX_BATCH_ITEMS <? count) || (MAX_STAGE_WITNESSES_PER_OPERATION <? witness_count)
  then None else
  result_bytes ← checked_mul_u64 count OPERATION_RESULT_ENCODED_BYTES;
  witness_bytes ← checked_mul_u64 witness_count STAGE_WITNESS_ENCODED_BYTES;
  expected ← checked_add_u64 OPERATION_RECORD_HEADER_BYTES result_bytes;
  expected_len ← checked_add_u64 expected witness_bytes;
  if negb (len raw =? expected_len) || (settlement_sequence =? 0) || (store_revision =? 0)
  then None else
  let '(results, offset) :=
    decode_results raw OPERATION_RECORD_HEADER_BYTES (Z.to_nat count) in
  stage_witnesses ← decode_stage_witnesses raw offset 0 (Z.to_nat witness_count);
  Some (mkDedup fingerprint store_revision settlement_sequence results stage_witnesses).

(** ** Retained operations *)

(** [entries.values().map(|entry| entry.modification_revision).collect::<BTreeSet<_>>()] *)
Definition live_revisions (entries : Entries) : gset Z :=
  list_to_set (map (λ p, en_modification_revision p.2) (btree_iter entries)).

Definition operation_pins_live_entry (r : NativeDedupResult) (live : gset Z) : bool :=
  bool_decide (dd_store_revision r ∈ live)
  && existsb (λ item, bool_decide (mr_status item = Status_Ok)) (dd_results r).

(** The accumulators of the load loop: [pinned], [recent], [maximum_store_revision]
    and [maximum_sequence]. *)
Record RetainState := mkRetainState {
  rt_pinned : gmap Z (OperationId * NativeDedupResult);
  rt_recent : gmap (Z * OperationId) NativeDedupResult;
  rt_maximum_store_revision : Z;
  rt_maximum_sequence : Z
}.

Definition retain_operation_candidate (live : gset Z) (s : RetainState)
    (operation_id : OperationId) (r : NativeDedupResult) : RetainState :=
  let pinned :=
    if operation_pins_live_entry r live then
      let replace :=
        match rt_pinned s !! dd_store_revision r with
        | None => true
        | Some (current_id, current) =>
            key_ltb (dd_settlement_sequence current, current_id)
                    (dd_settlement_sequence r, operation_id)
        end in
      if replace then <[dd_store_revision r := (operation_id, r)]> (rt_pinned s) else rt_pinned s
    else rt_pinned s in
  let recent := <[(dd_settlement_sequence r, operation_id) := r]> (rt_recent s) in
  let recent :=
    if MAX_RECENT_OPERATION_REPLAYS <? Z.of_nat (size recent) then btree_pop_first recent
    else recent in
  mkRetainState pinned recent
    (Z.max (rt_maximum_store_revision s) (dd_store_revision r))
    (Z.max (rt_maximum_sequence s) (dd_settlement_sequence r)).

(** [values.entry(operation_id).or_insert(result)] *)
Definition or_insert (values : Operations) (operation_id : OperationId) (r : NativeDedupResult) :
    Operations :=
  match values !! operation_id with Some _ => values | None => <[operation_id := r]> values end.

Definition finish_retained_operations (s : RetainState) : RetainedOperationSet :=
  let pinned : Operations :=
    foldl (λ m p, <[p.2.1 := p.2.2]> m) ∅ (btree_iter (rt_pinned s)) in
  let values := foldl (λ m p, or_insert m p.1.2 p.2) pinned (btree_iter (rt_recent s)) in
  let ordered := sort_keys (map (λ p, (dd_settlement_sequence p.2, p.1)) (btree_iter values)) in
  mkRetained values (map snd ordered) (rt_maximum_store_revision s) (rt_maximum_sequence s).

(** Last [MAX_RECENT_OPERATION_REPLAYS] of the order. *)
Definition recent_ids (order : list OperationId) : gset OperationId :=
  list_to_set (take (Z.to_nat MAX_RECENT_OPERATION_REPLAYS) (reverse order)).

(** [pinned_by_revision] *)
Definition pinned_by_revision (live : gset Z) (operations : Operations) (order : list OperationId) :
    gmap Z OperationId :=
  foldl (λ m operation_id,
    match operations !! operation_id with
    | Some r => if operation_pins_live_entry r live then <[dd_store_revision r := operation_id]> m
                else m
    | None => m
    end) ∅ order.

Definition prune_operation_replays (entries : Entries) (operations : Operations)
    (order : list OperationId) : OperationReplayPlan :=
  let live := live_revisions entries in
  let recent := recent_ids order in
  let pinned : gset OperationId :=
    list_to_set (map snd (btree_iter (pinned_by_revision live operations order))) in
  let evicted : gset OperationId :=
    list_to_set (filter (λ operation_id, operation_id ∉ pinned ∧ operation_id ∉ recent) order) in
  mkPlan (foldl (λ m operation_id, delete operation_id m) operations (elements evicted))
         (filter (λ operation_id, operation_id ∉ evicted) order)
         (sort_keys (elements evicted)).

Definition plan_operation_replay (entries : Entries) (operations : Operations)
    (order : list OperationId) (operation_id : OperationId) (r : NativeDedupResult) :
    OperationReplayPlan :=
  prune_operation_replays entries (<[operation_id := r]> operations) (order ++ [operation_id]).

(** One step of the [try_fold] of [write_job_bytes]. *)
Definition add_mutation_bytes (total : option Z) (m : PersistedMutation) : option Z :=
  total ← total;
  total ← checked_add_u64 total (len (pm_key m));
  checked_add_u64 total (match pm_value m with None => 0 | Some (value, _, _) => len value end).

Definition write_job_bytes (mutations : list PersistedMutation)
    (encoded_operation_bytes evicted_operations : Z) : option Z :=
  mutation_bytes ← foldl add_mutation_bytes (Some 0) mutations;
  total ← checked_add_u64 mutation_bytes encoded_operation_bytes;
  evicted ← checked_mul_u64 evicted_operations 16;
  checked_add_u64 total evicted.

(** ** Reads *)

Definition native_entry (key : Key) (e : Entry) : NativeEntry :=
  mkNativeEntry key (en_value e) (en_hash e) (en_mtime_ns e) (en_modification_revision e).

Definition native_revision (st : Store) : Z := st_revision st.

Definition native_get (st : Store) (key : Key) : option NativeEntry :=
  e ← st_entries st !! key; Some (native_entry key e).

Definition replay_commit (previous : NativeDedupResult) : NativeCommit :=
  mkCommit (dd_store_revision previous) (dd_results previous) false false.

Definition native_replay (st : Store) (operation_id : OperationId) (fingerprint : Hash) :
    result NativeMutationError (option NativeCommit) :=
  match st_operations st !! operation_id with
  | None => Ok None
  | Some previous =>
      if negb (bool_decide (dd_fingerprint previous = fingerprint)) then Err OperationConflict
      else Ok (Some (replay_commit previous))
  end.

Definition native_stage_witnesses (st : Store) (operation_id : OperationId) :
    option (list NativeStageWitness) :=
  r ← st_operations st !! operation_id; Some (dd_stage_witnesses r).

Fixpoint skip_while {A} (p : A → bool) (l : list A) : list A :=
  match l with [] => [] | x :: l' => if p x then skip_while p l' else l end.
Fixpoint take_while {A} (p : A → bool) (l : list A) : list A :=
  match l with [] => [] | x :: l' => if p x then x :: take_while p l' else [] end.

(** [entries.range(start..)] *)
Definition range_from (start : Key) (entries : Entries) : list (Key * Entry) :=
  skip_while (λ p, key_ltb p.1 start) (btree_iter entries).

(** [changes] is the position of the subscription. *)
Record NativeWatch := mkWatch {
  nw_revision : Z; nw_entries : list NativeEntry; nw_changes : nat
}.

Definition native_watch (st : Store) (prefix : Key) : NativeWatch :=
  mkWatch (st_revision st)
    (map (λ p, native_entry p.1 p.2)
       (take_while (λ p, starts_with p.1 prefix) (range_from prefix (st_entries st))))
    (length (st_native_changes st)).

(** ** Mutations *)

Definition mutation_key (m : NativeMutation) : Key :=
  match m with Put key _ _ _ => key | Delete key _ => key end.

Definition mutation_precondition (m : NativeMutation) : Precondition :=
  match m with Put _ p _ _ => p | Delete _ p => p end.

Definition precondition_matches (p : Precondition) (current : option Entry) : bool :=
  match p with
  | Any => true
  | Absent => match current with None => true | Some _ => false end
  | HashIs hash => match current with Some e => bool_decide (en_hash e = hash) | None => false end
  | RevisionIs revision =>
      match current with Some e => en_modification_revision e =? revision | None => false end
  | HashAndRevision content_hash modification_revision =>
      match current with
      | Some e => bool_decide (en_hash e = content_hash)
                  && (en_modification_revision e =? modification_revision)
      | None => false
      end
  end.

Definition result_for (status : Status) (current : option Entry) : NativeMutationResult :=
  match current with
  | Some e => mkResult status (en_modification_revision e) (en_mtime_ns e) (en_hash e)
                       (len (en_value e))
  | None => mkResult status 0 0 (zeros 32) 0
  end.

(** The guard on [stage_witnesses]: [.iter().enumerate().any(..)] from [ordinal] on. *)
Fixpoint witness_invalid (env : KvEnv) (ordinal : Z) (ws : list NativeStageWitness) : bool :=
  match ws with
  | [] => false
  | w :: ws' =>
      negb (sw_ordinal w =? ordinal) || (sw_original_handle w =? 0)
      || (value_max env <? sw_byte_len w) || witness_invalid env (ordinal + 1) ws'
  end.

Definition mutation_invalid (limits : KvLimits) (m : NativeMutation) : bool :=
  let key := mutation_key m in
  is_nil key || (kl_max_key_bytes limits <? len key) || existsb (Byte.eqb Byte.x00) key
  || match m with
     | Put _ _ value _ => kl_max_value_bytes limits <? len value
     | Delete _ _ => false
     end.

(** The loop over the working copy: conflict flag, working entries and results
    so far; it stops at the first precondition that does not match. *)
Fixpoint apply_mutations (commit_revision mtime_ns : Z) (mutations : list NativeMutation)
    (working : Entries) (results : list NativeMutationResult) :
    bool * Entries * list NativeMutationResult :=
  match mutations with
  | [] => (false, working, results)
  | Put key precondition value content_hash :: rest =>
      if negb (precondition_matches precondition (working !! key)) then (true, working, results)
      else
        let working := <[key := mkEntry value content_hash mtime_ns commit_revision]> working in
        apply_mutations commit_revision mtime_ns rest working
          (results ++ [result_for Status_Ok (working !! key)])
  | Delete key precondition :: rest =>
      if negb (precondition_matches precondition (working !! key)) then (true, working, results)
      else
        apply_mutations commit_revision mtime_ns rest (delete key working)
          (results ++ [mkResult Status_Ok commit_revision mtime_ns (zeros 32) 0])
  end.

(** The [try_fold] over the working entries. *)
Definition add_entry_bytes (total : option Z) (p : Key * Entry) : option Z :=
  total ← total; checked_add_u64 total (len p.1 + len (en_value p.2)).
Definition entries_bytes (entries : Entries) : option Z :=
  foldl add_entry_bytes (Some 0) (btree_iter entries).

(** [changed]: every mutated key, with whether the store lacked it. *)
Definition changed_keys (entries : Entries) (mutations : list NativeMutation) : gmap Key bool :=
  foldl (λ m mutation,
    <[mutation_key mutation := bool_decide (entries !! mutation_key mutation = None)]> m)
    ∅ mutations.

Definition change_record (working : Entries) (commit_revision : Z) (p : Key * bool) :
    NativeChangeRecord :=
  match working !! p.1 with
  | Some e => Upsert (native_entry p.1 e) p.2
  | None => Remove p.1 commit_revision
  end.

Definition persisted_mutation (working : Entries) (p : Key * bool) : PersistedMutation :=
  match working !! p.1 with
  | Some e => mkPersisted p.1 (Some (en_value e, en_mtime_ns e, en_modification_revision e))
  | None => mkPersisted p.1 None
  end.

(** What a mutation call leaves: the store and the link it shares with the writer. *)
Definition KvState : Type := Store * WriterLink.
Definition MutateOutcome : Type := result NativeMutationError NativeCommit * KvState.

(** [permit.is_some_and(|permit| st.enqueue_job(..))] *)
Definition enqueue_permitted (st : Store) (l : WriterLink) (permit : option WriterPermit)
    (job : WriterPermit → WriteJob) : bool * Store * WriterLink :=
  match permit with
  | None => (false, st, l)
  | Some permit => enqueue_job st l (job permit)
  end.

(** The [if conflict] block. *)
Definition mutate_conflict (operation_id : OperationId) (fingerprint : Hash) (durable : bool)
    (stage_witnesses : list NativeStageWitness) (mutations : list NativeMutation)
    (st : Store) (l : WriterLink) : MutateOutcome :=
  let results :=
    map (λ m, result_for Status_Conflict (st_entries st !! mutation_key m)) mutations in
  let dedup := mkDedup fingerprint (st_revision st) (st_next_operation_sequence st) results
                       stage_witnesses in
  let encoded := encode_native_dedup dedup in
  let plan := plan_operation_replay (st_entries st) (st_operations st) (st_operation_order st)
                operation_id dedup in
  match write_job_bytes [] (len encoded) (len (rp_evicted plan)) with
  | None => (Err Mutation_ResourceExhausted, (st, l))
  | Some queued_bytes =>
    match reserve_write st l queued_bytes with
    | Err e => (Err e, (st, l))
    | Ok (permit, l1) =>
      let reply := durable && bool_decide (is_Some permit) in
      let st1 := set_operations st plan in
      let '(queued, st2, l2) :=
        enqueue_permitted st1 l1 permit
          (mkJob [] (Some (operation_id, encoded)) (rp_evicted plan) reply) in
      if durable && negb queued
      then (Ok (mkCommit (st_revision st2) results false true), (st2, l2))
      else (Ok (mkCommit (st_revision st2) results reply false), (st2, l2))
    end
  end.

(** From the limit checks to the end. *)
Definition mutate_commit (limits : KvLimits) (operation_id : OperationId) (fingerprint : Hash)
    (durable : bool) (stage_witnesses : list NativeStageWitness)
    (mutations : list NativeMutation) (working : Entries) (results : list NativeMutationResult)
    (commit_revision : Z) (st : Store) (l : WriterLink) : MutateOutcome :=
  match entries_bytes working with
  | None => (Err Mutation_ResourceExhausted, (st, l))
  | Some total_bytes =>
    if (kl_max_entries limits <? Z.of_nat (size working))
       || (kl_max_store_bytes limits <? total_bytes)
    then (Err Mutation_ResourceExhausted, (st, l)) else
    let changed := btree_iter (changed_keys (st_entries st) mutations) in
    let records := map (change_record working commit_revision) changed in
    let persisted := map (persisted_mutation working) changed in
    let change := mkChange (st_revision st) commit_revision records in
    let dedup := mkDedup fingerprint commit_revision (st_next_operation_sequence st) results
                         stage_witnesses in
    let encoded := encode_native_dedup dedup in
    let plan := plan_operation_replay working (st_operations st) (st_operation_order st)
                  operation_id dedup in
    match write_job_bytes persisted (len encoded) (len (rp_evicted plan)) with
    | None => (Err Mutation_ResourceExhausted, (st, l))
    | Some queued_bytes =>
      match reserve_write st l queued_bytes with
      | Err e => (Err e, (st, l))
      | Ok (permit, l1) =>
        let reply := durable && bool_decide (is_Some permit) in
        let st1 := set_operations (set_entries st working total_bytes commit_revision) plan in
        let '(queued, st2, l2) :=
          enqueue_permitted st1 l1 permit
            (mkJob persisted (Some (operation_id, encoded)) (rp_evicted plan) reply) in
        let st3 := send_change st2 change in
        (Ok (mkCommit commit_revision results (if queued then reply else false)
                      (durable && negb queued)), (st3, l2))
      end
    end
  end.

Definition native_mutate (env : KvEnv) (now_ns : Z) (operation_id : OperationId)
    (fingerprint : Hash) (durable : bool) (stage_witnesses : list NativeStageWitness)
    (mutations : list NativeMutation) (s : KvState) : MutateOutcome :=
  let '(st, l) := s in
  if is_nil mutations || (MAX_BATCH_ITEMS <? len mutations) then (Err Mutation_Invalid, s) else
  if (MAX_STAGE_WITNESSES_PER_OPERATION <? len stage_witnesses)
     || witness_invalid env 0 stage_witnesses
  then (Err Mutation_Invalid, s) else
  let limits := native_limits env in
  if existsb (mutation_invalid limits) mutations then (Err Mutation_Invalid, s) else
  match st_operations st !! operation_id with
  | Some previous =>
      if negb (bool_decide (dd_fingerprint previous = fingerprint)) then (Err OperationConflict, s)
      else (Ok (replay_commit previous), s)
  | None =>
      let commit_revision := saturating_add_u64 (st_revision st) 1 in
      let '(conflict, working, results) :=
        apply_mutations commit_revision now_ns mutations (st_entries st) [] in
      if (conflict : bool)
      then mutate_conflict operation_id fingerprint durable stage_witnesses mutations st l
      else mutate_commit limits operation_id fingerprint durable stage_witnesses mutations
             working results commit_revision st l
  end.
