(* ===== verification/KvWriter.v ===== *)
(** * KvWriter: the store's database, writer thread and opening
      ([crates/server/src/kv.rs])

    The database engine is a class with the laws the code relies on: a read
    sees the last committed rows, a commit that succeeds applies all the
    writes of its transaction, one that fails applies none. On top of it:
    [Store::open] with its two loads and the pruning loop, [writer_loop] as a
    step function over its control points, and the runs of the whole system
    in which mutations, writer steps and restarts interleave. *)

From S2P Require Import Prelude Schema Composite Ordered Kv.

(** ** The database *)

Abbreviation Rows := (gmap (list byte) (list byte)).

Inductive KvTable := TABLE | OPERATION_TABLE.

Record Tables := mkTables { tb_table : Rows; tb_operation_table : Rows }.

Inductive TableWrite :=
| InsertRow (t : KvTable) (key value : list byte)
| RemoveRow (t : KvTable) (key : list byte).

Definition apply_write (ts : Tables) (w : TableWrite) : Tables :=
  match w with
  | InsertRow TABLE k v => mkTables (<[k := v]> (tb_table ts)) (tb_operation_table ts)
  | InsertRow OPERATION_TABLE k v => mkTables (tb_table ts) (<[k := v]> (tb_operation_table ts))
  | RemoveRow TABLE k => mkTables (delete k (tb_table ts)) (tb_operation_table ts)
  | RemoveRow OPERATION_TABLE k => mkTables (tb_table ts) (delete k (tb_operation_table ts))
  end.

Definition apply_writes (ts : Tables) (ws : list TableWrite) : Tables := foldl apply_write ts ws.

Definition table_rows (ts : Tables) (t : KvTable) : Rows :=
  match t with TABLE => tb_table ts | OPERATION_TABLE => tb_operation_table ts end.

Inductive RedbError := RedbFailed.

(** redb, as the store uses it: reading a table in a read transaction ([Ok None]
    when it does not exist) and running one write transaction. *)
Class Redb (D : Type) := {
  redb_read : D → KvTable → result RedbError (option Rows);
  redb_commit : D → list TableWrite → result RedbError () * D;
  redb_tables : D → Tables
}.

Class RedbLaws (D : Type) `{Redb D} := {
  redb_read_committed d t o :
    redb_read d t = Ok o → default ∅ o = table_rows (redb_tables d) t;
  redb_commit_ok d ws d' :
    redb_commit d ws = (Ok (), d') → redb_tables d' = apply_writes (redb_tables d) ws;
  redb_commit_err d ws e d' :
    redb_commit d ws = (Err e, d') → redb_tables d' = redb_tables d
}.

(** ** Opening a store *)

Definition row_bytes (mtime_ns modification_revision : Z) (bytes : list byte) : list byte :=
  to_le 8 mtime_ns ++ to_le 8 modification_revision ++ bytes.

(** The body of the loop over the loaded rows. *)
Definition load_row (blake3_hash : list byte → Hash) (st : Store) (row : list byte * list byte) :
    Store :=
  let '(key, raw) := row in
  if len raw <? 16 then st else
  let mtime_ns := le_slice raw 0 8 in
  let modification_revision := Z.max (le_slice raw 8 16) 1 in
  let value := drop 16 raw in
  mkStore (<[key := mkEntry value (blake3_hash value) mtime_ns modification_revision]>
             (st_entries st))
    (st_native_changes st) (st_operations st) (st_operation_order st)
    (st_next_operation_sequence st) (st_writer st)
    (st_total_bytes st + (len key + len value))
    (Z.max (st_revision st) modification_revision).

Definition Store_empty : Store := mkStore ∅ [] ∅ [] 1 false 0 1.

(** [<[u8; 16]>::try_from(raw)] *)
Definition try_operation_id (raw : list byte) : option OperationId :=
  if bool_decide (length raw = 16%nat) then Some raw else None.

Definition load_operation_row (live : gset Z) (s : RetainState) (row : list byte * list byte) :
    RetainState :=
  match try_operation_id row.1 with
  | None => s
  | Some operation_id =>
      match decode_native_dedup row.2 with
      | Some r => retain_operation_candidate live s operation_id r
      | None => s
      end
  end.

Section open.
Context {D : Type} `{Redb D}.
Variable blake3_hash : list byte → Hash.

Definition load_operation_replays (d : D) (live : gset Z) :
    result RedbError RetainedOperationSet :=
  table ← redb_read d OPERATION_TABLE;
  match table with
  | None => Ok (mkRetained ∅ [] 1 0)
  | Some rows =>
      Ok (finish_retained_operations
            (foldl (load_operation_row live) (mkRetainState ∅ ∅ 1 0) (btree_iter rows)))
  end.

(** The scan of one round: the keys to delete, at most a batch of them. *)
Fixpoint scan_delete (retained : Operations) (rows : list (list byte * list byte))
    (found : list (list byte)) : list (list byte) :=
  match rows with
  | [] => found
  | (raw, _) :: rows' =>
      let keep := match try_operation_id raw with
                  | Some operation_id => bool_decide (is_Some (retained !! operation_id))
                  | None => false
                  end in
      if (keep : bool) then scan_delete retained rows' found
      else
        let found := found ++ [raw] in
        if len found =? OPERATION_PRUNE_BATCH then found else scan_delete retained rows' found
  end.

(** The loop, [None] when [fuel] rounds were not enough. *)
Fixpoint prune_persisted_operation_replays (fuel : nat) (d : D) (retained : Operations) :
    option (result RedbError () * D) :=
  match fuel with
  | O => None
  | S fuel' =>
      match redb_read d OPERATION_TABLE with
      | Err e => Some (Err e, d)
      | Ok None => Some (Ok (), d)
      | Ok (Some rows) =>
          match scan_delete retained (btree_iter rows) [] with
          | [] => Some (Ok (), d)
          | delete =>
              match redb_commit d (map (RemoveRow OPERATION_TABLE) delete) with
              | (Err e, d') => Some (Err e, d')
              | (Ok _, d') => prune_persisted_operation_replays fuel' d' retained
              end
          end
      end
  end.

(** Every round but the last deletes at least one row. *)
Definition prune_fuel (d : D) : nat := S (size (tb_operation_table (redb_tables d))).

(** [Store::open] from the result of [Database::create]; [spawned] says whether the
    writer thread started. Beside the store: the database, with the writer's
    end of the link when the thread runs. *)
Definition Store_open (env : KvEnv) (spawned : bool) (db : option D) :
    Store * option D * WriterLink :=
  let link := mkLink (WriterBudget_new MAX_PENDING_WRITES (writer_queue_max_bytes env)) []
                     MAX_PENDING_WRITES spawned in
  match db with
  | None => (Store_empty, None, link)
  | Some d =>
      match redb_read d TABLE with
      | Err _ => (Store_empty, Some d, link)
      | Ok table =>
          let rows := match table with None => [] | Some rows => btree_iter rows end in
          let st := foldl (load_row blake3_hash) Store_empty rows in
          let '(st, d) :=
            match load_operation_replays d (live_revisions (st_entries st)) with
            | Err _ => (st, d)
            | Ok retained =>
                let st := mkStore (st_entries st) (st_native_changes st) (ro_values retained)
                            (ro_order retained)
                            (saturating_add_u64 (ro_maximum_sequence retained) 1)
                            (st_writer st) (st_total_bytes st)
                            (Z.max (st_revision st) (ro_maximum_store_revision retained)) in
                match prune_persisted_operation_replays (prune_fuel d) d (st_operations st) with
                | Some (_, d') => (st, d')
                | None => (st, d)
                end
            end in
          (set_writer st spawned, Some d, link)
      end
  end.

(** ** The writer thread *)

(** The writes of one job's mutations and of its operation. *)
Definition mutation_write (m : PersistedMutation) : TableWrite :=
  match pm_value m with
  | Some (bytes, mtime_ns, modification_revision) =>
      InsertRow TABLE (pm_key m) (row_bytes mtime_ns modification_revision bytes)
  | None => RemoveRow TABLE (pm_key m)
  end.

Definition operation_writes (j : WriteJob) : list TableWrite :=
  match wj_operation j with
  | Some (operation_id, raw) => [InsertRow OPERATION_TABLE operation_id raw]
  | None => []
  end ++ map (RemoveRow OPERATION_TABLE) (wj_evicted_operations j).

Definition batch_writes (batch : list WriteJob) : list TableWrite :=
  concat (map (λ j, map mutation_write (wj_mutations j)) batch)
  ++ concat (map operation_writes batch).

(** The control points of [writer_loop]: blocked in [recv], collecting a batch with
    [try_recv], answering the jobs of a finished batch, draining the queue
    after a failure, about to drop the receiver, and gone. *)
Inductive WriterPhase :=
| Receiving
| Collecting (batch : list WriteJob)
| Replying (ok : bool) (batch : list WriteJob)
| Draining
| Leaving
| Stopped.

(** The whole: the store and the link under the lock, the writer's control point,
    the database, and the replies sent to durable waiters. *)
Record KvSystem := mkSystem {
  sy_store : Store; sy_link : WriterLink; sy_phase : WriterPhase; sy_db : D;
  sy_replies : list (WriteJob * bool)
}.

(** [if let Some(reply) = job.native_reply.take() { reply.send(ok) }], then the job is dropped. *)
Definition reply_to (j : WriteJob) (ok : bool) (replies : list (WriteJob * bool)) :
    list (WriteJob * bool) :=
  if wj_native_reply j then replies ++ [(j, ok)] else replies.

(** One step of the thread, [None] when it is blocked or gone. *)
Definition writer_step (s : KvSystem) : option KvSystem :=
  let l := sy_link s in
  match sy_phase s with
  | Receiving =>
      match wl_queue l with
      | j :: q => Some (mkSystem (sy_store s) (set_queue l q) (Collecting [j]) (sy_db s) (sy_replies s))
      | [] => if st_writer (sy_store s) then None
              else Some (mkSystem (sy_store s) l Leaving (sy_db s) (sy_replies s))
      end
  | Collecting batch =>
      match wl_queue l with
      | j :: q => Some (mkSystem (sy_store s) (set_queue l q) (Collecting (batch ++ [j])) (sy_db s)
                          (sy_replies s))
      | [] => let '(r, d) := redb_commit (sy_db s) (batch_writes batch) in
              Some (mkSystem (sy_store s) l (Replying (is_ok r) batch) d (sy_replies s))
      end
  | Replying ok (j :: batch) =>
      Some (mkSystem (sy_store s) (drop_job l j) (Replying ok batch) (sy_db s)
              (reply_to j ok (sy_replies s)))
  | Replying true [] => Some (mkSystem (sy_store s) l Receiving (sy_db s) (sy_replies s))
  | Replying false [] => Some (mkSystem (sy_store s) l Draining (sy_db s) (sy_replies s))
  | Draining =>
      match wl_queue l with
      | j :: q => Some (mkSystem (sy_store s) (drop_job (set_queue l q) j) Draining (sy_db s)
                          (reply_to j false (sy_replies s)))
      | [] => Some (mkSystem (sy_store s) l Leaving (sy_db s) (sy_replies s))
      end
  | Leaving =>
      (* the receiver is dropped with whatever arrived meanwhile *)
      let l' := foldl drop_job (set_queue l []) (wl_queue l) in
      Some (mkSystem (sy_store s) (mkLink (wl_budget l') (wl_queue l') (wl_capacity l') false)
              Stopped (sy_db s) (sy_replies s))
  | Stopped => None
  end.
End open.
Arguments KvSystem D : clear implicits.
