(* ===== verification/KvDedup.v ===== *)
(** * KvDedup: the persisted operation records are a faithful, canonical encoding

    [decode_native_dedup] inverts [encode_native_dedup] on every record the
    store can retain, and accepts no other byte string. *)

From S2P Require Import Prelude Schema Composite Ordered Kv.

(** ** Slices *)

Lemma len_slice raw a b : 0 <= a <= b → b <= len raw → len (slice raw a b) = b - a.
Proof. intros. unfold slice, len in *. rewrite length_take, length_drop. lia. Qed.

Lemma length_slice raw a b n :
  0 <= a → b <= len raw → b = a + Z.of_nat n → length (slice raw a b) = n.
Proof. intros ? ? ->. pose proof (len_slice raw a (a + Z.of_nat n)). unfold len in *. lia. Qed.

Lemma slice_cat raw a b c : 0 <= a <= b → b <= c → slice raw a b ++ slice raw b c = slice raw a c.
Proof.
  intros. unfold slice. replace (Z.to_nat b) with (Z.to_nat a + Z.to_nat (b - a))%nat by lia.
  rewrite <- drop_drop. set (l := drop (Z.to_nat a) raw).
  replace (Z.to_nat (c - a)) with (Z.to_nat (b - a) + Z.to_nat (c - b))%nat by lia.
  rewrite <- (take_drop (Z.to_nat (b - a)) (take (Z.to_nat (b - a) + Z.to_nat (c - b)) l)).
  rewrite take_take, take_drop_commute. do 2 f_equal. lia.
Qed.

Lemma slice_all raw n : n = len raw → slice raw 0 n = raw.
Proof.
  intros ->. unfold slice. rewrite Z.sub_0_r, to_nat_len.
  change (Z.to_nat 0) with 0%nat. cbn [drop]. apply firstn_all.
Qed.

Lemma slice_app_l x y a b : 0 <= a → b <= len x → slice (x ++ y) a b = slice x a b.
Proof.
  intros. unfold slice, len in *. destruct (decide (a <= Z.of_nat (length x))).
  - rewrite drop_app_le by lia. apply take_app_le. rewrite length_drop. lia.
  - replace (Z.to_nat (b - a)) with 0%nat by lia. by rewrite !take_0.
Qed.

Lemma slice_app_r x y a b : len x <= a → slice (x ++ y) a b = slice y (a - len x) (b - len x).
Proof.
  intros. unfold slice, len in *. rewrite drop_app_ge by lia.
  f_equal; [lia|]. f_equal. lia.
Qed.

Lemma slice_shift x y a b : 0 <= a → slice (x ++ y) (len x + a) (len x + b) = slice y a b.
Proof. intros. rewrite slice_app_r by lia. f_equal; lia. Qed.

(** A field of a concatenation, named by the pieces before and after it. *)
Lemma slice_is raw x f y a b :
  raw = x ++ f ++ y → a = len x → b = a + len f → slice raw a b = f.
Proof.
  intros -> -> ->. pose proof (len_nonneg f). pose proof (len_nonneg x).
  rewrite slice_app_r, slice_app_l by lia. rewrite Z.sub_diag. apply slice_all. lia.
Qed.

Lemma le_slice_is raw x n z y a b :
  raw = x ++ to_le n z ++ y → a = len x → b = a + Z.of_nat n →
  0 <= z < 2 ^ (Z.of_nat n * 8) → le_slice raw a b = z.
Proof.
  intros Hr Ha Hb Hz. unfold le_slice.
  rewrite (slice_is raw x (to_le n z) y) by (done || (autorewrite with len; lia)).
  by apply from_to_le.
Qed.

(** Solves the side conditions of the two lemmas above. *)
Ltac field_at := first [ by rewrite <- !app_assoc | by autorewrite with len; unfold len in *; lia ].

(** ** Statuses *)

(** A status as [Status::from_code] returns it: [Unknown] with the code of a named
    status is a value of the type too, and encodes like the named one. *)
Definition wf_status (s : Status) : Prop :=
  is_u16 (Status_code s) ∧ Status_from_code (Status_code s) = s.

Lemma Status_code_from_code c : Status_code (Status_from_code c) = c.
Proof.
  unfold Status_from_code. repeat (case_match; [cbn; lia|]). done.
Qed.

Lemma wf_status_from_code c : is_u16 c → wf_status (Status_from_code c).
Proof. intros. split; rewrite Status_code_from_code; done. Qed.

(** ** Well-formed records *)

Definition wf_result (r : NativeMutationResult) : Prop :=
  wf_status (mr_status r) ∧ is_u64 (mr_modification_revision r) ∧ is_u64 (mr_mtime_ns r)
  ∧ length (mr_content_hash r) = 32%nat ∧ is_u64 (mr_byte_len r).

Definition wf_stage_witness (ordinal : Z) (w : NativeStageWitness) : Prop :=
  sw_ordinal w = ordinal ∧ is_u64 (sw_original_handle w) ∧ sw_original_handle w ≠ 0
  ∧ 0 <= sw_byte_len w <= kl_max_value_bytes KvLimits_HARD
  ∧ length (sw_content_hash w) = 32%nat.

Fixpoint wf_stage_witnesses (ordinal : Z) (ws : list NativeStageWitness) : Prop :=
  match ws with
  | [] => True
  | w :: ws' => wf_stage_witness ordinal w ∧ wf_stage_witnesses (ordinal + 1) ws'
  end.

Definition wf_dedup (r : NativeDedupResult) : Prop :=
  length (dd_fingerprint r) = 32%nat ∧ 0 < dd_store_revision r <= U64_MAX
  ∧ 0 < dd_settlement_sequence r <= U64_MAX
  ∧ len (dd_results r) <= MAX_BATCH_ITEMS ∧ Forall wf_result (dd_results r)
  ∧ len (dd_stage_witnesses r) <= MAX_STAGE_WITNESSES_PER_OPERATION
  ∧ wf_stage_witnesses 0 (dd_stage_witnesses r).

Lemma len_encode_result r : wf_result r → len (encode_result r) = 58.
Proof. intros (_ & _ & _ & H & _). unfold encode_result. autorewrite with len. unfold len. lia. Qed.

Lemma len_encode_stage_witness i w : wf_stage_witness i w → len (encode_stage_witness w) = 50.
Proof.
  intros (_ & _ & _ & _ & H). unfold encode_stage_witness. autorewrite with len. unfold len. lia.
Qed.

Lemma len_concat_results rs :
  Forall wf_result rs → len (concat (map encode_result rs)) = 58 * len rs.
Proof.
  induction 1 as [|r rs Hr _ IH]; [done|]. cbn [map concat].
  rewrite len_app, len_cons, len_encode_result, IH by done. lia.
Qed.

Lemma len_concat_stage_witnesses i ws :
  wf_stage_witnesses i ws → len (concat (map encode_stage_witness ws)) = 50 * len ws.
Proof.
  revert i. induction ws as [|w ws IH]; [done|]. intros i [Hw Hws]. cbn [map concat].
  rewrite len_app, len_cons, (len_encode_stage_witness i), (IH (i + 1)) by done. lia.
Qed.

(** ** Decoding what was encoded *)

Lemma decode_encode_result pre r post off :
  wf_result r → off = len pre →
  let raw := pre ++ encode_result r ++ post in
  mkResult (Status_from_code (le_slice raw off (off + 2)))
           (le_slice raw (off + 2) (off + 10)) (le_slice raw (off + 10) (off + 18))
           (slice raw (off + 18) (off + 50)) (le_slice raw (off + 50) (off + 58)) = r.
Proof.
  intros ((Hs1 & Hs) & Hr & Hm & Hh & Hb) ->. cbn zeta. destruct r as [s rv mt h bl].
  unfold encode_result. cbn in Hs1, Hs, Hr, Hm, Hh, Hb |- *. set (c := Status_code s) in *.
  rewrite (le_slice_is _ pre 2 c (to_le 8 rv ++ to_le 8 mt ++ h ++ to_le 8 bl ++ post)) by field_at.
  rewrite (le_slice_is _ (pre ++ to_le 2 c) 8 rv (to_le 8 mt ++ h ++ to_le 8 bl ++ post)) by field_at.
  rewrite (le_slice_is _ (pre ++ to_le 2 c ++ to_le 8 rv) 8 mt (h ++ to_le 8 bl ++ post)) by field_at.
  rewrite (slice_is _ (pre ++ to_le 2 c ++ to_le 8 rv ++ to_le 8 mt) h (to_le 8 bl ++ post))
    by field_at.
  rewrite (le_slice_is _ (pre ++ to_le 2 c ++ to_le 8 rv ++ to_le 8 mt ++ h) 8 bl post) by field_at.
  by rewrite Hs.
Qed.

Lemma decode_encode_results pre rs post off :
  Forall wf_result rs → off = len pre →
  decode_results (pre ++ concat (map encode_result rs) ++ post) off (length rs)
  = (rs, off + 58 * len rs).
Proof.
  intros Hrs. revert pre off. induction Hrs as [|r rs Hr _ IH]; intros pre off ->.
  { cbn [decode_results length]. f_equal. unfold len. cbn. lia. }
  cbn [map concat length decode_results].
  rewrite <- app_assoc, decode_encode_result by done.
  rewrite app_assoc, (IH (pre ++ encode_result r)) by (rewrite len_app, len_encode_result by done; lia).
  f_equal. rewrite len_cons. lia.
Qed.

Lemma decode_encode_stage_witnesses pre ws i off :
  wf_stage_witnesses i ws → 0 <= i → i + len ws <= U16_MAX → off = len pre →
  decode_stage_witnesses (pre ++ concat (map encode_stage_witness ws)) off i (length ws) = Some ws.
Proof.
  revert pre i off. induction ws as [|w ws IH]; [done|].
  intros pre i off [Hw Hws] Hi Hn ->. rewrite len_cons in Hn.
  pose proof (len_nonneg ws). pose proof Hw as (Ho & Hh & Hh0 & Hb & Hl).
  cbn [map concat length decode_stage_witnesses].
  set (post := concat (map encode_stage_witness ws)).
  set (raw := pre ++ encode_stage_witness w ++ post).
  destruct w as [o h b c]. cbn in Ho, Hh, Hh0, Hb, Hl. subst o. unfold U16_MAX in Hn.
  assert (Hb' : 0 <= b <= 4194304) by exact Hb.
  assert (Hl' : len c = 32) by (unfold len; lia).
  assert (raw = pre ++ to_le 2 i ++ to_le 8 h ++ to_le 8 b ++ c ++ post) as Hraw
    by (subst raw; unfold encode_stage_witness; cbn; by rewrite <- !app_assoc).
  rewrite (le_slice_is raw pre 2 i _ _ _ Hraw) by (done || lia).
  rewrite (le_slice_is raw (pre ++ to_le 2 i) 8 h (to_le 8 b ++ c ++ post))
    by (rewrite ?Hraw; field_at).
  rewrite (le_slice_is raw (pre ++ to_le 2 i ++ to_le 8 h) 8 b (c ++ post))
    by (rewrite ?Hraw; field_at).
  rewrite (slice_is raw (pre ++ to_le 2 i ++ to_le 8 h ++ to_le 8 b) c post)
    by (rewrite ?Hraw; field_at).
  rewrite Z.eqb_refl. cbn [negb]. destruct (Z.eqb_spec h 0) as [|_]; [done|].
  change (kl_max_value_bytes KvLimits_HARD) with 4194304.
  destruct (Z.ltb_spec 4194304 b) as [|_]; [lia|].
  subst raw post. rewrite app_assoc, IH; [done|done|lia|unfold U16_MAX; lia|].
  rewrite len_app, (len_encode_stage_witness i) by done. lia.
Qed.

Lemma decode_encode_dedup r : wf_dedup r → decode_native_dedup (encode_native_dedup r) = Some r.
Proof.
  intros (Hf & Hr & Hs & Hnr & Hwr & Hnw & Hww). destruct r as [fp rev seq rs ws].
  cbn in Hf, Hr, Hs, Hnr, Hwr, Hnw, Hww.
  assert (Hf' : len fp = 32) by (unfold len; lia).
  pose proof (len_nonneg rs). pose proof (len_nonneg ws).
  unfold U64_MAX, MAX_BATCH_ITEMS, kv_MAX_BATCH_ITEMS, MAX_STAGE_WITNESSES_PER_OPERATION in *.
  cbn in Hnw. unfold kv_MAX_STAGES_PER_SESSION in Hnw.
  set (raw := encode_native_dedup (mkDedup fp rev seq rs ws)).
  set (head := OPERATION_RECORD_MAGIC ++ to_le 8 seq ++ fp ++ to_le 8 rev ++ to_le 2 (len rs)
               ++ to_le 2 (len ws)).
  assert (Hraw : raw = head ++ concat (map encode_result rs) ++ concat (map encode_stage_witness ws)).
  { subst raw head. unfold encode_native_dedup, as_u16. cbn.
    rewrite !Z.mod_small by lia. by rewrite <- !app_assoc. }
  assert (Hhead : len head = 56) by (subst head; autorewrite with len; rewrite Hf'; done).
  assert (Hlen : len raw = 56 + 58 * len rs + 50 * len ws).
  { rewrite Hraw, !len_app, len_concat_results, (len_concat_stage_witnesses 0) by done. lia. }
  set (body := concat _ ++ concat _) in Hraw.
  assert (Hat : ∀ a b, 0 <= a → b <= 56 → slice raw a b = slice head a b).
  { intros. rewrite Hraw. apply slice_app_l; lia. }
  assert (Hseq : le_slice raw 4 12 = seq).
  { unfold le_slice. rewrite Hat by lia. apply (le_slice_is head OPERATION_RECORD_MAGIC 8 seq
      (fp ++ to_le 8 rev ++ to_le 2 (len rs) ++ to_le 2 (len ws))); done || lia. }
  assert (Hfp : slice raw 12 44 = fp).
  { rewrite Hat by lia. apply (slice_is head (OPERATION_RECORD_MAGIC ++ to_le 8 seq) fp
      (to_le 8 rev ++ to_le 2 (len rs) ++ to_le 2 (len ws))); [done..|lia]. }
  assert (Hrev : le_slice raw 44 52 = rev).
  { unfold le_slice. rewrite Hat by lia. apply (le_slice_is head
      (OPERATION_RECORD_MAGIC ++ to_le 8 seq ++ fp) 8 rev (to_le 2 (len rs) ++ to_le 2 (len ws)));
      [subst head; by rewrite <- !app_assoc|autorewrite with len; rewrite Hf'; done|done|lia]. }
  assert (Hc : le_slice raw 52 54 = len rs).
  { unfold le_slice. rewrite Hat by lia. apply (le_slice_is head
      (OPERATION_RECORD_MAGIC ++ to_le 8 seq ++ fp ++ to_le 8 rev) 2 (len rs) (to_le 2 (len ws)));
      [subst head; by rewrite <- !app_assoc|autorewrite with len; rewrite Hf'; done|done|lia]. }
  assert (Hw : le_slice raw 54 56 = len ws).
  { unfold le_slice. rewrite Hat by lia. apply (le_slice_is head
      (OPERATION_RECORD_MAGIC ++ to_le 8 seq ++ fp ++ to_le 8 rev ++ to_le 2 (len rs)) 2 (len ws) []);
      [subst head; rewrite app_nil_r; by rewrite <- !app_assoc
      |autorewrite with len; rewrite Hf'; done|done|lia]. }
  assert (Hmagic : starts_with raw OPERATION_RECORD_MAGIC = true).
  { rewrite Hraw. unfold starts_with. apply bool_decide_eq_true. subst head.
    rewrite <- app_assoc. apply take_app_length. }
  clearbody raw. unfold decode_native_dedup. rewrite Hmagic, Hseq, Hfp, Hrev, Hc, Hw, Hlen.
  unfold OPERATION_RECORD_HEADER_BYTES, MAX_BATCH_ITEMS, kv_MAX_BATCH_ITEMS,
    MAX_STAGE_WITNESSES_PER_OPERATION, checked_mul_u64, checked_add_u64,
    OPERATION_RESULT_ENCODED_BYTES, STAGE_WITNESS_ENCODED_BYTES, U64_MAX.
  cbn [kl_max_stages_per_session KvLimits_HARD]. unfold kv_MAX_STAGES_PER_SESSION.
  repeat (first [ rewrite (proj2 (Z.ltb_ge _ _)) by lia | rewrite (proj2 (Z.leb_le _ _)) by lia
                | rewrite (proj2 (Z.eqb_neq _ _)) by lia | rewrite (proj2 (Z.eqb_eq _ _)) by lia ];
          cbn -[decode_results decode_stage_witnesses Z.mul Z.add len]).
  rewrite !to_nat_len, Hraw. subst body. rewrite decode_encode_results by done.
  rewrite app_assoc, decode_encode_stage_witnesses; [done|done|lia|unfold U16_MAX; lia|].
  rewrite len_app, Hhead, len_concat_results by done. lia.
Qed.

Lemma len_encode_native_dedup r :
  wf_dedup r →
  len (encode_native_dedup r) = 56 + 58 * len (dd_results r) + 50 * len (dd_stage_witnesses r).
Proof.
  intros (Hf & _ & _ & _ & Hr & _ & Hw). unfold encode_native_dedup. autorewrite with len.
  rewrite len_concat_results, (len_concat_stage_witnesses 0) by done. unfold len. rewrite Hf.
  cbn [length OPERATION_RECORD_MAGIC bytes_of map]. lia.
Qed.

(** ** Only encodings decode *)

Lemma to_le_le_slice raw a b n :
  0 <= a → b <= len raw → b = a + Z.of_nat n → to_le n (le_slice raw a b) = slice raw a b.
Proof. intros. apply to_from_le. by apply length_slice. Qed.

Lemma le_slice_bound raw a b n :
  0 <= a → b <= len raw → b = a + Z.of_nat n → 0 <= le_slice raw a b < 2 ^ (8 * Z.of_nat n).
Proof.
  intros. unfold le_slice. pose proof (from_le_bound (slice raw a b)) as Hb.
  rewrite len_slice in Hb by lia. by replace (b - a) with (Z.of_nat n) in Hb by lia.
Qed.

Lemma decode_results_spelled raw off n rs off' :
  decode_results raw off n = (rs, off') → 0 <= off → off + 58 * Z.of_nat n <= len raw →
  off' = off + 58 * Z.of_nat n ∧ Forall wf_result rs ∧ len rs = Z.of_nat n
  ∧ concat (map encode_result rs) = slice raw off off'.
Proof.
  revert off rs. induction n as [|n IH]; intros off rs; cbn [decode_results].
  { intros [= <- <-] _ _. split; [lia|]. split; [constructor|]. split; [done|].
    unfold slice. by rewrite Z.sub_diag. }
  destruct (decode_results raw (off + 58) n) as [items o] eqn:E. intros [= <- <-] H0 Hn.
  destruct (IH _ _ E) as (-> & Hw & Hl & Hc); [lia..|].
  assert (Hs : ∀ a b, off <= a → b <= off + 58 → a <= b → 0 <= a <= b ∧ b <= len raw) by lia.
  split; [lia|]. split; [|split; [rewrite len_cons; lia|]].
  - constructor; [|done]. split; [apply wf_status_from_code, (le_slice_bound _ _ _ 2); lia|].
    repeat apply conj; cbn; try (apply (le_slice_bound _ _ _ 8); lia). apply length_slice; lia.
  - cbn [map concat]. rewrite Hc. unfold encode_result. cbn [mr_status mr_modification_revision
      mr_mtime_ns mr_content_hash mr_byte_len]. rewrite Status_code_from_code.
    rewrite (to_le_le_slice _ _ _ 2) by lia. rewrite !(to_le_le_slice _ _ _ 8) by lia.
    rewrite !slice_cat by lia. done.
Qed.

Lemma decode_stage_witnesses_spelled raw off i n ws :
  decode_stage_witnesses raw off i n = Some ws → 0 <= off → off + 50 * Z.of_nat n <= len raw →
  wf_stage_witnesses i ws ∧ len ws = Z.of_nat n
  ∧ concat (map encode_stage_witness ws) = slice raw off (off + 50 * Z.of_nat n).
Proof.
  revert off i ws. induction n as [|n IH]; intros off i ws; cbn [decode_stage_witnesses].
  { intros [= <-] _ _. split; [done|]. split; [done|]. unfold slice.
    by replace (off + 50 * Z.of_nat 0 - off) with 0 by lia. }
  destruct (Z.eqb_spec (le_slice raw off (off + 2)) i) as [Hi|]; cbn [negb]; [|done].
  destruct (Z.eqb_spec (le_slice raw (off + 2) (off + 10)) 0) as [|Hh]; [done|].
  destruct (Z.ltb_spec (kl_max_value_bytes KvLimits_HARD) (le_slice raw (off + 10) (off + 18)))
    as [|Hb]; [done|].
  destruct (decode_stage_witnesses raw (off + 50) (i + 1) n) as [rest|] eqn:E; cbn; [|done].
  intros [= <-] H0 Hn. destruct (IH _ _ _ E) as (Hw & Hl & Hc); [lia..|].
  split; [split; [|done]|split; [rewrite len_cons; lia|]].
  - pose proof (le_slice_bound raw (off + 2) (off + 10) 8 ltac:(lia) ltac:(lia) ltac:(lia)).
    pose proof (le_slice_bound raw (off + 10) (off + 18) 8 ltac:(lia) ltac:(lia) ltac:(lia)).
    repeat split; cbn; try done; try (by apply length_slice; lia); lia.
  - cbn [map concat]. rewrite Hc. unfold encode_stage_witness.
    cbn [sw_ordinal sw_original_handle sw_byte_len sw_content_hash].
    rewrite (to_le_le_slice _ _ _ 2) by lia. rewrite !(to_le_le_slice _ _ _ 8) by lia.
    rewrite !slice_cat by lia. f_equal. lia.
Qed.

Lemma encode_decode_dedup raw r :
  decode_native_dedup raw = Some r → wf_dedup r ∧ encode_native_dedup r = raw.
Proof.
  unfold decode_native_dedup.
  destruct (Z.ltb_spec (len raw) OPERATION_RECORD_HEADER_BYTES) as [|Hlen]; cbn [orb]; [done|].
  destruct (starts_with raw OPERATION_RECORD_MAGIC) eqn:Hm; cbn [negb]; [|done].
  apply bool_decide_eq_true in Hm. unfold OPERATION_RECORD_HEADER_BYTES in *.
  destruct (Z.ltb_spec MAX_BATCH_ITEMS (le_slice raw 52 54)) as [|Hc]; cbn [orb]; [done|].
  destruct (Z.ltb_spec MAX_STAGE_WITNESSES_PER_OPERATION (le_slice raw 54 56)) as [|Hw]; [done|].
  pose proof (le_slice_bound raw 52 54 2 ltac:(lia) ltac:(lia) ltac:(lia)) as Bc.
  pose proof (le_slice_bound raw 54 56 2 ltac:(lia) ltac:(lia) ltac:(lia)) as Bw.
  pose proof (le_slice_bound raw 4 12 8 ltac:(lia) ltac:(lia) ltac:(lia)) as Bs.
  pose proof (le_slice_bound raw 44 52 8 ltac:(lia) ltac:(lia) ltac:(lia)) as Br.
  set (count := le_slice raw 52 54) in *. set (wcount := le_slice raw 54 56) in *.
  unfold checked_mul_u64, checked_add_u64, OPERATION_RESULT_ENCODED_BYTES,
    STAGE_WITNESS_ENCODED_BYTES, U64_MAX in *.
  destruct (Z.leb_spec (count * 58) 18446744073709551615); [|done]; cbn [mbind option_bind].
  destruct (Z.leb_spec (wcount * 50) 18446744073709551615); [|done]; cbn [mbind option_bind].
  destruct (Z.leb_spec (56 + count * 58) 18446744073709551615); [|done]; cbn [mbind option_bind].
  destruct (Z.leb_spec (56 + count * 58 + wcount * 50) 18446744073709551615); [|done];
    cbn [mbind option_bind].
  destruct (Z.eqb_spec (len raw) (56 + count * 58 + wcount * 50)) as [Hl|]; cbn [negb orb]; [|done].
  destruct (Z.eqb_spec (le_slice raw 4 12) 0) as [|Hs]; cbn [orb]; [done|].
  destruct (Z.eqb_spec (le_slice raw 44 52) 0) as [|Hr]; [done|].
  destruct (decode_results raw 56 (Z.to_nat count)) as [rs off] eqn:Er.
  destruct (decode_stage_witnesses raw off 0 (Z.to_nat wcount)) as [ws|] eqn:Ew; cbn; [|done].
  intros [= <-].
  apply decode_results_spelled in Er as (-> & Hwr & Hlr & Hcr); [|lia..].
  apply decode_stage_witnesses_spelled in Ew as (Hww & Hlw & Hcw); [|lia..].
  rewrite !Z2Nat.id in * by lia.
  split.
  { repeat split; cbn [dd_fingerprint dd_store_revision dd_settlement_sequence dd_results
      dd_stage_witnesses]; first [done | lia | apply length_slice; lia | unfold U64_MAX; lia]. }
  unfold encode_native_dedup, as_u16. cbn [dd_fingerprint dd_store_revision
    dd_settlement_sequence dd_results dd_stage_witnesses]. rewrite Hcr, Hcw, Hlr, Hlw, !Z.mod_small by lia.
  subst count wcount. rewrite !(to_le_le_slice _ _ _ 2), !(to_le_le_slice _ _ _ 8) by lia.
  rewrite !slice_cat by lia.
  change (take (length OPERATION_RECORD_MAGIC) raw) with (slice raw 0 4) in Hm.
  match goal with |- _ :: _ :: _ :: _ :: ?t = _ => change (OPERATION_RECORD_MAGIC ++ t = raw) end.
  rewrite <- Hm.
  rewrite slice_cat by lia. apply slice_all. lia.
Qed.

(** The database record of a retained operation is a faithful and canonical
    encoding: every record the store can retain (32-byte fingerprint and
    hashes, nonzero revision and sequence, at most 256 results and 16 stage
    witnesses numbered from 0) is read back unchanged, and a byte string is
    read as a record exactly when it is that record's encoding. *)
Theorem operation_record_roundtrip raw r :
  wf_dedup r → (decode_native_dedup raw = Some r ↔ raw = encode_native_dedup r).
Proof.
  intros Hr. split; [intros H; symmetry; apply (encode_decode_dedup raw r H)|].
  intros ->. by apply decode_encode_dedup.
Qed.

Definition sample_dedup : NativeDedupResult :=
  mkDedup (zeros 32) 7 3
    [mkResult Status_Ok 7 99 (zeros 32) 5; mkResult Status_Conflict 0 0 (zeros 32) 0]
    [mkWitness 0 12 5 (zeros 32)].

Lemma operation_record_roundtrip_witness :
  decode_native_dedup (encode_native_dedup sample_dedup) = Some sample_dedup.
Proof.
  apply (operation_record_roundtrip (encode_native_dedup sample_dedup) sample_dedup).
  - repeat split; try done; repeat constructor; done.
  - reflexivity.
Defined.
