(* ===== verification/KvReplay.v ===== *)
(** * KvReplay: which operations the store retains

    The specification of [prune_operation_replays]: what it keeps, what it
    evicts, and that its three results agree. *)

From S2P Require Import Prelude Schema Composite Ordered Kv.

(** ** Folds over maps *)

Lemma lookup_foldl_delete {A} (l : list (list byte)) (m : gmap (list byte) A) k :
  foldl (λ m k, delete k m) m l !! k = if bool_decide (k ∈ l) then None else m !! k.
Proof.
  revert m. induction l as [|x l IH]; intros m; cbn [foldl].
  { by rewrite bool_decide_eq_false_2 by set_solver. }
  rewrite IH. destruct (decide (k = x)) as [->|Hne].
  - rewrite lookup_delete_eq. rewrite (bool_decide_eq_true_2 (x ∈ x :: l)) by set_solver.
    by case_bool_decide.
  - rewrite lookup_delete_ne by done.
    rewrite (bool_decide_ext (k ∈ x :: l) (k ∈ l)) by set_solver. done.
Qed.

(** ** Pinned operations *)

(** The operation recorded a successful mutation. *)
Definition has_ok (r : NativeDedupResult) : bool :=
  existsb (λ item, bool_decide (mr_status item = Status_Ok)) (dd_results r).

Lemma pins_spec r live :
  operation_pins_live_entry r live = true ↔ dd_store_revision r ∈ live ∧ has_ok r = true.
Proof.
  unfold operation_pins_live_entry. fold (has_ok r). rewrite andb_true_iff.
  by rewrite bool_decide_eq_true.
Qed.

Lemma elem_of_live_revisions entries rev :
  rev ∈ live_revisions entries ↔ ∃ k e, entries !! k = Some e ∧ en_modification_revision e = rev.
Proof.
  unfold live_revisions. rewrite elem_of_list_to_set, list_elem_of_fmap. split.
  - intros ([k e] & -> & Hin). apply elem_of_btree_iter in Hin. by exists k, e.
  - intros (k & e & He & <-). exists (k, e). split; [done|]. by apply elem_of_btree_iter.
Qed.

(** [id] is settled in [ops], succeeded, and some live entry has its revision. *)
Definition pinned_in (live : gset Z) (ops : Operations) (id : OperationId) : Prop :=
  ∃ r, ops !! id = Some r ∧ operation_pins_live_entry r live = true.

(** At most one successful operation per store revision. *)
Definition one_per_revision (ops : Operations) : Prop :=
  ∀ id1 id2 r1 r2, ops !! id1 = Some r1 → ops !! id2 = Some r2 →
    has_ok r1 = true → has_ok r2 = true → dd_store_revision r1 = dd_store_revision r2 → id1 = id2.

Lemma pinned_by_revision_snoc live ops order id :
  pinned_by_revision live ops (order ++ [id])
  = match ops !! id with
    | Some r => if operation_pins_live_entry r live
                then <[dd_store_revision r := id]> (pinned_by_revision live ops order)
                else pinned_by_revision live ops order
    | None => pinned_by_revision live ops order
    end.
Proof. unfold pinned_by_revision. by rewrite foldl_app. Qed.

Lemma pinned_by_revision_sound live ops order rev id :
  pinned_by_revision live ops order !! rev = Some id →
  id ∈ order ∧ ∃ r, ops !! id = Some r ∧ operation_pins_live_entry r live = true
                    ∧ dd_store_revision r = rev.
Proof.
  induction order as [|x order IH] using rev_ind; [done|].
  rewrite pinned_by_revision_snoc.
  destruct (ops !! x) as [r|] eqn:Er; [destruct (operation_pins_live_entry r live) eqn:Ep|].
  - destruct (decide (dd_store_revision r = rev)) as [Heq|Hne].
    + rewrite Heq, lookup_insert_eq. intros [= <-]. split; [set_solver|]. by exists r.
    + rewrite lookup_insert_ne by done. intros H. destruct (IH H). split; [set_solver|done].
  - intros H. destruct (IH H). split; [set_solver|done].
  - intros H. destruct (IH H). split; [set_solver|done].
Qed.

Lemma pinned_by_revision_complete live ops order id r :
  id ∈ order → ops !! id = Some r → operation_pins_live_entry r live = true →
  is_Some (pinned_by_revision live ops order !! dd_store_revision r).
Proof.
  intros Hin Hr Hp. induction order as [|x order IH] using rev_ind; [set_solver|].
  rewrite pinned_by_revision_snoc. apply elem_of_app in Hin as [Hin|Hin].
  - destruct (ops !! x) as [r'|]; [destruct (operation_pins_live_entry r' live)|]; [|by apply IH..].
    destruct (decide (dd_store_revision r' = dd_store_revision r)) as [->|];
      [rewrite lookup_insert_eq; eauto|rewrite lookup_insert_ne by done; by apply IH].
  - apply list_elem_of_singleton in Hin as <-. rewrite Hr, Hp, lookup_insert_eq. eauto.
Qed.

Lemma elem_of_pinned live ops order id :
  one_per_revision ops → id ∈ order →
  id ∈ map snd (btree_iter (pinned_by_revision live ops order)) ↔ pinned_in live ops id.
Proof.
  intros Hone Hin. rewrite list_elem_of_fmap. split.
  - intros ([rev id'] & -> & Hp). apply elem_of_btree_iter, pinned_by_revision_sound in Hp.
    cbn. destruct Hp as (_ & r & Hr & Hp & _). by exists r.
  - intros (r & Hr & Hp).
    destruct (pinned_by_revision_complete live ops order id r) as [id' Hid']; [done..|].
    exists (dd_store_revision r, id'). rewrite elem_of_btree_iter. split; [|done]. cbn.
    apply pinned_by_revision_sound in Hid' as (_ & r' & Hr' & Hp' & Hrev).
    apply pins_spec in Hp as [_ Hok], Hp' as [_ Hok']. by eapply Hone.
Qed.

(** ** Recent operations *)

Definition recent_count : nat := Z.to_nat MAX_RECENT_OPERATION_REPLAYS.
Opaque recent_count.

Lemma filter_all {A} (P : A → Prop) `{!∀ x, Decision (P x)} (l : list A) :
  (∀ x, x ∈ l → P x) → filter P l = l.
Proof.
  intros HP. induction l as [|x l IH]; [done|].
  rewrite filter_cons_True by set_solver. f_equal. set_solver.
Qed.

Lemma recent_ids_suffix order :
  recent_ids order = list_to_set (drop (length order - recent_count) order).
Proof.
  unfold recent_ids. change (Z.to_nat MAX_RECENT_OPERATION_REPLAYS) with recent_count.
  unfold reverse. rewrite <- rev_alt, firstn_rev.
  apply set_eq. intros x. rewrite !elem_of_list_to_set, !list_elem_of_In. by rewrite <- in_rev.
Qed.

Lemma recent_ids_sub order id : id ∈ recent_ids order → id ∈ order.
Proof.
  rewrite recent_ids_suffix, elem_of_list_to_set. intros H.
  rewrite <- (take_drop (length order - recent_count) order). set_solver.
Qed.

Lemma recent_ids_last order id : id ∈ recent_ids (order ++ [id]).
Proof.
  rewrite recent_ids_suffix, elem_of_list_to_set, length_app. cbn [length].
  assert (1 <= recent_count)%nat by (vm_compute; lia).
  rewrite drop_app_le by lia. set_solver.
Qed.

Lemma size_list_to_set_le `{Countable A} (l : list A) :
  (size (list_to_set l : gset A) <= length l)%nat.
Proof.
  induction l as [|x l IH]; [apply Nat.eq_le_incl, (size_empty (C := gset A))|].
  change (list_to_set (x :: l)) with ({[x]} ∪ list_to_set l : gset A).
  rewrite size_union_alt, size_singleton. cbn [length].
  assert (Hsub : list_to_set l ∖ {[x]} ⊆ (list_to_set l : gset A)) by set_solver.
  apply subseteq_size in Hsub. lia.
Qed.

Lemma size_recent_ids order : (size (recent_ids order) <= recent_count)%nat.
Proof.
  rewrite recent_ids_suffix. etrans; [apply size_list_to_set_le|]. rewrite length_drop. lia.
Qed.

Lemma size_live_revisions entries : (size (live_revisions entries) <= size entries)%nat.
Proof.
  unfold live_revisions. etrans; [apply size_list_to_set_le|].
  by rewrite length_map, length_btree_iter.
Qed.

(** Filtering out older elements leaves the recent ones as they were. *)
Lemma recent_ids_filter (P : OperationId → Prop) `{!∀ x, Decision (P x)} order :
  (∀ id, id ∈ recent_ids order → P id) → recent_ids (filter P order) = recent_ids order.
Proof.
  rewrite !recent_ids_suffix. intros HP.
  set (n := (length order - recent_count)%nat) in *.
  assert (Hf : filter P order = filter P (take n order) ++ drop n order).
  { rewrite <- (take_drop n order) at 1. rewrite list.filter_app. f_equal.
    apply filter_all. intros x Hx. by apply HP, elem_of_list_to_set. }
  rewrite Hf, length_app, length_drop.
  destruct (decide (recent_count <= length order)%nat).
  - rewrite drop_app_length' by (subst n; lia). done.
  - assert (Hn : n = 0%nat) by (subst n; lia). rewrite Hn.
    rewrite take_0. change (filter P []) with (@nil (list byte)). cbn [length Nat.add app].
    by replace (length order - 0 - recent_count)%nat with 0%nat by lia.
Qed.

(** ** Pruning *)

(** What pruning keeps: recent settlements and those that pin a live entry. *)
Definition retained (live : gset Z) (ops : Operations) (order : list OperationId)
    (id : OperationId) : Prop := id ∈ recent_ids order ∨ pinned_in live ops id.

Section prune.
Context (entries : Entries) (ops : Operations) (order : list OperationId).
Context (Hdom : ∀ id, id ∈ order ↔ is_Some (ops !! id)) (Hone : one_per_revision ops).
Let live := live_revisions entries.
Let plan := prune_operation_replays entries ops order.

Lemma prune_order id : id ∈ rp_order plan ↔ id ∈ order ∧ retained live ops order id.
Proof using Hone Hdom.
  subst plan. unfold prune_operation_replays, retained. cbn [rp_order].
  rewrite list_elem_of_filter, elem_of_list_to_set, list_elem_of_filter, !elem_of_list_to_set.
  split.
  - intros [Hn Hin]. split; [done|]. destruct (decide (id ∈ recent_ids order)); [by left|right].
    apply (elem_of_pinned live ops order id Hone Hin).
    destruct (decide (id ∈ map snd (btree_iter (pinned_by_revision live ops order)))); [done|].
    by destruct Hn.
  - intros [Hin Hkeep]. split; [|done]. intros [[Hn1 Hn2] _]. destruct Hkeep as [|Hp]; [done|].
    by apply Hn1, elem_of_pinned.
Qed.

Lemma prune_evicted id : id ∈ rp_evicted plan ↔ id ∈ order ∧ ¬ id ∈ rp_order plan.
Proof using.
  subst plan. unfold prune_operation_replays. cbn [rp_evicted rp_order].
  rewrite sort_keys_perm, elem_of_elements, list_elem_of_filter.
  rewrite elem_of_list_to_set, list_elem_of_filter. split.
  - intros [Hn Hin]. split; [done|]. tauto.
  - intros [Hin Hn]. destruct (decide ((id ∉ (list_to_set (map snd (btree_iter
      (pinned_by_revision live ops order))) : gset OperationId)) ∧ id ∉ recent_ids order)); [done|].
    destruct Hn. tauto.
Qed.

Lemma prune_sublist : sublist (rp_order plan) order.
Proof using. subst plan. unfold prune_operation_replays. cbn [rp_order]. apply sublist_filter. Qed.

Lemma prune_values id :
  rp_values plan !! id = if bool_decide (id ∈ rp_order plan) then ops !! id else None.
Proof using Hdom.
  unfold plan at 1, prune_operation_replays. cbn [rp_values]. rewrite lookup_foldl_delete.
  rewrite (bool_decide_ext _ (id ∈ rp_evicted plan))
    by (unfold plan, prune_operation_replays; cbn [rp_evicted]; by rewrite sort_keys_perm).
  rewrite (bool_decide_ext _ _ (prune_evicted id)).
  destruct (decide (id ∈ rp_order plan)) as [Hk|Hk].
  - rewrite bool_decide_eq_false_2 by tauto. by rewrite bool_decide_eq_true_2.
  - rewrite (bool_decide_eq_false_2 (id ∈ rp_order plan)) by done.
    case_bool_decide as Hb; [done|]. destruct (ops !! id) eqn:E; [|done].
    destruct Hb. split; [|done]. apply Hdom. eauto.
Qed.

Lemma prune_values_domain id : id ∈ rp_order plan ↔ is_Some (rp_values plan !! id).
Proof using Hdom.
  rewrite prune_values. case_bool_decide as H; split; intros Hx; try done.
  apply Hdom. eapply elem_of_submseteq; [done|]. apply sublist_submseteq, prune_sublist.
Qed.

Lemma prune_values_incl id r : rp_values plan !! id = Some r → ops !! id = Some r.
Proof using Hdom. rewrite prune_values. by case_bool_decide. Qed.

Lemma prune_recent : recent_ids (rp_order plan) = recent_ids order.
Proof using Hone Hdom.
  apply recent_ids_filter. intros id Hid Hev.
  rewrite elem_of_list_to_set, list_elem_of_filter in Hev. tauto.
Qed.

Lemma prune_retained id :
  id ∈ rp_order plan → retained live (rp_values plan) (rp_order plan) id.
Proof using Hone Hdom.
  intros Hid. unfold retained. rewrite prune_recent.
  pose proof Hid as [_ [Hr|(r & Hr & Hp)]]%prune_order; [by left|right].
  exists r. rewrite prune_values, bool_decide_eq_true_2 by done. done.
Qed.

End prune.
