(* ===== verification/KvStore.v ===== *)
(** * KvStore: the store's invariant and what a mutation does

    [Store_wf] is the type invariant of an open store. [native_mutate] is
    shown to preserve it and to implement an atomic compare-and-swap batch
    over a map with exactly-once settlement of operation ids. *)

From S2P Require Import Prelude Schema Composite Ordered Kv KvDedup KvReplay.

(** ** Sizes *)

Definition bytes_sum (l : list (Key * Entry)) : Z :=
  foldr (λ p total, len p.1 + len (en_value p.2) + total) 0 l.

Lemma bytes_sum_nonneg l : 0 <= bytes_sum l.
Proof.
  induction l as [|p l IH]; [done|]. unfold bytes_sum in *. cbn [foldr].
  pose proof (len_nonneg p.1). pose proof (len_nonneg (en_value p.2)). lia.
Qed.

#[global] Instance bytes_sum_perm : Proper ((≡ₚ) ==> (=)) bytes_sum.
Proof. unfold bytes_sum. induction 1; cbn [foldr]; lia. Qed.

Lemma foldl_add_none l : foldl add_entry_bytes None l = None.
Proof. by induction l. Qed.

Lemma foldl_add_entry_bytes l acc total :
  foldl add_entry_bytes (Some acc) l = Some total ↔
  total = acc + bytes_sum l ∧ (acc <= U64_MAX → total <= U64_MAX) ∧ (l ≠ [] → total <= U64_MAX).
Proof.
  revert acc. induction l as [|p l IH]; intros acc.
  { cbn. split; [intros [= ->]; split_and!; [lia|done..]|intros (-> & _); f_equal; lia]. }
  cbn [foldl]. change (bytes_sum (p :: l)) with (len p.1 + len (en_value p.2) + bytes_sum l).
  pose proof (bytes_sum_nonneg l). unfold add_entry_bytes at 2. cbn [mbind option_bind]. unfold checked_add_u64.
  destruct (Z.leb_spec (acc + (len p.1 + len (en_value p.2))) U64_MAX).
  - rewrite IH. split; intros (-> & H1 & H2); split_and!; try lia; intros; auto with lia.
  - rewrite foldl_add_none. split; [done|]. intros (-> & _ & H2). specialize (H2 ltac:(done)). lia.
Qed.

Lemma entries_bytes_spec entries total :
  entries_bytes entries = Some total ↔
  total = bytes_sum (map_to_list entries) ∧ total <= U64_MAX.
Proof.
  unfold entries_bytes. rewrite foldl_add_entry_bytes.
  rewrite (bytes_sum_perm _ _ (btree_iter_perm entries)).
  rewrite Z.add_0_l. split; [intros (-> & H & _); split; [done|by apply H]|].
  intros [-> H]. split_and!; done.
Qed.

Lemma entries_bytes_none entries :
  entries_bytes entries = None → U64_MAX < bytes_sum (map_to_list entries).
Proof.
  intros Hn. destruct (Z.le_gt_cases (bytes_sum (map_to_list entries)) U64_MAX); [|lia].
  assert (entries_bytes entries = Some (bytes_sum (map_to_list entries))) as Hs
    by (by apply entries_bytes_spec).
  congruence.
Qed.

(** ** Settled operations *)

Definition seq_of (ops : Operations) (id : OperationId) : Z :=
  match ops !! id with Some r => dd_settlement_sequence r | None => 0 end.

(** The retained operations of a store with the given entries, next sequence and revision. *)
Record Ops_wf (entries : Entries) (ops : Operations) (order : list OperationId)
    (next revision : Z) : Prop := {
  ow_nodup : NoDup order;
  ow_dom id : id ∈ order ↔ is_Some (ops !! id);
  ow_sorted : StronglySorted Z.lt (map (seq_of ops) order);
  ow_ops id r : ops !! id = Some r →
    length id = 16%nat ∧ wf_dedup r ∧ dd_store_revision r <= revision
    ∧ dd_settlement_sequence r < next;
  ow_one : one_per_revision ops;
  ow_retained id : id ∈ order → retained (live_revisions entries) ops order id;
  ow_established k e : entries !! k = Some e →
    ∃ id r, ops !! id = Some r ∧ has_ok r = true
            ∧ dd_store_revision r = en_modification_revision e;
  ow_last : match last order with
            | None => revision = 1 ∧ next = 1
            | Some id => ∃ r, ops !! id = Some r ∧ dd_store_revision r = revision
                              ∧ dd_settlement_sequence r + 1 = next
            end;
  ow_bounds : 1 <= revision <= U64_MAX ∧ 1 <= next <= U64_MAX
}.

Lemma StronglySorted_sublist {A} (R : relation A) (l1 l2 : list A) :
  sublist l1 l2 → StronglySorted R l2 → StronglySorted R l1.
Proof.
  induction 1 as [|x l1 l2 Hs IH|x l1 l2 Hs IH]; [done| |]; inversion 1; subst.
  - constructor; [auto|]. eapply Forall_forall. intros y Hy.
    eapply (proj1 (Forall_forall _ l2)); [done|].
    eapply elem_of_submseteq; [done|]. by apply sublist_submseteq.
  - auto.
Qed.

Lemma sublist_map {A B} (f : A → B) (l1 l2 : list A) :
  sublist l1 l2 → sublist (map f l1) (map f l2).
Proof. by induction 1; cbn; constructor. Qed.

Lemma StronglySorted_snoc {A} (R : relation A) (l : list A) x :
  StronglySorted R l → Forall (λ y, R y x) l → StronglySorted R (l ++ [x]).
Proof.
  intros Hl Hx. induction Hl as [|y l Hl IH Hy]; cbn; [repeat constructor|].
  inversion Hx; subst. constructor; [by apply IH|].
  apply Forall_app; split; [done|]. by repeat constructor.
Qed.

Lemma last_filter_keep {A} (P : A → Prop) `{!∀ x, Decision (P x)} (l : list A) x :
  P x → last (filter P (l ++ [x])) = Some x.
Proof.
  intros Hx. rewrite list.filter_app, filter_cons_True by done.
  change (filter P []) with (@nil A). apply last_snoc.
Qed.

Section settle.
Context (entries entries' : Entries) (ops : Operations) (order : list OperationId).
Context (next revision revision' : Z) (id : OperationId) (r : NativeDedupResult).
Context (Hwf : Ops_wf entries ops order next revision).
Context (Hfresh : ops !! id = None) (Hid : length id = 16%nat) (Hr : wf_dedup r).
Context (Hseq : dd_settlement_sequence r = next) (Hrev : dd_store_revision r = revision').
Context (Hle : revision <= revision' <= U64_MAX) (Hnext : next < U64_MAX).
Context (Hok : has_ok r = true → revision < revision').
Context (Hentries : ∀ k e, entries' !! k = Some e →
  entries !! k = Some e ∨ (en_modification_revision e = revision' ∧ has_ok r = true)).
Let plan := plan_operation_replay entries' ops order id r.
Let ops1 := <[id := r]> ops.
Let order1 := order ++ [id].

Lemma settle_dom x : x ∈ order1 ↔ is_Some (ops1 !! x).
Proof using All.
  subst ops1 order1. rewrite elem_of_app, list_elem_of_singleton, (ow_dom _ _ _ _ _ Hwf).
  destruct (decide (x = id)) as [->|].
  - rewrite lookup_insert_eq. split; [eauto|by right].
  - rewrite lookup_insert_ne by done. naive_solver.
Qed.

Lemma settle_one : one_per_revision ops1.
Proof using All.
  intros i1 i2 r1 r2 H1 H2 O1 O2 E. subst ops1.
  apply lookup_insert_Some in H1 as [[<- <-]|[N1 H1]];
  apply lookup_insert_Some in H2 as [[<- <-]|[N2 H2]]; try done.
  - apply (ow_ops _ _ _ _ _ Hwf) in H2 as (_ & _ & ? & _). specialize (Hok O1). lia.
  - apply (ow_ops _ _ _ _ _ Hwf) in H1 as (_ & _ & ? & _). specialize (Hok O2). lia.
  - by eapply (ow_one _ _ _ _ _ Hwf).
Qed.

Lemma settle_kept : id ∈ rp_order plan.
Proof using All.
  apply prune_order; [apply settle_dom|apply settle_one|]. split.
  - subst order1. set_solver.
  - left. apply recent_ids_last.
Qed.

Lemma settle_value : rp_values plan !! id = Some r.
Proof using All.
  unfold plan, plan_operation_replay. rewrite prune_values by apply settle_dom.
  fold ops1 order1. rewrite bool_decide_eq_true_2 by apply settle_kept.
  apply lookup_insert_eq.
Qed.

Lemma settle_incl x rx : rp_values plan !! x = Some rx → ops1 !! x = Some rx.
Proof using All. apply prune_values_incl, settle_dom. Qed.

Lemma settle_sorted : StronglySorted Z.lt (map (seq_of (rp_values plan)) (rp_order plan)).
Proof using All.
  assert (map (seq_of (rp_values plan)) (rp_order plan) = map (seq_of ops1) (rp_order plan)) as ->.
  { apply map_ext_in. intros x Hx%list_elem_of_In. unfold seq_of, plan, plan_operation_replay.
    rewrite prune_values by apply settle_dom. by rewrite bool_decide_eq_true_2. }
  eapply StronglySorted_sublist; [apply (sublist_map (seq_of ops1)), prune_sublist|].
  assert (map (seq_of ops1) (order ++ [id]) = map (seq_of ops) order ++ [next]) as ->.
  { subst ops1. rewrite map_app. cbn. f_equal.
    - apply map_ext_in. intros x Hx%list_elem_of_In. unfold seq_of.
      rewrite lookup_insert_ne; [done|]. intros ->.
      apply (ow_dom _ _ _ _ _ Hwf) in Hx. rewrite Hfresh in Hx. by destruct Hx.
    - unfold seq_of. by rewrite lookup_insert_eq, Hseq. }
  apply StronglySorted_snoc; [by destruct Hwf|]. apply Forall_forall. intros z.
  rewrite list_elem_of_fmap. intros (x & -> & Hx). apply (ow_dom _ _ _ _ _ Hwf) in Hx as [rx Hrx].
  unfold seq_of. rewrite Hrx. by apply (ow_ops _ _ _ _ _ Hwf) in Hrx as (_ & _ & _ & ?).
Qed.

Lemma settle_pinned x rx :
  ops1 !! x = Some rx → operation_pins_live_entry rx (live_revisions entries') = true →
  rp_values plan !! x = Some rx.
Proof using All.
  intros Hx Hp. unfold plan, plan_operation_replay. rewrite prune_values by apply settle_dom.
  rewrite bool_decide_eq_true_2; [done|].
  apply prune_order; [apply settle_dom|apply settle_one|]. split; [apply settle_dom; eauto|].
  right. by exists rx.
Qed.

Lemma settle_established k e : entries' !! k = Some e →
  ∃ x rx, rp_values plan !! x = Some rx ∧ has_ok rx = true
          ∧ dd_store_revision rx = en_modification_revision e.
Proof using All.
  intros He. assert (∃ x rx, ops1 !! x = Some rx ∧ has_ok rx = true
          ∧ dd_store_revision rx = en_modification_revision e) as (x & rx & Hx & Hxok & Hxr).
  { destruct (Hentries k e He) as [Hold|[Hnew Hokr]].
    - apply (ow_established _ _ _ _ _ Hwf) in Hold as (x & rx & Hx & ?). exists x, rx.
      split; [|done]. subst ops1. rewrite lookup_insert_ne; [done|congruence].
    - exists id, r. subst ops1. rewrite lookup_insert_eq. split_and!; congruence. }
  exists x, rx. split; [|done]. apply settle_pinned; [done|]. apply pins_spec. split; [|done].
  apply elem_of_live_revisions. by exists k, e.
Qed.

Lemma settle_wf : Ops_wf entries' (rp_values plan) (rp_order plan) (next + 1) revision'.
Proof using All.
  pose proof (ow_bounds _ _ _ _ _ Hwf) as [Hb1 Hb2]. split.
  - eapply sublist_NoDup; [|apply prune_sublist]. apply NoDup_app.
    split; [by destruct Hwf|]. split; [|apply NoDup_singleton].
    intros x Hx Hx2%list_elem_of_singleton. subst x. apply (ow_dom _ _ _ _ _ Hwf) in Hx.
    rewrite Hfresh in Hx. by destruct Hx.
  - intros x. apply prune_values_domain, settle_dom.
  - apply settle_sorted.
  - intros x rx Hx%settle_incl. subst ops1.
    apply lookup_insert_Some in Hx as [[<- <-]|[_ Hx]]; [split_and!; done || lia|].
    apply (ow_ops _ _ _ _ _ Hwf) in Hx as (? & ? & ? & ?). split_and!; done || lia.
  - intros i1 i2 r1 r2 H1%settle_incl H2%settle_incl. by eapply settle_one.
  - intros x Hx. apply prune_retained; [apply settle_dom|apply settle_one|done].
  - apply settle_established.
  - assert (last (rp_order plan) = Some id) as ->.
    { unfold plan, plan_operation_replay, prune_operation_replays. cbn [rp_order].
      apply last_filter_keep. rewrite elem_of_list_to_set, list_elem_of_filter.
      pose proof (recent_ids_last order id). tauto. }
    exists r. rewrite settle_value. split_and!; [done..|lia].
  - lia.
Qed.
End settle.

(** ** How much is retained *)

Lemma ops_size entries ops order next revision :
  Ops_wf entries ops order next revision → size ops = length order.
Proof.
  intros Hwf. rewrite <- (size_dom (D := gset (list byte))).
  rewrite <- (size_list_to_set (C := gset (list byte)) order) by by destruct Hwf.
  f_equal. apply set_eq. intros x. rewrite elem_of_dom, elem_of_list_to_set.
  by rewrite (ow_dom _ _ _ _ _ Hwf).
Qed.

Lemma ops_bounded entries ops order next revision :
  Ops_wf entries ops order next revision → (length order <= recent_count + size entries)%nat.
Proof.
  intros Hwf. set (live := live_revisions entries).
  set (pins := filter (λ id, match ops !! id with
                             | Some r => operation_pins_live_entry r live
                             | None => false end = true) order).
  assert (Hp : (length pins <= size entries)%nat).
  { rewrite <- (length_map (λ id, match ops !! id with Some r => dd_store_revision r | None => 0 end)).
    set (revs := map _ pins).
    assert (Hnd : NoDup revs).
    { subst revs. apply NoDup_fmap_2_strong; [|apply NoDup_filter; by destruct Hwf].
      intros i1 i2 [P1 _]%list_elem_of_filter [P2 _]%list_elem_of_filter.
      destruct (ops !! i1) eqn:E1, (ops !! i2) eqn:E2; try done. intros Heq.
      apply pins_spec in P1 as [_ O1], P2 as [_ O2]. by eapply (ow_one _ _ _ _ _ Hwf). }
    rewrite <- (size_list_to_set (C := gset Z) revs) by done.
    etrans; [apply (subseteq_size _ live)|apply size_live_revisions].
    intros z. rewrite elem_of_list_to_set. subst revs. rewrite list_elem_of_fmap.
    intros (id & -> & [P _]%list_elem_of_filter).
    destruct (ops !! id); [|done]. by apply pins_spec in P as [? _]. }
  rewrite <- (size_list_to_set (C := gset (list byte)) order) by by destruct Hwf.
  transitivity (size (recent_ids order ∪ list_to_set pins)).
  - apply subseteq_size. intros id. rewrite elem_of_list_to_set, elem_of_union, elem_of_list_to_set.
    intros Hid. destruct (ow_retained _ _ _ _ _ Hwf id Hid) as [|(r & Hr & P)]; [by left|right].
    subst pins. rewrite list_elem_of_filter, Hr. done.
  - rewrite size_union_alt.
    assert (Hsub : list_to_set pins ∖ recent_ids order ⊆ (list_to_set pins : gset (list byte)))
      by set_solver.
    apply subseteq_size in Hsub. pose proof (size_recent_ids order).
    pose proof (size_list_to_set_le pins). lia.
Qed.

(** ** The batch as one compare-and-swap

    [cas_batch] is the reference: each mutation sees the effect of the ones
    before it, and one unmatched precondition fails them all. *)

Definition cas_apply (revision now : Z) (m : NativeMutation) (entries : Entries) : Entries :=
  match m with
  | Put key _ value content_hash => <[key := mkEntry value content_hash now revision]> entries
  | Delete key _ => delete key entries
  end.

Fixpoint cas_batch (revision now : Z) (ms : list NativeMutation) (entries : Entries) :
    option Entries :=
  match ms with
  | [] => Some entries
  | m :: ms' =>
      if precondition_matches (mutation_precondition m) (entries !! mutation_key m)
      then cas_batch revision now ms' (cas_apply revision now m entries) else None
  end.

(** What a committed mutation answers. *)
Definition ok_result (revision now : Z) (m : NativeMutation) : NativeMutationResult :=
  match m with
  | Put _ _ value content_hash => mkResult Status_Ok revision now content_hash (len value)
  | Delete _ _ => mkResult Status_Ok revision now (zeros 32) 0
  end.

Lemma apply_mutations_cas revision now ms entries acc :
  match cas_batch revision now ms entries with
  | Some entries' =>
      apply_mutations revision now ms entries acc
      = (false, entries', acc ++ map (ok_result revision now) ms)
  | None => ∃ w rs, apply_mutations revision now ms entries acc = (true, w, rs)
  end.
Proof.
  revert entries acc. induction ms as [|m ms IH]; intros entries acc; cbn [cas_batch map].
  { cbn. by rewrite app_nil_r. }
  destruct m as [key p value h|key p]; cbn [mutation_precondition mutation_key apply_mutations];
    destruct (precondition_matches p (entries !! key)); cbn [negb]; eauto.
  - rewrite lookup_insert_eq. cbn [cas_apply result_for en_value en_hash en_mtime_ns
      en_modification_revision].
    specialize (IH (cas_apply revision now (Put key p value h) entries)
                   (acc ++ [mkResult Status_Ok revision now h (len value)])).
    cbn [cas_apply] in IH. destruct (cas_batch revision now ms _); [|done].
    by rewrite IH, <- app_assoc.
  - specialize (IH (delete key entries) (acc ++ [mkResult Status_Ok revision now (zeros 32) 0])).
    cbn [cas_apply]. destruct (cas_batch revision now ms _); [|done].
    by rewrite IH, <- app_assoc.
Qed.

(** An entry after the batch is an old one or one the batch put. *)
Lemma cas_batch_lookup revision now ms entries entries' k e :
  cas_batch revision now ms entries = Some entries' → entries' !! k = Some e →
  entries !! k = Some e
  ∨ ∃ p value h, Put k p value h ∈ ms ∧ e = mkEntry value h now revision.
Proof.
  revert entries. induction ms as [|m ms IH]; intros entries; cbn [cas_batch].
  { intros [= ->]. by left. }
  destruct (precondition_matches _ _); [|done]. intros Hc He.
  destruct (IH _ Hc He) as [Hold|(p & v & h & Hin & ->)].
  - destruct m as [key p value h|key p]; cbn [cas_apply] in Hold.
    + apply lookup_insert_Some in Hold as [[<- <-]|[_ Hold]]; [right|by left].
      exists p, value, h. split; [set_solver|done].
    + apply lookup_delete_Some in Hold as [_ Hold]. by left.
  - right. exists p, v, h. split; [set_solver|done].
Qed.

(** The batch changes no key it does not mention. *)
Lemma cas_batch_frame revision now ms entries entries' k :
  cas_batch revision now ms entries = Some entries' → k ∉ map mutation_key ms →
  entries' !! k = entries !! k.
Proof.
  revert entries. induction ms as [|m ms IH]; intros entries; cbn [cas_batch map].
  { by intros [= ->]. }
  destruct (precondition_matches _ _); [|done]. intros Hc Hk.
  rewrite not_elem_of_cons in Hk. destruct Hk as [Hk1 Hk2]. rewrite (IH _ Hc Hk2).
  destruct m as [key p value h|key p]; cbn in *.
  - by rewrite lookup_insert_ne.
  - by rewrite lookup_delete_ne.
Qed.

(** ** A settlement, common to the two outcomes of a fresh operation *)

(** The permit, then the job's way into the queue: whether it was queued, whether the
    store keeps its writer, and the link. *)
Definition deliver (writer : bool) (l : WriterLink) (permit : option WriterPermit)
    (job : WriterPermit → WriteJob) : bool * bool * WriterLink :=
  match permit with
  | None => (false, writer, l)
  | Some permit =>
      if writer then
        match try_send l (job permit) with
        | (None, l') => (true, true, l')
        | (Some _, l') => (false, false, drop_job l' (job permit))
        end
      else (false, false, drop_job l (job permit))
  end.

Definition settle (id : OperationId) (fp : Hash) (durable : bool)
    (ws : list NativeStageWitness) (st : Store) (l : WriterLink)
    (entries : Entries) (total revision : Z) (results : list NativeMutationResult)
    (persisted : list PersistedMutation) (changes : list NativeChange) : MutateOutcome :=
  let dedup := mkDedup fp revision (st_next_operation_sequence st) results ws in
  let encoded := encode_native_dedup dedup in
  let plan := plan_operation_replay entries (st_operations st) (st_operation_order st) id dedup in
  match write_job_bytes persisted (len encoded) (len (rp_evicted plan)) with
  | None => (Err Mutation_ResourceExhausted, (st, l))
  | Some bytes =>
    match reserve_write st l bytes with
    | Err e => (Err e, (st, l))
    | Ok (permit, l1) =>
      let '(queued, writer, l2) :=
        deliver (st_writer st) l1 permit
          (mkJob persisted (Some (id, encoded)) (rp_evicted plan)
                 (durable && bool_decide (is_Some permit))) in
      (Ok (mkCommit revision results (durable && queued) (durable && negb queued)),
       (mkStore entries (st_native_changes st ++ changes) (rp_values plan) (rp_order plan)
                (saturating_add_u64 (st_next_operation_sequence st) 1) writer total revision, l2))
    end
  end.

Lemma enqueue_permitted_deliver st l permit job :
  enqueue_permitted st l permit job
  = let '(queued, writer, l') := deliver (st_writer st) l permit job in
    (queued, set_writer st writer, l').
Proof.
  destruct st as [e c o od n w t r]. unfold enqueue_permitted, deliver, enqueue_job. cbn.
  destruct permit as [permit|]; [|done]. destruct w; cbn; [|done].
  by destruct (try_send l (job permit)) as [[[]|] l'].
Qed.

Lemma deliver_permit w l permit job queued w' l' :
  deliver w l permit job = (queued, w', l') → queued = true → bool_decide (is_Some permit) = true.
Proof. destruct permit; [done|]. cbn. by intros [= <- _ _]. Qed.

Lemma mutate_conflict_settle id fp durable ws ms st l :
  mutate_conflict id fp durable ws ms st l
  = settle id fp durable ws st l (st_entries st) (st_total_bytes st) (st_revision st)
      (map (λ m, result_for Status_Conflict (st_entries st !! mutation_key m)) ms) [] [].
Proof.
  unfold mutate_conflict, settle. cbn zeta.
  destruct (write_job_bytes _ _ _) as [n|]; [|done].
  destruct (reserve_write st l n) as [[permit l1]|]; [|done].
  rewrite enqueue_permitted_deliver. cbn [set_operations st_writer].
  destruct (deliver _ _ _ _) as [[queued w] l2] eqn:Ed.
  pose proof (deliver_permit _ _ _ _ _ _ _ Ed) as Hp.
  rewrite app_nil_r. cbn [set_writer st_revision st_entries st_native_changes st_operations
    st_operation_order st_next_operation_sequence st_total_bytes].
  destruct queued; [rewrite Hp by done|]; by destruct durable.
Qed.

Lemma mutate_commit_settle limits id fp durable ws ms working results revision st l :
  mutate_commit limits id fp durable ws ms working results revision st l
  = match entries_bytes working with
    | None => (Err Mutation_ResourceExhausted, (st, l))
    | Some total =>
        if (kl_max_entries limits <? Z.of_nat (size working)) || (kl_max_store_bytes limits <? total)
        then (Err Mutation_ResourceExhausted, (st, l))
        else
          let changed := btree_iter (changed_keys (st_entries st) ms) in
          settle id fp durable ws st l working total revision results
            (map (persisted_mutation working) changed)
            [mkChange (st_revision st) revision (map (change_record working revision) changed)]
    end.
Proof.
  unfold mutate_commit, settle. cbn zeta.
  destruct (entries_bytes working) as [total|]; [|done]. destruct (_ || _); [done|].
  destruct (write_job_bytes _ _ _) as [n|]; [|done].
  destruct (reserve_write st l n) as [[permit l1]|]; [|done].
  rewrite enqueue_permitted_deliver. cbn [set_operations set_entries st_writer].
  destruct (deliver _ _ _ _) as [[queued w] l2] eqn:Ed.
  pose proof (deliver_permit _ _ _ _ _ _ _ Ed) as Hp.
  cbn [send_change set_writer st_revision st_entries st_native_changes st_operations
    st_operation_order st_next_operation_sequence st_total_bytes].
  destruct queued; [rewrite Hp by done|]; by destruct durable.
Qed.
