(* ===== verification/KvMutate.v ===== *)
(** * KvMutate: a mutation preserves the store's invariant and refines an
      atomic compare-and-swap map with exactly-once settlement *)

From S2P Require Import Prelude Schema Composite Ordered Kv KvDedup KvReplay KvStore.

(** ** The outcomes of a call *)

(** The request passes the guards before the lock is taken. *)
Definition admissible (env : KvEnv) (ws : list NativeStageWitness) (ms : list NativeMutation) :
    bool :=
  negb (is_nil ms || (MAX_BATCH_ITEMS <? len ms))
  && negb ((MAX_STAGE_WITNESSES_PER_OPERATION <? len ws) || witness_invalid env 0 ws)
  && negb (existsb (mutation_invalid (native_limits env)) ms).

Lemma native_mutate_eq env now id fp durable ws ms st l :
  native_mutate env now id fp durable ws ms (st, l)
  = if negb (admissible env ws ms) then (Err Mutation_Invalid, (st, l)) else
    match st_operations st !! id with
    | Some previous =>
        if negb (bool_decide (dd_fingerprint previous = fp)) then (Err OperationConflict, (st, l))
        else (Ok (replay_commit previous), (st, l))
    | None =>
        let revision := saturating_add_u64 (st_revision st) 1 in
        match cas_batch revision now ms (st_entries st) with
        | None => mutate_conflict id fp durable ws ms st l
        | Some working =>
            mutate_commit (native_limits env) id fp durable ws ms working
              (map (ok_result revision now) ms) revision st l
        end
    end.
Proof.
  unfold native_mutate, admissible. cbn zeta.
  destruct (is_nil ms || _); [done|]. destruct (_ || witness_invalid env 0 ws); [done|].
  destruct (existsb _ ms); [done|]. cbn [negb andb].
  destruct (st_operations st !! id); [done|].
  pose proof (apply_mutations_cas (saturating_add_u64 (st_revision st) 1) now ms (st_entries st) [])
    as H.
  destruct (cas_batch _ now ms (st_entries st)) as [working|].
  - by rewrite H.
  - destruct H as (w & rs & ->). done.
Qed.

(** The store left by a settlement. *)
Definition settled_store (id : OperationId) (fp : Hash) (ws : list NativeStageWitness)
    (st : Store) (entries : Entries) (total revision : Z) (results : list NativeMutationResult)
    (changes : list NativeChange) (writer : bool) : Store :=
  let plan := plan_operation_replay entries (st_operations st) (st_operation_order st) id
                (mkDedup fp revision (st_next_operation_sequence st) results ws) in
  mkStore entries (st_native_changes st ++ changes) (rp_values plan) (rp_order plan)
    (saturating_add_u64 (st_next_operation_sequence st) 1) writer total revision.

(** What a fresh operation settles as: the entries, their size, the revision, the
    results, the rows to write and the change to broadcast. *)
Inductive settles (env : KvEnv) (now : Z) (ms : list NativeMutation) (st : Store) :
    Entries → Z → Z → list NativeMutationResult → list PersistedMutation → list NativeChange →
    Prop :=
| settles_conflict :
    cas_batch (saturating_add_u64 (st_revision st) 1) now ms (st_entries st) = None →
    settles env now ms st (st_entries st) (st_total_bytes st) (st_revision st)
      (map (λ m, result_for Status_Conflict (st_entries st !! mutation_key m)) ms) [] []
| settles_commit working total :
    let revision := saturating_add_u64 (st_revision st) 1 in
    let changed := btree_iter (changed_keys (st_entries st) ms) in
    cas_batch revision now ms (st_entries st) = Some working →
    entries_bytes working = Some total →
    Z.of_nat (size working) <= kl_max_entries (native_limits env) →
    total <= kl_max_store_bytes (native_limits env) →
    settles env now ms st working total revision (map (ok_result revision now) ms)
      (map (persisted_mutation working) changed)
      [mkChange (st_revision st) revision (map (change_record working revision) changed)].

(** How the settlement's job reaches the writer. *)
Inductive delivered (st : Store) (l : WriterLink) (j : WriterPermit → bool → WriteJob)
    (durable : bool) : bool → bool → WriterLink → Prop :=
| delivered_memory_only : st_writer st = false → delivered st l j durable false false l
| delivered_queued bytes permit b :
    st_writer st = true → 0 <= bytes →
    WriterBudget_try_reserve (wl_budget l) bytes = Some (permit, b) →
    wl_connected l = true → len (wl_queue l) < wl_capacity l →
    delivered st l j durable true true
      (set_queue (set_budget l b) (wl_queue l ++ [j permit durable]))
| delivered_lost bytes permit b :
    st_writer st = true → 0 <= bytes →
    WriterBudget_try_reserve (wl_budget l) bytes = Some (permit, b) →
    (wl_connected l = false ∨ wl_capacity l <= len (wl_queue l)) →
    delivered st l j durable false false
      (set_budget l (WriterPermit_drop (wj_permit (j permit durable)) b)).

(** Why an admissible fresh request is refused. *)
Inductive exhausted (env : KvEnv) (now : Z) (id : OperationId) (fp : Hash)
    (ws : list NativeStageWitness) (ms : list NativeMutation) (st : Store) (l : WriterLink) :
    Prop :=
| exhausted_store working :
    cas_batch (saturating_add_u64 (st_revision st) 1) now ms (st_entries st) = Some working →
    kl_max_entries (native_limits env) < Z.of_nat (size working)
    ∨ kl_max_store_bytes (native_limits env) < bytes_sum (map_to_list working)
    ∨ U64_MAX < bytes_sum (map_to_list working) →
    exhausted env now id fp ws ms st l
| exhausted_writer bytes :
    st_writer st = true → WriterBudget_try_reserve (wl_budget l) bytes = None →
    exhausted env now id fp ws ms st l
| exhausted_job entries total revision results persisted changes :
    settles env now ms st entries total revision results persisted changes →
    (let r := mkDedup fp revision (st_next_operation_sequence st) results ws in
     write_job_bytes persisted (len (encode_native_dedup r))
       (len (rp_evicted (plan_operation_replay entries (st_operations st) (st_operation_order st)
                           id r))) = None) →
    exhausted env now id fp ws ms st l.

Inductive outcome (env : KvEnv) (now : Z) (id : OperationId) (fp : Hash) (durable : bool)
    (ws : list NativeStageWitness) (ms : list NativeMutation) (st : Store) (l : WriterLink) :
    result NativeMutationError NativeCommit → Store → WriterLink → Prop :=
| outcome_invalid :
    admissible env ws ms = false →
    outcome env now id fp durable ws ms st l (Err Mutation_Invalid) st l
| outcome_exhausted :
    admissible env ws ms = true → st_operations st !! id = None →
    exhausted env now id fp ws ms st l →
    outcome env now id fp durable ws ms st l (Err Mutation_ResourceExhausted) st l
| outcome_mismatch previous :
    st_operations st !! id = Some previous → dd_fingerprint previous ≠ fp →
    outcome env now id fp durable ws ms st l (Err OperationConflict) st l
| outcome_replayed previous :
    st_operations st !! id = Some previous → dd_fingerprint previous = fp →
    outcome env now id fp durable ws ms st l (Ok (replay_commit previous)) st l
| outcome_settled entries total revision results persisted changes queued writer l' :
    admissible env ws ms = true → st_operations st !! id = None →
    settles env now ms st entries total revision results persisted changes →
    delivered st l
      (λ permit reply,
        let r := mkDedup fp revision (st_next_operation_sequence st) results ws in
        mkJob persisted (Some (id, encode_native_dedup r))
          (rp_evicted (plan_operation_replay entries (st_operations st) (st_operation_order st) id r))
          reply permit)
      durable queued writer l' →
    outcome env now id fp durable ws ms st l
      (Ok (mkCommit revision results (durable && queued) (durable && negb queued)))
      (settled_store id fp ws st entries total revision results changes writer) l'.

Lemma write_job_bytes_nonneg l n m bytes :
  0 <= n → 0 <= m → write_job_bytes l n m = Some bytes → 0 <= bytes.
Proof.
  intros Hn Hm. unfold write_job_bytes.
  assert (Hf : ∀ acc total, 0 <= acc → foldl add_mutation_bytes (Some acc) l = Some total → 0 <= total).
  { induction l as [|x l IH]; intros acc total Ha; [by intros [= <-]|]. cbn [foldl].
    destruct (add_mutation_bytes (Some acc) x) as [acc'|] eqn:E.
    - apply IH. unfold add_mutation_bytes in E. cbn [mbind option_bind] in E.
      destruct (checked_add_u64 acc (len (pm_key x))) as [t|] eqn:E1; [|done]. cbn [mbind option_bind] in E.
      apply checked_add_u64_some in E as [-> _], E1 as [-> _]. pose proof (len_nonneg (pm_key x)).
      destruct (pm_value x) as [[[v ?] ?]|]; [pose proof (len_nonneg v)|]; lia.
    - clear. induction l; done. }
  destruct (foldl add_mutation_bytes (Some 0) l) as [t|] eqn:Et; [|done]. cbn [mbind option_bind].
  specialize (Hf 0 t ltac:(lia) Et).
  destruct (checked_add_u64 t n) as [t1|] eqn:E1; [|done]. cbn [mbind option_bind].
  unfold checked_mul_u64. destruct (m * 16 <=? U64_MAX); [|done]. cbn [mbind option_bind].
  rewrite checked_add_u64_some. apply checked_add_u64_some in E1 as [-> _]. lia.
Qed.

Lemma settle_outcome env now id fp durable ws ms st l entries total revision results persisted
    changes res st' l' :
  admissible env ws ms = true → st_operations st !! id = None →
  settles env now ms st entries total revision results persisted changes →
  settle id fp durable ws st l entries total revision results persisted changes = (res, (st', l')) →
  outcome env now id fp durable ws ms st l res st' l'.
Proof.
  intros Ha Hf Hs. unfold settle. cbn zeta.
  destruct (write_job_bytes _ _ _) as [bytes|] eqn:Ej;
    [|intros [= <- <- <-]; apply outcome_exhausted; [done..|]; by eapply exhausted_job].
  pose proof (write_job_bytes_nonneg _ _ _ _ (len_nonneg _) (len_nonneg _) Ej) as Hnn.
  unfold reserve_write. destruct (st_writer st) eqn:Hw.
  - destruct (WriterBudget_try_reserve (wl_budget l) bytes) as [[permit b]|] eqn:Eb;
      [|intros [= <- <- <-]; apply outcome_exhausted; [done..|]; by eapply exhausted_writer].
    rewrite bool_decide_eq_true_2, andb_true_r by eauto. cbn [deliver].
    unfold try_send. cbn [set_budget wl_connected wl_capacity wl_queue].
    destruct (wl_connected l) eqn:Ec; cbn [negb].
    + destruct (Z.leb_spec (wl_capacity l) (len (wl_queue l))); intros [= <- <- <-];
        eapply outcome_settled; try done.
      * eapply (delivered_lost st l (λ p rp, mkJob _ _ _ rp p)); eauto.
      * eapply (delivered_queued st l (λ p rp, mkJob _ _ _ rp p)); eauto.
    + intros [= <- <- <-]. eapply outcome_settled; try done.
      eapply (delivered_lost st l (λ p rp, mkJob _ _ _ rp p)); eauto.
  - cbn [deliver]. intros [= <- <- <-]. eapply outcome_settled; try done. by constructor.
Qed.

Lemma native_mutate_outcome env now id fp durable ws ms st l res st' l' :
  native_mutate env now id fp durable ws ms (st, l) = (res, (st', l')) →
  outcome env now id fp durable ws ms st l res st' l'.
Proof.
  rewrite native_mutate_eq. destruct (admissible env ws ms) eqn:Ha; cbn [negb];
    [|intros [= <- <- <-]; by constructor].
  destruct (st_operations st !! id) as [previous|] eqn:Ho.
  - case_bool_decide; cbn [negb]; intros [= <- <- <-]; [by constructor|by econstructor].
  - cbn zeta. destruct (cas_batch _ now ms (st_entries st)) as [working|] eqn:Ec.
    + rewrite mutate_commit_settle. destruct (entries_bytes working) as [total|] eqn:Et;
        [|intros [= <- <- <-]; apply outcome_exhausted; [done..|]; eapply exhausted_store; [done|];
          right; right; by apply entries_bytes_none].
      pose proof Et as [Htot _]%entries_bytes_spec.
      destruct (Z.ltb_spec (kl_max_entries (native_limits env)) (Z.of_nat (size working)));
        cbn [orb]; [intros [= <- <- <-]; apply outcome_exhausted; [done..|];
                    eapply exhausted_store; [done|by left]|].
      destruct (Z.ltb_spec (kl_max_store_bytes (native_limits env)) total);
        [intros [= <- <- <-]; apply outcome_exhausted; [done..|];
         eapply exhausted_store; [done|right; left; lia]|].
      apply settle_outcome; [done..|]. by constructor.
    + rewrite mutate_conflict_settle. apply settle_outcome; [done..|]. by constructor.
Qed.

(** ** The invariant of an open store *)

Definition valid_key (k : Key) : Prop := k ≠ [] ∧ len k <= kv_MAX_KEY_BYTES ∧ Byte.x00 ∉ k.

Section store.
Context (env : KvEnv) (blake3_hash : list byte → Hash).

Definition wf_entry (revision : Z) (e : Entry) : Prop :=
  en_hash e = blake3_hash (en_value e) ∧ is_u64 (en_mtime_ns e)
  ∧ 1 <= en_modification_revision e <= revision
  ∧ len (en_value e) <= kl_max_value_bytes (native_limits env).

Record Store_wf (st : Store) : Prop := {
  sw_ops : Ops_wf (st_entries st) (st_operations st) (st_operation_order st)
             (st_next_operation_sequence st) (st_revision st);
  sw_entries : map_Forall (λ k e, valid_key k ∧ wf_entry (st_revision st) e) (st_entries st);
  sw_total : entries_bytes (st_entries st) = Some (st_total_bytes st);
  sw_size : Z.of_nat (size (st_entries st)) <= Z.max 0 (kl_max_entries (native_limits env));
  sw_bytes : st_total_bytes st <= Z.max 0 (kl_max_store_bytes (native_limits env))
}.

(** What callers pass: hashes that are the values' BLAKE3, arrays of their
    lengths, staged values within the protocol's limit. *)
Definition wf_mutation (m : NativeMutation) : Prop :=
  match m with Put _ _ value h => h = blake3_hash value | Delete _ _ => True end.

Definition wf_witness_arg (w : NativeStageWitness) : Prop :=
  is_u64 (sw_original_handle w) ∧ 0 <= sw_byte_len w <= kl_max_value_bytes KvLimits_HARD
  ∧ length (sw_content_hash w) = 32%nat.

Definition wf_request (now : Z) (id : OperationId) (fp : Hash)
    (ws : list NativeStageWitness) (ms : list NativeMutation) : Prop :=
  is_u64 now ∧ length id = 16%nat ∧ length fp = 32%nat ∧ Forall wf_witness_arg ws
  ∧ Forall wf_mutation ms.

Context (Hblake : ∀ v, length (blake3_hash v) = 32%nat).

Lemma admissible_witnesses ws i :
  witness_invalid env i ws = false → Forall wf_witness_arg ws → wf_stage_witnesses i ws.
Proof using.
  intros H Hws. revert i H. induction Hws as [|w ws (Hh & Hb & Hl) _ IH]; intros i; [done|].
  cbn [witness_invalid wf_stage_witnesses].
  destruct (Z.eqb_spec (sw_ordinal w) i); cbn [negb orb]; [|done].
  destruct (Z.eqb_spec (sw_original_handle w) 0); cbn [orb]; [done|].
  destruct (value_max env <? sw_byte_len w); cbn [orb]; [done|]. intros Hi.
  split; [|by apply IH]. unfold wf_stage_witness. split_and!; done || lia.
Qed.

Lemma admissible_inv ws ms :
  admissible env ws ms = true →
  ms ≠ [] ∧ len ms <= MAX_BATCH_ITEMS ∧ len ws <= MAX_STAGE_WITNESSES_PER_OPERATION
  ∧ witness_invalid env 0 ws = false
  ∧ ∀ m, m ∈ ms → mutation_invalid (native_limits env) m = false.
Proof using.
  unfold admissible. rewrite !andb_true_iff, !negb_true_iff, !orb_false_iff.
  intros (((Hn & Hb) & Hw & Hwi) & He). split_and!; [by apply is_nil_false|lia..|done|].
  intros m Hm. destruct (mutation_invalid _ m) eqn:E; [|done].
  exfalso. apply Bool.not_true_iff_false in He. apply He, existsb_exists.
  exists m. split; [by apply list_elem_of_In|done].
Qed.

Lemma mutation_valid m :
  mutation_invalid (native_limits env) m = false →
  valid_key (mutation_key m)
  ∧ match m with Put _ _ v _ => len v <= kl_max_value_bytes (native_limits env) | _ => True end.
Proof using.
  unfold mutation_invalid. rewrite !orb_false_iff. intros (((Hn & Hk) & H0) & Hv).
  split; [split_and!|].
  - by apply is_nil_false.
  - apply Z.ltb_ge in Hk. exact Hk.
  - intros Hin. apply Bool.not_true_iff_false in H0. apply H0, existsb_exists.
    exists Byte.x00. split; [by apply list_elem_of_In|done].
  - destruct m; [lia|done].
Qed.

Lemma limits_value : kl_max_value_bytes (native_limits env) <= 4194304.
Proof using. cbn. unfold kv_MAX_VALUE_BYTES. lia. Qed.

Lemma wf_ok_result revision now m :
  0 <= revision <= U64_MAX → is_u64 now → wf_mutation m →
  match m with Put _ _ v _ => len v <= kl_max_value_bytes (native_limits env) | _ => True end →
  wf_result (ok_result revision now m).
Proof using Hblake.
  pose proof limits_value. unfold U64_MAX. intros ? ? Hm Hv.
  destruct m as [k p v h|k p]; cbn in Hm; [subst h; pose proof (len_nonneg v)|];
    repeat split; cbn; try done; try apply Hblake; lia.
Qed.

Lemma wf_conflict_result revision current :
  (∀ e, current = Some e → wf_entry revision e) → revision <= U64_MAX →
  wf_result (result_for Status_Conflict current).
Proof using Hblake.
  intros He Hr. destruct current as [e|]; [|repeat split; done].
  destruct (He e eq_refl) as (Hh & Hm & Hrev & Hv). pose proof limits_value.
  pose proof (len_nonneg (en_value e)). unfold U64_MAX in *.
  repeat split; cbn; try done; rewrite ?Hh; try apply Hblake; lia.
Qed.

Lemma has_ok_map_ok revision now ms ws fp seq :
  ms ≠ [] → has_ok (mkDedup fp revision seq (map (ok_result revision now) ms) ws) = true.
Proof using. destruct ms as [|[] ms]; done. Qed.

Lemma has_ok_conflict rev fp seq (ms : list NativeMutation) (cur : NativeMutation → option Entry) ws :
  has_ok (mkDedup fp rev seq (map (λ m, result_for Status_Conflict (cur m)) ms) ws) = false.
Proof using.
  unfold has_ok. cbn [dd_results]. induction ms as [|m ms IH]; [done|]. cbn [map existsb].
  rewrite IH. by destruct (cur m).
Qed.

(** Every entry of a committed batch is well formed at the new revision. *)
Lemma cas_entries_wf revision revision' now ms entries working :
  map_Forall (λ k e, valid_key k ∧ wf_entry revision e) entries →
  cas_batch revision' now ms entries = Some working →
  (∀ m, m ∈ ms → mutation_invalid (native_limits env) m = false) →
  Forall wf_mutation ms → is_u64 now → 1 <= revision <= revision' →
  map_Forall (λ k e, valid_key k ∧ wf_entry revision' e) working.
Proof using.
  intros He Hc Hv Hm Hnow Hr k e Hk.
  destruct (cas_batch_lookup _ _ _ _ _ _ _ Hc Hk) as [Hold|(p & v & h & Hin & ->)].
  - destruct (He k e Hold) as (Hkey & Hh & Ht & Hrev & Hlen). split; [done|].
    unfold wf_entry. split_and!; done || lia.
  - destruct (mutation_valid _ (Hv _ Hin)) as [Hkey Hlen]. split; [done|].
    unfold wf_entry. split_and!; cbn [en_hash en_value en_mtime_ns en_modification_revision];
      try done; try lia. by apply (proj1 (Forall_forall _ _) Hm) in Hin.
Qed.

(** ** Preservation *)

Lemma next_revision st : 1 <= st_revision st < U64_MAX →
  saturating_add_u64 (st_revision st) 1 = st_revision st + 1.
Proof using. unfold saturating_add_u64. lia. Qed.

Section settled.
Context (now : Z) (id : OperationId) (fp : Hash) (ws : list NativeStageWitness).
Context (ms : list NativeMutation) (st : Store) (Hwf : Store_wf st).
Context (Hreq : wf_request now id fp ws ms) (Ha : admissible env ws ms = true).
Context (Hf : st_operations st !! id = None).
Context (Hrev : st_revision st < U64_MAX) (Hn : st_next_operation_sequence st < U64_MAX).
Context (entries : Entries) (total revision : Z) (results : list NativeMutationResult).
Context (persisted : list PersistedMutation) (changes : list NativeChange).
Context (Hs : settles env now ms st entries total revision results persisted changes).
Let r := mkDedup fp revision (st_next_operation_sequence st) results ws.

Lemma settles_revision : st_revision st <= revision <= U64_MAX.
Proof using All.
  pose proof (ow_bounds _ _ _ _ _ (sw_ops _ Hwf)) as [? _].
  pose proof (next_revision st ltac:(lia)). destruct Hs; lia.
Qed.

Lemma settles_ok : has_ok r = true → st_revision st < revision.
Proof using All.
  pose proof (ow_bounds _ _ _ _ _ (sw_ops _ Hwf)) as [? _].
  pose proof (next_revision st ltac:(lia)). subst r.
  destruct Hs as [Hc|w t rv changed Hc Ht Hsz Htot]; [by rewrite has_ok_conflict|subst rv; lia].
Qed.

Lemma settles_entries k e : entries !! k = Some e →
  st_entries st !! k = Some e ∨ (en_modification_revision e = revision ∧ has_ok r = true).
Proof using All.
  subst r. destruct Hs as [Hc|w t rv changed Hc Ht Hsz Htot]; [by left|].
  intros He. destruct (cas_batch_lookup _ _ _ _ _ _ _ Hc He)
    as [Hold|(p & v & h & Hin & ->)]; [by left|right].
  split; [done|]. apply has_ok_map_ok. by apply admissible_inv in Ha as (? & _).
Qed.

Lemma settles_dedup : wf_dedup r.
Proof using All.
  pose proof settles_revision as Hr'. destruct Hreq as (Hnow & Hid & Hfp & Hws & Hms).
  destruct (admissible_inv ws ms Ha) as (Hne & Hlen & Hlw & Hwi & Hmv).
  pose proof (ow_bounds _ _ _ _ _ (sw_ops _ Hwf)) as [? ?].
  unfold wf_dedup. subst r. cbn [dd_fingerprint dd_store_revision dd_settlement_sequence dd_results
    dd_stage_witnesses].
  assert (len results = len ms ∧ Forall wf_result results) as [Hl Hrs].
  { destruct Hs as [Hc|w t rv changed Hc Ht Hsz Htot]; (split; [unfold len; by rewrite length_map|]);
      apply Forall_map, Forall_forall; intros m Hm.
    - apply (wf_conflict_result (st_revision st)); [|lia].
      intros e He. by apply (sw_entries _ Hwf) in He as [_ He].
    - apply wf_ok_result; [lia|done|by apply (proj1 (Forall_forall _ _) Hms)|].
      by apply mutation_valid, Hmv. }
  split_and!; try done; try lia. by apply admissible_witnesses.
Qed.

Lemma settles_wf writer :
  Store_wf (settled_store id fp ws st entries total revision results changes writer).
Proof using All.
  pose proof settles_revision. pose proof settles_dedup as Hd.
  pose proof (ow_bounds _ _ _ _ _ (sw_ops _ Hwf)) as [? ?].
  pose proof Hreq as (Hnow & Hid & _ & _ & Hms).
  split; unfold settled_store; cbn [st_entries st_operations st_operation_order
      st_next_operation_sequence st_revision st_total_bytes].
  - replace (saturating_add_u64 (st_next_operation_sequence st) 1)
      with (st_next_operation_sequence st + 1) by (unfold saturating_add_u64; lia).
    eapply settle_wf; try done; [apply (sw_ops _ Hwf)|apply settles_ok|apply settles_entries].
  - destruct Hs as [Hc|w t rv changed Hc Ht Hsz Htot]; [apply (sw_entries _ Hwf)|].
    eapply cas_entries_wf; [apply (sw_entries _ Hwf)|done|by apply (admissible_inv ws ms Ha)|done..|lia].
  - destruct Hs; [apply (sw_total _ Hwf)|done].
  - destruct Hs; [apply (sw_size _ Hwf)|lia].
  - destruct Hs; [apply (sw_bytes _ Hwf)|lia].
Qed.
End settled.

Lemma mutate_preserves_wf now id fp durable ws ms st l res st' l' :
  Store_wf st → wf_request now id fp ws ms →
  st_revision st < U64_MAX → st_next_operation_sequence st < U64_MAX →
  native_mutate env now id fp durable ws ms (st, l) = (res, (st', l')) → Store_wf st'.
Proof using Hblake.
  intros Hwf Hreq Hr Hn Hm. apply native_mutate_outcome in Hm.
  destruct Hm; try done. by eapply settles_wf.
Qed.
End store.
