(* ===== verification/KvProps.v ===== *)
(** * KvProps: the contract of [native_mutate]

    The abstract store is a map from keys to entries with a revision and the
    settled operations; [spec_step] is what one call may do to it. *)

From S2P Require Import Prelude Schema Composite Ordered Kv KvDedup KvReplay KvStore KvMutate.

(** ** The abstract store *)

(** What is remembered of a settled operation: fingerprint, revision, results. *)
Definition Settled : Type := Hash * Z * list NativeMutationResult.

Record KvSpec := mkSpec {
  sp_entries : Entries; sp_revision : Z; sp_settled : gmap OperationId Settled
}.

Definition abs_settled (r : NativeDedupResult) : Settled :=
  (dd_fingerprint r, dd_store_revision r, dd_results r).

Definition abs (st : Store) : KvSpec :=
  mkSpec (st_entries st) (st_revision st) (abs_settled <$> st_operations st).

(** Some mutation of the operation succeeded. *)
Definition succeeded (rs : list NativeMutationResult) : Prop :=
  ∃ item, item ∈ rs ∧ mr_status item = Status_Ok.

(** One atomic compare-and-swap batch: all of it or none of it. *)
Inductive cas_outcome (now : Z) (ms : list NativeMutation) (s : KvSpec) :
    Entries → Z → list NativeMutationResult → Prop :=
| cas_applied entries :
    cas_batch (sp_revision s + 1) now ms (sp_entries s) = Some entries →
    cas_outcome now ms s entries (sp_revision s + 1) (map (ok_result (sp_revision s + 1) now) ms)
| cas_rejected :
    cas_batch (sp_revision s + 1) now ms (sp_entries s) = None →
    cas_outcome now ms s (sp_entries s) (sp_revision s)
      (map (λ m, result_for Status_Conflict (sp_entries s !! mutation_key m)) ms).

(** A call with operation [id]: an error changes nothing; a settled operation is
    answered again, never run again; a fresh one runs once and is remembered,
    and of the others the ones that established a live entry still are. *)
Inductive spec_step (now : Z) (id : OperationId) (fp : Hash) (ms : list NativeMutation) (s : KvSpec) :
    result NativeMutationError (Z * list NativeMutationResult) → KvSpec → Prop :=
| spec_refused e : e ≠ OperationConflict → spec_step now id fp ms s (Err e) s
| spec_reused settled :
    sp_settled s !! id = Some settled → settled.1.1 ≠ fp →
    spec_step now id fp ms s (Err OperationConflict) s
| spec_replayed revision results :
    sp_settled s !! id = Some (fp, revision, results) →
    spec_step now id fp ms s (Ok (revision, results)) s
| spec_settled entries revision results settled :
    sp_settled s !! id = None →
    cas_outcome now ms s entries revision results →
    let all := <[id := (fp, revision, results)]> (sp_settled s) in
    settled ⊆ all → settled !! id = Some (fp, revision, results) →
    (∀ x fx rx resx, all !! x = Some (fx, rx, resx) → succeeded resx →
      (∃ k e, entries !! k = Some e ∧ en_modification_revision e = rx) →
      settled !! x = Some (fx, rx, resx)) →
    spec_step now id fp ms s (Ok (revision, results)) (mkSpec entries revision settled).

(** What the caller learns. *)
Definition answer (res : result NativeMutationError NativeCommit) :
    result NativeMutationError (Z * list NativeMutationResult) :=
  match res with
  | Ok c => Ok (cm_store_revision c, cm_results c)
  | Err e => Err e
  end.

Lemma succeeded_has_ok r : succeeded (dd_results r) → has_ok r = true.
Proof.
  intros (item & Hin & Hs). apply existsb_exists. exists item.
  split; [by apply list_elem_of_In|by apply bool_decide_eq_true].
Qed.

(** ** The size of a job *)

Definition mutation_bytes (m : PersistedMutation) : Z :=
  len (pm_key m) + match pm_value m with None => 0 | Some (value, _, _) => len value end.

Lemma foldl_add_mutation_bytes l acc bound :
  Forall (λ m, 0 <= mutation_bytes m <= bound) l → 0 <= acc → acc + bound * len l <= U64_MAX →
  ∃ total, foldl add_mutation_bytes (Some acc) l = Some total ∧ 0 <= total <= acc + bound * len l.
Proof.
  intros Hl. revert acc. induction Hl as [|m l Hm _ IH]; intros acc Ha Hb.
  { exists acc. split; [done|]. unfold len. cbn. lia. }
  rewrite len_cons in *. pose proof (len_nonneg l). pose proof (len_nonneg (pm_key m)).
  unfold mutation_bytes in Hm.
  assert (0 <= match pm_value m with None => 0 | Some (value, _, _) => len value end)
    by (destruct (pm_value m) as [[[v ?] ?]|]; [apply len_nonneg|lia]).
  set (v := match pm_value m with None => 0 | Some _ => _ end) in *.
  destruct (IH (acc + len (pm_key m) + v)) as (total & Ht & Hle); [lia|nia|].
  exists total. split; [|nia]. etrans; [|exact Ht]. cbn [foldl]. f_equal.
  unfold add_mutation_bytes. cbn [mbind option_bind]. unfold checked_add_u64.
  rewrite (proj2 (Z.leb_le _ _)) by nia. cbn [mbind option_bind]. fold v.
  by rewrite (proj2 (Z.leb_le _ _)) by nia.
Qed.

Lemma write_job_bytes_some l n m bound :
  Forall (λ m, 0 <= mutation_bytes m <= bound) l → 0 <= n → 0 <= m →
  bound * len l + n + 16 * m <= U64_MAX → 0 <= bound → is_Some (write_job_bytes l n m).
Proof.
  intros Hl Hn Hm Hb H0. pose proof (len_nonneg l).
  destruct (foldl_add_mutation_bytes l 0 bound Hl) as (total & Ht & Hle); [lia|nia|].
  unfold write_job_bytes. rewrite Ht. cbn [mbind option_bind]. unfold checked_add_u64, checked_mul_u64.
  rewrite (proj2 (Z.leb_le (total + n) _)) by nia. cbn [mbind option_bind].
  rewrite (proj2 (Z.leb_le (m * 16) _)) by nia. cbn [mbind option_bind].
  rewrite (proj2 (Z.leb_le _ _)) by nia. eauto.
Qed.

Lemma changed_keys_spec entries ms k b :
  changed_keys entries ms !! k = Some b → k ∈ map mutation_key ms ∧ b = bool_decide (entries !! k = None).
Proof.
  unfold changed_keys. induction ms as [|m ms IH] using rev_ind; [done|].
  rewrite foldl_app, map_app, elem_of_app. cbn [foldl map].
  intros [[<- <-]|[_ H]]%lookup_insert_Some; [split; [right; by left|done]|].
  destruct (IH H). auto.
Qed.

Lemma changed_keys_complete entries ms k :
  k ∈ map mutation_key ms → is_Some (changed_keys entries ms !! k).
Proof.
  unfold changed_keys. induction ms as [|m ms IH] using rev_ind; [by intros ?%not_elem_of_nil|].
  rewrite foldl_app, map_app, elem_of_app. cbn [foldl map]. intros Hk.
  destruct (decide (mutation_key m = k)) as [<-|]; [rewrite lookup_insert_eq; eauto|].
  rewrite lookup_insert_ne by done. apply IH.
  destruct Hk as [|Hk]; [done|]. by apply list_elem_of_singleton in Hk.
Qed.

Lemma size_changed_keys entries ms : (size (changed_keys entries ms) <= length ms)%nat.
Proof.
  unfold changed_keys. induction ms as [|m ms IH] using rev_ind; [done|].
  rewrite foldl_app, length_app. cbn [foldl length].
  rewrite map_size_insert. case_match; unfold id; lia.
Qed.

Lemma len_evicted entries ops order :
  len (rp_evicted (prune_operation_replays entries ops order)) <= len order.
Proof.
  unfold prune_operation_replays. cbn [rp_evicted]. unfold len.
  rewrite (Permutation_length (sort_keys_perm _)).
  match goal with |- context [elements ?X] => change (length (elements X)) with (size X) end.
  apply inj_le. etrans; [apply size_list_to_set_le|]. apply length_filter.
Qed.

Section refinement.
Context (env : KvEnv) (blake3_hash : list byte → Hash).
Context (Hblake : ∀ v, length (blake3_hash v) = 32%nat).

Lemma lookup_abs_settled (ops : Operations) x :
  (abs_settled <$> ops) !! x = abs_settled <$> ops !! x.
Proof using. apply lookup_fmap. Qed.

Lemma settled_refines now id fp ws ms st entries total revision results persisted changes writer :
  Store_wf env blake3_hash st → wf_request blake3_hash now id fp ws ms →
  admissible env ws ms = true → st_operations st !! id = None → st_revision st < U64_MAX →
  st_next_operation_sequence st < U64_MAX →
  settles env now ms st entries total revision results persisted changes →
  spec_step now id fp ms (abs st) (Ok (revision, results))
    (abs (settled_store id fp ws st entries total revision results changes writer)).
Proof using Hblake.
  intros Hwf Hreq Ha Hf Hr Hn Hs. pose proof (sw_ops _ _ _ Hwf) as Hops.
  pose proof (ow_bounds _ _ _ _ _ Hops) as [Hb1 Hb2]. pose proof Hreq as (_ & Hid & _).
  assert (Hd : wf_dedup (mkDedup fp revision (st_next_operation_sequence st) results ws))
    by by eapply settles_dedup.
  assert (Hle : st_revision st <= revision <= U64_MAX) by by eapply settles_revision.
  assert (Hok : has_ok (mkDedup fp revision (st_next_operation_sequence st) results ws) = true →
            st_revision st < revision) by by eapply settles_ok.
  assert (He : ∀ k e, entries !! k = Some e → st_entries st !! k = Some e
            ∨ (en_modification_revision e = revision
               ∧ has_ok (mkDedup fp revision (st_next_operation_sequence st) results ws) = true))
    by by eapply settles_entries.
  set (r := mkDedup fp revision (st_next_operation_sequence st) results ws) in *.
  set (ops1 := <[id := r]> (st_operations st)).
  assert (Hall : <[id := (fp, revision, results)]> (abs_settled <$> st_operations st) = abs_settled <$> ops1)
    by (subst ops1; by rewrite fmap_insert).
  unfold abs. apply spec_settled; cbn [sp_entries sp_revision sp_settled settled_store
    st_entries st_revision st_operations].
  - by rewrite lookup_fmap, Hf.
  - pose proof (next_revision st ltac:(lia)) as Hnr.
    destruct Hs as [Hc|w t rv changed Hc Ht Hsz Htot]; [|subst rv];
      rewrite Hnr in *; by constructor.
  - rewrite Hall. apply map_subseteq_spec. intros x v.
    rewrite !lookup_fmap, !fmap_Some. intros (rx & Hx & ->). exists rx. split; [|done].
    by eapply (settle_incl _ _ _ _ _ _ _ _ _ Hops Hf Hid Hd).
  - rewrite lookup_fmap. fold r.
    by erewrite (settle_value _ _ _ _ _ _ _ _ _ Hops Hf Hid Hd).
  - rewrite Hall. intros x fx rx resx. rewrite lookup_fmap, fmap_Some. intros (q & Hx & [= -> -> ->]).
    intros Hsuc%succeeded_has_ok (k & e & Hk & Hke). rewrite lookup_fmap. fold r.
    erewrite (settle_pinned _ entries _ _ _ _ _ _ _ Hops Hf Hid Hd); try done.
    apply pins_spec. split; [|done]. apply elem_of_live_revisions. by exists k, e.
Qed.

(** C1: one call of [native_mutate] is one step of an abstract store that is a map
    with atomic compare-and-swap batches and exactly-once operations: an error
    leaves the store as it was; an operation id already settled is answered
    with its recorded outcome (or refused when the fingerprint differs) and
    never run again; a fresh one either applies all its mutations in order at
    the next revision or none of them, reporting the current entries; it is
    remembered, and so is every operation that established a live entry. *)
Theorem native_mutate_refines now id fp durable ws ms st l res st' l' :
  Store_wf env blake3_hash st → wf_request blake3_hash now id fp ws ms →
  st_revision st < U64_MAX → st_next_operation_sequence st < U64_MAX →
  native_mutate env now id fp durable ws ms (st, l) = (res, (st', l')) →
  spec_step now id fp ms (abs st) (answer res) (abs st').
Proof using Hblake.
  intros Hwf Hreq Hr Hn Hm. apply native_mutate_outcome in Hm.
  destruct Hm as [| |previous Hp Hne|previous Hp Heq|].
  - by apply spec_refused.
  - by apply spec_refused.
  - apply (spec_reused _ _ _ _ _ (abs_settled previous)); [|done]. cbn. by rewrite lookup_fmap, Hp.
  - apply spec_replayed. cbn. rewrite lookup_fmap, Hp. cbn. by rewrite <- Heq.
  - by eapply settled_refines.
Qed.

Lemma job_fits now id fp ws ms st entries total revision results persisted changes :
  Store_wf env blake3_hash st → wf_request blake3_hash now id fp ws ms →
  admissible env ws ms = true → st_operations st !! id = None → st_revision st < U64_MAX →
  st_next_operation_sequence st < U64_MAX →
  settles env now ms st entries total revision results persisted changes →
  let r := mkDedup fp revision (st_next_operation_sequence st) results ws in
  is_Some (write_job_bytes persisted (len (encode_native_dedup r))
    (len (rp_evicted (plan_operation_replay entries (st_operations st) (st_operation_order st) id r)))).
Proof using Hblake.
  intros Hwf Hreq Ha Hf Hr Hn Hs r.
  assert (Hd : wf_dedup r) by by eapply settles_dedup.
  assert (Hwf' : Store_wf env blake3_hash
    (settled_store id fp ws st entries total revision results changes false)) by by eapply settles_wf.
  destruct (admissible_inv env ws ms Ha) as (_ & Hlen & _ & _ & Hmv).
  pose proof (ops_bounded _ _ _ _ _ (sw_ops _ _ _ Hwf)) as Hob.
  pose proof (sw_size _ _ _ Hwf) as Hsz. cbn [native_limits kl_max_entries] in Hsz.
  change (kl_max_entries KvLimits_HARD) with 16384 in Hsz.
  change recent_count with 1024%nat in Hob.
  pose proof (len_evicted entries (<[id := r]> (st_operations st)) (st_operation_order st ++ [id])) as Hev.
  rewrite len_app in Hev. change (len [id]) with 1 in Hev.
  pose proof (len_encode_native_dedup r Hd) as He. pose proof Hd as (_ & _ & _ & Hb & _ & Hw & _).
  change MAX_BATCH_ITEMS with 256 in *. change MAX_STAGE_WITNESSES_PER_OPERATION with 16 in Hw.
  assert (Hp : len persisted <= 256 ∧ Forall (λ m, 0 <= mutation_bytes m <= 4194560) persisted).
  { destruct Hs as [|w t rv changed Hc]; [done|]. split.
    - pose proof (size_changed_keys (st_entries st) ms). subst changed. unfold len in *.
      rewrite length_map, length_btree_iter. lia.
    - apply Forall_map, Forall_forall. intros [k b] Hk%elem_of_btree_iter.
      apply changed_keys_spec in Hk as [Hk _]. apply list_elem_of_fmap in Hk as (m & -> & Hm).
      destruct (mutation_valid env m (Hmv m Hm)) as [(_ & Hkl & _) _].
      unfold kv_MAX_KEY_BYTES in Hkl. pose proof (len_nonneg (mutation_key m)).
      unfold mutation_bytes, persisted_mutation. cbn [fst].
      destruct (w !! mutation_key m) as [e|] eqn:Ee; cbn [pm_key pm_value]; [|lia].
      apply (sw_entries _ _ _ Hwf') in Ee as (_ & _ & _ & _ & Hv).
      pose proof (limits_value env). pose proof (len_nonneg (en_value e)). lia. }
  destruct Hp as [Hp1 Hp2]. pose proof (len_nonneg (dd_results r)).
  pose proof (len_nonneg (dd_stage_witnesses r)). pose proof (len_nonneg persisted).
  eapply write_job_bytes_some; [exact Hp2|lia|apply len_nonneg| |lia].
  unfold plan_operation_replay. unfold U64_MAX. unfold len in Hev at 2. lia.
Qed.

(** ** What is refused *)

(** A request within the static limits. *)
Definition within_limits (ws : list NativeStageWitness) (ms : list NativeMutation) : Prop :=
  ms ≠ [] ∧ len ms <= MAX_BATCH_ITEMS ∧ len ws <= MAX_STAGE_WITNESSES_PER_OPERATION
  ∧ (∀ i w, ws !! i = Some w →
       sw_ordinal w = Z.of_nat i ∧ sw_original_handle w ≠ 0 ∧ sw_byte_len w <= value_max env)
  ∧ (∀ m, m ∈ ms → valid_key (mutation_key m)
       ∧ match m with Put _ _ v _ => len v <= kl_max_value_bytes (native_limits env) | Delete _ _ => True end).

Lemma witness_invalid_false ws : ∀ n,
  witness_invalid env n ws = false ↔
  ∀ i w, ws !! i = Some w →
    sw_ordinal w = n + Z.of_nat i ∧ sw_original_handle w ≠ 0 ∧ sw_byte_len w <= value_max env.
Proof using.
  induction ws as [|w ws IH]; intros n; cbn [witness_invalid]; [done|].
  rewrite !orb_false_iff, negb_false_iff, IH. split.
  - intros (((Ho & Hh) & Hb) & Hrest) [|i] w' Hw.
    + injection Hw as <-. lia.
    + destruct (Hrest i w' Hw) as (-> & ? & ?). split_and!; lia || done.
  - intros H. destruct (H 0%nat w eq_refl) as (? & ? & ?). split_and!; [lia..|].
    intros i w' Hw. destruct (H (S i) w' Hw) as (-> & ? & ?). split_and!; lia || done.
Qed.

Lemma mutation_invalid_false m :
  mutation_invalid (native_limits env) m = false ↔
  valid_key (mutation_key m)
  ∧ match m with Put _ _ v _ => len v <= kl_max_value_bytes (native_limits env) | Delete _ _ => True end.
Proof using.
  split; [apply mutation_valid|]. intros [(Hn & Hk & H0) Hv]. unfold mutation_invalid. rewrite !orb_false_iff. split_and!.
  - by apply is_nil_false.
  - apply Z.ltb_ge. exact Hk.
  - apply Bool.not_true_iff_false. intros (b & Hb & E)%existsb_exists. apply H0, list_elem_of_In.
    by apply Byte.byte_dec_bl in E as <-.
  - destruct m; [by apply Z.ltb_ge|done].
Qed.

Lemma admissible_within ws ms : admissible env ws ms = true ↔ within_limits ws ms.
Proof using.
  split.
  - intros (Hn & Hl & Hw & Hwi & Hm)%admissible_inv. unfold within_limits. split_and!; [done..| |].
    + intros i w Hi. apply (proj1 (witness_invalid_false ws 0) Hwi i w Hi).
    + intros m ?%Hm. by apply mutation_invalid_false.
  - intros (Hn & Hl & Hw & Hwi & Hm). unfold admissible. rewrite !andb_true_iff, !negb_true_iff, !orb_false_iff.
    split_and!; [by apply is_nil_false|lia|lia|by apply witness_invalid_false|].
    apply Bool.not_true_iff_false. intros (m & Hin & E)%existsb_exists. apply list_elem_of_In in Hin.
    by rewrite (proj2 (mutation_invalid_false m) (Hm m Hin)) in E.
Qed.

(** What a fresh request would settle as: entries, revision, results and the rows to write. *)
Definition settlement (now : Z) (ms : list NativeMutation) (st : Store) :
    Entries * Z * list NativeMutationResult * list PersistedMutation :=
  match cas_batch (st_revision st + 1) now ms (st_entries st) with
  | Some working =>
      (working, st_revision st + 1, map (ok_result (st_revision st + 1) now) ms,
       map (persisted_mutation working) (btree_iter (changed_keys (st_entries st) ms)))
  | None =>
      (st_entries st, st_revision st,
       map (λ m, result_for Status_Conflict (st_entries st !! mutation_key m)) ms, [])
  end.

(** The size of its job: the rows, the operation's record, and sixteen bytes for each operation
    it evicts. *)
Definition job_bytes (now : Z) (id : OperationId) (fp : Hash) (ws : list NativeStageWitness)
    (ms : list NativeMutation) (st : Store) : Z :=
  let '(entries, revision, results, rows) := settlement now ms st in
  let r := mkDedup fp revision (st_next_operation_sequence st) results ws in
  foldr (λ m n, mutation_bytes m + n) 0 rows + len (encode_native_dedup r)
  + 16 * len (rp_evicted (plan_operation_replay entries (st_operations st) (st_operation_order st) id r)).

Definition no_room (b : WriterBudget) (bytes : Z) : Prop :=
  wb_max_jobs b < wb_jobs b + 1 ∨ wb_max_bytes b < wb_bytes b + bytes.

(** The fields of a budget are [usize]s. *)
Definition budget_usize (b : WriterBudget) : Prop := wb_max_jobs b <= USIZE_MAX ∧ wb_max_bytes b <= USIZE_MAX.

Definition over_limits (now : Z) (ms : list NativeMutation) (st : Store) : Prop :=
  ∃ working, cas_batch (st_revision st + 1) now ms (st_entries st) = Some working
    ∧ (kl_max_entries (native_limits env) < Z.of_nat (size working)
       ∨ kl_max_store_bytes (native_limits env) < bytes_sum (map_to_list working)).

(** Why a request is refused. *)
Definition refused (now : Z) (id : OperationId) (fp : Hash) (ws : list NativeStageWitness)
    (ms : list NativeMutation) (st : Store) (l : WriterLink) (e : NativeMutationError) : Prop :=
  match e with
  | Mutation_Invalid => ~ within_limits ws ms
  | OperationConflict =>
      within_limits ws ms ∧ ∃ previous, st_operations st !! id = Some previous ∧ dd_fingerprint previous ≠ fp
  | Mutation_ResourceExhausted =>
      within_limits ws ms ∧ st_operations st !! id = None
      ∧ (over_limits now ms st ∨ st_writer st = true ∧ no_room (wl_budget l) (job_bytes now id fp ws ms st))
  end.

Lemma try_reserve_none b bytes : budget_usize b → WriterBudget_try_reserve b bytes = None ↔ no_room b bytes.
Proof using.
  unfold budget_usize, no_room, WriterBudget_try_reserve, checked_add_u64, USIZE_MAX, U64_MAX. intros [Hj Hb].
  destruct (Z.leb_spec (wb_jobs b + 1) 18446744073709551615); cbn [mbind option_bind]; [|split; [lia|done]].
  destruct (Z.leb_spec (wb_bytes b + bytes) 18446744073709551615); cbn [mbind option_bind]; [|split; [lia|done]].
  destruct (_ || _) eqn:E; split; done || lia.
Qed.

Lemma foldl_mutation_bytes_total l : ∀ acc total,
  foldl add_mutation_bytes (Some acc) l = Some total → total = acc + foldr (λ m n, mutation_bytes m + n) 0 l.
Proof using.
  induction l as [|m l IH]; intros acc total E; cbn [foldl foldr] in *; [injection E as <-; lia|].
  destruct (add_mutation_bytes (Some acc) m) as [acc'|] eqn:Em.
  - apply IH in E as ->. unfold add_mutation_bytes in Em. cbn [mbind option_bind] in Em.
    destruct (checked_add_u64 acc _) as [t|] eqn:E1; [|done]. cbn [mbind option_bind] in Em.
    apply checked_add_u64_some in E1 as [-> _], Em as [-> _]. unfold mutation_bytes. lia.
  - exfalso. clear -E. induction l; done.
Qed.

Lemma write_job_bytes_total l n m total :
  write_job_bytes l n m = Some total → total = foldr (λ m n, mutation_bytes m + n) 0 l + n + 16 * m.
Proof using.
  unfold write_job_bytes. destruct (foldl _ _ l) as [t|] eqn:Et; [|done]. cbn [mbind option_bind].
  apply foldl_mutation_bytes_total in Et as ->. destruct (checked_add_u64 _ n) as [t1|] eqn:E1; [|done]. cbn [mbind option_bind].
  apply checked_add_u64_some in E1 as [-> _]. unfold checked_mul_u64. destruct (_ <=? _); [|done]. cbn [mbind option_bind].
  intros [-> _]%checked_add_u64_some. lia.
Qed.

(** A settlement goes through unless a writer is attached whose budget has no room for it. *)
Lemma settle_refused id fp durable ws st l entries total revision results persisted changes bytes e :
  let r := mkDedup fp revision (st_next_operation_sequence st) results ws in
  write_job_bytes persisted (len (encode_native_dedup r))
    (len (rp_evicted (plan_operation_replay entries (st_operations st) (st_operation_order st) id r))) = Some bytes →
  (settle id fp durable ws st l entries total revision results persisted changes).1 = Err e ↔
  e = Mutation_ResourceExhausted ∧ st_writer st = true ∧ WriterBudget_try_reserve (wl_budget l) bytes = None.
Proof using.
  intros r Hj. unfold settle. cbv zeta. fold r. rewrite Hj. unfold reserve_write. destruct (st_writer st) eqn:Hw; cycle 1.
  { destruct (deliver _ _ _ _) as [[queued w] l2]. cbn. split; [done|]. by intros (_ & ? & _). }
  destruct (WriterBudget_try_reserve _ _) as [[permit b]|]; [destruct (deliver _ _ _ _) as [[queued w] l2]|]; cbn; naive_solver.
Qed.

Lemma settle_refused_iff now id fp durable ws ms st l e :
  Store_wf env blake3_hash st → wf_request blake3_hash now id fp ws ms → admissible env ws ms = true → st_operations st !! id = None →
  st_revision st < U64_MAX → st_next_operation_sequence st < U64_MAX → budget_usize (wl_budget l) → ~ over_limits now ms st →
  ∀ entries total revision results persisted changes,
  settles env now ms st entries total revision results persisted changes →
  (settle id fp durable ws st l entries total revision results persisted changes).1 = Err e ↔
  e = Mutation_ResourceExhausted ∧ st_writer st = true ∧ no_room (wl_budget l) (job_bytes now id fp ws ms st).
Proof using Hblake.
  intros Hwf Hreq Ha Hf Hr Hn Hbud Hov entries total revision results persisted changes Hs.
  edestruct (job_fits now id fp ws ms) as [bytes Hfit]; [done..|]. cbn zeta in Hfit. rewrite settle_refused by exact Hfit.
  rewrite try_reserve_none by done. replace bytes with (job_bytes now id fp ws ms st); [done|].
  apply write_job_bytes_total in Hfit as ->. pose proof (ow_bounds _ _ _ _ _ (sw_ops _ _ _ Hwf)) as [Hb _].
  unfold job_bytes, settlement. pose proof (next_revision st ltac:(lia)) as Hnr.
  destruct Hs as [Hc|w t rv changed Hc Ht Hsz Htot]; [|subst rv]; rewrite Hnr in *; rewrite Hc; done.
Qed.

(** C10: exactly which requests are refused, and with what: [Invalid] iff the request is
    outside the static limits; [OperationConflict] iff it is within them and its operation id
    was settled with another fingerprint; [ResourceExhausted] iff it is within them, fresh, and
    either its batch applies and the result would exceed the store's limits, or a writer is
    attached whose budget has no room for one more job, or for the bytes of this request's job.
    A refusal changes neither the store nor the writer's queue. *)
Theorem mutation_refused_only_for now id fp durable ws ms st l :
  Store_wf env blake3_hash st → wf_request blake3_hash now id fp ws ms →
  st_revision st < U64_MAX → st_next_operation_sequence st < U64_MAX → budget_usize (wl_budget l) →
  ∀ e, ((native_mutate env now id fp durable ws ms (st, l)).1 = Err e ↔ refused now id fp ws ms st l e)
     ∧ ((native_mutate env now id fp durable ws ms (st, l)).1 = Err e → (native_mutate env now id fp durable ws ms (st, l)).2 = (st, l)).
Proof using Hblake.
  intros Hwf Hreq Hr Hn Hbud e. pose proof (ow_bounds _ _ _ _ _ (sw_ops _ _ _ Hwf)) as [Hb _]. split; cycle 1.
  { destruct (native_mutate env now id fp durable ws ms (st, l)) as [res [st' l']] eqn:Hm. cbn. intros ->.
    apply native_mutate_outcome in Hm. by inversion Hm. }
  rewrite native_mutate_eq. pose proof (admissible_within ws ms) as Hadm.
  destruct (admissible env ws ms) eqn:Ha; cbn [negb]; cycle 1.
  { assert (~ within_limits ws ms) as Hno by (intros ?%Hadm; done). destruct e; cbn; naive_solver. }
  assert (within_limits ws ms) as Hin by by apply Hadm.
  destruct (st_operations st !! id) as [previous|] eqn:Ho.
  { case_bool_decide as Hfp; cbn [negb]; destruct e; cbn; naive_solver. }
  cbv zeta. rewrite next_revision by lia.
  destruct (cas_batch (st_revision st + 1) now ms (st_entries st)) as [working|] eqn:Ec; cycle 1.
  - assert (~ over_limits now ms st) as Hov by (intros (w & Hw & _); congruence).
    rewrite mutate_conflict_settle, (settle_refused_iff now id fp durable ws ms st l e); [|done..|].
    + destruct e; cbn; naive_solver.
    + constructor. by rewrite next_revision by lia.
  - rewrite mutate_commit_settle. assert (over_limits now ms st ↔ kl_max_entries (native_limits env) < Z.of_nat (size working)
       ∨ kl_max_store_bytes (native_limits env) < bytes_sum (map_to_list working)) as Hov.
    { unfold over_limits. split; [intros (w & Hw & ?); congruence|]. intros ?. by exists working. }
    assert (kl_max_store_bytes (native_limits env) <= 268435456) as Hmax
      by (cbn [native_limits kl_max_store_bytes KvLimits_HARD]; unfold kv_MAX_STORE_BYTES; lia).
    destruct (entries_bytes working) as [total|] eqn:Et; cycle 1.
    { apply entries_bytes_none in Et. assert (over_limits now ms st) by (apply Hov; unfold U64_MAX in Et; lia). destruct e; cbn; naive_solver. }
    pose proof Et as [Htot _]%entries_bytes_spec. destruct (_ || _) eqn:El.
    { assert (over_limits now ms st) by (apply Hov; lia). destruct e; cbn; naive_solver. }
    assert (~ over_limits now ms st) as Hnot by (rewrite Hov; lia).
    rewrite (settle_refused_iff now id fp durable ws ms st l e); [|done..|].
    + destruct e; cbn; naive_solver.
    + pose proof (settles_commit env now ms st working total) as Hs. cbv zeta in Hs. rewrite next_revision in Hs by lia. apply Hs; done || lia.
Qed.
End refinement.
