(* ===== verification/KvWatch.v ===== *)
(** * KvWatch: a prefix watch sees exactly the store

    The range scan of [native_watch] returns the entries under the prefix, and
    a subscriber that applies the changes it receives to its snapshot always
    holds the store's current entries under that prefix. *)

From S2P Require Import Prelude Schema Composite Ordered Kv KvDedup KvReplay KvStore KvMutate KvProps.

(** ** The keys under a prefix form an interval *)

Lemma starts_with_spec s p : starts_with s p = true ↔ ∃ rest, s = p ++ rest.
Proof.
  unfold starts_with. rewrite bool_decide_eq_true. split.
  - intros E. exists (drop (length p) s). by rewrite <- E at 1; rewrite take_drop.
  - intros [rest ->]. apply take_app_length.
Qed.

Lemma lex_prefix_le (p rest : list byte) : key_le p (p ++ rest).
Proof.
  unfold key_le. cbn. induction p as [|a p IH]; [done|]. cbn.
  by rewrite bool_decide_eq_true_2.
Qed.

Lemma lex_prefix_between (p k rest : list byte) :
  key_le p k → key_le k (p ++ rest) → ∃ rest', k = p ++ rest'.
Proof.
  unfold key_le. cbn. revert k. induction p as [|a p IH]; intros k; [by exists k|].
  destruct k as [|b k]; cbn; [done|].
  destruct (decide (a = b)) as [<-|Hne].
  - rewrite !bool_decide_eq_true_2 by done. intros H1 H2.
    destruct (IH k H1 H2) as [rest' ->]. by exists rest'.
  - rewrite !bool_decide_eq_false_2 by congruence. intros H1 H2.
    destruct Hne. apply byte_val_inj. lia.
Qed.

(** The bindings whose key starts with the prefix. *)
Definition under (prefix : Key) (p : Key * Entry) : Prop := starts_with p.1 prefix = true.

#[global] Instance under_dec prefix p : Decision (under prefix p).
Proof. unfold under. apply _. Defined.

Lemma filter_none {A} (P : A → Prop) `{!∀ x, Decision (P x)} (l : list A) :
  (∀ x, x ∈ l → ¬ P x) → filter P l = [].
Proof.
  intros HP. induction l as [|x l IH]; [done|].
  rewrite filter_cons_False by set_solver. set_solver.
Qed.

Lemma prefix_scan prefix (l : list (Key * Entry)) :
  StronglySorted binding_le l →
  take_while (λ p, starts_with p.1 prefix) (skip_while (λ p, key_ltb p.1 prefix) l)
  = filter (under prefix) l.
Proof.
  assert (Hge : ∀ k : Key, starts_with k prefix = true → key_le prefix k).
  { intros k [rest ->]%starts_with_spec. apply lex_prefix_le. }
  intros Hs. induction Hs as [|[k e] l Hs IH Hall]; [done|]. cbn [skip_while fst].
  destruct (key_ltb k prefix) eqn:Elt.
  - rewrite IH, filter_cons_False; [done|]. unfold under. cbn. intros Hk%Hge.
    apply key_ltb_false in Hk. congruence.
  - clear IH. apply key_ltb_false in Elt. revert k e Elt Hall.
    induction Hs as [|[k' e'] l Hs IH Hall']; intros k e Elt Hall; cbn [take_while fst].
    { destruct (starts_with k prefix) eqn:E; [by rewrite filter_cons_True|by rewrite filter_cons_False
        by (unfold under; cbn; congruence)]. }
    assert (Hle : key_le k k') by (inversion Hall; done).
    destruct (starts_with k prefix) eqn:E.
    + rewrite filter_cons_True by done. f_equal. apply IH; [by trans k|done].
    + rewrite filter_cons_False by (unfold under; cbn; congruence). symmetry.
      apply filter_none. intros [x ex] Hx. unfold under. cbn. intros [rest ->]%starts_with_spec.
      assert (Hkx : key_le k (prefix ++ rest)).
      { by apply (proj1 (Forall_forall _ _) Hall) in Hx. }
      destruct (lex_prefix_between prefix k rest Elt Hkx) as [rest' ->].
      apply Bool.not_true_iff_false in E. apply E, starts_with_spec. eauto.
Qed.

Lemma watch_entries st prefix :
  nw_entries (native_watch st prefix)
  = map (λ p, native_entry p.1 p.2) (filter (under prefix) (btree_iter (st_entries st))).
Proof.
  unfold native_watch, range_from. cbn [nw_entries]. by rewrite prefix_scan by apply btree_iter_sorted.
Qed.

(** ** A subscriber *)

(** What the subscriber holds, by key. *)
Definition mirror (l : list NativeEntry) : gmap Key NativeEntry :=
  list_to_map (map (λ e, (ne_key e, e)) l).

Definition record_key (r : NativeChangeRecord) : Key :=
  match r with Upsert e _ => ne_key e | Remove k _ => k end.

(** Applying one change record, the ones outside the prefix being skipped. *)
Definition follow_record (prefix : Key) (m : gmap Key NativeEntry) (r : NativeChangeRecord) :
    gmap Key NativeEntry :=
  if starts_with (record_key r) prefix then
    match r with Upsert e _ => <[ne_key e := e]> m | Remove k _ => delete k m end
  else m.

Definition follow (prefix : Key) (changes : list NativeChange) (m : gmap Key NativeEntry) :
    gmap Key NativeEntry :=
  foldl (λ m c, foldl (follow_record prefix) m (nc_records c)) m changes.

(** Every change starts at the revision the one before it ended at. *)
Fixpoint chained (revision : Z) (changes : list NativeChange) (last : Z) : Prop :=
  match changes with
  | [] => revision = last
  | c :: rest => nc_from_revision c = revision ∧ chained (nc_to_revision c) rest last
  end.

(** What a subscriber to [prefix] should hold of a store. *)
Definition view (prefix : Key) (entries : Entries) (k : Key) : option NativeEntry :=
  if starts_with k prefix then native_entry k <$> entries !! k else None.

Lemma lookup_mirror st prefix k :
  mirror (nw_entries (native_watch st prefix)) !! k = view prefix (st_entries st) k.
Proof.
  rewrite watch_entries. unfold mirror, view. rewrite map_map. cbn.
  set (l := filter (under prefix) (btree_iter (st_entries st))).
  assert (Hnd : NoDup (map (λ p : Key * Entry, (p.1, native_entry p.1 p.2)) l).*1).
  { rewrite <- list_fmap_compose. subst l.
    eapply sublist_NoDup; [apply (btree_iter_nodup (st_entries st))|].
    apply (sublist_map fst), sublist_filter. }
  apply option_eq. intros v. rewrite <- elem_of_list_to_map by done.
  rewrite list_elem_of_fmap. split.
  - intros ([k' e] & [= -> ->] & [Hu Hin]%list_elem_of_filter). cbn. unfold under in Hu. cbn in Hu.
    apply elem_of_btree_iter in Hin. by rewrite Hu, Hin.
  - destruct (starts_with k prefix) eqn:Hu; [|done]. intros (e & He & ->)%fmap_Some.
    exists (k, e). split; [done|]. apply list_elem_of_filter. split; [done|].
    by apply elem_of_btree_iter.
Qed.

(** Records for distinct keys, each saying what [working] holds. *)
Lemma follow_records prefix working revision changed m k :
  NoDup changed.*1 →
  foldl (follow_record prefix) m (map (change_record working revision) changed) !! k
  = if bool_decide (k ∈ changed.*1) && starts_with k prefix
    then native_entry k <$> working !! k else m !! k.
Proof.
  revert m. induction changed as [|[k' b] changed IH]; intros m; [done|].
  cbn [map foldl fmap list_fmap]. intros [Hn Hnd]%NoDup_cons. rewrite IH by done. clear IH.
  change (list_fmap _ _ fst changed) with changed.*1 in *. cbn [fst] in *.
  destruct (decide (k = k')) as [->|Hne].
  - rewrite (bool_decide_eq_false_2 (k' ∈ changed.*1)) by done.
    rewrite bool_decide_eq_true_2 by set_solver. cbn [andb].
    unfold change_record. cbn [fst]. destruct (working !! k') as [e|]; unfold follow_record; cbn;
      destruct (starts_with k' prefix); try done; [apply lookup_insert_eq|apply lookup_delete_eq].
  - rewrite (bool_decide_ext (k ∈ k' :: changed.*1) (k ∈ changed.*1)) by set_solver.
    assert (follow_record prefix m (change_record working revision (k', b)) !! k = m !! k) as ->; [|done].
    unfold change_record. cbn [fst]. destruct (working !! k') as [e|]; unfold follow_record; cbn;
      destruct (starts_with k' prefix); try done;
      [by rewrite lookup_insert_ne|by rewrite lookup_delete_ne].
Qed.

(** ** Following the store *)

(** One call of [native_mutate], whatever the state of the writer's queue. *)
Definition mutate_step (env : KvEnv) (st st' : Store) : Prop :=
  ∃ now id fp durable ws ms l res l',
    native_mutate env now id fp durable ws ms (st, l) = (res, (st', l')).

Definition follows (st st' : Store) (cs : list NativeChange) : Prop :=
  st_native_changes st' = st_native_changes st ++ cs
  ∧ chained (st_revision st) cs (st_revision st')
  ∧ ∀ prefix m, (∀ k, m !! k = view prefix (st_entries st) k) →
      ∀ k, follow prefix cs m !! k = view prefix (st_entries st') k.

Lemma follows_refl st : follows st st [].
Proof. split_and!; [by rewrite app_nil_r|done|done]. Qed.

Lemma chained_app r1 r2 r3 c1 c2 :
  chained r1 c1 r2 → chained r2 c2 r3 → chained r1 (c1 ++ c2) r3.
Proof. revert r1. induction c1 as [|c c1 IH]; intros r1; cbn; [by intros ->|]. intros [? ?] ?. auto. Qed.

Lemma follows_trans st1 st2 st3 c1 c2 :
  follows st1 st2 c1 → follows st2 st3 c2 → follows st1 st3 (c1 ++ c2).
Proof.
  intros (E1 & C1 & F1) (E2 & C2 & F2). split_and!.
  - by rewrite E2, E1, app_assoc.
  - by eapply chained_app.
  - intros prefix m Hm k. unfold follow. rewrite foldl_app. apply F2. by apply F1.
Qed.

Lemma mutate_follows env st st' : mutate_step env st st' → ∃ cs, follows st st' cs.
Proof.
  intros (now & id & fp & durable & ws & ms & l & res & l' & Hm).
  apply native_mutate_outcome in Hm.
  destruct Hm as [| | | |entries total rv rs ps cs queued writer l' Ha Hf Hs Hd];
    [exists []; apply follows_refl..|].
  destruct Hs as [Hc|working total revision changed Hc Ht Hsz Htot].
  { exists []. split_and!; done. }
  eexists. split_and!; [done|cbn; done|]. intros prefix m Hk k. unfold follow. cbn [foldl nc_records].
  rewrite follow_records by apply btree_iter_nodup.
  assert (Hin : k ∈ changed.*1 ↔ k ∈ map mutation_key ms).
  { subst changed. rewrite list_elem_of_fmap. split.
    - intros ([k' b] & -> & Hb%elem_of_btree_iter). by apply changed_keys_spec in Hb as [? _].
    - intros Hk'. destruct (changed_keys_complete (st_entries st) ms k Hk') as [b Hb].
      exists (k, b). split; [done|]. by apply elem_of_btree_iter. }
  rewrite (bool_decide_ext _ _ Hin), Hk. unfold view. cbn [settled_store st_entries].
  destruct (starts_with k prefix); [|by rewrite andb_false_r].
  case_bool_decide as Hb; [done|]. cbn [andb]. by rewrite (cas_batch_frame _ _ _ _ _ _ Hc Hb).
Qed.

(** C7: a watch and its changes follow the store: after any sequence of mutation
    calls, the changes sent since the watch was opened are chained from the
    watch's revision to the store's current one, and applying the records
    under the watched prefix to the watch's snapshot gives, key by key,
    exactly the current entries under that prefix. *)
Theorem watch_follows_store env st st' prefix :
  rtc (mutate_step env) st st' →
  let w := native_watch st prefix in
  let received := drop (nw_changes w) (st_native_changes st') in
  chained (nw_revision w) received (native_revision st')
  ∧ ∀ k, follow prefix received (mirror (nw_entries w)) !! k
         = if starts_with k prefix then native_get st' k else None.
Proof.
  intros Hrun. assert (∃ cs, follows st st' cs) as (cs & Hlog & Hch & Hfol).
  { induction Hrun as [st|st1 st2 st3 Hstep _ [c2 Hc2]]; [exists []; apply follows_refl|].
    destruct (mutate_follows env st1 st2 Hstep) as [c1 Hc1]. exists (c1 ++ c2).
    by eapply follows_trans. }
  cbn zeta. cbn [native_watch nw_changes nw_revision]. rewrite Hlog, drop_app_length.
  split; [done|]. intros k. rewrite Hfol by (intros; apply lookup_mirror).
  unfold view, native_get. destruct (starts_with k prefix); [|done].
  by destruct (st_entries st' !! k).
Qed.
