(* ===== verification/KvRetain.v ===== *)
(** * KvRetain: loading the operation table keeps what the store had retained

    The load visits the rows in key order and keeps a bounded heap of recent
    operations and the newest one per live revision. On the table a store
    left behind, that selects every row. *)

From S2P Require Import Prelude Schema Composite Ordered Kv KvDedup KvReplay KvStore KvWriter.

(** ** Iterating a mapped table *)

Lemma StronglySorted_map {A B} (R : relation A) (Q : relation B) (f : A → B) l :
  (∀ x y, R x y → Q (f x) (f y)) → StronglySorted R l → StronglySorted Q (map f l).
Proof.
  intros Hf. induction 1 as [|x l _ IH Hx]; cbn; constructor; [done|].
  apply Forall_map. eapply Forall_impl; [done|]. auto.
Qed.

Lemma StronglySorted_unmap {A B} (Q : relation B) (f : A → B) (l : list A) :
  StronglySorted Q (map f l) → StronglySorted (λ x y, Q (f x) (f y)) l.
Proof.
  induction l as [|x l IH]; cbn; [constructor|]. inversion 1 as [|? ? Hs Hx]; subst.
  constructor; [by apply IH|]. apply Forall_forall. intros y Hy.
  apply (proj1 (Forall_forall _ _) Hx).
  apply list_elem_of_fmap. eauto.
Qed.

Lemma btree_iter_fmap `{KeyOrder K, Countable K} {A B} (f : A → B) (m : gmap K A) :
  btree_iter (f <$> m) = map (λ p, (p.1, f p.2)) (btree_iter m).
Proof.
  apply btree_iter_unique.
  - eapply StronglySorted_map; [|apply btree_iter_sorted]. done.
  - rewrite <- list_fmap_compose. apply (btree_iter_nodup m).
  - intros k b. rewrite list_elem_of_fmap, lookup_fmap, fmap_Some. split.
    + intros ([k' a] & [= -> ->] & Hin%elem_of_btree_iter). by exists a.
    + intros (a & Ha & ->). exists (k, a). split; [done|]. by apply elem_of_btree_iter.
Qed.

(** The smallest key of a map is the one [pop_first] takes. *)
Lemma btree_pop_first_spec `{KeyOrder K, Countable K} {A} (m : gmap K A) :
  m ≠ ∅ → ∃ k, is_Some (m !! k) ∧ btree_pop_first m = delete k m
               ∧ ∀ k', is_Some (m !! k') → key_le k k'.
Proof.
  intros Hm. unfold btree_pop_first. destruct (btree_iter m) as [|[k a] l] eqn:E.
  - destruct Hm. apply map_eq. intros k. rewrite lookup_empty. destruct (m !! k) as [a|] eqn:Ha; [|done].
    apply elem_of_btree_iter in Ha. rewrite E in Ha. by apply not_elem_of_nil in Ha.
  - exists k. split; [exists a; apply elem_of_btree_iter; rewrite E; left|]. split; [done|].
    intros k' [a' Ha']. apply elem_of_btree_iter in Ha'.
    pose proof (btree_iter_sorted m) as Hs. rewrite E in Ha', Hs. apply elem_of_cons in Ha' as [[= -> _]|Hin].
    + apply key_le_refl.
    + inversion Hs as [|? ? _ Hall]; subst. by apply (proj1 (Forall_forall _ _) Hall) in Hin.
Qed.

(** ** The load loop *)

Abbreviation Row := (OperationId * NativeDedupResult)%type (only parsing).

Definition row_key (p : Row) : Z * OperationId := (dd_settlement_sequence p.2, p.1).

Definition retain_rows (live : gset Z) (l : list Row) : RetainState :=
  foldl (λ s p, retain_operation_candidate live s p.1 p.2) (mkRetainState ∅ ∅ 1 0) l.

Record Retained_ok (live : gset Z) (s : RetainState) (l : list Row) : Prop := {
  ro_recent k r : rt_recent s !! k = Some r → (k.2, r) ∈ l ∧ k = row_key (k.2, r);
  ro_size : (size (rt_recent s) <= recent_count)%nat;
  ro_recent_all p : p ∈ l →
    rt_recent s !! row_key p = Some p.2
    ∨ (size (rt_recent s) = recent_count
       ∧ ∀ k, is_Some (rt_recent s !! k) → key_ltb (row_key p) k = true);
  ro_pinned rev p : rt_pinned s !! rev = Some p →
    p ∈ l ∧ operation_pins_live_entry p.2 live = true ∧ dd_store_revision p.2 = rev;
  ro_pinned_all p : p ∈ l → operation_pins_live_entry p.2 live = true →
    is_Some (rt_pinned s !! dd_store_revision p.2);
  ro_max_revision : 1 <= rt_maximum_store_revision s
    ∧ (∀ p, p ∈ l → dd_store_revision p.2 <= rt_maximum_store_revision s)
    ∧ (rt_maximum_store_revision s = 1
       ∨ ∃ p, p ∈ l ∧ dd_store_revision p.2 = rt_maximum_store_revision s);
  ro_max_sequence : 0 <= rt_maximum_sequence s
    ∧ (∀ p, p ∈ l → dd_settlement_sequence p.2 <= rt_maximum_sequence s)
    ∧ (rt_maximum_sequence s = 0
       ∨ ∃ p, p ∈ l ∧ dd_settlement_sequence p.2 = rt_maximum_sequence s)
}.

Lemma key_le_ltb_trans `{KeyOrder K} (x y z : K) :
  key_ltb x y = true → key_le y z → key_ltb x z = true.
Proof.
  rewrite !key_ltb_spec. intros [Hxy Hne] Hyz. split; [by trans y|].
  intros ->. destruct Hne. by apply (anti_symm key_le).
Qed.

(** The heap of recent rows after one more row. *)
Lemma retain_recent live s l id r s' :
  Retained_ok live s l → id ∉ l.*1 → s' = retain_operation_candidate live s id r →
  (∀ k r', rt_recent s' !! k = Some r' → (k.2, r') ∈ l ++ [(id, r)] ∧ k = row_key (k.2, r'))
  ∧ (size (rt_recent s') <= recent_count)%nat
  ∧ ∀ p, p ∈ l ++ [(id, r)] →
      rt_recent s' !! row_key p = Some p.2
      ∨ (size (rt_recent s') = recent_count
         ∧ ∀ k, is_Some (rt_recent s' !! k) → key_ltb (row_key p) k = true).
Proof.
  intros Hok Hid ->. cbn [retain_operation_candidate rt_recent].
  set (kx := row_key (id, r)). change (dd_settlement_sequence r, id) with kx.
  set (recent1 := <[kx := r]> (rt_recent s)).
  assert (Hfresh : rt_recent s !! kx = None).
  { destruct (rt_recent s !! kx) as [r'|] eqn:E; [|done]. apply (ro_recent _ _ _ Hok) in E as [Hin _].
    destruct Hid. apply list_elem_of_fmap. by exists (id, r'). }
  assert (Hsz : size recent1 = S (size (rt_recent s))) by by apply map_size_insert_None.
  pose proof (ro_size _ _ _ Hok) as Hs.
  assert (Hsound : ∀ k r', recent1 !! k = Some r' → (k.2, r') ∈ l ++ [(id, r)] ∧ k = row_key (k.2, r')).
  { intros k r' [[<- <-]|[_ H]]%lookup_insert_Some.
    - subst kx. unfold row_key. cbn. split; [|done]. apply elem_of_app. right. by left.
    - apply (ro_recent _ _ _ Hok) in H as [? ?]. split; [apply elem_of_app; by left|done]. }
  destruct (Z.ltb_spec MAX_RECENT_OPERATION_REPLAYS (Z.of_nat (size recent1))) as [Hgt|Hle].
  - assert (Hfull : size (rt_recent s) = recent_count)
      by (unfold recent_count in *; lia).
    destruct (btree_pop_first_spec recent1) as (km & [rm Hkm] & -> & Hmin).
    { intros E. rewrite E, map_size_empty in Hsz. lia. }
    assert (Hsz2 : size (delete km recent1) = recent_count).
    { rewrite map_size_delete_Some by eauto. lia. }
    split_and!.
    + intros k r' [_ H]%lookup_delete_Some. by apply Hsound.
    + lia.
    + intros p Hp. destruct (decide (row_key p = km)) as [Hpm|Hpm].
      * right. split; [done|]. intros k [r' [Hne H]%lookup_delete_Some].
        rewrite Hpm. apply key_ltb_spec. split; [apply Hmin; eauto|done].
      * rewrite lookup_delete_ne by done. apply elem_of_app in Hp as [Hp|Hp].
        -- destruct (ro_recent_all _ _ _ Hok p Hp) as [Hin|[_ Hall]].
           ++ left. subst recent1. rewrite lookup_insert_ne; [done|].
              intros E. rewrite <- E in Hin. congruence.
           ++ right. split; [done|]. intros k [r' [Hne H]%lookup_delete_Some].
              apply lookup_insert_Some in H as [[<- <-]|[_ H]]; [|by apply Hall; eauto].
              apply (key_le_ltb_trans _ km); [|by apply Hmin; exists r; apply lookup_insert_eq].
              apply lookup_insert_Some in Hkm as [[<- _]|[_ Hkm]]; [done|]. apply Hall. eauto.
        -- apply list_elem_of_singleton in Hp as ->. left. apply lookup_insert_eq.
  - assert (Hroom : (size (rt_recent s) < recent_count)%nat) by (unfold recent_count in *; lia).
    split_and!; [done|lia|]. intros p Hp. apply elem_of_app in Hp as [Hp|Hp].
    + destruct (ro_recent_all _ _ _ Hok p Hp) as [Hin|[Heq _]]; [left|lia].
      subst recent1. rewrite lookup_insert_ne; [done|]. intros E. rewrite <- E in Hin. congruence.
    + apply list_elem_of_singleton in Hp as ->. left. apply lookup_insert_eq.
Qed.

Lemma retain_pinned live s l id r s' :
  Retained_ok live s l → s' = retain_operation_candidate live s id r →
  (∀ rev p, rt_pinned s' !! rev = Some p →
    p ∈ l ++ [(id, r)] ∧ operation_pins_live_entry p.2 live = true ∧ dd_store_revision p.2 = rev)
  ∧ ∀ p, p ∈ l ++ [(id, r)] → operation_pins_live_entry p.2 live = true →
      is_Some (rt_pinned s' !! dd_store_revision p.2).
Proof.
  intros Hok ->. cbn [retain_operation_candidate rt_pinned].
  assert (Hold : ∀ rev p, rt_pinned s !! rev = Some p →
    p ∈ l ++ [(id, r)] ∧ operation_pins_live_entry p.2 live = true ∧ dd_store_revision p.2 = rev).
  { intros rev p (? & ? & ?)%(ro_pinned _ _ _ Hok). split_and!; [|done..]. apply elem_of_app. by left. }
  assert (Hins : operation_pins_live_entry r live = true → ∀ rev p,
    <[dd_store_revision r := (id, r)]> (rt_pinned s) !! rev = Some p →
    p ∈ l ++ [(id, r)] ∧ operation_pins_live_entry p.2 live = true ∧ dd_store_revision p.2 = rev).
  { intros Hp rev p [[<- <-]|[_ H]]%lookup_insert_Some; [|by apply Hold].
    split_and!; [|done..]. apply elem_of_app. right. by left. }
  assert (Hall : ∀ p, p ∈ l → operation_pins_live_entry p.2 live = true →
    is_Some (<[dd_store_revision r := (id, r)]> (rt_pinned s) !! dd_store_revision p.2)).
  { intros p Hp Hpin. destruct (decide (dd_store_revision r = dd_store_revision p.2)) as [->|].
    - rewrite lookup_insert_eq. eauto.
    - rewrite lookup_insert_ne by done. by apply (ro_pinned_all _ _ _ Hok). }
  destruct (operation_pins_live_entry r live) eqn:Ep; cbn zeta.
  - destruct (rt_pinned s !! dd_store_revision r) as [[cid cur]|] eqn:Ec; [destruct (key_ltb _ _)|];
      (split; [auto|]); intros p [Hp|Hp%list_elem_of_singleton]%elem_of_app Hpin; auto;
      try subst p; cbn [snd]; rewrite ?lookup_insert_eq; eauto.
    by apply (ro_pinned_all _ _ _ Hok).
  - split; [done|]. intros p [Hp|Hp%list_elem_of_singleton]%elem_of_app Hpin;
      [by apply (ro_pinned_all _ _ _ Hok)|subst p; cbn in Hpin; congruence].
Qed.

Lemma retain_max (f : NativeDedupResult → Z) (l : list Row) (m m0 : Z) id r :
  m0 <= m ∧ (∀ p, p ∈ l → f p.2 <= m) ∧ (m = m0 ∨ ∃ p, p ∈ l ∧ f p.2 = m) →
  m0 <= Z.max m (f r) ∧ (∀ p, p ∈ l ++ [(id, r)] → f p.2 <= Z.max m (f r))
  ∧ (Z.max m (f r) = m0 ∨ ∃ p, p ∈ l ++ [(id, r)] ∧ f p.2 = Z.max m (f r)).
Proof.
  intros (H0 & Hall & Hex). split_and!; [lia| |].
  - intros p [Hp%Hall|Hp%list_elem_of_singleton]%elem_of_app; [|subst p; cbn]; lia.
  - destruct (Z.max_spec m (f r)) as [[Hlt ->]|[Hge ->]].
    + right. exists (id, r). split; [|done]. apply elem_of_app. right. by left.
    + destruct Hex as [->|(p & Hp & Hf)]; [by left|right]. exists p.
      split; [apply elem_of_app; by left|done].
Qed.

Lemma retain_rows_ok live l : NoDup l.*1 → Retained_ok live (retain_rows live l) l.
Proof.
  induction l as [|[id r] l IH] using rev_ind; intros Hnd.
  { change (retain_rows live []) with (mkRetainState ∅ ∅ 1 0).
    split; cbn [rt_recent rt_pinned rt_maximum_store_revision rt_maximum_sequence];
      [by intros ? ? H%lookup_empty_Some|rewrite map_size_empty; lia|by intros ? ?%not_elem_of_nil
      |by intros ? ? H%lookup_empty_Some|by intros ? ?%not_elem_of_nil| |];
      (split_and!; [done|by intros ? ?%not_elem_of_nil|by left]). }
  rewrite fmap_app in Hnd. apply NoDup_app in Hnd as (Hnd & Hx & _). specialize (IH Hnd).
  unfold retain_rows. rewrite foldl_app. cbn [foldl fst snd]. fold (retain_rows live l).
  set (s' := retain_operation_candidate live (retain_rows live l) id r).
  destruct (retain_recent live _ l id r s' IH) as (H1 & H2 & H3); [|done|].
  { intros Hin. apply (Hx id Hin). by left. }
  destruct (retain_pinned live _ l id r s' IH eq_refl) as [H4 H5].
  split; try done.
  - cbn. apply retain_max, IH.
  - cbn. apply retain_max, IH.
Qed.

(** ** Finishing *)

Lemma foldl_insert_lookup (l : list (Z * Row)) (m : Operations) id :
  (∀ p, p ∈ l → p.2.1 ≠ id) → foldl (λ m p, <[p.2.1 := p.2.2]> m) m l !! id = m !! id.
Proof.
  revert m. induction l as [|p l IH]; intros m Hl; [done|]. cbn [foldl].
  rewrite IH by set_solver. apply lookup_insert_ne. apply Hl. by left.
Qed.

Definition row_sound (rows : list Row) (m : Operations) : Prop :=
  ∀ id r, m !! id = Some r → (id, r) ∈ rows.

Lemma rows_functional (rows : list Row) id r r' :
  NoDup rows.*1 → (id, r) ∈ rows → (id, r') ∈ rows → r = r'.
Proof.
  intros Hnd [i Hi]%list_elem_of_lookup [j Hj]%list_elem_of_lookup.
  assert (i = j) as ->; [|congruence].
  eapply (NoDup_lookup _ _ _ id Hnd); rewrite list_lookup_fmap; by simplify_option_eq.
Qed.

Lemma finish_pinned rows (l : list (Z * Row)) m :
  NoDup rows.*1 → row_sound rows m → (∀ p, p ∈ l → p.2 ∈ rows) →
  let m' := foldl (λ m p, <[p.2.1 := p.2.2]> m) m l in
  row_sound rows m' ∧ (∀ p, p ∈ l → m' !! p.2.1 = Some p.2.2)
  ∧ ∀ id r, m !! id = Some r → m' !! id = Some r.
Proof.
  intros Hnd. revert m. induction l as [|[rev [id r]] l IH]; intros m Hm Hl; cbn zeta; cbn [foldl].
  { split_and!; [done|by intros ? ?%not_elem_of_nil|done]. }
  assert (Hin : (id, r) ∈ rows) by (apply (Hl (rev, (id, r))); by left).
  destruct (IH (<[id := r]> m)) as (H1 & H2 & H3).
  { intros x rx [[<- <-]|[_ H]]%lookup_insert_Some; auto. }
  { intros p Hp. apply Hl. by right. }
  split_and!; [done| |].
  - intros p [->|Hp]%elem_of_cons; [|by apply H2]. apply H3, lookup_insert_eq.
  - intros x rx Hx. apply H3. destruct (decide (x = id)) as [->|]; [|by rewrite lookup_insert_ne].
    rewrite lookup_insert_eq. f_equal. eapply rows_functional; eauto.
Qed.

Lemma finish_recent rows (l : list ((Z * OperationId) * NativeDedupResult)) m :
  NoDup rows.*1 → row_sound rows m → (∀ p, p ∈ l → (p.1.2, p.2) ∈ rows) →
  let m' := foldl (λ m p, or_insert m p.1.2 p.2) m l in
  row_sound rows m' ∧ (∀ p, p ∈ l → m' !! p.1.2 = Some p.2)
  ∧ ∀ id r, m !! id = Some r → m' !! id = Some r.
Proof.
  intros Hnd. revert m. induction l as [|[[seq id] r] l IH]; intros m Hm Hl; cbn zeta; cbn [foldl].
  { split_and!; [done|by intros ? ?%not_elem_of_nil|done]. }
  assert (Hin : (id, r) ∈ rows) by (apply (Hl ((seq, id), r)); by left).
  cbn [fst snd]. assert (or_insert m id r !! id = Some r ∧ row_sound rows (or_insert m id r)
    ∧ ∀ x rx, m !! x = Some rx → or_insert m id r !! x = Some rx) as (Ho1 & Ho2 & Ho3).
  { unfold or_insert. destruct (m !! id) as [r'|] eqn:E.
    - split_and!; [|done..]. rewrite E. f_equal. eapply rows_functional; eauto.
    - split_and!; [apply lookup_insert_eq| |].
      + intros x rx [[<- <-]|[_ H]]%lookup_insert_Some; auto.
      + intros x rx Hx. rewrite lookup_insert_ne; [done|]. intros ->. congruence. }
  destruct (IH (or_insert m id r)) as (H1 & H2 & H3); [done|intros p Hp; apply Hl; by right|].
  split_and!; [done| |auto].
  intros p [->|Hp]%elem_of_cons; [|by apply H2]. by apply H3.
Qed.

(** ** Loading what a store left behind *)

Section reload.
Context (entries : Entries) (ops : Operations) (order : list OperationId) (next revision : Z).
Context (Hwf : Ops_wf entries ops order next revision).
Let live := live_revisions entries.
Let rows := btree_iter ops.
Let s := retain_rows live rows.

Lemma reload_rows_nodup : NoDup rows.*1.
Proof using. apply btree_iter_nodup. Qed.

Lemma reload_ok : Retained_ok live s rows.
Proof using. apply retain_rows_ok, reload_rows_nodup. Qed.

Lemma order_lookup_seq i j a b :
  order !! i = Some a → order !! j = Some b → (i < j)%nat → seq_of ops a < seq_of ops b.
Proof using Hwf.
  intros Ha Hb Hij. pose proof (ow_sorted _ _ _ _ _ Hwf) as Hs.
  rewrite <- (take_drop j order) in Hs. rewrite map_app in Hs.
  eapply (StronglySorted_app_1_elem_of _ _ _ _ _ Hs).
  - apply list_elem_of_fmap. exists a. split; [done|].
    apply list_elem_of_lookup. exists i. by rewrite lookup_take_lt.
  - apply list_elem_of_fmap. exists b. split; [done|].
    apply list_elem_of_lookup. exists 0%nat. by rewrite lookup_drop, Nat.add_0_r.
Qed.

(** A recent operation is in the heap of recent rows. *)
Lemma reload_recent id r :
  id ∈ recent_ids order → ops !! id = Some r → rt_recent s !! row_key (id, r) = Some r.
Proof using Hwf.
  intros Hid Hr. assert (Hin : (id, r) ∈ rows) by by apply elem_of_btree_iter.
  destruct (ro_recent_all _ _ _ reload_ok _ Hin) as [|[Hfull Hall]]; [done|exfalso].
  rewrite recent_ids_suffix, elem_of_list_to_set in Hid.
  apply list_elem_of_lookup in Hid as [d Hd]. rewrite lookup_drop in Hd.
  set (i := (length order - recent_count + d)%nat) in Hd.
  pose proof (lookup_lt_Some _ _ _ Hd) as Hi.
  (* every key of the heap names an operation settled after [id] *)
  assert (Hlater : ∀ k, k ∈ (map_to_list (rt_recent s)).*1 → k.2 ∈ drop (S i) order).
  { intros k ([k' rk] & -> & Hk%elem_of_map_to_list)%list_elem_of_fmap. cbn.
    destruct (ro_recent _ _ _ reload_ok _ _ Hk) as [Hrow Hkey].
    apply elem_of_btree_iter in Hrow. pose proof (Hall k' ltac:(eauto)) as [Hle Hne]%key_ltb_spec.
    assert (Hko : k'.2 ∈ order) by (apply (ow_dom _ _ _ _ _ Hwf); eauto).
    apply list_elem_of_lookup in Hko as [j Hj]. apply list_elem_of_lookup.
    destruct (Nat.lt_trichotomy j i) as [Hji|[->|Hji]].
    - pose proof (order_lookup_seq _ _ _ _ Hj Hd Hji) as Hlt. unfold seq_of in Hlt.
      rewrite Hr, Hrow in Hlt. rewrite Hkey in Hle. unfold key_le, row_key in Hle. cbn in Hle.
      rewrite bool_decide_eq_false_2 in Hle by lia. lia.
    - destruct Hne. rewrite Hd in Hj. injection Hj as Hj. rewrite <- Hj, Hr in Hrow.
      injection Hrow as Hrow. rewrite Hkey, <- Hj, <- Hrow. done.
    - exists (j - S i)%nat. rewrite lookup_drop. by replace (S i + (j - S i))%nat with j by lia. }
  assert (Hsub : (map (λ k : Z * OperationId, k.2) (map_to_list (rt_recent s)).*1) ⊆ drop (S i) order).
  { intros x ([k1 k2] & -> & Hk)%list_elem_of_fmap. by apply Hlater in Hk. }
  assert (Hnd : NoDup (map (λ k : Z * OperationId, k.2) (map_to_list (rt_recent s)).*1)).
  { apply NoDup_fmap_2_strong; [|apply NoDup_fst_map_to_list].
    intros k1 k2 ([k1' r1] & -> & H1%elem_of_map_to_list)%list_elem_of_fmap
      ([k2' r2] & -> & H2%elem_of_map_to_list)%list_elem_of_fmap. cbn. intros E.
    destruct (ro_recent _ _ _ reload_ok _ _ H1) as [R1 ->].
    destruct (ro_recent _ _ _ reload_ok _ _ H2) as [R2 ->]. rewrite E in *.
    by rewrite (rows_functional rows _ _ _ reload_rows_nodup R1 R2). }
  pose proof (submseteq_length _ _ (NoDup_submseteq _ _ Hnd Hsub)) as Hlen.
  rewrite length_map, length_fmap, length_map_to_list, Hfull, length_drop in Hlen.
  subst i. lia.
Qed.

Lemma reload_pinned id r :
  ops !! id = Some r → operation_pins_live_entry r live = true →
  rt_pinned s !! dd_store_revision r = Some (id, r).
Proof using Hwf.
  intros Hr Hp. assert (Hin : (id, r) ∈ rows) by by apply elem_of_btree_iter.
  destruct (ro_pinned_all _ _ _ reload_ok _ Hin Hp) as [[id' r'] Hx]. cbn in Hx. rewrite Hx.
  destruct (ro_pinned _ _ _ reload_ok _ _ Hx) as (Hin' & Hp' & Hrev). cbn in *.
  apply elem_of_btree_iter in Hin'. apply pins_spec in Hp as [_ Hok], Hp' as [_ Hok'].
  assert (id' = id) as -> by by eapply (ow_one _ _ _ _ _ Hwf). congruence.
Qed.

Lemma reload_values : ro_values (finish_retained_operations s) = ops.
Proof using Hwf.
  unfold finish_retained_operations. cbn [ro_values].
  destruct (finish_pinned rows (btree_iter (rt_pinned s)) ∅ reload_rows_nodup) as (P1 & P2 & _).
  { by intros ? ? ?%lookup_empty_Some. }
  { intros [rev p] Hp%elem_of_btree_iter. by apply (ro_pinned _ _ _ reload_ok) in Hp as [? _]. }
  destruct (finish_recent rows (btree_iter (rt_recent s)) _ reload_rows_nodup P1) as (R1 & R2 & R3).
  { intros [k r] Hp%elem_of_btree_iter. by apply (ro_recent _ _ _ reload_ok) in Hp as [? _]. }
  set (m := foldl _ _ (btree_iter (rt_recent s))) in *.
  apply map_eq. intros id. destruct (ops !! id) as [r|] eqn:Hr.
  - assert (Hid : id ∈ order) by (apply (ow_dom _ _ _ _ _ Hwf); eauto).
    destruct (ow_retained _ _ _ _ _ Hwf id Hid) as [Hrec|(r' & Hr' & Hp)].
    + pose proof (reload_recent id r Hrec Hr) as Hin. apply elem_of_btree_iter in Hin.
      by apply R2 in Hin.
    + assert (r' = r) as -> by congruence. pose proof (reload_pinned id r Hr Hp) as Hin.
      apply elem_of_btree_iter in Hin. apply P2 in Hin. by apply R3.
  - destruct (m !! id) as [r|] eqn:E; [|done]. apply R1, elem_of_btree_iter in E. congruence.
Qed.

Lemma reload_order : ro_order (finish_retained_operations s) = order.
Proof using Hwf.
  assert (Hv := reload_values). unfold finish_retained_operations in *. cbn [ro_values ro_order] in *.
  rewrite Hv. clear Hv.
  rewrite (sort_keys_unique _ (map (λ id, (seq_of ops id, id)) order)).
  - rewrite map_map. cbn. apply map_id.
  - eapply (StronglySorted_map (λ p q, seq_of ops p < seq_of ops q)).
    + intros p q Hpq. unfold key_le. cbn. rewrite bool_decide_eq_false_2 by lia. lia.
    + apply StronglySorted_unmap, Hwf.
  - apply NoDup_Permutation.
    + apply NoDup_fmap_2; [by intros ? ? [= _ ->]|by destruct Hwf].
    + apply NoDup_fmap_2_strong; [|eapply NoDup_fmap_1, (btree_iter_nodup ops)].
      intros [i1 r1] [i2 r2] H1%elem_of_btree_iter H2%elem_of_btree_iter. cbn.
      intros [= _ ->]. congruence.
    + intros [z id]. rewrite !list_elem_of_fmap. split.
      * intros (x & [= -> ->] & [r Hr]%(ow_dom _ _ _ _ _ Hwf)). exists (x, r).
        rewrite elem_of_btree_iter. unfold seq_of. by rewrite Hr.
      * intros ([x r] & [= -> ->] & Hr%elem_of_btree_iter). exists x. unfold seq_of. rewrite Hr.
        split; [done|]. apply (ow_dom _ _ _ _ _ Hwf). eauto.
Qed.

Lemma reload_maxima :
  Z.max 1 (rt_maximum_store_revision s) = revision ∧ rt_maximum_sequence s + 1 = next.
Proof using Hwf.
  pose proof (ro_max_revision _ _ _ reload_ok) as (Hr1 & Hr2 & Hr3).
  pose proof (ro_max_sequence _ _ _ reload_ok) as (Hs1 & Hs2 & Hs3).
  pose proof (ow_last _ _ _ _ _ Hwf) as Hlast. pose proof (ow_bounds _ _ _ _ _ Hwf) as [Hb1 Hb2].
  assert (Hle : ∀ p, p ∈ rows → dd_store_revision p.2 <= revision ∧ dd_settlement_sequence p.2 < next).
  { intros [id r] Hin%elem_of_btree_iter. apply (ow_ops _ _ _ _ _ Hwf) in Hin. tauto. }
  destruct (last order) as [id|] eqn:El.
  - destruct Hlast as (r & Hr & Hrev & Hseq). apply elem_of_btree_iter in Hr.
    pose proof (Hr2 _ Hr). pose proof (Hs2 _ Hr). cbn in *. split.
    + destruct Hr3 as [|(p & Hp & Hpe)]; [lia|]. apply Hle in Hp. lia.
    + destruct Hs3 as [|(p & Hp & Hpe)]; [lia|]. apply Hle in Hp. lia.
  - destruct Hlast as [-> ->]. apply last_None in El.
    assert (Hempty : ∀ p, p ∉ rows).
    { intros [x r] Hin%elem_of_btree_iter.
      assert (x ∈ order) as Hx by (apply (ow_dom _ _ _ _ _ Hwf); eauto). rewrite El in Hx.
      by apply not_elem_of_nil in Hx. }
    split.
    + destruct Hr3 as [|(p & Hp & _)]; [lia|by destruct (Hempty p)].
    + destruct Hs3 as [|(p & Hp & _)]; [lia|by destruct (Hempty p)].
Qed.

Lemma load_rows_retain :
  foldl (load_operation_row live) (mkRetainState ∅ ∅ 1 0) (btree_iter (encode_native_dedup <$> ops)) = s.
Proof using Hwf.
  rewrite btree_iter_fmap. unfold s, retain_rows. fold rows.
  assert (Hrows : ∀ p, p ∈ rows → length p.1 = 16%nat ∧ wf_dedup p.2).
  { intros [id r] Hin%elem_of_btree_iter. apply (ow_ops _ _ _ _ _ Hwf) in Hin. tauto. }
  generalize (mkRetainState ∅ ∅ 1 0). induction rows as [|[id r] l IH]; intros s0; [done|].
  cbn [map foldl fst snd]. rewrite IH by (intros; apply Hrows; by right). f_equal.
  destruct (Hrows (id, r) ltac:(by left)) as [Hid Hr]. cbn in Hid, Hr.
  unfold load_operation_row, try_operation_id. cbn [fst snd].
  rewrite bool_decide_eq_true_2 by done. by rewrite decode_encode_dedup.
Qed.
End reload.
