(* ===== verification/KvReopen.v ===== *)
(** * KvReopen: a store is restored from its database

    [store_tables] is what the database holds when it is level with a store.
    Opening such a database gives that store back: entries, retained
    operations and their order, sequence, revision and byte count. *)

From S2P Require Import Prelude Schema Composite Ordered Kv KvWriter KvDedup KvReplay KvStore KvMutate KvProps KvRetain.

Definition entry_row (e : Entry) : list byte :=
  row_bytes (en_mtime_ns e) (en_modification_revision e) (en_value e).

Definition store_tables (st : Store) : Tables :=
  mkTables (entry_row <$> st_entries st) (encode_native_dedup <$> st_operations st).

(** The store after a restart: no change has been sent, the writer is as given. *)
Definition reopened (st : Store) (writer : bool) : Store :=
  mkStore (st_entries st) [] (st_operations st) (st_operation_order st)
    (st_next_operation_sequence st) writer (st_total_bytes st) (st_revision st).

(** ** Rows *)

Lemma row_fields mtime rev bytes :
  is_u64 mtime → is_u64 rev →
  let raw := row_bytes mtime rev bytes in
  (len raw <? 16) = false ∧ le_slice raw 0 8 = mtime ∧ le_slice raw 8 16 = rev ∧ drop 16 raw = bytes.
Proof.
  intros Hm Hr. cbn zeta. unfold row_bytes. split_and!.
  - apply Z.ltb_ge. autorewrite with len. pose proof (len_nonneg bytes). lia.
  - apply (le_slice_is _ [] 8 mtime (to_le 8 rev ++ bytes)); done.
  - apply (le_slice_is _ (to_le 8 mtime) 8 rev bytes); [done|by rewrite len_to_le|done|done].
  - rewrite app_assoc. apply drop_app_length'. by rewrite length_app, !length_to_le.
Qed.

Section open.
Context {D : Type} `{RedbLaws D}.
Context (env : KvEnv) (blake3_hash : list byte → Hash).

Definition load_bindings (l : list (Key * Entry)) (st : Store) : Store :=
  mkStore (foldl (λ m p, <[p.1 := p.2]> m) (st_entries st) l) (st_native_changes st)
    (st_operations st) (st_operation_order st) (st_next_operation_sequence st) (st_writer st)
    (st_total_bytes st + bytes_sum l)
    (foldl (λ z p, Z.max z (en_modification_revision p.2)) (st_revision st) l).

Lemma load_rows_bindings revision l st :
  revision <= U64_MAX →
  Forall (λ p, wf_entry env blake3_hash revision p.2) l →
  foldl (load_row blake3_hash) st (map (λ p, (p.1, entry_row p.2)) l) = load_bindings l st.
Proof using.
  intros Hrev Hl. revert st. induction Hl as [|[k e] l Hw _ IH]; intros st.
  { unfold load_bindings. cbn. rewrite Z.add_0_r. by destruct st. }
  destruct e as [v h t r]. destruct Hw as (Hh & Ht & Hr & _). cbn in Hh, Ht, Hr. subst h.
  unfold U64_MAX in Hrev.
  destruct (row_fields t r v Ht ltac:(lia)) as (F1 & F2 & F3 & F4).
  cbn [map foldl]. rewrite IH. unfold load_row at 1. cbn [fst snd].
  unfold entry_row. cbn [en_mtime_ns en_modification_revision en_value].
  rewrite F1, F2, F3, F4, (Z.max_l r 1) by lia.
  unfold load_bindings. cbn [st_entries st_native_changes st_operations st_operation_order
    st_next_operation_sequence st_writer st_total_bytes st_revision foldl fst snd
    en_modification_revision].
  f_equal. change (bytes_sum ((k, mkEntry v (blake3_hash v) t r) :: l))
    with (len k + len v + bytes_sum l). lia.
Qed.

Lemma foldl_insert_btree (m : Entries) : foldl (λ m p, <[p.1 := p.2]> m) ∅ (btree_iter m) = m.
Proof using.
  rewrite <- (list_to_map_btree_iter m) at 2.
  pose proof (btree_iter_nodup m) as Hnd. revert Hnd. generalize (btree_iter m). intros l Hnd.
  assert (Hgen : ∀ acc : Entries, foldl (λ m p, <[p.1 := p.2]> m) acc l = list_to_map l ∪ acc).
  { induction l as [|[k e] l IH]; intros acc; cbn [foldl list_to_map foldr]; [by rewrite map_empty_union|].
    apply NoDup_cons in Hnd as [Hk Hnd]. rewrite IH by done. cbn [fst snd].
    change (foldr (λ p, <[p.1 := p.2]>) ∅ l) with (list_to_map l : Entries).
    rewrite <- insert_union_l. symmetry. apply insert_union_r.
    by apply not_elem_of_list_to_map. }
  rewrite Hgen. apply map_union_empty.
Qed.

Lemma foldl_max_bounds (l : list (Key * Entry)) z hi :
  z <= hi → Forall (λ p, en_modification_revision p.2 <= hi) l →
  z <= foldl (λ z p, Z.max z (en_modification_revision p.2)) z l <= hi.
Proof using.
  intros Hz Hl. revert z Hz. induction Hl as [|p l Hp _ IH]; intros z Hz; cbn [foldl]; [lia|].
  specialize (IH (Z.max z (en_modification_revision p.2)) ltac:(lia)). lia.
Qed.

Lemma scan_delete_none retained rows :
  (∀ p, p ∈ rows → length p.1 = 16%nat ∧ is_Some (retained !! p.1)) →
  scan_delete retained rows [] = [].
Proof using.
  intros Hr. induction rows as [|[k v] rows IH]; [done|]. cbn [scan_delete].
  destruct (Hr (k, v) ltac:(by left)) as [Hk Hs]. cbn in Hk, Hs.
  unfold try_operation_id. rewrite (bool_decide_eq_true_2 (length k = 16%nat)) by done.
  rewrite bool_decide_eq_true_2 by done. apply IH. intros p Hp. apply Hr. by right.
Qed.

Context (st : Store) (Hwf : Store_wf env blake3_hash st) (d : D).
Context (Htables : redb_tables d = store_tables st).

Lemma prune_nothing :
  is_ok (redb_read d OPERATION_TABLE) = true →
  prune_persisted_operation_replays (prune_fuel d) d (st_operations st) = Some (Ok (), d).
Proof using Hwf Htables H0.
  intros Hok. unfold prune_fuel. cbn [prune_persisted_operation_replays].
  destruct (redb_read d OPERATION_TABLE) as [[rows|]|] eqn:Er; [|done|done].
  apply redb_read_committed in Er. rewrite Htables in Er. cbn in Er. subst rows.
  rewrite scan_delete_none; [done|]. intros [k v] Hk%elem_of_btree_iter.
  rewrite lookup_fmap in Hk. apply fmap_Some in Hk as (r & Hr & ->).
  apply (ow_ops _ _ _ _ _ (sw_ops _ _ _ Hwf)) in Hr as Hr'. split; [by destruct Hr'|eauto].
Qed.

Lemma load_operations table :
  redb_read d OPERATION_TABLE = Ok table →
  load_operation_replays d (live_revisions (st_entries st))
  = Ok (finish_retained_operations
          (retain_rows (live_revisions (st_entries st)) (btree_iter (st_operations st)))).
Proof using Hwf Htables H0.
  intros Er. unfold load_operation_replays. rewrite Er. cbn [mbind result_bind].
  apply redb_read_committed in Er. rewrite Htables in Er. cbn in Er.
  destruct table as [rows|]; cbn in Er; subst.
  - by rewrite (load_rows_retain _ _ _ _ _ (sw_ops _ _ _ Hwf)).
  - symmetry in Er. apply fmap_empty_inv in Er. rewrite Er. done.
Qed.

Lemma store_open_restores spawned t1 t2 :
  redb_read d TABLE = Ok t1 → redb_read d OPERATION_TABLE = Ok t2 →
  Store_open blake3_hash env spawned (Some d)
  = (reopened st spawned, Some d,
     mkLink (WriterBudget_new MAX_PENDING_WRITES (writer_queue_max_bytes env)) []
            MAX_PENDING_WRITES spawned).
Proof using Hwf Htables H0.
  intros R1 R2. pose proof (sw_ops _ _ _ Hwf) as Hops. pose proof (ow_bounds _ _ _ _ _ Hops) as [Hb1 Hb2].
  assert (Hall : Forall (λ p, wf_entry env blake3_hash (st_revision st) p.2) (btree_iter (st_entries st))).
  { apply Forall_forall. intros [k e] He%elem_of_btree_iter.
    by apply (sw_entries _ _ _ Hwf) in He as [_ ?]. }
  assert (Hload : foldl (load_row blake3_hash) Store_empty
      match t1 with Some rows => btree_iter rows | None => [] end
    = load_bindings (btree_iter (st_entries st)) Store_empty).
  { apply redb_read_committed in R1. rewrite Htables in R1. cbn in R1.
    rewrite <- (load_rows_bindings (st_revision st)) by (done || lia).
    rewrite <- btree_iter_fmap, <- R1. by destruct t1. }
  unfold Store_open. rewrite R1. cbn zeta. rewrite Hload.
  unfold load_bindings. cbn [st_entries Store_empty st_native_changes st_operations
    st_operation_order st_next_operation_sequence st_writer st_total_bytes st_revision].
  rewrite foldl_insert_btree, (load_operations t2 R2), (reload_values _ _ _ _ _ Hops).
  rewrite prune_nothing by by rewrite R2.
  rewrite (reload_order _ _ _ _ _ Hops). cbn [finish_retained_operations ro_maximum_sequence
    ro_maximum_store_revision].
  destruct (reload_maxima _ _ _ _ _ Hops) as [Hmr Hms].
  unfold set_writer, reopened. cbn [st_entries st_native_changes st_operations
    st_operation_order st_next_operation_sequence st_writer st_total_bytes st_revision].
  pose proof (sw_total _ _ _ Hwf) as [Ht _]%entries_bytes_spec.
  pose proof (bytes_sum_perm _ _ (btree_iter_perm (st_entries st))) as Hp.
  pose proof (foldl_max_bounds (btree_iter (st_entries st)) 1 (st_revision st) ltac:(lia)) as Hmax.
  do 2 f_equal. f_equal; [|lia|].
  - unfold saturating_add_u64. lia.
  - assert (Forall (λ p, en_modification_revision p.2 <= st_revision st) (btree_iter (st_entries st))) as Hf.
    { eapply Forall_impl; [exact Hall|]. intros p (_ & _ & ? & _). lia. }
    specialize (Hmax Hf). lia.
Qed.
End open.

(** * Pruning the operation table terminates and removes exactly the
      rows that are not retained *)

(** The row survives pruning. *)
Definition kept (retained : Operations) (key : list byte) : bool :=
  match try_operation_id key with
  | Some id => bool_decide (is_Some (retained !! id))
  | None => false
  end.

Definition kept_rows (retained : Operations) (rows : Rows) : Rows :=
  filter (λ p, kept retained p.1 = true) rows.
Definition stale_rows (retained : Operations) (rows : Rows) : Rows :=
  filter (λ p, kept retained p.1 = false) rows.

Lemma scan_delete_spec retained rows found :
  ∃ more, scan_delete retained rows found = found ++ more
    ∧ (∀ x, x ∈ more → x ∈ rows.*1 ∧ kept retained x = false)
    ∧ (more = [] → ∀ p, p ∈ rows → kept retained p.1 = true).
Proof.
  revert found. induction rows as [|[raw v] rows IH]; intros found; cbn [scan_delete].
  { exists []. rewrite app_nil_r. split_and!; [done|by intros ? ?%not_elem_of_nil|by intros _ ? ?%not_elem_of_nil]. }
  fold (kept retained raw). destruct (kept retained raw) eqn:Ek.
  - destruct (IH found) as (more & -> & H1 & H2). exists more. split_and!; [done| |].
    + intros x Hx. destruct (H1 x Hx). split; [by right|done].
    + intros Hm p [->|Hp]%elem_of_cons; [done|by apply H2].
  - destruct (len (found ++ [raw]) =? OPERATION_PRUNE_BATCH).
    + exists [raw]. split_and!; [done| |done]. intros x Hx%list_elem_of_singleton. subst x. split; [by left|done].
    + destruct (IH (found ++ [raw])) as (more & -> & H1 & H2). exists (raw :: more).
      split_and!; [by rewrite <- app_assoc| |done].
      intros x [->|Hx]%elem_of_cons; [split; [by left|done]|]. destruct (H1 x Hx). split; [by right|done].
Qed.

Lemma apply_removes ts keys :
  apply_writes ts (map (RemoveRow OPERATION_TABLE) keys)
  = mkTables (tb_table ts) (foldl (λ m k, delete k m) (tb_operation_table ts) keys).
Proof.
  unfold apply_writes. revert ts. induction keys as [|k keys IH]; intros ts; cbn; [by destruct ts|].
  by rewrite IH.
Qed.

Section prune.
Context (retained : Operations) (rows : Rows) (keys : list (list byte)).
Context (Hkeys : ∀ x, x ∈ keys → is_Some (rows !! x) ∧ kept retained x = false).

Lemma removes_kept : kept_rows retained (foldl (λ m k, delete k m) rows keys) = kept_rows retained rows.
Proof using Hkeys.
  apply map_eq. intros k. apply option_eq. intros v. unfold kept_rows.
  rewrite !map_lookup_filter_Some, lookup_foldl_delete. cbn.
  case_bool_decide as Hk; [|done]. split; [by intros [? _]|].
  intros [_ Hx]. apply Hkeys in Hk as [_ Hk]. congruence.
Qed.

Lemma removes_stale :
  keys ≠ [] →
  (size (stale_rows retained (foldl (λ m k, delete k m) rows keys)) < size (stale_rows retained rows))%nat.
Proof using Hkeys.
  intros Hne. destruct keys as [|k0 ks] eqn:Ek; [done|].
  destruct (Hkeys k0 ltac:(by left)) as [[v Hv] Hs].
  apply map_subset_size. split.
  - apply map_subseteq_spec. intros k w. unfold stale_rows.
    rewrite !map_lookup_filter_Some, lookup_foldl_delete. case_bool_decide; naive_solver.
  - intros Hsub. assert (Hin : stale_rows retained rows !! k0 = Some v)
      by (unfold stale_rows; by rewrite map_lookup_filter_Some).
    eapply (lookup_weaken _ _ _ _ Hin) in Hsub. unfold stale_rows in Hsub.
    rewrite map_lookup_filter_Some, lookup_foldl_delete in Hsub.
    rewrite bool_decide_eq_true_2 in Hsub by (by left). by destruct Hsub.
Qed.
End prune.

Section terminates.
Context {D : Type} `{RedbLaws D}.

Lemma prune_loop retained fuel (d : D) :
  (size (stale_rows retained (tb_operation_table (redb_tables d))) < fuel)%nat →
  ∃ res d', prune_persisted_operation_replays fuel d retained = Some (res, d')
    ∧ tb_table (redb_tables d') = tb_table (redb_tables d)
    ∧ kept_rows retained (tb_operation_table (redb_tables d'))
      = kept_rows retained (tb_operation_table (redb_tables d))
    ∧ (res = Ok () → tb_operation_table (redb_tables d')
                     = kept_rows retained (tb_operation_table (redb_tables d))).
Proof using H0.
  revert d. induction fuel as [|fuel IH]; intros d Hf; [lia|]. cbn [prune_persisted_operation_replays].
  destruct (redb_read d OPERATION_TABLE) as [[rows|]|e] eqn:Er.
  - apply redb_read_committed in Er. cbn in Er. subst rows.
    set (rows := tb_operation_table (redb_tables d)) in *.
    destruct (scan_delete_spec retained (btree_iter rows) []) as (more & -> & Hm & Hall). cbn [app].
    destruct more as [|k0 ks] eqn:Em.
    + exists (Ok ()), d. split_and!; [done..|]. intros _. apply map_eq. intros k. unfold kept_rows.
      apply option_eq. intros v. rewrite map_lookup_filter_Some. split; [|by intros [? _]].
      intros Hv. split; [done|]. apply (Hall eq_refl (k, v)). by apply elem_of_btree_iter.
    + rewrite <- Em in *. assert (Hne : more ≠ []) by (by rewrite Em). clear Hall Em k0 ks.
      assert (Hk : ∀ x, x ∈ more → is_Some (rows !! x) ∧ kept retained x = false).
      { intros x Hx. destruct (Hm x Hx) as [([y v] & -> & Hy)%list_elem_of_fmap Hs].
        split; [exists v; by apply elem_of_btree_iter|done]. }
      pose proof (removes_kept retained rows more Hk) as Hkept.
      pose proof (removes_stale retained rows more Hk Hne) as Hstale.
      destruct (redb_commit d (map (RemoveRow OPERATION_TABLE) more)) as [[[]|e] d1] eqn:Ec.
      * apply redb_commit_ok in Ec. rewrite apply_removes in Ec. fold rows in Ec.
        destruct (IH d1) as (res & d' & Hp & Ht & Hk' & Hok); [rewrite Ec; cbn; lia|].
        rewrite Ec in Ht, Hk', Hok. cbn in Ht, Hk', Hok. rewrite Hkept in Hk', Hok.
        exists res, d'. done.
      * apply redb_commit_err in Ec. exists (Err e), d1. rewrite Ec. done.
  - apply redb_read_committed in Er. cbn in Er. exists (Ok ()), d. rewrite <- Er. done.
  - exists (Err e), d. done.
Qed.

(** C9: the loop that prunes the persisted operation records ends within one round
    per row: it always returns, it never touches the key-value table or a
    retained record, and when it reports success exactly the retained records
    are left, whatever their number and the batches the deletions take. *)
Theorem pruning_terminates (d : D) retained :
  ∃ res d', prune_persisted_operation_replays (prune_fuel d) d retained = Some (res, d')
    ∧ tb_table (redb_tables d') = tb_table (redb_tables d)
    ∧ kept_rows retained (tb_operation_table (redb_tables d'))
      = kept_rows retained (tb_operation_table (redb_tables d))
    ∧ (res = Ok () → tb_operation_table (redb_tables d')
                     = kept_rows retained (tb_operation_table (redb_tables d))).
Proof using H0.
  apply prune_loop. unfold prune_fuel, stale_rows. apply Nat.lt_succ_r, map_size_filter.
Qed.
End terminates.

(** * What a job writes to the database

    A job's writes turn the tables of the store before it into the tables of
    the store after it, and a batch of jobs has the effect of its jobs one
    after the other although it writes one table after the other. *)

(** ** What a job writes *)

Definition kv_write (w : TableWrite) : bool :=
  match w with InsertRow TABLE _ _ | RemoveRow TABLE _ => true | _ => false end.

Lemma apply_writes_app ts w1 w2 :
  apply_writes ts (w1 ++ w2) = apply_writes (apply_writes ts w1) w2.
Proof. apply foldl_app. Qed.

(** The two tables are independent. *)
Lemma apply_writes_split ts ws :
  apply_writes ts ws
  = mkTables (tb_table (apply_writes ts (filter (λ w, kv_write w = true) ws)))
             (tb_operation_table (apply_writes ts (filter (λ w, kv_write w = false) ws))).
Proof.
  unfold apply_writes. induction ws as [|w ws IH] using rev_ind; [by destruct ts|].
  rewrite !list.filter_app, !foldl_app, IH. cbn [foldl].
  destruct w as [[] k v|[] k]; cbn; done.
Qed.

Lemma batch_writes_kv batch :
  filter (λ w, kv_write w = true) (batch_writes batch)
  = concat (map (λ j, map mutation_write (wj_mutations j)) batch).
Proof.
  unfold batch_writes. rewrite list.filter_app.
  assert (filter (λ w, kv_write w = true) (concat (map operation_writes batch)) = []) as ->.
  { induction batch as [|j batch IH]; [done|]. cbn [map concat]. rewrite list.filter_app, IH, app_nil_r.
    unfold operation_writes. rewrite list.filter_app.
    assert (∀ l, filter (λ w, kv_write w = true) (map (RemoveRow OPERATION_TABLE) l) = []) as ->
      by (induction l; done).
    by destruct (wj_operation j) as [[]|]. }
  rewrite app_nil_r. apply filter_all. intros w Hw.
  apply list_elem_of_In, in_concat in Hw as (l & Hl & Hw). apply in_map_iff in Hl as (j & <- & _).
  apply in_map_iff in Hw as (m & <- & _). unfold mutation_write.
  by destruct (pm_value m) as [[[]]|].
Qed.

Lemma batch_writes_ops batch :
  filter (λ w, kv_write w = false) (batch_writes batch) = concat (map operation_writes batch).
Proof.
  unfold batch_writes. rewrite list.filter_app.
  assert (filter (λ w, kv_write w = false)
    (concat (map (λ j, map mutation_write (wj_mutations j)) batch)) = []) as ->.
  { induction batch as [|j batch IH]; [done|]. cbn [map concat]. rewrite list.filter_app, IH, app_nil_r.
    induction (wj_mutations j) as [|m l IHl]; [done|]. cbn [map].
    rewrite filter_cons_False; [done|]. unfold mutation_write. by destruct (pm_value m) as [[[]]|]. }
  apply filter_all. intros w Hw.
  apply list_elem_of_In, in_concat in Hw as (l & Hl & Hw). apply in_map_iff in Hl as (j & <- & _).
  unfold operation_writes in Hw. apply in_app_iff in Hw as [Hw|Hw].
  - destruct (wj_operation j) as [[]|]; [|done]. destruct Hw as [<-|[]]. done.
  - apply in_map_iff in Hw as (x & <- & _). done.
Qed.

(** A batch has the effect of its jobs one after the other. *)
Lemma batch_writes_app ts b1 b2 :
  apply_writes ts (batch_writes (b1 ++ b2))
  = apply_writes (apply_writes ts (batch_writes b1)) (batch_writes b2).
Proof.
  rewrite (apply_writes_split ts (batch_writes (b1 ++ b2))).
  rewrite (apply_writes_split (apply_writes ts (batch_writes b1)) (batch_writes b2)).
  rewrite (apply_writes_split ts (batch_writes b1)).
  rewrite !batch_writes_kv, !batch_writes_ops, !map_app, !concat_app.
  assert (Hkv : ∀ ws t1 t2, tb_table t1 = tb_table t2 → tb_table (apply_writes t1 ws) = tb_table (apply_writes t2 ws)).
  { induction ws as [|w ws IH]; intros t1 t2 E; [done|]. apply IH. destruct w as [[]|[]]; cbn; congruence. }
  assert (Hop : ∀ ws t1 t2, tb_operation_table t1 = tb_operation_table t2 →
    tb_operation_table (apply_writes t1 ws) = tb_operation_table (apply_writes t2 ws)).
  { induction ws as [|w ws IH]; intros t1 t2 E; [done|]. apply IH. destruct w as [[]|[]]; cbn; congruence. }
  rewrite !apply_writes_app. f_equal; [by apply Hkv|by apply Hop].
Qed.

Lemma batch_writes_nil ts : apply_writes ts (batch_writes []) = ts.
Proof. done. Qed.

(** ** The database row of every key, before and after a job *)

Definition row_of (entries : Entries) (k : Key) : option (list byte) := entry_row <$> entries !! k.

Lemma apply_persisted working changed ts k :
  NoDup changed.*1 →
  tb_table (apply_writes ts (map mutation_write (map (persisted_mutation working) changed))) !! k
  = if bool_decide (k ∈ changed.*1) then row_of working k else tb_table ts !! k.
Proof.
  unfold apply_writes. revert ts. induction changed as [|[k' b] changed IH]; intros ts; [done|].
  cbn [map foldl fmap list_fmap]. intros [Hn Hnd]%NoDup_cons. rewrite IH by done. clear IH.
  change (list_fmap _ _ fst changed) with changed.*1 in *. cbn [fst] in *.
  destruct (decide (k = k')) as [->|Hne].
  - rewrite (bool_decide_eq_false_2 (k' ∈ changed.*1)) by done.
    rewrite bool_decide_eq_true_2 by set_solver. unfold row_of, persisted_mutation, mutation_write.
    cbn [fst]. destruct (working !! k') as [e|]; cbn; [apply lookup_insert_eq|apply lookup_delete_eq].
  - rewrite (bool_decide_ext (k ∈ k' :: changed.*1) (k ∈ changed.*1)) by set_solver.
    assert (tb_table (apply_write ts (mutation_write (persisted_mutation working (k', b)))) !! k
            = tb_table ts !! k) as ->; [|done].
    unfold persisted_mutation, mutation_write. cbn [fst].
    destruct (working !! k') as [e|]; cbn; [by rewrite lookup_insert_ne|by rewrite lookup_delete_ne].
Qed.

Lemma apply_op_removes ts ids :
  tb_operation_table (apply_writes ts (map (RemoveRow OPERATION_TABLE) ids))
  = foldl (λ m k, delete k m) (tb_operation_table ts) ids.
Proof.
  unfold apply_writes. revert ts. induction ids as [|k ids IH]; intros ts; [done|]. cbn. by rewrite IH.
Qed.

Lemma settles_rows env now ms st entries total revision results persisted changes :
  settles env now ms st entries total revision results persisted changes →
  tb_table (apply_writes (store_tables st) (map mutation_write persisted)) = entry_row <$> entries.
Proof.
  intros Hs. destruct Hs as [Hc|working total revision changed Hc Ht Hsz Htot]; [done|].
  apply map_eq. intros k. rewrite apply_persisted by apply btree_iter_nodup.
  rewrite lookup_fmap. cbn [store_tables tb_table]. rewrite lookup_fmap. unfold row_of.
  case_bool_decide as Hk; [done|]. f_equal. symmetry. eapply cas_batch_frame; [done|].
  intros Hin. apply Hk. destruct (changed_keys_complete (st_entries st) ms k Hin) as [b Hb].
  apply list_elem_of_fmap. exists (k, b). split; [done|]. by apply elem_of_btree_iter.
Qed.

Lemma settled_records entries ops order id r :
  (∀ x, x ∈ order ↔ is_Some (ops !! x)) → one_per_revision (<[id := r]> ops) →
  let plan := plan_operation_replay entries ops order id r in
  foldl (λ m k, delete k m) (<[id := encode_native_dedup r]> (encode_native_dedup <$> ops))
    (rp_evicted plan)
  = encode_native_dedup <$> rp_values plan.
Proof.
  intros Hdom Hone plan. rewrite <- fmap_insert. set (ops1 := <[id := r]> ops) in *.
  assert (Hdom1 : ∀ x, x ∈ order ++ [id] ↔ is_Some (ops1 !! x)).
  { intros x. subst ops1. rewrite elem_of_app, list_elem_of_singleton, Hdom.
    destruct (decide (x = id)) as [->|]; [rewrite lookup_insert_eq|rewrite lookup_insert_ne by done];
      naive_solver. }
  apply map_eq. intros k. rewrite lookup_foldl_delete, !lookup_fmap.
  unfold plan, plan_operation_replay. fold ops1. rewrite prune_values by done.
  rewrite (bool_decide_ext _ _ (prune_evicted entries ops1 (order ++ [id]) k)).
  set (kept := rp_order (prune_operation_replays entries ops1 (order ++ [id]))).
  destruct (decide (k ∈ kept)) as [Hk|Hk].
  - rewrite bool_decide_eq_false_2 by tauto. by rewrite bool_decide_eq_true_2.
  - rewrite (bool_decide_eq_false_2 (k ∈ kept)) by done. case_bool_decide as Hb; [done|].
    destruct (ops1 !! k) eqn:E; [|done]. destruct Hb. split; [|done]. apply Hdom1. eauto.
Qed.

Section level.
Context (env : KvEnv) (blake3_hash : list byte → Hash).

(** The database is level with the store. *)
Definition level {D} `{Redb D} (st : Store) (d : D) : Prop :=
  Store_wf env blake3_hash st ∧ redb_tables d = store_tables st.

Context (Hblake : ∀ v, length (blake3_hash v) = 32%nat).

Lemma settled_tables now id fp ws ms st entries total revision results persisted changes writer
    reply permit :
  Store_wf env blake3_hash st → wf_request blake3_hash now id fp ws ms →
  admissible env ws ms = true → st_operations st !! id = None → st_revision st < U64_MAX →
  st_next_operation_sequence st < U64_MAX →
  settles env now ms st entries total revision results persisted changes →
  let r := mkDedup fp revision (st_next_operation_sequence st) results ws in
  let plan := plan_operation_replay entries (st_operations st) (st_operation_order st) id r in
  store_tables (settled_store id fp ws st entries total revision results changes writer)
  = apply_writes (store_tables st)
      (batch_writes [mkJob persisted (Some (id, encode_native_dedup r)) (rp_evicted plan) reply permit]).
Proof using Hblake.
  intros Hwf Hreq Ha Hf Hr Hn Hs r plan. pose proof (sw_ops _ _ _ Hwf) as Hops.
  rewrite apply_writes_split, batch_writes_kv, batch_writes_ops. cbn [map concat wj_mutations].
  rewrite !app_nil_r, (settles_rows _ _ _ _ _ _ _ _ _ _ Hs).
  unfold operation_writes. cbn [wj_operation wj_evicted_operations].
  rewrite apply_writes_app, apply_op_removes.
  unfold store_tables, settled_store. cbn [st_entries st_operations apply_writes foldl apply_write
    tb_operation_table]. fold r. fold plan. f_equal. symmetry. apply settled_records.
  - apply (ow_dom _ _ _ _ _ Hops).
  - assert (Hok : has_ok r = true → st_revision st < revision) by by eapply settles_ok.
    intros i1 i2 r1 r2 H1 H2 O1 O2 E.
    apply lookup_insert_Some in H1 as [[<- <-]|[N1 H1]];
    apply lookup_insert_Some in H2 as [[<- <-]|[N2 H2]]; try done.
    + apply (ow_ops _ _ _ _ _ Hops) in H2 as (_ & _ & ? & _). specialize (Hok O1). cbn in E. lia.
    + apply (ow_ops _ _ _ _ _ Hops) in H1 as (_ & _ & ? & _). specialize (Hok O2). cbn in E. lia.
    + by eapply (ow_one _ _ _ _ _ Hops).
Qed.
End level.
