(* ===== verification/KvRun.v ===== *)
(** * KvRun: durability and admission over whole runs *)

From S2P Require Import Prelude Schema Composite Ordered Kv KvWriter KvDedup KvReplay KvStore KvMutate KvProps KvWatch KvRetain KvReopen.

(** ** Runs *)

Record KvRequest := mkRequest {
  rq_now : Z; rq_id : OperationId; rq_fp : Hash; rq_durable : bool;
  rq_witnesses : list NativeStageWitness; rq_mutations : list NativeMutation
}.

Section run.
Context {D : Type} `{RedbLaws D}.
Context (env : KvEnv) (blake3_hash : list byte → Hash).

Definition fresh_link : WriterLink :=
  mkLink (WriterBudget_new MAX_PENDING_WRITES (writer_queue_max_bytes env)) []
         MAX_PENDING_WRITES true.

(** A store just opened, with its writer waiting. *)
Definition started (st : Store) (d : D) : KvSystem D := mkSystem st fresh_link Receiving d [].

Definition request_step (rq : KvRequest) (s : KvSystem D) :
    result NativeMutationError NativeCommit * KvSystem D :=
  let '(res, (st, l)) :=
    native_mutate env (rq_now rq) (rq_id rq) (rq_fp rq) (rq_durable rq) (rq_witnesses rq)
      (rq_mutations rq) (sy_store s, sy_link s) in
  (res, mkSystem st l (sy_phase s) (sy_db s) (sy_replies s)).

(** The jobs a step has queued, each with the store it belongs to. *)
Definition queued_since (s s' : KvSystem D) : list (WriteJob * Store) :=
  map (λ j, (j, sy_store s'))
    (drop (length (wl_queue (sy_link s))) (wl_queue (sy_link s'))).

(** [run st0 d0 n h s]: from a store opened on [d0], [n] calls and any number of
    writer steps lead to [s], and [h] are the jobs queued on the way. *)
Inductive run (st0 : Store) (d0 : D) : nat → list (WriteJob * Store) → KvSystem D → Prop :=
| run_started : run st0 d0 0 [] (started st0 d0)
| run_request n h s rq :
    run st0 d0 n h s →
    wf_request blake3_hash (rq_now rq) (rq_id rq) (rq_fp rq) (rq_witnesses rq) (rq_mutations rq) →
    let s' := (request_step rq s).2 in
    run st0 d0 (S n) (h ++ queued_since s s') s'
| run_writer n h s s' : run st0 d0 n h s → writer_step s = Some s' → run st0 d0 n h s'.

(** ** What a call does to the system *)

Definition last_store (st0 : Store) (h : list (WriteJob * Store)) : Store :=
  match last h with Some (_, st) => st | None => st0 end.

Lemma last_store_snoc st0 h j st : last_store st0 (h ++ [(j, st)]) = st.
Proof using. unfold last_store. by rewrite last_snoc. Qed.

(** The store of every job in [h] has the tables of the one before it with the job's
    writes applied. *)
Inductive linked (st0 : Store) : list (WriteJob * Store) → Prop :=
| linked_nil : linked st0 []
| linked_snoc h j st :
    linked st0 h → Store_wf env blake3_hash st →
    store_tables st = apply_writes (store_tables (last_store st0 h)) (batch_writes [j]) →
    linked st0 (h ++ [(j, st)]).

Lemma linked_snoc_inv st0 h x :
  linked st0 (h ++ [x]) →
  linked st0 h ∧ Store_wf env blake3_hash x.2
  ∧ store_tables x.2 = apply_writes (store_tables (last_store st0 h)) (batch_writes [x.1]).
Proof using.
  inversion 1 as [E|h' j st Hl Hw Ht E]; [by destruct h|].
  apply app_inj_tail in E as [-> <-]. done.
Qed.

Lemma linked_app st0 h1 h2 :
  linked st0 (h1 ++ h2) →
  linked st0 h1
  ∧ store_tables (last_store st0 (h1 ++ h2))
    = apply_writes (store_tables (last_store st0 h1)) (batch_writes h2.*1).
Proof using.
  induction h2 as [|[j st] h2 IH] using rev_ind; intros Hl.
  { rewrite app_nil_r in *. done. }
  rewrite app_assoc in *. apply linked_snoc_inv in Hl as (Hl & _ & Ht). cbn in Ht.
  destruct (IH Hl) as [H1 H2]. split; [done|].
  rewrite last_store_snoc, Ht, H2, fmap_app, batch_writes_app. done.
Qed.

Lemma linked_last_wf st0 h :
  Store_wf env blake3_hash st0 → linked st0 h → Store_wf env blake3_hash (last_store st0 h).
Proof using.
  intros H0' Hl. destruct Hl as [|h j st _ Hw _]; [done|]. by rewrite last_store_snoc.
Qed.

Context (Hblake : ∀ v, length (blake3_hash v) = 32%nat).

(** The effect of one call on the store, the queue and the jobs queued. *)
Inductive call_effect (s s' : KvSystem D) : Prop :=
| call_same : sy_store s' = sy_store s → sy_link s' = sy_link s → call_effect s s'
| call_memory_only :
    st_writer (sy_store s) = false → st_writer (sy_store s') = false →
    sy_link s' = sy_link s → Store_wf env blake3_hash (sy_store s') → call_effect s s'
| call_lost bytes permit b :
    st_writer (sy_store s) = true → st_writer (sy_store s') = false →
    0 <= bytes → WriterBudget_try_reserve (wl_budget (sy_link s)) bytes = Some (permit, b) →
    (wl_connected (sy_link s) = false ∨ wl_capacity (sy_link s) <= len (wl_queue (sy_link s))) →
    sy_link s' = set_budget (sy_link s) (WriterPermit_drop permit b) →
    Store_wf env blake3_hash (sy_store s') → call_effect s s'
| call_queued bytes b j :
    st_writer (sy_store s) = true → st_writer (sy_store s') = true →
    0 <= bytes → WriterBudget_try_reserve (wl_budget (sy_link s)) bytes = Some (wj_permit j, b) →
    wl_connected (sy_link s) = true → len (wl_queue (sy_link s)) < wl_capacity (sy_link s) →
    sy_link s' = set_queue (set_budget (sy_link s) b) (wl_queue (sy_link s) ++ [j]) →
    Store_wf env blake3_hash (sy_store s') →
    store_tables (sy_store s') = apply_writes (store_tables (sy_store s)) (batch_writes [j]) →
    call_effect s s'.

Lemma request_effect rq s :
  Store_wf env blake3_hash (sy_store s) →
  wf_request blake3_hash (rq_now rq) (rq_id rq) (rq_fp rq) (rq_witnesses rq) (rq_mutations rq) →
  st_revision (sy_store s) < U64_MAX → st_next_operation_sequence (sy_store s) < U64_MAX →
  let s' := (request_step rq s).2 in
  sy_phase s' = sy_phase s ∧ sy_db s' = sy_db s ∧ sy_replies s' = sy_replies s
  ∧ st_revision (sy_store s') <= st_revision (sy_store s) + 1
  ∧ st_next_operation_sequence (sy_store s') <= st_next_operation_sequence (sy_store s) + 1
  ∧ call_effect s s'.
Proof using Hblake.
  intros Hwf Hreq Hr Hn. unfold request_step.
  destruct (native_mutate _ _ _ _ _ _ _ _) as [res [st' l']] eqn:Hm. cbn.
  split_and!; [done..| | |]; apply native_mutate_outcome in Hm;
    destruct Hm as [| | | |entries total rv rs ps cs queued writer l' Ha Hf Hs Hd]; try lia.
  - destruct Hs as [Hc|w t rv' ch]; cbn [settled_store st_revision]; [lia|].
    subst rv'. unfold saturating_add_u64. lia.
  - cbn [settled_store st_next_operation_sequence]. unfold saturating_add_u64. lia.
  - by apply call_same.
  - by apply call_same.
  - by apply call_same.
  - by apply call_same.
  - assert (Hwf' : ∀ w, Store_wf env blake3_hash
      (settled_store (rq_id rq) (rq_fp rq) (rq_witnesses rq) (sy_store s) entries total rv rs cs w))
      by (intros w; by eapply settles_wf).
    inversion Hd as [Hw|bytes permit b Hw Hnn Hb Hc Hq|bytes permit b Hw Hnn Hb Hc]; subst.
    + apply call_memory_only; try done. apply Hwf'.
    + match goal with |- call_effect _ (mkSystem _ (set_queue _ (_ ++ [?j])) _ _ _) =>
        eapply (call_queued s _ bytes b j) end; [done|done|done|exact Hb|done|done|done|apply Hwf'|].
      cbn [sy_store]. by eapply settled_tables.
    + eapply call_lost; try done. apply Hwf'.
Qed.

(** ** Admission *)

(** The jobs the writer has taken from the queue and not yet answered. *)
Definition held (p : WriterPhase) : list WriteJob :=
  match p with Collecting batch => batch | Replying _ batch => batch | _ => [] end.

Definition job_bytes (js : list WriteJob) : Z :=
  foldr (λ j total, wp_bytes (wj_permit j) + total) 0 js.

(** The budget counts exactly the jobs between admission and their answer. *)
Definition admitted (l : WriterLink) (js : list WriteJob) : Prop :=
  wb_jobs (wl_budget l) = len js ∧ wb_bytes (wl_budget l) = job_bytes js
  ∧ Forall (λ j, 0 <= wp_bytes (wj_permit j)) js
  ∧ wb_max_jobs (wl_budget l) = MAX_PENDING_WRITES ∧ wl_capacity l = MAX_PENDING_WRITES
  ∧ len js <= MAX_PENDING_WRITES.

Definition Link_inv (s : KvSystem D) : Prop :=
  admitted (sy_link s) (held (sy_phase s) ++ wl_queue (sy_link s))
  ∧ (wl_connected (sy_link s) = false → sy_phase s = Stopped ∧ wl_queue (sy_link s) = []).

Lemma job_bytes_app a b : job_bytes (a ++ b) = job_bytes a + job_bytes b.
Proof using. induction a as [|j a IH]; cbn [app job_bytes foldr]; [done|]. unfold job_bytes in *. lia. Qed.

Lemma job_bytes_nonneg js : Forall (λ j, 0 <= wp_bytes (wj_permit j)) js → 0 <= job_bytes js.
Proof using. induction 1; unfold job_bytes in *; cbn [foldr]; lia. Qed.

#[local] Instance job_bytes_perm : Proper ((≡ₚ) ==> (=)) job_bytes.
Proof using. unfold job_bytes. induction 1; cbn [foldr]; lia. Qed.

Lemma admitted_perm l js js' : js ≡ₚ js' → admitted l js → admitted l js'.
Proof using.
  intros Hp (H1 & H2 & H3 & H4 & H5 & H6). unfold admitted, len in *.
  rewrite <- (Permutation_length Hp), <- (job_bytes_perm _ _ Hp). split_and!; try done.
  by rewrite <- Hp.
Qed.

Lemma admitted_queue l js q : admitted (set_queue l q) js ↔ admitted l js.
Proof using. done. Qed.

Lemma admitted_drop l j js : admitted l (j :: js) → admitted (drop_job l j) js.
Proof using.
  intros (H1 & H2 & H3 & H4 & H5 & H6). apply Forall_cons in H3 as [Hj Hjs].
  pose proof (job_bytes_nonneg js Hjs). rewrite len_cons in *. pose proof (len_nonneg js).
  change (job_bytes (j :: js)) with (wp_bytes (wj_permit j) + job_bytes js) in H2.
  unfold admitted, drop_job, WriterPermit_drop, saturating_sub. cbn [set_budget wl_budget wb_jobs
    wb_bytes wb_max_jobs wl_capacity]. split_and!; try done; lia.
Qed.

Lemma admitted_drop_all l js : admitted l js → admitted (foldl drop_job l js) [].
Proof using.
  revert l. induction js as [|j js IH]; intros l Hl; [done|]. cbn [foldl].
  by apply IH, admitted_drop.
Qed.

Lemma wl_queue_drops l js :
  wl_queue (foldl drop_job l js) = wl_queue l.
Proof using. revert l. induction js as [|j js IH]; intros l; [done|]. cbn [foldl]. by rewrite IH. Qed.

Lemma admitted_reserve l js bytes permit b :
  admitted l js → WriterBudget_try_reserve (wl_budget l) bytes = Some (permit, b) →
  len js < MAX_PENDING_WRITES ∧ wp_bytes permit = bytes
  ∧ b = mkBudget (len js + 1) (job_bytes js + bytes) MAX_PENDING_WRITES (wb_max_bytes (wl_budget l)).
Proof using.
  intros (H1 & H2 & H3 & H4 & H5 & H6). unfold WriterBudget_try_reserve.
  destruct (checked_add_u64 _ 1) as [nj|] eqn:E1; [|done].
  destruct (checked_add_u64 _ bytes) as [nb|] eqn:E2; [|done]. cbn [mbind option_bind].
  apply checked_add_u64_some in E1 as [-> _], E2 as [-> _].
  rewrite H4. destruct (Z.ltb_spec MAX_PENDING_WRITES (wb_jobs (wl_budget l) + 1)); [done|].
  cbn [orb]. destruct (_ <? _); [done|]. intros [= <- <-]. rewrite H1, H2 in *. split_and!; [lia|done..].
Qed.

Lemma link_inv_request s s' :
  sy_phase s' = sy_phase s → call_effect s s' → Link_inv s → Link_inv s'.
Proof using.
  intros Hp Hc [Ha Hst]. unfold Link_inv. rewrite Hp.
  destruct Hc as [_ ->|_ _ -> _|bytes permit b _ _ Hnn Hb _ -> _|bytes b j _ _ Hnn Hb Hcon Hlt -> _ _]; [done..| |].
  - split; [|done]. destruct (admitted_reserve _ _ _ _ _ Ha Hb) as (Hl & Hbytes & ->).
    destruct Ha as (H1 & H2 & H3 & H4 & H5 & H6). pose proof (job_bytes_nonneg _ H3).
    pose proof (len_nonneg (held (sy_phase s) ++ wl_queue (sy_link s))).
    unfold admitted, WriterPermit_drop, saturating_sub. cbn [set_budget wl_budget wb_jobs wb_bytes
      wb_max_jobs wl_capacity wl_queue]. split_and!; try done; lia.
  - destruct (admitted_reserve _ _ _ _ _ Ha Hb) as (Hl & Hbytes & ->).
    destruct Ha as (H1 & H2 & H3 & H4 & H5 & H6). cbn [set_queue wl_queue].
    split.
    + rewrite app_assoc. set (js := held (sy_phase s) ++ wl_queue (sy_link s)) in *.
      unfold admitted. cbn [set_queue set_budget wl_budget wb_jobs wb_bytes
        wb_max_jobs wl_capacity]. rewrite job_bytes_app, len_app. change (len [j]) with 1.
      change (job_bytes [j]) with (wp_bytes (wj_permit j) + 0). rewrite Hbytes. split_and!; try done; try lia.
      apply Forall_app. split; [done|]. constructor; [lia|constructor].
    + cbn [set_queue set_budget wl_connected]. congruence.
Qed.

Lemma link_inv_writer s s' : writer_step s = Some s' → Link_inv s → Link_inv s'.
Proof using.
  intros Hs [Ha Hst]. unfold writer_step in Hs.
  destruct s as [st l ph d reps]. cbn [sy_store sy_link sy_phase sy_db sy_replies] in *.
  destruct ph as [|batch|ok [|j batch]| | |]; cbn [held] in Ha.
  - destruct (wl_queue l) as [|j q] eqn:Eq.
    + destruct (st_writer st); [done|]. inversion Hs; subst s'; clear Hs. split; cbn; [by rewrite Eq|]. naive_solver.
    + inversion Hs; subst s'; clear Hs. split; cbn; [done|]. naive_solver.
  - destruct (wl_queue l) as [|j q] eqn:Eq.
    + destruct (redb_commit d (batch_writes batch)) as [r d']. inversion Hs; subst s'; clear Hs.
      split; cbn; [by rewrite Eq|]. naive_solver.
    + inversion Hs; subst s'; clear Hs. split; cbn; [by rewrite <- app_assoc|]. naive_solver.
  - destruct ok; inversion Hs; subst s'; clear Hs; (split; cbn; [done|]); naive_solver.
  - destruct ok; inversion Hs; subst s'; clear Hs; (split; cbn; [by apply admitted_drop in Ha|]); naive_solver.
  - destruct (wl_queue l) as [|j q] eqn:Eq; inversion Hs; subst s'; clear Hs.
    + split; cbn; [by rewrite Eq|]. naive_solver.
    + split; cbn; [by apply admitted_drop in Ha|]. naive_solver.
  - inversion Hs; subst s'; clear Hs. split; cbn; rewrite wl_queue_drops; [|done].
    apply (admitted_drop_all (set_queue l [])) in Ha. exact Ha.
  - done.
Qed.

(** ** Durability *)

(** The jobs already in the database, and the ones that may still get there. *)
Definition phase_ok (p : WriterPhase) (done pend : list (WriteJob * Store)) (q : list WriteJob) :
    Prop :=
  match p with
  | Receiving => pend.*1 = q
  | Collecting batch => pend.*1 = batch ++ q
  | Replying true batch => pend.*1 = q ∧ ∀ j, j ∈ batch → j ∈ done.*1
  | _ => True
  end.

Definition durable_upto (st0 : Store) (h : list (WriteJob * Store)) (s : KvSystem D) : Prop :=
  ∃ done pend, h = done ++ pend
    ∧ redb_tables (sy_db s) = store_tables (last_store st0 done)
    ∧ (∀ j, (j, true) ∈ sy_replies s → j ∈ done.*1)
    ∧ phase_ok (sy_phase s) done pend (wl_queue (sy_link s)).

Record Run_inv (st0 : Store) (n : nat) (h : list (WriteJob * Store)) (s : KvSystem D) : Prop := {
  ri_wf : Store_wf env blake3_hash (sy_store s);
  ri_linked : linked st0 h;
  ri_attached : st_writer (sy_store s) = true → sy_store s = last_store st0 h;
  ri_bounds : st_revision (sy_store s) <= st_revision st0 + Z.of_nat n
    ∧ st_next_operation_sequence (sy_store s) <= st_next_operation_sequence st0 + Z.of_nat n;
  ri_durable : durable_upto st0 h s;
  ri_link : Link_inv s
}.

Lemma queued_since_eq s s' js :
  wl_queue (sy_link s') = wl_queue (sy_link s) ++ js →
  queued_since s s' = map (λ j, (j, sy_store s')) js.
Proof using. intros E. unfold queued_since. by rewrite E, drop_app_length. Qed.

Lemma durable_request st0 h s s' extra :
  sy_phase s' = sy_phase s → sy_db s' = sy_db s → sy_replies s' = sy_replies s →
  wl_queue (sy_link s') = wl_queue (sy_link s) ++ extra.*1 →
  durable_upto st0 h s → durable_upto st0 (h ++ extra) s'.
Proof using.
  intros Hp Hd Hr Hq (done & pend & -> & Ht & Hrep & Hph).
  exists done, (pend ++ extra). rewrite Hd, Hr, Hp, Hq. split_and!; [by rewrite app_assoc|done|done|].
  unfold phase_ok in *. destruct (sy_phase s) as [|batch|[] batch| | |]; try done; rewrite fmap_app.
  - by rewrite Hph.
  - by rewrite Hph, app_assoc.
  - destruct Hph as [-> Hb]. done.
Qed.

Lemma durable_reply st0 h s s' j ok :
  sy_replies s' = reply_to j ok (sy_replies s) → sy_db s' = sy_db s →
  (∀ done pend, phase_ok (sy_phase s) done pend (wl_queue (sy_link s)) →
     (ok = true → j ∈ done.*1) ∧ phase_ok (sy_phase s') done pend (wl_queue (sy_link s'))) →
  durable_upto st0 h s → durable_upto st0 h s'.
Proof using.
  intros Hr Hd Hp (done & pend & Hh & Ht & Hrep & Hph). destruct (Hp _ _ Hph) as [Hj Hph'].
  exists done, pend. rewrite Hd, Hr. split_and!; [done..| |done].
  unfold reply_to. destruct (wj_native_reply j); [|done]. intros x.
  rewrite elem_of_app, list_elem_of_singleton. intros [Hx|[= -> <-]]; [by apply Hrep|by apply Hj].
Qed.

Lemma durable_quiet st0 h s s' :
  sy_replies s' = sy_replies s → sy_db s' = sy_db s →
  (∀ done pend, phase_ok (sy_phase s) done pend (wl_queue (sy_link s)) →
     phase_ok (sy_phase s') done pend (wl_queue (sy_link s'))) →
  durable_upto st0 h s → durable_upto st0 h s'.
Proof using.
  intros Hr Hd Hp (done & pend & Hh & Ht & Hrep & Hph).
  exists done, pend. rewrite Hd, Hr. split_and!; auto.
Qed.

(** One transaction moves a whole batch into the database, or nothing. *)
Lemma durable_commit st0 h s s' batch r d :
  linked st0 h → sy_phase s = Collecting batch → wl_queue (sy_link s) = [] →
  redb_commit (sy_db s) (batch_writes batch) = (r, d) →
  s' = mkSystem (sy_store s) (sy_link s) (Replying (is_ok r) batch) d (sy_replies s) →
  durable_upto st0 h s → durable_upto st0 h s'.
Proof using H0.
  intros Hl Hp Hq Hc -> (done & pend & -> & Ht & Hrep & Hph). rewrite Hp, Hq in Hph.
  cbn in Hph. rewrite app_nil_r in Hph. unfold durable_upto.
  cbn [sy_db sy_replies sy_phase sy_link]. rewrite Hq.
  destruct r as [[]|e]; cbn [is_ok phase_ok].
  - exists (done ++ pend), []. rewrite app_nil_r. split_and!; try done.
    + apply redb_commit_ok in Hc. rewrite Hc, Ht, <- Hph.
      by destruct (linked_app st0 done pend Hl) as [_ ->].
    + intros j Hj. rewrite fmap_app. apply elem_of_app. left. by apply Hrep.
    + intros j Hj. rewrite fmap_app. apply elem_of_app. right. by rewrite Hph.
  - exists done, pend. apply redb_commit_err in Hc. rewrite Hc. done.
Qed.

Lemma durable_writer st0 h s s' :
  linked st0 h → writer_step s = Some s' → durable_upto st0 h s → durable_upto st0 h s'.
Proof using H0.
  intros Hl Hs Hd. unfold writer_step in Hs.
  destruct (sy_phase s) as [|batch|ok [|j batch]| | |] eqn:Hp.
  - destruct (wl_queue (sy_link s)) as [|j q] eqn:Eq.
    + destruct (st_writer (sy_store s)); [done|]. inversion Hs; subst s'.
      eapply (durable_quiet _ _ s); try done. 
    + inversion Hs; subst s'. eapply (durable_quiet _ _ s); try done. cbn. by rewrite Hp, Eq.
  - destruct (wl_queue (sy_link s)) as [|j q] eqn:Eq.
    + destruct (redb_commit (sy_db s) (batch_writes batch)) as [r d] eqn:Ec.
      inversion Hs; subst s'. by eapply (durable_commit _ _ s _ batch r d).
    + inversion Hs; subst s'. eapply (durable_quiet _ _ s); try done. cbn. rewrite Hp, Eq. cbn.
      intros done pend ->. by rewrite <- app_assoc.
  - destruct ok; inversion Hs; subst s'; eapply (durable_quiet _ _ s); try done. cbn. rewrite Hp.
    by intros done pend [? _].
  - destruct ok; inversion Hs; subst s'; eapply (durable_reply _ _ s _ j); try done; rewrite Hp; cbn.
    intros done pend [Hq Hb]. split_and!; [|done|]; intros; apply Hb; by (left || right).
  - destruct (wl_queue (sy_link s)) as [|j q] eqn:Eq; inversion Hs; subst s'.
    + by eapply (durable_quiet _ _ s).
    + by eapply (durable_reply _ _ s _ j false).
  - inversion Hs; subst s'. by eapply (durable_quiet _ _ s).
  - done.
Qed.

(** ** The invariant of runs *)

Context (st0 : Store) (d0 : D).
Context (Hlevel : level env blake3_hash st0 d0).

Lemma run_inv_started : Run_inv st0 0 [] (started st0 d0).
Proof using Hlevel.
  destruct Hlevel as [Hwf Ht]. split; cbn [started sy_store]; [done|constructor|done|lia| |].
  - exists [], []. split_and!; [done|done| |done]. by intros ? ?%not_elem_of_nil.
  - split; [|done]. cbn. unfold admitted. cbn. split_and!; done.
Qed.

Lemma run_inv_request n h s rq :
  st_revision st0 + Z.of_nat n < U64_MAX →
  st_next_operation_sequence st0 + Z.of_nat n < U64_MAX →
  wf_request blake3_hash (rq_now rq) (rq_id rq) (rq_fp rq) (rq_witnesses rq) (rq_mutations rq) →
  Run_inv st0 n h s →
  Run_inv st0 (S n) (h ++ queued_since s (request_step rq s).2) (request_step rq s).2.
Proof using Hblake.
  intros Hr Hn Hreq [Hwf Hlk Hat [Hb1 Hb2] Hdur Hli].
  destruct (request_effect rq s) as (Hph & Hdb & Hrp & Hr' & Hn' & Hc); [done|done|lia|lia|].
  set (s' := (request_step rq s).2) in *.
  pose proof (link_inv_request s s' Hph Hc Hli) as Hli'.
  destruct Hc as [Es El|Hw Hw' El Hwf'|bytes permit b Hw Hw' Hnn Hb Hcon El Hwf'
                 |bytes b j Hw Hw' Hnn Hb Hcon Hlt El Hwf' Hts].
  - rewrite (queued_since_eq s s' []) by (rewrite El; by rewrite app_nil_r). cbn [map].
    split; rewrite ?Es; rewrite ?app_nil_r; try done; [lia|].
    rewrite <- (app_nil_r h). eapply durable_request; try done. by rewrite El, app_nil_r.
  - rewrite (queued_since_eq s s' []) by (rewrite El; by rewrite app_nil_r). cbn [map].
    split; rewrite ?app_nil_r; try done; [congruence|lia|].
    rewrite <- (app_nil_r h). eapply durable_request; try done. by rewrite El, app_nil_r.
  - rewrite (queued_since_eq s s' []) by (rewrite El; by rewrite app_nil_r). cbn [map].
    split; rewrite ?app_nil_r; try done; [congruence|lia|].
    rewrite <- (app_nil_r h). eapply durable_request; try done. by rewrite El, app_nil_r.
  - rewrite (queued_since_eq s s' [j]) by by rewrite El. cbn [map].
    split; try done.
    + constructor; [done|done|]. by rewrite <- (Hat Hw).
    + by rewrite last_store_snoc.
    + lia.
    + eapply durable_request; try done. by rewrite El.
Qed.

Lemma run_invariant n h s :
  run st0 d0 n h s → st_revision st0 + Z.of_nat n <= U64_MAX →
  st_next_operation_sequence st0 + Z.of_nat n <= U64_MAX → Run_inv st0 n h s.
Proof using Hblake Hlevel H0.
  intros Hrun. induction Hrun as [|n h s rq Hrun IH Hreq s'|n h s s' Hrun IH Hs]; intros Hr Hn.
  - apply run_inv_started.
  - apply run_inv_request; [lia|lia|done|]. apply IH; lia.
  - destruct (IH Hr Hn) as [Hwf Hlk Hat Hb Hdur Hli].
    assert (Hst : sy_store s' = sy_store s).
    { unfold writer_step in Hs. repeat case_match; simplify_eq; done. }
    split; rewrite ?Hst; try done; [by eapply durable_writer|by eapply link_inv_writer].
Qed.

(** C6: the store never loses its shape: in every run that starts from an open,
    consistent store, whatever calls, writer steps and transaction failures
    interleave, the store satisfies its type invariant (retained operations
    distinct, ordered by settlement, each pinned or recent, at most one per
    revision; every live entry established by a retained operation, its hash
    the BLAKE3 of its value; byte count exact; entries and bytes within their
    limits) and retains at most 1024 operations more than it has entries. *)
Theorem kv_store_invariant n h s :
  run st0 d0 n h s → st_revision st0 + Z.of_nat n <= U64_MAX →
  st_next_operation_sequence st0 + Z.of_nat n <= U64_MAX →
  Store_wf env blake3_hash (sy_store s)
  ∧ Z.of_nat (size (st_operations (sy_store s)))
    <= MAX_RECENT_OPERATION_REPLAYS + Z.of_nat (size (st_entries (sy_store s))).
Proof using Hblake Hlevel H0.
  intros Hrun Hr Hn. destruct (run_invariant n h s Hrun Hr Hn) as [Hwf _ _ _ _ _]. split; [done|].
  rewrite (ops_size _ _ _ _ _ (sw_ops _ _ _ Hwf)).
  pose proof (ops_bounded _ _ _ _ _ (sw_ops _ _ _ Hwf)) as Hb.
  change recent_count with 1024%nat in Hb. unfold MAX_RECENT_OPERATION_REPLAYS. lia.
Qed.

(** C2: crash durability is prefix-consistent: stop a run anywhere, even between a
    failed transaction and the replies to its jobs, and open its database
    again. The store that opens is exactly the store as it was after some
    prefix of the queued jobs (entries, retained operations and their order,
    sequence, revision, byte count), that prefix contains every job whose
    durable waiter was told it is persisted, and store and database are again
    consistent. *)
Theorem restart_recovers_prefix n h s t1 t2 :
  run st0 d0 n h s → st_revision st0 + Z.of_nat n <= U64_MAX →
  st_next_operation_sequence st0 + Z.of_nat n <= U64_MAX →
  redb_read (sy_db s) TABLE = Ok t1 → redb_read (sy_db s) OPERATION_TABLE = Ok t2 →
  ∃ done lost, h = done ++ lost
    ∧ (∀ j, (j, true) ∈ sy_replies s → j ∈ done.*1)
    ∧ Store_open blake3_hash env true (Some (sy_db s))
      = (reopened (last_store st0 done) true, Some (sy_db s), fresh_link)
    ∧ level env blake3_hash (reopened (last_store st0 done) true) (sy_db s).
Proof using Hblake Hlevel H0.
  intros Hrun Hr Hn R1 R2. destruct (run_invariant n h s Hrun Hr Hn) as [_ Hlk _ _ Hdur _].
  destruct Hdur as (done & pend & -> & Ht & Hrep & _). exists done, pend.
  assert (Hwf : Store_wf env blake3_hash (last_store st0 done)).
  { apply linked_last_wf; [by destruct Hlevel|]. by apply linked_app in Hlk as [? _]. }
  split_and!; [done|done| |].
  - unfold fresh_link. by apply (store_open_restores env blake3_hash _ Hwf _ Ht _ t1 t2).
  - split; [by destruct Hwf|]. by rewrite Ht.
Qed.

(** C8: the admission budget is exact and the bounded channel can never refuse an
    admitted job: in every run the budget counts precisely the jobs queued or
    held by the writer, at most 64, and their bytes; and whenever a
    reservation succeeds while the writer is there, the queue has room, so
    the [Full] branch of [enqueue_job] is unreachable and a store loses its
    writer only after the writer has stopped. *)
Theorem writer_admission_exact n h s :
  run st0 d0 n h s → st_revision st0 + Z.of_nat n <= U64_MAX →
  st_next_operation_sequence st0 + Z.of_nat n <= U64_MAX →
  let l := sy_link s in let js := held (sy_phase s) ++ wl_queue l in
  wb_jobs (wl_budget l) = len js ∧ wb_bytes (wl_budget l) = job_bytes js
  ∧ len js <= MAX_PENDING_WRITES
  ∧ (wl_connected l = false → sy_phase s = Stopped)
  ∧ ∀ bytes permit b j, WriterBudget_try_reserve (wl_budget l) bytes = Some (permit, b) →
      wl_connected l = true →
      try_send (set_budget l b) j = (None, set_queue (set_budget l b) (wl_queue l ++ [j])).
Proof using Hblake Hlevel H0.
  intros Hrun Hr Hn. destruct (run_invariant n h s Hrun Hr Hn) as [_ _ _ _ _ [Ha Hst]].
  cbn zeta. pose proof Ha as (H1 & H2 & _ & _ & H5 & H6). split_and!; [done..|by intros [? _]%Hst|].
  intros bytes permit b j Hb Hc. destruct (admitted_reserve _ _ _ _ _ Ha Hb) as (Hlt & _ & _).
  rewrite len_app in Hlt. pose proof (len_nonneg (held (sy_phase s))).
  unfold try_send. cbn [set_budget wl_connected wl_capacity wl_queue]. rewrite Hc, H5. cbn [negb].
  by rewrite (proj2 (Z.leb_gt _ _)) by lia.
Qed.
End run.

(** * The key-value theorems at concrete stores

    An in-memory database whose transactions fail as a schedule says, an empty
    store on it, and a run of two durable writes of which the second fails. *)

(** ** A database *)

Record MemDb := mkMemDb { md_tables : Tables; md_failures : list bool }.

#[global] Instance MemDb_redb : Redb MemDb := {|
  redb_read d t := Ok (Some (table_rows (md_tables d) t));
  redb_commit d ws :=
    match md_failures d with
    | true :: rest => (Err RedbFailed, mkMemDb (md_tables d) rest)
    | false :: rest => (Ok (), mkMemDb (apply_writes (md_tables d) ws) rest)
    | [] => (Ok (), mkMemDb (apply_writes (md_tables d) ws) [])
    end;
  redb_tables := md_tables
|}.

#[global] Instance MemDb_laws : RedbLaws MemDb.
Proof.
  split.
  - intros d t o. cbn. by intros [= <-].
  - intros [ts f] ws d'. cbn. destruct f as [|[] f]; by intros [= <-].
  - intros [ts f] ws e d'. cbn. destruct f as [|[] f]; try done. intros E. by inversion E.
Qed.

(** ** An empty store *)

Definition no_env : KvEnv := λ _, None.
Definition zero_hash : list byte → Hash := λ _, zeros 32.
Definition store0 : Store := set_writer Store_empty true.
Definition db0 : MemDb := mkMemDb (mkTables ∅ ∅) [false; true].

Lemma zero_hash_length v : length (zero_hash v) = 32%nat.
Proof. done. Qed.

Lemma store0_wf w : Store_wf no_env zero_hash (set_writer Store_empty w).
Proof.
  split; cbn; [|by intros ? ? ?%lookup_empty_Some|done|done|done].
  split; cbn [set_writer Store_empty st_entries st_operations st_operation_order
    st_next_operation_sequence st_revision].
  - constructor.
  - intros id. rewrite lookup_empty. split; [by intros ?%not_elem_of_nil|by intros [? ?]].
  - constructor.
  - by intros ? ? ?%lookup_empty_Some.
  - by intros ? ? ? ? ?%lookup_empty_Some.
  - by intros ? ?%not_elem_of_nil.
  - by intros ? ? ?%lookup_empty_Some.
  - done.
  - done.
Qed.

Lemma store0_level : level no_env zero_hash store0 db0.
Proof. split; [apply store0_wf|done]. Qed.

(** ** Two writes *)

Definition key_a : Key := bytes_of [97].
Definition key_b : Key := bytes_of [98].
Definition id1 : OperationId := replicate 16 Byte.x01.
Definition id2 : OperationId := replicate 16 Byte.x02.
Definition put_a : NativeMutation := Put key_a Absent (bytes_of [1; 2]) (zeros 32).
Definition put_b : NativeMutation := Put key_b Any (bytes_of [3]) (zeros 32).
Definition rq1 : KvRequest := mkRequest 5 id1 (zeros 32) true [] [put_a].
Definition rq2 : KvRequest := mkRequest 6 id2 (zeros 32) true [] [put_b; Delete key_a (RevisionIs 2)].

Lemma rq1_wf :
  wf_request zero_hash (rq_now rq1) (rq_id rq1) (rq_fp rq1) (rq_witnesses rq1) (rq_mutations rq1).
Proof. repeat split; repeat constructor; done. Qed.
Lemma rq2_wf :
  wf_request zero_hash (rq_now rq2) (rq_id rq2) (rq_fp rq2) (rq_witnesses rq2) (rq_mutations rq2).
Proof. repeat split; repeat constructor; done. Qed.

(** A step of the writer, staying put when it is blocked. *)
Definition writes (s : KvSystem MemDb) : KvSystem MemDb := default s (writer_step s).

(** First write queued; received; committed; answered; waiting; second one queued,
    received, its transaction fails. *)
Definition sys1 := (request_step no_env rq1 (started no_env store0 db0)).2.
Definition sys2 := writes (writes (writes (writes sys1))).
Definition sys3 := (request_step no_env rq2 sys2).2.
Definition sys4 := writes (writes sys3).

Definition can_write (s : KvSystem MemDb) : bool :=
  match writer_step s with Some _ => true | None => false end.

Lemma run_writes n h s :
  can_write s = true → run no_env zero_hash store0 db0 n h s →
  run no_env zero_hash store0 db0 n h (writes s).
Proof.
  unfold can_write, writes. intros Hc Hr. destruct (writer_step s) as [s'|] eqn:E; [|done].
  by eapply run_writer.
Qed.

Lemma run4 : ∃ h, run no_env zero_hash store0 db0 2 h sys4 ∧ length h = 2%nat.
Proof.
  eexists. split.
  - do 2 (apply run_writes; [vm_compute; reflexivity|]).
    eapply (run_request no_env zero_hash store0 db0 1 _ sys2 rq2); [|apply rq2_wf].
    do 4 (apply run_writes; [vm_compute; reflexivity|]).
    apply (run_request no_env zero_hash store0 db0 0 [] (started no_env store0 db0) rq1).
    + constructor.
    + apply rq1_wf.
  - vm_compute. reflexivity.
Qed.

(** The first write was acknowledged, the second is in memory only. *)
Example sys4_replies : length (sy_replies sys4) = 1%nat ∧ sy_phase sys4 = Replying false (held (sy_phase sys4)).
Proof. vm_compute. done. Qed.

(** ** Witnesses *)

Lemma native_mutate_refines_witness :
  spec_step 5 id1 (zeros 32) [put_a] (abs store0)
    (answer (native_mutate no_env 5 id1 (zeros 32) true [] [put_a] (store0, fresh_link no_env)).1)
    (abs (native_mutate no_env 5 id1 (zeros 32) true [] [put_a] (store0, fresh_link no_env)).2.1).
Proof.
  eapply (native_mutate_refines no_env zero_hash zero_hash_length 5 id1 (zeros 32) true [] [put_a]
    store0 (fresh_link no_env)); [apply store0_wf|apply rq1_wf|done|done|].
  vm_compute. reflexivity.
Defined.

(** An empty batch is refused as invalid, and a batch for lack of room when the budget has no room
    for a job. *)
Lemma mutation_refused_only_for_witness :
  let full := mkLink (WriterBudget_new 0 (writer_queue_max_bytes no_env)) [] 0 true in
  (native_mutate no_env 5 id1 (zeros 32) true [] [] (store0, full)).1 = Err Mutation_Invalid
  ∧ (native_mutate no_env 5 id1 (zeros 32) true [] [put_a] (store0, full)).1 = Err Mutation_ResourceExhausted.
Proof.
  intros full. assert (budget_usize (wl_budget full)) as Hb by (split; vm_compute; done). split.
  - apply (mutation_refused_only_for no_env zero_hash zero_hash_length 5 id1 (zeros 32) true [] [] store0 full);
      [apply store0_wf|repeat split; repeat constructor; done|done|done|exact Hb|]. by intros [Hne _].
  - apply (mutation_refused_only_for no_env zero_hash zero_hash_length 5 id1 (zeros 32) true [] [put_a] store0 full);
      [apply store0_wf|apply rq1_wf|done|done|exact Hb|].
    split; [by apply admissible_within|]. split; [reflexivity|]. right. split; [reflexivity|]. left. reflexivity.
Defined.

Lemma watch_follows_store_witness :
  let w := native_watch store0 [] in
  chained (nw_revision w) (drop (nw_changes w) (st_native_changes (sy_store sys3)))
    (native_revision (sy_store sys3))
  ∧ native_revision (sy_store sys3) = 3.
Proof.
  split; [|vm_compute; reflexivity].
  assert (Hrun : rtc (mutate_step no_env) store0 (sy_store sys3));
    [|exact (proj1 (watch_follows_store no_env store0 (sy_store sys3) [] Hrun))].
  apply (rtc_l _ _ (sy_store sys2)); [|apply rtc_once].
  - exists 5, id1, (zeros 32), true, [], [put_a], (fresh_link no_env).
    do 2 eexists. vm_compute. reflexivity.
  - exists 6, id2, (zeros 32), true, [], [put_b; Delete key_a (RevisionIs 2)], (sy_link sys2).
    do 2 eexists. vm_compute. reflexivity.
Defined.

(** A database with a foreign row in its operation table. *)
Definition stale_db : MemDb := mkMemDb (mkTables ∅ {[ key_a := key_b ]}) [].

Lemma pruning_terminates_witness :
  ∃ res d', prune_persisted_operation_replays (prune_fuel stale_db) stale_db ∅ = Some (res, d').
Proof.
  destruct (pruning_terminates (H0 := MemDb_laws) stale_db ∅) as (res & d' & H & _).
  exists res, d'. exact H.
Defined.

Lemma kv_store_invariant_witness : Store_wf no_env zero_hash (sy_store sys4).
Proof.
  destruct run4 as (h & Hrun & _).
  apply (kv_store_invariant (H0 := MemDb_laws) no_env zero_hash zero_hash_length store0 db0
    store0_level 2 h sys4 Hrun); vm_compute; discriminate.
Defined.

Lemma restart_recovers_prefix_witness :
  ∃ done, Store_open zero_hash no_env true (Some (sy_db sys4))
          = (reopened (last_store store0 done) true, Some (sy_db sys4), fresh_link no_env)
          ∧ ∀ j, (j, true) ∈ sy_replies sys4 → j ∈ done.*1.
Proof.
  destruct run4 as (h & Hrun & _).
  destruct (restart_recovers_prefix (H0 := MemDb_laws) no_env zero_hash zero_hash_length store0 db0
    store0_level 2 h sys4 (Some (tb_table (md_tables (sy_db sys4))))
    (Some (tb_operation_table (md_tables (sy_db sys4)))) Hrun) as (done & lost & _ & Hrep & Hopen & _);
    [vm_compute; discriminate|vm_compute; discriminate|reflexivity|reflexivity|].
  exists done. split; [exact Hopen|exact Hrep].
Defined.

Lemma writer_admission_exact_witness : wb_jobs (wl_budget (sy_link sys4)) = 1.
Proof.
  destruct run4 as (h & Hrun & _).
  rewrite (proj1 (writer_admission_exact (H0 := MemDb_laws) no_env zero_hash zero_hash_length store0
    db0 store0_level 2 h sys4 Hrun ltac:(vm_compute; discriminate) ltac:(vm_compute; discriminate))).
  vm_compute. reflexivity.
Defined.
