(* ===== verification/ChannelPool.v ===== *)
(** * ChannelPool: reference-counted admission of channel pairs
      ([crates/server/src/channel.rs])

    A connected pair is charged against the number of pairs, the reserved
    window bytes and one handle slot per side for as long as anything holds a
    [NativePairSide]: a pending connect, a link end, a queued event or a
    session handling one. The sides share [Arc]s whose last drop releases the
    charge, so the counters live in a store of strong counts. *)

From S2P Require Import Prelude Schema.

Definition FLOW_WINDOW_BYTES : Z := 1024 * 1024.

(** A side names the two [Arc]s it holds: the pair's reservation and its slot. *)
Record NativePairSide := mkSide { ps_reservation : Z; ps_slot : Z }.

#[global] Instance NativePairSide_eq_dec : EqDecision NativePairSide.
Proof. solve_decision. Defined.

Record ChannelLimits := mkChannelLimits {
  cl_listeners_per_endpoint : Z; cl_listeners : Z; cl_handles_per_endpoint : Z;
  cl_connected_pairs : Z; cl_buffer_bytes : Z
}.

Definition ChannelLimits_default : ChannelLimits :=
  mkChannelLimits 64 1024 64 128 (256 * 1024 * 1024).

(** [PairReservationInner] and [HandleSlotReservationInner] by address, with their
    strong counts; [pp_next] is the next fresh address. *)
Record PairPool := mkPool {
  pp_pairs : gmap Z (Z * Z);      (* window bytes, strong count *)
  pp_slots : gmap Z (Z * Z);      (* endpoint, strong count *)
  pp_next : Z;
  pp_endpoint_slots : gmap Z Z;
  pp_active_pairs : Z;
  pp_reserved_window_bytes : Z
}.

Definition PairPool_new : PairPool := mkPool ∅ ∅ 0 ∅ 0 0.

(** [fetch_sub] wraps around. *)
Definition fetch_sub (a b : Z) : Z := (a - b) mod (U64_MAX + 1).

(** [impl Drop for PairReservationInner] *)
Definition release_pair (window : Z) (p : PairPool) : PairPool :=
  mkPool (pp_pairs p) (pp_slots p) (pp_next p) (pp_endpoint_slots p)
    (fetch_sub (pp_active_pairs p) 1) (fetch_sub (pp_reserved_window_bytes p) window).

(** [impl Drop for HandleSlotReservationInner] *)
Definition release_slot (endpoint : Z) (p : PairPool) : PairPool :=
  match pp_endpoint_slots p !! endpoint with
  | None => p
  | Some count =>
      let count := saturating_sub count 1 in
      mkPool (pp_pairs p) (pp_slots p) (pp_next p)
        (if count =? 0 then delete endpoint (pp_endpoint_slots p)
         else <[endpoint := count]> (pp_endpoint_slots p))
        (pp_active_pairs p) (pp_reserved_window_bytes p)
  end.

(** Cloning an [Arc] adds a reference; dropping one releases the object with the last. *)
Definition clone_reservation (r : Z) (p : PairPool) : PairPool :=
  match pp_pairs p !! r with
  | Some (w, n) => mkPool (<[r := (w, n + 1)]> (pp_pairs p)) (pp_slots p) (pp_next p)
                     (pp_endpoint_slots p) (pp_active_pairs p) (pp_reserved_window_bytes p)
  | None => p
  end.

Definition drop_reservation (r : Z) (p : PairPool) : PairPool :=
  match pp_pairs p !! r with
  | Some (w, n) =>
      if n =? 1 then
        release_pair w (mkPool (delete r (pp_pairs p)) (pp_slots p) (pp_next p)
                          (pp_endpoint_slots p) (pp_active_pairs p) (pp_reserved_window_bytes p))
      else mkPool (<[r := (w, n - 1)]> (pp_pairs p)) (pp_slots p) (pp_next p)
             (pp_endpoint_slots p) (pp_active_pairs p) (pp_reserved_window_bytes p)
  | None => p
  end.

Definition clone_slot (s : Z) (p : PairPool) : PairPool :=
  match pp_slots p !! s with
  | Some (e, n) => mkPool (pp_pairs p) (<[s := (e, n + 1)]> (pp_slots p)) (pp_next p)
                     (pp_endpoint_slots p) (pp_active_pairs p) (pp_reserved_window_bytes p)
  | None => p
  end.

Definition drop_slot (s : Z) (p : PairPool) : PairPool :=
  match pp_slots p !! s with
  | Some (e, n) =>
      if n =? 1 then
        release_slot e (mkPool (pp_pairs p) (delete s (pp_slots p)) (pp_next p)
                          (pp_endpoint_slots p) (pp_active_pairs p) (pp_reserved_window_bytes p))
      else mkPool (pp_pairs p) (<[s := (e, n - 1)]> (pp_slots p)) (pp_next p)
             (pp_endpoint_slots p) (pp_active_pairs p) (pp_reserved_window_bytes p)
  | None => p
  end.

Definition clone_side (side : NativePairSide) (p : PairPool) : PairPool :=
  clone_slot (ps_slot side) (clone_reservation (ps_reservation side) p).
Definition drop_side (side : NativePairSide) (p : PairPool) : PairPool :=
  drop_slot (ps_slot side) (drop_reservation (ps_reservation side) p).

(** ** Reserving *)

Inductive PairAdmissionError := Admission_Connected | Admission_Window.

Definition slot_count (p : PairPool) (endpoint : Z) : Z := default 0 (pp_endpoint_slots p !! endpoint).

(** [count.checked_add(1).is_none_or(|count| count > limit)] *)
Definition over_limit (count limit : Z) : bool :=
  match checked_add_u64 count 1 with None => true | Some next => limit <? next end.

(** Two fresh slot objects for the endpoints given. *)
Definition new_slots (p : PairPool) (slots : gmap Z Z) (connector_endpoint accepted_endpoint : Z) :
    Z * Z * PairPool :=
  let s1 := pp_next p in
  let s2 := pp_next p + 1 in
  (s1, s2,
   mkPool (pp_pairs p)
     (<[s2 := (accepted_endpoint, 1)]> (<[s1 := (connector_endpoint, 1)]> (pp_slots p)))
     (pp_next p + 2) slots (pp_active_pairs p) (pp_reserved_window_bytes p)).

Definition reserve_handle_slots (limits : ChannelLimits) (p : PairPool)
    (connector_endpoint accepted_endpoint : Z) :
    result PairAdmissionError (Z * Z * PairPool) :=
  if connector_endpoint =? accepted_endpoint then
    match checked_add_u64 (slot_count p connector_endpoint) 2 with
    | None => Err Admission_Connected
    | Some next =>
        if cl_handles_per_endpoint limits <? next then Err Admission_Connected
        else Ok (new_slots p (<[connector_endpoint := next]> (pp_endpoint_slots p))
                   connector_endpoint accepted_endpoint)
    end
  else
    let connector_count := slot_count p connector_endpoint in
    let accepted_count := slot_count p accepted_endpoint in
    if over_limit connector_count (cl_handles_per_endpoint limits)
       || over_limit accepted_count (cl_handles_per_endpoint limits)
    then Err Admission_Connected
    else Ok (new_slots p
               (<[accepted_endpoint := accepted_count + 1]>
                  (<[connector_endpoint := connector_count + 1]> (pp_endpoint_slots p)))
               connector_endpoint accepted_endpoint).

(** The reservation is returned with one reference; on failure the slots taken so far
    are dropped. *)
Definition reserve_pair (limits : ChannelLimits) (p : PairPool)
    (connector_endpoint accepted_endpoint : Z) :
    result PairAdmissionError (Z * Z * Z) * PairPool :=
  match reserve_handle_slots limits p connector_endpoint accepted_endpoint with
  | Err e => (Err e, p)
  | Ok (s1, s2, p1) =>
      if cl_connected_pairs limits <=? pp_active_pairs p1
      then (Err Admission_Connected, drop_slot s2 (drop_slot s1 p1)) else
      let pair_window := saturating_mul_u64 FLOW_WINDOW_BYTES 2 in
      match checked_add_u64 (pp_reserved_window_bytes p1) pair_window with
      | None => (Err Admission_Window, drop_slot s2 (drop_slot s1 p1))
      | Some next =>
          if cl_buffer_bytes limits <? next
          then (Err Admission_Window, drop_slot s2 (drop_slot s1 p1)) else
          let r := pp_next p1 in
          (Ok (r, s1, s2),
           mkPool (<[r := (pair_window, 1)]> (pp_pairs p1)) (pp_slots p1) (pp_next p1 + 1)
             (pp_endpoint_slots p1) (pp_active_pairs p1 + 1)
             (pp_reserved_window_bytes p1 + pair_window))
      end
  end.
