(* ===== verification/Channel.v ===== *)
(** * Channel: the process-global named-channel registry
      ([crates/server/src/channel.rs])

    Listeners, connects in progress and connected links, the event lanes of
    the endpoints, and the operations sessions call. The event lanes are the
    receiving ends of the [mpsc] channels the endpoints registered with; an
    event holding a [NativePairSide] keeps the pair charged until the session
    has handled it. The calls a function makes under the fabric's lock are one
    step; an [Arc] it clones into a local and drops before it returns leaves
    the counts as they were and is not followed. *)

From stdpp Require Import sorting.
From S2P Require Import Prelude Schema ChannelPool.

(** ** Data *)

Inductive NativeError :=
| Native_Unavailable | Native_Conflict | Native_NotFound | Native_Stale
| Native_ResourceExhausted | Native_Backpressured.

Record Listener := mkListener {
  li_listener_handle : Z; li_registry_id : Z; li_generation : Z; li_endpoint : Z;
  li_name : list byte; li_metadata : list byte; li_token : list byte;
  li_owner_session : list byte; li_owner_extension : bool
}.

Record NativeListener := mkNativeListener {
  nl_listener_handle : Z; nl_generation : Z; nl_owner_session : list byte;
  nl_owner_extension : bool; nl_name : list byte; nl_metadata : list byte
}.

Record NativeCatalogue := mkCatalogue { ca_revision : Z; ca_listeners : list NativeListener }.

Record NativeMessageFragment := mkFragment {
  mf_sequence : Z; mf_fragment_offset : Z; mf_start : bool; mf_end : bool; mf_data : list byte
}.

Inductive NativeEvent :=
| Ev_IncomingConnect (connect_id listener_handle generation : Z)
    (connector_session connector_metadata : list byte) (connector_initial_credit : Z)
    (listener_metadata : list byte)
| Ev_ConnectPrepared (connect_id listener_send_credit max_item_bytes : Z)
| Ev_ConnectCommitted (connect_id connector_channel_handle initial_credit max_item_bytes : Z)
| Ev_ConnectAborted (connect_id : Z) (reason : NativeError) (guard : NativePairSide)
| Ev_Message (channel_handle : Z) (fragment : NativeMessageFragment) (guard : NativePairSide)
| Ev_Credit (channel_handle cumulative_byte_limit : Z) (guard : NativePairSide)
| Ev_Close (channel_handle final_data_bytes : Z) (guard : NativePairSide)
| Ev_Reset (channel_handle : Z) (reason : NativeError) (guard : NativePairSide).

Inductive NativeTerminalEvent :=
| Tm_ConnectAborted (connect_id : Z) (reason : NativeError) (guard : NativePairSide)
| Tm_Reset (channel_handle : Z) (reason : NativeError) (guard : NativePairSide).

(** [impl From<NativeTerminalEvent> for NativeEvent] *)
Definition NativeEvent_from (e : NativeTerminalEvent) : NativeEvent :=
  match e with
  | Tm_ConnectAborted id reason g => Ev_ConnectAborted id reason g
  | Tm_Reset h reason g => Ev_Reset h reason g
  end.

(** The guard an event keeps alive. *)
Definition event_guard (e : NativeEvent) : option NativePairSide :=
  match e with
  | Ev_IncomingConnect _ _ _ _ _ _ _ | Ev_ConnectPrepared _ _ _ | Ev_ConnectCommitted _ _ _ _ => None
  | Ev_ConnectAborted _ _ g | Ev_Message _ _ g | Ev_Credit _ _ g | Ev_Close _ _ g
  | Ev_Reset _ _ g => Some g
  end.

(** The receiving half of an endpoint's two channels: the bounded data lane, the
    unbounded terminal lane, the event the session is handling, and whether
    the session still holds the receivers. *)
Record Lane := mkLane {
  la_events : list NativeEvent; la_capacity : Z; la_terminal : list NativeTerminalEvent;
  la_handling : list NativeEvent; la_open : bool
}.

(** Its senders are named by the endpoint's number in [ch_lanes]. *)
Record NativeEndpoint := mkEndpoint { ep_session_id : list byte; ep_owner_extension : bool }.

Record NativePendingConnect := mkPending {
  pc_connector_endpoint : Z; pc_listener_endpoint : Z; pc_listener_handle : Z;
  pc_listener_metadata : list byte; pc_listener_channel_handle : option Z;
  pc_max_item_bytes : option Z; pc_connector_side : NativePairSide;
  pc_listener_side : NativePairSide
}.

Record NativeLinkEnd := mkLinkEnd {
  le_connect_id : Z; le_peer_endpoint : Z; le_peer_channel_handle : Z; le_max_item_bytes : Z;
  le_side : NativePairSide; le_published : bool; le_output_closed : bool
}.

Record NativeConnectInfo := mkConnectInfo {
  ci_peer_session : list byte; ci_listener_metadata : list byte; ci_peer_channel_handle : Z;
  ci_max_item_bytes : Z
}.

Record ListenerSnapshot := mkSnapshot {
  ls_endpoint : Z; ls_registry_id : Z; ls_generation : Z; ls_name : list byte;
  ls_token : list byte
}.

(** A channel end: endpoint and channel handle. *)
Abbreviation End := (Z * Z)%type (only parsing).

Record ChannelFabric := mkFabric {
  ch_enabled : bool; ch_shutting_down : bool; ch_boot_generation : Z;
  ch_next_listener_generation : Z; ch_next_listener_handle : Z; ch_next_native_endpoint : Z;
  ch_next_native_connect : Z; ch_next_registry_id : gmap Z Z;
  ch_listener_names : gmap (list byte) Z; ch_listeners : gmap Z Listener;
  ch_native_endpoints : gmap Z NativeEndpoint;
  ch_native_pending : gmap Z NativePendingConnect;
  ch_native_links : gmap (Z * Z) NativeLinkEnd;
  ch_native_revision : Z;
  ch_pool : PairPool; ch_limits : ChannelLimits;
  ch_lanes : gmap Z Lane
}.

(** Field updates. *)
Definition set_shutting_down (b : bool) (f : ChannelFabric) : ChannelFabric :=
  mkFabric (ch_enabled f) b (ch_boot_generation f) (ch_next_listener_generation f)
    (ch_next_listener_handle f) (ch_next_native_endpoint f) (ch_next_native_connect f)
    (ch_next_registry_id f) (ch_listener_names f) (ch_listeners f) (ch_native_endpoints f)
    (ch_native_pending f) (ch_native_links f) (ch_native_revision f) (ch_pool f) (ch_limits f)
    (ch_lanes f).
Definition set_endpoints (next : Z) (eps : gmap Z NativeEndpoint) (f : ChannelFabric) :
    ChannelFabric :=
  mkFabric (ch_enabled f) (ch_shutting_down f) (ch_boot_generation f)
    (ch_next_listener_generation f) (ch_next_listener_handle f) next (ch_next_native_connect f)
    (ch_next_registry_id f) (ch_listener_names f) (ch_listeners f) eps (ch_native_pending f)
    (ch_native_links f) (ch_native_revision f) (ch_pool f) (ch_limits f) (ch_lanes f).
Definition set_listeners (names : gmap (list byte) Z) (ls : gmap Z Listener) (f : ChannelFabric) :
    ChannelFabric :=
  mkFabric (ch_enabled f) (ch_shutting_down f) (ch_boot_generation f)
    (ch_next_listener_generation f) (ch_next_listener_handle f) (ch_next_native_endpoint f)
    (ch_next_native_connect f) (ch_next_registry_id f) names ls (ch_native_endpoints f)
    (ch_native_pending f) (ch_native_links f) (ch_native_revision f) (ch_pool f) (ch_limits f)
    (ch_lanes f).
Definition set_listener_counters (generation handle : Z) (ids : gmap Z Z) (f : ChannelFabric) :
    ChannelFabric :=
  mkFabric (ch_enabled f) (ch_shutting_down f) (ch_boot_generation f) generation handle
    (ch_next_native_endpoint f) (ch_next_native_connect f) ids (ch_listener_names f)
    (ch_listeners f) (ch_native_endpoints f) (ch_native_pending f) (ch_native_links f)
    (ch_native_revision f) (ch_pool f) (ch_limits f) (ch_lanes f).
Definition set_next_connect (n : Z) (f : ChannelFabric) : ChannelFabric :=
  mkFabric (ch_enabled f) (ch_shutting_down f) (ch_boot_generation f)
    (ch_next_listener_generation f) (ch_next_listener_handle f) (ch_next_native_endpoint f) n
    (ch_next_registry_id f) (ch_listener_names f) (ch_listeners f) (ch_native_endpoints f)
    (ch_native_pending f) (ch_native_links f) (ch_native_revision f) (ch_pool f) (ch_limits f)
    (ch_lanes f).
Definition set_native_pending (pending : gmap Z NativePendingConnect) (f : ChannelFabric) :
    ChannelFabric :=
  mkFabric (ch_enabled f) (ch_shutting_down f) (ch_boot_generation f)
    (ch_next_listener_generation f) (ch_next_listener_handle f) (ch_next_native_endpoint f)
    (ch_next_native_connect f) (ch_next_registry_id f) (ch_listener_names f) (ch_listeners f)
    (ch_native_endpoints f) pending (ch_native_links f) (ch_native_revision f) (ch_pool f)
    (ch_limits f) (ch_lanes f).
Definition set_links (links : gmap (Z * Z) NativeLinkEnd) (f : ChannelFabric) : ChannelFabric :=
  mkFabric (ch_enabled f) (ch_shutting_down f) (ch_boot_generation f)
    (ch_next_listener_generation f) (ch_next_listener_handle f) (ch_next_native_endpoint f)
    (ch_next_native_connect f) (ch_next_registry_id f) (ch_listener_names f) (ch_listeners f)
    (ch_native_endpoints f) (ch_native_pending f) links (ch_native_revision f) (ch_pool f)
    (ch_limits f) (ch_lanes f).
Definition set_revision (revision : Z) (f : ChannelFabric) : ChannelFabric :=
  mkFabric (ch_enabled f) (ch_shutting_down f) (ch_boot_generation f)
    (ch_next_listener_generation f) (ch_next_listener_handle f) (ch_next_native_endpoint f)
    (ch_next_native_connect f) (ch_next_registry_id f) (ch_listener_names f) (ch_listeners f)
    (ch_native_endpoints f) (ch_native_pending f) (ch_native_links f) revision (ch_pool f)
    (ch_limits f) (ch_lanes f).
Definition set_pool (pool : PairPool) (f : ChannelFabric) : ChannelFabric :=
  mkFabric (ch_enabled f) (ch_shutting_down f) (ch_boot_generation f)
    (ch_next_listener_generation f) (ch_next_listener_handle f) (ch_next_native_endpoint f)
    (ch_next_native_connect f) (ch_next_registry_id f) (ch_listener_names f) (ch_listeners f)
    (ch_native_endpoints f) (ch_native_pending f) (ch_native_links f) (ch_native_revision f) pool
    (ch_limits f) (ch_lanes f).
Definition set_lanes (lanes : gmap Z Lane) (f : ChannelFabric) : ChannelFabric :=
  mkFabric (ch_enabled f) (ch_shutting_down f) (ch_boot_generation f)
    (ch_next_listener_generation f) (ch_next_listener_handle f) (ch_next_native_endpoint f)
    (ch_next_native_connect f) (ch_next_registry_id f) (ch_listener_names f) (ch_listeners f)
    (ch_native_endpoints f) (ch_native_pending f) (ch_native_links f) (ch_native_revision f)
    (ch_pool f) (ch_limits f) lanes.

(** ** Lanes *)

Definition set_events (q : list NativeEvent) (la : Lane) : Lane :=
  mkLane q (la_capacity la) (la_terminal la) (la_handling la) (la_open la).
Definition set_terminal (q : list NativeTerminalEvent) (la : Lane) : Lane :=
  mkLane (la_events la) (la_capacity la) q (la_handling la) (la_open la).

Definition drop_guard (g : option NativePairSide) (p : PairPool) : PairPool :=
  match g with Some side => drop_side side p | None => p end.

(** [tokio::sync::mpsc]: the bounded [try_send] and the unbounded [send], on whether the
    receiver still exists, the capacity and the queue; the new queue, or
    nothing when the event comes back. *)
Class Mpsc := {
  mpsc_try_send : bool → Z → list NativeEvent → NativeEvent → option (list NativeEvent);
  mpsc_send : bool → list NativeTerminalEvent → NativeTerminalEvent → option (list NativeTerminalEvent)
}.

(** What it documents: an event is queued last, refused when the receiver is gone or, in
    the bounded case, the queue full. *)
Class MpscLaws `{Mpsc} : Prop := {
  mpsc_try_send_room opened capacity q e :
    mpsc_try_send opened capacity q e
    = if opened && (len q <? capacity) then Some (q ++ [e]) else None;
  mpsc_send_open opened q e : mpsc_send opened q e = if opened then Some (q ++ [e]) else None
}.

(** *** The session's side

    The moves a session makes with what it receives: it takes the oldest event
    of either lane, drops an event it holds, or ends and drops its receivers
    with all they hold. Nothing is assumed about their order. *)

Definition session_recv (e : Z) (terminal : bool) (f : ChannelFabric) : ChannelFabric :=
  match ch_lanes f !! e with
  | Some (mkLane evs cap tms hs true) =>
      if terminal then
        match tms with
        | t :: tms' => set_lanes (<[e := mkLane evs cap tms' (hs ++ [NativeEvent_from t]) true]> (ch_lanes f)) f
        | [] => f
        end
      else
        match evs with
        | ev :: evs' => set_lanes (<[e := mkLane evs' cap tms (hs ++ [ev]) true]> (ch_lanes f)) f
        | [] => f
        end
  | _ => f
  end.

Definition lane_guards (la : Lane) : list NativePairSide :=
  omap event_guard (la_handling la ++ la_events la ++ map NativeEvent_from (la_terminal la)).

Definition session_done (e : Z) (i : nat) (f : ChannelFabric) : ChannelFabric :=
  match ch_lanes f !! e with
  | Some (mkLane evs cap tms hs op) =>
      set_pool (drop_guard (ev ← hs !! i; event_guard ev) (ch_pool f))
        (set_lanes (<[e := mkLane evs cap tms (delete i hs) op]> (ch_lanes f)) f)
  | None => f
  end.

Definition session_drop (e : Z) (f : ChannelFabric) : ChannelFabric :=
  match ch_lanes f !! e with
  | Some la =>
      set_pool (foldr drop_side (ch_pool f) (lane_guards la))
        (set_lanes (<[e := mkLane [] (la_capacity la) [] [] false]> (ch_lanes f)) f)
  | None => f
  end.

(** ** Hash-map iteration

    A [HashMap] is visited in an order that depends on its hasher: any order
    of its bindings. *)

Class HashOrder := {
  hash_iter {K A} `{Countable K} (m : gmap K A) : list (K * A);
  hash_iter_perm {K A} `{Countable K} (m : gmap K A) : hash_iter m ≡ₚ map_to_list m
}.

(** ** Construction and endpoints *)

Definition ChannelFabric_new (enabled : bool) (boot_generation : Z) (limits : ChannelLimits) :
    ChannelFabric :=
  mkFabric enabled false boot_generation 1 1 (2 ^ 63) 1 ∅ ∅ ∅ ∅ ∅ ∅ 1 PairPool_new limits ∅.

Definition begin_shutdown (f : ChannelFabric) : ChannelFabric := set_shutting_down true f.

(** The caller's channels arrive as a fresh lane of the given capacity. *)
Definition register_native_endpoint (session_id : list byte) (owner_extension : bool)
    (capacity : Z) (f : ChannelFabric) : result NativeError Z * ChannelFabric :=
  if forallb (Byte.eqb Byte.x00) session_id then (Err Native_ResourceExhausted, f) else
  let endpoint := ch_next_native_endpoint f in
  match checked_add_u64 endpoint 1 with
  | None => (Err Native_ResourceExhausted, f)
  | Some next =>
      (Ok endpoint,
       set_lanes (<[endpoint := mkLane [] capacity [] [] true]> (ch_lanes f))
         (set_endpoints next
            (<[endpoint := mkEndpoint session_id owner_extension]> (ch_native_endpoints f)) f))
  end.

Definition native_listener (l : Listener) : NativeListener :=
  mkNativeListener (li_listener_handle l) (li_generation l) (li_owner_session l)
    (li_owner_extension l) (li_name l) (li_metadata l).

Definition handle_le (a b : NativeListener) : Prop := nl_listener_handle a <= nl_listener_handle b.
#[global] Instance handle_le_dec a b : Decision (handle_le a b).
Proof. unfold handle_le. apply _. Defined.

(** ** Listeners *)

Definition valid_name (name : list byte) : bool :=
  negb (is_nil name) && (len name <=? channel_MAX_NAME_BYTES)
  && negb (existsb (Byte.eqb Byte.x00) name).

Definition listener_count (f : ChannelFabric) (endpoint : Z) : Z :=
  Z.of_nat (size (filter (λ p : Z * Listener, li_endpoint p.2 = endpoint) (ch_listeners f))).

(** [self.native_revision.wrapping_add(1).max(1)]; the watch channel carries the same value. *)
Definition bump_revision (f : ChannelFabric) : ChannelFabric :=
  set_revision (Z.max ((ch_native_revision f + 1) mod (U64_MAX + 1)) 1) f.

Definition remove_listener (listener_handle : Z) (f : ChannelFabric) : ChannelFabric :=
  match ch_listeners f !! listener_handle with
  | Some l =>
      bump_revision
        (set_listeners (delete (li_name l) (ch_listener_names f))
           (delete listener_handle (ch_listeners f)) f)
  | None => f
  end.

(** [a.checked_add(2)] on [u32] *)
Definition checked_add_u32 (a b : Z) : option Z := if a + b <=? U32_MAX then Some (a + b) else None.

(** The candidate is taken by a listener of the endpoint. *)
Definition registry_id_taken (f : ChannelFabric) (endpoint candidate : Z) : bool :=
  existsb (λ p, (li_endpoint p.2 =? endpoint) && (li_registry_id p.2 =? candidate))
    (map_to_list (ch_listeners f)).

(** The loop, [None] when [fuel] candidates were not enough. *)
Fixpoint registry_id_loop (fuel : nat) (f : ChannelFabric) (endpoint candidate : Z) :
    option (result NativeError Z) :=
  match fuel with
  | O => None
  | S fuel' =>
      if negb (registry_id_taken f endpoint candidate) then Some (Ok candidate)
      else match checked_add_u32 candidate 2 with
      | None => Some (Err Native_ResourceExhausted)
      | Some candidate => registry_id_loop fuel' f endpoint candidate
      end
  end.

(** Every candidate passed over is the id of a different listener. *)
Definition registry_fuel (f : ChannelFabric) : nat := S (size (ch_listeners f)).

Definition registry_id_candidate (f : ChannelFabric) (endpoint : Z) : result NativeError Z :=
  let candidate := default 1 (ch_next_registry_id f !! endpoint) in
  default (Err Native_ResourceExhausted) (registry_id_loop (registry_fuel f) f endpoint candidate).

Definition listener_token (boot_generation generation : Z) : list byte :=
  to_le 8 boot_generation ++ to_le 8 generation.

Definition native_listen (endpoint : Z) (session_id name metadata : list byte) (f : ChannelFabric) :
    result NativeError NativeListener * ChannelFabric :=
  if negb (ch_enabled f) || ch_shutting_down f then (Err Native_Unavailable, f) else
  match ch_native_endpoints f !! endpoint with
  | None => (Err Native_NotFound, f)
  | Some owner =>
    if negb (bool_decide (ep_session_id owner = session_id)) then (Err Native_NotFound, f) else
    if negb (valid_name name) || (channel_MAX_METADATA_BYTES <? len metadata)
    then (Err Native_ResourceExhausted, f) else
    match ch_listener_names f !! name with
    | Some _ => (Err Native_Conflict, f)
    | None =>
      let endpoint_limit :=
        Z.min (cl_listeners_per_endpoint (ch_limits f)) channel_MAX_LISTENERS_PER_SESSION in
      if (cl_listeners (ch_limits f) <=? Z.of_nat (size (ch_listeners f)))
         || (endpoint_limit <=? listener_count f endpoint)
      then (Err Native_ResourceExhausted, f) else
      let listener_handle := ch_next_listener_handle f in
      let generation := ch_next_listener_generation f in
      let counters :=
        registry_id ← registry_id_candidate f endpoint;
        next_handle ← ok_or (checked_add_u64 listener_handle 1) Native_ResourceExhausted;
        next_generation ← ok_or (checked_add_u64 generation 1) Native_ResourceExhausted;
        next_registry_id ← ok_or (checked_add_u32 registry_id 2) Native_ResourceExhausted;
        Ok (registry_id, next_handle, next_generation, next_registry_id) in
      match counters with
      | Err e => (Err e, f)
      | Ok (registry_id, next_handle, next_generation, next_registry_id) =>
        let listener :=
          mkListener listener_handle registry_id generation endpoint name metadata
            (listener_token (ch_boot_generation f) generation) session_id
            (ep_owner_extension owner) in
        (Ok (native_listener listener),
         bump_revision
           (set_listeners (<[name := listener_handle]> (ch_listener_names f))
              (<[listener_handle := listener]> (ch_listeners f))
              (set_listener_counters next_generation next_handle
                 (<[endpoint := next_registry_id]> (ch_next_registry_id f)) f)))
      end
    end
  end.

(** ** Sending

    [events.try_send(event)] to endpoint [e]: [true] when the event is queued; else it
    comes back and is dropped. *)

Section fabric.
Context `{Mpsc}.

Definition try_send_event (e : Z) (ev : NativeEvent) (f : ChannelFabric) : bool * ChannelFabric :=
  let dropped := (false, set_pool (drop_guard (event_guard ev) (ch_pool f)) f) in
  match ch_lanes f !! e with
  | Some la =>
      match mpsc_try_send (la_open la) (la_capacity la) (la_events la) ev with
      | Some q => (true, set_lanes (<[e := set_events q la]> (ch_lanes f)) f)
      | None => dropped
      end
  | None => dropped
  end.

(** [terminal_events.send(event)] *)
Definition send_terminal (e : Z) (ev : NativeTerminalEvent) (f : ChannelFabric) : ChannelFabric :=
  let dropped := set_pool (drop_guard (event_guard (NativeEvent_from ev)) (ch_pool f)) f in
  match ch_lanes f !! e with
  | Some la =>
      match mpsc_send (la_open la) (la_terminal la) ev with
      | Some q => set_lanes (<[e := set_terminal q la]> (ch_lanes f)) f
      | None => dropped
      end
  | None => dropped
  end.

(** ** Ending connects and links *)

(** Tells one side that the connect is off; the guard goes with the event, or is dropped. *)
Definition abort_side (connect_id : Z) (reason : NativeError) (f : ChannelFabric)
    (target : Z * NativePairSide) : ChannelFabric :=
  match ch_native_endpoints f !! target.1 with
  | Some _ => send_terminal target.1 (Tm_ConnectAborted connect_id reason target.2) f
  | None => set_pool (drop_side target.2 (ch_pool f)) f
  end.

Definition native_cancel_connect (endpoint connect_id : Z) (reason : NativeError)
    (f : ChannelFabric) : ChannelFabric :=
  match ch_native_pending f !! connect_id with
  | None => f
  | Some pending =>
      if negb (endpoint =? pc_connector_endpoint pending)
         && negb (endpoint =? pc_listener_endpoint pending)
      then f
      else
        foldl (abort_side connect_id reason)
          (set_native_pending (delete connect_id (ch_native_pending f)) f)
          [(pc_connector_endpoint pending, pc_connector_side pending);
           (pc_listener_endpoint pending, pc_listener_side pending)]
  end.

Definition native_reset (endpoint channel_handle : Z) (reason : NativeError) (f : ChannelFabric) :
    result NativeError () * ChannelFabric :=
  let key := (endpoint, channel_handle) in
  match ch_native_links f !! key with
  | None => (Err Native_NotFound, f)
  | Some link =>
      let links := delete key (ch_native_links f) in
      let peer_key := (le_peer_endpoint link, le_peer_channel_handle link) in
      let peer := links !! peer_key in
      let f := set_links (delete peer_key links) f in
      let f :=
        match ch_native_endpoints f !! le_peer_endpoint link, peer with
        | Some _, Some peer =>
            send_terminal (le_peer_endpoint link)
              (Tm_Reset (le_peer_channel_handle link) reason (le_side peer)) f
        | None, Some peer => set_pool (drop_side (le_side peer) (ch_pool f)) f
        | _, None => f
        end in
      (Ok (), set_pool (drop_side (le_side link) (ch_pool f)) f)
  end.

(** ** Connecting *)

Definition pending_count (f : ChannelFabric) (endpoint : Z) : Z :=
  Z.of_nat (size (filter (λ p : Z * NativePendingConnect, pc_connector_endpoint p.2 = endpoint)
                    (ch_native_pending f))).

Definition native_begin_connect (connector_endpoint listener_handle generation
    connector_initial_credit : Z) (connector_metadata : list byte) (f : ChannelFabric) :
    result NativeError Z * ChannelFabric :=
  if negb (ch_enabled f) || ch_shutting_down f then (Err Native_Unavailable, f) else
  if channel_MAX_METADATA_BYTES <? len connector_metadata then (Err Native_ResourceExhausted, f) else
  match ch_listeners f !! listener_handle with
  | None => (Err Native_NotFound, f)
  | Some listener =>
    if negb (li_generation listener =? generation) then (Err Native_Stale, f) else
    match ch_native_endpoints f !! connector_endpoint with
    | None => (Err Native_NotFound, f)
    | Some connector =>
      match ch_native_endpoints f !! li_endpoint listener with
      | None => (Err Native_Unavailable, f)
      | Some _ =>
        if channel_MAX_PENDING_CONNECTS <=? pending_count f connector_endpoint
        then (Err Native_ResourceExhausted, f) else
        match reserve_pair (ch_limits f) (ch_pool f) connector_endpoint (li_endpoint listener) with
        | (Err _, pool) => (Err Native_ResourceExhausted, set_pool pool f)
        | (Ok (reservation, connector_slot, listener_slot), pool) =>
          let connect_id := ch_next_native_connect f in
          match checked_add_u64 connect_id 1 with
          | None =>
              (Err Native_ResourceExhausted,
               set_pool (drop_slot listener_slot (drop_slot connector_slot
                           (drop_reservation reservation pool))) f)
          | Some next =>
            let connector_side := mkSide reservation connector_slot in
            let listener_side := mkSide reservation listener_slot in
            let pending :=
              mkPending connector_endpoint (li_endpoint listener) listener_handle
                (li_metadata listener) None None connector_side listener_side in
            let f := set_pool (clone_reservation reservation pool) (set_next_connect next f) in
            match try_send_event (li_endpoint listener)
                    (Ev_IncomingConnect connect_id listener_handle generation
                       (ep_session_id connector) connector_metadata connector_initial_credit
                       (li_metadata listener)) f with
            | (false, f) =>
                (Err Native_Backpressured,
                 set_pool (drop_side listener_side (drop_side connector_side (ch_pool f))) f)
            | (true, f) =>
                (Ok connect_id,
                 set_native_pending (<[connect_id := pending]> (ch_native_pending f)) f)
            end
          end
        end
      end
    end
  end.

Definition native_prepare_connect (listener_endpoint connect_id listener_channel_handle
    listener_send_credit max_item_bytes : Z) (f : ChannelFabric) :
    result NativeError () * ChannelFabric :=
  match ch_native_pending f !! connect_id with
  | None => (Err Native_NotFound, f)
  | Some pending =>
    if negb (pc_listener_endpoint pending =? listener_endpoint) then (Err Native_NotFound, f) else
    if bool_decide (is_Some (pc_listener_channel_handle pending))
       || bool_decide (is_Some (ch_native_links f !! (listener_endpoint, listener_channel_handle)))
    then (Err Native_Conflict, f) else
    if (max_item_bytes =? 0) || (listener_send_credit <? max_item_bytes)
       || (channel_MAX_MESSAGE_BYTES <? max_item_bytes)
    then (Err Native_ResourceExhausted, f) else
    match ch_native_endpoints f !! pc_connector_endpoint pending with
    | None => (Err Native_Unavailable, f)
    | Some _ =>
      match try_send_event (pc_connector_endpoint pending)
              (Ev_ConnectPrepared connect_id listener_send_credit max_item_bytes) f with
      | (false, f) => (Err Native_Backpressured, f)
      | (true, f) =>
        let pending :=
          mkPending (pc_connector_endpoint pending) (pc_listener_endpoint pending)
            (pc_listener_handle pending) (pc_listener_metadata pending)
            (Some listener_channel_handle) (Some max_item_bytes)
            (pc_connector_side pending) (pc_listener_side pending) in
        (Ok (), set_native_pending (<[connect_id := pending]> (ch_native_pending f)) f)
      end
    end
  end.

Definition native_complete_connect (connector_endpoint connect_id connector_channel_handle
    max_item_bytes : Z) (f : ChannelFabric) : result NativeError NativeConnectInfo * ChannelFabric :=
  match ch_native_pending f !! connect_id with
  | None => (Err Native_NotFound, f)
  | Some pending =>
    if negb (pc_connector_endpoint pending =? connector_endpoint) then (Err Native_NotFound, f) else
    match pc_listener_channel_handle pending, pc_max_item_bytes pending with
    | None, _ | _, None => (Err Native_Conflict, f)
    | Some listener_channel_handle, Some prepared_max_item_bytes =>
      if (max_item_bytes =? 0) || (prepared_max_item_bytes <? max_item_bytes)
      then (Err Native_ResourceExhausted, f) else
      let key := (connector_endpoint, connector_channel_handle) in
      let peer_key := (pc_listener_endpoint pending, listener_channel_handle) in
      if bool_decide (is_Some (ch_native_links f !! key))
         || bool_decide (is_Some (ch_native_links f !! peer_key))
         || ((connector_endpoint =? pc_listener_endpoint pending)
             && (connector_channel_handle =? listener_channel_handle))
      then (Err Native_Conflict, f) else
      match ch_native_endpoints f !! pc_listener_endpoint pending with
      | None => (Err Native_Unavailable, f)
      | Some listener =>
        let connector_end :=
          mkLinkEnd connect_id (pc_listener_endpoint pending) listener_channel_handle
            max_item_bytes (pc_connector_side pending) false false in
        let listener_end :=
          mkLinkEnd connect_id connector_endpoint connector_channel_handle max_item_bytes
            (pc_listener_side pending) false false in
        (Ok (mkConnectInfo (ep_session_id listener) (pc_listener_metadata pending)
               listener_channel_handle max_item_bytes),
         set_links (<[peer_key := listener_end]> (<[key := connector_end]> (ch_native_links f)))
           (set_native_pending (delete connect_id (ch_native_pending f)) f))
      end
    end
  end.

Definition publish (l : NativeLinkEnd) : NativeLinkEnd :=
  mkLinkEnd (le_connect_id l) (le_peer_endpoint l) (le_peer_channel_handle l)
    (le_max_item_bytes l) (le_side l) true (le_output_closed l).
Definition close_output (l : NativeLinkEnd) : NativeLinkEnd :=
  mkLinkEnd (le_connect_id l) (le_peer_endpoint l) (le_peer_channel_handle l)
    (le_max_item_bytes l) (le_side l) (le_published l) true.

Definition native_publish_connect (connector_endpoint connect_id connector_channel_handle
    initial_credit : Z) (f : ChannelFabric) : result NativeError () * ChannelFabric :=
  let key := (connector_endpoint, connector_channel_handle) in
  match ch_native_links f !! key with
  | None => (Err Native_NotFound, f)
  | Some link =>
    if negb (le_connect_id link =? connect_id) || le_published link then (Err Native_Conflict, f) else
    if initial_credit <? le_max_item_bytes link then (Err Native_ResourceExhausted, f) else
    match ch_native_endpoints f !! le_peer_endpoint link with
    | None => (Err Native_Unavailable, f)
    | Some _ =>
      match try_send_event (le_peer_endpoint link)
              (Ev_ConnectCommitted connect_id connector_channel_handle initial_credit
                 (le_max_item_bytes link)) f with
      | (false, f) =>
          (Err Native_Backpressured,
           (native_reset connector_endpoint connector_channel_handle Native_Backpressured f).2)
      | (true, f) =>
          let peer_key := (le_peer_endpoint link, le_peer_channel_handle link) in
          (Ok (), set_links (alter publish peer_key (alter publish key (ch_native_links f))) f)
      end
    end
  end.

(** ** Traffic *)

(** [self.peer_side(&link)?], the clone counted in the pool. *)
Definition peer_side (f : ChannelFabric) (link : NativeLinkEnd) :
    result NativeError (NativePairSide * ChannelFabric) :=
  match ch_native_links f !! (le_peer_endpoint link, le_peer_channel_handle link) with
  | Some peer => Ok (le_side peer, set_pool (clone_side (le_side peer) (ch_pool f)) f)
  | None => Err Native_NotFound
  end.

(** An event for the peer, guarded by the peer's side. *)
Definition send_to_peer (link : NativeLinkEnd) (event : Z → NativePairSide → NativeEvent)
    (f : ChannelFabric) : result NativeError () * ChannelFabric :=
  match peer_side f link with
  | Err e => (Err e, f)
  | Ok (side, f1) =>
    match ch_native_endpoints f !! le_peer_endpoint link with
    | None => (Err Native_Unavailable, set_pool (drop_side side (ch_pool f1)) f1)
    | Some _ =>
      match try_send_event (le_peer_endpoint link) (event (le_peer_channel_handle link) side) f1 with
      | (true, f2) => (Ok (), f2)
      | (false, f2) => (Err Native_Backpressured, f2)
      end
    end
  end.

Definition native_send_message (endpoint channel_handle : Z) (fragment : NativeMessageFragment)
    (f : ChannelFabric) : result NativeError () * ChannelFabric :=
  if channel_MAX_MESSAGE_BYTES <? len (mf_data fragment) then (Err Native_ResourceExhausted, f) else
  match ch_native_links f !! (endpoint, channel_handle) with
  | None => (Err Native_NotFound, f)
  | Some link =>
    if negb (le_published link) || le_output_closed link then (Err Native_Conflict, f) else
    send_to_peer link (λ h side, Ev_Message h fragment side) f
  end.

Definition native_send_credit (endpoint channel_handle cumulative_byte_limit : Z)
    (f : ChannelFabric) : result NativeError () * ChannelFabric :=
  match ch_native_links f !! (endpoint, channel_handle) with
  | None => (Err Native_NotFound, f)
  | Some link =>
    if negb (le_published link) then (Err Native_Conflict, f) else
    send_to_peer link (λ h side, Ev_Credit h cumulative_byte_limit side) f
  end.

Definition native_send_close (endpoint channel_handle final_data_bytes : Z) (f : ChannelFabric) :
    result NativeError () * ChannelFabric :=
  let key := (endpoint, channel_handle) in
  match ch_native_links f !! key with
  | None => (Err Native_NotFound, f)
  | Some link =>
    if negb (le_published link) || le_output_closed link then (Err Native_Conflict, f) else
    let peer_key := (le_peer_endpoint link, le_peer_channel_handle link) in
    match send_to_peer link (λ h side, Ev_Close h final_data_bytes side) f with
    | (Err e, f) => (Err e, f)
    | (Ok _, f) =>
      let f := set_links (alter close_output key (ch_native_links f)) f in
      match ch_native_links f !! peer_key with
      | Some peer =>
          if le_output_closed peer then
            let dropped := drop_side (le_side peer) (drop_side (le_side link) (ch_pool f)) in
            (Ok (), set_pool dropped
                      (set_links (delete peer_key (delete key (ch_native_links f))) f))
          else (Ok (), f)
      | None => (Ok (), f)
      end
    end
  end.

(** ** Catalogue, closing and unregistering *)

Section hash_order.
Context `{HashOrder}.

Definition native_catalogue (f : ChannelFabric) : NativeCatalogue :=
  mkCatalogue (ch_native_revision f)
    (merge_sort handle_le (map (λ p, native_listener p.2) (hash_iter (ch_listeners f)))).

Definition native_listener_snapshot (f : ChannelFabric) (endpoint listener_handle generation : Z) :
    option ListenerSnapshot :=
  l ← ch_listeners f !! listener_handle;
  if (li_endpoint l =? endpoint) && (li_generation l =? generation)
  then Some (mkSnapshot endpoint (li_registry_id l) generation (li_name l) (li_token l)) else None.

Definition native_listener_snapshots (f : ChannelFabric) (endpoint : Z) : list ListenerSnapshot :=
  map (λ p, mkSnapshot endpoint (li_registry_id p.2) (li_generation p.2) (li_name p.2) (li_token p.2))
    (filter (λ p, li_endpoint p.2 = endpoint) (hash_iter (ch_listeners f))).

Definition cancel_all (endpoint : Z) (reason : NativeError) (ids : list Z) (f : ChannelFabric) :
    ChannelFabric :=
  foldl (λ f connect_id, native_cancel_connect endpoint connect_id reason f) f ids.

Definition native_close_listener (endpoint listener_handle generation : Z) (f : ChannelFabric) :
    result NativeError () * ChannelFabric :=
  match ch_listeners f !! listener_handle with
  | None => (Err Native_NotFound, f)
  | Some l =>
    if negb (li_endpoint l =? endpoint) then (Err Native_NotFound, f) else
    if negb (li_generation l =? generation) then (Err Native_Stale, f) else
    let pending :=
      map fst (filter (λ p, pc_listener_handle p.2 = listener_handle)
                 (hash_iter (ch_native_pending f))) in
    (Ok (), cancel_all endpoint Native_NotFound pending (remove_listener listener_handle f))
  end.

Definition unregister_native_endpoint (endpoint : Z) (f : ChannelFabric) : ChannelFabric :=
  let pending :=
    map fst (filter (λ p, pc_connector_endpoint p.2 = endpoint ∨ pc_listener_endpoint p.2 = endpoint)
               (hash_iter (ch_native_pending f))) in
  let f := cancel_all endpoint Native_Unavailable pending f in
  let channel_handles :=
    map (λ p, p.1.2) (filter (λ p, p.1.1 = endpoint) (hash_iter (ch_native_links f))) in
  let f := foldl (λ f h, (native_reset endpoint h Native_Unavailable f).2) f channel_handles in
  let f := set_endpoints (ch_next_native_endpoint f) (delete endpoint (ch_native_endpoints f)) f in
  let listeners :=
    map (λ p, li_listener_handle p.2)
      (filter (λ p, li_endpoint p.2 = endpoint) (hash_iter (ch_listeners f))) in
  let f := foldl (λ f h, remove_listener h f) f listeners in
  set_listener_counters (ch_next_listener_generation f) (ch_next_listener_handle f)
    (delete endpoint (ch_next_registry_id f)) f.
End hash_order.
End fabric.
