(* ===== verification/ChannelPoolFacts.v ===== *)
(** * ChannelPoolFacts: the charge of every pair is exact

    [Pool_ok p rs ss]: the strong counts are the multiplicities of the
    references [rs] to reservations and [ss] to slots held anywhere, and the
    counters follow: live pairs, their window bytes, live slots per endpoint. *)

From S2P Require Import Prelude Schema ChannelPool.

Definition PAIR_WINDOW : Z := saturating_mul_u64 FLOW_WINDOW_BYTES 2.

Definition count (x : Z) (l : list Z) : Z := len (filter (λ y, y = x) l).

Lemma count_nonneg x l : 0 <= count x l.
Proof. apply len_nonneg. Qed.
Lemma count_cons_eq x l : count x (x :: l) = count x l + 1.
Proof. unfold count. rewrite filter_cons_True by done. rewrite len_cons. lia. Qed.
Lemma count_cons_ne x y l : x ≠ y → count x (y :: l) = count x l.
Proof. intros. unfold count. by rewrite filter_cons_False by done. Qed.
Lemma count_pos x l : 0 < count x l ↔ x ∈ l.
Proof.
  induction l as [|y l IH]; [change (count x []) with 0; split; [lia|by intros ?%not_elem_of_nil]|].
  destruct (decide (x = y)) as [->|].
  - rewrite count_cons_eq. pose proof (count_nonneg y l). split; [by left|lia].
  - rewrite count_cons_ne, IH by done. rewrite elem_of_cons. naive_solver.
Qed.
Lemma count_zero x l : count x l = 0 ↔ x ∉ l.
Proof.
  pose proof (count_nonneg x l). rewrite <- count_pos. lia.
Qed.
#[global] Instance count_perm x : Proper ((≡ₚ) ==> (=)) (count x).
Proof. intros l1 l2 Hp. unfold count, len. by rewrite Hp. Qed.

(** How many slots are taken at an endpoint. *)
Definition slots_at (slots : gmap Z (Z * Z)) (e : Z) : Z :=
  Z.of_nat (size (filter (λ p : Z * (Z * Z), p.2.1 = e) slots)).

Record Pool_ok (limits : ChannelLimits) (p : PairPool) (rs ss : list Z) : Prop := {
  po_pairs r : pp_pairs p !! r
    = if decide (count r rs = 0) then None else Some (PAIR_WINDOW, count r rs);
  po_slots s : match pp_slots p !! s with
               | None => count s ss = 0
               | Some (_, n) => n = count s ss ∧ 0 < n
               end;
  po_fresh x : pp_next p <= x → count x rs = 0 ∧ count x ss = 0;
  po_active : pp_active_pairs p = Z.of_nat (size (pp_pairs p));
  po_window : pp_reserved_window_bytes p = PAIR_WINDOW * Z.of_nat (size (pp_pairs p));
  po_endpoint e : pp_endpoint_slots p !! e
    = if decide (slots_at (pp_slots p) e = 0) then None else Some (slots_at (pp_slots p) e);
  po_pair_limit : pp_active_pairs p <= Z.max 0 (cl_connected_pairs limits);
  po_window_limit : pp_reserved_window_bytes p <= Z.max 0 (Z.min U64_MAX (cl_buffer_bytes limits));
  po_slot_limit e : slots_at (pp_slots p) e <= Z.max 0 (cl_handles_per_endpoint limits)
}.

Lemma pool_ok_new limits : Pool_ok limits PairPool_new [] [].
Proof.
  split; cbn [PairPool_new pp_pairs pp_slots pp_next pp_endpoint_slots pp_active_pairs
    pp_reserved_window_bytes]; intros; rewrite ?lookup_empty, ?map_size_empty; try done; try lia;
    change (slots_at ∅ e) with 0 in *; try lia.
Qed.

Lemma pool_ok_perm limits p rs rs' ss ss' :
  rs ≡ₚ rs' → ss ≡ₚ ss' → Pool_ok limits p rs ss → Pool_ok limits p rs' ss'.
Proof.
  intros Hr Hs [H1 H2 H3 H4 H5 H6 H7 H8 H9]. split; try done.
  - intros r. rewrite <- (count_perm r _ _ Hr). apply H1.
  - intros s. rewrite <- (count_perm s _ _ Hs). apply H2.
  - intros x Hx. rewrite <- (count_perm x _ _ Hr), <- (count_perm x _ _ Hs). by apply H3.
Qed.

Lemma slots_at_insert_ne (slots : gmap Z (Z * Z)) s e n e' :
  slots !! s = None → slots_at (<[s := (e, n)]> slots) e' = slots_at slots e' + (if decide (e = e') then 1 else 0).
Proof.
  intros Hs. unfold slots_at. destruct (decide (e = e')) as [->|Hne].
  - rewrite map_filter_insert_True by done. rewrite map_size_insert_None; [lia|].
    apply map_lookup_filter_None. by left.
  - rewrite map_filter_insert_not' by (done || congruence). lia.
Qed.

Lemma slots_at_update (slots : gmap Z (Z * Z)) s e n n' e' :
  slots !! s = Some (e, n) → slots_at (<[s := (e, n')]> slots) e' = slots_at slots e'.
Proof.
  intros Hs. unfold slots_at. f_equal. rewrite <- !(size_dom (D := gset Z)). f_equal.
  apply set_eq. intros x. rewrite !elem_of_dom. unfold is_Some.
  setoid_rewrite map_lookup_filter_Some.
  destruct (decide (x = s)) as [->|]; [rewrite lookup_insert_eq, Hs|rewrite lookup_insert_ne by done; done].
  cbn. split; intros ([? ?] & [= <- <-] & ?); eauto.
Qed.

Lemma slots_at_delete (slots : gmap Z (Z * Z)) s e n e' :
  slots !! s = Some (e, n) →
  slots_at (delete s slots) e' = slots_at slots e' - (if decide (e = e') then 1 else 0).
Proof.
  intros Hs. rewrite <- (insert_delete_id slots s (e, n)) at 2 by done.
  rewrite slots_at_insert_ne by apply lookup_delete_eq. lia.
Qed.

Lemma slots_at_nonneg slots e : 0 <= slots_at slots e.
Proof. unfold slots_at. lia. Qed.

(** ** Cloning and dropping *)

Section pool.
Context (limits : ChannelLimits).

Lemma clone_reservation_ok p r rs ss :
  Pool_ok limits p rs ss → r ∈ rs → Pool_ok limits (clone_reservation r p) (r :: rs) ss.
Proof using.
  intros Hp Hr. apply count_pos in Hr. pose proof Hp as [H1 H2 H3 H4 H5 H6 H7 H8 H9].
  assert (Hx : pp_pairs p !! r = Some (PAIR_WINDOW, count r rs)).
  { rewrite H1. by rewrite decide_False by lia. }
  unfold clone_reservation. rewrite Hx.
  assert (Hsz : size (<[r := (PAIR_WINDOW, count r rs + 1)]> (pp_pairs p)) = size (pp_pairs p))
    by (apply map_size_insert_Some; eauto).
  split; cbn [pp_pairs pp_slots pp_next pp_endpoint_slots pp_active_pairs pp_reserved_window_bytes];
    try done; rewrite ?Hsz; try done.
  - intros x. destruct (decide (x = r)) as [->|].
    + rewrite lookup_insert_eq, count_cons_eq. by rewrite decide_False by lia.
    + rewrite lookup_insert_ne, count_cons_ne by done. apply H1.
  - intros x Hn. destruct (H3 x Hn). rewrite count_cons_ne; [done|]. intros ->. lia.
Qed.

Lemma drop_reservation_ok p r rs ss :
  Pool_ok limits p (r :: rs) ss → Pool_ok limits (drop_reservation r p) rs ss.
Proof using.
  intros [H1 H2 H3 H4 H5 H6 H7 H8 H9]. pose proof (count_nonneg r rs).
  assert (Hx : pp_pairs p !! r = Some (PAIR_WINDOW, count r rs + 1)).
  { rewrite H1, count_cons_eq. by rewrite decide_False by lia. }
  unfold drop_reservation. rewrite Hx.
  assert (Hf : ∀ x, pp_next p <= x → count x rs = 0 ∧ count x ss = 0).
  { intros x Hn. destruct (H3 x Hn) as [Hc ?]. split; [|done].
    destruct (decide (x = r)) as [->|]; [rewrite count_cons_eq in Hc|rewrite count_cons_ne in Hc by done]; lia. }
  destruct (Z.eqb_spec (count r rs + 1) 1).
  - assert (Hsz : size (pp_pairs p) = S (size (delete r (pp_pairs p)))).
    { rewrite <- (insert_delete_id (pp_pairs p) r (PAIR_WINDOW, count r rs + 1)) at 1 by done.
      apply map_size_insert_None, lookup_delete_eq. }
    change PAIR_WINDOW with 2097152 in *.
    unfold release_pair, fetch_sub, U64_MAX in *. split;
      cbn [pp_pairs pp_slots pp_next pp_endpoint_slots pp_active_pairs pp_reserved_window_bytes]; try done.
    + intros x. destruct (decide (x = r)) as [->|].
      * rewrite lookup_delete_eq. by rewrite decide_True by lia.
      * rewrite lookup_delete_ne, H1, count_cons_ne by done. done.
    + rewrite Z.mod_small; lia.
    + change PAIR_WINDOW with 2097152. rewrite Z.mod_small; lia.
    + rewrite Z.mod_small; lia.
    + unfold U64_MAX. rewrite Z.mod_small; lia.
  - assert (Hsz : size (<[r := (PAIR_WINDOW, count r rs + 1 - 1)]> (pp_pairs p)) = size (pp_pairs p))
      by (apply map_size_insert_Some; eauto).
    split; cbn [pp_pairs pp_slots pp_next pp_endpoint_slots pp_active_pairs pp_reserved_window_bytes];
      try done; rewrite ?Hsz; try done.
    intros x. destruct (decide (x = r)) as [->|].
    + rewrite lookup_insert_eq. rewrite decide_False by lia. do 2 f_equal. lia.
    + rewrite lookup_insert_ne, H1, count_cons_ne by done. done.
Qed.

Lemma clone_slot_ok p s rs ss :
  Pool_ok limits p rs ss → s ∈ ss → Pool_ok limits (clone_slot s p) rs (s :: ss).
Proof using.
  intros [H1 H2 H3 H4 H5 H6 H7 H8 H9] Hs. apply count_pos in Hs.
  pose proof (H2 s) as Hx. unfold clone_slot. destruct (pp_slots p !! s) as [[e n]|] eqn:E; [|lia].
  destruct Hx as [-> Hn].
  split; cbn [pp_pairs pp_slots pp_next pp_endpoint_slots pp_active_pairs pp_reserved_window_bytes]; try done.
  - intros x. destruct (decide (x = s)) as [->|].
    + rewrite lookup_insert_eq, count_cons_eq. lia.
    + rewrite lookup_insert_ne, count_cons_ne by done. apply H2.
  - intros x Hx. destruct (H3 x Hx). rewrite count_cons_ne; [done|]. intros ->. lia.
  - intros x. rewrite (slots_at_update _ _ _ _ _ _ E). apply H6.
  - intros x. rewrite (slots_at_update _ _ _ _ _ _ E). apply H9.
Qed.

Lemma drop_slot_ok p s rs ss :
  Pool_ok limits p rs (s :: ss) → Pool_ok limits (drop_slot s p) rs ss.
Proof using.
  intros [H1 H2 H3 H4 H5 H6 H7 H8 H9]. pose proof (count_nonneg s ss).
  pose proof (H2 s) as Hx. rewrite count_cons_eq in Hx. unfold drop_slot.
  destruct (pp_slots p !! s) as [[e n]|] eqn:E; [|lia]. destruct Hx as [-> Hn].
  assert (Hf : ∀ x, pp_next p <= x → count x rs = 0 ∧ count x ss = 0).
  { intros x Hx. destruct (H3 x Hx) as [? Hc]. split; [done|].
    destruct (decide (x = s)) as [->|]; [rewrite count_cons_eq in Hc|rewrite count_cons_ne in Hc by done]; lia. }
  destruct (Z.eqb_spec (count s ss + 1) 1).
  - pose proof (slots_at_delete _ _ _ _ e E) as Hd. rewrite decide_True in Hd by done.
    pose proof (slots_at_nonneg (delete s (pp_slots p)) e) as Hnn.
    unfold release_slot. cbn [pp_endpoint_slots]. rewrite H6, decide_False by lia.
    unfold saturating_sub. cbn zeta. rewrite Z.max_r by lia.
    split; cbn [pp_pairs pp_slots pp_next pp_endpoint_slots pp_active_pairs pp_reserved_window_bytes]; try done.
    + intros x. destruct (decide (x = s)) as [->|]; [rewrite lookup_delete_eq; lia|].
      rewrite lookup_delete_ne by done. specialize (H2 x). by rewrite count_cons_ne in H2.
    + intros x. rewrite (slots_at_delete _ _ _ _ x E). destruct (decide (e = x)) as [<-|Hne].
      * destruct (Z.eqb_spec (slots_at (pp_slots p) e - 1) 0) as [Hz|Hz].
        -- rewrite lookup_delete_eq. by rewrite decide_True.
        -- rewrite lookup_insert_eq. by rewrite decide_False.
      * rewrite Z.sub_0_r. destruct (_ =? 0); [rewrite lookup_delete_ne by done|rewrite lookup_insert_ne by done];
          apply H6.
    + intros x. rewrite (slots_at_delete _ _ _ _ x E). specialize (H9 x).
      destruct (decide (e = x)); lia.
  - split; cbn [pp_pairs pp_slots pp_next pp_endpoint_slots pp_active_pairs pp_reserved_window_bytes]; try done.
    + intros x. destruct (decide (x = s)) as [->|]; [rewrite lookup_insert_eq; lia|].
      rewrite lookup_insert_ne by done. specialize (H2 x). by rewrite count_cons_ne in H2.
    + intros x. rewrite (slots_at_update _ _ _ _ _ _ E). apply H6.
    + intros x. rewrite (slots_at_update _ _ _ _ _ _ E). apply H9.
Qed.
End pool.

(** ** Reserving *)

Section reserve.
Context (limits : ChannelLimits).

(** The counters a new pair of slots leaves. *)
Lemma new_slots_ok p slots c a rs ss s1 s2 p' :
  Pool_ok limits p rs ss →
  (∀ e, slots !! e = let n := slots_at (pp_slots p) e + (if decide (c = e) then 1 else 0)
                              + (if decide (a = e) then 1 else 0) in
                     if decide (n = 0) then None else Some n) →
  (∀ e, slots_at (pp_slots p) e + (if decide (c = e) then 1 else 0)
        + (if decide (a = e) then 1 else 0) <= Z.max 0 (cl_handles_per_endpoint limits)) →
  new_slots p slots c a = (s1, s2, p') →
  Pool_ok limits p' rs (s1 :: s2 :: ss) ∧ pp_pairs p' = pp_pairs p
  ∧ pp_active_pairs p' = pp_active_pairs p
  ∧ pp_reserved_window_bytes p' = pp_reserved_window_bytes p.
Proof using.
  intros [H1 H2 H3 H4 H5 H6 H7 H8 H9] Hslots Hlim. unfold new_slots. intros [= <- <- <-].
  assert (Hno : ∀ x, pp_next p <= x → pp_slots p !! x = None ∧ count x ss = 0).
  { intros x Hx. destruct (H3 x Hx) as [_ Hc]. specialize (H2 x).
    destruct (pp_slots p !! x) as [[]|]; [lia|done]. }
  destruct (Hno (pp_next p)) as [N1 C1]; [lia|]. destruct (Hno (pp_next p + 1)) as [N2 C2]; [lia|].
  assert (Hat : ∀ e, slots_at (<[pp_next p + 1 := (a, 1)]> (<[pp_next p := (c, 1)]> (pp_slots p))) e
    = slots_at (pp_slots p) e + (if decide (c = e) then 1 else 0) + (if decide (a = e) then 1 else 0)).
  { intros e. rewrite slots_at_insert_ne by (rewrite lookup_insert_ne by lia; done).
    by rewrite slots_at_insert_ne. }
  split_and!; [|done..].
  split; cbn [pp_pairs pp_slots pp_next pp_endpoint_slots pp_active_pairs pp_reserved_window_bytes]; try done.
  - intros x. destruct (decide (x = pp_next p + 1)) as [->|]; [|destruct (decide (x = pp_next p)) as [->|]].
    + rewrite lookup_insert_eq, count_cons_ne, count_cons_eq by lia. lia.
    + rewrite lookup_insert_ne, lookup_insert_eq, count_cons_eq, count_cons_ne by lia. lia.
    + rewrite !lookup_insert_ne, !count_cons_ne by done. apply H2.
  - intros x Hx. destruct (H3 x ltac:(lia)). split; [done|]. rewrite !count_cons_ne by lia. done.
  - intros e. rewrite Hat. apply Hslots.
  - intros e. rewrite Hat. apply Hlim.
Qed.

Lemma slot_count_at p rs ss e : Pool_ok limits p rs ss → slot_count p e = slots_at (pp_slots p) e.
Proof using.
  intros Hp. unfold slot_count. rewrite (po_endpoint _ _ _ _ Hp).
  destruct (decide (slots_at (pp_slots p) e = 0)) as [->|]; done.
Qed.

Lemma over_limit_false n limit : over_limit n limit = false → n + 1 <= limit.
Proof using.
  unfold over_limit. destruct (checked_add_u64 n 1) as [m|] eqn:E; [|done].
  apply checked_add_u64_some in E as [-> _]. apply Z.ltb_ge.
Qed.

Lemma reserve_handle_slots_ok p c a rs ss s1 s2 p' :
  Pool_ok limits p rs ss → reserve_handle_slots limits p c a = Ok (s1, s2, p') →
  Pool_ok limits p' rs (s1 :: s2 :: ss) ∧ pp_pairs p' = pp_pairs p
  ∧ pp_active_pairs p' = pp_active_pairs p
  ∧ pp_reserved_window_bytes p' = pp_reserved_window_bytes p.
Proof using.
  intros Hp. unfold reserve_handle_slots. rewrite !(slot_count_at p rs ss) by done.
  pose proof (slots_at_nonneg (pp_slots p)) as Hnn.
  destruct (Z.eqb_spec c a) as [->|Hne].
  - destruct (checked_add_u64 _ 2) as [next|] eqn:E; [|done]. apply checked_add_u64_some in E as [-> _].
    destruct (Z.ltb_spec (cl_handles_per_endpoint limits) (slots_at (pp_slots p) a + 2)); [done|].
    match goal with |- Ok ?x = _ → _ => remember x as ns eqn:Hn end. intros [= ->]. symmetry in Hn.
    eapply new_slots_ok; [exact Hp| |  |exact Hn].
    + intros e. cbn zeta. specialize (Hnn e). destruct (decide (a = e)) as [->|].
      * rewrite lookup_insert_eq. rewrite decide_False by lia. f_equal. lia.
      * rewrite lookup_insert_ne, !Z.add_0_r by done. apply Hp.
    + intros e. destruct (decide (a = e)) as [->|]; [lia|].
      pose proof (po_slot_limit _ _ _ _ Hp e). lia.
  - destruct (over_limit (slots_at (pp_slots p) c) _) eqn:O1; cbn [orb]; [done|].
    destruct (over_limit (slots_at (pp_slots p) a) _) eqn:O2; [done|].
    apply over_limit_false in O1, O2.
    match goal with |- Ok ?x = _ → _ => remember x as ns eqn:Hn end. intros [= ->]. symmetry in Hn.
    eapply new_slots_ok; [exact Hp| |  |exact Hn].
    + intros e. cbn zeta. pose proof (Hnn e). destruct (decide (a = e)) as [->|].
      * rewrite lookup_insert_eq. rewrite (decide_False (P := c = e)) by done.
        rewrite decide_False by lia. f_equal. lia.
      * rewrite lookup_insert_ne by done. destruct (decide (c = e)) as [->|].
        -- rewrite lookup_insert_eq. rewrite decide_False by lia. f_equal. lia.
        -- rewrite lookup_insert_ne, !Z.add_0_r by done. apply Hp.
    + intros e. pose proof (po_slot_limit _ _ _ _ Hp e).
      destruct (decide (c = e)) as [->|], (decide (a = e)) as [->|]; lia.
Qed.

Lemma reserve_pair_ok p c a rs ss res p' :
  Pool_ok limits p rs ss → reserve_pair limits p c a = (res, p') →
  match res with
  | Ok (r, s1, s2) => Pool_ok limits p' (r :: rs) (s1 :: s2 :: ss)
  | Err _ => Pool_ok limits p' rs ss
  end.
Proof using.
  intros Hp. unfold reserve_pair.
  destruct (reserve_handle_slots limits p c a) as [[[s1 s2] p1]|e] eqn:E; [|by intros [= <- <-]].
  apply (reserve_handle_slots_ok p c a rs ss) in E as (Hp1 & _ & _ & _); [|done].
  assert (Hdrop : Pool_ok limits (drop_slot s2 (drop_slot s1 p1)) rs ss).
  { by do 2 apply drop_slot_ok. }
  destruct (Z.leb_spec (cl_connected_pairs limits) (pp_active_pairs p1)); [by intros [= <- <-]|].
  destruct (checked_add_u64 _ _) as [next|] eqn:En; [|by intros [= <- <-]].
  apply checked_add_u64_some in En as [-> Hmax].
  destruct (Z.ltb_spec (cl_buffer_bytes limits)
    (pp_reserved_window_bytes p1 + saturating_mul_u64 FLOW_WINDOW_BYTES 2)); [by intros [= <- <-]|].
  intros [= <- <-]. fold PAIR_WINDOW in *.
  destruct Hp1 as [H1 H2 H3 H4 H5 H6 H7 H8 H9].
  destruct (H3 (pp_next p1)) as [C1 C2]; [lia|].
  assert (Hnone : pp_pairs p1 !! pp_next p1 = None) by (rewrite H1; by rewrite decide_True).
  assert (Hsz : size (<[pp_next p1 := (PAIR_WINDOW, 1)]> (pp_pairs p1)) = S (size (pp_pairs p1)))
    by by apply map_size_insert_None.
  split; cbn [pp_pairs pp_slots pp_next pp_endpoint_slots pp_active_pairs pp_reserved_window_bytes];
    rewrite ?Hsz; try done; try lia.
  - intros x. destruct (decide (x = pp_next p1)) as [->|].
    + rewrite lookup_insert_eq, count_cons_eq, C1. done.
    + rewrite lookup_insert_ne, count_cons_ne by done. apply H1.
  - intros x Hx. destruct (H3 x ltac:(lia)). rewrite count_cons_ne by lia. done.
Qed.

(** ** Sides *)

(** Exactly the sides [refs] are held. *)
Definition Charged (p : PairPool) (refs : list NativePairSide) : Prop :=
  Pool_ok limits p (map ps_reservation refs) (map ps_slot refs).

Lemma charged_perm p refs refs' : refs ≡ₚ refs' → Charged p refs → Charged p refs'.
Proof using. intros Hp. apply pool_ok_perm; by apply Permutation_map. Qed.

Lemma charged_clone p side refs : Charged p refs → side ∈ refs → Charged (clone_side side p) (side :: refs).
Proof using.
  intros Hc Hin. unfold Charged, clone_side. cbn [map].
  apply clone_slot_ok; [|apply list_elem_of_fmap; eauto].
  apply clone_reservation_ok; [done|apply list_elem_of_fmap; eauto].
Qed.

Lemma charged_drop p side refs : Charged p (side :: refs) → Charged (drop_side side p) refs.
Proof using.
  intros Hc. unfold Charged, drop_side. apply drop_slot_ok, drop_reservation_ok. exact Hc.
Qed.

Lemma charged_drop_all p gone refs : Charged p (gone ++ refs) → Charged (foldr drop_side p gone) refs.
Proof using.
  revert refs. induction gone as [|g gone IH]; intros refs Hc; [done|]. cbn [foldr].
  apply charged_drop, IH. eapply charged_perm; [|exact Hc]. cbn. apply Permutation_middle.
Qed.
End reserve.
