(* ===== verification/ChannelFacts.v ===== *)
(** * ChannelFacts: the invariant of the channel fabric

    [Fabric_core]: links come in symmetric pairs of registered endpoints, names
    and listeners correspond one to one, counters are fresh, and the pool is
    charged for exactly the sides held by connects in progress, links and
    lanes. [Holding f hand] is that last part in the middle of an operation,
    [hand] being the sides its local variables own. *)

From S2P Require Import Prelude Schema ChannelPool ChannelPoolFacts Channel.

(** ** The sides held by a map *)

Section held.
Context {K A : Type} `{Countable K} (g : A → list NativePairSide).

Definition map_refs (m : gmap K A) : list NativePairSide :=
  concat (map (λ p, g p.2) (map_to_list m)).

Lemma concat_map_perm {B C} (h : B → list C) (l1 l2 : list B) :
  l1 ≡ₚ l2 → concat (map h l1) ≡ₚ concat (map h l2).
Proof using.
  induction 1; cbn; [done|by f_equiv|by rewrite !app_assoc, (Permutation_app_comm (h y))|by etrans].
Qed.

Lemma map_refs_insert m k x : m !! k = None → map_refs (<[k := x]> m) ≡ₚ g x ++ map_refs m.
Proof using.
  intros Hk. unfold map_refs.
  rewrite (concat_map_perm _ _ _ (map_to_list_insert m k x Hk)). done.
Qed.

Lemma map_refs_delete m k x : m !! k = Some x → map_refs m ≡ₚ g x ++ map_refs (delete k m).
Proof using.
  intros Hk. rewrite <- (insert_delete_id m k x) at 1 by done.
  apply map_refs_insert, lookup_delete_eq.
Qed.

Lemma map_refs_update m k x y :
  m !! k = Some x → g x ++ map_refs (<[k := y]> m) ≡ₚ g y ++ map_refs m.
Proof using.
  intros Hk. rewrite (map_refs_delete m k x Hk), <- insert_delete_eq.
  rewrite map_refs_insert by apply lookup_delete_eq.
  rewrite !app_assoc. f_equiv. apply Permutation_app_comm.
Qed.

Lemma map_refs_same m k x y : m !! k = Some x → g y = g x → map_refs (<[k := y]> m) ≡ₚ map_refs m.
Proof using.
  intros Hk Hg. apply (Permutation_app_inv_l (g x)). rewrite <- Hg at 2.
  by apply map_refs_update.
Qed.

Lemma map_refs_elem m k x s : m !! k = Some x → s ∈ g x → s ∈ map_refs m.
Proof using. intros Hk Hs. rewrite (map_refs_delete m k x Hk), elem_of_app. by left. Qed.
End held.

Definition pending_sides (p : NativePendingConnect) : list NativePairSide :=
  [pc_connector_side p; pc_listener_side p].
Definition link_sides (l : NativeLinkEnd) : list NativePairSide := [le_side l].

Definition fabric_refs (f : ChannelFabric) : list NativePairSide :=
  map_refs pending_sides (ch_native_pending f) ++ map_refs link_sides (ch_native_links f)
  ++ map_refs lane_guards (ch_lanes f).

Definition Holding (f : ChannelFabric) (hand : list NativePairSide) : Prop :=
  Charged (ch_limits f) (ch_pool f) (hand ++ fabric_refs f).

(** ** Moving sides around *)

Lemma holding_perm f hand hand' : hand ≡ₚ hand' → Holding f hand → Holding f hand'.
Proof. intros Hp. apply charged_perm. by rewrite Hp. Qed.

Lemma holding_drop f side hand :
  Holding f (side :: hand) → Holding (set_pool (drop_side side (ch_pool f)) f) hand.
Proof. intros Hh. apply (charged_drop (ch_limits f)), Hh. Qed.

Definition push_event (e : NativeEvent) (la : Lane) : Lane := set_events (la_events la ++ [e]) la.
Definition push_terminal (e : NativeTerminalEvent) (la : Lane) : Lane :=
  set_terminal (la_terminal la ++ [e]) la.

Lemma lane_guards_push ev la :
  lane_guards (push_event ev la) ≡ₚ option_list (event_guard ev) ++ lane_guards la.
Proof.
  unfold lane_guards, push_event. cbn [set_events la_events la_handling la_terminal].
  rewrite !omap_app. cbn [omap list_omap]. destruct (event_guard ev); cbn; solve_Permutation.
Qed.

Lemma lane_guards_push_terminal ev la :
  lane_guards (push_terminal ev la)
  ≡ₚ option_list (event_guard (NativeEvent_from ev)) ++ lane_guards la.
Proof.
  unfold lane_guards, push_terminal. cbn [set_terminal la_events la_handling la_terminal].
  rewrite map_app, !omap_app. cbn [map omap list_omap].
  destruct (event_guard (NativeEvent_from ev)); cbn; solve_Permutation.
Qed.

(** Replacing a lane whose guards grew by [gs] uses up the [gs] in hand. *)
Lemma holding_lane f e la la' gs hand :
  ch_lanes f !! e = Some la → lane_guards la' ≡ₚ gs ++ lane_guards la →
  Holding f (gs ++ hand) → Holding (set_lanes (<[e := la']> (ch_lanes f)) f) hand.
Proof.
  intros Hla Hg. apply charged_perm. unfold fabric_refs.
  cbn [set_lanes ch_native_pending ch_native_links ch_lanes].
  apply (Permutation_app_inv_l (lane_guards la)).
  pose proof (map_refs_update lane_guards (ch_lanes f) e la la' Hla) as Hu.
  set (P := map_refs pending_sides _). set (L := map_refs link_sides _).
  set (M := map_refs lane_guards (ch_lanes f)) in *. set (M' := map_refs lane_guards _) in *.
  transitivity (hand ++ P ++ L ++ (lane_guards la' ++ M)); [rewrite Hg; solve_Permutation|].
  rewrite <- Hu. solve_Permutation.
Qed.

Lemma option_list_drop f (g : option NativePairSide) hand :
  Holding f (option_list g ++ hand) → Holding (set_pool (drop_guard g (ch_pool f)) f) hand.
Proof.
  destruct g as [side|]; cbn [option_list app drop_guard]; [apply holding_drop|].
  intros Hh. exact Hh.
Qed.

Section sending.
Context `{ML : MpscLaws}.

Lemma try_send_event_eq e ev f :
  try_send_event e ev f
  = match ch_lanes f !! e with
    | Some la =>
        if la_open la && (len (la_events la) <? la_capacity la)
        then (true, set_lanes (<[e := push_event ev la]> (ch_lanes f)) f)
        else (false, set_pool (drop_guard (event_guard ev) (ch_pool f)) f)
    | None => (false, set_pool (drop_guard (event_guard ev) (ch_pool f)) f)
    end.
Proof using ML.
  unfold try_send_event. destruct (ch_lanes f !! e) as [la|]; [|done].
  rewrite mpsc_try_send_room. by destruct (la_open la && _).
Qed.

Lemma send_terminal_eq e ev f :
  send_terminal e ev f
  = match ch_lanes f !! e with
    | Some la =>
        if la_open la then set_lanes (<[e := push_terminal ev la]> (ch_lanes f)) f
        else set_pool (drop_guard (event_guard (NativeEvent_from ev)) (ch_pool f)) f
    | None => set_pool (drop_guard (event_guard (NativeEvent_from ev)) (ch_pool f)) f
    end.
Proof using ML.
  unfold send_terminal. destruct (ch_lanes f !! e) as [la|]; [|done].
  rewrite mpsc_send_open. by destruct (la_open la).
Qed.

Lemma try_send_event_holding e ev f b f' hand :
  try_send_event e ev f = (b, f') → Holding f (option_list (event_guard ev) ++ hand) →
  Holding f' hand.
Proof.
  rewrite try_send_event_eq. intros Ht Hh. destruct (ch_lanes f !! e) as [la|] eqn:El.
  - destruct (la_open la && _); injection Ht as <- <-; [|by apply option_list_drop].
    eapply holding_lane; [done|apply lane_guards_push|done].
  - injection Ht as <- <-. by apply option_list_drop.
Qed.

Lemma send_terminal_holding e ev f hand :
  Holding f (option_list (event_guard (NativeEvent_from ev)) ++ hand) →
  Holding (send_terminal e ev f) hand.
Proof.
  rewrite send_terminal_eq. intros Hh. destruct (ch_lanes f !! e) as [la|] eqn:El;
    [|by apply option_list_drop].
  destruct (la_open la); [|by apply option_list_drop].
  eapply holding_lane; [done|apply lane_guards_push_terminal|done].
Qed.

End sending.

Lemma take_pending f id p hand :
  ch_native_pending f !! id = Some p → Holding f hand →
  Holding (set_native_pending (delete id (ch_native_pending f)) f) (pending_sides p ++ hand).
Proof.
  intros Hp. apply charged_perm. unfold fabric_refs.
  cbn [set_native_pending ch_native_pending ch_native_links ch_lanes].
  rewrite (map_refs_delete pending_sides _ _ _ Hp). solve_Permutation.
Qed.

Lemma put_pending f id p hand :
  ch_native_pending f !! id = None → Holding f (pending_sides p ++ hand) →
  Holding (set_native_pending (<[id := p]> (ch_native_pending f)) f) hand.
Proof.
  intros Hp. apply charged_perm. unfold fabric_refs.
  cbn [set_native_pending ch_native_pending ch_native_links ch_lanes].
  rewrite (map_refs_insert pending_sides _ _ _ Hp). solve_Permutation.
Qed.

Lemma same_pending f id p p' hand :
  ch_native_pending f !! id = Some p → pending_sides p' = pending_sides p → Holding f hand →
  Holding (set_native_pending (<[id := p']> (ch_native_pending f)) f) hand.
Proof.
  intros Hp Hs. apply charged_perm. unfold fabric_refs.
  cbn [set_native_pending ch_native_pending ch_native_links ch_lanes].
  by rewrite (map_refs_same pending_sides _ _ _ _ Hp Hs).
Qed.

Lemma take_link f k l hand :
  ch_native_links f !! k = Some l → Holding f hand →
  Holding (set_links (delete k (ch_native_links f)) f) (le_side l :: hand).
Proof.
  intros Hp. apply charged_perm. unfold fabric_refs.
  cbn [set_links ch_native_pending ch_native_links ch_lanes].
  rewrite (map_refs_delete link_sides _ _ _ Hp). unfold link_sides at 1. solve_Permutation.
Qed.

Lemma put_link f k l hand :
  ch_native_links f !! k = None → Holding f (le_side l :: hand) →
  Holding (set_links (<[k := l]> (ch_native_links f)) f) hand.
Proof.
  intros Hp. apply charged_perm. unfold fabric_refs.
  cbn [set_links ch_native_pending ch_native_links ch_lanes].
  rewrite (map_refs_insert link_sides _ _ _ Hp). unfold link_sides at 2. solve_Permutation.
Qed.

Lemma alter_some {A} (u : A → A) (m : gmap (Z * Z) A) k x :
  m !! k = Some x → alter u k m = <[k := u x]> m.
Proof.
  intros Hk. apply map_eq. intros j. destruct (decide (k = j)) as [<-|].
  - by rewrite lookup_alter_eq, Hk, lookup_insert_eq.
  - by rewrite lookup_alter_ne, lookup_insert_ne.
Qed.

Lemma alter_none {A} (u : A → A) (m : gmap (Z * Z) A) k : m !! k = None → alter u k m = m.
Proof.
  intros Hk. apply map_eq. intros j. destruct (decide (k = j)) as [<-|].
  - by rewrite lookup_alter_eq, Hk.
  - by rewrite lookup_alter_ne.
Qed.

Lemma alter_link f k (u : NativeLinkEnd → NativeLinkEnd) hand :
  (∀ l, le_side (u l) = le_side l) → Holding f hand →
  Holding (set_links (alter u k (ch_native_links f)) f) hand.
Proof.
  intros Hu Hh. destruct (ch_native_links f !! k) as [l|] eqn:El.
  - revert Hh. apply charged_perm. unfold fabric_refs.
    cbn [set_links ch_native_pending ch_native_links ch_lanes].
    rewrite (alter_some u _ _ _ El). rewrite (map_refs_same link_sides _ _ _ _ El); [done|].
    unfold link_sides. by rewrite Hu.
  - rewrite alter_none by done. by destruct f.
Qed.

(** ** The shape of the maps *)

Definition peer_of (l : NativeLinkEnd) : End := (le_peer_endpoint l, le_peer_channel_handle l).

(** The two ends of a link mirror each other. *)
Definition mirrors (k : End) (l l' : NativeLinkEnd) : Prop :=
  peer_of l' = k ∧ peer_of l ≠ k ∧ le_connect_id l' = le_connect_id l
  ∧ le_max_item_bytes l' = le_max_item_bytes l ∧ le_published l' = le_published l
  ∧ le_output_closed l && le_output_closed l' = false
  ∧ ps_reservation (le_side l') = ps_reservation (le_side l).

Definition Links_ok (links : gmap (Z * Z) NativeLinkEnd) (eps : gmap Z NativeEndpoint) : Prop :=
  ∀ k l, links !! k = Some l →
    is_Some (eps !! k.1) ∧ ∃ l', links !! peer_of l = Some l' ∧ mirrors k l l'.

Definition Pending_ok (pending : gmap Z NativePendingConnect) (eps : gmap Z NativeEndpoint)
    (next : Z) : Prop :=
  ∀ id p, pending !! id = Some p →
    id < next ∧ is_Some (eps !! pc_connector_endpoint p) ∧ is_Some (eps !! pc_listener_endpoint p)
    ∧ ps_reservation (pc_connector_side p) = ps_reservation (pc_listener_side p)
    ∧ (is_Some (pc_listener_channel_handle p) ↔ is_Some (pc_max_item_bytes p)).

Definition Registry_ok (f : ChannelFabric) : Prop :=
  (∀ n h, ch_listener_names f !! n = Some h ↔ ∃ l, ch_listeners f !! h = Some l ∧ li_name l = n)
  ∧ (∀ h l, ch_listeners f !! h = Some l →
       li_listener_handle l = h ∧ h < ch_next_listener_handle f
       ∧ li_generation l < ch_next_listener_generation f ∧ valid_name (li_name l) = true
       ∧ len (li_metadata l) <= channel_MAX_METADATA_BYTES
       ∧ li_token l = listener_token (ch_boot_generation f) (li_generation l))
  ∧ (∀ h1 h2 l1 l2, ch_listeners f !! h1 = Some l1 → ch_listeners f !! h2 = Some l2 →
       li_generation l1 = li_generation l2
       ∨ (li_endpoint l1 = li_endpoint l2 ∧ li_registry_id l1 = li_registry_id l2) → h1 = h2)
  ∧ Z.of_nat (size (ch_listeners f)) <= Z.max 0 (cl_listeners (ch_limits f)).

Definition Endpoints_ok (f : ChannelFabric) : Prop :=
  (∀ e, is_Some (ch_native_endpoints f !! e) → is_Some (ch_lanes f !! e))
  ∧ ∀ e, is_Some (ch_lanes f !! e) → e < ch_next_native_endpoint f.

(** Every listener belongs to the session of a registered endpoint. *)
Definition Owned (f : ChannelFabric) : Prop :=
  ∀ h l, ch_listeners f !! h = Some l →
    ∃ ep, ch_native_endpoints f !! li_endpoint l = Some ep
          ∧ ep_session_id ep = li_owner_session l ∧ ep_owner_extension ep = li_owner_extension l.

Record Fabric_core (f : ChannelFabric) : Prop := {
  fc_held : Holding f [];
  fc_links : Links_ok (ch_native_links f) (ch_native_endpoints f);
  fc_pending : Pending_ok (ch_native_pending f) (ch_native_endpoints f) (ch_next_native_connect f);
  fc_registry : Registry_ok f;
  fc_endpoints : Endpoints_ok f
}.

(** ** Operations that only touch lanes and pool *)

Definition quiet (f f' : ChannelFabric) : Prop :=
  ∃ pool lanes, f' = set_lanes lanes (set_pool pool f)
    ∧ ∀ e, is_Some (lanes !! e) ↔ is_Some (ch_lanes f !! e).

Lemma quiet_pool f pool : quiet f (set_pool pool f).
Proof. exists pool, (ch_lanes f). by destruct f. Qed.

Lemma quiet_refl f : quiet f f.
Proof. exists (ch_pool f), (ch_lanes f). by destruct f. Qed.

Lemma quiet_trans f1 f2 f3 : quiet f1 f2 → quiet f2 f3 → quiet f1 f3.
Proof.
  intros (p1 & l1 & -> & H1) (p2 & l2 & -> & H2). exists p2, l2. split; [done|].
  intros e. rewrite H2. cbn. apply H1.
Qed.

Lemma quiet_lane f e la la' :
  ch_lanes f !! e = Some la → quiet f (set_lanes (<[e := la']> (ch_lanes f)) f).
Proof.
  intros Hla. exists (ch_pool f), (<[e := la']> (ch_lanes f)). split; [by destruct f|].
  intros x. destruct (decide (e = x)) as [<-|]; [rewrite lookup_insert_eq, Hla|rewrite lookup_insert_ne by done];
    split; eauto.
Qed.

Section quiet_sending.
Context `{ML : MpscLaws}.

Lemma quiet_try_send e ev f b f' : try_send_event e ev f = (b, f') → quiet f f'.
Proof.
  rewrite try_send_event_eq. destruct (ch_lanes f !! e) as [la|] eqn:El;
    [destruct (la_open la && _)|]; intros [= <- <-]; try apply quiet_pool. by eapply quiet_lane.
Qed.

Lemma quiet_send_terminal e ev f : quiet f (send_terminal e ev f).
Proof.
  rewrite send_terminal_eq. destruct (ch_lanes f !! e) as [la|] eqn:El; [|apply quiet_pool].
  destruct (la_open la); [by eapply quiet_lane|apply quiet_pool].
Qed.

End quiet_sending.

Lemma core_quiet f f' : quiet f f' → Fabric_core f → Holding f' [] → Fabric_core f'.
Proof.
  intros (pool & lanes & -> & Hl) [_ H2 H3 H4 [H5 H6]] Hh. split; try done.
  split; cbn; intros e He; [apply Hl, H5, He|apply H6, Hl, He].
Qed.

Lemma quiet_fields f f' : quiet f f' →
  ch_native_links f' = ch_native_links f ∧ ch_native_pending f' = ch_native_pending f
  ∧ ch_native_endpoints f' = ch_native_endpoints f ∧ ch_listeners f' = ch_listeners f
  ∧ ch_next_native_connect f' = ch_next_native_connect f ∧ ch_limits f' = ch_limits f.
Proof. intros (pool & lanes & -> & _). done. Qed.

(** ** Aborting a connect *)

Section abort.
Context `{ML : MpscLaws}.

Lemma quiet_abort_side id reason f t : quiet f (abort_side id reason f t).
Proof. unfold abort_side. destruct (_ !! _); [apply quiet_send_terminal|apply quiet_pool]. Qed.

Lemma abort_side_holding id reason f t hand :
  Holding f (t.2 :: hand) → Holding (abort_side id reason f t) hand.
Proof.
  intros Hh. unfold abort_side. destruct (_ !! _); [by apply send_terminal_holding|by apply holding_drop].
Qed.

Lemma cancel_connect_core e id reason f : Fabric_core f → Fabric_core (native_cancel_connect e id reason f).
Proof.
  intros Hc. unfold native_cancel_connect. destruct (ch_native_pending f !! id) as [p|] eqn:Ep; [|done].
  destruct (_ && _); [done|]. cbn [foldl].
  set (f1 := set_native_pending (delete id (ch_native_pending f)) f).
  assert (H1 : Holding f1 (pending_sides p ++ [])) by (apply take_pending; [done|apply Hc]).
  set (f2 := abort_side id reason f1 _).
  assert (H2 : Holding f2 [pc_listener_side p]).
  { apply abort_side_holding. cbn [snd]. exact H1. }
  assert (H3 : Holding (abort_side id reason f2 (pc_listener_endpoint p, pc_listener_side p)) []).
  { apply abort_side_holding. exact H2. }
  assert (Hq : quiet f1 (abort_side id reason f2 (pc_listener_endpoint p, pc_listener_side p)))
    by (eapply quiet_trans; apply quiet_abort_side).
  destruct Hq as (pool & lanes & E & Hl). rewrite E in *. destruct Hc as [_ Hc2 Hc3 Hc4 [Hc5 Hc6]].
  split; [done|done| |done|].
  - intros x q Hx. cbn in Hx. apply lookup_delete_Some in Hx as [_ Hx]. by apply Hc3.
  - split; cbn; intros x Hx; [apply Hl, Hc5, Hx|apply Hc6, Hl, Hx].
Qed.
End abort.
