(* ===== verification/ChannelLinks.v ===== *)
(** * ChannelLinks: connects and links keep the fabric well formed

    One preservation lemma per operation of [crates/server/src/channel.rs]
    that begins, carries through, uses or ends a link. *)

From S2P Require Import Prelude Schema ChannelPool ChannelPoolFacts Channel ChannelFacts.

(** ** Links as a symmetric matching *)

Lemma links_delete_pair links eps k l :
  Links_ok links eps → links !! k = Some l →
  Links_ok (delete (peer_of l) (delete k links)) eps.
Proof.
  intros Hl Hk x m Hx. apply lookup_delete_Some in Hx as [Hx1 Hx].
  apply lookup_delete_Some in Hx as [Hx2 Hx]. destruct (Hl x m Hx) as (He & m' & Hm & Hmir).
  split; [done|]. exists m'. split; [|done]. destruct (Hl k l Hk) as (_ & l' & Hl' & Hlm).
  destruct Hmir as [Hpx _], Hlm as [Hpk _].
  rewrite !lookup_delete_ne; [done| |]; intros Hc; rewrite <- Hc in *; simplify_eq.
Qed.

Lemma links_insert_pair links eps k k' l l' :
  Links_ok links eps → links !! k = None → links !! k' = None → k ≠ k' →
  is_Some (eps !! k.1) → is_Some (eps !! k'.1) → peer_of l = k' → mirrors k l l' →
  Links_ok (<[k' := l']> (<[k := l]> links)) eps.
Proof.
  intros Hl Hk Hk' Hne He He' Hp Hm x m Hx.
  destruct (decide (x = k')) as [->|Hx1].
  { rewrite lookup_insert_eq in Hx. injection Hx as <-. split; [done|]. exists l.
    destruct Hm as (H1 & H2 & H3 & H4 & H5 & H6 & H7). rewrite H1, lookup_insert_ne, lookup_insert_eq by done.
    split; [done|]. repeat split; try done; try congruence. by rewrite andb_comm. }
  rewrite lookup_insert_ne in Hx by done. destruct (decide (x = k)) as [->|Hx2].
  { rewrite lookup_insert_eq in Hx. injection Hx as <-. split; [done|]. exists l'.
    by rewrite Hp, lookup_insert_eq. }
  rewrite lookup_insert_ne in Hx by done. destruct (Hl x m Hx) as (? & m' & Hm' & ?).
  split; [done|]. exists m'. split; [|done]. rewrite !lookup_insert_ne; [done| |]; congruence.
Qed.

(** ** Resetting a link *)

Section mpsc.
Context `{ML : MpscLaws}.

Lemma reset_core e h reason f : Fabric_core f → Fabric_core (native_reset e h reason f).2.
Proof.
  intros Hc. unfold native_reset. destruct (ch_native_links f !! (e, h)) as [l|] eqn:El; [|done].
  cbn [snd]. destruct (fc_links _ Hc _ _ El) as (_ & l' & El' & Hm). fold (peer_of l).
  assert (Hne : (e, h) ≠ peer_of l) by (destruct Hm as (_ & ? & _); done).
  rewrite lookup_delete_ne, El' by done.
  set (f1 := set_links (delete (peer_of l) (delete (e, h) (ch_native_links f))) f).
  assert (H1 : Holding f1 [le_side l'; le_side l]).
  { pose proof (take_link f (e, h) l [] El (fc_held _ Hc)) as Ht.
    apply (take_link (set_links (delete (e, h) (ch_native_links f)) f) (peer_of l) l') in Ht; [exact Ht|].
    cbn. by rewrite lookup_delete_ne. }
  assert (Hs : ∀ f2, quiet f1 f2 → Holding f2 [le_side l] →
             Fabric_core (set_pool (drop_side (le_side l) (ch_pool f2)) f2)).
  { intros f2 Hq H2. pose proof (quiet_trans _ _ _ Hq (quiet_pool f2 (drop_side (le_side l) (ch_pool f2)))) as Hq'.
    assert (H3 := holding_drop _ _ _ H2). destruct Hq' as (pool & lanes & E & Hl). rewrite E in *.
    destruct Hc as [_ Hc2 Hc3 Hc4 [Hc5 Hc6]]. split; [done| |done|done|].
    - cbn. by apply links_delete_pair.
    - split; cbn; intros x Hx; [apply Hl, Hc5, Hx|apply Hc6, Hl, Hx]. }
  destruct (ch_native_endpoints f1 !! _).
  - apply Hs; [apply quiet_send_terminal|]. by apply send_terminal_holding.
  - apply Hs; [apply quiet_pool|]. by apply holding_drop.
Qed.

(** ** Connecting *)

(** A state that differs in lanes and pool from one of the right shape. *)
Lemma core_of_shape f1 f2 :
  Links_ok (ch_native_links f1) (ch_native_endpoints f1) →
  Pending_ok (ch_native_pending f1) (ch_native_endpoints f1) (ch_next_native_connect f1) →
  Registry_ok f1 → Endpoints_ok f1 → quiet f1 f2 → Holding f2 [] → Fabric_core f2.
Proof.
  intros H1 H2 H3 [H4 H5] (pool & lanes & -> & Hl) Hh. split; try done.
  split; cbn; intros x Hx; [apply Hl, H4, Hx|apply H5, Hl, Hx].
Qed.

Lemma core_set_pool f pool :
  Fabric_core f → Holding (set_pool pool f) [] → Fabric_core (set_pool pool f).
Proof. intros Hc. apply (core_quiet f); [apply quiet_pool|done]. Qed.

Lemma pending_more pending eps n n' : Pending_ok pending eps n → n <= n' → Pending_ok pending eps n'.
Proof. intros Hp Hn id p Hid. destruct (Hp id p Hid) as (? & ?). split; [lia|done]. Qed.

Lemma pending_insert pending eps n id p :
  Pending_ok pending eps n → id < n → is_Some (eps !! pc_connector_endpoint p) →
  is_Some (eps !! pc_listener_endpoint p) →
  ps_reservation (pc_connector_side p) = ps_reservation (pc_listener_side p) →
  (is_Some (pc_listener_channel_handle p) ↔ is_Some (pc_max_item_bytes p)) →
  Pending_ok (<[id := p]> pending) eps n.
Proof.
  intros Hp ? ? ? ? ? x q Hx. destruct (decide (x = id)) as [->|].
  - rewrite lookup_insert_eq in Hx. by injection Hx as <-.
  - rewrite lookup_insert_ne in Hx by done. by apply Hp.
Qed.

Lemma reserve_pair_charged limits p c a refs r s1 s2 p' :
  Charged limits p refs → reserve_pair limits p c a = (Ok (r, s1, s2), p') →
  Charged limits (clone_reservation r p') (mkSide r s1 :: mkSide r s2 :: refs).
Proof.
  intros Hc Hr. apply (reserve_pair_ok limits _ _ _ _ _ _ _ Hc) in Hr.
  apply clone_reservation_ok; [exact Hr|by left].
Qed.

Lemma reserve_pair_undone limits p c a refs r s1 s2 p' :
  Charged limits p refs → reserve_pair limits p c a = (Ok (r, s1, s2), p') →
  Charged limits (drop_slot s2 (drop_slot s1 (drop_reservation r p'))) refs.
Proof.
  intros Hc Hr. apply (reserve_pair_ok limits _ _ _ _ _ _ _ Hc) in Hr.
  by apply drop_slot_ok, drop_slot_ok, drop_reservation_ok.
Qed.

Lemma begin_connect_core c h g credit md f :
  Fabric_core f → Fabric_core (native_begin_connect c h g credit md f).2.
Proof.
  intros Hc. unfold native_begin_connect. destruct (_ || _); [done|]. destruct (_ <? _); [done|].
  destruct (ch_listeners f !! h) as [l|]; [|done]. destruct (negb _); [done|].
  destruct (ch_native_endpoints f !! c) as [connector|] eqn:Ec; [|done].
  destruct (ch_native_endpoints f !! li_endpoint l) as [listener|] eqn:El; [|done].
  destruct (_ <=? _); [done|].
  destruct (reserve_pair _ _ _ _) as [[[[r s1] s2]|e] pool] eqn:Er; cycle 1.
  { apply core_set_pool; [done|]. exact (reserve_pair_ok _ _ _ _ _ _ _ _ (fc_held _ Hc) Er). }
  destruct (checked_add_u64 _ 1) as [next|] eqn:En; cycle 1.
  { apply core_set_pool; [done|]. exact (reserve_pair_undone _ _ _ _ _ _ _ _ _ (fc_held _ Hc) Er). }
  apply checked_add_u64_some in En as [-> _].
  set (f1 := set_pool _ _).
  assert (H1 : Holding f1 [mkSide r s1; mkSide r s2])
    by exact (reserve_pair_charged _ _ _ _ _ _ _ _ _ (fc_held _ Hc) Er).
  pose proof Hc as [_ Hl Hp Hr He].
  destruct (try_send_event _ _ f1) as [b f2] eqn:Et.
  assert (Hq := quiet_try_send _ _ _ _ _ Et).
  apply (try_send_event_holding _ _ _ _ _ [mkSide r s1; mkSide r s2]) in Et; [|exact H1].
  destruct b; cbn [snd].
  - apply (core_of_shape (set_native_pending
      (<[ch_next_native_connect f := mkPending c (li_endpoint l) h (li_metadata l) None None
          (mkSide r s1) (mkSide r s2)]> (ch_native_pending f)) f1)); [done| |done|done| |].
    + cbn. apply pending_insert; cbn; eauto using pending_more with lia; try lia.
    + destruct Hq as (p2 & l2 & -> & Hl2). exists p2, l2. split; [done|]. exact Hl2.
    + apply put_pending; [|exact Et]. destruct (quiet_fields _ _ Hq) as (_ & -> & _). cbn.
      destruct (ch_native_pending f !! _) as [q|] eqn:Eq; [|done]. apply Hp in Eq. lia.
  - apply (core_of_shape (set_next_connect (ch_next_native_connect f + 1) f)); [done| |done|done| |].
    + cbn. eapply pending_more; [done|lia].
    + eapply quiet_trans; [apply quiet_pool|]. eapply quiet_trans; [exact Hq|]. apply quiet_pool.
    + apply (holding_drop (set_pool (drop_side (mkSide r s1) (ch_pool f2)) f2)).
      by apply holding_drop.
Qed.

Lemma prepare_connect_core e id h credit mx f :
  Fabric_core f → Fabric_core (native_prepare_connect e id h credit mx f).2.
Proof.
  intros Hc. unfold native_prepare_connect.
  destruct (ch_native_pending f !! id) as [p|] eqn:Ep; [|done].
  destruct (negb _); [done|]. destruct (_ || _); [done|]. destruct (_ || _); [done|].
  destruct (ch_native_endpoints f !! pc_connector_endpoint p) eqn:Ee; [|done].
  destruct (try_send_event _ _ f) as [b f2] eqn:Et. assert (Hq := quiet_try_send _ _ _ _ _ Et).
  apply (try_send_event_holding _ _ _ _ _ []) in Et; [|apply Hc].
  destruct b; cbn [snd]; [|by apply (core_quiet f)].
  set (p' := mkPending _ _ _ _ _ _ _ _). pose proof Hc as [_ Hl Hp Hr He].
  apply (core_of_shape (set_native_pending (<[id := p']> (ch_native_pending f)) f)); [done| |done|done| |].
  - cbn. destruct (Hp id p Ep) as (? & ? & ? & ? & ?). apply pending_insert; done || (cbn; naive_solver).
  - destruct Hq as (p2 & l2 & -> & Hl2). exists p2, l2. split; [done|]. exact Hl2.
  - apply (same_pending f2 id p); [|done..]. by destruct (quiet_fields _ _ Hq) as (_ & -> & _).
Qed.

Lemma complete_connect_core e id h mx f :
  Fabric_core f → Fabric_core (native_complete_connect e id h mx f).2.
Proof.
  intros Hc. unfold native_complete_connect.
  destruct (ch_native_pending f !! id) as [p|] eqn:Ep; [|done].
  destruct (Z.eqb_spec (pc_connector_endpoint p) e) as [<-|]; cbn [negb]; [|done].
  destruct (pc_listener_channel_handle p) as [lh|] eqn:Elh; [|done].
  destruct (pc_max_item_bytes p) as [pmx|] eqn:Emx; [|done]. destruct (_ || _); [done|].
  destruct (bool_decide_reflect (is_Some (ch_native_links f !! (pc_connector_endpoint p, h)))) as [|Hn1]; [done|].
  destruct (bool_decide_reflect (is_Some (ch_native_links f !! (pc_listener_endpoint p, lh)))) as [|Hn2]; [done|].
  destruct (_ && _) eqn:Hself; [done|]. cbn [orb].
  destruct (ch_native_endpoints f !! pc_listener_endpoint p) as [listener|] eqn:El; [|done]. cbn [snd].
  apply eq_None_not_Some in Hn1, Hn2. apply andb_false_iff in Hself.
  rewrite !Z.eqb_neq in Hself. pose proof Hc as [Hh Hl Hp Hr He].
  destruct (Hp id p Ep) as (? & ? & ? & Hres & ?).
  apply (core_of_shape _ _) with (5 := quiet_refl _); cbn.
  - apply links_insert_pair; cbn; eauto; [naive_solver|].
    unfold mirrors, peer_of. cbn. rewrite Hres. split_and!; try done. naive_solver.
  - intros x q Hx. apply lookup_delete_Some in Hx as [_ Hx]. by apply Hp.
  - done.
  - done.
  - apply (take_pending f id p []) in Hh; [|done]. cbn [pending_sides app] in Hh.
    set (f1 := set_native_pending _ f) in *.
    match goal with |- context [<[_ := ?ll]> (<[?k := ?cl]> (ch_native_links f))] =>
      pose proof (put_link f1 k cl [pc_listener_side p] Hn1 Hh) as Hx;
      apply (put_link (set_links (<[k := cl]> (ch_native_links f1)) f1) (pc_listener_endpoint p, lh) ll)
        in Hx; [exact Hx|] end.
    cbn. rewrite lookup_insert_ne; [done|naive_solver].
Qed.

Lemma links_publish links eps k l :
  Links_ok links eps → links !! k = Some l →
  Links_ok (alter publish (peer_of l) (alter publish k links)) eps.
Proof.
  intros Hl Hk. destruct (Hl k l Hk) as (Hek & l' & Hk' & Hm).
  pose proof Hm as (Hm1 & Hne & Hm3).
  destruct (Hl (peer_of l) l' Hk') as [Hek' _].
  rewrite (alter_some publish links k l Hk).
  rewrite (alter_some publish _ (peer_of l) l') by (rewrite lookup_insert_ne; done).
  intros x m Hx. destruct (decide (x = peer_of l)) as [->|].
  { rewrite lookup_insert_eq in Hx. injection Hx as <-. split; [done|]. exists (publish l).
    change (peer_of (publish l')) with (peer_of l'). rewrite Hm1.
    rewrite lookup_insert_ne, lookup_insert_eq by done. split; [done|].
    destruct Hm3 as (H1 & H2 & H3 & H4 & H5). repeat split; cbn; try congruence.
    - change (peer_of (publish l')) with (peer_of l'). congruence.
    - by rewrite andb_comm. }
  rewrite lookup_insert_ne in Hx by done. destruct (decide (x = k)) as [->|].
  { rewrite lookup_insert_eq in Hx. injection Hx as <-. split; [done|]. exists (publish l').
    change (peer_of (publish l)) with (peer_of l). rewrite lookup_insert_eq. split; [done|].
    destruct Hm3 as (H1 & H2 & H3 & H4 & H5). by repeat split. }
  rewrite lookup_insert_ne in Hx by done. destruct (Hl x m Hx) as (? & m' & Hm' & Hmir).
  split; [done|]. exists m'. split; [|done]. destruct Hmir as [Hpx _].
  rewrite !lookup_insert_ne; [done| |]; congruence.
Qed.

Lemma publish_connect_core e id h credit f :
  Fabric_core f → Fabric_core (native_publish_connect e id h credit f).2.
Proof.
  intros Hc. unfold native_publish_connect.
  destruct (ch_native_links f !! (e, h)) as [l|] eqn:El; [|done]. destruct (_ || _); [done|].
  destruct (_ <? _); [done|]. destruct (_ !! le_peer_endpoint l); [|done].
  destruct (try_send_event _ _ f) as [b f2] eqn:Et. assert (Hq := quiet_try_send _ _ _ _ _ Et).
  apply (try_send_event_holding _ _ _ _ _ []) in Et; [|apply Hc].
  assert (Hc2 : Fabric_core f2) by by apply (core_quiet f).
  destruct b; cbn [snd]; [|by apply reset_core].
  destruct (quiet_fields _ _ Hq) as (E & _). fold (peer_of l).
  pose proof Hc2 as [Hh Hl Hp Hr He].
  apply (core_of_shape _ _) with (5 := quiet_refl _); cbn; try done.
  - apply links_publish; [done|]. by rewrite E.
  - apply (alter_link (set_links _ f2)); [done|]. by apply alter_link.
Qed.

(** ** Traffic *)

Section traffic.
Context (ev : Z → NativePairSide → NativeEvent) (ev_guard : ∀ h s, event_guard (ev h s) = Some s).

Lemma link_side_held f k l : ch_native_links f !! k = Some l → le_side l ∈ fabric_refs f.
Proof using ML.
  intros Hk. unfold fabric_refs. rewrite !elem_of_app. right; left.
  eapply map_refs_elem; [done|]. unfold link_sides. by left.
Qed.

Lemma send_to_peer_core l f r f' :
  Fabric_core f → send_to_peer l ev f = (r, f') → quiet f f' ∧ Fabric_core f'.
Proof using ML ev_guard.
  intros Hc. unfold send_to_peer, peer_side. fold (peer_of l).
  destruct (ch_native_links f !! peer_of l) as [l'|] eqn:El'; [|intros [= <- <-]; split; [apply quiet_refl|done]].
  set (f1 := set_pool _ f).
  assert (H1 : Holding f1 [le_side l'])
    by (apply charged_clone; [apply Hc|by eapply link_side_held]).
  assert (Hq1 : quiet f f1) by apply quiet_pool.
  destruct (_ !! le_peer_endpoint l).
  - destruct (try_send_event _ _ f1) as [b f2] eqn:Et.
    assert (Hq2 : quiet f f2) by (eapply quiet_trans; [exact Hq1|by eapply quiet_try_send]).
    apply (try_send_event_holding _ _ _ _ _ []) in Et; [|by rewrite ev_guard].
    destruct b; intros [= <- <-]; (split; [done|by apply (core_quiet f)]).
  - intros [= <- <-]. assert (Hq : quiet f (set_pool (drop_side (le_side l') (ch_pool f1)) f1))
      by (eapply quiet_trans; [exact Hq1|apply quiet_pool]).
    split; [done|]. apply (core_quiet f); [done..|]. by apply holding_drop.
Qed.

(** Success queues the event on the peer's lane under the peer's handle, and nothing else. *)
Lemma send_to_peer_delivers l f f' :
  send_to_peer l ev f = (Ok (), f') →
  ∃ l' la, ch_native_links f !! peer_of l = Some l'
    ∧ ch_lanes f !! le_peer_endpoint l = Some la ∧ la_open la = true
    ∧ len (la_events la) < la_capacity la
    ∧ ch_lanes f' = <[le_peer_endpoint l :=
        push_event (ev (le_peer_channel_handle l) (le_side l')) la]> (ch_lanes f).
Proof using ML.
  unfold send_to_peer, peer_side. fold (peer_of l).
  destruct (ch_native_links f !! peer_of l) as [l'|] eqn:El'; [|done].
  destruct (_ !! le_peer_endpoint l); [|done]. rewrite try_send_event_eq. cbn [set_pool ch_lanes].
  destruct (ch_lanes f !! le_peer_endpoint l) as [la|] eqn:Ela; [|done].
  destruct (la_open la) eqn:Eo; cbn [andb]; [|done]. destruct (Z.ltb_spec (len (la_events la)) (la_capacity la)); [|done].
  intros [= <-]. by exists l', la.
Qed.

Lemma send_to_peer_refused l f e f' :
  send_to_peer l ev f = (Err e, f') → ch_lanes f' = ch_lanes f ∧ (e = Native_NotFound
    ∨ e = Native_Unavailable ∨ e = Native_Backpressured).
Proof using ML.
  unfold send_to_peer, peer_side. fold (peer_of l).
  destruct (ch_native_links f !! peer_of l) as [l'|] eqn:El'; [|intros [= <- <-]; auto].
  destruct (_ !! le_peer_endpoint l); [|intros [= <- <-]; auto]. rewrite try_send_event_eq. cbn [set_pool ch_lanes].
  destruct (ch_lanes f !! le_peer_endpoint l) as [la|] eqn:Ela; [|intros [= <- <-]; auto].
  destruct (la_open la && _); [done|]. intros [= <- <-]; auto.
Qed.

End traffic.

Lemma send_message_core e h m f : Fabric_core f → Fabric_core (native_send_message e h m f).2.
Proof.
  intros Hc. unfold native_send_message. destruct (_ <? _); [done|].
  destruct (_ !! _) as [l|]; [|done]. destruct (_ || _); [done|].
  destruct (send_to_peer _ _ _) as [r f'] eqn:Es. by apply send_to_peer_core in Es as [_ ?].
Qed.

Lemma send_credit_core e h limit f : Fabric_core f → Fabric_core (native_send_credit e h limit f).2.
Proof.
  intros Hc. unfold native_send_credit. destruct (_ !! _) as [l|]; [|done]. destruct (negb _); [done|].
  destruct (send_to_peer _ _ _) as [r f'] eqn:Es. by apply send_to_peer_core in Es as [_ ?].
Qed.

Lemma links_close links eps k l l' :
  Links_ok links eps → links !! k = Some l → links !! peer_of l = Some l' →
  le_output_closed l' = false → Links_ok (alter close_output k links) eps.
Proof.
  intros Hl Hk Hk' Ho. rewrite (alter_some close_output _ _ _ Hk).
  destruct (Hl k l Hk) as (Hek & l'' & Hk'' & Hm). rewrite Hk' in Hk''. injection Hk'' as <-.
  pose proof Hm as (Hm1 & Hne & H1 & H2 & H3 & H4 & H5).
  intros x m Hx. destruct (decide (x = k)) as [->|].
  { rewrite lookup_insert_eq in Hx. injection Hx as <-. split; [done|]. exists l'.
    change (peer_of (close_output l)) with (peer_of l). rewrite lookup_insert_ne by done.
    split; [done|]. by repeat split. }
  rewrite lookup_insert_ne in Hx by done. destruct (Hl x m Hx) as (? & m' & Hm' & Hmir).
  split; [done|]. destruct (decide (peer_of m = k)) as [E|].
  - rewrite E in *. rewrite Hk in Hm'. injection Hm' as <-. exists (close_output l).
    rewrite lookup_insert_eq. split; [done|].
    destruct Hmir as (M1 & M2 & M3 & M4 & M5 & M6 & M7). subst x.
    rewrite Hk' in Hx. injection Hx as <-. repeat split; try done. cbn. by rewrite Ho.
  - exists m'. by rewrite lookup_insert_ne.
Qed.

Lemma send_close_core e h n f : Fabric_core f → Fabric_core (native_send_close e h n f).2.
Proof.
  intros Hc. unfold native_send_close. destruct (ch_native_links f !! (e, h)) as [l|] eqn:El; [|done].
  destruct (_ || _); [done|]. destruct (send_to_peer _ _ _) as [[[]|] f'] eqn:Es; cycle 1.
  { by apply send_to_peer_core in Es as [_ ?]. }
  apply send_to_peer_core in Es as [Hq Hc']; [|done..]. fold (peer_of l). cbn [set_links ch_native_links].
  destruct (quiet_fields _ _ Hq) as (E & _). rewrite <- E in El. clear E.
  destruct (fc_links _ Hc' _ _ El) as (He & l' & El' & Hm). pose proof Hm as (Hm1 & Hne & _).
  rewrite lookup_alter_ne, El' by done. destruct (le_output_closed l') eqn:Eo; cbn [snd].
  - rewrite (alter_some _ _ _ _ El). rewrite delete_insert_eq.
    pose proof Hc' as [Hh Hl Hp Hr Hen].
    apply (core_of_shape (set_links (delete (peer_of l) (delete (e, h) (ch_native_links f'))) f'));
      [by apply links_delete_pair|done|done|done|apply quiet_pool|].
    apply (take_link f' (e, h) l) in Hh; [|done].
    apply (take_link (set_links _ f') (peer_of l) l') in Hh; [|cbn; by rewrite lookup_delete_ne].
    apply (holding_perm _ _ [le_side l; le_side l']) in Hh; [|solve_Permutation].
    by apply holding_drop, holding_drop in Hh.
  - pose proof Hc' as [Hh Hl Hp Hr Hen].
    apply (core_of_shape _ _) with (5 := quiet_refl _); cbn; try done.
    + by apply (links_close _ _ (e, h) l l').
    + by apply alter_link.
Qed.
End mpsc.
