(* ===== verification/ChannelRegistry.v ===== *)
(** * ChannelRegistry: listeners, endpoints and sessions keep the fabric well formed

    The remaining operations of [crates/server/src/channel.rs], and the
    invariant [Fabric_ok] of every state between two calls: besides
    [Fabric_core], every listener is owned by a registered endpoint and every
    connect in progress is for a listener that is still offered. *)

From S2P Require Import Prelude Schema ChannelPool Channel ChannelPoolFacts ChannelFacts ChannelLinks.

Definition Offered (f : ChannelFabric) : Prop :=
  ∀ id p, ch_native_pending f !! id = Some p →
    ∃ l, ch_listeners f !! pc_listener_handle p = Some l ∧ li_endpoint l = pc_listener_endpoint p
         ∧ li_metadata l = pc_listener_metadata p.

Record Fabric_ok (f : ChannelFabric) : Prop := {
  ok_core : Fabric_core f; ok_owned : Owned f; ok_offered : Offered f
}.

(** ** Allocating registry ids *)

Lemma registry_id_taken_spec f e c :
  registry_id_taken f e c = true ↔
  ∃ h l, ch_listeners f !! h = Some l ∧ li_endpoint l = e ∧ li_registry_id l = c.
Proof.
  unfold registry_id_taken. rewrite existsb_exists. split.
  - intros ([h l] & Hin & [He Hr]%andb_prop). cbn in He, Hr. apply Z.eqb_eq in He, Hr.
    apply list_elem_of_In, elem_of_map_to_list in Hin. by exists h, l.
  - intros (h & l & Hl & He & Hr). exists (h, l). cbn. subst. rewrite !Z.eqb_refl. split; [|done].
    by apply list_elem_of_In, elem_of_map_to_list.
Qed.

(** Running out of fuel means as many different ids were taken. *)
Lemma registry_id_loop_none n f e c :
  registry_id_loop n f e c = None → ∀ i : nat, (i < n)%nat → registry_id_taken f e (c + 2 * Z.of_nat i) = true.
Proof.
  revert c. induction n as [|n IH]; intros c Hl i Hi; [lia|]. cbn [registry_id_loop] in Hl.
  destruct (registry_id_taken f e c) eqn:Et; [|done]. cbn [negb] in Hl.
  unfold checked_add_u32 in Hl. destruct (_ <=? _); [|done].
  destruct i as [|i]; [by replace (c + 2 * Z.of_nat 0) with c by lia|].
  specialize (IH _ Hl i ltac:(lia)). by replace (c + 2 * Z.of_nat (S i)) with (c + 2 + 2 * Z.of_nat i) by lia.
Qed.

Lemma taken_ids_bounded f e c n :
  (∀ i : nat, (i < n)%nat → registry_id_taken f e (c + 2 * Z.of_nat i) = true) →
  (n <= size (ch_listeners f))%nat.
Proof.
  intros Ht. rewrite <- length_map_to_list.
  rewrite <- (length_map (λ p : Z * Listener, li_registry_id p.2)).
  rewrite <- (length_seq n 0) at 1. rewrite <- (length_map (λ i, c + 2 * Z.of_nat i)).
  apply submseteq_length, NoDup_submseteq.
  - apply NoDup_fmap_2_strong; [|apply NoDup_ListNoDup, seq_NoDup]. intros x y _ _. lia.
  - intros x Hx. apply list_elem_of_fmap in Hx as (i & -> & Hi).
    apply elem_of_seq in Hi. pose proof (Ht i ltac:(lia)) as Hti.
    apply registry_id_taken_spec in Hti as (h & l & Hl & _ & Hr).
    apply list_elem_of_fmap. exists (h, l). cbn. split; [done|]. by apply elem_of_map_to_list.
Qed.

Lemma registry_id_loop_total f e c : ∃ r, registry_id_loop (registry_fuel f) f e c = Some r.
Proof.
  destruct (registry_id_loop _ f e c) as [r|] eqn:El; [by exists r|].
  pose proof (taken_ids_bounded _ _ _ _ (registry_id_loop_none _ _ _ _ El)) as Hb.
  unfold registry_fuel in Hb. lia.
Qed.

(** What the loop answers: the first free id of its parity, or none below the limit. *)
Lemma registry_id_loop_spec n f e c r :
  registry_id_loop n f e c = Some r →
  ∃ k : nat, (∀ i : nat, (i < k)%nat → registry_id_taken f e (c + 2 * Z.of_nat i) = true)
    ∧ match r with
      | Ok id => id = c + 2 * Z.of_nat k ∧ registry_id_taken f e id = false
      | Err x => x = Native_ResourceExhausted ∧ U32_MAX < c + 2 * Z.of_nat k
      end.
Proof.
  revert c. induction n as [|n IH]; intros c; [done|]. cbn [registry_id_loop].
  destruct (registry_id_taken f e c) eqn:Et; cbn [negb]; cycle 1.
  { intros [= <-]. exists 0%nat. split; [lia|]. split; [lia|done]. }
  unfold checked_add_u32. destruct (Z.leb_spec (c + 2) U32_MAX).
  - intros (k & Hk & Hr)%IH. exists (S k). split.
    + intros [|i] Hi; [by replace (c + 2 * Z.of_nat 0) with c by lia|].
      specialize (Hk i ltac:(lia)). by replace (c + 2 * Z.of_nat (S i)) with (c + 2 + 2 * Z.of_nat i) by lia.
    + replace (c + 2 * Z.of_nat (S k)) with (c + 2 + 2 * Z.of_nat k) by lia. done.
  - intros [= <-]. exists 1%nat. split; [|split; [done|lia]].
    intros i Hi. by replace (c + 2 * Z.of_nat i) with c by lia.
Qed.

Lemma registry_id_candidate_free f e id :
  registry_id_candidate f e = Ok id → registry_id_taken f e id = false.
Proof.
  unfold registry_id_candidate.
  destruct (registry_id_loop_total f e (default 1 (ch_next_registry_id f !! e))) as [r Hr].
  rewrite Hr. cbn. intros ->. by apply registry_id_loop_spec in Hr as (k & _ & _ & ?).
Qed.

(** ** Listening *)

Lemma registry_quiet_fields f f' :
  ch_listener_names f' = ch_listener_names f → ch_listeners f' = ch_listeners f →
  ch_next_listener_handle f' = ch_next_listener_handle f →
  ch_next_listener_generation f' = ch_next_listener_generation f →
  ch_boot_generation f' = ch_boot_generation f → ch_limits f' = ch_limits f →
  Registry_ok f → Registry_ok f'.
Proof. unfold Registry_ok. by intros -> -> -> -> -> ->. Qed.

Lemma remove_listener_registry h f : Registry_ok f → Registry_ok (remove_listener h f).
Proof.
  intros (Hn & Hl & Hu & Hs). unfold remove_listener.
  destruct (ch_listeners f !! h) as [l|] eqn:El; [|done].
  unfold Registry_ok. cbn [bump_revision set_revision set_listeners ch_listener_names ch_listeners
    ch_next_listener_handle ch_next_listener_generation ch_boot_generation ch_limits].
  split_and!.
  - intros n x. rewrite lookup_delete_Some, Hn. setoid_rewrite lookup_delete_Some. split.
    + intros (Hne & m & Hm & <-). exists m. split; [|done]. split; [|done]. intros <-. congruence.
    + intros (m & (Hx & Hm) & <-). split; [|by exists m]. intros He.
      assert (H1 : ch_listener_names f !! li_name m = Some x) by (apply Hn; by exists m).
      assert (H2 : ch_listener_names f !! li_name l = Some h) by (apply Hn; by exists l).
      congruence.
  - intros x m [_ Hm]%lookup_delete_Some. by apply Hl.
  - intros h1 h2 l1 l2 [_ H1]%lookup_delete_Some [_ H2]%lookup_delete_Some. by apply Hu.
  - pose proof (map_size_delete_Some h (ch_listeners f) ltac:(eauto)). lia.
Qed.

Lemma remove_listener_core h f : Fabric_core f → Fabric_core (remove_listener h f).
Proof.
  intros [Hh Hl Hp Hr He]. pose proof (remove_listener_registry h f Hr) as Hr'.
  unfold remove_listener in *. by destruct (ch_listeners f !! h) as [l|].
Qed.

Lemma registry_listen f e id name md sid ext :
  Registry_ok f → valid_name name = true → len md <= channel_MAX_METADATA_BYTES →
  ch_listener_names f !! name = None → Z.of_nat (size (ch_listeners f)) < cl_listeners (ch_limits f) →
  registry_id_taken f e id = false → ∀ next_ids,
  let h := ch_next_listener_handle f in let g := ch_next_listener_generation f in
  Registry_ok (bump_revision (set_listeners (<[name := h]> (ch_listener_names f))
    (<[h := mkListener h id g e name md (listener_token (ch_boot_generation f) g) sid ext]> (ch_listeners f))
    (set_listener_counters (g + 1) (h + 1) next_ids f))).
Proof.
  intros (Hn & Hl & Hu & Hs) Hv Hmd Hno Hsz Hfree next_ids h g. unfold Registry_ok.
  cbn [bump_revision set_revision set_listeners set_listener_counters ch_listener_names ch_listeners
    ch_next_listener_handle ch_next_listener_generation ch_boot_generation ch_limits].
  assert (Hfresh : ch_listeners f !! h = None).
  { destruct (ch_listeners f !! h) eqn:E; [|done]. apply Hl in E. subst h. lia. }
  split_and!.
  - intros n x. destruct (decide (n = name)) as [->|].
    + rewrite lookup_insert_eq. split; [intros [= <-]; eexists; by rewrite lookup_insert_eq|].
      intros (l & Hx & En). destruct (decide (x = h)) as [->|]; [done|]. rewrite lookup_insert_ne in Hx by done.
      assert (ch_listener_names f !! name = Some x) by (apply Hn; eauto). congruence.
    + rewrite lookup_insert_ne, Hn by done. split; intros (l & Hx & <-).
      * exists l. rewrite lookup_insert_ne; [done|]. congruence.
      * destruct (decide (x = h)) as [->|]; [rewrite lookup_insert_eq in Hx; by injection Hx as <-|].
        rewrite lookup_insert_ne in Hx by done. eauto.
  - intros x l Hx. destruct (decide (x = h)) as [->|].
    + rewrite lookup_insert_eq in Hx. injection Hx as <-. cbn. split_and!; try done; lia.
    + rewrite lookup_insert_ne in Hx by done. destruct (Hl x l Hx) as (? & ? & ? & ? & ? & ?).
      split_and!; try done; subst h g; lia.
  - assert (Hnew : ∀ x l, ch_listeners f !! x = Some l →
      li_generation l ≠ g ∧ (li_endpoint l = e → li_registry_id l ≠ id)).
    { intros x l Hx. split; [destruct (Hl x l Hx) as (_ & _ & ? & _); subst g; lia|]. intros He Hr.
      assert (registry_id_taken f e id = true) by (apply registry_id_taken_spec; eauto). congruence. }
    intros x y l m Hx Hy Hor.
    destruct (decide (x = h)) as [->|], (decide (y = h)) as [->|]; [done| | |].
    + rewrite lookup_insert_eq in Hx. rewrite lookup_insert_ne in Hy by done.
      injection Hx as <-. cbn in Hor. destruct (Hnew y m Hy). naive_solver.
    + rewrite lookup_insert_eq in Hy. rewrite lookup_insert_ne in Hx by done.
      injection Hy as <-. cbn in Hor. destruct (Hnew x l Hx). naive_solver.
    + rewrite lookup_insert_ne in Hx, Hy by done. by eapply Hu.
  - rewrite map_size_insert_None by done. lia.
Qed.

Lemma listen_ok e sid name md f : Fabric_ok f → Fabric_ok (native_listen e sid name md f).2.
Proof.
  intros Hok. unfold native_listen. destruct (_ || _); [done|].
  destruct (ch_native_endpoints f !! e) as [owner|] eqn:Eo; [|done].
  destruct (bool_decide_reflect (ep_session_id owner = sid)) as [Hsid|]; [|done]. cbn [negb].
  destruct (valid_name name) eqn:Ev; [|done]. cbn [negb orb].
  destruct (Z.ltb_spec channel_MAX_METADATA_BYTES (len md)); [done|].
  destruct (ch_listener_names f !! name) eqn:En; [done|].
  destruct (Z.leb_spec (cl_listeners (ch_limits f)) (Z.of_nat (size (ch_listeners f)))); [done|]. cbn [orb].
  destruct (_ <=? _); [done|].
  destruct (registry_id_candidate f e) as [id|] eqn:Er; [|done]. cbn [mbind result_bind].
  destruct (checked_add_u64 (ch_next_listener_handle f) 1) as [h'|] eqn:E1; [|done].
  destruct (checked_add_u64 (ch_next_listener_generation f) 1) as [g'|] eqn:E2; [|done].
  destruct (checked_add_u32 id 2) as [n'|] eqn:E3; [|done]. cbn [ok_or mbind result_bind snd].
  apply checked_add_u64_some in E1 as [-> _], E2 as [-> _]. apply registry_id_candidate_free in Er.
  pose proof Hok as [[Hh Hl Hp Hr He] Ho Hoff].
  split; [split; try done; by apply registry_listen|..].
  - intros x l Hx. cbn in Hx. destruct (decide (x = ch_next_listener_handle f)) as [->|].
    + rewrite lookup_insert_eq in Hx. injection Hx as <-. by exists owner.
    + rewrite lookup_insert_ne in Hx by done. by apply (Ho x).
  - intros i p Hi. destruct (Hoff i p Hi) as (l & Hl' & ?). exists l. split; [|done]. cbn.
    rewrite lookup_insert_ne; [done|]. intros Hx. destruct Hr as (_ & Hrl & _). apply Hrl in Hl'. lia.
Qed.

(** ** What the operations on connects and links leave alone *)

(** Listeners and endpoints are untouched and no connect is new. *)
Record calm (f f' : ChannelFabric) : Prop := {
  cm_listeners : ch_listeners f' = ch_listeners f;
  cm_endpoints : ch_native_endpoints f' = ch_native_endpoints f;
  cm_pending id p : ch_native_pending f' !! id = Some p → ∃ q, ch_native_pending f !! id = Some q
    ∧ pc_listener_handle q = pc_listener_handle p ∧ pc_connector_endpoint q = pc_connector_endpoint p
    ∧ pc_listener_endpoint q = pc_listener_endpoint p ∧ pc_listener_metadata q = pc_listener_metadata p
}.

Lemma calm_quiet f f' : quiet f f' → calm f f'.
Proof. intros (pool & lanes & -> & _). split; [done..|]. cbn. naive_solver. Qed.

Lemma calm_refl f : calm f f.
Proof. apply calm_quiet, quiet_refl. Qed.

Lemma calm_trans f1 f2 f3 : calm f1 f2 → calm f2 f3 → calm f1 f3.
Proof.
  intros [H1 H2 H3] [H4 H5 H6]. split; [congruence..|].
  intros id p (q & Hq & E1 & E2 & E3 & E4)%H6. destruct (H3 id q Hq) as (q' & ? & ? & ? & ? & ?).
  exists q'. split_and!; congruence.
Qed.

Lemma calm_links f links : calm f (set_links links f).
Proof. split; [done..|]. cbn. naive_solver. Qed.

Lemma calm_delete_pending f id : calm f (set_native_pending (delete id (ch_native_pending f)) f).
Proof. split; [done..|]. cbn. intros x p [_ Hp]%lookup_delete_Some. eauto 10. Qed.

Section mpsc.
Context `{ML : MpscLaws}.

#[local] Hint Resolve calm_refl calm_links calm_delete_pending calm_quiet quiet_pool
  quiet_send_terminal quiet_abort_side : calm.

Lemma calm_ok f f' : calm f f' → Fabric_core f' → Fabric_ok f → Fabric_ok f'.
Proof.
  intros [H1 H2 H3] Hc [_ Ho Hoff]. split; [done|..].
  - unfold Owned. rewrite H1, H2. exact Ho.
  - intros id p (q & Hq & <- & _ & <- & <-)%H3. rewrite H1. by eapply Hoff.
Qed.

Lemma cancel_connect_calm e id reason f : calm f (native_cancel_connect e id reason f).
Proof.
  unfold native_cancel_connect. destruct (_ !! id) as [p|]; [|apply calm_refl].
  destruct (_ && _); [apply calm_refl|]. cbn [foldl].
  eapply calm_trans; [apply calm_delete_pending|].
  eapply calm_trans; apply calm_quiet, quiet_abort_side.
Qed.

Lemma reset_calm e h reason f : calm f (native_reset e h reason f).2.
Proof.
  unfold native_reset. destruct (_ !! (e, h)) as [l|]; [|apply calm_refl]. cbn [snd].
  eapply calm_trans; [|apply calm_quiet, quiet_pool].
  eapply calm_trans; [apply calm_links|].
  destruct (_ !! le_peer_endpoint l), (_ !! _); eauto with calm.
Qed.

Lemma prepare_connect_calm e id h credit mx f : calm f (native_prepare_connect e id h credit mx f).2.
Proof.
  unfold native_prepare_connect. destruct (ch_native_pending f !! id) as [p|] eqn:Ep; [|apply calm_refl].
  destruct (negb _); [apply calm_refl|]. destruct (_ || _); [apply calm_refl|].
  destruct (_ || _); [apply calm_refl|]. destruct (_ !! pc_connector_endpoint p); [|apply calm_refl].
  destruct (try_send_event _ _ f) as [b f2] eqn:Et. apply quiet_try_send in Et.
  destruct b; [|by apply calm_quiet]. destruct Et as (pool & lanes & -> & _). split; [done..|].
  cbn. intros x q Hx. destruct (decide (x = id)) as [->|].
  - rewrite lookup_insert_eq in Hx. injection Hx as <-. by exists p.
  - rewrite lookup_insert_ne in Hx by done. by exists q.
Qed.

Lemma complete_connect_calm e id h mx f : calm f (native_complete_connect e id h mx f).2.
Proof.
  unfold native_complete_connect. destruct (_ !! id) as [p|]; [|apply calm_refl].
  destruct (negb _); [apply calm_refl|]. destruct (pc_listener_channel_handle p); [|apply calm_refl].
  destruct (pc_max_item_bytes p); [|apply calm_refl]. destruct (_ || _); [apply calm_refl|].
  destruct (_ || _); [apply calm_refl|]. destruct (_ !! pc_listener_endpoint p); [|apply calm_refl].
  cbn [snd]. eapply calm_trans; [apply calm_delete_pending|apply calm_links].
Qed.

Lemma publish_connect_calm e id h credit f : calm f (native_publish_connect e id h credit f).2.
Proof.
  unfold native_publish_connect. destruct (_ !! (e, h)) as [l|]; [|apply calm_refl].
  destruct (_ || _); [apply calm_refl|]. destruct (_ <? _); [apply calm_refl|].
  destruct (_ !! le_peer_endpoint l); [|apply calm_refl].
  destruct (try_send_event _ _ f) as [b f2] eqn:Et. apply quiet_try_send, calm_quiet in Et.
  destruct b; (eapply calm_trans; [exact Et|]); [apply calm_links|apply reset_calm].
Qed.

Lemma send_to_peer_calm l ev f r f' : send_to_peer l ev f = (r, f') → calm f f'.
Proof.
  unfold send_to_peer, peer_side. destruct (_ !! _) as [l'|]; [|intros [= _ <-]; apply calm_refl].
  set (f1 := set_pool _ f). destruct (_ !! le_peer_endpoint l).
  - destruct (try_send_event _ _ f1) as [b f2] eqn:Et. apply quiet_try_send, calm_quiet in Et.
    assert (calm f f2) by (eapply calm_trans; [apply calm_quiet, quiet_pool|exact Et]).
    destruct b; by intros [= _ <-].
  - intros [= _ <-]. eapply calm_trans; apply calm_quiet, quiet_pool.
Qed.

Lemma send_message_calm e h m f : calm f (native_send_message e h m f).2.
Proof.
  unfold native_send_message. destruct (_ <? _); [apply calm_refl|].
  destruct (_ !! _) as [l|]; [|apply calm_refl]. destruct (_ || _); [apply calm_refl|].
  destruct (send_to_peer _ _ _) as [r f'] eqn:Es. by apply send_to_peer_calm in Es.
Qed.

Lemma send_credit_calm e h limit f : calm f (native_send_credit e h limit f).2.
Proof.
  unfold native_send_credit. destruct (_ !! _) as [l|]; [|apply calm_refl].
  destruct (negb _); [apply calm_refl|].
  destruct (send_to_peer _ _ _) as [r f'] eqn:Es. by apply send_to_peer_calm in Es.
Qed.

Lemma send_close_calm e h n f : calm f (native_send_close e h n f).2.
Proof.
  unfold native_send_close. destruct (_ !! (e, h)) as [l|]; [|apply calm_refl].
  destruct (_ || _); [apply calm_refl|].
  destruct (send_to_peer _ _ _) as [[[]|] f'] eqn:Es; apply send_to_peer_calm in Es; [|done].
  set (f2 := set_links _ f'). assert (calm f f2) by (eapply calm_trans; [exact Es|apply calm_links]).
  destruct (_ !! _) as [l'|]; [|done]. destruct (le_output_closed l'); [|done]. cbn [snd].
  eapply calm_trans; [done|]. eapply calm_trans; [apply calm_links|apply calm_quiet, quiet_pool].
Qed.

Lemma begin_connect_ok c h g credit md f : Fabric_ok f → Fabric_ok (native_begin_connect c h g credit md f).2.
Proof.
  intros Hok. pose proof (begin_connect_core c h g credit md f (ok_core _ Hok)) as Hcore. revert Hcore.
  unfold native_begin_connect. destruct (_ || _); [done|]. destruct (_ <? _); [done|].
  destruct (ch_listeners f !! h) as [l|] eqn:El; [|done]. destruct (negb _); [done|].
  destruct (_ !! c) as [connector|]; [|done]. destruct (_ !! li_endpoint l); [|done].
  destruct (_ <=? _); [done|].
  destruct (reserve_pair _ _ _ _) as [[[[r s1] s2]|e] pool]; [|intros Hcore; by apply (calm_ok f), Hok; [apply calm_quiet, quiet_pool|]].
  destruct (checked_add_u64 _ 1) as [next|]; [|intros Hcore; by apply (calm_ok f), Hok; [apply calm_quiet, quiet_pool|]].
  set (f1 := set_pool _ (set_next_connect next f)).
  assert (Hcalm : calm f f1) by (split; [done..|]; cbn; naive_solver).
  destruct (try_send_event _ _ f1) as [b f2] eqn:Et. apply quiet_try_send in Et. destruct b; cbn [snd]; intros Hcore.
  - pose proof Hok as [_ Ho Hoff]. destruct Et as (p2 & l2 & -> & _). split; [done|exact Ho|].
    intros x q Hx. cbn in Hx. destruct (decide (x = ch_next_native_connect f)) as [->|].
    + rewrite lookup_insert_eq in Hx. injection Hx as <-. by exists l.
    + rewrite lookup_insert_ne in Hx by done. by apply (Hoff x).
  - apply (calm_ok f); [|done|done]. eapply calm_trans; [exact Hcalm|].
    eapply calm_trans; apply calm_quiet; [exact Et|apply quiet_pool].
Qed.
End mpsc.

(** * The channel fabric in every reachable state
      ([crates/server/src/channel.rs])

    Registering and unregistering endpoints, closing listeners, what sessions
    do with their lanes, and the runs of the whole fabric: sequences of calls
    on the [ChannelFabric] behind its mutex. *)

(** ** Endpoints and sessions *)

Lemma links_more_endpoints links eps eps' :
  (∀ e, is_Some (eps !! e) → is_Some (eps' !! e)) → Links_ok links eps → Links_ok links eps'.
Proof. intros Hm Hl k l Hk. destruct (Hl k l Hk) as (? & ?). split; [by apply Hm|done]. Qed.

Lemma register_ok sid ext cap f : Fabric_ok f → Fabric_ok (register_native_endpoint sid ext cap f).2.
Proof.
  intros Hok. unfold register_native_endpoint. destruct (forallb _ _); [done|].
  destruct (checked_add_u64 _ 1) as [next|] eqn:En; [|done]. apply checked_add_u64_some in En as [-> _].
  cbn [snd]. set (e := ch_next_native_endpoint f). pose proof Hok as [[Hh Hl Hp Hr [He1 He2]] Ho Hoff].
  assert (Hno : ch_lanes f !! e = None).
  { destruct (ch_lanes f !! e) eqn:E; [|done]. pose proof (He2 e ltac:(eauto)). subst e. lia. }
  assert (Hno' : ch_native_endpoints f !! e = None).
  { destruct (ch_native_endpoints f !! e) eqn:E; [|done].
    destruct (He1 e ltac:(eauto)) as [? ?]. congruence. }
  assert (Hm : ∀ ep x, is_Some (ch_native_endpoints f !! x) →
                       is_Some (<[e := ep]> (ch_native_endpoints f) !! x)).
  { intros ep x [y Hx]. destruct (decide (x = e)) as [->|]; [congruence|]. rewrite lookup_insert_ne; eauto. }
  split; [split|..]; cbn.
  - revert Hh. apply charged_perm. unfold fabric_refs. cbn. by rewrite (map_refs_insert lane_guards _ _ _ Hno).
  - by eapply links_more_endpoints; [apply Hm|].
  - intros id p Hid. destruct (Hp id p Hid) as (? & ? & ? & ? & ?). split_and!; try done; by apply Hm.
  - exact Hr.
  - split; cbn; intros x Hx.
    + destruct (decide (x = e)) as [->|]; [rewrite lookup_insert_eq; eauto|].
      rewrite lookup_insert_ne in Hx by done. rewrite lookup_insert_ne by done. by apply He1.
    + destruct (decide (x = e)) as [->|]; [subst e; lia|]. rewrite lookup_insert_ne in Hx by done.
      apply He2 in Hx. lia.
  - intros h l Hx. destruct (Ho h l Hx) as (ep & Hep & ?). exists ep. split; [|done]. cbn.
    rewrite lookup_insert_ne; [done|]. congruence.
  - exact Hoff.
Qed.

Lemma shutdown_ok f : Fabric_ok f → Fabric_ok (begin_shutdown f).
Proof. intros [[Hh Hl Hp Hr He] Ho Hoff]. by split; [split|..]. Qed.

Lemma quiet_ok f f' : quiet f f' → Holding f' [] → Fabric_ok f → Fabric_ok f'.
Proof. intros Hq Hh Hok. apply (calm_ok f); [by apply calm_quiet|apply (core_quiet f); by try apply Hok|done]. Qed.

(** A lane that keeps the same guards. *)
Lemma same_lane_ok f e la la' :
  ch_lanes f !! e = Some la → lane_guards la' ≡ₚ lane_guards la → Fabric_ok f →
  Fabric_ok (set_lanes (<[e := la']> (ch_lanes f)) f).
Proof.
  intros Hla Hg Hok. eapply quiet_ok; [by eapply quiet_lane| |done].
  eapply (holding_lane f e la la' []); [done..|]. apply Hok.
Qed.

Lemma session_recv_ok e terminal f : Fabric_ok f → Fabric_ok (session_recv e terminal f).
Proof.
  intros Hok. unfold session_recv. destruct (ch_lanes f !! e) as [[evs cap tms hs []]|] eqn:El; try done.
  destruct terminal.
  - destruct tms as [|t tms]; [done|]. apply (same_lane_ok _ _ _ _ El); [|done]. unfold lane_guards.
    cbn [la_handling la_events la_terminal map]. rewrite !omap_app. cbn [omap list_omap].
    destruct (event_guard (NativeEvent_from t)); cbn; solve_Permutation.
  - destruct evs as [|ev evs]; [done|]. apply (same_lane_ok _ _ _ _ El); [|done]. unfold lane_guards.
    cbn [la_handling la_events la_terminal map]. rewrite !omap_app. cbn [omap list_omap].
    destruct (event_guard ev); cbn; solve_Permutation.
Qed.

(** The guards a lane gives up are dropped. *)
Lemma drop_lane_guards_ok f e la la' gs :
  ch_lanes f !! e = Some la → lane_guards la ≡ₚ gs ++ lane_guards la' → Fabric_ok f →
  Fabric_ok (set_pool (foldr drop_side (ch_pool f) gs) (set_lanes (<[e := la']> (ch_lanes f)) f)).
Proof.
  intros Hla Hg Hok. eapply quiet_ok; [eapply quiet_trans; [by eapply quiet_lane|apply quiet_pool]| |done].
  apply (charged_drop_all (ch_limits f)). unfold fabric_refs. cbn.
  eapply charged_perm; [|exact (fc_held _ (ok_core _ Hok))]. unfold fabric_refs. cbn [app].
  apply (Permutation_app_inv_l (lane_guards la')).
  pose proof (map_refs_update lane_guards (ch_lanes f) e la la' Hla) as Hu. rewrite Hg in Hu.
  set (M := map_refs lane_guards (ch_lanes f)) in *. set (M' := map_refs lane_guards _) in *.
  set (P := map_refs pending_sides _). set (L := map_refs link_sides _).
  transitivity (P ++ L ++ (lane_guards la' ++ M)); [solve_Permutation|]. rewrite <- Hu. solve_Permutation.
Qed.

Lemma list_delete_none {A} (l : list A) i : l !! i = None → delete i l = l.
Proof. revert i. induction l as [|x l IH]; intros [|i] Hi; try done. cbn. f_equal. by apply IH. Qed.

Lemma session_done_ok e i f : Fabric_ok f → Fabric_ok (session_done e i f).
Proof.
  intros Hok. unfold session_done. destruct (ch_lanes f !! e) as [[evs cap tms hs op]|] eqn:El; [|done].
  destruct (hs !! i) as [ev|] eqn:Ei; cbn [mbind option_bind].
  - assert (Hp : hs ≡ₚ ev :: delete i hs) by by apply delete_Permutation.
    assert (Hg : lane_guards (mkLane evs cap tms hs op)
      ≡ₚ option_list (event_guard ev) ++ lane_guards (mkLane evs cap tms (delete i hs) op)).
    { unfold lane_guards. cbn [la_handling la_events la_terminal]. rewrite Hp at 1. cbn [app omap list_omap].
      by destruct (event_guard ev). }
    pose proof (drop_lane_guards_ok _ _ _ _ _ El Hg Hok) as Hd.
    by destruct (event_guard ev).
  - rewrite list_delete_none by done.
    exact (drop_lane_guards_ok _ _ _ _ [] El (reflexivity _) Hok).
Qed.

Lemma session_drop_ok e f : Fabric_ok f → Fabric_ok (session_drop e f).
Proof.
  intros Hok. unfold session_drop. destruct (ch_lanes f !! e) as [la|] eqn:El; [|done].
  apply (drop_lane_guards_ok _ _ _ _ _ El); [|done]. unfold lane_guards at 2. cbn. by rewrite app_nil_r.
Qed.

(** ** Cancelling and resetting in bulk *)

Section mpsc.
Context `{ML : MpscLaws}.

Lemma cancel_all_core e reason ids f : Fabric_core f → Fabric_core (cancel_all e reason ids f).
Proof.
  revert f. induction ids as [|id ids IH]; intros f Hc; [done|]. apply IH. by apply cancel_connect_core.
Qed.

Lemma cancel_all_calm e reason ids f : calm f (cancel_all e reason ids f).
Proof.
  revert f. induction ids as [|id ids IH]; intros f; [apply calm_refl|].
  eapply calm_trans; [apply cancel_connect_calm|apply IH].
Qed.

Lemma cancel_connect_pending e id reason f :
  (∀ p, ch_native_pending f !! id = Some p → pc_connector_endpoint p = e ∨ pc_listener_endpoint p = e) →
  ch_native_pending (native_cancel_connect e id reason f) = delete id (ch_native_pending f).
Proof.
  intros Hp. unfold native_cancel_connect. destruct (ch_native_pending f !! id) as [p|] eqn:Ep.
  - destruct (Z.eqb_spec e (pc_connector_endpoint p)), (Z.eqb_spec e (pc_listener_endpoint p)); cbn [negb andb];
      try (destruct (Hp p eq_refl); congruence); cbn [foldl];
      destruct (quiet_fields _ _ (quiet_trans _ _ _ (quiet_abort_side id reason
        (set_native_pending (delete id (ch_native_pending f)) f) (pc_connector_endpoint p, pc_connector_side p))
        (quiet_abort_side id reason _ (pc_listener_endpoint p, pc_listener_side p)))) as (_ & -> & _); done.
  - by rewrite delete_id.
Qed.

Lemma cancel_all_pending e reason ids f :
  (∀ id p, id ∈ ids → ch_native_pending f !! id = Some p →
     pc_connector_endpoint p = e ∨ pc_listener_endpoint p = e) →
  ∀ id, ch_native_pending (cancel_all e reason ids f) !! id
        = if decide (id ∈ ids) then None else ch_native_pending f !! id.
Proof.
  revert f. induction ids as [|i ids IH]; intros f Hin id.
  { rewrite decide_False; [done|apply not_elem_of_nil]. }
  change (cancel_all e reason (i :: ids) f) with (cancel_all e reason ids (native_cancel_connect e i reason f)).
  assert (Hd := cancel_connect_pending e i reason f (λ p, Hin i p ltac:(by left))).
  rewrite IH.
  - rewrite Hd. destruct (decide (id ∈ ids)); [by rewrite decide_True by by right|].
    destruct (decide (id = i)) as [->|].
    + rewrite lookup_delete_eq. by rewrite decide_True by by left.
    + rewrite lookup_delete_ne by done. rewrite decide_False; [done|]. rewrite elem_of_cons. tauto.
  - intros x p Hx. rewrite Hd. intros [_ Hp]%lookup_delete_Some. apply (Hin x p); [by right|done].
Qed.

Definition reset_all (e : Z) (reason : NativeError) (hs : list Z) (f : ChannelFabric) : ChannelFabric :=
  foldl (λ f h, (native_reset e h reason f).2) f hs.

Lemma reset_all_core e reason hs f : Fabric_core f → Fabric_core (reset_all e reason hs f).
Proof. revert f. induction hs as [|h hs IH]; intros f Hc; [done|]. apply IH. by apply reset_core. Qed.

Lemma reset_all_calm e reason hs f : calm f (reset_all e reason hs f).
Proof.
  revert f. induction hs as [|h hs IH]; intros f; [apply calm_refl|].
  eapply calm_trans; [apply reset_calm|apply IH].
Qed.

Lemma reset_links e h reason f :
  ch_native_links (native_reset e h reason f).2
  = match ch_native_links f !! (e, h) with
    | Some l => delete (peer_of l) (delete (e, h) (ch_native_links f))
    | None => ch_native_links f
    end.
Proof.
  unfold native_reset. destruct (ch_native_links f !! (e, h)) as [l|]; [|done]. cbn [snd set_pool ch_native_links].
  destruct (_ !! le_peer_endpoint l), (_ !! _); try done.
  exact (proj1 (quiet_fields _ _ (quiet_send_terminal _ _ _))).
Qed.

Lemma cancel_all_links e reason ids f : ch_native_links (cancel_all e reason ids f) = ch_native_links f.
Proof.
  revert f. induction ids as [|id ids IH]; intros f; [done|].
  change (cancel_all e reason (id :: ids) f) with (cancel_all e reason ids (native_cancel_connect e id reason f)).
  rewrite IH. unfold native_cancel_connect. destruct (_ !! id) as [p|]; [|done]. destruct (_ && _); [done|].
  cbn [foldl]. destruct (quiet_fields _ _ (quiet_abort_side id reason (abort_side id reason
    (set_native_pending (delete id (ch_native_pending f)) f) (pc_connector_endpoint p, pc_connector_side p))
    (pc_listener_endpoint p, pc_listener_side p))) as [-> _].
  by destruct (quiet_fields _ _ (quiet_abort_side id reason
    (set_native_pending (delete id (ch_native_pending f)) f) (pc_connector_endpoint p, pc_connector_side p))) as [-> _].
Qed.

Lemma reset_pending e h reason f : ch_native_pending (native_reset e h reason f).2 = ch_native_pending f.
Proof.
  unfold native_reset. destruct (ch_native_links f !! (e, h)) as [l|]; [|done]. cbn [snd set_pool ch_native_pending].
  destruct (_ !! le_peer_endpoint l), (_ !! _); try done.
  exact (proj1 (proj2 (quiet_fields _ _ (quiet_send_terminal _ _ _)))).
Qed.

Lemma reset_all_pending e reason hs f : ch_native_pending (reset_all e reason hs f) = ch_native_pending f.
Proof. revert f. induction hs as [|h hs IH]; intros f; [done|]. cbn. unfold reset_all in IH. by rewrite IH, reset_pending. Qed.

(** No end on the list survives, and no link is new. *)
Lemma reset_all_links e reason hs f k l :
  ch_native_links (reset_all e reason hs f) !! k = Some l →
  ch_native_links f !! k = Some l ∧ (k.1 = e → k.2 ∉ hs).
Proof.
  revert f. induction hs as [|h hs IH]; intros f Hk.
  { split; [exact Hk|]. intros _. apply not_elem_of_nil. }
  change (reset_all e reason (h :: hs) f) with (reset_all e reason hs (native_reset e h reason f).2) in Hk.
  apply IH in Hk as [Hk Hnot]. rewrite reset_links in Hk.
  destruct (ch_native_links f !! (e, h)) as [m|] eqn:Em.
  - apply lookup_delete_Some in Hk as [_ Hk]. apply lookup_delete_Some in Hk as [Hne Hk].
    split; [done|]. intros He [Hh|Hh]%elem_of_cons; [|by apply Hnot]. destruct k as [k1 k2]. cbn in *. congruence.
  - split; [done|]. intros He [Hh|Hh]%elem_of_cons; [|by apply Hnot]. destruct k as [k1 k2]. cbn in *. congruence.
Qed.

Definition remove_listeners (hs : list Z) (f : ChannelFabric) : ChannelFabric :=
  foldl (λ f h, remove_listener h f) f hs.

Lemma remove_listener_others h f :
  ch_native_pending (remove_listener h f) = ch_native_pending f
  ∧ ch_native_links (remove_listener h f) = ch_native_links f
  ∧ ch_native_endpoints (remove_listener h f) = ch_native_endpoints f
  ∧ ch_lanes (remove_listener h f) = ch_lanes f
  ∧ ch_listeners (remove_listener h f) = delete h (ch_listeners f).
Proof.
  unfold remove_listener. destruct (ch_listeners f !! h) as [l|] eqn:El; [done|].
  by rewrite delete_id.
Qed.

Lemma remove_listeners_core hs f : Fabric_core f → Fabric_core (remove_listeners hs f).
Proof. revert f. induction hs as [|h hs IH]; intros f Hc; [done|]. apply IH. by apply remove_listener_core. Qed.

Lemma remove_listeners_others hs f :
  ch_native_pending (remove_listeners hs f) = ch_native_pending f
  ∧ ch_native_links (remove_listeners hs f) = ch_native_links f
  ∧ ch_native_endpoints (remove_listeners hs f) = ch_native_endpoints f
  ∧ ch_lanes (remove_listeners hs f) = ch_lanes f
  ∧ ∀ h, ch_listeners (remove_listeners hs f) !! h
         = if decide (h ∈ hs) then None else ch_listeners f !! h.
Proof.
  revert f. induction hs as [|x hs IH]; intros f.
  { by split_and!. }
  destruct (IH (remove_listener x f)) as (H1 & H2 & H3 & H4 & H5).
  destruct (remove_listener_others x f) as (E1 & E2 & E3 & E4 & E5).
  change (remove_listeners (x :: hs) f) with (remove_listeners hs (remove_listener x f)).
  split_and!; try congruence. intros h. rewrite H5, E5.
  destruct (decide (h ∈ hs)); [by rewrite decide_True by by right|].
  destruct (decide (h = x)) as [->|].
  - rewrite lookup_delete_eq. by rewrite decide_True by by left.
  - rewrite lookup_delete_ne by done. rewrite decide_False; [done|]. rewrite elem_of_cons. tauto.
Qed.

(** ** Closing a listener, unregistering an endpoint *)

Section closing.
Context `{HashOrder}.

Lemma elem_of_hash_iter {K A} `{Countable K} (m : gmap K A) k x : (k, x) ∈ hash_iter m ↔ m !! k = Some x.
Proof using ML. rewrite hash_iter_perm. apply elem_of_map_to_list. Qed.

Lemma elem_of_hash_keys {K A B} `{Countable K} (m : gmap K A) (P : K * A → Prop) `{∀ x, Decision (P x)}
    (g : K * A → B) b :
  b ∈ map g (filter P (hash_iter m)) ↔ ∃ k x, m !! k = Some x ∧ P (k, x) ∧ g (k, x) = b.
Proof using ML.
  rewrite list_elem_of_fmap. setoid_rewrite list_elem_of_filter. split.
  - intros ([k x] & -> & HP & Hin%elem_of_hash_iter). eauto.
  - intros (k & x & Hx & HP & <-). exists (k, x). by rewrite elem_of_hash_iter.
Qed.

Lemma close_listener_ok e h g f : Fabric_ok f → Fabric_ok (native_close_listener e h g f).2.
Proof using ML.
  intros Hok. unfold native_close_listener. destruct (ch_listeners f !! h) as [l|] eqn:El; [|done].
  destruct (Z.eqb_spec (li_endpoint l) e) as [<-|]; [|done]. cbn [negb]. destruct (negb _); [done|]. cbn [snd].
  set (ids := map fst _). set (f1 := remove_listener h f).
  destruct (remove_listener_others h f) as (E1 & E2 & E3 & E4 & E5). fold f1 in E1, E2, E3, E4, E5.
  pose proof Hok as [Hc Ho Hoff].
  assert (Hc1 : Fabric_core f1) by by apply remove_listener_core.
  pose proof (cancel_all_calm (li_endpoint l) Native_NotFound ids f1) as [C1 C2 C3].
  assert (Hids : ∀ id, id ∈ ids ↔ ∃ p, ch_native_pending f !! id = Some p ∧ pc_listener_handle p = h).
  { intros id. unfold ids. rewrite elem_of_hash_keys. cbn. naive_solver. }
  split.
  - by apply cancel_all_core.
  - intros x m. rewrite C1, C2, E3, E5. intros [_ Hm]%lookup_delete_Some. by apply (Ho x).
  - intros id p Hp. rewrite cancel_all_pending, E1 in Hp.
    + destruct (decide (id ∈ ids)) as [|Hn]; [done|]. destruct (Hoff id p Hp) as (m & Hm & ?).
      exists m. rewrite C1, E5, lookup_delete_ne; [done|]. intros Heq. apply Hn, Hids. eauto.
    + intros x q (q' & Hq' & Hh)%Hids Hq. rewrite E1, Hq' in Hq. injection Hq as <-.
      destruct (Hoff x q' Hq') as (m & Hm & Hme & _). right. congruence.
Qed.

(** The state [unregister_native_endpoint] leaves, part by part. *)
Record unregistered (e : Z) (f f' : ChannelFabric) : Prop := {
  ur_core : Fabric_core f';
  ur_endpoints : ch_native_endpoints f' = delete e (ch_native_endpoints f);
  ur_listeners h : ch_listeners f' !! h
    = (l ← ch_listeners f !! h; if decide (li_endpoint l = e) then None else Some l);
  ur_pending id : ch_native_pending f' !! id
    = (p ← ch_native_pending f !! id;
       if decide (pc_connector_endpoint p = e ∨ pc_listener_endpoint p = e) then None else Some p);
  ur_links k l : ch_native_links f' !! k = Some l →
    ch_native_links f !! k = Some l ∧ k.1 ≠ e ∧ le_peer_endpoint l ≠ e;
  ur_registry_ids : ch_next_registry_id f' !! e = None
}.

Lemma core_drop_endpoint e f :
  Fabric_core f →
  (∀ k l, ch_native_links f !! k = Some l → k.1 ≠ e) →
  (∀ id p, ch_native_pending f !! id = Some p → pc_connector_endpoint p ≠ e ∧ pc_listener_endpoint p ≠ e) →
  Fabric_core (set_endpoints (ch_next_native_endpoint f) (delete e (ch_native_endpoints f)) f).
Proof using ML.
  intros [Hh Hl Hp Hr [He1 He2]] Hnl Hnp. split; cbn.
  - exact Hh.
  - intros k l Hk. destruct (Hl k l Hk) as (? & ?). split; [|done]. rewrite lookup_delete_ne; [done|].
    intros Heq. by apply (Hnl k l).
  - intros id p Hid. destruct (Hp id p Hid) as (? & ? & ? & ?). destruct (Hnp id p Hid).
    by rewrite !lookup_delete_ne by done.
  - exact Hr.
  - split; cbn; [|done]. intros x [y [_ Hx]%lookup_delete_Some]. apply He1. eauto.
Qed.

Lemma unregister_spec e f : Fabric_ok f → unregistered e f (unregister_native_endpoint e f).
Proof using ML.
  intros Hok. unfold unregister_native_endpoint. set (ids := map fst _).
  set (f1 := cancel_all e Native_Unavailable ids f). set (hs := map (λ p, p.1.2) _).
  fold (reset_all e Native_Unavailable hs f1). set (f2 := reset_all e Native_Unavailable hs f1).
  set (f3 := set_endpoints _ _ f2). set (ls := map (λ p, li_listener_handle p.2) _).
  fold (remove_listeners ls f3). set (f4 := remove_listeners ls f3). pose proof Hok as [Hc Ho Hoff].
  assert (Hids : ∀ id, id ∈ ids ↔ ∃ p, ch_native_pending f !! id = Some p
      ∧ (pc_connector_endpoint p = e ∨ pc_listener_endpoint p = e)).
  { intros id. unfold ids. rewrite elem_of_hash_keys. cbn. naive_solver. }
  assert (Hp1 : ∀ id, ch_native_pending f1 !! id = if decide (id ∈ ids) then None else ch_native_pending f !! id).
  { apply cancel_all_pending. intros id p (q & Hq & Hor)%Hids Hid. rewrite Hq in Hid. by injection Hid as <-. }
  assert (Hc1 : Fabric_core f1) by by apply cancel_all_core.
  assert (Hc2 : Fabric_core f2) by by apply reset_all_core.
  assert (Hcalm : calm f f2) by (eapply calm_trans; [apply cancel_all_calm|apply reset_all_calm]).
  assert (Hl2 : ∀ k l, ch_native_links f2 !! k = Some l → ch_native_links f1 !! k = Some l ∧ k.1 ≠ e).
  { intros k l Hk. apply reset_all_links in Hk as [Hk Hnot]. split; [done|]. intros Ek. apply (Hnot Ek).
    unfold hs. apply elem_of_hash_keys. by exists k, l. }
  assert (Hp2 : ch_native_pending f2 = ch_native_pending f1) by apply reset_all_pending.
  assert (Hc3 : Fabric_core f3).
  { apply core_drop_endpoint; [done|intros k l Hk; by apply Hl2 in Hk as [_ ?]|].
    intros id p. rewrite Hp2, Hp1. destruct (decide (id ∈ ids)) as [|Hn]; [done|]. intros Hid.
    split; intros He; apply Hn, Hids; eauto. }
  destruct (remove_listeners_others ls f3) as (E1 & E2 & E3 & _ & E5). fold f4 in E1, E2, E3, E5.
  destruct Hcalm as [C1 C2 _].
  split.
  - destruct (remove_listeners_core ls f3 Hc3) as [Q1 Q2 Q3 Q4 Q5]. by split.
  - cbn. rewrite E3. cbn. by rewrite C2.
  - intros h. cbn. rewrite E5. cbn. rewrite C1. destruct (ch_listeners f !! h) as [l|] eqn:El; cbn; [|by destruct (decide (h ∈ ls))].
    assert (Hin : h ∈ ls ↔ li_endpoint l = e).
    { unfold ls. rewrite elem_of_hash_keys. cbn. rewrite C1. split.
      - intros (k & x & Hx & Hxe & Hh). destruct Hc as [_ _ _ (_ & Hr & _) _].
        pose proof (Hr _ _ Hx) as [? _]. assert (k = h) as -> by congruence. congruence.
      - intros He. exists h, l. destruct Hc as [_ _ _ (_ & Hr & _) _]. by destruct (Hr _ _ El) as [? _]. }
    destruct (decide (h ∈ ls)), (decide (li_endpoint l = e)); tauto.
  - intros id. cbn. rewrite E1. cbn. rewrite Hp2, Hp1. destruct (ch_native_pending f !! id) as [p|] eqn:Ep; cbn;
      [|by destruct (decide (id ∈ ids))].
    destruct (decide (id ∈ ids)) as [Hin|Hn], (decide (pc_connector_endpoint p = e ∨ pc_listener_endpoint p = e)) as [Hd|Hd]; try done.
    + apply Hids in Hin as (q & Hq & Hor). rewrite Ep in Hq. injection Hq as <-. tauto.
    + exfalso. apply Hn, Hids. eauto.
  - intros k l. cbn. rewrite E2. cbn. intros Hk. pose proof (Hl2 k l Hk) as [Hk1 Hne].
    destruct (fc_links _ Hc2 k l Hk) as (_ & l' & Hl' & _). apply Hl2 in Hl' as [_ Hpe].
    split; [|done]. by rewrite <- (cancel_all_links e Native_Unavailable ids f).
  - cbn. apply lookup_delete_eq.
Qed.
End closing.

(** ** Runs *)

Inductive ChannelCall :=
| Call_begin_shutdown
| Call_register (session_id : list byte) (owner_extension : bool) (capacity : Z)
| Call_unregister (endpoint : Z)
| Call_listen (endpoint : Z) (session_id name metadata : list byte)
| Call_close_listener (endpoint listener_handle generation : Z)
| Call_begin_connect (connector listener_handle generation credit : Z) (metadata : list byte)
| Call_prepare_connect (listener connect_id channel_handle credit max_item : Z)
| Call_complete_connect (connector connect_id channel_handle max_item : Z)
| Call_publish_connect (connector connect_id channel_handle credit : Z)
| Call_cancel_connect (endpoint connect_id : Z) (reason : NativeError)
| Call_send_message (endpoint channel_handle : Z) (fragment : NativeMessageFragment)
| Call_send_credit (endpoint channel_handle limit : Z)
| Call_send_close (endpoint channel_handle final_data_bytes : Z)
| Call_reset (endpoint channel_handle : Z) (reason : NativeError)
| Call_session_recv (endpoint : Z) (terminal : bool)
| Call_session_done (endpoint : Z) (held : nat)
| Call_session_drop (endpoint : Z).

Section runs.
Context `{HashOrder}.

Definition channel_call (c : ChannelCall) (f : ChannelFabric) : ChannelFabric :=
  match c with
  | Call_begin_shutdown => begin_shutdown f
  | Call_register sid ext cap => (register_native_endpoint sid ext cap f).2
  | Call_unregister e => unregister_native_endpoint e f
  | Call_listen e sid name md => (native_listen e sid name md f).2
  | Call_close_listener e h g => (native_close_listener e h g f).2
  | Call_begin_connect e h g credit md => (native_begin_connect e h g credit md f).2
  | Call_prepare_connect e id h credit mx => (native_prepare_connect e id h credit mx f).2
  | Call_complete_connect e id h mx => (native_complete_connect e id h mx f).2
  | Call_publish_connect e id h credit => (native_publish_connect e id h credit f).2
  | Call_cancel_connect e id reason => native_cancel_connect e id reason f
  | Call_send_message e h m => (native_send_message e h m f).2
  | Call_send_credit e h limit => (native_send_credit e h limit f).2
  | Call_send_close e h n => (native_send_close e h n f).2
  | Call_reset e h reason => (native_reset e h reason f).2
  | Call_session_recv e terminal => session_recv e terminal f
  | Call_session_done e i => session_done e i f
  | Call_session_drop e => session_drop e f
  end.

Definition channel_run (calls : list ChannelCall) (f : ChannelFabric) : ChannelFabric :=
  foldl (λ f c, channel_call c f) f calls.

Lemma unregister_ok e f : Fabric_ok f → Fabric_ok (unregister_native_endpoint e f).
Proof using ML.
  intros Hok. destruct (unregister_spec e f Hok) as [U1 U2 U3 U4 _ _]. pose proof Hok as [_ Ho Hoff].
  split; [done|..].
  - intros h l Hl. rewrite U3 in Hl. destruct (ch_listeners f !! h) as [m|] eqn:Em; [|done]. cbn in Hl.
    destruct (decide (li_endpoint m = e)) as [|Hne]; [done|]. injection Hl as <-.
    destruct (Ho h m Em) as (ep & Hep & ?). exists ep. by rewrite U2, lookup_delete_ne.
  - intros id p Hp. rewrite U4 in Hp. destruct (ch_native_pending f !! id) as [q|] eqn:Eq; [|done]. cbn in Hp.
    destruct (decide _) as [|Hne]; [done|]. injection Hp as <-. destruct (Hoff id q Eq) as (l & Hl & Hle & ?).
    exists l. rewrite U3, Hl. cbn [mbind option_bind]. rewrite decide_False; [done|]. intros He. apply Hne. right. congruence.
Qed.

Lemma channel_call_ok c f : Fabric_ok f → Fabric_ok (channel_call c f).
Proof using ML.
  intros Hok. destruct c; cbn [channel_call];
    auto using shutdown_ok, register_ok, unregister_ok, listen_ok, close_listener_ok, begin_connect_ok,
      session_recv_ok, session_done_ok, session_drop_ok;
    apply (calm_ok f); try done;
    auto using prepare_connect_calm, complete_connect_calm, publish_connect_calm, cancel_connect_calm,
      send_message_calm, send_credit_calm, send_close_calm, reset_calm;
    destruct Hok as [Hc _ _];
    auto using prepare_connect_core, complete_connect_core, publish_connect_core, cancel_connect_core,
      send_message_core, send_credit_core, send_close_core, reset_core.
Qed.

Lemma channel_run_ok calls f : Fabric_ok f → Fabric_ok (channel_run calls f).
Proof using ML.
  revert f. induction calls as [|c calls IH]; intros f Hok; [done|]. by apply IH, channel_call_ok.
Qed.

Lemma fabric_new_ok enabled boot limits : Fabric_ok (ChannelFabric_new enabled boot limits).
Proof using ML.
  split; [split|..].
  - apply pool_ok_new.
  - intros ?? Hx; cbn in Hx; by rewrite lookup_empty in Hx.
  - intros ?? Hx; cbn in Hx; by rewrite lookup_empty in Hx.
  - split_and!; cbn.
    + intros n h. rewrite lookup_empty. split; [done|]. intros (l & Hx & _); by rewrite lookup_empty in Hx.
    + intros ?? Hx; cbn in Hx; by rewrite lookup_empty in Hx.
    + intros ???? Hx; by rewrite lookup_empty in Hx.
    + rewrite map_size_empty. lia.
  - split; intros e; cbn; rewrite lookup_empty; by intros [].
  - intros ?? Hx; cbn in Hx; by rewrite lookup_empty in Hx.
  - intros ?? Hx; cbn in Hx; by rewrite lookup_empty in Hx.
Qed.
End runs.
End mpsc.
