(* ===== verification/ChannelProps.v ===== *)
(** * ChannelProps: what the channel fabric promises its sessions
      ([crates/server/src/channel.rs]) *)

From S2P Require Import Prelude Schema ChannelPool Channel ChannelPoolFacts ChannelFacts ChannelLinks ChannelRegistry.

(** * A connect that finds room goes through
      ([crates/server/src/channel.rs])

    The four calls that make a link, each with the conditions under which it
    succeeds, and the state it leaves. *)

(** Endpoint [e] is registered and its lane takes [n] more events. *)
Definition room (n : Z) (f : ChannelFabric) (e : Z) : Prop :=
  is_Some (ch_native_endpoints f !! e)
  ∧ ∃ la, ch_lanes f !! e = Some la ∧ la_open la = true ∧ len (la_events la) + n <= la_capacity la.

(** The parts of the state the two-party calls look at besides lanes and pool. *)
Section mpsc.
Context `{ML : MpscLaws}.

Lemma try_send_room n f e ev :
  room (n + 1) f e → 0 <= n →
  ∃ f', try_send_event e ev f = (true, f') ∧ quiet f f'
        ∧ ∀ x, room (n + 1) f x → room n f' x.
Proof.
  intros [_ (la & Hla & Ho & Hc)] Hn. rewrite try_send_event_eq, Hla, Ho. cbn [andb].
  destruct (Z.ltb_spec (len (la_events la)) (la_capacity la)); [|lia].
  eexists. split; [done|]. split; [by eapply quiet_lane|].
  intros x [Hx (lx & Hlx & Hox & Hcx)]. split; [done|]. cbn. destruct (decide (e = x)) as [<-|].
  - rewrite lookup_insert_eq. eexists. split; [done|]. rewrite Hla in Hlx. injection Hlx as <-.
    split; [done|]. cbn. rewrite len_app. change (len [ev]) with 1. lia.
  - rewrite lookup_insert_ne by done. exists lx. split_and!; try done. lia.
Qed.

Lemma room_fields n f f' e :
  ch_native_endpoints f' = ch_native_endpoints f → ch_lanes f' = ch_lanes f → room n f e → room n f' e.
Proof. unfold room. by intros -> ->. Qed.

Section handshake.
Context (a ha hb n : Z) (f : ChannelFabric) (n_pos : 0 <= n).

(** The offer of listener [h] reaches its owner. *)
Lemma begin_connect_succeeds h l g credit md rsv s1 s2 pool :
  ch_enabled f = true → ch_shutting_down f = false → len md <= channel_MAX_METADATA_BYTES →
  ch_listeners f !! h = Some l → li_generation l = g →
  pending_count f a < channel_MAX_PENDING_CONNECTS →
  reserve_pair (ch_limits f) (ch_pool f) a (li_endpoint l) = (Ok (rsv, s1, s2), pool) →
  ch_next_native_connect f + 1 <= U64_MAX → room (n + 1) f a → room (n + 1) f (li_endpoint l) →
  let id := ch_next_native_connect f in
  ∃ f', native_begin_connect a h g credit md f = (Ok id, f')
    ∧ ch_native_pending f' !! id
      = Some (mkPending a (li_endpoint l) h (li_metadata l) None None (mkSide rsv s1) (mkSide rsv s2))
    ∧ ch_native_links f' = ch_native_links f ∧ room n f' a ∧ room n f' (li_endpoint l).
Proof using ML n_pos.
  intros He Hs Hmd Hl Hg Hpc Hr Hid Ra Rb id. unfold native_begin_connect. rewrite He, Hs. cbn [negb orb].
  destruct (Z.ltb_spec channel_MAX_METADATA_BYTES (len md)); [lia|]. rewrite Hl, Hg, Z.eqb_refl. cbn [negb].
  pose proof Ra as [[ea Ha] _]. pose proof Rb as [[eb Hb] _]. rewrite Ha, Hb.
  destruct (Z.leb_spec channel_MAX_PENDING_CONNECTS (pending_count f a)); [lia|]. rewrite Hr.
  unfold checked_add_u64. destruct (Z.leb_spec (ch_next_native_connect f + 1) U64_MAX); [|lia].
  set (f1 := set_pool _ _).
  destruct (try_send_room n f1 (li_endpoint l)
    (Ev_IncomingConnect id h g (ep_session_id ea) md credit (li_metadata l)))
    as (f2 & Ht & Hq & Hroom); [by apply (room_fields _ f)|done|].
  unfold id in Ht. rewrite Ht. eexists. split; [done|]. destruct (quiet_fields _ _ Hq) as (E1 & E2 & E3 & _).
  cbn. rewrite lookup_insert_eq. split; [done|]. split; [exact E1|].
  split; apply (room_fields _ f2); try done; apply Hroom; by apply (room_fields _ f).
Qed.

(** The listener's answer reaches the connector. *)
Lemma prepare_connect_succeeds id p credit mx :
  ch_native_pending f !! id = Some p → pc_connector_endpoint p = a →
  pc_listener_channel_handle p = None → pc_max_item_bytes p = None →
  ch_native_links f !! (pc_listener_endpoint p, hb) = None →
  0 < mx <= credit → mx <= channel_MAX_MESSAGE_BYTES →
  room (n + 1) f a → room (n + 1) f (pc_listener_endpoint p) →
  ∃ f', native_prepare_connect (pc_listener_endpoint p) id hb credit mx f = (Ok (), f')
    ∧ ch_native_pending f' !! id
      = Some (mkPending a (pc_listener_endpoint p) (pc_listener_handle p) (pc_listener_metadata p)
                (Some hb) (Some mx) (pc_connector_side p) (pc_listener_side p))
    ∧ ch_native_links f' = ch_native_links f ∧ room n f' a ∧ room n f' (pc_listener_endpoint p).
Proof using ML n_pos.
  intros Hp Ha Hlh Hm Hl Hmx Hmm Ra Rb. unfold native_prepare_connect.
  rewrite Hp, Z.eqb_refl, Hlh, Hl, Ha. cbn [negb].
  rewrite !bool_decide_eq_false_2 by (intros [? ?]; done). cbn [orb].
  destruct (Z.eqb_spec mx 0), (Z.ltb_spec credit mx), (Z.ltb_spec channel_MAX_MESSAGE_BYTES mx); try lia.
  cbn [orb]. pose proof Ra as [[ea Hea] _]. rewrite Hea.
  destruct (try_send_room n f a (Ev_ConnectPrepared id credit mx)) as (f2 & Ht & Hq & Hroom); [done..|].
  rewrite Ht. eexists. split; [done|]. destruct (quiet_fields _ _ Hq) as (E1 & E2 & E3 & _).
  cbn. rewrite lookup_insert_eq. split; [done|]. split; [exact E1|].
  split; apply (room_fields _ f2); try done; by apply Hroom.
Qed.

Definition the_links (p : NativePendingConnect) (id mx : Z) (published : bool) :
    NativeLinkEnd * NativeLinkEnd :=
  (mkLinkEnd id (pc_listener_endpoint p) hb mx (pc_connector_side p) published false,
   mkLinkEnd id a ha mx (pc_listener_side p) published false).

Lemma complete_connect_succeeds id p pmx mx :
  ch_native_pending f !! id = Some p → pc_connector_endpoint p = a →
  pc_listener_channel_handle p = Some hb → pc_max_item_bytes p = Some pmx → 0 < mx <= pmx →
  ch_native_links f !! (a, ha) = None → ch_native_links f !! (pc_listener_endpoint p, hb) = None →
  (a, ha) ≠ (pc_listener_endpoint p, hb) → room n f a → room n f (pc_listener_endpoint p) →
  ∃ info f', native_complete_connect a id ha mx f = (Ok info, f')
    ∧ ch_native_links f' !! (a, ha) = Some (the_links p id mx false).1
    ∧ ch_native_links f' !! (pc_listener_endpoint p, hb) = Some (the_links p id mx false).2
    ∧ room n f' a ∧ room n f' (pc_listener_endpoint p).
Proof using ML.
  intros Hp Ha Hlh Hm Hmx Hn1 Hn2 Hne Ra Rb. unfold native_complete_connect.
  rewrite Hp, Ha, Z.eqb_refl, Hlh, Hm, Hn1, Hn2. cbn [negb].
  destruct (Z.eqb_spec mx 0), (Z.ltb_spec pmx mx); try lia. cbn [orb].
  rewrite !bool_decide_eq_false_2 by (intros [? ?]; done). cbn [orb].
  destruct (Z.eqb_spec a (pc_listener_endpoint p)), (Z.eqb_spec ha hb); cbn [andb]; try congruence;
    pose proof Rb as [[eb Heb] _]; rewrite Heb; eexists _, _; (split; [done|]); cbn;
    rewrite lookup_insert_eq, lookup_insert_ne, lookup_insert_eq by congruence; done.
Qed.

(** Publishing opens both ends. *)
Lemma publish_connect_succeeds p id mx credit :
  ch_native_links f !! (a, ha) = Some (the_links p id mx false).1 →
  ch_native_links f !! (pc_listener_endpoint p, hb) = Some (the_links p id mx false).2 →
  (a, ha) ≠ (pc_listener_endpoint p, hb) → mx <= credit →
  room (n + 1) f a → room (n + 1) f (pc_listener_endpoint p) →
  ∃ f', native_publish_connect a id ha credit f = (Ok (), f')
    ∧ ch_native_links f' !! (a, ha) = Some (the_links p id mx true).1
    ∧ ch_native_links f' !! (pc_listener_endpoint p, hb) = Some (the_links p id mx true).2
    ∧ room n f' a ∧ room n f' (pc_listener_endpoint p).
Proof using ML n_pos.
  intros Hl Hl' Hne Hc Ra Rb. unfold native_publish_connect. rewrite Hl.
  cbn [the_links fst le_connect_id le_published le_max_item_bytes le_peer_endpoint le_peer_channel_handle].
  rewrite Z.eqb_refl. cbn [negb orb]. destruct (Z.ltb_spec credit mx); [lia|].
  pose proof Rb as [[eb Heb] _]. rewrite Heb.
  destruct (try_send_room n f (pc_listener_endpoint p) (Ev_ConnectCommitted id ha credit mx))
    as (f2 & Ht & Hq & Hroom); [done..|].
  rewrite Ht. eexists. split; [done|]. destruct (quiet_fields _ _ Hq) as (E1 & _). cbn [set_links ch_native_links].
  rewrite E1, lookup_alter_ne, lookup_alter_eq, Hl by congruence.
  rewrite lookup_alter_eq, lookup_alter_ne, Hl' by congruence.
  split; [done|]. split; [done|]. split; apply (room_fields _ f2); try done; by apply Hroom.
Qed.

(** Either end of an open link sends. *)
Lemma send_succeeds e h l l' m :
  ch_native_links f !! (e, h) = Some l → ch_native_links f !! peer_of l = Some l' →
  le_published l = true → le_output_closed l = false → len (mf_data m) <= channel_MAX_MESSAGE_BYTES →
  room 1 f (le_peer_endpoint l) → (native_send_message e h m f).1 = Ok ().
Proof using ML.
  intros Hl Hl' Hp Ho Hm Hr. unfold native_send_message.
  destruct (Z.ltb_spec channel_MAX_MESSAGE_BYTES (len (mf_data m))); [lia|]. rewrite Hl, Hp, Ho. cbn [negb orb].
  unfold send_to_peer, peer_side. fold (peer_of l). rewrite Hl'. pose proof Hr as [[ep Hep] _]. rewrite Hep.
  set (f1 := set_pool _ f).
  destruct (try_send_room 0 f1 (le_peer_endpoint l) (Ev_Message (le_peer_channel_handle l) m (le_side l')))
    as (f2 & Ht & _); [by apply (room_fields _ f)|done|]. by rewrite Ht.
Qed.
End handshake.
End mpsc.

(** ** Notices on the terminal lane *)

(** Lanes stay, open ones stay open, and terminal events are only added. *)
Definition notices (f f' : ChannelFabric) : Prop :=
  ∀ e la, ch_lanes f !! e = Some la →
    ∃ la' more, ch_lanes f' !! e = Some la' ∧ la_open la' = la_open la
                ∧ la_terminal la' = la_terminal la ++ more.

Lemma notices_refl f : notices f f.
Proof. intros e la Hla. exists la, []. by rewrite app_nil_r. Qed.

Lemma notices_trans f1 f2 f3 : notices f1 f2 → notices f2 f3 → notices f1 f3.
Proof.
  intros H1 H2 e la (la' & m & Hla' & Ho & Ht)%H1. apply H2 in Hla' as (la'' & m' & Hla'' & Ho' & Ht').
  exists la'', (m ++ m'). rewrite app_assoc. by rewrite Ht', Ht, Ho', Ho.
Qed.

Lemma notices_same f f' : ch_lanes f' = ch_lanes f → notices f f'.
Proof. intros Heq e la Hla. exists la, []. by rewrite Heq, app_nil_r. Qed.

Section mpsc.
Context `{ML : MpscLaws}.

Lemma notices_send_terminal e ev f : notices f (send_terminal e ev f).
Proof.
  rewrite send_terminal_eq. destruct (ch_lanes f !! e) as [la|] eqn:El; [|by apply notices_same].
  destruct (la_open la) eqn:Eo; [|by apply notices_same]. intros x lx Hx. cbn.
  destruct (decide (e = x)) as [<-|].
  - rewrite lookup_insert_eq. rewrite El in Hx. injection Hx as <-. by exists (push_terminal ev la), [ev].
  - rewrite lookup_insert_ne by done. exists lx, []. by rewrite app_nil_r.
Qed.

Lemma notices_abort_side id reason f t : notices f (abort_side id reason f t).
Proof. unfold abort_side. destruct (_ !! _); [apply notices_send_terminal|by apply notices_same]. Qed.

Lemma notices_cancel e id reason f : notices f (native_cancel_connect e id reason f).
Proof.
  unfold native_cancel_connect. destruct (_ !! id) as [p|]; [|apply notices_refl].
  destruct (_ && _); [apply notices_refl|]. cbn [foldl].
  eapply notices_trans; [|apply notices_abort_side].
  eapply notices_trans; [|apply notices_abort_side]. by apply notices_same.
Qed.

Lemma notices_reset e h reason f : notices f (native_reset e h reason f).2.
Proof.
  unfold native_reset. destruct (_ !! (e, h)) as [l|]; [|apply notices_refl]. cbn [snd].
  eapply notices_trans; [|by apply notices_same].
  destruct (_ !! le_peer_endpoint l), (_ !! _); try by apply notices_same.
  eapply notices_trans; [|apply notices_send_terminal]. by apply notices_same.
Qed.

Lemma notices_cancel_all e reason ids f : notices f (cancel_all e reason ids f).
Proof.
  revert f. induction ids as [|id ids IH]; intros f; [apply notices_refl|].
  eapply notices_trans; [apply notices_cancel|apply IH].
Qed.

Lemma notices_reset_all e reason hs f : notices f (reset_all e reason hs f).
Proof.
  revert f. induction hs as [|h hs IH]; intros f; [apply notices_refl|].
  eapply notices_trans; [apply notices_reset|apply IH].
Qed.

(** The terminal event has been queued for endpoint [e]. *)
Definition told (f : ChannelFabric) (e : Z) (ev : NativeTerminalEvent) : Prop :=
  ∃ la, ch_lanes f !! e = Some la ∧ ev ∈ la_terminal la.

Lemma told_notices f f' e ev : notices f f' → told f e ev → told f' e ev.
Proof.
  intros Hn (la & Hla & Hin). apply Hn in Hla as (la' & m & Hla' & _ & Ht). exists la'.
  split; [done|]. rewrite Ht, elem_of_app. by left.
Qed.

(** The endpoint is registered and its session still receives. *)
Definition listening (f : ChannelFabric) (e : Z) : Prop :=
  is_Some (ch_native_endpoints f !! e) ∧ ∃ la, ch_lanes f !! e = Some la ∧ la_open la = true.

Lemma listening_notices f f' e :
  notices f f' → ch_native_endpoints f' = ch_native_endpoints f → listening f e → listening f' e.
Proof.
  intros Hn Heq [He (la & Hla & Ho)]. split; [by rewrite Heq|].
  apply Hn in Hla as (la' & m & Hla' & Ho' & _). exists la'. split; congruence.
Qed.

Lemma send_terminal_told e ev f : listening f e → told (send_terminal e ev f) e ev.
Proof.
  intros [_ (la & Hla & Ho)]. rewrite send_terminal_eq, Hla, Ho. exists (push_terminal ev la).
  cbn. rewrite lookup_insert_eq. split; [done|]. apply elem_of_app. right. by left.
Qed.

Lemma reset_told e h reason f l l' :
  ch_native_links f !! (e, h) = Some l → ch_native_links f !! peer_of l = Some l' → peer_of l ≠ (e, h) →
  listening f (le_peer_endpoint l) →
  told (native_reset e h reason f).2 (le_peer_endpoint l)
    (Tm_Reset (le_peer_channel_handle l) reason (le_side l')).
Proof.
  intros Hl Hl' Hne Hlis. unfold native_reset. rewrite Hl. cbn [snd]. fold (peer_of l).
  rewrite lookup_delete_ne, Hl' by done. cbn [set_links ch_native_endpoints].
  destruct Hlis as [[ep Hep] Hla]. rewrite Hep.
  eapply told_notices; [by apply notices_same|]. apply send_terminal_told. split; [|done]. cbn. eauto.
Qed.

(** Every link of [e] on the list to another endpoint is reported to it. *)
Lemma reset_all_told e reason hs f h l l' :
  h ∈ hs → ch_native_links f !! (e, h) = Some l → ch_native_links f !! peer_of l = Some l' →
  le_peer_endpoint l ≠ e → listening f (le_peer_endpoint l) → Fabric_core f →
  told (reset_all e reason hs f) (le_peer_endpoint l)
    (Tm_Reset (le_peer_channel_handle l) reason (le_side l')).
Proof.
  revert f. induction hs as [|x hs IH]; intros f Hin Hl Hl' Hne Hlis Hc; [by apply not_elem_of_nil in Hin|].
  change (reset_all e reason (x :: hs) f) with (reset_all e reason hs (native_reset e x reason f).2).
  destruct (decide (h = x)) as [<-|Hx].
  - eapply told_notices; [apply notices_reset_all|]. apply (reset_told e h reason f l l'); try done.
    unfold peer_of. congruence.
  - apply elem_of_cons in Hin as [|Hin]; [done|].
    assert (Hkeep : ∀ k m, ch_native_links f !! k = Some m → k = (e, h) ∨ k = peer_of l →
              ch_native_links (native_reset e x reason f).2 !! k = Some m).
    { intros k m Hk Hor. rewrite reset_links. destruct (ch_native_links f !! (e, x)) as [y|] eqn:Ey; [|done].
      destruct (fc_links _ Hc _ _ Ey) as (_ & y' & Hy' & (Hp1 & _)).
      destruct (fc_links _ Hc _ _ Hl) as (_ & l'' & Hl'' & (Hp2 & _)).
      rewrite !lookup_delete_ne; [done| |].
      - intros <-. destruct Hor as [Hk'|Hk']; [congruence|]. unfold peer_of in Hk'. congruence.
      - intros Heq. rewrite Heq in Hy'. destruct Hor as [->| ->].
        + rewrite Hl in Hy'. injection Hy' as <-. unfold peer_of in Hp1. congruence.
        + congruence. }
    apply IH; try done; [by apply Hkeep; auto|by apply Hkeep; auto| |by apply reset_core].
    eapply listening_notices; [apply notices_reset| |done]. apply (cm_endpoints _ _ (reset_calm e x reason f)).
Qed.

Lemma cancel_connect_told e id reason f p x side :
  ch_native_pending f !! id = Some p →
  (x, side) ∈ [(pc_connector_endpoint p, pc_connector_side p); (pc_listener_endpoint p, pc_listener_side p)] →
  pc_connector_endpoint p = e ∨ pc_listener_endpoint p = e → listening f x →
  told (native_cancel_connect e id reason f) x (Tm_ConnectAborted id reason side).
Proof.
  intros Hp Hin Hor Hlis. unfold native_cancel_connect. rewrite Hp.
  destruct (negb _ && negb _) eqn:En.
  { apply andb_prop in En as [E1 E2]. apply negb_true_iff in E1, E2. apply Z.eqb_neq in E1, E2.
    destruct Hor; congruence. }
  cbn [foldl]. set (f1 := set_native_pending _ f).
  assert (Hl1 : listening f1 x) by exact Hlis.
  assert (Habort : ∀ g, listening g x → told (abort_side id reason g (x, side)) x (Tm_ConnectAborted id reason side)).
  { intros g Hg. unfold abort_side. cbn [fst snd]. destruct Hg as [[ep Hep] Hla]. rewrite Hep.
    apply send_terminal_told. split; eauto. }
  apply elem_of_cons in Hin as [<-|Hin].
  - eapply told_notices; [apply notices_abort_side|]. by apply Habort.
  - apply list_elem_of_singleton in Hin. rewrite <- Hin. apply Habort.
    eapply listening_notices; [apply notices_abort_side| |exact Hl1].
    apply (quiet_fields _ _ (quiet_abort_side id reason f1 _)).
Qed.

Lemma cancel_all_told e reason ids f id p x side :
  id ∈ ids → ch_native_pending f !! id = Some p →
  (x, side) ∈ [(pc_connector_endpoint p, pc_connector_side p); (pc_listener_endpoint p, pc_listener_side p)] →
  pc_connector_endpoint p = e ∨ pc_listener_endpoint p = e →
  (∀ i q, i ∈ ids → ch_native_pending f !! i = Some q → pc_connector_endpoint q = e ∨ pc_listener_endpoint q = e) →
  listening f x →
  told (cancel_all e reason ids f) x (Tm_ConnectAborted id reason side).
Proof.
  revert f. induction ids as [|i ids IH]; intros f Hin Hp Hs Hor Hall Hlis; [by apply not_elem_of_nil in Hin|].
  change (cancel_all e reason (i :: ids) f) with (cancel_all e reason ids (native_cancel_connect e i reason f)).
  destruct (decide (id = i)) as [<-|Hne].
  - eapply told_notices; [apply notices_cancel_all|]. by eapply cancel_connect_told.
  - apply elem_of_cons in Hin as [|Hin]; [done|].
    assert (Hd := cancel_connect_pending e i reason f (λ q, Hall i q ltac:(by left))).
    apply IH; try done.
    + by rewrite Hd, lookup_delete_ne.
    + intros j q Hj. rewrite Hd. intros [_ Hq]%lookup_delete_Some. apply (Hall j q); [by right|done].
    + eapply listening_notices; [apply notices_cancel| |done]. apply (cm_endpoints _ _ (cancel_connect_calm e i reason f)).
Qed.

(** ** Unregistering *)

Section unregister.
Context `{HashOrder} (e : Z) (f : ChannelFabric) (Hok : Fabric_ok f).

Lemma reset_all_keeps reason hs g k l :
  Fabric_core g → ch_native_links g !! k = Some l → k.1 ≠ e → le_peer_endpoint l ≠ e →
  ch_native_links (reset_all e reason hs g) !! k = Some l.
Proof using ML.
  revert g. induction hs as [|x hs IH]; intros g Hc Hk Hn1 Hn2; [done|].
  apply IH; try done; [by apply reset_core|]. rewrite reset_links.
  destruct (ch_native_links g !! (e, x)) as [y|] eqn:Ey; [|done].
  destruct (fc_links _ Hc _ _ Ey) as (_ & y' & Hy' & (Hp1 & _)).
  rewrite !lookup_delete_ne; [done|intros <-; by apply Hn1|].
  intros Heq. rewrite Heq, Hk in Hy'. injection Hy' as <-. unfold peer_of in Hp1. congruence.
Qed.

(** The resets and cancellations come first; the rest leaves lanes and links alone. *)
Lemma unregister_tail f1 f2 :
  f1 = cancel_all e Native_Unavailable
         (map fst (filter (λ p, pc_connector_endpoint p.2 = e ∨ pc_listener_endpoint p.2 = e)
                     (hash_iter (ch_native_pending f)))) f →
  f2 = reset_all e Native_Unavailable
         (map (λ p, p.1.2) (filter (λ p, p.1.1 = e) (hash_iter (ch_native_links f1)))) f1 →
  ch_lanes (unregister_native_endpoint e f) = ch_lanes f2
  ∧ ch_native_links (unregister_native_endpoint e f) = ch_native_links f2.
Proof using ML.
  intros -> ->. unfold unregister_native_endpoint. set (f1 := cancel_all _ _ _ _).
  fold (reset_all e Native_Unavailable (map (λ p, p.1.2) (filter (λ p, p.1.1 = e) (hash_iter (ch_native_links f1)))) f1).
  set (f2 := reset_all _ _ _ f1). set (f3 := set_endpoints _ _ f2). set (ls := map _ _).
  fold (remove_listeners ls f3). destruct (remove_listeners_others ls f3) as (_ & E2 & _ & E4 & _).
  cbn [set_listener_counters ch_lanes ch_native_links]. by rewrite E2, E4.
Qed.

Lemma unregister_keeps_links k l :
  ch_native_links f !! k = Some l → k.1 ≠ e → le_peer_endpoint l ≠ e →
  ch_native_links (unregister_native_endpoint e f) !! k = Some l.
Proof using ML Hok.
  intros Hk ??. rewrite (proj2 (unregister_tail _ _ eq_refl eq_refl)).
  apply reset_all_keeps; try done; [apply cancel_all_core, Hok|]. by rewrite cancel_all_links.
Qed.

Lemma unregister_tells_connect id p x side :
  ch_native_pending f !! id = Some p →
  (x, side) ∈ [(pc_connector_endpoint p, pc_connector_side p); (pc_listener_endpoint p, pc_listener_side p)] →
  pc_connector_endpoint p = e ∨ pc_listener_endpoint p = e → listening f x →
  told (unregister_native_endpoint e f) x (Tm_ConnectAborted id Native_Unavailable side).
Proof using ML.
  intros Hp Hs Hor Hlis. unfold told. rewrite (proj1 (unregister_tail _ _ eq_refl eq_refl)).
  eapply told_notices; [apply notices_reset_all|].
  apply (cancel_all_told e _ _ f id p x side); try done.
  - apply elem_of_hash_keys. by exists id, p.
  - intros i q (j & y & Hj & HP & <-)%elem_of_hash_keys Hi. cbn in *. rewrite Hj in Hi. by injection Hi as <-.
Qed.

Lemma unregister_tells_peer h l l' :
  ch_native_links f !! (e, h) = Some l → ch_native_links f !! peer_of l = Some l' →
  le_peer_endpoint l ≠ e → listening f (le_peer_endpoint l) →
  told (unregister_native_endpoint e f) (le_peer_endpoint l)
    (Tm_Reset (le_peer_channel_handle l) Native_Unavailable (le_side l')).
Proof using ML Hok.
  intros Hl Hl' Hne Hlis. unfold told. rewrite (proj1 (unregister_tail _ _ eq_refl eq_refl)).
  apply (reset_all_told e _ _ _ h l l'); rewrite ?cancel_all_links; try done.
  - apply elem_of_hash_keys. by exists (e, h), l.
  - eapply listening_notices; [apply notices_cancel_all| |done].
    apply (cm_endpoints _ _ (cancel_all_calm _ _ _ _)).
  - apply cancel_all_core, Hok.
Qed.
End unregister.

(** ** One pair of links per connect *)

(** Connect ids are handed out once: a link's is below the next one and no longer pending, and
    the links that share one are the two ends of a pair. *)
Record Connects_ok (f : ChannelFabric) : Prop := {
  cn_below k l : ch_native_links f !! k = Some l → le_connect_id l < ch_next_native_connect f;
  cn_settled k l : ch_native_links f !! k = Some l → ch_native_pending f !! le_connect_id l = None;
  cn_pair k l k' l' : ch_native_links f !! k = Some l → ch_native_links f !! k' = Some l' →
    le_connect_id l = le_connect_id l' → k' = k ∨ k' = peer_of l
}.

(** No connect and no link is new, and those that stay are the same. *)
Record fewer (f f' : ChannelFabric) : Prop := {
  fw_next : ch_next_native_connect f <= ch_next_native_connect f';
  fw_links k l' : ch_native_links f' !! k = Some l' →
    ∃ l, ch_native_links f !! k = Some l ∧ le_connect_id l = le_connect_id l' ∧ peer_of l = peer_of l';
  fw_pending id : is_Some (ch_native_pending f' !! id) → is_Some (ch_native_pending f !! id)
}.

Lemma fewer_ok f f' : fewer f f' → Connects_ok f → Connects_ok f'.
Proof.
  intros [Hn Hl Hp] [H1 H2 H3]. split.
  - intros k l' (l & Hk & <- & _)%Hl. specialize (H1 k l Hk). lia.
  - intros k l' (l & Hk & <- & _)%Hl. apply eq_None_not_Some. intros Hs%Hp. rewrite (H2 k l Hk) in Hs. by destruct Hs.
  - intros k l k' l' (m & Hk & <- & <-)%Hl (m' & Hk' & <- & _)%Hl. by apply H3.
Qed.

Lemma fewer_same f f' :
  ch_next_native_connect f' = ch_next_native_connect f → ch_native_links f' = ch_native_links f →
  ch_native_pending f' = ch_native_pending f → fewer f f'.
Proof. intros E1 E2 E3. split; rewrite ?E1, ?E2, ?E3; [lia|eauto|done]. Qed.

Lemma fewer_refl f : fewer f f.
Proof. by apply fewer_same. Qed.

Lemma fewer_trans f1 f2 f3 : fewer f1 f2 → fewer f2 f3 → fewer f1 f3.
Proof.
  intros [N1 L1 P1] [N2 L2 P2]. split; [lia| |auto].
  intros k l3 (l2 & Hk2 & <- & <-)%L2. by apply L1.
Qed.

Lemma fewer_quiet f f' : quiet f f' → fewer f f'.
Proof. intros (pool & lanes & -> & _). by apply fewer_same. Qed.

Lemma fewer_links f links :
  (∀ k l', links !! k = Some l' →
     ∃ l, ch_native_links f !! k = Some l ∧ le_connect_id l = le_connect_id l' ∧ peer_of l = peer_of l') →
  fewer f (set_links links f).
Proof using. intros Hlk. by split. Qed.

Lemma fewer_delete_pair f k k' : fewer f (set_links (delete k' (delete k (ch_native_links f))) f).
Proof. apply fewer_links. intros x l' [_ [_ Hx]%lookup_delete_Some]%lookup_delete_Some. eauto. Qed.

Lemma fewer_alter f k u :
  (∀ l, le_connect_id (u l) = le_connect_id l ∧ peer_of (u l) = peer_of l) →
  fewer f (set_links (alter u k (ch_native_links f)) f).
Proof.
  intros Hu. apply fewer_links. intros x l' Hx. rewrite lookup_alter_Some in Hx.
  destruct Hx as [(-> & l & Hl & ->)|(_ & Hl)]; [destruct (Hu l)|]; eauto.
Qed.

Lemma fewer_delete_pending f id : fewer f (set_native_pending (delete id (ch_native_pending f)) f).
Proof. split; cbn; [lia|eauto|]. intros x [p [_ Hp]%lookup_delete_Some]. eauto. Qed.

Create HintDb fewer.
#[local] Hint Resolve fewer_refl fewer_quiet quiet_pool quiet_send_terminal quiet_abort_side : fewer.

Lemma cancel_connect_fewer e id reason f : fewer f (native_cancel_connect e id reason f).
Proof.
  unfold native_cancel_connect. destruct (_ !! id) as [p|]; [|apply fewer_refl].
  destruct (_ && _); [apply fewer_refl|]. cbn [foldl].
  eapply fewer_trans; [apply fewer_delete_pending|]. eapply fewer_trans; apply fewer_quiet, quiet_abort_side.
Qed.

Lemma cancel_all_fewer e reason ids f : fewer f (cancel_all e reason ids f).
Proof.
  revert f. induction ids as [|id ids IH]; intros f; [apply fewer_refl|].
  eapply fewer_trans; [apply cancel_connect_fewer|apply IH].
Qed.

Lemma reset_fewer e h reason f : fewer f (native_reset e h reason f).2.
Proof.
  unfold native_reset. destruct (_ !! (e, h)) as [l|]; [|apply fewer_refl]. cbn [snd].
  eapply fewer_trans; [|apply fewer_quiet, quiet_pool]. eapply fewer_trans; [apply fewer_delete_pair|].
  destruct (_ !! le_peer_endpoint l), (_ !! _); eauto with fewer.
Qed.

Lemma reset_all_fewer e reason hs f : fewer f (reset_all e reason hs f).
Proof.
  revert f. induction hs as [|h hs IH]; intros f; [apply fewer_refl|].
  eapply fewer_trans; [apply reset_fewer|apply IH].
Qed.

Lemma remove_listener_fewer h f : fewer f (remove_listener h f).
Proof. unfold remove_listener. destruct (_ !! h); by apply fewer_same. Qed.

Lemma remove_listeners_fewer hs f : fewer f (remove_listeners hs f).
Proof.
  revert f. induction hs as [|h hs IH]; intros f; [apply fewer_refl|].
  eapply fewer_trans; [apply remove_listener_fewer|apply IH].
Qed.

Lemma prepare_connect_fewer e id h credit mx f : fewer f (native_prepare_connect e id h credit mx f).2.
Proof.
  unfold native_prepare_connect. destruct (ch_native_pending f !! id) as [p|] eqn:Ep; [|apply fewer_refl].
  destruct (negb _); [apply fewer_refl|]. destruct (_ || _); [apply fewer_refl|]. destruct (_ || _); [apply fewer_refl|].
  destruct (_ !! pc_connector_endpoint p); [|apply fewer_refl].
  destruct (try_send_event _ _ f) as [b f2] eqn:Et. apply quiet_try_send in Et. destruct b; [|by apply fewer_quiet].
  destruct Et as (pool & lanes & -> & _). split; cbn; [lia|eauto|]. intros x [q Hx].
  apply lookup_insert_Some in Hx as [[<- _]|[_ Hx]]; eauto.
Qed.

Lemma publish_connect_fewer e id h credit f : fewer f (native_publish_connect e id h credit f).2.
Proof.
  unfold native_publish_connect. destruct (_ !! (e, h)) as [l|]; [|apply fewer_refl].
  destruct (_ || _); [apply fewer_refl|]. destruct (_ <? _); [apply fewer_refl|].
  destruct (_ !! le_peer_endpoint l); [|apply fewer_refl].
  destruct (try_send_event _ _ f) as [b f2] eqn:Et. apply quiet_try_send, fewer_quiet in Et.
  destruct b; (eapply fewer_trans; [exact Et|]); [|apply reset_fewer]. cbn [snd].
  eapply fewer_trans; [apply (fewer_alter f2 (e, h) publish); done|].
  exact (fewer_alter (set_links (alter publish (e, h) (ch_native_links f2)) f2) (peer_of l) publish (λ l, conj eq_refl eq_refl)).
Qed.

Lemma send_to_peer_fewer l ev f r f' : send_to_peer l ev f = (r, f') → fewer f f'.
Proof.
  unfold send_to_peer, peer_side. destruct (_ !! _) as [l'|]; [|intros [= _ <-]; apply fewer_refl].
  set (f1 := set_pool _ f). destruct (_ !! le_peer_endpoint l).
  - destruct (try_send_event _ _ f1) as [b f2] eqn:Et. apply quiet_try_send, fewer_quiet in Et.
    assert (fewer f f2) by (eapply fewer_trans; [apply fewer_quiet, quiet_pool|exact Et]).
    destruct b; by intros [= _ <-].
  - intros [= _ <-]. eapply fewer_trans; apply fewer_quiet, quiet_pool.
Qed.

Lemma send_message_fewer e h m f : fewer f (native_send_message e h m f).2.
Proof.
  unfold native_send_message. destruct (_ <? _); [apply fewer_refl|].
  destruct (_ !! _) as [l|]; [|apply fewer_refl]. destruct (_ || _); [apply fewer_refl|].
  destruct (send_to_peer _ _ _) as [r f'] eqn:Es. by apply send_to_peer_fewer in Es.
Qed.

Lemma send_credit_fewer e h limit f : fewer f (native_send_credit e h limit f).2.
Proof.
  unfold native_send_credit. destruct (_ !! _) as [l|]; [|apply fewer_refl]. destruct (negb _); [apply fewer_refl|].
  destruct (send_to_peer _ _ _) as [r f'] eqn:Es. by apply send_to_peer_fewer in Es.
Qed.

Lemma send_close_fewer e h n f : fewer f (native_send_close e h n f).2.
Proof.
  unfold native_send_close. destruct (_ !! (e, h)) as [l|]; [|apply fewer_refl]. destruct (_ || _); [apply fewer_refl|].
  destruct (send_to_peer _ _ _) as [[[]|] f'] eqn:Es; apply send_to_peer_fewer in Es; [|done].
  set (f2 := set_links _ f'). assert (fewer f f2) by (eapply fewer_trans; [exact Es|by apply fewer_alter]).
  destruct (_ !! _) as [l'|]; [|done]. destruct (le_output_closed l'); [|done]. cbn [snd].
  eapply fewer_trans; [done|]. eapply fewer_trans; [apply fewer_delete_pair|apply fewer_quiet, quiet_pool].
Qed.

Lemma register_fewer sid ext cap f : fewer f (register_native_endpoint sid ext cap f).2.
Proof. unfold register_native_endpoint. repeat case_match; by apply fewer_same. Qed.

Lemma listen_fewer e sid name md f : fewer f (native_listen e sid name md f).2.
Proof. unfold native_listen. repeat case_match; by apply fewer_same. Qed.

Lemma session_recv_fewer e terminal f : fewer f (session_recv e terminal f).
Proof. unfold session_recv. repeat case_match; by apply fewer_same. Qed.
Lemma session_done_fewer e i f : fewer f (session_done e i f).
Proof. unfold session_done. repeat case_match; by apply fewer_same. Qed.
Lemma session_drop_fewer e f : fewer f (session_drop e f).
Proof. unfold session_drop. repeat case_match; by apply fewer_same. Qed.

Section hashed.
Context `{HashOrder}.

Lemma close_listener_fewer e h g f : fewer f (native_close_listener e h g f).2.
Proof using ML.
  unfold native_close_listener. destruct (_ !! h); [|apply fewer_refl]. destruct (negb _); [apply fewer_refl|].
  destruct (negb _); [apply fewer_refl|]. eapply fewer_trans; [apply remove_listener_fewer|apply cancel_all_fewer].
Qed.

Lemma unregister_fewer e f : fewer f (unregister_native_endpoint e f).
Proof using ML.
  unfold unregister_native_endpoint. set (f1 := cancel_all _ _ _ f). set (hs := map (λ p, p.1.2) _).
  fold (reset_all e Native_Unavailable hs f1). set (f2 := reset_all _ _ hs f1). set (f3 := set_endpoints _ _ f2).
  set (ls := map (λ p, li_listener_handle p.2) _). fold (remove_listeners ls f3). set (f4 := remove_listeners ls f3).
  eapply fewer_trans; [apply cancel_all_fewer|]. fold f1. eapply fewer_trans; [apply (reset_all_fewer e Native_Unavailable hs)|]. fold f2.
  apply (fewer_trans _ f3); [by apply fewer_same|]. apply (fewer_trans _ f4); [apply remove_listeners_fewer|by apply fewer_same].
Qed.
End hashed.

(** A connect that begins takes the next id. *)
Lemma begin_connect_connects c h g credit md f :
  Fabric_ok f → Connects_ok f → Connects_ok (native_begin_connect c h g credit md f).2.
Proof.
  intros Hok Hcn. unfold native_begin_connect. destruct (_ || _); [done|]. destruct (_ <? _); [done|].
  destruct (ch_listeners f !! h) as [l|]; [|done]. destruct (negb _); [done|].
  destruct (_ !! c) as [connector|]; [|done]. destruct (_ !! li_endpoint l); [|done]. destruct (_ <=? _); [done|].
  destruct (reserve_pair _ _ _ _) as [[[[r s1] s2]|e] pool]; [|by apply (fewer_ok f), Hcn; apply fewer_quiet, quiet_pool].
  destruct (checked_add_u64 _ 1) as [next|] eqn:En; [|by apply (fewer_ok f), Hcn; apply fewer_quiet, quiet_pool].
  apply checked_add_u64_some in En as [-> _]. set (f1 := set_pool _ _).
  assert (fewer f f1) as Hf1 by (split; cbn; [lia|eauto|done]).
  destruct (try_send_event _ _ f1) as [b f2] eqn:Et. apply quiet_try_send in Et. destruct b; cbn [snd].
  - destruct Et as (p2 & l2 & -> & _). destruct Hcn as [C1 C2 C3]. split; cbn.
    + intros k m Hk. specialize (C1 k m Hk). lia.
    + intros k m Hk. specialize (C1 k m Hk). rewrite lookup_insert_ne by lia. by apply (C2 k).
    + exact C3.
  - apply (fewer_ok f); [|done]. eapply fewer_trans; [exact Hf1|]. eapply fewer_trans; [by apply fewer_quiet|apply fewer_quiet, quiet_pool].
Qed.

(** The two links of a completed connect get its id, which is pending no more. *)
Lemma complete_connect_connects e id h mx f :
  Fabric_ok f → Connects_ok f → Connects_ok (native_complete_connect e id h mx f).2.
Proof.
  intros Hok Hcn. unfold native_complete_connect. destruct (ch_native_pending f !! id) as [p|] eqn:Ep; [|done].
  destruct (negb _); [done|]. destruct (pc_listener_channel_handle p) as [lh|]; [|done].
  destruct (pc_max_item_bytes p); [|done]. destruct (_ || _); [done|]. destruct (_ || _); [done|].
  destruct (_ !! pc_listener_endpoint p); [|done]. cbn [snd]. pose proof (fc_pending _ (ok_core _ Hok) id p Ep) as [Hid _].
  destruct Hcn as [C1 C2 C3]. set (key := (e, h)). set (peer := (pc_listener_endpoint p, lh)).
  set (lc := mkLinkEnd id (pc_listener_endpoint p) _ _ _ _ _). set (ll := mkLinkEnd id e _ _ _ _ _).
  assert (Hold : ∀ k l, (<[peer := ll]> (<[key := lc]> (ch_native_links f))) !! k = Some l →
    (le_connect_id l = id ∧ (k = peer ∧ l = ll ∨ k = key ∧ l = lc)) ∨ (le_connect_id l ≠ id ∧ ch_native_links f !! k = Some l)).
  { intros k l [[<- <-]|[_ [[<- <-]|[_ Hk]]%lookup_insert_Some]]%lookup_insert_Some; [left; by auto..|right].
    split; [|done]. intros Heq. specialize (C2 k l Hk). by rewrite Heq, Ep in C2. }
  split; cbn.
  - intros k l [[-> _]|[_ Hk]]%Hold; [done|by apply (C1 k)].
  - intros k l [[-> _]|[Hne Hk]]%Hold; [apply lookup_delete_eq|]. rewrite lookup_delete_ne by done. by apply (C2 k).
  - intros k l k' l' Hk Hk' Heq. apply Hold in Hk as [[Hi Hk]|[Hi Hk]], Hk' as [[Hi' Hk']|[Hi' Hk']]; try congruence; [|by apply (C3 k l k' l')].
    destruct Hk as [[-> ->]|[-> ->]], Hk' as [[-> ->]|[-> ->]]; auto.
Qed.

Section hashed_runs.
Context `{HashOrder}.

Lemma channel_call_connects c f : Fabric_ok f → Connects_ok f → Connects_ok (channel_call c f).
Proof using ML.
  intros Hok Hcn. destruct c; cbn [channel_call];
    auto using begin_connect_connects, complete_connect_connects; apply (fewer_ok f); try done;
    auto using register_fewer, unregister_fewer, listen_fewer, close_listener_fewer, prepare_connect_fewer, publish_connect_fewer,
      cancel_connect_fewer, send_message_fewer, send_credit_fewer, send_close_fewer, reset_fewer, session_recv_fewer,
      session_done_fewer, session_drop_fewer; by apply fewer_same.
Qed.

Lemma channel_run_connects calls f : Fabric_ok f → Connects_ok f → Connects_ok (channel_run calls f).
Proof using ML.
  revert f. induction calls as [|c calls IH]; intros f Hok Hcn; [done|].
  apply IH; [by apply channel_call_ok|by apply channel_call_connects].
Qed.
End hashed_runs.

Lemma fabric_new_connects enabled boot limits : Connects_ok (ChannelFabric_new enabled boot limits).
Proof. split; cbn; intros *; rewrite lookup_empty; done. Qed.

(** ** The claims *)

(** C11: In every state the fabric reaches from its start by any calls of any
    sessions, in any order: links come in symmetric pairs of registered
    endpoints, with the same limits and published together; each pair has a
    connect id of its own, which no other link has, no connect in progress has
    and no later connect will get; connects in progress name registered endpoints and a listener
    that is still offered by the endpoint asked; names and listeners
    correspond one to one, with unique generations, unique registry ids per
    endpoint and the token of their generation; every listener belongs to a
    registered endpoint's session; and the pool is charged for exactly the
    sides held by connects, links and queued or handled events. *)
Theorem fabric_invariant `{HashOrder} enabled boot limits calls :
  let f := channel_run calls (ChannelFabric_new enabled boot limits) in Fabric_ok f ∧ Connects_ok f.
Proof.
  pose proof (fabric_new_ok enabled boot limits). split; [by apply channel_run_ok|].
  by apply channel_run_connects, fabric_new_connects.
Qed.

Lemma reachable_charged `{HashOrder} enabled boot limits calls f :
  f = channel_run calls (ChannelFabric_new enabled boot limits) →
  Charged (ch_limits f) (ch_pool f) (fabric_refs f).
Proof. intros ->. exact (fc_held _ (ok_core _ (channel_run_ok _ _ (fabric_new_ok _ _ _)))). Qed.

(** C12: Admission is exact in every reachable state: the pairs counted are the
    different reservations that connects, links and lanes hold, each for the
    same window; the slots counted at an endpoint never exceed its limit, nor
    pairs and window bytes theirs; and when nothing is held, nothing is
    counted, so no sequence of calls leaks a pair, a slot or a byte. *)
Theorem pair_admission_exact `{HashOrder} enabled boot limits calls :
  let f := channel_run calls (ChannelFabric_new enabled boot limits) in
  let p := ch_pool f in
  pp_active_pairs p = Z.of_nat (size (list_to_set (map ps_reservation (fabric_refs f)) : gset Z))
  ∧ pp_reserved_window_bytes p = 2 * FLOW_WINDOW_BYTES * pp_active_pairs p
  ∧ pp_active_pairs p <= Z.max 0 (cl_connected_pairs (ch_limits f))
  ∧ pp_reserved_window_bytes p <= Z.max 0 (cl_buffer_bytes (ch_limits f))
  ∧ (∀ e, slot_count p e <= Z.max 0 (cl_handles_per_endpoint (ch_limits f)))
  ∧ (fabric_refs f = [] → pp_active_pairs p = 0 ∧ pp_reserved_window_bytes p = 0 ∧ pp_endpoint_slots p = ∅).
Proof.
  cbn zeta. set (f := channel_run _ _). pose proof (reachable_charged _ _ _ _ f eq_refl) as Hc.
  pose proof Hc as [P1 P2 P3 P4 P5 P6 P7 P8 P9].
  split_and!; [|change (2 * FLOW_WINDOW_BYTES) with PAIR_WINDOW; congruence|done|lia| |].
  - rewrite P4, <- (size_dom (D := gset Z)). do 2 f_equal. apply set_eq. intros r.
    rewrite elem_of_dom, elem_of_list_to_set, P1.
    destruct (decide (count r (map ps_reservation (fabric_refs f)) = 0)) as [E|E].
    + apply count_zero in E. split; [by intros []|done].
    + pose proof (count_zero r (map ps_reservation (fabric_refs f))). split; [|by eauto].
      intros _. apply count_pos. pose proof (count_nonneg r (map ps_reservation (fabric_refs f))). lia.
  - intros e. by rewrite (slot_count_at _ _ _ _ e Hc).
  - intros Hnil. rewrite Hnil in *. cbn [map] in *.
    assert (Hp : pp_pairs (ch_pool f) = ∅) by (apply map_empty; intros r; by rewrite P1).
    assert (Hs : pp_slots (ch_pool f) = ∅).
    { apply map_empty. intros s. specialize (P2 s). destruct (pp_slots (ch_pool f) !! s) as [[? z]|]; [|done].
      change (count s []) with 0 in P2. lia. }
    rewrite P5, P4, Hp, map_size_empty. split_and!; [lia|lia|].
    apply map_empty. intros e. rewrite P6, Hs. done.
Qed.

(** C13: A message is delivered to the other end of its channel and to nobody else.
    When [native_send_message] succeeds on an open end, the end at the other
    side names this one as its peer, the message lies at the end of that
    endpoint's lane under that end's own handle, no other lane and no link,
    connect, listener or endpoint has changed; when it fails, no lane has. *)
Theorem message_reaches_peer_only `{HashOrder} enabled boot limits calls e h m r f' :
  let f := channel_run calls (ChannelFabric_new enabled boot limits) in
  native_send_message e h m f = (r, f') →
  quiet f f' ∧
  match r with
  | Err _ => ch_lanes f' = ch_lanes f
  | Ok _ => ∃ l l' la,
      ch_native_links f !! (e, h) = Some l ∧ le_published l = true ∧ le_output_closed l = false
      ∧ ch_native_links f !! peer_of l = Some l' ∧ peer_of l' = (e, h)
      ∧ ch_lanes f !! le_peer_endpoint l = Some la ∧ la_open la = true
      ∧ len (la_events la) < la_capacity la
      ∧ ch_lanes f' = <[le_peer_endpoint l :=
          push_event (Ev_Message (le_peer_channel_handle l) m (le_side l')) la]> (ch_lanes f)
  end.
Proof.
  cbn zeta. set (f := channel_run _ _). intros Hs.
  assert (Hok : Fabric_ok f) by apply channel_run_ok, fabric_new_ok. clearbody f. revert Hs.
  unfold native_send_message. destruct (_ <? _); [intros [= <- <-]; split; [apply quiet_refl|done]|].
  destruct (ch_native_links f !! (e, h)) as [l|] eqn:El; [|intros [= <- <-]; split; [apply quiet_refl|done]].
  destruct (le_published l) eqn:Ep; [|intros [= <- <-]; split; [apply quiet_refl|done]].
  destruct (le_output_closed l) eqn:Eo; [intros [= <- <-]; split; [apply quiet_refl|done]|]. cbn [negb orb].
  intros Hs. assert (Hq := Hs). apply send_to_peer_core in Hq as [Hq _]; [|done|apply Hok]. split; [done|].
  destruct r as [[]|x]; [|by apply send_to_peer_refused in Hs as [? _]].
  apply send_to_peer_delivers in Hs as (l' & la & Hl' & Hla & Ho & Hc & Hf').
  destruct (fc_links _ (ok_core _ Hok) _ _ El) as (_ & l'' & Hl'' & (Hp & _)).
  rewrite Hl' in Hl''. injection Hl'' as <-. by exists l, l', la.
Qed.

(** C14: Unregistering an endpoint leaves no trace of it and leaves the others alone:
    no listener, connect, link end, peer or id counter names it afterwards;
    listeners, connects and links that do not involve it are kept; and every
    endpoint that still receives is told about each of its links and connects
    with the one that left. *)
Theorem unregister_leaves_no_trace `{HashOrder} enabled boot limits calls e :
  let f := channel_run calls (ChannelFabric_new enabled boot limits) in
  let f' := unregister_native_endpoint e f in
  ch_native_endpoints f' = delete e (ch_native_endpoints f)
  ∧ ch_next_registry_id f' !! e = None
  ∧ (∀ h l, ch_listeners f' !! h = Some l ↔ ch_listeners f !! h = Some l ∧ li_endpoint l ≠ e)
  ∧ (∀ id p, ch_native_pending f' !! id = Some p ↔ ch_native_pending f !! id = Some p
       ∧ pc_connector_endpoint p ≠ e ∧ pc_listener_endpoint p ≠ e)
  ∧ (∀ k l, ch_native_links f' !! k = Some l ↔ ch_native_links f !! k = Some l
       ∧ k.1 ≠ e ∧ le_peer_endpoint l ≠ e)
  ∧ (∀ h l l', ch_native_links f !! (e, h) = Some l → ch_native_links f !! peer_of l = Some l' →
       le_peer_endpoint l ≠ e → listening f (le_peer_endpoint l) →
       told f' (le_peer_endpoint l) (Tm_Reset (le_peer_channel_handle l) Native_Unavailable (le_side l')))
  ∧ (∀ id p x side, ch_native_pending f !! id = Some p →
       (x, side) ∈ [(pc_connector_endpoint p, pc_connector_side p); (pc_listener_endpoint p, pc_listener_side p)] →
       pc_connector_endpoint p = e ∨ pc_listener_endpoint p = e → listening f x →
       told f' x (Tm_ConnectAborted id Native_Unavailable side)).
Proof.
  cbn zeta. set (f := channel_run _ _).
  assert (Hok : Fabric_ok f) by apply channel_run_ok, fabric_new_ok. clearbody f.
  destruct (unregister_spec e f Hok) as [_ U2 U3 U4 U5 U6]. split_and!; [done|done|..].
  - intros h l. rewrite U3. destruct (ch_listeners f !! h) as [m|]; cbn [mbind option_bind]; [|naive_solver].
    destruct (decide (li_endpoint m = e)); naive_solver.
  - intros id p. rewrite U4. destruct (ch_native_pending f !! id) as [q|]; cbn [mbind option_bind]; [|naive_solver].
    destruct (decide _); naive_solver.
  - intros k l. split; [apply U5|]. intros (? & ? & ?). by apply unregister_keeps_links.
  - intros h l l'. by apply unregister_tells_peer.
  - intros id p x side. by apply unregister_tells_connect.
Qed.

(** The search for a listener's registry id ends: within one try more than there
    are listeners it has found the first id of its sequence that no listener
    of the endpoint has, or passed the last [u32]. *)
Theorem registry_id_search_ends f e :
  let c := default 1 (ch_next_registry_id f !! e) in
  ∃ r (k : nat), registry_id_loop (registry_fuel f) f e c = Some r ∧ registry_id_candidate f e = r
    ∧ (∀ i : nat, (i < k)%nat → registry_id_taken f e (c + 2 * Z.of_nat i) = true)
    ∧ (k <= size (ch_listeners f))%nat
    ∧ match r with
      | Ok id => id = c + 2 * Z.of_nat k ∧ registry_id_taken f e id = false
      | Err x => x = Native_ResourceExhausted ∧ U32_MAX < c + 2 * Z.of_nat k
      end.
Proof.
  cbn zeta. destruct (registry_id_loop_total f e (default 1 (ch_next_registry_id f !! e))) as [r Hr].
  destruct (registry_id_loop_spec _ _ _ _ _ Hr) as (k & Hk & Hm). exists r, k.
  split_and!; try done; [|by apply taken_ids_bounded in Hk].
  unfold registry_id_candidate. by rewrite Hr.
Qed.

(** C15: A connect for which there is room goes through. Take a listener that is
    offered by an enabled fabric, a connector with fewer connects in progress
    than the limit, an admission that succeeds, unused channel handles, item
    limits that decrease from side to side and credits that cover them, and
    five free places in each lane: then beginning, preparing, completing and
    publishing succeed one after the other, and both ends can send. *)
Theorem connect_goes_through a h l g credit md rsv s1 s2 pool hb lcredit pmx ha mx icredit m f :
  ch_enabled f = true → ch_shutting_down f = false → len md <= channel_MAX_METADATA_BYTES →
  ch_listeners f !! h = Some l → li_generation l = g →
  pending_count f a < channel_MAX_PENDING_CONNECTS →
  reserve_pair (ch_limits f) (ch_pool f) a (li_endpoint l) = (Ok (rsv, s1, s2), pool) →
  ch_next_native_connect f + 1 <= U64_MAX → room 5 f a → room 5 f (li_endpoint l) →
  ch_native_links f !! (a, ha) = None → ch_native_links f !! (li_endpoint l, hb) = None →
  (a, ha) ≠ (li_endpoint l, hb) → 0 < pmx <= lcredit → pmx <= channel_MAX_MESSAGE_BYTES →
  0 < mx <= pmx → mx <= icredit → len (mf_data m) <= channel_MAX_MESSAGE_BYTES →
  let id := ch_next_native_connect f in
  ∃ f1 f2 info f3 f4,
    native_begin_connect a h g credit md f = (Ok id, f1)
    ∧ native_prepare_connect (li_endpoint l) id hb lcredit pmx f1 = (Ok (), f2)
    ∧ native_complete_connect a id ha mx f2 = (Ok info, f3)
    ∧ native_publish_connect a id ha icredit f3 = (Ok (), f4)
    ∧ (native_send_message a ha m f4).1 = Ok () ∧ (native_send_message (li_endpoint l) hb m f4).1 = Ok ().
Proof.
  intros He Hs Hmd Hl Hg Hpc Hr Hid Ra Rb Na Nb Hne Hp1 Hp2 Hmx Hic Hm id.
  destruct (begin_connect_succeeds a 4 f ltac:(lia) h l g credit md rsv s1 s2 pool)
    as (f1 & B1 & P1 & L1 & Ra1 & Rb1); [done..|]. fold id in B1, P1.
  destruct (prepare_connect_succeeds a hb 3 f1 ltac:(lia) id _ lcredit pmx P1)
    as (f2 & B2 & P2 & L2 & Ra2 & Rb2); [done|done|done|by rewrite L1|done..|].
  destruct (complete_connect_succeeds a ha hb 3 f2 id _ pmx mx P2) as (info & f3 & B3 & K1 & K2 & Ra3 & Rb3);
    [done|done|done|done|by rewrite L2, L1|by rewrite L2, L1|done..|].
  destruct (publish_connect_succeeds a ha hb 2 f3 ltac:(lia) _ id mx icredit K1 K2)
    as (f4 & B4 & K3 & K4 & Ra4 & Rb4); [done..|].
  assert (Hroom : ∀ x, room 2 f4 x → room 1 f4 x).
  { intros x [Hx (la & ? & ? & ?)]. split; [done|]. exists la. split_and!; try done. lia. }
  exists f1, f2, info, f3, f4. split_and!; try done.
  - eapply send_succeeds; [exact K3|exact K4|done|done|done|by apply Hroom].
  - eapply send_succeeds; [exact K4|exact K3|done|done|done|by apply Hroom].
Qed.
End mpsc.

(** * The channel theorems at concrete runs

    Two sessions: one listens under a name, the other connects, they exchange
    a message, and one of them leaves. *)

(** Maps visited in the order of their keys' encoding. *)
#[local] Instance key_order : HashOrder :=
  {| hash_iter K A _ _ m := map_to_list m; hash_iter_perm K A _ _ m := reflexivity _ |}.

(** A queue that accepts events as long as it is open and has room. *)
#[local] Instance plain_mpsc : Mpsc :=
  {| mpsc_try_send opened capacity q e := if opened && (len q <? capacity) then Some (q ++ [e]) else None;
     mpsc_send opened q e := if opened : bool then Some (q ++ [e]) else None |}.

#[local] Instance plain_mpsc_laws : MpscLaws.
Proof. by split. Defined.

Definition demo_a : Z := 2 ^ 63.
Definition demo_b : Z := 2 ^ 63 + 1.
Definition demo_sid (b : byte) : list byte := repeat b 16.
Definition demo_name : list byte := [Byte.x61; Byte.x62].
Definition demo_message : NativeMessageFragment := mkFragment 0 0 true true [Byte.x01; Byte.x02].

Definition demo_offer : list ChannelCall :=
  [Call_register (demo_sid Byte.x01) false 8; Call_register (demo_sid Byte.x02) true 8;
   Call_listen demo_b (demo_sid Byte.x02) demo_name []].
Definition demo_connect : list ChannelCall :=
  demo_offer ++ [Call_begin_connect demo_a 1 1 65536 []; Call_prepare_connect demo_b 1 7 65536 4096;
   Call_complete_connect demo_a 1 5 4096; Call_publish_connect demo_a 1 5 65536].
Abbreviation demo_fabric := (ChannelFabric_new true 9 ChannelLimits_default) (only parsing).
Definition demo_leave : list ChannelCall :=
  demo_connect ++ [Call_reset demo_a 5 Native_Stale; Call_session_drop demo_a; Call_session_drop demo_b].

Lemma fabric_invariant_witness : Fabric_ok (channel_run demo_connect demo_fabric) ∧ Connects_ok (channel_run demo_connect demo_fabric).
Proof. exact (fabric_invariant true 9 ChannelLimits_default demo_connect). Defined.

Lemma pair_admission_exact_witness :
  pp_active_pairs (ch_pool (channel_run demo_connect demo_fabric)) = 1
  ∧ fabric_refs (channel_run demo_leave demo_fabric) = []
  ∧ pp_active_pairs (ch_pool (channel_run demo_leave demo_fabric)) = 0.
Proof.
  split; [vm_compute; reflexivity|].
  assert (Hnil : fabric_refs (channel_run demo_leave demo_fabric) = []) by (vm_compute; reflexivity).
  split; [exact Hnil|].
  pose proof (pair_admission_exact true 9 ChannelLimits_default demo_leave) as Hx. cbv zeta in Hx.
  destruct Hx as (_ & _ & _ & _ & _ & Hx). exact (proj1 (Hx Hnil)).
Defined.

Lemma message_reaches_peer_only_witness :
  ∃ f', native_send_message demo_a 5 demo_message
          (channel_run demo_connect (ChannelFabric_new true 9 ChannelLimits_default)) = (Ok (), f')
        ∧ quiet (channel_run demo_connect (ChannelFabric_new true 9 ChannelLimits_default)) f'.
Proof.
  assert (Hex : ∃ f', native_send_message demo_a 5 demo_message
    (channel_run demo_connect (ChannelFabric_new true 9 ChannelLimits_default)) = (Ok (), f')).
  { eexists. vm_compute. reflexivity. }
  destruct Hex as [f' Hs]. exists f'. split; [exact Hs|].
  exact (proj1 (message_reaches_peer_only true 9 ChannelLimits_default demo_connect demo_a 5 demo_message
    (Ok ()) f' Hs)).
Defined.

Lemma unregister_leaves_no_trace_witness :
  ch_native_endpoints (unregister_native_endpoint demo_b (channel_run demo_connect demo_fabric))
  = delete demo_b (ch_native_endpoints (channel_run demo_connect demo_fabric)).
Proof. exact (proj1 (unregister_leaves_no_trace true 9 ChannelLimits_default demo_connect demo_b)). Defined.

Lemma connect_goes_through_witness :
  ∃ f1 f2 info f3 f4,
    native_begin_connect demo_a 1 1 65536 [] (channel_run demo_offer demo_fabric) = (Ok 1, f1)
    ∧ native_prepare_connect demo_b 1 7 65536 4096 f1 = (Ok (), f2)
    ∧ native_complete_connect demo_a 1 5 4096 f2 = (Ok info, f3)
    ∧ native_publish_connect demo_a 1 5 65536 f3 = (Ok (), f4)
    ∧ (native_send_message demo_a 5 demo_message f4).1 = Ok ()
    ∧ (native_send_message demo_b 7 demo_message f4).1 = Ok ().
Proof.
  pose (l := mkListener 1 1 1 demo_b demo_name [] (listener_token 9 1) (demo_sid Byte.x02) true).
  refine (connect_goes_through demo_a 1 l 1 65536 [] 2 0 1
    (reserve_pair ChannelLimits_default PairPool_new demo_a demo_b).2
    7 65536 4096 5 4096 65536 demo_message (channel_run demo_offer demo_fabric)
    _ _ _ _ _ _ _ _ _ _ _ _ _ _ _ _ _ _);
    try (vm_compute; reflexivity); try (vm_compute; discriminate); try (vm_compute; split; congruence).
  - split; [vm_compute; by eexists|]. exists (mkLane [] 8 [] [] true). vm_compute. split_and!; done.
  - split; [vm_compute; by eexists|]. exists (mkLane [] 8 [] [] true). vm_compute. split_and!; done.
Defined.
