(* ===== verification/FamilyLimits.v ===== *)
(** * FamilyLimits: the limits every family advertises in its descriptor
      ([Limits] of [relay.rs], [font.rs], [terminal.rs], [client.rs],
      [surface.rs], [selection.rs], [desktop.rs], [media.rs], [fs.rs], [git.rs],
      [lsp.rs], [kv.rs], [process.rs], [net.rs], [channel.rs], [extension.rs],
      [events.rs], [env.rs])

    Each family has a record, its hard maxima, a validity check and the
    conversions to and from tagged extensions. *)

From stdpp Require Import sorting.
From S2P Require Import Prelude Schema Codec Kv.

(** [value != 0 && value <= maximum] *)
Definition within (value maximum : Z) : bool := negb (value =? 0) && (value <=? maximum).

(** [.any(|(value, maximum)| value == 0 || value > maximum)] *)
Definition any_outside (pairs : list (Z * Z)) : bool :=
  existsb (λ p, (p.1 =? 0) || (p.2 <? p.1)) pairs.

(** The readers a family defines for itself, with its own error texts. *)
Definition read_u32_in (missing length : string) (exts : Extensions) (tag : Z) : result Error Z :=
  e ← ok_or (find_ext exts (as_u16 tag)) (Invalid missing);
  ok_or (le_exact 4 (ext_value e)) (Invalid length).
Definition read_u64_in (missing length : string) (exts : Extensions) (tag : Z) : result Error Z :=
  e ← ok_or (find_ext exts (as_u16 tag)) (Invalid missing);
  ok_or (le_exact 8 (ext_value e)) (Invalid length).

(** ** [relay::Limits] *)

Record relay_Limits := mk_relay_Limits {
  relay_max_routes : Z; relay_max_links_per_session : Z; relay_max_pending_connects : Z;
    relay_max_early_data : Z; relay_connect_timeout_ns : Z; relay_max_buffered_per_link : Z
}.

Definition relay_Limits_HARD : relay_Limits :=
  mk_relay_Limits (as_u32 relay_MAX_ROUTES) (as_u32 relay_MAX_LINKS_PER_SESSION) (as_u32
    relay_MAX_PENDING_CONNECTS) (as_u32 relay_MAX_EARLY_DATA) relay_CONNECT_TIMEOUT_NS
    relay_MAX_BUFFERED_PER_LINK.

Definition relay_Limits_validate (self : relay_Limits) : result Error () :=
  let hard := relay_Limits_HARD in
  reject_if
    (negb (within (relay_max_routes self) (relay_max_routes hard))
      || negb (within (relay_max_links_per_session self) (relay_max_links_per_session hard))
      || negb (within (relay_max_pending_connects self) (relay_max_pending_connects hard))
      || (relay_max_links_per_session self <? relay_max_pending_connects self)
      || (relay_max_early_data hard <? relay_max_early_data self)
      || (relay_connect_timeout_ns self =? 0)
      || (relay_connect_timeout_ns hard <? relay_connect_timeout_ns self)
      || (relay_max_buffered_per_link self =? 0)
      || (relay_max_buffered_per_link hard <? relay_max_buffered_per_link self))
    (Invalid "Relay family limit").

Definition relay_Limits_to_extensions (self : relay_Limits) : result Error Extensions :=
  _ ← relay_Limits_validate self;
  Ok ([limit_u32 relay_LIMIT_MAX_ROUTES (relay_max_routes self);
      limit_u32 relay_LIMIT_MAX_LINKS_PER_SESSION (relay_max_links_per_session self);
      limit_u32 relay_LIMIT_MAX_PENDING_CONNECTS (relay_max_pending_connects self);
      limit_u32 relay_LIMIT_MAX_EARLY_DATA (relay_max_early_data self);
      limit_u64 relay_LIMIT_CONNECT_TIMEOUT_NS (relay_connect_timeout_ns self);
      limit_u64 relay_LIMIT_MAX_BUFFERED_PER_LINK (relay_max_buffered_per_link self)]).

Definition relay_Limits_from_extensions (exts : Extensions) : result Error relay_Limits :=
  _ ← reject_unknown_required_extensions exts
        [as_u16 relay_LIMIT_MAX_ROUTES; as_u16 relay_LIMIT_MAX_LINKS_PER_SESSION; as_u16
          relay_LIMIT_MAX_PENDING_CONNECTS; as_u16 relay_LIMIT_MAX_EARLY_DATA; as_u16
          relay_LIMIT_CONNECT_TIMEOUT_NS; as_u16 relay_LIMIT_MAX_BUFFERED_PER_LINK]
        "unknown required Relay family limit";
  max_routes ← read_limit_u32 exts relay_LIMIT_MAX_ROUTES;
  max_links_per_session ← read_limit_u32 exts relay_LIMIT_MAX_LINKS_PER_SESSION;
  max_pending_connects ← read_limit_u32 exts relay_LIMIT_MAX_PENDING_CONNECTS;
  max_early_data ← read_limit_u32 exts relay_LIMIT_MAX_EARLY_DATA;
  connect_timeout_ns ← read_limit_u64 exts relay_LIMIT_CONNECT_TIMEOUT_NS;
  max_buffered_per_link ← read_limit_u64 exts relay_LIMIT_MAX_BUFFERED_PER_LINK;
  let self := mk_relay_Limits max_routes max_links_per_session max_pending_connects max_early_data
    connect_timeout_ns max_buffered_per_link in
  _ ← relay_Limits_validate self;
  Ok self.

(** ** [font::Limits] *)

Record font_Limits := mk_font_Limits {
  font_max_families : Z; font_max_faces_per_family : Z; font_max_description_bytes : Z;
    font_max_face_bytes : Z; font_max_concurrent_fetches : Z; font_max_scan_duration_ns : Z;
    font_refresh_interval_ns : Z
}.

Definition font_Limits_HARD : font_Limits :=
  mk_font_Limits (as_u32 font_MAX_FAMILIES) (as_u32 font_MAX_FACES_PER_FAMILY)
    font_MAX_DESCRIPTION_BYTES font_MAX_FACE_BYTES (as_u32 font_MAX_CONCURRENT_FETCHES)
    font_MAX_SCAN_DURATION_NS font_MAX_REFRESH_INTERVAL_NS.

Definition font_Limits_validate (self : font_Limits) : result Error () :=
  let hard := font_Limits_HARD in
  reject_if
    (negb (within (font_max_families self) (font_max_families hard))
      || negb (within (font_max_faces_per_family self) (font_max_faces_per_family hard))
      || (font_max_description_bytes self =? 0)
      || (font_max_description_bytes hard <? font_max_description_bytes self)
      || (font_max_face_bytes self =? 0)
      || (font_max_face_bytes hard <? font_max_face_bytes self)
      || negb (within (font_max_concurrent_fetches self) (font_max_concurrent_fetches hard))
      || (font_max_scan_duration_ns self =? 0)
      || (font_max_scan_duration_ns hard <? font_max_scan_duration_ns self)
      || (font_refresh_interval_ns hard <? font_refresh_interval_ns self))
    (Invalid "Font family limit").

Definition font_Limits_to_extensions (self : font_Limits) : result Error Extensions :=
  _ ← font_Limits_validate self;
  Ok ([limit_u32 font_LIMIT_MAX_FAMILIES (font_max_families self);
      limit_u32 font_LIMIT_MAX_FACES_PER_FAMILY (font_max_faces_per_family self);
      limit_u64 font_LIMIT_MAX_DESCRIPTION_BYTES (font_max_description_bytes self);
      limit_u64 font_LIMIT_MAX_FACE_BYTES (font_max_face_bytes self);
      limit_u32 font_LIMIT_MAX_CONCURRENT_FETCHES (font_max_concurrent_fetches self);
      limit_u64 font_LIMIT_MAX_SCAN_DURATION_NS (font_max_scan_duration_ns self);
      limit_u64 font_LIMIT_REFRESH_INTERVAL_NS (font_refresh_interval_ns self)]).

Definition font_Limits_from_extensions (exts : Extensions) : result Error font_Limits :=
  _ ← reject_unknown_required_extensions exts
        [as_u16 font_LIMIT_MAX_FAMILIES; as_u16 font_LIMIT_MAX_FACES_PER_FAMILY; as_u16
          font_LIMIT_MAX_DESCRIPTION_BYTES; as_u16 font_LIMIT_MAX_FACE_BYTES; as_u16
          font_LIMIT_MAX_CONCURRENT_FETCHES; as_u16 font_LIMIT_MAX_SCAN_DURATION_NS; as_u16
          font_LIMIT_REFRESH_INTERVAL_NS]
        "unknown required Font family limit";
  max_families ← read_limit_u32 exts font_LIMIT_MAX_FAMILIES;
  max_faces_per_family ← read_limit_u32 exts font_LIMIT_MAX_FACES_PER_FAMILY;
  max_description_bytes ← read_limit_u64 exts font_LIMIT_MAX_DESCRIPTION_BYTES;
  max_face_bytes ← read_limit_u64 exts font_LIMIT_MAX_FACE_BYTES;
  max_concurrent_fetches ← read_limit_u32 exts font_LIMIT_MAX_CONCURRENT_FETCHES;
  max_scan_duration_ns ← read_limit_u64 exts font_LIMIT_MAX_SCAN_DURATION_NS;
  refresh_interval_ns ← read_limit_u64 exts font_LIMIT_REFRESH_INTERVAL_NS;
  let self := mk_font_Limits max_families max_faces_per_family max_description_bytes
    max_face_bytes max_concurrent_fetches max_scan_duration_ns refresh_interval_ns in
  _ ← font_Limits_validate self;
  Ok self.

(** ** [terminal::Limits] *)

Record terminal_Limits := mk_terminal_Limits {
  terminal_max_terminals_per_session : Z; terminal_max_views_per_session : Z;
    terminal_max_view_rows : Z; terminal_max_view_cols : Z; terminal_max_input_bytes : Z;
    terminal_max_inline_query_bytes : Z; terminal_max_query_records : Z;
    terminal_max_hyperlink_uri_bytes : Z
}.

Definition terminal_Limits_HARD : terminal_Limits :=
  mk_terminal_Limits (as_u32 terminal_MAX_TERMINALS_PER_SESSION) (as_u32
    terminal_MAX_VIEWS_PER_SESSION) (as_u32 terminal_MAX_VIEW_ROWS) (as_u32 terminal_MAX_VIEW_COLS)
    (as_u32 terminal_MAX_INPUT_BYTES) (as_u32 terminal_MAX_INLINE_QUERY_BYTES) (as_u32
    terminal_MAX_QUERY_RECORDS) (as_u32 terminal_MAX_HYPERLINK_URI_BYTES).

Definition terminal_Limits_validate (self : terminal_Limits) : result Error () :=
  let hard := terminal_Limits_HARD in
  reject_if
    (negb (within (terminal_max_terminals_per_session self) (terminal_max_terminals_per_session hard))
      || negb (within (terminal_max_views_per_session self) (terminal_max_views_per_session hard))
      || negb (within (terminal_max_view_rows self) (terminal_max_view_rows hard))
      || negb (within (terminal_max_view_cols self) (terminal_max_view_cols hard))
      || negb (within (terminal_max_input_bytes self) (terminal_max_input_bytes hard))
      || negb (within (terminal_max_inline_query_bytes self) (terminal_max_inline_query_bytes hard))
      || negb (within (terminal_max_query_records self) (terminal_max_query_records hard))
      || negb (within (terminal_max_hyperlink_uri_bytes self) (terminal_max_hyperlink_uri_bytes hard)))
    (Invalid "Terminal family limit").

Definition terminal_Limits_to_extensions (self : terminal_Limits) : result Error Extensions :=
  _ ← terminal_Limits_validate self;
  Ok ([limit_u32 terminal_LIMIT_MAX_TERMINALS_PER_SESSION (terminal_max_terminals_per_session self);
      limit_u32 terminal_LIMIT_MAX_VIEWS_PER_SESSION (terminal_max_views_per_session self);
      limit_u32 terminal_LIMIT_MAX_VIEW_ROWS (terminal_max_view_rows self);
      limit_u32 terminal_LIMIT_MAX_VIEW_COLS (terminal_max_view_cols self);
      limit_u32 terminal_LIMIT_MAX_INPUT_BYTES (terminal_max_input_bytes self);
      limit_u32 terminal_LIMIT_MAX_INLINE_QUERY_BYTES (terminal_max_inline_query_bytes self);
      limit_u32 terminal_LIMIT_MAX_QUERY_RECORDS (terminal_max_query_records self);
      limit_u32 terminal_LIMIT_MAX_HYPERLINK_URI_BYTES (terminal_max_hyperlink_uri_bytes self)]).

Definition terminal_Limits_from_extensions (exts : Extensions) : result Error terminal_Limits :=
  _ ← reject_unknown_required_extensions exts
        [as_u16 terminal_LIMIT_MAX_TERMINALS_PER_SESSION; as_u16
          terminal_LIMIT_MAX_VIEWS_PER_SESSION; as_u16 terminal_LIMIT_MAX_VIEW_ROWS; as_u16
          terminal_LIMIT_MAX_VIEW_COLS; as_u16 terminal_LIMIT_MAX_INPUT_BYTES; as_u16
          terminal_LIMIT_MAX_INLINE_QUERY_BYTES; as_u16 terminal_LIMIT_MAX_QUERY_RECORDS; as_u16
          terminal_LIMIT_MAX_HYPERLINK_URI_BYTES]
        "unknown required Terminal family limit";
  max_terminals_per_session ← read_limit_u32 exts terminal_LIMIT_MAX_TERMINALS_PER_SESSION;
  max_views_per_session ← read_limit_u32 exts terminal_LIMIT_MAX_VIEWS_PER_SESSION;
  max_view_rows ← read_limit_u32 exts terminal_LIMIT_MAX_VIEW_ROWS;
  max_view_cols ← read_limit_u32 exts terminal_LIMIT_MAX_VIEW_COLS;
  max_input_bytes ← read_limit_u32 exts terminal_LIMIT_MAX_INPUT_BYTES;
  max_inline_query_bytes ← read_limit_u32 exts terminal_LIMIT_MAX_INLINE_QUERY_BYTES;
  max_query_records ← read_limit_u32 exts terminal_LIMIT_MAX_QUERY_RECORDS;
  max_hyperlink_uri_bytes ← read_limit_u32 exts terminal_LIMIT_MAX_HYPERLINK_URI_BYTES;
  let self := mk_terminal_Limits max_terminals_per_session max_views_per_session max_view_rows
    max_view_cols max_input_bytes max_inline_query_bytes max_query_records max_hyperlink_uri_bytes
    in
  _ ← terminal_Limits_validate self;
  Ok self.

(** ** [client::Limits] *)

Record client_Limits := mk_client_Limits {
  client_max_published_clients : Z; client_max_active_subscriptions : Z
}.

Definition client_Limits_HARD : client_Limits :=
  mk_client_Limits (as_u32 client_MAX_PUBLISHED_CLIENTS) (as_u32 client_MAX_ACTIVE_SUBSCRIPTIONS).

Definition client_Limits_validate (self : client_Limits) : result Error () :=
  let hard := client_Limits_HARD in
  reject_if
    ((client_max_published_clients self =? 0)
      || (client_max_published_clients hard <? client_max_published_clients self)
      || (client_max_active_subscriptions self =? 0)
      || (client_max_active_subscriptions hard <? client_max_active_subscriptions self))
    (Invalid "Client family limit").

Definition client_Limits_to_extensions (self : client_Limits) : result Error Extensions :=
  _ ← client_Limits_validate self;
  Ok ([limit_u32 client_LIMIT_MAX_PUBLISHED_CLIENTS (client_max_published_clients self);
      limit_u32 client_LIMIT_MAX_ACTIVE_SUBSCRIPTIONS (client_max_active_subscriptions self)]).

Definition client_Limits_from_extensions (exts : Extensions) : result Error client_Limits :=
  _ ← reject_unknown_required_extensions exts
        [as_u16 client_LIMIT_MAX_PUBLISHED_CLIENTS; as_u16 client_LIMIT_MAX_ACTIVE_SUBSCRIPTIONS]
        "unknown required Client family limit";
  max_published_clients ← read_limit_u32 exts client_LIMIT_MAX_PUBLISHED_CLIENTS;
  max_active_subscriptions ← read_limit_u32 exts client_LIMIT_MAX_ACTIVE_SUBSCRIPTIONS;
  let self := mk_client_Limits max_published_clients max_active_subscriptions in
  _ ← client_Limits_validate self;
  Ok self.

(** ** [surface::Limits] *)

Record surface_Limits := mk_surface_Limits {
  surface_max_surfaces_per_session : Z; surface_max_views_per_session : Z;
    surface_max_view_dimension : Z; surface_max_view_pixels : Z; surface_max_frame_rate : Z;
    surface_max_inline_cursor_bytes : Z; surface_max_remote_contacts : Z;
    surface_max_app_endpoints_per_session : Z; surface_max_app_endpoint_lifetime_ns : Z
}.

Definition surface_Limits_HARD : surface_Limits :=
  mk_surface_Limits (as_u32 surface_MAX_SURFACES_PER_SESSION) (as_u32
    surface_MAX_VIEWS_PER_SESSION) (as_u32 surface_MAX_VIEW_DIMENSION) surface_MAX_VIEW_PIXELS
    (as_u32 surface_MAX_FRAME_RATE) (as_u32 surface_MAX_INLINE_CURSOR_BYTES) (as_u32
    surface_MAX_REMOTE_CONTACTS) (as_u32 surface_MAX_APP_ENDPOINTS_PER_SESSION)
    surface_MAX_APP_ENDPOINT_LIFETIME_NS.

Definition surface_Limits_validate (self : surface_Limits) : result Error () :=
  let hard := surface_Limits_HARD in
  reject_if
    (negb (within (surface_max_surfaces_per_session self) (surface_max_surfaces_per_session hard))
      || negb (within (surface_max_views_per_session self) (surface_max_views_per_session hard))
      || negb (within (surface_max_view_dimension self) (surface_max_view_dimension hard))
      || (surface_max_view_pixels self =? 0)
      || (surface_max_view_pixels hard <? surface_max_view_pixels self)
      || negb (within (surface_max_frame_rate self) (surface_max_frame_rate hard))
      || negb (within (surface_max_inline_cursor_bytes self) (surface_max_inline_cursor_bytes hard))
      || negb (within (surface_max_remote_contacts self) (surface_max_remote_contacts hard))
      || negb (within (surface_max_app_endpoints_per_session self)
        (surface_max_app_endpoints_per_session hard))
      || (surface_max_app_endpoint_lifetime_ns self =? 0)
      || (surface_max_app_endpoint_lifetime_ns hard <? surface_max_app_endpoint_lifetime_ns self))
    (Invalid "Surface family limit").

Definition surface_Limits_to_extensions (self : surface_Limits) : result Error Extensions :=
  _ ← surface_Limits_validate self;
  Ok ([limit_u32 surface_LIMIT_MAX_SURFACES_PER_SESSION (surface_max_surfaces_per_session self);
      limit_u32 surface_LIMIT_MAX_VIEWS_PER_SESSION (surface_max_views_per_session self);
      limit_u32 surface_LIMIT_MAX_VIEW_DIMENSION (surface_max_view_dimension self);
      limit_u64 surface_LIMIT_MAX_VIEW_PIXELS (surface_max_view_pixels self);
      limit_u32 surface_LIMIT_MAX_FRAME_RATE (surface_max_frame_rate self);
      limit_u32 surface_LIMIT_MAX_INLINE_CURSOR_BYTES (surface_max_inline_cursor_bytes self);
      limit_u32 surface_LIMIT_MAX_REMOTE_CONTACTS (surface_max_remote_contacts self);
      limit_u32 surface_LIMIT_MAX_APP_ENDPOINTS_PER_SESSION (surface_max_app_endpoints_per_session
        self);
      limit_u64 surface_LIMIT_MAX_APP_ENDPOINT_LIFETIME_NS (surface_max_app_endpoint_lifetime_ns
        self)]).

Definition surface_Limits_from_extensions (exts : Extensions) : result Error surface_Limits :=
  _ ← reject_unknown_required_extensions exts
        [as_u16 surface_LIMIT_MAX_SURFACES_PER_SESSION; as_u16
          surface_LIMIT_MAX_VIEWS_PER_SESSION; as_u16 surface_LIMIT_MAX_VIEW_DIMENSION; as_u16
          surface_LIMIT_MAX_VIEW_PIXELS; as_u16 surface_LIMIT_MAX_FRAME_RATE; as_u16
          surface_LIMIT_MAX_INLINE_CURSOR_BYTES; as_u16 surface_LIMIT_MAX_REMOTE_CONTACTS; as_u16
          surface_LIMIT_MAX_APP_ENDPOINTS_PER_SESSION; as_u16
          surface_LIMIT_MAX_APP_ENDPOINT_LIFETIME_NS]
        "unknown required Surface family limit";
  max_surfaces_per_session ← read_limit_u32 exts surface_LIMIT_MAX_SURFACES_PER_SESSION;
  max_views_per_session ← read_limit_u32 exts surface_LIMIT_MAX_VIEWS_PER_SESSION;
  max_view_dimension ← read_limit_u32 exts surface_LIMIT_MAX_VIEW_DIMENSION;
  max_view_pixels ← read_limit_u64 exts surface_LIMIT_MAX_VIEW_PIXELS;
  max_frame_rate ← read_limit_u32 exts surface_LIMIT_MAX_FRAME_RATE;
  max_inline_cursor_bytes ← read_limit_u32 exts surface_LIMIT_MAX_INLINE_CURSOR_BYTES;
  max_remote_contacts ← read_limit_u32 exts surface_LIMIT_MAX_REMOTE_CONTACTS;
  max_app_endpoints_per_session ← read_limit_u32 exts surface_LIMIT_MAX_APP_ENDPOINTS_PER_SESSION;
  max_app_endpoint_lifetime_ns ← read_limit_u64 exts surface_LIMIT_MAX_APP_ENDPOINT_LIFETIME_NS;
  let self := mk_surface_Limits max_surfaces_per_session max_views_per_session max_view_dimension
    max_view_pixels max_frame_rate max_inline_cursor_bytes max_remote_contacts
    max_app_endpoints_per_session max_app_endpoint_lifetime_ns in
  _ ← surface_Limits_validate self;
  Ok self.

(** ** [selection::Limits] *)

Record selection_Limits := mk_selection_Limits {
  selection_max_inline_bytes : Z; selection_max_items : Z; selection_max_mime_bytes : Z;
    selection_max_item_name_bytes : Z; selection_max_active_drags_per_session : Z;
    selection_max_stages_per_session : Z; selection_max_staged_bytes_per_stage : Z;
    selection_max_mutation_replays : Z
}.

Definition selection_Limits_HARD : selection_Limits :=
  mk_selection_Limits (as_u32 selection_MAX_INLINE_BYTES) (as_u32 selection_MAX_ITEMS) (as_u32
    selection_MAX_MIME_BYTES) (as_u32 selection_MAX_ITEM_NAME_BYTES) (as_u32
    selection_MAX_ACTIVE_DRAGS_PER_SESSION) (as_u32 selection_MAX_STAGES_PER_SESSION)
    selection_MAX_STAGED_BYTES_PER_STAGE (as_u32 selection_MAX_MUTATION_REPLAYS).

Definition selection_Limits_validate (self : selection_Limits) : result Error () :=
  let hard := selection_Limits_HARD in
  reject_if
    (negb (within (selection_max_inline_bytes self) (selection_max_inline_bytes hard))
      || negb (within (selection_max_items self) (selection_max_items hard))
      || negb (within (selection_max_mime_bytes self) (selection_max_mime_bytes hard))
      || negb (within (selection_max_item_name_bytes self) (selection_max_item_name_bytes hard))
      || negb (within (selection_max_active_drags_per_session self)
        (selection_max_active_drags_per_session hard))
      || negb (within (selection_max_stages_per_session self) (selection_max_stages_per_session hard))
      || (selection_max_staged_bytes_per_stage self =? 0)
      || (selection_max_staged_bytes_per_stage hard <? selection_max_staged_bytes_per_stage self)
      || negb (within (selection_max_mutation_replays self) (selection_max_mutation_replays hard)))
    (Invalid "Selection family limit").

Definition selection_Limits_to_extensions (self : selection_Limits) : result Error Extensions :=
  _ ← selection_Limits_validate self;
  Ok ([limit_u32 selection_LIMIT_MAX_INLINE_BYTES (selection_max_inline_bytes self);
      limit_u32 selection_LIMIT_MAX_ITEMS (selection_max_items self);
      limit_u32 selection_LIMIT_MAX_MIME_BYTES (selection_max_mime_bytes self);
      limit_u32 selection_LIMIT_MAX_ITEM_NAME_BYTES (selection_max_item_name_bytes self);
      limit_u32 selection_LIMIT_MAX_ACTIVE_DRAGS_PER_SESSION
        (selection_max_active_drags_per_session self);
      limit_u32 selection_LIMIT_MAX_STAGES_PER_SESSION (selection_max_stages_per_session self);
      limit_u64 selection_LIMIT_MAX_STAGED_BYTES_PER_STAGE (selection_max_staged_bytes_per_stage self);
      limit_u32 selection_LIMIT_MAX_MUTATION_REPLAYS (selection_max_mutation_replays self)]).

Definition selection_Limits_from_extensions (exts : Extensions) : result Error selection_Limits :=
  _ ← reject_unknown_required_extensions exts
        [as_u16 selection_LIMIT_MAX_INLINE_BYTES; as_u16 selection_LIMIT_MAX_ITEMS; as_u16
          selection_LIMIT_MAX_MIME_BYTES; as_u16 selection_LIMIT_MAX_ITEM_NAME_BYTES; as_u16
          selection_LIMIT_MAX_ACTIVE_DRAGS_PER_SESSION; as_u16
          selection_LIMIT_MAX_STAGES_PER_SESSION; as_u16 selection_LIMIT_MAX_STAGED_BYTES_PER_STAGE;
          as_u16 selection_LIMIT_MAX_MUTATION_REPLAYS]
        "unknown required Selection family limit";
  max_inline_bytes ← read_limit_u32 exts selection_LIMIT_MAX_INLINE_BYTES;
  max_items ← read_limit_u32 exts selection_LIMIT_MAX_ITEMS;
  max_mime_bytes ← read_limit_u32 exts selection_LIMIT_MAX_MIME_BYTES;
  max_item_name_bytes ← read_limit_u32 exts selection_LIMIT_MAX_ITEM_NAME_BYTES;
  max_active_drags_per_session ← read_limit_u32 exts selection_LIMIT_MAX_ACTIVE_DRAGS_PER_SESSION;
  max_stages_per_session ← read_limit_u32 exts selection_LIMIT_MAX_STAGES_PER_SESSION;
  max_staged_bytes_per_stage ← read_limit_u64 exts selection_LIMIT_MAX_STAGED_BYTES_PER_STAGE;
  max_mutation_replays ← read_limit_u32 exts selection_LIMIT_MAX_MUTATION_REPLAYS;
  let self := mk_selection_Limits max_inline_bytes max_items max_mime_bytes max_item_name_bytes
    max_active_drags_per_session max_stages_per_session max_staged_bytes_per_stage
    max_mutation_replays in
  _ ← selection_Limits_validate self;
  Ok self.

(** ** [desktop::Limits] *)

Record desktop_Limits := mk_desktop_Limits {
  desktop_max_tray_items : Z; desktop_max_notifications : Z; desktop_max_menu_nodes : Z;
    desktop_max_notification_actions : Z; desktop_max_inline_menu_bytes : Z;
    desktop_max_inline_asset_bytes : Z
}.

Definition desktop_Limits_HARD : desktop_Limits :=
  mk_desktop_Limits (as_u32 desktop_MAX_TRAY_ITEMS) (as_u32 desktop_MAX_NOTIFICATIONS) (as_u32
    desktop_MAX_MENU_NODES) (as_u32 desktop_MAX_NOTIFICATION_ACTIONS) (as_u32
    desktop_MAX_INLINE_MENU_BYTES) (as_u32 desktop_MAX_INLINE_ASSET_BYTES).

Definition desktop_Limits_validate (self : desktop_Limits) : result Error () :=
  let hard := desktop_Limits_HARD in
  reject_if
    (negb (within (desktop_max_tray_items self) (desktop_max_tray_items hard))
      || negb (within (desktop_max_notifications self) (desktop_max_notifications hard))
      || negb (within (desktop_max_menu_nodes self) (desktop_max_menu_nodes hard))
      || negb (within (desktop_max_notification_actions self) (desktop_max_notification_actions hard))
      || negb (within (desktop_max_inline_menu_bytes self) (desktop_max_inline_menu_bytes hard))
      || negb (within (desktop_max_inline_asset_bytes self) (desktop_max_inline_asset_bytes hard)))
    (Invalid "Desktop family limit").

Definition desktop_Limits_to_extensions (self : desktop_Limits) : result Error Extensions :=
  _ ← desktop_Limits_validate self;
  Ok ([limit_u32 desktop_LIMIT_MAX_TRAY_ITEMS (desktop_max_tray_items self);
      limit_u32 desktop_LIMIT_MAX_NOTIFICATIONS (desktop_max_notifications self);
      limit_u32 desktop_LIMIT_MAX_MENU_NODES (desktop_max_menu_nodes self);
      limit_u32 desktop_LIMIT_MAX_NOTIFICATION_ACTIONS (desktop_max_notification_actions self);
      limit_u32 desktop_LIMIT_MAX_INLINE_MENU_BYTES (desktop_max_inline_menu_bytes self);
      limit_u32 desktop_LIMIT_MAX_INLINE_ASSET_BYTES (desktop_max_inline_asset_bytes self)]).

Definition desktop_Limits_from_extensions (exts : Extensions) : result Error desktop_Limits :=
  _ ← reject_unknown_required_extensions exts
        [as_u16 desktop_LIMIT_MAX_TRAY_ITEMS; as_u16 desktop_LIMIT_MAX_NOTIFICATIONS; as_u16
          desktop_LIMIT_MAX_MENU_NODES; as_u16 desktop_LIMIT_MAX_NOTIFICATION_ACTIONS; as_u16
          desktop_LIMIT_MAX_INLINE_MENU_BYTES; as_u16 desktop_LIMIT_MAX_INLINE_ASSET_BYTES]
        "unknown required Desktop family limit";
  max_tray_items ← read_limit_u32 exts desktop_LIMIT_MAX_TRAY_ITEMS;
  max_notifications ← read_limit_u32 exts desktop_LIMIT_MAX_NOTIFICATIONS;
  max_menu_nodes ← read_limit_u32 exts desktop_LIMIT_MAX_MENU_NODES;
  max_notification_actions ← read_limit_u32 exts desktop_LIMIT_MAX_NOTIFICATION_ACTIONS;
  max_inline_menu_bytes ← read_limit_u32 exts desktop_LIMIT_MAX_INLINE_MENU_BYTES;
  max_inline_asset_bytes ← read_limit_u32 exts desktop_LIMIT_MAX_INLINE_ASSET_BYTES;
  let self := mk_desktop_Limits max_tray_items max_notifications max_menu_nodes
    max_notification_actions max_inline_menu_bytes max_inline_asset_bytes in
  _ ← desktop_Limits_validate self;
  Ok self.

(** ** [media::Limits] *)

Record media_Limits := mk_media_Limits {
  media_max_devices : Z; media_max_leases_per_session : Z; media_max_streams_per_session : Z;
    media_max_portals_per_session : Z; media_max_players : Z; media_max_formats : Z;
    media_max_inline_metadata_bytes : Z; media_max_inline_asset_bytes : Z;
    media_max_portal_metadata_bytes : Z; media_max_portal_string_bytes : Z;
    media_max_portal_body_bytes : Z; media_max_portal_choices : Z; media_max_portal_choice_options :
    Z; media_max_screencast_candidates : Z
}.

Definition media_Limits_HARD : media_Limits :=
  mk_media_Limits (as_u32 media_MAX_DEVICES) (as_u32 media_MAX_LEASES_PER_SESSION) (as_u32
    media_MAX_STREAMS_PER_SESSION) (as_u32 media_MAX_PORTALS_PER_SESSION) (as_u32 media_MAX_PLAYERS)
    (as_u32 media_MAX_FORMATS) (as_u32 media_MAX_INLINE_METADATA_BYTES) (as_u32
    media_MAX_INLINE_ASSET_BYTES) (as_u32 media_MAX_PORTAL_METADATA_BYTES) (as_u32
    media_MAX_PORTAL_STRING_BYTES) (as_u32 media_MAX_PORTAL_BODY_BYTES) (as_u32
    media_MAX_PORTAL_CHOICES) (as_u32 media_MAX_PORTAL_CHOICE_OPTIONS) (as_u32
    media_MAX_SCREENCAST_CANDIDATES).

Definition media_Limits_validate (self : media_Limits) : result Error () :=
  let hard := media_Limits_HARD in
  reject_if
    (any_outside [(media_max_devices self, media_max_devices hard); (media_max_leases_per_session
      self, media_max_leases_per_session hard); (media_max_streams_per_session self,
      media_max_streams_per_session hard); (media_max_portals_per_session self,
      media_max_portals_per_session hard); (media_max_players self, media_max_players hard);
      (media_max_formats self, media_max_formats hard); (media_max_inline_metadata_bytes self,
      media_max_inline_metadata_bytes hard); (media_max_inline_asset_bytes self,
      media_max_inline_asset_bytes hard); (media_max_portal_metadata_bytes self,
      media_max_portal_metadata_bytes hard); (media_max_portal_string_bytes self,
      media_max_portal_string_bytes hard); (media_max_portal_body_bytes self,
      media_max_portal_body_bytes hard); (media_max_portal_choices self, media_max_portal_choices
      hard); (media_max_portal_choice_options self, media_max_portal_choice_options hard);
      (media_max_screencast_candidates self, media_max_screencast_candidates hard)])
    (Invalid "Media family limit").

Definition media_Limits_to_extensions (self : media_Limits) : result Error Extensions :=
  _ ← media_Limits_validate self;
  Ok ([limit_u32 media_LIMIT_MAX_DEVICES (media_max_devices self);
      limit_u32 media_LIMIT_MAX_LEASES_PER_SESSION (media_max_leases_per_session self);
      limit_u32 media_LIMIT_MAX_STREAMS_PER_SESSION (media_max_streams_per_session self);
      limit_u32 media_LIMIT_MAX_PORTALS_PER_SESSION (media_max_portals_per_session self);
      limit_u32 media_LIMIT_MAX_PLAYERS (media_max_players self);
      limit_u32 media_LIMIT_MAX_FORMATS (media_max_formats self);
      limit_u32 media_LIMIT_MAX_INLINE_METADATA_BYTES (media_max_inline_metadata_bytes self);
      limit_u32 media_LIMIT_MAX_INLINE_ASSET_BYTES (media_max_inline_asset_bytes self);
      limit_u32 media_LIMIT_MAX_PORTAL_METADATA_BYTES (media_max_portal_metadata_bytes self);
      limit_u32 media_LIMIT_MAX_PORTAL_STRING_BYTES (media_max_portal_string_bytes self);
      limit_u32 media_LIMIT_MAX_PORTAL_BODY_BYTES (media_max_portal_body_bytes self);
      limit_u32 media_LIMIT_MAX_PORTAL_CHOICES (media_max_portal_choices self);
      limit_u32 media_LIMIT_MAX_PORTAL_CHOICE_OPTIONS (media_max_portal_choice_options self);
      limit_u32 media_LIMIT_MAX_SCREENCAST_CANDIDATES (media_max_screencast_candidates self)]).

Definition media_Limits_from_extensions (exts : Extensions) : result Error media_Limits :=
  _ ← reject_unknown_required_extensions exts
        [as_u16 media_LIMIT_MAX_DEVICES; as_u16 media_LIMIT_MAX_LEASES_PER_SESSION; as_u16
          media_LIMIT_MAX_STREAMS_PER_SESSION; as_u16 media_LIMIT_MAX_PORTALS_PER_SESSION; as_u16
          media_LIMIT_MAX_PLAYERS; as_u16 media_LIMIT_MAX_FORMATS; as_u16
          media_LIMIT_MAX_INLINE_METADATA_BYTES; as_u16 media_LIMIT_MAX_INLINE_ASSET_BYTES; as_u16
          media_LIMIT_MAX_PORTAL_METADATA_BYTES; as_u16 media_LIMIT_MAX_PORTAL_STRING_BYTES; as_u16
          media_LIMIT_MAX_PORTAL_BODY_BYTES; as_u16 media_LIMIT_MAX_PORTAL_CHOICES; as_u16
          media_LIMIT_MAX_PORTAL_CHOICE_OPTIONS; as_u16 media_LIMIT_MAX_SCREENCAST_CANDIDATES]
        "unknown required Media family limit";
  max_devices ← read_limit_u32 exts media_LIMIT_MAX_DEVICES;
  max_leases_per_session ← read_limit_u32 exts media_LIMIT_MAX_LEASES_PER_SESSION;
  max_streams_per_session ← read_limit_u32 exts media_LIMIT_MAX_STREAMS_PER_SESSION;
  max_portals_per_session ← read_limit_u32 exts media_LIMIT_MAX_PORTALS_PER_SESSION;
  max_players ← read_limit_u32 exts media_LIMIT_MAX_PLAYERS;
  max_formats ← read_limit_u32 exts media_LIMIT_MAX_FORMATS;
  max_inline_metadata_bytes ← read_limit_u32 exts media_LIMIT_MAX_INLINE_METADATA_BYTES;
  max_inline_asset_bytes ← read_limit_u32 exts media_LIMIT_MAX_INLINE_ASSET_BYTES;
  max_portal_metadata_bytes ← read_limit_u32 exts media_LIMIT_MAX_PORTAL_METADATA_BYTES;
  max_portal_string_bytes ← read_limit_u32 exts media_LIMIT_MAX_PORTAL_STRING_BYTES;
  max_portal_body_bytes ← read_limit_u32 exts media_LIMIT_MAX_PORTAL_BODY_BYTES;
  max_portal_choices ← read_limit_u32 exts media_LIMIT_MAX_PORTAL_CHOICES;
  max_portal_choice_options ← read_limit_u32 exts media_LIMIT_MAX_PORTAL_CHOICE_OPTIONS;
  max_screencast_candidates ← read_limit_u32 exts media_LIMIT_MAX_SCREENCAST_CANDIDATES;
  let self := mk_media_Limits max_devices max_leases_per_session max_streams_per_session
    max_portals_per_session max_players max_formats max_inline_metadata_bytes max_inline_asset_bytes
    max_portal_metadata_bytes max_portal_string_bytes max_portal_body_bytes max_portal_choices
    max_portal_choice_options max_screencast_candidates in
  _ ← media_Limits_validate self;
  Ok self.

(** ** [fs::Limits] *)

Record fs_Limits := mk_fs_Limits {
  fs_max_roots_per_session : Z; fs_max_watches_per_root : Z; fs_max_path_components : Z;
    fs_max_component_bytes : Z; fs_max_path_bytes : Z; fs_max_inline_bytes : Z; fs_max_query_records
    : Z; fs_max_query_bytes : Z; fs_max_stages_per_session : Z; fs_max_staged_bytes : Z;
    fs_max_batch_items : Z; fs_max_query_concurrency : Z; fs_max_catalog_entries : Z;
    fs_capabilities : Z
}.

Definition fs_Limits_HARD : fs_Limits :=
  mk_fs_Limits (as_u32 fs_MAX_ROOTS_PER_SESSION) (as_u32 fs_MAX_WATCHES_PER_ROOT) (as_u32
    fs_MAX_PATH_COMPONENTS) (as_u32 fs_MAX_COMPONENT_BYTES) (as_u32 fs_MAX_PATH_BYTES) (as_u32
    fs_MAX_INLINE_BYTES) (as_u32 fs_MAX_QUERY_RECORDS) (as_u32 fs_MAX_QUERY_BYTES) (as_u32
    fs_MAX_STAGES_PER_SESSION) fs_MAX_STAGED_BYTES (as_u32 fs_MAX_BATCH_ITEMS) (as_u32
    fs_MAX_QUERY_CONCURRENCY) (as_u32 fs_MAX_CATALOG_ENTRIES) (as_u32 fs_CAPABILITY_FLAGS).

Definition fs_Limits_validate (self : fs_Limits) : result Error () :=
  let hard := fs_Limits_HARD in
  reject_if
    (any_outside [(fs_max_roots_per_session self, fs_max_roots_per_session hard);
      (fs_max_watches_per_root self, fs_max_watches_per_root hard); (fs_max_path_components self,
      fs_max_path_components hard); (fs_max_component_bytes self, fs_max_component_bytes hard);
      (fs_max_path_bytes self, fs_max_path_bytes hard); (fs_max_inline_bytes self,
      fs_max_inline_bytes hard); (fs_max_query_records self, fs_max_query_records hard);
      (fs_max_query_bytes self, fs_max_query_bytes hard); (fs_max_stages_per_session self,
      fs_max_stages_per_session hard); (fs_max_batch_items self, fs_max_batch_items hard);
      (fs_max_query_concurrency self, fs_max_query_concurrency hard); (fs_max_catalog_entries self,
      fs_max_catalog_entries hard)]
      || (fs_max_staged_bytes self =? 0)
      || (fs_max_staged_bytes hard <? fs_max_staged_bytes self))
    (Invalid "FS family limit").

Definition fs_Limits_to_extensions (self : fs_Limits) : result Error Extensions :=
  _ ← fs_Limits_validate self;
  Ok ([limit_u32 fs_LIMIT_MAX_ROOTS_PER_SESSION (fs_max_roots_per_session self);
      limit_u32 fs_LIMIT_MAX_WATCHES_PER_ROOT (fs_max_watches_per_root self);
      limit_u32 fs_LIMIT_MAX_PATH_COMPONENTS (fs_max_path_components self);
      limit_u32 fs_LIMIT_MAX_COMPONENT_BYTES (fs_max_component_bytes self);
      limit_u32 fs_LIMIT_MAX_PATH_BYTES (fs_max_path_bytes self);
      limit_u32 fs_LIMIT_MAX_INLINE_BYTES (fs_max_inline_bytes self);
      limit_u32 fs_LIMIT_MAX_QUERY_RECORDS (fs_max_query_records self);
      limit_u32 fs_LIMIT_MAX_QUERY_BYTES (fs_max_query_bytes self);
      limit_u32 fs_LIMIT_MAX_STAGES_PER_SESSION (fs_max_stages_per_session self);
      limit_u64 fs_LIMIT_MAX_STAGED_BYTES (fs_max_staged_bytes self);
      limit_u32 fs_LIMIT_MAX_BATCH_ITEMS (fs_max_batch_items self);
      limit_u32 fs_LIMIT_MAX_QUERY_CONCURRENCY (fs_max_query_concurrency self);
      limit_u32 fs_LIMIT_MAX_CATALOG_ENTRIES (fs_max_catalog_entries self)]
     ++ (if negb (fs_capabilities self =? 0) then [limit_u32 fs_LIMIT_CAPABILITIES
       (fs_capabilities self)] else [])).

Definition fs_Limits_from_extensions (exts : Extensions) : result Error fs_Limits :=
  _ ← reject_unknown_required_extensions exts
        [as_u16 fs_LIMIT_MAX_ROOTS_PER_SESSION; as_u16 fs_LIMIT_MAX_WATCHES_PER_ROOT; as_u16
          fs_LIMIT_MAX_PATH_COMPONENTS; as_u16 fs_LIMIT_MAX_COMPONENT_BYTES; as_u16
          fs_LIMIT_MAX_PATH_BYTES; as_u16 fs_LIMIT_MAX_INLINE_BYTES; as_u16
          fs_LIMIT_MAX_QUERY_RECORDS; as_u16 fs_LIMIT_MAX_QUERY_BYTES; as_u16
          fs_LIMIT_MAX_STAGES_PER_SESSION; as_u16 fs_LIMIT_MAX_STAGED_BYTES; as_u16
          fs_LIMIT_MAX_BATCH_ITEMS; as_u16 fs_LIMIT_MAX_QUERY_CONCURRENCY; as_u16
          fs_LIMIT_MAX_CATALOG_ENTRIES; as_u16 fs_LIMIT_CAPABILITIES]
        "unknown required FS family limit";
  max_roots_per_session ← read_limit_u32 exts fs_LIMIT_MAX_ROOTS_PER_SESSION;
  max_watches_per_root ← read_limit_u32 exts fs_LIMIT_MAX_WATCHES_PER_ROOT;
  max_path_components ← read_limit_u32 exts fs_LIMIT_MAX_PATH_COMPONENTS;
  max_component_bytes ← read_limit_u32 exts fs_LIMIT_MAX_COMPONENT_BYTES;
  max_path_bytes ← read_limit_u32 exts fs_LIMIT_MAX_PATH_BYTES;
  max_inline_bytes ← read_limit_u32 exts fs_LIMIT_MAX_INLINE_BYTES;
  max_query_records ← read_limit_u32 exts fs_LIMIT_MAX_QUERY_RECORDS;
  max_query_bytes ← read_limit_u32 exts fs_LIMIT_MAX_QUERY_BYTES;
  max_stages_per_session ← read_limit_u32 exts fs_LIMIT_MAX_STAGES_PER_SESSION;
  max_staged_bytes ← read_limit_u64 exts fs_LIMIT_MAX_STAGED_BYTES;
  max_batch_items ← read_limit_u32 exts fs_LIMIT_MAX_BATCH_ITEMS;
  max_query_concurrency ← read_limit_u32 exts fs_LIMIT_MAX_QUERY_CONCURRENCY;
  max_catalog_entries ← read_limit_u32 exts fs_LIMIT_MAX_CATALOG_ENTRIES;
  capabilities ← (if bool_decide (is_Some (find_ext exts (as_u16 fs_LIMIT_CAPABILITIES)))
                  then read_limit_u32 exts fs_LIMIT_CAPABILITIES else Ok 0);
  let self := mk_fs_Limits max_roots_per_session max_watches_per_root max_path_components
    max_component_bytes max_path_bytes max_inline_bytes max_query_records max_query_bytes
    max_stages_per_session max_staged_bytes max_batch_items max_query_concurrency
    max_catalog_entries capabilities in
  _ ← fs_Limits_validate self;
  Ok self.

(** ** [git::Limits] *)

Record git_Limits := mk_git_Limits {
  git_max_repositories_per_session : Z; git_max_watches_per_repository : Z;
    git_max_watched_queries_per_repository : Z; git_max_query_records : Z; git_max_query_bytes : Z;
    git_max_cursor_bytes : Z; git_max_spec_bytes : Z; git_max_inline_bytes : Z;
    git_max_concurrent_queries : Z; git_max_concurrent_fetches : Z
}.

Definition git_Limits_HARD : git_Limits :=
  mk_git_Limits (as_u32 git_MAX_REPOSITORIES_PER_SESSION) (as_u32 git_MAX_WATCHES_PER_REPOSITORY)
    (as_u32 git_MAX_WATCHED_QUERIES_PER_REPOSITORY) (as_u32 git_MAX_QUERY_RECORDS) (as_u32
    git_MAX_QUERY_BYTES) (as_u32 git_MAX_CURSOR_BYTES) (as_u32 git_MAX_SPEC_BYTES) (as_u32
    git_MAX_INLINE_BYTES) (as_u32 git_MAX_CONCURRENT_QUERIES) (as_u32 git_MAX_CONCURRENT_FETCHES).

Definition git_Limits_validate (self : git_Limits) : result Error () :=
  let hard := git_Limits_HARD in
  reject_if
    (any_outside [(git_max_repositories_per_session self, git_max_repositories_per_session hard);
      (git_max_watches_per_repository self, git_max_watches_per_repository hard);
      (git_max_watched_queries_per_repository self, git_max_watched_queries_per_repository hard);
      (git_max_query_records self, git_max_query_records hard); (git_max_query_bytes self,
      git_max_query_bytes hard); (git_max_cursor_bytes self, git_max_cursor_bytes hard);
      (git_max_spec_bytes self, git_max_spec_bytes hard); (git_max_inline_bytes self,
      git_max_inline_bytes hard); (git_max_concurrent_queries self, git_max_concurrent_queries
      hard); (git_max_concurrent_fetches self, git_max_concurrent_fetches hard)])
    (Invalid "Git family limit").

Definition git_Limits_to_extensions (self : git_Limits) : result Error Extensions :=
  _ ← git_Limits_validate self;
  Ok ([limit_u32 git_LIMIT_MAX_REPOSITORIES_PER_SESSION (git_max_repositories_per_session self);
      limit_u32 git_LIMIT_MAX_WATCHES_PER_REPOSITORY (git_max_watches_per_repository self);
      limit_u32 git_LIMIT_MAX_WATCHED_QUERIES_PER_REPOSITORY
        (git_max_watched_queries_per_repository self);
      limit_u32 git_LIMIT_MAX_QUERY_RECORDS (git_max_query_records self);
      limit_u32 git_LIMIT_MAX_QUERY_BYTES (git_max_query_bytes self);
      limit_u32 git_LIMIT_MAX_CURSOR_BYTES (git_max_cursor_bytes self);
      limit_u32 git_LIMIT_MAX_SPEC_BYTES (git_max_spec_bytes self);
      limit_u32 git_LIMIT_MAX_INLINE_BYTES (git_max_inline_bytes self);
      limit_u32 git_LIMIT_MAX_CONCURRENT_QUERIES (git_max_concurrent_queries self);
      limit_u32 git_LIMIT_MAX_CONCURRENT_FETCHES (git_max_concurrent_fetches self)]).

Definition git_Limits_from_extensions (exts : Extensions) : result Error git_Limits :=
  _ ← reject_unknown_required_extensions exts
        [as_u16 git_LIMIT_MAX_REPOSITORIES_PER_SESSION; as_u16
          git_LIMIT_MAX_WATCHES_PER_REPOSITORY; as_u16 git_LIMIT_MAX_WATCHED_QUERIES_PER_REPOSITORY;
          as_u16 git_LIMIT_MAX_QUERY_RECORDS; as_u16 git_LIMIT_MAX_QUERY_BYTES; as_u16
          git_LIMIT_MAX_CURSOR_BYTES; as_u16 git_LIMIT_MAX_SPEC_BYTES; as_u16
          git_LIMIT_MAX_INLINE_BYTES; as_u16 git_LIMIT_MAX_CONCURRENT_QUERIES; as_u16
          git_LIMIT_MAX_CONCURRENT_FETCHES]
        "unknown required Git extension";
  max_repositories_per_session ← read_limit_u32 exts git_LIMIT_MAX_REPOSITORIES_PER_SESSION;
  max_watches_per_repository ← read_limit_u32 exts git_LIMIT_MAX_WATCHES_PER_REPOSITORY;
  max_watched_queries_per_repository ← read_limit_u32 exts git_LIMIT_MAX_WATCHED_QUERIES_PER_REPOSITORY;
  max_query_records ← read_limit_u32 exts git_LIMIT_MAX_QUERY_RECORDS;
  max_query_bytes ← read_limit_u32 exts git_LIMIT_MAX_QUERY_BYTES;
  max_cursor_bytes ← read_limit_u32 exts git_LIMIT_MAX_CURSOR_BYTES;
  max_spec_bytes ← read_limit_u32 exts git_LIMIT_MAX_SPEC_BYTES;
  max_inline_bytes ← read_limit_u32 exts git_LIMIT_MAX_INLINE_BYTES;
  max_concurrent_queries ← read_limit_u32 exts git_LIMIT_MAX_CONCURRENT_QUERIES;
  max_concurrent_fetches ← read_limit_u32 exts git_LIMIT_MAX_CONCURRENT_FETCHES;
  let self := mk_git_Limits max_repositories_per_session max_watches_per_repository
    max_watched_queries_per_repository max_query_records max_query_bytes max_cursor_bytes
    max_spec_bytes max_inline_bytes max_concurrent_queries max_concurrent_fetches in
  _ ← git_Limits_validate self;
  Ok self.

(** ** [lsp::Limits] *)

Record lsp_Limits := mk_lsp_Limits {
  lsp_max_workspaces_per_session : Z; lsp_max_watches_per_workspace : Z; lsp_max_query_records :
    Z; lsp_max_query_bytes : Z; lsp_max_cursor_bytes : Z; lsp_max_inline_buffer_bytes : Z;
    lsp_max_buffer_bytes : Z; lsp_max_buffers_per_workspace : Z; lsp_max_stages_per_session : Z;
    lsp_max_diagnostics_per_file : Z; lsp_max_servers : Z; lsp_max_concurrent_queries : Z
}.

Definition lsp_Limits_HARD : lsp_Limits :=
  mk_lsp_Limits (as_u32 lsp_MAX_WORKSPACES_PER_SESSION) (as_u32 lsp_MAX_WATCHES_PER_WORKSPACE)
    (as_u32 lsp_MAX_QUERY_RECORDS) (as_u32 lsp_MAX_QUERY_BYTES) (as_u32 lsp_MAX_CURSOR_BYTES)
    (as_u32 lsp_MAX_INLINE_BUFFER_BYTES) lsp_MAX_BUFFER_BYTES (as_u32 lsp_MAX_BUFFERS_PER_WORKSPACE)
    (as_u32 lsp_MAX_STAGES_PER_SESSION) (as_u32 lsp_MAX_DIAGNOSTICS_PER_FILE) (as_u32
    lsp_MAX_SERVERS) (as_u32 lsp_MAX_CONCURRENT_QUERIES).

Definition lsp_Limits_validate (self : lsp_Limits) : result Error () :=
  let hard := lsp_Limits_HARD in
  reject_if
    (any_outside [(lsp_max_workspaces_per_session self, lsp_max_workspaces_per_session hard);
      (lsp_max_watches_per_workspace self, lsp_max_watches_per_workspace hard);
      (lsp_max_query_records self, lsp_max_query_records hard); (lsp_max_query_bytes self,
      lsp_max_query_bytes hard); (lsp_max_cursor_bytes self, lsp_max_cursor_bytes hard);
      (lsp_max_inline_buffer_bytes self, lsp_max_inline_buffer_bytes hard);
      (lsp_max_buffers_per_workspace self, lsp_max_buffers_per_workspace hard);
      (lsp_max_stages_per_session self, lsp_max_stages_per_session hard);
      (lsp_max_diagnostics_per_file self, lsp_max_diagnostics_per_file hard); (lsp_max_servers self,
      lsp_max_servers hard); (lsp_max_concurrent_queries self, lsp_max_concurrent_queries hard)]
      || (lsp_max_buffer_bytes self =? 0)
      || (lsp_max_buffer_bytes hard <? lsp_max_buffer_bytes self))
    (Invalid "LSP family limit").

Definition lsp_Limits_to_extensions (self : lsp_Limits) : result Error Extensions :=
  _ ← lsp_Limits_validate self;
  Ok ([limit_u32 lsp_LIMIT_MAX_WORKSPACES_PER_SESSION (lsp_max_workspaces_per_session self);
      limit_u32 lsp_LIMIT_MAX_WATCHES_PER_WORKSPACE (lsp_max_watches_per_workspace self);
      limit_u32 lsp_LIMIT_MAX_QUERY_RECORDS (lsp_max_query_records self);
      limit_u32 lsp_LIMIT_MAX_QUERY_BYTES (lsp_max_query_bytes self);
      limit_u32 lsp_LIMIT_MAX_CURSOR_BYTES (lsp_max_cursor_bytes self);
      limit_u32 lsp_LIMIT_MAX_INLINE_BUFFER_BYTES (lsp_max_inline_buffer_bytes self);
      limit_u64 lsp_LIMIT_MAX_BUFFER_BYTES (lsp_max_buffer_bytes self);
      limit_u32 lsp_LIMIT_MAX_BUFFERS_PER_WORKSPACE (lsp_max_buffers_per_workspace self);
      limit_u32 lsp_LIMIT_MAX_STAGES_PER_SESSION (lsp_max_stages_per_session self);
      limit_u32 lsp_LIMIT_MAX_DIAGNOSTICS_PER_FILE (lsp_max_diagnostics_per_file self);
      limit_u32 lsp_LIMIT_MAX_SERVERS (lsp_max_servers self);
      limit_u32 lsp_LIMIT_MAX_CONCURRENT_QUERIES (lsp_max_concurrent_queries self)]).

Definition lsp_Limits_from_extensions (exts : Extensions) : result Error lsp_Limits :=
  _ ← reject_unknown_required_extensions exts
        [as_u16 lsp_LIMIT_MAX_WORKSPACES_PER_SESSION; as_u16 lsp_LIMIT_MAX_WATCHES_PER_WORKSPACE;
          as_u16 lsp_LIMIT_MAX_QUERY_RECORDS; as_u16 lsp_LIMIT_MAX_QUERY_BYTES; as_u16
          lsp_LIMIT_MAX_CURSOR_BYTES; as_u16 lsp_LIMIT_MAX_INLINE_BUFFER_BYTES; as_u16
          lsp_LIMIT_MAX_BUFFER_BYTES; as_u16 lsp_LIMIT_MAX_BUFFERS_PER_WORKSPACE; as_u16
          lsp_LIMIT_MAX_STAGES_PER_SESSION; as_u16 lsp_LIMIT_MAX_DIAGNOSTICS_PER_FILE; as_u16
          lsp_LIMIT_MAX_SERVERS; as_u16 lsp_LIMIT_MAX_CONCURRENT_QUERIES]
        "unknown required LSP extension";
  max_workspaces_per_session ← read_limit_u32 exts lsp_LIMIT_MAX_WORKSPACES_PER_SESSION;
  max_watches_per_workspace ← read_limit_u32 exts lsp_LIMIT_MAX_WATCHES_PER_WORKSPACE;
  max_query_records ← read_limit_u32 exts lsp_LIMIT_MAX_QUERY_RECORDS;
  max_query_bytes ← read_limit_u32 exts lsp_LIMIT_MAX_QUERY_BYTES;
  max_cursor_bytes ← read_limit_u32 exts lsp_LIMIT_MAX_CURSOR_BYTES;
  max_inline_buffer_bytes ← read_limit_u32 exts lsp_LIMIT_MAX_INLINE_BUFFER_BYTES;
  max_buffer_bytes ← read_limit_u64 exts lsp_LIMIT_MAX_BUFFER_BYTES;
  max_buffers_per_workspace ← read_limit_u32 exts lsp_LIMIT_MAX_BUFFERS_PER_WORKSPACE;
  max_stages_per_session ← read_limit_u32 exts lsp_LIMIT_MAX_STAGES_PER_SESSION;
  max_diagnostics_per_file ← read_limit_u32 exts lsp_LIMIT_MAX_DIAGNOSTICS_PER_FILE;
  max_servers ← read_limit_u32 exts lsp_LIMIT_MAX_SERVERS;
  max_concurrent_queries ← read_limit_u32 exts lsp_LIMIT_MAX_CONCURRENT_QUERIES;
  let self := mk_lsp_Limits max_workspaces_per_session max_watches_per_workspace max_query_records
    max_query_bytes max_cursor_bytes max_inline_buffer_bytes max_buffer_bytes
    max_buffers_per_workspace max_stages_per_session max_diagnostics_per_file max_servers
    max_concurrent_queries in
  _ ← lsp_Limits_validate self;
  Ok self.

(** ** [kv::Limits] *)

Definition KvLimits_validate (self : KvLimits) : result Error () :=
  let hard := KvLimits_HARD in
  reject_if
    (negb ((0 <? kl_max_key_bytes self)
      && (kl_max_key_bytes self <=? kl_max_key_bytes hard)
      && (kl_max_value_bytes self <=? kl_max_value_bytes hard)
      && (kl_max_inline_bytes self <=? kl_max_inline_bytes hard)
      && (kl_max_inline_bytes self <=? kl_max_value_bytes self)
      && (0 <? kl_max_entries self)
      && (kl_max_entries self <=? kl_max_entries hard)
      && (0 <? kl_max_store_bytes self)
      && (kl_max_store_bytes self <=? kl_max_store_bytes hard)
      && (0 <? kl_max_namespaces_per_session self)
      && (kl_max_namespaces_per_session self <=? kl_max_namespaces_per_session hard)
      && (0 <? kl_max_stages_per_session self)
      && (kl_max_stages_per_session self <=? kl_max_stages_per_session hard)
      && (0 <? kl_max_staged_bytes_per_session self)
      && (kl_max_staged_bytes_per_session self <=? kl_max_staged_bytes_per_session hard)
      && (0 <? kl_max_batch_items self)
      && (kl_max_batch_items self <=? kl_max_batch_items hard)))
    (Invalid "KV family limits").

Definition KvLimits_to_extensions (self : KvLimits) : result Error Extensions :=
  _ ← KvLimits_validate self;
  Ok ([limit_u32 kv_LIMIT_MAX_KEY_BYTES (kl_max_key_bytes self);
      limit_u64 kv_LIMIT_MAX_VALUE_BYTES (kl_max_value_bytes self);
      limit_u32 kv_LIMIT_MAX_INLINE_BYTES (kl_max_inline_bytes self);
      limit_u32 kv_LIMIT_MAX_ENTRIES (kl_max_entries self);
      limit_u64 kv_LIMIT_MAX_STORE_BYTES (kl_max_store_bytes self);
      limit_u32 kv_LIMIT_MAX_NAMESPACES_PER_SESSION (kl_max_namespaces_per_session self);
      limit_u32 kv_LIMIT_MAX_STAGES_PER_SESSION (kl_max_stages_per_session self);
      limit_u64 kv_LIMIT_MAX_STAGED_BYTES_PER_SESSION (kl_max_staged_bytes_per_session self);
      limit_u32 kv_LIMIT_MAX_BATCH_ITEMS (kl_max_batch_items self)]).

Definition KvLimits_from_extensions (exts : Extensions) : result Error KvLimits :=
  _ ← reject_unknown_required_extensions exts
        [as_u16 kv_LIMIT_MAX_KEY_BYTES; as_u16 kv_LIMIT_MAX_VALUE_BYTES; as_u16
          kv_LIMIT_MAX_INLINE_BYTES; as_u16 kv_LIMIT_MAX_ENTRIES; as_u16 kv_LIMIT_MAX_STORE_BYTES;
          as_u16 kv_LIMIT_MAX_NAMESPACES_PER_SESSION; as_u16 kv_LIMIT_MAX_STAGES_PER_SESSION; as_u16
          kv_LIMIT_MAX_STAGED_BYTES_PER_SESSION; as_u16 kv_LIMIT_MAX_BATCH_ITEMS]
        "unknown required KV extension";
  max_key_bytes ← read_u32_in "missing KV family limit" "KV family limit length" exts
    kv_LIMIT_MAX_KEY_BYTES;
  max_value_bytes ← read_u64_in "missing KV family limit" "KV family limit length" exts
    kv_LIMIT_MAX_VALUE_BYTES;
  max_inline_bytes ← read_u32_in "missing KV family limit" "KV family limit length" exts
    kv_LIMIT_MAX_INLINE_BYTES;
  max_entries ← read_u32_in "missing KV family limit" "KV family limit length" exts
    kv_LIMIT_MAX_ENTRIES;
  max_store_bytes ← read_u64_in "missing KV family limit" "KV family limit length" exts
    kv_LIMIT_MAX_STORE_BYTES;
  max_namespaces_per_session ← read_u32_in "missing KV family limit" "KV family limit length" exts
    kv_LIMIT_MAX_NAMESPACES_PER_SESSION;
  max_stages_per_session ← read_u32_in "missing KV family limit" "KV family limit length" exts
    kv_LIMIT_MAX_STAGES_PER_SESSION;
  max_staged_bytes_per_session ← read_u64_in "missing KV family limit" "KV family limit length"
    exts kv_LIMIT_MAX_STAGED_BYTES_PER_SESSION;
  max_batch_items ← read_u32_in "missing KV family limit" "KV family limit length" exts
    kv_LIMIT_MAX_BATCH_ITEMS;
  let self := mkKvLimits max_key_bytes max_value_bytes max_inline_bytes max_entries
    max_store_bytes max_namespaces_per_session max_stages_per_session max_staged_bytes_per_session
    max_batch_items in
  _ ← KvLimits_validate self;
  Ok self.

(** ** [process::Limits] *)

Record process_Limits := mk_process_Limits {
  process_max_argc : Z; process_max_arg_bytes : Z; process_max_envc : Z; process_max_env_bytes :
    Z; process_max_processes_per_session : Z; process_max_processes : Z; process_max_pending_spawns
    : Z; process_max_stream_buffer_bytes : Z; process_max_detached_retention_ns : Z;
    process_max_mutation_replays : Z; process_launcher_flags : Z; process_max_pending_waits : Z;
    process_max_pending_operations : Z
}.

Definition process_Limits_HARD : process_Limits :=
  mk_process_Limits (as_u32 process_MAX_ARGC) (as_u32 process_MAX_ARG_BYTES) (as_u32
    process_MAX_ENVC_EXTENDED) (as_u32 process_MAX_ENV_BYTES) (as_u32
    process_MAX_PROCESSES_PER_SESSION_EXTENDED) (as_u32 process_MAX_PROCESSES_EXTENDED) (as_u32
    process_MAX_PENDING_SPAWNS_EXTENDED) process_MAX_STREAM_BUFFER_BYTES_EXTENDED
    process_MAX_DETACHED_RETENTION_NS (as_u32 process_MAX_MUTATION_REPLAYS) (as_u32
    process_SPAWN_LAUNCHER_FLAGS_EXTENDED) (as_u32 process_MAX_PENDING_WAITS) (as_u32
    process_MAX_PENDING_OPERATIONS).

Definition process_Limits_DEFAULT : process_Limits :=
  mk_process_Limits (process_max_argc process_Limits_HARD) (process_max_arg_bytes process_Limits_HARD)
    (as_u32 process_MAX_ENVC) (process_max_env_bytes process_Limits_HARD)
    (as_u32 process_MAX_PROCESSES_PER_SESSION) (as_u32 process_MAX_PROCESSES)
    (as_u32 process_MAX_PENDING_SPAWNS) process_MAX_STREAM_BUFFER_BYTES
    (process_max_detached_retention_ns process_Limits_HARD)
    (process_max_mutation_replays process_Limits_HARD) 0
    (as_u32 process_LEGACY_PENDING_WAITS) (as_u32 process_LEGACY_PENDING_OPERATIONS).

Definition process_Limits_validate (self : process_Limits) : result Error () :=
  let hard := process_Limits_HARD in
  reject_if
    (negb (within (process_max_argc self) (process_max_argc hard))
      || negb (within (process_max_arg_bytes self) (process_max_arg_bytes hard))
      || negb (within (process_max_envc self) (process_max_envc hard))
      || negb (within (process_max_env_bytes self) (process_max_env_bytes hard))
      || negb (within (process_max_processes_per_session self) (process_max_processes_per_session hard))
      || negb (within (process_max_processes self) (process_max_processes hard))
      || negb (within (process_max_pending_spawns self) (process_max_pending_spawns hard))
      || (process_max_stream_buffer_bytes self =? 0)
      || (process_max_stream_buffer_bytes hard <? process_max_stream_buffer_bytes self)
      || (process_max_detached_retention_ns self =? 0)
      || (process_max_detached_retention_ns hard <? process_max_detached_retention_ns self)
      || negb (within (process_max_mutation_replays self) (process_max_mutation_replays hard))
      || has_other_bits (process_launcher_flags self) (process_launcher_flags hard)
      || negb (within (process_max_pending_waits self) (process_max_pending_waits hard))
      || negb (within (process_max_pending_operations self) (process_max_pending_operations hard)))
    (Invalid "Process family limit").


(** [if cond { extensions.push(e) }] *)
Definition push_if (cond : bool) (e : Extension) : Extensions := if cond then [e] else [].

Definition tag_le (a b : Extension) : Prop := ext_tag a <= ext_tag b.
#[global] Instance tag_le_dec a b : Decision (tag_le a b).
Proof. unfold tag_le. apply _. Defined.

Definition process_Limits_entries (self : process_Limits) : Extensions :=
  let legacy := process_Limits_DEFAULT in
  let legacy_launcher_flags := Z.land (process_launcher_flags self) (as_u32
    process_SPAWN_LAUNCHER_FLAGS) in
  [limit_u32 process_LIMIT_MAX_ARGC (process_max_argc self);
   limit_u32 process_LIMIT_MAX_ARG_BYTES (process_max_arg_bytes self);
   limit_u32 process_LIMIT_MAX_ENVC (Z.min (process_max_envc self) (process_max_envc legacy));
   limit_u32 process_LIMIT_MAX_ENV_BYTES (process_max_env_bytes self);
   limit_u32 process_LIMIT_MAX_PROCESSES_PER_SESSION
     (Z.min (process_max_processes_per_session self) (process_max_processes_per_session legacy));
   limit_u32 process_LIMIT_MAX_PROCESSES (Z.min (process_max_processes self)
     (process_max_processes legacy));
   limit_u32 process_LIMIT_MAX_PENDING_SPAWNS
     (Z.min (process_max_pending_spawns self) (process_max_pending_spawns legacy));
   limit_u64 process_LIMIT_MAX_STREAM_BUFFER_BYTES
     (Z.min (process_max_stream_buffer_bytes self) (process_max_stream_buffer_bytes legacy));
   limit_u64 process_LIMIT_MAX_DETACHED_RETENTION_NS (process_max_detached_retention_ns self);
   limit_u32 process_LIMIT_MAX_MUTATION_REPLAYS (process_max_mutation_replays self)]
  ++ push_if (process_max_processes_per_session legacy <? process_max_processes_per_session self)
       (limit_u32 process_LIMIT_MAX_PROCESSES_PER_SESSION_EXTENDED
         (process_max_processes_per_session self))
  ++ push_if (process_max_processes legacy <? process_max_processes self)
       (limit_u32 process_LIMIT_MAX_PROCESSES_EXTENDED (process_max_processes self))
  ++ push_if (process_max_pending_spawns legacy <? process_max_pending_spawns self)
       (limit_u32 process_LIMIT_MAX_PENDING_SPAWNS_EXTENDED (process_max_pending_spawns self))
  ++ push_if (process_max_envc legacy <? process_max_envc self)
       (limit_u32 process_LIMIT_MAX_ENVC_EXTENDED (process_max_envc self))
  ++ push_if (process_max_stream_buffer_bytes legacy <? process_max_stream_buffer_bytes self)
       (limit_u64 process_LIMIT_MAX_STREAM_BUFFER_BYTES_EXTENDED (process_max_stream_buffer_bytes self))
  ++ push_if (negb (process_max_pending_waits self =? process_max_pending_waits legacy))
       (limit_u32 process_LIMIT_MAX_PENDING_WAITS (process_max_pending_waits self))
  ++ push_if (negb (process_max_pending_operations self =? process_max_pending_operations legacy))
       (limit_u32 process_LIMIT_MAX_PENDING_OPERATIONS (process_max_pending_operations self))
  ++ push_if (negb (legacy_launcher_flags =? 0))
       (limit_u32 process_LIMIT_LAUNCHER_FLAGS legacy_launcher_flags)
  ++ push_if (negb (process_launcher_flags self =? legacy_launcher_flags))
       (limit_u32 process_LIMIT_LAUNCHER_FLAGS_EXTENDED (process_launcher_flags self)).

(** [extensions.sort_by_key(|extension| extension.tag)] at the end. *)
Definition process_Limits_to_extensions (self : process_Limits) : result Error Extensions :=
  _ ← process_Limits_validate self;
  Ok (merge_sort tag_le (process_Limits_entries self)).

Definition process_known : list Z :=
  map as_u16
    [process_LIMIT_MAX_ARGC; process_LIMIT_MAX_ARG_BYTES; process_LIMIT_MAX_ENVC;
      process_LIMIT_MAX_ENV_BYTES;
     process_LIMIT_MAX_PROCESSES_PER_SESSION; process_LIMIT_MAX_PROCESSES;
       process_LIMIT_MAX_PENDING_SPAWNS;
     process_LIMIT_MAX_STREAM_BUFFER_BYTES; process_LIMIT_MAX_DETACHED_RETENTION_NS;
     process_LIMIT_MAX_MUTATION_REPLAYS; process_LIMIT_LAUNCHER_FLAGS;
     process_LIMIT_MAX_PROCESSES_PER_SESSION_EXTENDED; process_LIMIT_MAX_PROCESSES_EXTENDED;
     process_LIMIT_MAX_PENDING_SPAWNS_EXTENDED; process_LIMIT_MAX_STREAM_BUFFER_BYTES_EXTENDED;
     process_LIMIT_MAX_ENVC_EXTENDED; process_LIMIT_MAX_PENDING_WAITS;
       process_LIMIT_MAX_PENDING_OPERATIONS;
     process_LIMIT_LAUNCHER_FLAGS_EXTENDED].

(** The file's own [read_limit_u32], [read_limit_u64] and their optional forms. *)
Definition process_read_u32 : Extensions → Z → result Error Z :=
  read_u32_in "missing Process family limit" "Process family limit length".
Definition process_read_u64 : Extensions → Z → result Error Z :=
  read_u64_in "missing Process family limit" "Process family limit length".
Definition read_optional_limit (width : Z) (exts : Extensions) (tag : Z) : result Error (option Z) :=
  match find_ext exts (as_u16 tag) with
  | None => Ok None
  | Some e => v ← ok_or (le_exact width (ext_value e)) (Invalid "Process family limit length"); Ok
    (Some v)
  end.
Definition read_optional_limit_u32 : Extensions → Z → result Error (option Z) := read_optional_limit 4.
Definition read_optional_limit_u64 : Extensions → Z → result Error (option Z) := read_optional_limit 8.

Definition process_Limits_from_extensions (exts : Extensions) : result Error process_Limits :=
  _ ← reject_unknown_required_extensions exts process_known "unknown required Process extension";
  let legacy := process_Limits_DEFAULT in
  let u32_or tag fallback := o ← read_optional_limit_u32 exts tag; Ok (default fallback o) in
  max_envc ← process_read_u32 exts process_LIMIT_MAX_ENVC;
  max_processes_per_session ← process_read_u32 exts process_LIMIT_MAX_PROCESSES_PER_SESSION;
  max_processes ← process_read_u32 exts process_LIMIT_MAX_PROCESSES;
  max_pending_spawns ← process_read_u32 exts process_LIMIT_MAX_PENDING_SPAWNS;
  max_stream_buffer_bytes ← process_read_u64 exts process_LIMIT_MAX_STREAM_BUFFER_BYTES;
  legacy_launcher_flags ←
    (if bool_decide (is_Some (find_ext exts (as_u16 process_LIMIT_LAUNCHER_FLAGS)))
     then process_read_u32 exts process_LIMIT_LAUNCHER_FLAGS else Ok 0);
  v_argc ← process_read_u32 exts process_LIMIT_MAX_ARGC;
  v_arg_bytes ← process_read_u32 exts process_LIMIT_MAX_ARG_BYTES;
  v_envc ← u32_or process_LIMIT_MAX_ENVC_EXTENDED max_envc;
  v_env_bytes ← process_read_u32 exts process_LIMIT_MAX_ENV_BYTES;
  v_processes_per_session ← u32_or process_LIMIT_MAX_PROCESSES_PER_SESSION_EXTENDED
    max_processes_per_session;
  v_processes ← u32_or process_LIMIT_MAX_PROCESSES_EXTENDED max_processes;
  v_pending_spawns ← u32_or process_LIMIT_MAX_PENDING_SPAWNS_EXTENDED max_pending_spawns;
  stream_buffer ← read_optional_limit_u64 exts process_LIMIT_MAX_STREAM_BUFFER_BYTES_EXTENDED;
  v_retention ← process_read_u64 exts process_LIMIT_MAX_DETACHED_RETENTION_NS;
  v_replays ← process_read_u32 exts process_LIMIT_MAX_MUTATION_REPLAYS;
  extended_flags ← read_optional_limit_u32 exts process_LIMIT_LAUNCHER_FLAGS_EXTENDED;
  v_waits ← u32_or process_LIMIT_MAX_PENDING_WAITS (process_max_pending_waits legacy);
  v_operations ← u32_or process_LIMIT_MAX_PENDING_OPERATIONS (process_max_pending_operations legacy);
  let self :=
    mk_process_Limits v_argc v_arg_bytes v_envc v_env_bytes v_processes_per_session v_processes
      v_pending_spawns (default max_stream_buffer_bytes stream_buffer) v_retention v_replays
      (match extended_flags with
       | Some flags => Z.land flags (as_u32 process_SPAWN_LAUNCHER_FLAGS_EXTENDED)
       | None => legacy_launcher_flags
       end) v_waits v_operations in
  _ ← reject_if
        ((process_max_envc legacy <? max_envc)
         || (process_max_processes_per_session legacy <? max_processes_per_session)
         || (process_max_processes legacy <? max_processes)
         || (process_max_pending_spawns legacy <? max_pending_spawns)
         || (process_max_stream_buffer_bytes legacy <? max_stream_buffer_bytes)
         || (process_max_envc self <? max_envc)
         || (process_max_processes_per_session self <? max_processes_per_session)
         || (process_max_processes self <? max_processes)
         || (process_max_pending_spawns self <? max_pending_spawns)
         || (process_max_stream_buffer_bytes self <? max_stream_buffer_bytes)
         || has_other_bits legacy_launcher_flags (as_u32 process_SPAWN_LAUNCHER_FLAGS)
         || negb (Z.land (process_launcher_flags self) (as_u32 process_SPAWN_LAUNCHER_FLAGS)
                  =? legacy_launcher_flags))
        (Invalid "Process family limit");
  _ ← process_Limits_validate self;
  Ok self.


(** ** [net::Limits] *)

Record net_Limits := mk_net_Limits {
  net_max_host_bytes : Z; net_max_local_address_bytes : Z; net_max_pipe_name_bytes : Z;
    net_max_alpn_protocols : Z; net_max_alpn_bytes : Z; net_max_early_data_bytes : Z;
    net_max_flows_per_session : Z; net_max_pending_opens : Z; net_max_buffered_per_flow : Z;
    net_max_datagram_payload : Z; net_max_datagram_queue : Z; net_connect_timeout_ns : Z;
    net_max_mutation_replays : Z
}.

Definition net_Limits_HARD : net_Limits :=
  mk_net_Limits (as_u32 net_MAX_HOST_BYTES) (as_u32 net_MAX_LOCAL_ADDRESS_BYTES) (as_u32
    net_MAX_PIPE_NAME_BYTES) (as_u32 net_MAX_ALPN_PROTOCOLS) (as_u32 net_MAX_ALPN_BYTES) (as_u32
    net_MAX_EARLY_DATA_BYTES) net_MAX_FLOWS_PER_SESSION net_MAX_PENDING_OPENS
    net_MAX_BUFFERED_PER_FLOW (as_u32 net_MAX_DATAGRAM_PAYLOAD) net_MAX_DATAGRAM_QUEUE
    net_CONNECT_TIMEOUT_NS (as_u32 net_MAX_MUTATION_REPLAYS).

Definition net_Limits_validate (self : net_Limits) : result Error () :=
  let hard := net_Limits_HARD in
  reject_if
    (negb (within (net_max_host_bytes self) (net_max_host_bytes hard))
      || negb (within (net_max_local_address_bytes self) (net_max_local_address_bytes hard))
      || negb (within (net_max_pipe_name_bytes self) (net_max_pipe_name_bytes hard))
      || negb (within (net_max_alpn_protocols self) (net_max_alpn_protocols hard))
      || negb (within (net_max_alpn_bytes self) (net_max_alpn_bytes hard))
      || (net_max_early_data_bytes hard <? net_max_early_data_bytes self)
      || negb (within (net_max_flows_per_session self) (net_max_flows_per_session hard))
      || negb (within (net_max_pending_opens self) (net_max_pending_opens hard))
      || (net_max_buffered_per_flow self =? 0)
      || (net_max_buffered_per_flow hard <? net_max_buffered_per_flow self)
      || negb (within (net_max_datagram_payload self) (net_max_datagram_payload hard))
      || negb (within (net_max_datagram_queue self) (net_max_datagram_queue hard))
      || (net_connect_timeout_ns self =? 0)
      || (net_connect_timeout_ns hard <? net_connect_timeout_ns self)
      || negb (within (net_max_mutation_replays self) (net_max_mutation_replays hard)))
    (Invalid "Net family limit").

Definition net_Limits_to_extensions (self : net_Limits) : result Error Extensions :=
  _ ← net_Limits_validate self;
  Ok ([limit_u32 net_LIMIT_MAX_HOST_BYTES (net_max_host_bytes self);
      limit_u32 net_LIMIT_MAX_LOCAL_ADDRESS_BYTES (net_max_local_address_bytes self);
      limit_u32 net_LIMIT_MAX_PIPE_NAME_BYTES (net_max_pipe_name_bytes self);
      limit_u32 net_LIMIT_MAX_ALPN_PROTOCOLS (net_max_alpn_protocols self);
      limit_u32 net_LIMIT_MAX_ALPN_BYTES (net_max_alpn_bytes self);
      limit_u32 net_LIMIT_MAX_EARLY_DATA_BYTES (net_max_early_data_bytes self);
      limit_u32 net_LIMIT_MAX_FLOWS_PER_SESSION (net_max_flows_per_session self);
      limit_u32 net_LIMIT_MAX_PENDING_OPENS (net_max_pending_opens self);
      limit_u64 net_LIMIT_MAX_BUFFERED_PER_FLOW (net_max_buffered_per_flow self);
      limit_u32 net_LIMIT_MAX_DATAGRAM_PAYLOAD (net_max_datagram_payload self);
      limit_u32 net_LIMIT_MAX_DATAGRAM_QUEUE (net_max_datagram_queue self);
      limit_u64 net_LIMIT_CONNECT_TIMEOUT_NS (net_connect_timeout_ns self);
      limit_u32 net_LIMIT_MAX_MUTATION_REPLAYS (net_max_mutation_replays self)]).

Definition net_Limits_from_extensions (exts : Extensions) : result Error net_Limits :=
  _ ← reject_unknown_required_extensions exts
        [as_u16 net_LIMIT_MAX_HOST_BYTES; as_u16 net_LIMIT_MAX_LOCAL_ADDRESS_BYTES; as_u16
          net_LIMIT_MAX_PIPE_NAME_BYTES; as_u16 net_LIMIT_MAX_ALPN_PROTOCOLS; as_u16
          net_LIMIT_MAX_ALPN_BYTES; as_u16 net_LIMIT_MAX_EARLY_DATA_BYTES; as_u16
          net_LIMIT_MAX_FLOWS_PER_SESSION; as_u16 net_LIMIT_MAX_PENDING_OPENS; as_u16
          net_LIMIT_MAX_BUFFERED_PER_FLOW; as_u16 net_LIMIT_MAX_DATAGRAM_PAYLOAD; as_u16
          net_LIMIT_MAX_DATAGRAM_QUEUE; as_u16 net_LIMIT_CONNECT_TIMEOUT_NS; as_u16
          net_LIMIT_MAX_MUTATION_REPLAYS]
        "unknown required Net extension";
  max_host_bytes ← read_u32_in "missing Net family limit" "Net family limit length" exts
    net_LIMIT_MAX_HOST_BYTES;
  max_local_address_bytes ← read_u32_in "missing Net family limit" "Net family limit length" exts
    net_LIMIT_MAX_LOCAL_ADDRESS_BYTES;
  max_pipe_name_bytes ← read_u32_in "missing Net family limit" "Net family limit length" exts
    net_LIMIT_MAX_PIPE_NAME_BYTES;
  max_alpn_protocols ← read_u32_in "missing Net family limit" "Net family limit length" exts
    net_LIMIT_MAX_ALPN_PROTOCOLS;
  max_alpn_bytes ← read_u32_in "missing Net family limit" "Net family limit length" exts
    net_LIMIT_MAX_ALPN_BYTES;
  max_early_data_bytes ← read_u32_in "missing Net family limit" "Net family limit length" exts
    net_LIMIT_MAX_EARLY_DATA_BYTES;
  max_flows_per_session ← read_u32_in "missing Net family limit" "Net family limit length" exts
    net_LIMIT_MAX_FLOWS_PER_SESSION;
  max_pending_opens ← read_u32_in "missing Net family limit" "Net family limit length" exts
    net_LIMIT_MAX_PENDING_OPENS;
  max_buffered_per_flow ← read_u64_in "missing Net family limit" "Net family limit length" exts
    net_LIMIT_MAX_BUFFERED_PER_FLOW;
  max_datagram_payload ← read_u32_in "missing Net family limit" "Net family limit length" exts
    net_LIMIT_MAX_DATAGRAM_PAYLOAD;
  max_datagram_queue ← read_u32_in "missing Net family limit" "Net family limit length" exts
    net_LIMIT_MAX_DATAGRAM_QUEUE;
  connect_timeout_ns ← read_u64_in "missing Net family limit" "Net family limit length" exts
    net_LIMIT_CONNECT_TIMEOUT_NS;
  max_mutation_replays ← read_u32_in "missing Net family limit" "Net family limit length" exts
    net_LIMIT_MAX_MUTATION_REPLAYS;
  let self := mk_net_Limits max_host_bytes max_local_address_bytes max_pipe_name_bytes
    max_alpn_protocols max_alpn_bytes max_early_data_bytes max_flows_per_session max_pending_opens
    max_buffered_per_flow max_datagram_payload max_datagram_queue connect_timeout_ns
    max_mutation_replays in
  _ ← net_Limits_validate self;
  Ok self.

(** ** [channel::Limits] *)

Record channel_Limits := mk_channel_Limits {
  channel_max_name_bytes : Z; channel_max_metadata_bytes : Z; channel_max_listeners_per_session :
    Z; channel_max_channels_per_session : Z; channel_max_pending_connects : Z;
    channel_max_message_bytes : Z; channel_max_open_messages : Z; channel_connect_timeout_ns : Z;
    channel_max_mutation_replays : Z
}.

Definition channel_Limits_HARD : channel_Limits :=
  mk_channel_Limits (as_u32 channel_MAX_NAME_BYTES) (as_u32 channel_MAX_METADATA_BYTES)
    channel_MAX_LISTENERS_PER_SESSION channel_MAX_CHANNELS_PER_SESSION channel_MAX_PENDING_CONNECTS
    channel_MAX_MESSAGE_BYTES channel_MAX_OPEN_MESSAGES channel_CONNECT_TIMEOUT_NS (as_u32
    channel_MAX_MUTATION_REPLAYS).

Definition channel_Limits_validate (self : channel_Limits) : result Error () :=
  let hard := channel_Limits_HARD in
  _ ← reject_if ((channel_max_name_bytes self =? 0)
      || (channel_max_name_bytes hard <? channel_max_name_bytes self)) (Invalid "Channel max name
        bytes limit");
  _ ← reject_if ((channel_max_metadata_bytes hard <? channel_max_metadata_bytes self)) (Invalid
    "Channel max metadata bytes limit");
  _ ← reject_if ((channel_max_listeners_per_session self =? 0)
      || (channel_max_listeners_per_session hard <? channel_max_listeners_per_session self))
        (Invalid "Channel max listeners limit");
  _ ← reject_if ((channel_max_channels_per_session self =? 0)
      || (channel_max_channels_per_session hard <? channel_max_channels_per_session self))
        (Invalid "Channel max channels limit");
  _ ← reject_if ((channel_max_pending_connects self =? 0)
      || (channel_max_pending_connects hard <? channel_max_pending_connects self)) (Invalid
        "Channel max pending connects limit");
  _ ← reject_if ((channel_max_message_bytes self =? 0)
      || (channel_max_message_bytes hard <? channel_max_message_bytes self)) (Invalid "Channel max
        message bytes limit");
  _ ← reject_if ((channel_max_open_messages self =? 0)
      || (channel_max_open_messages hard <? channel_max_open_messages self)) (Invalid "Channel max
        open messages limit");
  _ ← reject_if ((channel_connect_timeout_ns self =? 0)
      || (channel_connect_timeout_ns hard <? channel_connect_timeout_ns self)) (Invalid "Channel
        connect timeout limit");
  reject_if
    ((channel_max_mutation_replays self =? 0)
      || (channel_max_mutation_replays hard <? channel_max_mutation_replays self))
    (Invalid "Channel mutation replay limit").

Definition channel_Limits_to_extensions (self : channel_Limits) : result Error Extensions :=
  _ ← channel_Limits_validate self;
  Ok ([limit_u32 channel_LIMIT_MAX_NAME_BYTES (channel_max_name_bytes self);
      limit_u32 channel_LIMIT_MAX_METADATA_BYTES (channel_max_metadata_bytes self);
      limit_u32 channel_LIMIT_MAX_LISTENERS_PER_SESSION (channel_max_listeners_per_session self);
      limit_u32 channel_LIMIT_MAX_CHANNELS_PER_SESSION (channel_max_channels_per_session self);
      limit_u32 channel_LIMIT_MAX_PENDING_CONNECTS (channel_max_pending_connects self);
      limit_u64 channel_LIMIT_MAX_MESSAGE_BYTES (channel_max_message_bytes self);
      limit_u32 channel_LIMIT_MAX_OPEN_MESSAGES (channel_max_open_messages self);
      limit_u64 channel_LIMIT_CONNECT_TIMEOUT_NS (channel_connect_timeout_ns self);
      limit_u32 channel_LIMIT_MAX_MUTATION_REPLAYS (channel_max_mutation_replays self)]).

Definition channel_Limits_from_extensions (exts : Extensions) : result Error channel_Limits :=
  _ ← reject_unknown_required_extensions exts
        [as_u16 channel_LIMIT_MAX_NAME_BYTES; as_u16 channel_LIMIT_MAX_METADATA_BYTES; as_u16
          channel_LIMIT_MAX_LISTENERS_PER_SESSION; as_u16 channel_LIMIT_MAX_CHANNELS_PER_SESSION;
          as_u16 channel_LIMIT_MAX_PENDING_CONNECTS; as_u16 channel_LIMIT_MAX_MESSAGE_BYTES; as_u16
          channel_LIMIT_MAX_OPEN_MESSAGES; as_u16 channel_LIMIT_CONNECT_TIMEOUT_NS; as_u16
          channel_LIMIT_MAX_MUTATION_REPLAYS]
        "unknown required Channel extension";
  max_name_bytes ← read_u32_in "missing Channel family limit" "Channel family limit length" exts
    channel_LIMIT_MAX_NAME_BYTES;
  max_metadata_bytes ← read_u32_in "missing Channel family limit" "Channel family limit length"
    exts channel_LIMIT_MAX_METADATA_BYTES;
  max_listeners_per_session ← read_u32_in "missing Channel family limit" "Channel family limit
    length" exts channel_LIMIT_MAX_LISTENERS_PER_SESSION;
  max_channels_per_session ← read_u32_in "missing Channel family limit" "Channel family limit
    length" exts channel_LIMIT_MAX_CHANNELS_PER_SESSION;
  max_pending_connects ← read_u32_in "missing Channel family limit" "Channel family limit length"
    exts channel_LIMIT_MAX_PENDING_CONNECTS;
  max_message_bytes ← read_u64_in "missing Channel family limit" "Channel family limit length"
    exts channel_LIMIT_MAX_MESSAGE_BYTES;
  max_open_messages ← read_u32_in "missing Channel family limit" "Channel family limit length"
    exts channel_LIMIT_MAX_OPEN_MESSAGES;
  connect_timeout_ns ← read_u64_in "missing Channel family limit" "Channel family limit length"
    exts channel_LIMIT_CONNECT_TIMEOUT_NS;
  max_mutation_replays ← read_u32_in "missing Channel family limit" "Channel family limit length"
    exts channel_LIMIT_MAX_MUTATION_REPLAYS;
  let self := mk_channel_Limits max_name_bytes max_metadata_bytes max_listeners_per_session
    max_channels_per_session max_pending_connects max_message_bytes max_open_messages
    connect_timeout_ns max_mutation_replays in
  _ ← channel_Limits_validate self;
  Ok self.

(** ** [extension::Limits] *)

Record extension_Limits := mk_extension_Limits {
  extension_max_name_bytes : Z; extension_max_args : Z; extension_max_argument_bytes : Z;
    extension_max_object_bytes : Z; extension_max_output_record_bytes : Z;
    extension_max_command_descriptor_bytes : Z; extension_max_command_records : Z;
    extension_max_definitions : Z; extension_max_object_stages_per_session : Z;
    extension_max_follows_per_session : Z; extension_max_running_attempts : Z;
    extension_max_memory_bytes : Z; extension_max_job_bytes : Z; extension_max_mutation_replays : Z
}.

Definition extension_Limits_HARD : extension_Limits :=
  mk_extension_Limits (as_u32 extension_MAX_NAME_BYTES) (as_u32 extension_MAX_ARGS)
    extension_MAX_ARGUMENT_BYTES extension_MAX_OBJECT_BYTES (as_u32
    extension_MAX_OUTPUT_RECORD_BYTES) (as_u32 extension_MAX_COMMAND_DESCRIPTOR_BYTES) (as_u32
    extension_MAX_COMMAND_RECORDS) (as_u32 extension_MAX_DEFINITIONS) (as_u32
    extension_MAX_OBJECT_STAGES_PER_SESSION) (as_u32 extension_MAX_FOLLOWS_PER_SESSION) (as_u32
    extension_MAX_RUNNING_ATTEMPTS) extension_MAX_MEMORY_BYTES extension_MAX_JOB_BYTES (as_u32
    extension_MAX_MUTATION_REPLAYS).

Definition extension_Limits_validate (self : extension_Limits) : result Error () :=
  let hard := extension_Limits_HARD in
  reject_if
    (any_outside [(extension_max_name_bytes self, extension_max_name_bytes hard);
      (extension_max_args self, extension_max_args hard); (extension_max_output_record_bytes self,
      extension_max_output_record_bytes hard); (extension_max_command_descriptor_bytes self,
      extension_max_command_descriptor_bytes hard); (extension_max_command_records self,
      extension_max_command_records hard); (extension_max_definitions self,
      extension_max_definitions hard); (extension_max_object_stages_per_session self,
      extension_max_object_stages_per_session hard); (extension_max_follows_per_session self,
      extension_max_follows_per_session hard); (extension_max_running_attempts self,
      extension_max_running_attempts hard); (extension_max_mutation_replays self,
      extension_max_mutation_replays hard)]
      || any_outside [(extension_max_argument_bytes self, extension_max_argument_bytes hard);
        (extension_max_object_bytes self, extension_max_object_bytes hard);
        (extension_max_memory_bytes self, extension_max_memory_bytes hard); (extension_max_job_bytes
        self, extension_max_job_bytes hard)])
    (Invalid "Extension family limit").

Definition extension_Limits_to_extensions (self : extension_Limits) : result Error Extensions :=
  _ ← extension_Limits_validate self;
  Ok ([limit_u32 extension_LIMIT_MAX_NAME_BYTES (extension_max_name_bytes self);
      limit_u32 extension_LIMIT_MAX_ARGS (extension_max_args self);
      limit_u64 extension_LIMIT_MAX_ARGUMENT_BYTES (extension_max_argument_bytes self);
      limit_u64 extension_LIMIT_MAX_OBJECT_BYTES (extension_max_object_bytes self);
      limit_u32 extension_LIMIT_MAX_OUTPUT_RECORD_BYTES (extension_max_output_record_bytes self);
      limit_u32 extension_LIMIT_MAX_COMMAND_DESCRIPTOR_BYTES
        (extension_max_command_descriptor_bytes self);
      limit_u32 extension_LIMIT_MAX_COMMAND_RECORDS (extension_max_command_records self);
      limit_u32 extension_LIMIT_MAX_DEFINITIONS (extension_max_definitions self);
      limit_u32 extension_LIMIT_MAX_OBJECT_STAGES_PER_SESSION
        (extension_max_object_stages_per_session self);
      limit_u32 extension_LIMIT_MAX_FOLLOWS_PER_SESSION (extension_max_follows_per_session self);
      limit_u32 extension_LIMIT_MAX_RUNNING_ATTEMPTS (extension_max_running_attempts self);
      limit_u64 extension_LIMIT_MAX_MEMORY_BYTES (extension_max_memory_bytes self);
      limit_u64 extension_LIMIT_MAX_JOB_BYTES (extension_max_job_bytes self);
      limit_u32 extension_LIMIT_MAX_MUTATION_REPLAYS (extension_max_mutation_replays self)]).

Definition extension_Limits_from_extensions (exts : Extensions) : result Error extension_Limits :=
  _ ← reject_unknown_required_extensions exts
        [as_u16 extension_LIMIT_MAX_NAME_BYTES; as_u16 extension_LIMIT_MAX_ARGS; as_u16
          extension_LIMIT_MAX_ARGUMENT_BYTES; as_u16 extension_LIMIT_MAX_OBJECT_BYTES; as_u16
          extension_LIMIT_MAX_OUTPUT_RECORD_BYTES; as_u16
          extension_LIMIT_MAX_COMMAND_DESCRIPTOR_BYTES; as_u16 extension_LIMIT_MAX_COMMAND_RECORDS;
          as_u16 extension_LIMIT_MAX_DEFINITIONS; as_u16
          extension_LIMIT_MAX_OBJECT_STAGES_PER_SESSION; as_u16
          extension_LIMIT_MAX_FOLLOWS_PER_SESSION; as_u16 extension_LIMIT_MAX_RUNNING_ATTEMPTS;
          as_u16 extension_LIMIT_MAX_MEMORY_BYTES; as_u16 extension_LIMIT_MAX_JOB_BYTES; as_u16
          extension_LIMIT_MAX_MUTATION_REPLAYS]
        "unknown required Extension extension";
  max_name_bytes ← read_limit_u32 exts extension_LIMIT_MAX_NAME_BYTES;
  max_args ← read_limit_u32 exts extension_LIMIT_MAX_ARGS;
  max_argument_bytes ← read_limit_u64 exts extension_LIMIT_MAX_ARGUMENT_BYTES;
  max_object_bytes ← read_limit_u64 exts extension_LIMIT_MAX_OBJECT_BYTES;
  max_output_record_bytes ← read_limit_u32 exts extension_LIMIT_MAX_OUTPUT_RECORD_BYTES;
  max_command_descriptor_bytes ← read_limit_u32 exts extension_LIMIT_MAX_COMMAND_DESCRIPTOR_BYTES;
  max_command_records ← read_limit_u32 exts extension_LIMIT_MAX_COMMAND_RECORDS;
  max_definitions ← read_limit_u32 exts extension_LIMIT_MAX_DEFINITIONS;
  max_object_stages_per_session ← read_limit_u32 exts extension_LIMIT_MAX_OBJECT_STAGES_PER_SESSION;
  max_follows_per_session ← read_limit_u32 exts extension_LIMIT_MAX_FOLLOWS_PER_SESSION;
  max_running_attempts ← read_limit_u32 exts extension_LIMIT_MAX_RUNNING_ATTEMPTS;
  max_memory_bytes ← read_limit_u64 exts extension_LIMIT_MAX_MEMORY_BYTES;
  max_job_bytes ← read_limit_u64 exts extension_LIMIT_MAX_JOB_BYTES;
  max_mutation_replays ← read_limit_u32 exts extension_LIMIT_MAX_MUTATION_REPLAYS;
  let self := mk_extension_Limits max_name_bytes max_args max_argument_bytes max_object_bytes
    max_output_record_bytes max_command_descriptor_bytes max_command_records max_definitions
    max_object_stages_per_session max_follows_per_session max_running_attempts max_memory_bytes
    max_job_bytes max_mutation_replays in
  _ ← extension_Limits_validate self;
  Ok self.

(** ** [events::Limits] *)

Record events_Limits := mk_events_Limits {
  events_min_ring_bytes : Z; events_max_ring_bytes : Z; events_max_streams_per_session : Z;
    events_max_recordings : Z; events_max_recording_path_bytes : Z; events_max_live_batch_bytes : Z;
    events_max_pending_dumps : Z; events_max_mutation_replays : Z
}.

Definition events_Limits_HARD : events_Limits :=
  mk_events_Limits events_MIN_RING_BYTES events_MAX_RING_BYTES (as_u32
    events_MAX_STREAMS_PER_SESSION) (as_u32 events_MAX_RECORDINGS) (as_u32
    events_MAX_RECORDING_PATH_BYTES) (as_u32 events_MAX_LIVE_BATCH_BYTES) (as_u32
    events_MAX_PENDING_DUMPS) (as_u32 events_MAX_MUTATION_REPLAYS).

Definition events_Limits_validate (self : events_Limits) : result Error () :=
  let hard := events_Limits_HARD in
  reject_if
    ((events_min_ring_bytes self <? events_min_ring_bytes hard)
      || (events_max_ring_bytes self <? events_min_ring_bytes self)
      || (events_max_ring_bytes hard <? events_max_ring_bytes self)
      || any_outside [(events_max_streams_per_session self, events_max_streams_per_session hard);
        (events_max_recordings self, events_max_recordings hard); (events_max_recording_path_bytes
        self, events_max_recording_path_bytes hard); (events_max_live_batch_bytes self,
        events_max_live_batch_bytes hard); (events_max_pending_dumps self, events_max_pending_dumps
        hard); (events_max_mutation_replays self, events_max_mutation_replays hard)])
    (Invalid "Events family limit").

Definition events_Limits_to_extensions (self : events_Limits) : result Error Extensions :=
  _ ← events_Limits_validate self;
  Ok ([limit_u64 events_LIMIT_MIN_RING_BYTES (events_min_ring_bytes self);
      limit_u64 events_LIMIT_MAX_RING_BYTES (events_max_ring_bytes self);
      limit_u32 events_LIMIT_MAX_STREAMS_PER_SESSION (events_max_streams_per_session self);
      limit_u32 events_LIMIT_MAX_RECORDINGS (events_max_recordings self);
      limit_u32 events_LIMIT_MAX_RECORDING_PATH_BYTES (events_max_recording_path_bytes self);
      limit_u32 events_LIMIT_MAX_LIVE_BATCH_BYTES (events_max_live_batch_bytes self);
      limit_u32 events_LIMIT_MAX_PENDING_DUMPS (events_max_pending_dumps self);
      limit_u32 events_LIMIT_MAX_MUTATION_REPLAYS (events_max_mutation_replays self)]).

Definition events_Limits_from_extensions (exts : Extensions) : result Error events_Limits :=
  _ ← reject_unknown_required_extensions exts
        [as_u16 events_LIMIT_MIN_RING_BYTES; as_u16 events_LIMIT_MAX_RING_BYTES; as_u16
          events_LIMIT_MAX_STREAMS_PER_SESSION; as_u16 events_LIMIT_MAX_RECORDINGS; as_u16
          events_LIMIT_MAX_RECORDING_PATH_BYTES; as_u16 events_LIMIT_MAX_LIVE_BATCH_BYTES; as_u16
          events_LIMIT_MAX_PENDING_DUMPS; as_u16 events_LIMIT_MAX_MUTATION_REPLAYS]
        "unknown required Events extension";
  min_ring_bytes ← read_limit_u64 exts events_LIMIT_MIN_RING_BYTES;
  max_ring_bytes ← read_limit_u64 exts events_LIMIT_MAX_RING_BYTES;
  max_streams_per_session ← read_limit_u32 exts events_LIMIT_MAX_STREAMS_PER_SESSION;
  max_recordings ← read_limit_u32 exts events_LIMIT_MAX_RECORDINGS;
  max_recording_path_bytes ← read_limit_u32 exts events_LIMIT_MAX_RECORDING_PATH_BYTES;
  max_live_batch_bytes ← read_limit_u32 exts events_LIMIT_MAX_LIVE_BATCH_BYTES;
  max_pending_dumps ← read_limit_u32 exts events_LIMIT_MAX_PENDING_DUMPS;
  max_mutation_replays ← read_limit_u32 exts events_LIMIT_MAX_MUTATION_REPLAYS;
  let self := mk_events_Limits min_ring_bytes max_ring_bytes max_streams_per_session
    max_recordings max_recording_path_bytes max_live_batch_bytes max_pending_dumps
    max_mutation_replays in
  _ ← events_Limits_validate self;
  Ok self.

(** ** [env::Limits] *)

Record env_Limits := mk_env_Limits {
  env_max_key_bytes : Z; env_max_value_bytes : Z; env_max_entries : Z; env_max_total_data_bytes :
    Z; env_max_inline_bytes : Z; env_max_batch_bytes : Z
}.

Definition env_Limits_HARD : env_Limits :=
  mk_env_Limits (as_u32 env_MAX_KEY_BYTES) (as_u32 env_MAX_VALUE_BYTES) (as_u32 env_MAX_ENTRIES)
    env_MAX_TOTAL_DATA_BYTES (as_u32 env_MAX_INLINE_BYTES) (as_u32 env_MAX_BATCH_BYTES).

Definition env_Limits_validate (self : env_Limits) : result Error () :=
  let hard := env_Limits_HARD in
  _ ← reject_if ((env_max_key_bytes self =? 0)
      || (env_max_key_bytes hard <? env_max_key_bytes self)) (Invalid "Env max key bytes limit");
  _ ← reject_if ((env_max_value_bytes hard <? env_max_value_bytes self)) (Invalid "Env max value
    bytes limit");
  _ ← reject_if ((env_max_entries self =? 0)
      || (env_max_entries hard <? env_max_entries self)) (Invalid "Env max entries limit");
  _ ← reject_if ((env_max_total_data_bytes self =? 0)
      || (env_max_total_data_bytes hard <? env_max_total_data_bytes self)) (Invalid "Env max total
        data bytes limit");
  _ ← reject_if ((env_max_inline_bytes self =? 0)
      || (env_max_inline_bytes hard <? env_max_inline_bytes self)) (Invalid "Env max inline bytes
        limit");
  reject_if
    ((env_max_batch_bytes self =? 0)
      || (env_max_batch_bytes hard <? env_max_batch_bytes self))
    (Invalid "Env max batch bytes limit").

Definition env_Limits_to_extensions (self : env_Limits) : result Error Extensions :=
  _ ← env_Limits_validate self;
  Ok ([limit_u32 env_LIMIT_MAX_KEY_BYTES (env_max_key_bytes self);
      limit_u32 env_LIMIT_MAX_VALUE_BYTES (env_max_value_bytes self);
      limit_u32 env_LIMIT_MAX_ENTRIES (env_max_entries self);
      limit_u64 env_LIMIT_MAX_TOTAL_DATA_BYTES (env_max_total_data_bytes self);
      limit_u32 env_LIMIT_MAX_INLINE_BYTES (env_max_inline_bytes self);
      limit_u32 env_LIMIT_MAX_BATCH_BYTES (env_max_batch_bytes self)]).

Definition env_Limits_from_extensions (exts : Extensions) : result Error env_Limits :=
  _ ← reject_unknown_required_extensions exts
        [as_u16 env_LIMIT_MAX_KEY_BYTES; as_u16 env_LIMIT_MAX_VALUE_BYTES; as_u16
          env_LIMIT_MAX_ENTRIES; as_u16 env_LIMIT_MAX_TOTAL_DATA_BYTES; as_u16
          env_LIMIT_MAX_INLINE_BYTES; as_u16 env_LIMIT_MAX_BATCH_BYTES]
        "unknown required Env extension";
  max_key_bytes ← read_u32_in "missing Env family limit" "Env family limit length" exts
    env_LIMIT_MAX_KEY_BYTES;
  max_value_bytes ← read_u32_in "missing Env family limit" "Env family limit length" exts
    env_LIMIT_MAX_VALUE_BYTES;
  max_entries ← read_u32_in "missing Env family limit" "Env family limit length" exts
    env_LIMIT_MAX_ENTRIES;
  max_total_data_bytes ← read_u64_in "missing Env family limit" "Env family limit length" exts
    env_LIMIT_MAX_TOTAL_DATA_BYTES;
  max_inline_bytes ← read_u32_in "missing Env family limit" "Env family limit length" exts
    env_LIMIT_MAX_INLINE_BYTES;
  max_batch_bytes ← read_u32_in "missing Env family limit" "Env family limit length" exts
    env_LIMIT_MAX_BATCH_BYTES;
  let self := mk_env_Limits max_key_bytes max_value_bytes max_entries max_total_data_bytes
    max_inline_bytes max_batch_bytes in
  _ ← env_Limits_validate self;
  Ok self.
