(* ===== verification/Core.v ===== *)
(** * Core: HELLO negotiation and session control
      ([crates/yas/src/core.rs])

    The messages of the Core family: both HELLOs with their extensions, family
    descriptors, SESSION_INFO, the Result prefix, PING, CANCEL, SHUTDOWN, GOAWAY
    and the catalogue updates. *)

From S2P Require Import Prelude Schema Codec Kv FamilyLimits CodecFacts Wire Frame.

(** [bounded_count(count, decoder.remaining(), minimum_item_bytes, context)?] *)
Definition bounded_count (count minimum_item_bytes : Z) (context : string) : decoder Z :=
  room ← remaining;
  _ ← reject (room / minimum_item_bytes <? count) (Invalid context);
  mret count.

(** [for _ in 0..count { v.push(p(decoder)?) }] after the check. *)
Definition dec_counted {A} (count minimum_item_bytes : Z) (context : string) (p : decoder A) :
    decoder (list A) :=
  count ← bounded_count count minimum_item_bytes context;
  dec_repeat (Z.to_nat count) p.

(** Tries one family's [Limits]. *)
Definition accepts_limits {L} (r : result Error L) : result Error () := _ ← r; Ok ().

Definition validate_known_family_limits (family_id version : Z) (limits : Extensions) : result Error () :=
  let known fam v := (family_id =? fam) && (version =? v) in
  if known family_RELAY relay_VERSION then accepts_limits (relay_Limits_from_extensions limits)
  else if known family_FONT font_VERSION then accepts_limits (font_Limits_from_extensions limits)
  else if known family_TERMINAL terminal_VERSION then accepts_limits (terminal_Limits_from_extensions limits)
  else if known family_CLIENT client_VERSION then accepts_limits (client_Limits_from_extensions limits)
  else if known family_SURFACE surface_VERSION then accepts_limits (surface_Limits_from_extensions limits)
  else if known family_SELECTION selection_VERSION then accepts_limits (selection_Limits_from_extensions limits)
  else if known family_DESKTOP desktop_VERSION then accepts_limits (desktop_Limits_from_extensions limits)
  else if known family_MEDIA media_VERSION then accepts_limits (media_Limits_from_extensions limits)
  else if known family_FS fs_VERSION then accepts_limits (fs_Limits_from_extensions limits)
  else if known family_GIT git_VERSION then accepts_limits (git_Limits_from_extensions limits)
  else if known family_LSP lsp_VERSION then accepts_limits (lsp_Limits_from_extensions limits)
  else if known family_KV kv_VERSION then accepts_limits (KvLimits_from_extensions limits)
  else if known family_PROCESS process_VERSION then accepts_limits (process_Limits_from_extensions limits)
  else if known family_NET net_VERSION then accepts_limits (net_Limits_from_extensions limits)
  else if known family_CHANNEL channel_VERSION then accepts_limits (channel_Limits_from_extensions limits)
  else if known family_EXTENSION extension_VERSION then accepts_limits (extension_Limits_from_extensions limits)
  else if known family_EVENTS events_VERSION then accepts_limits (events_Limits_from_extensions limits)
  else if known family_ENV env_VERSION then accepts_limits (env_Limits_from_extensions limits)
  else Ok ().

(** ** Receive limits *)

Record ReceiveLimits := mkReceiveLimits {
  rl_max_frame : Z; rl_max_decoded : Z; rl_max_datagram : Z; rl_max_buffered : Z
}.

Definition ReceiveLimits_recommended (max_datagram : Z) : ReceiveLimits :=
  mkReceiveLimits transport_RECOMMENDED_WIRE_FRAME transport_RECOMMENDED_DECODED_FRAME max_datagram
    transport_RECOMMENDED_BUFFERED.

Definition ReceiveLimits_validate (l : ReceiveLimits) : result Error () :=
  _ ← reject_if ((rl_max_frame l <? as_u32 transport_CORRELATED_HEADER_BYTES)
                 || (transport_HARD_MAX_WIRE_FRAME <? rl_max_frame l))
        (Invalid "HELLO receive_max_frame");
  _ ← reject_if ((rl_max_decoded l <? rl_max_frame l)
                 || (transport_HARD_MAX_DECODED_FRAME <? rl_max_decoded l))
        (Invalid "HELLO receive_max_decoded");
  _ ← reject_if ((negb (rl_max_datagram l =? 0)
                  && (rl_max_datagram l <? as_u32 transport_EVENT_HEADER_BYTES))
                 || (transport_HARD_MAX_DATAGRAM <? rl_max_datagram l))
        (Invalid "HELLO receive_max_datagram");
  reject_if ((rl_max_buffered l =? 0) || (transport_HARD_MAX_BUFFERED <? rl_max_buffered l))
    (Invalid "HELLO receive_max_buffered").

Definition ReceiveLimits_validate_update_from (l previous : ReceiveLimits) : result Error () :=
  _ ← ReceiveLimits_validate l;
  reject_if ((rl_max_frame l <? rl_max_frame previous) || (rl_max_decoded l <? rl_max_decoded previous))
    (Invalid "SESSION_UPDATE frame limit reduction").

Definition ReceiveLimits_encode_to (l : ReceiveLimits) (out : list byte) : result Error (list byte) :=
  _ ← ReceiveLimits_validate l;
  Ok (put_u64 (put_u32 (put_u32 (put_u32 out (rl_max_frame l)) (rl_max_decoded l)) (rl_max_datagram l))
        (rl_max_buffered l)).

Definition ReceiveLimits_decode_from : decoder ReceiveLimits :=
  max_frame ← dec_u32;
  max_decoded ← dec_u32;
  max_datagram ← dec_u32;
  max_buffered ← dec_u64;
  let value := mkReceiveLimits max_frame max_decoded max_datagram max_buffered in
  _ ← lift (ReceiveLimits_validate value);
  mret value.

(** ** Client HELLO *)

Record FamilyOffer := mkFamilyOffer { fo_family_id : Z; fo_versions : list Z; fo_required : bool }.

Definition FamilyOffer_validate (o : FamilyOffer) : result Error () :=
  _ ← reject_if ((fo_family_id o =? family_CORE) || is_nil (fo_versions o)
                 || existsb (Z.eqb 0) (fo_versions o))
        (Invalid "HELLO family offer");
  reject_if ((U8_MAX <? len (fo_versions o)) || any_adjacent Z.leb (fo_versions o))
    (Invalid "HELLO family version order").

Record InitialWatch := mkInitialWatch {
  iw_family_id : Z; iw_family_version : Z; iw_watch_payload : list byte
}.
Definition InitialWatches : Type := list InitialWatch.

Definition InitialWatch_check (w : InitialWatch) : result Error () :=
  reject_if ((iw_family_id w =? family_CORE) || (iw_family_version w =? 0))
    (Invalid "initial WATCH family").

Definition encode_initial_watch (w : InitialWatch) (out : list byte) : result Error (list byte) :=
  _ ← InitialWatch_check w;
  put_bytes_u32 (put_u16 (put_u16 out (iw_family_id w)) (iw_family_version w)) (iw_watch_payload w).

#[export] Instance InitialWatches_encode_to : Encode InitialWatches := fun v out =>
  n ← ok_or (try_u16 (len v)) LengthOverflow;
  try_fold encode_initial_watch v (put_u16 out n).

Definition decode_initial_watch : decoder InitialWatch :=
  family_id ← dec_u16;
  family_version ← dec_u16;
  watch_payload ← dec_len_bytes_u32;
  let watch := mkInitialWatch family_id family_version watch_payload in
  _ ← lift (InitialWatch_check watch);
  mret watch.

Definition InitialWatches_read : decoder InitialWatches :=
  count ← dec_u16;
  watches ← dec_counted count 8 "initial WATCH count" decode_initial_watch;
  _ ← dec_finish;
  mret watches.

#[export] Instance InitialWatches_decode : Decode InitialWatches := fun input =>
  run InitialWatches_read (Decoder_new input).

Definition InitialWatches_extension (v : InitialWatches) : result Error Extension :=
  value ← encode v;
  Ok (mkExtension (as_u16 core_CLIENT_HELLO_INITIAL_WATCHES_EXTENSION) false value).

Definition MAX_CLIENT_IDENTIFIER_BYTES : Z := core_MAX_CLIENT_IDENTIFIER_BYTES.

Definition check_client_identifier (value : list byte) : result Error (list byte) :=
  _ ← reject_if (MAX_CLIENT_IDENTIFIER_BYTES <? len value)
        (LimitExceeded "client identifier bytes" (len value) MAX_CLIENT_IDENTIFIER_BYTES);
  ok_or (from_utf8 value) InvalidUtf8.

Definition CLIENT_IDENTIFIER_TAG : Z := as_u16 core_CLIENT_HELLO_IDENTIFIER_EXTENSION.

Definition client_identifier_extension (identifier : list byte) : result Error Extension :=
  _ ← check_client_identifier identifier;
  Ok (mkExtension CLIENT_IDENTIFIER_TAG false identifier).

Definition client_identifier (exts : Extensions) : result Error (option (list byte)) :=
  match find_ext exts CLIENT_IDENTIFIER_TAG with
  | Some e => s ← check_client_identifier (ext_value e); Ok (Some s)
  | None => Ok None
  end.

Record ClientHello := mkClientHello {
  hc_min_minor : Z; hc_max_minor : Z; hc_receive : ReceiveLimits; hc_client_instance : list byte;
  hc_client_name : list byte; hc_client_release : list byte; hc_families : list FamilyOffer;
  hc_codecs : list Z; hc_extensions : Extensions
}.

Definition client_extension_check (e : Extension) : result Error () :=
  if ext_tag e =? core_CLIENT_HELLO_IDLE_TIMEOUT_EXTENSION then
    reject_if (negb (len (ext_value e) =? 8)) (Invalid "HELLO idle timeout extension")
  else if ext_tag e =? core_CLIENT_HELLO_INITIAL_WATCHES_EXTENSION then
    _ ← (decode (ext_value e) : result Error InitialWatches); Ok ()
  else if (ext_tag e =? core_CLIENT_HELLO_READ_ONLY_SESSION_EXTENSION)
          && (negb (ext_required e) || negb (is_nil (ext_value e))) then
    Err (Invalid "HELLO read-only session extension")
  else if ext_tag e =? core_CLIENT_HELLO_IDENTIFIER_EXTENSION then
    _ ← check_client_identifier (ext_value e); Ok ()
  else Ok ().

Definition ClientHello_validate (v : ClientHello) : result Error () :=
  _ ← reject_if (hc_max_minor v <? hc_min_minor v) (Invalid "HELLO Core minor range");
  _ ← ReceiveLimits_validate (hc_receive v);
  _ ← reject_if ((U16_MAX <? len (hc_families v))
                 || any_adjacent (λ a b, fo_family_id b <=? fo_family_id a) (hc_families v))
        (Invalid "HELLO family order");
  _ ← for_each FamilyOffer_validate (hc_families v);
  _ ← reject_if (U8_MAX <? len (hc_codecs v)) LengthOverflow;
  _ ← reject_if (existsb (Z.eqb 0) (hc_codecs v) || any_adjacent (λ a b, b <=? a) (hc_codecs v))
        (Invalid "HELLO codec order");
  _ ← Extensions_validate (hc_extensions v);
  for_each client_extension_check (hc_extensions v).

Definition put_u16s (l : list Z) (out : list byte) : list byte := foldl put_u16 out l.

Definition encode_offer (o : FamilyOffer) (out : list byte) : result Error (list byte) :=
  let out := put_u16 out (fo_family_id o) in
  n ← ok_or (try_u8 (len (fo_versions o))) LengthOverflow;
  let out := push_u8 (push_u8 out n) (of_bool (fo_required o)) in
  Ok (put_u16s (fo_versions o) out).

#[export] Instance ClientHello_encode_to : Encode ClientHello := fun v out =>
  _ ← ClientHello_validate v;
  let out := put_u16 (put_u16 out (hc_min_minor v)) (hc_max_minor v) in
  out ← ReceiveLimits_encode_to (hc_receive v) out;
  let out := out ++ hc_client_instance v in
  out ← put_string_u16 out (hc_client_name v);
  out ← put_string_u16 out (hc_client_release v);
  n ← ok_or (try_u16 (len (hc_families v))) LengthOverflow;
  out ← try_fold encode_offer (hc_families v) (put_u16 out n);
  m ← ok_or (try_u8 (len (hc_codecs v))) LengthOverflow;
  Extensions_encode_tail (hc_extensions v) (put_u16s (hc_codecs v) (push_u8 out m)).

Definition decode_offer : decoder FamilyOffer :=
  family_id ← dec_u16;
  version_count ← dec_u8;
  offer_flags ← dec_u8;
  _ ← reject (has_other_bits offer_flags 1) (Invalid "HELLO family offer flags");
  versions ← dec_counted version_count 2 "HELLO family version count" dec_u16;
  mret (mkFamilyOffer family_id versions (has_bits offer_flags 1)).

Definition ClientHello_read : decoder ClientHello :=
  min_minor ← dec_u16;
  max_minor ← dec_u16;
  receive ← ReceiveLimits_decode_from;
  client_instance ← dec_array_16;
  client_name ← dec_string_u16;
  client_release ← dec_string_u16;
  family_count ← dec_u16;
  families ← dec_counted family_count 4 "HELLO family count" decode_offer;
  codec_count ← dec_u8;
  codecs ← dec_counted codec_count 2 "HELLO codec count" dec_u16;
  extensions ← dec_extensions;
  _ ← dec_finish;
  mret (mkClientHello min_minor max_minor receive client_instance client_name client_release families
          codecs extensions).

#[export] Instance ClientHello_decode : Decode ClientHello := fun input =>
  value ← run ClientHello_read (Decoder_new input);
  _ ← ClientHello_validate value;
  Ok value.

(** ** Codec selection and platform *)

Definition NegotiatedCodecs : Type := list Z.

Definition NegotiatedCodecs_validate (v : NegotiatedCodecs) : result Error () :=
  _ ← reject_if (U8_MAX <? len v) LengthOverflow;
  reject_if (existsb (Z.eqb 0) v || any_adjacent (λ a b, b <=? a) v) (Invalid "negotiated codec order").

#[export] Instance NegotiatedCodecs_encode_to : Encode NegotiatedCodecs := fun v out =>
  _ ← NegotiatedCodecs_validate v;
  n ← ok_or (try_u8 (len v)) LengthOverflow;
  Ok (put_u16s v (push_u8 out n)).

Definition NegotiatedCodecs_read : decoder NegotiatedCodecs :=
  count ← dec_u8;
  codecs ← dec_counted count 2 "negotiated codec count" dec_u16;
  _ ← dec_finish;
  mret codecs.

#[export] Instance NegotiatedCodecs_decode : Decode NegotiatedCodecs := fun input =>
  value ← run NegotiatedCodecs_read (Decoder_new input);
  _ ← NegotiatedCodecs_validate value;
  Ok value.

(** [hello.codecs.binary_search(codec)] on a list [hello.validate()] found sorted and
    free of duplicates finds exactly its members. *)
Definition NegotiatedCodecs_validate_offered_by (v : NegotiatedCodecs) (hello : ClientHello) :
    result Error () :=
  _ ← NegotiatedCodecs_validate v;
  _ ← ClientHello_validate hello;
  reject_if (existsb (λ codec, negb (existsb (Z.eqb codec) (hc_codecs hello))) v)
    (Invalid "server selected unoffered codec").

Definition NegotiatedCodecs_extension (v : NegotiatedCodecs) : result Error Extension :=
  value ← encode v;
  Ok (mkExtension (as_u16 core_SERVER_HELLO_NEGOTIATED_CODECS_EXTENSION) false value).

Record Platform := mkPlatform { pf_os : list byte; pf_arch : list byte; pf_env : list byte }.

Definition MAX_PLATFORM_FIELD_BYTES : Z := 64.

Definition platform_field_check (field : list byte) : result Error () :=
  reject_if (MAX_PLATFORM_FIELD_BYTES <? len field) (Invalid "HELLO platform field length").

Definition Platform_validate (v : Platform) : result Error () :=
  for_each platform_field_check [pf_os v; pf_arch v; pf_env v].

#[export] Instance Platform_encode_to : Encode Platform := fun v out =>
  _ ← Platform_validate v;
  try_fold (λ field out, put_string_u16 out field) [pf_os v; pf_arch v; pf_env v] out.

Definition platform_field : decoder (list byte) :=
  value ← dec_string_u16;
  _ ← lift (platform_field_check value);
  mret value.

Definition Platform_read : decoder Platform :=
  os ← platform_field;
  arch ← platform_field;
  env ← platform_field;
  _ ← dec_finish;
  mret (mkPlatform os arch env).

#[export] Instance Platform_decode : Decode Platform := fun input => run Platform_read (Decoder_new input).

Definition Platform_extension (v : Platform) (tag : Z) : result Error Extension :=
  value ← encode v;
  Ok (mkExtension tag false value).

Definition Platform_from_extensions (exts : Extensions) (tag : Z) : option Platform :=
  e ← find_ext exts tag;
  match (decode (ext_value e) : result Error Platform) with Ok v => Some v | Err _ => None end.

Definition validate_result_or_event_extensions (exts : Extensions) (context : string) : result Error () :=
  _ ← Extensions_validate exts;
  reject_if (existsb ext_required exts) (Invalid context).

(** ** Family descriptors *)

Inductive RuntimeState := Available | Degraded | Unavailable.

Definition RuntimeState_u8 (s : RuntimeState) : Z :=
  match s with
  | Available => as_u8 core_RUNTIME_AVAILABLE
  | Degraded => as_u8 core_RUNTIME_DEGRADED
  | Unavailable => as_u8 core_RUNTIME_UNAVAILABLE
  end.

Definition RuntimeState_try_from (value : Z) : result Error RuntimeState :=
  if value =? as_u8 core_RUNTIME_AVAILABLE then Ok Available
  else if value =? as_u8 core_RUNTIME_DEGRADED then Ok Degraded
  else if value =? as_u8 core_RUNTIME_UNAVAILABLE then Ok Unavailable
  else Err (Invalid "family runtime state").

Record Operation := mkOperation {
  oper_server_accepts : bool; oper_server_sends : bool; oper_class : Class_; oper_kind : Z
}.

#[global] Instance Class_eq_dec : EqDecision Class_.
Proof. solve_decision. Defined.

Definition Operation_from_schema (metadata : OperationMetadata) : result Error Operation :=
  class ← (if op_class metadata =? transport_class_EVENT then Ok Event
           else if op_class metadata =? transport_class_REQUEST then Ok Request
           else Err (Invalid "schema operation class"));
  directions ← (if op_direction metadata =? transport_direction_CLIENT_TO_SERVER then Ok (true, false)
                else if op_direction metadata =? transport_direction_SERVER_TO_CLIENT then Ok (false, true)
                else if op_direction metadata =? transport_direction_BIDIRECTIONAL then Ok (true, true)
                else Err (Invalid "schema operation direction"));
  Ok (mkOperation directions.1 directions.2 class (op_kind metadata)).

Definition Operation_validate (o : Operation) : result Error () :=
  reject_if ((negb (oper_server_accepts o) && negb (oper_server_sends o))
             || bool_decide (oper_class o = Result))
    (Invalid "family operation class or direction").

Definition Operation_encode_to (o : Operation) (out : list byte) : result Error (list byte) :=
  _ ← Operation_validate o;
  let direction :=
    Z.lor (of_bool (oper_server_accepts o) * as_u8 core_DIRECTION_ACCEPTS)
          (of_bool (oper_server_sends o) * as_u8 core_DIRECTION_SENDS) in
  Ok (put_u16 (push_u8 (push_u8 out direction) (Class_u8 (oper_class o))) (oper_kind o)).

Definition Operation_decode_from : decoder Operation :=
  direction ← dec_u8;
  let known := as_u8 (Z.lor core_DIRECTION_ACCEPTS core_DIRECTION_SENDS) in
  _ ← reject ((direction =? 0) || has_other_bits direction known) (Invalid "family operation direction");
  code ← dec_u8;
  class ← lift (if code =? 0 then Ok Event else if code =? 1 then Ok Request
                else Err (Invalid "family operation class"));
  kind ← dec_u16;
  let value := mkOperation (has_bits direction (as_u8 core_DIRECTION_ACCEPTS))
                 (has_bits direction (as_u8 core_DIRECTION_SENDS)) class kind in
  _ ← lift (Operation_validate value);
  mret value.

Record FamilyDescriptor := mkDescriptor {
  fd_family_id : Z; fd_version : Z; fd_runtime_state : RuntimeState; fd_operations : list Operation;
  fd_limits : Extensions
}.

Definition same_operation (a b : Operation) : bool :=
  bool_decide (oper_class a = oper_class b) && (oper_kind a =? oper_kind b).

(** The body of the loop over the operations, after the duplicate check. *)
Definition operation_check (family_id version : Z) (o : Operation) : result Error () :=
  _ ← Operation_validate o;
  match family_metadata family_id version with
  | None => Ok ()
  | Some family =>
      match find_first (λ m, (op_class m =? Class_u8 (oper_class o)) && (op_kind m =? oper_kind o))
              (fam_operations family) with
      | None => Ok ()
      | Some metadata =>
          allowed ← Operation_from_schema metadata;
          reject_if ((oper_server_accepts o && negb (oper_server_accepts allowed))
                     || (oper_server_sends o && negb (oper_server_sends allowed)))
            (Invalid "family operation direction exceeds schema")
      end
  end.

Fixpoint operations_check (family_id version : Z) (previous rest : list Operation) : result Error () :=
  match rest with
  | [] => Ok ()
  | o :: rest' =>
      _ ← reject_if (existsb (λ p, same_operation p o) previous) (Invalid "duplicate family operation");
      _ ← operation_check family_id version o;
      operations_check family_id version (previous ++ [o]) rest'
  end.

(** One limit policy of the registry against the advertised limits. *)
Definition limit_policy_check (limits : Extensions) (policy : LimitMetadata) : result Error () :=
  match find_ext limits (lim_tag policy) with
  | None => reject_if (lim_required policy) (Invalid "missing required family limit")
  | Some e =>
      _ ← reject_if (negb (len (ext_value e) =? LimitValueType_width (lim_type policy)))
            (Invalid "family limit length");
      value ← ok_or (le_exact (LimitValueType_width (lim_type policy)) (ext_value e))
                (Invalid "family limit length");
      _ ← reject_if (value <? lim_hard_min policy) (Invalid "family limit below hard minimum");
      reject_if (lim_hard_max policy <? value) (LimitExceeded "family limit" value (lim_hard_max policy))
  end.

Definition FamilyDescriptor_validate (d : FamilyDescriptor) : result Error () :=
  _ ← reject_if ((fd_version d =? 0) || (U16_MAX <? len (fd_operations d)))
        (Invalid "family descriptor version or operation count");
  _ ← operations_check (fd_family_id d) (fd_version d) [] (fd_operations d);
  _ ← Extensions_validate (fd_limits d);
  _ ← reject_if (existsb ext_required (fd_limits d)) (Invalid "required family limit extension");
  match family_metadata (fd_family_id d) (fd_version d) with
  | None => Ok ()
  | Some family =>
      _ ← for_each (limit_policy_check (fd_limits d)) (fam_limits family);
      validate_known_family_limits (fd_family_id d) (fd_version d) (fd_limits d)
  end.

Definition FamilyDescriptor_operation (d : FamilyDescriptor) (class : Class_) (kind : Z) :
    option Operation :=
  find_first (λ o, bool_decide (oper_class o = class) && (oper_kind o =? kind)) (fd_operations d).

Definition FamilyDescriptor_encode_record (d : FamilyDescriptor) (out : list byte) :
    result Error (list byte) :=
  _ ← FamilyDescriptor_validate d;
  let body := put_u16 (put_u16 [] (fd_family_id d)) (fd_version d) in
  let body := push_u8 (push_u8 body (RuntimeState_u8 (fd_runtime_state d))) 0 in
  let body := put_u16 body (as_u16 (len (fd_operations d))) in
  body ← try_fold Operation_encode_to (fd_operations d) body;
  limits ← Extensions_encode_entries (fd_limits d) [];
  body ← put_len_u32 body (len limits);
  let body := body ++ limits in
  out ← put_len_u32 out (len body);
  Ok (out ++ body).

Definition FamilyDescriptor_read : decoder FamilyDescriptor :=
  family_id ← dec_u16;
  version ← dec_u16;
  state ← dec_u8;
  runtime_state ← lift (RuntimeState_try_from state);
  reserved ← dec_u8;
  _ ← reject (negb (reserved =? 0)) (Invalid "family descriptor reserved byte");
  operation_count ← dec_u16;
  operations ← dec_counted operation_count 4 "family operation count" Operation_decode_from;
  entries ← dec_len_bytes_u32;
  limits ← lift (Extensions_decode_entries entries);
  _ ← dec_finish;
  mret (mkDescriptor family_id version runtime_state operations limits).

Definition FamilyDescriptor_decode_record : decoder FamilyDescriptor :=
  record ← dec_len_bytes_u32;
  value ← lift (run FamilyDescriptor_read (Decoder_new record));
  _ ← lift (FamilyDescriptor_validate value);
  mret value.

Definition validate_family_dependencies (families : list FamilyDescriptor) (context : string) :
    result Error () :=
  for_each (λ family,
    match family_metadata (fd_family_id family) (fd_version family) with
    | None => Ok ()
    | Some metadata =>
        reject_if (existsb (λ dependency,
                     negb (existsb (λ candidate, fd_family_id candidate =? dependency) families))
                     (fam_dependencies metadata))
          (Invalid context)
    end) families.

(** The families of a HELLO Result or SESSION_INFO: Core first, ascending, valid, closed
    under dependencies. *)
Definition families_check (families : list FamilyDescriptor) (order dependency : string) :
    result Error () :=
  _ ← reject_if (match families with
                 | [] => true
                 | core :: _ => negb (fd_family_id core =? family_CORE)
                                || negb (fd_version core =? core_VERSION)
                 end
                 || (U16_MAX <? len families)
                 || any_adjacent (λ a b, fd_family_id b <=? fd_family_id a) families)
        (Invalid order);
  _ ← for_each FamilyDescriptor_validate families;
  validate_family_dependencies families dependency.

(** ** Results *)

Record ResultPrefix := mkResultPrefix { rp_status : Status; rp_detail : Extensions; rp_body : list byte }.

Definition Status_is_ok (s : Status) : bool := match s with Status_Ok => true | _ => false end.

Definition ResultPrefix_check (v : ResultPrefix) : result Error () :=
  _ ← reject_if (negb (Status_is_ok (rp_status v)) && negb (is_nil (rp_body v)))
        (Invalid "failed Result operation body");
  validate_result_or_event_extensions (rp_detail v) "required Result detail extension".

(** [encode_entries] into a fresh buffer, then length and bytes. *)
Definition put_detail (detail : Extensions) (out : list byte) : result Error (list byte) :=
  entries ← Extensions_encode_entries detail [];
  out ← put_len_u32 out (len entries);
  Ok (out ++ entries).

#[export] Instance ResultPrefix_encode_to : Encode ResultPrefix := fun v out =>
  _ ← ResultPrefix_check v;
  out ← put_detail (rp_detail v) (put_u16 (put_u16 out (Status_code (rp_status v))) 0);
  Ok (out ++ rp_body v).

Definition ResultPrefix_read : decoder ResultPrefix :=
  code ← dec_u16;
  flags ← dec_u16;
  _ ← reject (negb (flags =? 0)) (Invalid "Result flags");
  entries ← dec_len_bytes_u32;
  detail ← lift (Extensions_decode_entries entries);
  body ← dec_rest;
  _ ← dec_finish;
  mret (mkResultPrefix (Status_from_code code) detail body).

#[export] Instance ResultPrefix_decode : Decode ResultPrefix := fun input =>
  value ← run ResultPrefix_read (Decoder_new input);
  _ ← ResultPrefix_check value;
  Ok value.

Definition InitialWatchResults : Type := list ResultPrefix.

Definition encode_watch_result (r : ResultPrefix) (out : list byte) : result Error (list byte) :=
  encoded ← encode r;
  put_bytes_u32 out encoded.

#[export] Instance InitialWatchResults_encode_to : Encode InitialWatchResults := fun v out =>
  n ← ok_or (try_u16 (len v)) LengthOverflow;
  try_fold encode_watch_result v (put_u16 out n).

Definition decode_watch_result : decoder ResultPrefix :=
  bytes ← dec_len_bytes_u32;
  lift (decode bytes).

Definition InitialWatchResults_read : decoder InitialWatchResults :=
  count ← dec_u16;
  results ← dec_counted count 4 "initial WATCH Result count" decode_watch_result;
  _ ← dec_finish;
  mret results.

#[export] Instance InitialWatchResults_decode : Decode InitialWatchResults := fun input =>
  run InitialWatchResults_read (Decoder_new input).

Definition InitialWatchResults_extension (v : InitialWatchResults) : result Error Extension :=
  value ← encode v;
  Ok (mkExtension (as_u16 core_SERVER_HELLO_INITIAL_WATCH_RESULTS_EXTENSION) false value).

(** ** Server HELLO *)

Record ServerHello := mkServerHello {
  hs_minor : Z; hs_boot_id : list byte; hs_session_id : list byte; hs_receive : ReceiveLimits;
  hs_server_monotonic_ns : Z; hs_catalog_revision : Z; hs_server_name : list byte;
  hs_server_release : list byte; hs_families : list FamilyDescriptor; hs_extensions : Extensions
}.

Definition server_extension_check (e : Extension) : result Error () :=
  if ext_tag e =? core_SERVER_HELLO_INITIAL_WATCH_RESULTS_EXTENSION then
    _ ← (decode (ext_value e) : result Error InitialWatchResults); Ok ()
  else if ext_tag e =? core_SERVER_HELLO_NEGOTIATED_CODECS_EXTENSION then
    _ ← (decode (ext_value e) : result Error NegotiatedCodecs); Ok ()
  else Ok ().

Definition ServerHello_validate (v : ServerHello) : result Error () :=
  _ ← ReceiveLimits_validate (hs_receive v);
  _ ← families_check (hs_families v) "HELLO selected family order" "HELLO missing family dependency";
  _ ← validate_result_or_event_extensions (hs_extensions v) "required HELLO Result extension";
  for_each server_extension_check (hs_extensions v).

Definition ServerHello_negotiated_codecs (v : ServerHello) : result Error NegotiatedCodecs :=
  match find_ext (hs_extensions v) core_SERVER_HELLO_NEGOTIATED_CODECS_EXTENSION with
  | Some e => decode (ext_value e)
  | None => Ok []
  end.

Definition selected_check (client : ClientHello) (d : FamilyDescriptor) : result Error () :=
  match find_first (λ offer, fo_family_id offer =? fd_family_id d) (hc_families client) with
  | None => Err (Invalid "server selected unoffered family")
  | Some offer =>
      reject_if (negb (existsb (Z.eqb (fd_version d)) (fo_versions offer)))
        (Invalid "server selected unoffered family version")
  end.

Definition ServerHello_validate_for_client (v : ServerHello) (client : ClientHello) : result Error () :=
  _ ← ServerHello_validate v;
  _ ← reject_if ((hs_minor v <? hc_min_minor client) || (hc_max_minor client <? hs_minor v))
        (Invalid "server selected unoffered Core minor");
  _ ← for_each (selected_check client) (drop 1 (hs_families v));
  _ ← reject_if (existsb (λ offer, fo_required offer
                   && negb (existsb (λ d, fd_family_id d =? fo_family_id offer) (hs_families v)))
                   (hc_families client))
        (Invalid "server omitted required family");
  codecs ← ServerHello_negotiated_codecs v;
  NegotiatedCodecs_validate_offered_by codecs client.

#[export] Instance ServerHello_encode_to : Encode ServerHello := fun v out =>
  _ ← ServerHello_validate v;
  let out := put_u16 (put_u16 out (hs_minor v)) 0 in
  let out := out ++ hs_boot_id v ++ hs_session_id v in
  out ← ReceiveLimits_encode_to (hs_receive v) out;
  let out := put_u64 (put_u64 out (hs_server_monotonic_ns v)) (hs_catalog_revision v) in
  out ← put_string_u16 out (hs_server_name v);
  out ← put_string_u16 out (hs_server_release v);
  out ← try_fold FamilyDescriptor_encode_record (hs_families v)
          (put_u16 out (as_u16 (len (hs_families v))));
  Extensions_encode_tail (hs_extensions v) out.

Definition ServerHello_read : decoder ServerHello :=
  minor ← dec_u16;
  reserved ← dec_u16;
  _ ← reject (negb (reserved =? 0)) (Invalid "HELLO result reserved field");
  boot_id ← dec_array_16;
  session_id ← dec_array_16;
  receive ← ReceiveLimits_decode_from;
  server_monotonic_ns ← dec_u64;
  catalog_revision ← dec_u64;
  server_name ← dec_string_u16;
  server_release ← dec_string_u16;
  family_count ← dec_u16;
  families ← dec_counted family_count 16 "HELLO selected family count" FamilyDescriptor_decode_record;
  extensions ← dec_extensions;
  _ ← dec_finish;
  mret (mkServerHello minor boot_id session_id receive server_monotonic_ns catalog_revision server_name
          server_release families extensions).

#[export] Instance ServerHello_decode : Decode ServerHello := fun input =>
  value ← run ServerHello_read (Decoder_new input);
  _ ← ServerHello_validate value;
  Ok value.

(** ** Session information *)

Record ServerDiagnostics := mkDiagnostics {
  sd_active_sessions : Z; sd_relay_active : Z; sd_relay_pending : Z; sd_aggregate_receive_limit : Z;
  sd_aggregate_receive_buffered : Z
}.

Definition ServerDiagnostics_validate (v : ServerDiagnostics) : result Error () :=
  reject_if (sd_aggregate_receive_limit v <? sd_aggregate_receive_buffered v)
    (Invalid "server diagnostics aggregate receive budget").

#[export] Instance ServerDiagnostics_encode_to : Encode ServerDiagnostics := fun v out =>
  _ ← ServerDiagnostics_validate v;
  let out := put_u32 (put_u32 (put_u32 out (sd_active_sessions v)) (sd_relay_active v)) (sd_relay_pending v) in
  let out := put_u32 out 0 in
  Ok (put_u64 (put_u64 out (sd_aggregate_receive_limit v)) (sd_aggregate_receive_buffered v)).

Definition ServerDiagnostics_read : decoder ServerDiagnostics :=
  active_sessions ← dec_u32;
  relay_active ← dec_u32;
  relay_pending ← dec_u32;
  reserved ← dec_u32;
  _ ← reject (negb (reserved =? 0)) (Invalid "server diagnostics reserved field");
  aggregate_receive_limit ← dec_u64;
  aggregate_receive_buffered ← dec_u64;
  _ ← dec_finish;
  mret (mkDiagnostics active_sessions relay_active relay_pending aggregate_receive_limit
          aggregate_receive_buffered).

#[export] Instance ServerDiagnostics_decode : Decode ServerDiagnostics := fun input =>
  value ← run ServerDiagnostics_read (Decoder_new input);
  _ ← ServerDiagnostics_validate value;
  Ok value.

Definition ServerDiagnostics_extension (v : ServerDiagnostics) : result Error Extension :=
  value ← encode v;
  Ok (mkExtension (as_u16 core_SESSION_INFO_SERVER_DIAGNOSTICS_EXTENSION) false value).

Record SessionInfo := mkSessionInfo {
  si_session_id : list byte; si_catalog_revision : Z; si_receive : ReceiveLimits;
  si_server_monotonic_ns : Z; si_families : list FamilyDescriptor; si_extensions : Extensions
}.

Definition SessionInfo_server_diagnostics (v : SessionInfo) : result Error (option ServerDiagnostics) :=
  match find_ext (si_extensions v) core_SESSION_INFO_SERVER_DIAGNOSTICS_EXTENSION with
  | Some e => d ← decode (ext_value e); Ok (Some d)
  | None => Ok None
  end.

Definition SessionInfo_validate (v : SessionInfo) : result Error () :=
  _ ← ReceiveLimits_validate (si_receive v);
  _ ← families_check (si_families v) "SESSION_INFO family order" "SESSION_INFO missing family dependency";
  _ ← validate_result_or_event_extensions (si_extensions v) "required SESSION_INFO Result extension";
  match find_ext (si_extensions v) core_SESSION_INFO_SERVER_DIAGNOSTICS_EXTENSION with
  | Some e => _ ← (decode (ext_value e) : result Error ServerDiagnostics); Ok ()
  | None => Ok ()
  end.

Definition same_family (a b : FamilyDescriptor) : bool :=
  (fd_family_id a =? fd_family_id b) && (fd_version a =? fd_version b).

Definition SessionInfo_validate_after (v : SessionInfo) (session_id : list byte) (current_revision : Z)
    (previous_receive : ReceiveLimits) (previous_families : list FamilyDescriptor) : result Error () :=
  _ ← SessionInfo_validate v;
  _ ← reject_if (negb (bool_decide (si_session_id v = session_id)))
        (Invalid "SESSION_INFO session ID change");
  _ ← reject_if (si_catalog_revision v <? current_revision)
        (Invalid "SESSION_INFO catalog revision regression");
  _ ← ReceiveLimits_validate_update_from (si_receive v) previous_receive;
  reject_if (negb (len (si_families v) =? len previous_families)
             || existsb (λ p, negb (same_family p.1 p.2)) (combine (si_families v) previous_families))
    (Invalid "SESSION_INFO family or version change").

#[export] Instance SessionInfo_encode_to : Encode SessionInfo := fun v out =>
  _ ← SessionInfo_validate v;
  let out := put_u64 (out ++ si_session_id v) (si_catalog_revision v) in
  out ← ReceiveLimits_encode_to (si_receive v) out;
  let out := put_u64 out (si_server_monotonic_ns v) in
  out ← try_fold FamilyDescriptor_encode_record (si_families v)
          (put_u16 out (as_u16 (len (si_families v))));
  Extensions_encode_tail (si_extensions v) out.

Definition SessionInfo_read : decoder SessionInfo :=
  session_id ← dec_array_16;
  catalog_revision ← dec_u64;
  receive ← ReceiveLimits_decode_from;
  server_monotonic_ns ← dec_u64;
  family_count ← dec_u16;
  families ← dec_counted family_count 16 "SESSION_INFO family count" FamilyDescriptor_decode_record;
  extensions ← dec_extensions;
  _ ← dec_finish;
  mret (mkSessionInfo session_id catalog_revision receive server_monotonic_ns families extensions).

#[export] Instance SessionInfo_decode : Decode SessionInfo := fun input =>
  value ← run SessionInfo_read (Decoder_new input);
  _ ← SessionInfo_validate value;
  Ok value.
