(* ===== verification/CoreControl.v ===== *)
(** * CoreControl: session control and catalogue updates
      ([crates/yas/src/core.rs])

    PING, CANCEL, SHUTDOWN, GOAWAY, and the SESSION_UPDATE and FAMILY_UPDATE
    events that revise what HELLO agreed. *)

From S2P Require Import Prelude Schema Codec Kv FamilyLimits CodecFacts Wire Frame Core.

Record Ping := mkPing { pi_sender_monotonic_ns : Z }.

(** [fixed_u64_codec!] *)
#[export] Instance Ping_encode_to : Encode Ping := fun v out => Ok (put_u64 out (pi_sender_monotonic_ns v)).
Definition Ping_read : decoder Ping := ns ← dec_u64; _ ← dec_finish; mret (mkPing ns).
#[export] Instance Ping_decode : Decode Ping := fun input => run Ping_read (Decoder_new input).

Record PingResult := mkPingResult { pr_receiver_receive_ns : Z; pr_receiver_send_ns : Z }.

Definition PingResult_validate (v : PingResult) : result Error () :=
  reject_if (pr_receiver_send_ns v <? pr_receiver_receive_ns v) (Invalid "PING Result timestamp order").

#[export] Instance PingResult_encode_to : Encode PingResult := fun v out =>
  _ ← PingResult_validate v;
  Ok (put_u64 (put_u64 out (pr_receiver_receive_ns v)) (pr_receiver_send_ns v)).

Definition PingResult_read : decoder PingResult :=
  receive_ns ← dec_u64;
  send_ns ← dec_u64;
  _ ← dec_finish;
  mret (mkPingResult receive_ns send_ns).

#[export] Instance PingResult_decode : Decode PingResult := fun input =>
  value ← run PingResult_read (Decoder_new input);
  _ ← PingResult_validate value;
  Ok value.

Record Cancel := mkCancel { ca_target_request_id : Z }.

Definition Cancel_check (v : Cancel) : result Error () :=
  reject_if (ca_target_request_id v =? 0) (Invalid "zero CANCEL target request ID").

#[export] Instance Cancel_encode_to : Encode Cancel := fun v out =>
  _ ← Cancel_check v;
  Ok (put_u32 out (ca_target_request_id v)).

Definition Cancel_read : decoder Cancel := id ← dec_u32; _ ← dec_finish; mret (mkCancel id).

#[export] Instance Cancel_decode : Decode Cancel := fun input =>
  value ← run Cancel_read (Decoder_new input);
  _ ← Cancel_check value;
  Ok value.

Record Shutdown := mkShutdown { sh_operation_id : list byte; sh_grace_ns : Z; sh_reason : list byte }.

Definition Shutdown_validate (v : Shutdown) : result Error () :=
  reject_if (bool_decide (sh_operation_id v = zeros 16)) (Invalid "zero SHUTDOWN operation ID").

#[export] Instance Shutdown_encode_to : Encode Shutdown := fun v out =>
  _ ← Shutdown_validate v;
  put_string_u32 (put_u64 (out ++ sh_operation_id v) (sh_grace_ns v)) (sh_reason v).

Definition Shutdown_read : decoder Shutdown :=
  operation_id ← dec_array_16;
  grace_ns ← dec_u64;
  reason ← dec_string_u32;
  _ ← dec_finish;
  mret (mkShutdown operation_id grace_ns reason).

#[export] Instance Shutdown_decode : Decode Shutdown := fun input =>
  value ← run Shutdown_read (Decoder_new input);
  _ ← Shutdown_validate value;
  Ok value.

Record GoAway := mkGoAway { ga_status : Status; ga_close_deadline_server_ns : Z; ga_detail : Extensions }.

Definition GoAway_reason_detail (reason : list byte) : Extensions :=
  if is_nil reason then []
  else [mkExtension (as_u16 core_GOAWAY_REASON_EXTENSION) false reason].

Definition GoAway_check (v : GoAway) : result Error () :=
  validate_result_or_event_extensions (ga_detail v) "required GOAWAY detail extension".

#[export] Instance GoAway_encode_to : Encode GoAway := fun v out =>
  _ ← GoAway_check v;
  let out := put_u16 (put_u16 out (Status_code (ga_status v))) 0 in
  put_detail (ga_detail v) (put_u64 out (ga_close_deadline_server_ns v)).

Definition GoAway_read : decoder GoAway :=
  code ← dec_u16;
  reserved ← dec_u16;
  _ ← reject (negb (reserved =? 0)) (Invalid "GOAWAY reserved field");
  deadline ← dec_u64;
  entries ← dec_len_bytes_u32;
  detail ← lift (Extensions_decode_entries entries);
  _ ← dec_finish;
  mret (mkGoAway (Status_from_code code) deadline detail).

#[export] Instance GoAway_decode : Decode GoAway := fun input =>
  value ← run GoAway_read (Decoder_new input);
  _ ← GoAway_check value;
  Ok value.

(** ** Catalogue updates *)

Inductive CatalogStep := Contiguous | Gap.

#[global] Instance CatalogStep_eq_dec : EqDecision CatalogStep.
Proof. solve_decision. Defined.

Definition catalog_step (current incoming : Z) : result Error CatalogStep :=
  _ ← reject_if (incoming <=? current) (Invalid "non-increasing catalog revision");
  Ok (if bool_decide (checked_add_u64 current 1 = Some incoming) then Contiguous else Gap).

Record SessionUpdate := mkSessionUpdate {
  su_catalog_revision : Z; su_receive : ReceiveLimits; su_extensions : Extensions
}.

Definition SessionUpdate_check (v : SessionUpdate) : result Error () :=
  _ ← reject_if (su_catalog_revision v =? 0) (Invalid "zero SESSION_UPDATE catalog revision");
  _ ← ReceiveLimits_validate (su_receive v);
  validate_result_or_event_extensions (su_extensions v) "required SESSION_UPDATE extension".

#[export] Instance SessionUpdate_encode_to : Encode SessionUpdate := fun v out =>
  _ ← SessionUpdate_check v;
  out ← ReceiveLimits_encode_to (su_receive v) (put_u64 out (su_catalog_revision v));
  Extensions_encode_tail (su_extensions v) out.

Definition SessionUpdate_read : decoder SessionUpdate :=
  catalog_revision ← dec_u64;
  receive ← ReceiveLimits_decode_from;
  extensions ← dec_extensions;
  _ ← dec_finish;
  mret (mkSessionUpdate catalog_revision receive extensions).

#[export] Instance SessionUpdate_decode : Decode SessionUpdate := fun input =>
  value ← run SessionUpdate_read (Decoder_new input);
  _ ← reject_if (su_catalog_revision value =? 0) (Invalid "zero SESSION_UPDATE catalog revision");
  _ ← validate_result_or_event_extensions (su_extensions value) "required SESSION_UPDATE extension";
  Ok value.

Definition SessionUpdate_validate_after (v : SessionUpdate) (current_revision : Z)
    (previous_receive : ReceiveLimits) : result Error CatalogStep :=
  _ ← ReceiveLimits_validate_update_from (su_receive v) previous_receive;
  _ ← validate_result_or_event_extensions (su_extensions v) "required SESSION_UPDATE extension";
  catalog_step current_revision (su_catalog_revision v).

Record FamilyUpdate := mkFamilyUpdate { fu_catalog_revision : Z; fu_family : FamilyDescriptor }.

#[export] Instance FamilyUpdate_encode_to : Encode FamilyUpdate := fun v out =>
  _ ← reject_if (fu_catalog_revision v =? 0) (Invalid "zero FAMILY_UPDATE catalog revision");
  _ ← FamilyDescriptor_validate (fu_family v);
  FamilyDescriptor_encode_record (fu_family v) (put_u64 out (fu_catalog_revision v)).

Definition FamilyUpdate_validate_after (v : FamilyUpdate) (current_revision : Z)
    (previous : FamilyDescriptor) : result Error CatalogStep :=
  _ ← FamilyDescriptor_validate (fu_family v);
  _ ← reject_if (negb (same_family (fu_family v) previous))
        (Invalid "FAMILY_UPDATE family or version change");
  catalog_step current_revision (fu_catalog_revision v).

Definition FamilyUpdate_read : decoder FamilyUpdate :=
  catalog_revision ← dec_u64;
  family ← FamilyDescriptor_decode_record;
  _ ← dec_finish;
  mret (mkFamilyUpdate catalog_revision family).

#[export] Instance FamilyUpdate_decode : Decode FamilyUpdate := fun input =>
  value ← run FamilyUpdate_read (Decoder_new input);
  _ ← reject_if (fu_catalog_revision value =? 0) (Invalid "zero FAMILY_UPDATE catalog revision");
  Ok value.
