(* ===== verification/FamilyLimitsFacts.v ===== *)
(** * FamilyLimitsFacts: advertised limits are read back, and within policy

    [FamilyLimitsLaws] is what a family's [Limits] promise whoever advertises
    or reads them: the tags are in order and optional, reading returns what
    was written, and the hand-written maxima lie within the policies of the
    generated registry, so that a descriptor built from valid limits passes. *)

From stdpp Require Import sorting.
From S2P Require Import Prelude Schema Codec Kv FamilyLimits CodecFacts Wire Frame Core.

Class FamilyLimitsLaws {L : Type} (wf : L → Prop) (validate : L → result Error ())
    (to_exts : L → result Error Extensions) (from_exts : Extensions → result Error L)
    (policies : list LimitMetadata) : Prop := {
  limits_to_ok l : wf l → validate l = Ok () → ∃ exts, to_exts l = Ok exts;
  limits_from_to l exts : wf l → to_exts l = Ok exts → from_exts exts = Ok l;
  limits_valid exts l : from_exts exts = Ok l → validate l = Ok ();
  limits_plain l exts : to_exts l = Ok exts →
    exts_wf exts ∧ Extensions_validate exts = Ok () ∧ existsb ext_required exts = false;
  limits_policy l exts : wf l → to_exts l = Ok exts →
    for_each (limit_policy_check exts) policies = Ok ()
}.

(** ** Reading what was written *)

Lemma le_exact_to_le (n : nat) v : 0 <= v < 2 ^ (Z.of_nat n * 8) → le_exact (Z.of_nat n) (to_le n v) = Some v.
Proof. intros Hv. unfold le_exact. rewrite len_to_le, Z.eqb_refl. by rewrite from_to_le. Qed.

Lemma le_exact_u32 v : is_u32 v → le_exact 4 (to_le 4 v) = Some v.
Proof. exact (le_exact_to_le 4 v). Qed.
Lemma le_exact_u64 v : is_u64 v → le_exact 8 (to_le 8 v) = Some v.
Proof. exact (le_exact_to_le 8 v). Qed.

Lemma read_u32_in_at missing length exts tag v :
  find_ext exts (as_u16 tag) = Some (limit_u32 tag v) → is_u32 v → read_u32_in missing length exts tag = Ok v.
Proof.
  intros Hf Hv. unfold read_u32_in. rewrite Hf. cbn [ok_or mbind result_bind limit_u32 ext_value].
  by rewrite le_exact_u32.
Qed.
Lemma read_u64_in_at missing length exts tag v :
  find_ext exts (as_u16 tag) = Some (limit_u64 tag v) → is_u64 v → read_u64_in missing length exts tag = Ok v.
Proof.
  intros Hf Hv. unfold read_u64_in. rewrite Hf. cbn [ok_or mbind result_bind limit_u64 ext_value].
  by rewrite le_exact_u64.
Qed.
Lemma read_limit_u32_at exts tag v :
  find_ext exts (as_u16 tag) = Some (limit_u32 tag v) → is_u32 v → read_limit_u32 exts tag = Ok v.
Proof. apply read_u32_in_at. Qed.
Lemma read_limit_u64_at exts tag v :
  find_ext exts (as_u16 tag) = Some (limit_u64 tag v) → is_u64 v → read_limit_u64 exts tag = Ok v.
Proof. apply read_u64_in_at. Qed.

Lemma policy_u32 exts name tag required lo hi v :
  find_ext exts tag = Some (limit_u32 tag v) → is_u32 v → lo <= v <= hi →
  limit_policy_check exts (mkLimit name tag U32 required lo hi) = Ok ().
Proof.
  intros Hf Hv Hb. unfold limit_policy_check. cbn [lim_tag lim_type lim_hard_min lim_hard_max]. rewrite Hf.
  cbn [limit_u32 ext_value LimitValueType_width]. rewrite len_to_le.
  rewrite le_exact_u32 by done. cbn [negb ok_or mbind result_bind reject_if Z.eqb].
  destruct (Z.ltb_spec v lo); [lia|]. destruct (Z.ltb_spec hi v); [lia|]. done.
Qed.
Lemma policy_u64 exts name tag required lo hi v :
  find_ext exts tag = Some (limit_u64 tag v) → is_u64 v → lo <= v <= hi →
  limit_policy_check exts (mkLimit name tag U64 required lo hi) = Ok ().
Proof.
  intros Hf Hv Hb. unfold limit_policy_check. cbn [lim_tag lim_type lim_hard_min lim_hard_max]. rewrite Hf.
  cbn [limit_u64 ext_value LimitValueType_width]. rewrite len_to_le.
  rewrite le_exact_u64 by done. cbn [negb ok_or mbind result_bind reject_if Z.eqb].
  destruct (Z.ltb_spec v lo); [lia|]. destruct (Z.ltb_spec hi v); [lia|]. done.
Qed.

(** ** The type invariants: [u32] and [u64] fields *)

Definition relay_Limits_wf (l : relay_Limits) : Prop :=
  is_u32 (relay_max_routes l)
  ∧ is_u32 (relay_max_links_per_session l)
  ∧ is_u32 (relay_max_pending_connects l)
  ∧ is_u32 (relay_max_early_data l)
  ∧ is_u64 (relay_connect_timeout_ns l)
  ∧ is_u64 (relay_max_buffered_per_link l).
Definition font_Limits_wf (l : font_Limits) : Prop :=
  is_u32 (font_max_families l)
  ∧ is_u32 (font_max_faces_per_family l)
  ∧ is_u64 (font_max_description_bytes l)
  ∧ is_u64 (font_max_face_bytes l)
  ∧ is_u32 (font_max_concurrent_fetches l)
  ∧ is_u64 (font_max_scan_duration_ns l)
  ∧ is_u64 (font_refresh_interval_ns l).
Definition terminal_Limits_wf (l : terminal_Limits) : Prop :=
  is_u32 (terminal_max_terminals_per_session l)
  ∧ is_u32 (terminal_max_views_per_session l)
  ∧ is_u32 (terminal_max_view_rows l)
  ∧ is_u32 (terminal_max_view_cols l)
  ∧ is_u32 (terminal_max_input_bytes l)
  ∧ is_u32 (terminal_max_inline_query_bytes l)
  ∧ is_u32 (terminal_max_query_records l)
  ∧ is_u32 (terminal_max_hyperlink_uri_bytes l).
Definition client_Limits_wf (l : client_Limits) : Prop :=
  is_u32 (client_max_published_clients l)
  ∧ is_u32 (client_max_active_subscriptions l).
Definition surface_Limits_wf (l : surface_Limits) : Prop :=
  is_u32 (surface_max_surfaces_per_session l)
  ∧ is_u32 (surface_max_views_per_session l)
  ∧ is_u32 (surface_max_view_dimension l)
  ∧ is_u64 (surface_max_view_pixels l)
  ∧ is_u32 (surface_max_frame_rate l)
  ∧ is_u32 (surface_max_inline_cursor_bytes l)
  ∧ is_u32 (surface_max_remote_contacts l)
  ∧ is_u32 (surface_max_app_endpoints_per_session l)
  ∧ is_u64 (surface_max_app_endpoint_lifetime_ns l).
Definition selection_Limits_wf (l : selection_Limits) : Prop :=
  is_u32 (selection_max_inline_bytes l)
  ∧ is_u32 (selection_max_items l)
  ∧ is_u32 (selection_max_mime_bytes l)
  ∧ is_u32 (selection_max_item_name_bytes l)
  ∧ is_u32 (selection_max_active_drags_per_session l)
  ∧ is_u32 (selection_max_stages_per_session l)
  ∧ is_u64 (selection_max_staged_bytes_per_stage l)
  ∧ is_u32 (selection_max_mutation_replays l).
Definition desktop_Limits_wf (l : desktop_Limits) : Prop :=
  is_u32 (desktop_max_tray_items l)
  ∧ is_u32 (desktop_max_notifications l)
  ∧ is_u32 (desktop_max_menu_nodes l)
  ∧ is_u32 (desktop_max_notification_actions l)
  ∧ is_u32 (desktop_max_inline_menu_bytes l)
  ∧ is_u32 (desktop_max_inline_asset_bytes l).
Definition media_Limits_wf (l : media_Limits) : Prop :=
  is_u32 (media_max_devices l)
  ∧ is_u32 (media_max_leases_per_session l)
  ∧ is_u32 (media_max_streams_per_session l)
  ∧ is_u32 (media_max_portals_per_session l)
  ∧ is_u32 (media_max_players l)
  ∧ is_u32 (media_max_formats l)
  ∧ is_u32 (media_max_inline_metadata_bytes l)
  ∧ is_u32 (media_max_inline_asset_bytes l)
  ∧ is_u32 (media_max_portal_metadata_bytes l)
  ∧ is_u32 (media_max_portal_string_bytes l)
  ∧ is_u32 (media_max_portal_body_bytes l)
  ∧ is_u32 (media_max_portal_choices l)
  ∧ is_u32 (media_max_portal_choice_options l)
  ∧ is_u32 (media_max_screencast_candidates l).
Definition fs_Limits_wf (l : fs_Limits) : Prop :=
  is_u32 (fs_max_roots_per_session l)
  ∧ is_u32 (fs_max_watches_per_root l)
  ∧ is_u32 (fs_max_path_components l)
  ∧ is_u32 (fs_max_component_bytes l)
  ∧ is_u32 (fs_max_path_bytes l)
  ∧ is_u32 (fs_max_inline_bytes l)
  ∧ is_u32 (fs_max_query_records l)
  ∧ is_u32 (fs_max_query_bytes l)
  ∧ is_u32 (fs_max_stages_per_session l)
  ∧ is_u64 (fs_max_staged_bytes l)
  ∧ is_u32 (fs_max_batch_items l)
  ∧ is_u32 (fs_max_query_concurrency l)
  ∧ is_u32 (fs_max_catalog_entries l)
  ∧ is_u32 (fs_capabilities l).
Definition git_Limits_wf (l : git_Limits) : Prop :=
  is_u32 (git_max_repositories_per_session l)
  ∧ is_u32 (git_max_watches_per_repository l)
  ∧ is_u32 (git_max_watched_queries_per_repository l)
  ∧ is_u32 (git_max_query_records l)
  ∧ is_u32 (git_max_query_bytes l)
  ∧ is_u32 (git_max_cursor_bytes l)
  ∧ is_u32 (git_max_spec_bytes l)
  ∧ is_u32 (git_max_inline_bytes l)
  ∧ is_u32 (git_max_concurrent_queries l)
  ∧ is_u32 (git_max_concurrent_fetches l).
Definition lsp_Limits_wf (l : lsp_Limits) : Prop :=
  is_u32 (lsp_max_workspaces_per_session l)
  ∧ is_u32 (lsp_max_watches_per_workspace l)
  ∧ is_u32 (lsp_max_query_records l)
  ∧ is_u32 (lsp_max_query_bytes l)
  ∧ is_u32 (lsp_max_cursor_bytes l)
  ∧ is_u32 (lsp_max_inline_buffer_bytes l)
  ∧ is_u64 (lsp_max_buffer_bytes l)
  ∧ is_u32 (lsp_max_buffers_per_workspace l)
  ∧ is_u32 (lsp_max_stages_per_session l)
  ∧ is_u32 (lsp_max_diagnostics_per_file l)
  ∧ is_u32 (lsp_max_servers l)
  ∧ is_u32 (lsp_max_concurrent_queries l).
Definition KvLimits_wf (l : KvLimits) : Prop :=
  is_u32 (kl_max_key_bytes l)
  ∧ is_u64 (kl_max_value_bytes l)
  ∧ is_u32 (kl_max_inline_bytes l)
  ∧ is_u32 (kl_max_entries l)
  ∧ is_u64 (kl_max_store_bytes l)
  ∧ is_u32 (kl_max_namespaces_per_session l)
  ∧ is_u32 (kl_max_stages_per_session l)
  ∧ is_u64 (kl_max_staged_bytes_per_session l)
  ∧ is_u32 (kl_max_batch_items l).
Definition process_Limits_wf (l : process_Limits) : Prop :=
  is_u32 (process_max_argc l)
  ∧ is_u32 (process_max_arg_bytes l)
  ∧ is_u32 (process_max_envc l)
  ∧ is_u32 (process_max_env_bytes l)
  ∧ is_u32 (process_max_processes_per_session l)
  ∧ is_u32 (process_max_processes l)
  ∧ is_u32 (process_max_pending_spawns l)
  ∧ is_u64 (process_max_stream_buffer_bytes l)
  ∧ is_u64 (process_max_detached_retention_ns l)
  ∧ is_u32 (process_max_mutation_replays l)
  ∧ is_u32 (process_launcher_flags l)
  ∧ is_u32 (process_max_pending_waits l)
  ∧ is_u32 (process_max_pending_operations l).
Definition net_Limits_wf (l : net_Limits) : Prop :=
  is_u32 (net_max_host_bytes l)
  ∧ is_u32 (net_max_local_address_bytes l)
  ∧ is_u32 (net_max_pipe_name_bytes l)
  ∧ is_u32 (net_max_alpn_protocols l)
  ∧ is_u32 (net_max_alpn_bytes l)
  ∧ is_u32 (net_max_early_data_bytes l)
  ∧ is_u32 (net_max_flows_per_session l)
  ∧ is_u32 (net_max_pending_opens l)
  ∧ is_u64 (net_max_buffered_per_flow l)
  ∧ is_u32 (net_max_datagram_payload l)
  ∧ is_u32 (net_max_datagram_queue l)
  ∧ is_u64 (net_connect_timeout_ns l)
  ∧ is_u32 (net_max_mutation_replays l).
Definition channel_Limits_wf (l : channel_Limits) : Prop :=
  is_u32 (channel_max_name_bytes l)
  ∧ is_u32 (channel_max_metadata_bytes l)
  ∧ is_u32 (channel_max_listeners_per_session l)
  ∧ is_u32 (channel_max_channels_per_session l)
  ∧ is_u32 (channel_max_pending_connects l)
  ∧ is_u64 (channel_max_message_bytes l)
  ∧ is_u32 (channel_max_open_messages l)
  ∧ is_u64 (channel_connect_timeout_ns l)
  ∧ is_u32 (channel_max_mutation_replays l).
Definition extension_Limits_wf (l : extension_Limits) : Prop :=
  is_u32 (extension_max_name_bytes l)
  ∧ is_u32 (extension_max_args l)
  ∧ is_u64 (extension_max_argument_bytes l)
  ∧ is_u64 (extension_max_object_bytes l)
  ∧ is_u32 (extension_max_output_record_bytes l)
  ∧ is_u32 (extension_max_command_descriptor_bytes l)
  ∧ is_u32 (extension_max_command_records l)
  ∧ is_u32 (extension_max_definitions l)
  ∧ is_u32 (extension_max_object_stages_per_session l)
  ∧ is_u32 (extension_max_follows_per_session l)
  ∧ is_u32 (extension_max_running_attempts l)
  ∧ is_u64 (extension_max_memory_bytes l)
  ∧ is_u64 (extension_max_job_bytes l)
  ∧ is_u32 (extension_max_mutation_replays l).
Definition events_Limits_wf (l : events_Limits) : Prop :=
  is_u64 (events_min_ring_bytes l)
  ∧ is_u64 (events_max_ring_bytes l)
  ∧ is_u32 (events_max_streams_per_session l)
  ∧ is_u32 (events_max_recordings l)
  ∧ is_u32 (events_max_recording_path_bytes l)
  ∧ is_u32 (events_max_live_batch_bytes l)
  ∧ is_u32 (events_max_pending_dumps l)
  ∧ is_u32 (events_max_mutation_replays l).
Definition env_Limits_wf (l : env_Limits) : Prop :=
  is_u32 (env_max_key_bytes l)
  ∧ is_u32 (env_max_value_bytes l)
  ∧ is_u32 (env_max_entries l)
  ∧ is_u64 (env_max_total_data_bytes l)
  ∧ is_u32 (env_max_inline_bytes l)
  ∧ is_u32 (env_max_batch_bytes l).

(** ** Automation

    [limits_laws to from validate hard] proves the laws of a family whose
    limits are all mandatory. *)

Ltac eval_hard hard H :=
  repeat match type of H with
  | context [?f hard] => let v := eval vm_compute in (f hard) in change (f hard) with v in H
  end.

Lemma within_false v m : negb (within v m) = false ↔ v ≠ 0 ∧ v <= m.
Proof. unfold within. lia. Qed.

(** The bounds a successful check establishes, as arithmetic. *)
Ltac limit_bounds validate hard H :=
  let B := fresh "Hb" in
  pose proof H as B; unfold validate in B; cbv zeta in B; eval_hard hard B;
  repeat match type of B with
  | (reject_if _ _ ≫= _) = Ok _ =>
      let C := fresh "Hb" in apply reject_bind_ok in B as [C B]
  end;
  apply reject_if_ok in B; unfold any_outside in *; cbn [existsb fst snd] in *;
  repeat match goal with
  | C : _ || _ = false |- _ => let D := fresh "Hb" in apply orb_false_iff in C as [C D]
  | C : negb (within _ _) = false |- _ => apply within_false in C
  | C : (_ =? _) = false |- _ => apply Z.eqb_neq in C
  | C : (_ <? _) = false |- _ => apply Z.ltb_ge in C
  end.

Ltac known_tags :=
  match goal with
  | |- context [reject_unknown_required_extensions ?e ?k ?c] =>
      replace (reject_unknown_required_extensions e k c) with (@Ok Error () ())
        by (symmetry; reflexivity)
  end; cbn [mbind result_bind].

Ltac read_back :=
  repeat first
    [ erewrite read_limit_u32_at; [|reflexivity|assumption]
    | erewrite read_limit_u64_at; [|reflexivity|assumption]
    | erewrite read_u32_in_at; [|reflexivity|assumption]
    | erewrite read_u64_in_at; [|reflexivity|assumption] ];
  cbn [mbind result_bind].

Ltac split_wf Hw :=
  repeat match type of Hw with (_ ∧ _) ∧ _ => let W := fresh "W" in destruct Hw as [W Hw] end.

Ltac policy_rows :=
  apply for_each_ok; repeat constructor;
  first [ eapply policy_u32; [reflexivity|assumption|lia] | eapply policy_u64; [reflexivity|assumption|lia] ].

Ltac limits_laws to from validate wf hard :=
  split;
  [ intros l _ Hv; unfold to; rewrite Hv; by eexists
  | intros l exts Hw Ht; unfold to in Ht; inv_ok; unfold wf in Hw; split_wf Hw; unfold from; known_tags;
    read_back;
    match goal with |- context [validate ?x] => replace x with l by (by destruct l) end;
    match goal with Hv : validate l = Ok ?u |- _ => by rewrite Hv end
  | intros exts l Hf; unfold from in Hf; inv_ok; match goal with Hv : validate _ = Ok ?u |- _ => by destruct u end
  | intros l exts Ht; unfold to in Ht; inv_ok; split; [repeat (apply Forall_cons_2; [vm_compute; split; congruence|]); apply Forall_nil_2|split; reflexivity]
  | intros l exts Hw Ht; unfold to in Ht; inv_ok; unfold wf in Hw; split_wf Hw;
    match goal with Hv : validate l = Ok ?u |- _ => limit_bounds validate hard Hv end; policy_rows ].

#[export] Instance relay_limits_laws : FamilyLimitsLaws relay_Limits_wf relay_Limits_validate
  relay_Limits_to_extensions relay_Limits_from_extensions relay_LIMITS.
Proof. limits_laws relay_Limits_to_extensions relay_Limits_from_extensions relay_Limits_validate relay_Limits_wf relay_Limits_HARD. Qed.
#[export] Instance font_limits_laws : FamilyLimitsLaws font_Limits_wf font_Limits_validate
  font_Limits_to_extensions font_Limits_from_extensions font_LIMITS.
Proof. limits_laws font_Limits_to_extensions font_Limits_from_extensions font_Limits_validate font_Limits_wf font_Limits_HARD. Qed.
#[export] Instance terminal_limits_laws : FamilyLimitsLaws terminal_Limits_wf terminal_Limits_validate
  terminal_Limits_to_extensions terminal_Limits_from_extensions terminal_LIMITS.
Proof. limits_laws terminal_Limits_to_extensions terminal_Limits_from_extensions terminal_Limits_validate terminal_Limits_wf terminal_Limits_HARD. Qed.
#[export] Instance client_limits_laws : FamilyLimitsLaws client_Limits_wf client_Limits_validate
  client_Limits_to_extensions client_Limits_from_extensions client_LIMITS.
Proof. limits_laws client_Limits_to_extensions client_Limits_from_extensions client_Limits_validate client_Limits_wf client_Limits_HARD. Qed.
#[export] Instance surface_limits_laws : FamilyLimitsLaws surface_Limits_wf surface_Limits_validate
  surface_Limits_to_extensions surface_Limits_from_extensions surface_LIMITS.
Proof. limits_laws surface_Limits_to_extensions surface_Limits_from_extensions surface_Limits_validate surface_Limits_wf surface_Limits_HARD. Qed.
#[export] Instance selection_limits_laws : FamilyLimitsLaws selection_Limits_wf selection_Limits_validate
  selection_Limits_to_extensions selection_Limits_from_extensions selection_LIMITS.
Proof. limits_laws selection_Limits_to_extensions selection_Limits_from_extensions selection_Limits_validate selection_Limits_wf selection_Limits_HARD. Qed.
#[export] Instance desktop_limits_laws : FamilyLimitsLaws desktop_Limits_wf desktop_Limits_validate
  desktop_Limits_to_extensions desktop_Limits_from_extensions desktop_LIMITS.
Proof. limits_laws desktop_Limits_to_extensions desktop_Limits_from_extensions desktop_Limits_validate desktop_Limits_wf desktop_Limits_HARD. Qed.
#[export] Instance media_limits_laws : FamilyLimitsLaws media_Limits_wf media_Limits_validate
  media_Limits_to_extensions media_Limits_from_extensions media_LIMITS.
Proof. limits_laws media_Limits_to_extensions media_Limits_from_extensions media_Limits_validate media_Limits_wf media_Limits_HARD. Qed.
#[export] Instance git_limits_laws : FamilyLimitsLaws git_Limits_wf git_Limits_validate
  git_Limits_to_extensions git_Limits_from_extensions git_LIMITS.
Proof. limits_laws git_Limits_to_extensions git_Limits_from_extensions git_Limits_validate git_Limits_wf git_Limits_HARD. Qed.
#[export] Instance lsp_limits_laws : FamilyLimitsLaws lsp_Limits_wf lsp_Limits_validate
  lsp_Limits_to_extensions lsp_Limits_from_extensions lsp_LIMITS.
Proof. limits_laws lsp_Limits_to_extensions lsp_Limits_from_extensions lsp_Limits_validate lsp_Limits_wf lsp_Limits_HARD. Qed.
#[export] Instance kv_limits_laws : FamilyLimitsLaws KvLimits_wf KvLimits_validate
  KvLimits_to_extensions KvLimits_from_extensions kv_LIMITS.
Proof. limits_laws KvLimits_to_extensions KvLimits_from_extensions KvLimits_validate KvLimits_wf KvLimits_HARD. Qed.
#[export] Instance net_limits_laws : FamilyLimitsLaws net_Limits_wf net_Limits_validate
  net_Limits_to_extensions net_Limits_from_extensions net_LIMITS.
Proof. limits_laws net_Limits_to_extensions net_Limits_from_extensions net_Limits_validate net_Limits_wf net_Limits_HARD. Qed.
#[export] Instance channel_limits_laws : FamilyLimitsLaws channel_Limits_wf channel_Limits_validate
  channel_Limits_to_extensions channel_Limits_from_extensions channel_LIMITS.
Proof. limits_laws channel_Limits_to_extensions channel_Limits_from_extensions channel_Limits_validate channel_Limits_wf channel_Limits_HARD. Qed.
#[export] Instance extension_limits_laws : FamilyLimitsLaws extension_Limits_wf extension_Limits_validate
  extension_Limits_to_extensions extension_Limits_from_extensions extension_LIMITS.
Proof. limits_laws extension_Limits_to_extensions extension_Limits_from_extensions extension_Limits_validate extension_Limits_wf extension_Limits_HARD. Qed.
#[export] Instance events_limits_laws : FamilyLimitsLaws events_Limits_wf events_Limits_validate
  events_Limits_to_extensions events_Limits_from_extensions events_LIMITS.
Proof. limits_laws events_Limits_to_extensions events_Limits_from_extensions events_Limits_validate events_Limits_wf events_Limits_HARD. Qed.
#[export] Instance env_limits_laws : FamilyLimitsLaws env_Limits_wf env_Limits_validate
  env_Limits_to_extensions env_Limits_from_extensions env_LIMITS.
Proof. limits_laws env_Limits_to_extensions env_Limits_from_extensions env_Limits_validate env_Limits_wf env_Limits_HARD. Qed.
