(* ===== verification/ProcessLimits.v ===== *)
(** * ProcessLimits: the limits with optional tags ([fs.rs], [process.rs])

    FS adds a capability word when it is not zero. Process keeps the values
    older peers accept under the legacy tags and sends a second tag only where
    it has more to say, all sorted by tag. *)

From stdpp Require Import sorting.
From S2P Require Import Prelude Schema Codec Kv FamilyLimits CodecFacts Wire Frame Core FamilyLimitsFacts.

(** ** FS *)

#[export] Instance fs_limits_laws : FamilyLimitsLaws fs_Limits_wf fs_Limits_validate
  fs_Limits_to_extensions fs_Limits_from_extensions fs_LIMITS.
Proof.
  split.
  - intros l _ Hv. unfold fs_Limits_to_extensions. rewrite Hv. by eexists.
  - intros l exts Hw Ht. unfold fs_Limits_to_extensions in Ht. inv_ok. unfold fs_Limits_wf in Hw. split_wf Hw.
    unfold fs_Limits_from_extensions.
    destruct (Z.eqb_spec (fs_capabilities l) 0) as [Hz|Hz]; cbn [negb app]; known_tags; read_back;
      [rewrite bool_decide_eq_false_2 by (intros [? Hf]; discriminate Hf)
      |rewrite bool_decide_eq_true_2 by (by eexists)]; read_back;
      (match goal with |- context [fs_Limits_validate ?x] => replace x with l by (destruct l; cbn in *; congruence) end);
      match goal with Hv : fs_Limits_validate l = Ok ?u |- _ => by rewrite Hv end.
  - intros exts l Hf. unfold fs_Limits_from_extensions in Hf. inv_ok.
    match goal with Hv : fs_Limits_validate _ = Ok ?u |- _ => by destruct u end.
  - intros l exts Ht. unfold fs_Limits_to_extensions in Ht. inv_ok.
    destruct (negb _); cbn [app]; (split; [|split; reflexivity]);
      repeat (apply Forall_cons_2; [vm_compute; split; congruence|]); apply Forall_nil_2.
  - intros l exts Hw Ht. unfold fs_Limits_to_extensions in Ht. inv_ok. unfold fs_Limits_wf in Hw. split_wf Hw.
    match goal with Hv : fs_Limits_validate l = Ok ?u |- _ => limit_bounds fs_Limits_validate fs_Limits_HARD Hv end.
    destruct (Z.eqb_spec (fs_capabilities l) 0) as [Hz|Hz]; cbn [negb app]; apply for_each_ok; repeat constructor;
      first [ eapply policy_u32; [reflexivity|assumption|lia] | eapply policy_u64; [reflexivity|assumption|lia] | reflexivity ].
Qed.

(** ** Lists with optional entries *)

Lemma find_ext_app l1 l2 t :
  find_ext (l1 ++ l2) t = match find_ext l1 t with Some e => Some e | None => find_ext l2 t end.
Proof.
  induction l1 as [|e l1 IH]; [done|]. cbn. destruct (ext_tag e =? t); [done|]. exact IH.
Qed.

Lemma find_push_if c e t : find_ext (push_if c e) t = if c && (ext_tag e =? t) then Some e else None.
Proof. destruct c; [|done]. cbn. by destruct (ext_tag e =? t). Qed.

Lemma push_if_sublist c e : push_if c e `sublist_of` [e].
Proof. destruct c; [done|]. apply sublist_nil_l. Qed.

Lemma find_ext_perm l1 l2 t : l1 ≡ₚ l2 → NoDup (map ext_tag l1) → find_ext l1 t = find_ext l2 t.
Proof.
  intros Hp. induction Hp as [|e l1 l2 Hp IH|a b l|l1 l2 l3 H1 IH1 H2 IH2]; intros Hn.
  - done.
  - cbn. apply NoDup_cons_1_2 in Hn. destruct (ext_tag e =? t); [done|]. by apply IH.
  - cbn. destruct (Z.eqb_spec (ext_tag b) t), (Z.eqb_spec (ext_tag a) t); try done.
    cbn in Hn. apply NoDup_cons_1_1 in Hn. exfalso. apply Hn. rewrite e, <- e0. by left.
  - rewrite IH1 by done. apply IH2. by rewrite <- (Permutation_map ext_tag H1).
Qed.

#[local] Instance tag_le_trans : Transitive tag_le.
Proof. intros a b c. unfold tag_le. lia. Qed.
#[local] Instance tag_le_total : Total tag_le.
Proof. intros a b. unfold tag_le. lia. Qed.

Lemma sorted_tags_ordered l previous :
  StronglySorted tag_le l → NoDup (map ext_tag l) →
  match previous with Some p => Forall (λ e, p < ext_tag e) l | None => True end →
  tags_ordered previous l = true.
Proof.
  revert previous. induction l as [|e l IH]; intros previous Hs Hn Hp; [done|].
  apply StronglySorted_inv in Hs as [Hs Hle]. cbn in Hn. pose proof (NoDup_cons_1_1 _ _ Hn) as Hnot. apply NoDup_cons_1_2 in Hn.
  cbn [tags_ordered]. rewrite IH; [|done|done|].
  - rewrite andb_true_r. destruct previous as [p|]; [|done]. apply Forall_cons_1 in Hp as [Hp _].
    cbn. apply negb_true_iff. lia.
  - apply Forall_forall. intros x Hx. pose proof (proj1 (Forall_forall _ _) Hle x Hx) as Hxe. unfold tag_le in Hxe.
    assert (ext_tag x ≠ ext_tag e); [|lia]. intros Heq. apply Hnot. rewrite <- Heq.
    apply list_elem_of_fmap. exists x. split; [done|by apply list_elem_of_In].
Qed.

Lemma sorted_validate l :
  NoDup (map ext_tag l) → len l <= HARD_MAX_EXTENSION_ENTRIES →
  Extensions_validate (merge_sort tag_le l) = Ok ().
Proof.
  intros Hn Hl. apply Extensions_validate_ok.
  assert (Hp : merge_sort tag_le l ≡ₚ l) by apply merge_sort_Permutation.
  split; [unfold len; by rewrite Hp|]. apply sorted_tags_ordered; [|by rewrite (Permutation_map ext_tag Hp)|done].
  apply StronglySorted_merge_sort; apply _.
Qed.

(** ** Process *)

Definition process_tags : list Z := [1; 2; 3; 4; 5; 6; 7; 8; 9; 10; 12; 13; 14; 16; 15; 17; 18; 11; 19].

Lemma process_entries_tags l : map ext_tag (process_Limits_entries l) `sublist_of` process_tags.
Proof.
  unfold process_Limits_entries. rewrite !map_app.
  change process_tags with ([1; 2; 3; 4; 5; 6; 7; 8; 9; 10] ++ [12] ++ [13] ++ [14] ++ [16] ++ [15] ++ [17] ++ [18] ++ [11] ++ [19]).
  apply sublist_app; [done|].
  repeat first [ apply sublist_app | match goal with |- map _ (push_if ?c _) `sublist_of` _ =>
    destruct c; [done|apply sublist_nil_l] end ].
Qed.

Lemma process_entries_nodup l : NoDup (map ext_tag (process_Limits_entries l)).
Proof.
  eapply sublist_NoDup; [|apply process_entries_tags]. by apply (bool_decide_unpack _).
Qed.

Lemma process_find l t :
  find_ext (merge_sort tag_le (process_Limits_entries l)) t = find_ext (process_Limits_entries l) t.
Proof.
  symmetry. apply find_ext_perm; [|apply process_entries_nodup]. symmetry. apply merge_sort_Permutation.
Qed.

Lemma process_sorted_ok l : Extensions_validate (merge_sort tag_le (process_Limits_entries l)) = Ok ().
Proof.
  apply sorted_validate; [apply process_entries_nodup|].
  pose proof (sublist_length _ _ (process_entries_tags l)) as Hl. rewrite length_map in Hl.
  cbn [process_tags length] in Hl. unfold len. change HARD_MAX_EXTENSION_ENTRIES with 4096. lia.
Qed.

(** Where an optional tag is found. *)
Ltac find_optional :=
  unfold process_Limits_entries; cbv zeta; rewrite !find_ext_app, !find_push_if;
  repeat match goal with
  | |- context [?a =? as_u16 ?t] =>
      let v := eval vm_compute in (a =? as_u16 t) in change (a =? as_u16 t) with v
  end;
  rewrite ?andb_false_r, ?andb_true_r;
  match goal with
  | |- context [find_ext [limit_u32 ?a ?b; ?c; ?d; ?e; ?f; ?g; ?h; ?i; ?j; ?k] ?t] =>
      replace (find_ext [limit_u32 a b; c; d; e; f; g; h; i; j; k] t) with (@None Extension)
        by (symmetry; reflexivity)
  end; cbn beta iota.

Lemma find_processes_per_session l :
  find_ext (process_Limits_entries l) (as_u16 process_LIMIT_MAX_PROCESSES_PER_SESSION_EXTENDED)
  = if 16 <? process_max_processes_per_session l
    then Some (limit_u32 process_LIMIT_MAX_PROCESSES_PER_SESSION_EXTENDED (process_max_processes_per_session l))
    else None.
Proof. find_optional. by destruct (_ <? process_max_processes_per_session l). Qed.

Lemma find_processes l :
  find_ext (process_Limits_entries l) (as_u16 process_LIMIT_MAX_PROCESSES_EXTENDED)
  = if 64 <? process_max_processes l then Some (limit_u32 process_LIMIT_MAX_PROCESSES_EXTENDED (process_max_processes l)) else None.
Proof. find_optional. by destruct (_ <? process_max_processes l). Qed.

Lemma find_pending_spawns l :
  find_ext (process_Limits_entries l) (as_u16 process_LIMIT_MAX_PENDING_SPAWNS_EXTENDED)
  = if 8 <? process_max_pending_spawns l then Some (limit_u32 process_LIMIT_MAX_PENDING_SPAWNS_EXTENDED (process_max_pending_spawns l)) else None.
Proof. find_optional. by destruct (_ <? process_max_pending_spawns l). Qed.

Lemma find_envc l :
  find_ext (process_Limits_entries l) (as_u16 process_LIMIT_MAX_ENVC_EXTENDED)
  = if 256 <? process_max_envc l then Some (limit_u32 process_LIMIT_MAX_ENVC_EXTENDED (process_max_envc l)) else None.
Proof. find_optional. by destruct (_ <? process_max_envc l). Qed.

Lemma find_stream_buffer l :
  find_ext (process_Limits_entries l) (as_u16 process_LIMIT_MAX_STREAM_BUFFER_BYTES_EXTENDED)
  = if 8388608 <? process_max_stream_buffer_bytes l then Some (limit_u64 process_LIMIT_MAX_STREAM_BUFFER_BYTES_EXTENDED (process_max_stream_buffer_bytes l)) else None.
Proof. find_optional. by destruct (_ <? process_max_stream_buffer_bytes l). Qed.

Lemma find_waits l :
  find_ext (process_Limits_entries l) (as_u16 process_LIMIT_MAX_PENDING_WAITS)
  = if negb (process_max_pending_waits l =? 32) then Some (limit_u32 process_LIMIT_MAX_PENDING_WAITS (process_max_pending_waits l)) else None.
Proof. find_optional. by destruct (process_max_pending_waits l =? _). Qed.

Lemma find_operations l :
  find_ext (process_Limits_entries l) (as_u16 process_LIMIT_MAX_PENDING_OPERATIONS)
  = if negb (process_max_pending_operations l =? 16) then Some (limit_u32 process_LIMIT_MAX_PENDING_OPERATIONS (process_max_pending_operations l)) else None.
Proof. find_optional. by destruct (process_max_pending_operations l =? _). Qed.

Lemma find_flags l :
  find_ext (process_Limits_entries l) (as_u16 process_LIMIT_LAUNCHER_FLAGS)
  = if negb (Z.land (process_launcher_flags l) 12 =? 0) then Some (limit_u32 process_LIMIT_LAUNCHER_FLAGS (Z.land (process_launcher_flags l) 12)) else None.
Proof. find_optional. by destruct (Z.land _ _ =? 0). Qed.

Lemma find_flags_extended l :
  find_ext (process_Limits_entries l) (as_u16 process_LIMIT_LAUNCHER_FLAGS_EXTENDED)
  = if negb (process_launcher_flags l =? Z.land (process_launcher_flags l) 12) then Some (limit_u32 process_LIMIT_LAUNCHER_FLAGS_EXTENDED (process_launcher_flags l)) else None.
Proof. find_optional. by destruct (process_launcher_flags l =? _). Qed.

Lemma read_optional_u32_at exts tag (c : bool) v :
  find_ext exts (as_u16 tag) = (if c then Some (limit_u32 tag v) else None) → is_u32 v →
  read_optional_limit_u32 exts tag = Ok (if c then Some v else None).
Proof.
  intros Hf Hv. unfold read_optional_limit_u32, read_optional_limit. rewrite Hf. destruct c; [|done].
  cbn [limit_u32 ext_value]. by rewrite le_exact_u32.
Qed.
Lemma read_optional_u64_at exts tag (c : bool) v :
  find_ext exts (as_u16 tag) = (if c then Some (limit_u64 tag v) else None) → is_u64 v →
  read_optional_limit_u64 exts tag = Ok (if c then Some v else None).
Proof.
  intros Hf Hv. unfold read_optional_limit_u64, read_optional_limit. rewrite Hf. destruct c; [|done].
  cbn [limit_u64 ext_value]. by rewrite le_exact_u64.
Qed.

Lemma process_plain l : Forall (λ e, ext_required e = false ∧ ext_wf e) (merge_sort tag_le (process_Limits_entries l)).
Proof.
  rewrite merge_sort_Permutation. unfold process_Limits_entries. cbv zeta. rewrite !Forall_app.
  split_and!; repeat (apply Forall_cons_2; [by vm_compute; split_and!|]);
    try apply Forall_nil_2; match goal with |- Forall _ (push_if ?c _) => destruct c end;
    cbn [push_if]; repeat (apply Forall_cons_2; [by vm_compute; split_and!|]); apply Forall_nil_2.
Qed.

Lemma existsb_required exts : Forall (λ e, ext_required e = false ∧ ext_wf e) exts → existsb ext_required exts = false.
Proof. induction 1 as [|e exts [He _] _ IH]; [done|]. cbn. by rewrite He. Qed.

Lemma process_known_ok l c :
  reject_unknown_required_extensions (merge_sort tag_le (process_Limits_entries l)) process_known c = Ok ().
Proof.
  unfold reject_unknown_required_extensions. rewrite process_sorted_ok. cbn [mbind result_bind].
  apply reject_if_ok. pose proof (process_plain l) as Hp. revert Hp.
  induction 1 as [|e exts [He _] _ IH]; [done|]. cbn [existsb]. by rewrite He, IH.
Qed.

(** The launcher flags fit in the extended set, so either tag spells them. *)
Lemma flags_60 f : 0 <= f → has_other_bits f 60 = false → Z.land f 60 = f ∧ f <= 60.
Proof.
  unfold has_other_bits. intros Hf H. apply negb_false_iff, Z.eqb_eq in H.
  assert (Z.land f 60 = f) as E.
  { apply Z.bits_inj_iff'. intros n Hn. apply (f_equal (λ z, Z.testbit z n)) in H.
    rewrite Z.land_spec, Z.lnot_spec, Z.bits_0 in H by done. rewrite Z.land_spec.
    destruct (Z.testbit f n), (Z.testbit 60 n); done. }
  split; [done|]. rewrite <- E. apply Z.ldiff_le; [done|].
  apply Z.bits_inj_iff'. intros n Hn. rewrite Z.ldiff_spec, Z.land_spec, Z.bits_0.
  destruct (Z.testbit f n), (Z.testbit 60 n); done.
Qed.

Lemma land_12 f : 0 <= Z.land f 12 <= 12 ∧ has_other_bits (Z.land f 12) 12 = false.
Proof.
  split; [split; [apply Z.land_nonneg; by right|]|].
  - apply Z.ldiff_le; [done|]. apply Z.bits_inj_iff'. intros n Hn.
    rewrite Z.ldiff_spec, Z.land_spec, Z.bits_0. destruct (Z.testbit f n), (Z.testbit 12 n); done.
  - unfold has_other_bits. apply negb_false_iff, Z.eqb_eq. apply Z.bits_inj_iff'. intros n Hn.
    rewrite !Z.land_spec, Z.lnot_spec, Z.bits_0 by done. destruct (Z.testbit f n), (Z.testbit 12 n); done.
Qed.

(** What a valid record satisfies. *)
Lemma process_bounds l :
  process_Limits_wf l → process_Limits_validate l = Ok () →
  1 <= process_max_argc l <= 1024 ∧ 1 <= process_max_arg_bytes l <= 1048576
  ∧ 1 <= process_max_envc l <= 16384 ∧ 1 <= process_max_env_bytes l <= 1048576
  ∧ 1 <= process_max_processes_per_session l <= 16384 ∧ 1 <= process_max_processes l <= 65536
  ∧ 1 <= process_max_pending_spawns l <= 4096 ∧ 1 <= process_max_stream_buffer_bytes l <= 1073741824
  ∧ 1 <= process_max_detached_retention_ns l <= 300000000000 ∧ 1 <= process_max_mutation_replays l <= 65536
  ∧ 0 <= process_launcher_flags l ∧ has_other_bits (process_launcher_flags l) 60 = false
  ∧ 1 <= process_max_pending_waits l <= 65536 ∧ 1 <= process_max_pending_operations l <= 16384.
Proof.
  intros Hw Hv. unfold process_Limits_wf in Hw. split_wf Hw.
  limit_bounds process_Limits_validate process_Limits_HARD Hv. split_and!; try lia. done.
Qed.

Ltac eval_default :=
  repeat match goal with
  | |- context [?f process_Limits_DEFAULT] =>
      let v := eval vm_compute in (f process_Limits_DEFAULT) in change (f process_Limits_DEFAULT) with v
  end.

Ltac process_read :=
  repeat first
    [ erewrite read_u32_in_at; [|rewrite process_find; reflexivity|eval_default; lia]
    | erewrite read_u64_in_at; [|rewrite process_find; reflexivity|eval_default; lia] ].

Section process_tags.
Context (l : process_Limits) (Hw : process_Limits_wf l) (Hv : process_Limits_validate l = Ok ()).
Let exts := merge_sort tag_le (process_Limits_entries l).

(** Every optional tag is absent, or carries its value in full. *)
Lemma process_optional :
  read_optional_limit_u32 exts process_LIMIT_MAX_ENVC_EXTENDED
    = Ok (if 256 <? process_max_envc l then Some (process_max_envc l) else None)
  ∧ read_optional_limit_u32 exts process_LIMIT_MAX_PROCESSES_PER_SESSION_EXTENDED
    = Ok (if 16 <? process_max_processes_per_session l then Some (process_max_processes_per_session l) else None)
  ∧ read_optional_limit_u32 exts process_LIMIT_MAX_PROCESSES_EXTENDED
    = Ok (if 64 <? process_max_processes l then Some (process_max_processes l) else None)
  ∧ read_optional_limit_u32 exts process_LIMIT_MAX_PENDING_SPAWNS_EXTENDED
    = Ok (if 8 <? process_max_pending_spawns l then Some (process_max_pending_spawns l) else None)
  ∧ read_optional_limit_u64 exts process_LIMIT_MAX_STREAM_BUFFER_BYTES_EXTENDED
    = Ok (if 8388608 <? process_max_stream_buffer_bytes l then Some (process_max_stream_buffer_bytes l) else None)
  ∧ read_optional_limit_u32 exts process_LIMIT_MAX_PENDING_WAITS
    = Ok (if negb (process_max_pending_waits l =? 32) then Some (process_max_pending_waits l) else None)
  ∧ read_optional_limit_u32 exts process_LIMIT_MAX_PENDING_OPERATIONS
    = Ok (if negb (process_max_pending_operations l =? 16) then Some (process_max_pending_operations l) else None)
  ∧ read_optional_limit_u32 exts process_LIMIT_LAUNCHER_FLAGS_EXTENDED
    = Ok (if negb (process_launcher_flags l =? Z.land (process_launcher_flags l) 12)
          then Some (process_launcher_flags l) else None).
Proof using Hw.
  unfold process_Limits_wf in Hw. split_wf Hw. unfold exts.
  split_and!; (apply read_optional_u32_at || apply read_optional_u64_at); rewrite ?process_find; try lia;
    auto using find_envc, find_processes_per_session, find_processes, find_pending_spawns, find_stream_buffer,
      find_waits, find_operations, find_flags_extended.
Qed.

Lemma process_legacy_flags :
  (if bool_decide (is_Some (find_ext exts (as_u16 process_LIMIT_LAUNCHER_FLAGS)))
   then process_read_u32 exts process_LIMIT_LAUNCHER_FLAGS else Ok 0)
  = Ok (Z.land (process_launcher_flags l) 12).
Proof using.
  unfold exts, process_read_u32. rewrite process_find, find_flags.
  destruct (land_12 (process_launcher_flags l)) as [G1 _].
  destruct (Z.eqb_spec (Z.land (process_launcher_flags l) 12) 0) as [Hz|Hz]; cbn [negb].
  - rewrite bool_decide_eq_false_2 by (by intros []). by rewrite Hz.
  - rewrite bool_decide_eq_true_2 by eauto. apply read_u32_in_at; [|lia].
    rewrite process_find, find_flags. destruct (Z.eqb_spec (Z.land (process_launcher_flags l) 12) 0); [done|].
    done.
Qed.

Lemma process_from_to : process_Limits_from_extensions exts = Ok l.
Proof using Hw Hv.
  destruct (process_bounds l Hw Hv) as (B1 & B2 & B3 & B4 & B5 & B6 & B7 & B8 & B9 & B10 & B11 & B12 & B13 & B14).
  destruct (flags_60 _ B11 B12) as [F1 F2]. destruct (land_12 (process_launcher_flags l)) as [G1 G2].
  destruct process_optional as (O1 & O2 & O3 & O4 & O5 & O6 & O7 & O8).
  pose proof process_legacy_flags as O9. pose proof (process_known_ok l) as O0.
  change (merge_sort tag_le (process_Limits_entries l)) with exts in O0.
  unfold process_Limits_from_extensions. cbv zeta. rewrite O0, O9, O1, O2, O3, O4, O5, O6, O7, O8.
  unfold process_read_u32, process_read_u64, exts.
  process_read. cbn [mbind result_bind]. eval_default.
  match goal with |- context [process_Limits_validate ?x] => assert (x = l) as -> end.
  - clear O0 O1 O2 O3 O4 O5 O6 O7 O8 O9. clear Hv Hw exts.
    destruct l as [x1 x2 x3 x4 x5 x6 x7 x8 x9 x10 x11 x12 x13].
    cbn [process_max_argc process_max_arg_bytes process_max_envc process_max_env_bytes
      process_max_processes_per_session process_max_processes process_max_pending_spawns
      process_max_stream_buffer_bytes process_max_detached_retention_ns process_max_mutation_replays
      process_launcher_flags process_max_pending_waits process_max_pending_operations] in *. f_equal.
    all: repeat match goal with |- context [if ?c then _ else _] => destruct c eqn:? end; cbn; first [done | lia].
  - match goal with |- (reject_if ?c _ ≫= _) = _ => assert (c = false) as -> end; [|cbn; by rewrite Hv].
    change (as_u32 process_SPAWN_LAUNCHER_FLAGS) with 12. rewrite G2, Z.eqb_refl.
    rewrite !orb_false_iff. split_and!; try done; lia.
Qed.
End process_tags.

Lemma policy_optional_u32 exts name tag lo hi (c : bool) v :
  find_ext exts tag = (if c then Some (limit_u32 tag v) else None) → is_u32 v → (c = true → lo <= v <= hi) →
  limit_policy_check exts (mkLimit name tag U32 false lo hi) = Ok ().
Proof.
  intros Hf Hv Hb. destruct c; [by eapply policy_u32; eauto|].
  unfold limit_policy_check. cbn [lim_tag lim_required]. by rewrite Hf.
Qed.
Lemma policy_optional_u64 exts name tag lo hi (c : bool) v :
  find_ext exts tag = (if c then Some (limit_u64 tag v) else None) → is_u64 v → (c = true → lo <= v <= hi) →
  limit_policy_check exts (mkLimit name tag U64 false lo hi) = Ok ().
Proof.
  intros Hf Hv Hb. destruct c; [by eapply policy_u64; eauto|].
  unfold limit_policy_check. cbn [lim_tag lim_required]. by rewrite Hf.
Qed.

#[export] Instance process_limits_laws : FamilyLimitsLaws process_Limits_wf process_Limits_validate
  process_Limits_to_extensions process_Limits_from_extensions process_LIMITS.
Proof.
  split.
  - intros l _ Hv. unfold process_Limits_to_extensions. rewrite Hv. by eexists.
  - intros l exts Hw Ht. unfold process_Limits_to_extensions in Ht. inv_ok.
    match goal with Hv : process_Limits_validate l = Ok ?u |- _ => destruct u; by apply process_from_to end.
  - intros exts l Hf. unfold process_Limits_from_extensions in Hf. inv_ok.
    match goal with Hv : process_Limits_validate _ = Ok ?u |- _ => by destruct u end.
  - intros l exts Ht. unfold process_Limits_to_extensions in Ht. inv_ok.
    pose proof (process_plain l) as Hp. split_and!.
    + revert Hp. apply Forall_impl. by intros e [_ He].
    + apply process_sorted_ok.
    + by apply existsb_required.
  - intros l exts Hw Ht. unfold process_Limits_to_extensions in Ht. inv_ok.
    match goal with Hv : process_Limits_validate l = Ok ?u |- _ => destruct u; rename Hv into Hv0 end.
    destruct (process_bounds l Hw Hv0) as (B1 & B2 & B3 & B4 & B5 & B6 & B7 & B8 & B9 & B10 & B11 & B12 & B13 & B14).
    destruct (flags_60 _ B11 B12) as [F1 F2]. destruct (land_12 (process_launcher_flags l)) as [G1 G2].
    unfold process_Limits_wf in Hw. split_wf Hw. apply for_each_ok. unfold process_LIMITS.
    repeat (apply Forall_cons_2; [|]); [..|apply Forall_nil_2].
    all: first
      [ eapply policy_u32; [rewrite process_find; reflexivity|eval_default; lia|eval_default; lia]
      | eapply policy_u64; [rewrite process_find; reflexivity|eval_default; lia|eval_default; lia]
      | eapply policy_optional_u32;
        [rewrite process_find; first [apply find_envc | apply find_processes_per_session | apply find_processes
          | apply find_pending_spawns | apply find_waits | apply find_operations | apply find_flags | apply find_flags_extended]
        |lia|intros _; lia]
      | eapply policy_optional_u64; [rewrite process_find; apply find_stream_buffer|lia|intros _; lia] ].
Qed.
