(* ===== verification/CoreWire.v ===== *)
(** * CoreWire: the wire laws of HELLO's client half ([core.rs])

    Counted lists, receive limits, initial WATCHes, codec selections,
    platforms and the client HELLO are read back as written, and nothing else
    is read. *)

From S2P Require Import Prelude Schema Codec Kv FamilyLimits CodecFacts Wire Frame Core.

(** ** Counted lists *)

Lemma len_concat_ge {A} (enc : A → list byte) k l :
  Forall (λ a, k <= len (enc a)) l → k * len l <= len (concat (map enc l)).
Proof.
  induction 1 as [|a l Ha _ IH]; [by rewrite len_nil, Z.mul_0_r|]. cbn [map concat].
  rewrite len_app. unfold len in *. cbn [length]. lia.
Qed.

Lemma reads_counted {A} (p : decoder A) (enc : A → list byte) l k context :
  0 < k → Forall (λ a, reads p (enc a) a) l → Forall (λ a, k <= len (enc a)) l →
  reads (dec_counted (len l) k context p) (concat (map enc l)) l.
Proof.
  intros Hk Hp He d rest Hd. pose proof (dec_at_len _ _ Hd) as Hrem. rewrite len_app in Hrem.
  pose proof (len_concat_ge enc k l He). pose proof (len_nonneg rest).
  assert ((Decoder_remaining d / k <? len l) = false) as Hc.
  { apply Z.ltb_ge. apply Z.div_le_lower_bound; lia. }
  destruct (reads_repeat p enc l Hp d rest Hd) as (d' & E & Hd').
  exists d'. split; [|done]. unfold dec_counted, bounded_count, remaining, mbind, decoder_bind.
  unfold reject, lift, reject_if. rewrite Hc. cbn. rewrite to_nat_len. exact E.
Qed.

Lemma spells_counted {A} (p : decoder A) enc wf n k context :
  spells p enc wf →
  spells (dec_counted n k context p) (λ l, concat (map enc l)) (λ l, Forall wf l ∧ length l = Z.to_nat n).
Proof.
  intros Hp d l a d' Hd H. unfold dec_counted, bounded_count in H.
  apply decoder_bind_ok in H as (m & d1 & H1 & H).
  apply decoder_bind_ok in H1 as (room & d2 & [= <- <-] & H1).
  apply decoder_bind_ok in H1 as ([] & d3 & [Hc ->]%reject_ok & [= <- <-]).
  exact (spells_repeat p enc wf (Z.to_nat n) Hp _ _ _ _ Hd H).
Qed.

Lemma reads_counted_ok {A} (p : decoder A) (enc : A → list byte) (ok : A → Prop) l k context :
  0 < k → (∀ a, ok a → reads p (enc a) a) → (∀ a, k <= len (enc a)) → Forall ok l →
  reads (dec_counted (len l) k context p) (concat (map enc l)) l.
Proof.
  intros Hk Hp He Hl. apply reads_counted; [done|by apply (Forall_impl _ Hp)|by apply Forall_forall].
Qed.

Lemma counted_len {A} (l : list A) n : length l = Z.to_nat n → 0 <= n → n = len l.
Proof. unfold len. lia. Qed.

Ltac counted :=
  repeat match goal with
  | H : Forall _ ?l ∧ length ?l = Z.to_nat ?x |- _ =>
      let HF := fresh "HF" in destruct H as [HF H]; apply counted_len in H; [subst x|lia]
  end.

(** A loop of writes. *)
Lemma try_fold_writes {A} (w : A → list byte → result Error (list byte)) (enc : A → list byte) (fits : A → Prop) l out o :
  (∀ a out o, w a out = Ok o ↔ o = out ++ enc a ∧ fits a) →
  try_fold w l out = Ok o ↔ o = out ++ concat (map enc l) ∧ Forall fits l.
Proof.
  intros Hw. revert out. induction l as [|a l IH]; intros out; cbn [try_fold map concat].
  - rewrite app_nil_r. split; [intros [= <-]; by split|by intros [-> _]].
  - rewrite bind_ok. setoid_rewrite Hw. setoid_rewrite IH. rewrite Forall_cons_iff. split.
    + intros (o1 & [-> Ha] & -> & Hl). by rewrite <- app_assoc.
    + intros (-> & Ha & Hl). eexists. split; [done|]. by rewrite <- app_assoc.
Qed.

Lemma try_u16_ok n m : ok_or (try_u16 n) LengthOverflow = Ok m ↔ m = n ∧ n <= U16_MAX.
Proof. unfold try_u16, ok_or. destruct (Z.leb_spec n U16_MAX); naive_solver lia. Qed.
Lemma try_u8_ok n m : ok_or (try_u8 n) LengthOverflow = Ok m ↔ m = n ∧ n <= U8_MAX.
Proof. unfold try_u8, ok_or. destruct (Z.leb_spec n U8_MAX); naive_solver lia. Qed.

Lemma try_u16_some n m : try_u16 n = Some m → m = n.
Proof. unfold try_u16. case_match; congruence. Qed.
Lemma try_u8_some n m : try_u8 n = Some m → m = n.
Proof. unfold try_u8. case_match; congruence. Qed.

Lemma put_u16s_eq l out : put_u16s l out = out ++ concat (map (to_le 2) l).
Proof.
  unfold put_u16s. revert out. induction l as [|x l IH]; intros out; cbn [foldl map concat]; [by rewrite app_nil_r|].
  rewrite IH. unfold put_u16. by rewrite <- app_assoc.
Qed.

Lemma reads_u16s l context : Forall (λ z, is_u16 z) l →
  reads (dec_counted (len l) 2 context dec_u16) (concat (map (to_le 2) l)) l.
Proof.
  intros Hl. apply reads_counted; [done| |].
  - revert Hl. apply Forall_impl. intros z Hz. by apply reads_u16.
  - apply Forall_forall. intros z _. by rewrite len_to_le.
Qed.

(** ** Receive limits *)

Definition ReceiveLimits_wf (l : ReceiveLimits) : Prop :=
  is_u32 (rl_max_frame l) ∧ is_u32 (rl_max_decoded l) ∧ is_u32 (rl_max_datagram l) ∧ is_u64 (rl_max_buffered l).
Definition ReceiveLimits_ok (l : ReceiveLimits) : Prop := ReceiveLimits_wf l ∧ ReceiveLimits_validate l = Ok ().
Definition ReceiveLimits_bytes (l : ReceiveLimits) : list byte :=
  to_le 4 (rl_max_frame l) ++ to_le 4 (rl_max_decoded l) ++ to_le 4 (rl_max_datagram l) ++ to_le 8 (rl_max_buffered l).

Lemma ReceiveLimits_encode_ok l out o :
  ReceiveLimits_encode_to l out = Ok o ↔ o = out ++ ReceiveLimits_bytes l ∧ ReceiveLimits_validate l = Ok ().
Proof.
  unfold ReceiveLimits_encode_to, ReceiveLimits_bytes, put_u32, put_u64. rewrite <- !app_assoc.
  destruct (ReceiveLimits_validate l) as [[]|]; cbn [mbind result_bind]; naive_solver.
Qed.

Lemma reads_receive l : ReceiveLimits_ok l → reads ReceiveLimits_decode_from (ReceiveLimits_bytes l) l.
Proof.
  intros ((? & ? & ? & ?) & Hv). unfold ReceiveLimits_decode_from, ReceiveLimits_bytes.
  destruct l as [a b c e]; cbn [rl_max_frame rl_max_decoded rl_max_datagram rl_max_buffered] in *.
  rewrite <- (app_nil_r (to_le 8 e)). repeat reads_step ltac:(first [exact Hv|lia]).
Qed.

Lemma spells_receive : spells ReceiveLimits_decode_from ReceiveLimits_bytes ReceiveLimits_ok.
Proof.
  intros d l a d' Hd H. unfold ReceiveLimits_decode_from in H. dec_inv.
  eexists. unfold ReceiveLimits_bytes, ReceiveLimits_ok, ReceiveLimits_wf. cbn. rewrite <- !app_assoc. split; [reflexivity|done].
Qed.

#[export] Hint Resolve reads_receive : reads.
#[export] Hint Resolve spells_receive spells_counted : spells.

(** ** Initial WATCHes *)

Definition InitialWatch_wf (w : InitialWatch) : Prop := is_u16 (iw_family_id w) ∧ is_u16 (iw_family_version w).
Definition InitialWatch_fits (w : InitialWatch) : Prop :=
  InitialWatch_check w = Ok () ∧ len (iw_watch_payload w) <= U32_MAX.
Definition InitialWatch_ok (w : InitialWatch) : Prop := InitialWatch_wf w ∧ InitialWatch_fits w.
Definition InitialWatch_bytes (w : InitialWatch) : list byte :=
  to_le 2 (iw_family_id w) ++ to_le 2 (iw_family_version w) ++ lp32 (iw_watch_payload w).

Lemma encode_initial_watch_ok w out o :
  encode_initial_watch w out = Ok o ↔ o = out ++ InitialWatch_bytes w ∧ InitialWatch_fits w.
Proof.
  unfold encode_initial_watch, InitialWatch_bytes, InitialWatch_fits, put_u16.
  destruct (InitialWatch_check w) as [[]|]; cbn [mbind result_bind]; [|naive_solver].
  rewrite put_bytes_u32_ok, <- !app_assoc. naive_solver.
Qed.

Lemma reads_initial_watch w : InitialWatch_ok w → reads decode_initial_watch (InitialWatch_bytes w) w.
Proof.
  intros ((? & ?) & Hc & ?). unfold decode_initial_watch, InitialWatch_bytes.
  destruct w as [a b p]; cbn [iw_family_id iw_family_version iw_watch_payload] in *.
  rewrite <- (app_nil_r (lp32 p)). repeat reads_step ltac:(first [exact Hc|lia]).
Qed.

Lemma spells_initial_watch : spells decode_initial_watch InitialWatch_bytes InitialWatch_ok.
Proof.
  intros d l a d' Hd H. unfold decode_initial_watch in H. dec_inv.
  eexists. unfold InitialWatch_bytes, InitialWatch_ok, InitialWatch_wf, InitialWatch_fits. cbn. rewrite <- !app_assoc.
  split; [reflexivity|done].
Qed.
#[export] Hint Resolve spells_initial_watch : spells.

Lemma len_InitialWatch_bytes w : 8 <= len (InitialWatch_bytes w).
Proof.
  unfold InitialWatch_bytes. rewrite !len_app, !len_to_le, len_lp32. pose proof (len_nonneg (iw_watch_payload w)). lia.
Qed.

Definition InitialWatches_wf (v : InitialWatches) : Prop := Forall InitialWatch_wf v.

#[export] Instance InitialWatches_WireLaws : WireLaws InitialWatches InitialWatches_wf.
Proof.
  apply wire_laws_reader with (fits := λ v, len v <= U16_MAX ∧ Forall InitialWatch_fits v) (check := λ _, Ok ())
    (bytes := λ v : InitialWatches, to_le 2 (len v) ++ concat (map InitialWatch_bytes v)) (read := InitialWatches_read).
  - intros v out o. unfold encode_to, InitialWatches_encode_to. rewrite bind_ok. setoid_rewrite try_u16_ok.
    setoid_rewrite (try_fold_writes _ _ _ _ _ _ encode_initial_watch_ok). unfold put_u16. split.
    + intros (n & [-> ?] & -> & ?). by rewrite <- app_assoc.
    + intros (-> & ? & ?). exists (len v). by rewrite <- app_assoc.
  - intros bs. unfold decode, InitialWatches_decode. by destruct (run _ _).
  - intros v Hw [Hl Hf]. split; [done|]. pose proof (len_nonneg v). unfold InitialWatches_read.
    unfold U16_MAX in *. reads_step idtac.
    reads_step ltac:(eapply reads_counted_ok; [done|apply reads_initial_watch|apply len_InitialWatch_bytes|by apply Forall_and]).
    read_layout.
  - intros bs v d' Hd H _. unfold InitialWatches_read in H. dec_inv. unfold InitialWatch_ok in *.
    counted. match goal with H : Forall _ _ |- _ => apply Forall_and_inv in H as [? ?] end.
    rewrite app_nil_r. unfold U16_MAX. split_and!; try done. lia.
Qed.

(** ** Codec selections *)

Definition NegotiatedCodecs_wf (v : NegotiatedCodecs) : Prop := Forall (λ z, is_u16 z) v.

Lemma NegotiatedCodecs_count v : NegotiatedCodecs_validate v = Ok () → len v <= U8_MAX.
Proof. unfold NegotiatedCodecs_validate. intros H. inv_ok. lia. Qed.

#[export] Instance NegotiatedCodecs_WireLaws : WireLaws NegotiatedCodecs NegotiatedCodecs_wf.
Proof.
  apply wire_laws_reader with (fits := λ v, NegotiatedCodecs_validate v = Ok ()) (check := NegotiatedCodecs_validate)
    (bytes := λ v : NegotiatedCodecs, [byte_of (len v)] ++ concat (map (to_le 2) v)) (read := NegotiatedCodecs_read).
  - intros v out o. unfold encode_to, NegotiatedCodecs_encode_to.
    destruct (NegotiatedCodecs_validate v) as [[]|] eqn:E; cbn [mbind result_bind]; [|naive_solver].
    apply NegotiatedCodecs_count in E. rewrite bind_ok. setoid_rewrite try_u8_ok. unfold push_u8. setoid_rewrite put_u16s_eq.
    setoid_rewrite <- app_assoc. naive_solver.
  - done.
  - intros v Hw Hf. split; [done|]. apply NegotiatedCodecs_count in Hf. pose proof (len_nonneg v).
    unfold NegotiatedCodecs_read, U8_MAX in *. reads_step idtac. reads_step ltac:(by apply reads_u16s). read_layout.
  - intros bs v d' Hd H Hc. unfold NegotiatedCodecs_read in H. dec_inv. counted. by rewrite app_nil_r.
Qed.

(** ** Platforms *)

Definition Platform_wf (v : Platform) : Prop :=
  utf8_valid (pf_os v) = true ∧ utf8_valid (pf_arch v) = true ∧ utf8_valid (pf_env v) = true.
Definition field_fits (f : list byte) : Prop := len f <= 64.
Definition Platform_fits (v : Platform) : Prop := field_fits (pf_os v) ∧ field_fits (pf_arch v) ∧ field_fits (pf_env v).

Lemma platform_field_check_ok f : platform_field_check f = Ok () ↔ field_fits f.
Proof.
  unfold platform_field_check, field_fits. rewrite reject_if_ok. change MAX_PLATFORM_FIELD_BYTES with 64. lia.
Qed.

Lemma Platform_validate_ok v : Platform_validate v = Ok () ↔ Platform_fits v.
Proof.
  unfold Platform_validate. rewrite for_each_ok, !Forall_cons_iff, !platform_field_check_ok. unfold Platform_fits.
  naive_solver.
Qed.

Lemma reads_platform_field f : utf8_valid f = true → field_fits f → reads platform_field (lp16 f) f.
Proof.
  intros Hu Hf. unfold platform_field. rewrite <- (app_nil_r (lp16 f)). unfold field_fits in Hf.
  reads_step ltac:(apply reads_string_u16; [unfold U16_MAX; lia|done]).
  reads_step ltac:(by apply platform_field_check_ok). apply reads_mret.
Qed.
Lemma spells_platform_field : spells platform_field lp16 (λ f, utf8_valid f = true ∧ field_fits f).
Proof.
  intros d l a d' Hd H. unfold platform_field in H. dec_inv. apply platform_field_check_ok in Hl. eexists.
  split; [reflexivity|]. naive_solver.
Qed.
#[export] Hint Resolve reads_platform_field : reads.
#[export] Hint Resolve spells_platform_field : spells.

#[export] Instance Platform_WireLaws : WireLaws Platform Platform_wf.
Proof.
  apply wire_laws_reader with (fits := Platform_fits) (check := λ _, Ok ())
    (bytes := λ v : Platform, lp16 (pf_os v) ++ lp16 (pf_arch v) ++ lp16 (pf_env v)) (read := Platform_read).
  - intros v out o. unfold encode_to, Platform_encode_to. rewrite bind_ok.
    setoid_rewrite (try_fold_writes _ lp16 (λ f, len f <= U16_MAX) _ _ _ (λ f out o, put_string_u16_ok out f o)).
    cbn [map concat]. rewrite app_nil_r. split.
    + intros ([] & Hv%Platform_validate_ok & -> & _). done.
    + intros [-> Hf]. exists (). split; [by apply Platform_validate_ok|]. destruct Hf as (? & ? & ?).
      unfold field_fits, U16_MAX in *. split; [done|]. repeat constructor; lia.
  - intros bs. unfold decode, Platform_decode. by destruct (run _ _).
  - intros v (? & ? & ?) (? & ? & ?). split; [done|]. unfold Platform_read. read_layout. destruct v. read_layout.
  - intros bs v d' Hd H _. unfold Platform_read in H. dec_inv. unfold Platform_wf, Platform_fits.
    cbn [pf_os pf_arch pf_env]. rewrite app_nil_r. naive_solver.
Qed.

(** ** The client HELLO *)

Definition FamilyOffer_wf (o : FamilyOffer) : Prop := is_u16 (fo_family_id o) ∧ Forall (λ z, is_u16 z) (fo_versions o).
Definition FamilyOffer_fits (o : FamilyOffer) : Prop := len (fo_versions o) <= U8_MAX.
Definition FamilyOffer_bytes (o : FamilyOffer) : list byte :=
  to_le 2 (fo_family_id o) ++ [byte_of (len (fo_versions o))] ++ [byte_of (of_bool (fo_required o))]
  ++ concat (map (to_le 2) (fo_versions o)).

Lemma encode_offer_ok v out o : encode_offer v out = Ok o ↔ o = out ++ FamilyOffer_bytes v ∧ FamilyOffer_fits v.
Proof.
  unfold encode_offer, FamilyOffer_bytes, FamilyOffer_fits, push_u8, put_u16. rewrite bind_ok.
  setoid_rewrite try_u8_ok. setoid_rewrite put_u16s_eq. repeat setoid_rewrite <- app_assoc. naive_solver.
Qed.

Lemma reads_offer v : FamilyOffer_wf v ∧ FamilyOffer_fits v → reads decode_offer (FamilyOffer_bytes v) v.
Proof.
  intros ((? & ?) & Hf). unfold decode_offer, FamilyOffer_bytes, FamilyOffer_fits, U8_MAX in *.
  destruct v as [id vs r]; cbn [fo_family_id fo_versions fo_required] in *. pose proof (len_nonneg vs).
  reads_step idtac. reads_step idtac. reads_step ltac:(apply reads_u8; by destruct r).
  reads_step ltac:(by destruct r). rewrite <- (app_nil_r (concat _)).
  reads_step ltac:(by apply reads_u16s). destruct r; apply reads_mret.
Qed.

Lemma spells_offer : spells decode_offer FamilyOffer_bytes (λ v, FamilyOffer_wf v ∧ FamilyOffer_fits v).
Proof.
  intros d l a d' Hd H. unfold decode_offer in H. dec_inv. counted.
  pose proof (flag_of_bool x1 ltac:(lia) ltac:(done)) as Hx.
  eexists. unfold FamilyOffer_bytes, FamilyOffer_wf, FamilyOffer_fits, U8_MAX. cbn [fo_family_id fo_versions fo_required].
  rewrite <- Hx, <- !app_assoc. split; [reflexivity|]. split_and!; try done; lia.
Qed.
#[export] Hint Resolve spells_offer : spells.

Lemma len_FamilyOffer_bytes v : 4 <= len (FamilyOffer_bytes v).
Proof.
  unfold FamilyOffer_bytes. rewrite !len_app, !len_to_le. change (len [byte_of _]) with 1.
  match goal with |- context [len (concat ?l)] => pose proof (len_nonneg (concat l)) end. cbn. lia.
Qed.

(** The field types of the struct. *)
Definition ClientHello_wf (v : ClientHello) : Prop :=
  is_u16 (hc_min_minor v) ∧ is_u16 (hc_max_minor v) ∧ ReceiveLimits_wf (hc_receive v)
  ∧ length (hc_client_instance v) = 16%nat ∧ utf8_valid (hc_client_name v) = true
  ∧ utf8_valid (hc_client_release v) = true ∧ Forall FamilyOffer_wf (hc_families v)
  ∧ Forall (λ z, is_u16 z) (hc_codecs v) ∧ exts_wf (hc_extensions v).

Definition ClientHello_fits (v : ClientHello) : Prop :=
  ClientHello_validate v = Ok () ∧ len (hc_client_name v) <= U16_MAX ∧ len (hc_client_release v) <= U16_MAX
  ∧ len (entries_bytes (hc_extensions v)) <= U32_MAX.

Definition ClientHello_bytes (v : ClientHello) : list byte :=
  to_le 2 (hc_min_minor v) ++ to_le 2 (hc_max_minor v) ++ ReceiveLimits_bytes (hc_receive v)
  ++ hc_client_instance v ++ lp16 (hc_client_name v) ++ lp16 (hc_client_release v)
  ++ to_le 2 (len (hc_families v)) ++ concat (map FamilyOffer_bytes (hc_families v))
  ++ [byte_of (len (hc_codecs v))] ++ concat (map (to_le 2) (hc_codecs v)) ++ tail_bytes (hc_extensions v).

(** What validation establishes for the writer. *)
Lemma ClientHello_validate_inv v :
  ClientHello_validate v = Ok () →
  hc_min_minor v <= hc_max_minor v ∧ ReceiveLimits_validate (hc_receive v) = Ok ()
  ∧ len (hc_families v) <= U16_MAX ∧ Forall (λ o, FamilyOffer_validate o = Ok ()) (hc_families v)
  ∧ len (hc_codecs v) <= U8_MAX ∧ Extensions_validate (hc_extensions v) = Ok ().
Proof.
  unfold ClientHello_validate. intros H. inv_ok.
  repeat match goal with x : () |- _ => destruct x end.
  repeat match goal with H : for_each _ _ = Ok _ |- _ => apply for_each_ok in H end.
  split_and!; try done; lia.
Qed.

Lemma FamilyOffer_validate_fits o : FamilyOffer_validate o = Ok () → FamilyOffer_fits o.
Proof. unfold FamilyOffer_validate, FamilyOffer_fits. intros H. inv_ok. lia. Qed.

Lemma ClientHello_encode_ok (v : ClientHello) out o :
  encode_to v out = Ok o ↔ o = out ++ ClientHello_bytes v ∧ ClientHello_fits v.
Proof.
  unfold encode_to, ClientHello_encode_to, ClientHello_fits, ClientHello_bytes.
  destruct (ClientHello_validate v) as [[]|] eqn:E; cbn [mbind result_bind]; [|naive_solver].
  apply ClientHello_validate_inv in E as (_ & Hr & Hf & Ho & Hc & He). split.
  - intros H. apply bind_ok in H as (o1 & [-> _]%ReceiveLimits_encode_ok & H). enc_inv.
    repeat match goal with
    | H : try_u16 _ = Some _ |- _ => apply try_u16_some in H as ->
    | H : try_u8 _ = Some _ |- _ => apply try_u8_some in H as ->
    | H : try_fold encode_offer _ _ = Ok _ |- _ =>
        apply (try_fold_writes _ _ _ _ _ _ encode_offer_ok) in H as [-> _]
    end. rewrite put_u16s_eq. split; [bytes_eq|done].
  - intros (-> & _ & Hn & Hl & Hx). apply bind_ok. eexists. split; [by apply ReceiveLimits_encode_ok|].
    enc_step. enc_step. apply bind_ok. exists (len (hc_families v)). split; [by apply try_u16_ok|].
    apply bind_ok. eexists. split.
    { apply (try_fold_writes _ _ _ _ _ _ encode_offer_ok). split; [done|].
      revert Ho. apply Forall_impl. apply FamilyOffer_validate_fits. }
    apply bind_ok. exists (len (hc_codecs v)). split; [by apply try_u8_ok|]. rewrite put_u16s_eq. enc_step.
Qed.

#[export] Instance ClientHello_WireLaws : WireLaws ClientHello ClientHello_wf.
Proof.
  apply wire_laws_reader with (fits := ClientHello_fits) (check := ClientHello_validate)
    (bytes := ClientHello_bytes) (read := ClientHello_read).
  - apply ClientHello_encode_ok.
  - done.
  - intros v (? & ? & Hrw & ? & ? & ? & Hfw & Hcw & Hxw) (Hv & ? & ? & ?). split; [done|].
    apply ClientHello_validate_inv in Hv as (_ & Hr & Hf & Ho & Hc & He).
    assert (exts_ok (hc_extensions v)) by done. assert (ReceiveLimits_ok (hc_receive v)) by done.
    pose proof (len_nonneg (hc_families v)). pose proof (len_nonneg (hc_codecs v)).
    unfold ClientHello_read, ClientHello_bytes, U16_MAX, U8_MAX in *. do 6 reads_step ltac:(idtac).
    reads_step idtac.
    reads_step ltac:(eapply reads_counted_ok; [done|apply reads_offer|apply len_FamilyOffer_bytes|];
      apply Forall_and; [done|]; revert Ho; apply Forall_impl, FamilyOffer_validate_fits).
    reads_step idtac. reads_step ltac:(by apply reads_u16s). read_layout. destruct v. read_layout.
  - intros bs v d' Hd H Hc. unfold ClientHello_read in H. dec_inv. counted.
    match goal with H : ReceiveLimits_ok _ |- _ => destruct H end.
    match goal with H : Forall (λ v, FamilyOffer_wf v ∧ _) _ |- _ => apply Forall_and_inv in H as [? ?] end.
    match goal with H : exts_ok _ |- _ => destruct H as (? & ? & ?) end.
    unfold ClientHello_bytes, ClientHello_wf, ClientHello_fits.
    cbn [hc_min_minor hc_max_minor hc_receive hc_client_instance hc_client_name hc_client_release hc_families
      hc_codecs hc_extensions]. rewrite app_nil_r. destruct_and?. split_and!; try done.
    unfold len in *. lia.
Qed.
