(* ===== verification/CoreDescriptors.v ===== *)
(** * CoreDescriptors: the wire laws of HELLO's server half ([core.rs])

    Operations, family descriptors, Results, the server HELLO, SESSION_INFO
    and its diagnostics are read back as written, and nothing else is read. *)

From S2P Require Import Prelude Schema Codec Kv KvDedup FamilyLimits CodecFacts Wire Frame Core CoreWire.

(** ** Operations *)

Definition Operation_bytes (o : Operation) : list byte :=
  [byte_of (Z.lor (of_bool (oper_server_accepts o)) (of_bool (oper_server_sends o) * 2))]
  ++ [byte_of (Class_u8 (oper_class o))] ++ to_le 2 (oper_kind o).
Definition Operation_wf (o : Operation) : Prop := is_u16 (oper_kind o).
Definition Operation_ok (o : Operation) : Prop := Operation_wf o ∧ Operation_validate o = Ok ().

Lemma Operation_encode_ok v out o :
  Operation_encode_to v out = Ok o ↔ o = out ++ Operation_bytes v ∧ Operation_validate v = Ok ().
Proof.
  unfold Operation_encode_to, Operation_bytes, put_u16, push_u8. rewrite <- !app_assoc.
  change (as_u8 core_DIRECTION_ACCEPTS) with 1. change (as_u8 core_DIRECTION_SENDS) with 2. rewrite Z.mul_1_r.
  destruct (Operation_validate v) as [[]|]; cbn [mbind result_bind]; naive_solver.
Qed.

Lemma reads_operation v : Operation_ok v → reads Operation_decode_from (Operation_bytes v) v.
Proof.
  intros [Hw Hv]. unfold Operation_decode_from, Operation_bytes, Operation_wf in *.
  destruct v as [a s c k]; cbn [oper_server_accepts oper_server_sends oper_class oper_kind] in *.
  reads_step ltac:(apply reads_u8; by destruct a, s).
  destruct a, s; try (by destruct c); destruct c; try done;
    (reads_step ltac:(reflexivity); reads_step ltac:(by apply reads_u8); reads_step ltac:(reflexivity);
     rewrite <- (app_nil_r (to_le 2 k)); reads_step idtac; reads_step ltac:(exact Hv); apply reads_mret).
Qed.

Lemma direction_bits z : is_u8 z → (z =? 0) || has_other_bits z 3 = false →
  z = Z.lor (of_bool (has_bits z 1)) (of_bool (has_bits z 2) * 2).
Proof.
  intros Hz [H0 H]%orb_false_iff. apply (has_other_bits_ones z 2) in H; [|lia|lia]. change (2 ^ 2) with 4 in H.
  assert (z = 1 ∨ z = 2 ∨ z = 3) as [-> | [-> | ->]] by lia; done.
Qed.

Lemma spells_operation : spells Operation_decode_from Operation_bytes Operation_ok.
Proof.
  intros d l a d' Hd H. unfold Operation_decode_from in H. dec_inv.
  pose proof (direction_bits x ltac:(lia) ltac:(done)) as Hx.
  assert (x1 = Class_u8 x2) as -> by (destruct (Z.eqb_spec x1 0); [naive_solver|]; destruct (Z.eqb_spec x1 1); naive_solver).
  eexists. unfold Operation_bytes, Operation_ok, Operation_wf.
  cbn [oper_server_accepts oper_server_sends oper_class oper_kind].
  change (as_u8 core_DIRECTION_ACCEPTS) with 1. change (as_u8 core_DIRECTION_SENDS) with 2.
  rewrite <- Hx, <- !app_assoc. split; [reflexivity|done].
Qed.
#[export] Hint Resolve spells_operation : spells.

Lemma len_Operation_bytes v : 4 <= len (Operation_bytes v).
Proof. done. Qed.

(** ** Detail and limit tails, read in place *)

Lemma put_detail_ok detail out o :
  put_detail detail out = Ok o ↔
  o = out ++ tail_bytes detail ∧ Extensions_validate detail = Ok () ∧ len (entries_bytes detail) <= U32_MAX.
Proof. exact (Extensions_encode_tail_ok detail out o). Qed.

(** [entries ← dec_len_bytes_u32; exts ← lift (decode_entries entries)] is [dec_extensions]. *)
Ltac read_entries :=
  reads_step ltac:(apply reads_len_bytes_u32; by match goal with H : exts_ok _ |- _ => apply H end);
  reads_step ltac:(by apply Extensions_decode_entries_bytes).
Ltac inv_entries :=
  repeat match goal with
  | H : Extensions_decode_entries _ = Ok _ |- _ =>
      let Hx := fresh "Hx" in apply Extensions_decode_entries_ok in H as [-> Hx]; [|done]
  end.

Lemma result_extensions_validate exts context :
  validate_result_or_event_extensions exts context = Ok () ↔
  Extensions_validate exts = Ok () ∧ existsb ext_required exts = false.
Proof.
  unfold validate_result_or_event_extensions. destruct (Extensions_validate exts) as [[]|]; cbn [mbind result_bind];
    [|naive_solver]. rewrite reject_if_ok. naive_solver.
Qed.

(** ** Results *)

Definition ResultPrefix_wf (v : ResultPrefix) : Prop := wf_status (rp_status v) ∧ exts_wf (rp_detail v).
Definition ResultPrefix_fits (v : ResultPrefix) : Prop :=
  ResultPrefix_check v = Ok () ∧ len (entries_bytes (rp_detail v)) <= U32_MAX.
Definition ResultPrefix_bytes (v : ResultPrefix) : list byte :=
  to_le 2 (Status_code (rp_status v)) ++ to_le 2 0 ++ tail_bytes (rp_detail v) ++ rp_body v.

Lemma ResultPrefix_check_exts v : ResultPrefix_check v = Ok () → Extensions_validate (rp_detail v) = Ok ().
Proof. unfold ResultPrefix_check. intros H. inv_ok. by apply result_extensions_validate in H as [? _]. Qed.

Lemma ResultPrefix_encode_to_ok (v : ResultPrefix) out o :
  encode_to v out = Ok o ↔ o = out ++ ResultPrefix_bytes v ∧ ResultPrefix_fits v.
Proof.
  unfold encode_to, ResultPrefix_encode_to, ResultPrefix_fits, ResultPrefix_bytes.
  destruct (ResultPrefix_check v) as [[]|] eqn:E; cbn [mbind result_bind]; [|naive_solver].
  apply ResultPrefix_check_exts in E. split.
  - intros (o1 & (-> & _ & ?)%put_detail_ok & [= <-])%bind_ok. split; [bytes_eq|done].
  - intros (-> & _ & Hl). apply bind_ok. eexists. split; [by apply put_detail_ok|]. f_equal. bytes_eq.
Qed.

#[export] Instance ResultPrefix_WireLaws : WireLaws ResultPrefix ResultPrefix_wf.
Proof.
  apply wire_laws_reader with (fits := ResultPrefix_fits) (check := ResultPrefix_check)
    (bytes := ResultPrefix_bytes) (read := ResultPrefix_read).
  - apply ResultPrefix_encode_to_ok.
  - done.
  - intros v ([Hs Hs'] & Hx) [Hc Hl]. split; [done|]. pose proof (ResultPrefix_check_exts _ Hc).
    assert (exts_ok (rp_detail v)) by done. unfold ResultPrefix_read, ResultPrefix_bytes, tail_bytes.
    reads_step idtac. reads_step ltac:(by apply reads_u16). reads_step ltac:(done). read_entries.
    read_layout. rewrite Hs'. destruct v. read_layout.
  - intros bs v d' Hd H Hc. unfold ResultPrefix_read in H. dec_inv. inv_entries.
    match goal with H : negb (_ =? 0) = false |- _ => apply negb_false_iff, Z.eqb_eq in H as -> end.
    destruct Hx as (? & ? & ?). unfold ResultPrefix_bytes, ResultPrefix_wf, ResultPrefix_fits.
    cbn [rp_status rp_detail rp_body]. rewrite Status_code_from_code.
    split; [done|]. split_and!; try done. by apply wf_status_from_code.
Qed.

(** ** Initial WATCH Results *)

Definition watch_result_ok (r : ResultPrefix) : Prop :=
  ResultPrefix_wf r ∧ ResultPrefix_fits r ∧ len (ResultPrefix_bytes r) <= U32_MAX.
Definition watch_result_bytes (r : ResultPrefix) : list byte := lp32 (ResultPrefix_bytes r).

Lemma ResultPrefix_encode_ok (v : ResultPrefix) bs :
  encode v = Ok bs ↔ bs = ResultPrefix_bytes v ∧ ResultPrefix_fits v.
Proof. exact (ResultPrefix_encode_to_ok v [] bs). Qed.

Lemma encode_watch_result_ok v out o :
  encode_watch_result v out = Ok o ↔
  o = out ++ watch_result_bytes v ∧ ResultPrefix_fits v ∧ len (ResultPrefix_bytes v) <= U32_MAX.
Proof.
  unfold encode_watch_result, watch_result_bytes. rewrite bind_ok. setoid_rewrite ResultPrefix_encode_ok.
  setoid_rewrite put_bytes_u32_ok. naive_solver.
Qed.

Lemma u32_isize n : n <= U32_MAX → n <= ISIZE_MAX.
Proof. unfold U32_MAX, ISIZE_MAX. lia. Qed.

Lemma reads_watch_result v : watch_result_ok v → reads decode_watch_result (watch_result_bytes v) v.
Proof.
  intros (Hw & Hf & Hl). unfold decode_watch_result, watch_result_bytes. rewrite <- (app_nil_r (lp32 _)).
  reads_step idtac. apply reads_lift, wire_roundtrip; [done|by apply ResultPrefix_encode_ok|by apply u32_isize].
Qed.

Lemma spells_watch_result : spells decode_watch_result watch_result_bytes watch_result_ok.
Proof.
  intros d l a d' Hd H. unfold decode_watch_result in H. dec_inv.
  apply wire_canonical in Hl as [Hr (-> & Hf)%ResultPrefix_encode_ok]; [|by apply u32_isize].
  eexists. split; [reflexivity|done].
Qed.
#[export] Hint Resolve spells_watch_result : spells.

Definition InitialWatchResults_wf (v : InitialWatchResults) : Prop := Forall ResultPrefix_wf v.

#[export] Instance InitialWatchResults_WireLaws : WireLaws InitialWatchResults InitialWatchResults_wf.
Proof.
  apply wire_laws_reader with
    (fits := λ v, len v <= U16_MAX ∧ Forall (λ r, ResultPrefix_fits r ∧ len (ResultPrefix_bytes r) <= U32_MAX) v)
    (check := λ _, Ok ()) (bytes := λ v : InitialWatchResults, to_le 2 (len v) ++ concat (map watch_result_bytes v))
    (read := InitialWatchResults_read).
  - intros v out o. unfold encode_to, InitialWatchResults_encode_to. rewrite bind_ok. setoid_rewrite try_u16_ok.
    setoid_rewrite (try_fold_writes _ _ _ _ _ _ encode_watch_result_ok). unfold put_u16. split.
    + intros (n & [-> ?] & -> & ?). by rewrite <- app_assoc.
    + intros (-> & ? & ?). exists (len v). by rewrite <- app_assoc.
  - intros bs. unfold decode, InitialWatchResults_decode. by destruct (run _ _).
  - intros v Hw [Hl Hf]. split; [done|]. pose proof (len_nonneg v). unfold InitialWatchResults_read, U16_MAX in *.
    reads_step idtac.
    reads_step ltac:(eapply reads_counted_ok; [done|apply reads_watch_result| |by apply Forall_and];
      intros a; unfold watch_result_bytes; rewrite len_lp32; pose proof (len_nonneg (ResultPrefix_bytes a)); lia).
    read_layout.
  - intros bs v d' Hd H _. unfold InitialWatchResults_read in H. dec_inv. unfold watch_result_ok in *.
    counted. match goal with H : Forall _ _ |- _ => apply Forall_and_inv in H as [? ?] end.
    rewrite app_nil_r. unfold U16_MAX. split_and!; try done. lia.
Qed.

(** ** Family descriptors *)

Definition FamilyDescriptor_wf (d : FamilyDescriptor) : Prop :=
  is_u16 (fd_family_id d) ∧ is_u16 (fd_version d) ∧ Forall Operation_wf (fd_operations d) ∧ exts_wf (fd_limits d).
Definition FamilyDescriptor_body (d : FamilyDescriptor) : list byte :=
  to_le 2 (fd_family_id d) ++ to_le 2 (fd_version d) ++ [byte_of (RuntimeState_u8 (fd_runtime_state d))]
  ++ [byte_of 0] ++ to_le 2 (len (fd_operations d)) ++ concat (map Operation_bytes (fd_operations d))
  ++ tail_bytes (fd_limits d).
Definition FamilyDescriptor_fits (d : FamilyDescriptor) : Prop :=
  FamilyDescriptor_validate d = Ok () ∧ len (entries_bytes (fd_limits d)) <= U32_MAX
  ∧ len (FamilyDescriptor_body d) <= U32_MAX.
Definition FamilyDescriptor_ok (d : FamilyDescriptor) : Prop := FamilyDescriptor_wf d ∧ FamilyDescriptor_fits d.
Definition FamilyDescriptor_bytes (d : FamilyDescriptor) : list byte := lp32 (FamilyDescriptor_body d).

Lemma operations_check_valid family_id version previous rest :
  operations_check family_id version previous rest = Ok () → Forall (λ o, Operation_validate o = Ok ()) rest.
Proof.
  revert previous. induction rest as [|o rest IH]; intros previous H; [constructor|]. cbn [operations_check] in H.
  inv_ok. match goal with H : operation_check _ _ _ = Ok _ |- _ => unfold operation_check in H end. inv_ok.
  repeat match goal with x : () |- _ => destruct x end. constructor; [done|by eapply IH].
Qed.

Lemma FamilyDescriptor_validate_inv d :
  FamilyDescriptor_validate d = Ok () →
  fd_version d ≠ 0 ∧ len (fd_operations d) <= U16_MAX
  ∧ operations_check (fd_family_id d) (fd_version d) [] (fd_operations d) = Ok ()
  ∧ Extensions_validate (fd_limits d) = Ok () ∧ existsb ext_required (fd_limits d) = false.
Proof.
  unfold FamilyDescriptor_validate. intros H. inv_ok. repeat match goal with x : () |- _ => destruct x end.
  split_and!; try done; lia.
Qed.

Lemma as_u16_len {A} (l : list A) : len l <= U16_MAX → as_u16 (len l) = len l.
Proof. intros Hl. pose proof (len_nonneg l). unfold as_u16, U16_MAX in *. apply Z.mod_small. lia. Qed.

(** The limits and then the record itself, each behind its length. *)
Lemma record_tail_ok limits bs out x :
  (l ← Extensions_encode_entries limits []; body ← put_len_u32 bs (len l);
   let body := body ++ l in out ← put_len_u32 out (len body); Ok (out ++ body)) = Ok x ↔
  ∃ body, put_detail limits bs = Ok body ∧ put_bytes_u32 out body = Ok x.
Proof.
  unfold put_detail, put_bytes_u32. destruct (Extensions_encode_entries limits []) as [l|]; cbn [mbind result_bind];
    [|naive_solver]. destruct (put_len_u32 bs (len l)) as [b|]; cbn [mbind result_bind]; naive_solver.
Qed.

Lemma FamilyDescriptor_encode_ok d out o :
  FamilyDescriptor_encode_record d out = Ok o ↔ o = out ++ FamilyDescriptor_bytes d ∧ FamilyDescriptor_fits d.
Proof.
  unfold FamilyDescriptor_encode_record, FamilyDescriptor_fits.
  destruct (FamilyDescriptor_validate d) as [[]|] eqn:E; cbn [mbind result_bind]; [|naive_solver].
  apply FamilyDescriptor_validate_inv in E as (_ & Hn & Hc%operations_check_valid & Hx & _). rewrite as_u16_len by done.
  rewrite bind_ok. setoid_rewrite (try_fold_writes _ _ _ _ _ _ Operation_encode_ok).
  setoid_rewrite record_tail_ok. setoid_rewrite put_detail_ok. setoid_rewrite put_bytes_u32_ok.
  unfold FamilyDescriptor_bytes, FamilyDescriptor_body, put_u16, push_u8. rewrite <- !app_assoc. cbn [app]. split.
  - intros (bs & [-> _] & b & (-> & _ & ?) & -> & Hq). revert Hq. rewrite <- !app_assoc. done.
  - intros (-> & _ & Hl & Hb). eexists. split; [done|]. eexists. split; [done|]. revert Hb. rewrite <- !app_assoc. done.
Qed.

Lemma RuntimeState_roundtrip s : RuntimeState_try_from (RuntimeState_u8 s) = Ok s.
Proof. by destruct s. Qed.
Lemma RuntimeState_try_from_ok z s : RuntimeState_try_from z = Ok s → z = RuntimeState_u8 s.
Proof. unfold RuntimeState_try_from. intros H. split_match H; injection H as <-; cbn [RuntimeState_u8]; lia. Qed.

Lemma run_descriptor d : FamilyDescriptor_ok d →
  run FamilyDescriptor_read (Decoder_new (FamilyDescriptor_body d)) = Ok d.
Proof.
  intros [(? & ? & Ho & He) (Hv & Hl & Hb)].
  apply FamilyDescriptor_validate_inv in Hv as (_ & Hn & Hc%operations_check_valid & Hx & _).
  assert (exts_ok (fd_limits d)) by done. apply run_reads_end; [|by apply u32_isize].
  pose proof (len_nonneg (fd_operations d)). unfold FamilyDescriptor_read, FamilyDescriptor_body, tail_bytes, U16_MAX in *.
  reads_step idtac. reads_step idtac. reads_step ltac:(apply reads_u8; by destruct (fd_runtime_state d)).
  reads_step ltac:(apply RuntimeState_roundtrip). reads_step ltac:(by apply (reads_u8 0)). reads_step ltac:(done).
  reads_step idtac.
  reads_step ltac:(eapply reads_counted_ok; [done|apply reads_operation|apply len_Operation_bytes|by apply Forall_and]).
  read_entries. read_layout. destruct d. read_layout.
Qed.

Lemma run_descriptor_inv bs d : len bs <= ISIZE_MAX → run FamilyDescriptor_read (Decoder_new bs) = Ok d →
  bs = FamilyDescriptor_body d ∧ FamilyDescriptor_wf d ∧ len (entries_bytes (fd_limits d)) <= U32_MAX.
Proof.
  intros Hl (d' & H)%run_ok. pose proof (dec_at_new _ Hl) as Hd. unfold FamilyDescriptor_read in H. dec_inv.
  inv_entries. counted. unfold Operation_ok in *.
  match goal with H : Forall _ _ |- _ => apply Forall_and_inv in H as [? ?] end. destruct Hx as (? & ? & ?).
  match goal with H : RuntimeState_try_from _ = Ok _ |- _ => apply RuntimeState_try_from_ok in H as -> end.
  match goal with H : negb (_ =? 0) = false |- _ => apply negb_false_iff, Z.eqb_eq in H as -> end.
  unfold FamilyDescriptor_body, FamilyDescriptor_wf.
  cbn [fd_family_id fd_version fd_runtime_state fd_operations fd_limits]. rewrite app_nil_r. destruct_and?. split_and!; done.
Qed.

Lemma reads_descriptor d : FamilyDescriptor_ok d → reads FamilyDescriptor_decode_record (FamilyDescriptor_bytes d) d.
Proof.
  intros Hok. pose proof Hok as [_ (Hv & _ & Hb)]. unfold FamilyDescriptor_decode_record, FamilyDescriptor_bytes.
  rewrite <- (app_nil_r (lp32 _)). reads_step idtac. reads_step ltac:(by apply run_descriptor).
  reads_step ltac:(exact Hv). apply reads_mret.
Qed.
Lemma spells_descriptor : spells FamilyDescriptor_decode_record FamilyDescriptor_bytes FamilyDescriptor_ok.
Proof.
  intros d l a d' Hd H. unfold FamilyDescriptor_decode_record in H. dec_inv.
  match goal with H : run FamilyDescriptor_read _ = Ok _ |- _ =>
    apply run_descriptor_inv in H as (-> & ? & ?); [|by apply u32_isize] end.
  eexists. split; [reflexivity|done].
Qed.
#[export] Hint Resolve reads_descriptor : reads.
#[export] Hint Resolve spells_descriptor : spells.

Lemma len_FamilyDescriptor_bytes d : 16 <= len (FamilyDescriptor_bytes d).
Proof.
  unfold FamilyDescriptor_bytes, FamilyDescriptor_body, tail_bytes. rewrite len_lp32, !len_app, !len_to_le, len_lp32.
  change (len [byte_of _]) with 1. pose proof (len_nonneg (entries_bytes (fd_limits d))).
  pose proof (len_nonneg (concat (map Operation_bytes (fd_operations d)))). lia.
Qed.

(** ** Family lists *)

Lemma families_check_inv families order dependency :
  families_check families order dependency = Ok () →
  len families <= U16_MAX ∧ Forall (λ d, FamilyDescriptor_validate d = Ok ()) families.
Proof.
  unfold families_check. intros H. inv_ok. repeat match goal with x : () |- _ => destruct x end.
  match goal with H : for_each _ _ = Ok _ |- _ => apply for_each_ok in H end.
  match goal with H : _ || _ = false |- _ => apply orb_false_iff in H as [[? ?]%orb_false_iff _] end. split; [lia|done].
Qed.

Definition families_bytes (families : list FamilyDescriptor) : list byte :=
  to_le 2 (len families) ++ concat (map FamilyDescriptor_bytes families).

Lemma families_writes families out o :
  len families <= U16_MAX →
  try_fold FamilyDescriptor_encode_record families (put_u16 out (as_u16 (len families))) = Ok o ↔
  o = out ++ families_bytes families ∧ Forall FamilyDescriptor_fits families.
Proof.
  intros Hl. rewrite (try_fold_writes _ _ _ _ _ _ FamilyDescriptor_encode_ok), as_u16_len by done.
  unfold put_u16, families_bytes. by rewrite <- app_assoc.
Qed.

(** Steps a reader over a counted family list. *)
Ltac read_families :=
  unfold families_bytes; rewrite <- ?app_assoc;
  reads_step idtac;
  reads_step ltac:(eapply reads_counted_ok; [done|apply reads_descriptor|apply len_FamilyDescriptor_bytes|by apply Forall_and]).

(** ** The server HELLO *)

Definition ServerHello_wf (v : ServerHello) : Prop :=
  is_u16 (hs_minor v) ∧ length (hs_boot_id v) = 16%nat ∧ length (hs_session_id v) = 16%nat
  ∧ ReceiveLimits_wf (hs_receive v) ∧ is_u64 (hs_server_monotonic_ns v) ∧ is_u64 (hs_catalog_revision v)
  ∧ utf8_valid (hs_server_name v) = true ∧ utf8_valid (hs_server_release v) = true
  ∧ Forall FamilyDescriptor_wf (hs_families v) ∧ exts_wf (hs_extensions v).

Definition ServerHello_fits (v : ServerHello) : Prop :=
  ServerHello_validate v = Ok () ∧ len (hs_server_name v) <= U16_MAX ∧ len (hs_server_release v) <= U16_MAX
  ∧ Forall FamilyDescriptor_fits (hs_families v) ∧ len (entries_bytes (hs_extensions v)) <= U32_MAX.

Definition ServerHello_bytes (v : ServerHello) : list byte :=
  to_le 2 (hs_minor v) ++ to_le 2 0 ++ hs_boot_id v ++ hs_session_id v ++ ReceiveLimits_bytes (hs_receive v)
  ++ to_le 8 (hs_server_monotonic_ns v) ++ to_le 8 (hs_catalog_revision v) ++ lp16 (hs_server_name v)
  ++ lp16 (hs_server_release v) ++ families_bytes (hs_families v) ++ tail_bytes (hs_extensions v).

Lemma ServerHello_validate_inv v :
  ServerHello_validate v = Ok () →
  ReceiveLimits_validate (hs_receive v) = Ok () ∧ len (hs_families v) <= U16_MAX
  ∧ Forall (λ d, FamilyDescriptor_validate d = Ok ()) (hs_families v)
  ∧ Extensions_validate (hs_extensions v) = Ok () ∧ existsb ext_required (hs_extensions v) = false.
Proof.
  unfold ServerHello_validate. intros H. inv_ok. repeat match goal with x : () |- _ => destruct x end.
  match goal with H : families_check _ _ _ = Ok _ |- _ => apply families_check_inv in H as [? ?] end.
  match goal with H : validate_result_or_event_extensions _ _ = Ok _ |- _ => apply result_extensions_validate in H as [? ?] end.
  done.
Qed.

Lemma ServerHello_encode_ok (v : ServerHello) out o :
  encode_to v out = Ok o ↔ o = out ++ ServerHello_bytes v ∧ ServerHello_fits v.
Proof.
  unfold encode_to, ServerHello_encode_to, ServerHello_fits, ServerHello_bytes.
  destruct (ServerHello_validate v) as [[]|] eqn:E; cbn [mbind result_bind]; [|naive_solver].
  apply ServerHello_validate_inv in E as (Hr & Hn & Hv & Hx & _). split.
  - intros H. apply bind_ok in H as (o1 & [-> _]%ReceiveLimits_encode_ok & H). enc_inv.
    match goal with H : try_fold _ _ _ = Ok _ |- _ => apply families_writes in H as [-> ?]; [|done] end.
    split; [bytes_eq|done].
  - intros (-> & _ & Hl & Hl' & Hf & He). apply bind_ok. eexists. split; [by apply ReceiveLimits_encode_ok|].
    enc_step. enc_step. apply bind_ok. eexists. split; [by apply families_writes|]. enc_step.
Qed.

#[export] Instance ServerHello_WireLaws : WireLaws ServerHello ServerHello_wf.
Proof.
  apply wire_laws_reader with (fits := ServerHello_fits) (check := ServerHello_validate)
    (bytes := ServerHello_bytes) (read := ServerHello_read).
  - apply ServerHello_encode_ok.
  - done.
  - intros v (? & ? & ? & Hr & ? & ? & ? & ? & Hd & Hx) (Hv & ? & ? & Hf & He). split; [done|].
    apply ServerHello_validate_inv in Hv as (Hrv & Hn & _ & Hxv & _).
    assert (exts_ok (hs_extensions v)) by done. assert (ReceiveLimits_ok (hs_receive v)) by done.
    pose proof (len_nonneg (hs_families v)). unfold ServerHello_read, ServerHello_bytes, U16_MAX in *.
    reads_step idtac. reads_step ltac:(by apply reads_u16). reads_step ltac:(done). do 7 reads_step idtac.
    read_families. read_layout. destruct v. read_layout.
  - intros bs v d' Hd H Hc. unfold ServerHello_read in H. dec_inv. counted. unfold FamilyDescriptor_ok in *.
    match goal with H : Forall (λ _, _ ∧ _) _ |- _ => apply Forall_and_inv in H as [? ?] end.
    match goal with H : ReceiveLimits_ok _ |- _ => destruct H end.
    match goal with H : exts_ok _ |- _ => destruct H as (? & ? & ?) end.
    match goal with H : negb (_ =? 0) = false |- _ => apply negb_false_iff, Z.eqb_eq in H as -> end.
    unfold ServerHello_bytes, ServerHello_wf, ServerHello_fits, families_bytes.
    cbn [hs_minor hs_boot_id hs_session_id hs_receive hs_server_monotonic_ns hs_catalog_revision hs_server_name
      hs_server_release hs_families hs_extensions]. rewrite app_nil_r, <- !app_assoc.
    unfold len in *. destruct_and?. split_and!; try done; lia.
Qed.

(** ** Session information *)

Definition ServerDiagnostics_wf (v : ServerDiagnostics) : Prop :=
  is_u32 (sd_active_sessions v) ∧ is_u32 (sd_relay_active v) ∧ is_u32 (sd_relay_pending v)
  ∧ is_u64 (sd_aggregate_receive_limit v) ∧ is_u64 (sd_aggregate_receive_buffered v).

#[export] Instance ServerDiagnostics_WireLaws : WireLaws ServerDiagnostics ServerDiagnostics_wf.
Proof.
  apply wire_laws_reader with (fits := λ v, ServerDiagnostics_validate v = Ok ()) (check := ServerDiagnostics_validate)
    (bytes := λ v, to_le 4 (sd_active_sessions v) ++ to_le 4 (sd_relay_active v) ++ to_le 4 (sd_relay_pending v)
       ++ to_le 4 0 ++ to_le 8 (sd_aggregate_receive_limit v) ++ to_le 8 (sd_aggregate_receive_buffered v))
    (read := ServerDiagnostics_read).
  - intros v out o. unfold encode_to, ServerDiagnostics_encode_to, put_u32, put_u64.
    destruct (ServerDiagnostics_validate v) as [[]|]; cbn [mbind result_bind]; rewrite <- ?app_assoc; naive_solver.
  - done.
  - intros v (? & ? & ? & ? & ?) Hv. split; [done|]. unfold ServerDiagnostics_read. do 3 reads_step idtac.
    reads_step ltac:(by apply reads_u32). read_layout. destruct v. read_layout.
  - intros bs v d' Hd H Hc. unfold ServerDiagnostics_read in H. dec_inv.
    match goal with H : negb (_ =? 0) = false |- _ => apply negb_false_iff, Z.eqb_eq in H as -> end.
    unfold ServerDiagnostics_wf. cbn [sd_active_sessions sd_relay_active sd_relay_pending sd_aggregate_receive_limit
      sd_aggregate_receive_buffered]. by rewrite app_nil_r.
Qed.

Definition SessionInfo_wf (v : SessionInfo) : Prop :=
  length (si_session_id v) = 16%nat ∧ is_u64 (si_catalog_revision v) ∧ ReceiveLimits_wf (si_receive v)
  ∧ is_u64 (si_server_monotonic_ns v) ∧ Forall FamilyDescriptor_wf (si_families v) ∧ exts_wf (si_extensions v).
Definition SessionInfo_fits (v : SessionInfo) : Prop :=
  SessionInfo_validate v = Ok () ∧ Forall FamilyDescriptor_fits (si_families v)
  ∧ len (entries_bytes (si_extensions v)) <= U32_MAX.
Definition SessionInfo_bytes (v : SessionInfo) : list byte :=
  si_session_id v ++ to_le 8 (si_catalog_revision v) ++ ReceiveLimits_bytes (si_receive v)
  ++ to_le 8 (si_server_monotonic_ns v) ++ families_bytes (si_families v) ++ tail_bytes (si_extensions v).

Lemma SessionInfo_validate_inv v :
  SessionInfo_validate v = Ok () →
  ReceiveLimits_validate (si_receive v) = Ok () ∧ len (si_families v) <= U16_MAX
  ∧ Forall (λ d, FamilyDescriptor_validate d = Ok ()) (si_families v) ∧ Extensions_validate (si_extensions v) = Ok ().
Proof.
  unfold SessionInfo_validate. intros H. do 3 (apply bind_ok in H as ([] & ? & H)).
  match goal with H : families_check _ _ _ = Ok _ |- _ => apply families_check_inv in H as [? ?] end.
  match goal with H : validate_result_or_event_extensions _ _ = Ok _ |- _ => apply result_extensions_validate in H as [? ?] end.
  done.
Qed.

Lemma SessionInfo_encode_ok (v : SessionInfo) out o :
  encode_to v out = Ok o ↔ o = out ++ SessionInfo_bytes v ∧ SessionInfo_fits v.
Proof.
  unfold encode_to, SessionInfo_encode_to, SessionInfo_fits, SessionInfo_bytes.
  destruct (SessionInfo_validate v) as [[]|] eqn:E; cbn [mbind result_bind]; [|naive_solver].
  apply SessionInfo_validate_inv in E as (Hr & Hn & Hv & Hx). split.
  - intros H. apply bind_ok in H as (o1 & [-> _]%ReceiveLimits_encode_ok & H). enc_inv.
    match goal with H : try_fold _ _ _ = Ok _ |- _ => apply families_writes in H as [-> ?]; [|done] end.
    split; [bytes_eq|done].
  - intros (-> & _ & Hf & He). apply bind_ok. eexists. split; [by apply ReceiveLimits_encode_ok|].
    apply bind_ok. eexists. split; [by apply families_writes|]. enc_step.
Qed.

#[export] Instance SessionInfo_WireLaws : WireLaws SessionInfo SessionInfo_wf.
Proof.
  apply wire_laws_reader with (fits := SessionInfo_fits) (check := SessionInfo_validate)
    (bytes := SessionInfo_bytes) (read := SessionInfo_read).
  - apply SessionInfo_encode_ok.
  - done.
  - intros v (? & ? & Hr & ? & Hd & Hx) (Hv & Hf & He). split; [done|].
    apply SessionInfo_validate_inv in Hv as (Hrv & Hn & _ & Hxv).
    assert (exts_ok (si_extensions v)) by done. assert (ReceiveLimits_ok (si_receive v)) by done.
    pose proof (len_nonneg (si_families v)). unfold SessionInfo_read, SessionInfo_bytes, U16_MAX in *.
    do 4 reads_step idtac. read_families. read_layout. destruct v. read_layout.
  - intros bs v d' Hd H Hc. unfold SessionInfo_read in H. dec_inv. counted. unfold FamilyDescriptor_ok in *.
    match goal with H : Forall (λ _, _ ∧ _) _ |- _ => apply Forall_and_inv in H as [? ?] end.
    match goal with H : ReceiveLimits_ok _ |- _ => destruct H end.
    match goal with H : exts_ok _ |- _ => destruct H as (? & ? & ?) end.
    unfold SessionInfo_bytes, SessionInfo_wf, SessionInfo_fits, families_bytes.
    cbn [si_session_id si_catalog_revision si_receive si_server_monotonic_ns si_families si_extensions].
    rewrite app_nil_r, <- !app_assoc. unfold len in *. destruct_and?. split_and!; try done; lia.
Qed.
