(* ===== verification/CoreControlFacts.v ===== *)
(** * CoreControlFacts: the wire laws of session control ([core.rs])

    PING, CANCEL, SHUTDOWN, GOAWAY and the two catalogue updates. *)

From S2P Require Import Prelude Schema Codec Kv KvDedup FamilyLimits CodecFacts Wire Frame Core CoreControl CoreWire CoreDescriptors.

Definition Ping_wf (v : Ping) : Prop := is_u64 (pi_sender_monotonic_ns v).

#[export] Instance Ping_WireLaws : WireLaws Ping Ping_wf.
Proof.
  apply wire_laws_reader with (fits := λ _, True) (check := λ _, Ok ())
    (bytes := λ v, to_le 8 (pi_sender_monotonic_ns v)) (read := Ping_read).
  - intros v out o. unfold encode_to, Ping_encode_to, put_u64. naive_solver.
  - intros bs. unfold decode, Ping_decode. by destruct (run _ _).
  - intros v Hw _. split; [done|]. unfold Ping_read, Ping_wf in *. read_layout. destruct v. read_layout.
  - intros bs v d' Hd H _. unfold Ping_read in H. dec_inv. unfold Ping_wf. cbn [pi_sender_monotonic_ns].
    by rewrite app_nil_r.
Qed.

Definition PingResult_wf (v : PingResult) : Prop := is_u64 (pr_receiver_receive_ns v) ∧ is_u64 (pr_receiver_send_ns v).

#[export] Instance PingResult_WireLaws : WireLaws PingResult PingResult_wf.
Proof.
  apply wire_laws_reader with (fits := λ v, PingResult_validate v = Ok ()) (check := PingResult_validate)
    (bytes := λ v, to_le 8 (pr_receiver_receive_ns v) ++ to_le 8 (pr_receiver_send_ns v)) (read := PingResult_read).
  - intros v out o. unfold encode_to, PingResult_encode_to, put_u64.
    destruct (PingResult_validate v) as [[]|]; cbn [mbind result_bind]; rewrite <- ?app_assoc; naive_solver.
  - done.
  - intros v (? & ?) Hv. split; [done|]. unfold PingResult_read. read_layout. destruct v. read_layout.
  - intros bs v d' Hd H Hc. unfold PingResult_read in H. dec_inv. unfold PingResult_wf.
    cbn [pr_receiver_receive_ns pr_receiver_send_ns]. by rewrite app_nil_r.
Qed.

Definition Cancel_wf (v : Cancel) : Prop := is_u32 (ca_target_request_id v).

#[export] Instance Cancel_WireLaws : WireLaws Cancel Cancel_wf.
Proof.
  apply wire_laws_reader with (fits := λ v, Cancel_check v = Ok ()) (check := Cancel_check)
    (bytes := λ v, to_le 4 (ca_target_request_id v)) (read := Cancel_read).
  - intros v out o. unfold encode_to, Cancel_encode_to, put_u32.
    destruct (Cancel_check v) as [[]|]; cbn [mbind result_bind]; naive_solver.
  - done.
  - intros v Hw Hv. split; [done|]. unfold Cancel_read, Cancel_wf in *. read_layout. destruct v. read_layout.
  - intros bs v d' Hd H Hc. unfold Cancel_read in H. dec_inv. unfold Cancel_wf. cbn [ca_target_request_id].
    by rewrite app_nil_r.
Qed.

Definition Shutdown_wf (v : Shutdown) : Prop :=
  length (sh_operation_id v) = 16%nat ∧ is_u64 (sh_grace_ns v) ∧ utf8_valid (sh_reason v) = true.

#[export] Instance Shutdown_WireLaws : WireLaws Shutdown Shutdown_wf.
Proof.
  apply wire_laws_reader with (fits := λ v, Shutdown_validate v = Ok () ∧ len (sh_reason v) <= U32_MAX)
    (check := Shutdown_validate)
    (bytes := λ v, sh_operation_id v ++ to_le 8 (sh_grace_ns v) ++ lp32 (sh_reason v)) (read := Shutdown_read).
  - intros v out o. unfold encode_to, Shutdown_encode_to, put_u64.
    destruct (Shutdown_validate v) as [[]|]; cbn [mbind result_bind]; [|naive_solver].
    rewrite put_string_u32_ok, <- !app_assoc. naive_solver.
  - done.
  - intros v (? & ? & ?) [Hv ?]. split; [done|]. unfold Shutdown_read. read_layout. destruct v. read_layout.
  - intros bs v d' Hd H Hc. unfold Shutdown_read in H. dec_inv. unfold Shutdown_wf.
    cbn [sh_operation_id sh_grace_ns sh_reason]. rewrite app_nil_r. unfold len in *. destruct_and?.
    split_and!; try done; lia.
Qed.

Definition GoAway_wf (v : GoAway) : Prop :=
  wf_status (ga_status v) ∧ is_u64 (ga_close_deadline_server_ns v) ∧ exts_wf (ga_detail v).

#[export] Instance GoAway_WireLaws : WireLaws GoAway GoAway_wf.
Proof.
  apply wire_laws_reader with
    (fits := λ v, GoAway_check v = Ok () ∧ len (entries_bytes (ga_detail v)) <= U32_MAX) (check := GoAway_check)
    (bytes := λ v, to_le 2 (Status_code (ga_status v)) ++ to_le 2 0 ++ to_le 8 (ga_close_deadline_server_ns v)
       ++ tail_bytes (ga_detail v)) (read := GoAway_read).
  - intros v out o. unfold encode_to, GoAway_encode_to, put_u16, put_u64.
    destruct (GoAway_check v) as [[]|] eqn:E; cbn [mbind result_bind]; [|naive_solver].
    apply result_extensions_validate in E as [? _]. rewrite put_detail_ok, <- !app_assoc. naive_solver.
  - done.
  - intros v ([Hs Hs'] & ? & Hx) [Hc ?]. split; [done|]. pose proof Hc as [? _]%result_extensions_validate.
    assert (exts_ok (ga_detail v)) by done. unfold GoAway_read, tail_bytes. reads_step idtac.
    reads_step ltac:(by apply reads_u16). reads_step ltac:(done). reads_step idtac. 
    reads_step ltac:(apply reads_len_bytes_u32; assumption).
    reads_step ltac:(by apply Extensions_decode_entries_bytes). read_layout. rewrite Hs'. destruct v. read_layout.
  - intros bs v d' Hd H Hc. unfold GoAway_read in H. dec_inv. inv_entries.
    match goal with H : negb (_ =? 0) = false |- _ => apply negb_false_iff, Z.eqb_eq in H as -> end.
    destruct Hx as (? & ? & ?). unfold GoAway_wf. cbn [ga_status ga_close_deadline_server_ns ga_detail].
    rewrite Status_code_from_code. rewrite app_nil_r. split; [done|]. split_and!; try done; try lia.
    by apply wf_status_from_code.
Qed.

Definition SessionUpdate_wf (v : SessionUpdate) : Prop :=
  is_u64 (su_catalog_revision v) ∧ ReceiveLimits_wf (su_receive v) ∧ exts_wf (su_extensions v).
Definition SessionUpdate_fits (v : SessionUpdate) : Prop :=
  SessionUpdate_check v = Ok () ∧ len (entries_bytes (su_extensions v)) <= U32_MAX.

Lemma SessionUpdate_check_inv v :
  SessionUpdate_check v = Ok () ↔
  su_catalog_revision v ≠ 0 ∧ ReceiveLimits_validate (su_receive v) = Ok ()
  ∧ Extensions_validate (su_extensions v) = Ok () ∧ existsb ext_required (su_extensions v) = false.
Proof.
  unfold SessionUpdate_check. rewrite <- (result_extensions_validate _ "required SESSION_UPDATE extension").
  destruct (Z.eqb_spec (su_catalog_revision v) 0); cbn [reject_if mbind result_bind]; [naive_solver|].
  destruct (ReceiveLimits_validate (su_receive v)) as [[]|]; cbn [mbind result_bind]; naive_solver.
Qed.

#[export] Instance SessionUpdate_WireLaws : WireLaws SessionUpdate SessionUpdate_wf.
Proof.
  apply wire_laws_reader with (fits := SessionUpdate_fits)
    (check := λ v, _ ← reject_if (su_catalog_revision v =? 0) (Invalid "zero SESSION_UPDATE catalog revision");
       validate_result_or_event_extensions (su_extensions v) "required SESSION_UPDATE extension")
    (bytes := λ v, to_le 8 (su_catalog_revision v) ++ ReceiveLimits_bytes (su_receive v) ++ tail_bytes (su_extensions v))
    (read := SessionUpdate_read).
  - intros v out o. unfold encode_to, SessionUpdate_encode_to, SessionUpdate_fits.
    destruct (SessionUpdate_check v) as [[]|] eqn:E; cbn [mbind result_bind]; [|naive_solver].
    apply SessionUpdate_check_inv in E as (_ & ? & ? & _). rewrite bind_ok. setoid_rewrite ReceiveLimits_encode_ok.
    setoid_rewrite Extensions_encode_tail_ok. unfold put_u64. repeat setoid_rewrite <- app_assoc. split.
    + intros (o1 & [-> _] & -> & ?). rewrite <- !app_assoc. naive_solver.
    + intros (-> & _ & ?). eexists. split; [done|]. by rewrite <- !app_assoc.
  - intros bs. unfold decode, SessionUpdate_decode. destruct (run _ _) as [v|]; [|done]. cbn [mbind result_bind].
    by destruct (reject_if _ _).
  - intros v (? & ? & ?) [(Hz & ? & ? & ?)%SessionUpdate_check_inv ?].
    assert (exts_ok (su_extensions v)) by done. assert (ReceiveLimits_ok (su_receive v)) by done. split.
    + apply Z.eqb_neq in Hz. rewrite Hz. cbn [reject_if mbind result_bind]. by apply result_extensions_validate.
    + unfold SessionUpdate_read. read_layout. destruct v. read_layout.
  - intros bs v d' Hd H Hc. unfold SessionUpdate_read in H. dec_inv. cbn beta in Hc.
    apply bind_ok in Hc as ([] & Hz%reject_if_ok & [? ?]%result_extensions_validate).
    match goal with H : ReceiveLimits_ok _ |- _ => destruct H end.
    match goal with H : exts_ok _ |- _ => destruct H as (? & ? & ?) end.
    unfold SessionUpdate_wf, SessionUpdate_fits. rewrite SessionUpdate_check_inv.
    cbn [su_catalog_revision su_receive su_extensions] in *. rewrite app_nil_r. split_and!; try done; lia.
Qed.

Definition FamilyUpdate_wf (v : FamilyUpdate) : Prop := is_u64 (fu_catalog_revision v) ∧ FamilyDescriptor_wf (fu_family v).

#[export] Instance FamilyUpdate_WireLaws : WireLaws FamilyUpdate FamilyUpdate_wf.
Proof.
  apply wire_laws_reader with (fits := λ v, fu_catalog_revision v ≠ 0 ∧ FamilyDescriptor_fits (fu_family v))
    (check := λ v, reject_if (fu_catalog_revision v =? 0) (Invalid "zero FAMILY_UPDATE catalog revision"))
    (bytes := λ v, to_le 8 (fu_catalog_revision v) ++ FamilyDescriptor_bytes (fu_family v)) (read := FamilyUpdate_read).
  - intros v out o. unfold encode_to, FamilyUpdate_encode_to.
    destruct (Z.eqb_spec (fu_catalog_revision v) 0); cbn [reject_if mbind result_bind]; [naive_solver|].
    rewrite bind_ok. setoid_rewrite FamilyDescriptor_encode_ok. unfold put_u64. rewrite <- app_assoc. split.
    + naive_solver.
    + intros (-> & _ & Hf). exists (). split; [by apply Hf|done].
  - done.
  - intros v (? & ?) [Hz Hf]. split; [apply reject_if_ok; lia|]. assert (FamilyDescriptor_ok (fu_family v)) by done.
    unfold FamilyUpdate_read. read_layout. destruct v. read_layout.
  - intros bs v d' Hd H Hc%reject_if_ok. unfold FamilyUpdate_read in H. dec_inv.
    match goal with H : FamilyDescriptor_ok _ |- _ => destruct H end. unfold FamilyUpdate_wf.
    cbn [fu_catalog_revision fu_family] in *. rewrite app_nil_r. split_and!; try done; lia.
Qed.
