(* ===== verification/CoreProps.v ===== *)
(** * CoreProps: what HELLO establishes ([core.rs])

    A HELLO Result the client accepts is an agreement: every choice of the
    server was offered, everything required was chosen, and the catalogue is a
    well-founded set of families. *)

From stdpp Require Import sorting.
From S2P Require Import Prelude Schema Codec Kv KvDedup FamilyLimits CodecFacts Wire Frame Core CoreControl FamilyLimitsFacts ProcessLimits CoreWire CoreDescriptors CoreControlFacts.

(** ** Ordered lists *)

Lemma any_adjacent_sorted {A} (f : A → Z) l :
  any_adjacent (λ a b, f b <=? f a) l = false ↔ StronglySorted (λ a b, f a < f b) l.
Proof.
  induction l as [|x l IH]; [split; [constructor|done]|]. destruct l as [|y l].
  - split; [repeat constructor|done].
  - change (any_adjacent (λ a b, f b <=? f a) (x :: y :: l))
      with ((f y <=? f x) || any_adjacent (λ a b, f b <=? f a) (y :: l)).
    rewrite orb_false_iff, IH. split.
    + intros [Hxy Hs]. constructor; [done|]. apply Z.leb_gt in Hxy. constructor; [done|].
      apply StronglySorted_inv in Hs as [_ Hs]. revert Hs. apply Forall_impl. intros z. lia.
    + intros [Hs Hx]%StronglySorted_inv. apply Forall_cons_iff in Hx as [Hx _]. split; [lia|done].
Qed.

Lemma sorted_unique {A} (f : A → Z) l a b :
  StronglySorted (λ a b, f a < f b) l → a ∈ l → b ∈ l → f a = f b → a = b.
Proof.
  induction 1 as [|x l Hs IH Hx]; [by intros ?%not_elem_of_nil|]. rewrite Forall_forall in Hx.
  intros [-> |Ha]%elem_of_cons [-> |Hb]%elem_of_cons Hf; [done| | |auto].
  - apply list_elem_of_In, Hx in Hb. lia.
  - apply list_elem_of_In, Hx in Ha. lia.
Qed.

Lemma existsb_elem k l : existsb (Z.eqb k) l = true ↔ k ∈ l.
Proof.
  rewrite existsb_exists. setoid_rewrite <- list_elem_of_In. setoid_rewrite Z.eqb_eq. split; [by intros (? & ? & ->)|eauto].
Qed.

Lemma existsb_false {A} (p : A → bool) l : existsb p l = false ↔ ∀ a, a ∈ l → p a = false.
Proof.
  induction l as [|x l IH]; cbn [existsb]; [split; [by intros _ ? ?%not_elem_of_nil|done]|].
  rewrite orb_false_iff, IH. setoid_rewrite elem_of_cons. naive_solver.
Qed.

(** ** The agreement *)

Record Agreement (s : ServerHello) (c : ClientHello) : Prop := {
  ag_minor : hc_min_minor c <= hs_minor s <= hc_max_minor c;
  ag_offered d : d ∈ drop 1 (hs_families s) →
    ∃ o, o ∈ hc_families c ∧ fo_family_id o = fd_family_id d ∧ fd_version d ∈ fo_versions o;
  ag_required o : o ∈ hc_families c → fo_required o = true →
    ∃ d, d ∈ hs_families s ∧ fd_family_id d = fo_family_id o ∧ fd_version d ∈ fo_versions o;
  ag_codecs : ∃ cs, ServerHello_negotiated_codecs s = Ok cs ∧ ∀ k, k ∈ cs → k ∈ hc_codecs c
}.

Definition offers_ok (c : ClientHello) : Prop :=
  StronglySorted (λ a b, fo_family_id a < fo_family_id b) (hc_families c)
  ∧ (∀ o, o ∈ hc_families c → fo_family_id o ≠ family_CORE).

Lemma ClientHello_offers c : ClientHello_validate c = Ok () → offers_ok c.
Proof.
  intros H. pose proof H as (_ & _ & _ & Ho & _)%ClientHello_validate_inv. split.
  - unfold ClientHello_validate in H. inv_ok.
    match goal with H : _ || any_adjacent (λ a b, fo_family_id b <=? _) _ = false |- _ => apply orb_false_iff in H as [_ H] end.
    by apply (any_adjacent_sorted fo_family_id).
  - intros o Hin%list_elem_of_In. rewrite Forall_forall in Ho. specialize (Ho _ Hin). unfold FamilyOffer_validate in Ho.
    inv_ok. lia.
Qed.

Lemma selected_check_ok c d :
  offers_ok c →
  selected_check c d = Ok () ↔
  ∃ o, o ∈ hc_families c ∧ fo_family_id o = fd_family_id d ∧ fd_version d ∈ fo_versions o.
Proof.
  intros [Hs _]. unfold selected_check.
  destruct (find_first (λ offer, fo_family_id offer =? fd_family_id d) (hc_families c)) as [o|] eqn:E.
  - apply find_first_some in E as [Ho Hid]. apply Z.eqb_eq in Hid. rewrite reject_if_ok, negb_false_iff, existsb_elem.
    split; [by eauto|]. intros (o' & Ho' & Hid' & Hv).
    by rewrite (sorted_unique fo_family_id _ o o' Hs Ho Ho' ltac:(congruence)).
  - rewrite find_first_none in E. split; [done|]. intros (o & Ho & Hid & _). apply E in Ho. lia.
Qed.

(** Core comes first, the rest in ascending order. *)
Definition core_first (families : list FamilyDescriptor) : Prop :=
  ∃ core rest, families = core :: rest ∧ fd_family_id core = family_CORE ∧ fd_version core = core_VERSION.

Definition closed (families : list FamilyDescriptor) : Prop :=
  ∀ d metadata dependency, d ∈ families → family_metadata (fd_family_id d) (fd_version d) = Some metadata →
    dependency ∈ fam_dependencies metadata → ∃ d', d' ∈ families ∧ fd_family_id d' = dependency.

Lemma dependencies_ok families context : validate_family_dependencies families context = Ok () ↔ closed families.
Proof.
  unfold validate_family_dependencies, closed. rewrite for_each_ok, Forall_forall. setoid_rewrite <- list_elem_of_In. split.
  - intros H d m k Hd Hm Hk. specialize (H d Hd). rewrite Hm, reject_if_ok, existsb_false in H.
    apply H, negb_false_iff, existsb_exists in Hk as (d' & Hd'%list_elem_of_In & ?). exists d'. split; [done|lia].
  - intros H d Hd. destruct (family_metadata _ _) as [m|] eqn:Hm; [|done]. apply reject_if_ok, existsb_false.
    intros k Hk. destruct (H d m k Hd Hm Hk) as (d' & Hd' & <-). apply negb_false_iff, existsb_exists.
    exists d'. by rewrite <- list_elem_of_In, Z.eqb_refl.
Qed.

Lemma families_check_ok families order dependency :
  families_check families order dependency = Ok () ↔
  core_first families ∧ len families <= U16_MAX
  ∧ StronglySorted (λ a b, fd_family_id a < fd_family_id b) families
  ∧ Forall (λ d, FamilyDescriptor_validate d = Ok ()) families ∧ closed families.
Proof.
  unfold families_check, core_first. rewrite <- any_adjacent_sorted. split.
  - intros ([] & Hb%reject_if_ok & ([] & Hv%for_each_ok & Hd%dependencies_ok)%bind_ok)%bind_ok.
    apply orb_false_iff in Hb as [[Hc Hl%Z.ltb_ge]%orb_false_iff Ha]. destruct families as [|d l]; [done|].
    apply orb_false_iff in Hc as [Hi%negb_false_iff%Z.eqb_eq Hr%negb_false_iff%Z.eqb_eq]. split; [by exists d, l|done].
  - intros ((core & rest & -> & Hi & Hr) & Hl & Ha & Hv & Hd). rewrite Hi, Hr, Ha. apply bind_ok. exists ().
    split; [apply reject_if_ok; apply Z.ltb_ge in Hl; by rewrite Hl|]. apply bind_ok. exists ().
    split; [by apply for_each_ok|by apply dependencies_ok].
Qed.

Lemma server_families v : ServerHello_validate v = Ok () →
  core_first (hs_families v) ∧ StronglySorted (λ a b, fd_family_id a < fd_family_id b) (hs_families v)
  ∧ Forall (λ d, FamilyDescriptor_validate d = Ok ()) (hs_families v) ∧ closed (hs_families v).
Proof.
  unfold ServerHello_validate. intros H. inv_ok. repeat match goal with x : () |- _ => destruct x end.
  match goal with H : families_check _ _ _ = Ok _ |- _ => apply families_check_ok in H end. naive_solver.
Qed.

Lemma negotiated_codecs_valid v cs : ServerHello_negotiated_codecs v = Ok cs → NegotiatedCodecs_validate cs = Ok ().
Proof.
  unfold ServerHello_negotiated_codecs. destruct (find_ext _ _) as [e|]; [|by intros [= <-]].
  unfold decode, NegotiatedCodecs_decode. intros (x & _ & ([] & ? & [= ->])%bind_ok)%bind_ok. done.
Qed.

Lemma offered_by_ok cs c :
  NegotiatedCodecs_validate cs = Ok () →
  NegotiatedCodecs_validate_offered_by cs c = Ok () ↔ ClientHello_validate c = Ok () ∧ ∀ k, k ∈ cs → k ∈ hc_codecs c.
Proof.
  intros Hv. unfold NegotiatedCodecs_validate_offered_by. rewrite Hv. cbn [mbind result_bind].
  rewrite bind_ok. setoid_rewrite reject_if_ok. setoid_rewrite existsb_false. setoid_rewrite negb_false_iff.
  setoid_rewrite existsb_elem. split; [by intros ([] & ? & ?)|intros [? ?]; by exists ()].
Qed.

Lemma validate_for_client_ok s c :
  ServerHello_validate_for_client s c = Ok () ↔
  ServerHello_validate s = Ok () ∧ ClientHello_validate c = Ok () ∧ Agreement s c.
Proof.
  unfold ServerHello_validate_for_client. split.
  - intros ([] & Hs & ([] & Hm%reject_if_ok & H)%bind_ok)%bind_ok.
    apply bind_ok in H as ([] & Hsel & ([] & Hreq%reject_if_ok & (cs & Hcs & H)%bind_ok)%bind_ok).
    apply offered_by_ok in H as [Hc Hoff]; [|by eapply negotiated_codecs_valid].
    pose proof (ClientHello_offers _ Hc) as Hoc. pose proof (server_families _ Hs) as ((core & rest & Hfam & Hid & _) & _).
    rewrite for_each_ok, Forall_forall in Hsel. split_and!; try done. split; [lia| | |by exists cs].
    + intros d Hd%list_elem_of_In. by apply selected_check_ok; [|apply Hsel].
    + intros o Ho Hr. rewrite existsb_false in Hreq. specialize (Hreq o Ho). rewrite Hr in Hreq.
      apply negb_false_iff, existsb_exists in Hreq as (d & Hd & Hdo%Z.eqb_eq). exists d.
      rewrite list_elem_of_In. split; [done|]. split; [done|].
      assert (d ∈ drop 1 (hs_families s)) as Hdd.
      { rewrite Hfam in Hd |- *. destruct Hd as [<-|Hd]; [|by apply list_elem_of_In].
        destruct Hoc as [_ Hoc]. specialize (Hoc o Ho). congruence. }
      apply list_elem_of_In, Hsel in Hdd. apply selected_check_ok in Hdd as (o' & Ho' & Hid' & Hv); [|done].
      by rewrite (sorted_unique fo_family_id _ o o' (proj1 Hoc) Ho Ho' ltac:(congruence)).
  - intros (Hs & Hc & [Hm Hoff Hreq (cs & Hcs & Hk)]). pose proof (ClientHello_offers _ Hc) as Hoc.
    apply bind_ok. exists (). split; [done|]. apply bind_ok. exists (). split; [apply reject_if_ok; lia|].
    apply bind_ok. exists (). split.
    { apply for_each_ok, Forall_forall. intros d Hd%list_elem_of_In. apply selected_check_ok; auto. }
    apply bind_ok. exists (). split.
    { apply reject_if_ok, existsb_false. intros o Ho. destruct (fo_required o) eqn:Hr; [|done].
      destruct (Hreq o Ho Hr) as (d & Hd & Hid & _). apply negb_false_iff, existsb_exists. exists d.
      by rewrite <- list_elem_of_In, Hid, Z.eqb_refl. }
    apply bind_ok. exists cs. split; [done|]. apply offered_by_ok; [|done]. by eapply negotiated_codecs_valid.
Qed.

(** C16: HELLO validation is exactly agreement. The client accepts a HELLO
    Result iff both HELLOs are valid and: the Core minor lies in the offered
    range, every selected family past Core was offered in the selected version,
    every family the client requires was selected in a version it offered, and
    every negotiated codec was offered. *)
Theorem hello_agreement s c :
  ServerHello_validate_for_client s c = Ok () ↔
  ServerHello_validate s = Ok () ∧ ClientHello_validate c = Ok () ∧ Agreement s c.
Proof. apply validate_for_client_ok. Qed.

(** ** The catalogue *)

Definition op_key (o : Operation) : Class_ * Z := (oper_class o, oper_kind o).

Lemma same_operation_key p o : same_operation p o = true ↔ op_key p = op_key o.
Proof.
  unfold same_operation, op_key. rewrite andb_true_iff, bool_decide_eq_true, Z.eqb_eq. split; [|by intros [= -> ->]].
  by intros [-> ->].
Qed.

Lemma operations_check_sound family_id version previous rest :
  operations_check family_id version previous rest = Ok () →
  NoDup (map op_key rest) ∧ (∀ o p, o ∈ rest → p ∈ previous → op_key p ≠ op_key o)
  ∧ ∀ o, o ∈ rest → operation_check family_id version o = Ok ().
Proof.
  revert previous. induction rest as [|o rest IH]; intros previous H.
  - split_and!; [constructor|by intros ? ? ?%not_elem_of_nil|by intros ? ?%not_elem_of_nil].
  - cbn [operations_check] in H. apply bind_ok in H as ([] & Hd%reject_if_ok & ([] & Ho & (Hn & Hp & Hc)%IH)%bind_ok).
    rewrite existsb_false in Hd. setoid_rewrite elem_of_cons. split_and!.
    + cbn [map]. apply NoDup_cons_2; [|done]. intros (x & Hx & Hin)%list_elem_of_fmap.
      apply (Hp x o Hin); [apply elem_of_app; right; by apply list_elem_of_singleton|done].
    + intros x p [-> |Hx] Hpp.
      * intros Hk%same_operation_key. rewrite (Hd p Hpp) in Hk. done.
      * apply (Hp x p Hx). apply elem_of_app. by left.
    + intros x [-> |Hx]; auto.
Qed.

(** The directions the registry allows for an operation of this class and kind. *)
Definition within_schema (d : FamilyDescriptor) (o : Operation) : Prop :=
  ∀ family metadata,
    family_metadata (fd_family_id d) (fd_version d) = Some family →
    find_first (λ m, (op_class m =? Class_u8 (oper_class o)) && (op_kind m =? oper_kind o))
      (fam_operations family) = Some metadata →
    ∃ allowed, Operation_from_schema metadata = Ok allowed
      ∧ (oper_server_accepts o = true → oper_server_accepts allowed = true)
      ∧ (oper_server_sends o = true → oper_server_sends allowed = true).

Lemma operation_check_sound d o :
  operation_check (fd_family_id d) (fd_version d) o = Ok () →
  oper_class o ≠ Result ∧ within_schema d o.
Proof.
  unfold operation_check. intros H. apply bind_ok in H as ([] & Hv%reject_if_ok & H).
  apply orb_false_iff in Hv as [_ Hv%bool_decide_eq_false]. split; [done|]. intros f m Hf Hm. rewrite Hf, Hm in H.
  apply bind_ok in H as (allowed & Ha & [H1 H2]%reject_if_ok%orb_false_iff). exists allowed. split; [done|].
  destruct (oper_server_accepts o), (oper_server_sends o), (oper_server_accepts allowed), (oper_server_sends allowed); done.
Qed.

(** What a client may rely on for each descriptor: an operation is looked up
    by class and kind unambiguously, is never a Result, stays within the
    registry's directions, and its limits are the ones the family reads. *)
Record Sound (d : FamilyDescriptor) : Prop := {
  so_lookup class kind o :
    FamilyDescriptor_operation d class kind = Some o ↔ o ∈ fd_operations d ∧ op_key o = (class, kind);
  so_class o : o ∈ fd_operations d → oper_class o ≠ Result;
  so_schema o : o ∈ fd_operations d → within_schema d o;
  so_limits family : family_metadata (fd_family_id d) (fd_version d) = Some family →
    Forall (λ policy, limit_policy_check (fd_limits d) policy = Ok ()) (fam_limits family)
    ∧ validate_known_family_limits (fd_family_id d) (fd_version d) (fd_limits d) = Ok ()
}.

Lemma NoDup_map_inj {A B} (f : A → B) l a b : NoDup (map f l) → a ∈ l → b ∈ l → f a = f b → a = b.
Proof.
  induction l as [|x l IH]; cbn [map]; [by intros _ ?%not_elem_of_nil|]. intros Hn.
  pose proof (NoDup_cons_1_1 _ _ Hn) as Hx. pose proof (NoDup_cons_1_2 _ _ Hn) as Hl.
  intros [-> |Ha]%elem_of_cons [-> |Hb]%elem_of_cons Hf; [done| | |auto]; exfalso; apply Hx, list_elem_of_fmap; eauto.
Qed.

Lemma FamilyDescriptor_sound d : FamilyDescriptor_validate d = Ok () → Sound d.
Proof.
  unfold FamilyDescriptor_validate. intros H.
  apply bind_ok in H as ([] & _ & ([] & (Hn & _ & Hc)%operations_check_sound & H)%bind_ok).
  apply bind_ok in H as ([] & _ & ([] & _ & H)%bind_ok).
  split.
  - intros class kind o. unfold FamilyDescriptor_operation, op_key. split.
    + intros [Ho [Hk%bool_decide_eq_true Hz%Z.eqb_eq]%andb_true_iff]%find_first_some. by rewrite Hk, Hz.
    + intros [Ho [= Hk Hz]]. destruct (find_first _ _) as [o'|] eqn:E.
      * apply find_first_some in E as [Ho' [Hk'%bool_decide_eq_true Hz'%Z.eqb_eq]%andb_true_iff].
        f_equal. apply (NoDup_map_inj op_key (fd_operations d)); [done..|]. unfold op_key. congruence.
      * rewrite find_first_none in E. specialize (E o Ho). rewrite Hk, Hz, bool_decide_eq_true_2, Z.eqb_refl in E by done. done.
  - intros o Ho. by apply (operation_check_sound d), Hc.
  - intros o Ho. by apply (operation_check_sound d), Hc.
  - intros family Hf. rewrite Hf in H. apply bind_ok in H as ([] & ?%for_each_ok & ?). done.
Qed.

(** C17: The catalogue of a valid server HELLO. Core in its version comes
    first, families are in ascending order and each appears once, every
    dependency the registry declares for a selected family is selected too, and
    every descriptor is sound: operations are looked up unambiguously, none is a
    Result, none exceeds the registry's directions, and its limits satisfy the
    registry's policies and the family's own reader. *)
Theorem server_catalogue v :
  ServerHello_validate v = Ok () →
  core_first (hs_families v) ∧ StronglySorted (λ a b, fd_family_id a < fd_family_id b) (hs_families v)
  ∧ closed (hs_families v) ∧ ∀ d, d ∈ hs_families v → Sound d.
Proof.
  intros (Hc & Hs & Hv & Hd)%server_families. split_and!; try done.
  intros d Hin%list_elem_of_In. rewrite Forall_forall in Hv. by apply FamilyDescriptor_sound, Hv.
Qed.

(** ** Advertised limits *)

(** A valid record of limits can be advertised: its tags make a descriptor the
    receiver accepts, whatever the runtime state and for every operation list
    that passes, and the receiver reads the record that was sent. *)
Definition Advertises {L} (family_id version : Z) (wf : L → Prop) (validate : L → result Error ())
    (to_exts : L → result Error Extensions) (from_exts : Extensions → result Error L) : Prop :=
  ∀ l, wf l → validate l = Ok () →
    ∃ exts, to_exts l = Ok exts ∧ from_exts exts = Ok l
      ∧ ∀ state ops, len ops <= U16_MAX → operations_check family_id version [] ops = Ok () →
          FamilyDescriptor_validate (mkDescriptor family_id version state ops exts) = Ok ().

Lemma advertises `{FamilyLimitsLaws L wf validate to_exts from_exts policies} family_id version family :
  (version =? 0) = false → family_metadata family_id version = Some family → fam_limits family = policies →
  (∀ exts, validate_known_family_limits family_id version exts = accepts_limits (from_exts exts)) →
  Advertises family_id version wf validate to_exts from_exts.
Proof.
  intros Hz Hf Hp Hk l Hw Hv. destruct (limits_to_ok l Hw Hv) as (exts & Ht). exists exts.
  pose proof (limits_from_to l exts Hw Ht) as Hfrom. destruct (limits_plain l exts Ht) as (_ & Hx & Hr).
  pose proof (limits_policy l exts Hw Ht) as Hpol. split; [done|]. split; [done|]. intros state ops Hl Ho.
  unfold FamilyDescriptor_validate. cbn [fd_family_id fd_version fd_operations fd_limits].
  rewrite Hz. apply Z.ltb_ge in Hl. rewrite Hl. cbn [orb reject_if mbind result_bind]. rewrite Ho, Hx, Hr, Hf, Hp.
  cbn [reject_if mbind result_bind]. rewrite Hpol. cbn [mbind result_bind]. rewrite Hk, Hfrom. done.
Qed.

(** C18: Every family's limits can be advertised. For each of the eighteen
    families with limits, a record within the family's hard maxima is encoded to
    tags that the registry's policies and the family's reader accept as part of a
    descriptor, and the reader returns that record, for the Process family
    through its legacy tags and their extended forms. *)
Theorem limits_advertised :
  Advertises family_RELAY relay_VERSION relay_Limits_wf relay_Limits_validate relay_Limits_to_extensions relay_Limits_from_extensions
  ∧ Advertises family_FONT font_VERSION font_Limits_wf font_Limits_validate font_Limits_to_extensions font_Limits_from_extensions
  ∧ Advertises family_TERMINAL terminal_VERSION terminal_Limits_wf terminal_Limits_validate terminal_Limits_to_extensions terminal_Limits_from_extensions
  ∧ Advertises family_CLIENT client_VERSION client_Limits_wf client_Limits_validate client_Limits_to_extensions client_Limits_from_extensions
  ∧ Advertises family_SURFACE surface_VERSION surface_Limits_wf surface_Limits_validate surface_Limits_to_extensions surface_Limits_from_extensions
  ∧ Advertises family_SELECTION selection_VERSION selection_Limits_wf selection_Limits_validate selection_Limits_to_extensions selection_Limits_from_extensions
  ∧ Advertises family_DESKTOP desktop_VERSION desktop_Limits_wf desktop_Limits_validate desktop_Limits_to_extensions desktop_Limits_from_extensions
  ∧ Advertises family_MEDIA media_VERSION media_Limits_wf media_Limits_validate media_Limits_to_extensions media_Limits_from_extensions
  ∧ Advertises family_FS fs_VERSION fs_Limits_wf fs_Limits_validate fs_Limits_to_extensions fs_Limits_from_extensions
  ∧ Advertises family_GIT git_VERSION git_Limits_wf git_Limits_validate git_Limits_to_extensions git_Limits_from_extensions
  ∧ Advertises family_LSP lsp_VERSION lsp_Limits_wf lsp_Limits_validate lsp_Limits_to_extensions lsp_Limits_from_extensions
  ∧ Advertises family_KV kv_VERSION KvLimits_wf KvLimits_validate KvLimits_to_extensions KvLimits_from_extensions
  ∧ Advertises family_PROCESS process_VERSION process_Limits_wf process_Limits_validate process_Limits_to_extensions process_Limits_from_extensions
  ∧ Advertises family_NET net_VERSION net_Limits_wf net_Limits_validate net_Limits_to_extensions net_Limits_from_extensions
  ∧ Advertises family_CHANNEL channel_VERSION channel_Limits_wf channel_Limits_validate channel_Limits_to_extensions channel_Limits_from_extensions
  ∧ Advertises family_EXTENSION extension_VERSION extension_Limits_wf extension_Limits_validate extension_Limits_to_extensions extension_Limits_from_extensions
  ∧ Advertises family_EVENTS events_VERSION events_Limits_wf events_Limits_validate events_Limits_to_extensions events_Limits_from_extensions
  ∧ Advertises family_ENV env_VERSION env_Limits_wf env_Limits_validate env_Limits_to_extensions env_Limits_from_extensions.
Proof. split_and!; (eapply advertises; [reflexivity|reflexivity|reflexivity|reflexivity]). Qed.

(** C19: Core messages and the wire. Client and server HELLO, initial WATCHes
    and their Results, codec selections, platforms, Result prefixes, SESSION_INFO
    and its diagnostics, PING, CANCEL, SHUTDOWN, GOAWAY and both catalogue
    updates: encoding appends, decoding inverts encoding, and nothing decodes but
    the bytes the encoder writes for the value it returns. *)
Theorem core_wire_laws :
  WireLaws ClientHello ClientHello_wf ∧ WireLaws ServerHello ServerHello_wf
  ∧ WireLaws InitialWatches InitialWatches_wf ∧ WireLaws InitialWatchResults InitialWatchResults_wf
  ∧ WireLaws NegotiatedCodecs NegotiatedCodecs_wf ∧ WireLaws Platform Platform_wf
  ∧ WireLaws ResultPrefix ResultPrefix_wf ∧ WireLaws SessionInfo SessionInfo_wf
  ∧ WireLaws ServerDiagnostics ServerDiagnostics_wf ∧ WireLaws Ping Ping_wf ∧ WireLaws PingResult PingResult_wf
  ∧ WireLaws Cancel Cancel_wf ∧ WireLaws Shutdown Shutdown_wf ∧ WireLaws GoAway GoAway_wf
  ∧ WireLaws SessionUpdate SessionUpdate_wf ∧ WireLaws FamilyUpdate FamilyUpdate_wf.
Proof. split_and!; apply _. Qed.

(** A server HELLO with Core, Transfer and KV at its default limits. *)
Definition example_server : ServerHello :=
  mkServerHello 1 (zeros 16) (zeros 16) (ReceiveLimits_recommended 0) 7 1 [] []
    [mkDescriptor family_CORE core_VERSION Available [mkOperation true true Request 1] [];
     mkDescriptor family_TRANSFER 1 Available [] [];
     mkDescriptor family_KV kv_VERSION Degraded [mkOperation true false Request 0]
       (match KvLimits_to_extensions KvLimits_HARD with Ok exts => exts | Err _ => [] end)] [].

Lemma server_catalogue_witness :
  ServerHello_validate example_server = Ok ()
  ∧ closed (hs_families example_server).
Proof.
  assert (ServerHello_validate example_server = Ok ()) as H by (vm_compute; reflexivity).
  split; [exact H|]. exact (proj1 (proj2 (proj2 (server_catalogue example_server H)))).
Defined.
