(* ===== verification/Native.v ===== *)
(** * Native: the sequential client session
      ([crates/client/src/native.rs], [error.rs], [options.rs])

    [NativeClient] owns one byte stream. What the network does is its input:
    the bytes in the order they arrive, with a mark where the deadline of a
    call in progress passes. A call is a function from the client to its result
    and the client afterwards; a call that fails keeps what it changed. *)

From stdpp Require Import sorting.
From S2P Require Import Prelude Ordered Schema Codec Kv FamilyLimits CodecFacts Wire Frame Transfer State Core CoreControl.

(** ** Errors ([error.rs]) *)

(** Messages keep their fixed text; [wire] is the wire error they quote. *)
Inductive ClientError :=
  | Client_Connect (message : string)
  | Client_Disconnected (message : string)
  | Client_GoAway (goaway : GoAway)
  | Client_Status (status : Status) (extensions : Extensions)
  | Client_Timeout
  | Client_Unsupported (message : string)
  | Client_Protocol (message : string) (wire : option Error)
  | Client_Invalid (message : string) (wire : option Error)
  | Client_Closed.

Definition client_protocol (message : string) : ClientError := Client_Protocol message None.
Definition wire_error (e : Error) : ClientError := Client_Protocol "YAS wire error" (Some e).

Definition ClientError_status (e : ClientError) : option Status :=
  match e with Client_Status status _ => Some status | _ => None end.

Definition ClientError_is_disconnected (e : ClientError) : bool :=
  match e with Client_Disconnected _ | Client_GoAway _ | Client_Closed => true | _ => false end.

(** ** Calls *)

Definition call (S A : Type) : Type := S → result ClientError A * S.

#[global] Instance call_ret S : MRet (call S) := fun _ a s => (Ok a, s).
#[global] Instance call_bind S : MBind (call S) := fun _ _ k m s =>
  match m s with (Ok a, s') => k a s' | (Err e, s') => (Err e, s') end.

Definition raise {S A} (e : ClientError) : call S A := fun s => (Err e, s).
Definition from_result {S A} (r : result ClientError A) : call S A := fun s => (r, s).
(** [.map_err(f)?] on a wire result. *)
Definition map_err {A} (f : Error → ClientError) (r : result Error A) : result ClientError A :=
  match r with Ok a => Ok a | Err e => Err (f e) end.
Definition from_wire {S A} (r : result Error A) : call S A := from_result (map_err wire_error r).
Definition gets {S A} (f : S → A) : call S A := fun s => (Ok (f s), s).
Definition modify {S} (f : S → S) : call S () := fun s => (Ok (), f s).
Definition guard_ {S} (bad : bool) (e : ClientError) : call S () := if bad then raise e else mret ().

(** ** The transport's halves *)

(** What arrives on the stream. After the list the stream is closed. *)
Inductive Arrival := Arrived (b : byte) | DeadlinePassed.

(** Bytes accepted so far, and how many more the peer takes before writes fail. *)
Record Writer := mkWriter { wr_out : list byte; wr_room : Z }.

(** [reader.read_exact(&mut [0; n])], inside a timeout or not. A deadline that
    passes drops the read with what it had taken. *)
Fixpoint read_exact (timed : bool) (n : nat) (r : list Arrival) {struct r} :
    result ClientError (list byte) * list Arrival :=
  match n with
  | O => (Ok [], r)
  | S n' =>
      match r with
      | [] => (Err (Client_Disconnected "cannot read YAS frame"), [])
      | DeadlinePassed :: r' => if timed then (Err Client_Timeout, r') else read_exact timed n r'
      | Arrived b :: r' =>
          match read_exact timed n' r' with
          | (Ok bs, r'') => (Ok (b :: bs), r'')
          | (Err e, r'') => (Err e, r'')
          end
      end
  end.

(** [writer.write_all(bytes)] *)
Definition write_all (bytes : list byte) (w : Writer) : result ClientError () * Writer :=
  if len bytes <=? wr_room w then (Ok (), mkWriter (wr_out w ++ bytes) (wr_room w - len bytes))
  else (Err (Client_Disconnected "cannot write YAS frame"),
        mkWriter (wr_out w ++ take (Z.to_nat (wr_room w)) bytes) 0).

Definition HELLO_REQUEST_ID : Z := 1.
Definition WATCH_CREDIT : Z := transport_RECOMMENDED_BUFFERED.
Definition MIN_PENDING_FRAMES : Z := 1024.
Definition PENDING_BYTES_PER_FRAME : Z := 16 * 1024.

(** ** HELLO options ([options.rs]) *)

Record HelloOptions := mkHelloOptions {
  ho_client_name : list byte; ho_client_release : list byte; ho_families : option (list Z);
  ho_required : list Z; ho_read_only : bool; ho_identifier : option (list byte); ho_receive_budget : Z
}.

Definition contains (l : list Z) (x : Z) : bool := existsb (Z.eqb x) l.

Definition HelloOptions_offered (self : HelloOptions) (m : FamilyMetadata) : bool :=
  negb (fam_id m =? family_CORE)
  && (match ho_families self with None => true | Some families => contains families (fam_id m) end
      || contains (ho_required self) (fam_id m)).

Definition HelloOptions_family_offers (self : HelloOptions) : list FamilyOffer :=
  map (λ m, mkFamilyOffer (fam_id m) [fam_version m] (contains (ho_required self) (fam_id m)))
    (List.filter (HelloOptions_offered self) FAMILIES).

Definition HelloOptions_receive_budget (bytes : Z) (self : HelloOptions) : HelloOptions :=
  mkHelloOptions (ho_client_name self) (ho_client_release self) (ho_families self) (ho_required self)
    (ho_read_only self) (ho_identifier self) (Z.min (Z.max bytes 1) transport_HARD_MAX_BUFFERED).

Definition read_only_extension : Extension :=
  mkExtension (as_u16 core_CLIENT_HELLO_READ_ONLY_SESSION_EXTENSION) true [].

(** [platform] is [Platform::current()]. *)
Definition HelloOptions_extensions (platform : Platform) (self : HelloOptions) : result ClientError Extensions :=
  about ← map_err (λ e, Client_Protocol "invalid platform extension" (Some e))
            (Platform_extension platform (as_u16 core_CLIENT_HELLO_PLATFORM_EXTENSION));
  let extensions := [about] ++ (if ho_read_only self then [read_only_extension] else []) in
  named ← match ho_identifier self with
          | None => Ok []
          | Some identifier =>
              e ← map_err (λ e, Client_Invalid "invalid client identifier" (Some e))
                    (client_identifier_extension identifier);
              Ok [e]
          end;
  Ok (merge_sort tag_le (extensions ++ named)).

(** ** The client *)

(** What Core traffic needs, the same in both forms of the client: the writer
    and its codec, the HELLO as updated, the readings of [started.elapsed()] to
    come, and the codecs HELLO settled. *)
Record Session := mkSession {
  cx_writer : Writer; cx_outbound : FrameCodec; cx_hello : ServerHello; cx_clock : list Z;
  cx_negotiated_codecs : list Z
}.

Definition cx_set_writer (w : Writer) (x : Session) : Session :=
  mkSession w (cx_outbound x) (cx_hello x) (cx_clock x) (cx_negotiated_codecs x).
Definition cx_set_outbound (codec : FrameCodec) (x : Session) : Session :=
  mkSession (cx_writer x) codec (cx_hello x) (cx_clock x) (cx_negotiated_codecs x).
Definition cx_set_hello (h : ServerHello) (x : Session) : Session :=
  mkSession (cx_writer x) (cx_outbound x) h (cx_clock x) (cx_negotiated_codecs x).
Definition cx_set_clock (clock : list Z) (x : Session) : Session :=
  mkSession (cx_writer x) (cx_outbound x) (cx_hello x) clock (cx_negotiated_codecs x).

Record NativeClient := mkNative {
  nc_reader : list Arrival; nc_session : Session; nc_datagram : option Z; nc_inbound : FrameCodec;
  nc_pending : list Frame; nc_pending_bytes : Z; nc_local_receive : ReceiveLimits; nc_next_request_id : Z
}.

Definition nc_set_reader (r : list Arrival) (c : NativeClient) : NativeClient :=
  mkNative r (nc_session c) (nc_datagram c) (nc_inbound c) (nc_pending c) (nc_pending_bytes c)
    (nc_local_receive c) (nc_next_request_id c).
Definition nc_set_session (x : Session) (c : NativeClient) : NativeClient :=
  mkNative (nc_reader c) x (nc_datagram c) (nc_inbound c) (nc_pending c) (nc_pending_bytes c)
    (nc_local_receive c) (nc_next_request_id c).
Definition nc_set_pending (p : list Frame) (bytes : Z) (c : NativeClient) : NativeClient :=
  mkNative (nc_reader c) (nc_session c) (nc_datagram c) (nc_inbound c) p bytes (nc_local_receive c)
    (nc_next_request_id c).
Definition nc_set_next_request_id (id : Z) (c : NativeClient) : NativeClient :=
  mkNative (nc_reader c) (nc_session c) (nc_datagram c) (nc_inbound c) (nc_pending c) (nc_pending_bytes c)
    (nc_local_receive c) id.

Definition nc_hello (c : NativeClient) : ServerHello := cx_hello (nc_session c).

(** Runs a call on the session part. *)
Definition on_session {A} (m : call Session A) : call NativeClient A := fun c =>
  let (r, x) := m (nc_session c) in (r, nc_set_session x c).

Definition hs_set_receive (receive : ReceiveLimits) (h : ServerHello) : ServerHello :=
  mkServerHello (hs_minor h) (hs_boot_id h) (hs_session_id h) receive (hs_server_monotonic_ns h)
    (hs_catalog_revision h) (hs_server_name h) (hs_server_release h) (hs_families h) (hs_extensions h).
Definition hs_set_catalog_revision (revision : Z) (h : ServerHello) : ServerHello :=
  mkServerHello (hs_minor h) (hs_boot_id h) (hs_session_id h) (hs_receive h) (hs_server_monotonic_ns h)
    revision (hs_server_name h) (hs_server_release h) (hs_families h) (hs_extensions h).
Definition hs_set_families (families : list FamilyDescriptor) (h : ServerHello) : ServerHello :=
  mkServerHello (hs_minor h) (hs_boot_id h) (hs_session_id h) (hs_receive h) (hs_server_monotonic_ns h)
    (hs_catalog_revision h) (hs_server_name h) (hs_server_release h) families (hs_extensions h).

(** [self.started.elapsed()] in nanoseconds: the next reading of the clock. *)
Definition elapsed_ns : call Session Z := fun x =>
  match cx_clock x with
  | [] => (Ok 0, x)
  | t :: clock => (Ok t, cx_set_clock clock x)
  end.

Definition monotonic_ns : call Session Z :=
  t ← elapsed_ns; mret (if t <=? U64_MAX then t else U64_MAX).

Definition supports_datagrams (c : NativeClient) : bool :=
  is_some (nc_datagram c) && (0 <? rl_max_datagram (nc_local_receive c))
  && (0 <? rl_max_datagram (hs_receive (nc_hello c))).

Definition find_family (family_id : Z) (h : ServerHello) : option FamilyDescriptor :=
  find_first (λ d, fd_family_id d =? family_id) (hs_families h).

Definition supports (c : NativeClient) (family_id : Z) (class : Class_) (kind : Z) : bool :=
  match d ← find_family family_id (nc_hello c); FamilyDescriptor_operation d class kind with
  | None => false
  | Some o =>
      match class with
      | Event => oper_server_accepts o || oper_server_sends o
      | Request => oper_server_accepts o
      | Result => false
      end
  end.

Definition set_sensitive (sensitive : bool) (h : FrameHeader) : FrameHeader :=
  mkHeader (fh_family h) (fh_kind h) (fh_class h) (fh_request_id h) (fh_compressed h) sensitive.

(** [frame.header.class == class && family == family && kind == kind] *)
Definition is_frame (class : Class_) (family kind : Z) (f : Frame) : bool :=
  bool_decide (fh_class (fr_header f) = class) && (fh_family (fr_header f) =? family)
  && (fh_kind (fr_header f) =? kind).

Definition transfer_event_id (f : Frame) : option Z :=
  let h := fr_header f in
  if bool_decide (fh_class h = Event) && (fh_family h =? family_TRANSFER)
     && ((fh_kind h =? transfer_event_BYTE_DATA) || (fh_kind h =? transfer_event_MESSAGE_DATA)
         || (fh_kind h =? transfer_event_CREDIT) || (fh_kind h =? transfer_event_CLOSE)
         || (fh_kind h =? transfer_event_RESET))
     && (4 <=? len (fr_payload f))
  then Some (from_le (take 4 (fr_payload f))) else None.

Section Native.
(** LZ4, as in [Frame], and [blake3::hash]. *)
Context (compress : list byte → list byte) (decompress : list byte → Z → option (list byte)).
Context (blake3 : list byte → list byte).

(** [read_frame]: one frame off the stream. *)
Definition read_frame (timed : bool) (codec : FrameCodec) (r : list Arrival) :
    result ClientError Frame * list Arrival :=
  match read_exact timed 4 r with
  | (Err e, r') => (Err e, r')
  | (Ok prefix, r') =>
      let n := from_le prefix in
      match checked_add_u64 n 4 with
      | None => (Err (client_protocol "YAS frame length overflow"), r')
      | Some total =>
          if max_wire_frame (fc_limits codec) + 4 <? total then
            (Err (client_protocol "YAS frame exceeds negotiated limit"), r')
          else
            match read_exact timed (Z.to_nat n) r' with
            | (Err e, r'') => (Err e, r'')
            | (Ok body, r'') =>
                let bytes := to_le 4 n ++ body in
                match FrameCodec_decode_stream decompress codec bytes with
                | Err e => (Err (wire_error e), r'')
                | Ok (frame, consumed) =>
                    if negb (consumed =? len bytes) then
                      (Err (client_protocol "YAS decoder did not consume one complete frame"), r'')
                    else (Ok frame, r'')
                end
            end
      end
  end.

Definition send (frame : Frame) : call Session () := fun c =>
  match FrameCodec_encode_stream compress (cx_outbound c) frame with
  | Err e => (Err (wire_error e), c)
  | Ok bytes => let (r, w) := write_all bytes (cx_writer c) in (r, cx_set_writer w c)
  end.

(** ** Core traffic *)

Definition answer_ping (frame : Frame) : call Session () :=
  request_id ← from_result (match fh_request_id (fr_header frame) with
                            | Some id => Ok id
                            | None => Err (client_protocol "YAS PING Request has no request ID")
                            end);
  _ ← from_wire (decode (fr_payload frame) : result Error Ping);
  receive_ns ← monotonic_ns;
  send_ns ← monotonic_ns;
  body ← from_wire (encode (mkPingResult receive_ns (Z.max send_ns receive_ns)));
  payload ← from_wire (encode (mkResultPrefix Status_Ok [] body));
  send (mkFrame (FrameHeader_result family_CORE core_request_PING request_id) payload).

Definition apply_session_update (payload : list byte) : call Session () :=
  update ← from_wire (decode payload : result Error SessionUpdate);
  hello ← gets cx_hello;
  step ← from_wire (SessionUpdate_validate_after update (hs_catalog_revision hello) (hs_receive hello));
  _ ← guard_ (bool_decide (step = Gap)) (client_protocol "YAS catalogue jumped; reconnect required");
  codecs ← gets cx_negotiated_codecs;
  codec ← from_wire (FrameCodec_new (mkLimits (rl_max_frame (su_receive update))
                                       (rl_max_decoded (su_receive update))) codecs);
  _ ← modify (cx_set_outbound codec);
  modify (λ c, cx_set_hello (hs_set_catalog_revision (su_catalog_revision update)
                            (hs_set_receive (su_receive update) (cx_hello c))) c).

(** [*descriptor = update.family], the first descriptor of that family. *)
Fixpoint replace_family (family : FamilyDescriptor) (l : list FamilyDescriptor) : list FamilyDescriptor :=
  match l with
  | [] => []
  | d :: l' => if fd_family_id d =? fd_family_id family then family :: l' else d :: replace_family family l'
  end.

Definition apply_family_update (payload : list byte) : call Session () :=
  update ← from_wire (decode payload : result Error FamilyUpdate);
  hello ← gets cx_hello;
  descriptor ← from_result (match find_family (fd_family_id (fu_family update)) hello with
                            | Some d => Ok d
                            | None => Err (client_protocol "YAS FAMILY_UPDATE introduced unknown family; reconnect required")
                            end);
  step ← from_wire (FamilyUpdate_validate_after update (hs_catalog_revision hello) descriptor);
  _ ← guard_ (bool_decide (step = Gap)) (client_protocol "YAS catalogue jumped; reconnect required");
  modify (λ c, cx_set_hello (hs_set_catalog_revision (fu_catalog_revision update)
                            (hs_set_families (replace_family (fu_family update) (hs_families (cx_hello c)))
                               (cx_hello c))) c).

(** What [read_next] does with one frame: [None] is [continue]. *)
Definition service (frame : Frame) : call Session (option Frame) :=
  if is_frame Request family_CORE core_request_PING frame then
    _ ← answer_ping frame; mret None
  else if bool_decide (fh_class (fr_header frame) = Request) then
    raise (client_protocol "YAS server sent an unsupported peer Request")
  else if is_frame Event family_CORE core_event_GOAWAY frame then
    goaway ← from_wire (decode (fr_payload frame) : result Error GoAway);
    raise (Client_GoAway goaway)
  else if is_frame Event family_CORE core_event_SESSION_UPDATE frame then
    _ ← apply_session_update (fr_payload frame); mret None
  else if is_frame Event family_CORE core_event_FAMILY_UPDATE frame then
    _ ← apply_family_update (fr_payload frame); mret None
  else mret (Some frame).

Definition next_frame (timed : bool) : call NativeClient Frame := fun c =>
  let (r, reader) := read_frame timed (nc_inbound c) (nc_reader c) in (r, nc_set_reader reader c).

(** A frame takes at least its length from the stream: one round more than
    there are arrivals is never used up. *)
Fixpoint read_next_loop (fuel : nat) (timed : bool) : call NativeClient Frame :=
  match fuel with
  | O => raise Client_Closed
  | S fuel' =>
      frame ← next_frame timed;
      kept ← on_session (service frame);
      match kept with Some frame => mret frame | None => read_next_loop fuel' timed end
  end.

Definition read_next (timed : bool) : call NativeClient Frame := fun c =>
  read_next_loop (S (length (nc_reader c))) timed c.

(** Rounds enough for every frame parked or still to arrive. *)
Definition frames_left (c : NativeClient) : nat := S (length (nc_reader c) + length (nc_pending c)).

(** ** Parked frames *)

Definition defer (frame : Frame) : call NativeClient () := fun c =>
  match checked_add_u64 (nc_pending_bytes c) (len (fr_payload frame)) with
  | None => (Err (client_protocol "pending YAS frame accounting overflow"), c)
  | Some next_bytes =>
      let budget := rl_max_buffered (nc_local_receive c) in
      let max_frames := Z.max (budget / PENDING_BYTES_PER_FRAME) MIN_PENDING_FRAMES in
      if (max_frames <=? len (nc_pending c)) || (budget <? next_bytes) then
        (Err (client_protocol "native YAS peer exceeded the bounded pending-frame queue"), c)
      else (Ok (), nc_set_pending (nc_pending c ++ [frame]) next_bytes c)
  end.

(** [pending.iter().position(p)], and [pending.remove(index)]. *)
Fixpoint take_first (p : Frame → bool) (l : list Frame) : option (Frame * list Frame) :=
  match l with
  | [] => None
  | f :: l' =>
      if p f then Some (f, l')
      else match take_first p l' with Some (g, rest) => Some (g, f :: rest) | None => None end
  end.

Definition take_pending (p : Frame → bool) : call NativeClient (option Frame) := fun c =>
  match take_first p (nc_pending c) with
  | None => (Ok None, c)
  | Some (frame, rest) =>
      (Ok (Some frame), nc_set_pending rest (saturating_sub (nc_pending_bytes c) (len (fr_payload frame))) c)
  end.

(** Reads until a frame is wanted, parking the others. *)
Fixpoint wait_loop (fuel : nat) (timed : bool) (wanted : Frame → bool) : call NativeClient Frame :=
  match fuel with
  | O => raise Client_Closed
  | S fuel' =>
      frame ← read_next timed;
      if wanted frame then mret frame
      else _ ← defer frame; wait_loop fuel' timed wanted
  end.

Definition wait_for (timed : bool) (wanted : Frame → bool) : call NativeClient Frame := fun c =>
  (parked ← take_pending wanted;
   match parked with
   | Some frame => mret frame
   | None => wait_loop (S (length (nc_reader c))) timed wanted
   end) c.

Definition next_matching_event (timed : bool) (family_id kind : Z) : call NativeClient Frame :=
  wait_for timed (is_frame Event family_id kind).

Definition next_transfer_event (transfer_id : Z) : call NativeClient Frame :=
  wait_for false (λ f, bool_decide (fh_class (fr_header f) = Event)
                       && (fh_family (fr_header f) =? family_TRANSFER)
                       && bool_decide (transfer_event_id f = Some transfer_id)).

Fixpoint next_event_loop (fuel : nat) : call NativeClient Frame :=
  match fuel with
  | O => raise Client_Closed
  | S fuel' =>
      frame ← read_next false;
      if bool_decide (fh_class (fr_header frame) = Event) then mret frame
      else if bool_decide (fh_class (fr_header frame) = Result) then
        raise (client_protocol "YAS returned an unsolicited Result")
      else next_event_loop fuel'
  end.

Definition next_event : call NativeClient Frame := fun c =>
  (parked ← take_pending (λ f, bool_decide (fh_class (fr_header f) = Event));
   match parked with
   | Some frame => mret frame
   | None => next_event_loop (S (length (nc_reader c)))
   end) c.

(** ** Requests *)

(** [next_request_id.wrapping_add(2).max(3) | 1] *)
Definition following_request_id (id : Z) : Z := Z.lor (Z.max (as_u32 (id + 2)) 3) 1.

Definition is_result_of (family_id kind request_id : Z) (f : Frame) : bool :=
  is_frame Result family_id kind f && bool_decide (fh_request_id (fr_header f) = Some request_id).

Fixpoint result_loop (fuel : nat) (family_id kind request_id : Z) : call NativeClient ResultPrefix :=
  match fuel with
  | O => raise Client_Closed
  | S fuel' =>
      frame ← read_next true;
      if is_result_of family_id kind request_id frame then from_wire (decode (fr_payload frame))
      else if bool_decide (fh_class (fr_header frame) = Result) then
        raise (client_protocol "YAS returned an uncorrelated Result")
      else _ ← defer frame; result_loop fuel' family_id kind request_id
  end.

Definition request_result (family_id kind : Z) (payload : list byte) (sensitive : bool) :
    call NativeClient ResultPrefix := fun c =>
  (let request_id := nc_next_request_id c in
   _ ← modify (nc_set_next_request_id (following_request_id request_id));
   _ ← on_session (send (mkFrame (set_sensitive sensitive (FrameHeader_request family_id kind request_id)) payload));
   result_loop (S (length (nc_reader c))) family_id kind request_id) c.

Definition request (family_id kind : Z) (payload : list byte) (sensitive : bool) : call NativeClient (list byte) :=
  prefix ← request_result family_id kind payload sensitive;
  if Status_is_ok (rp_status prefix) then mret (rp_body prefix)
  else raise (Client_Status (rp_status prefix) (rp_detail prefix)).

Definition request_typed {Req Resp} `{Encode Req, Decode Resp} (family_id kind : Z) (value : Req)
    (sensitive : bool) : call NativeClient Resp :=
  payload ← from_wire (encode value);
  body ← request family_id kind payload sensitive;
  from_wire (decode body).

Definition send_event (family_id kind : Z) (payload : list byte) (sensitive : bool) : call NativeClient () :=
  on_session (send (mkFrame (set_sensitive sensitive (FrameHeader_event family_id kind)) payload)).

Definition send_typed_event `{Encode A} (family_id kind : Z) (event : A) (sensitive : bool) : call NativeClient () :=
  payload ← from_wire (encode event);
  send_event family_id kind payload sensitive.

Definition next_typed_event `{Decode A} (family_id kind : Z) : call NativeClient A :=
  frame ← next_matching_event false family_id kind;
  from_wire (decode (fr_payload frame)).

(** ** Snapshots *)

Definition collects (p : Phase) : bool :=
  match p with SnapshotRecords | SnapshotEnd | Delta => true | _ => false end.

Fixpoint snapshot_loop (fuel : nat) (family_id subscription_id : Z) (records : list StateRecord) :
    call NativeClient (list StateRecord) :=
  match fuel with
  | O => raise Client_Closed
  | S fuel' =>
      frame ← next_matching_event true family_id 0;
      event ← from_wire (decode (fr_payload frame) : result Error StateEvent);
      if negb (se_subscription_id event =? subscription_id) then
        snapshot_loop fuel' family_id subscription_id records
      else
        let records := match se_phase event with SnapshotBegin => [] | _ => records end in
        let records := if collects (se_phase event) then records ++ se_records event else records in
        ack ← from_wire (encode (mkAck (se_subscription_id event) (se_to_revision event) WATCH_CREDIT));
        _ ← send_event family_id 1 ack false;
        match se_phase event with
        | SnapshotEnd => mret records
        | PhaseReset => raise (client_protocol "family reset its snapshot")
        | _ => snapshot_loop fuel' family_id subscription_id records
        end
  end.

Definition supports_watch (d : FamilyDescriptor) : bool :=
  match FamilyDescriptor_operation d Request 0 with Some o => oper_server_accepts o | None => false end
  && match FamilyDescriptor_operation d Event 0 with Some o => oper_server_sends o | None => false end.

Definition snapshot (family_id : Z) : call NativeClient (option (list StateRecord)) := fun c =>
  match find_family family_id (nc_hello c) with
  | None => (Ok None, c)
  | Some descriptor =>
      if negb (supports_watch descriptor) then (Ok None, c)
      else
        (payload ← from_wire (encode (mkWatch WATCH_CREDIT None []));
         body ← request family_id 0 payload true;
         watch_result ← from_wire (decode body : result Error WatchResult);
         left ← gets frames_left;
         records ← snapshot_loop left family_id (wr_subscription_id watch_result) [];
         unwatch ← from_wire (encode (mkUnwatch (wr_subscription_id watch_result)));
         _ ← request family_id 1 unwatch false;
         mret (Some records)) c
  end.

(** ** Transfers *)

Definition grant_credit (transfer_id initial maximum : Z) : call NativeClient () :=
  _ ← guard_ (maximum <? initial) (client_protocol "YAS Transfer initial credit exceeds collection limit");
  if initial <? maximum then
    send_typed_event family_TRANSFER transfer_event_CREDIT (mkCredit transfer_id maximum) false
  else mret ().

Definition exceeds (o : option Z) (n : Z) : bool := match o with Some length => length <? n | None => false end.

(** One BYTE_DATA onto what was collected. *)
Definition append_chunk (d : Descriptor) (expected_length : option Z) (maximum : Z) (bytes : list byte)
    (data : ByteData) : result ClientError (list byte) :=
  if negb (bd_offset data =? len bytes) || (td_max_chunk_bytes d <? len (bd_data data)) then
    Err (client_protocol "YAS Transfer sent a non-contiguous or oversized chunk")
  else
    match checked_add_u64 (len bytes) (len (bd_data data)) with
    | None => Err (client_protocol "YAS Transfer length overflow")
    | Some next =>
        if (maximum <? next) || exceeds expected_length next then
          Err (client_protocol "YAS Transfer exceeded its declared collection limit")
        else Ok (bytes ++ bd_data data)
    end.

Definition close_bytes (expected_length : option Z) (bytes : list byte) (close : Close) : result ClientError () :=
  if negb (cl_final_data_bytes close =? len bytes) then Err (client_protocol "YAS Transfer CLOSE length mismatch")
  else if negb (cl_status close =? Status_code Status_Ok) then
    Err (client_protocol "YAS Transfer closed with status")
  else if match expected_length with Some length => negb (length =? len bytes) | None => false end then
    Err (client_protocol "YAS Transfer ended before its declared length")
  else Ok ().

(** The next event of the transfer, its SENSITIVE flag checked. *)
Definition transfer_frame (d : Descriptor) : call NativeClient Frame :=
  frame ← next_transfer_event (td_transfer_id d);
  sensitive ← from_wire (Descriptor_requires_sensitive_frame d (fh_kind (fr_header frame)));
  _ ← guard_ (negb (Bool.eqb (fh_sensitive (fr_header frame)) sensitive))
        (client_protocol "YAS Transfer sensitivity flag mismatch");
  mret frame.

Fixpoint byte_transfer_loop (fuel : nat) (d : Descriptor) (expected_length : option Z) (maximum : Z)
    (bytes : list byte) : call NativeClient (list byte) :=
  match fuel with
  | O => raise Client_Closed
  | S fuel' =>
      frame ← transfer_frame d;
      let kind := fh_kind (fr_header frame) in
      if kind =? transfer_event_BYTE_DATA then
        data ← from_wire (decode (fr_payload frame) : result Error ByteData);
        bytes ← from_result (append_chunk d expected_length maximum bytes data);
        byte_transfer_loop fuel' d expected_length maximum bytes
      else if kind =? transfer_event_CLOSE then
        close ← from_wire (decode (fr_payload frame) : result Error Close);
        _ ← from_result (close_bytes expected_length bytes close);
        mret bytes
      else if kind =? transfer_event_RESET then
        reset ← from_wire (decode (fr_payload frame) : result Error Reset);
        raise (client_protocol "YAS Transfer reset with status")
      else raise (client_protocol "YAS Transfer received unexpected event")
  end.

Definition receive_byte_transfer (d : Descriptor) (expected_length : option Z) (maximum : Z) :
    call NativeClient (list byte) :=
  _ ← from_wire (Descriptor_validate d);
  _ ← guard_ (negb (bool_decide (td_mode d = ModeByte)) || negb (bool_decide (td_direction d = SENDER_TO_RECEIVER)))
        (client_protocol "YAS delivery did not provide a server-to-client BYTE Transfer");
  _ ← guard_ ((maximum =? 0) || match expected_length with Some length => maximum <? length | None => false end)
        (client_protocol "invalid YAS Transfer collection limit");
  _ ← grant_credit (td_transfer_id d) (td_sender_send_credit d) maximum;
  left ← gets frames_left;
  byte_transfer_loop left d expected_length maximum [].

Definition receive_inline_or_transfer (value : InlineOrTransfer) (maximum : Z) : call NativeClient (list byte) :=
  _ ← guard_ (maximum <? it_byte_len value) (client_protocol "YAS delivery exceeds the collection limit");
  bytes ← match it_delivery value with
          | Inline bytes => mret bytes
          | DTransfer descriptor => receive_byte_transfer descriptor (Some (it_byte_len value)) maximum
          end;
  _ ← guard_ (negb (len bytes =? it_byte_len value)) (client_protocol "YAS delivery length mismatch");
  _ ← guard_ (negb (bool_decide (blake3 bytes = it_content_hash value)))
        (client_protocol "YAS delivery content hash mismatch");
  mret bytes.

(** [while offset >= credit], reading CREDIT. *)
Fixpoint await_credit (fuel : nat) (d : Descriptor) (offset credit : Z) : call NativeClient Z :=
  if offset <? credit then mret credit
  else
    match fuel with
    | O => raise Client_Closed
    | S fuel' =>
        frame ← next_transfer_event (td_transfer_id d);
        let kind := fh_kind (fr_header frame) in
        if kind =? transfer_event_CREDIT then
          _ ← guard_ (fh_sensitive (fr_header frame)) (client_protocol "YAS Transfer CREDIT was marked sensitive");
          update ← from_wire (decode (fr_payload frame) : result Error Credit);
          _ ← guard_ (cr_cumulative_limit update <=? credit) (client_protocol "YAS Transfer credit did not increase");
          await_credit fuel' d offset (cr_cumulative_limit update)
        else if kind =? transfer_event_RESET then
          reset ← from_wire (decode (fr_payload frame) : result Error Reset);
          raise (client_protocol "YAS Transfer reset with status")
        else raise (client_protocol "YAS Transfer received unexpected upload event")
    end.

(** [while offset < bytes.len()]: a round sends at least a byte. *)
Fixpoint upload_loop (fuel : nat) (d : Descriptor) (bytes : list byte) (offset credit : Z) : call NativeClient Z :=
  if len bytes <=? offset then mret offset
  else
    match fuel with
    | O => raise Client_Closed
    | S fuel' =>
        left ← gets frames_left;
        credit ← await_credit left d offset credit;
        let available := credit - offset in
        let remaining := drop (Z.to_nat offset) bytes in
        let length := Z.min (Z.min (len remaining) (td_max_chunk_bytes d)) available in
        _ ← guard_ (length =? 0) (client_protocol "YAS Transfer made no upload progress");
        sensitive ← from_wire (Descriptor_requires_sensitive_frame d transfer_event_BYTE_DATA);
        _ ← send_typed_event family_TRANSFER transfer_event_BYTE_DATA
              (mkByteData (td_transfer_id d) offset (take (Z.to_nat length) remaining)) sensitive;
        upload_loop fuel' d bytes (offset + length) credit
    end.

Definition send_byte_transfer (d : Descriptor) (bytes : list byte) : call NativeClient () :=
  _ ← from_wire (Descriptor_validate d);
  _ ← guard_ (negb (bool_decide (td_mode d = ModeByte)) || negb (bool_decide (td_direction d = RECEIVER_TO_SENDER)))
        (client_protocol "YAS upload did not provide a client-to-server BYTE Transfer");
  offset ← upload_loop (length bytes) d bytes 0 (td_receiver_send_credit d);
  sensitive ← from_wire (Descriptor_requires_sensitive_frame d transfer_event_CLOSE);
  send_typed_event family_TRANSFER transfer_event_CLOSE
    (mkClose (td_transfer_id d) offset (Status_code Status_Ok) []) sensitive.

(** What [receive_message_transfer] has collected. *)
Record Collected := mkCollected {
  co_validator : MessageReceiver; co_open : gmap Z (list byte); co_complete : gmap Z (list byte); co_received : Z
}.

(** One MESSAGE_DATA. *)
Definition collect_fragment (maximum_bytes maximum_messages : Z) (k : Collected) (f : MessageData) :
    result ClientError Collected :=
  let (accepted, validator) := accept (co_validator k) f in
  ended ← map_err wire_error accepted;
  match checked_add_u64 (co_received k) (len (md_data f)) with
  | None => Err (client_protocol "YAS MESSAGE Transfer length overflow")
  | Some received =>
      if maximum_bytes <? received then Err (client_protocol "YAS Transfer exceeded its byte collection limit")
      else
        open ← (if md_start f then
                  if (maximum_messages <=? Z.of_nat (size (co_open k)) + Z.of_nat (size (co_complete k)))
                     || is_some (co_complete k !! md_sequence f)
                  then Err (client_protocol "YAS Transfer exceeded its message collection limit")
                  else Ok (<[md_sequence f := []]> (co_open k))
                else Ok (co_open k));
        match open !! md_sequence f with
        | None => Err (client_protocol "YAS Transfer lost an open message")
        | Some item =>
            let item := item ++ md_data f in
            if ended : bool then
              if is_some (co_complete k !! md_sequence f) then
                Err (client_protocol "duplicate YAS Transfer message sequence")
              else Ok (mkCollected validator (delete (md_sequence f) open)
                         (<[md_sequence f := item]> (co_complete k)) received)
            else Ok (mkCollected validator (<[md_sequence f := item]> open) (co_complete k) received)
        end
  end.

Fixpoint message_transfer_loop (fuel : nat) (d : Descriptor) (maximum_bytes maximum_messages : Z) (k : Collected) :
    call NativeClient (list (list byte)) :=
  match fuel with
  | O => raise Client_Closed
  | S fuel' =>
      frame ← transfer_frame d;
      let kind := fh_kind (fr_header frame) in
      if kind =? transfer_event_MESSAGE_DATA then
        fragment ← from_wire (decode (fr_payload frame) : result Error MessageData);
        k ← from_result (collect_fragment maximum_bytes maximum_messages k fragment);
        message_transfer_loop fuel' d maximum_bytes maximum_messages k
      else if kind =? transfer_event_CLOSE then
        close ← from_wire (decode (fr_payload frame) : result Error Close);
        _ ← guard_ (negb (cl_final_data_bytes close =? co_received k) || negb (open_messages (co_validator k) =? 0))
              (client_protocol "YAS Transfer CLOSE accounting mismatch");
        _ ← guard_ (negb (cl_status close =? Status_code Status_Ok)) (client_protocol "YAS Transfer closed with status");
        mret (map snd (btree_iter (co_complete k)))
      else if kind =? transfer_event_RESET then
        reset ← from_wire (decode (fr_payload frame) : result Error Reset);
        raise (client_protocol "YAS Transfer reset with status")
      else raise (client_protocol "YAS Transfer received unexpected message event")
  end.

Definition receive_message_transfer (d : Descriptor) (maximum_bytes maximum_messages : Z) :
    call NativeClient (list (list byte)) :=
  _ ← from_wire (Descriptor_validate d);
  _ ← guard_ (negb (bool_decide (td_mode d = ModeMessage)) || negb (bool_decide (td_direction d = SENDER_TO_RECEIVER)))
        (client_protocol "YAS delivery did not provide a server-to-client MESSAGE Transfer");
  _ ← guard_ ((maximum_bytes =? 0) || (maximum_messages =? 0))
        (client_protocol "invalid YAS MESSAGE Transfer collection limit");
  _ ← grant_credit (td_transfer_id d) (td_sender_send_credit d) maximum_bytes;
  validator ← from_wire (MessageReceiver_new d);
  left ← gets frames_left;
  message_transfer_loop left d maximum_bytes maximum_messages (mkCollected validator ∅ ∅ 0).

(** ** Connecting *)

(** [Transport::split_with_datagram]: both halves, and the datagram maximum. *)
Record Transport := mkTransport { tr_reader : list Arrival; tr_writer : Writer; tr_datagram : option Z }.

Definition client_hello (platform : Platform) (instance : list byte) (options : HelloOptions) (max_datagram : Z) :
    result ClientError ClientHello :=
  extensions ← HelloOptions_extensions platform options;
  let recommended := ReceiveLimits_recommended max_datagram in
  let hello := mkClientHello 1 1
    (mkReceiveLimits (rl_max_frame recommended) (rl_max_decoded recommended) (rl_max_datagram recommended)
       (ho_receive_budget options))
    instance (ho_client_name options) (ho_client_release options) (HelloOptions_family_offers options) [] extensions in
  _ ← map_err (λ e, Client_Protocol "invalid local HELLO" (Some e)) (ClientHello_validate hello);
  Ok hello.

(** Preface and HELLO as written to the stream. *)
Definition hello_bytes (pre_hello : FrameCodec) (hello : ClientHello) : result ClientError (list byte) :=
  payload ← map_err (λ e, Client_Protocol "cannot encode HELLO" (Some e)) (encode hello);
  map_err (λ e, Client_Protocol "cannot frame HELLO" (Some e))
    (FrameCodec_encode_stream compress pre_hello
       (mkFrame (FrameHeader_request family_CORE core_request_HELLO HELLO_REQUEST_ID) payload)).

(** The HELLO Result frame, opened and checked. *)
Definition accept_hello (hello_request : ClientHello) (frame : Frame) : result ClientError (ServerHello * list Z) :=
  if negb (bool_decide (fr_header frame = FrameHeader_result family_CORE core_request_HELLO HELLO_REQUEST_ID)) then
    Err (client_protocol "native YAS listener returned an unexpected HELLO frame")
  else
    prefix ← map_err (λ e, Client_Protocol "cannot decode HELLO Result" (Some e)) (decode (fr_payload frame));
    if negb (Status_is_ok (rp_status prefix)) then Err (Client_Status (rp_status prefix) (rp_detail prefix))
    else
      hello ← map_err (λ e, Client_Protocol "cannot decode ServerHello" (Some e)) (decode (rp_body prefix));
      _ ← map_err (λ e, Client_Protocol "server selected an invalid YAS catalogue" (Some e))
            (ServerHello_validate_for_client hello hello_request);
      codecs ← map_err (λ e, Client_Protocol "invalid negotiated codecs" (Some e)) (ServerHello_negotiated_codecs hello);
      Ok (hello, codecs).

(** [None] for the codec before HELLO is the panic of [expect]. *)
Definition connect_transport (platform : Platform) (instance : list byte) (clock : list Z) (t : Transport)
    (options : HelloOptions) : option (result ClientError NativeClient) :=
  pre_hello ← FrameCodec_pre_hello;
  Some (
    hello_request ← client_hello platform instance options (default 0 (tr_datagram t));
    encoded ← hello_bytes pre_hello hello_request;
    let (sent, writer) := write_all PREFACE (tr_writer t) in
    _ ← sent;
    let (sent, writer) := write_all encoded writer in
    _ ← sent;
    let (read, reader) := read_frame false pre_hello (tr_reader t) in
    frame ← read;
    accepted ← accept_hello hello_request frame;
    let (hello, codecs) := accepted : ServerHello * list Z in
    inbound ← map_err (λ e, Client_Protocol "invalid inbound YAS codec" (Some e))
                (FrameCodec_new (mkLimits (rl_max_frame (hc_receive hello_request))
                                   (rl_max_decoded (hc_receive hello_request))) codecs);
    outbound ← map_err (λ e, Client_Protocol "invalid outbound YAS codec" (Some e))
                 (FrameCodec_new (mkLimits (rl_max_frame (hs_receive hello)) (rl_max_decoded (hs_receive hello))) codecs);
    Ok (mkNative reader (mkSession writer outbound hello clock codecs) (tr_datagram t) inbound [] 0
          (hc_receive hello_request) 3)).
End Native.
