(* ===== verification/NativeFacts.v ===== *)
(** * NativeFacts: calls on the native client end, and keep its invariant
      ([crates/client/src/native.rs]) *)

From stdpp Require Import sorting.
From S2P Require Import Prelude Ordered Schema Codec Kv FamilyLimits CodecFacts Wire Frame Transfer State Core CoreControl CoreWire CoreDescriptors CoreProps Native.

(** ** Calls *)

Lemma call_bind_eq {S A B} (m : call S A) (k : A → call S B) s :
  (m ≫= k) s = match m s with (Ok a, s') => k a s' | (Err e, s') => (Err e, s') end.
Proof. done. Qed.

Lemma call_bind_inv {S A B} (m : call S A) (k : A → call S B) s r s' :
  (m ≫= k) s = (r, s') →
  (∃ a s1, m s = (Ok a, s1) ∧ k a s1 = (r, s')) ∨ (∃ e, m s = (Err e, s') ∧ r = Err e).
Proof.
  rewrite call_bind_eq. destruct (m s) as [[a|e] s1]; intros H; [left; eauto|]. right. injection H as <- <-. eauto.
Qed.

Lemma call_bind_ok {S A B} (m : call S A) (k : A → call S B) s b s' :
  (m ≫= k) s = (Ok b, s') ↔ ∃ a s1, m s = (Ok a, s1) ∧ k a s1 = (Ok b, s').
Proof. rewrite call_bind_eq. destruct (m s) as [[a|e] s1]; naive_solver. Qed.

(** A property of calls that every combinator keeps: how the state may change,
    and that fuel never runs out, which is the only use of [Client_Closed]. *)
Class CallRel (St : Type) (R : St → St → Prop) := {
  rel_refl s : R s s;
  rel_trans s1 s2 s3 : R s1 s2 → R s2 s3 → R s1 s3
}.

Definition follows {St A} (R : St → St → Prop) (m : call St A) : Prop := ∀ s, R s (m s).2.

Section follows.
Context {St : Type} {R : St → St → Prop} `{CallRel St R}.

Lemma follows_ret {A} (a : A) : follows R (mret a).
Proof. intros s. apply rel_refl. Qed.
Lemma follows_bind {A B} (m : call St A) (k : A → call St B) :
  follows R m → (∀ a, follows R (k a)) → follows R (m ≫= k).
Proof.
  intros Hm Hk s. rewrite call_bind_eq. pose proof (Hm s) as Hs. destruct (m s) as [[a|e] s1]; [|done].
  eapply rel_trans; [exact Hs|apply Hk].
Qed.
Lemma follows_raise {A} e : follows R (raise e : call St A).
Proof. intros s. apply rel_refl. Qed.
Lemma follows_from_result {A} (r : result ClientError A) : follows R (from_result r : call St A).
Proof. intros s. apply rel_refl. Qed.
Lemma follows_from_wire {A} (r : result Error A) : follows R (from_wire r : call St A).
Proof. intros s. apply rel_refl. Qed.
Lemma follows_gets {A} (f : St → A) : follows R (gets f).
Proof. intros s. apply rel_refl. Qed.
Lemma follows_guard bad e : follows R (guard_ bad e : call St ()).
Proof. intros s. destruct bad; apply rel_refl. Qed.
Lemma follows_if {A} (b : bool) (m1 m2 : call St A) : follows R m1 → follows R m2 → follows R (if b then m1 else m2).
Proof. by destruct b. Qed.
End follows.

Create HintDb follows.
Ltac follow :=
  repeat first
    [ apply follows_ret | apply follows_raise | apply follows_from_result | apply follows_from_wire
    | apply follows_gets | apply follows_guard
    | solve [auto with follows]
    | match goal with |- follows _ (_ ≫= _) => apply follows_bind; [|intros] end
    | match goal with |- follows _ (if _ then _ else _) => apply follows_if end
    | progress cbv zeta
    | match goal with |- follows _ (match ?x with _ => _ end) => destruct x end ].

(** ** Calls that leave the state alone *)

Lemma from_wire_ok {St A} (r : result Error A) (s s' : St) a : from_wire r s = (Ok a, s') ↔ r = Ok a ∧ s' = s.
Proof. unfold from_wire, from_result, map_err. destruct r; naive_solver. Qed.
Lemma from_result_ok {St A} (r : result ClientError A) (s s' : St) a : from_result r s = (Ok a, s') ↔ r = Ok a ∧ s' = s.
Proof. unfold from_result. naive_solver. Qed.
Lemma mret_ok {St A} (a b : A) (s s' : St) : (mret a : call St A) s = (Ok b, s') ↔ b = a ∧ s' = s.
Proof. split; [by intros [= <- <-]|by intros [-> ->]]. Qed.
Lemma guard_ok {St} bad e (s s' : St) u : guard_ bad e s = (Ok u, s') ↔ bad = false ∧ s' = s.
Proof. unfold guard_, raise. destruct u, bad; [naive_solver|]. rewrite mret_ok. naive_solver. Qed.
Lemma gets_ok {St A} (f : St → A) (s s' : St) a : gets f s = (Ok a, s') ↔ a = f s ∧ s' = s.
Proof. unfold gets. naive_solver. Qed.
Lemma modify_ok {St} (f : St → St) s s' u : modify f s = (Ok u, s') ↔ s' = f s.
Proof. unfold modify. destruct u. naive_solver. Qed.

(** Reads off what a successful call did, step by step. *)
Ltac call_inv1 :=
  match goal with
  | H : (_ ≫= _) _ = (Ok _, _) |- _ =>
      let a := fresh "x" in let s := fresh "s" in let Ha := fresh "Hm" in
      apply call_bind_ok in H as (a & s & Ha & H); cbn beta in H
  | H : from_wire _ _ = (Ok _, _) |- _ => let E := fresh "Hw" in apply from_wire_ok in H as [E ->]
  | H : from_result _ _ = (Ok _, _) |- _ => let E := fresh "Hw" in apply from_result_ok in H as [E ->]
  | H : guard_ _ _ _ = (Ok _, _) |- _ => let E := fresh "Hg" in apply guard_ok in H as [E ->]
  | H : gets _ _ = (Ok _, _) |- _ => apply gets_ok in H as [-> ->]
  | H : mret _ _ = (Ok _, _) |- _ => apply mret_ok in H as [-> ->]
  | H : modify _ _ = (Ok _, _) |- _ => apply modify_ok in H as ->
  | H : raise _ _ = (Ok _, _) |- _ => discriminate H
  | x : () |- _ => destruct x
  end.
Ltac call_inv := repeat call_inv1.

(** ** Calls end *)

Definition ends_at {St A} (m : call St A) (s : St) : Prop := (m s).1 ≠ Err Client_Closed.

Lemma ends_bind {St A B} (m : call St A) (k : A → call St B) s :
  ends_at m s → (∀ a s', m s = (Ok a, s') → ends_at (k a) s') → ends_at (m ≫= k) s.
Proof.
  intros Hm Hk. unfold ends_at in *. rewrite call_bind_eq. destruct (m s) as [[a|e] s1]; [by apply (Hk a s1)|]; intros [= ->]; by apply Hm.
Qed.
Lemma ends_ret {St A} (a : A) (s : St) : ends_at (mret a) s.
Proof. done. Qed.
Lemma ends_raise {St A} e (s : St) : e ≠ Client_Closed → ends_at (raise e : call St A) s.
Proof. unfold ends_at, raise. cbn. congruence. Qed.
Lemma ends_from_wire {St A} (r : result Error A) (s : St) : ends_at (from_wire r) s.
Proof. destruct r; done. Qed.
Lemma ends_gets {St A} (f : St → A) s : ends_at (gets f) s.
Proof. done. Qed.
Lemma ends_modify {St} (f : St → St) s : ends_at (modify f) s.
Proof. done. Qed.
Lemma ends_guard {St} bad e (s : St) : e ≠ Client_Closed → ends_at (guard_ bad e) s.
Proof. destruct bad; [apply ends_raise|done]. Qed.
Lemma ends_from_result {St A} (r : result ClientError A) (s : St) : r ≠ Err Client_Closed → ends_at (from_result r) s.
Proof. done. Qed.
Create HintDb ends.
#[export] Hint Resolve ends_ret ends_raise ends_from_wire ends_gets ends_modify ends_guard : ends.
#[export] Hint Extern 1 (_ ≠ Client_Closed) => discriminate : ends.
Ltac ending :=
  repeat first
    [ progress auto with ends
    | progress cbv zeta
    | match goal with |- ends_at (_ ≫= _) _ => apply ends_bind; [|intros ? ? ?; call_inv] end
    | match goal with |- ends_at (match ?x with _ => _ end) _ => destruct x eqn:? end ].

Section facts.
Context (compress : list byte → list byte) (decompress : list byte → Z → option (list byte)).
Context (blake3 : list byte → list byte).

Abbreviation service := (service compress).
Abbreviation next_frame := (next_frame decompress).
Abbreviation read_next := (read_next compress decompress).
Abbreviation read_next_loop := (read_next_loop compress decompress).
Abbreviation wait_for := (wait_for compress decompress).
Abbreviation wait_loop := (wait_loop compress decompress).

Lemma read_exact_arrivals timed n r res r' :
  read_exact timed n r = (res, r') →
  (length r' <= length r)%nat ∧ res ≠ Err Client_Closed ∧ ∀ bs, res = Ok bs → (length bs = n ∧ length r' + n <= length r)%nat.
Proof.
  revert n res r'. induction r as [|x r IH]; intros [|n] res r' H; cbn [read_exact] in H.
  - injection H as <- <-. split_and!; [done|done|]. intros bs [= <-]. cbn. lia.
  - injection H as <- <-. done.
  - injection H as <- <-. split_and!; [done|done|]. intros bs [= <-]. cbn. lia.
  - destruct x as [b|].
    + destruct (read_exact timed n r) as [[bs|e] r1] eqn:E; injection H as <- <-; apply IH in E as (Hl & Hc & Hok); cbn [length].
      * split_and!; [lia|done|]. intros ? [= <-]. destruct (Hok bs eq_refl). cbn [length]. lia.
      * split_and!; [lia|congruence|done].
    + destruct timed; [injection H as <- <-; cbn [length]; split_and!; [lia|done|done]|].
      apply IH in H as (Hl & Hc & Hok). cbn [length]. split_and!; [lia|done|]. intros bs ->. destruct (Hok bs eq_refl). lia.
Qed.

Lemma read_frame_arrivals timed codec r res r' :
  read_frame decompress timed codec r = (res, r') →
  (length r' <= length r)%nat ∧ res ≠ Err Client_Closed ∧ ∀ f, res = Ok f → (length r' + 4 <= length r)%nat.
Proof.
  unfold read_frame. destruct (read_exact timed 4 r) as [[p|e] r1] eqn:E1; apply read_exact_arrivals in E1 as (H1 & C1 & O1).
  2: { intros [= <- <-]. split_and!; [done|congruence|done]. }
  destruct (O1 p eq_refl) as [_ Hp]. destruct (checked_add_u64 _ 4) as [t|]; [|intros [= <- <-]; done].
  case_match; [intros [= <- <-]; done|].
  destruct (read_exact timed (Z.to_nat (from_le p)) r1) as [[b|e] r2] eqn:E2; apply read_exact_arrivals in E2 as (H2 & C2 & O2).
  2: { intros [= <- <-]. split_and!; [lia|congruence|done]. }
  destruct (FrameCodec_decode_stream _ _ _) as [[f n]|e]; [|intros [= <- <-]; split_and!; [lia|done|done]].
  case_match; intros [= <- <-]; (split_and!; [lia|done|]); [done|]. intros ? _. lia.
Qed.

(** ** How much is left to read *)

Definition left_over (c : NativeClient) : nat := length (nc_reader c) + length (nc_pending c).
(** No more is left, and nothing more is parked. *)
Definition no_more (c c' : NativeClient) : Prop := (left_over c' <= left_over c)%nat.

#[local] Instance no_more_rel : CallRel NativeClient no_more.
Proof. split; unfold no_more; lia. Qed.

Lemma on_session_same {A} (m : call Session A) c :
  nc_reader (on_session m c).2 = nc_reader c ∧ nc_pending (on_session m c).2 = nc_pending c.
Proof. unfold on_session. by destruct (m (nc_session c)). Qed.
Lemma on_session_no_more {A} (m : call Session A) : follows no_more (on_session m).
Proof. intros c. unfold no_more, left_over. destruct (on_session_same m c) as [-> ->]. done. Qed.
Lemma on_session_ends {A} (m : call Session A) c : ends_at m (nc_session c) → ends_at (on_session m) c.
Proof. unfold ends_at, on_session. by destruct (m (nc_session c)). Qed.

Lemma write_all_ends bytes w : (write_all bytes w).1 ≠ Err Client_Closed.
Proof. unfold write_all. by case_match. Qed.
Lemma send_ends frame x : ends_at (send compress frame) x.
Proof.
  unfold ends_at, send. destruct (FrameCodec_encode_stream _ _ _) as [bytes|e]; [|done].
  pose proof (write_all_ends bytes (cx_writer x)). by destruct (write_all _ _).
Qed.
Lemma monotonic_ends x : ends_at monotonic_ns x.
Proof. unfold monotonic_ns, elapsed_ns. ending. unfold ends_at. by destruct (cx_clock x). Qed.
#[local] Hint Resolve send_ends monotonic_ends : ends.

Lemma service_ends frame x : ends_at (service frame) x.
Proof.
  unfold Native.service, answer_ping, apply_session_update, apply_family_update. ending.
  all: try (apply ends_from_result; by case_match).
Qed.

Lemma read_next_loop_spec fuel timed c :
  (length (nc_reader c) < fuel)%nat →
  ends_at (read_next_loop fuel timed) c
  ∧ nc_pending (read_next_loop fuel timed c).2 = nc_pending c
  ∧ (length (nc_reader (read_next_loop fuel timed c).2) <= length (nc_reader c))%nat
  ∧ ∀ f c', read_next_loop fuel timed c = (Ok f, c') → (length (nc_reader c') + 4 <= length (nc_reader c))%nat.
Proof.
  revert c. induction fuel as [|fuel IH]; intros c Hf; [lia|]. cbn [Native.read_next_loop].
  unfold ends_at. rewrite call_bind_eq. unfold Native.next_frame at 1 2 3 4.
  destruct (read_frame decompress timed (nc_inbound c) (nc_reader c)) as [res r'] eqn:E.
  apply read_frame_arrivals in E as (Hl & Hc & Hok). destruct res as [f|e].
  2: { cbn. split_and!; [congruence|done|done|done]. }
  specialize (Hok f eq_refl). rewrite call_bind_eq.
  set (c1 := nc_set_reader r' c). pose proof (on_session_ends (service f) c1 (service_ends f _)) as He.
  destruct (on_session_same (service f) c1) as [Hr Hp]. unfold ends_at in He.
  destruct (on_session (service f) c1) as [[[kept|]|e] c2] eqn:E2; cbn in Hr, Hp, He |- *.
  - rewrite Hr, Hp. split_and!; [done|done|lia|]. intros ? ? [= <- <-]. rewrite Hr. lia.
  - destruct (IH c2) as (I1 & I2 & I3 & I4); [rewrite Hr; lia|]. rewrite I2, Hp. rewrite Hr in I3.
    split_and!; [done|done|lia|]. intros g c' Hg. specialize (I4 g c' Hg). rewrite Hr in I4. lia.
  - rewrite Hr, Hp. split_and!; [congruence|done|lia|done].
Qed.

Lemma read_next_spec timed c :
  ends_at (read_next timed) c
  ∧ nc_pending (read_next timed c).2 = nc_pending c
  ∧ (length (nc_reader (read_next timed c).2) <= length (nc_reader c))%nat
  ∧ ∀ f c', read_next timed c = (Ok f, c') → (length (nc_reader c') + 4 <= length (nc_reader c))%nat.
Proof. apply read_next_loop_spec. lia. Qed.

Lemma defer_spec f c :
  ends_at (defer f) c ∧ nc_reader (defer f c).2 = nc_reader c
  ∧ (length (nc_pending (defer f c).2) <= S (length (nc_pending c)))%nat.
Proof.
  unfold ends_at, defer. destruct (checked_add_u64 _ _); [|cbn; split_and!; [done|done|lia]].
  case_match; cbn; rewrite ?length_app; cbn; split_and!; (done || lia).
Qed.

Lemma wait_loop_spec fuel timed wanted c :
  (length (nc_reader c) < fuel)%nat →
  ends_at (wait_loop fuel timed wanted) c ∧ no_more c (wait_loop fuel timed wanted c).2
  ∧ ∀ f c', wait_loop fuel timed wanted c = (Ok f, c') → (left_over c' < left_over c)%nat.
Proof.
  revert c. induction fuel as [|fuel IH]; intros c Hf; [lia|]. cbn [Native.wait_loop].
  unfold ends_at, no_more, left_over in *. rewrite call_bind_eq. pose proof (read_next_spec timed c) as (R1 & R2 & R3 & R4).
  unfold ends_at in R1. destruct (read_next timed c) as [[f|e] c1]; cbn [fst snd] in *.
  2: { split_and!; [congruence|rewrite R2; lia|done]. }
  specialize (R4 f c1 eq_refl). destruct (wanted f).
  { cbn. rewrite R2. split_and!; [done|lia|]. intros ? ? [= <- <-]. rewrite R2. lia. }
  rewrite call_bind_eq. destruct (defer_spec f c1) as (D1 & D2 & D3). unfold ends_at in D1.
  destruct (defer f c1) as [[[]|e] c2]; cbn [fst snd] in *; rewrite R2 in D3.
  - destruct (IH c2) as (I1 & I2 & I3); [rewrite D2; lia|]. rewrite D2 in I2, I3. split_and!; [done|lia|].
    intros g c' Hg. specialize (I3 g c' Hg). lia.
  - rewrite D2. split_and!; [congruence|lia|done].
Qed.

Lemma take_first_length p l f rest : take_first p l = Some (f, rest) → length l = S (length rest).
Proof.
  revert rest. induction l as [|x l IH]; intros rest H; [done|]. cbn in H. destruct (p x); [by injection H as <- <-|].
  destruct (take_first p l) as [[g r]|]; [|done]. injection H as <- <-. cbn. f_equal. by apply IH.
Qed.

Lemma wait_for_spec timed wanted c :
  ends_at (wait_for timed wanted) c ∧ no_more c (wait_for timed wanted c).2
  ∧ ∀ f c', wait_for timed wanted c = (Ok f, c') → (left_over c' < left_over c)%nat.
Proof.
  unfold Native.wait_for, ends_at. rewrite call_bind_eq. unfold take_pending.
  destruct (take_first wanted (nc_pending c)) as [[f rest]|] eqn:E.
  - apply take_first_length in E. unfold no_more, left_over. cbn. rewrite E. split_and!; [done|lia|].
    intros ? ? [= <- <-]. cbn. lia.
  - apply wait_loop_spec. lia.
Qed.

(** ** Every call ends *)

(** A call written as a function of the client. *)
Ltac ends_body :=
  unfold ends_at; cbv beta zeta;
  lazymatch goal with |- (?m ?c).1 ≠ _ => change (ends_at m c) end.

Definition shrinks {A} (m : call NativeClient A) (c : NativeClient) : Prop :=
  ends_at m c ∧ no_more c (m c).2 ∧ ∀ a c', m c = (Ok a, c') → (left_over c' < left_over c)%nat.

Lemma shrinks_bind {A B} (m : call NativeClient A) (k : A → call NativeClient B) c :
  shrinks m c → (∀ a c', ends_at (k a) c') → (∀ a, follows no_more (k a)) → shrinks (m ≫= k) c.
Proof.
  intros (He & Hn & Hs) Hk Hf. unfold shrinks, ends_at, no_more in *. rewrite call_bind_eq.
  destruct (m c) as [[a|e] c1]; cbn [fst snd] in *; [|split_and!; [congruence|done|done]].
  specialize (Hs a c1 eq_refl). pose proof (Hf a c1) as Hle. unfold no_more in Hle. split_and!; [apply Hk|lia|].
  intros b c' Hb. rewrite Hb in Hle. cbn in Hle. lia.
Qed.

Lemma ends_shrinking {A B} (m : call NativeClient A) (k : A → call NativeClient B) c :
  shrinks m c → (∀ a c', (left_over c' < left_over c)%nat → ends_at (k a) c') → ends_at (m ≫= k) c.
Proof. intros (He & _ & Hs) Hk. apply ends_bind; [done|]. intros a c' H. apply Hk. by eapply Hs. Qed.

Lemma transfer_frame_shrinks d c : shrinks (transfer_frame compress decompress d) c.
Proof.
  unfold transfer_frame. apply shrinks_bind; [apply wait_for_spec| |]; intros f.
  - intros c'. ending.
  - follow.
Qed.

Lemma on_send_ends f c : ends_at (on_session (send compress f)) c.
Proof. apply on_session_ends, send_ends. Qed.
#[local] Hint Resolve on_send_ends : ends.

Lemma send_event_ends family kind payload sensitive c : ends_at (send_event compress family kind payload sensitive) c.
Proof. unfold send_event. ending. Qed.
#[local] Hint Resolve send_event_ends : ends.
Lemma send_typed_event_ends `{Encode A} family kind (e : A) sensitive c :
  ends_at (send_typed_event compress family kind e sensitive) c.
Proof. unfold send_typed_event. ending. Qed.
#[local] Hint Resolve send_typed_event_ends : ends.
Lemma grant_credit_ends id initial maximum c : ends_at (grant_credit compress id initial maximum) c.
Proof. unfold grant_credit. ending. Qed.
#[local] Hint Resolve grant_credit_ends : ends.

Lemma send_event_no_more family kind payload sensitive : follows no_more (send_event compress family kind payload sensitive).
Proof. apply on_session_no_more. Qed.

Lemma result_loop_ends fuel family kind id c :
  (length (nc_reader c) < fuel)%nat → ends_at (result_loop compress decompress fuel family kind id) c.
Proof.
  revert c. induction fuel as [|fuel IH]; intros c Hf; [lia|]. cbn [result_loop].
  destruct (read_next_spec true c) as (R1 & R2 & R3 & R4). apply ends_bind; [done|]. intros f c1 Hf1.
  specialize (R4 f c1 Hf1). ending; [apply defer_spec|]. destruct (defer_spec f c1) as (_ & D2 & _).
  match goal with H : defer f c1 = _ |- _ => rewrite H in D2 end. cbn in D2. apply IH. rewrite D2. lia.
Qed.

Lemma request_result_ends family kind payload sensitive c : ends_at (request_result compress decompress family kind payload sensitive) c.
Proof.
  unfold request_result. ends_body. ending. apply result_loop_ends.
  match goal with H : on_session ?m ?c1 = (_, ?s) |- _ => pose proof (proj1 (on_session_same m c1)) as Hr; rewrite H in Hr end.
  cbn in Hr. rewrite Hr. cbn. lia.
Qed.
#[local] Hint Resolve request_result_ends : ends.

Lemma request_ends family kind payload sensitive c : ends_at (request compress decompress family kind payload sensitive) c.
Proof. unfold request. ending. Qed.
#[local] Hint Resolve request_ends : ends.

Lemma next_event_ends c : ends_at (next_event compress decompress) c.
Proof.
  unfold next_event, ends_at. rewrite call_bind_eq. unfold take_pending. destruct (take_first _ _) as [[f rest]|]; [done|].
  enough (∀ fuel c, (length (nc_reader c) < fuel)%nat → ends_at (next_event_loop compress decompress fuel) c) as Hloop.
  { apply Hloop. lia. }
  clear c. induction fuel as [|fuel IH]; intros c Hf; [lia|]. cbn [next_event_loop].
  destruct (read_next_spec false c) as (R1 & R2 & R3 & R4). apply ends_bind; [done|]. intros f c1 Hf1.
  specialize (R4 f c1 Hf1). ending. apply IH. lia.
Qed.

Lemma append_chunk_ends d n m b x : append_chunk d n m b x ≠ Err Client_Closed.
Proof. unfold append_chunk. repeat (case_match; try done). Qed.
Lemma close_bytes_ends n b x : close_bytes n b x ≠ Err Client_Closed.
Proof. unfold close_bytes. repeat (case_match; try done). Qed.
Lemma collect_fragment_ends mb mm k f : collect_fragment mb mm k f ≠ Err Client_Closed.
Proof.
  unfold collect_fragment. destruct (accept _ _) as [[ended|er] v]; cbn [map_err mbind result_bind]; [|done].
  repeat first [progress cbn [mbind result_bind] | case_match]; done.
Qed.
#[local] Hint Resolve ends_from_result append_chunk_ends close_bytes_ends collect_fragment_ends : ends.

Lemma byte_transfer_loop_ends fuel d n m b c :
  (left_over c < fuel)%nat → ends_at (byte_transfer_loop compress decompress fuel d n m b) c.
Proof.
  revert b c. induction fuel as [|fuel IH]; intros b c Hf; [lia|]. cbn [byte_transfer_loop].
  apply ends_shrinking; [apply transfer_frame_shrinks|]. intros f c' Hc. ending. apply IH. lia.
Qed.

Lemma message_transfer_loop_ends fuel d mb mm k c :
  (left_over c < fuel)%nat → ends_at (message_transfer_loop compress decompress fuel d mb mm k) c.
Proof.
  revert k c. induction fuel as [|fuel IH]; intros k c Hf; [lia|]. cbn [message_transfer_loop].
  apply ends_shrinking; [apply transfer_frame_shrinks|]. intros f c' Hc. ending. apply IH. lia.
Qed.

Lemma receive_byte_transfer_ends d n m c : ends_at (receive_byte_transfer compress decompress d n m) c.
Proof. unfold receive_byte_transfer. ending. apply byte_transfer_loop_ends. unfold frames_left, left_over. lia. Qed.
#[local] Hint Resolve receive_byte_transfer_ends : ends.
Lemma receive_message_transfer_ends d mb mm c : ends_at (receive_message_transfer compress decompress d mb mm) c.
Proof. unfold receive_message_transfer. ending. apply message_transfer_loop_ends. unfold frames_left, left_over. lia. Qed.
Lemma receive_inline_ends v m c : ends_at (receive_inline_or_transfer compress decompress blake3 v m) c.
Proof. unfold receive_inline_or_transfer. ending. Qed.

Lemma next_transfer_event_shrinks id c : shrinks (next_transfer_event compress decompress id) c.
Proof. apply wait_for_spec. Qed.

Lemma await_credit_ends fuel d offset credit c :
  (left_over c < fuel)%nat → ends_at (await_credit compress decompress fuel d offset credit) c.
Proof.
  revert credit c. induction fuel as [|fuel IH]; intros credit c Hf; [lia|]. cbn [await_credit].
  destruct (offset <? credit); [done|]. apply ends_shrinking; [apply next_transfer_event_shrinks|].
  intros f c' Hc. ending. apply IH. lia.
Qed.

Lemma await_credit_above fuel d offset credit c credit' c' :
  await_credit compress decompress fuel d offset credit c = (Ok credit', c') → offset < credit'.
Proof.
  revert credit c. induction fuel as [|fuel IH]; intros credit c H; cbn [await_credit] in H;
    (destruct (offset <? credit) eqn:E; [apply mret_ok in H as [-> _]; lia|]); [done|].
  call_inv. repeat case_match; call_inv. by eapply IH.
Qed.

Lemma upload_loop_ends fuel d bytes offset credit c :
  0 <= offset → 1 <= td_max_chunk_bytes d → len bytes - offset <= Z.of_nat fuel →
  ends_at (upload_loop compress decompress fuel d bytes offset credit) c.
Proof.
  intros Ho Hd. revert offset credit c Ho. induction fuel as [|fuel IH]; intros offset credit c Ho Hf; cbn [upload_loop];
    (destruct (Z.leb_spec (len bytes) offset); [done|]); [lia|].
  ending; [apply await_credit_ends; unfold frames_left, left_over; lia|].
  match goal with H : await_credit _ _ _ _ _ _ _ = _ |- _ => apply await_credit_above in H end.
  apply IH; [|]; unfold len in *; rewrite length_drop in *; lia.
Qed.

Lemma Descriptor_chunk d : Descriptor_validate d = Ok () → 1 <= td_max_chunk_bytes d ∨ td_max_chunk_bytes d < 0.
Proof. unfold Descriptor_validate. intros H. inv_ok. lia. Qed.

Lemma send_byte_transfer_ends d bytes c : 0 <= td_max_chunk_bytes d → ends_at (send_byte_transfer compress decompress d bytes) c.
Proof.
  intros Hu. unfold send_byte_transfer. ending. apply upload_loop_ends; [done| |unfold len; lia].
  match goal with H : Descriptor_validate d = Ok () |- _ => apply Descriptor_chunk in H end. lia.
Qed.

Lemma snapshot_loop_ends fuel family sub records c :
  (left_over c < fuel)%nat → ends_at (snapshot_loop compress decompress fuel family sub records) c.
Proof.
  revert records c. induction fuel as [|fuel IH]; intros records c Hf; [lia|]. cbn [snapshot_loop].
  apply ends_shrinking; [apply wait_for_spec|]. intros f c' Hc. ending.
  1: apply IH; lia.
  all: apply IH; match goal with H : send_event _ ?a ?b ?p ?q ?x = (_, ?y) |- _ =>
    pose proof (send_event_no_more a b p q x) as Hn; rewrite H in Hn; unfold no_more in Hn; cbn [snd] in Hn end; lia.
Qed.

Lemma snapshot_ends family c : ends_at (snapshot compress decompress family) c.
Proof.
  unfold snapshot, ends_at. destruct (find_family family (nc_hello c)) as [d|]; [|done].
  destruct (negb (supports_watch d)); [done|].
  lazymatch goal with |- (?m ?c).1 ≠ _ => change (ends_at m c) end. ending.
  apply snapshot_loop_ends. unfold frames_left, left_over. lia.
Qed.
End facts.
