(* ===== verification/NativeInvariant.v ===== *)
(** * NativeInvariant: what every call on the native client keeps
      ([crates/client/src/native.rs]) *)

From stdpp Require Import sorting.
From S2P Require Import Prelude Ordered Schema Codec Kv FamilyLimits CodecFacts Wire Frame Transfer State Core CoreControl CoreWire CoreDescriptors CoreProps Native NativeFacts.

(** ** Catalogues of the same shape *)

Definition shape (l : list FamilyDescriptor) : list (Z * Z) := map (λ d, (fd_family_id d, fd_version d)) l.

Lemma shape_elem l p : p ∈ shape l ↔ ∃ d, d ∈ l ∧ fd_family_id d = p.1 ∧ fd_version d = p.2.
Proof.
  unfold shape. rewrite list_elem_of_fmap. destruct p as [i v]. split.
  - intros (d & [= -> ->] & Hd). by exists d.
  - intros (d & Hd & Hi & Hv). cbn in Hi, Hv. exists d. by rewrite Hi, Hv.
Qed.

Lemma core_first_shape l l' : shape l = shape l' → core_first l → core_first l'.
Proof.
  intros Hs (core & rest & -> & Hi & Hv). destruct l' as [|d l']; [done|]. injection Hs as Ha Hb _. exists d, l'.
  split; [done|]. by rewrite <- Ha, <- Hb.
Qed.

Lemma sorted_shape l l' :
  shape l = shape l' → StronglySorted (λ a b, fd_family_id a < fd_family_id b) l →
  StronglySorted (λ a b, fd_family_id a < fd_family_id b) l'.
Proof.
  revert l'. induction l as [|d l IH]; intros [|d' l'] Hs; try done. injection Hs as Ha _ Hs. fold (shape l) in Hs.
  fold (shape l') in Hs. intros [Hl Hd]%StronglySorted_inv. constructor; [by apply IH|]. rewrite Forall_forall in Hd |- *.
  intros x Hx. assert ((fd_family_id x, fd_version x) ∈ shape l) as (y & Hy & Hi & _)%shape_elem.
  { rewrite Hs. apply shape_elem. by exists x. }
  cbn in Hi. rewrite <- Ha, <- Hi. by apply Hd.
Qed.

Lemma closed_shape l l' : shape l = shape l' → closed l → closed l'.
Proof.
  intros Hs Hc d m k Hd Hm Hk.
  assert ((fd_family_id d, fd_version d) ∈ shape l) as (x & Hx & Hi & Hv)%shape_elem.
  { rewrite Hs. apply shape_elem. by exists d. }
  cbn in Hi, Hv. destruct (Hc x m k Hx) as (y & Hy & Hyk); [by rewrite Hi, Hv|done|].
  assert ((fd_family_id y, fd_version y) ∈ shape l') as (z & Hz & Hzi & _)%shape_elem.
  { rewrite <- Hs. apply shape_elem. by exists y. }
  exists z. split; [done|]. cbn in Hzi. congruence.
Qed.

Lemma drop_shape n l l' : shape l = shape l' → shape (drop n l) = shape (drop n l').
Proof. intros H. unfold shape in *. by rewrite <- !skipn_map, H. Qed.

(** A HELLO revised in place: same families in the same versions, all still
    valid, and valid receive limits. *)
Lemma revised_agrees s s' c :
  ServerHello_validate_for_client s c = Ok () →
  shape (hs_families s') = shape (hs_families s) → hs_minor s' = hs_minor s → hs_extensions s' = hs_extensions s →
  ReceiveLimits_validate (hs_receive s') = Ok () →
  Forall (λ d, FamilyDescriptor_validate d = Ok ()) (hs_families s') →
  ServerHello_validate_for_client s' c = Ok ().
Proof.
  intros (Hs & Hc & [Hm Hoff Hreq (cs & Hcs & Hk)])%validate_for_client_ok Hsh Hmin Hext Hrl Hv.
  apply validate_for_client_ok. split; [|split; [done|]].
  - unfold ServerHello_validate in *. rewrite Hrl, Hext. apply bind_ok in Hs as ([] & _ & Hs).
    apply bind_ok in Hs as ([] & (H1 & H2 & H3 & _ & H5)%families_check_ok & Hs). cbn [mbind result_bind].
    apply bind_ok. exists (). split; [|done]. apply families_check_ok. split_and!; [| | |done|].
    + by apply (core_first_shape (hs_families s)).
    + unfold len in *. apply (f_equal length) in Hsh. unfold shape in Hsh. rewrite !length_map in Hsh. lia.
    + by apply (sorted_shape (hs_families s)).
    + by apply (closed_shape (hs_families s)).
  - split.
    + by rewrite Hmin.
    + intros d Hd. assert ((fd_family_id d, fd_version d) ∈ shape (drop 1 (hs_families s))) as (x & Hx & Hi & Hvx)%shape_elem.
      { rewrite <- (drop_shape 1 _ _ Hsh). apply shape_elem. by exists d. }
      destruct (Hoff x Hx) as (o & Ho & Hio & Hvo). exists o. cbn in Hi, Hvx. rewrite <- Hi, <- Hvx. done.
    + intros o Ho Hr. destruct (Hreq o Ho Hr) as (x & Hx & Hi & Hvx).
      assert ((fd_family_id x, fd_version x) ∈ shape (hs_families s')) as (d & Hd & Hdi & Hdv)%shape_elem.
      { rewrite Hsh. apply shape_elem. by exists x. }
      exists d. cbn in Hdi, Hdv. rewrite Hdi, Hdv. done.
    + exists cs. split; [|done]. unfold ServerHello_negotiated_codecs in *. by rewrite Hext.
Qed.

Lemma replace_family_shape f l d :
  find_first (λ d, fd_family_id d =? fd_family_id f) l = Some d → fd_version f = fd_version d →
  shape (replace_family f l) = shape l.
Proof.
  intros Hf Hv. induction l as [|x l IH]; [done|]. cbn [find_first replace_family] in *.
  destruct (Z.eqb_spec (fd_family_id x) (fd_family_id f)) as [E|E].
  - injection Hf as ->. unfold shape. cbn [map]. by rewrite <- E, Hv.
  - unfold shape in *. cbn [map]. by rewrite IH.
Qed.

Lemma replace_family_valid f l :
  FamilyDescriptor_validate f = Ok () → Forall (λ d, FamilyDescriptor_validate d = Ok ()) l →
  Forall (λ d, FamilyDescriptor_validate d = Ok ()) (replace_family f l).
Proof.
  intros Hf. induction 1 as [|d l Hd Hl IH]; cbn [replace_family]; [constructor|]. case_match; by constructor.
Qed.

(** ** The session *)

Definition hello_codec (h : ServerHello) (codecs : list Z) : result Error FrameCodec :=
  FrameCodec_new (mkLimits (rl_max_frame (hs_receive h)) (rl_max_decoded (hs_receive h))) codecs.

(** The session is one the client agreed to, and frames go out in its codec. *)
Record Agreed (request : ClientHello) (x : Session) : Prop := {
  agreed_hello : ServerHello_validate_for_client (cx_hello x) request = Ok ();
  agreed_codecs : ServerHello_negotiated_codecs (cx_hello x) = Ok (cx_negotiated_codecs x);
  agreed_outbound : hello_codec (cx_hello x) (cx_negotiated_codecs x) = Ok (cx_outbound x)
}.

(** How a session may change: the server's identity and the families with their
    versions stay, the catalogue's revision never goes back, frame limits never
    shrink, and what was written stays written. *)
Record Evolves (x x' : Session) : Prop := {
  ev_boot : hs_boot_id (cx_hello x') = hs_boot_id (cx_hello x);
  ev_session : hs_session_id (cx_hello x') = hs_session_id (cx_hello x);
  ev_families : shape (hs_families (cx_hello x')) = shape (hs_families (cx_hello x));
  ev_revision : hs_catalog_revision (cx_hello x) <= hs_catalog_revision (cx_hello x');
  ev_frame : rl_max_frame (hs_receive (cx_hello x)) <= rl_max_frame (hs_receive (cx_hello x'));
  ev_decoded : rl_max_decoded (hs_receive (cx_hello x)) <= rl_max_decoded (hs_receive (cx_hello x'));
  ev_codecs : cx_negotiated_codecs x' = cx_negotiated_codecs x;
  ev_written : ∃ more, wr_out (cx_writer x') = wr_out (cx_writer x) ++ more
}.

Lemma evolves_refl x : Evolves x x.
Proof. split; try done. exists []. by rewrite app_nil_r. Qed.
Lemma evolves_trans x1 x2 x3 : Evolves x1 x2 → Evolves x2 x3 → Evolves x1 x3.
Proof.
  intros [A1 A2 A3 A4 A5 A6 A7 [m1 A8]] [B1 B2 B3 B4 B5 B6 B7 [m2 B8]]. split; try congruence; try lia.
  exists (m1 ++ m2). by rewrite app_assoc, <- A8.
Qed.

Definition keeps_agreement (request : ClientHello) (x x' : Session) : Prop :=
  Agreed request x → Agreed request x' ∧ Evolves x x'.

#[export] Instance keeps_agreement_rel request : CallRel Session (keeps_agreement request).
Proof.
  split.
  - intros x H. split; [done|apply evolves_refl].
  - intros x1 x2 x3 H1 H2 H. destruct (H1 H) as [Ha Hb]. destruct (H2 Ha) as [Hc Hd]. split; [done|].
    by eapply evolves_trans.
Qed.

Section session.
Context (compress : list byte → list byte) (request : ClientHello).

Lemma send_keeps frame : follows (keeps_agreement request) (send compress frame).
Proof.
  intros x H. unfold send. destruct (FrameCodec_encode_stream _ _ _) as [bytes|e]; [|split; [done|apply evolves_refl]].
  destruct (write_all bytes (cx_writer x)) as [r w] eqn:E. cbn [snd]. destruct H as [H1 H2 H3]. split; [by split|].
  split; try done. unfold write_all in E. cbn. case_match; injection E as _ <-; by eexists.
Qed.

Lemma monotonic_keeps : follows (keeps_agreement request) monotonic_ns.
Proof.
  unfold monotonic_ns. follow. intros x H. unfold elapsed_ns. destruct (cx_clock x); [split; [done|apply evolves_refl]|].
  cbn. destruct H as [H1 H2 H3]. split; [by split|]. split; try done. exists []. by rewrite app_nil_r.
Qed.

Lemma answer_ping_keeps frame : follows (keeps_agreement request) (answer_ping compress frame).
Proof. unfold answer_ping. follow; auto using send_keeps, monotonic_keeps. Qed.

Lemma catalog_contiguous current incoming step :
  catalog_step current incoming = Ok step → step ≠ Gap → incoming = current + 1.
Proof.
  unfold catalog_step, checked_add_u64. intros H Hs. inv_ok. case_bool_decide as E; [|done]. case_match; [|done].
  by injection E as <-.
Qed.

Lemma keeps_err {A} (e : ClientError) x : Agreed request x → Agreed request (Err (A := A) e, x).2 ∧ Evolves x (Err (A := A) e, x).2.
Proof. split; [done|apply evolves_refl]. Qed.

(** The next step of a call that only checks: on an error the session is as it was. *)
Ltac check_step :=
  rewrite call_bind_eq;
  match goal with
  | |- context [from_wire ?r ?x] => destruct r eqn:?; cbn [from_wire from_result map_err]; [|split; [done|apply evolves_refl]]
  | |- context [from_result ?r ?x] => destruct r eqn:?; cbn [from_result]; [|split; [done|apply evolves_refl]]
  | |- context [guard_ ?b _ ?x] => destruct b eqn:?; cbn [guard_ raise mret call_ret]; [split; [done|apply evolves_refl]|]
  | |- context [gets ?f ?x] => cbn [gets]
  end.

Lemma apply_session_update_keeps payload : follows (keeps_agreement request) (apply_session_update payload).
Proof.
  intros x Hx. unfold apply_session_update. do 6 check_step. rename a into update.
  apply bool_decide_eq_false in Heqb. destruct Hx as [H1 H2 H3].
  unfold SessionUpdate_validate_after, ReceiveLimits_validate_update_from in *. inv_ok. clear Heqr.
  repeat match goal with u : () |- _ => destruct u end.
  match goal with H : catalog_step _ _ = Ok _ |- _ => apply catalog_contiguous in H as Hrev; [|done] end.
  match goal with H : _ || _ = false |- _ => apply orb_false_iff in H as [? ?] end.
  rewrite call_bind_eq. cbn [modify snd]. split.
  - split; cbn [cx_hello cx_set_hello cx_set_outbound cx_negotiated_codecs cx_outbound]; [|done|done].
    eapply revised_agrees; [exact H1|done|done|done|done|]. cbn.
    by apply validate_for_client_ok in H1 as [(_ & _ & ? & _)%server_families _].
  - split; cbn; try done; try lia. exists []. by rewrite app_nil_r.
Qed.

Lemma apply_family_update_keeps payload : follows (keeps_agreement request) (apply_family_update payload).
Proof.
  intros x Hx. unfold apply_family_update. do 5 check_step. rename a into update, a0 into d.
  apply bool_decide_eq_false in Heqb. destruct Hx as [H1 H2 H3].
  destruct (find_family _ _) as [d'|] eqn:Hfind; [|done]. match goal with H : Ok _ = Ok _ |- _ => injection H as -> end.
  unfold FamilyUpdate_validate_after in *. inv_ok. clear Heqr. repeat match goal with u : () |- _ => destruct u end.
  match goal with H : catalog_step _ _ = Ok _ |- _ => apply catalog_contiguous in H as Hrev; [|done] end.
  match goal with H : negb (same_family _ _) = false |- _ => apply negb_false_iff, andb_true_iff in H as [_ Hver%Z.eqb_eq] end.
  pose proof (replace_family_shape _ _ _ Hfind Hver) as Hshape. cbn [modify snd]. split.
  - split; cbn [cx_hello cx_set_hello cx_negotiated_codecs cx_outbound]; [|done|done].
    pose proof (proj1 (validate_for_client_ok _ _) H1) as [Hsv _]. pose proof (server_families _ Hsv) as (_ & _ & Hd & _).
    eapply revised_agrees; [exact H1|done|done|done|by apply ServerHello_validate_inv in Hsv as [? _]|].
    by apply replace_family_valid.
  - split; cbn; try done; try lia. exists []. by rewrite app_nil_r.
Qed.

Lemma service_keeps frame : follows (keeps_agreement request) (service compress frame).
Proof.
  unfold service. follow; auto using answer_ping_keeps, apply_session_update_keeps, apply_family_update_keeps.
Qed.
End session.

(** ** The client *)

Definition parked_bytes (l : list Frame) : Z := foldr (λ f n, len (fr_payload f) + n) 0 l.
Definition max_pending (receive : ReceiveLimits) : Z :=
  Z.max (rl_max_buffered receive / PENDING_BYTES_PER_FRAME) MIN_PENDING_FRAMES.

Record ClientOk (request : ClientHello) (c : NativeClient) : Prop := {
  ck_agreed : Agreed request (nc_session c);
  ck_receive : nc_local_receive c = hc_receive request;
  ck_inbound : FrameCodec_new (mkLimits (rl_max_frame (hc_receive request)) (rl_max_decoded (hc_receive request)))
                 (cx_negotiated_codecs (nc_session c)) = Ok (nc_inbound c);
  ck_bytes : nc_pending_bytes c = parked_bytes (nc_pending c);
  ck_budget : parked_bytes (nc_pending c) <= rl_max_buffered (hc_receive request);
  ck_count : len (nc_pending c) <= max_pending (hc_receive request);
  ck_request_id : 3 <= nc_next_request_id c < 2 ^ 32 ∧ Z.odd (nc_next_request_id c) = true
}.

Definition keeps_client (request : ClientHello) (c c' : NativeClient) : Prop :=
  ClientOk request c → ClientOk request c' ∧ Evolves (nc_session c) (nc_session c').

#[export] Instance keeps_client_rel request : CallRel NativeClient (keeps_client request).
Proof.
  split.
  - intros x H. split; [done|apply evolves_refl].
  - intros x1 x2 x3 H1 H2 H. destruct (H1 H) as [Ha Hb]. destruct (H2 Ha) as [Hc Hd]. split; [done|].
    by eapply evolves_trans.
Qed.

Lemma parked_app l1 l2 : parked_bytes (l1 ++ l2) = parked_bytes l1 + parked_bytes l2.
Proof. induction l1 as [|f l1 IH]; [done|]. cbn [app parked_bytes foldr] in *. unfold parked_bytes in *. lia. Qed.
Lemma parked_one f : parked_bytes [f] = len (fr_payload f).
Proof. unfold parked_bytes. cbn. lia. Qed.
Lemma parked_nonneg l : 0 <= parked_bytes l.
Proof. induction l as [|f l IH]; [done|]. unfold parked_bytes in *. cbn. pose proof (len_nonneg (fr_payload f)). lia. Qed.

Lemma take_first_perm p l f rest : take_first p l = Some (f, rest) → l ≡ₚ f :: rest ∧ p f = true.
Proof.
  revert rest. induction l as [|x l IH]; intros rest H; [done|]. cbn in H. destruct (p x) eqn:E; [by injection H as <- <-|].
  destruct (take_first p l) as [[g r]|]; [|done]. injection H as <- <-. destruct (IH r eq_refl) as [Hp Hg]. split; [|done].
  rewrite Hp. apply Permutation_swap.
Qed.
Lemma parked_perm l l' : l ≡ₚ l' → parked_bytes l = parked_bytes l'.
Proof. induction 1; unfold parked_bytes in *; cbn in *; lia. Qed.

Lemma following_odd id : 3 <= following_request_id id < 2 ^ 32 ∧ Z.odd (following_request_id id) = true.
Proof.
  unfold following_request_id, as_u32. set (n := Z.max _ 3).
  assert (3 <= n < 2 ^ 32) as Hn by (subst n; pose proof (Z.mod_pos_bound (id + 2) 4294967296); lia).
  clearbody n. assert (Z.lor n 1 = n ∨ Z.lor n 1 = n + 1 ∧ Z.odd n = false) as Hlor.
  { destruct (Z.odd n) eqn:E.
    - left. apply Z.bits_inj_iff'. intros i Hi. rewrite Z.lor_spec. destruct (Z.eq_dec i 0) as [->|Hi0].
      + by rewrite Z.bit0_odd, E.
      + rewrite (Z.bits_above_log2 1 i) by (cbn; lia). by rewrite orb_false_r.
    - right. split; [|done]. assert (Z.land n 1 = 0) as Hl.
      { apply Z.bits_inj_iff'. intros i Hi. rewrite Z.land_spec, Z.bits_0. destruct (Z.eq_dec i 0) as [->|Hi0].
        - by rewrite Z.bit0_odd, E.
        - rewrite (Z.bits_above_log2 1 i) by (cbn; lia). apply andb_false_r. }
      by rewrite (Z.add_nocarry_lxor n 1 Hl), (Z.lxor_lor n 1 Hl). }
  assert (Z.odd (Z.lor n 1) = true) as Ho by (rewrite <- Z.bit0_odd, Z.lor_spec; by rewrite orb_true_r).
  split; [|done]. destruct Hlor as [-> | [-> E]]; [lia|]. split; [lia|].
  assert (n ≠ 2 ^ 32 - 1); [|lia]. intros ->. done.
Qed.

Section client.
Context (compress : list byte → list byte) (decompress : list byte → Z → option (list byte)).
Context (blake3 : list byte → list byte) (request : ClientHello).
Abbreviation keeps m := (follows (keeps_client request) m).

Lemma on_session_keeps {A} (m : call Session A) : follows (keeps_agreement request) m → keeps (on_session m).
Proof.
  intros Hm c [H1 H2 H3 H4 H5 H6 H7]. unfold on_session. pose proof (Hm (nc_session c) H1) as [Ha He].
  destruct (m (nc_session c)) as [r x]. cbn [snd] in *. split; [|done]. split; try done. cbn. by rewrite (ev_codecs _ _ He).
Qed.

Lemma next_frame_keeps timed : keeps (next_frame decompress timed).
Proof.
  intros c [H1 H2 H3 H4 H5 H6 H7]. unfold next_frame. destruct (read_frame _ _ _ _) as [r rest]. cbn [snd].
  split; [by split|apply evolves_refl].
Qed.

Lemma read_next_loop_keeps fuel timed : keeps (read_next_loop compress decompress fuel timed).
Proof.
  induction fuel as [|fuel IH]; cbn [read_next_loop]; follow; auto using next_frame_keeps, on_session_keeps, service_keeps.
Qed.
Lemma read_next_keeps timed : keeps (read_next compress decompress timed).
Proof. intros c. apply read_next_loop_keeps. Qed.

Lemma defer_keeps f : keeps (defer f).
Proof.
  intros c H. pose proof H as [H1 H2 H3 H4 H5 H6 H7]. unfold defer. destruct (checked_add_u64 _ _) as [n|] eqn:E; [|split; [done|apply evolves_refl]].
  case_match; [split; [done|apply evolves_refl]|]. apply checked_add_u64_some in E as [-> _].
  match goal with H : _ || _ = false |- _ => apply orb_false_iff in H as [Hc Hb] end. rewrite H2 in Hc, Hb.
  split; [|apply evolves_refl]. split; cbn; try done.
  - by rewrite parked_app, parked_one, H4.
  - rewrite parked_app, parked_one. rewrite H4 in Hb. lia.
  - unfold max_pending in *. unfold len in *. rewrite length_app. cbn [length]. lia.
Qed.

Lemma take_pending_keeps p : keeps (take_pending p).
Proof.
  intros c H. pose proof H as [H1 H2 H3 H4 H5 H6 H7]. unfold take_pending.
  destruct (take_first p (nc_pending c)) as [[f rest]|] eqn:E; [|split; [done|apply evolves_refl]].
  apply take_first_perm in E as [Hp _]. pose proof (parked_perm _ _ Hp) as Hb. apply Permutation_length in Hp.
  cbn [parked_bytes foldr] in Hb. fold (parked_bytes rest) in Hb. pose proof (parked_nonneg rest). pose proof (len_nonneg (fr_payload f)).
  split; [|apply evolves_refl]. split; cbn [snd nc_set_pending nc_session nc_local_receive nc_inbound nc_pending nc_pending_bytes nc_next_request_id]; try done.
  - rewrite H4, Hb. unfold saturating_sub. lia.
  - lia.
  - unfold len in *. cbn [length] in Hp. lia.
Qed.

Lemma wait_loop_keeps fuel timed wanted : keeps (wait_loop compress decompress fuel timed wanted).
Proof. induction fuel as [|fuel IH]; cbn [wait_loop]; follow; auto using read_next_keeps, defer_keeps. Qed.
Lemma wait_for_keeps timed wanted : keeps (wait_for compress decompress timed wanted).
Proof.
  intros c. unfold wait_for. lazymatch goal with |- keeps_client _ _ (?m c).2 => enough (keeps m) as Hk by apply Hk end.
  follow; auto using take_pending_keeps, wait_loop_keeps.
Qed.
Lemma next_transfer_event_keeps id : keeps (next_transfer_event compress decompress id).
Proof. apply wait_for_keeps. Qed.
Lemma next_matching_event_keeps timed family kind : keeps (next_matching_event compress decompress timed family kind).
Proof. apply wait_for_keeps. Qed.
Lemma next_event_keeps : keeps (next_event compress decompress).
Proof.
  intros c. unfold next_event. lazymatch goal with |- keeps_client _ _ (?m c).2 => enough (keeps m) as Hk by apply Hk end.
  follow; auto using take_pending_keeps. generalize (S (length (nc_reader c))) as fuel.
  induction fuel as [|fuel IH]; cbn [next_event_loop]; follow; auto using read_next_keeps.
Qed.

Lemma send_event_keeps family kind payload sensitive : keeps (send_event compress family kind payload sensitive).
Proof. apply on_session_keeps, send_keeps. Qed.
Lemma send_typed_event_keeps `{Encode A} family kind (e : A) sensitive : keeps (send_typed_event compress family kind e sensitive).
Proof. unfold send_typed_event. follow; auto using send_event_keeps. Qed.

Lemma result_loop_keeps fuel family kind id : keeps (result_loop compress decompress fuel family kind id).
Proof. induction fuel as [|fuel IH]; cbn [result_loop]; follow; auto using read_next_keeps, defer_keeps. Qed.

Lemma next_id_keeps id : keeps (modify (nc_set_next_request_id (following_request_id id))).
Proof.
  intros c [H1 H2 H3 H4 H5 H6 H7]. split; [|apply evolves_refl]. split; try done. apply following_odd.
Qed.

Lemma request_result_keeps family kind payload sensitive : keeps (request_result compress decompress family kind payload sensitive).
Proof.
  intros c. unfold request_result. lazymatch goal with |- keeps_client _ _ (?m c).2 => enough (keeps m) as Hk by apply Hk end.
  cbv zeta. follow; auto using next_id_keeps, on_session_keeps, send_keeps, result_loop_keeps.
Qed.
Lemma request_keeps family kind payload sensitive : keeps (Native.request compress decompress family kind payload sensitive).
Proof. unfold Native.request. follow; auto using request_result_keeps. Qed.

Lemma grant_credit_keeps id initial maximum : keeps (grant_credit compress id initial maximum).
Proof. unfold grant_credit. follow; auto using send_typed_event_keeps. Qed.
Lemma transfer_frame_keeps d : keeps (transfer_frame compress decompress d).
Proof. unfold transfer_frame. follow; auto using next_transfer_event_keeps. Qed.

Lemma byte_transfer_loop_keeps fuel d n m b : keeps (byte_transfer_loop compress decompress fuel d n m b).
Proof. revert b. induction fuel as [|fuel IH]; intros b; cbn [byte_transfer_loop]; follow; auto using transfer_frame_keeps. Qed.
Lemma receive_byte_transfer_keeps d n m : keeps (receive_byte_transfer compress decompress d n m).
Proof. unfold receive_byte_transfer. follow; auto using grant_credit_keeps, byte_transfer_loop_keeps. Qed.
Lemma receive_inline_keeps v m : keeps (receive_inline_or_transfer compress decompress blake3 v m).
Proof. unfold receive_inline_or_transfer. follow; auto using receive_byte_transfer_keeps. Qed.

Lemma message_transfer_loop_keeps fuel d mb mm k : keeps (message_transfer_loop compress decompress fuel d mb mm k).
Proof. revert k. induction fuel as [|fuel IH]; intros k; cbn [message_transfer_loop]; follow; auto using transfer_frame_keeps. Qed.
Lemma receive_message_transfer_keeps d mb mm : keeps (receive_message_transfer compress decompress d mb mm).
Proof. unfold receive_message_transfer. follow; auto using grant_credit_keeps, message_transfer_loop_keeps. Qed.

Lemma await_credit_keeps fuel d offset credit : keeps (await_credit compress decompress fuel d offset credit).
Proof. revert credit. induction fuel as [|fuel IH]; intros credit; cbn [await_credit]; follow; auto using next_transfer_event_keeps. Qed.
Lemma upload_loop_keeps fuel d bytes offset credit : keeps (upload_loop compress decompress fuel d bytes offset credit).
Proof.
  revert offset credit. induction fuel as [|fuel IH]; intros offset credit; cbn [upload_loop]; follow;
    auto using await_credit_keeps, send_typed_event_keeps.
Qed.
Lemma send_byte_transfer_keeps d bytes : keeps (send_byte_transfer compress decompress d bytes).
Proof. unfold send_byte_transfer. follow; auto using upload_loop_keeps, send_typed_event_keeps. Qed.

Lemma snapshot_loop_keeps fuel family sub records : keeps (snapshot_loop compress decompress fuel family sub records).
Proof.
  revert records. induction fuel as [|fuel IH]; intros records; cbn [snapshot_loop]; follow;
    auto using next_matching_event_keeps, send_event_keeps.
Qed.
Lemma snapshot_keeps family : keeps (snapshot compress decompress family).
Proof.
  intros c. unfold snapshot. destruct (find_family _ _) as [d|]; [|apply rel_refl]. destruct (negb _); [apply rel_refl|].
  lazymatch goal with |- keeps_client _ _ (?m c).2 => enough (keeps m) as Hk by apply Hk end.
  follow; auto using request_keeps, snapshot_loop_keeps.
Qed.
End client.

(** ** Connecting *)

Lemma client_hello_valid platform instance options maximum hello :
  client_hello platform instance options maximum = Ok hello → ClientHello_validate hello = Ok ().
Proof.
  unfold client_hello. intros (exts & _ & (u & Hv & [= <-])%bind_ok)%bind_ok.
  unfold map_err in Hv. destruct (ClientHello_validate _) as [[]|]; done.
Qed.

Lemma map_err_ok {A} f (r : result Error A) a : map_err f r = Ok a ↔ r = Ok a.
Proof. destruct r; cbn; naive_solver. Qed.

Lemma accept_hello_ok request frame hello codecs :
  accept_hello request frame = Ok (hello, codecs) →
  ServerHello_validate_for_client hello request = Ok () ∧ ServerHello_negotiated_codecs hello = Ok codecs.
Proof.
  unfold accept_hello. case_match; [done|]. intros (prefix & _ & Hp)%bind_ok. case_match; [done|].
  apply bind_ok in Hp as (h & _ & (u & Hv%map_err_ok & (cs & Hc%map_err_ok & [= <- <-])%bind_ok)%bind_ok). by destruct u.
Qed.

(** A connection that succeeds starts in the invariant. *)
Lemma connect_ok compress decompress platform instance clock t options c :
  0 <= ho_receive_budget options →
  connect_transport compress decompress platform instance clock t options = Some (Ok c) →
  ∃ request, client_hello platform instance options (default 0 (tr_datagram t)) = Ok request ∧ ClientOk request c.
Proof.
  intros Hb H. unfold connect_transport in H. apply bind_Some in H as (pre & _ & [= H]).
  apply bind_ok in H as (request & Hr & (encoded & _ & H)%bind_ok).
  destruct (write_all PREFACE _) as [s1 w1]. apply bind_ok in H as (? & _ & H).
  destruct (write_all encoded w1) as [s2 w2]. apply bind_ok in H as (? & _ & H).
  destruct (read_frame _ _ _ _) as [read reader]. apply bind_ok in H as (frame & _ & H).
  apply bind_ok in H as ([hello codecs] & [Hv Hc]%accept_hello_ok & H).
  apply bind_ok in H as (inbound & Hin%map_err_ok & (outbound & Hout%map_err_ok & [= <-])%bind_ok).
  exists request. split; [done|]. split; cbn [nc_session nc_pending nc_local_receive nc_inbound nc_pending_bytes nc_next_request_id]; try done.
  - unfold client_hello in Hr. apply bind_ok in Hr as (? & _ & (? & _ & [= <-])%bind_ok). done.
  - unfold max_pending, MIN_PENDING_FRAMES. rewrite len_nil. lia.
Qed.
