(* ===== verification/NativeTransfer.v ===== *)
(** * NativeTransfer: uploads and downloads through the native client
      ([crates/client/src/native.rs])

    [byte_frames] is what a BYTE Transfer looks like on the wire: chunks at
    consecutive offsets, then CLOSE. Uploads write exactly that, and downloads
    that read it return the bytes. *)

From S2P Require Import Prelude Schema Codec CodecFacts Wire Frame FrameFacts Transfer TransferFacts State Ordered Kv FamilyLimits Core CoreControl CoreProps Native NativeFacts NativeInvariant.

(** * What the native client does with a well-formed stream
      ([crates/client/src/native.rs]) *)

(** ** Reading frames *)

Lemma read_exact_arrived timed bs rest : read_exact timed (length bs) (map Arrived bs ++ rest) = (Ok bs, rest).
Proof.
  induction bs as [|b bs IH]; [by destruct rest|]. cbn [map app length read_exact]. by rewrite IH.
Qed.

Section stream.
Context (compress : list byte → list byte) (decompress : list byte → Z → option (list byte)).
Context (lz4_roundtrip : ∀ p, decompress (compress p) (len p) = Some p).
Context (lz4_bounded : ∀ z n p, decompress z n = Some p → len p <= n).

(** The peer writes [bs] for [f], in the codec the client reads with. *)
Definition written (codec : FrameCodec) (f : Frame) (bs : list byte) : Prop :=
  FrameHeader_wf (fr_header f) ∧ FrameCodec_encode_stream compress codec f = Ok bs.

Lemma read_frame_written timed codec f bs rest :
  FrameCodec_wf codec → written codec f bs → read_frame decompress timed codec (map Arrived bs ++ rest) = (Ok f, rest).
Proof using lz4_roundtrip lz4_bounded.
  intros Hc [Hw He]. pose proof (decode_stream_encoded compress decompress lz4_roundtrip lz4_bounded codec f bs [] Hc Hw He) as Hd.
  rewrite app_nil_r in Hd. apply FrameCodec_encode_stream_ok in He as (body & Hb & ->); [|done].
  pose proof (FrameCodec_wf_bounds codec Hc) as [B1 _]. apply FrameCodec_encode_ok in Hb as (_ & _ & _ & Hl); [|done].
  pose proof (len_nonneg body). unfold read_frame, lp32. rewrite map_app, <- app_assoc.
  rewrite <- (length_to_le 4 (len body)) at 1. rewrite read_exact_arrived, from_to_le by lia.
  unfold checked_add_u64. destruct (Z.leb_spec (len body + 4) U64_MAX); [|unfold U64_MAX in *; lia].
  destruct (Z.ltb_spec (max_wire_frame (fc_limits codec) + 4) (len body + 4)); [lia|].
  rewrite to_nat_len, read_exact_arrived. change (to_le 4 (len body) ++ body) with (lp32 body). rewrite Hd.
  by rewrite Z.eqb_refl.
Qed.

(** Frames [read_next] hands to its caller: everything but Requests and Core Events. *)
Definition passes (f : Frame) : Prop :=
  fh_class (fr_header f) ≠ Request ∧ (fh_class (fr_header f) = Event → fh_family (fr_header f) ≠ family_CORE).

Lemma is_frame_false class family kind f :
  fh_class (fr_header f) ≠ class ∨ fh_family (fr_header f) ≠ family → is_frame class family kind f = false.
Proof.
  unfold is_frame. intros [H|H].
  - by rewrite bool_decide_eq_false_2.
  - apply Z.eqb_neq in H. rewrite H. by destruct (bool_decide _).
Qed.

Lemma service_passes f x : passes f → service compress f x = (Ok (Some f), x).
Proof.
  intros [Hr He]. unfold service. rewrite (is_frame_false Request) by by left. rewrite bool_decide_eq_false_2 by done.
  assert (∀ kind, is_frame Event family_CORE kind f = false) as Hf.
  { intros kind. apply is_frame_false. destruct (fh_class (fr_header f)); [right; by apply He|by left|by left]. }
  by rewrite !Hf.
Qed.

Lemma nc_session_eta c : nc_set_session (nc_session c) c = c.
Proof. by destruct c. Qed.

Lemma read_next_written timed c f bs rest :
  FrameCodec_wf (nc_inbound c) → written (nc_inbound c) f bs → passes f → nc_reader c = map Arrived bs ++ rest →
  read_next compress decompress timed c = (Ok f, nc_set_reader rest c).
Proof using lz4_roundtrip lz4_bounded.
  intros Hc Hw Hp Hr. unfold read_next. cbn [read_next_loop]. rewrite call_bind_eq. unfold next_frame.
  rewrite Hr, (read_frame_written timed _ f bs rest Hc Hw). rewrite call_bind_eq. unfold on_session.
  rewrite service_passes by done. by rewrite nc_session_eta.
Qed.

(** What arrives for a list of frames. *)
Definition arriving (codec : FrameCodec) (frames : list Frame) (l : list Arrival) : Prop :=
  ∃ chunks, Forall2 (written codec) frames chunks ∧ l = map Arrived (concat chunks).

Lemma arriving_cons codec f frames l :
  arriving codec (f :: frames) l ↔ ∃ bs l', written codec f bs ∧ arriving codec frames l' ∧ l = map Arrived bs ++ l'.
Proof.
  unfold arriving. split.
  - intros (chunks & H & ->). apply Forall2_cons_inv_l in H as (bs & chunks' & Hf & HF & ->).
    exists bs, (map Arrived (concat chunks')). split; [done|]. split; [by exists chunks'|]. cbn [concat]. by rewrite map_app.
  - intros (bs & l' & Hf & (chunks & HF & ->) & ->). exists (bs :: chunks). split; [by constructor|]. cbn [concat]. by rewrite map_app.
Qed.

(** A client with room to park more frames. *)
Definition has_room (frames : list Frame) (c : NativeClient) : Prop :=
  nc_pending_bytes c + parked_bytes frames <= rl_max_buffered (nc_local_receive c)
  ∧ rl_max_buffered (nc_local_receive c) <= U64_MAX
  ∧ len (nc_pending c) + len frames <= max_pending (nc_local_receive c).

Definition park (frames : list Frame) (c : NativeClient) : NativeClient :=
  nc_set_pending (nc_pending c ++ frames) (nc_pending_bytes c + parked_bytes frames) c.

Lemma park_cons f frames c : park (f :: frames) c = park frames (park [f] c).
Proof.
  unfold park, nc_set_pending. cbn [nc_pending nc_pending_bytes nc_reader nc_session nc_datagram nc_inbound nc_local_receive nc_next_request_id].
  rewrite <- app_assoc. f_equal. unfold parked_bytes. cbn. lia.
Qed.

Lemma defer_room f frames c : has_room (f :: frames) c → defer f c = (Ok (), park [f] c) ∧ has_room frames (park [f] c).
Proof.
  intros (Hb & Hu & Hn). pose proof (parked_nonneg frames). pose proof (len_nonneg frames).
  assert (parked_bytes (f :: frames) = len (fr_payload f) + parked_bytes frames) as Hp by done.
  assert (len (f :: frames) = 1 + len frames) as Hl by (unfold len; cbn [length]; lia).
  unfold defer, checked_add_u64. rewrite Hp in Hb. rewrite Hl in Hn. unfold max_pending in Hn.
  destruct (Z.leb_spec (nc_pending_bytes c + len (fr_payload f)) U64_MAX); [|lia].
  destruct (Z.leb_spec (Z.max (rl_max_buffered (nc_local_receive c) / PENDING_BYTES_PER_FRAME) MIN_PENDING_FRAMES) (len (nc_pending c))); [lia|].
  destruct (Z.ltb_spec (rl_max_buffered (nc_local_receive c)) (nc_pending_bytes c + len (fr_payload f))); [lia|].
  cbn [orb]. unfold park, has_room. rewrite parked_one. split; [done|].
  cbn [nc_set_pending nc_pending nc_pending_bytes nc_local_receive]. split_and!; [lia|done|]. unfold max_pending.
  rewrite len_app. change (len [f]) with 1. lia.
Qed.

Lemma result_loop_events fuel family kind id c events answer prefix l1 bs rest :
  FrameCodec_wf (nc_inbound c) → (length events < fuel)%nat →
  Forall (λ f, passes f ∧ fh_class (fr_header f) = Event) events → arriving (nc_inbound c) events l1 →
  written (nc_inbound c) answer bs → is_result_of family kind id answer = true → decode (fr_payload answer) = Ok prefix →
  nc_reader c = l1 ++ map Arrived bs ++ rest → has_room events c →
  result_loop compress decompress fuel family kind id c = (Ok prefix, nc_set_reader rest (park events c)).
Proof using lz4_roundtrip lz4_bounded.
  revert fuel c l1. induction events as [|f events IH]; intros [|fuel] c l1 Hc Hf He Ha Hw Hr Hd Hread Hroom; cbn [length] in Hf; try lia.
  - destruct Ha as (chunks & ->%Forall2_nil_inv_l & ->). cbn [result_loop]. rewrite call_bind_eq.
    assert (fh_class (fr_header answer) = Result) as Hcl.
    { unfold is_result_of, is_frame in Hr. rewrite !andb_true_iff in Hr. by destruct Hr as [[[?%bool_decide_eq_true _] _] _]. }
    rewrite (read_next_written true c answer bs rest) by (first [done | rewrite Hcl; done | split; rewrite Hcl; done]).
    rewrite Hr. unfold from_wire, from_result. rewrite Hd. cbn [map_err]. f_equal.
    unfold park. destruct c. cbn. unfold nc_set_reader, nc_set_pending. cbn. by rewrite app_nil_r, Z.add_0_r.
  - apply Forall_cons_iff in He as [[Hp Hcl] He]. apply arriving_cons in Ha as (b & l' & Hwf & Ha & ->).
    cbn [result_loop]. rewrite call_bind_eq. rewrite <- app_assoc in Hread.
    rewrite (read_next_written true c f b _ Hc Hwf Hp Hread).
    assert (is_result_of family kind id f = false) as ->.
    { unfold is_result_of. rewrite is_frame_false; [done|]. left. by rewrite Hcl. }
    rewrite bool_decide_eq_false_2 by by rewrite Hcl. rewrite call_bind_eq.
    destruct (defer_room f events (nc_set_reader (l' ++ map Arrived bs ++ rest) c)) as [-> Hroom']; [done|].
    rewrite (IH fuel _ l') by (done || lia). f_equal. rewrite (park_cons f events c). done.
Qed.
End stream.

Definition transfer_header (kind : Z) (sensitive : bool) : FrameHeader :=
  set_sensitive sensitive (FrameHeader_event family_TRANSFER kind).

Fixpoint byte_frames (d : Descriptor) (sensitive : bool) (offset : Z) (chunks : list (list byte)) (frames : list Frame) : Prop :=
  match chunks, frames with
  | [], [f] => ∃ payload, encode (mkClose (td_transfer_id d) offset (Status_code Status_Ok) []) = Ok payload
                 ∧ f = mkFrame (transfer_header transfer_event_CLOSE sensitive) payload
  | b :: chunks, f :: frames =>
      len b <= td_max_chunk_bytes d
      ∧ (∃ payload, encode (mkByteData (td_transfer_id d) offset b) = Ok payload
           ∧ f = mkFrame (transfer_header transfer_event_BYTE_DATA sensitive) payload)
      ∧ byte_frames d sensitive (offset + len b) chunks frames
  | _, _ => False
  end.

(** ** The payloads *)

Lemma take_4_le id bs : take 4 (to_le 4 id ++ bs) = to_le 4 id.
Proof. apply take_app_length'. by rewrite length_to_le. Qed.

Lemma data_payload id offset b payload :
  is_u32 id → is_u64 offset → encode (mkByteData id offset b) = Ok payload →
  decode payload = Ok (mkByteData id offset b) ∧ 4 <= len payload ∧ take 4 payload = to_le 4 id ∧ b ≠ [].
Proof.
  intros Hi Ho He. pose proof He as (-> & Hok)%ByteData_encode_ok.
  assert (b ≠ [] ∧ len b <= 65536) as [Hb Hl].
  { unfold encodable, encode, encode_to, ByteData_encode_to in Hok. cbn in Hok.
    destruct (reject_if _ _) as [[]|] eqn:E; [|done]. apply reject_if_ok, orb_false_iff in E as [[_ En]%orb_false_iff El].
    change HARD_MAX_BULK_CHUNK with 65536 in El. split; [by destruct b|lia]. }
  unfold ByteData_bytes in *. cbn [bd_transfer_id bd_offset bd_data app] in *. split_and!.
  - apply wire_roundtrip; [by split|done|]. rewrite !len_app, !len_to_le. unfold ISIZE_MAX. lia.
  - rewrite !len_app, !len_to_le. pose proof (len_nonneg b). lia.
  - apply take_4_le.
  - done.
Qed.

Lemma close_payload id offset payload :
  is_u32 id → is_u64 offset → encode (mkClose id offset (Status_code Status_Ok) []) = Ok payload →
  decode payload = Ok (mkClose id offset (Status_code Status_Ok) []) ∧ 4 <= len payload ∧ take 4 payload = to_le 4 id.
Proof.
  intros Hi Ho He. assert (payload = Close_bytes (mkClose id offset (Status_code Status_Ok) [])) as ->.
  { unfold encode, encode_to, Close_encode_to in He. enc_inv. unfold Close_bytes. cbn [cl_transfer_id cl_final_data_bytes cl_status cl_detail]. bytes_eq. }
  split_and!; [|done|apply take_4_le]. apply wire_roundtrip; [unfold Close_wf; cbn [cl_transfer_id cl_final_data_bytes cl_status]; split_and!; try lia; done|done|done].
Qed.

(** ** Downloads *)

Section transfers.
Context (compress : list byte → list byte) (decompress : list byte → Z → option (list byte)).
Context (lz4_roundtrip : ∀ p, decompress (compress p) (len p) = Some p).
Context (lz4_bounded : ∀ z n p, decompress z n = Some p → len p <= n).

Lemma wait_loop_written fuel timed wanted c others f l1 bs rest :
  FrameCodec_wf (nc_inbound c) → (length others < fuel)%nat →
  Forall (λ g, passes g ∧ wanted g = false) others → arriving compress (nc_inbound c) others l1 →
  written compress (nc_inbound c) f bs → passes f → wanted f = true →
  nc_reader c = l1 ++ map Arrived bs ++ rest → has_room others c →
  wait_loop compress decompress fuel timed wanted c = (Ok f, nc_set_reader rest (park others c)).
Proof using lz4_roundtrip lz4_bounded.
  revert fuel c l1. induction others as [|g others IH]; intros [|fuel] c l1 Hc Hf He Ha Hw Hp Hwant Hread Hroom;
    cbn [length] in Hf; try lia; cbn [wait_loop]; rewrite call_bind_eq.
  - destruct Ha as (chunks & ->%Forall2_nil_inv_l & ->).
    rewrite (read_next_written compress decompress lz4_roundtrip lz4_bounded timed c f bs rest) by done. rewrite Hwant.
    unfold park. destruct c. cbn. unfold nc_set_reader, nc_set_pending. cbn. by rewrite app_nil_r, Z.add_0_r.
  - apply Forall_cons_iff in He as [[Hpg Hg] He]. apply arriving_cons in Ha as (b & l' & Hwf & Ha & ->).
    rewrite <- app_assoc in Hread.
    rewrite (read_next_written compress decompress lz4_roundtrip lz4_bounded timed c g b _ Hc Hwf Hpg Hread), Hg, call_bind_eq.
    destruct (defer_room g others (nc_set_reader (l' ++ map Arrived bs ++ rest) c)) as [-> Hroom']; [done|].
    rewrite (IH fuel _ l') by (done || lia). f_equal. by rewrite (park_cons g others c).
Qed.

Lemma take_first_none p l : Forall (λ f, p f = false) l → take_first p l = None.
Proof. induction 1 as [|f l Hf _ IH]; [done|]. cbn. by rewrite Hf, IH. Qed.

Lemma arriving_length codec frames l : arriving compress codec frames l → (length frames <= length l)%nat.
Proof.
  revert l. induction frames as [|f frames IH]; intros l Ha; [cbn; lia|].
  apply arriving_cons in Ha as (bs & l' & [_ He] & Ha & ->). apply IH in Ha. rewrite length_app, length_map.
  assert (bs ≠ []) as Hb.
  { intros ->. unfold FrameCodec_encode_stream in He. enc_inv. unfold to_le in *. by destruct v. }
  destruct bs; [done|]. cbn [length]. lia.
Qed.

Lemma wait_for_written timed wanted c others f l1 bs rest :
  FrameCodec_wf (nc_inbound c) → Forall (λ g, wanted g = false) (nc_pending c) →
  Forall (λ g, passes g ∧ wanted g = false) others → arriving compress (nc_inbound c) others l1 →
  written compress (nc_inbound c) f bs → passes f → wanted f = true →
  nc_reader c = l1 ++ map Arrived bs ++ rest → has_room others c →
  wait_for compress decompress timed wanted c = (Ok f, nc_set_reader rest (park others c)).
Proof using lz4_roundtrip lz4_bounded.
  intros Hc Hn Ho Ha Hw Hp Hwant Hread Hroom. unfold wait_for. rewrite call_bind_eq. unfold take_pending.
  rewrite take_first_none by done. eapply wait_loop_written; try done. apply arriving_length in Ha. rewrite Hread, length_app. lia.
Qed.

Lemma arriving_app codec f1 f2 l :
  arriving compress codec (f1 ++ f2) l → ∃ l1 l2, arriving compress codec f1 l1 ∧ arriving compress codec f2 l2 ∧ l = l1 ++ l2.
Proof.
  intros (chunks & H & ->). apply Forall2_app_inv_l in H as (c1 & c2 & H1 & H2 & ->).
  exists (map Arrived (concat c1)), (map Arrived (concat c2)). split; [by exists c1|]. split; [by exists c2|].
  by rewrite concat_app, map_app.
Qed.

Lemma park_app l1 l2 c : park (l1 ++ l2) c = park l2 (park l1 c).
Proof.
  unfold park, nc_set_pending. cbn [nc_pending nc_pending_bytes nc_reader nc_session nc_datagram nc_inbound nc_local_receive nc_next_request_id].
  rewrite <- app_assoc, parked_app. f_equal. lia.
Qed.
Lemma has_room_app l1 l2 c : has_room (l1 ++ l2) c → has_room l1 c ∧ has_room l2 (park l1 c).
Proof.
  unfold has_room, park. rewrite parked_app, len_app. pose proof (parked_nonneg l2). pose proof (len_nonneg l2).
  cbn [nc_set_pending nc_pending nc_pending_bytes nc_local_receive]. rewrite len_app. intros (? & ? & ?). split_and!; try done; lia.
Qed.

(** The frames [next_transfer_event] waits for. *)
Definition of_transfer (id : Z) (f : Frame) : bool :=
  bool_decide (fh_class (fr_header f) = Event) && (fh_family (fr_header f) =? family_TRANSFER)
  && bool_decide (transfer_event_id f = Some id).

Lemma transfer_frame_of id kind sensitive payload :
  is_u32 id → kind = transfer_event_BYTE_DATA ∨ kind = transfer_event_CLOSE → 4 <= len payload → take 4 payload = to_le 4 id →
  of_transfer id (mkFrame (transfer_header kind sensitive) payload) = true
  ∧ passes (mkFrame (transfer_header kind sensitive) payload).
Proof.
  intros Hi Hk Hl Ht. split; [|by split].
  unfold of_transfer, transfer_event_id. cbn [fr_header fr_payload transfer_header set_sensitive FrameHeader_event fh_class fh_family fh_kind].
  rewrite Ht, from_to_le by lia. apply Z.leb_le in Hl. rewrite Hl.
  destruct Hk as [-> | ->]; by rewrite !bool_decide_eq_true_2.
Qed.

(** One event of the transfer, behind others that are parked. *)
Lemma transfer_frame_written d kind sensitive payload c others l1 bs rest :
  is_u32 (td_transfer_id d) → kind = transfer_event_BYTE_DATA ∨ kind = transfer_event_CLOSE →
  Descriptor_requires_sensitive_frame d kind = Ok sensitive → 4 <= len payload → take 4 payload = to_le 4 (td_transfer_id d) →
  FrameCodec_wf (nc_inbound c) → Forall (λ g, of_transfer (td_transfer_id d) g = false) (nc_pending c) →
  Forall (λ g, passes g ∧ of_transfer (td_transfer_id d) g = false) others → arriving compress (nc_inbound c) others l1 →
  written compress (nc_inbound c) (mkFrame (transfer_header kind sensitive) payload) bs →
  nc_reader c = l1 ++ map Arrived bs ++ rest → has_room others c →
  transfer_frame compress decompress d c
  = (Ok (mkFrame (transfer_header kind sensitive) payload), nc_set_reader rest (park others c)).
Proof using lz4_roundtrip lz4_bounded.
  intros Hi Hk Hs Hl Ht Hc Hn Ho Ha Hw Hr Hroom. unfold transfer_frame. rewrite call_bind_eq.
  change (next_transfer_event compress decompress (td_transfer_id d)) with (wait_for compress decompress false (of_transfer (td_transfer_id d))).
  destruct (transfer_frame_of (td_transfer_id d) kind sensitive payload) as [Hwant Hp]; try done.
  rewrite (wait_for_written false (of_transfer (td_transfer_id d)) c others _ l1 bs rest) by done. rewrite call_bind_eq. 
  unfold from_wire. cbn [fr_header transfer_header set_sensitive FrameHeader_event fh_kind]. rewrite Hs. cbn [map_err from_result].
  rewrite call_bind_eq. cbn [fh_sensitive]. by rewrite Bool.eqb_reflx.
Qed.

(** What a chunk, or CLOSE, does to the bytes collected. *)
Lemma append_chunk_next d expected maximum bytes b (more : list byte) :
  maximum <= U64_MAX → len b <= td_max_chunk_bytes d → len bytes + len b + len more <= maximum →
  expected = None ∨ expected = Some (len bytes + len b + len more) →
  append_chunk d expected maximum bytes (mkByteData (td_transfer_id d) (len bytes) b) = Ok (bytes ++ b).
Proof.
  intros Hmax Hch Hle Hexp. pose proof (len_nonneg more). unfold append_chunk, checked_add_u64. cbn [bd_offset bd_data].
  rewrite Z.eqb_refl. destruct (Z.ltb_spec (td_max_chunk_bytes d) (len b)); [lia|]. cbn [negb orb].
  destruct (Z.leb_spec (len bytes + len b) U64_MAX); [|lia]. destruct (Z.ltb_spec maximum (len bytes + len b)); [lia|].
  cbn [orb]. unfold exceeds. destruct Hexp as [-> | ->]; [done|].
  by destruct (Z.ltb_spec (len bytes + len b + len more) (len bytes + len b)); [lia|].
Qed.
Lemma close_bytes_ok id expected bytes :
  expected = None ∨ expected = Some (len bytes) →
  close_bytes expected bytes (mkClose id (len bytes) (Status_code Status_Ok) []) = Ok ().
Proof.
  intros Hexp. unfold close_bytes. cbn [cl_final_data_bytes cl_status]. rewrite !Z.eqb_refl. cbn [negb].
  destruct Hexp as [-> | ->]; [done|]. by rewrite Z.eqb_refl.
Qed.

Definition group_frames (groups : list (list Frame * Frame)) : list Frame := concat (map (λ g, g.1 ++ [g.2]) groups).
Definition group_others (groups : list (list Frame * Frame)) : list Frame := concat (map fst groups).

Lemma byte_transfer_loop_frames d sensitive expected maximum chunks groups fuel bytes c l rest :
  is_u32 (td_transfer_id d) → Descriptor_requires_sensitive_frame d transfer_event_BYTE_DATA = Ok sensitive →
  Descriptor_requires_sensitive_frame d transfer_event_CLOSE = Ok sensitive → maximum <= U64_MAX →
  FrameCodec_wf (nc_inbound c) → byte_frames d sensitive (len bytes) chunks (map snd groups) →
  len bytes + len (concat chunks) <= maximum → (expected = None ∨ expected = Some (len bytes + len (concat chunks))) →
  (length groups <= fuel)%nat →
  Forall (λ g, of_transfer (td_transfer_id d) g = false) (nc_pending c) →
  Forall (λ g, passes g ∧ of_transfer (td_transfer_id d) g = false) (group_others groups) →
  arriving compress (nc_inbound c) (group_frames groups) l → nc_reader c = l ++ rest → has_room (group_others groups) c →
  byte_transfer_loop compress decompress fuel d expected maximum bytes c
  = (Ok (bytes ++ concat chunks), nc_set_reader rest (park (group_others groups) c)).
Proof using lz4_roundtrip lz4_bounded.
  intros Hi Hsb Hsc Hmax. revert chunks fuel bytes c l.
  induction groups as [|[others f] groups IH]; intros chunks fuel bytes c l Hc Hf Hle Hexp Hfuel Hn Ho Ha Hr Hroom.
  { by destruct chunks. }
  destruct fuel as [|fuel]; [cbn in Hfuel; lia|]. cbn [length] in Hfuel. pose proof (len_nonneg bytes).
  unfold group_frames, group_others in Ha, Ho, Hroom |- *. cbn [map concat fst snd] in Hf, Ha, Ho, Hroom |- *.
  rewrite <- app_assoc in Ha. apply arriving_app in Ha as (l1 & l2 & Ha1 & Ha2 & ->). cbn [app] in Ha2.
  apply arriving_cons in Ha2 as (bs & l3 & Hw & Ha3 & ->). apply Forall_app in Ho as [Ho1 Ho2].
  apply has_room_app in Hroom as [Hroom1 Hroom2]. rewrite <- !app_assoc in Hr. rewrite park_app.
  assert (Forall (λ g, of_transfer (td_transfer_id d) g = false) (nc_pending (park others c))) as Hn'.
  { unfold park. cbn [nc_set_pending nc_pending]. apply Forall_app. split; [done|]. apply (Forall_impl _ _ _ Ho1). by intros g [_ ?]. }
  destruct chunks as [|b chunks]; cbn [byte_frames] in Hf.
  - destruct (map snd groups) as [|? ?] eqn:Eg; [|done]. apply map_eq_nil in Eg as ->. destruct Hf as (payload & He & ->).
    cbn [concat] in Hle, Hexp. rewrite len_nil in Hle, Hexp.
    destruct (close_payload (td_transfer_id d) (len bytes) payload) as (Hd & Hl4 & Ht4); [lia|unfold U64_MAX in *; lia|done|].
    cbn [byte_transfer_loop]. rewrite call_bind_eq.
    rewrite (transfer_frame_written d transfer_event_CLOSE sensitive payload c others l1 bs (l3 ++ rest)) by (done || by right).
    cbn [fr_header transfer_header set_sensitive FrameHeader_event fh_kind fr_payload].
    change (transfer_event_CLOSE =? transfer_event_BYTE_DATA) with false. rewrite Z.eqb_refl, call_bind_eq.
    unfold from_wire. rewrite Hd. cbn [map_err from_result]. rewrite call_bind_eq. rewrite Z.add_0_r in Hexp.
    rewrite close_bytes_ok by done.
    cbn [from_result]. destruct Ha3 as (ch & ->%Forall2_nil_inv_l & ->). cbn [concat map app]. rewrite app_nil_r.
    unfold mret, call_ret. f_equal. cbn [concat map]. unfold park. destruct c. cbn. unfold nc_set_reader, nc_set_pending. cbn.
    by rewrite app_nil_r, Z.add_0_r.
  - destruct Hf as (Hch & (payload & He & ->) & Hf). cbn [concat] in Hle, Hexp. rewrite len_app, Z.add_assoc in Hle, Hexp.
    pose proof (len_nonneg (concat chunks)). pose proof (len_nonneg b).
    destruct (data_payload (td_transfer_id d) (len bytes) b payload) as (Hd & Hl4 & Ht4 & Hb); [lia|unfold U64_MAX in *; lia|done|].
    cbn [byte_transfer_loop]. rewrite call_bind_eq.
    rewrite (transfer_frame_written d transfer_event_BYTE_DATA sensitive payload c others l1 bs (l3 ++ rest)) by (done || by left).
    cbn [fr_header transfer_header set_sensitive FrameHeader_event fh_kind fr_payload]. rewrite Z.eqb_refl, call_bind_eq.
    unfold from_wire. rewrite Hd. cbn [map_err from_result]. rewrite call_bind_eq.
    rewrite (append_chunk_next d expected maximum bytes b (concat chunks)) by (done || lia).
    cbn [from_result]. rewrite (IH chunks fuel (bytes ++ b) (nc_set_reader (l3 ++ rest) (park others c)) l3); try done.
    + by rewrite <- app_assoc.
    + by rewrite len_app.
    + rewrite len_app. lia.
    + by rewrite len_app.
    + lia.
Qed.

(** [send] only writes. *)
Lemma send_shape frame x r x' :
  send compress frame x = (r, x') → x' = cx_set_writer (cx_writer x') x.
Proof.
  unfold send. destruct x. case_match; [|by intros [= <- <-]]. case_match. by intros [= <- <-].
Qed.
Lemma grant_credit_shape id initial maximum c r c' :
  grant_credit compress id initial maximum c = (r, c') → ∃ w, c' = nc_set_session (cx_set_writer w (nc_session c)) c.
Proof.
  assert (∃ w, c = nc_set_session (cx_set_writer w (nc_session c)) c) as Hc.
  { exists (cx_writer (nc_session c)). by destruct c as [? [] ? ? ? ? ? ?]. }
  unfold grant_credit. rewrite call_bind_eq. unfold guard_. destruct (maximum <? initial); [by intros [= <- <-]|].
  cbn [mret call_ret]. destruct (initial <? maximum); [|by intros [= <- <-]].
  unfold send_typed_event. rewrite call_bind_eq. unfold from_wire, from_result.
  destruct (map_err _ _); [|by intros [= <- <-]]. unfold send_event, on_session.
  destruct (send _ _ _) as [r1 x1] eqn:Es. apply send_shape in Es. intros [= <- <-]. exists (cx_writer x1). by rewrite <- Es.
Qed.

Lemma group_frames_length groups : length (group_frames groups) = (length (group_others groups) + length groups)%nat.
Proof.
  unfold group_frames, group_others. induction groups as [|[o f] groups IH]; [done|].
  cbn [map concat fst snd length]. rewrite !length_app, IH. cbn [length]. lia.
Qed.

Lemma receive_byte_transfer_frames d sensitive expected maximum chunks groups c c1 l rest :
  Descriptor_validate d = Ok () → td_mode d = ModeByte → td_direction d = SENDER_TO_RECEIVER → is_u32 (td_transfer_id d) →
  Descriptor_sensitive_content d = Ok sensitive →
  0 < maximum <= U64_MAX → len (concat chunks) <= maximum →
  (expected = None ∨ expected = Some (len (concat chunks))) →
  grant_credit compress (td_transfer_id d) (td_sender_send_credit d) maximum c = (Ok (), c1) →
  FrameCodec_wf (nc_inbound c) → byte_frames d sensitive 0 chunks (map snd groups) →
  Forall (λ g, of_transfer (td_transfer_id d) g = false) (nc_pending c) →
  Forall (λ g, passes g ∧ of_transfer (td_transfer_id d) g = false) (group_others groups) →
  arriving compress (nc_inbound c) (group_frames groups) l → nc_reader c = l ++ rest → has_room (group_others groups) c →
  receive_byte_transfer compress decompress d expected maximum c
  = (Ok (concat chunks), nc_set_reader rest (park (group_others groups) c1)).
Proof using lz4_roundtrip lz4_bounded.
  intros Hv Hm Hdir Hi Hs Hmax Hle Hexp Hg Hc Hf Hn Ho Ha Hr Hroom.
  unfold receive_byte_transfer. rewrite !call_bind_eq. rewrite Hv. unfold from_wire. cbn [map_err from_result].
  rewrite call_bind_eq. rewrite Hm, Hdir, !bool_decide_eq_true_2 by done. cbn [negb orb guard_ mret call_ret].
  rewrite call_bind_eq. assert ((maximum =? 0) || match expected with Some length => maximum <? length | None => false end = false) as ->.
  { destruct (Z.eqb_spec maximum 0); [lia|]. destruct Hexp as [-> | ->]; [done|]. cbn. by apply Z.ltb_ge. }
  cbn [guard_ mret call_ret]. rewrite call_bind_eq, Hg, call_bind_eq. cbn [gets].
  apply grant_credit_shape in Hg as [w ->].
  rewrite (byte_transfer_loop_frames d sensitive expected maximum chunks groups _ [] _ l rest); try done; [lia|].
  pose proof (arriving_length _ _ _ Ha) as Hlen. rewrite group_frames_length in Hlen.
  unfold frames_left. cbn [nc_set_session nc_reader nc_pending]. rewrite Hr, length_app. lia.
Qed.
End transfers.
