(* ===== verification/NativeUpload.v ===== *)
(** * NativeUpload: what the native client writes
      ([crates/client/src/native.rs])

    A call that succeeds wrote whole frames. While it reads it writes nothing
    but answers to PING; an upload writes its chunks in order, each within the
    credit granted, and CLOSE. *)

From S2P Require Import Prelude Ordered Schema Codec Kv FamilyLimits CodecFacts Wire Frame FrameFacts Transfer TransferFacts State Core CoreControl CoreProps Native NativeFacts NativeInvariant NativeTransfer.

Lemma data_nonempty id offset b payload : encode (mkByteData id offset b) = Ok payload → b ≠ [].
Proof.
  unfold encode, encode_to, ByteData_encode_to. intros H. destruct (reject_if _ _) as [[]|] eqn:E; [|done]. intros ->.
  apply reject_if_ok in E. cbn in E. by rewrite orb_true_r in E.
Qed.

Section uploads.
Context (compress : list byte → list byte) (decompress : list byte → Z → option (list byte)).

(** The frames written between two states of the session, in its codecs. *)
Definition sent (frames : list Frame) (x x' : Session) : Prop :=
  ∃ chunks, Forall2 (λ f bs, ∃ codec, FrameCodec_encode_stream compress codec f = Ok bs) frames chunks
    ∧ wr_out (cx_writer x') = wr_out (cx_writer x) ++ concat chunks.

Lemma sent_nil x x' : cx_writer x' = cx_writer x → sent [] x x'.
Proof. intros H. exists []. split; [constructor|]. by rewrite H, app_nil_r. Qed.
Lemma sent_app f1 f2 x1 x2 x3 : sent f1 x1 x2 → sent f2 x2 x3 → sent (f1 ++ f2) x1 x3.
Proof.
  intros (c1 & H1 & E1) (c2 & H2 & E2). exists (c1 ++ c2). split; [by apply Forall2_app|].
  by rewrite E2, E1, concat_app, app_assoc.
Qed.

Lemma send_sent frame x x' u : send compress frame x = (Ok u, x') → sent [frame] x x'.
Proof.
  unfold send. destruct (FrameCodec_encode_stream _ _ _) as [bs|] eqn:E; [|done]. unfold write_all.
  destruct (len bs <=? _); [|done]. intros [= _ <-]. exists [bs]. split; [repeat constructor; by exists (cx_outbound x)|].
  cbn. by rewrite app_nil_r.
Qed.

(** Answers to PING. *)
Definition is_pong (f : Frame) : bool := is_frame Result family_CORE core_request_PING f.
Definition pongs (x x' : Session) : Prop := ∃ frames, Forall (λ f, is_pong f = true) frames ∧ sent frames x x'.

Lemma pongs_refl x x' : cx_writer x' = cx_writer x → pongs x x'.
Proof. intros H. exists []. split; [constructor|by apply sent_nil]. Qed.
Lemma pongs_trans x1 x2 x3 : pongs x1 x2 → pongs x2 x3 → pongs x1 x3.
Proof. intros (f1 & H1 & S1) (f2 & H2 & S2). exists (f1 ++ f2). split; [by apply Forall_app|by eapply sent_app]. Qed.

Lemma monotonic_writer x t x' : monotonic_ns x = (Ok t, x') → cx_writer x' = cx_writer x.
Proof.
  unfold monotonic_ns. intros H. call_inv. unfold elapsed_ns in *. destruct (cx_clock x); by simplify_eq/=.
Qed.

Lemma answer_ping_pongs frame x x' u : answer_ping compress frame x = (Ok u, x') → pongs x x'.
Proof.
  unfold answer_ping. intros H. call_inv.
  repeat match goal with H : monotonic_ns _ = _ |- _ => apply monotonic_writer in H end.
  match goal with H : send _ _ _ = _ |- _ => apply send_sent in H as Hs end.
  eexists [_]. split; [|destruct Hs as (chunks & HF & HW); exists chunks; split; [exact HF|by rewrite HW; f_equal; f_equal; congruence]].
  repeat constructor.
Qed.

Lemma service_pongs frame x k x' : service compress frame x = (Ok k, x') → pongs x x'.
Proof.
  unfold service. intros H.
  repeat (match type of H with context [if ?b then _ else _] => destruct b end); call_inv; try by apply pongs_refl.
  - by eapply answer_ping_pongs.
  - apply pongs_refl. unfold apply_session_update in *. call_inv. done.
  - apply pongs_refl. unfold apply_family_update in *. call_inv. done.
Qed.

Abbreviation client_pongs c c' := (pongs (nc_session c) (nc_session c')).

Lemma read_next_pongs timed c f c' : read_next compress decompress timed c = (Ok f, c') → client_pongs c c'.
Proof.
  unfold read_next. generalize (S (length (nc_reader c))) as fuel. intros fuel. revert c.
  induction fuel as [|fuel IH]; intros c H; [done|]. cbn [read_next_loop] in H.
  apply call_bind_ok in H as (g & c1 & Hn & H). apply call_bind_ok in H as (k & c2 & Hs & H).
  unfold next_frame in Hn. destruct (read_frame _ _ _ _) as [r reader]. injection Hn as -> <-.
  unfold on_session in Hs. destruct (service _ _ _) as [r x] eqn:E. injection Hs as -> <-. apply service_pongs in E.
  destruct k as [k|]; [call_inv; exact E|]. apply IH in H. eapply pongs_trans; [exact E|exact H].
Qed.

Lemma defer_session f c u c' : defer f c = (Ok u, c') → nc_session c' = nc_session c.
Proof. unfold defer. case_match; [|done]. case_match; [done|]. by intros [= _ <-]. Qed.

Lemma wait_for_pongs timed wanted c f c' : wait_for compress decompress timed wanted c = (Ok f, c') → client_pongs c c'.
Proof.
  unfold wait_for. intros H. apply call_bind_ok in H as (k & c1 & Hk & H).
  assert (nc_session c1 = nc_session c) as Hc1.
  { unfold take_pending in Hk. destruct (take_first _ _) as [[? ?]|]; by injection Hk as _ <-. }
  rewrite <- Hc1. clear Hk Hc1. destruct k as [k|]; [call_inv; by apply pongs_refl|].
  revert c1 H. generalize (S (length (nc_reader c))) as fuel.
  induction fuel as [|fuel IH]; intros c1 H; [done|]. cbn [wait_loop] in H.
  apply call_bind_ok in H as (g & c2 & Hr%read_next_pongs & H). destruct (wanted g); [call_inv; exact Hr|].
  apply call_bind_ok in H as (u & c3 & Hd%defer_session & H). apply IH in H. rewrite Hd in H. by eapply pongs_trans.
Qed.

Lemma await_credit_pongs fuel d offset credit c k c' :
  await_credit compress decompress fuel d offset credit c = (Ok k, c') → client_pongs c c' ∧ offset < k ∧ credit <= k.
Proof.
  revert credit c. induction fuel as [|fuel IH]; intros credit c H; cbn [await_credit] in H;
    destruct (Z.ltb_spec offset credit); try (call_inv; split; [by apply pongs_refl|lia]); [done|].
  apply call_bind_ok in H as (f & c1 & Hw%wait_for_pongs & H). cbv zeta in H.
  destruct (_ =? transfer_event_CREDIT); [|destruct (_ =? transfer_event_RESET); by call_inv].
  call_inv. apply IH in H as (Hp & Ho & Hk). split; [by eapply pongs_trans|]. lia.
Qed.

Lemma send_typed_event_sent `{Encode A} family kind (e : A) sensitive c u c' :
  send_typed_event compress family kind e sensitive c = (Ok u, c') →
  ∃ payload, encode e = Ok payload
    ∧ sent [mkFrame (set_sensitive sensitive (FrameHeader_event family kind)) payload] (nc_session c) (nc_session c').
Proof.
  unfold send_typed_event. intros Hs. call_inv. exists x. split; [done|]. unfold send_event, on_session in Hs.
  destruct (send _ _ _) as [r x'] eqn:E. injection Hs as -> <-. by eapply send_sent.
Qed.

(** The frames of the upload among what was written. *)
Abbreviation upload_frames frames := (List.filter (λ f, negb (is_pong f)) frames).

Lemma upload_frames_pongs frames : Forall (λ f, is_pong f = true) frames → upload_frames frames = [].
Proof. induction 1 as [|f frames Hf _ IH]; [done|]. cbn. by rewrite Hf. Qed.

Lemma upload_loop_writes fuel d bytes sensitive offset credit c o c' :
  0 <= offset <= len bytes → Descriptor_requires_sensitive_frame d transfer_event_BYTE_DATA = Ok sensitive →
  upload_loop compress decompress fuel d bytes offset credit c = (Ok o, c') →
  o = len bytes ∧ ∃ chunks frames, concat chunks = drop (Z.to_nat offset) bytes
    ∧ sent frames (nc_session c) (nc_session c')
    ∧ ∀ close, byte_frames d sensitive (len bytes) [] [close] → byte_frames d sensitive offset chunks (upload_frames frames ++ [close]).
Proof.
  intros Ho Hs. revert offset credit c Ho. induction fuel as [|fuel IH]; intros offset credit c Ho H; cbn [upload_loop] in H;
    destruct (Z.leb_spec (len bytes) offset).
  1,3: call_inv; assert (offset = len bytes) as -> by lia; split; [done|]; exists [], []; rewrite drop_ge by (unfold len; lia);
       split_and!; [done|by apply sent_nil|done].
  { done. }
  apply call_bind_ok in H as (left & c1 & Hl & H). apply gets_ok in Hl as [-> ->].
  apply call_bind_ok in H as (k & c1 & ((pf & Hpf & Hps) & Hk & _)%await_credit_pongs & H). cbv zeta in H.
  set (remaining := drop (Z.to_nat offset) bytes) in *.
  set (n := Z.min (Z.min (len remaining) (td_max_chunk_bytes d)) (k - offset)) in *.
  apply call_bind_ok in H as (u & c2 & [Hn ->]%guard_ok & H).
  apply call_bind_ok in H as (sens & c2 & [Hs' ->]%from_wire_ok & H). rewrite Hs in Hs'. injection Hs' as <-.
  apply call_bind_ok in H as (u2 & c2 & (payload & He & Hsent)%send_typed_event_sent & H).
  assert (len remaining = len bytes - offset) as Hrem by (unfold remaining, len in *; rewrite length_drop; lia).
  pose proof (data_nonempty _ _ _ _ He) as Hne. assert (0 <= n) as Hn0.
  { destruct (Z.le_gt_cases 0 n); [done|]. destruct Hne. by replace (Z.to_nat n) with 0%nat by lia. }
  assert (len (take (Z.to_nat n) remaining) = n) as Htake by (unfold len in *; rewrite length_take; lia).
  apply IH in H as (-> & chunks & frames & Hc & Hf & Hb); [|lia]. split; [done|].
  exists (take (Z.to_nat n) remaining :: chunks), (pf ++ [mkFrame (transfer_header transfer_event_BYTE_DATA sensitive) payload] ++ frames).
  split_and!.
  - cbn [concat]. rewrite Hc, Z2Nat.inj_add by lia. rewrite <- drop_drop. apply take_drop.
  - eapply sent_app; [exact Hps|]. eapply sent_app; [exact Hsent|exact Hf].
  - intros close Hclose. rewrite !List.filter_app, (upload_frames_pongs pf Hpf). cbn [app List.filter]. cbn [byte_frames]. 
    replace (negb (is_pong _)) with true by done. cbn [app byte_frames]. rewrite Htake. split_and!; [lia|by exists payload|by apply Hb].
Qed.

Lemma send_byte_transfer_writes d bytes c c' :
  send_byte_transfer compress decompress d bytes c = (Ok (), c') →
  ∃ sensitive chunks frames, Descriptor_sensitive_content d = Ok sensitive ∧ concat chunks = bytes
    ∧ sent frames (nc_session c) (nc_session c') ∧ byte_frames d sensitive 0 chunks (upload_frames frames).
Proof.
  unfold send_byte_transfer. intros H.
  apply call_bind_ok in H as (u1 & c0 & [_ ->]%from_wire_ok & H). apply call_bind_ok in H as (u2 & c0 & [_ ->]%guard_ok & H).
  apply call_bind_ok in H as (o & c1 & Hl & H). apply call_bind_ok in H as (sensitive & c2 & [Hs ->]%from_wire_ok & H).
  apply send_typed_event_sent in H as (payload & He & Hsent).
  pose proof (len_nonneg bytes) as H0.
  destruct (upload_loop_writes _ _ _ sensitive _ _ _ _ _ (conj (Z.le_refl 0) H0) Hs Hl) as (-> & chunks & frames & Hc & Hf & Hb).
  exists sensitive, chunks, (frames ++ [mkFrame (transfer_header transfer_event_CLOSE sensitive) payload]).
  split_and!; [done|done|by eapply sent_app|]. rewrite List.filter_app. apply Hb. by exists payload.
Qed.
End uploads.
