(* ===== verification/NativeFramed.v ===== *)
(** * NativeFramed: the framed halves of a native client
      ([crates/client/src/native.rs], [NativeFrameSender] and [NativeFrameReader])

    After [into_framed] the reader listens to the stream and to the transport's
    datagrams at once. [input] is what arrives on either, in order; every
    arrival is handled before the next. The reader has its own copies of what the
    sequential client does with Core traffic, on its own fields and the sender's. *)

From S2P Require Import Prelude Ordered Schema Codec Kv FamilyLimits CodecFacts Wire Datagrams Frame FrameFacts FrameProps Transfer State Core CoreControl Native NativeFacts NativeInvariant NativeTransfer.

Inductive Input := OnStream (b : byte) | OnDatagram (bytes : list byte) | DatagramsClosed.

(** What the two halves share: the writer, its codec and the datagram sender. *)
Record NativeFrameSenderInner := mkSenderInner { fi_writer : Writer; fi_outbound : FrameCodec; fi_datagram : option Z }.

(** [nr_clock] is the readings of [started.elapsed()] to come. *)
Record NativeFrameReader := mkFrameReader {
  nr_input : list Input; nr_inbound : FrameCodec; nr_sender : NativeFrameSenderInner; nr_hello : ServerHello;
  nr_clock : list Z; nr_negotiated_codecs : list Z; nr_max_datagram : Z; nr_datagram : bool
}.

Definition nr_set_input (input : list Input) (r : NativeFrameReader) : NativeFrameReader :=
  mkFrameReader input (nr_inbound r) (nr_sender r) (nr_hello r) (nr_clock r) (nr_negotiated_codecs r) (nr_max_datagram r) (nr_datagram r).
Definition nr_set_sender (sender : NativeFrameSenderInner) (r : NativeFrameReader) : NativeFrameReader :=
  mkFrameReader (nr_input r) (nr_inbound r) sender (nr_hello r) (nr_clock r) (nr_negotiated_codecs r) (nr_max_datagram r) (nr_datagram r).
Definition nr_set_hello (hello : ServerHello) (r : NativeFrameReader) : NativeFrameReader :=
  mkFrameReader (nr_input r) (nr_inbound r) (nr_sender r) hello (nr_clock r) (nr_negotiated_codecs r) (nr_max_datagram r) (nr_datagram r).
Definition nr_set_clock (clock : list Z) (r : NativeFrameReader) : NativeFrameReader :=
  mkFrameReader (nr_input r) (nr_inbound r) (nr_sender r) (nr_hello r) clock (nr_negotiated_codecs r) (nr_max_datagram r) (nr_datagram r).
Definition nr_end_datagrams (r : NativeFrameReader) : NativeFrameReader :=
  mkFrameReader (nr_input r) (nr_inbound r) (nr_sender r) (nr_hello r) (nr_clock r) (nr_negotiated_codecs r) (nr_max_datagram r) false.

(** [input]: what is still to arrive, on the stream and beside it. Parked
    frames are dropped with the client. *)
Definition into_framed (input : list Input) (c : NativeClient) : NativeFrameReader :=
  let x := nc_session c in
  mkFrameReader input (nc_inbound c) (mkSenderInner (cx_writer x) (cx_outbound x) (nc_datagram c)) (cx_hello x) (cx_clock x)
    (cx_negotiated_codecs x) (rl_max_datagram (nc_local_receive c)) (is_some (nc_datagram c)).

(** How a branch of [select!] completes. *)
Inductive Race (A : Type) :=
  | FromStream (r : result ClientError A)
  | FromDatagram (bytes : list byte)
  | DatagramsEnded.
Arguments FromStream {A} r.
Arguments FromDatagram {A} bytes.
Arguments DatagramsEnded {A}.

(** [read_exact] raced with [receiver.recv()]: when a datagram comes first the
    read is dropped, and the bytes it had taken with it. *)
Fixpoint race_exact (listening : bool) (n : nat) (input : list Input) {struct input} : Race (list byte) * list Input :=
  match n with
  | O => (FromStream (Ok []), input)
  | S n' =>
      match input with
      | [] => (FromStream (Err (Client_Disconnected "cannot read YAS frame")), [])
      | OnStream b :: rest =>
          match race_exact listening n' rest with
          | (FromStream (Ok bs), rest') => (FromStream (Ok (b :: bs)), rest')
          | other => other
          end
      | OnDatagram bytes :: rest => if listening then (FromDatagram bytes, rest) else race_exact listening n rest
      | DatagramsClosed :: rest => if listening then (DatagramsEnded, rest) else race_exact listening n rest
      end
  end.

(** [schema::net::event::DATAGRAM], [schema::surface::event::FRAME], [schema::media::event::FRAME] *)
Definition net_event_DATAGRAM : Z := 0x0000.
Definition surface_event_FRAME : Z := 0x0020.
Definition media_event_FRAME : Z := 0x0020.

Definition datagram_context (h : FrameHeader) : option DatagramContext :=
  if negb (bool_decide (fh_class h = Event)) then None
  else if (fh_family h =? family_NET) && (fh_kind h =? net_event_DATAGRAM) then Some NetNativeFlow
  else if (fh_family h =? family_SURFACE) && (fh_kind h =? surface_event_FRAME) then Some CtxSurfaceFrame
  else if (fh_family h =? family_MEDIA) && (fh_kind h =? media_event_FRAME) then Some CtxMediaFrame
  else None.

Section framed.
Context (compress : list byte → list byte) (decompress : list byte → Z → option (list byte)).

Definition decode_transport_datagram (codec : FrameCodec) (bytes : list byte) (maximum : Z) : option Frame :=
  match FrameCodec_decode decompress codec bytes with
  | Err _ => None
  | Ok probe =>
      context ← datagram_context (fr_header probe);
      match FrameCodec_decode_datagram decompress codec bytes maximum context with Ok f => Some f | Err _ => None end
  end.

(** [read_frame] raced with a datagram. *)
Definition race_frame (listening : bool) (codec : FrameCodec) (input : list Input) : Race Frame * list Input :=
  match race_exact listening 4 input with
  | (FromDatagram bytes, rest) => (FromDatagram bytes, rest)
  | (DatagramsEnded, rest) => (DatagramsEnded, rest)
  | (FromStream (Err e), rest) => (FromStream (Err e), rest)
  | (FromStream (Ok prefix), rest) =>
      let n := from_le prefix in
      match checked_add_u64 n 4 with
      | None => (FromStream (Err (client_protocol "YAS frame length overflow")), rest)
      | Some total =>
          if max_wire_frame (fc_limits codec) + 4 <? total then
            (FromStream (Err (client_protocol "YAS frame exceeds negotiated limit")), rest)
          else
            match race_exact listening (Z.to_nat n) rest with
            | (FromDatagram bytes, rest) => (FromDatagram bytes, rest)
            | (DatagramsEnded, rest) => (DatagramsEnded, rest)
            | (FromStream (Err e), rest) => (FromStream (Err e), rest)
            | (FromStream (Ok body), rest) =>
                let bytes := to_le 4 n ++ body in
                match FrameCodec_decode_stream decompress codec bytes with
                | Err e => (FromStream (Err (wire_error e)), rest)
                | Ok (frame, consumed) =>
                    if negb (consumed =? len bytes) then
                      (FromStream (Err (client_protocol "YAS decoder did not consume one complete frame")), rest)
                    else (FromStream (Ok frame), rest)
                end
            end
      end
  end.

(** One turn of the loop up to the frame: [None] is [continue]. *)
Definition framed_arrival : call NativeFrameReader (option (Frame * bool)) := fun r =>
  let (raced, rest) := race_frame (nr_datagram r) (nr_inbound r) (nr_input r) in
  let r := nr_set_input rest r in
  match raced with
  | FromStream (Err e) => (Err e, r)
  | FromStream (Ok frame) => (Ok (Some (frame, false)), r)
  | DatagramsEnded => (Ok None, nr_end_datagrams r)
  | FromDatagram bytes =>
      match decode_transport_datagram (nr_inbound r) bytes (nr_max_datagram r) with
      | None => (Ok None, r)
      | Some frame => (Ok (Some (frame, true)), r)
      end
  end.

(** *** Sending: [NativeFrameSender] *)

(** [NativeFrameSender::send] *)
Definition sender_send (frame : Frame) : call NativeFrameSenderInner () := fun inner =>
  match FrameCodec_encode_stream compress (fi_outbound inner) frame with
  | Err e => (Err (wire_error e), inner)
  | Ok bytes =>
      let (r, w) := write_all bytes (fi_writer inner) in (r, mkSenderInner w (fi_outbound inner) (fi_datagram inner))
  end.

(** A sender's call, made with the reader's handle of it. *)
Definition framed_send (frame : Frame) : call NativeFrameReader () := fun r =>
  let (res, inner) := sender_send frame (nr_sender r) in (res, nr_set_sender inner r).

Definition replace_codec (codec : FrameCodec) (inner : NativeFrameSenderInner) : NativeFrameSenderInner :=
  mkSenderInner (fi_writer inner) codec (fi_datagram inner).

(** *** Core traffic, as [NativeFrameReader] handles it *)

Definition framed_elapsed_ns : call NativeFrameReader Z := fun r =>
  match nr_clock r with
  | [] => (Ok 0, r)
  | t :: clock => (Ok t, nr_set_clock clock r)
  end.

Definition framed_monotonic_ns : call NativeFrameReader Z :=
  t ← framed_elapsed_ns; mret (default U64_MAX (if t <=? U64_MAX then Some t else None)).

Definition framed_answer_ping (frame : Frame) : call NativeFrameReader () :=
  request_id ← from_result (ok_or (fh_request_id (fr_header frame)) (client_protocol "YAS PING Request has no request ID"));
  _ ← from_wire (decode (fr_payload frame) : result Error Ping);
  receive_ns ← framed_monotonic_ns;
  send_ns ← framed_monotonic_ns;
  let result := mkPingResult receive_ns (Z.max send_ns receive_ns) in
  body ← from_wire (encode result);
  payload ← from_wire (encode (mkResultPrefix Status_Ok [] body));
  framed_send (mkFrame (FrameHeader_result family_CORE core_request_PING request_id) payload).

Definition framed_apply_session_update (payload : list byte) : call NativeFrameReader () := fun r =>
  match (update ← map_err wire_error (decode payload : result Error SessionUpdate);
         step ← map_err wire_error
                  (SessionUpdate_validate_after update (hs_catalog_revision (nr_hello r)) (hs_receive (nr_hello r)));
         _ ← reject_if (bool_decide (step = Gap)) (client_protocol "YAS catalogue jumped; reconnect required");
         codec ← map_err wire_error
                   (FrameCodec_new (mkLimits (rl_max_frame (su_receive update)) (rl_max_decoded (su_receive update)))
                      (nr_negotiated_codecs r));
         Ok (update, codec)) with
  | Err e => (Err e, r)
  | Ok (update, codec) =>
      let r := nr_set_sender (replace_codec codec (nr_sender r)) r in
      let r := nr_set_hello (hs_set_receive (su_receive update) (nr_hello r)) r in
      (Ok (), nr_set_hello (hs_set_catalog_revision (su_catalog_revision update) (nr_hello r)) r)
  end.

(** [families.iter_mut().find(..)]: the descriptors before the one found, it, and those behind. *)
Fixpoint find_descriptor (family_id : Z) (before families : list FamilyDescriptor) :
    option (list FamilyDescriptor * FamilyDescriptor * list FamilyDescriptor) :=
  match families with
  | [] => None
  | d :: families =>
      if fd_family_id d =? family_id then Some (before, d, families) else find_descriptor family_id (before ++ [d]) families
  end.

Definition framed_apply_family_update (payload : list byte) : call NativeFrameReader () := fun r =>
  match (update ← map_err wire_error (decode payload : result Error FamilyUpdate);
         found ← ok_or (find_descriptor (fd_family_id (fu_family update)) [] (hs_families (nr_hello r)))
                   (client_protocol "YAS FAMILY_UPDATE introduced unknown family; reconnect required");
         let '(before, descriptor, after) := found in
         step ← map_err wire_error (FamilyUpdate_validate_after update (hs_catalog_revision (nr_hello r)) descriptor);
         _ ← reject_if (bool_decide (step = Gap)) (client_protocol "YAS catalogue jumped; reconnect required");
         Ok (update, before ++ fu_family update :: after)) with
  | Err e => (Err e, r)
  | Ok (update, families) =>
      let r := nr_set_hello (hs_set_families families (nr_hello r)) r in
      (Ok (), nr_set_hello (hs_set_catalog_revision (fu_catalog_revision update) (nr_hello r)) r)
  end.

(** What [next_with_source] does with a frame: [None] is [continue]. *)
Definition framed_service (frame : Frame) : call NativeFrameReader (option Frame) :=
  if is_frame Request family_CORE core_request_PING frame then _ ← framed_answer_ping frame; mret None
  else if bool_decide (fh_class (fr_header frame) = Request) then
    raise (client_protocol "YAS server sent an unsupported peer Request")
  else if is_frame Event family_CORE core_event_GOAWAY frame then
    goaway ← from_wire (decode (fr_payload frame) : result Error GoAway);
    raise (Client_GoAway goaway)
  else if is_frame Event family_CORE core_event_SESSION_UPDATE frame then
    _ ← framed_apply_session_update (fr_payload frame); mret None
  else if is_frame Event family_CORE core_event_FAMILY_UPDATE frame then
    _ ← framed_apply_family_update (fr_payload frame); mret None
  else mret (Some frame).

(** A turn takes an arrival: one round more than there are is never used up. *)
Fixpoint next_with_source_loop (fuel : nat) : call NativeFrameReader (Frame * bool) :=
  match fuel with
  | O => raise Client_Closed
  | S fuel' =>
      arrival ← framed_arrival;
      match arrival with
      | None => next_with_source_loop fuel'
      | Some (frame, datagram) =>
          kept ← framed_service frame;
          match kept with Some frame => mret (frame, datagram) | None => next_with_source_loop fuel' end
      end
  end.

Definition next_with_source : call NativeFrameReader (Frame * bool) := fun r =>
  next_with_source_loop (S (length (nr_input r))) r.

(** [NativeFrameReader::next] *)
Definition framed_next : call NativeFrameReader Frame :=
  p ← next_with_source; mret (fst p).

(** ** The framed reader's Core traffic is the sequential client's

    The reader has a session of its own, spread over its fields; what it does to it is what the
    sequential client does to its [Session]. *)

Definition nr_session (r : NativeFrameReader) : Session :=
  mkSession (fi_writer (nr_sender r)) (fi_outbound (nr_sender r)) (nr_hello r) (nr_clock r) (nr_negotiated_codecs r).

Definition nr_set_session (x : Session) (r : NativeFrameReader) : NativeFrameReader :=
  mkFrameReader (nr_input r) (nr_inbound r) (mkSenderInner (cx_writer x) (cx_outbound x) (fi_datagram (nr_sender r)))
    (cx_hello x) (cx_clock x) (cx_negotiated_codecs x) (nr_max_datagram r) (nr_datagram r).

Definition on_frame_session {A} (m : call Session A) : call NativeFrameReader A := fun r =>
  let (res, x) := m (nr_session r) in (res, nr_set_session x r).

Lemma nr_set_session_id r : nr_set_session (nr_session r) r = r.
Proof. by destruct r as [? ? [] ? ? ? ? ?]. Qed.

Lemma nr_session_set x r : nr_session (nr_set_session x r) = x.
Proof. by destruct x. Qed.

(** [m'] does to the reader what [m] does to the session. *)
Definition copies {A} (m' : call NativeFrameReader A) (m : call Session A) : Prop := ∀ r, m' r = on_frame_session m r.

Lemma copies_ret {A} (a : A) : copies (mret a) (mret a).
Proof. intros r. unfold on_frame_session. cbn. by rewrite nr_set_session_id. Qed.
Lemma copies_raise {A} e : copies (raise e : call NativeFrameReader A) (raise e).
Proof. intros r. unfold on_frame_session. cbn. by rewrite nr_set_session_id. Qed.
Lemma copies_result {A} (x : result ClientError A) : copies (from_result x) (from_result x).
Proof. intros r. unfold on_frame_session. cbn. by rewrite nr_set_session_id. Qed.
Lemma copies_wire {A} (x : result Error A) : copies (from_wire x) (from_wire x).
Proof. apply copies_result. Qed.
Lemma copies_bind {A B} (m' : call NativeFrameReader A) m (k' : A → call NativeFrameReader B) k :
  copies m' m → (∀ a, copies (k' a) (k a)) → copies (m' ≫= k') (m ≫= k).
Proof.
  intros Hm Hk r. rewrite call_bind_eq, Hm. unfold on_frame_session. rewrite call_bind_eq.
  destruct (m (nr_session r)) as [[a|e] x]; [|done]. rewrite Hk. unfold on_frame_session.
  rewrite nr_session_set. by destruct (k a x) as [res y].
Qed.
#[local] Hint Resolve copies_ret copies_raise copies_result copies_wire copies_bind : yas.

Lemma framed_send_copies frame : copies (framed_send frame) (send compress frame).
Proof.
  intros [input inbound [w codec dg] hello clock codecs mx d]. unfold framed_send, on_frame_session, sender_send, send, nr_session.
  cbn [nr_sender fi_outbound fi_writer cx_outbound cx_writer]. destruct (FrameCodec_encode_stream _ _ _); [|done]. by destruct (write_all _ _).
Qed.

Lemma framed_monotonic_ns_copies : copies framed_monotonic_ns monotonic_ns.
Proof.
  apply copies_bind.
  - intros [input inbound [w codec dg] hello clock codecs mx d]. by destruct clock.
  - intros t. destruct (t <=? U64_MAX); apply copies_ret.
Qed.

Lemma framed_answer_ping_copies frame : copies (framed_answer_ping frame) (answer_ping compress frame).
Proof.
  unfold framed_answer_ping, answer_ping. apply copies_bind; [by destruct (fh_request_id _); apply copies_result|]. intros id.
  repeat (apply copies_bind; [by auto using framed_monotonic_ns_copies with yas|intros ?]). apply framed_send_copies.
Qed.

Lemma framed_apply_session_update_copies payload : copies (framed_apply_session_update payload) (apply_session_update payload).
Proof.
  intros [input inbound [w codec dg] hello clock codecs mx d]. unfold framed_apply_session_update, apply_session_update, on_frame_session, nr_session.
  cbn [nr_hello nr_negotiated_codecs nr_sender fi_writer fi_outbound].
  rewrite call_bind_eq. unfold from_wire at 1, from_result at 1. destruct (decode payload : result Error SessionUpdate) as [update|e]; [|done]. cbn [map_err mbind result_bind].
  rewrite call_bind_eq. cbn [gets]. cbn [cx_hello]. rewrite call_bind_eq. unfold from_wire at 1, from_result at 1.
  destruct (SessionUpdate_validate_after _ _ _) as [step|e]; [|done]. cbn [map_err mbind result_bind].
  rewrite call_bind_eq. unfold guard_. destruct (bool_decide (step = Gap)); [done|]. cbn [reject_if mbind result_bind mret call_ret].
  rewrite call_bind_eq. cbn [gets cx_negotiated_codecs]. rewrite call_bind_eq. unfold from_wire, from_result.
  by destruct (FrameCodec_new _ _) as [c|e].
Qed.

Lemma find_descriptor_spec id families : ∀ before,
  match find_descriptor id before families with
  | Some (b, d, a) => find_first (λ d, fd_family_id d =? id) families = Some d
      ∧ ∀ family, fd_family_id family = id → b ++ family :: a = before ++ replace_family family families
  | None => find_first (λ d, fd_family_id d =? id) families = None
  end.
Proof.
  induction families as [|d families IH]; intros before; cbn [find_descriptor find_first]; [done|].
  destruct (fd_family_id d =? id) eqn:E.
  - split; [done|]. intros family <-. cbn [replace_family]. by rewrite E.
  - specialize (IH (before ++ [d])). destruct (find_descriptor id (before ++ [d]) families) as [[[b d'] a]|]; [|done].
    destruct IH as [Hf Hr]. split; [done|]. intros family <-. rewrite Hr by done. cbn [replace_family]. by rewrite E, <- app_assoc.
Qed.

Lemma framed_apply_family_update_copies payload : copies (framed_apply_family_update payload) (apply_family_update payload).
Proof.
  intros [input inbound [w codec dg] hello clock codecs mx d]. unfold framed_apply_family_update, apply_family_update, on_frame_session, nr_session.
  cbn [nr_hello nr_sender fi_writer fi_outbound nr_clock nr_negotiated_codecs].
  rewrite call_bind_eq. unfold from_wire at 1, from_result at 1. destruct (decode payload : result Error FamilyUpdate) as [update|e]; [|done]. cbn [map_err mbind result_bind].
  rewrite call_bind_eq. cbn [gets cx_hello]. rewrite call_bind_eq. unfold from_result at 1, find_family.
  pose proof (find_descriptor_spec (fd_family_id (fu_family update)) (hs_families hello) []) as Hf.
  destruct (find_descriptor _ _ _) as [[[before descriptor] after]|]; [destruct Hf as [-> Hr]|by rewrite Hf]. cbn [ok_or mbind result_bind].
  rewrite call_bind_eq. unfold from_wire, from_result. destruct (FamilyUpdate_validate_after _ _ _) as [step|e]; [|done]. cbn [map_err mbind result_bind].
  rewrite call_bind_eq. unfold guard_. destruct (bool_decide (step = Gap)); [done|]. cbn [reject_if mbind result_bind mret call_ret].
  unfold modify. cbn. by rewrite Hr.
Qed.

Lemma framed_service_copies frame : copies (framed_service frame) (service compress frame).
Proof.
  unfold framed_service, service.
  repeat (match goal with |- copies (if ?b then _ else _) _ => destruct b end);
    first [apply copies_raise | apply copies_ret | apply copies_bind; [|intros ?]];
    auto using framed_answer_ping_copies, framed_apply_session_update_copies, framed_apply_family_update_copies with yas.
Qed.

(** ** Turns take arrivals *)

Lemma race_exact_shrinks listening n input r rest :
  race_exact listening n input = (r, rest) →
  r ≠ FromStream (Err Client_Closed) ∧ (length rest <= length input)%nat ∧
  match r with
  | FromStream (Ok bs) => length bs = n ∧ (length rest + n <= length input)%nat
  | FromStream (Err _) => True
  | _ => (length rest < length input)%nat
  end.
Proof.
  revert n r rest. induction input as [|x input IH]; intros [|n] r rest H; cbn [race_exact] in H.
  1,3: injection H as <- <-; split_and!; [done|done|done|cbn; lia].
  - injection H as <- <-. done.
  - destruct x as [b|bytes|].
    + destruct (race_exact listening n input) as [r1 rest1] eqn:E. apply IH in E as (H1 & H2 & H3). cbn [length].
      destruct r1 as [[bs|e]|bytes|]; injection H as <- <-; split_and!; first [done | lia | destruct H3; cbn [length]; lia].
    + destruct listening; [injection H as <- <-; cbn [length]; split_and!; [done|lia|lia]|].
      apply IH in H as (H1 & H2 & H3). cbn [length]. split_and!; [done|lia|]. destruct r as [[bs|e]|bs|]; first [lia | done | split; [apply H3|lia]].
    + destruct listening; [injection H as <- <-; cbn [length]; split_and!; [done|lia|lia]|].
      apply IH in H as (H1 & H2 & H3). cbn [length]. split_and!; [done|lia|]. destruct r as [[bs|e]|bs|]; first [lia | done | split; [apply H3|lia]].
Qed.

Ltac leave := intros [= <- <-]; split_and!; first [lia | done | by intros [= ->] | idtac].

Lemma race_frame_shrinks listening codec input r rest :
  race_frame listening codec input = (r, rest) →
  r ≠ FromStream (Err Client_Closed) ∧ (length rest <= length input)%nat ∧
  match r with FromStream (Err _) => True | _ => (length rest < length input)%nat end.
Proof.
  unfold race_frame. destruct (race_exact listening 4 input) as [r1 rest1] eqn:E1.
  apply race_exact_shrinks in E1 as (C1 & L1 & S1).
  destruct r1 as [[prefix|e]|bytes|]; [|leave..].
  destruct (checked_add_u64 _ 4) as [total|]; [|leave].
  destruct (_ <? total); [leave|].
  destruct (race_exact listening (Z.to_nat (from_le prefix)) rest1) as [r2 rest2] eqn:E2.
  apply race_exact_shrinks in E2 as (C2 & L2 & S2).
  destruct r2 as [[body|e]|bytes|]; [|leave..].
  destruct (FrameCodec_decode_stream _ _ _) as [[f consumed]|e]; [|leave].
  destruct (negb _); leave.
Qed.

Lemma framed_arrival_shrinks r a r' :
  framed_arrival r = (Ok a, r') → (length (nr_input r') < length (nr_input r))%nat.
Proof.
  unfold framed_arrival. destruct (race_frame _ _ _) as [raced rest] eqn:E. apply race_frame_shrinks in E as (_ & _ & S).
  destruct raced as [[f|e]|bytes|]; [by intros [= <- <-]|done| |by intros [= <- <-]].
  destruct (decode_transport_datagram _ _ _); by intros [= <- <-].
Qed.
Lemma framed_arrival_ends r : ends_at framed_arrival r.
Proof.
  unfold ends_at, framed_arrival. destruct (race_frame _ _ _) as [raced rest] eqn:E. apply race_frame_shrinks in E as (C & _ & _).
  destruct raced as [[f|e]|bytes|]; [done|cbn; congruence| |done]. by destruct (decode_transport_datagram _ _ _).
Qed.

Lemma on_frame_session_input {A} (m : call Session A) r a r' :
  on_frame_session m r = (a, r') → nr_input r' = nr_input r.
Proof. unfold on_frame_session. destruct (m (nr_session r)). by intros [= _ <-]. Qed.
Lemma on_frame_session_ends {A} (m : call Session A) r : ends_at m (nr_session r) → ends_at (on_frame_session m) r.
Proof. unfold ends_at, on_frame_session. by destruct (m (nr_session r)). Qed.

Lemma next_with_source_loop_ends fuel r : (length (nr_input r) < fuel)%nat → ends_at (next_with_source_loop fuel) r.
Proof.
  revert r. induction fuel as [|fuel IH]; intros r Hf; [lia|]. cbn [next_with_source_loop].
  apply ends_bind; [apply framed_arrival_ends|]. intros [[f dg]|] r1 Ha%framed_arrival_shrinks; [|apply IH; lia].
  apply ends_bind; [unfold ends_at; rewrite framed_service_copies; apply on_frame_session_ends, service_ends|].
  intros [g|] r2 Hs; rewrite framed_service_copies in Hs; apply on_frame_session_input in Hs; [apply ends_ret|].
  apply IH. rewrite Hs. lia.
Qed.
Lemma next_with_source_ends r : ends_at next_with_source r.
Proof. apply (next_with_source_loop_ends (S (length (nr_input r)))). lia. Qed.

(** ** The session is kept *)

Definition keeps_framed (request : ClientHello) (r r' : NativeFrameReader) : Prop :=
  Agreed request (nr_session r) → Agreed request (nr_session r') ∧ Evolves (nr_session r) (nr_session r').
#[local] Instance keeps_framed_rel request : CallRel NativeFrameReader (keeps_framed request).
Proof.
  split.
  - intros r H. split; [done|apply evolves_refl].
  - intros r1 r2 r3 H1 H2 H. destruct (H1 H) as [Ha Hb]. destruct (H2 Ha) as [Hc Hd]. split; [done|]. by eapply evolves_trans.
Qed.

Lemma on_frame_session_keeps request {A} (m : call Session A) :
  follows (keeps_agreement request) m → follows (keeps_framed request) (on_frame_session m).
Proof. intros Hm r H. pose proof (Hm (nr_session r) H). unfold on_frame_session. destruct (m (nr_session r)) as [res x]. cbn [snd]. by rewrite nr_session_set. Qed.

Lemma framed_arrival_session r : nr_session (framed_arrival r).2 = nr_session r.
Proof.
  unfold framed_arrival. destruct (race_frame _ _ _) as [[[f|e]|bytes|] rest]; try done.
  by destruct (decode_transport_datagram _ _ _).
Qed.
Lemma framed_arrival_keeps request : follows (keeps_framed request) framed_arrival.
Proof. intros r H. rewrite framed_arrival_session. split; [done|apply evolves_refl]. Qed.

Lemma next_with_source_keeps request : follows (keeps_framed request) next_with_source.
Proof.
  intros r. unfold next_with_source. generalize (S (length (nr_input r))) as fuel. intros fuel. revert r.
  change (follows (keeps_framed request) (next_with_source_loop fuel)).
  assert (∀ frame, follows (keeps_framed request) (framed_service frame)) as Hs.
  { intros frame r. rewrite framed_service_copies. apply (on_frame_session_keeps request (service compress frame)), service_keeps. }
  induction fuel as [|fuel IH]; cbn [next_with_source_loop]; follow; auto using framed_arrival_keeps.
Qed.

(** ** Without datagrams the framed reader is the sequential one *)

Lemma race_exact_stream listening n bs :
  ∃ rest, race_exact listening n (map OnStream bs) = (FromStream (read_exact false n (map Arrived bs)).1, map OnStream rest)
    ∧ (read_exact false n (map Arrived bs)).2 = map Arrived rest.
Proof.
  revert n. induction bs as [|b bs IH]; intros [|n]; cbn [race_exact read_exact map].
  - by exists [].
  - by exists [].
  - by exists (b :: bs).
  - destruct (IH n) as (rest & Hr & Hs). rewrite Hr. destruct (read_exact false n (map Arrived bs)) as [[x|e] y]; cbn [fst snd] in *; by exists rest.
Qed.

Lemma race_frame_stream listening codec bs :
  ∃ rest, race_frame listening codec (map OnStream bs) = (FromStream (read_frame decompress false codec (map Arrived bs)).1, map OnStream rest)
    ∧ (read_frame decompress false codec (map Arrived bs)).2 = map Arrived rest.
Proof.
  unfold race_frame, read_frame. destruct (race_exact_stream listening 4 bs) as (r1 & -> & H1).
  destruct (read_exact false 4 (map Arrived bs)) as [[prefix|e] y]; cbn [fst snd] in *; subst y; [|by exists r1].
  destruct (checked_add_u64 _ 4); [|by exists r1]. destruct (_ <? _); [by exists r1|].
  destruct (race_exact_stream listening (Z.to_nat (from_le prefix)) r1) as (r2 & -> & H2).
  destruct (read_exact false _ (map Arrived r1)) as [[body|e] y]; cbn [fst snd] in *; subst y; [|by exists r2].
  destruct (FrameCodec_decode_stream _ _ _) as [[f n]|e]; [|by exists r2]. destruct (negb _); by exists r2.
Qed.

(** The framed reader and the sequential client at the same point of a stream, field by field. *)
Definition same_point (r : NativeFrameReader) (c : NativeClient) : Prop :=
  fi_writer (nr_sender r) = cx_writer (nc_session c) ∧ fi_outbound (nr_sender r) = cx_outbound (nc_session c)
  ∧ nr_hello r = nc_hello c ∧ nr_clock r = cx_clock (nc_session c) ∧ nr_negotiated_codecs r = cx_negotiated_codecs (nc_session c)
  ∧ nr_inbound r = nc_inbound c ∧ ∃ bs, nr_input r = map OnStream bs ∧ nc_reader c = map Arrived bs.

Lemma same_point_session r c :
  same_point r c ↔ nr_session r = nc_session c ∧ nr_inbound r = nc_inbound c ∧ ∃ bs, nr_input r = map OnStream bs ∧ nc_reader c = map Arrived bs.
Proof.
  unfold same_point, nr_session, nc_hello. destruct (nc_session c) as [w o h k n]. cbn. split.
  - by intros (-> & -> & -> & -> & -> & Hi & Hb).
  - intros ([= -> -> -> -> ->] & Hi & Hb). by split_and!.
Qed.

Lemma next_with_source_sequential r c :
  same_point r c →
  same_point (next_with_source r).2 (read_next compress decompress false c).2
  ∧ (next_with_source r).1 = match (read_next compress decompress false c).1 with Ok f => Ok (f, false) | Err e => Err e end.
Proof.
  unfold next_with_source, read_next. intros H. assert (length (nr_input r) = length (nc_reader c)) as ->.
  { apply same_point_session in H as (_ & _ & bs & -> & ->). by rewrite !length_map. }
  generalize (S (length (nc_reader c))) as fuel. intros fuel. revert r c H.
  induction fuel as [|fuel IH]; intros r c H; [by split|]. cbn [next_with_source_loop read_next_loop].
  rewrite !call_bind_eq. apply same_point_session in H as (Hs & Hi & bs & Hr & Hc). unfold framed_arrival, next_frame.
  rewrite Hi, Hr, Hc. destruct (race_frame_stream (nr_datagram r) (nc_inbound c) bs) as (rest & -> & Hrest).
  destruct (read_frame decompress false (nc_inbound c) (map Arrived bs)) as [[f|e] y]; cbn [fst snd] in *; subst y.
  2: { split; [|done]. apply same_point_session. split_and!; try done. by exists rest. }
  rewrite !call_bind_eq, framed_service_copies. unfold on_frame_session, on_session. cbn [nc_session nc_set_reader].
  change (nr_session (nr_set_input (map OnStream rest) r)) with (nr_session r). rewrite Hs.
  destruct (service compress f (nc_session c)) as [[[k|]|e] x].
  - split; [|done]. apply same_point_session. split_and!; [by destruct x|done|]. by exists rest.
  - apply IH. apply same_point_session. split_and!; [by destruct x|done|]. by exists rest.
  - split; [|done]. apply same_point_session. split_and!; [by destruct x|done|]. by exists rest.
Qed.

(** ** A datagram in the middle of a frame *)

Lemma race_exact_interrupted n b1 bytes rest :
  (length b1 < n)%nat → race_exact true n (map OnStream b1 ++ OnDatagram bytes :: rest) = (FromDatagram bytes, rest).
Proof.
  revert n. induction b1 as [|b b1 IH]; intros [|n] H; cbn [length] in H; try lia; cbn [map app race_exact]; [done|].
  by rewrite IH by lia.
Qed.
Lemma race_exact_taken listening n b1 rest :
  length b1 = n → race_exact listening n (map OnStream b1 ++ rest) = (FromStream (Ok b1), rest).
Proof.
  intros <-. induction b1 as [|b b1 IH]; cbn [map app length race_exact]; [by destruct rest|]. by rewrite IH.
Qed.

(** The bytes of the frame that had arrived are gone: the reader goes on in the
    middle of it. *)
Lemma datagram_drops_prefix r codec f b1 b2 bytes rest :
  FrameCodec_wf codec → FrameCodec_encode_stream compress codec f = Ok (b1 ++ b2) → b2 ≠ [] → nr_inbound r = codec →
  nr_datagram r = true → decode_transport_datagram codec bytes (nr_max_datagram r) = None →
  framed_arrival (nr_set_input (map OnStream b1 ++ OnDatagram bytes :: rest) r) = (Ok None, nr_set_input rest r).
Proof.
  intros Hw He Hb Hc Hd Hn. unfold framed_arrival. cbn [nr_set_input nr_datagram nr_inbound nr_input]. rewrite Hd, Hc.
  assert (race_frame true codec (map OnStream b1 ++ OnDatagram bytes :: rest) = (FromDatagram bytes, rest)) as ->.
  - apply FrameCodec_encode_stream_ok in He as (body & Hbody & He); [|done].
    pose proof (FrameCodec_wf_bounds codec Hw) as [B1 _]. apply FrameCodec_encode_ok in Hbody as (_ & _ & _ & Hl); [|done].
    unfold race_frame. destruct (Nat.lt_ge_cases (length b1) 4) as [H4|H4]; [by rewrite race_exact_interrupted|].
    unfold lp32 in He. assert (b1 = to_le 4 (len body) ++ drop 4 b1 ∧ body = drop 4 b1 ++ b2) as [E1 E2].
    { apply (f_equal (drop 4)) in He as E2. rewrite drop_app_le, drop_app_length' in E2 by (rewrite ?length_to_le; lia).
      apply (f_equal (take 4)) in He as E3. rewrite take_app_le, take_app_length' in E3 by (rewrite ?length_to_le; lia).
      split; [|done]. by rewrite <- E3, take_drop. }
    rewrite E1, map_app, <- app_assoc. rewrite race_exact_taken by by rewrite length_to_le.
    pose proof (len_nonneg body). rewrite from_to_le by lia. unfold checked_add_u64.
    destruct (Z.leb_spec (len body + 4) U64_MAX); [|unfold U64_MAX in *; lia].
    destruct (Z.ltb_spec (max_wire_frame (fc_limits codec) + 4) (len body + 4)); [lia|].
    rewrite race_exact_interrupted; [done|]. rewrite to_nat_len, E2, length_app. destruct b2; [done|]. cbn [length]. 
    rewrite length_drop. lia.
  - cbn [nr_set_input nr_inbound nr_max_datagram]. rewrite Hn. by destruct r.
Qed.
End framed.
