(* ===== verification/NativeProps.v ===== *)
(** * NativeProps: what the native client guarantees
      ([crates/client/src/native.rs])

    The session's invariant over any calls, that every call returns, that
    requests and transfers complete on a well-formed stream, and how the framed
    reader relates to the sequential one. *)

From S2P Require Import Prelude Schema Codec CodecFacts Wire Datagrams Frame FrameFacts FrameProps Transfer TransferFacts State Ordered Kv FamilyLimits Core CoreControl CoreProps Native NativeFacts NativeInvariant NativeTransfer NativeUpload NativeFramed.

(** The calls of the client's API. *)
Inductive ClientCall :=
  | CallRequest (family_id kind : Z) (payload : list byte) (sensitive : bool)
  | CallSendEvent (family_id kind : Z) (payload : list byte) (sensitive : bool)
  | CallNextEvent
  | CallNextMatching (family_id kind : Z)
  | CallSnapshot (family_id : Z)
  | CallDownload (d : Descriptor) (expected : option Z) (maximum : Z)
  | CallDelivery (value : InlineOrTransfer) (maximum : Z)
  | CallMessages (d : Descriptor) (maximum_bytes maximum_messages : Z)
  | CallUpload (d : Descriptor) (bytes : list byte).

(** What it returned, answers only told apart by success. *)
Definition forget {A} (m : call NativeClient A) : call NativeClient () := _ ← m; mret ().

Section props.
Context (compress : list byte → list byte) (decompress : list byte → Z → option (list byte)) (blake3 : list byte → list byte).

Definition client_call (k : ClientCall) : call NativeClient () :=
  match k with
  | CallRequest family kind payload sensitive => forget (request compress decompress family kind payload sensitive)
  | CallSendEvent family kind payload sensitive => send_event compress family kind payload sensitive
  | CallNextEvent => forget (next_event compress decompress)
  | CallNextMatching family kind => forget (next_matching_event compress decompress false family kind)
  | CallSnapshot family => forget (snapshot compress decompress family)
  | CallDownload d expected maximum => forget (receive_byte_transfer compress decompress d expected maximum)
  | CallDelivery value maximum => forget (receive_inline_or_transfer compress decompress blake3 value maximum)
  | CallMessages d bytes messages => forget (receive_message_transfer compress decompress d bytes messages)
  | CallUpload d bytes => send_byte_transfer compress decompress d bytes
  end.

(** The client after a sequence of calls, whether they failed or not. *)
Definition run_calls (calls : list ClientCall) (c : NativeClient) : NativeClient :=
  foldl (λ c k, (client_call k c).2) c calls.

Lemma client_call_keeps request k : follows (keeps_client request) (client_call k).
Proof.
  destruct k; unfold client_call, forget; follow;
    auto using request_keeps, send_event_keeps, next_event_keeps, next_matching_event_keeps, snapshot_keeps,
      receive_byte_transfer_keeps, receive_inline_keeps, receive_message_transfer_keeps, send_byte_transfer_keeps.
Qed.

Lemma run_calls_keeps request calls c : keeps_client request c (run_calls calls c).
Proof.
  revert c. induction calls as [|k calls IH]; intros c; [apply rel_refl|].
  eapply rel_trans; [apply (client_call_keeps request k)|apply IH].
Qed.

Lemma wait_for_ends timed wanted c : ends_at (wait_for compress decompress timed wanted) c.
Proof. unfold ends_at. apply wait_for_spec. Qed.

(** Descriptors hold unsigned chunk limits. *)
Definition call_typed (k : ClientCall) : bool :=
  match k with CallUpload d _ => 0 <=? td_max_chunk_bytes d | _ => true end.

Lemma forget_ends {A} (m : call NativeClient A) c : ends_at m c → ends_at (forget m) c.
Proof. intros H. unfold forget. apply ends_bind; [done|]. intros. apply ends_ret. Qed.

Lemma client_call_ends k c : call_typed k = true → ends_at (client_call k) c.
Proof.
  destruct k; cbn [client_call call_typed]; intros Ht; try apply forget_ends.
  - apply request_ends.
  - apply send_event_ends.
  - apply next_event_ends.
  - apply wait_for_ends.
  - apply snapshot_ends.
  - apply receive_byte_transfer_ends.
  - apply receive_inline_ends.
  - apply receive_message_transfer_ends.
  - apply send_byte_transfer_ends. lia.
Qed.

(** C22: Whatever is called on a client that connected, and however the calls
    end, the session stays one the client's HELLO agreed to: the catalogue
    passes the client's validation, frames go out in the codec of the server's
    current limits and come in within the client's own, the parked frames are
    counted exactly and stay within the declared budget, request ids stay odd
    and above HELLO's; and relative to the start the server's identity, the
    families and their versions are the same, the catalogue revision and the
    frame limits never went back, and nothing written was taken back. *)
Theorem client_session_invariant platform instance clock transport options c :
  0 <= ho_receive_budget options →
  connect_transport compress decompress platform instance clock transport options = Some (Ok c) →
  ∃ hello, client_hello platform instance options (default 0 (tr_datagram transport)) = Ok hello
    ∧ ∀ calls, ClientOk hello (run_calls calls c) ∧ Evolves (nc_session c) (nc_session (run_calls calls c)).
Proof.
  intros Hb Hc. apply connect_ok in Hc as (hello & Hh & Hok); [|done]. exists hello. split; [done|].
  intros calls. by apply (run_calls_keeps hello calls c).
Qed.

(** C23: Every call of the client, sequential or framed, returns a result: the
    loops that read take at least one arrival a round, the upload loop sends
    at least a byte, and the rounds given are never used up ([Client_Closed]
    is raised nowhere else). *)
Theorem client_calls_end k c r :
  call_typed k = true →
  (client_call k c).1 ≠ Err Client_Closed ∧ (next_with_source compress decompress r).1 ≠ Err Client_Closed.
Proof. intros Ht. split; [by apply client_call_ends|apply next_with_source_ends]. Qed.

(** A Transfer upload that returns has written the whole of its bytes:
    among the frames written, those that are not answers to PING are BYTE_DATA
    of non-empty chunks, each within the chunk limit and at the offset where
    the last one stopped, and then CLOSE with the length; the chunks together
    are the bytes. *)
Theorem upload_writes_everything d bytes c c' :
  send_byte_transfer compress decompress d bytes c = (Ok (), c') →
  ∃ sensitive chunks frames, Descriptor_sensitive_content d = Ok sensitive ∧ concat chunks = bytes
    ∧ sent compress frames (nc_session c) (nc_session c')
    ∧ byte_frames d sensitive 0 chunks (List.filter (λ f, negb (is_pong f)) frames).
Proof. apply send_byte_transfer_writes. Qed.

(** C26: With no datagrams arriving, the framed reader hands out exactly what the
    sequential client would, and says it came on the stream; what its own
    copies of the PING answer, of SESSION_UPDATE and of FAMILY_UPDATE write
    through the shared sender, and do to the sender's codec, to its HELLO and to
    its clock, is what the sequential client's do to its own. *)
Theorem framed_reader_sequential r c :
  same_point r c →
  same_point (next_with_source compress decompress r).2 (read_next compress decompress false c).2
  ∧ (next_with_source compress decompress r).1
    = match (read_next compress decompress false c).1 with Ok f => Ok (f, false) | Err e => Err e end.
Proof. apply next_with_source_sequential. Qed.
End props.

Section completion.
Context (compress : list byte → list byte) (decompress : list byte → Z → option (list byte)).
Context (lz4_roundtrip : ∀ p, decompress (compress p) (len p) = Some p).
Context (lz4_bounded : ∀ z n p, decompress z n = Some p → len p <= n).

(** C24: A request whose frame could be written, answered after some events for
    other readers, returns the answer; the events are parked in order, for
    [next_event] to find, and what follows the answer stays on the stream. *)
Theorem request_completes family kind payload sensitive c x events answer prefix l bs rest :
  FrameCodec_wf (nc_inbound c) →
  send compress (mkFrame (set_sensitive sensitive (FrameHeader_request family kind (nc_next_request_id c))) payload) (nc_session c) = (Ok (), x) →
  Forall (λ f, passes f ∧ fh_class (fr_header f) = Event) events → arriving compress (nc_inbound c) events l →
  written compress (nc_inbound c) answer bs → is_result_of family kind (nc_next_request_id c) answer = true →
  decode (fr_payload answer) = Ok prefix → nc_reader c = l ++ map Arrived bs ++ rest → has_room events c →
  request_result compress decompress family kind payload sensitive c
  = (Ok prefix, nc_set_reader rest (park events (nc_set_session x (nc_set_next_request_id (following_request_id (nc_next_request_id c)) c)))).
Proof using lz4_roundtrip lz4_bounded.
  intros Hc Hs He Ha Hw Hr Hd Hread Hroom. unfold request_result. cbv zeta. rewrite call_bind_eq. cbn [modify].
  rewrite call_bind_eq. unfold on_session. cbn [nc_session nc_set_next_request_id]. rewrite Hs.
  eapply result_loop_events; try done. apply arriving_length in Ha. rewrite Hread, length_app. lia.
Qed.

(** C25: A download whose chunks arrive, between other events, as BYTE_DATA and
    CLOSE within the collection limit, returns exactly the bytes the chunks
    make up; the other events are parked in order and what follows CLOSE stays
    on the stream. *)
Theorem download_completes d sensitive expected maximum chunks groups c c1 l rest :
  Descriptor_validate d = Ok () → td_mode d = ModeByte → td_direction d = SENDER_TO_RECEIVER → is_u32 (td_transfer_id d) →
  Descriptor_sensitive_content d = Ok sensitive → 0 < maximum <= U64_MAX → len (concat chunks) <= maximum →
  (expected = None ∨ expected = Some (len (concat chunks))) →
  grant_credit compress (td_transfer_id d) (td_sender_send_credit d) maximum c = (Ok (), c1) →
  FrameCodec_wf (nc_inbound c) → byte_frames d sensitive 0 chunks (map snd groups) →
  Forall (λ g, of_transfer (td_transfer_id d) g = false) (nc_pending c) →
  Forall (λ g, passes g ∧ of_transfer (td_transfer_id d) g = false) (group_others groups) →
  arriving compress (nc_inbound c) (group_frames groups) l → nc_reader c = l ++ rest → has_room (group_others groups) c →
  receive_byte_transfer compress decompress d expected maximum c
  = (Ok (concat chunks), nc_set_reader rest (park (group_others groups) c1)).
Proof using lz4_roundtrip lz4_bounded. by apply receive_byte_transfer_frames. Qed.
End completion.

(** * The native client's theorems on concrete sessions

    Stored blocks stand for LZ4, as in [FrameProps]. *)

(** What the peer writes for a frame. *)
Definition on_wire (f : Frame) : list byte :=
  match FrameCodec_encode_stream stored lz4_codec f with Ok bs => bs | Err _ => [] end.

Lemma on_wire_written f :
  FrameHeader_wf (fr_header f) → is_ok (FrameCodec_encode_stream stored lz4_codec f) = true → written stored lz4_codec f (on_wire f).
Proof.
  intros Hw H. split; [done|]. unfold on_wire. by destruct (FrameCodec_encode_stream stored lz4_codec f).
Qed.

Lemma arriving_on_wire frames :
  Forall (λ f, written stored lz4_codec f (on_wire f)) frames →
  arriving stored lz4_codec frames (map Arrived (concat (map on_wire frames))).
Proof.
  intros H. exists (map on_wire frames). split; [|done]. induction H as [|f frames Hf _ IH]; by constructor.
Qed.

(** ** Connecting to [example_server] *)

Definition example_options : HelloOptions :=
  mkHelloOptions (bytes_of [116]) [] (Some [family_TRANSFER; family_KV]) [] false None transport_RECOMMENDED_BUFFERED.
Definition example_platform : Platform := mkPlatform (bytes_of [108]) (bytes_of [120]) [].

Definition ok_bytes (r : result Error (list byte)) : list byte := match r with Ok bs => bs | Err _ => [] end.

Definition hello_answer : Frame :=
  mkFrame (FrameHeader_result family_CORE core_request_HELLO HELLO_REQUEST_ID)
    (ok_bytes (encode (mkResultPrefix Status_Ok [] (ok_bytes (encode example_server))))).

Definition example_link : Transport :=
  mkTransport
    (map Arrived (match FrameCodec_pre_hello with Some codec => ok_bytes (FrameCodec_encode_stream stored codec hello_answer) | None => [] end))
    (mkWriter [] 4096) None.

Definition example_session : Session :=
  mkSession (mkWriter [] 4096) lz4_codec example_server [10; 12] [LZ4_CODEC].
Definition example_native : NativeClient :=
  mkNative [] example_session None lz4_codec [] 0 (ReceiveLimits_recommended 0) 3.

Definition connection : option (result ClientError NativeClient) :=
  connect_transport stored unstored example_platform (zeros 16) [10; 12] example_link example_options.
Definition connected : NativeClient :=
  match connection with Some (Ok c) => c | _ => example_native end.

Lemma connected_eq : connection = Some (Ok connected).
Proof.
  unfold connected. assert (match connection with Some (Ok _) => true | _ => false end = true) as H by (vm_compute; reflexivity).
  by destruct connection as [[c|e]|].
Qed.

Lemma client_session_invariant_witness :
  0 <= ho_receive_budget example_options ∧ connection = Some (Ok connected)
  ∧ ∃ hello, ∀ calls, ClientOk hello (run_calls stored unstored stored calls connected).
Proof.
  assert (0 <= ho_receive_budget example_options) as Hb by (vm_compute; discriminate).
  split; [exact Hb|]. split; [exact connected_eq|].
  destruct (client_session_invariant stored unstored stored example_platform (zeros 16) [10; 12] example_link example_options connected Hb connected_eq) as (hello & _ & Hc).
  exists hello. intros calls. exact (proj1 (Hc calls)).
Defined.

Lemma client_calls_end_witness :
  call_typed (CallNextEvent) = true ∧ (client_call stored unstored stored CallNextEvent example_native).1 ≠ Err Client_Closed.
Proof.
  split; [reflexivity|].
  exact (proj1 (client_calls_end stored unstored stored CallNextEvent example_native (into_framed [] example_native) eq_refl)).
Defined.

(** ** A request, answered behind an event *)

Definition other_event : Frame := mkFrame (FrameHeader_event 7 9) (bytes_of [1; 2]).
Definition answer_prefix : ResultPrefix := mkResultPrefix Status_Ok [] (bytes_of [170]).
Definition answer_frame : Frame := mkFrame (FrameHeader_result 7 3 3) (ok_bytes (encode answer_prefix)).

Definition awaiting_native (l : list Arrival) : NativeClient := nc_set_reader l example_native.

Lemma other_event_written : written stored lz4_codec other_event (on_wire other_event).
Proof. apply on_wire_written; [unfold FrameHeader_wf; cbn; lia|vm_compute; reflexivity]. Qed.
Lemma answer_written : written stored lz4_codec answer_frame (on_wire answer_frame).
Proof. apply on_wire_written; [unfold FrameHeader_wf; cbn; lia|vm_compute; reflexivity]. Qed.

Definition sent_session : Session :=
  (send stored (mkFrame (set_sensitive false (FrameHeader_request 7 3 3)) (bytes_of [5])) example_session).2.
Lemma sent_session_eq :
  send stored (mkFrame (set_sensitive false (FrameHeader_request 7 3 3)) (bytes_of [5])) example_session = (Ok (), sent_session).
Proof.
  unfold sent_session. assert (is_ok (send stored (mkFrame (set_sensitive false (FrameHeader_request 7 3 3)) (bytes_of [5])) example_session).1 = true) as H
    by (vm_compute; reflexivity).
  by destruct (send _ _ _) as [[[]|e] x].
Qed.

Lemma request_completes_witness :
  ∃ c', request_result stored unstored 7 3 (bytes_of [5]) false
          (awaiting_native (map Arrived (concat (map on_wire [other_event])) ++ map Arrived (on_wire answer_frame) ++ []))
        = (Ok answer_prefix, c') ∧ nc_pending c' = [other_event].
Proof.
  eexists. split.
  - apply (request_completes stored unstored stored_roundtrip unstored_bounded 7 3 (bytes_of [5]) false _ sent_session
             [other_event] answer_frame answer_prefix (map Arrived (concat (map on_wire [other_event]))) (on_wire answer_frame) []).
    + exact lz4_codec_wf.
    + exact sent_session_eq.
    + repeat constructor; discriminate.
    + apply arriving_on_wire. repeat constructor; apply other_event_written.
    + exact answer_written.
    + reflexivity.
    + vm_compute. reflexivity.
    + reflexivity.
    + unfold has_room. vm_compute. repeat split; discriminate.
  - reflexivity.
Defined.

(** ** A download of two chunks around an event *)

Definition download_descriptor : Descriptor :=
  Transfer.mkDescriptor 5 ModeByte SENDER_TO_RECEIVER 0 16 0 4 family_KV 0 1 [].
Definition chunk_frame (offset : Z) (b : list byte) : Frame :=
  mkFrame (transfer_header transfer_event_BYTE_DATA false) (ok_bytes (encode (mkByteData 5 offset b))).
Definition close_frame (n : Z) : Frame :=
  mkFrame (transfer_header transfer_event_CLOSE false) (ok_bytes (encode (mkClose 5 n (Status_code Status_Ok) []))).

Definition download_chunks : list (list byte) := [bytes_of [104; 105]; bytes_of [33]].
Definition download_groups : list (list Frame * Frame) :=
  [([], chunk_frame 0 (bytes_of [104; 105])); ([other_event], chunk_frame 2 (bytes_of [33])); ([], close_frame 3)].

Lemma download_frames_ok : byte_frames download_descriptor false 0 download_chunks (map snd download_groups).
Proof.
  cbn [byte_frames download_chunks download_groups map snd]. split_and!; try (vm_compute; discriminate); eexists; (split; [vm_compute; reflexivity|reflexivity]).
Qed.

Lemma download_completes_witness :
  ∃ c', receive_byte_transfer stored unstored download_descriptor (Some 3) 16
          (awaiting_native (map Arrived (concat (map on_wire (group_frames download_groups))) ++ [Arrived Byte.x00]))
        = (Ok (bytes_of [104; 105; 33]), c') ∧ nc_pending c' = [other_event] ∧ nc_reader c' = [Arrived Byte.x00].
Proof.
  eexists. split.
  - apply (download_completes stored unstored stored_roundtrip unstored_bounded download_descriptor false (Some 3) 16
             download_chunks download_groups _
             (awaiting_native (map Arrived (concat (map on_wire (group_frames download_groups))) ++ [Arrived Byte.x00]))
             (map Arrived (concat (map on_wire (group_frames download_groups)))) [Arrived Byte.x00]); try reflexivity.
    + vm_compute. split; [discriminate|reflexivity].
    + vm_compute. split; [reflexivity|discriminate].
    + vm_compute. discriminate.
    + by right.
    + exact lz4_codec_wf.
    + exact download_frames_ok.
    + constructor.
    + repeat constructor; discriminate.
    + apply arriving_on_wire. unfold group_frames, download_groups. cbn [map concat app fst snd].
      repeat apply Forall_cons_2; try apply Forall_nil_2; (apply on_wire_written; [vm_compute; repeat split; first [discriminate|reflexivity]|vm_compute; reflexivity]).
    + unfold has_room. vm_compute. repeat split; discriminate.
  - split; reflexivity.
Defined.

(** ** An upload *)

Definition upload_descriptor : Descriptor :=
  Transfer.mkDescriptor 5 ModeByte RECEIVER_TO_SENDER 16 0 0 2 family_KV 0 1 [].
Definition uploaded : NativeClient := (send_byte_transfer stored unstored upload_descriptor (bytes_of [1; 2; 3]) example_native).2.
Lemma uploaded_eq : send_byte_transfer stored unstored upload_descriptor (bytes_of [1; 2; 3]) example_native = (Ok (), uploaded).
Proof.
  unfold uploaded. assert (is_ok (send_byte_transfer stored unstored upload_descriptor (bytes_of [1; 2; 3]) example_native).1 = true) as H
    by (vm_compute; reflexivity).
  by destruct (send_byte_transfer _ _ _ _ _) as [[[]|e] x].
Qed.

Lemma upload_writes_everything_witness :
  ∃ chunks frames, concat chunks = bytes_of [1; 2; 3] ∧ sent stored frames example_session (nc_session uploaded)
    ∧ ∃ sensitive, byte_frames upload_descriptor sensitive 0 chunks (List.filter (λ f, negb (is_pong f)) frames).
Proof.
  destruct (upload_writes_everything stored unstored upload_descriptor (bytes_of [1; 2; 3]) example_native uploaded uploaded_eq)
    as (sensitive & chunks & frames & _ & Hc & Hs & Hb).
  exists chunks, frames. split; [exact Hc|]. split; [exact Hs|]. exists sensitive. exact Hb.
Defined.

(** ** The framed reader *)

Lemma into_framed_same_point bs c : same_point (into_framed (map OnStream bs) c) (nc_set_reader (map Arrived bs) c).
Proof. apply same_point_session. split_and!; [by destruct c as [? []]|done|]. by exists bs. Qed.

Lemma framed_reader_sequential_witness :
  (next_with_source stored unstored (into_framed (map OnStream (on_wire other_event)) example_native)).1 = Ok (other_event, false).
Proof.
  assert (same_point (into_framed (map OnStream (on_wire other_event)) example_native) (awaiting_native (map Arrived (on_wire other_event)))) as H.
  { apply into_framed_same_point. }
  rewrite (proj2 (framed_reader_sequential stored unstored _ _ H)). vm_compute. reflexivity.
Defined.

(** The same bytes with one malformed datagram behind the first four: the frame
    never comes out, and the session fails. *)
Definition interrupted_reader : NativeFrameReader :=
  let input := map OnStream (take 4 (on_wire other_event)) ++ OnDatagram [] :: map OnStream (drop 4 (on_wire other_event)) in
  let r := into_framed input example_native in
  mkFrameReader input lz4_codec (nr_sender r) (nr_hello r) (nr_clock r) (nr_negotiated_codecs r) 1200 true.
Lemma malformed_datagram_loses_frame :
  decode_transport_datagram unstored lz4_codec [] 1200 = None
  ∧ (next_with_source stored unstored interrupted_reader).1 = Err (Client_Disconnected "cannot read YAS frame").
Proof. vm_compute. done. Qed.
