(* ===== verification/WireLayout.v ===== *)
(** * WireLayout: wire laws from what an encoder wrote

    For messages whose decoder repeats the encoder's checks: [wire_laws_direct]
    asks that the reader accepts what the encoder wrote, and that whatever it
    reads the encoder would write. [enc_inv] and [enc_run] of [Wire] step
    through an encoder; here they also know messages nested in others. *)

From S2P Require Import Prelude Schema Codec CodecFacts Wire Core CoreWire.

(** ** Signed integers *)

Abbreviation is_i64 z := (-9223372036854775808 <= z < 9223372036854775808).
Abbreviation is_i32 z := (-2147483648 <= z < 2147483648).
Abbreviation is_i16 z := (-32768 <= z < 32768).

Lemma from_to_signed n z :
  (0 < n)%nat → - 2 ^ (Z.of_nat n * 8 - 1) <= z < 2 ^ (Z.of_nat n * 8 - 1) →
  to_signed (Z.of_nat n * 8) (from_le (to_le n z)) = z.
Proof.
  intros Hn Hz. unfold from_le, to_le, to_signed. rewrite le_combine_split.
  assert (2 ^ (Z.of_nat n * 8) = 2 * 2 ^ (Z.of_nat n * 8 - 1)) as E.
  { rewrite <- Z.pow_succ_r by lia. f_equal. lia. }
  set (h := 2 ^ (Z.of_nat n * 8 - 1)) in *. rewrite E. destruct (Z.le_gt_cases 0 z).
  - rewrite Z.mod_small by lia. destruct (Z.ltb_spec z h); lia.
  - rewrite <- (Z.mod_unique_pos z (2 * h) (-1) (z + 2 * h)) by lia. destruct (Z.ltb_spec (z + 2 * h) h); lia.
Qed.

Lemma to_signed_bytes n bs :
  (0 < n)%nat → length bs = n →
  to_le n (to_signed (Z.of_nat n * 8) (from_le bs)) = bs
  ∧ - 2 ^ (Z.of_nat n * 8 - 1) <= to_signed (Z.of_nat n * 8) (from_le bs) < 2 ^ (Z.of_nat n * 8 - 1).
Proof.
  intros Hn Hl. pose proof (from_le_bound bs) as Hb. unfold len in Hb. rewrite Hl in Hb. unfold to_signed.
  assert (2 ^ (Z.of_nat n * 8) = 2 * 2 ^ (Z.of_nat n * 8 - 1)) as E.
  { rewrite <- Z.pow_succ_r by lia. f_equal. lia. }
  replace (8 * Z.of_nat n) with (Z.of_nat n * 8) in Hb by lia.
  destruct (Z.ltb_spec (from_le bs) (2 ^ (Z.of_nat n * 8 - 1))).
  - split; [by apply to_from_le|]. lia.
  - split; [|lia]. rewrite <- (to_from_le n bs Hl) at 2. unfold to_le. apply le_combine_inj.
    + by rewrite !length_le_split.
    + rewrite !le_combine_split. rewrite <- Z.add_opp_r, <- (Z.mul_1_l (2 ^ _)), <- Z.mul_opp_l at 1. by rewrite Z.mod_add by lia.
Qed.

Lemma reads_signed n (p : decoder Z) z :
  (0 < n)%nat → p = (bs ← dec_take (Z.of_nat n); mret (to_signed (Z.of_nat n * 8) (from_le bs))) →
  - 2 ^ (Z.of_nat n * 8 - 1) <= z < 2 ^ (Z.of_nat n * 8 - 1) → reads p (to_le n z) z.
Proof.
  intros Hn -> Hz. rewrite <- (app_nil_r (to_le n z)). eapply reads_bind; [apply reads_take, len_to_le|].
  rewrite from_to_signed by done. apply reads_mret.
Qed.

Lemma spells_signed n (p : decoder Z) :
  (0 < n)%nat → p = (bs ← dec_take (Z.of_nat n); mret (to_signed (Z.of_nat n * 8) (from_le bs))) →
  spells p (to_le n) (λ z, - 2 ^ (Z.of_nat n * 8 - 1) <= z < 2 ^ (Z.of_nat n * 8 - 1)).
Proof.
  intros Hn -> d l a d' Hd H. apply decoder_bind_ok in H as (bs & d1 & H & [= <- <-]).
  destruct (dec_take_ok _ _ _ _ _ Hd H) as (rest & -> & Hl & Hd1). exists rest.
  destruct (to_signed_bytes n bs Hn) as [-> ?]; [unfold len in Hl; lia|]. done.
Qed.

Lemma reads_i64 z : is_i64 z → reads dec_i64 (to_le 8 z) z.
Proof. intros. apply (reads_signed 8); [lia|done|done]. Qed.
Lemma reads_i32 z : is_i32 z → reads dec_i32 (to_le 4 z) z.
Proof. intros. apply (reads_signed 4); [lia|done|done]. Qed.
Lemma reads_i16 z : is_i16 z → reads dec_i16 (to_le 2 z) z.
Proof. intros. apply (reads_signed 2); [lia|done|done]. Qed.
Lemma spells_i64 : spells dec_i64 (to_le 8) (λ z, is_i64 z).
Proof. apply (spells_signed 8); [lia|done]. Qed.
Lemma spells_i32 : spells dec_i32 (to_le 4) (λ z, is_i32 z).
Proof. apply (spells_signed 4); [lia|done]. Qed.
Lemma spells_i16 : spells dec_i16 (to_le 2) (λ z, is_i16 z).
Proof. apply (spells_signed 2); [lia|done]. Qed.
#[export] Hint Resolve reads_i64 reads_i32 reads_i16 : reads.
#[export] Hint Resolve spells_i64 spells_i32 spells_i16 : spells.

(** ** Reserved bytes *)

Lemma reads_reserved n : reads (dec_take (Z.of_nat n)) (zeros n) (zeros n).
Proof. apply reads_take. unfold len, zeros. by rewrite length_replicate. Qed.

Lemma zeros_ok n (bs : list byte) : negb (bool_decide (bs = zeros n)) = false ↔ bs = zeros n.
Proof. by rewrite negb_false_iff, bool_decide_eq_true. Qed.

(** ** Wire laws *)

(** [value.encode_to(&mut ignored)?] *)
Definition recheck `{Encode A} (v : A) : result Error () := _ ← encode v; Ok ().

Lemma recheck_iff `{Encode A} (v : A) : recheck v = Ok () ↔ ∃ bs, encode v = Ok bs.
Proof. unfold recheck. destruct (encode v); cbn [mbind result_bind]; naive_solver. Qed.

Lemma recheck_decode `{Encode A} (r : result Error A) :
  (x ← r; _ ← encode_to x []; Ok x) = (x ← r; _ ← recheck x; Ok x).
Proof. destruct r as [x|]; [|done]. unfold recheck, encode. cbn [mbind result_bind]. by destruct (encode_to x []). Qed.

Lemma wire_laws_direct {A} `{Encode A, Decode A} (wf : A → Prop) (check : A → result Error ()) (read : decoder A) :
  (∀ (v : A) out o, encode_to v out = Ok o ↔ ∃ bs, encode v = Ok bs ∧ o = out ++ bs) →
  (∀ bs, decode bs = (v ← run read (Decoder_new bs); _ ← check v; Ok v)) →
  (∀ v bs, wf v → encode v = Ok bs → check v = Ok () ∧ reads_end read bs v) →
  (∀ bs v d', dec_at (Decoder_new bs) bs → read (Decoder_new bs) = Ok (v, d') → check v = Ok () → wf v ∧ encode v = Ok bs) →
  WireLaws A wf.
Proof.
  intros Ha Hd Hr Hs. split; [exact Ha|..].
  - intros v bs Hw He Hl. destruct (Hr v bs Hw He) as [Hc Hre]. rewrite Hd. by rewrite (run_reads_end _ _ _ Hre Hl), bind_is_ok, Hc.
  - intros v bs Hl H1. rewrite Hd in H1. inv_ok. apply run_ok in Hv as (d' & E). by apply (Hs bs v d' (dec_at_new _ Hl) E).
Qed.

(** The same when the decoder's check is the encoder: what it read must be what
    the encoder would write. *)
Lemma wire_laws_recheck {A} `{Encode A, Decode A} (wf : A → Prop) (read : decoder A) :
  (∀ (v : A) out o, encode_to v out = Ok o ↔ ∃ bs, encode v = Ok bs ∧ o = out ++ bs) →
  (∀ bs, decode bs = (v ← run read (Decoder_new bs); _ ← encode_to v []; Ok v)) →
  (∀ v bs, wf v → encode v = Ok bs → reads_end read bs v) →
  (∀ bs v d', dec_at (Decoder_new bs) bs → read (Decoder_new bs) = Ok (v, d') → wf v ∧ ∀ bs', encode v = Ok bs' → bs' = bs) →
  WireLaws A wf.
Proof.
  intros Ha Hd Hr Hs. apply wire_laws_direct with (check := recheck) (read := read); [done|..].
  - intros bs. by rewrite Hd, recheck_decode.
  - intros v bs Hw He. split; [apply recheck_iff; eauto|eauto].
  - intros bs v d' Hat Hre (bs' & E)%recheck_iff. destruct (Hs bs v d' Hat Hre) as [Hw Heq]. by rewrite <- (Heq bs' E).
Qed.

(** ** Messages inside messages *)

(** [let bytes = v.encode()?; put_bytes_u32(out, &bytes)?], and a loop of it. *)
Definition put_nested `{Encode A} (v : A) (out : list byte) : result Error (list byte) :=
  bytes ← encode v; put_bytes_u32 out bytes.
(** [T::decode(decoder.len_bytes_u32()?)?] *)
Definition dec_nested `{Decode A} : decoder A := bytes ← dec_len_bytes_u32; lift (decode bytes).

Section Nested.
Context `{WireLaws A wf}.

(** [bs] is what [v] is written as, behind a length. *)
Definition nested (v : A) (bs : list byte) : Prop := encode v = Ok bs ∧ len bs <= U32_MAX.

Lemma put_nested_ok (v : A) out o : put_nested v out = Ok o ↔ ∃ bs, nested v bs ∧ o = out ++ lp32 bs.
Proof.
  unfold put_nested, nested. rewrite bind_ok. setoid_rewrite put_bytes_u32_ok. naive_solver.
Qed.

Lemma put_all_nested_ok (l : list A) out o :
  try_fold put_nested l out = Ok o ↔ ∃ bss, Forall2 nested l bss ∧ o = out ++ concat (map lp32 bss).
Proof.
  revert out. induction l as [|v l IH]; intros out; cbn [try_fold].
  - split.
    + intros [= <-]. exists []. split; [constructor|]. by rewrite app_nil_r.
    + intros (bss & Hf & ->). apply Forall2_nil_inv_l in Hf as ->. by rewrite app_nil_r.
  - rewrite bind_ok. setoid_rewrite put_nested_ok. setoid_rewrite IH. split.
    + intros (? & (bs & Hb & ->) & bss & Hf & ->). exists (bs :: bss). split; [by constructor|]. cbn [map concat]. by rewrite <- app_assoc.
    + intros (bss & (bs & bss' & Hb & Hf & ->)%Forall2_cons_inv_l & ->). exists (out ++ lp32 bs). split; [eauto|].
      exists bss'. split; [done|]. cbn [map concat]. by rewrite <- app_assoc.
Qed.

Lemma nested_fits (bs : list byte) : len bs <= U32_MAX → len bs <= ISIZE_MAX.
Proof. unfold U32_MAX, ISIZE_MAX. lia. Qed.

Lemma reads_nested (v : A) bs : wf v → nested v bs → reads dec_nested (lp32 bs) v.
Proof.
  intros Hw [He Hl]. unfold dec_nested. rewrite <- (app_nil_r (lp32 bs)). eapply reads_bind; [by apply reads_len_bytes_u32|].
  apply reads_lift. apply wire_roundtrip; [done|done|by apply nested_fits].
Qed.

Lemma reads_all_nested (l : list A) bss :
  Forall wf l → Forall2 nested l bss → reads (dec_repeat (length l) dec_nested) (concat (map lp32 bss)) l.
Proof.
  intros Hw Hf. induction Hf as [|v bs l bss Hb Hf IH]; cbn [length dec_repeat map concat]; [apply reads_mret|].
  apply Forall_cons_iff in Hw as [Hv Hw]. eapply reads_bind; [by apply reads_nested|]. cbn beta.
  rewrite <- (app_nil_r (concat _)). eapply reads_bind; [by apply IH|]. apply reads_mret.
Qed.

(** [T::decode(decoder.rest())] *)
Lemma reads_rest_nested {B} (k : A → decoder B) v bs b :
  wf v → encode v = Ok bs → reads_end (k v) [] b → reads_end (rest ← dec_rest; x ← lift (decode rest); k x) bs b.
Proof.
  intros Hw He Hk d Hd. pose proof (wire_roundtrip v bs Hw He (dec_at_fits _ _ Hd)) as Hdec. revert d Hd.
  change (reads_end (rest ← dec_rest; x ← lift (decode rest); k x) bs b). reads_step idtac. by reads_step ltac:(exact Hdec).
Qed.

Lemma rest_nested_ok {B} (k : A → decoder B) d l y d' :
  dec_at d l → (rest ← dec_rest; x ← lift (decode rest); k x) d = Ok (y, d') →
  ∃ v d1, wf v ∧ encode v = Ok l ∧ dec_at d1 [] ∧ k v d1 = Ok (y, d').
Proof.
  intros Hd E. pose proof (dec_at_fits _ _ Hd) as Hl. apply decoder_bind_ok in E as (r & d1 & [-> Hd1]%(dec_rest_ok _ l) & E); [|done].
  apply decoder_bind_ok in E as (v & d2 & [Hv ->]%lift_ok & E). destruct (wire_canonical v l Hl Hv). by exists v, d1.
Qed.

(** What a value is written as, if it is. *)
Definition encoded (v : A) : list byte := match encode v with Ok bs => bs | Err _ => [] end.

Lemma nested_encoded (v : A) bs : nested v bs → bs = encoded v.
Proof. intros [He _]. unfold encoded. by rewrite He. Qed.
Lemma all_nested_encoded (l : list A) bss : Forall2 nested l bss → bss = map encoded l.
Proof. induction 1 as [|v bs l bss Hb _ IH]; [done|]. cbn [map]. by rewrite <- IH, (nested_encoded _ _ Hb). Qed.

Lemma spells_nested : spells dec_nested (λ v, lp32 (encoded v)) (λ v, wf v ∧ nested v (encoded v)).
Proof.
  intros d l v d' Hd E. unfold dec_nested in E. dec_inv.
  match goal with Hv : decode ?b = Ok _ |- _ => destruct (wire_canonical _ b ltac:(by apply nested_fits) Hv) as [? ?]; clear Hv; rename b into b0 end.
  assert (nested v b0) as Hn by done. pose proof (nested_encoded _ _ Hn) as Eb. rewrite <- Eb. by eexists.
Qed.

Lemma spells_all_nested n :
  spells (dec_repeat n dec_nested) (λ l, concat (map lp32 (map encoded l)))
    (λ l, Forall wf l ∧ length l = n ∧ Forall2 nested l (map encoded l)).
Proof.
  intros d l vs d' Hd E. destruct (spells_repeat _ _ _ n spells_nested d l vs d' Hd E) as (rest & -> & Hd' & Hf & Hl).
  exists rest. rewrite map_map. split; [done|]. split; [done|]. split_and!; [|done|].
  - eapply List.Forall_impl; [|exact Hf]. by intros v [? _].
  - clear - Hf. induction Hf as [|v l [_ Hn] _ IH]; by constructor.
Qed.
End Nested.

(** ** Parts of messages with a writer and a reader of their own *)

Class Field {A} (put : A → list byte → result Error (list byte)) (get : decoder A) (bytes : A → list byte) (fits wf : A → Prop) := {
  field_put : ∀ a out o, put a out = Ok o ↔ o = out ++ bytes a ∧ fits a;
  field_reads : ∀ a, wf a → fits a → reads get (bytes a) a;
  field_spells : spells get bytes (λ a, wf a ∧ fits a)
}.

Lemma field_put_all `{Field A put get bytes fits wf} l out o :
  try_fold put l out = Ok o ↔ o = out ++ concat (map bytes l) ∧ Forall fits l.
Proof.
  revert out. induction l as [|a l IH]; intros out; cbn [try_fold map concat].
  - rewrite app_nil_r. split; [by intros [= <-]|by intros [-> _]].
  - rewrite bind_ok, Forall_cons_iff. setoid_rewrite field_put. setoid_rewrite IH. split.
    + intros (? & [-> ?] & -> & ?). by rewrite <- app_assoc.
    + intros (-> & ? & ?). eexists. split; [done|]. by rewrite <- app_assoc.
Qed.

Lemma field_reads_all `{Field A put get bytes fits wf} l :
  Forall wf l → Forall fits l → reads (dec_repeat (length l) get) (concat (map bytes l)) l.
Proof.
  intros Hw Hf. apply reads_repeat. induction Hw as [|a l Ha _ IH]; [constructor|]. apply Forall_cons_iff in Hf as [? Hf].
  constructor; [by apply field_reads|by apply IH].
Qed.

Lemma field_spells_all `{Field A put get bytes fits wf} n :
  spells (dec_repeat n get) (λ l, concat (map bytes l)) (λ l, (Forall wf l ∧ Forall fits l) ∧ length l = n).
Proof.
  intros d l vs d' Hd E. destruct (spells_repeat _ _ _ n field_spells d l vs d' Hd E) as (rest & -> & Hd' & Hf & Hl).
  exists rest. split; [done|]. split; [done|]. split; [|done]. by apply List.Forall_and_inv.
Qed.

Lemma Ok_inj {E A} (x y : A) : @Ok E A x = Ok y → x = y.
Proof. by intros [= ->]. Qed.

(** ** Tags *)

(** An enum with the integer each of its values stands for: [x as u8] and
    [T::try_from]. *)
Class Tag {A} (code : A → Z) (try_from : Z → result Error A) (wf : A → Prop) := {
  tag_read : ∀ a, wf a → try_from (code a) = Ok a;
  tag_written : ∀ z a, try_from z = Ok a → wf a ∧ z = code a;
  tag_byte : ∀ a, wf a → is_u8 (code a)
}.
Ltac tag_laws :=
  split;
  [ intros a _; destruct a; reflexivity
  | let H := fresh "H" in intros z a H; match type of H with ?l = _ => let rec go t := lazymatch t with ?f _ => go f | _ => unfold t in H end in go l end;
    split_match H; apply Ok_inj in H; subst; (split; [exact I|by apply Z.eqb_eq])
  | by intros [] ].

(** [T::try_from(decoder.u8()?)?] *)
Definition dec_tag {A} (try_from : Z → result Error A) : decoder A := k ← dec_u8; lift (try_from k).

Lemma reads_tag `{Tag A code try_from wf} a : wf a → reads (dec_tag try_from) [byte_of (code a)] a.
Proof.
  intros Hw. unfold dec_tag. rewrite <- (app_nil_r [_]). eapply reads_bind; [by apply reads_u8, tag_byte|].
  by apply reads_lift, tag_read.
Qed.
Lemma spells_tag `{Tag A code try_from wf} : spells (dec_tag try_from) (λ a, [byte_of (code a)]) wf.
Proof.
  intros d l a d' Hd E. unfold dec_tag in E. dec_inv. match goal with H : try_from _ = _ |- _ => apply tag_written in H as [? ->] end. by eexists.
Qed.
#[export] Hint Extern 1 (reads (dec_tag ?t) _ _) => apply (reads_tag (try_from := t)); first [exact I | assumption] : reads.
#[export] Hint Extern 1 (spells (dec_tag ?t) _ _) => exact (spells_tag (try_from := t)) : spells.

(** ** Flags of one bit *)

Lemma flag_bit_facts (b : bool) : is_u16 (if b then 1 else 0) ∧ has_other_bits (if b then 1 else 0) 1 = false ∧ has_bits (if b then 1 else 0) 1 = b.
Proof. by destruct b. Qed.
Lemma flag_bit_inv f : 0 <= f → has_other_bits f 1 = false → (if has_bits f 1 then 1 else 0) = f.
Proof. intros Hf H. symmetry. by apply flag_of_bool. Qed.

(** ** Messages that may be left out *)

(** [match v { Some(v) => put_bytes_u32(out, &v.encode()?)?, None => put_bytes_u32(out, &[])? }] *)
Definition put_optional `{Encode A} (v : option A) (out : list byte) : result Error (list byte) :=
  match v with Some v => put_nested v out | None => put_bytes_u32 out [] end.
(** [let v = decoder.len_bytes_u32()?; if v.is_empty() { None } else { Some(T::decode(v)?) }] *)
Definition dec_optional `{Decode A} : decoder (option A) :=
  bytes ← dec_len_bytes_u32;
  if is_nil bytes then mret None else (v ← lift (decode bytes); mret (Some v)).

Section Optional.
Context `{WireLaws A wf}.
Hypothesis nonempty : ∀ v : A, encode v ≠ Ok [].

Definition optional_bytes (v : option A) : list byte := match v with Some v => lp32 (encoded v) | None => lp32 [] end.
Definition optional_fits (v : option A) : Prop := match v with Some v => nested v (encoded v) | None => True end.
Definition optional_wf (v : option A) : Prop := match v with Some v => wf v | None => True end.

Lemma optional_field : Field put_optional dec_optional optional_bytes optional_fits optional_wf.
Proof using All.
  split.
  - intros [v|] out o; cbn [put_optional optional_bytes optional_fits].
    + rewrite put_nested_ok. split; [intros (bs & Hn & ->); pose proof (nested_encoded _ _ Hn) as Eb; by rewrite <- Eb|intros [-> ?]; eauto].
    + rewrite put_bytes_u32_ok. split; [by intros [-> ?]|intros [-> _]; split; [done|]; unfold U32_MAX, len; cbn; lia].
  - intros [v|] Hw Hf; cbn [optional_bytes optional_fits optional_wf] in *; unfold dec_optional.
    + destruct Hf as [He Hl]. rewrite <- (app_nil_r (lp32 _)). eapply reads_bind; [by apply reads_len_bytes_u32|].
      destruct (is_nil (encoded v)) eqn:En; [exfalso; apply (nonempty v); destruct (encoded v); done|].
      rewrite <- (app_nil_r []). eapply reads_bind; [|apply reads_mret]. apply reads_lift, wire_roundtrip; [done|done|by apply nested_fits].
    + rewrite <- (app_nil_r (lp32 _)). eapply reads_bind; [by apply reads_len_bytes_u32|]. apply reads_mret.
  - intros d l v d' Hd E. unfold dec_optional in E. apply decoder_bind_ok in E as (bs & d1 & E1 & E).
    destruct (spells_len_bytes_u32 _ _ _ _ Hd E1) as (rest & -> & Hd1 & Hl). clear E1 Hd. exists rest. destruct (is_nil bs) eqn:En.
    + destruct bs; [|done]. apply Ok_inj in E. injection E as <- <-. done.
    + dec_inv. match goal with Hv : decode ?b = Ok ?x |- _ => destruct (wire_canonical x b ltac:(by apply nested_fits) Hv) as [? ?] end.
      assert (nested x bs) as Hn by done. cbn [optional_bytes optional_fits optional_wf].
      pose proof (nested_encoded _ _ Hn) as Eb. rewrite <- Eb. done.
Qed.
End Optional.

(** A count checked against the bytes left. *)
Lemma field_reads_counted `{Field A put get bytes fits wf} k context l :
  0 < k → (∀ a, fits a → k <= len (bytes a)) → Forall wf l → Forall fits l →
  reads (dec_counted (len l) k context get) (concat (map bytes l)) l.
Proof.
  intros Hk Hb Hw Hf. apply reads_counted; [done|..].
  - clear Hb. induction Hw as [|a l Ha _ IH]; [constructor|]. apply Forall_cons_iff in Hf as [? Hf].
    constructor; [by apply field_reads|by apply IH].
  - eapply List.Forall_impl; [|exact Hf]. exact Hb.
Qed.

Lemma field_spells_counted `{Field A put get bytes fits wf} n k context :
  spells (dec_counted n k context get) (λ l, concat (map bytes l)) (λ l, (Forall wf l ∧ Forall fits l) ∧ length l = Z.to_nat n).
Proof.
  intros d l vs d' Hd E. destruct (spells_counted _ _ _ n k context field_spells d l vs d' Hd E) as (rest & -> & Hd' & Hf & Hl).
  exists rest. split; [done|]. split; [done|]. split; [|done]. by apply List.Forall_and_inv.
Qed.

Lemma reads_len_u16 {A} (l : list A) : len l <= U16_MAX → reads dec_u16 (to_le 2 (len l)) (len l).
Proof. intros. apply reads_u16. pose proof (len_nonneg l). unfold U16_MAX in *. lia. Qed.
Lemma reads_len_u32 {A} (l : list A) : len l <= U32_MAX → reads dec_u32 (to_le 4 (len l)) (len l).
Proof. intros. apply reads_u32. pose proof (len_nonneg l). unfold U32_MAX in *. lia. Qed.

#[export] Hint Resolve reads_len_u16 reads_len_u32 : reads.
#[export] Hint Extern 5 (spells (dec_counted ?n ?k ?c ?p) _ _) => exact (field_spells_counted (get := p) n k c) : spells.
#[export] Hint Extern 6 (reads ?p _ _) => let H := constr:(field_reads (get := p)) in apply H; [first [exact I | assumption]|assumption] : reads.
#[export] Hint Extern 6 (spells ?p _ _) => exact (field_spells (get := p)) : spells.
#[export] Hint Extern 7 (reads (dec_repeat _ ?p) _ _) => let H := constr:(field_reads_all (get := p)) in apply H; [assumption|assumption] : reads.
#[export] Hint Extern 5 (spells (dec_repeat ?n ?p) _ _) => exact (field_spells_all (get := p) n) : spells.
#[export] Hint Extern 1 (reads dec_nested _ _) => eapply reads_nested; [eassumption|eassumption] : reads.
#[export] Hint Extern 1 (reads (dec_repeat _ dec_nested) _ _) => eapply reads_all_nested; [eassumption|eassumption] : reads.
#[export] Hint Extern 1 (spells dec_nested _ _) => exact spells_nested : spells.
#[export] Hint Extern 1 (spells (dec_repeat ?n dec_nested) _ _) => exact (spells_all_nested n) : spells.

(** ** Tactics *)

Lemma reads_bind_last {A B} (p : decoder A) (k : A → decoder B) bs a b :
  reads p bs a → reads (k a) [] b → reads (p ≫= k) bs b.
Proof. intros Hp Hk. rewrite <- (app_nil_r bs). by eapply reads_bind. Qed.

Ltac reads_last side :=
  lazymatch goal with
  | |- reads (_ ≫= _) (_ ++ _) _ => fail
  | |- reads (_ ≫= _) _ _ => eapply reads_bind_last; [solve [eauto with reads | side]|cbn beta]
  end.
Ltac read_layout ::= repeat first [eapply reads_rest_nested; [eassumption|eassumption|cbn beta] | reads_step ltac:(first [assumption | lia | by apply zeros_ok | eassumption]) | reads_last ltac:(first [assumption | lia])].

Ltac bytes_eq ::=
  unfold put_u16, put_u32, put_u64, put_i16, put_i32, put_i64, push_u8, lp16, lp32, tail_bytes in *;
  rewrite <- ?app_assoc; cbn [app]; reflexivity.

(** Names what was written inside after the values. *)
Ltac nested_values :=
  repeat match goal with
  | H : nested ?v ?b |- _ => is_var b; apply nested_encoded in H; subst b
  | H : Forall2 nested ?l ?b |- _ => is_var b; apply all_nested_encoded in H; subst b
  | H1 : encode ?v = Ok ?b, H2 : encode _ = Ok ?c |- _ =>
      is_var b; tryif constr_eq b c then fail else idtac;
      let E := constr:(Ok_inj b c (eq_trans (eq_sym H1) H2)) in rewrite E in *; clear H1
  end.

(** Reads off an encoder run, messages inside it included. *)
Ltac enc_inv_nested1 :=
  match goal with
  | H : Ok _ = Ok _ |- _ => apply Ok_inj in H; try subst
  | H : put_nested _ _ = Ok _ |- _ => apply put_nested_ok in H as (? & ? & ->)
  | H : try_fold put_nested _ _ = Ok _ |- _ => apply put_all_nested_ok in H as (? & ? & ->)
  | H : encode_to _ ?out = Ok _ |- _ =>
      lazymatch out with [] => fail | _ => apply wire_append in H as (? & ? & ->) end
  | _ => enc_inv1
  | H : try_fold ?p _ _ = Ok _ |- _ => apply (field_put_all (put := p)) in H as [-> ?]
  | H : ?p _ _ = Ok _ |- _ => apply (field_put (put := p)) in H as [-> ?]
  end.
Ltac enc_inv_nested := repeat enc_inv_nested1.

(** Runs an encoder that is known to have run, on another buffer. *)
Ltac enc_again1 :=
  lazymatch goal with
  | |- Ok _ ≫= _ = Ok _ => rewrite bind_is_ok; cbn beta
  | |- put_nested _ _ = Ok _ => apply put_nested_ok; eexists; split; [eassumption|bytes_eq]
  | |- try_fold put_nested _ _ = Ok _ => apply put_all_nested_ok; eexists; split; [eassumption|bytes_eq]
  | |- put_nested _ _ ≫= _ = Ok _ =>
      apply bind_ok; eexists; split; [apply put_nested_ok; eexists; split; [eassumption|reflexivity]|cbn beta]
  | |- try_fold put_nested _ _ ≫= _ = Ok _ =>
      apply bind_ok; eexists; split; [apply put_all_nested_ok; eexists; split; [eassumption|reflexivity]|cbn beta]
  | |- encode_to _ ?out ≫= _ = Ok _ =>
      apply bind_ok; eexists; split; [first [eassumption | apply wire_append; eexists; split; [eassumption|reflexivity]]|cbn beta]
  | |- encode_to _ _ = Ok _ => apply wire_append; eexists; split; [eassumption|bytes_eq]
  | |- put_bytes_u16 _ _ = Ok _ => apply put_bytes_u16_ok; split; [bytes_eq|assumption]
  | |- put_bytes_u32 _ _ = Ok _ => apply put_bytes_u32_ok; split; [bytes_eq|assumption]
  | |- put_string_u16 _ _ = Ok _ => apply put_string_u16_ok; split; [bytes_eq|assumption]
  | |- try_fold ?p _ _ = Ok _ => apply (field_put_all (put := p)); split; [bytes_eq|assumption]
  | |- try_fold ?p _ _ ≫= _ = Ok _ =>
      apply bind_ok; eexists; split; [apply (field_put_all (put := p)); split; [reflexivity|assumption]|cbn beta]
  | |- ?p _ _ ≫= _ = Ok _ =>
      first [ enc_step
            | apply bind_ok; eexists; split; [apply (field_put (put := p)); split; [reflexivity|assumption]|cbn beta] ]
  | _ => enc_step
  end.
Ltac enc_again := repeat enc_again1.

(** An encoder's writes do not depend on what is there already. *)
Ltac enc_appends :=
  let H := fresh "H" in
  split; [intros H; enc_inv_nested; eexists; split; [enc_again|bytes_eq]
         |intros (? & H & ->); enc_inv_nested; enc_again].

Lemma exts_ok_intro exts : exts_wf exts → Extensions_validate exts = Ok () → len (entries_bytes exts) <= U32_MAX → exts_ok exts.
Proof. by repeat split. Qed.
#[export] Hint Resolve exts_ok_intro reads_reserved : reads.

(** Takes the branch of a reader that a known tag selects. *)
Ltac take_branch :=
  repeat match goal with |- context [if ?a =? ?b then _ else _] => let c := eval vm_compute in (a =? b) in change (a =? b) with c; cbn iota end.

(** ** One message *)

Ltac head_of t := lazymatch t with ?f _ => head_of f | _ => t end.
Ltac unfold_head H := lazymatch type of H with ?l = _ => let h := head_of l in unfold h in H end.
Ltac unfold_type H := let t := type of H in let h := head_of t in unfold h in H.
Ltac unfold_encoder :=
  unfold encode, encode_to;
  lazymatch goal with
  | |- ?l = Ok _ ↔ _ => let h := head_of l in unfold h
  | |- ?l = Ok _ => let h := head_of l in unfold h
  end.

Ltac law_appends := intros v out o; unfold_encoder; enc_appends.

(** What the encoder wrote, read again. *)
Ltac law_written v Hw He :=
  unfold_type Hw; destruct_and? Hw; unfold encode, encode_to in He; unfold_head He; enc_inv_nested.
Ltac law_reader :=
  lazymatch goal with |- reads_end ?r _ _ => let h := head_of r in unfold h end;
  unfold put_u16, put_u32, put_u64, put_i16, put_i32, put_i64, push_u8; rewrite <- ?app_assoc, ?app_nil_l.

(** What was read, in the encoder's terms. *)
Ltac law_read :=
  repeat first
    [ match goal with
      | Hd : dec_at ?d _, H : (dec_rest ≫= _) ?d = Ok _ |- _ =>
          let x := fresh "x" in let d1 := fresh "d" in let Hw := fresh "Hw" in let E := fresh "E" in let Hd' := fresh "Hd" in
          let Hn := fresh "Hn" in
          match type of H with context [@decode ?T _ _] => destruct (rest_nested_ok (A := T) _ _ _ _ _ Hd H) as (x & d1 & Hw & E & Hd' & Hn) end;
          clear Hd H; cbn beta in Hn
      | Hd : dec_at ?d ?l, H : ?p ?d = Ok (?a, ?d') |- _ =>
          lazymatch p with _ ≫= _ => fail | _ => idtac end;
          let Hs := fresh "Hs" in let r := fresh "r" in let Hd' := fresh "Hd" in let Hw := fresh "Hw" in
          eassert (spells p _ _) as Hs by (solve [eauto with spells]);
          destruct (Hs _ _ _ _ Hd H) as (r & -> & Hd' & Hw); clear Hs Hd H; cbn beta in Hw
      end
    | dec_inv1 ];
  repeat match goal with
  | H : exts_ok _ |- _ => destruct H as (? & ? & ?)
  | H : _ ∧ nested _ _ |- _ => destruct H as [? ?]
  | H : Forall _ _ ∧ _ ∧ Forall2 nested _ _ |- _ => destruct H as (? & ? & ?)
  | H : _ || _ = false |- _ => apply orb_false_iff in H as [? ?]
  | H : negb (_ =? 0) = false |- _ => apply negb_false_iff, Z.eqb_eq in H; subst
  | H : negb (bool_decide (_ = zeros _)) = false |- _ => apply zeros_ok in H; subst
  end.
Ltac law_wf := lazymatch goal with |- ?t ∧ _ => let h := head_of t in unfold h end; cbn; split; [split_and?; first [done | lia | unfold len in *; lia]|].

(** The count read is the length of the list. *)
Ltac law_count :=
  repeat match goal with H : length ?l = Z.to_nat ?n |- _ => is_var n; assert (n = len l) as -> by (unfold len; lia); clear H;
    try assert (len l <= U16_MAX) by (unfold U16_MAX; lia); try assert (len l <= U32_MAX) by (unfold U32_MAX; lia) end.

(** A message whose decoder runs a check of its own, shared with the encoder. *)
Ltac law_direct :=
  eapply wire_laws_direct;
  [ law_appends
  | intros bs; reflexivity
  | let v := fresh "v" in let bs := fresh "bs" in let Hw := fresh "Hw" in let He := fresh "He" in
    intros v bs Hw He; law_written v Hw He; split; [done|]; law_reader; read_layout; destruct v; read_layout
  | let bs := fresh "bs" in let v := fresh "v" in let H := fresh "H" in
    intros bs v ? ? H ?; unfold_head H; law_read; destruct_and?; law_wf; rewrite ?app_nil_r; unfold_encoder; enc_again ].

(** A message whose decoder runs the encoder. *)
Ltac law_recheck :=
  eapply wire_laws_recheck;
  [ law_appends
  | intros bs; reflexivity
  | let v := fresh "v" in let bs := fresh "bs" in let Hw := fresh "Hw" in let He := fresh "He" in
    intros v bs Hw He; law_written v Hw He; law_reader; read_layout; destruct v; read_layout
  | let bs := fresh "bs" in let v := fresh "v" in let H := fresh "H" in let He := fresh "He" in
    intros bs v ? ? H; unfold_head H; law_read; destruct_and?; law_wf; rewrite ?app_nil_r; intros ? He;
    unfold encode, encode_to in He; unfold_head He; enc_inv_nested; nested_values; bytes_eq ].
