(* ===== verification/NetWire.v ===== *)
(** * NetWire: the messages of the Net family ([crates/yas/src/net.rs])

    Addresses, TLS options, opens and closes, the endpoint an open answers with
    and the statistics of a datagram flow, with the wire laws of each. The
    datagrams themselves are in [Datagrams]. *)

From S2P Require Import Prelude Schema Codec CodecFacts Wire Datagrams Transfer TransferFacts Core CoreWire WireLayout.

Definition net_ADDRESS_TCP : Z := 0.
Definition net_ADDRESS_UDP : Z := 1.
Definition net_ADDRESS_UNIX_STREAM : Z := 2.
Definition net_ADDRESS_UNIX_DATAGRAM : Z := 3.
Definition net_ADDRESS_UNIX_SEQPACKET : Z := 4.
Definition net_ADDRESS_WINDOWS_PIPE : Z := 5.
Definition net_UNIX_FILESYSTEM : Z := 0.
Definition net_UNIX_ABSTRACT : Z := 1.
Definition net_PIPE_MODE_AUTO : Z := 0.
Definition net_PIPE_MODE_BYTE : Z := 1.
Definition net_PIPE_MODE_MESSAGE : Z := 2.
Definition net_TLS_VERIFY_STRICT : Z := 0.
Definition net_TLS_VERIFY_INSECURE : Z := 1.
Definition net_DELIVERY_NOT_APPLICABLE : Z := 0.
Definition net_DELIVERY_NATIVE_DATAGRAM : Z := 1.
Definition net_DELIVERY_RELIABLE_TUNNEL : Z := 2.
Definition net_DELIVERY_NATIVE_REQUIRED : Z := 0.
Definition net_DELIVERY_PREFER_NATIVE : Z := 1.
Definition net_DELIVERY_REQUIRE_RELIABLE_TUNNEL : Z := 2.
Definition net_DELIVERY_PREFERENCE_NOT_APPLICABLE : Z := 255.
Definition net_DROP_OLDEST : Z := 0.
Definition net_DROP_LATEST : Z := 1.
Definition net_DROP_NOT_APPLICABLE : Z := 255.
Definition net_MODE_BYTE : Z := 0.
Definition net_MODE_MESSAGE : Z := 1.
Definition net_MODE_DATAGRAM : Z := 2.
Definition net_DIRECTION_CLIENT_TO_PEER : Z := 1.
Definition net_DIRECTION_PEER_TO_CLIENT : Z := 2.
Definition net_DIRECTION_DUPLEX : Z := 3.
Definition net_DATAGRAM_STATS_FINAL : Z := 1.
Definition net_FLOW_CONTENT_KIND : Z := 0.

(** ** Checks *)

Definition net_validate_operation_id (value : list byte) : result Error () :=
  reject_if (bool_decide (value = zeros 16)) (Invalid "zero Net operation ID").

Definition net_reject_unknown_required (extensions : Extensions) (known : list Z) : result Error () :=
  _ ← Extensions_validate extensions;
  reject_if (existsb (λ e, ext_required e && negb (existsb (Z.eqb (ext_tag e)) known)) extensions)
    (Invalid "unknown required Net extension").

(** ** Addresses *)

Inductive UnixNameKind := UnixFilesystem | UnixAbstract.
#[global] Instance UnixNameKind_eq_dec : EqDecision UnixNameKind.
Proof. solve_decision. Defined.

Definition UnixNameKind_u8 (x : UnixNameKind) : Z :=
  match x with
  | UnixFilesystem => net_UNIX_FILESYSTEM
  | UnixAbstract => net_UNIX_ABSTRACT
  end.
Definition UnixNameKind_try_from (value : Z) : result Error UnixNameKind :=
  if value =? UnixNameKind_u8 UnixFilesystem then Ok UnixFilesystem
  else if value =? UnixNameKind_u8 UnixAbstract then Ok UnixAbstract
  else Err (Invalid "Net Unix address kind").
#[export] Instance UnixNameKind_Tag : Tag UnixNameKind_u8 UnixNameKind_try_from (λ _, True).
Proof. tag_laws. Qed.

Inductive PipeMode := PipeAuto | PipeByte | PipeMessage.
#[global] Instance PipeMode_eq_dec : EqDecision PipeMode.
Proof. solve_decision. Defined.

Definition PipeMode_u8 (x : PipeMode) : Z :=
  match x with
  | PipeAuto => net_PIPE_MODE_AUTO
  | PipeByte => net_PIPE_MODE_BYTE
  | PipeMessage => net_PIPE_MODE_MESSAGE
  end.
Definition PipeMode_try_from (value : Z) : result Error PipeMode :=
  if value =? PipeMode_u8 PipeAuto then Ok PipeAuto
  else if value =? PipeMode_u8 PipeByte then Ok PipeByte
  else if value =? PipeMode_u8 PipeMessage then Ok PipeMessage
  else Err (Invalid "Net pipe mode").
#[export] Instance PipeMode_Tag : Tag PipeMode_u8 PipeMode_try_from (λ _, True).
Proof. tag_laws. Qed.

Record UnixName := mkUnixName { un_kind : UnixNameKind; un_name : list byte }.

Definition UnixName_validate (v : UnixName) : result Error () :=
  _ ← reject_if (is_nil (un_name v)) (Invalid "empty Net Unix address");
  _ ← reject_if (net_MAX_LOCAL_ADDRESS_BYTES <? len (un_name v))
        (LimitExceeded "Net Unix address bytes" (len (un_name v)) net_MAX_LOCAL_ADDRESS_BYTES);
  reject_if (bool_decide (un_kind v = UnixFilesystem) && bool_decide (Byte.x00 ∈ un_name v))
    (Invalid "NUL in Net Unix filesystem address").

Definition UnixName_encode_to (v : UnixName) (out : list byte) : result Error (list byte) :=
  _ ← UnixName_validate v;
  put_bytes_u32 (push_u8 out (UnixNameKind_u8 (un_kind v)) ++ zeros 3) (un_name v).

Definition UnixName_decode_from : decoder UnixName :=
  kind ← dec_tag UnixNameKind_try_from;
  reserved ← dec_take 3;
  _ ← reject (negb (bool_decide (reserved = zeros 3))) (Invalid "Net Unix address reserved bytes");
  name ← dec_len_bytes_u32;
  let value := mkUnixName kind name in
  _ ← lift (UnixName_validate value);
  mret value.

Inductive Address :=
  | AddressTcp (host : list byte) (port : Z)
  | AddressUdp (host : list byte) (port : Z)
  | AddressUnixStream (name : UnixName)
  | AddressUnixDatagram (name : UnixName)
  | AddressUnixSeqpacket (name : UnixName)
  | AddressWindowsPipe (requested_mode : PipeMode) (name : list byte).

Definition Address_is_datagram (a : Address) : bool :=
  match a with AddressUdp _ _ | AddressUnixDatagram _ => true | _ => false end.
Definition Address_is_tcp (a : Address) : bool := match a with AddressTcp _ _ => true | _ => false end.

Definition Address_validate (a : Address) : result Error () :=
  match a with
  | AddressTcp host port | AddressUdp host port =>
      _ ← reject_if (is_nil host || bool_decide (Byte.x00 ∈ host)) (Invalid "Net host");
      _ ← reject_if (net_MAX_HOST_BYTES <? len host) (LimitExceeded "Net host bytes" (len host) net_MAX_HOST_BYTES);
      reject_if (port =? 0) (Invalid "zero Net port")
  | AddressUnixStream name | AddressUnixDatagram name | AddressUnixSeqpacket name => UnixName_validate name
  | AddressWindowsPipe _ name =>
      _ ← reject_if (is_nil name || bool_decide (Byte.x00 ∈ name)) (Invalid "Net Windows pipe name");
      reject_if (net_MAX_PIPE_NAME_BYTES <? len name) (LimitExceeded "Net Windows pipe name bytes" (len name) net_MAX_PIPE_NAME_BYTES)
  end.

Definition Address_kind (a : Address) : Z :=
  match a with
  | AddressTcp _ _ => net_ADDRESS_TCP
  | AddressUdp _ _ => net_ADDRESS_UDP
  | AddressUnixStream _ => net_ADDRESS_UNIX_STREAM
  | AddressUnixDatagram _ => net_ADDRESS_UNIX_DATAGRAM
  | AddressUnixSeqpacket _ => net_ADDRESS_UNIX_SEQPACKET
  | AddressWindowsPipe _ _ => net_ADDRESS_WINDOWS_PIPE
  end.

Definition Address_encode_body (a : Address) (out : list byte) : result Error (list byte) :=
  match a with
  | AddressTcp host port | AddressUdp host port =>
      out ← put_string_u16 out host;
      Ok (put_u16 (put_u16 out port) 0)
  | AddressUnixStream name | AddressUnixDatagram name | AddressUnixSeqpacket name => UnixName_encode_to name out
  | AddressWindowsPipe requested_mode name => put_string_u16 (push_u8 out (PipeMode_u8 requested_mode) ++ zeros 3) name
  end.

#[export] Instance Address_encode_to : Encode Address := fun v out =>
  _ ← Address_validate v;
  Address_encode_body v (push_u8 out (Address_kind v) ++ zeros 3).

Definition Address_read_host (make : list byte → Z → Address) (error : string) : decoder Address :=
  host ← dec_string_u16;
  port ← dec_u16;
  reserved ← dec_u16;
  _ ← reject (negb (reserved =? 0)) (Invalid error);
  mret (make host port).

Definition Address_read_body (kind : Z) : decoder Address :=
  if kind =? net_ADDRESS_TCP then Address_read_host AddressTcp "Net TCP address reserved field"
  else if kind =? net_ADDRESS_UDP then Address_read_host AddressUdp "Net UDP address reserved field"
  else if kind =? net_ADDRESS_UNIX_STREAM then (name ← UnixName_decode_from; mret (AddressUnixStream name))
  else if kind =? net_ADDRESS_UNIX_DATAGRAM then (name ← UnixName_decode_from; mret (AddressUnixDatagram name))
  else if kind =? net_ADDRESS_UNIX_SEQPACKET then (name ← UnixName_decode_from; mret (AddressUnixSeqpacket name))
  else if kind =? net_ADDRESS_WINDOWS_PIPE then
    requested_mode ← dec_tag PipeMode_try_from;
    reserved ← dec_take 3;
    _ ← reject (negb (bool_decide (reserved = zeros 3))) (Invalid "Net pipe address reserved bytes");
    name ← dec_string_u16;
    mret (AddressWindowsPipe requested_mode name)
  else lift (Err (Invalid "Net address kind")).

Definition Address_read : decoder Address :=
  kind ← dec_u8;
  reserved ← dec_take 3;
  _ ← reject (negb (bool_decide (reserved = zeros 3))) (Invalid "Net address reserved bytes");
  value ← Address_read_body kind;
  _ ← dec_finish;
  mret value.

#[export] Instance Address_decode : Decode Address := fun input =>
  value ← run Address_read (Decoder_new input);
  _ ← Address_validate value;
  Ok value.

(** ** TLS *)

Inductive TlsVerification := TlsStrict | TlsInsecure.
#[global] Instance TlsVerification_eq_dec : EqDecision TlsVerification.
Proof. solve_decision. Defined.

Definition TlsVerification_u8 (x : TlsVerification) : Z :=
  match x with
  | TlsStrict => net_TLS_VERIFY_STRICT
  | TlsInsecure => net_TLS_VERIFY_INSECURE
  end.
Definition TlsVerification_try_from (value : Z) : result Error TlsVerification :=
  if value =? TlsVerification_u8 TlsStrict then Ok TlsStrict
  else if value =? TlsVerification_u8 TlsInsecure then Ok TlsInsecure
  else Err (Invalid "Net TLS verification mode").
#[export] Instance TlsVerification_Tag : Tag TlsVerification_u8 TlsVerification_try_from (λ _, True).
Proof. tag_laws. Qed.

Record TlsOptions := mkTlsOptions {
  tls_verification : TlsVerification; tls_sni : list byte; tls_alpn : list (list byte); tls_extensions : Extensions
}.

(** The loop over the protocols; [unique] is the set of those already seen. *)
Fixpoint alpn_check (unique : list (list byte)) (alpn : list (list byte)) : result Error () :=
  match alpn with
  | [] => Ok ()
  | protocol :: rest =>
      _ ← reject_if (is_nil protocol || (net_MAX_ALPN_BYTES <? len protocol) || bool_decide (protocol ∈ unique)) (Invalid "Net TLS ALPN protocol");
      alpn_check (protocol :: unique) rest
  end.

Definition TlsOptions_validate (v : TlsOptions) : result Error () :=
  _ ← reject_if ((net_MAX_HOST_BYTES <? len (tls_sni v)) || bool_decide (Byte.x00 ∈ tls_sni v)) (Invalid "Net TLS SNI");
  _ ← reject_if (net_MAX_ALPN_PROTOCOLS <? len (tls_alpn v))
        (LimitExceeded "Net TLS ALPN protocol count" (len (tls_alpn v)) net_MAX_ALPN_PROTOCOLS);
  _ ← alpn_check [] (tls_alpn v);
  net_reject_unknown_required (tls_extensions v) [].

(** [put_bytes_u16(out, protocol)?] *)
Definition put_protocol (protocol out : list byte) : result Error (list byte) := put_bytes_u16 out protocol.

#[export] Instance TlsOptions_encode_to : Encode TlsOptions := fun v out =>
  _ ← TlsOptions_validate v;
  out ← put_string_u16 (push_u8 out (TlsVerification_u8 (tls_verification v)) ++ zeros 3) (tls_sni v);
  out ← put_len_u16 out (len (tls_alpn v));
  out ← try_fold put_protocol (tls_alpn v) (put_u16 out 0);
  Extensions_encode_tail (tls_extensions v) out.

Definition TlsOptions_read : decoder TlsOptions :=
  verification ← dec_tag TlsVerification_try_from;
  reserved ← dec_take 3;
  _ ← reject (negb (bool_decide (reserved = zeros 3))) (Invalid "Net TLS reserved bytes");
  sni ← dec_string_u16;
  count ← dec_u16;
  reserved ← dec_u16;
  _ ← reject (negb (reserved =? 0) || (net_MAX_ALPN_PROTOCOLS <? count)) (Invalid "Net TLS ALPN count or reserved field");
  alpn ← dec_counted count 2 "Net TLS ALPN count or reserved field" dec_len_bytes_u16;
  extensions ← dec_extensions;
  _ ← dec_finish;
  mret (mkTlsOptions verification sni alpn extensions).

#[export] Instance TlsOptions_decode : Decode TlsOptions := fun input =>
  value ← run TlsOptions_read (Decoder_new input);
  _ ← TlsOptions_validate value;
  Ok value.

(** ** Opens *)

Inductive DeliveryPreference := NativeRequired | PreferNative | PreferTunnel | PreferenceNotApplicable.
#[global] Instance DeliveryPreference_eq_dec : EqDecision DeliveryPreference.
Proof. solve_decision. Defined.

Definition DeliveryPreference_u8 (x : DeliveryPreference) : Z :=
  match x with
  | NativeRequired => net_DELIVERY_NATIVE_REQUIRED
  | PreferNative => net_DELIVERY_PREFER_NATIVE
  | PreferTunnel => net_DELIVERY_REQUIRE_RELIABLE_TUNNEL
  | PreferenceNotApplicable => net_DELIVERY_PREFERENCE_NOT_APPLICABLE
  end.
Definition DeliveryPreference_try_from (value : Z) : result Error DeliveryPreference :=
  if value =? DeliveryPreference_u8 NativeRequired then Ok NativeRequired
  else if value =? DeliveryPreference_u8 PreferNative then Ok PreferNative
  else if value =? DeliveryPreference_u8 PreferTunnel then Ok PreferTunnel
  else if value =? DeliveryPreference_u8 PreferenceNotApplicable then Ok PreferenceNotApplicable
  else Err (Invalid "Net delivery preference").
#[export] Instance DeliveryPreference_Tag : Tag DeliveryPreference_u8 DeliveryPreference_try_from (λ _, True).
Proof. tag_laws. Qed.

Inductive DropPolicy := DropOldest | DropLatest | DropNotApplicable.
#[global] Instance DropPolicy_eq_dec : EqDecision DropPolicy.
Proof. solve_decision. Defined.

Definition DropPolicy_u8 (x : DropPolicy) : Z :=
  match x with
  | DropOldest => net_DROP_OLDEST
  | DropLatest => net_DROP_LATEST
  | DropNotApplicable => net_DROP_NOT_APPLICABLE
  end.
Definition DropPolicy_try_from (value : Z) : result Error DropPolicy :=
  if value =? DropPolicy_u8 DropOldest then Ok DropOldest
  else if value =? DropPolicy_u8 DropLatest then Ok DropLatest
  else if value =? DropPolicy_u8 DropNotApplicable then Ok DropNotApplicable
  else Err (Invalid "Net datagram drop policy").
#[export] Instance DropPolicy_Tag : Tag DropPolicy_u8 DropPolicy_try_from (λ _, True).
Proof. tag_laws. Qed.

Record net_Open := mkNetOpen {
  no_operation_id : list byte; no_address : Address; no_delivery_preference : DeliveryPreference; no_drop_policy : DropPolicy;
  no_initial_receive_credit : Z; no_early_data : list byte; no_tls_options : option TlsOptions; no_extensions : Extensions
}.

Definition net_Open_validate (v : net_Open) : result Error () :=
  _ ← net_validate_operation_id (no_operation_id v);
  _ ← Address_validate (no_address v);
  _ ← reject_if (net_MAX_EARLY_DATA_BYTES <? len (no_early_data v))
        (LimitExceeded "Net early-data bytes" (len (no_early_data v)) net_MAX_EARLY_DATA_BYTES);
  _ ← (if Address_is_datagram (no_address v) then
         reject_if (bool_decide (no_delivery_preference v = PreferenceNotApplicable) || bool_decide (no_drop_policy v = DropNotApplicable)
                    || negb (no_initial_receive_credit v =? 0) || negb (is_nil (no_early_data v)) || is_some (no_tls_options v))
           (Invalid "Net datagram OPEN options")
       else
         reject_if (negb (bool_decide (no_delivery_preference v = PreferenceNotApplicable)) || negb (bool_decide (no_drop_policy v = DropNotApplicable))
                    || (no_initial_receive_credit v =? 0))
           (Invalid "Net reliable OPEN options"));
  _ ← match no_tls_options v with
      | Some tls =>
          _ ← reject_if (negb (Address_is_tcp (no_address v))) (Invalid "Net TLS on non-TCP endpoint");
          TlsOptions_validate tls
      | None => Ok ()
      end;
  net_reject_unknown_required (no_extensions v) [].

#[export] Instance net_Open_encode_to : Encode net_Open := fun v out =>
  _ ← net_Open_validate v;
  out ← put_nested (no_address v) (out ++ no_operation_id v);
  let out := push_u8 (push_u8 out (DeliveryPreference_u8 (no_delivery_preference v))) (DropPolicy_u8 (no_drop_policy v)) in
  out ← put_bytes_u32 (put_u64 (put_u16 out 0) (no_initial_receive_credit v)) (no_early_data v);
  out ← put_optional (no_tls_options v) out;
  Extensions_encode_tail (no_extensions v) out.

Definition net_Open_read : decoder net_Open :=
  operation_id ← dec_array_16;
  address ← dec_nested;
  delivery_preference ← dec_tag DeliveryPreference_try_from;
  drop_policy ← dec_tag DropPolicy_try_from;
  reserved ← dec_u16;
  _ ← reject (negb (reserved =? 0)) (Invalid "Net OPEN reserved field");
  initial_receive_credit ← dec_u64;
  early_data ← dec_len_bytes_u32;
  tls_options ← dec_optional;
  extensions ← dec_extensions;
  _ ← dec_finish;
  mret (mkNetOpen operation_id address delivery_preference drop_policy initial_receive_credit early_data tls_options extensions).

#[export] Instance net_Open_decode : Decode net_Open := fun input =>
  value ← run net_Open_read (Decoder_new input);
  _ ← net_Open_validate value;
  Ok value.

Record net_Close := mkNetClose { nc_flow_handle : Z; nc_operation_id : list byte; nc_extensions : Extensions }.

#[export] Instance net_Close_encode_to : Encode net_Close := fun v out =>
  _ ← net_validate_handle (nc_flow_handle v);
  _ ← net_validate_operation_id (nc_operation_id v);
  _ ← net_reject_unknown_required (nc_extensions v) [];
  Extensions_encode_tail (nc_extensions v) (put_u64 out (nc_flow_handle v) ++ nc_operation_id v).

Definition net_Close_read : decoder net_Close :=
  flow_handle ← dec_u64;
  operation_id ← dec_array_16;
  extensions ← dec_extensions;
  _ ← dec_finish;
  mret (mkNetClose flow_handle operation_id extensions).

#[export] Instance net_Close_decode : Decode net_Close := fun input =>
  value ← run net_Close_read (Decoder_new input);
  _ ← encode_to value [];
  Ok value.

(** ** Endpoints *)

Inductive FlowMode := FlowByte | FlowMessage | FlowDatagram.
#[global] Instance FlowMode_eq_dec : EqDecision FlowMode.
Proof. solve_decision. Defined.

Definition FlowMode_u8 (x : FlowMode) : Z :=
  match x with
  | FlowByte => net_MODE_BYTE
  | FlowMessage => net_MODE_MESSAGE
  | FlowDatagram => net_MODE_DATAGRAM
  end.
Definition FlowMode_try_from (value : Z) : result Error FlowMode :=
  if value =? FlowMode_u8 FlowByte then Ok FlowByte
  else if value =? FlowMode_u8 FlowMessage then Ok FlowMessage
  else if value =? FlowMode_u8 FlowDatagram then Ok FlowDatagram
  else Err (Invalid "Net flow mode").
#[export] Instance FlowMode_Tag : Tag FlowMode_u8 FlowMode_try_from (λ _, True).
Proof. tag_laws. Qed.

Record FlowDirection := mkFlowDirection { fd_bits : Z }.

Definition CLIENT_TO_PEER : FlowDirection := mkFlowDirection net_DIRECTION_CLIENT_TO_PEER.
Definition PEER_TO_CLIENT : FlowDirection := mkFlowDirection net_DIRECTION_PEER_TO_CLIENT.
Definition DUPLEX : FlowDirection := mkFlowDirection net_DIRECTION_DUPLEX.

Definition FlowDirection_from_bits (bits : Z) : result Error FlowDirection :=
  _ ← reject_if ((bits =? 0) || has_other_bits bits net_DIRECTION_DUPLEX) (Invalid "Net flow direction");
  Ok (mkFlowDirection bits).

Definition transfer_direction (d : FlowDirection) : Direction :=
  mkDirection (has_bits (fd_bits d) net_DIRECTION_CLIENT_TO_PEER) (has_bits (fd_bits d) net_DIRECTION_PEER_TO_CLIENT).

Inductive DatagramDelivery := NotApplicable | DeliveryNative | ReliableTunnel.
#[global] Instance DatagramDelivery_eq_dec : EqDecision DatagramDelivery.
Proof. solve_decision. Defined.

Definition DatagramDelivery_u8 (x : DatagramDelivery) : Z :=
  match x with
  | NotApplicable => net_DELIVERY_NOT_APPLICABLE
  | DeliveryNative => net_DELIVERY_NATIVE_DATAGRAM
  | ReliableTunnel => net_DELIVERY_RELIABLE_TUNNEL
  end.
Definition DatagramDelivery_try_from (value : Z) : result Error DatagramDelivery :=
  if value =? DatagramDelivery_u8 NotApplicable then Ok NotApplicable
  else if value =? DatagramDelivery_u8 DeliveryNative then Ok DeliveryNative
  else if value =? DatagramDelivery_u8 ReliableTunnel then Ok ReliableTunnel
  else Err (Invalid "Net selected datagram delivery").
#[export] Instance DatagramDelivery_Tag : Tag DatagramDelivery_u8 DatagramDelivery_try_from (λ _, True).
Proof. tag_laws. Qed.

Record Endpoint := mkEndpoint {
  ep_flow_handle : Z; ep_mode : FlowMode; ep_direction : FlowDirection; ep_selected_delivery : DatagramDelivery;
  ep_max_datagram_payload : Z; ep_server_instance_limit : Z; ep_max_message_bytes : Z; ep_local_address : option Address;
  ep_peer_address : Address; ep_negotiated_alpn : list byte; ep_descriptor : option Descriptor; ep_extensions : Extensions
}.

Definition validate_flow_descriptor (d : Descriptor) (mode : FlowMode) (direction : FlowDirection) : result Error () :=
  _ ← Descriptor_validate d;
  transfer_mode ← match mode with
                  | FlowByte => Ok ModeByte
                  | FlowMessage => Ok ModeMessage
                  | FlowDatagram => Err (Invalid "Transfer for Net datagram endpoint")
                  end;
  _ ← reject_if (negb (bool_decide (td_mode d = transfer_mode)) || negb (bool_decide (td_direction d = transfer_direction direction))
                 || negb (td_content_family d =? family_NET) || negb (td_content_kind d =? as_u16 net_FLOW_CONTENT_KIND)
                 || negb (td_content_version d =? net_VERSION))
        (Invalid "Net flow Transfer descriptor");
  sensitive ← Descriptor_sensitive_content d;
  reject_if (negb sensitive || (net_MAX_BUFFERED_PER_FLOW <? td_max_chunk_bytes d)) (Invalid "Net flow Transfer descriptor").

Definition Endpoint_validate_mode (v : Endpoint) : result Error () :=
  match ep_mode v with
  | FlowDatagram =>
      reject_if (negb (Address_is_datagram (ep_peer_address v)) || is_some (ep_descriptor v)
                 || bool_decide (ep_selected_delivery v = NotApplicable) || (ep_max_datagram_payload v =? 0)
                 || (net_MAX_DATAGRAM_PAYLOAD <? ep_max_datagram_payload v) || negb (ep_server_instance_limit v =? 0)
                 || negb (ep_max_message_bytes v =? 0) || negb (is_nil (ep_negotiated_alpn v)))
        (Invalid "Net datagram endpoint")
  | _ =>
      _ ← reject_if (Address_is_datagram (ep_peer_address v) || negb (bool_decide (ep_selected_delivery v = NotApplicable))
                     || negb (ep_max_datagram_payload v =? 0))
            (Invalid "Net reliable endpoint");
      descriptor ← ok_or (ep_descriptor v) (Invalid "missing Net Transfer descriptor");
      _ ← validate_flow_descriptor descriptor (ep_mode v) (ep_direction v);
      _ ← reject_if (bool_decide (ep_mode v = FlowByte) && negb (ep_max_message_bytes v =? 0)) (Invalid "Net BYTE maximum message bytes");
      _ ← reject_if (bool_decide (ep_mode v = FlowMessage)
                     && ((ep_max_message_bytes v =? 0) || negb (td_max_item_bytes descriptor =? ep_max_message_bytes v)))
            (Invalid "Net MESSAGE maximum message bytes");
      reject_if (negb (Address_is_tcp (ep_peer_address v)) && negb (is_nil (ep_negotiated_alpn v))) (Invalid "Net ALPN on non-TCP endpoint")
  end.

Definition Endpoint_validate (v : Endpoint) : result Error () :=
  _ ← net_validate_handle (ep_flow_handle v);
  _ ← Address_validate (ep_peer_address v);
  _ ← match ep_local_address v with Some address => Address_validate address | None => Ok () end;
  _ ← reject_if (net_MAX_ALPN_BYTES <? len (ep_negotiated_alpn v))
        (LimitExceeded "Net negotiated ALPN bytes" (len (ep_negotiated_alpn v)) net_MAX_ALPN_BYTES);
  _ ← Endpoint_validate_mode v;
  net_reject_unknown_required (ep_extensions v) [].

#[export] Instance Endpoint_encode_to : Encode Endpoint := fun v out =>
  _ ← Endpoint_validate v;
  let out := push_u8 (push_u8 (put_u64 out (ep_flow_handle v)) (FlowMode_u8 (ep_mode v))) (fd_bits (ep_direction v)) in
  let out := push_u8 (push_u8 out (DatagramDelivery_u8 (ep_selected_delivery v))) 0 in
  let out := put_u32 (put_u32 out (ep_max_datagram_payload v)) (ep_server_instance_limit v) in
  out ← put_optional (ep_local_address v) (put_u64 out (ep_max_message_bytes v));
  out ← put_nested (ep_peer_address v) out;
  out ← put_bytes_u16 out (ep_negotiated_alpn v);
  out ← put_optional (ep_descriptor v) out;
  Extensions_encode_tail (ep_extensions v) out.

Definition Endpoint_read : decoder Endpoint :=
  flow_handle ← dec_u64;
  mode ← dec_tag FlowMode_try_from;
  direction ← dec_tag FlowDirection_from_bits;
  selected_delivery ← dec_tag DatagramDelivery_try_from;
  reserved ← dec_u8;
  _ ← reject (negb (reserved =? 0)) (Invalid "Net endpoint reserved byte");
  max_datagram_payload ← dec_u32;
  server_instance_limit ← dec_u32;
  max_message_bytes ← dec_u64;
  local_address ← dec_optional;
  peer_address ← dec_nested;
  negotiated_alpn ← dec_len_bytes_u16;
  descriptor ← dec_optional;
  extensions ← dec_extensions;
  _ ← dec_finish;
  mret (mkEndpoint flow_handle mode direction selected_delivery max_datagram_payload server_instance_limit max_message_bytes
          local_address peer_address negotiated_alpn descriptor extensions).

#[export] Instance Endpoint_decode : Decode Endpoint := fun input =>
  value ← run Endpoint_read (Decoder_new input);
  _ ← Endpoint_validate value;
  Ok value.

(** ** Datagram statistics *)

Record DatagramStats := mkDatagramStats {
  ds_flow_handle : Z; ds_revision : Z; ds_final_stats : bool; ds_client_to_peer_delivered : Z;
  ds_peer_to_client_delivered : Z; ds_client_oversized_drops : Z; ds_peer_oversized_drops : Z;
  ds_client_congestive_drops : Z; ds_peer_congestive_drops : Z; ds_transport_errors : Z;
  ds_extensions : Extensions
}.

#[export] Instance DatagramStats_encode_to : Encode DatagramStats := fun v out =>
  _ ← net_validate_handle (ds_flow_handle v);
  _ ← reject_if (ds_revision v =? 0) (Invalid "zero Net datagram-stats revision");
  _ ← net_reject_unknown_required (ds_extensions v) [];
  let out := put_u64 out (ds_flow_handle v) in
  let out := put_u64 out (ds_revision v) in
  let out := put_u16 out (if ds_final_stats v then as_u16 net_DATAGRAM_STATS_FINAL else 0) in
  let out := put_u16 out 0 in
  let out := put_u64 out (ds_client_to_peer_delivered v) in
  let out := put_u64 out (ds_peer_to_client_delivered v) in
  let out := put_u64 out (ds_client_oversized_drops v) in
  let out := put_u64 out (ds_peer_oversized_drops v) in
  let out := put_u64 out (ds_client_congestive_drops v) in
  let out := put_u64 out (ds_peer_congestive_drops v) in
  let out := put_u64 out (ds_transport_errors v) in
  Extensions_encode_tail (ds_extensions v) out.

Definition DatagramStats_read : decoder DatagramStats :=
  flow_handle ← dec_u64;
  revision ← dec_u64;
  flags ← dec_u16;
  _ ← reject (has_other_bits flags (as_u16 net_DATAGRAM_STATS_FINAL)) (Invalid "Net datagram-stats flags or reserved field");
  reserved ← dec_u16;
  _ ← reject (negb (reserved =? 0)) (Invalid "Net datagram-stats flags or reserved field");
  client_to_peer_delivered ← dec_u64;
  peer_to_client_delivered ← dec_u64;
  client_oversized_drops ← dec_u64;
  peer_oversized_drops ← dec_u64;
  client_congestive_drops ← dec_u64;
  peer_congestive_drops ← dec_u64;
  transport_errors ← dec_u64;
  extensions ← dec_extensions;
  _ ← dec_finish;
  mret (mkDatagramStats flow_handle revision (has_bits flags (as_u16 net_DATAGRAM_STATS_FINAL))
          client_to_peer_delivered peer_to_client_delivered client_oversized_drops peer_oversized_drops
          client_congestive_drops peer_congestive_drops transport_errors extensions).

#[export] Instance DatagramStats_decode : Decode DatagramStats := fun input =>
  value ← run DatagramStats_read (Decoder_new input);
  _ ← encode_to value [];
  Ok value.


(** * Wire laws *)

(** ** Addresses *)

Definition UnixName_bytes (v : UnixName) : list byte := [byte_of (UnixNameKind_u8 (un_kind v))] ++ zeros 3 ++ lp32 (un_name v).
Definition UnixName_fits (v : UnixName) : Prop := UnixName_validate v = Ok () ∧ len (un_name v) <= U32_MAX.

#[export] Instance UnixName_Field : Field UnixName_encode_to UnixName_decode_from UnixName_bytes UnixName_fits (λ _, True).
Proof.
  split.
  - intros v out o. unfold UnixName_encode_to, UnixName_fits, UnixName_bytes. split.
    + intros H. enc_inv_nested. split; [bytes_eq|done].
    + intros (-> & Hv & Hl). enc_again.
  - intros v _ [Hv Hl]. unfold UnixName_decode_from, UnixName_bytes. read_layout. destruct v. read_layout.
  - intros d l v d' Hd H. unfold UnixName_decode_from in H. law_read. unfold UnixName_bytes, UnixName_fits. cbn. rewrite <- ?app_assoc. eauto 10.
Qed.

Definition Address_wf (a : Address) : Prop :=
  match a with
  | AddressTcp host port | AddressUdp host port => utf8_valid host = true ∧ is_u16 port
  | AddressWindowsPipe _ name => utf8_valid name = true
  | _ => True
  end.
Definition Address_body_bytes (a : Address) : list byte :=
  match a with
  | AddressTcp host port | AddressUdp host port => lp16 host ++ to_le 2 port ++ to_le 2 0
  | AddressUnixStream name | AddressUnixDatagram name | AddressUnixSeqpacket name => UnixName_bytes name
  | AddressWindowsPipe requested_mode name => [byte_of (PipeMode_u8 requested_mode)] ++ zeros 3 ++ lp16 name
  end.
Definition Address_fits (a : Address) : Prop :=
  match a with
  | AddressTcp host _ | AddressUdp host _ => len host <= U16_MAX
  | AddressUnixStream name | AddressUnixDatagram name | AddressUnixSeqpacket name => UnixName_fits name
  | AddressWindowsPipe _ name => len name <= U16_MAX
  end.

Lemma Address_encode_body_ok a out o : Address_encode_body a out = Ok o ↔ o = out ++ Address_body_bytes a ∧ Address_fits a.
Proof.
  destruct a; cbn [Address_encode_body Address_body_bytes Address_fits]; try apply field_put.
  all: split; [intros H; enc_inv_nested; split; [bytes_eq|done]|intros [-> Hl]; enc_again].
Qed.

Lemma Address_reads_body a : Address_wf a → Address_fits a → reads (Address_read_body (Address_kind a)) (Address_body_bytes a) a.
Proof.
  destruct a; cbn [Address_wf Address_body_bytes Address_fits]; intros Hw Hf; destruct_and?; unfold Address_read_body, Address_kind; take_branch.
  all: unfold Address_read_host; read_layout.
Qed.

Lemma Address_spells_body k : spells (Address_read_body k) Address_body_bytes (λ a, Address_wf a ∧ Address_fits a ∧ k = Address_kind a).
Proof.
  intros d l a d' Hd H. unfold Address_read_body, Address_read_host in H. split_match H; law_read; try done;
    match goal with H : (_ =? _) = true |- _ => apply Z.eqb_eq in H; subst end; destruct_and?;
    eexists; (split; [cbn; rewrite <- ?app_assoc; reflexivity|]); split_and!; done.
Qed.

#[local] Hint Extern 1 (spells (Address_read_body ?k) _ _) => exact (Address_spells_body k) : spells.

#[export] Instance Address_WireLaws : WireLaws Address Address_wf.
Proof.
  eapply wire_laws_direct; [|reflexivity|..].
  - intros v out o. unfold_encoder. setoid_rewrite bind_ok. setoid_rewrite Address_encode_body_ok. split.
    + intros ([] & Hv & -> & Hf). exists (push_u8 [] (Address_kind v) ++ zeros 3 ++ Address_body_bytes v). split; [|bytes_eq].
      exists (). split; [done|]. split; [bytes_eq|done].
    + intros (bs & ([] & Hv & -> & Hf) & ->). exists (). split; [done|]. split; [bytes_eq|done].
  - intros v bs Hw He. unfold encode, encode_to in He. unfold_head He. apply bind_ok in He as ([] & Hv & [-> Hf]%Address_encode_body_ok).
    split; [done|]. law_reader. reads_step ltac:(apply reads_u8; by destruct v). reads_step ltac:(apply (reads_reserved 3)).
    reads_step ltac:(by apply zeros_ok). reads_step ltac:(by apply Address_reads_body). read_layout.
  - intros bs v d' Hd H Hc. unfold_head H.
    law_read. destruct_and?. subst. split; [done|]. unfold_encoder. apply bind_ok. exists (). split; [done|]. apply Address_encode_body_ok. split; [|done].
    rewrite app_nil_r. bytes_eq.
Qed.

Lemma Address_nonempty (v : Address) : encode v ≠ Ok [].
Proof.
  intros H. unfold encode, encode_to in H. unfold_head H. apply bind_ok in H as (_ & _ & [E _]%Address_encode_body_ok). by apply (f_equal length) in E.
Qed.
#[export] Instance Address_optional : Field (put_optional (A := Address)) dec_optional optional_bytes optional_fits (optional_wf (wf := Address_wf)) :=
  optional_field Address_nonempty.

(** ** TLS *)

#[export] Instance protocol_Field : Field put_protocol dec_len_bytes_u16 lp16 (λ p, len p <= U16_MAX) (λ _, True).
Proof.
  split.
  - intros p out o. apply put_bytes_u16_ok.
  - intros p _ Hl. by apply reads_len_bytes_u16.
  - intros d l p d' Hd H. destruct (spells_len_bytes_u16 _ _ _ _ Hd H) as (r & -> & Hd' & Hl). eauto 8.
Qed.

Lemma len_protocol p : 2 <= len (lp16 p).
Proof. unfold lp16. rewrite len_app, len_to_le. pose proof (len_nonneg p). lia. Qed.

Definition TlsOptions_wf (v : TlsOptions) : Prop := utf8_valid (tls_sni v) = true ∧ exts_wf (tls_extensions v).
#[export] Instance TlsOptions_WireLaws : WireLaws TlsOptions TlsOptions_wf.
Proof.
  eapply wire_laws_direct; [law_appends|reflexivity|..].
  - intros v bs Hw He. law_written v Hw He. split; [done|].
    assert ((net_MAX_ALPN_PROTOCOLS <? len (tls_alpn v)) = false) by (unfold TlsOptions_validate in Hv; by inv_ok).
    law_reader. read_layout. reads_step ltac:(apply field_reads_counted; [lia|by intros; apply len_protocol|by apply Forall_true|assumption]).
    destruct v. read_layout.
  - intros bs v d' Hd H Hc. unfold_head H. law_read. destruct_and?. law_count.
    law_wf. rewrite app_nil_r. unfold_encoder. enc_again.
Qed.

Lemma TlsOptions_nonempty (v : TlsOptions) : encode v ≠ Ok [].
Proof.
  intros H. remember [] as bs eqn:E in H. unfold encode, encode_to in H. unfold_head H. enc_inv_nested. by apply (f_equal length) in E.
Qed.
#[export] Instance TlsOptions_optional : Field (put_optional (A := TlsOptions)) dec_optional optional_bytes optional_fits (optional_wf (wf := TlsOptions_wf)) :=
  optional_field TlsOptions_nonempty.

(** ** Opens and closes *)

Definition net_Open_wf (v : net_Open) : Prop :=
  length (no_operation_id v) = 16%nat ∧ Address_wf (no_address v) ∧ is_u64 (no_initial_receive_credit v)
  ∧ optional_wf (wf := TlsOptions_wf) (no_tls_options v) ∧ exts_wf (no_extensions v).
#[export] Instance net_Open_WireLaws : WireLaws net_Open net_Open_wf.
Proof. law_direct. Qed.

Definition net_Close_wf (v : net_Close) : Prop := is_u64 (nc_flow_handle v) ∧ length (nc_operation_id v) = 16%nat ∧ exts_wf (nc_extensions v).
#[export] Instance net_Close_WireLaws : WireLaws net_Close net_Close_wf.
Proof. law_recheck. Qed.

(** ** Endpoints *)

Definition FlowDirection_wf (d : FlowDirection) : Prop := FlowDirection_from_bits (fd_bits d) = Ok d.
#[export] Instance FlowDirection_Tag : Tag fd_bits FlowDirection_from_bits FlowDirection_wf.
Proof.
  split; [done|..].
  - intros z a H. unfold FlowDirection_wf. unfold FlowDirection_from_bits in *. inv_ok. cbn. by rewrite Hv.
  - intros [z] H. unfold FlowDirection_wf, FlowDirection_from_bits in H. cbn in *. inv_ok. apply orb_false_iff in Hv as [_ Hv].
    unfold has_other_bits in Hv. rewrite negb_false_iff, Z.eqb_eq, <- Z.ldiff_land in Hv.
    rewrite <- (Z.lor_ldiff_and z net_DIRECTION_DUPLEX), Hv, Z.lor_0_l. change net_DIRECTION_DUPLEX with (Z.ones 2).
    rewrite Z.land_ones by lia. pose proof (Z.mod_pos_bound z (2 ^ 2)). lia.
Qed.

Lemma Descriptor_nonempty (v : Descriptor) : encode v ≠ Ok [].
Proof.
  intros H. remember [] as bs eqn:E in H. unfold encode, encode_to in H. unfold_head H. enc_inv_nested. by apply (f_equal length) in E.
Qed.
#[export] Instance Descriptor_optional : Field (put_optional (A := Descriptor)) dec_optional optional_bytes optional_fits (optional_wf (wf := Descriptor_wf)) :=
  optional_field Descriptor_nonempty.

Definition Endpoint_wf (v : Endpoint) : Prop :=
  is_u64 (ep_flow_handle v) ∧ FlowDirection_wf (ep_direction v) ∧ is_u32 (ep_max_datagram_payload v) ∧ is_u32 (ep_server_instance_limit v)
  ∧ is_u64 (ep_max_message_bytes v) ∧ optional_wf (wf := Address_wf) (ep_local_address v) ∧ Address_wf (ep_peer_address v)
  ∧ optional_wf (wf := Descriptor_wf) (ep_descriptor v) ∧ exts_wf (ep_extensions v).
#[export] Instance Endpoint_WireLaws : WireLaws Endpoint Endpoint_wf.
Proof. law_direct. Qed.

Definition DatagramStats_wf (v : DatagramStats) : Prop :=
  is_u64 (ds_flow_handle v) ∧ is_u64 (ds_revision v) ∧ is_u64 (ds_client_to_peer_delivered v) ∧ is_u64 (ds_peer_to_client_delivered v)
  ∧ is_u64 (ds_client_oversized_drops v) ∧ is_u64 (ds_peer_oversized_drops v) ∧ is_u64 (ds_client_congestive_drops v)
  ∧ is_u64 (ds_peer_congestive_drops v) ∧ is_u64 (ds_transport_errors v) ∧ exts_wf (ds_extensions v).
#[export] Instance DatagramStats_WireLaws : WireLaws DatagramStats DatagramStats_wf.
Proof.
  eapply wire_laws_recheck; [law_appends|reflexivity|..].
  - intros v bs Hw He. law_written v Hw He. destruct (flag_bit_facts (ds_final_stats v)) as (? & ? & Hb). law_reader.
    change (as_u16 net_DATAGRAM_STATS_FINAL) with 1. read_layout. rewrite Hb. destruct v. read_layout.
  - intros bs v d' Hd H. unfold_head H. law_read. change (as_u16 net_DATAGRAM_STATS_FINAL) with 1 in *. destruct_and?. law_wf.
    rewrite app_nil_r. intros bs' He. unfold encode, encode_to in He; unfold_head He. cbn [ds_final_stats] in He.
    change (as_u16 net_DATAGRAM_STATS_FINAL) with 1 in He. rewrite flag_bit_inv in He by (lia || done). enc_inv_nested. bytes_eq.
Qed.
