(* ===== verification/MuxFlows.v ===== *)
(** * MuxFlows: the receive side of a session's Net datagram flows
      ([crates/client/src/net.rs]; [DatagramStats] of [crates/yas/src/net.rs])

    Each flow has a bounded queue that drops its oldest datagrams; the session
    reader feeds it through [dispatch_event]. *)

From S2P Require Import Prelude Schema Codec CodecFacts Wire Datagrams Frame Transfer State NetWire Native NativeFramed.

Definition net_event_DATAGRAM_STATS : Z := 0x0001.

(** ** Flows *)

Definition DATAGRAM_QUEUE_BYTES : Z := 1024 * 1024.

(** [DatagramState], with its [DatagramReceive] under the lock. *)
Record DatagramState := mkDatagramState {
  fl_delivery : DatagramDelivery; fl_max_payload : Z; fl_max_queue : Z; fl_queue : list (list byte);
  fl_queued_bytes : Z; fl_last_sequence : option Z; fl_stats : option DatagramStats;
  fl_error : option ClientError
}.

Definition DatagramState_new (delivery : DatagramDelivery) (max_payload max_queue : Z) : DatagramState :=
  mkDatagramState delivery max_payload (Z.max max_queue 1) [] 0 None None None.

Definition fl_set_queue (queue : list (list byte)) (queued_bytes : Z) (f : DatagramState) : DatagramState :=
  mkDatagramState (fl_delivery f) (fl_max_payload f) (fl_max_queue f) queue queued_bytes (fl_last_sequence f)
    (fl_stats f) (fl_error f).
Definition fl_set_last_sequence (s : option Z) (f : DatagramState) : DatagramState :=
  mkDatagramState (fl_delivery f) (fl_max_payload f) (fl_max_queue f) (fl_queue f) (fl_queued_bytes f) s
    (fl_stats f) (fl_error f).
Definition fl_set_stats (s : option DatagramStats) (f : DatagramState) : DatagramState :=
  mkDatagramState (fl_delivery f) (fl_max_payload f) (fl_max_queue f) (fl_queue f) (fl_queued_bytes f)
    (fl_last_sequence f) s (fl_error f).
Definition fl_set_error (e : option ClientError) (f : DatagramState) : DatagramState :=
  mkDatagramState (fl_delivery f) (fl_max_payload f) (fl_max_queue f) (fl_queue f) (fl_queued_bytes f)
    (fl_last_sequence f) (fl_stats f) e.

(** The loop that makes room: the oldest go first. *)
Fixpoint flow_make_room (max_queue incoming : Z) (queue : list (list byte)) (queued_bytes : Z) :
    list (list byte) * Z :=
  if (max_queue <=? len queue) || (DATAGRAM_QUEUE_BYTES <? queued_bytes + incoming) then
    match queue with
    | [] => (queue, queued_bytes)
    | dropped :: rest => flow_make_room max_queue incoming rest (saturating_sub queued_bytes (len dropped))
    end
  else (queue, queued_bytes).

Definition flow_push (d : Datagram) : call DatagramState () := fun f =>
  if fl_max_payload f <? len (dg_payload d) then
    (Err (client_protocol "YAS Net datagram exceeds its flow's maximum"), f)
  else
    let tunnelled := bool_decide (fl_delivery f = ReliableTunnel) in
    if tunnelled && match fl_last_sequence f with Some sequence => dg_sequence d <=? sequence | None => false end then
      (Err (client_protocol "YAS Net datagram sequence did not increase"), f)
    else
      let f := if tunnelled then fl_set_last_sequence (Some (dg_sequence d)) f else f in
      let (queue, queued_bytes) := flow_make_room (fl_max_queue f) (len (dg_payload d)) (fl_queue f) (fl_queued_bytes f) in
      if len (dg_payload d) <=? DATAGRAM_QUEUE_BYTES then
        (Ok (), fl_set_queue (queue ++ [dg_payload d]) (queued_bytes + len (dg_payload d)) f)
      else (Ok (), fl_set_queue queue queued_bytes f).

Definition flow_stats (stats : DatagramStats) (f : DatagramState) : DatagramState :=
  if match fl_stats f with None => true | Some previous => ds_revision previous <? ds_revision stats end then
    fl_set_stats (Some stats) f
  else f.

Definition flow_fail (error : ClientError) (f : DatagramState) : DatagramState :=
  match fl_error f with None => fl_set_error (Some error) f | Some _ => f end.

(** What [DatagramFlow::recv] finds: [None] is still nothing to return. *)
Definition flow_recv : call DatagramState (option (option (list byte))) := fun f =>
  match fl_queue f with
  | payload :: rest => (Ok (Some (Some payload)), fl_set_queue rest (saturating_sub (fl_queued_bytes f) (len payload)) f)
  | [] =>
      match fl_error f with
      | Some error => (Err error, f)
      | None =>
          if match fl_stats f with Some stats => ds_final_stats stats | None => false end then (Ok (Some None), f)
          else (Ok None, f)
      end
  end.

(** [dispatch_event], on the registry of flows. *)
Definition flow_dispatch (frame : Frame) (lossy : bool) : call (gmap Z DatagramState) () := fun flows =>
  if negb (fh_sensitive (fr_header frame)) then
    (if lossy then Ok () else Err (client_protocol "YAS Net event omitted the SENSITIVE flag"), flows)
  else if fh_kind (fr_header frame) =? net_event_DATAGRAM then
    match (decode (fr_payload frame) : result Error Datagram) with
    | Err error => (if lossy then Ok () else Err (wire_error error), flows)
    | Ok datagram =>
        match flows !! dg_flow_handle datagram with
        | None => (Ok (), flows)
        | Some flow =>
            if lossy && negb (bool_decide (fl_delivery flow = DeliveryNative)) then (Ok (), flows)
            else
              let (r, flow) := flow_push datagram flow in
              (match r with Err error => if lossy then Ok () else Err error | Ok u => Ok u end,
               <[dg_flow_handle datagram := flow]> flows)
        end
    end
  else if fh_kind (fr_header frame) =? net_event_DATAGRAM_STATS then
    if lossy then (Ok (), flows)
    else
      match (decode (fr_payload frame) : result Error DatagramStats) with
      | Err error => (Err (wire_error error), flows)
      | Ok stats =>
          match flows !! ds_flow_handle stats with
          | None => (Ok (), flows)
          | Some flow => (Ok (), <[ds_flow_handle stats := flow_stats stats flow]> flows)
          end
      end
  else (if lossy then Ok () else Err (client_protocol "unexpected YAS Net event"), flows).

(** ** The queue is bounded and keeps what came last *)

Definition queued (l : list (list byte)) : Z := foldr (λ p n, len p + n) 0 l.

Record Flow_ok (f : DatagramState) : Prop := {
  fk_bytes : fl_queued_bytes f = queued (fl_queue f);
  fk_bounded : queued (fl_queue f) <= DATAGRAM_QUEUE_BYTES;
  fk_count : len (fl_queue f) <= fl_max_queue f;
  fk_room : 1 <= fl_max_queue f
}.

Lemma queued_app l1 l2 : queued (l1 ++ l2) = queued l1 + queued l2.
Proof. unfold queued. induction l1 as [|p l1 IH]; [done|]. cbn. lia. Qed.
Lemma queued_nonneg l : 0 <= queued l.
Proof. unfold queued. induction l as [|p l IH]; [done|]. cbn. pose proof (len_nonneg p). lia. Qed.

Lemma flow_make_room_ok max incoming queue bytes queue' bytes' :
  1 <= max → bytes = queued queue → flow_make_room max incoming queue bytes = (queue', bytes') →
  bytes' = queued queue' ∧ (∃ dropped, queue = dropped ++ queue') ∧ len queue' < max
  ∧ (queue' = [] ∨ bytes' + incoming <= DATAGRAM_QUEUE_BYTES).
Proof.
  intros Hm. revert bytes. induction queue as [|p queue IH]; intros bytes Hb H; cbn [flow_make_room] in H.
  - assert (queue' = [] ∧ bytes' = bytes) as [-> ->] by (case_match; by simplify_eq).
    split_and!; [done|by exists []|rewrite len_nil; lia|by left].
  - destruct (orb _ _) eqn:E.
    + apply IH in H as (H1 & (dropped & ->) & H2 & H3).
      * split_and!; try done. by exists (p :: dropped).
      * rewrite Hb. unfold saturating_sub, queued. cbn [foldr]. fold (queued queue). pose proof (queued_nonneg queue). lia.
    + injection H as <- <-. apply orb_false_iff in E as [E1 E2]. split_and!; [done|by exists []|lia|right; lia].
Qed.

Lemma flow_push_ok d f : Flow_ok f → Flow_ok (flow_push d f).2.
Proof.
  intros Hf. pose proof Hf as [H1 H2 H3 H4]. unfold flow_push. case_match; [exact Hf|]. cbv zeta. case_match; [exact Hf|].
  set (g := if bool_decide _ then _ else f).
  assert (fl_max_queue g = fl_max_queue f ∧ fl_queue g = fl_queue f ∧ fl_queued_bytes g = fl_queued_bytes f) as (Eq & Ew & Eb)
    by (subst g; by destruct (bool_decide _)).
  rewrite Eq, Ew, Eb. destruct (flow_make_room _ _ _ _) as [queue bytes] eqn:E.
  apply flow_make_room_ok in E as (-> & (dropped & Hd) & Hc & Hr); [|done|done].
  rewrite Hd, queued_app in H2. pose proof (queued_nonneg dropped).
  assert (queued [dg_payload d] = len (dg_payload d)) as Hone by (unfold queued; cbn; lia).
  destruct (Z.leb_spec (len (dg_payload d)) DATAGRAM_QUEUE_BYTES); split;
    cbn [snd fl_set_queue fl_queued_bytes fl_queue fl_max_queue]; rewrite ?queued_app, ?len_app, ?Eq, ?Hone; try lia.
  - destruct Hr as [-> | Hr]; [cbn; lia|]. lia.
  - change (len [dg_payload d]) with 1. lia.
Qed.

(** What is kept is the newest, in order. *)
Lemma flow_push_keeps_newest d f :
  Flow_ok f → (flow_push d f).1 = Ok () → len (dg_payload d) <= DATAGRAM_QUEUE_BYTES →
  ∃ dropped kept, fl_queue f = dropped ++ kept ∧ fl_queue (flow_push d f).2 = kept ++ [dg_payload d].
Proof.
  intros [H1 H2 H3 H4] Hok Hl. unfold flow_push in *. case_match; [done|]. case_match; [done|]. cbv zeta in *.
  set (g := if bool_decide _ then _ else f) in *.
  assert (fl_max_queue g = fl_max_queue f ∧ fl_queue g = fl_queue f ∧ fl_queued_bytes g = fl_queued_bytes f) as (Eq & Ew & Eb)
    by (subst g; by destruct (bool_decide _)).
  rewrite Eq, Ew, Eb in *. destruct (flow_make_room _ _ _ _) as [queue bytes] eqn:E.
  apply flow_make_room_ok in E as (_ & (dropped & Hd) & _ & _); [|done|done].
  apply Z.leb_le in Hl. rewrite Hl in *. by exists dropped, queue.
Qed.
