(* ===== verification/Mux.v ===== *)
(** * Mux: the multiplexed client ([crates/client/src/client.rs])

    One session, any number of calls on it. The reader task routes inbound
    frames through the [Router]; the writer task sends what was queued. The
    queues tokio keeps between tasks are part of the state: an unbounded
    channel is a [FrameQueue], a oneshot the [Outcome] of a call, each under an
    id drawn from [mx_fresh]. *)

From S2P Require Import Prelude Ordered Schema Codec Kv FamilyLimits CodecFacts Wire Datagrams Frame Transfer State Core CoreControl Native NativeFramed NetWire MuxFlows.

Definition MAX_ORPHAN_BYTES : Z := transport_RECOMMENDED_BUFFERED.
Definition MAX_RELEASED_TRANSFERS : Z := 4096.

Inductive Route :=
  | RouteTransfer (transfer_id : Z)
  | RouteState (family subscription_id : Z)
  | RouteProcessExit (handle : Z).

#[global] Instance Route_eq_dec : EqDecision Route.
Proof. solve_decision. Defined.
#[global] Instance Route_countable : Countable Route.
Proof.
  apply (inj_countable'
           (λ r, match r with
                 | RouteTransfer i => inl i
                 | RouteState f s => inr (inl (f, s))
                 | RouteProcessExit h => inr (inr h)
                 end : Z + (Z * Z + Z))
           (λ x, match x with
                 | inl i => RouteTransfer i
                 | inr (inl (f, s)) => RouteState f s
                 | inr (inr h) => RouteProcessExit h
                 end)).
  by intros [].
Defined.

Definition Hook : Type := ResultPrefix → list Route.

(** An unbounded channel of frames: what is in it, and whether its receiver lives. *)
Record FrameQueue := mkQueue { fq_frames : list Frame; fq_receiver : bool }.

(** Receivers are queue ids, a [ReportLost] is an id in [mx_lost] once marked. *)
Record Reply := mkReply { ry_prefix : ResultPrefix; ry_routes : list (Route * Z); ry_report_lost : option Z }.

(** A oneshot whose receiver lives. *)
Inductive Outcome := Awaiting | Replied (r : result ClientError Reply) | SenderDropped.

(** A call in progress: its request id and the oneshot it waits on. *)
Record CallState := mkCall { cs_request_id : Z; cs_outcome : Outcome }.

Record PendingCall := mkPending { pd_reply : Z; pd_hook : option Hook }.

Record Router := mkRouter {
  ro_requests : gmap Z PendingCall; ro_routes : gmap Route Z; ro_orphans : gmap Route (list Frame);
  ro_orphan_order : list Route; ro_orphan_bytes : Z; ro_released : gset Route;
  ro_released_order : list Route; ro_report_watch : gmap Z Z; ro_closed : option ClientError
}.

Definition Router_default : Router := mkRouter ∅ ∅ ∅ [] 0 ∅ [] ∅ None.

Definition ro_set_requests (requests : gmap Z PendingCall) (r : Router) : Router :=
  mkRouter requests (ro_routes r) (ro_orphans r) (ro_orphan_order r) (ro_orphan_bytes r) (ro_released r)
    (ro_released_order r) (ro_report_watch r) (ro_closed r).
Definition ro_set_routes (routes : gmap Route Z) (r : Router) : Router :=
  mkRouter (ro_requests r) routes (ro_orphans r) (ro_orphan_order r) (ro_orphan_bytes r) (ro_released r)
    (ro_released_order r) (ro_report_watch r) (ro_closed r).
Definition ro_set_orphans (orphans : gmap Route (list Frame)) (order : list Route) (bytes : Z) (r : Router) : Router :=
  mkRouter (ro_requests r) (ro_routes r) orphans order bytes (ro_released r) (ro_released_order r)
    (ro_report_watch r) (ro_closed r).
Definition ro_set_released (released : gset Route) (order : list Route) (r : Router) : Router :=
  mkRouter (ro_requests r) (ro_routes r) (ro_orphans r) (ro_orphan_order r) (ro_orphan_bytes r) released order
    (ro_report_watch r) (ro_closed r).
Definition ro_set_report_watch (watch : gmap Z Z) (r : Router) : Router :=
  mkRouter (ro_requests r) (ro_routes r) (ro_orphans r) (ro_orphan_order r) (ro_orphan_bytes r) (ro_released r)
    (ro_released_order r) watch (ro_closed r).
Definition ro_set_closed (e : option ClientError) (r : Router) : Router :=
  mkRouter (ro_requests r) (ro_routes r) (ro_orphans r) (ro_orphan_order r) (ro_orphan_bytes r) (ro_released r)
    (ro_released_order r) (ro_report_watch r) e.

(** The session as its callers share it. [mx_outbound] is the writer's queue,
    [None] once the writer has gone; [mx_flows] the flows in the registry,
    [mx_ended_flows] those that were taken out when the session closed. *)
Record Mux := mkMux {
  mx_router : Router; mx_queues : gmap Z FrameQueue; mx_calls : gmap Z CallState; mx_lost : gset Z;
  mx_hello : ServerHello; mx_closed : option ClientError; mx_outbound : option (list Frame);
  mx_next_request_id : Z; mx_flows : gmap Z DatagramState; mx_ended_flows : list (Z * DatagramState); mx_fresh : Z
}.

Definition mx_set_router (r : Router) (m : Mux) : Mux :=
  mkMux r (mx_queues m) (mx_calls m) (mx_lost m) (mx_hello m) (mx_closed m) (mx_outbound m)
    (mx_next_request_id m) (mx_flows m) (mx_ended_flows m) (mx_fresh m).
Definition mx_set_queues (q : gmap Z FrameQueue) (m : Mux) : Mux :=
  mkMux (mx_router m) q (mx_calls m) (mx_lost m) (mx_hello m) (mx_closed m) (mx_outbound m)
    (mx_next_request_id m) (mx_flows m) (mx_ended_flows m) (mx_fresh m).
Definition mx_set_calls (c : gmap Z CallState) (m : Mux) : Mux :=
  mkMux (mx_router m) (mx_queues m) c (mx_lost m) (mx_hello m) (mx_closed m) (mx_outbound m)
    (mx_next_request_id m) (mx_flows m) (mx_ended_flows m) (mx_fresh m).
Definition mx_set_lost (l : gset Z) (m : Mux) : Mux :=
  mkMux (mx_router m) (mx_queues m) (mx_calls m) l (mx_hello m) (mx_closed m) (mx_outbound m)
    (mx_next_request_id m) (mx_flows m) (mx_ended_flows m) (mx_fresh m).
Definition mx_set_hello (h : ServerHello) (m : Mux) : Mux :=
  mkMux (mx_router m) (mx_queues m) (mx_calls m) (mx_lost m) h (mx_closed m) (mx_outbound m)
    (mx_next_request_id m) (mx_flows m) (mx_ended_flows m) (mx_fresh m).
Definition mx_set_closed (e : option ClientError) (m : Mux) : Mux :=
  mkMux (mx_router m) (mx_queues m) (mx_calls m) (mx_lost m) (mx_hello m) e (mx_outbound m)
    (mx_next_request_id m) (mx_flows m) (mx_ended_flows m) (mx_fresh m).
Definition mx_set_outbound (o : option (list Frame)) (m : Mux) : Mux :=
  mkMux (mx_router m) (mx_queues m) (mx_calls m) (mx_lost m) (mx_hello m) (mx_closed m) o
    (mx_next_request_id m) (mx_flows m) (mx_ended_flows m) (mx_fresh m).
Definition mx_set_next_request_id (id : Z) (m : Mux) : Mux :=
  mkMux (mx_router m) (mx_queues m) (mx_calls m) (mx_lost m) (mx_hello m) (mx_closed m) (mx_outbound m)
    id (mx_flows m) (mx_ended_flows m) (mx_fresh m).
Definition mx_set_flows (f : gmap Z DatagramState) (ended : list (Z * DatagramState)) (m : Mux) : Mux :=
  mkMux (mx_router m) (mx_queues m) (mx_calls m) (mx_lost m) (mx_hello m) (mx_closed m) (mx_outbound m)
    (mx_next_request_id m) f ended (mx_fresh m).
Definition mx_set_fresh (n : Z) (m : Mux) : Mux :=
  mkMux (mx_router m) (mx_queues m) (mx_calls m) (mx_lost m) (mx_hello m) (mx_closed m) (mx_outbound m)
    (mx_next_request_id m) (mx_flows m) (mx_ended_flows m) n.

Definition on_router (f : Router → Router) (m : Mux) : Mux := mx_set_router (f (mx_router m)) m.

(** ** The router *)

(** [for frame in frames { orphan_bytes = orphan_bytes.saturating_sub(..) }] *)
Definition forget_bytes (frames : list Frame) (bytes : Z) : Z :=
  foldl (λ n f, saturating_sub n (len (fr_payload f))) bytes frames.

(** [orphan_order.retain(|key| *key != route)] *)
Definition without (route : Route) (l : list Route) : list Route :=
  List.filter (λ r, negb (bool_decide (r = route))) l.

(** The part of [register] and [release] that takes a route's orphans. *)
Definition take_orphans (route : Route) (r : Router) : list Frame * Router :=
  match ro_orphans r !! route with
  | None => ([], r)
  | Some frames =>
      (frames, ro_set_orphans (delete route (ro_orphans r)) (without route (ro_orphan_order r))
                 (forget_bytes frames (ro_orphan_bytes r)) r)
  end.

(** [Router::register]: the id of the receiver's queue. *)
Definition register (route : Route) (m : Mux) : Z * Mux :=
  let (frames, r) := take_orphans route (mx_router m) in
  let r := ro_set_released (ro_released r ∖ {[route]}) (ro_released_order r) r in
  let id := mx_fresh m in
  let r := ro_set_routes (<[route := id]> (ro_routes r)) r in
  (id, mx_set_fresh (id + 1) (mx_set_queues (<[id := mkQueue frames true]> (mx_queues m)) (mx_set_router r m))).

(** [while released_order.len() > MAX_RELEASED_TRANSFERS], oldest first. *)
Fixpoint trim_released (released : gset Route) (order : list Route) : gset Route * list Route :=
  if MAX_RELEASED_TRANSFERS <? len order then
    match order with
    | [] => (released, order)
    | old :: order' => trim_released (released ∖ {[old]}) order'
    end
  else (released, order).

Definition router_release (route : Route) (r : Router) : Router :=
  let r := ro_set_routes (delete route (ro_routes r)) r in
  let r := match route with
           | RouteTransfer id => ro_set_report_watch (delete id (ro_report_watch r)) r
           | _ => r
           end in
  let r := (take_orphans route r).2 in
  if bool_decide (route ∈ ro_released r) then r
  else
    let (released, order) := trim_released ({[route]} ∪ ro_released r) (ro_released_order r ++ [route]) in
    ro_set_released released order r.

(** [Router::transfer_ended]; marking tells the waiters of that [ReportLost]. *)
Definition transfer_ended (transfer_id : Z) (reset : bool) (m : Mux) : Mux :=
  match ro_report_watch (mx_router m) !! transfer_id with
  | None => m
  | Some lost =>
      let m := on_router (λ r, ro_set_report_watch (delete transfer_id (ro_report_watch r)) r) m in
      if reset then mx_set_lost ({[lost]} ∪ mx_lost m) m else m
  end.

(** [while orphan_bytes > MAX_ORPHAN_BYTES]: whole routes, oldest first. *)
Fixpoint evict_orphans (orphans : gmap Route (list Frame)) (order : list Route) (bytes : Z) :
    gmap Route (list Frame) * list Route * Z :=
  if MAX_ORPHAN_BYTES <? bytes then
    match order with
    | [] => (orphans, order, bytes)
    | old :: order' =>
        match orphans !! old with
        | None => evict_orphans orphans order' bytes
        | Some frames => evict_orphans (delete old orphans) order' (forget_bytes frames bytes)
        end
    end
  else (orphans, order, bytes).

Definition park_orphan (route : Route) (frame : Frame) (r : Router) : Router :=
  let bytes := saturating_add_u64 (ro_orphan_bytes r) (len (fr_payload frame)) in
  let queue := default [] (ro_orphans r !! route) in
  let order := if is_nil queue then ro_orphan_order r ++ [route] else ro_orphan_order r in
  let '(orphans, order, bytes) := evict_orphans (<[route := queue ++ [frame]]> (ro_orphans r)) order bytes in
  ro_set_orphans orphans order bytes r.

Definition queue_alive (id : Z) (m : Mux) : bool :=
  match mx_queues m !! id with Some q => fq_receiver q | None => false end.
Definition push_frame (id : Z) (frame : Frame) (m : Mux) : Mux :=
  mx_set_queues (alter (λ q, mkQueue (fq_frames q ++ [frame]) (fq_receiver q)) id (mx_queues m)) m.

Definition route_deliver (route : Route) (frame : Frame) (m : Mux) : Mux :=
  match ro_routes (mx_router m) !! route with
  | Some id =>
      if queue_alive id m then push_frame id frame m
      else on_router (λ r, ro_set_routes (delete route (ro_routes r)) r) m
  | None =>
      if bool_decide (route ∈ ro_released (mx_router m)) then m
      else on_router (park_orphan route frame) m
  end.

(** A reply to a call; it is dropped when nobody waits any more, and the
    receivers it holds with it. *)
Definition drop_receivers (ids : list Z) (m : Mux) : Mux :=
  mx_set_queues (foldr (λ id q, alter (λ x, mkQueue (fq_frames x) false) id q) (mx_queues m) ids) m.

Definition answer_call (token : Z) (r : result ClientError Reply) (m : Mux) : Mux :=
  match mx_calls m !! token with
  | Some (mkCall id Awaiting) => mx_set_calls (<[token := mkCall id (Replied r)]> (mx_calls m)) m
  | _ => match r with Ok reply => drop_receivers (map snd (ry_routes reply)) m | Err _ => m end
  end.

(** The sender is dropped without a reply. *)
Definition drop_sender (token : Z) (m : Mux) : Mux :=
  mx_set_calls (alter (λ c, match cs_outcome c with Awaiting => mkCall (cs_request_id c) SenderDropped | _ => c end)
                  token (mx_calls m)) m.

(** [Router::fail]: every request is answered with the error. *)
Definition router_fail (error : ClientError) (m : Mux) : Mux :=
  let tokens := map (λ p, pd_reply p.2) (map_to_list (ro_requests (mx_router m))) in
  let m := foldr (λ token m, answer_call token (Err error) m) m tokens in
  on_router (λ r, mkRouter ∅ ∅ ∅ [] 0 (ro_released r) (ro_released_order r) ∅
                    (match ro_closed r with None => Some error | Some e => Some e end)) m.

(** [Shared::close], in one step: the source takes the router's lock, then the
    datagrams', then sets the closed flag. *)
Definition shared_close (error : ClientError) (m : Mux) : Mux :=
  let m := router_fail error m in
  let m := mx_set_flows ∅ (mx_ended_flows m ++ map_to_list (flow_fail error <$> mx_flows m)) m in
  match mx_closed m with None => mx_set_closed (Some error) m | Some _ => m end.

(** ** Calls *)

(** [Client::supports] *)
Definition mux_supports (family_id : Z) (class : Class_) (kind : Z) (m : Mux) : bool :=
  match d ← find_family family_id (mx_hello m); FamilyDescriptor_operation d class kind with
  | Some o => oper_server_accepts o
  | None => false
  end.

Definition has_family (family_id : Z) (m : Mux) : bool :=
  existsb (λ d, (fd_family_id d =? family_id) && match fd_runtime_state d with Available => true | _ => false end) (hs_families (mx_hello m)).

(** [next_request_id]: a second draw is needed only past the end of [u32]. *)
Fixpoint draw_request_id (fuel : nat) (counter : Z) : Z * Z :=
  let id := Z.lor counter 1 in
  let counter := as_u32 (counter + 2) in
  match fuel with
  | O => (id, counter)
  | S fuel' => if 1 <? id then (id, counter) else draw_request_id fuel' counter
  end.
Definition mux_next_request_id (m : Mux) : Z * Mux :=
  let (id, counter) := draw_request_id 1 (mx_next_request_id m) in
  (id, mx_set_next_request_id counter m).

Definition default_sensitive (family_id : Z) (class : Class_) (kind : Z) : bool :=
  match class with
  | Result => true
  | Request | Event =>
      let class := match class with Request => transport_class_REQUEST | _ => transport_class_EVENT end in
      match operation family_id class kind with
      | None => true
      | Some o => negb (op_sensitive o =? transport_policy_FORBIDDEN)
      end
  end.

(** [client.rs]'s [transfer_event_id]: any kind. *)
Definition mux_transfer_event_id (f : Frame) : option Z :=
  let h := fr_header f in
  if bool_decide (fh_class h = Event) && (fh_family h =? family_TRANSFER) && (4 <=? len (fr_payload f))
  then Some (from_le (take 4 (fr_payload f))) else None.

Definition send_frame (frame : Frame) : call Mux () := fun m =>
  match mx_closed m with
  | Some error => (Err error, m)
  | None =>
      let m := match mux_transfer_event_id frame with
               | Some id => if fh_kind (fr_header frame) =? transfer_event_RESET then transfer_ended id true m else m
               | None => m
               end in
      match mx_outbound m with
      | Some queue => (Ok (), mx_set_outbound (Some (queue ++ [frame])) m)
      | None => (Err (default Client_Closed (mx_closed m)), m)
      end
  end.

Definition mux_send_event `{Encode A} (family_id kind : Z) (event : A) (sensitive : bool) : call Mux () :=
  payload ← from_wire (encode event);
  send_frame (mkFrame (set_sensitive sensitive (FrameHeader_event family_id kind)) payload).

Definition request_frame (family_id kind id : Z) (payload : list byte) : Frame :=
  mkFrame (set_sensitive (default_sensitive family_id Request kind) (FrameHeader_request family_id kind id)) payload.

(** [send_detached], [send_request_detached] *)
Definition send_detached (family_id kind : Z) (payload : list byte) (m : Mux) : Mux :=
  if negb (mux_supports family_id Request kind m) then m
  else let (id, m) := mux_next_request_id m in (send_frame (request_frame family_id kind id payload) m).2.

(** [requests.insert(request_id, pending)]: a request under the same id, left
    from before the ids wrapped, loses its sender. *)
Definition insert_request (id token : Z) (hook : option Hook) (m : Mux) : Mux :=
  let m := match ro_requests (mx_router m) !! id with
           | Some old => drop_sender (pd_reply old) m
           | None => m
           end in
  on_router (λ r, ro_set_requests (<[id := mkPending token hook]> (ro_requests r)) r) m.

Definition remove_request (id : Z) (m : Mux) : Mux :=
  on_router (λ r, ro_set_requests (delete id (ro_requests r)) r) m.

(** [Client::call] up to its await; the call in progress is known by its token. *)
Definition call_start (family_id kind : Z) (payload : list byte) (hook : option Hook) : call Mux Z := fun m =>
  if negb (mux_supports family_id Request kind m) then
    (Err (Client_Unsupported "this YAS session does not offer the request"), m)
  else
    let (id, m) := mux_next_request_id m in
    match ro_closed (mx_router m) with
    | Some error => (Err error, m)
    | None =>
        let token := mx_fresh m in
        let m := mx_set_fresh (token + 1) (mx_set_calls (<[token := mkCall id Awaiting]> (mx_calls m)) m) in
        let m := insert_request id token hook m in
        let (sent, m) := send_frame (request_frame family_id kind id payload) m in
        match sent with
        | Ok _ => (Ok token, m)
        | Err error => (Err error, mx_set_calls (delete token (mx_calls m)) (remove_request id m))
        end
    end.

(** [abandon]: the CANCEL may fail to go out. *)
Definition abandon (request_id : Z) (m : Mux) : Mux :=
  let m := remove_request request_id m in
  match encode (mkCancel request_id) with
  | Err _ => m
  | Ok payload =>
      let (id, m) := mux_next_request_id m in
      (send_frame (mkFrame (FrameHeader_request family_CORE core_request_CANCEL id) payload) m).2
  end.

(** The await, polled: [None] is still waiting. *)
Definition call_poll (deadline_passed : bool) (token : Z) : call Mux (option Reply) := fun m =>
  let finished := mx_set_calls (delete token (mx_calls m)) m in
  match mx_calls m !! token with
  | Some (mkCall _ (Replied (Ok reply))) => (Ok (Some reply), finished)
  | Some (mkCall _ (Replied (Err error))) => (Err error, finished)
  | Some (mkCall id Awaiting) =>
      if deadline_passed then (Err Client_Timeout, abandon id finished) else (Ok None, m)
  | Some (mkCall _ SenderDropped) | None => (Err (default Client_Closed (mx_closed m)), finished)
  end.

(** The caller's future is dropped: nothing is told to the router. *)
Definition call_drop (token : Z) (m : Mux) : Mux :=
  let finished := mx_set_calls (delete token (mx_calls m)) m in
  match mx_calls m !! token with
  | Some (mkCall _ (Replied (Ok reply))) => drop_receivers (map snd (ry_routes reply)) finished
  | _ => finished
  end.

(** [call_ok]: what becomes of the reply. *)
Definition reply_ok (reply : Reply) : result ClientError Reply :=
  if bool_decide (rp_status (ry_prefix reply) = Status_Ok) then Ok reply
  else Err (Client_Status (rp_status (ry_prefix reply)) (rp_detail (ry_prefix reply))).

(** ** Routing *)

Definition family_has_state (family_id : Z) : bool :=
  match operation family_id transport_class_EVENT 0 with
  | Some o => bool_decide (op_name o = "STATE"%string)
  | None => false
  end.

Definition state_subscription_id (payload : list byte) : option Z :=
  if len payload <? 4 then None
  else let id := from_le (take 4 payload) in if id =? 0 then None else Some id.

(** [ExitReport::handle_of] *)
Definition exit_handle_of (payload : list byte) : option Z :=
  if len payload <? 8 then None else Some (from_le (take 8 payload)).

Definition process_event_EXIT : Z := 0x0002.

(** [for route in hook(&prefix)] *)
Fixpoint register_all (routes : list Route) (m : Mux) : list (Route * Z) * Mux :=
  match routes with
  | [] => ([], m)
  | route :: rest =>
      let (id, m) := register route m in
      let (receivers, m) := register_all rest m in
      ((route, id) :: receivers, m)
  end.

Definition watches_exit (routes : list (Route * Z)) : bool :=
  existsb (λ p, match p.1 with RouteProcessExit _ => true | _ => false end) routes.

(** The transfers of a process that reports its exit, watched for a RESET. *)
Definition watch_reports (lost : Z) (routes : list (Route * Z)) (watch : gmap Z Z) : gmap Z Z :=
  foldl (λ w p, match p.1 with RouteTransfer id => <[id := lost]> w | _ => w end) watch routes.

Definition dispatch_result (frame : Frame) : call Mux () := fun m =>
  match fh_request_id (fr_header frame) with
  | None => (Err (client_protocol "YAS Result without a request ID"), m)
  | Some id =>
      match ro_requests (mx_router m) !! id with
      | None => (Ok (), m)
      | Some pending =>
          let m := remove_request id m in
          match (decode (fr_payload frame) : result Error ResultPrefix) with
          | Err error =>
              (Err (wire_error error), drop_sender (pd_reply pending) m)
          | Ok prefix =>
              let named := match pd_hook pending with
                           | Some hook => if bool_decide (rp_status prefix = Status_Ok) then hook prefix else []
                           | None => []
                           end in
              let (routes, m) := register_all named m in
              let (report_lost, m) :=
                if watches_exit routes then
                  let lost := mx_fresh m in
                  (Some lost, mx_set_fresh (lost + 1)
                     (on_router (λ r, ro_set_report_watch (watch_reports lost routes (ro_report_watch r)) r) m))
                else (None, m) in
              (Ok (), answer_call (pd_reply pending) (Ok (mkReply prefix routes report_lost)) m)
          end
      end
  end.

Definition dispatch_event (frame : Frame) (transport_datagram : bool) : call Mux () := fun m =>
  let h := fr_header frame in
  if fh_family h =? family_TRANSFER then
    match mux_transfer_event_id frame with
    | None => (Ok (), m)
    | Some id =>
        let m := if (fh_kind h =? transfer_event_CLOSE) || (fh_kind h =? transfer_event_RESET)
                 then transfer_ended id (fh_kind h =? transfer_event_RESET) m else m in
        (Ok (), route_deliver (RouteTransfer id) frame m)
    end
  else if fh_family h =? family_NET then
    let (r, flows) := flow_dispatch frame transport_datagram (mx_flows m) in
    (r, mx_set_flows flows (mx_ended_flows m) m)
  else if (fh_family h =? family_PROCESS) && (fh_kind h =? process_event_EXIT) then
    match exit_handle_of (fr_payload frame) with
    | None => (Ok (), m)
    | Some handle => (Ok (), route_deliver (RouteProcessExit handle) frame m)
    end
  else if (fh_kind h =? 0) && family_has_state (fh_family h) then
    match state_subscription_id (fr_payload frame) with
    | None => (Ok (), m)
    | Some subscription => (Ok (), route_deliver (RouteState (fh_family h) subscription) frame m)
    end
  else (Ok (), m).

Definition dispatch (frame : Frame) (transport_datagram : bool) : call Mux () :=
  match fh_class (fr_header frame) with
  | Result => dispatch_result frame
  | Event => dispatch_event frame transport_datagram
  | Request => raise (client_protocol "YAS server sent an unsupported peer Request")
  end.

(** ** The session and its two tasks *)

(** The reader task runs while [sy_reading]; [sy_revision] is its local. *)
Record System := mkSystem { sy_reader : NativeFrameReader; sy_mux : Mux; sy_revision : Z; sy_reading : bool }.

Definition from_native (input : list Input) (c : NativeClient) : System :=
  mkSystem (into_framed input c)
    (mkMux Router_default ∅ ∅ ∅ (nc_hello c) None (Some []) 3 ∅ [] 0)
    (hs_catalog_revision (nc_hello c)) true.

Section tasks.
Context (compress : list byte → list byte) (decompress : list byte → Z → option (list byte)).

(** One turn of [read_loop]. *)
Definition read_turn (s : System) : System :=
  if negb (sy_reading s) then s
  else
    match next_with_source compress decompress (sy_reader s) with
    | (Err error, reader) => mkSystem reader (shared_close error (sy_mux s)) (sy_revision s) false
    | (Ok (frame, datagram), reader) =>
        let hello := nr_hello reader in
        let changed := negb (hs_catalog_revision hello =? sy_revision s) in
        let m := if changed then mx_set_hello hello (sy_mux s) else sy_mux s in
        let (r, m) := dispatch frame datagram m in
        match r with
        | Err error => mkSystem reader (shared_close error m) (hs_catalog_revision hello) false
        | Ok _ => mkSystem reader m (hs_catalog_revision hello) true
        end
    end.

(** One turn of [write_loop]: a failed write ends it and the session. *)
Definition write_turn (s : System) : System :=
  match mx_outbound (sy_mux s) with
  | Some (frame :: rest) =>
      match framed_send compress frame (sy_reader s) with
      | (Ok _, reader) => mkSystem reader (mx_set_outbound (Some rest) (sy_mux s)) (sy_revision s) (sy_reading s)
      | (Err error, reader) =>
          mkSystem reader (mx_set_outbound None (shared_close error (sy_mux s))) (sy_revision s) (sy_reading s)
      end
  | _ => s
  end.
End tasks.

(** [Client::release] *)
Definition mux_release (route : Route) (m : Mux) : Mux := on_router (router_release route) m.

(** [Client::close]: both tasks are aborted. *)
Definition mux_close (s : System) : System :=
  mkSystem (sy_reader s) (mx_set_outbound None (shared_close Client_Closed (sy_mux s))) (sy_revision s) false.

(** ** What the holders of receivers do *)

(** Whether the channel still has its sender, which is its route. *)
Definition sender_alive (id : Z) (m : Mux) : bool :=
  existsb (λ p, p.2 =? id) (map_to_list (ro_routes (mx_router m))).

(** [FrameReceiver::recv], polled: [None] is pending, [Some None] the end. *)
Definition recv_frame (id : Z) (m : Mux) : option (option Frame) * Mux :=
  match mx_queues m !! id with
  | Some (mkQueue (frame :: rest) alive) => (Some (Some frame), mx_set_queues (<[id := mkQueue rest alive]> (mx_queues m)) m)
  | _ => (if sender_alive id m then None else Some None, m)
  end.

(** [DatagramFlow::recv] on a registered flow. *)
Definition flow_take (handle : Z) (m : Mux) : Mux :=
  match mx_flows m !! handle with
  | None => m
  | Some flow => mx_set_flows (<[handle := (flow_recv flow).2]> (mx_flows m)) (mx_ended_flows m) m
  end.

(** [Datagrams]: the registry, as flows use it. *)
Definition datagrams_insert (handle : Z) (flow : DatagramState) (m : Mux) : Mux :=
  match mx_closed m with
  | Some error => mx_set_flows (mx_flows m) (mx_ended_flows m ++ [(handle, flow_fail error flow)]) m
  | None => mx_set_flows (<[handle := flow]> (mx_flows m)) (mx_ended_flows m) m
  end.
Definition datagrams_remove (handle : Z) (m : Mux) : Mux :=
  mx_set_flows (delete handle (mx_flows m)) (mx_ended_flows m) m.
