(* ===== verification/MuxFacts.v ===== *)
(** * MuxFacts: the router's invariant, operation by operation
      ([crates/client/src/client.rs]) *)

From S2P Require Import Prelude Ordered Schema Codec Kv FamilyLimits CodecFacts Wire Datagrams Frame Transfer State Core CoreControl Native NativeFacts NativeInvariant NativeFramed NetWire MuxFlows Mux.

(** ** Bytes parked *)

Definition orphan_total (o : gmap Route (list Frame)) : Z := map_fold (λ _ frames n, parked_bytes frames + n) 0 o.

Lemma orphan_total_empty : orphan_total ∅ = 0.
Proof. apply map_fold_empty. Qed.
Lemma orphan_total_insert o route frames :
  o !! route = None → orphan_total (<[route := frames]> o) = parked_bytes frames + orphan_total o.
Proof. intros H. unfold orphan_total. rewrite map_fold_insert_L; [done|intros; lia|done]. Qed.
Lemma orphan_total_delete o route frames :
  o !! route = Some frames → orphan_total o = parked_bytes frames + orphan_total (delete route o).
Proof. intros H. rewrite <- (insert_delete_id o route frames H) at 1. rewrite orphan_total_insert; [done|apply lookup_delete_eq]. Qed.
Lemma orphan_total_nonneg o : 0 <= orphan_total o.
Proof.
  induction o as [|route frames o H IH] using map_ind; [by rewrite orphan_total_empty|].
  rewrite orphan_total_insert by done. pose proof (parked_nonneg frames). lia.
Qed.

Lemma forget_bytes_eq frames n : parked_bytes frames <= n → forget_bytes frames n = n - parked_bytes frames.
Proof.
  unfold forget_bytes. revert n. induction frames as [|f frames IH]; intros n Hn; [cbn in *; lia|].
  assert (parked_bytes (f :: frames) = len (fr_payload f) + parked_bytes frames) as Hp by done.
  pose proof (parked_nonneg frames). pose proof (len_nonneg (fr_payload f)). cbn [foldl].
  rewrite IH; unfold saturating_sub; lia.
Qed.

Lemma elem_of_without route r l : r ∈ without route l ↔ r ∈ l ∧ r ≠ route.
Proof.
  unfold without. rewrite !list_elem_of_In, filter_In. rewrite negb_true_iff, bool_decide_eq_false. done.
Qed.
Lemma NoDup_without route l : NoDup l → NoDup (without route l).
Proof. rewrite !NoDup_ListNoDup. apply List.NoDup_filter. Qed.

(** ** The router *)

Record Router_ok (r : Router) : Prop := {
  rk_bytes : ro_orphan_bytes r = orphan_total (ro_orphans r);
  rk_bounded : orphan_total (ro_orphans r) <= MAX_ORPHAN_BYTES;
  rk_nodup : NoDup (ro_orphan_order r);
  rk_order : ∀ route, route ∈ ro_orphan_order r ↔ is_Some (ro_orphans r !! route);
  rk_nonempty : ∀ route frames, ro_orphans r !! route = Some frames → frames ≠ [];
  rk_parked : ∀ route, is_Some (ro_orphans r !! route) → ro_routes r !! route = None ∧ route ∉ ro_released r;
  rk_claimed : ∀ route, is_Some (ro_routes r !! route) → route ∉ ro_released r;
  rk_remembered : ∀ route, route ∈ ro_released r → route ∈ ro_released_order r;
  rk_forgotten : len (ro_released_order r) <= MAX_RELEASED_TRANSFERS
}.

Lemma Router_default_ok : Router_ok Router_default.
Proof.
  split; unfold Router_default; cbn; try done.
  - constructor.
  - intros route. rewrite lookup_empty. split; [by intros ?%not_elem_of_nil|by intros [? ?]].
Qed.

Lemma take_orphans_ok route r :
  Router_ok r → Router_ok (take_orphans route r).2 ∧ ro_orphans (take_orphans route r).2 !! route = None
  ∧ ro_routes (take_orphans route r).2 = ro_routes r ∧ ro_released (take_orphans route r).2 = ro_released r.
Proof.
  intros H. pose proof H as [H1 H2 H3 H4 H5 H6 H7 H8 H9]. unfold take_orphans.
  destruct (ro_orphans r !! route) as [frames|] eqn:E; [|done]. split; [|cbn; by rewrite lookup_delete_eq].
  pose proof (orphan_total_delete _ _ _ E) as Ht. pose proof (orphan_total_nonneg (delete route (ro_orphans r))).
  pose proof (parked_nonneg frames).
  split; cbn [snd ro_set_orphans ro_orphans ro_orphan_order ro_orphan_bytes ro_routes ro_released ro_released_order]; try done.
  - rewrite forget_bytes_eq by lia. lia.
  - lia.
  - by apply NoDup_without.
  - intros x. rewrite elem_of_without, H4. destruct (decide (x = route)) as [->|Hx].
    + rewrite lookup_delete_eq. split; [by intros [_ ?]|by intros [? ?]].
    + rewrite lookup_delete_ne by done. naive_solver.
  - intros x fs [_ Hx]%lookup_delete_Some. by apply (H5 x).
  - intros x [fs [_ Hx]%lookup_delete_Some]. apply H6. by exists fs.
Qed.

Lemma trim_released_ok released order released' order' :
  (∀ route, route ∈ released → route ∈ order) → trim_released released order = (released', order') →
  (∀ route, route ∈ released' → route ∈ order') ∧ len order' <= MAX_RELEASED_TRANSFERS ∧ released' ⊆ released.
Proof.
  revert released. induction order as [|old order IH]; intros released H E; cbn [trim_released] in E.
  - assert (released' = released ∧ order' = []) as [-> ->] by (case_match; by simplify_eq). split_and!; [done|done|done].
  - destruct (Z.ltb_spec MAX_RELEASED_TRANSFERS (len (old :: order))).
    + apply IH in E as (E1 & E2 & E3); [split_and!; [done|done|set_solver]|].
      intros route [Hr Ho]%elem_of_difference. apply H, elem_of_cons in Hr as [->|?]; [set_solver|done].
    + by injection E as <- <-.
Qed.

Lemma router_release_ok route r : Router_ok r → Router_ok (router_release route r).
Proof.
  intros H. unfold router_release.
  set (r1 := ro_set_routes (delete route (ro_routes r)) r).
  assert (Router_ok r1) as H1.
  { destruct H as [A1 A2 A3 A4 A5 A6 A7 A8 A9]. split; try done; subst r1; cbn.
    - intros x Hx. destruct (A6 x Hx) as [B1 B2]. split; [|done]. by apply lookup_delete_None; right.
    - intros x [id [_ Hx]%lookup_delete_Some]. apply A7. by exists id. }
  set (r2 := match route with RouteTransfer id => _ | _ => r1 end).
  assert (Router_ok r2 ∧ ro_routes r2 !! route = None) as [H2 Hn].
  { split; [by subst r2; destruct route; destruct H1; split|]. subst r2 r1. by destruct route; cbn; rewrite lookup_delete_eq. }
  clearbody r2. clear r1 H1 H. destruct (take_orphans_ok route r2 H2) as (H3 & Ho & Hr & _).
  set (r3 := (take_orphans route r2).2) in *. rewrite <- Hr in Hn. clearbody r3.
  destruct (bool_decide (route ∈ ro_released r3)) eqn:Hd; [done|].
  destruct (trim_released _ _) as [released order] eqn:E. pose proof H3 as [A1 A2 A3 A4 A5 A6 A7 A8 A9].
  apply trim_released_ok in E as (E1 & E2 & E3).
  2: { intros x [->%elem_of_singleton|Hx]%elem_of_union; apply elem_of_app; [right; by apply list_elem_of_singleton|left; by apply A8]. }
  split; cbn [ro_set_released ro_orphans ro_orphan_order ro_orphan_bytes ro_routes ro_released ro_released_order]; try done.
  - intros x Hx. destruct (A6 x Hx) as [B1 B2]. split; [done|]. intros Hin%E3. apply elem_of_union in Hin as [->%elem_of_singleton|?]; [|done].
    rewrite Ho in Hx. by destruct Hx.
  - intros x Hx Hin%E3. apply elem_of_union in Hin as [->%elem_of_singleton|?]; [rewrite Hn in Hx; by destruct Hx|by apply (A7 x)].
Qed.

(** What [register] does to the router. *)
Lemma router_register_ok route m :
  Router_ok (mx_router m) → Router_ok (mx_router (register route m).2).
Proof.
  intros H. unfold register. destruct (take_orphans_ok route _ H) as (Ht & Ho & Hr & Hl).
  destruct (take_orphans route (mx_router m)) as [frames r]. cbn [snd] in *. destruct Ht as [A1 A2 A3 A4 A5 A6 A7 A8 A9].
  split; cbn [snd mx_router mx_set_fresh mx_set_queues mx_set_router ro_set_routes ro_set_released ro_orphans ro_orphan_order ro_orphan_bytes ro_routes ro_released ro_released_order]; try done.
  - intros x Hx. destruct (A6 x Hx) as [B1 B2]. split; [|set_solver]. rewrite lookup_insert_ne; [done|]. intros ->. rewrite Ho in Hx. by destruct Hx.
  - intros x Hx. destruct (decide (x = route)) as [->|Hne]; [set_solver|]. rewrite lookup_insert_ne in Hx by done.
    apply A7 in Hx. set_solver.
  - intros x Hx. apply A8. set_solver.
Qed.

(** Eviction stops within the bound, and drops whole routes, oldest first. *)
Lemma evict_orphans_ok o order bytes o' order' bytes' :
  bytes = orphan_total o → NoDup order → (∀ route, route ∈ order ↔ is_Some (o !! route)) →
  evict_orphans o order bytes = (o', order', bytes') →
  bytes' = orphan_total o' ∧ orphan_total o' <= MAX_ORPHAN_BYTES ∧ NoDup order'
  ∧ (∀ route, route ∈ order' ↔ is_Some (o' !! route)) ∧ o' ⊆ o
  ∧ (orphan_total o <= MAX_ORPHAN_BYTES → o' = o ∧ order' = order).
Proof.
  revert o bytes. induction order as [|old order IH]; intros o bytes Hb Hn Ho H; cbn [evict_orphans] in H.
  - assert (o = ∅) as ->.
    { apply map_empty. intros route. destruct (o !! route) eqn:E; [|done]. exfalso. by apply (not_elem_of_nil route), Ho; exists l. }
    rewrite orphan_total_empty in Hb. subst bytes. cbn in H. injection H as <- <- <-. rewrite orphan_total_empty. done.
  - destruct (Z.ltb_spec MAX_ORPHAN_BYTES bytes) as [Hlt|Hge].
    + apply NoDup_cons in Hn as [Hold Hn]. destruct (o !! old) as [frames|] eqn:E.
      2: { exfalso. assert (is_Some (o !! old)) as [? ?] by (apply Ho, elem_of_cons; by left). congruence. }
      pose proof (orphan_total_delete _ _ _ E) as Ht. pose proof (orphan_total_nonneg (delete old o)).
      apply IH in H as (H1 & H2 & H3 & H4 & H5 & H6); [|rewrite forget_bytes_eq; lia|done|].
      * split_and!; try done; [etrans; [done|apply delete_subseteq]|lia].
      * intros route. split.
        -- intros Hr. rewrite lookup_delete_ne by set_solver. apply Ho, elem_of_cons. by right.
        -- intros [fs [Hne Hr]%lookup_delete_Some]. assert (route ∈ old :: order) as Hin by (apply Ho; by exists fs).
           apply elem_of_cons in Hin as [->|?]; done.
    + injection H as <- <- <-. split_and!; try done; lia.
Qed.

(** The orphans with the frame added, before eviction. *)
Lemma park_inserted route frame r :
  Router_ok r →
  let queue := default [] (ro_orphans r !! route) in
  let o := <[route := queue ++ [frame]]> (ro_orphans r) in
  let order := if is_nil queue then ro_orphan_order r ++ [route] else ro_orphan_order r in
  orphan_total o = orphan_total (ro_orphans r) + len (fr_payload frame)
  ∧ NoDup order ∧ ∀ x, x ∈ order ↔ is_Some (o !! x).
Proof.
  intros [H1 H2 H3 H4 H5 H6 H7 H8 H9]. cbv zeta. destruct (ro_orphans r !! route) as [fs|] eqn:E; cbn [from_option id].
  - split.
    { rewrite <- insert_delete_eq, orphan_total_insert by apply lookup_delete_eq.
      pose proof (orphan_total_delete _ _ _ E). rewrite parked_app, parked_one. lia. }
    assert (is_nil fs = false) as -> by (pose proof (H5 _ _ E); by destruct fs). split; [done|]. intros x.
    destruct (decide (x = route)) as [->|Hx]; [|by rewrite lookup_insert_ne]. rewrite lookup_insert_eq.
    split; [by eexists|]. intros _. apply H4. by exists fs.
  - split; [rewrite orphan_total_insert, app_nil_l, parked_one by done; lia|].
    cbn [is_nil]. assert (route ∉ ro_orphan_order r) as Hnot by (rewrite H4, E; by intros [? ?]).
    split; [apply NoDup_app; split_and!; [done|set_solver|apply NoDup_singleton]|]. intros x. rewrite elem_of_app, H4, list_elem_of_singleton.
    destruct (decide (x = route)) as [->|Hx]; [rewrite lookup_insert_eq; split; [by eexists|by right]|].
    rewrite lookup_insert_ne by done. naive_solver.
Qed.

Lemma park_bytes_exact frame r :
  Router_ok r → len (fr_payload frame) <= ISIZE_MAX →
  saturating_add_u64 (ro_orphan_bytes r) (len (fr_payload frame)) = orphan_total (ro_orphans r) + len (fr_payload frame).
Proof.
  intros [H1 H2 _ _ _ _ _ _ _] Hl. pose proof (len_nonneg (fr_payload frame)). rewrite H1. unfold saturating_add_u64.
  rewrite Z.min_r; [done|]. unfold U64_MAX, ISIZE_MAX in *. change MAX_ORPHAN_BYTES with 16777216 in *. lia.
Qed.

Lemma park_orphan_ok route frame r :
  Router_ok r → len (fr_payload frame) <= ISIZE_MAX → ro_routes r !! route = None → route ∉ ro_released r →
  Router_ok (park_orphan route frame r).
Proof.
  intros H Hl Hr Hd. destruct (park_inserted route frame r H) as (Ht & Hn & Ho). pose proof H as [H1 H2 H3 H4 H5 H6 H7 H8 H9].
  unfold park_orphan. rewrite (park_bytes_exact frame r H Hl).
  set (queue := default [] (ro_orphans r !! route)) in *. set (o := <[route := queue ++ [frame]]> (ro_orphans r)) in *.
  destruct (evict_orphans _ _ _) as [[o' order'] bytes'] eqn:E.
  apply evict_orphans_ok in E as (E1 & E2 & E3 & E4 & E5 & _); [|done|done|done].
  assert (∀ x fs, o' !! x = Some fs → x ≠ route → ro_orphans r !! x = Some fs) as Hold.
  { intros x fs Hx Hne. apply (lookup_weaken _ _ _ _ Hx) in E5. subst o. by rewrite lookup_insert_ne in E5. }
  split; cbn [ro_set_orphans ro_orphans ro_orphan_order ro_orphan_bytes ro_routes ro_released ro_released_order]; try done.
  - intros x fs Hx. destruct (decide (x = route)) as [->|Hne]; [|by eapply H5, Hold].
    apply (lookup_weaken _ _ _ _ Hx) in E5. subst o. rewrite lookup_insert_eq in E5. injection E5 as <-. by destruct queue.
  - intros x [fs Hx]. destruct (decide (x = route)) as [->|Hne]; [done|]. apply H6. exists fs. by apply Hold.
Qed.

(** Within the bound nothing is evicted. *)
Lemma park_orphan_within route frame r :
  Router_ok r → orphan_total (ro_orphans r) + len (fr_payload frame) <= MAX_ORPHAN_BYTES →
  ro_orphans (park_orphan route frame r) = <[route := default [] (ro_orphans r !! route) ++ [frame]]> (ro_orphans r).
Proof.
  intros H Hl. destruct (park_inserted route frame r H) as (Ht & Hn & Ho). unfold park_orphan.
  pose proof (orphan_total_nonneg (ro_orphans r)).
  rewrite (park_bytes_exact frame r H) by (unfold ISIZE_MAX; change MAX_ORPHAN_BYTES with 16777216 in *; lia).
  destruct (evict_orphans _ _ _) as [[o' order'] bytes'] eqn:E.
  apply evict_orphans_ok in E as (_ & _ & _ & _ & _ & E6); [|done|done|done]. destruct E6 as [-> _]; [lia|done].
Qed.

Lemma deliver_ok route frame m :
  Router_ok (mx_router m) → len (fr_payload frame) <= ISIZE_MAX → Router_ok (mx_router (route_deliver route frame m)).
Proof.
  intros H Hl. unfold route_deliver. destruct (ro_routes (mx_router m) !! route) as [id|] eqn:E.
  - destruct (queue_alive id m); [done|]. destruct H as [A1 A2 A3 A4 A5 A6 A7 A8 A9]. split; try done; cbn.
    + intros x Hx. destruct (A6 x Hx) as [B1 B2]. split; [|done]. by apply lookup_delete_None; right.
    + intros x [i [_ Hx]%lookup_delete_Some]. apply A7. by exists i.
  - case_bool_decide; [done|]. by apply park_orphan_ok.
Qed.
