(* ===== verification/MuxInvariant.v ===== *)
(** * MuxInvariant: what holds of the multiplexed client in every state
      ([crates/client/src/client.rs]) *)

From S2P Require Import Prelude Ordered Schema Codec Kv FamilyLimits CodecFacts Wire Datagrams Frame Transfer State Core CoreControl Native NativeFacts NativeInvariant NativeFramed NetWire MuxFlows Mux MuxFacts.

(** The router's parts as they belong to callers. *)
Record Mux_ok (m : Mux) : Prop := {
  mk_router : Router_ok (mx_router m);
  (** every caller that waits is known to the router under its request id *)
  mk_waiting : ∀ t id, mx_calls m !! t = Some (mkCall id Awaiting) → ∃ p, ro_requests (mx_router m) !! id = Some p ∧ pd_reply p = t;
  mk_tokens : ∀ i j p q, ro_requests (mx_router m) !! i = Some p → ro_requests (mx_router m) !! j = Some q →
    pd_reply p = pd_reply q → i = j;
  (** ids are drawn once *)
  mk_fresh_requests : ∀ id p, ro_requests (mx_router m) !! id = Some p → pd_reply p < mx_fresh m;
  mk_fresh_calls : ∀ t, is_Some (mx_calls m !! t) → t < mx_fresh m;
  mk_fresh_queues : ∀ id, is_Some (mx_queues m !! id) → id < mx_fresh m;
  mk_fresh_routes : ∀ r id, ro_routes (mx_router m) !! r = Some id → id < mx_fresh m;
  (** a receiver is one route's *)
  mk_routes : ∀ r r' id, ro_routes (mx_router m) !! r = Some id → ro_routes (mx_router m) !! r' = Some id → r = r';
  (** a closed session has neither requests, routes nor flows, an open one a writer *)
  mk_closed : ro_closed (mx_router m) = None ↔ mx_closed m = None;
  mk_empty : mx_closed m ≠ None → ro_requests (mx_router m) = ∅ ∧ ro_routes (mx_router m) = ∅ ∧ mx_flows m = ∅;
  mk_writer : mx_closed m = None → is_Some (mx_outbound m);
  mk_flows : map_Forall (λ _ f, Flow_ok f) (mx_flows m);
  mk_request_id : 0 <= mx_next_request_id m < 2 ^ 32 ∧ Z.odd (mx_next_request_id m) = true
}.

Ltac mux_fields :=
  cbn [mx_router mx_queues mx_calls mx_lost mx_hello mx_closed mx_outbound mx_next_request_id mx_flows mx_ended_flows mx_fresh
       mx_set_router mx_set_queues mx_set_calls mx_set_lost mx_set_hello mx_set_closed mx_set_outbound mx_set_next_request_id
       mx_set_flows mx_set_fresh on_router
       ro_requests ro_routes ro_orphans ro_orphan_order ro_orphan_bytes ro_released ro_released_order ro_report_watch ro_closed
       ro_set_requests ro_set_routes ro_set_orphans ro_set_released ro_set_report_watch ro_set_closed fst snd] in *.

(** Changes that touch neither requests, routes nor the session's state. *)
Lemma Mux_ok_queues q m : Mux_ok m → (∀ id, is_Some (q !! id) → id < mx_fresh m) → Mux_ok (mx_set_queues q m).
Proof. intros [] Hq. split; mux_fields; done. Qed.
Lemma Mux_ok_lost l m : Mux_ok m → Mux_ok (mx_set_lost l m).
Proof. intros []. split; mux_fields; done. Qed.
Lemma Mux_ok_hello h m : Mux_ok m → Mux_ok (mx_set_hello h m).
Proof. intros []. split; mux_fields; done. Qed.
Lemma Mux_ok_outbound q m : Mux_ok m → Mux_ok (mx_set_outbound (Some q) m).
Proof. intros []. split; mux_fields; done. Qed.
Lemma Mux_ok_fresh m : Mux_ok m → Mux_ok (mx_set_fresh (mx_fresh m + 1) m).
Proof.
  intros []. split; mux_fields; try done.
  - intros id p H. specialize (mk_fresh_requests0 id p H). lia.
  - intros t H. specialize (mk_fresh_calls0 t H). lia.
  - intros id H. specialize (mk_fresh_queues0 id H). lia.
  - intros r id H. specialize (mk_fresh_routes0 r id H). lia.
Qed.
Lemma Mux_ok_watch w m : Mux_ok m → Mux_ok (on_router (ro_set_report_watch w) m).
Proof. intros [[] ]. split; mux_fields; try done; by split. Qed.
Lemma Mux_ok_flows f ended m :
  Mux_ok m → map_Forall (λ _ x, Flow_ok x) f → (mx_closed m ≠ None → f = ∅) → Mux_ok (mx_set_flows f ended m).
Proof. intros [] Hf Hc. split; mux_fields; try done. intros Hn. destruct (mk_empty0 Hn) as (? & ? & _). split_and!; try done. by apply Hc. Qed.

Lemma transfer_ended_ok id reset m : Mux_ok m → Mux_ok (transfer_ended id reset m).
Proof.
  intros H. unfold transfer_ended. destruct (_ !! id); [|done].
  assert (Mux_ok (on_router (λ r, ro_set_report_watch (delete id (ro_report_watch r)) r) m)) as Hw by by apply (Mux_ok_watch (delete id (ro_report_watch (mx_router m))) m).
  destruct reset; [by apply Mux_ok_lost|done].
Qed.

Lemma send_frame_ok frame m : Mux_ok m → Mux_ok (send_frame frame m).2.
Proof.
  intros H. unfold send_frame. destruct (mx_closed m); [done|].
  set (m1 := match mux_transfer_event_id frame with Some _ => _ | None => m end).
  assert (Mux_ok m1) as H1 by (subst m1; repeat case_match; by try apply transfer_ended_ok).
  destruct (mx_outbound m1); [by apply Mux_ok_outbound|done].
Qed.

(** A router that only lost routes. *)
Lemma Mux_ok_router r m :
  Mux_ok m → Router_ok r → ro_requests r = ro_requests (mx_router m) → ro_closed r = ro_closed (mx_router m) →
  ro_routes r ⊆ ro_routes (mx_router m) → Mux_ok (mx_set_router r m).
Proof.
  intros [] Hr Hq Hc Hs. split; mux_fields; rewrite ?Hq, ?Hc; try done.
  - intros x id Hx. eapply mk_fresh_routes0. by eapply lookup_weaken.
  - intros x y id Hx Hy. eapply mk_routes0; by eapply lookup_weaken.
  - intros Hn. destruct (mk_empty0 Hn) as (E1 & E2 & E3). rewrite E2 in Hs. split_and!; try done. apply map_empty; intros x; destruct (ro_routes r !! x) eqn:Ex; [|done]. apply (lookup_weaken _ _ _ _ Ex) in Hs. by rewrite lookup_empty in Hs.
Qed.

Lemma release_ok route m : Mux_ok m → Mux_ok (mux_release route m).
Proof.
  intros H. apply Mux_ok_router; try done; [apply router_release_ok, H|..]; unfold router_release;
    (set (r1 := match route with RouteTransfer id => _ | _ => _ end);
     assert (ro_requests r1 = ro_requests (mx_router m) ∧ ro_closed r1 = ro_closed (mx_router m)
             ∧ ro_routes r1 = delete route (ro_routes (mx_router m))) as (E1 & E2 & E3) by (subst r1; by destruct route);
     clearbody r1; unfold take_orphans; repeat case_match; mux_fields; rewrite ?E1, ?E2, ?E3; try done; apply delete_subseteq).
Qed.

Lemma deliver_keeps route frame m : Mux_ok m → len (fr_payload frame) <= ISIZE_MAX → Mux_ok (route_deliver route frame m).
Proof.
  intros H Hl. pose proof (deliver_ok route frame m (mk_router m H) Hl) as Hr. unfold route_deliver in *.
  destruct (ro_routes (mx_router m) !! route) as [id|].
  - destruct (queue_alive id m).
    + apply Mux_ok_queues; [done|]. intros i Hi. apply (mk_fresh_queues m H). by apply lookup_alter_is_Some in Hi.
    + apply Mux_ok_router; try done. apply delete_subseteq.
  - destruct (bool_decide _); [done|]. apply Mux_ok_router; try done; unfold park_orphan; by destruct (evict_orphans _ _ _) as [[? ?] ?].
Qed.

Lemma drop_receivers_ok ids m : Mux_ok m → Mux_ok (drop_receivers ids m).
Proof.
  intros H. apply Mux_ok_queues; [done|]. intros id. induction ids as [|i ids IH]; [apply (mk_fresh_queues m H)|].
  cbn [foldr]. intros Hi%lookup_alter_is_Some. by apply IH.
Qed.

(** Answers settle calls, and only calls that waited. *)
Lemma Mux_ok_calls c m :
  Mux_ok m → (∀ t, is_Some (c !! t) → is_Some (mx_calls m !! t)) → (∀ t id, c !! t = Some (mkCall id Awaiting) → mx_calls m !! t = Some (mkCall id Awaiting)) →
  Mux_ok (mx_set_calls c m).
Proof. intros [] H1 H2. split; mux_fields; try done; auto. Qed.

Lemma answer_ok token r m : Mux_ok m → Mux_ok (answer_call token r m).
Proof.
  intros H. unfold answer_call. destruct (mx_calls m !! token) as [[id [| |]]|] eqn:E; try (destruct r; [by apply drop_receivers_ok|done]).
  apply Mux_ok_calls; [done|..]; intros t; destruct (decide (t = token)) as [->|Hne];
    rewrite ?lookup_insert_eq, ?lookup_insert_ne by done; done.
Qed.

(** ** Closing *)

Definition fail_call (e : ClientError) (c : CallState) : CallState :=
  match cs_outcome c with Awaiting => mkCall (cs_request_id c) (Replied (Err e)) | _ => c end.

Lemma answers_err e tokens m :
  (foldr (λ t m, answer_call t (Err e) m) m tokens) = mx_set_calls (foldr (alter (fail_call e)) (mx_calls m) tokens) m.
Proof.
  induction tokens as [|t tokens IH]; [by destruct m|]. cbn [foldr]. rewrite IH. unfold answer_call. mux_fields.
  set (c := foldr _ _ _).
  assert (alter (fail_call e) t c
          = match c !! t with Some (mkCall id Awaiting) => <[t := mkCall id (Replied (Err e))]> c | _ => c end) as ->.
  { apply map_eq. intros x. destruct (decide (x = t)) as [->|Hne].
    - rewrite lookup_alter_eq. destruct (c !! t) as [[id [| |]]|] eqn:E; rewrite ?lookup_insert_eq, ?E; done.
    - rewrite lookup_alter_ne by done. destruct (c !! t) as [[id [| |]]|]; by rewrite ?lookup_insert_ne by done. }
  by destruct (c !! t) as [[id [| |]]|].
Qed.

Lemma fail_calls_lookup e tokens (c : gmap Z CallState) t :
  foldr (alter (fail_call e)) c tokens !! t = if bool_decide (t ∈ tokens) then fail_call e <$> c !! t else c !! t.
Proof.
  induction tokens as [|x tokens IH]; cbn [foldr]; [done|]. destruct (decide (t = x)) as [->|Hne].
  - rewrite lookup_alter_eq, IH. rewrite (bool_decide_eq_true_2 (x ∈ x :: tokens)) by set_solver.
    destruct (bool_decide _); [|done]. destruct (c !! x) as [[id [| |]]|]; done.
  - rewrite lookup_alter_ne, IH by done. by rewrite (bool_decide_ext (t ∈ tokens) (t ∈ x :: tokens)) by set_solver.
Qed.

Lemma router_tokens m t :
  t ∈ map (λ p, pd_reply p.2) (map_to_list (ro_requests (mx_router m))) ↔ ∃ id p, ro_requests (mx_router m) !! id = Some p ∧ pd_reply p = t.
Proof.
  rewrite list_elem_of_fmap. split.
  - intros ([id p] & -> & Hp%elem_of_map_to_list). by exists id, p.
  - intros (id & p & Hp & <-). exists (id, p). split; [done|]. by apply elem_of_map_to_list.
Qed.

(** After closing nobody waits; whoever waited has the error. *)
Lemma router_fail_calls e m t : Mux_ok m → mx_calls (router_fail e m) !! t = fail_call e <$> mx_calls m !! t.
Proof.
  intros H. unfold router_fail. rewrite answers_err. mux_fields. rewrite fail_calls_lookup. case_bool_decide as Ht; [done|].
  destruct (mx_calls m !! t) as [[id [| |]]|] eqn:E; try done. exfalso. apply Ht, router_tokens. exists id. by apply (mk_waiting m H).
Qed.

Lemma Router_cleared_ok e r :
  Router_ok r → Router_ok (mkRouter ∅ ∅ ∅ [] 0 (ro_released r) (ro_released_order r) ∅ e).
Proof.
  intros [A1 A2 A3 A4 A5 A6 A7 A8 A9].
  split; mux_fields; try done; try apply NoDup_nil_2; intros x; rewrite ?lookup_empty; try (by intros [? ?]).
  split; [by intros ?%not_elem_of_nil|by intros [? ?]].
Qed.

Lemma shared_close_ok e m : Mux_ok m → Mux_ok (shared_close e m).
Proof.
  intros H. assert (∀ t, mx_calls (shared_close e m) !! t = mx_calls (router_fail e m) !! t) as Hcalls.
  { intros t. unfold shared_close. mux_fields. by destruct (mx_closed _). }
  pose proof (λ t, eq_trans (Hcalls t) (router_fail_calls e m t H)) as Hc. clear Hcalls.
  unfold shared_close, router_fail in *. rewrite answers_err in *.
  set (c := foldr _ _ _) in *. clearbody c. pose proof H as [[A1 A2 A3 A4 A5 A6 A7 A8 A9] ? ? ? ? ? ? ? ? ? ? ? ?]. mux_fields.
  assert (∀ t, c !! t = fail_call e <$> mx_calls m !! t) as Hc'.
  { intros t. rewrite <- Hc. by destruct (mx_closed m). }
  clear Hc.
  assert (Mux_ok (mx_set_closed (match mx_closed m with None => Some e | o => o end)
            (mx_set_flows ∅ (mx_ended_flows m ++ map_to_list (flow_fail e <$> mx_flows m))
              (mx_set_router (mkRouter ∅ ∅ ∅ [] 0 (ro_released (mx_router m)) (ro_released_order (mx_router m)) ∅
                    (match ro_closed (mx_router m) with None => Some e | Some x => Some x end)) (mx_set_calls c m))))) as Hok.
  { split; mux_fields; try done.
    - by apply Router_cleared_ok, (mk_router m H).
    - intros t id Ht. rewrite Hc' in Ht. by destruct (mx_calls m !! t) as [[i [| |]]|].
    - intros t [o Ht]. rewrite Hc' in Ht. apply mk_fresh_calls0. destruct (mx_calls m !! t); [by eexists|done].
    - destruct (mx_closed m), (ro_closed (mx_router m)); try done; destruct mk_closed0; naive_solver.
    - destruct (mx_closed m); naive_solver. }
  destruct (mx_closed m) eqn:E; [|exact Hok]. revert Hok. unfold mx_set_closed. mux_fields. by rewrite <- E.
Qed.

(** ** Requests *)

Lemma lor_one_odd n : Z.odd n = true → Z.lor n 1 = n.
Proof.
  intros E. apply Z.bits_inj_iff'. intros i Hi. rewrite Z.lor_spec. destruct (Z.eq_dec i 0) as [->|Hi0].
  - by rewrite Z.bit0_odd, E.
  - rewrite (Z.bits_above_log2 1 i) by (cbn; lia). by rewrite orb_false_r.
Qed.

(** The second draw is the last one needed. *)
Lemma draw_request_id_ok counter id counter' :
  0 <= counter < 2 ^ 32 → Z.odd counter = true → draw_request_id 1 counter = (id, counter') →
  3 <= id < 2 ^ 32 ∧ Z.odd id = true ∧ 0 <= counter' < 2 ^ 32 ∧ Z.odd counter' = true.
Proof.
  intros Hc Ho H. cbn [draw_request_id] in H. rewrite (lor_one_odd counter) in H by done.
  assert (∀ n, Z.odd n = true → 0 <= as_u32 (n + 2) < 2 ^ 32 ∧ Z.odd (as_u32 (n + 2)) = true) as Hn.
  { intros n En. unfold as_u32. split; [pose proof (Z.mod_pos_bound (n + 2) 4294967296); lia|].
    change 4294967296 with (2 * 2147483648). rewrite Z.rem_mul_r by lia. rewrite Z.odd_add, Z.odd_mul.
    assert ((n + 2) mod 2 = 1) as ->; [|done]. rewrite Zmod_odd, Z.odd_add, En. done. }
  destruct (Z.ltb_spec 1 counter).
  - injection H as <- <-. destruct (Hn counter Ho). split_and!; try done; try lia. assert (counter ≠ 2); [|lia]. by intros ->.
  - assert (counter = 1) as -> by (assert (counter ≠ 0) by (by intros ->); lia). vm_compute in H. injection H as <- <-. done.
Qed.

Lemma mux_next_request_id_ok m id m' :
  Mux_ok m → mux_next_request_id m = (id, m') →
  3 <= id < 2 ^ 32 ∧ Z.odd id = true ∧ Mux_ok m' ∧ ∃ n, m' = mx_set_next_request_id n m.
Proof.
  intros H E. unfold mux_next_request_id in E. destruct (draw_request_id 1 (mx_next_request_id m)) as [i n] eqn:Ed. injection E as <- <-.
  destruct (mk_request_id m H) as [Hr Ho]. apply draw_request_id_ok in Ed as (A1 & A2 & A3 & A4); [|done|done].
  split_and!; try done; try lia; [|by exists n]. destruct H. split; mux_fields; done.
Qed.

(** A request leaves the router when its caller has stopped waiting. *)
Lemma remove_request_ok id c m :
  Mux_ok m → (∀ t, is_Some (c !! t) → is_Some (mx_calls m !! t)) →
  (∀ t i, c !! t = Some (mkCall i Awaiting) → mx_calls m !! t = Some (mkCall i Awaiting) ∧ i ≠ id) →
  Mux_ok (mx_set_calls c (remove_request id m)).
Proof.
  intros [] H1 H2. unfold remove_request. split; mux_fields; try done.
  - by destruct mk_router0.
  - intros t i Ht. destruct (H2 t i Ht) as [Hi Hne]. destruct (mk_waiting0 t i Hi) as (p & Hp & <-). exists p.
    by rewrite lookup_delete_ne.
  - intros i j p q [_ Hp]%lookup_delete_Some [_ Hq]%lookup_delete_Some. by eapply mk_tokens0.
  - intros i p [_ Hp]%lookup_delete_Some. by eapply mk_fresh_requests0.
  - auto.
  - intros Hn. destruct (mk_empty0 Hn) as (-> & ? & ?). by rewrite delete_empty.
Qed.

Lemma mx_calls_eta m : mx_set_calls (mx_calls m) m = m.
Proof. by destruct m. Qed.

Lemma drop_sender_lookup token m t :
  mx_calls (drop_sender token m) !! t
  = (if bool_decide (t = token) then λ o, (λ c, match cs_outcome c with Awaiting => mkCall (cs_request_id c) SenderDropped | _ => c end) <$> o else id) (mx_calls m !! t).
Proof.
  unfold drop_sender. mux_fields. case_bool_decide as E; [subst t; by rewrite lookup_alter_eq|by rewrite lookup_alter_ne].
Qed.

Lemma drop_sender_waiting token m t i :
  mx_calls (drop_sender token m) !! t = Some (mkCall i Awaiting) → mx_calls m !! t = Some (mkCall i Awaiting) ∧ t ≠ token.
Proof.
  rewrite drop_sender_lookup. case_bool_decide; [|done]. destruct (mx_calls m !! t) as [[j [| |]]|]; done.
Qed.
Lemma drop_sender_known token m t : is_Some (mx_calls (drop_sender token m) !! t) → is_Some (mx_calls m !! t).
Proof. rewrite drop_sender_lookup. case_bool_decide; [|done]. by intros ?%fmap_is_Some. Qed.

(** The Result's request, with its sender dropped or used. *)
Lemma remove_dropped_ok id p m :
  Mux_ok m → ro_requests (mx_router m) !! id = Some p → Mux_ok (drop_sender (pd_reply p) (remove_request id m)).
Proof.
  intros H Hp. change (drop_sender (pd_reply p) (remove_request id m)) with (mx_set_calls (mx_calls (drop_sender (pd_reply p) m)) (remove_request id m)).
  apply remove_request_ok; [done|apply drop_sender_known|]. intros t i Hw%drop_sender_waiting. destruct Hw as [Hw Hne]. split; [done|]. intros ->.
  destruct (mk_waiting m H t id Hw) as (q & Hq & <-). congruence.
Qed.

Lemma insert_request_ok id hook m :
  Mux_ok m → mx_closed m = None →
  Mux_ok (insert_request id (mx_fresh m) hook
            (mx_set_fresh (mx_fresh m + 1) (mx_set_calls (<[mx_fresh m := mkCall id Awaiting]> (mx_calls m)) m))).
Proof.
  intros H Hopen. set (t := mx_fresh m).
  assert (∀ p, ro_requests (mx_router m) !! id = Some p → pd_reply p < t) as Hfresh by (intros p; apply (mk_fresh_requests m H)).
  set (c := match ro_requests (mx_router m) !! id with
            | Some old => mx_calls (drop_sender (pd_reply old) m)
            | None => mx_calls m
            end).
  assert (insert_request id t hook (mx_set_fresh (t + 1) (mx_set_calls (<[t := mkCall id Awaiting]> (mx_calls m)) m))
          = on_router (λ r, ro_set_requests (<[id := mkPending t hook]> (ro_requests r)) r)
              (mx_set_fresh (t + 1) (mx_set_calls (<[t := mkCall id Awaiting]> c) m))) as ->.
  { subst c. unfold insert_request. mux_fields. destruct (ro_requests (mx_router m) !! id) as [old|] eqn:E; [|done].
    unfold drop_sender. mux_fields. specialize (Hfresh old eq_refl). rewrite alter_insert_ne by lia. done. }
  assert (∀ x i, c !! x = Some (mkCall i Awaiting) → mx_calls m !! x = Some (mkCall i Awaiting) ∧ i ≠ id) as Hc.
  { intros x i Hx. subst c. destruct (ro_requests (mx_router m) !! id) as [old|] eqn:E.
    - apply drop_sender_waiting in Hx as [Hx Hne]. split; [done|]. intros ->. destruct (mk_waiting m H x id Hx) as (q & Hq & <-). congruence.
    - split; [done|]. intros ->. destruct (mk_waiting m H x id Hx) as (q & Hq & _). congruence. }
  assert (∀ x, is_Some (c !! x) → is_Some (mx_calls m !! x)) as Hk.
  { intros x. subst c. destruct (ro_requests (mx_router m) !! id); [apply drop_sender_known|done]. }
  clearbody c. destruct H. subst t. split; mux_fields; try done.
  - by destruct mk_router0.
  - intros x i. destruct (decide (x = mx_fresh m)) as [->|Hne].
    + rewrite lookup_insert_eq. intros [= <-]. exists (mkPending (mx_fresh m) hook). by rewrite lookup_insert_eq.
    + rewrite lookup_insert_ne by done. intros [Hx Hi]%Hc. rewrite lookup_insert_ne by done. by apply mk_waiting0.
  - intros i j p q. rewrite !lookup_insert_Some. intros [[<- <-]|[Hi Hp]] [[<- <-]|[Hj Hq]] Heq; cbn [pd_reply] in *; try done.
    + apply mk_fresh_requests0 in Hq. lia.
    + apply mk_fresh_requests0 in Hp. lia.
    + by eapply mk_tokens0.
  - intros i p. rewrite lookup_insert_Some. intros [[<- <-]|[_ Hp]]; cbn [pd_reply]; [lia|]. apply mk_fresh_requests0 in Hp. lia.
  - intros x. destruct (decide (x = mx_fresh m)) as [->|Hne]; [lia|]. rewrite lookup_insert_ne by done.
    intros Hx%Hk%mk_fresh_calls0. lia.
  - intros i Hi%mk_fresh_queues0. lia.
  - intros r i Hi%mk_fresh_routes0. lia.
Qed.

Lemma delete_call_ok token m :
  Mux_ok m → Mux_ok (mx_set_calls (delete token (mx_calls m)) m).
Proof.
  intros H. apply Mux_ok_calls; [done|..]; intros t *; rewrite ?lookup_delete_Some.
  - intros [c [_ Hc]%lookup_delete_Some]. by exists c.
  - by intros [_ ?].
Qed.

Lemma forget_request_ok id token m :
  Mux_ok m → (∀ p, ro_requests (mx_router m) !! id = Some p → pd_reply p = token) →
  Mux_ok (mx_set_calls (delete token (mx_calls m)) (remove_request id m)).
Proof.
  intros H Hp. apply remove_request_ok; [done|..].
  - intros t [c [_ Hc]%lookup_delete_Some]. by exists c.
  - intros t i [Hne Ht]%lookup_delete_Some. split; [done|]. intros ->. destruct (mk_waiting m H t id Ht) as (p & Hq & <-). by apply Hne; symmetry; apply Hp.
Qed.

Lemma call_start_ok family kind payload hook m : Mux_ok m → Mux_ok (call_start family kind payload hook m).2.
Proof.
  intros H. unfold call_start. destruct (negb _); [done|].
  destruct (mux_next_request_id m) as [id m1] eqn:E. apply mux_next_request_id_ok in E as (_ & _ & H1 & n & E1); [|done].
  destruct (ro_closed (mx_router m1)) eqn:Ec; [done|]. apply (mk_closed m1 H1) in Ec. cbv zeta.
  pose proof (insert_request_ok id hook m1 H1 Ec) as Hi. set (m2 := insert_request _ _ _ _) in *.
  assert (∀ p, ro_requests (mx_router m2) !! id = Some p → pd_reply p = mx_fresh m1) as Hp.
  { intros p Hp. subst m2. unfold insert_request in Hp. mux_fields. rewrite lookup_insert_eq in Hp. by injection Hp as <-. }
  pose proof (send_frame_ok (request_frame family kind id payload) m2 Hi) as Hs.
  assert (ro_requests (mx_router (send_frame (request_frame family kind id payload) m2).2) = ro_requests (mx_router m2)) as Er.
  { unfold send_frame. destruct (mx_closed m2); [done|]. unfold transfer_ended. repeat (case_match; mux_fields; try done). }
  destruct (send_frame _ _) as [[u|e] m3]; cbn [snd] in *; [done|]. apply forget_request_ok; [done|]. by rewrite Er.
Qed.

Lemma abandon_ok id m : Mux_ok (remove_request id m) → Mux_ok (abandon id m).
Proof.
  intros H. unfold abandon. destruct (encode _) as [payload|]; [|done].
  destruct (mux_next_request_id _) as [i m1] eqn:E. apply mux_next_request_id_ok in E as (_ & _ & H1 & _); [|done]. by apply send_frame_ok.
Qed.

Lemma call_poll_ok deadline token m : Mux_ok m → Mux_ok (call_poll deadline token m).2.
Proof.
  intros H. pose proof (delete_call_ok token m H) as Hd. unfold call_poll. cbv zeta.
  destruct (mx_calls m !! token) as [[id [|[reply|e]|]]|] eqn:E; try done. destruct deadline; [|done].
  apply abandon_ok. apply (forget_request_ok id token m H). intros p Hp. destruct (mk_waiting m H token id E) as (q & Hq & <-). congruence.
Qed.

Lemma call_drop_ok token m : Mux_ok m → Mux_ok (call_drop token m).
Proof.
  intros H. pose proof (delete_call_ok token m H) as Hd. unfold call_drop. cbv zeta.
  destruct (mx_calls m !! token) as [[id [|[reply|e]|]]|]; try done. by apply drop_receivers_ok.
Qed.

Lemma send_detached_ok family kind payload m : Mux_ok m → Mux_ok (send_detached family kind payload m).
Proof.
  intros H. unfold send_detached. destruct (negb _); [done|]. destruct (mux_next_request_id m) as [i m1] eqn:E.
  apply mux_next_request_id_ok in E as (_ & _ & H1 & _); [|done]. by apply send_frame_ok.
Qed.

(** ** Routing *)

Lemma register_keeps route m : Mux_ok m → mx_closed m = None → Mux_ok (register route m).2.
Proof.
  intros H Hopen. pose proof (router_register_ok route m (mk_router m H)) as Hr. unfold register in *.
  assert (ro_requests (take_orphans route (mx_router m)).2 = ro_requests (mx_router m)
          ∧ ro_routes (take_orphans route (mx_router m)).2 = ro_routes (mx_router m)
          ∧ ro_closed (take_orphans route (mx_router m)).2 = ro_closed (mx_router m)) as (E1 & E2 & E3)
    by (unfold take_orphans; by destruct (_ !! route)).
  destruct (take_orphans route (mx_router m)) as [frames r]. cbn [snd] in *. destruct H.
  split; mux_fields; rewrite ?E1, ?E2, ?E3; try done.
  - by rewrite <- E2.
  - intros i p Hp%mk_fresh_requests0. lia.
  - intros t Ht%mk_fresh_calls0. lia.
  - intros i. destruct (decide (i = mx_fresh m)) as [->|Hne]; [lia|]. rewrite lookup_insert_ne by done. intros Hi%mk_fresh_queues0. lia.
  - intros x i. rewrite lookup_insert_Some. intros [[_ <-]|[_ Hi%mk_fresh_routes0]]; lia.
  - intros x y i. rewrite !lookup_insert_Some. intros [[? ?]|[? Hi]] [[? ?]|[? Hj]]; subst; try done.
    + apply mk_fresh_routes0 in Hj. lia.
    + apply mk_fresh_routes0 in Hi. lia.
    + by eapply mk_routes0.
Qed.

Lemma register_closed route m : mx_closed (register route m).2 = mx_closed m.
Proof. unfold register. by destruct (take_orphans _ _). Qed.
Lemma register_calls route m : mx_calls (register route m).2 = mx_calls m.
Proof. unfold register. by destruct (take_orphans _ _). Qed.

Lemma register_all_keeps routes m :
  Mux_ok m → mx_closed m = None →
  Mux_ok (register_all routes m).2 ∧ mx_closed (register_all routes m).2 = None.
Proof.
  revert m. induction routes as [|route routes IH]; intros m H Hc; [done|]. cbn [register_all].
  pose proof (register_keeps route m H Hc) as H1. pose proof (register_closed route m) as Hc1.
  destruct (register route m) as [id m1]. cbn [snd] in *. destruct (IH m1) as (H2 & Hc2); [done|congruence|].
  by destruct (register_all routes m1) as [rs m2].
Qed.

Lemma register_set_calls route c m : register route (mx_set_calls c m) = ((register route m).1, mx_set_calls c (register route m).2).
Proof. unfold register. mux_fields. by destruct (take_orphans _ _). Qed.
Lemma register_all_set_calls routes c m :
  register_all routes (mx_set_calls c m) = ((register_all routes m).1, mx_set_calls c (register_all routes m).2).
Proof.
  revert m. induction routes as [|route routes IH]; intros m; [done|]. cbn [register_all]. rewrite register_set_calls.
  destruct (register route m) as [id m1]. cbn [fst snd]. rewrite IH. by destruct (register_all routes m1).
Qed.

Lemma register_all_calls routes m : mx_calls (register_all routes m).2 = mx_calls m.
Proof.
  revert m. induction routes as [|route routes IH]; intros m; [done|]. cbn [register_all]. pose proof (register_calls route m) as Hk.
  destruct (register route m) as [id m1]. cbn [snd] in *. specialize (IH m1). destruct (register_all routes m1). cbn [snd] in *. congruence.
Qed.

Lemma drop_sender_idle token m : (∀ i, mx_calls m !! token ≠ Some (mkCall i Awaiting)) → mx_calls (drop_sender token m) = mx_calls m.
Proof.
  intros H. apply map_eq. intros t. rewrite drop_sender_lookup. case_bool_decide as E; [|done]. subst t.
  destruct (mx_calls m !! token) as [[i [| |]]|] eqn:E; try done. by destruct (H i).
Qed.

(** Answering a call whose request is out of the router. *)
Lemma answer_settled token r m :
  Mux_ok (drop_sender token m) → Mux_ok (answer_call token r m).
Proof.
  intros H. unfold answer_call. destruct (mx_calls m !! token) as [[id [| |]]|] eqn:E.
  2-4: assert (drop_sender token m = m) as Hd by (unfold drop_sender; change (alter _ token (mx_calls m)) with (mx_calls (drop_sender token m));
         rewrite drop_sender_idle, mx_calls_eta; [done|congruence]); rewrite Hd in H; destruct r; [by apply drop_receivers_ok|done].
  change (mx_set_calls (<[token := mkCall id (Replied r)]> (mx_calls m)) m)
    with (mx_set_calls (<[token := mkCall id (Replied r)]> (mx_calls m)) (drop_sender token m)).
  apply Mux_ok_calls; [done|..]; intros t *; destruct (decide (t = token)) as [->|Hne];
    rewrite ?lookup_insert_eq, ?lookup_insert_ne, ?drop_sender_lookup by done; try done.
  - rewrite E. by rewrite bool_decide_eq_true_2.
  - by rewrite bool_decide_eq_false_2.
  - by rewrite bool_decide_eq_false_2.
Qed.

Lemma dispatch_result_ok frame m : Mux_ok m → Mux_ok (dispatch_result frame m).2.
Proof.
  intros H. unfold dispatch_result. destruct (fh_request_id _) as [id|]; [|done].
  destruct (ro_requests (mx_router m) !! id) as [p|] eqn:Hp; [|done]. cbv zeta.
  pose proof (remove_dropped_ok id p m H Hp) as Hd.
  assert (mx_closed m = None) as Hc.
  { destruct (mx_closed m) eqn:E; [|done]. destruct (mk_empty m H) as [Hr _]; [congruence|]. by rewrite Hr, lookup_empty in Hp. }
  destruct (decode _) as [prefix|e]; [|done]. set (named := match pd_hook p with Some _ => _ | None => [] end).
  destruct (register_all_keeps named _ Hd Hc) as (Hr & _).
  unfold drop_sender in Hr. rewrite register_all_set_calls in Hr. cbn [snd] in Hr.
  pose proof (register_all_calls named (remove_request id m)) as Hk.
  destruct (register_all named (remove_request id m)) as [routes m1]. cbn [snd] in *.
  assert (Mux_ok (drop_sender (pd_reply p) m1)) as H1 by (unfold drop_sender; by rewrite Hk).
  destruct (watches_exit routes); cbn [snd]; apply answer_settled; [|done].
  exact (Mux_ok_fresh _ (Mux_ok_watch (watch_reports (mx_fresh m1) routes (ro_report_watch (mx_router m1))) _ H1)).
Qed.

Lemma flow_dispatch_ok frame lossy flows :
  map_Forall (λ _ f, Flow_ok f) flows → map_Forall (λ _ f, Flow_ok f) (flow_dispatch frame lossy flows).2
  ∧ (flows = ∅ → (flow_dispatch frame lossy flows).2 = ∅).
Proof.
  intros H. unfold flow_dispatch. destruct (negb _); [done|]. destruct (_ =? net_event_DATAGRAM).
  - destruct (decode _) as [d|]; [|done]. destruct (flows !! dg_flow_handle d) as [flow|] eqn:E; [|done].
    destruct (lossy && _); [done|]. pose proof (flow_push_ok d flow (H _ _ E)) as Hf. destruct (flow_push d flow) as [r flow']. cbn [snd] in *.
    split; [by apply map_Forall_insert_2|]. intros ->. by rewrite lookup_empty in E.
  - destruct (_ =? net_event_DATAGRAM_STATS); [|done]. destruct lossy; [done|]. destruct (decode _) as [s|]; [|done].
    destruct (flows !! ds_flow_handle s) as [flow|] eqn:E; [|done]. cbn [snd].
    split; [|intros ->; by rewrite lookup_empty in E]. apply map_Forall_insert_2; [|done]. pose proof (H _ _ E) as Hf.
    unfold flow_stats. case_match; [|done]. by destruct Hf.
Qed.

Lemma dispatch_event_ok frame datagram m :
  Mux_ok m → len (fr_payload frame) <= ISIZE_MAX → Mux_ok (dispatch_event frame datagram m).2.
Proof.
  intros H Hl. unfold dispatch_event. cbv zeta. destruct (_ =? family_TRANSFER).
  { destruct (mux_transfer_event_id frame); [|done]. apply deliver_keeps; [|done]. case_match; [by apply transfer_ended_ok|done]. }
  destruct (_ =? family_NET).
  { destruct (flow_dispatch_ok frame datagram _ (mk_flows m H)) as [Hf He]. destruct (flow_dispatch _ _ _) as [r flows]. cbn [snd] in *.
    apply Mux_ok_flows; [done|done|]. intros Hn. apply He. by destruct (mk_empty m H Hn) as (_ & _ & ?). }
  destruct (_ && _). { destruct (exit_handle_of _); [by apply deliver_keeps|done]. }
  destruct (_ && _); [|done]. destruct (state_subscription_id _); [by apply deliver_keeps|done].
Qed.

Lemma dispatch_ok frame datagram m : Mux_ok m → len (fr_payload frame) <= ISIZE_MAX → Mux_ok (dispatch frame datagram m).2.
Proof.
  intros H Hl. unfold dispatch. destruct (fh_class _); [by apply dispatch_event_ok|done|by apply dispatch_result_ok].
Qed.
