(* ===== verification/MuxRun.v ===== *)
(** * MuxRun: the multiplexed client's session as a transition system
      ([crates/client/src/client.rs])

    The two tasks and the callers take turns in any order. *)

From S2P Require Import Prelude Schema Codec CodecFacts Wire Datagrams Frame FrameFacts Transfer State Ordered Kv FamilyLimits Core CoreControl Native NativeFacts NativeInvariant NativeFramed NetWire MuxFlows Mux MuxFacts MuxInvariant.

(** What callers, streams and flows do with the session. *)
Inductive MuxOp :=
  | OpStart (family_id kind : Z) (payload : list byte) (hook : option Hook)
  | OpPoll (deadline_passed : bool) (token : Z)
  | OpDrop (token : Z)
  | OpDetached (family_id kind : Z) (payload : list byte)
  | OpSend (frame : Frame)
  | OpRelease (route : Route)
  | OpRecv (queue : Z)
  | OpDropReceiver (queue : Z)
  | OpFlowOpen (handle : Z) (delivery : DatagramDelivery) (max_payload max_queue : Z)
  | OpFlowTake (handle : Z)
  | OpFlowRemove (handle : Z).

Definition run_op (op : MuxOp) (m : Mux) : Mux :=
  match op with
  | OpStart family kind payload hook => (call_start family kind payload hook m).2
  | OpPoll deadline token => (call_poll deadline token m).2
  | OpDrop token => call_drop token m
  | OpDetached family kind payload => send_detached family kind payload m
  | OpSend frame => (send_frame frame m).2
  | OpRelease route => mux_release route m
  | OpRecv queue => (recv_frame queue m).2
  | OpDropReceiver queue => drop_receivers [queue] m
  | OpFlowOpen handle delivery max_payload max_queue => datagrams_insert handle (DatagramState_new delivery max_payload max_queue) m
  | OpFlowTake handle => flow_take handle m
  | OpFlowRemove handle => datagrams_remove handle m
  end.

Definition on_mux (f : Mux → Mux) (s : System) : System :=
  mkSystem (sy_reader s) (f (sy_mux s)) (sy_revision s) (sy_reading s).

Lemma recv_frame_ok id m : Mux_ok m → Mux_ok (recv_frame id m).2.
Proof.
  intros H. unfold recv_frame. destruct (mx_queues m !! id) as [[[|f rest] alive]|] eqn:E; try done.
  apply Mux_ok_queues; [done|]. intros i Hi. apply (mk_fresh_queues m H). destruct (decide (i = id)) as [->|Hne]; [by rewrite E|].
  by rewrite lookup_insert_ne in Hi.
Qed.

Lemma flow_recv_ok f : Flow_ok f → Flow_ok (flow_recv f).2.
Proof.
  intros H. unfold flow_recv. pose proof H as [H1 H2 H3 H4]. destruct (fl_queue f) as [|p rest] eqn:E.
  - destruct (fl_error f); [exact H|]. destruct (match fl_stats f with Some _ => _ | None => false end); exact H.
  - pose proof (queued_nonneg rest). pose proof (len_nonneg p). assert (queued (p :: rest) = len p + queued rest) as Eq by done.
    assert (len (p :: rest) = 1 + len rest) as El by (unfold len; cbn [length]; lia).
    split; cbn [snd fl_set_queue fl_queued_bytes fl_queue fl_max_queue]; unfold saturating_sub; lia.
Qed.

Lemma run_op_ok op m : Mux_ok m → Mux_ok (run_op op m).
Proof.
  intros H. destruct op; cbn [run_op].
  - by apply call_start_ok.
  - by apply call_poll_ok.
  - by apply call_drop_ok.
  - by apply send_detached_ok.
  - by apply send_frame_ok.
  - by apply release_ok.
  - by apply recv_frame_ok.
  - by apply drop_receivers_ok.
  - unfold datagrams_insert. destruct (mx_closed m) eqn:E.
    + apply Mux_ok_flows; [done|apply (mk_flows m H)|]. intros Hn. by destruct (mk_empty m H Hn) as (_ & _ & ?).
    + apply Mux_ok_flows; [done| |congruence]. apply map_Forall_insert_2; [|apply (mk_flows m H)].
      split; unfold DatagramState_new; cbn [fl_queued_bytes fl_queue fl_max_queue queued foldr]; rewrite ?len_nil; unfold DATAGRAM_QUEUE_BYTES; lia.
  - unfold flow_take. destruct (mx_flows m !! handle) as [flow|] eqn:E; [|done].
    apply Mux_ok_flows; [done| |].
    + apply map_Forall_insert_2; [|apply (mk_flows m H)]. by apply flow_recv_ok, (mk_flows m H handle).
    + intros Hn. destruct (mk_empty m H Hn) as (_ & _ & Hf). by rewrite Hf, lookup_empty in E.
  - unfold datagrams_remove. apply Mux_ok_flows; [done| |].
    + intros i f [_ Hf]%lookup_delete_Some. by apply (mk_flows m H i).
    + intros Hn. destruct (mk_empty m H Hn) as (_ & _ & ->). apply delete_empty.
Qed.

(** ** The catalogue only moves forward *)

Definition moves (x x' : Session) : Prop :=
  cx_hello x' = cx_hello x ∨ hs_catalog_revision (cx_hello x) < hs_catalog_revision (cx_hello x').
#[export] Instance moves_rel : CallRel Session moves.
Proof.
  split; [by left|]. intros x y z [E1|E1] [E2|E2]; rewrite ?E1, ?E2 in *; unfold moves; rewrite ?E1, ?E2; first [by left | by right | right; lia].
Qed.

Lemma send_moves compress frame : follows moves (send compress frame).
Proof. intros x. unfold send. left. destruct (FrameCodec_encode_stream _ _ _); [|done]. by destruct (write_all _ _). Qed.

Ltac move_step :=
  rewrite call_bind_eq;
  match goal with
  | |- context [from_wire ?r ?x] => destruct r eqn:?; cbn [from_wire from_result map_err]; [|by left]
  | |- context [from_result ?r ?x] => destruct r eqn:?; cbn [from_result]; [|by left]
  | |- context [guard_ ?b _ ?x] => destruct b eqn:?; cbn [guard_ raise mret call_ret]; [by left|]
  | |- context [gets ?f ?x] => cbn [gets]
  end.

Lemma apply_session_update_moves payload : follows moves (apply_session_update payload).
Proof.
  intros x. unfold apply_session_update. do 6 move_step. rewrite call_bind_eq. cbn [modify snd]. right.
  unfold SessionUpdate_validate_after in *. inv_ok.
  match goal with H : bool_decide (_ = Gap) = false |- _ => apply bool_decide_eq_false in H end.
  match goal with H : catalog_step _ _ = Ok _ |- _ => apply catalog_contiguous in H; [|done] end. cbn. lia.
Qed.
Lemma apply_family_update_moves payload : follows moves (apply_family_update payload).
Proof.
  intros x. unfold apply_family_update. do 5 move_step. cbn [modify snd]. right.
  unfold FamilyUpdate_validate_after in *. inv_ok.
  match goal with H : bool_decide (_ = Gap) = false |- _ => apply bool_decide_eq_false in H end.
  match goal with H : catalog_step _ _ = Ok _ |- _ => apply catalog_contiguous in H; [|done] end. cbn. lia.
Qed.

Lemma monotonic_moves : follows moves monotonic_ns.
Proof. unfold monotonic_ns. follow. intros x. left. unfold elapsed_ns. by destruct (cx_clock x). Qed.

Lemma service_moves compress frame : follows moves (service compress frame).
Proof.
  unfold service, answer_ping. follow; auto using send_moves, monotonic_moves, apply_session_update_moves, apply_family_update_moves.
Qed.

(** ** What only closing changes *)

Definition still (m m' : Mux) : Prop := mx_hello m' = mx_hello m ∧ mx_closed m' = mx_closed m.
#[export] Instance still_po : PreOrder still.
Proof. split; [done|]. intros x y z [] []. split; congruence. Qed.

Lemma transfer_ended_still id reset m : still m (transfer_ended id reset m).
Proof. unfold transfer_ended. destruct (_ !! id); [|done]. by destruct reset. Qed.
Lemma send_frame_still frame m : still m (send_frame frame m).2.
Proof.
  unfold send_frame. destruct (mx_closed m) eqn:E; [done|]. set (m1 := match mux_transfer_event_id frame with Some _ => _ | None => m end).
  assert (still m m1) as H by (subst m1; repeat case_match; by try apply transfer_ended_still). clearbody m1. by destruct (mx_outbound m1).
Qed.
Lemma next_id_still m : still m (mux_next_request_id m).2.
Proof. unfold mux_next_request_id. by destruct (draw_request_id _ _). Qed.
Lemma insert_request_still id token hook m : still m (insert_request id token hook m).
Proof. unfold insert_request. by destruct (ro_requests (mx_router m) !! id). Qed.
Lemma answer_still token r m : still m (answer_call token r m).
Proof. unfold answer_call. destruct (mx_calls m !! token) as [[id [| |]]|]; try done; by destruct r. Qed.
Lemma register_all_still routes m : still m (register_all routes m).2.
Proof.
  revert m. induction routes as [|route routes IH]; intros m; [done|]. cbn [register_all].
  assert (still m (register route m).2) as H by (unfold register; by destruct (take_orphans _ _)).
  destruct (register route m) as [id m1]. cbn [snd] in *. specialize (IH m1). destruct (register_all routes m1). by etrans.
Qed.
Lemma deliver_still route frame m : still m (route_deliver route frame m).
Proof. unfold route_deliver. destruct (_ !! route); [by destruct (queue_alive _ _)|by destruct (bool_decide _)]. Qed.

Lemma dispatch_still frame dg m : still m (dispatch frame dg m).2.
Proof.
  unfold dispatch, dispatch_event, dispatch_result. cbv zeta. destruct (fh_class _); [|done|].
  - destruct (_ =? family_TRANSFER).
    { destruct (mux_transfer_event_id frame); [|done]. cbn [snd]. etrans; [|apply deliver_still]. case_match; [apply transfer_ended_still|done]. }
    destruct (_ =? family_NET); [by destruct (flow_dispatch _ _ _)|].
    destruct (_ && _); [destruct (exit_handle_of _); [apply deliver_still|done]|].
    destruct (_ && _); [|done]. destruct (state_subscription_id _); [apply deliver_still|done].
  - destruct (fh_request_id _); [|done]. destruct (_ !! _) as [p|]; [|done]. destruct (decode _) as [prefix|]; [|done].
    set (named := match pd_hook p with Some _ => _ | None => [] end). pose proof (register_all_still named (remove_request z m)) as H.
    destruct (register_all named (remove_request z m)) as [routes m1]. cbn [snd] in H.
    destruct (watches_exit routes); cbn [snd]; (etrans; [|apply answer_still]); exact H.
Qed.

Lemma call_start_still family kind payload hook m : still m (call_start family kind payload hook m).2.
Proof.
  unfold call_start. destruct (negb _); [done|]. pose proof (next_id_still m) as H1. destruct (mux_next_request_id m) as [id m1].
  cbn [snd] in H1. destruct (ro_closed (mx_router m1)); [done|]. cbv zeta.
  set (m2 := mx_set_fresh _ _). assert (still m m2) as H2 by exact H1. clearbody m2.
  pose proof (insert_request_still id (mx_fresh m1) hook m2) as H3. set (m3 := insert_request _ _ _ _) in *. clearbody m3.
  pose proof (send_frame_still (request_frame family kind id payload) m3) as H4.
  destruct (send_frame _ m3) as [[u|e] m4]; cbn [snd] in *; (etrans; [exact H2|]); (etrans; [exact H3|]); exact H4.
Qed.

Lemma run_op_still op m : still m (run_op op m).
Proof.
  destruct op; cbn [run_op]; try done.
  - apply call_start_still.
  - unfold call_poll. cbv zeta. destruct (mx_calls m !! token) as [[id [|[reply|e]|]]|]; try done. destruct deadline_passed; [|done].
    cbn [snd]. unfold abandon. destruct (encode _); [|done]. set (m1 := remove_request _ _). assert (still m m1) as H1 by done.
    pose proof (next_id_still m1) as H2. destruct (mux_next_request_id m1) as [i m2]. cbn [snd] in H2.
    etrans; [exact H1|]. etrans; [exact H2|apply send_frame_still].
  - unfold call_drop. by destruct (mx_calls m !! token) as [[id [|[reply|e]|]]|].
  - unfold send_detached. destruct (negb _); [done|]. pose proof (next_id_still m) as H1. destruct (mux_next_request_id m) as [i m2].
    etrans; [exact H1|apply send_frame_still].
  - apply send_frame_still.
  - unfold recv_frame. by destruct (mx_queues m !! queue) as [[[|f rest] alive]|].
  - unfold datagrams_insert. destruct (mx_closed m) eqn:E; by split; cbn.
  - unfold flow_take. by destruct (mx_flows m !! handle).
Qed.

(** ** What the reader hands out *)

Section system.
Context (compress : list byte → list byte) (decompress : list byte → Z → option (list byte)).
Context (lz4_bounded : ∀ z n p, decompress z n = Some p → len p <= n).

Lemma decoded_payload codec bs f :
  FrameCodec_wf codec → FrameCodec_decode decompress codec bs = Ok f → len (fr_payload f) <= ISIZE_MAX.
Proof using lz4_bounded.
  intros Hc H. destruct (FrameCodec_decode_inv (λ p, p) decompress lz4_bounded codec bs f Hc H) as (_ & _ & (_ & _ & Hb) & _).
  pose proof (FrameCodec_wf_bounds codec Hc) as [_ ?]. pose proof (header_len_range (fr_header f)). unfold ISIZE_MAX. lia.
Qed.

Lemma framed_arrival_payload r f dg r' :
  FrameCodec_wf (nr_inbound r) → framed_arrival decompress r = (Ok (Some (f, dg)), r') → len (fr_payload f) <= ISIZE_MAX.
Proof using lz4_bounded.
  intros Hc. unfold framed_arrival. destruct (race_frame _ _ _ _) as [[[g|e]|bytes|] rest] eqn:E; [|done| |done].
  - intros [= -> _ _]. unfold race_frame in E.
    destruct (race_exact _ 4 _) as [[[prefix|e]|bytes|] rest1]; try done.
    destruct (checked_add_u64 _ 4); [|done]. destruct (_ <? _); [done|].
    destruct (race_exact _ _ rest1) as [[[body|e]|bytes|] rest2]; try done.
    destruct (FrameCodec_decode_stream _ _ _) as [[g n]|e] eqn:Ed; [|done]. destruct (negb _); [done|]. injection E as -> _.
    unfold FrameCodec_decode_stream in Ed. inv_ok. by eapply decoded_payload.
  - unfold decode_transport_datagram. cbn [nr_set_input nr_inbound nr_max_datagram].
    destruct (FrameCodec_decode _ _ _) as [probe|] eqn:Ed; [|done]. destruct (datagram_context _) as [ctx|]; [|done]. cbn.
    destruct (FrameCodec_decode_datagram _ _ _ _ _) as [g|] eqn:Eg; [|done]. intros [= -> _ _].
    unfold FrameCodec_decode_datagram in Eg. inv_ok. by eapply decoded_payload.
Qed.

(** A frame that is kept is the frame that came. *)
Lemma service_same frame x g x' : service compress frame x = (Ok (Some g), x') → g = frame.
Proof.
  unfold service. intros H. repeat (match type of H with context [if ?b then _ else _] => destruct b end);
    try (apply call_bind_ok in H as (? & ? & _ & H)); first [discriminate H | by injection H].
Qed.

Lemma framed_arrival_same r : nr_session (framed_arrival decompress r).2 = nr_session r ∧ nr_inbound (framed_arrival decompress r).2 = nr_inbound r.
Proof.
  unfold framed_arrival. destruct (race_frame _ _ _ _) as [[[f|e]|bytes|] rest]; try done. by destruct (decode_transport_datagram _ _ _ _).
Qed.

Lemma next_with_source_spec r :
  FrameCodec_wf (nr_inbound r) →
  nr_inbound (next_with_source compress decompress r).2 = nr_inbound r
  ∧ moves (nr_session r) (nr_session (next_with_source compress decompress r).2)
  ∧ ∀ f dg, (next_with_source compress decompress r).1 = Ok (f, dg) → len (fr_payload f) <= ISIZE_MAX.
Proof using lz4_bounded.
  unfold next_with_source. generalize (S (length (nr_input r))) as fuel. intros fuel. revert r.
  induction fuel as [|fuel IH]; intros r Hc; [split_and!; [done|by left|done]|]. cbn [next_with_source_loop].
  rewrite call_bind_eq. destruct (framed_arrival_same r) as [Hs Hi]. destruct (framed_arrival decompress r) as [[[[f dg]|]|e] r1] eqn:Ea; cbn [snd] in *.
  - apply framed_arrival_payload in Ea as Hp; [|done]. pose proof (framed_service_copies compress f r1) as Hcopy. unfold on_frame_session in Hcopy.
    pose proof (service_moves compress f (nr_session r1)) as Hm.
    destruct (service compress f (nr_session r1)) as [[[g|]|e] x] eqn:Es; cbn [snd] in *; unfold mbind, call_bind; rewrite Hcopy; rewrite <- Hs.
    + apply service_same in Es as ->. cbn [fst snd mret call_ret]. rewrite nr_session_set. split_and!; [done|done|]. by intros ? ? [= <- <-].
    + destruct (IH (nr_set_session x r1)) as (H1 & H2 & H3); [by cbn; rewrite Hi|]. rewrite nr_session_set in H2.
      split_and!; [by rewrite H1|by eapply rel_trans|done].
    + cbn [fst snd]. by rewrite nr_session_set.
  - destruct (IH r1) as (H1 & H2 & H3); [by rewrite Hi|]. split_and!; [by rewrite H1|by rewrite <- Hs|done].
  - split_and!; [done|by left; rewrite Hs|done].
Qed.

(** ** The system *)

Inductive system_step : System → System → Prop :=
  | step_read s : system_step s (read_turn compress decompress s)
  | step_write s : system_step s (write_turn compress s)
  | step_op op s : system_step s (on_mux (run_op op) s)
  | step_close s : system_step s (mux_close s).

Inductive system_reaches (s : System) : System → Prop :=
  | reaches_refl : system_reaches s s
  | reaches_step s1 s2 : system_reaches s s1 → system_step s1 s2 → system_reaches s s2.

Record System_ok (hello : ClientHello) (s : System) : Prop := {
  yk_mux : Mux_ok (sy_mux s);
  yk_session : Agreed hello (nr_session (sy_reader s));
  yk_inbound : FrameCodec_wf (nr_inbound (sy_reader s));
  yk_hello : sy_reading s = true →
    mx_hello (sy_mux s) = nr_hello (sy_reader s) ∧ sy_revision s = hs_catalog_revision (mx_hello (sy_mux s));
  yk_stopped : sy_reading s = false → mx_closed (sy_mux s) ≠ None
}.

Lemma shared_close_closed e m : mx_closed (shared_close e m) ≠ None.
Proof. unfold shared_close. cbv zeta. by destruct (mx_closed (mx_set_flows _ _ _)) eqn:E; [rewrite E|]. Qed.
Lemma shared_close_hello e m : mx_hello (shared_close e m) = mx_hello m.
Proof.
  unfold shared_close, router_fail. cbv zeta. rewrite answers_err. mux_fields. by destruct (mx_closed m).
Qed.
Lemma read_turn_ok hello s : System_ok hello s → System_ok hello (read_turn compress decompress s).
Proof using lz4_bounded.
  intros [H1 H2 H3 H4 H5]. unfold read_turn. destruct (sy_reading s) eqn:Er; cbn [negb]; [|split; rewrite ?Er; done].
  destruct (H4 eq_refl) as [Hh Hrev]. destruct (next_with_source_spec (sy_reader s) H3) as (Hi & Hm & Hp).
  pose proof (next_with_source_keeps compress decompress hello (sy_reader s) H2) as [Ha _].
  destruct (next_with_source compress decompress (sy_reader s)) as [[[frame dg]|e] reader]; cbn [fst snd] in *.
  2: { split; cbn; [by apply shared_close_ok|done|by rewrite Hi|done|intros _; apply shared_close_closed]. }
  specialize (Hp frame dg eq_refl). set (m := if negb _ then _ else sy_mux s).
  assert (Mux_ok m ∧ mx_hello m = nr_hello reader) as [Hmx Hhello].
  { subst m. destruct (Z.eqb_spec (hs_catalog_revision (nr_hello reader)) (sy_revision s)) as [Heq|Hne]; cbn [negb].
    - split; [done|]. unfold moves, nr_session in Hm. cbn [cx_hello] in Hm. destruct Hm as [Hm|Hm]; [congruence|]. rewrite <- Hh in Hm. lia.
    - split; [by apply Mux_ok_hello|done]. }
  clearbody m. pose proof (dispatch_ok frame dg m Hmx Hp) as Hd. pose proof (dispatch_still frame dg m) as [Hdh _].
  destruct (dispatch frame dg m) as [[u|e] m']; cbn [snd] in *.
  - split; cbn; [done|done|by rewrite Hi|intros _; rewrite Hdh, Hhello; done|done].
  - split; cbn; [by apply shared_close_ok|done|by rewrite Hi|done|intros _; apply shared_close_closed].
Qed.

Lemma send_session frame x : cx_hello (send compress frame x).2 = cx_hello x.
Proof. unfold send. destruct (FrameCodec_encode_stream _ _ _); [|done]. by destruct (write_all _ _). Qed.

Lemma write_turn_ok hello s : System_ok hello s → System_ok hello (write_turn compress s).
Proof.
  intros [H1 H2 H3 H4 H5]. unfold write_turn. destruct (mx_outbound (sy_mux s)) as [[|frame rest]|] eqn:Eo; try done.
  pose proof (send_keeps compress hello frame (nr_session (sy_reader s)) H2) as [Ha _].
  pose proof (send_session frame (nr_session (sy_reader s))) as Hs. rewrite framed_send_copies. unfold on_frame_session.
  destruct (send compress frame (nr_session (sy_reader s))) as [[u|e] x]; cbn [snd] in *.
  - split; cbn [sy_mux sy_reader sy_revision sy_reading]; rewrite ?nr_session_set; [by apply Mux_ok_outbound|done|done|cbn; by rewrite Hs|done].
  - split; cbn [sy_mux sy_reader sy_revision sy_reading]; rewrite ?nr_session_set; [|done|done|cbn|intros _; apply shared_close_closed].
    + pose proof (shared_close_ok e _ H1) as []. pose proof (shared_close_closed e (sy_mux s)). split; mux_fields; done.
    + by rewrite Hs, shared_close_hello.
Qed.

Lemma mux_close_ok hello s : System_ok hello s → System_ok hello (mux_close s).
Proof.
  intros [H1 H2 H3 H4 H5]. split; cbn; [|done|done|done|intros _; apply shared_close_closed].
  pose proof (shared_close_ok Client_Closed _ H1) as []. pose proof (shared_close_closed Client_Closed (sy_mux s)). split; mux_fields; done.
Qed.

Lemma system_step_ok hello s s' : system_step s s' → System_ok hello s → System_ok hello s'.
Proof using lz4_bounded.
  intros [] H; [by apply read_turn_ok|by apply write_turn_ok| |by apply mux_close_ok].
  destruct (run_op_still op (sy_mux s0)) as [Eh Ec]. destruct H as [H1 H2 H3 H4 H5].
  split; cbn; rewrite ?Eh, ?Ec; try done. by apply run_op_ok.
Qed.

Lemma system_reaches_ok hello s s' : system_reaches s s' → System_ok hello s → System_ok hello s'.
Proof using lz4_bounded. induction 1 as [|s1 s2 _ IH Hs]; [done|]. intros H. by eapply system_step_ok; [|apply IH]. Qed.

Lemma from_native_ok hello input c : ClientOk hello c → System_ok hello (from_native input c).
Proof.
  intros [H1 H2 H3 H4 H5 H6 H7]. split; cbn [from_native sy_mux sy_reader sy_reading sy_revision into_framed nr_inbound]; try done.
  - split; mux_fields; try done; try apply Router_default_ok; intros *; rewrite ?lookup_empty; by try intros [? ?].
  - by destruct c as [? []].
  - by apply FrameCodec_new_ok in H3 as [? _].
Qed.
End system.

(** * Frames reach the stream, the call and nobody else
      ([crates/client/src/client.rs]) *)

(** Frames for routes, in the order the reader sees them. *)
Definition deliver_all (l : list (Route * Frame)) (m : Mux) : Mux := foldl (λ m p, route_deliver p.1 p.2 m) m l.
Definition frames_for (route : Route) (l : list (Route * Frame)) : list Frame :=
  map snd (List.filter (λ p, bool_decide (p.1 = route)) l).

(** Nobody has claimed the route yet. *)
Definition unclaimed (route : Route) (m : Mux) : Prop :=
  ro_routes (mx_router m) !! route = None ∧ route ∉ ro_released (mx_router m).

Lemma deliver_unclaimed route p m :
  Mux_ok m → unclaimed route m → orphan_total (ro_orphans (mx_router m)) + len (fr_payload p.2) <= MAX_ORPHAN_BYTES →
  unclaimed route (route_deliver p.1 p.2 m)
  ∧ orphan_total (ro_orphans (mx_router (route_deliver p.1 p.2 m))) <= orphan_total (ro_orphans (mx_router m)) + len (fr_payload p.2)
  ∧ default [] (ro_orphans (mx_router (route_deliver p.1 p.2 m)) !! route)
    = default [] (ro_orphans (mx_router m) !! route) ++ (if bool_decide (p.1 = route) then [p.2] else []).
Proof.
  intros H [Hr Hd] Hl. pose proof (len_nonneg (fr_payload p.2)). unfold route_deliver.
  destruct (ro_routes (mx_router m) !! p.1) as [id|] eqn:E.
  - assert (p.1 ≠ route) as Hne by congruence. rewrite (bool_decide_eq_false_2 (p.1 = route)), app_nil_r by done.
    destruct (queue_alive id m); [split; [exact (conj Hr Hd)|split; [cbn; lia|done]]|]. split; [|split; [cbn; lia|done]].
    split; [|done]. cbn. by rewrite lookup_delete_ne.
  - case_bool_decide as Ei.
    + assert (p.1 ≠ route) as Hne by congruence. rewrite (bool_decide_eq_false_2 (p.1 = route)), app_nil_r by done. split; [exact (conj Hr Hd)|split; [lia|done]].
    + pose proof (park_orphan_within p.1 p.2 (mx_router m) (mk_router m H) Hl) as Hp.
      destruct (park_inserted p.1 p.2 (mx_router m) (mk_router m H)) as [Ht _].
      unfold on_router. mux_fields. rewrite Hp, Ht. split; [|split; [lia|]].
      * unfold unclaimed, park_orphan. mux_fields. by destruct (evict_orphans _ _ _) as [[? ?] ?].
      * case_bool_decide as Ep; [subst route; by rewrite lookup_insert_eq|]. by rewrite lookup_insert_ne, app_nil_r.
Qed.

Lemma deliver_all_unclaimed route l m :
  Mux_ok m → unclaimed route m → orphan_total (ro_orphans (mx_router m)) + parked_bytes (map snd l) <= MAX_ORPHAN_BYTES →
  Mux_ok (deliver_all l m) ∧ unclaimed route (deliver_all l m)
  ∧ default [] (ro_orphans (mx_router (deliver_all l m)) !! route)
    = default [] (ro_orphans (mx_router m) !! route) ++ frames_for route l.
Proof.
  revert m. induction l as [|p l IH]; intros m H Hu Hl; [by rewrite app_nil_r|]. cbn [deliver_all foldl].
  assert (parked_bytes (map snd (p :: l)) = len (fr_payload p.2) + parked_bytes (map snd l)) as Hp by done.
  pose proof (parked_nonneg (map snd l)). pose proof (orphan_total_nonneg (ro_orphans (mx_router m))).
  destruct (deliver_unclaimed route p m H Hu) as (D1 & D2 & D3); [lia|].
  destruct (IH (route_deliver p.1 p.2 m)) as (I1 & I2 & I3).
  - apply deliver_keeps; [done|]. unfold ISIZE_MAX. change MAX_ORPHAN_BYTES with 16777216 in *. lia.
  - done.
  - lia.
  - split_and!; [done|done|]. unfold deliver_all in I3. rewrite I3, D3, <- app_assoc. f_equal. unfold frames_for. cbn [List.filter].
    by destruct (bool_decide (p.1 = route)).
Qed.

(** A claimed route, its receiver alive. *)
Lemma deliver_all_claimed route q frames l m :
  Mux_ok m → Forall (λ p, len (fr_payload p.2) <= ISIZE_MAX) l → ro_routes (mx_router m) !! route = Some q →
  mx_queues m !! q = Some (mkQueue frames true) →
  mx_queues (deliver_all l m) !! q = Some (mkQueue (frames ++ frames_for route l) true).
Proof.
  intros H Hl. revert m frames H. induction Hl as [|p l Hp _ IH]; intros m frames H Hr Hq; [by rewrite app_nil_r|].
  cbn [deliver_all foldl]. pose proof (deliver_keeps p.1 p.2 m H Hp) as Hk.
  assert (frames ++ frames_for route (p :: l) = (frames ++ (if bool_decide (p.1 = route) then [p.2] else [])) ++ frames_for route l) as ->.
  { rewrite <- app_assoc. f_equal. unfold frames_for. cbn [List.filter]. by destruct (bool_decide (p.1 = route)). }
  apply IH; [done|..]; unfold route_deliver; destruct (ro_routes (mx_router m) !! p.1) as [id|] eqn:E.
  - destruct (queue_alive id m) eqn:Ea; [done|]. cbn. rewrite lookup_delete_ne; [done|]. intros Heq. rewrite Heq, Hr in E.
    injection E as <-. unfold queue_alive in Ea. by rewrite Hq in Ea.
  - case_bool_decide; [done|]. cbn. unfold park_orphan. by destruct (evict_orphans _ _ _) as [[? ?] ?].
  - destruct (queue_alive id m) eqn:Ea.
    + unfold push_frame. mux_fields. case_bool_decide as Ep.
      * rewrite Ep, Hr in E. injection E as <-. by rewrite lookup_alter_eq, Hq.
      * rewrite app_nil_r, lookup_alter_ne; [done|]. intros ->. apply Ep. by eapply (mk_routes m H).
    + cbn. rewrite (bool_decide_eq_false_2 (p.1 = route)), app_nil_r; [done|]. intros Heq. rewrite Heq, Hr in E. injection E as <-.
      unfold queue_alive in Ea. by rewrite Hq in Ea.
  - assert (p.1 ≠ route) by congruence. rewrite (bool_decide_eq_false_2 (p.1 = route)), app_nil_r by done. by case_bool_decide.
Qed.

Lemma register_queue route m :
  mx_queues (register route m).2 !! (register route m).1 = Some (mkQueue (default [] (ro_orphans (mx_router m) !! route)) true)
  ∧ ro_routes (mx_router (register route m).2) !! route = Some (register route m).1.
Proof.
  unfold register, take_orphans. destruct (ro_orphans (mx_router m) !! route); cbn; by rewrite !lookup_insert_eq.
Qed.

(** ** Results *)

Lemma register_other route m r q :
  (r ≠ route → ro_routes (mx_router (register route m).2) !! r = ro_routes (mx_router m) !! r
     ∧ ro_orphans (mx_router (register route m).2) !! r = ro_orphans (mx_router m) !! r)
  ∧ (q < mx_fresh m → mx_queues (register route m).2 !! q = mx_queues m !! q)
  ∧ mx_fresh (register route m).2 = mx_fresh m + 1 ∧ (register route m).1 = mx_fresh m.
Proof.
  unfold register, take_orphans. destruct (ro_orphans (mx_router m) !! route); mux_fields; split_and!; try done.
  all: try (intros Hne; rewrite ?lookup_insert_ne, ?lookup_delete_ne by done; done).
  all: intros Hq; by rewrite lookup_insert_ne by lia.
Qed.

(** The routes a Result names, registered with whatever was parked for them. *)
Lemma register_all_spec routes m :
  NoDup routes →
  map fst (register_all routes m).1 = routes ∧ mx_fresh m <= mx_fresh (register_all routes m).2
  ∧ (∀ r, r ∉ routes → ro_routes (mx_router (register_all routes m).2) !! r = ro_routes (mx_router m) !! r)
  ∧ (∀ q, q < mx_fresh m → mx_queues (register_all routes m).2 !! q = mx_queues m !! q)
  ∧ ∀ r q, (r, q) ∈ (register_all routes m).1 →
      ro_routes (mx_router (register_all routes m).2) !! r = Some q
      ∧ mx_queues (register_all routes m).2 !! q = Some (mkQueue (default [] (ro_orphans (mx_router m) !! r)) true).
Proof.
  intros Hn. revert m. induction Hn as [|route routes Hnot _ IH]; intros m.
  { cbn. split_and!; try done. by intros r q ?%not_elem_of_nil. }
  cbn [register_all]. destruct (register_queue route m) as [Hq Hr].
  pose proof (λ r q, proj1 (register_other route m r q)) as Ho. pose proof (λ q, proj1 (proj2 (register_other route m route q))) as Hold.
  destruct (register_other route m route 0) as (_ & _ & Hf & Hid).
  destruct (register route m) as [id m1]. cbn [fst snd] in *. subst id. destruct (IH m1) as (I1 & I2 & I3 & I4 & I5).
  destruct (register_all routes m1) as [l m2]. cbn [fst snd map] in *. split_and!; [by rewrite I1|lia|..].
  - intros r [Hne Hin]%not_elem_of_cons. rewrite I3 by done. by apply (Ho r 0).
  - intros q Hlt. rewrite I4 by lia. by apply Hold.
  - intros r q [[= -> ->]|Hin]%elem_of_cons.
    + rewrite I3, I4 by (done || lia). done.
    + destruct (I5 r q Hin) as [J1 J2]. split; [done|]. rewrite J2. assert (r ≠ route) as Hne.
      { intros ->. apply Hnot. rewrite <- I1. apply list_elem_of_In, (in_map fst l (route, q)). by apply list_elem_of_In. }
      by destruct (Ho r 0 Hne) as [_ ->].
Qed.

Definition named_routes (p : PendingCall) (prefix : ResultPrefix) : list Route :=
  match pd_hook p with
  | Some hook => if bool_decide (rp_status prefix = Status_Ok) then hook prefix else []
  | None => []
  end.

Lemma answer_awaiting token id r m :
  mx_calls m !! token = Some (mkCall id Awaiting) → answer_call token r m = mx_set_calls (<[token := mkCall id (Replied r)]> (mx_calls m)) m.
Proof. intros H. unfold answer_call. by rewrite H. Qed.

Lemma dispatch_result_answers frame prefix token id m :
  Mux_ok m → mx_calls m !! token = Some (mkCall id Awaiting) → fh_request_id (fr_header frame) = Some id →
  decode (fr_payload frame) = Ok prefix →
  ∃ p reply, ro_requests (mx_router m) !! id = Some p ∧ pd_reply p = token
    ∧ (dispatch_result frame m).1 = Ok ()
    ∧ mx_calls (dispatch_result frame m).2 = <[token := mkCall id (Replied (Ok reply))]> (mx_calls m)
    ∧ ry_prefix reply = prefix
    ∧ (NoDup (named_routes p prefix) →
       map fst (ry_routes reply) = named_routes p prefix
       ∧ ∀ r q, (r, q) ∈ ry_routes reply →
           ro_routes (mx_router (dispatch_result frame m).2) !! r = Some q
           ∧ mx_queues (dispatch_result frame m).2 !! q = Some (mkQueue (default [] (ro_orphans (mx_router m) !! r)) true)).
Proof.
  intros H Hc Hi Hd. destruct (mk_waiting m H token id Hc) as (p & Hp & Ht). exists p. unfold dispatch_result. rewrite Hi, Hp, Hd.
  cbv zeta. fold (named_routes p prefix). pose proof (register_all_spec (named_routes p prefix) (remove_request id m)) as Hs.
  pose proof (register_all_calls (named_routes p prefix) (remove_request id m)) as Hk.
  destruct (register_all (named_routes p prefix) (remove_request id m)) as [routes m1]. cbn [fst snd] in *.
  rewrite Ht. destruct (watches_exit routes).
  - exists (mkReply prefix routes (Some (mx_fresh m1))). rewrite (answer_awaiting token id) by (mux_fields; by rewrite Hk).
    mux_fields. rewrite Hk. split_and!; try done. intros Hn. by destruct (Hs Hn) as (S1 & _ & _ & _ & S2).
  - exists (mkReply prefix routes None). rewrite (answer_awaiting token id) by by rewrite Hk.
    mux_fields. rewrite Hk. split_and!; try done. intros Hn. by destruct (Hs Hn) as (S1 & _ & _ & _ & S2).
Qed.

(** ** A closed session *)

Lemma closed_settles m :
  Mux_ok m → mx_closed m ≠ None →
  (∀ deadline token, (call_poll deadline token m).1 ≠ Ok None)
  ∧ (∀ family kind payload hook, ∃ e, (call_start family kind payload hook m).1 = Err e)
  ∧ ∀ q, (recv_frame q m).1 ≠ None.
Proof.
  intros H Hc. destruct (mk_empty m H Hc) as (Hq & Hr & _). split_and!.
  - intros deadline token. unfold call_poll. cbv zeta. destruct (mx_calls m !! token) as [[id [|[reply|e]|]]|] eqn:E; try done.
    destruct (mk_waiting m H token id E) as (p & Hp & _). by rewrite Hq, lookup_empty in Hp.
  - intros family kind payload hook. unfold call_start. destruct (negb _); [by eexists|].
    destruct (mux_next_request_id m) as [id m1] eqn:E. unfold mux_next_request_id in E. destruct (draw_request_id _ _). injection E as <- <-.
    mux_fields. destruct (ro_closed (mx_router m)) eqn:Er; [by eexists|]. by apply (mk_closed m H) in Er.
  - intros q. unfold recv_frame, sender_alive. rewrite Hr. destruct (mx_queues m !! q) as [[[|f rest] alive]|]; done.
Qed.
