(* ===== verification/MuxStream.v ===== *)
(** * MuxStream: Transfer streams and State subscriptions of the multiplexed
      client ([crates/client/src/transfer.rs], [state.rs])

    An operation works on the session and on the stream's own fields. A method
    that awaits is a poll: it takes what its queue holds and says whether it is
    still waiting. Values a future keeps across its awaits are its arguments. *)

From S2P Require Import Prelude Ordered Schema Codec Kv FamilyLimits CodecFacts Wire Datagrams Frame Transfer State Core CoreControl Native NativeFramed NetWire MuxFlows Mux.

(** Runs a call on the session beside the stream's fields. *)
Definition shared {B A} (k : call Mux A) : call (Mux * B) A := fun s =>
  let (r, m) := k (fst s) in (r, (m, snd s)).
Definition own {B} (f : B → B) : call (Mux * B) () := fun s => (Ok (), (fst s, f (snd s))).
(** Runs an effect of the session that cannot fail. *)
Definition effect {B} (f : Mux → Mux) : call (Mux * B) () := fun s => (Ok (), (f (fst s), snd s)).

Definition DEFAULT_WINDOW : Z := 1024 * 1024.

Definition closed_error (m : Mux) : ClientError :=
  default (Client_Disconnected "YAS session closed during a Transfer") (mx_closed m).

Definition check_sensitivity (d : Descriptor) (frame : Frame) : result ClientError () :=
  required ← map_err wire_error (Descriptor_requires_sensitive_frame d (fh_kind (fr_header frame)));
  if negb (Bool.eqb (fh_sensitive (fr_header frame)) required) then Err (client_protocol "YAS Transfer sensitivity flag mismatch")
  else Ok ().

Definition detail_extensions (detail : list byte) : Extensions :=
  match detail with [] => [] | _ => [mkExtension 0 false detail] end.

(** ** ByteStream *)

Record ByteStream := mkByteStream {
  by_descriptor : Descriptor; by_frames : Z; by_received : Z; by_granted : Z; by_window : Z; by_done : bool;
  by_failed : option ClientError; by_buffer : list byte; by_position : Z
}.

Definition by_set_received (n : Z) (s : ByteStream) : ByteStream :=
  mkByteStream (by_descriptor s) (by_frames s) n (by_granted s) (by_window s) (by_done s) (by_failed s) (by_buffer s) (by_position s).
Definition by_set_granted (n : Z) (s : ByteStream) : ByteStream :=
  mkByteStream (by_descriptor s) (by_frames s) (by_received s) n (by_window s) (by_done s) (by_failed s) (by_buffer s) (by_position s).
Definition by_set_done (s : ByteStream) : ByteStream :=
  mkByteStream (by_descriptor s) (by_frames s) (by_received s) (by_granted s) (by_window s) true (by_failed s) (by_buffer s) (by_position s).
Definition by_set_failed (e : ClientError) (s : ByteStream) : ByteStream :=
  mkByteStream (by_descriptor s) (by_frames s) (by_received s) (by_granted s) (by_window s) (by_done s) (Some e) (by_buffer s) (by_position s).
Definition by_set_buffer (buffer : list byte) (position : Z) (s : ByteStream) : ByteStream :=
  mkByteStream (by_descriptor s) (by_frames s) (by_received s) (by_granted s) (by_window s) (by_done s) (by_failed s) buffer position.

Definition by_route (s : ByteStream) : Route := RouteTransfer (td_transfer_id (by_descriptor s)).

(** [grant]: another window once less than half of one is outstanding. *)
Definition stream_grant : call (Mux * ByteStream) () :=
  s ← gets snd;
  if by_window s / 2 <=? by_granted s - by_received s then mret ()
  else
    let limit := saturating_add_u64 (by_received s) (by_window s) in
    if limit <=? by_granted s then mret ()
    else
      _ ← own (by_set_granted limit);
      shared (mux_send_event family_TRANSFER transfer_event_CREDIT (mkCredit (td_transfer_id (by_descriptor s)) limit) false).

(** [Drop for ByteStream]; the receiver goes with it. *)
Definition reset_sensitive (d : Descriptor) : bool :=
  match Descriptor_requires_sensitive_frame d transfer_event_RESET with Ok b => b | Err _ => true end.
Definition send_reset (d : Descriptor) (m : Mux) : Mux :=
  (mux_send_event family_TRANSFER transfer_event_RESET
     (mkReset (td_transfer_id d) (Status_code Status_Cancelled) []) (reset_sensitive d) m).2.
Definition stream_drop (s : ByteStream) (m : Mux) : Mux :=
  let m := if by_done s then m
           else mux_release (by_route s) (send_reset (by_descriptor s) m) in
  drop_receivers [by_frames s] m.

Definition ByteStream_new (d : Descriptor) (frames window : Z) : call Mux ByteStream := fun m =>
  match Descriptor_validate d with
  | Err e => (Err (wire_error e), drop_receivers [frames] m)
  | Ok _ =>
      if negb (bool_decide (td_mode d = ModeByte)) || negb (bool_decide (td_direction d = SENDER_TO_RECEIVER)) then
        (Err (client_protocol "YAS delivery did not provide a server-to-client BYTE Transfer"),
         drop_receivers [frames] (mux_release (RouteTransfer (td_transfer_id d)) m))
      else
        let granted := td_sender_send_credit d in
        let s := mkByteStream d frames 0 granted (Z.max (Z.max window granted) 1) false None [] 0 in
        match stream_grant (m, s) with
        | (Ok _, (m, s)) => (Ok s, m)
        | (Err e, (m, s)) => (Err e, stream_drop s m)
        end
  end.

Inductive Step_ := StepData (data : list byte) | StepEnd | StepNothing.

Definition end_stream : call (Mux * ByteStream) () :=
  s ← gets snd;
  _ ← own by_set_done;
  effect (mux_release (by_route s)).

Definition stream_handle (frame : Frame) : call (Mux * ByteStream) Step_ :=
  s ← gets snd;
  let d := by_descriptor s in
  _ ← from_result (check_sensitivity d frame);
  let kind := fh_kind (fr_header frame) in
  if kind =? transfer_event_BYTE_DATA then
    data ← from_wire (decode (fr_payload frame) : result Error ByteData);
    _ ← guard_ (by_done s || negb (bd_offset data =? by_received s) || (td_max_chunk_bytes d <? len (bd_data data)))
          (client_protocol "YAS Transfer sent a non-contiguous, oversized, or post-CLOSE chunk");
    next ← from_result (match checked_add_u64 (by_received s) (len (bd_data data)) with
                        | Some next => Ok next
                        | None => Err (client_protocol "YAS Transfer length overflow")
                        end);
    _ ← guard_ (by_granted s <? next) (client_protocol "YAS Transfer exceeded its credit");
    _ ← own (by_set_received next);
    _ ← stream_grant;
    mret (StepData (bd_data data))
  else if kind =? transfer_event_CLOSE then
    close ← from_wire (decode (fr_payload frame) : result Error Close);
    _ ← end_stream;
    _ ← guard_ (negb (cl_final_data_bytes close =? by_received s)) (client_protocol "YAS Transfer CLOSE length mismatch");
    _ ← guard_ (negb (cl_status close =? Status_code Status_Ok))
          (Client_Status (Status_from_code (cl_status close)) (detail_extensions (cl_detail close)));
    mret StepEnd
  else if kind =? transfer_event_RESET then
    reset ← from_wire (decode (fr_payload frame) : result Error Reset);
    _ ← end_stream;
    raise (Client_Status (Status_from_code (rst_status reset)) (detail_extensions (rst_detail reset)))
  else mret StepNothing.

(** An error is remembered before it is returned. *)
Definition stream_fail {A} (e : ClientError) : call (Mux * ByteStream) A :=
  _ ← own (by_set_failed e); raise e.

(** [next_chunk] after the buffer; a poll takes at most what is queued. *)
Fixpoint next_chunk_loop (fuel : nat) : call (Mux * ByteStream) (option (option (list byte))) := fun st =>
  match by_failed (snd st) with
  | Some e => (Err e, st)
  | None =>
      if by_done (snd st) then (Ok (Some None), st)
      else
        match fuel with
        | O => (Ok None, st)
        | S fuel' =>
            let (frame, m) := recv_frame (by_frames (snd st)) (fst st) in
            let st := (m, snd st) in
            match frame with
            | None => (Ok None, st)
            | Some None => stream_fail (closed_error m) st
            | Some (Some frame) =>
                match stream_handle frame st with
                | (Ok (StepData data), st) => (Ok (Some (Some data)), st)
                | (Ok StepEnd, st) => (Ok (Some None), st)
                | (Ok StepNothing, st) => next_chunk_loop fuel' st
                | (Err e, st) => stream_fail e st
                end
            end
        end
  end.

Definition queue_length (q : Z) (m : Mux) : nat :=
  match mx_queues m !! q with Some x => length (fq_frames x) | None => 0 end.

Definition next_chunk : call (Mux * ByteStream) (option (option (list byte))) := fun st =>
  let s := snd st in
  if by_position s <? len (by_buffer s) then
    (Ok (Some (Some (drop (Z.to_nat (by_position s)) (by_buffer s)))), (fst st, by_set_buffer [] 0 s))
  else next_chunk_loop (S (queue_length (by_frames s) (fst st))) st.

(** [AsyncRead::poll_read] into a buffer with [remaining] bytes of room: the
    bytes put there; none at the end. [None] is pending. *)
Definition poll_read_buffered (remaining : Z) : call (Mux * ByteStream) (option (list byte)) := fun st =>
  let s := snd st in
  let count := Z.min remaining (len (by_buffer s) - by_position s) in
  let bytes := take (Z.to_nat count) (drop (Z.to_nat (by_position s)) (by_buffer s)) in
  let position := by_position s + count in
  (Ok (Some bytes),
   (fst st, if position =? len (by_buffer s) then by_set_buffer [] 0 s else by_set_buffer (by_buffer s) position s)).

Fixpoint poll_read_loop (fuel : nat) (remaining : Z) : call (Mux * ByteStream) (option (list byte)) := fun st =>
  if by_position (snd st) <? len (by_buffer (snd st)) then poll_read_buffered remaining st
  else
    match by_failed (snd st) with
    | Some e => (Err e, st)
    | None =>
        if by_done (snd st) then (Ok (Some []), st)
        else
          match fuel with
          | O => (Ok None, st)
          | S fuel' =>
              let (frame, m) := recv_frame (by_frames (snd st)) (fst st) in
              let st := (m, snd st) in
              match frame with
              | None => (Ok None, st)
              | Some None => stream_fail (closed_error m) st
              | Some (Some frame) =>
                  match stream_handle frame st with
                  | (Ok (StepData data), (m, s)) => poll_read_loop fuel' remaining (m, by_set_buffer data 0 s)
                  | (Ok StepEnd, st) | (Ok StepNothing, st) => poll_read_loop fuel' remaining st
                  | (Err e, st) => stream_fail e st
                  end
              end
          end
    end.

Definition poll_read (remaining : Z) : call (Mux * ByteStream) (option (list byte)) := fun st =>
  poll_read_loop (S (queue_length (by_frames (snd st)) (fst st))) remaining st.

(** A future that collects: what it has, and whether it is done. *)
Inductive Collecting := Waiting_ (bytes : list byte) | Collected_ (bytes : list byte).

(** [read_to_end], resumed with the bytes it has; the stream is dropped when
    it returns. *)
Fixpoint read_to_end_loop (fuel : nat) (limit : Z) (bytes : list byte) : call (Mux * ByteStream) Collecting :=
  match fuel with
  | O => mret (Waiting_ bytes)
  | S fuel' =>
      polled ← next_chunk;
      match polled with
      | None => mret (Waiting_ bytes)
      | Some None => mret (Collected_ bytes)
      | Some (Some chunk) =>
          _ ← guard_ (limit <? len bytes + len chunk)
                (Client_Invalid "YAS Transfer exceeded the collection limit" None);
          read_to_end_loop fuel' limit (bytes ++ chunk)
      end
  end.

Definition stream_rounds (st : Mux * ByteStream) : nat := S (S (queue_length (by_frames (snd st)) (fst st))).

Definition read_to_end (limit : Z) (bytes : list byte) : call (Mux * ByteStream) Collecting := fun st =>
  match read_to_end_loop (stream_rounds st) limit bytes st with
  | (Ok (Waiting_ bytes), st) => (Ok (Waiting_ bytes), st)
  | (r, (m, s)) => (r, (stream_drop s m, s))
  end.

(** [read_prefix]: [peeking] once the limit is reached exactly. *)
Inductive Prefix := PrefixWaiting (bytes : list byte) (peeking : bool) | PrefixRead (bytes : list byte) (cut : bool).

Definition read_peek (bytes : list byte) : call (Mux * ByteStream) Prefix :=
  polled ← next_chunk;
  mret (match polled with
        | None => PrefixWaiting bytes true
        | Some None => PrefixRead bytes false
        | Some (Some _) => PrefixRead bytes true
        end).

Fixpoint read_prefix_loop (fuel : nat) (limit : Z) (bytes : list byte) : call (Mux * ByteStream) Prefix :=
  match fuel with
  | O => mret (PrefixWaiting bytes false)
  | S fuel' =>
      polled ← next_chunk;
      match polled with
      | None => mret (PrefixWaiting bytes false)
      | Some None => mret (PrefixRead bytes false)
      | Some (Some chunk) =>
          let room := saturating_sub limit (len bytes) in
          if room <? len chunk then mret (PrefixRead (bytes ++ take (Z.to_nat room) chunk) true)
          else
            let bytes := bytes ++ chunk in
            s ← gets snd;
            if (len bytes =? limit) && negb (by_done s) then read_peek bytes
            else read_prefix_loop fuel' limit bytes
      end
  end.

Definition read_prefix (limit : Z) (bytes : list byte) (peeking : bool) : call (Mux * ByteStream) Prefix := fun st =>
  match (if peeking then read_peek bytes st else read_prefix_loop (stream_rounds st) limit bytes st) with
  | (Ok (PrefixWaiting bytes peeking), st) => (Ok (PrefixWaiting bytes peeking), st)
  | (r, (m, s)) => (r, (stream_drop s m, s))
  end.

(** ** ByteSink *)

Record ByteSink := mkByteSink {
  si_descriptor : Descriptor; si_frames : Z; si_sent : Z; si_credit : Z; si_closed : bool; si_failed : option ClientError
}.

Definition si_set_sent (n : Z) (s : ByteSink) : ByteSink :=
  mkByteSink (si_descriptor s) (si_frames s) n (si_credit s) (si_closed s) (si_failed s).
Definition si_set_credit (n : Z) (s : ByteSink) : ByteSink :=
  mkByteSink (si_descriptor s) (si_frames s) (si_sent s) n (si_closed s) (si_failed s).
Definition si_set_closed (s : ByteSink) : ByteSink :=
  mkByteSink (si_descriptor s) (si_frames s) (si_sent s) (si_credit s) true (si_failed s).
Definition si_set_failed (e : ClientError) (s : ByteSink) : ByteSink :=
  mkByteSink (si_descriptor s) (si_frames s) (si_sent s) (si_credit s) (si_closed s) (Some e).

Definition si_route (s : ByteSink) : Route := RouteTransfer (td_transfer_id (si_descriptor s)).

Definition ByteSink_new (d : Descriptor) (frames : Z) : call Mux ByteSink := fun m =>
  match Descriptor_validate d with
  | Err e => (Err (wire_error e), drop_receivers [frames] m)
  | Ok _ =>
      if negb (bool_decide (td_mode d = ModeByte)) || negb (bool_decide (td_direction d = RECEIVER_TO_SENDER)) then
        (Err (client_protocol "YAS upload did not provide a client-to-server BYTE Transfer"),
         drop_receivers [frames] (mux_release (RouteTransfer (td_transfer_id d)) m))
      else (Ok (mkByteSink d frames 0 (td_receiver_send_credit d) false None), m)
  end.

Definition control_inner (frame : Frame) : call (Mux * ByteSink) () :=
  s ← gets snd;
  _ ← from_result (check_sensitivity (si_descriptor s) frame);
  let kind := fh_kind (fr_header frame) in
  if kind =? transfer_event_CREDIT then
    credit ← from_wire (decode (fr_payload frame) : result Error Credit);
    if si_credit s <? cr_cumulative_limit credit then own (si_set_credit (cr_cumulative_limit credit)) else mret ()
  else if kind =? transfer_event_RESET then
    reset ← from_wire (decode (fr_payload frame) : result Error Reset);
    _ ← own si_set_closed;
    _ ← effect (mux_release (si_route s));
    raise (Client_Status (Status_from_code (rst_status reset)) (detail_extensions (rst_detail reset)))
  else if kind =? transfer_event_CLOSE then
    _ ← own si_set_closed;
    _ ← effect (mux_release (si_route s));
    raise (Client_Disconnected "YAS Transfer was closed by the server")
  else mret ().

Definition sink_control (frame : Frame) : call (Mux * ByteSink) () := fun st =>
  match control_inner frame st with
  | (Ok u, st) => (Ok u, st)
  | (Err e, (m, s)) => (Err e, (m, si_set_failed e s))
  end.

(** [while let Ok(frame) = frames.try_recv()] *)
Fixpoint drain_control_loop (fuel : nat) : call (Mux * ByteSink) () := fun st =>
  match fuel with
  | O => (Ok (), st)
  | S fuel' =>
      match recv_frame (si_frames (snd st)) (fst st) with
      | (Some (Some frame), m) => (_ ← sink_control frame; drain_control_loop fuel') (m, snd st)
      | (_, m) => (Ok (), (m, snd st))
      end
  end.

Definition drain_control : call (Mux * ByteSink) () := fun st =>
  match si_failed (snd st) with
  | Some e => (Err e, st)
  | None => drain_control_loop (S (queue_length (si_frames (snd st)) (fst st))) st
  end.

Definition send_chunk (data : list byte) : call (Mux * ByteSink) Z :=
  s ← gets snd;
  _ ← guard_ (si_closed s) (Client_Invalid "YAS upload is already closed" None);
  let available := si_credit s - si_sent s in
  let count := Z.min (Z.min (len data) (td_max_chunk_bytes (si_descriptor s))) available in
  if count =? 0 then mret 0
  else
    sensitive ← from_wire (Descriptor_requires_sensitive_frame (si_descriptor s) transfer_event_BYTE_DATA);
    _ ← shared (mux_send_event family_TRANSFER transfer_event_BYTE_DATA
                  (mkByteData (td_transfer_id (si_descriptor s)) (si_sent s) (take (Z.to_nat count) data)) sensitive);
    _ ← own (si_set_sent (si_sent s + count));
    mret count.

(** [write_all], resumed with the data left; data left over is a wait for credit. *)
Fixpoint write_all_loop (fuel : nat) (data : list byte) : call (Mux * ByteSink) (list byte) :=
  match fuel with
  | O => mret data
  | S fuel' =>
      if is_nil data then mret []
      else
        _ ← drain_control;
        s ← gets snd;
        if si_credit s <=? si_sent s then
          m ← gets fst;
          match recv_frame (si_frames s) m with
          | (None, _) => mret data
          | (Some None, m') =>
              _ ← own (si_set_failed (closed_error m'));
              raise (closed_error m')
          | (Some (Some frame), m') =>
              _ ← effect (λ _, m');
              _ ← sink_control frame;
              write_all_loop fuel' data
          end
        else
          count ← send_chunk data;
          write_all_loop fuel' (drop (Z.to_nat count) data)
  end.

Definition sink_write_all (data : list byte) : call (Mux * ByteSink) (list byte) := fun st =>
  write_all_loop (S (length data + queue_length (si_frames (snd st)) (fst st))) data st.

Definition close_now (status : Status) : call (Mux * ByteSink) () := fun st =>
  if si_closed (snd st) then (Ok (), st)
  else
    let s := si_set_closed (snd st) in
    let st := (fst st, s) in
    match Descriptor_requires_sensitive_frame (si_descriptor s) transfer_event_CLOSE with
    | Err e => (Err (wire_error e), st)
    | Ok sensitive =>
        let (r, m) := mux_send_event family_TRANSFER transfer_event_CLOSE
                        (mkClose (td_transfer_id (si_descriptor s)) (si_sent s) (Status_code status) []) sensitive (fst st) in
        (r, (mux_release (si_route s) m, s))
    end.

(** [Drop for ByteSink] *)
Definition sink_drop (st : Mux * ByteSink) : Mux :=
  let (_, st) := close_now Status_Ok st in drop_receivers [si_frames (snd st)] (fst st).

(** [finish] takes the sink: it is dropped at the end. *)
Definition sink_finish : call (Mux * ByteSink) Z := fun st =>
  let (r, st) := (_ ← drain_control; _ ← close_now Status_Ok; gets (λ st, si_sent (snd st))) st in
  (r, (sink_drop st, snd st)).

Definition sink_abort (st : Mux * ByteSink) : Mux :=
  let s := si_set_closed (snd st) in
  sink_drop (mux_release (si_route s) (send_reset (si_descriptor s) (fst st)), s).

(** [AsyncWrite::poll_write]; [None] is pending. *)
Fixpoint poll_write_loop (fuel : nat) (data : list byte) : call (Mux * ByteSink) (option Z) :=
  match fuel with
  | O => mret None
  | S fuel' =>
      _ ← drain_control;
      s ← gets snd;
      _ ← guard_ (si_closed s) (Client_Disconnected "broken pipe");
      if si_sent s <? si_credit s then
        count ← send_chunk data;
        mret (Some count)
      else
        m ← gets fst;
        match recv_frame (si_frames s) m with
        | (None, _) => mret None
        | (Some None, m') => raise (closed_error m')
        | (Some (Some frame), m') =>
            _ ← effect (λ _, m');
            _ ← sink_control frame;
            poll_write_loop fuel' data
        end
  end.

Definition poll_write (data : list byte) : call (Mux * ByteSink) (option Z) := fun st =>
  if is_nil data then (Ok (Some 0), st)
  else poll_write_loop (S (queue_length (si_frames (snd st)) (fst st))) data st.
