(* ===== verification/MuxWatch.v ===== *)
(** * MuxWatch: deliveries and State subscriptions of the multiplexed client
      ([crates/client/src/transfer.rs], [state.rs], [client.rs])

    [collect_delivery] and [collect_messages] over the streams of [MuxStream],
    and [Subscription], which acknowledges each event it takes. *)

From S2P Require Import Prelude Ordered Schema Codec Kv FamilyLimits CodecFacts Wire Datagrams Frame Transfer State Core CoreControl Native NativeFramed NetWire MuxFlows Mux MuxStream.

(** ** Replies *)

(** [Vec::swap_remove] *)
Definition swap_remove {A} (i : nat) (l : list A) : list A :=
  match last l with Some x => removelast (<[i := x]> l) | None => [] end.

Fixpoint position {A} (p : A → bool) (l : list A) : option nat :=
  match l with
  | [] => None
  | x :: l' => if p x then Some 0%nat else S <$> position p l'
  end.

(** [Reply::take] *)
Definition Reply_take (route : Route) (reply : Reply) : option Z * Reply :=
  match position (λ p, bool_decide (p.1 = route)) (ry_routes reply) with
  | None => (None, reply)
  | Some i => (snd <$> ry_routes reply !! i,
               mkReply (ry_prefix reply) (swap_remove i (ry_routes reply)) (ry_report_lost reply))
  end.

Definition Reply_drop (reply : Reply) (m : Mux) : Mux := drop_receivers (map snd (ry_routes reply)) m.

(** ** Deliveries *)

Definition delivery_routes (value : InlineOrTransfer) : list Route :=
  match it_delivery value with
  | DTransfer d => [RouteTransfer (td_transfer_id d)]
  | Inline _ => []
  end.

Definition drop_optional (frames : option Z) (m : Mux) : Mux :=
  match frames with Some q => drop_receivers [q] m | None => m end.

(** [collect_delivery] up to its await: the bytes, or the stream to read to its end. *)
Definition collect_start (value : InlineOrTransfer) (frames : option Z) (limit : Z) :
    call Mux (list byte + ByteStream) := fun m =>
  if limit <? it_byte_len value then
    match it_delivery value, frames with
    | DTransfer d, Some q =>
        match ByteStream_new d q 1 m with
        | (Err e, m) => (Err e, m)
        | (Ok s, m) => (Err (Client_Invalid "YAS delivery exceeds the collection limit" None), stream_drop s m)
        end
    | _, _ => (Err (Client_Invalid "YAS delivery exceeds the collection limit" None), drop_optional frames m)
    end
  else
    match it_delivery value with
    | Inline bytes => (Ok (inl bytes), drop_optional frames m)
    | DTransfer d =>
        match frames with
        | None => (Err (client_protocol "YAS delivery route missing"), m)
        | Some q =>
            match ByteStream_new d q (Z.max (it_byte_len value) 1) m with
            | (Err e, m) => (Err e, m)
            | (Ok s, m) => (Ok (inr s), m)
            end
        end
    end.

(** [collect_delivery] after it. *)
Definition collect_check (blake3 : list byte → list byte) (value : InlineOrTransfer) (bytes : list byte) :
    result ClientError (list byte) :=
  if negb (len bytes =? it_byte_len value) then Err (client_protocol "YAS delivery length mismatch")
  else if negb (bool_decide (blake3 bytes = it_content_hash value)) then
    Err (client_protocol "YAS delivery content hash mismatch")
  else Ok bytes.

(** One MESSAGE_DATA of [collect_messages]. *)
Definition mux_collect_fragment (maximum_bytes maximum_messages : Z) (k : Collected) (f : MessageData) :
    result ClientError Collected :=
  let (accepted, validator) := accept (co_validator k) f in
  ended ← map_err wire_error accepted;
  match checked_add_u64 (co_received k) (len (md_data f)) with
  | None => Err (client_protocol "YAS MESSAGE Transfer length overflow")
  | Some received =>
      if maximum_bytes <? received then Err (client_protocol "YAS Transfer exceeded its byte collection limit")
      else
        open ← (if md_start f then
                  if (maximum_messages <=? Z.of_nat (size (co_open k)) + Z.of_nat (size (co_complete k)))
                     || is_some (co_complete k !! md_sequence f)
                  then Err (client_protocol "YAS Transfer exceeded its message collection limit")
                  else Ok (<[md_sequence f := []]> (co_open k))
                else Ok (co_open k));
        match open !! md_sequence f with
        | None => Err (client_protocol "YAS Transfer lost an open message")
        | Some item =>
            let item := item ++ md_data f in
            if ended : bool then
              Ok (mkCollected validator (delete (md_sequence f) open) (<[md_sequence f := item]> (co_complete k)) received)
            else Ok (mkCollected validator (<[md_sequence f := item]> open) (co_complete k) received)
        end
  end.

(** [collect_messages] up to its loop; an error releases the route. *)
Definition messages_end {A} (d : Descriptor) (q : Z) (r : result ClientError A) : call Mux A := fun m =>
  (r, drop_receivers [q] (mux_release (RouteTransfer (td_transfer_id d)) m)).

Definition messages_begin (d : Descriptor) (maximum_bytes : Z) : call Mux Collected :=
  _ ← from_wire (Descriptor_validate d);
  _ ← guard_ (negb (bool_decide (td_mode d = ModeMessage)) || negb (bool_decide (td_direction d = SENDER_TO_RECEIVER)))
        (client_protocol "YAS delivery did not provide a server-to-client MESSAGE Transfer");
  _ ← (if td_sender_send_credit d <? maximum_bytes then
         mux_send_event family_TRANSFER transfer_event_CREDIT (mkCredit (td_transfer_id d) maximum_bytes) false
       else mret ());
  validator ← from_wire (MessageReceiver_new d);
  mret (mkCollected validator ∅ ∅ 0).

Definition messages_start (d : Descriptor) (q maximum_bytes : Z) : call Mux Collected := fun m =>
  match messages_begin d maximum_bytes m with
  | (Ok k, m) => (Ok k, m)
  | (Err e, m) => messages_end d q (Err e) m
  end.

(** A frame of the loop: [inl] goes on, [inr] is the collected items. *)
Definition messages_frame (d : Descriptor) (maximum_bytes maximum_messages : Z) (k : Collected) (frame : Frame) :
    result ClientError (Collected + list (list byte)) :=
  _ ← check_sensitivity d frame;
  let kind := fh_kind (fr_header frame) in
  if kind =? transfer_event_MESSAGE_DATA then
    fragment ← map_err wire_error (decode (fr_payload frame) : result Error MessageData);
    k ← mux_collect_fragment maximum_bytes maximum_messages k fragment;
    Ok (inl k)
  else if kind =? transfer_event_CLOSE then
    close ← map_err wire_error (decode (fr_payload frame) : result Error Close);
    if negb (cl_final_data_bytes close =? co_received k) || negb (open_messages (co_validator k) =? 0) then
      Err (client_protocol "YAS Transfer CLOSE accounting mismatch")
    else if negb (cl_status close =? Status_code Status_Ok) then
      Err (Client_Status (Status_from_code (cl_status close)) (detail_extensions (cl_detail close)))
    else Ok (inr (map snd (btree_iter (co_complete k))))
  else if kind =? transfer_event_RESET then
    reset ← map_err wire_error (decode (fr_payload frame) : result Error Reset);
    Err (Client_Status (Status_from_code (rst_status reset)) (detail_extensions (rst_detail reset)))
  else Ok (inl k).

(** The loop, polled: [inl] is still waiting. *)
Fixpoint messages_loop (fuel : nat) (d : Descriptor) (q maximum_bytes maximum_messages : Z) (k : Collected) :
    call Mux (Collected + list (list byte)) := fun m =>
  match fuel with
  | O => (Ok (inl k), m)
  | S fuel' =>
      match recv_frame q m with
      | (None, m) => (Ok (inl k), m)
      | (Some None, m) => messages_end d q (Err (closed_error m)) m
      | (Some (Some frame), m) =>
          match messages_frame d maximum_bytes maximum_messages k frame with
          | Err e => messages_end d q (Err e) m
          | Ok (inr items) => messages_end d q (Ok (inr items)) m
          | Ok (inl k) => messages_loop fuel' d q maximum_bytes maximum_messages k m
          end
      end
  end.

Definition collect_messages (d : Descriptor) (q maximum_bytes maximum_messages : Z) (k : Collected) :
    call Mux (Collected + list (list byte)) := fun m =>
  messages_loop (S (queue_length q m)) d q maximum_bytes maximum_messages k m.

(** ** Subscriptions *)

Definition STATE_CREDIT : Z := transport_RECOMMENDED_WIRE_FRAME.
Definition STATE_ACK_KIND : Z := 1.

Record Subscription := mkSubscription {
  sb_family : Z; sb_unwatch_kind : Z; sb_subscription_id : Z; sb_current_revision : Z; sb_frames : Z;
  sb_record_kinds : list Z; sb_cumulative_credit : Z; sb_closed : bool
}.

Definition sb_set_progress (revision credit : Z) (s : Subscription) : Subscription :=
  mkSubscription (sb_family s) (sb_unwatch_kind s) (sb_subscription_id s) revision (sb_frames s) (sb_record_kinds s) credit (sb_closed s).
Definition with_record_kinds (kinds : list Z) (s : Subscription) : Subscription :=
  mkSubscription (sb_family s) (sb_unwatch_kind s) (sb_subscription_id s) (sb_current_revision s) (sb_frames s) kinds
    (sb_cumulative_credit s) (sb_closed s).

Definition watch_hook (family : Z) : Hook := fun prefix =>
  match (decode (rp_body prefix) : result Error WatchResult) with
  | Ok r => [RouteState family (wr_subscription_id r)]
  | Err _ => []
  end.

Definition subscription_start (family watch_kind : Z) (payload : list byte) : call Mux Z :=
  call_start family watch_kind payload (Some (watch_hook family)).

(** [open] once the reply is there. *)
Definition subscription_open (family unwatch_kind : Z) (reply : Reply) : call Mux Subscription := fun m =>
  match (reply ← reply_ok reply;
         r ← map_err wire_error (decode (rp_body (ry_prefix reply)) : result Error WatchResult);
         match Reply_take (RouteState family (wr_subscription_id r)) reply with
         | (Some q, rest) =>
             Ok (mkSubscription family unwatch_kind (wr_subscription_id r) (wr_current_revision r) q [] STATE_CREDIT false, rest)
         | (None, _) => Err (client_protocol "YAS WATCH route missing")
         end) with
  | Err e => (Err e, Reply_drop reply m)
  | Ok (s, rest) => (Ok s, Reply_drop rest m)
  end.

(** [next], polled. *)
Definition subscription_next : call (Mux * Subscription) (option StateEvent) := fun st =>
  let s := snd st in
  if sb_closed s then (Err Client_Closed, st)
  else
    match recv_frame (sb_frames s) (fst st) with
    | (None, m) => (Ok None, (m, s))
    | (Some None, m) => (Err (default (Client_Disconnected "YAS State subscription ended") (mx_closed m)), (m, s))
    | (Some (Some frame), m) =>
        (event ← from_wire (StateEvent_decode_with (fr_payload frame) 0 (sb_record_kinds s));
         let credit := saturating_add_u64 (sb_cumulative_credit s) (len (fr_payload frame)) in
         _ ← own (sb_set_progress (se_to_revision event) credit);
         _ ← shared (mux_send_event (sb_family s) STATE_ACK_KIND
                       (mkAck (sb_subscription_id s) (se_to_revision event) credit)
                       (default_sensitive (sb_family s) Event STATE_ACK_KIND));
         mret (Some event)) (m, s)
    end.

(** [snapshot], resumed with the records it has. *)
Fixpoint subscription_snapshot_loop (fuel : nat) (deadline_passed : bool) (records : list StateRecord) :
    call (Mux * Subscription) (bool * list StateRecord) :=
  match fuel with
  | O => mret (false, records)
  | S fuel' =>
      polled ← subscription_next;
      match polled with
      | None => if deadline_passed then raise Client_Timeout else mret (false, records)
      | Some event =>
          match se_phase event with
          | SnapshotBegin => subscription_snapshot_loop fuel' deadline_passed (se_records event)
          | SnapshotRecords | Delta => subscription_snapshot_loop fuel' deadline_passed (records ++ se_records event)
          | SnapshotEnd => mret (true, records ++ se_records event)
          | PhaseReset => raise (client_protocol "family reset its snapshot")
          end
      end
  end.

Definition subscription_snapshot (deadline_passed : bool) (records : list StateRecord) :
    call (Mux * Subscription) (bool * list StateRecord) := fun st =>
  subscription_snapshot_loop (S (queue_length (sb_frames (snd st)) (fst st))) deadline_passed records st.

(** [Drop for Subscription] *)
Definition subscription_drop (s : Subscription) (m : Mux) : Mux :=
  let m := if sb_closed s then m
           else
             let m := mux_release (RouteState (sb_family s) (sb_subscription_id s)) m in
             match encode (mkUnwatch (sb_subscription_id s)) with
             | Ok payload => send_detached (sb_family s) (sb_unwatch_kind s) payload m
             | Err _ => m
             end in
  drop_receivers [sb_frames s] m.
