(* ===== verification/MuxStreamFacts.v ===== *)
(** * MuxStreamFacts: flow control of the client's Transfer streams
      ([crates/client/src/transfer.rs]) *)

From S2P Require Import Prelude Schema Codec CodecFacts Wire Datagrams Frame FrameFacts Transfer TransferFacts State Ordered Kv FamilyLimits Core CoreControl Native NativeFacts NativeInvariant NativeTransfer NativeUpload NativeFramed NetWire MuxFlows Mux MuxFacts MuxInvariant MuxRun MuxStream.

(** ** Credit *)

(** What was announced is at most a window ahead of what arrived. *)
Record Stream_ok (s : ByteStream) : Prop := {
  ok_received : 0 <= by_received s;
  ok_credit : by_received s <= by_granted s;
  ok_window : by_granted s - by_received s <= by_window s;
  ok_granted : by_granted s <= U64_MAX;
  ok_size : 1 <= by_window s
}.

(** At least half a window is outstanding, unless the counter is used up. *)
Definition half_outstanding (s : ByteStream) : Prop :=
  by_window s / 2 <= by_granted s - by_received s ∨ by_granted s = U64_MAX.

Lemma stream_grant_ok m s : Stream_ok s → Stream_ok (snd (stream_grant (m, s)).2).
Proof.
  intros H. pose proof H as [H1 H2 H3 H4 H5]. unfold stream_grant. rewrite call_bind_eq. cbn [gets snd].
  destruct (Z.leb_spec (by_window s / 2) (by_granted s - by_received s)); [exact H|].
  destruct (Z.leb_spec (saturating_add_u64 (by_received s) (by_window s)) (by_granted s)); [exact H|].
  rewrite call_bind_eq. unfold own, shared. cbn [fst snd]. destruct (mux_send_event _ _ _ _ _) as [r m']. cbn [snd fst].
  unfold saturating_add_u64 in *. split; cbn [by_set_granted by_received by_granted by_window]; lia.
Qed.

Lemma stream_grant_half m s u st : Stream_ok s → stream_grant (m, s) = (Ok u, st) → half_outstanding (snd st).
Proof.
  intros [H1 H2 H3 H4 H5]. assert (by_window s / 2 <= by_window s) by (apply Z.div_le_upper_bound; lia).
  unfold stream_grant, half_outstanding. rewrite call_bind_eq. cbn [gets snd].
  destruct (Z.leb_spec (by_window s / 2) (by_granted s - by_received s)); [intros [= _ <-]; by left|].
  unfold saturating_add_u64. destruct (Z.leb_spec (Z.min U64_MAX (by_received s + by_window s)) (by_granted s)).
  - intros [= _ <-]. right. cbn [snd]. lia.
  - rewrite call_bind_eq. unfold own, shared. cbn [fst snd]. destruct (mux_send_event _ _ _ _ _) as [r m'].
    intros [= _ <-]. cbn [snd fst by_set_granted by_received by_granted by_window].
    destruct (Z.le_gt_cases (by_received s + by_window s) U64_MAX); [left; lia|right; lia].
Qed.

Lemma ByteStream_new_ok d frames window m s m' :
  0 <= td_sender_send_credit d <= U64_MAX → ByteStream_new d frames window m = (Ok s, m') → Stream_ok s ∧ half_outstanding s.
Proof.
  intros Hc. unfold ByteStream_new. destruct (Descriptor_validate d); [|done]. destruct (_ || _); [done|]. cbv zeta.
  set (s0 := mkByteStream _ _ _ _ _ _ _ _ _). assert (Stream_ok s0) as H0 by (split; cbn; lia).
  pose proof (stream_grant_ok m s0 H0) as Hg. destruct (stream_grant (m, s0)) as [[u|e] [m1 s1]] eqn:E; [|done].
  intros [= -> ->]. split; [exact Hg|]. exact (stream_grant_half m s0 u _ H0 E).
Qed.

(** Every frame keeps the accounting; a chunk tops the credit up. *)
Definition keeps_credit (s : ByteStream) (r : result ClientError Step_) (s' : ByteStream) : Prop :=
  Stream_ok s' ∧ by_received s <= by_received s' <= by_granted s ∧ by_window s' = by_window s
  ∧ ∀ data, r = Ok (StepData data) → half_outstanding s' ∧ by_received s' = by_received s + len data.

Lemma keeps_credit_same s r s' :
  Stream_ok s → by_received s' = by_received s → by_granted s' = by_granted s → by_window s' = by_window s →
  (∀ data, r ≠ Ok (StepData data)) → keeps_credit s r s'.
Proof.
  intros [H1 H2 H3 H4 H5] E1 E2 E3 Hr. unfold keeps_credit. rewrite E1, E3. split_and!; [split; rewrite ?E1, ?E2, ?E3; done|done|done|done|].
  intros data Hd. by destruct (Hr data).
Qed.

Lemma stream_chunk_keeps m s data :
  Stream_ok s → by_received s + len data <= by_granted s →
  let (r, st) := stream_grant (m, by_set_received (by_received s + len data) s) in
  keeps_credit s (match r with Ok _ => Ok (StepData data) | Err e => Err e end) (snd st).
Proof.
  intros [H1 H2 H3 H4 H5] Hl. pose proof (len_nonneg data).
  set (s1 := by_set_received (by_received s + len data) s). assert (Stream_ok s1) as Hs by (split; cbn; lia).
  pose proof (stream_grant_ok m s1 Hs) as Hg. pose proof (λ u st, stream_grant_half m s1 u st Hs) as Hh.
  assert (by_received (snd (stream_grant (m, s1)).2) = by_received s1 ∧ by_window (snd (stream_grant (m, s1)).2) = by_window s1) as [Er Ew].
  { unfold stream_grant. rewrite call_bind_eq. cbn [gets snd]. destruct (_ <=? _); [done|]. destruct (_ <=? _); [done|].
    rewrite call_bind_eq. unfold own, shared. cbn [fst snd]. by destruct (mux_send_event _ _ _ _ _). }
  destruct (stream_grant (m, s1)) as [[u|e] st]; cbn [fst snd] in *; unfold keeps_credit; rewrite Er, Ew;
    split_and!; try done; cbn; try lia. intros x [= <-]. split; [by apply (Hh u)|done].
Qed.

Lemma stream_handle_ok frame m s :
  Stream_ok s → keeps_credit s (stream_handle frame (m, s)).1 (snd (stream_handle frame (m, s)).2).
Proof.
  intros H. unfold stream_handle. rewrite call_bind_eq. cbn [gets snd]. cbv zeta.
  rewrite call_bind_eq. unfold from_result. destruct (check_sensitivity _ _) as [[]|e]; [|by apply keeps_credit_same].
  destruct (_ =? transfer_event_BYTE_DATA); [|destruct (_ =? transfer_event_CLOSE)].
  - rewrite call_bind_eq. unfold from_wire, from_result. destruct (decode _) as [data|e]; cbn [map_err]; [|by apply keeps_credit_same].
    rewrite call_bind_eq. unfold guard_. destruct (_ || _); cbn [raise mret call_ret]; [by apply keeps_credit_same|].
    rewrite call_bind_eq. destruct (checked_add_u64 _ _) as [next|] eqn:En; [|by apply keeps_credit_same].
    apply checked_add_u64_some in En as [-> _]. rewrite call_bind_eq. destruct (Z.ltb_spec (by_granted s) (by_received s + len (bd_data data)));
      cbn [raise mret call_ret]; [by apply keeps_credit_same|].
    rewrite call_bind_eq. unfold own. cbn [fst snd]. rewrite call_bind_eq.
    pose proof (stream_chunk_keeps m s (bd_data data) H ltac:(lia)) as Hk. by destruct (stream_grant _) as [[u|e] st].
  - rewrite call_bind_eq. unfold from_wire, from_result. destruct (decode _) as [close|e]; cbn [map_err]; [|by apply keeps_credit_same].
    rewrite call_bind_eq. unfold end_stream. rewrite call_bind_eq. cbn [gets snd]. rewrite call_bind_eq. unfold own, effect. cbn [fst snd].
    rewrite call_bind_eq. unfold guard_. destruct (negb _); cbn [raise mret call_ret]; [by apply keeps_credit_same|].
    rewrite call_bind_eq. destruct (negb _); cbn [raise mret call_ret]; by apply keeps_credit_same.
  - destruct (_ =? transfer_event_RESET); [|by apply keeps_credit_same]. rewrite call_bind_eq. unfold from_wire, from_result.
    destruct (decode _) as [reset|e]; cbn [map_err]; by apply keeps_credit_same.
Qed.

(** ** A stream whose sender keeps to the protocol *)

Lemma mux_send_event_open `{Encode A} family kind (e : A) sensitive payload m out :
  encode e = Ok payload → mx_closed m = None → mx_outbound m = Some out → kind ≠ transfer_event_RESET →
  mux_send_event family kind e sensitive m
  = (Ok (), mx_set_outbound (Some (out ++ [mkFrame (set_sensitive sensitive (FrameHeader_event family kind)) payload])) m).
Proof.
  intros He Hc Ho Hk. unfold mux_send_event. rewrite call_bind_eq. unfold from_wire, from_result. rewrite He. cbn [map_err].
  unfold send_frame. rewrite Hc. cbn [fr_header set_sensitive FrameHeader_event fh_kind]. apply Z.eqb_neq in Hk. rewrite Hk.
  by destruct (mux_transfer_event_id _); rewrite Ho.
Qed.

Lemma mx_outbound_eta m out : mx_outbound m = Some out → mx_set_outbound (Some out) m = m.
Proof. destruct m. cbn. by intros ->. Qed.

Lemma stream_grant_open m s out :
  td_transfer_id (by_descriptor s) ≠ 0 → mx_closed m = None → mx_outbound m = Some out →
  ∃ out' g, stream_grant (m, s) = (Ok (), (mx_set_outbound (Some out') m, by_set_granted g s)) ∧ by_granted s <= g.
Proof.
  intros Hi Hc Ho. assert (by_set_granted (by_granted s) s = s) as Hs by by destruct s.
  unfold stream_grant. rewrite call_bind_eq. cbn [gets snd].
  destruct (_ <=? _); [exists out, (by_granted s); by rewrite (mx_outbound_eta m out), Hs|].
  destruct (Z.leb_spec (saturating_add_u64 (by_received s) (by_window s)) (by_granted s));
    [exists out, (by_granted s); by rewrite (mx_outbound_eta m out), Hs|].
  rewrite call_bind_eq. unfold own, shared. cbn [fst snd].
  assert (∃ payload, encode (mkCredit (td_transfer_id (by_descriptor s)) (saturating_add_u64 (by_received s) (by_window s))) = Ok payload) as [payload He].
  { unfold encode, encode_to, Credit_encode_to. cbn [cr_transfer_id]. apply Z.eqb_neq in Hi. rewrite Hi. cbn. by eexists. }
  rewrite (mux_send_event_open _ _ _ _ payload m out He Hc Ho) by done.
  eexists _, (saturating_add_u64 (by_received s) (by_window s)). split; [reflexivity|lia].
Qed.

Lemma check_sensitivity_ok d kind sensitive payload :
  Descriptor_requires_sensitive_frame d kind = Ok sensitive → check_sensitivity d (mkFrame (transfer_header kind sensitive) payload) = Ok ().
Proof.
  intros H. unfold check_sensitivity. cbn [fr_header transfer_header set_sensitive FrameHeader_event fh_kind fh_sensitive]. rewrite H. cbn.
  by rewrite Bool.eqb_reflx.
Qed.

Lemma stream_handle_data m s sensitive b payload out :
  let d := by_descriptor s in
  Stream_ok s → is_u32 (td_transfer_id d) → Descriptor_sensitive_content d = Ok sensitive → len b <= td_max_chunk_bytes d →
  encode (mkByteData (td_transfer_id d) (by_received s) b) = Ok payload → by_done s = false →
  by_received s + len b <= by_granted s → mx_closed m = None → mx_outbound m = Some out →
  ∃ out' g, stream_handle (mkFrame (transfer_header transfer_event_BYTE_DATA sensitive) payload) (m, s)
    = (Ok (StepData b), (mx_set_outbound (Some out') m, by_set_granted g (by_set_received (by_received s + len b) s))) ∧ by_granted s <= g.
Proof.
  cbv zeta. intros [H1 H2 H3 H4 H5] Hi Hs Hl He Hd Hg Hc Ho.
  destruct (data_payload _ (by_received s) b payload Hi ltac:(unfold U64_MAX in *; lia) He) as (Hdec & _ & _ & Hb).
  assert (td_transfer_id (by_descriptor s) ≠ 0) as Hz.
  { intros Hz. unfold encode, encode_to, ByteData_encode_to in He. cbn [bd_transfer_id] in He. by rewrite Hz in He. }
  unfold stream_handle. rewrite call_bind_eq. cbn [gets snd]. cbv zeta. rewrite call_bind_eq. unfold from_result.
  rewrite check_sensitivity_ok by done. cbn [fr_header transfer_header set_sensitive FrameHeader_event fh_kind fr_payload].
  rewrite Z.eqb_refl, call_bind_eq. unfold from_wire, from_result. rewrite Hdec. cbn [map_err]. rewrite call_bind_eq. unfold guard_.
  cbn [bd_offset bd_data]. rewrite Hd, Z.eqb_refl. destruct (Z.ltb_spec (td_max_chunk_bytes (by_descriptor s)) (len b)); [lia|].
  cbn [negb orb mret call_ret]. rewrite call_bind_eq. unfold checked_add_u64. destruct (Z.leb_spec (by_received s + len b) U64_MAX); [|lia].
  rewrite call_bind_eq. destruct (Z.ltb_spec (by_granted s) (by_received s + len b)); [lia|]. cbn [mret call_ret].
  rewrite call_bind_eq. unfold own. cbn [fst snd]. rewrite call_bind_eq.
  destruct (stream_grant_open m (by_set_received (by_received s + len b) s) out Hz Hc Ho) as (out' & g & -> & Hg').
  by exists out', g.
Qed.

Lemma stream_handle_close m s sensitive payload :
  let d := by_descriptor s in
  Stream_ok s → is_u32 (td_transfer_id d) → Descriptor_sensitive_content d = Ok sensitive →
  encode (mkClose (td_transfer_id d) (by_received s) (Status_code Status_Ok) []) = Ok payload →
  stream_handle (mkFrame (transfer_header transfer_event_CLOSE sensitive) payload) (m, s)
  = (Ok StepEnd, (mux_release (by_route s) m, by_set_done s)).
Proof.
  cbv zeta. intros [H1 H2 H3 H4 H5] Hi Hs He.
  destruct (close_payload _ (by_received s) payload Hi ltac:(unfold U64_MAX in *; lia) He) as (Hdec & _ & _).
  unfold stream_handle. rewrite call_bind_eq. cbn [gets snd]. cbv zeta. rewrite call_bind_eq. unfold from_result.
  rewrite check_sensitivity_ok by done. cbn [fr_header transfer_header set_sensitive FrameHeader_event fh_kind fr_payload].
  change (transfer_event_CLOSE =? transfer_event_BYTE_DATA) with false. rewrite Z.eqb_refl, call_bind_eq. unfold from_wire, from_result.
  rewrite Hdec. cbn [map_err]. rewrite call_bind_eq. unfold end_stream. rewrite call_bind_eq. cbn [gets snd]. rewrite call_bind_eq.
  unfold own, effect. cbn [fst snd]. rewrite call_bind_eq. unfold guard_. cbn [cl_final_data_bytes cl_status]. rewrite Z.eqb_refl.
  cbn [negb mret call_ret]. rewrite call_bind_eq. done.
Qed.

Lemma recv_frame_next q m f rest alive :
  mx_queues m !! q = Some (mkQueue (f :: rest) alive) →
  recv_frame q m = (Some (Some f), mx_set_queues (<[q := mkQueue rest alive]> (mx_queues m)) m).
Proof. intros H. unfold recv_frame. by rewrite H. Qed.

(** A stream between chunks, in a session that is up. *)
Record streaming (m : Mux) (s : ByteStream) : Prop := {
  sg_ok : Stream_ok s; sg_half : half_outstanding s; sg_failed : by_failed s = None; sg_done : by_done s = false;
  sg_read : len (by_buffer s) <= by_position s; sg_open : mx_closed m = None; sg_writer : is_Some (mx_outbound m);
  sg_route : ro_routes (mx_router m) !! by_route s = Some (by_frames s)
}.

(** The state after [n] bytes. *)
Record advanced (n : Z) (frames : list Frame) (m : Mux) (s : ByteStream) (m' : Mux) (s' : ByteStream) : Prop := {
  av_streaming : streaming m' s'; av_descriptor : by_descriptor s' = by_descriptor s; av_frames : by_frames s' = by_frames s;
  av_window : by_window s' = by_window s; av_received : by_received s' = by_received s + n; av_granted : by_granted s <= by_granted s';
  av_queue : mx_queues m' !! by_frames s = Some (mkQueue frames true)
}.

Definition data_frame (d : Descriptor) (sensitive : bool) (offset : Z) (b : list byte) (f : Frame) : Prop :=
  len b <= td_max_chunk_bytes d
  ∧ ∃ payload, encode (mkByteData (td_transfer_id d) offset b) = Ok payload
      ∧ f = mkFrame (transfer_header transfer_event_BYTE_DATA sensitive) payload.

Lemma next_chunk_data m s sensitive b f frames :
  let d := by_descriptor s in
  streaming m s → is_u32 (td_transfer_id d) → Descriptor_sensitive_content d = Ok sensitive → data_frame d sensitive (by_received s) b f →
  by_received s + len b <= by_granted s → mx_queues m !! by_frames s = Some (mkQueue (f :: frames) true) →
  ∃ m' s', next_chunk (m, s) = (Ok (Some (Some b)), (m', s')) ∧ advanced (len b) frames m s m' s'.
Proof.
  cbv zeta. intros [H Hh Hf Hd Hbuf Hc [out Ho] Hr] Hi Hs (Hl & payload & He & ->) Hg Hq. unfold next_chunk. cbn [fst snd].
  destruct (Z.ltb_spec (by_position s) (len (by_buffer s))); [lia|]. cbn [next_chunk_loop fst snd]. rewrite Hf, Hd.
  rewrite (recv_frame_next _ _ _ _ _ Hq). set (m1 := mx_set_queues _ m).
  pose proof (stream_handle_ok (mkFrame (transfer_header transfer_event_BYTE_DATA sensitive) payload) m1 s H) as (Hk & _ & _ & Hk2).
  destruct (stream_handle_data m1 s sensitive b payload out) as (out' & g & Hstep & Hgg); try done. rewrite Hstep in *.
  destruct (Hk2 b eq_refl) as [Hhalf _]. eexists _, _. split; [reflexivity|]. subst m1. split; mux_fields; try done.
  by rewrite lookup_insert_eq.
Qed.

(** Chunks at consecutive offsets, one frame each. *)
Fixpoint data_frames (d : Descriptor) (sensitive : bool) (offset : Z) (chunks : list (list byte)) (frames : list Frame) : Prop :=
  match chunks, frames with
  | [], [] => True
  | b :: chunks, f :: frames => data_frame d sensitive offset b f ∧ data_frames d sensitive (offset + len b) chunks frames
  | _, _ => False
  end.

Lemma byte_frames_split d sensitive offset chunks frames :
  byte_frames d sensitive offset chunks frames →
  ∃ fs payload, frames = fs ++ [mkFrame (transfer_header transfer_event_CLOSE sensitive) payload] ∧ data_frames d sensitive offset chunks fs
    ∧ encode (mkClose (td_transfer_id d) (offset + len (concat chunks)) (Status_code Status_Ok) []) = Ok payload.
Proof.
  revert offset frames. induction chunks as [|b chunks IH]; intros offset [|f frames]; cbn [byte_frames]; try done.
  - destruct frames; [|done]. intros (payload & He & ->). exists [], payload. cbn [concat]. by rewrite len_nil, Z.add_0_r.
  - intros (Hl & Hp & Hf). destruct (IH _ _ Hf) as (fs & payload & -> & Hd & He). exists (f :: fs), payload.
    cbn [concat data_frames]. rewrite len_app, Z.add_assoc. done.
Qed.

(** The loop takes the chunks and goes on with the rest. *)
Lemma read_to_end_loop_data sensitive limit chunks frames more fuel bytes m s :
  let d := by_descriptor s in
  streaming m s → is_u32 (td_transfer_id d) → Descriptor_sensitive_content d = Ok sensitive →
  data_frames d sensitive (by_received s) chunks frames → by_received s + len (concat chunks) <= by_granted s →
  len bytes + len (concat chunks) <= limit → mx_queues m !! by_frames s = Some (mkQueue (frames ++ more) true) →
  ∃ m' s', read_to_end_loop (length frames + fuel) limit bytes (m, s) = read_to_end_loop fuel limit (bytes ++ concat chunks) (m', s')
    ∧ advanced (len (concat chunks)) more m s m' s'.
Proof.
  cbv zeta. revert chunks bytes m s. induction frames as [|f frames IH]; intros [|b chunks] bytes m s H Hi Hs Hf Hg Hl Hq; try done.
  { exists m, s. cbn [concat]. rewrite app_nil_r. split; [done|]. split; try done. rewrite len_nil. lia. }
  destruct Hf as [Hb Hf]. cbn [concat length app Nat.add read_to_end_loop] in *. rewrite len_app in *. rewrite call_bind_eq.
  pose proof (len_nonneg (concat chunks)). pose proof (len_nonneg b).
  destruct (next_chunk_data m s sensitive b f (frames ++ more)) as (m1 & s1 & -> & [A1 A2 A3 A4 A5 A6 A7]); try done; [lia|].
  rewrite call_bind_eq. unfold guard_. destruct (Z.ltb_spec limit (len bytes + len b)); [lia|]. cbn [mret call_ret].
  destruct (IH chunks (bytes ++ b) m1 s1) as (m2 & s2 & -> & [B1 B2 B3 B4 B5 B6 B7]); rewrite ?A2, ?A3, ?A5; try done; [lia|rewrite len_app; lia|].
  exists m2, s2. rewrite <- app_assoc. split; [done|]. split; [done|..].
  - by rewrite B2.
  - by rewrite B3.
  - by rewrite B4.
  - lia.
  - lia.
  - by rewrite <- A3.
Qed.

Lemma sender_alive_route route q m : ro_routes (mx_router m) !! route = Some q → sender_alive q m = true.
Proof.
  intros H. unfold sender_alive. apply existsb_exists. exists (route, q). split; [|apply Z.eqb_refl].
  by apply list_elem_of_In, elem_of_map_to_list.
Qed.

Lemma next_chunk_waits m s :
  streaming m s → mx_queues m !! by_frames s = Some (mkQueue [] true) → next_chunk (m, s) = (Ok None, (m, s)).
Proof.
  intros [H Hh Hf Hd Hbuf Hc Ho Hr] Hq. unfold next_chunk. cbn [fst snd]. destruct (Z.ltb_spec (by_position s) (len (by_buffer s))); [lia|].
  cbn [next_chunk_loop fst snd]. rewrite Hf, Hd. unfold recv_frame. by rewrite Hq, (sender_alive_route _ _ _ Hr).
Qed.

(** A round of chunks is taken whole, and the next may be as long again. *)
Lemma read_to_end_round sensitive limit chunks frames bytes m s :
  let d := by_descriptor s in
  streaming m s → is_u32 (td_transfer_id d) → Descriptor_sensitive_content d = Ok sensitive →
  data_frames d sensitive (by_received s) chunks frames → by_received s + len (concat chunks) <= by_granted s →
  len bytes + len (concat chunks) <= limit → mx_queues m !! by_frames s = Some (mkQueue frames true) →
  ∃ m' s', read_to_end limit bytes (m, s) = (Ok (Waiting_ (bytes ++ concat chunks)), (m', s')) ∧ advanced (len (concat chunks)) [] m s m' s'.
Proof.
  cbv zeta. intros H Hi Hs Hf Hg Hl Hq. unfold read_to_end, stream_rounds, queue_length. cbn [fst snd]. rewrite Hq. cbn [fq_frames].
  replace (S (S (length frames))) with (length frames + 2)%nat by lia.
  destruct (read_to_end_loop_data sensitive limit chunks frames [] 2 bytes m s) as (m' & s' & -> & Ha); try done; [by rewrite app_nil_r|].
  cbn [read_to_end_loop]. rewrite call_bind_eq. rewrite next_chunk_waits; [|exact (av_streaming _ _ _ _ _ _ Ha)|].
  - by exists m', s'.
  - rewrite (av_frames _ _ _ _ _ _ Ha). exact (av_queue _ _ _ _ _ _ Ha).
Qed.

Lemma read_to_end_last sensitive limit chunks frames more bytes m s :
  let d := by_descriptor s in
  streaming m s → is_u32 (td_transfer_id d) → Descriptor_sensitive_content d = Ok sensitive →
  byte_frames d sensitive (by_received s) chunks frames → by_received s + len (concat chunks) <= by_granted s →
  len bytes + len (concat chunks) <= limit → mx_queues m !! by_frames s = Some (mkQueue (frames ++ more) true) →
  (read_to_end limit bytes (m, s)).1 = Ok (Collected_ (bytes ++ concat chunks)).
Proof.
  cbv zeta. intros H Hi Hs (fs & payload & -> & Hf & He)%byte_frames_split Hg Hl Hq.
  unfold read_to_end, stream_rounds, queue_length. cbn [fst snd]. rewrite Hq. cbn [fq_frames].
  replace (S (S (length ((fs ++ [mkFrame (transfer_header transfer_event_CLOSE sensitive) payload]) ++ more))))
    with (length fs + S (S (S (length more))))%nat by (rewrite !length_app; cbn [length]; lia).
  rewrite <- app_assoc in Hq.
  destruct (read_to_end_loop_data sensitive limit chunks fs _ (S (S (S (length more)))) bytes m s H Hi Hs Hf Hg Hl Hq)
    as (m' & s' & -> & [[B1 B2 B3 B4 B5 B6 B7 B8] A2 A3 A4 A5 A6 A7]).
  cbn [read_to_end_loop]. rewrite call_bind_eq. unfold next_chunk. cbn [fst snd].
  destruct (Z.ltb_spec (by_position s') (len (by_buffer s'))); [lia|]. cbn [next_chunk_loop fst snd]. rewrite B3, B4, A3.
  cbn [app] in A7. rewrite (recv_frame_next _ _ _ _ _ A7). rewrite stream_handle_close; rewrite ?A2, ?A5; done.
Qed.

(** ** Frames arriving while the reader is polled *)

(** Each round of frames is delivered, then the reader polled. *)
Fixpoint read_rounds (limit : Z) (rounds : list (list Frame)) (bytes : list byte) : call (Mux * ByteStream) Collecting := fun st =>
  match rounds with
  | [] => (Ok (Waiting_ bytes), st)
  | frames :: rounds =>
      match read_to_end limit bytes (deliver_all (map (pair (by_route (snd st))) frames) (fst st), snd st) with
      | (Ok (Waiting_ bytes), st) => read_rounds limit rounds bytes st
      | r => r
      end
  end.

(** Rounds of at most [pace] bytes each, the last one ended by CLOSE. *)
Fixpoint paced (pace : Z) (d : Descriptor) (sensitive : bool) (offset : Z) (groups : list (list (list byte))) (rounds : list (list Frame)) : Prop :=
  match groups, rounds with
  | chunks :: groups, frames :: rounds =>
      len (concat chunks) <= pace
      ∧ match groups with
        | [] => byte_frames d sensitive offset chunks frames ∧ rounds = []
        | _ => data_frames d sensitive offset chunks frames ∧ paced pace d sensitive (offset + len (concat chunks)) groups rounds
        end
  | _, _ => False
  end.

Lemma deliver_all_pushes route q frames queued m :
  ro_routes (mx_router m) !! route = Some q → mx_queues m !! q = Some (mkQueue queued true) →
  deliver_all (map (pair route) frames) m = mx_set_queues (<[q := mkQueue (queued ++ frames) true]> (mx_queues m)) m.
Proof.
  intros Hr. revert queued m Hr. induction frames as [|f frames IH]; intros queued m Hr Hq; cbn [map deliver_all foldl].
  { rewrite app_nil_r, insert_id by done. by destruct m. }
  assert (route_deliver route f m = mx_set_queues (<[q := mkQueue (queued ++ [f]) true]> (mx_queues m)) m) as E.
  { unfold route_deliver, queue_alive, push_frame. cbn [fst snd]. rewrite Hr, Hq. cbn [fq_receiver]. f_equal. apply map_eq. intros i.
    destruct (decide (i = q)) as [->|Hne]; [by rewrite lookup_alter_eq, lookup_insert_eq, Hq|by rewrite lookup_alter_ne, lookup_insert_ne]. }
  cbn [fst snd]. rewrite E. unfold deliver_all in IH. rewrite (IH (queued ++ [f])); mux_fields; [|done|by rewrite lookup_insert_eq].
  rewrite insert_insert_eq, <- app_assoc. by destruct m.
Qed.

(** What is outstanding between rounds is enough for the next one. *)
Lemma pace_granted s n :
  half_outstanding s → n <= by_window s / 2 → by_received s + n <= U64_MAX → by_received s + n <= by_granted s.
Proof. unfold half_outstanding. lia. Qed.

Lemma read_rounds_all sensitive limit groups rounds bytes m s :
  let d := by_descriptor s in
  streaming m s → is_u32 (td_transfer_id d) → Descriptor_sensitive_content d = Ok sensitive →
  paced (by_window s / 2) d sensitive (by_received s) groups rounds → by_received s + len (concat (concat groups)) <= U64_MAX →
  len bytes + len (concat (concat groups)) <= limit → mx_queues m !! by_frames s = Some (mkQueue [] true) →
  (read_rounds limit rounds bytes (m, s)).1 = Ok (Collected_ (bytes ++ concat (concat groups))).
Proof.
  cbv zeta. revert rounds bytes m s. induction groups as [|chunks groups IH]; intros [|frames rounds] bytes m s H Hi Hs Hp Hu Hl Hq; try done.
  destruct Hp as [Hn Hp]. cbn [concat] in *. rewrite concat_app, len_app in *. pose proof (len_nonneg (concat (concat groups))).
  pose proof (pace_granted s (len (concat chunks)) (sg_half _ _ H) Hn ltac:(lia)) as Hg.
  cbn [read_rounds fst snd]. rewrite (deliver_all_pushes _ _ frames [] m (sg_route _ _ H) Hq). cbn [app].
  set (m1 := mx_set_queues _ m). assert (streaming m1 s) as H1 by (destruct H; by split).
  assert (mx_queues m1 !! by_frames s = Some (mkQueue frames true)) as Hq1 by (subst m1; mux_fields; by rewrite lookup_insert_eq).
  destruct groups as [|g groups].
  - destruct Hp as [Hf ->]. cbn [concat] in *. rewrite app_nil_r in *.
    rewrite <- (app_nil_r frames) in Hq1. pose proof (read_to_end_last sensitive limit chunks frames [] bytes m1 s H1 Hi Hs Hf Hg ltac:(lia) Hq1) as E.
    destruct (read_to_end limit bytes (m1, s)) as [r st]. cbn [fst] in E. by subst r.
  - destruct Hp as [Hf Hp].
    destruct (read_to_end_round sensitive limit chunks frames bytes m1 s H1 Hi Hs Hf Hg ltac:(lia) Hq1) as (m2 & s2 & -> & [A1 A2 A3 A4 A5 A6 A7]).
    rewrite (IH rounds (bytes ++ concat chunks) m2 s2); rewrite ?A2, ?A3, ?A4, ?A5; try done; [by rewrite <- app_assoc|lia|rewrite len_app; lia].
Qed.

(** * Uploads over the multiplexed client
      ([crates/client/src/transfer.rs]) *)

(** Never ahead of the peer's credit. *)
Definition Sink_ok (s : ByteSink) : Prop := 0 <= si_sent s <= si_credit s ∧ 1 <= td_max_chunk_bytes (si_descriptor s).

(** What control frames leave alone. *)
Record sink_moved (st st' : Mux * ByteSink) : Prop := {
  sv_outbound : mx_outbound (fst st') = mx_outbound (fst st); sv_descriptor : si_descriptor (snd st') = si_descriptor (snd st);
  sv_frames : si_frames (snd st') = si_frames (snd st); sv_sent : si_sent (snd st') = si_sent (snd st);
  sv_credit : si_credit (snd st) <= si_credit (snd st')
}.

Lemma sink_moved_trans st1 st2 st3 : sink_moved st1 st2 → sink_moved st2 st3 → sink_moved st1 st3.
Proof. intros [A1 A2 A3 A4 A5] [B1 B2 B3 B4 B5]. split; congruence || lia. Qed.

Lemma sink_moved_ok st st' : sink_moved st st' → Sink_ok (snd st) → Sink_ok (snd st').
Proof. intros [A1 A2 A3 A4 A5] [H1 H2]. unfold Sink_ok. rewrite A2, A4. lia. Qed.

Lemma control_inner_moved frame st :
  sink_moved st (control_inner frame st).2 ∧ mx_queues (fst (control_inner frame st).2) = mx_queues (fst st).
Proof.
  destruct st as [m s]. unfold control_inner. rewrite call_bind_eq. cbn [gets snd]. cbv zeta. rewrite call_bind_eq. unfold from_result.
  destruct (check_sensitivity _ _) as [[]|e]; [|by split].
  destruct (_ =? transfer_event_CREDIT); [|destruct (_ =? transfer_event_RESET)].
  - rewrite call_bind_eq. unfold from_wire, from_result. destruct (decode _) as [credit|e]; cbn [map_err]; [|by split].
    destruct (Z.ltb_spec (si_credit s) (cr_cumulative_limit credit)); cbn; [|by split]. split; [|done]. split; cbn; try done. lia.
  - rewrite call_bind_eq. unfold from_wire, from_result. destruct (decode _) as [reset|e]; cbn [map_err]; by split.
  - destruct (_ =? transfer_event_CLOSE); by split.
Qed.

Lemma sink_control_moved frame st :
  sink_moved st (sink_control frame st).2 ∧ mx_queues (fst (sink_control frame st).2) = mx_queues (fst st).
Proof.
  pose proof (control_inner_moved frame st) as [[A1 A2 A3 A4 A5] Hq]. unfold sink_control.
  destruct (control_inner frame st) as [[u|e] [m' s']]; [by split|]. split; [by split|done].
Qed.

Lemma recv_frame_outbound q m : mx_outbound (recv_frame q m).2 = mx_outbound m.
Proof. unfold recv_frame. by destruct (mx_queues m !! q) as [[[|f rest] alive]|]. Qed.

Lemma recv_frame_spec q m :
  match (recv_frame q m).1 with
  | Some (Some _) => queue_length q m = S (queue_length q (recv_frame q m).2)
  | _ => queue_length q m = 0%nat ∧ (recv_frame q m).2 = m
  end.
Proof.
  unfold recv_frame, queue_length. destruct (mx_queues m !! q) as [[[|f rest] alive]|] eqn:E; cbn [fst snd].
  - by destruct (sender_alive q m).
  - mux_fields. by rewrite lookup_insert_eq.
  - by destruct (sender_alive q m).
Qed.

Lemma drain_control_loop_moved fuel st :
  (queue_length (si_frames (snd st)) (fst st) < fuel)%nat →
  sink_moved st (drain_control_loop fuel st).2
  ∧ ∀ u, (drain_control_loop fuel st).1 = Ok u →
      queue_length (si_frames (snd st)) (fst (drain_control_loop fuel st).2) = 0%nat.
Proof.
  revert st. induction fuel as [|fuel IH]; intros [m s] Hl; [lia|]. cbn [fst snd] in *. cbn [drain_control_loop fst snd].
  pose proof (recv_frame_outbound (si_frames s) m) as Ho. pose proof (recv_frame_spec (si_frames s) m) as Hr.
  destruct (recv_frame (si_frames s) m) as [[[frame|]|] m1]; cbn [fst snd] in *.
  - rewrite call_bind_eq. destruct (sink_control_moved frame (m1, s)) as [Hm Hq].
    assert (sink_moved (m, s) (m1, s)) as Hm0 by (split; cbn; done || lia).
    destruct (sink_control frame (m1, s)) as [[u|e] st1]; cbn [fst snd] in *.
    + destruct (IH st1) as [I1 I2].
      { rewrite (sv_frames _ _ Hm). unfold queue_length in *. rewrite Hq. cbn [snd] in *. lia. }
      split; [eapply sink_moved_trans; [exact Hm0|eapply sink_moved_trans; [exact Hm|exact I1]]|].
      rewrite (sv_frames _ _ Hm) in I2. exact I2.
    + split; [by eapply sink_moved_trans|done].
  - destruct Hr as [Hr ->]. split; [split; cbn; done || lia|done].
  - destruct Hr as [Hr ->]. split; [split; cbn; done || lia|done].
Qed.

Lemma drain_control_moved st :
  sink_moved st (drain_control st).2
  ∧ ∀ u, (drain_control st).1 = Ok u → queue_length (si_frames (snd st)) (fst (drain_control st).2) = 0%nat.
Proof.
  unfold drain_control. destruct (si_failed (snd st)); [split; [by split|done]|]. apply drain_control_loop_moved. lia.
Qed.

(** ** Chunks *)

(** The bytes [b] were queued as BYTE_DATA where the last chunk stopped. *)
Record sink_sent (b : list byte) (st st' : Mux * ByteSink) : Prop := {
  ss_ok : Sink_ok (snd st'); ss_descriptor : si_descriptor (snd st') = si_descriptor (snd st);
  ss_sent : si_sent (snd st') = si_sent (snd st) + len b;
  ss_queued : ∀ out, mx_outbound (fst st) = Some out →
    ∃ chunks frames, concat chunks = b ∧ mx_outbound (fst st') = Some (out ++ frames)
      ∧ ∀ sensitive, Descriptor_sensitive_content (si_descriptor (snd st)) = Ok sensitive →
          data_frames (si_descriptor (snd st)) sensitive (si_sent (snd st)) chunks frames
}.

Lemma data_frames_app d sensitive offset c1 c2 f1 f2 :
  data_frames d sensitive offset c1 f1 → data_frames d sensitive (offset + len (concat c1)) c2 f2 →
  data_frames d sensitive offset (c1 ++ c2) (f1 ++ f2).
Proof.
  revert offset f1. induction c1 as [|b c1 IH]; intros offset [|f f1]; cbn [data_frames concat app]; try done.
  - by rewrite len_nil, Z.add_0_r.
  - rewrite len_app, Z.add_assoc. intros [Hb H1] H2. split; [done|by apply IH].
Qed.

Lemma sink_moved_sent st st' : sink_moved st st' → Sink_ok (snd st) → sink_sent [] st st'.
Proof.
  intros H Hok. pose proof (sink_moved_ok _ _ H Hok) as Hok'. destruct H as [A1 A2 A3 A4 A5]. split; try done.
  - rewrite len_nil. lia.
  - intros out Ho. exists [], []. rewrite app_nil_r. split_and!; [done|congruence|done].
Qed.

Lemma sink_sent_trans b1 b2 st1 st2 st3 : sink_sent b1 st1 st2 → sink_sent b2 st2 st3 → sink_sent (b1 ++ b2) st1 st3.
Proof.
  intros [A1 A2 A3 A4] [B1 B2 B3 B4]. split; [done|congruence|rewrite len_app; lia|]. intros out Ho.
  destruct (A4 out Ho) as (c1 & f1 & <- & Ho1 & H1). destruct (B4 _ Ho1) as (c2 & f2 & <- & Ho2 & H2).
  exists (c1 ++ c2), (f1 ++ f2). rewrite concat_app, app_assoc. split_and!; [done|done|].
  intros sensitive Hs. apply data_frames_app; [by apply H1|]. rewrite <- A3, <- A2. apply H2. by rewrite A2.
Qed.

Lemma transfer_ended_same id reset m :
  mx_outbound (transfer_ended id reset m) = mx_outbound m ∧ mx_queues (transfer_ended id reset m) = mx_queues m.
Proof. unfold transfer_ended. destruct (_ !! id); [by destruct reset|done]. Qed.

Lemma send_frame_sent frame m u m' :
  send_frame frame m = (Ok u, m') →
  mx_queues m' = mx_queues m ∧ ∃ out, mx_outbound m = Some out ∧ mx_outbound m' = Some (out ++ [frame]).
Proof.
  unfold send_frame. destruct (mx_closed m); [done|].
  set (m1 := match mux_transfer_event_id frame with Some _ => _ | None => m end).
  assert (mx_outbound m1 = mx_outbound m ∧ mx_queues m1 = mx_queues m) as [Eo Eq].
  { subst m1. destruct (mux_transfer_event_id frame) as [id|]; [|done]. destruct (_ =? _); [apply transfer_ended_same|done]. }
  clearbody m1. rewrite Eo. destruct (mx_outbound m) as [out|]; [|done]. intros [= _ <-]. split; [done|]. by exists out.
Qed.

Lemma mux_send_event_sent `{Encode A} family kind (e : A) sensitive m u m' :
  mux_send_event family kind e sensitive m = (Ok u, m') →
  mx_queues m' = mx_queues m ∧ ∃ payload out, encode e = Ok payload ∧ mx_outbound m = Some out
    ∧ mx_outbound m' = Some (out ++ [mkFrame (set_sensitive sensitive (FrameHeader_event family kind)) payload]).
Proof.
  unfold mux_send_event. intros (payload & m0 & [Hp ->]%from_wire_ok & (Hq & out & Ho & Ho')%send_frame_sent)%call_bind_ok.
  split; [done|]. by exists payload, out.
Qed.

Lemma send_chunk_sent data st n st' :
  Sink_ok (snd st) → send_chunk data st = (Ok n, st') →
  sink_sent (take (Z.to_nat n) data) st st' ∧ 0 <= n <= len data ∧ si_frames (snd st') = si_frames (snd st)
  ∧ mx_queues (fst st') = mx_queues (fst st)
  ∧ (data ≠ [] → si_sent (snd st) < si_credit (snd st) → 1 <= n).
Proof.
  destruct st as [m s]. intros Hok H. pose proof Hok as [Hc Hd]. cbn [snd] in *. pose proof (len_nonneg data) as Hn.
  unfold send_chunk in H. apply call_bind_ok in H as (s0 & st0 & [-> ->]%gets_ok & H).
  apply call_bind_ok in H as (u & st0 & [_ ->]%guard_ok & H). cbv zeta in H. cbn [snd] in H.
  set (count := Z.min _ _) in H. assert (data ≠ [] → 1 <= len data) as Hne by (destruct data; [done|unfold len; cbn [length]; lia]).
  destruct (Z.eqb_spec count 0) as [E|E].
  - injection H as <- <-. split_and!; try done; [by apply sink_moved_sent; [split|]|]. intros Hd' Hlt. specialize (Hne Hd'). subst count. cbn [snd] in Hlt. lia.
  - apply call_bind_ok in H as (sensitive & st0 & [Hs ->]%from_wire_ok & H).
    apply call_bind_ok in H as (u2 & st1 & Hsend & H). unfold shared in Hsend. cbn [fst snd] in Hsend.
    destruct (mux_send_event _ _ _ _ _) as [r m1] eqn:Es in Hsend. injection Hsend as -> <-.
    apply mux_send_event_sent in Es as (Hq & payload & out1 & He & Hout1 & Ho). rewrite call_bind_eq in H. unfold own in H. cbn [fst snd] in H. injection H as <- <-.
    assert (0 < count <= len data) as Hcount by (subst count; lia).
    assert (len (take (Z.to_nat count) data) = count) as Hlen by (unfold len in *; rewrite length_take; lia).
    split_and!; try (cbn; done || lia). split; cbn [fst snd si_set_sent si_sent si_credit si_descriptor]; try done; [|lia|].
    + split; cbn; [subst count; lia|done].
    + intros out Hout. assert (out1 = out) as -> by congruence. exists [take (Z.to_nat count) data], [mkFrame (transfer_header transfer_event_BYTE_DATA sensitive) payload].
      split_and!; [cbn; by rewrite app_nil_r|exact Ho|]. intros sens Hsens.
      change (Descriptor_requires_sensitive_frame (si_descriptor s) transfer_event_BYTE_DATA) with (Descriptor_sensitive_content (si_descriptor s)) in Hs.
      assert (sens = sensitive) as -> by congruence. split; [|done]. split; [subst count; lia|]. by exists payload.
Qed.

(** What [write_all] does before it waits: everything, or all the credit. *)
Lemma write_all_loop_sent fuel data st rest st' :
  Sink_ok (snd st) → (length data < fuel)%nat → write_all_loop fuel data st = (Ok rest, st') →
  ∃ b, data = b ++ rest ∧ sink_sent b st st' ∧ (rest ≠ [] → si_sent (snd st') = si_credit (snd st')).
Proof.
  revert data st. induction fuel as [|fuel IH]; intros data st Hok Hf H; [lia|]. cbn [write_all_loop] in H.
  destruct data as [|x data]; cbn [is_nil] in H.
  { injection H as <- <-. exists []. split_and!; try done. by apply sink_moved_sent. }
  set (l := x :: data) in *. destruct st as [m s]. apply call_bind_ok in H as (u & st1 & Hd & H).
  destruct (drain_control_moved (m, s)) as [Hm Hq]. rewrite Hd in Hm, Hq. cbn [fst snd] in Hm, Hq.
  specialize (Hq u eq_refl). pose proof (sink_moved_ok _ _ Hm Hok) as Hok1. pose proof (sink_moved_sent _ _ Hm Hok) as Hs1.
  apply call_bind_ok in H as (s1 & st2 & [-> ->]%gets_ok & H). destruct (Z.leb_spec (si_credit (snd st1)) (si_sent (snd st1))) as [Hc|Hc].
  - apply call_bind_ok in H as (m1 & st2 & [-> ->]%gets_ok & H).
    pose proof (recv_frame_spec (si_frames (snd st1)) (fst st1)) as Hr. rewrite (sv_frames _ _ Hm) in *. cbn [fst snd] in *.
    destruct (recv_frame _ _) as [[[frame|]|] m2]; cbn [fst] in Hr; [lia|by rewrite call_bind_eq in H|].
    injection H as <- <-. exists []. split_and!; [done|done|]. intros _. destruct Hok1. lia.
  - apply call_bind_ok in H as (n & st2 & (Hs2 & Hn & _ & _ & Hpos)%send_chunk_sent & H); [|done].
    specialize (Hpos ltac:(done) Hc). apply IH in H as (b & Hb & Hs3 & Hw); [|exact (ss_ok _ _ _ Hs2)|rewrite length_drop; subst l; cbn [length] in *; lia].
    exists (take (Z.to_nat n) l ++ b). split_and!; [by rewrite <- app_assoc, <- Hb, take_drop| |done].
    change (take (Z.to_nat n) l ++ b) with ([] ++ take (Z.to_nat n) l ++ b).
    eapply sink_sent_trans; [exact Hs1|]. by eapply sink_sent_trans.
Qed.

(** ** Ending *)

Lemma sink_control_open frame st u st' : sink_control frame st = (Ok u, st') → si_closed (snd st') = si_closed (snd st).
Proof.
  destruct st as [m s]. unfold sink_control. destruct (control_inner frame (m, s)) as [[v|e] [m1 s1]] eqn:E; [|done]. intros [= _ <-].
  unfold control_inner in E. apply call_bind_ok in E as (s0 & st0 & [-> ->]%gets_ok & E). cbv zeta in E.
  apply call_bind_ok in E as (u2 & st0 & [_ ->]%from_result_ok & E).
  destruct (_ =? transfer_event_CREDIT); [|destruct (_ =? transfer_event_RESET); [|destruct (_ =? transfer_event_CLOSE)]].
  - apply call_bind_ok in E as (credit & st0 & [_ ->]%from_wire_ok & E). destruct (_ <? _); by injection E as _ <- <-.
  - apply call_bind_ok in E as (reset & st0 & _ & E). by rewrite call_bind_eq in E.
  - by rewrite call_bind_eq in E.
  - by injection E as _ <- <-.
Qed.

Lemma drain_control_open st u st' : drain_control st = (Ok u, st') → si_closed (snd st') = si_closed (snd st).
Proof.
  unfold drain_control. destruct (si_failed (snd st)); [done|]. generalize (S (queue_length (si_frames (snd st)) (fst st))) as fuel.
  intros fuel. revert st. induction fuel as [|fuel IH]; intros st; cbn [drain_control_loop]; [by intros [= _ <-]|].
  destruct (recv_frame _ _) as [[[frame|]|] m1]; [|by intros [= _ <-]..].
  intros (v & st1 & Hc%sink_control_open & H)%call_bind_ok. rewrite (IH _ H). exact Hc.
Qed.

Lemma send_chunk_open data st n st' : send_chunk data st = (Ok n, st') → si_closed (snd st') = false ∧ si_closed (snd st) = false.
Proof.
  destruct st as [m s]. unfold send_chunk. intros (s0 & st0 & [-> ->]%gets_ok & H)%call_bind_ok.
  apply call_bind_ok in H as (u & st0 & [Hc ->]%guard_ok & H). cbv zeta in H. cbn [snd] in *. destruct (_ =? 0); [by injection H as _ <-|].
  apply call_bind_ok in H as (sensitive & st0 & [_ ->]%from_wire_ok & H). apply call_bind_ok in H as (u2 & st1 & Hs & H).
  unfold shared in Hs. destruct (mux_send_event _ _ _ _ _) in Hs. injection Hs as _ <-. rewrite call_bind_eq in H. by injection H as _ <-.
Qed.

Lemma write_all_loop_open fuel data st rest st' :
  write_all_loop fuel data st = (Ok rest, st') → si_closed (snd st') = si_closed (snd st).
Proof.
  revert data st. induction fuel as [|fuel IH]; intros data st H; cbn [write_all_loop] in H; [by injection H as _ <-|].
  destruct (is_nil data); [by injection H as _ <-|]. apply call_bind_ok in H as (u & st1 & Hd%drain_control_open & H).
  apply call_bind_ok in H as (s1 & st2 & [-> ->]%gets_ok & H). rewrite <- Hd. destruct (_ <=? _).
  - apply call_bind_ok in H as (m1 & st2 & [-> ->]%gets_ok & H). destruct (recv_frame _ _) as [[[frame|]|] m2].
    + rewrite call_bind_eq in H. unfold effect in H. apply call_bind_ok in H as (v & st2 & Hc%sink_control_open & H). rewrite (IH _ _ H). exact Hc.
    + by rewrite call_bind_eq in H.
    + by injection H as _ <-.
  - apply call_bind_ok in H as (n & st2 & [Hc1 Hc2]%send_chunk_open & H). rewrite (IH _ _ H). congruence.
Qed.

(** [finish]: CLOSE behind the chunks. *)
Lemma sink_finish_sent st n st' :
  Sink_ok (snd st) → si_closed (snd st) = false → sink_finish st = (Ok n, st') →
  n = si_sent (snd st) ∧ ∀ out, mx_outbound (fst st) = Some out →
    ∃ close, mx_outbound (fst st') = Some (out ++ [close])
      ∧ ∀ sensitive, Descriptor_sensitive_content (si_descriptor (snd st)) = Ok sensitive →
          byte_frames (si_descriptor (snd st)) sensitive (si_sent (snd st)) [] [close].
Proof.
  intros Hok Hc H. unfold sink_finish in H.
  destruct ((_ ← drain_control; _ ← close_now Status_Ok; gets (λ st, si_sent (snd st))) st) as [r st3] eqn:E. injection H as -> <-.
  apply call_bind_ok in E as (u & st1 & Hd & E). pose proof (drain_control_open _ _ _ Hd) as Ho.
  destruct (drain_control_moved st) as [Hm _]. rewrite Hd in Hm. cbn [snd] in Hm. destruct Hm as [M1 M2 M3 M4 M5].
  apply call_bind_ok in E as (v & st2 & Hclose & [-> ->]%gets_ok). destruct st1 as [m1 s1]. cbn [fst snd] in *.
  unfold close_now in Hclose. cbn [fst snd] in Hclose. rewrite Ho, Hc in Hclose. cbn [si_set_closed si_descriptor] in Hclose.
  destruct (Descriptor_requires_sensitive_frame (si_descriptor s1) transfer_event_CLOSE) as [sensitive|e] eqn:Es; [|done].
  destruct (mux_send_event _ _ _ _ _) as [r2 m2] eqn:Em in Hclose. injection Hclose as -> <-.
  apply mux_send_event_sent in Em as (_ & payload & out1 & He & Ho1 & Ho2).
  split; [cbn; congruence|]. intros out Hout. exists (mkFrame (transfer_header transfer_event_CLOSE sensitive) payload). split.
  - unfold sink_drop, close_now. cbn. assert (out1 = out) as -> by congruence. exact Ho2.
  - intros sens Hs. change (Descriptor_requires_sensitive_frame (si_descriptor s1) transfer_event_CLOSE) with (Descriptor_sensitive_content (si_descriptor s1)) in Es.
    cbn [si_set_closed si_sent] in He. rewrite M2 in Es, He. rewrite M4 in He. assert (sens = sensitive) as -> by congruence. by exists payload.
Qed.

Lemma data_then_close d sensitive offset chunks frames close :
  data_frames d sensitive offset chunks frames → byte_frames d sensitive (offset + len (concat chunks)) [] [close] →
  byte_frames d sensitive offset chunks (frames ++ [close]).
Proof.
  revert offset frames. induction chunks as [|b chunks IH]; intros offset [|f frames]; cbn [data_frames byte_frames concat app]; try done.
  - by rewrite len_nil, Z.add_0_r.
  - rewrite len_app, Z.add_assoc. intros [[Hl Hp] Hf] Hc. split_and!; [done|done|by apply IH].
Qed.

(** ** A window that never opens *)

(** Asked for one byte with no initial credit, a stream announces nothing. *)
Lemma window_one_never_grants d frames m :
  Descriptor_validate d = Ok () → td_mode d = ModeByte → td_direction d = SENDER_TO_RECEIVER → td_sender_send_credit d = 0 →
  ByteStream_new d frames 1 m = (Ok (mkByteStream d frames 0 0 1 false None [] 0), m).
Proof. intros Hv Hm Hd Hc. unfold ByteStream_new. rewrite Hv, Hc. by rewrite !bool_decide_eq_true_2. Qed.
