(* ===== verification/MuxProps.v ===== *)
(** * MuxProps: what the multiplexed client guarantees
      ([crates/client/src/client.rs], [transfer.rs])

    The session's invariant under any interleaving of its tasks and callers,
    how frames and results find their owner, and that transfers complete. *)

From S2P Require Import Prelude Schema Codec CodecFacts Wire Datagrams Frame FrameFacts FrameProps Transfer TransferFacts State Ordered Kv FamilyLimits Core CoreControl CoreProps Native NativeFacts NativeInvariant NativeTransfer NativeUpload NativeFramed NativeProps NetWire MuxFlows Mux MuxFacts MuxInvariant MuxRun MuxStream MuxStreamFacts.

Section session.
Context (compress : list byte → list byte) (decompress : list byte → Z → option (list byte)).
Context (lz4_bounded : ∀ z n p, decompress z n = Some p → len p <= n).

(** C27: From a connected client, whatever the reader, the writer and the callers
    do and in whatever order, the multiplexed session stays consistent: every
    caller that waits is known to the router under its request id, no two share
    one, a receiver belongs to one route, frames parked for nobody stay within
    their budget and are accounted for exactly, datagram flows within theirs,
    and the session stays as the handshake agreed it. *)
Theorem mux_invariant hello input c s :
  ClientOk hello c → system_reaches compress decompress (from_native input c) s →
  System_ok hello s ∧ ro_orphan_bytes (mx_router (sy_mux s)) <= MAX_ORPHAN_BYTES.
Proof using lz4_bounded.
  intros Hc Hr. pose proof (system_reaches_ok compress decompress lz4_bounded hello _ _ Hr (from_native_ok hello input c Hc)) as H.
  split; [exact H|]. destruct (mk_router _ (yk_mux _ _ H)) as [H1 H2]. by rewrite H1.
Qed.

(** C28: A session that has closed, whatever closed it, leaves nobody waiting: no
    call is pending any more, no call can be started, and a receiver hands out
    what was queued for it and then the end. *)
Theorem closed_session_settles hello input c s :
  ClientOk hello c → system_reaches compress decompress (from_native input c) s → mx_closed (sy_mux s) ≠ None →
  (∀ deadline token, (call_poll deadline token (sy_mux s)).1 ≠ Ok None)
  ∧ (∀ family kind payload hook, ∃ e, (call_start family kind payload hook (sy_mux s)).1 = Err e)
  ∧ ∀ q, (recv_frame q (sy_mux s)).1 ≠ None.
Proof using lz4_bounded.
  intros Hc Hr. apply closed_settles.
  exact (yk_mux _ _ (system_reaches_ok compress decompress lz4_bounded hello _ _ Hr (from_native_ok hello input c Hc))).
Qed.
End session.

Lemma deliver_all_open l m : mx_closed (deliver_all l m) = mx_closed m.
Proof.
  revert m. induction l as [|p l IH]; intros m; [done|]. cbn [deliver_all foldl]. unfold deliver_all in IH. rewrite IH. unfold route_deliver.
  destruct (ro_routes (mx_router m) !! p.1); [by destruct (queue_alive _ _)|by case_bool_decide].
Qed.

(** C29: A stream misses no frame and gets nobody else's: what arrived for its
    route before anyone claimed it, within the budget for parked frames, is
    handed over when it is registered, and what arrives afterwards follows in
    order, whatever arrives for other routes in between. *)
Theorem stream_misses_nothing route before after m :
  Mux_ok m → mx_closed m = None → unclaimed route m → ro_orphans (mx_router m) !! route = None →
  orphan_total (ro_orphans (mx_router m)) + parked_bytes (map snd before) <= MAX_ORPHAN_BYTES →
  Forall (λ p, len (fr_payload p.2) <= ISIZE_MAX) after →
  let (q, m1) := register route (deliver_all before m) in
  mx_queues (deliver_all after m1) !! q = Some (mkQueue (frames_for route before ++ frames_for route after) true).
Proof.
  intros H Hopen Hu Ho Hb Ha. destruct (deliver_all_unclaimed route before m H Hu Hb) as (H1 & _ & Hp). rewrite Ho in Hp. cbn [from_option app] in Hp.
  destruct (register_queue route (deliver_all before m)) as [Hq Hr]. rewrite Hp in Hq.
  rewrite <- (deliver_all_open before m) in Hopen. pose proof (register_keeps route _ H1 Hopen) as Hk. destruct (register route (deliver_all before m)) as [q m1]. cbn [fst snd] in *.
  apply (deliver_all_claimed route q _ after m1 Hk Ha Hr Hq).
Qed.

(** C30: A Result ends the wait of the call that asked, of no other, and the
    streams it names are registered with what was parked for them before the
    caller sees the answer, so nothing that follows it is lost. *)
Theorem result_reaches_its_call frame prefix token id m :
  Mux_ok m → mx_calls m !! token = Some (mkCall id Awaiting) → fh_request_id (fr_header frame) = Some id →
  decode (fr_payload frame) = Ok prefix →
  ∃ p reply, ro_requests (mx_router m) !! id = Some p ∧ pd_reply p = token
    ∧ (dispatch_result frame m).1 = Ok ()
    ∧ mx_calls (dispatch_result frame m).2 = <[token := mkCall id (Replied (Ok reply))]> (mx_calls m)
    ∧ ry_prefix reply = prefix
    ∧ (NoDup (named_routes p prefix) →
       map fst (ry_routes reply) = named_routes p prefix
       ∧ ∀ r q, (r, q) ∈ ry_routes reply →
           ro_routes (mx_router (dispatch_result frame m).2) !! r = Some q
           ∧ mx_queues (dispatch_result frame m).2 !! q = Some (mkQueue (default [] (ro_orphans (mx_router m) !! r)) true)).
Proof. apply dispatch_result_answers. Qed.

(** ** Streams *)

(** The stream after frames, until one is refused. *)
Fixpoint handle_all (frames : list Frame) (st : Mux * ByteStream) : Mux * ByteStream :=
  match frames with
  | [] => st
  | frame :: frames =>
      match stream_handle frame st with
      | (Ok _, st) => handle_all frames st
      | (Err _, st) => st
      end
  end.

Lemma handle_all_ok frames st :
  Stream_ok (snd st) → Stream_ok (snd (handle_all frames st)) ∧ by_window (snd (handle_all frames st)) = by_window (snd st).
Proof.
  revert st. induction frames as [|f frames IH]; intros [m s] H; [done|]. cbn [handle_all].
  destruct (stream_handle_ok f m s H) as (Hk & _ & Hw & _).
  destruct (stream_handle f (m, s)) as [[step|e] st]; cbn [fst snd] in *; [|done]. destruct (IH st Hk) as [I1 I2]. split; [done|congruence].
Qed.

(** C31: Whatever a peer sends on a stream, the bytes taken in never exceed the
    credit announced, and what is announced is never more than a window past
    the bytes taken in: a peer that disregards credit is refused, so no more
    than one window of a stream can be outstanding. *)
Theorem stream_credit_bounded d queue window m s m' frames :
  0 <= td_sender_send_credit d <= U64_MAX → ByteStream_new d queue window m = (Ok s, m') →
  let s' := snd (handle_all frames (m', s)) in
  0 <= by_received s' <= by_granted s' ∧ by_granted s' <= U64_MAX ∧ by_granted s' - by_received s' <= by_window s.
Proof.
  intros Hc Hn. cbv zeta. destruct (ByteStream_new_ok _ _ _ _ _ _ Hc Hn) as [H _].
  destruct (handle_all_ok frames (m', s) H) as [[H1 H2 H3 H4 H5] Hw]. cbn [snd] in Hw. rewrite <- Hw. lia.
Qed.

Lemma ByteStream_new_streaming d queue window m s m' :
  0 <= td_sender_send_credit d <= U64_MAX → td_transfer_id d ≠ 0 → mx_closed m = None → is_Some (mx_outbound m) →
  ro_routes (mx_router m) !! RouteTransfer (td_transfer_id d) = Some queue → ByteStream_new d queue window m = (Ok s, m') →
  streaming m' s ∧ by_descriptor s = d ∧ by_frames s = queue ∧ by_received s = 0
  ∧ by_window s = Z.max (Z.max window (td_sender_send_credit d)) 1 ∧ mx_queues m' = mx_queues m.
Proof.
  intros Hc Hi Ho [out Hw] Hr Hn. destruct (ByteStream_new_ok _ _ _ _ _ _ Hc Hn) as [H Hh]. unfold ByteStream_new in Hn.
  destruct (Descriptor_validate d); [|done]. destruct (_ || _); [done|]. cbv zeta in Hn. set (s0 := mkByteStream _ _ _ _ _ _ _ _ _) in Hn.
  destruct (stream_grant_open m s0 out Hi Ho Hw) as (out' & g & E & _). rewrite E in Hn. injection Hn as <- <-.
  split_and!; try done.
Qed.

(** C32: Reading a stream to its end returns the bytes sent, all of them and in
    order, however they are cut into chunks and however the chunks arrive
    between polls, as long as the sender sends no more than half a window
    before the reader is polled again; the credit for that much is always
    outstanding, so such a sender never has to wait. *)
Theorem stream_reads_everything d queue window m s m' sensitive limit groups rounds :
  is_u32 (td_transfer_id d) → td_transfer_id d ≠ 0 → 0 <= td_sender_send_credit d <= U64_MAX →
  Descriptor_sensitive_content d = Ok sensitive → mx_closed m = None → is_Some (mx_outbound m) →
  ro_routes (mx_router m) !! RouteTransfer (td_transfer_id d) = Some queue → mx_queues m !! queue = Some (mkQueue [] true) →
  ByteStream_new d queue window m = (Ok s, m') →
  paced (Z.max (Z.max window (td_sender_send_credit d)) 1 / 2) d sensitive 0 groups rounds →
  len (concat (concat groups)) <= limit → len (concat (concat groups)) <= U64_MAX →
  (read_rounds limit rounds [] (m', s)).1 = Ok (Collected_ (concat (concat groups))).
Proof.
  intros Hi Hz Hc Hs Ho Hw Hr Hq Hn Hp Hl Hu.
  destruct (ByteStream_new_streaming _ _ _ _ _ _ Hc Hz Ho Hw Hr Hn) as (H & E1 & E2 & E3 & E4 & E5).
  apply (read_rounds_all sensitive limit groups rounds [] m' s); rewrite ?E1, ?E2, ?E3, ?E4, ?E5; done.
Qed.

(** C33: An upload queues its bytes in order as BYTE_DATA frames within the chunk
    limit and the peer's credit, each where the last one stopped; it waits only
    with the credit used up, keeping the bytes it has left; and once finished,
    what it queued is exactly those chunks and then CLOSE with their length. *)
Theorem upload_queues_everything data st rest st1 :
  Sink_ok (snd st) → sink_write_all data st = (Ok rest, st1) →
  ∃ b, data = b ++ rest ∧ sink_sent b st st1 ∧ (rest ≠ [] → si_sent (snd st1) = si_credit (snd st1))
    ∧ ∀ out n st2 sensitive, mx_outbound (fst st) = Some out → si_closed (snd st) = false → sink_finish st1 = (Ok n, st2) →
        Descriptor_sensitive_content (si_descriptor (snd st)) = Ok sensitive →
        n = si_sent (snd st) + len b
        ∧ ∃ chunks frames, concat chunks = b ∧ mx_outbound (fst st2) = Some (out ++ frames)
            ∧ byte_frames (si_descriptor (snd st)) sensitive (si_sent (snd st)) chunks frames.
Proof.
  intros Hok H. unfold sink_write_all in H. pose proof (write_all_loop_open _ _ _ _ _ H) as Hopen.
  apply write_all_loop_sent in H as (b & Hb & Hs & Hw); [|done|lia]. exists b. split_and!; try done.
  intros out n st2 sensitive Hout Hc Hf Hsens. destruct Hs as [S1 S2 S3 S4].
  apply sink_finish_sent in Hf as [-> Hfin]; [|done|congruence]. split; [done|].
  destruct (S4 out Hout) as (chunks & frames & Hcat & Ho1 & Hd). destruct (Hfin _ Ho1) as (close & Ho2 & Hclose).
  exists chunks, (frames ++ [close]). rewrite app_assoc. split_and!; [done|done|]. apply data_then_close; [by apply Hd|].
  rewrite Hcat, <- S3, <- S2. apply Hclose. by rewrite S2.
Qed.

(** * The multiplexed client's theorems on a concrete session

    The client of [NativeWitness], turned into a multiplexed one. *)

Lemma connected_ok : ∃ hello, ClientOk hello connected.
Proof.
  destruct (connect_ok stored unstored example_platform (zeros 16) [10; 12] example_link example_options connected) as (hello & _ & H).
  - vm_compute. discriminate.
  - exact connected_eq.
  - by exists hello.
Qed.

Definition idle_system : System := from_native [] connected.

Lemma idle_mux_ok : Mux_ok (sy_mux idle_system).
Proof. destruct connected_ok as (hello & H). exact (yk_mux _ _ (from_native_ok hello [] connected H)). Qed.

(** A call whose Result names a stream, sent and then given up by closing. *)
Definition stream_hook : Hook := λ _, [RouteTransfer 5].
Definition calling_mux : Mux := (call_start family_KV 0 (bytes_of [5]) (Some stream_hook) (sy_mux idle_system)).2.
Definition calling_system : System := on_mux (run_op (OpStart family_KV 0 (bytes_of [5]) (Some stream_hook))) idle_system.

Lemma calling_reached : system_reaches stored unstored idle_system calling_system.
Proof. exact (reaches_step _ _ _ _ _ (reaches_refl _ _ _) (step_op _ _ _ _)). Qed.
Lemma closing_reached : system_reaches stored unstored idle_system (mux_close calling_system).
Proof. exact (reaches_step _ _ _ _ _ calling_reached (step_close _ _ _)). Qed.

Lemma mux_invariant_witness :
  Mux_ok (sy_mux calling_system) ∧ mx_calls (sy_mux calling_system) !! 0 = Some (mkCall 3 Awaiting).
Proof.
  split; [|vm_compute; reflexivity].
  destruct connected_ok as (hello & H). exact (yk_mux _ _ (proj1 (mux_invariant stored unstored unstored_bounded hello [] connected calling_system H calling_reached))).
Defined.

Lemma closed_session_settles_witness :
  mx_closed (sy_mux (mux_close calling_system)) = Some Client_Closed
  ∧ (call_poll false 0 (sy_mux (mux_close calling_system))).1 ≠ Ok None.
Proof.
  assert (mx_closed (sy_mux (mux_close calling_system)) = Some Client_Closed) as E by (vm_compute; reflexivity).
  split; [exact E|]. destruct connected_ok as (hello & H).
  assert (mx_closed (sy_mux (mux_close calling_system)) ≠ None) as Hc by (rewrite E; discriminate).
  exact (proj1 (closed_session_settles stored unstored unstored_bounded hello [] connected (mux_close calling_system) H closing_reached Hc) false 0).
Defined.

(** ** Frames before and after a stream is claimed *)

Definition early_frames : list (Route * Frame) := [(RouteTransfer 5, chunk_frame 0 (bytes_of [104; 105])); (RouteTransfer 6, other_event)].
Definition late_frames : list (Route * Frame) := [(RouteTransfer 6, other_event); (RouteTransfer 5, chunk_frame 2 (bytes_of [33]))].

Lemma stream_misses_nothing_witness :
  ∃ q m1, register (RouteTransfer 5) (deliver_all early_frames (sy_mux idle_system)) = (q, m1)
  ∧ mx_queues (deliver_all late_frames m1) !! q
    = Some (mkQueue (frames_for (RouteTransfer 5) early_frames ++ frames_for (RouteTransfer 5) late_frames) true).
Proof.
  assert (unclaimed (RouteTransfer 5) (sy_mux idle_system)) as Hu by (split; [reflexivity|apply not_elem_of_empty]).
  assert (orphan_total (ro_orphans (mx_router (sy_mux idle_system))) + parked_bytes (map snd early_frames) <= MAX_ORPHAN_BYTES) as Hb
    by (vm_compute; discriminate).
  assert (Forall (λ p : Route * Frame, len (fr_payload p.2) <= ISIZE_MAX) late_frames) as Hl by (repeat constructor; vm_compute; discriminate).
  pose proof (stream_misses_nothing (RouteTransfer 5) early_frames late_frames (sy_mux idle_system) idle_mux_ok eq_refl Hu eq_refl Hb Hl) as H.
  destruct (register (RouteTransfer 5) (deliver_all early_frames (sy_mux idle_system))) as [q m1]. by exists q, m1.
Defined.

(** ** A Result that names a stream *)

Definition kv_answer : Frame := mkFrame (FrameHeader_result family_KV 0 3) (ok_bytes (encode answer_prefix)).

Lemma result_reaches_its_call_witness :
  ∃ reply, mx_calls (dispatch_result kv_answer calling_mux).2 = <[0 := mkCall 3 (Replied (Ok reply))]> (mx_calls calling_mux)
    ∧ ry_prefix reply = answer_prefix.
Proof.
  assert (mx_calls calling_mux !! 0 = Some (mkCall 3 Awaiting)) as Hc by (vm_compute; reflexivity).
  assert (decode (fr_payload kv_answer) = Ok answer_prefix) as Hd by (vm_compute; reflexivity).
  destruct (result_reaches_its_call kv_answer answer_prefix 0 3 calling_mux
              (call_start_ok family_KV 0 (bytes_of [5]) (Some stream_hook) (sy_mux idle_system) idle_mux_ok) Hc eq_refl Hd)
    as (p & reply & _ & _ & _ & H1 & H2 & _).
  exists reply. split; [exact H1|exact H2].
Defined.

(** ** Streams and sinks *)

Definition stream_mux : Mux := (register (RouteTransfer 5) (sy_mux idle_system)).2.
Definition new_stream : ByteStream := mkByteStream download_descriptor 0 0 16 16 false None [] 0.
Lemma new_stream_eq : ByteStream_new download_descriptor 0 8 stream_mux = (Ok new_stream, stream_mux).
Proof. reflexivity. Qed.

Definition download_rounds : list (list Frame) := [[chunk_frame 0 (bytes_of [104; 105])]; [chunk_frame 2 (bytes_of [33]); close_frame 3]].

Lemma stream_credit_bounded_witness :
  by_received (snd (handle_all (concat download_rounds) (stream_mux, new_stream))) = 3
  ∧ by_granted (snd (handle_all (concat download_rounds) (stream_mux, new_stream)))
    - by_received (snd (handle_all (concat download_rounds) (stream_mux, new_stream))) <= 16.
Proof.
  split; [vm_compute; reflexivity|].
  assert (0 <= td_sender_send_credit download_descriptor <= U64_MAX) as Hc by (vm_compute; split; discriminate).
  exact (proj2 (proj2 (stream_credit_bounded download_descriptor 0 8 stream_mux new_stream stream_mux (concat download_rounds) Hc new_stream_eq))).
Defined.

Lemma download_rounds_paced :
  paced 8 download_descriptor false 0 [[bytes_of [104; 105]]; [bytes_of [33]]] download_rounds.
Proof.
  split; [vm_compute; discriminate|]. split.
  - split; [|exact I]. split; [vm_compute; discriminate|]. eexists. split; [vm_compute; reflexivity|reflexivity].
  - split; [vm_compute; discriminate|]. split; [|reflexivity]. cbn [byte_frames]. split; [vm_compute; discriminate|].
    split; eexists; (split; [vm_compute; reflexivity|reflexivity]).
Qed.

Lemma stream_reads_everything_witness :
  (read_rounds 16 download_rounds [] (stream_mux, new_stream)).1 = Ok (Collected_ (bytes_of [104; 105; 33])).
Proof.
  apply (stream_reads_everything download_descriptor 0 8 stream_mux new_stream stream_mux false 16
           [[bytes_of [104; 105]]; [bytes_of [33]]] download_rounds); try reflexivity.
  - vm_compute. split; [discriminate|reflexivity].
  - vm_compute. discriminate.
  - vm_compute. split; discriminate.
  - by eexists.
  - exact download_rounds_paced.
  - vm_compute. discriminate.
  - vm_compute. discriminate.
Defined.

Definition new_sink : ByteSink := mkByteSink upload_descriptor 0 0 16 false None.
Definition written_sink : Mux * ByteSink := (sink_write_all (bytes_of [1; 2; 3]) (stream_mux, new_sink)).2.

Lemma written_sink_eq : sink_write_all (bytes_of [1; 2; 3]) (stream_mux, new_sink) = (Ok [], written_sink).
Proof.
  unfold written_sink. assert ((sink_write_all (bytes_of [1; 2; 3]) (stream_mux, new_sink)).1 = Ok []) as H by (vm_compute; reflexivity).
  destruct (sink_write_all _ _) as [r st]. cbn [fst] in H. by subst r.
Qed.

Lemma upload_queues_everything_witness :
  sink_sent (bytes_of [1; 2; 3]) (stream_mux, new_sink) written_sink.
Proof.
  assert (Sink_ok new_sink) as Hok by (unfold Sink_ok; cbn; lia).
  destruct (upload_queues_everything (bytes_of [1; 2; 3]) (stream_mux, new_sink) [] written_sink Hok written_sink_eq) as (b & Hb & Hs & _).
  rewrite app_nil_r in Hb. rewrite Hb. exact Hs.
Defined.

(** ** What is not as meant *)

(** A delivery of one byte, collected with a window of its length and no
    initial credit: nothing is announced, and the byte is refused. *)
Definition one_byte_descriptor : Descriptor := Transfer.mkDescriptor 5 ModeByte SENDER_TO_RECEIVER 0 0 0 4 family_KV 0 1 [].
Lemma one_byte_delivery_stalls :
  ∃ s, ByteStream_new one_byte_descriptor 0 (Z.max 1 1) stream_mux = (Ok s, stream_mux) ∧ by_granted s = 0
  ∧ ∃ e, (stream_handle (chunk_frame 0 (bytes_of [7])) (stream_mux, s)).1 = Err e.
Proof.
  exists (mkByteStream one_byte_descriptor 0 0 0 1 false None [] 0).
  split; [by apply window_one_never_grants|]. split; [done|]. eexists. vm_compute. reflexivity.
Qed.
