(* ===== verification/KvWire.v ===== *)
(** * KvWire: the messages of the KV family ([crates/yas/src/kv.rs])

    Namespaces, watched entries, values inline or by Transfer, compare-and-swap
    mutations and their batches, and the wire laws of each. *)

From S2P Require Import Prelude Schema Codec Kv KvDedup CodecFacts Wire Transfer TransferFacts State StateFacts WireLayout.

Definition kv_VALUE_CONTENT_KIND : Z := 0.
Definition kv_CONTENT_NONE : Z := 0.
Definition kv_CONTENT_INLINE : Z := 1.
Definition kv_PRECONDITION_ANY : Z := 0.
Definition kv_PRECONDITION_ABSENT : Z := 1.
Definition kv_PRECONDITION_HASH : Z := 2.
Definition kv_PRECONDITION_REVISION : Z := 3.
Definition kv_PRECONDITION_HASH_AND_REVISION : Z := 4.
Definition kv_VALUE_INLINE : Z := 0.
Definition kv_VALUE_STAGED : Z := 1.
Definition kv_MUTATION_PUT : Z := 0.
Definition kv_MUTATION_DELETE : Z := 1.
Definition kv_MUTATION_DURABLE : Z := 1.

(** ** Checks *)

Definition validate_prefix (prefix : list byte) : result Error () :=
  _ ← reject_if (kv_MAX_KEY_BYTES <? len prefix) (LimitExceeded "KV namespace prefix bytes" (len prefix) kv_MAX_KEY_BYTES);
  reject_if (bool_decide (Byte.x00 ∈ prefix)) (Invalid "KV namespace prefix").

Definition validate_relative_key (key : list byte) : result Error () :=
  _ ← reject_if (kv_MAX_KEY_BYTES <? len key) (LimitExceeded "KV relative key bytes" (len key) kv_MAX_KEY_BYTES);
  reject_if (bool_decide (Byte.x00 ∈ key)) (Invalid "KV relative key").

Definition validate_full_key (prefix relative_key : list byte) : result Error () :=
  _ ← validate_prefix prefix;
  _ ← validate_relative_key relative_key;
  n ← ok_or (checked_add_u64 (len prefix) (len relative_key)) LengthOverflow;
  reject_if ((n =? 0) || (kv_MAX_KEY_BYTES <? n)) (Invalid "KV full key length").

Definition kv_validate_handle (handle : Z) (name : string) : result Error () := reject_if (handle =? 0) (Invalid name).

Definition validate_identity_revision (handle revision : Z) (name : string) : result Error () :=
  _ ← kv_validate_handle handle name;
  reject_if (revision =? 0) (Invalid "zero KV store revision").

Definition kv_reject_unknown_required (extensions : Extensions) (known : list Z) : result Error () :=
  _ ← Extensions_validate extensions;
  reject_if (existsb (λ e, ext_required e && negb (existsb (Z.eqb (ext_tag e)) known)) extensions)
    (Invalid "unknown required KV extension").

Definition validate_operation_id (operation_id : list byte) : result Error () :=
  reject_if (forallb (λ b, bool_decide (b = Byte.x00)) operation_id) (Invalid "zero KV operation ID").

Definition validate_mutation_header (namespace_handle : Z) (operation_id relative_key : list byte) (extensions : Extensions) :
    result Error () :=
  _ ← kv_validate_handle namespace_handle "KV namespace handle";
  _ ← validate_operation_id operation_id;
  _ ← validate_relative_key relative_key;
  kv_reject_unknown_required extensions [].

Definition validate_value_len (byte_len : Z) : result Error () :=
  reject_if (kv_MAX_VALUE_BYTES <? byte_len) (LimitExceeded "KV value bytes" byte_len kv_MAX_VALUE_BYTES).

Definition validate_value_transfer (d : Descriptor) (direction : Direction) : result Error () :=
  let sensitive := existsb (λ e, (ext_tag e =? as_u16 transfer_SENSITIVE_CONTENT_EXTENSION) && ext_required e && is_nil (ext_value e))
                     (td_extensions d) in
  _ ← reject_if (negb (bool_decide (td_mode d = ModeByte)) || negb (bool_decide (td_direction d = direction))
                 || negb (td_content_family d =? family_KV) || negb (td_content_kind d =? as_u16 kv_VALUE_CONTENT_KIND)
                 || negb (td_content_version d =? kv_VERSION) || negb sensitive)
        (Invalid "KV value Transfer descriptor");
  Descriptor_validate d.

(** ** Namespaces *)

Record kv_Open := mkKvOpen { ko_prefix : list byte; ko_extensions : Extensions }.

Definition kv_Open_check (v : kv_Open) : result Error () :=
  _ ← validate_prefix (ko_prefix v);
  kv_reject_unknown_required (ko_extensions v) [].

#[export] Instance kv_Open_encode_to : Encode kv_Open := fun v out =>
  _ ← kv_Open_check v;
  out ← put_bytes_u16 out (ko_prefix v);
  Extensions_encode_tail (ko_extensions v) out.

Definition kv_Open_read : decoder kv_Open :=
  prefix ← dec_len_bytes_u16;
  extensions ← dec_extensions;
  _ ← dec_finish;
  mret (mkKvOpen prefix extensions).

#[export] Instance kv_Open_decode : Decode kv_Open := fun input =>
  value ← run kv_Open_read (Decoder_new input);
  _ ← kv_Open_check value;
  Ok value.

Record kv_OpenResult := mkKvOpenResult { kor_namespace_handle : Z; kor_store_revision : Z; kor_extensions : Extensions }.

Definition kv_OpenResult_check (v : kv_OpenResult) : result Error () :=
  _ ← validate_identity_revision (kor_namespace_handle v) (kor_store_revision v) "KV namespace";
  kv_reject_unknown_required (kor_extensions v) [].

#[export] Instance kv_OpenResult_encode_to : Encode kv_OpenResult := fun v out =>
  _ ← kv_OpenResult_check v;
  let out := put_u64 out (kor_namespace_handle v) in
  let out := put_u64 out (kor_store_revision v) in
  Extensions_encode_tail (kor_extensions v) out.

Definition kv_OpenResult_read : decoder kv_OpenResult :=
  namespace_handle ← dec_u64;
  store_revision ← dec_u64;
  extensions ← dec_extensions;
  _ ← dec_finish;
  mret (mkKvOpenResult namespace_handle store_revision extensions).

#[export] Instance kv_OpenResult_decode : Decode kv_OpenResult := fun input =>
  value ← run kv_OpenResult_read (Decoder_new input);
  _ ← kv_OpenResult_check value;
  Ok value.

Record kv_Close := mkKvClose { kc_namespace_handle : Z; kc_extensions : Extensions }.

Definition kv_Close_check (v : kv_Close) : result Error () :=
  _ ← kv_validate_handle (kc_namespace_handle v) "KV namespace handle";
  kv_reject_unknown_required (kc_extensions v) [].

#[export] Instance kv_Close_encode_to : Encode kv_Close := fun v out =>
  _ ← kv_Close_check v;
  Extensions_encode_tail (kc_extensions v) (put_u64 out (kc_namespace_handle v)).

Definition kv_Close_read : decoder kv_Close :=
  namespace_handle ← dec_u64;
  extensions ← dec_extensions;
  _ ← dec_finish;
  mret (mkKvClose namespace_handle extensions).

#[export] Instance kv_Close_decode : Decode kv_Close := fun input =>
  value ← run kv_Close_read (Decoder_new input);
  _ ← kv_Close_check value;
  Ok value.

Record kv_Watch := mkKvWatch { kw_namespace_handle : Z; kw_inline_max : Z; kw_state : Watch }.

#[export] Instance kv_Watch_encode_to : Encode kv_Watch := fun v out =>
  _ ← kv_validate_handle (kw_namespace_handle v) "KV namespace handle";
  _ ← reject_if (kv_MAX_INLINE_BYTES <? kw_inline_max v)
        (LimitExceeded "KV watch inline bytes" (kw_inline_max v) kv_MAX_INLINE_BYTES);
  let out := put_u64 out (kw_namespace_handle v) in
  let out := put_u32 out (kw_inline_max v) in
  let out := put_u32 out 0 in
  put_nested (kw_state v) out.

Definition kv_Watch_read : decoder kv_Watch :=
  namespace_handle ← dec_u64;
  inline_max ← dec_u32;
  reserved ← dec_u32;
  _ ← reject (negb (reserved =? 0)) (Invalid "KV WATCH reserved field");
  state ← dec_nested;
  _ ← dec_finish;
  mret (mkKvWatch namespace_handle inline_max state).

#[export] Instance kv_Watch_decode : Decode kv_Watch := fun input =>
  value ← run kv_Watch_read (Decoder_new input);
  _ ← encode_to value [];
  Ok value.

(** ** Watched entries *)

Record EntryRecord := mkEntryRecord {
  er_relative_key : list byte; er_content_hash : list byte; er_byte_len : Z; er_modification_revision : Z;
  er_modified_unix_ns : Z; er_inline_value : option (list byte); er_extensions : Extensions
}.

Definition EntryRecord_validate (v : EntryRecord) : result Error () :=
  _ ← validate_relative_key (er_relative_key v);
  _ ← reject_if (kv_MAX_VALUE_BYTES <? er_byte_len v) (LimitExceeded "KV value bytes" (er_byte_len v) kv_MAX_VALUE_BYTES);
  _ ← reject_if (er_modification_revision v =? 0) (Invalid "zero KV modification revision");
  _ ← reject_if (match er_inline_value v with
                 | Some value => (kv_MAX_INLINE_BYTES <? len value) || negb (len value =? er_byte_len v)
                 | None => false
                 end) (Invalid "KV inline value length");
  kv_reject_unknown_required (er_extensions v) [].

#[export] Instance EntryRecord_encode_to : Encode EntryRecord := fun v out =>
  _ ← EntryRecord_validate v;
  out ← put_bytes_u16 out (er_relative_key v);
  let out := out ++ er_content_hash v in
  let out := put_u64 out (er_byte_len v) in
  let out := put_u64 out (er_modification_revision v) in
  let out := put_i64 out (er_modified_unix_ns v) in
  out ← match er_inline_value v with
        | None => Ok (push_u8 out kv_CONTENT_NONE ++ zeros 3)
        | Some value => put_bytes_u32 (push_u8 out kv_CONTENT_INLINE ++ zeros 3) value
        end;
  Extensions_encode_tail (er_extensions v) out.

Definition EntryRecord_read : decoder EntryRecord :=
  relative_key ← dec_len_bytes_u16;
  content_hash ← dec_array_32;
  byte_len ← dec_u64;
  modification_revision ← dec_u64;
  modified_unix_ns ← dec_i64;
  content ← dec_u8;
  reserved ← dec_take 3;
  _ ← reject (negb (bool_decide (reserved = zeros 3))) (Invalid "KV entry reserved bytes");
  inline_value ← (if content =? kv_CONTENT_NONE then mret None
                  else if content =? kv_CONTENT_INLINE then bytes ← dec_len_bytes_u32; mret (Some bytes)
                  else fail (Invalid "KV entry content kind"));
  extensions ← dec_extensions;
  _ ← dec_finish;
  mret (mkEntryRecord relative_key content_hash byte_len modification_revision modified_unix_ns inline_value extensions).

#[export] Instance EntryRecord_decode : Decode EntryRecord := fun input =>
  value ← run EntryRecord_read (Decoder_new input);
  _ ← EntryRecord_validate value;
  Ok value.

Definition entry_kind (k : RecordKind) : bool := match k with State.Add | State.Replace => true | _ => false end.

Definition EntryRecord_state_record (v : EntryRecord) (kind : RecordKind) : result Error StateRecord :=
  _ ← reject_if (negb (entry_kind kind)) (Invalid "KV entry state record kind");
  body ← encode v;
  Ok (mkRecord kind false body).

Definition entry_from_state_record (r : StateRecord) : result Error EntryRecord :=
  _ ← reject_if (negb (entry_kind (re_kind r))) (Invalid "KV entry state record kind");
  decode (re_body r).

Record RemovedEntry := mkRemovedEntry { rm_relative_key : list byte; rm_modification_revision : Z }.

Definition RemovedEntry_check (v : RemovedEntry) : result Error () :=
  _ ← validate_relative_key (rm_relative_key v);
  reject_if (rm_modification_revision v =? 0) (Invalid "zero KV modification revision").

Definition RemovedEntry_state_record (v : RemovedEntry) : result Error StateRecord :=
  _ ← RemovedEntry_check v;
  body ← put_bytes_u16 [] (rm_relative_key v);
  Ok (mkRecord State.Remove false (put_u64 body (rm_modification_revision v))).

Definition RemovedEntry_read : decoder RemovedEntry :=
  relative_key ← dec_len_bytes_u16;
  modification_revision ← dec_u64;
  _ ← dec_finish;
  mret (mkRemovedEntry relative_key modification_revision).

Definition RemovedEntry_from_state_record (r : StateRecord) : result Error RemovedEntry :=
  _ ← reject_if (match re_kind r with State.Remove => false | _ => true end) (Invalid "KV remove state record kind");
  value ← run RemovedEntry_read (Decoder_new (re_body r));
  _ ← RemovedEntry_check value;
  Ok value.

(** ** Reading values *)

Record kv_Get := mkKvGet { kg_namespace_handle : Z; kg_relative_key : list byte; kg_initial_receive_credit : Z; kg_extensions : Extensions }.

#[export] Instance kv_Get_encode_to : Encode kv_Get := fun v out =>
  _ ← kv_validate_handle (kg_namespace_handle v) "KV namespace handle";
  _ ← validate_relative_key (kg_relative_key v);
  _ ← kv_reject_unknown_required (kg_extensions v) [];
  out ← put_bytes_u16 (put_u64 out (kg_namespace_handle v)) (kg_relative_key v);
  Extensions_encode_tail (kg_extensions v) (put_u64 out (kg_initial_receive_credit v)).

Definition kv_Get_read : decoder kv_Get :=
  namespace_handle ← dec_u64;
  relative_key ← dec_len_bytes_u16;
  initial_receive_credit ← dec_u64;
  extensions ← dec_extensions;
  _ ← dec_finish;
  mret (mkKvGet namespace_handle relative_key initial_receive_credit extensions).

#[export] Instance kv_Get_decode : Decode kv_Get := fun input =>
  value ← run kv_Get_read (Decoder_new input);
  _ ← encode_to value [];
  Ok value.

Record GetResult := mkGetResult { gr_modification_revision : Z; gr_value : InlineOrTransfer }.

Definition GetResult_validate (v : GetResult) : result Error () :=
  _ ← reject_if ((gr_modification_revision v =? 0) || (kv_MAX_VALUE_BYTES <? it_byte_len (gr_value v)))
        (Invalid "KV GET result revision or length");
  _ ← match it_delivery (gr_value v) with
      | Inline bytes => reject_if (negb (len bytes <=? kv_MAX_INLINE_BYTES)) (Invalid "KV inline GET value length")
      | DTransfer d => validate_value_transfer d SENDER_TO_RECEIVER
      end;
  recheck (gr_value v).

#[export] Instance GetResult_encode_to : Encode GetResult := fun v out =>
  _ ← GetResult_validate v;
  encode_to (gr_value v) (put_u64 out (gr_modification_revision v)).

Definition GetResult_read : decoder GetResult :=
  modification_revision ← dec_u64;
  rest ← dec_rest;
  value ← lift (decode rest);
  _ ← dec_finish;
  mret (mkGetResult modification_revision value).

#[export] Instance GetResult_decode : Decode GetResult := fun input =>
  value ← run GetResult_read (Decoder_new input);
  _ ← GetResult_validate value;
  Ok value.

(** ** Staged values *)

Record StageValue := mkStageValue { sv_byte_len : Z; sv_content_hash : list byte; sv_extensions : Extensions }.

#[export] Instance StageValue_encode_to : Encode StageValue := fun v out =>
  _ ← validate_value_len (sv_byte_len v);
  _ ← kv_reject_unknown_required (sv_extensions v) [];
  Extensions_encode_tail (sv_extensions v) (put_u64 out (sv_byte_len v) ++ sv_content_hash v).

Definition StageValue_read : decoder StageValue :=
  byte_len ← dec_u64;
  content_hash ← dec_array_32;
  extensions ← dec_extensions;
  _ ← dec_finish;
  mret (mkStageValue byte_len content_hash extensions).

#[export] Instance StageValue_decode : Decode StageValue := fun input =>
  value ← run StageValue_read (Decoder_new input);
  _ ← encode_to value [];
  Ok value.

Record StageValueResult := mkStageValueResult {
  svr_staging_handle : Z; svr_byte_len : Z; svr_content_hash : list byte; svr_transfer : Descriptor
}.

Definition StageValueResult_validate (v : StageValueResult) : result Error () :=
  _ ← kv_validate_handle (svr_staging_handle v) "KV staging handle";
  _ ← validate_value_len (svr_byte_len v);
  _ ← validate_value_transfer (svr_transfer v) RECEIVER_TO_SENDER;
  _ ← Descriptor_require_upload_stage (svr_transfer v) (svr_staging_handle v);
  Ok ().

Definition StageValueResult_stage_discarded_by (v : StageValueResult) (reset : Reset) : result Error (option UploadStage) :=
  _ ← StageValueResult_validate v;
  Reset_disposed_upload_stage_from reset (svr_staging_handle v) [svr_transfer v].

#[export] Instance StageValueResult_encode_to : Encode StageValueResult := fun v out =>
  _ ← StageValueResult_validate v;
  let out := put_u64 out (svr_staging_handle v) in
  let out := put_u64 out (svr_byte_len v) in
  encode_to (svr_transfer v) (out ++ svr_content_hash v).

Definition StageValueResult_read : decoder StageValueResult :=
  staging_handle ← dec_u64;
  byte_len ← dec_u64;
  content_hash ← dec_array_32;
  rest ← dec_rest;
  transfer ← lift (decode rest);
  _ ← dec_finish;
  mret (mkStageValueResult staging_handle byte_len content_hash transfer).

#[export] Instance StageValueResult_decode : Decode StageValueResult := fun input =>
  value ← run StageValueResult_read (Decoder_new input);
  _ ← StageValueResult_validate value;
  Ok value.

(** ** Mutations *)

Definition Precondition_kind (p : Precondition) : Z :=
  match p with
  | Any => kv_PRECONDITION_ANY
  | Absent => kv_PRECONDITION_ABSENT
  | HashIs _ => kv_PRECONDITION_HASH
  | RevisionIs _ => kv_PRECONDITION_REVISION
  | HashAndRevision _ _ => kv_PRECONDITION_HASH_AND_REVISION
  end.

Definition Precondition_encode_to (p : Precondition) (out : list byte) : result Error (list byte) :=
  let out := push_u8 out (Precondition_kind p) ++ zeros 3 in
  match p with
  | Any | Absent => Ok out
  | HashIs hash => Ok (out ++ hash)
  | RevisionIs revision =>
      _ ← reject_if (revision =? 0) (Invalid "zero KV expected revision");
      Ok (put_u64 out revision)
  | HashAndRevision content_hash modification_revision =>
      _ ← reject_if (modification_revision =? 0) (Invalid "zero KV expected revision");
      Ok (put_u64 (out ++ content_hash) modification_revision)
  end.

Definition Precondition_decode_from : decoder Precondition :=
  kind ← dec_u8;
  reserved ← dec_take 3;
  _ ← reject (negb (bool_decide (reserved = zeros 3))) (Invalid "KV precondition reserved bytes");
  if kind =? kv_PRECONDITION_ANY then mret Any
  else if kind =? kv_PRECONDITION_ABSENT then mret Absent
  else if kind =? kv_PRECONDITION_HASH then hash ← dec_array_32; mret (HashIs hash)
  else if kind =? kv_PRECONDITION_REVISION then
    revision ← dec_u64;
    _ ← reject (revision =? 0) (Invalid "zero KV expected revision");
    mret (RevisionIs revision)
  else if kind =? kv_PRECONDITION_HASH_AND_REVISION then
    content_hash ← dec_array_32;
    modification_revision ← dec_u64;
    _ ← reject (modification_revision =? 0) (Invalid "zero KV expected revision");
    mret (HashAndRevision content_hash modification_revision)
  else fail (Invalid "KV precondition kind").

Inductive ValueSource := VInline (value : list byte) | VStaged (handle : Z).

Definition ValueSource_encode_to (v : ValueSource) (out : list byte) : result Error (list byte) :=
  match v with
  | VInline value =>
      _ ← reject_if (kv_MAX_INLINE_BYTES <? len value) (LimitExceeded "KV inline mutation bytes" (len value) kv_MAX_INLINE_BYTES);
      put_bytes_u32 (push_u8 out kv_VALUE_INLINE ++ zeros 3) value
  | VStaged handle =>
      _ ← kv_validate_handle handle "KV staging handle";
      Ok (put_u64 (push_u8 out kv_VALUE_STAGED ++ zeros 3) handle)
  end.

Definition ValueSource_decode_from : decoder ValueSource :=
  kind ← dec_u8;
  reserved ← dec_take 3;
  _ ← reject (negb (bool_decide (reserved = zeros 3))) (Invalid "KV value source reserved bytes");
  if kind =? kv_VALUE_INLINE then
    bytes ← dec_len_bytes_u32;
    _ ← reject (kv_MAX_INLINE_BYTES <? len bytes) (LimitExceeded "KV inline mutation bytes" (len bytes) kv_MAX_INLINE_BYTES);
    mret (VInline bytes)
  else if kind =? kv_VALUE_STAGED then
    handle ← dec_u64;
    _ ← lift (kv_validate_handle handle "KV staging handle");
    mret (VStaged handle)
  else fail (Invalid "KV value source kind").

(** The flags of a mutation, and their reading. *)
Definition durable_flags (durable : bool) : Z := if durable then kv_MUTATION_DURABLE else 0.

Record kv_Put := mkKvPut {
  kp_namespace_handle : Z; kp_operation_id : list byte; kp_durable : bool; kp_relative_key : list byte;
  kp_precondition : Precondition; kp_value : ValueSource; kp_extensions : Extensions
}.

#[export] Instance kv_Put_encode_to : Encode kv_Put := fun v out =>
  _ ← validate_mutation_header (kp_namespace_handle v) (kp_operation_id v) (kp_relative_key v) (kp_extensions v);
  let out := put_u64 out (kp_namespace_handle v) ++ kp_operation_id v in
  let out := put_u16 (put_u16 out (durable_flags (kp_durable v))) 0 in
  out ← put_bytes_u16 out (kp_relative_key v);
  out ← Precondition_encode_to (kp_precondition v) out;
  out ← ValueSource_encode_to (kp_value v) out;
  Extensions_encode_tail (kp_extensions v) out.

Definition kv_Put_read : decoder kv_Put :=
  namespace_handle ← dec_u64;
  operation_id ← dec_array_16;
  flags ← dec_u16;
  _ ← reject (has_other_bits flags kv_MUTATION_DURABLE) (Invalid "KV PUT flags or reserved field");
  reserved ← dec_u16;
  _ ← reject (negb (reserved =? 0)) (Invalid "KV PUT flags or reserved field");
  relative_key ← dec_len_bytes_u16;
  precondition ← Precondition_decode_from;
  value ← ValueSource_decode_from;
  extensions ← dec_extensions;
  _ ← dec_finish;
  mret (mkKvPut namespace_handle operation_id (negb (flags =? 0)) relative_key precondition value extensions).

#[export] Instance kv_Put_decode : Decode kv_Put := fun input =>
  value ← run kv_Put_read (Decoder_new input);
  _ ← encode_to value [];
  Ok value.

Definition is_absent (p : Precondition) : bool := match p with Absent => true | _ => false end.

Record kv_Delete := mkKvDelete {
  kd_namespace_handle : Z; kd_operation_id : list byte; kd_durable : bool; kd_relative_key : list byte;
  kd_precondition : Precondition; kd_extensions : Extensions
}.

#[export] Instance kv_Delete_encode_to : Encode kv_Delete := fun v out =>
  _ ← validate_mutation_header (kd_namespace_handle v) (kd_operation_id v) (kd_relative_key v) (kd_extensions v);
  _ ← reject_if (is_absent (kd_precondition v)) (Invalid "KV delete-if-absent precondition");
  let out := put_u64 out (kd_namespace_handle v) ++ kd_operation_id v in
  let out := put_u16 (put_u16 out (durable_flags (kd_durable v))) 0 in
  out ← put_bytes_u16 out (kd_relative_key v);
  out ← Precondition_encode_to (kd_precondition v) out;
  Extensions_encode_tail (kd_extensions v) out.

Definition kv_Delete_read : decoder kv_Delete :=
  namespace_handle ← dec_u64;
  operation_id ← dec_array_16;
  flags ← dec_u16;
  _ ← reject (has_other_bits flags kv_MUTATION_DURABLE) (Invalid "KV DELETE flags or reserved field");
  reserved ← dec_u16;
  _ ← reject (negb (reserved =? 0)) (Invalid "KV DELETE flags or reserved field");
  relative_key ← dec_len_bytes_u16;
  precondition ← Precondition_decode_from;
  extensions ← dec_extensions;
  _ ← dec_finish;
  mret (mkKvDelete namespace_handle operation_id (negb (flags =? 0)) relative_key precondition extensions).

#[export] Instance kv_Delete_decode : Decode kv_Delete := fun input =>
  value ← run kv_Delete_read (Decoder_new input);
  _ ← encode_to value [];
  Ok value.

Inductive kv_Mutation :=
| MutPut (relative_key : list byte) (precondition : Precondition) (value : ValueSource) (extensions : Extensions)
| MutDelete (relative_key : list byte) (precondition : Precondition) (extensions : Extensions).

#[export] Instance kv_Mutation_encode_to : Encode kv_Mutation := fun v out =>
  _ ← match v with
      | MutDelete _ precondition _ => reject_if (is_absent precondition) (Invalid "KV delete-if-absent precondition")
      | MutPut _ _ _ _ => Ok ()
      end;
  let '(kind, relative_key, precondition, value, extensions) :=
    match v with
    | MutPut relative_key precondition value extensions => (kv_MUTATION_PUT, relative_key, precondition, Some value, extensions)
    | MutDelete relative_key precondition extensions => (kv_MUTATION_DELETE, relative_key, precondition, None, extensions)
    end in
  _ ← validate_relative_key relative_key;
  _ ← kv_reject_unknown_required extensions [];
  out ← put_bytes_u16 (push_u8 out kind ++ zeros 3) relative_key;
  out ← Precondition_encode_to precondition out;
  out ← match value with Some value => ValueSource_encode_to value out | None => Ok out end;
  Extensions_encode_tail extensions out.

Definition kv_Mutation_read : decoder kv_Mutation :=
  kind ← dec_u8;
  reserved ← dec_take 3;
  _ ← reject (negb (bool_decide (reserved = zeros 3))) (Invalid "KV mutation reserved bytes");
  relative_key ← dec_len_bytes_u16;
  precondition ← Precondition_decode_from;
  value ← (if kind =? kv_MUTATION_PUT then
             value ← ValueSource_decode_from;
             extensions ← dec_extensions;
             mret (MutPut relative_key precondition value extensions)
           else if kind =? kv_MUTATION_DELETE then
             extensions ← dec_extensions;
             mret (MutDelete relative_key precondition extensions)
           else fail (Invalid "KV mutation kind"));
  _ ← dec_finish;
  mret value.

#[export] Instance kv_Mutation_decode : Decode kv_Mutation := fun input =>
  value ← run kv_Mutation_read (Decoder_new input);
  _ ← encode_to value [];
  Ok value.

Record MutationResult := mkMutationResult {
  mu_status : Status; mu_modification_revision : Z; mu_modified_unix_ns : Z; mu_content_hash : list byte; mu_byte_len : Z;
  mu_extensions : Extensions
}.

Definition MutationResult_validate (v : MutationResult) : result Error () :=
  _ ← reject_if (kv_MAX_VALUE_BYTES <? mu_byte_len v) (LimitExceeded "KV mutation result bytes" (mu_byte_len v) kv_MAX_VALUE_BYTES);
  _ ← reject_if (bool_decide (mu_status v = Status_Ok) && (mu_modification_revision v =? 0))
        (Invalid "zero successful KV mutation revision");
  kv_reject_unknown_required (mu_extensions v) [].

#[export] Instance MutationResult_encode_to : Encode MutationResult := fun v out =>
  _ ← MutationResult_validate v;
  let out := put_u16 (put_u16 out (Status_code (mu_status v))) 0 in
  let out := put_i64 (put_u64 out (mu_modification_revision v)) (mu_modified_unix_ns v) in
  let out := put_u64 (out ++ mu_content_hash v) (mu_byte_len v) in
  Extensions_encode_tail (mu_extensions v) out.

Definition MutationResult_read : decoder MutationResult :=
  code ← dec_u16;
  reserved ← dec_u16;
  _ ← reject (negb (reserved =? 0)) (Invalid "KV mutation result reserved field");
  modification_revision ← dec_u64;
  modified_unix_ns ← dec_i64;
  content_hash ← dec_array_32;
  byte_len ← dec_u64;
  extensions ← dec_extensions;
  _ ← dec_finish;
  mret (mkMutationResult (Status_from_code code) modification_revision modified_unix_ns content_hash byte_len extensions).

#[export] Instance MutationResult_decode : Decode MutationResult := fun input =>
  value ← run MutationResult_read (Decoder_new input);
  _ ← MutationResult_validate value;
  Ok value.

Record kv_Batch := mkKvBatch {
  kb_namespace_handle : Z; kb_operation_id : list byte; kb_durable : bool; kb_mutations : list kv_Mutation; kb_extensions : Extensions
}.

#[export] Instance kv_Batch_encode_to : Encode kv_Batch := fun v out =>
  _ ← kv_validate_handle (kb_namespace_handle v) "KV namespace handle";
  _ ← validate_operation_id (kb_operation_id v);
  _ ← reject_if (is_nil (kb_mutations v) || (kv_MAX_BATCH_ITEMS <? len (kb_mutations v))) (Invalid "KV batch item count");
  _ ← kv_reject_unknown_required (kb_extensions v) [];
  let out := put_u64 out (kb_namespace_handle v) ++ kb_operation_id v in
  out ← put_len_u16 (put_u16 out (durable_flags (kb_durable v))) (len (kb_mutations v));
  out ← try_fold put_nested (kb_mutations v) out;
  Extensions_encode_tail (kb_extensions v) out.

Definition kv_Batch_read : decoder kv_Batch :=
  namespace_handle ← dec_u64;
  operation_id ← dec_array_16;
  flags ← dec_u16;
  _ ← reject (has_other_bits flags kv_MUTATION_DURABLE) (Invalid "KV BATCH flags");
  count ← dec_u16;
  _ ← reject ((count =? 0) || (kv_MAX_BATCH_ITEMS <? count)) (Invalid "KV batch item count");
  mutations ← dec_repeat (Z.to_nat count) dec_nested;
  extensions ← dec_extensions;
  _ ← dec_finish;
  mret (mkKvBatch namespace_handle operation_id (negb (flags =? 0)) mutations extensions).

#[export] Instance kv_Batch_decode : Decode kv_Batch := fun input =>
  value ← run kv_Batch_read (Decoder_new input);
  _ ← encode_to value [];
  Ok value.

Record BatchResult := mkBatchResult { br_store_revision : Z; br_results : list MutationResult; br_extensions : Extensions }.

#[export] Instance BatchResult_encode_to : Encode BatchResult := fun v out =>
  _ ← reject_if ((br_store_revision v =? 0) || is_nil (br_results v) || (kv_MAX_BATCH_ITEMS <? len (br_results v)))
        (Invalid "KV batch result revision or count");
  _ ← kv_reject_unknown_required (br_extensions v) [];
  out ← put_len_u16 (put_u64 out (br_store_revision v)) (len (br_results v));
  out ← try_fold put_nested (br_results v) (put_u16 out 0);
  Extensions_encode_tail (br_extensions v) out.

Definition BatchResult_read : decoder BatchResult :=
  store_revision ← dec_u64;
  count ← dec_u16;
  reserved ← dec_u16;
  _ ← reject (negb (reserved =? 0) || (count =? 0) || (kv_MAX_BATCH_ITEMS <? count)) (Invalid "KV batch result reserved field or count");
  results ← dec_repeat (Z.to_nat count) dec_nested;
  extensions ← dec_extensions;
  _ ← dec_finish;
  mret (mkBatchResult store_revision results extensions).

#[export] Instance BatchResult_decode : Decode BatchResult := fun input =>
  value ← run BatchResult_read (Decoder_new input);
  _ ← encode_to value [];
  Ok value.

(** * Wire laws *)

(** ** Namespaces *)

Definition kv_Open_wf (v : kv_Open) : Prop := exts_wf (ko_extensions v).
#[export] Instance kv_Open_WireLaws : WireLaws kv_Open kv_Open_wf.
Proof. law_direct. Qed.

Definition kv_OpenResult_wf (v : kv_OpenResult) : Prop :=
  is_u64 (kor_namespace_handle v) ∧ is_u64 (kor_store_revision v) ∧ exts_wf (kor_extensions v).
#[export] Instance kv_OpenResult_WireLaws : WireLaws kv_OpenResult kv_OpenResult_wf.
Proof. law_direct. Qed.

Definition kv_Close_wf (v : kv_Close) : Prop := is_u64 (kc_namespace_handle v) ∧ exts_wf (kc_extensions v).
#[export] Instance kv_Close_WireLaws : WireLaws kv_Close kv_Close_wf.
Proof. law_direct. Qed.

Definition kv_Get_wf (v : kv_Get) : Prop :=
  is_u64 (kg_namespace_handle v) ∧ is_u64 (kg_initial_receive_credit v) ∧ exts_wf (kg_extensions v).
#[export] Instance kv_Get_WireLaws : WireLaws kv_Get kv_Get_wf.
Proof. law_recheck. Qed.

Definition StageValue_wf (v : StageValue) : Prop :=
  is_u64 (sv_byte_len v) ∧ length (sv_content_hash v) = 32%nat ∧ exts_wf (sv_extensions v).
#[export] Instance StageValue_WireLaws : WireLaws StageValue StageValue_wf.
Proof. law_recheck. Qed.

Definition kv_Watch_wf (v : kv_Watch) : Prop :=
  is_u64 (kw_namespace_handle v) ∧ is_u32 (kw_inline_max v) ∧ Watch_wf (kw_state v).
#[export] Instance kv_Watch_WireLaws : WireLaws kv_Watch kv_Watch_wf.
Proof. law_recheck. Qed.

Definition MutationResult_wf (v : MutationResult) : Prop :=
  wf_status (mu_status v) ∧ is_u64 (mu_modification_revision v) ∧ is_i64 (mu_modified_unix_ns v) ∧ length (mu_content_hash v) = 32%nat
  ∧ is_u64 (mu_byte_len v) ∧ exts_wf (mu_extensions v).
#[export] Instance MutationResult_WireLaws : WireLaws MutationResult MutationResult_wf.
Proof.
  eapply wire_laws_direct; [law_appends|reflexivity|..].
  - intros v bs Hw He. law_written v Hw He. match goal with H : wf_status _ |- _ => destruct H as [Hs Hs'] end.
    split; [done|]. law_reader. read_layout. rewrite Hs'. destruct v. read_layout.
  - intros bs v d' Hd H Hc. unfold_head H. law_read. split.
    + unfold MutationResult_wf. cbn. split_and!; try done; try lia; [by apply wf_status_from_code|unfold len in *; lia].
    + rewrite app_nil_r. unfold_encoder. cbn. rewrite Status_code_from_code. enc_again.
Qed.

(** ** Preconditions and values *)

Definition Precondition_wf (p : Precondition) : Prop :=
  match p with
  | Any | Absent => True
  | HashIs hash => length hash = 32%nat
  | RevisionIs revision => is_u64 revision
  | HashAndRevision hash revision => length hash = 32%nat ∧ is_u64 revision
  end.
Definition Precondition_fits (p : Precondition) : Prop :=
  match p with RevisionIs revision | HashAndRevision _ revision => (revision =? 0) = false | _ => True end.
Definition Precondition_bytes (p : Precondition) : list byte :=
  [byte_of (Precondition_kind p)] ++ zeros 3 ++
  match p with
  | Any | Absent => []
  | HashIs hash => hash
  | RevisionIs revision => to_le 8 revision
  | HashAndRevision hash revision => hash ++ to_le 8 revision
  end.

#[export] Instance Precondition_Field :
  Field Precondition_encode_to Precondition_decode_from Precondition_bytes Precondition_fits Precondition_wf.
Proof.
  split.
  - intros p out o. unfold Precondition_encode_to, Precondition_bytes, Precondition_fits, push_u8, put_u64.
    destruct p; cbn [Precondition_kind]; rewrite <- ?app_assoc, ?app_nil_r; try naive_solver;
      match goal with |- context [?x =? 0] => destruct (x =? 0) end; cbn; naive_solver.
  - intros p Hw Hf. unfold Precondition_decode_from, Precondition_bytes. reads_step ltac:(apply reads_u8; by destruct p).
    reads_step ltac:(apply (reads_reserved 3)). reads_step ltac:(by apply zeros_ok).
    destruct p; cbn in *; destruct_and?; read_layout.
  - intros d l p d' Hd H. unfold Precondition_decode_from in H. law_read.
    repeat match type of H with (if ?b then _ else _) _ = _ => destruct b eqn:? end; law_read; try done;
      match goal with H : (_ =? _) = true |- _ => apply Z.eqb_eq in H; subst end;
      unfold Precondition_bytes; cbn; eexists; rewrite <- ?app_assoc; split_and!; try done; unfold len in *; try lia.
Qed.

Definition ValueSource_wf (v : ValueSource) : Prop := match v with VInline _ => True | VStaged handle => is_u64 handle end.
Definition ValueSource_fits (v : ValueSource) : Prop :=
  match v with VInline value => len value <= kv_MAX_INLINE_BYTES | VStaged handle => (handle =? 0) = false end.
Definition ValueSource_bytes (v : ValueSource) : list byte :=
  match v with
  | VInline value => [byte_of kv_VALUE_INLINE] ++ zeros 3 ++ lp32 value
  | VStaged handle => [byte_of kv_VALUE_STAGED] ++ zeros 3 ++ to_le 8 handle
  end.

#[export] Instance ValueSource_Field :
  Field ValueSource_encode_to ValueSource_decode_from ValueSource_bytes ValueSource_fits ValueSource_wf.
Proof.
  split.
  - intros v out o. unfold ValueSource_encode_to, ValueSource_bytes, ValueSource_fits, kv_validate_handle, push_u8, put_u64.
    destruct v as [value|handle]; rewrite <- ?app_assoc.
    + destruct (Z.ltb_spec kv_MAX_INLINE_BYTES (len value)); cbn [reject_if mbind result_bind]; [split; [done|lia]|].
      rewrite put_bytes_u32_ok, <- ?app_assoc. unfold kv_MAX_INLINE_BYTES, U32_MAX in *. naive_solver lia.
    + destruct (handle =? 0); cbn; naive_solver.
  - intros v Hw Hf. unfold ValueSource_decode_from, ValueSource_bytes. destruct v as [value|handle]; cbn in Hw, Hf.
    + assert (len value <= U32_MAX) by (unfold kv_MAX_INLINE_BYTES, U32_MAX in *; lia). reads_step ltac:(by apply reads_u8).
      reads_step ltac:(apply (reads_reserved 3)). reads_step ltac:(by apply zeros_ok). cbn. read_layout.
    + reads_step ltac:(by apply reads_u8). reads_step ltac:(apply (reads_reserved 3)). reads_step ltac:(by apply zeros_ok).
      cbn. reads_last ltac:(by apply reads_u64).
      reads_step ltac:(unfold kv_validate_handle; rewrite Hf; reflexivity). read_layout.
  - intros d l v d' Hd H. unfold ValueSource_decode_from in H. law_read.
    repeat match type of H with (if ?b then _ else _) _ = _ => destruct b eqn:? end; law_read; try done;
      match goal with H : (_ =? _) = true |- _ => apply Z.eqb_eq in H; subst end; cbn; eexists.
    + rewrite <- ?app_assoc. split_and!; try done. lia.
    + match goal with H : kv_validate_handle _ _ = Ok _ |- _ => apply reject_if_ok in H end.
      rewrite <- ?app_assoc. split_and!; try done; lia.
Qed.

(** ** Mutations *)

Lemma durable_flags_facts b :
  is_u16 (durable_flags b) ∧ has_other_bits (durable_flags b) kv_MUTATION_DURABLE = false ∧ negb (durable_flags b =? 0) = b.
Proof. by destruct b. Qed.
Lemma durable_flags_inv f : 0 <= f → has_other_bits f kv_MUTATION_DURABLE = false → durable_flags (negb (f =? 0)) = f.
Proof.
  intros Hf H. apply (has_other_bits_ones f 1) in H; [|lia|done]. change (2 ^ 1) with 2 in H.
  assert (f = 0 ∨ f = 1) as [-> | ->] by lia; done.
Qed.

Definition kv_Put_wf (v : kv_Put) : Prop :=
  is_u64 (kp_namespace_handle v) ∧ length (kp_operation_id v) = 16%nat ∧ Precondition_wf (kp_precondition v) ∧ ValueSource_wf (kp_value v)
  ∧ exts_wf (kp_extensions v).
#[export] Instance kv_Put_WireLaws : WireLaws kv_Put kv_Put_wf.
Proof.
  eapply wire_laws_recheck; [law_appends|reflexivity|..].
  - intros v bs Hw He. law_written v Hw He. destruct (durable_flags_facts (kp_durable v)) as (? & ? & Hb). law_reader. read_layout.
    rewrite Hb. destruct v. read_layout.
  - intros bs v d' Hd H. unfold_head H. law_read. destruct_and?. law_wf. rewrite app_nil_r. intros bs' He.
    unfold encode, encode_to in He; unfold_head He. cbn in He. rewrite durable_flags_inv in He by (lia || done). enc_inv_nested. bytes_eq.
Qed.

Definition kv_Delete_wf (v : kv_Delete) : Prop :=
  is_u64 (kd_namespace_handle v) ∧ length (kd_operation_id v) = 16%nat ∧ Precondition_wf (kd_precondition v) ∧ exts_wf (kd_extensions v).
#[export] Instance kv_Delete_WireLaws : WireLaws kv_Delete kv_Delete_wf.
Proof.
  eapply wire_laws_recheck; [law_appends|reflexivity|..].
  - intros v bs Hw He. law_written v Hw He. destruct (durable_flags_facts (kd_durable v)) as (? & ? & Hb). law_reader. read_layout.
    rewrite Hb. destruct v. read_layout.
  - intros bs v d' Hd H. unfold_head H. law_read. destruct_and?. law_wf. rewrite app_nil_r. intros bs' He.
    unfold encode, encode_to in He; unfold_head He. cbn in He. rewrite durable_flags_inv in He by (lia || done). enc_inv_nested. bytes_eq.
Qed.

Definition kv_Mutation_wf (v : kv_Mutation) : Prop :=
  match v with
  | MutPut _ precondition value extensions => Precondition_wf precondition ∧ ValueSource_wf value ∧ exts_wf extensions
  | MutDelete _ precondition extensions => Precondition_wf precondition ∧ exts_wf extensions
  end.
#[export] Instance kv_Mutation_WireLaws : WireLaws kv_Mutation kv_Mutation_wf.
Proof.
  eapply wire_laws_recheck; [|reflexivity|..].
  - intros [] out o; unfold_encoder; cbn beta iota zeta; enc_appends.
  - intros v bs Hw He. unfold encode, encode_to in He. unfold_head He. destruct v; cbn beta iota zeta in He; cbn in Hw; destruct_and? Hw; enc_inv_nested; law_reader.
    + reads_step ltac:(by apply reads_u8). reads_step ltac:(apply (reads_reserved 3)). reads_step ltac:(by apply zeros_ok).
      do 2 reads_step idtac. change (kv_MUTATION_PUT =? kv_MUTATION_PUT) with true. cbn iota.
      eapply reads_end_bind_last; [read_layout|read_layout].
    + reads_step ltac:(by apply reads_u8). reads_step ltac:(apply (reads_reserved 3)). reads_step ltac:(by apply zeros_ok).
      do 2 reads_step idtac. change (kv_MUTATION_DELETE =? kv_MUTATION_PUT) with false. change (kv_MUTATION_DELETE =? kv_MUTATION_DELETE) with true.
      cbn iota. eapply reads_end_bind_last; [read_layout|read_layout].
  - intros bs v d' Hd H. unfold_head H. law_read.
    match goal with H : (if ?b then _ else _) _ = _ |- _ => destruct b eqn:? end;
      [|match goal with H : (if ?b then _ else _) _ = _ |- _ => destruct b eqn:? end]; law_read; try done;
      match goal with H : (_ =? _) = true |- _ => apply Z.eqb_eq in H; subst end; destruct_and?;
      (split; [cbn; split_and!; done|]); rewrite app_nil_r; intros bs' He;
      unfold encode, encode_to in He; unfold_head He; cbn beta iota zeta in He; enc_inv_nested; bytes_eq.
Qed.

Definition kv_Batch_wf (v : kv_Batch) : Prop :=
  is_u64 (kb_namespace_handle v) ∧ length (kb_operation_id v) = 16%nat ∧ Forall kv_Mutation_wf (kb_mutations v) ∧ exts_wf (kb_extensions v).
#[export] Instance kv_Batch_WireLaws : WireLaws kv_Batch kv_Batch_wf.
Proof.
  eapply wire_laws_recheck; [law_appends|reflexivity|..].
  - intros v bs Hw He. law_written v Hw He. destruct (durable_flags_facts (kb_durable v)) as (? & ? & Hb).
    apply orb_false_iff in Hv1 as [?%is_nil_false ?]. law_reader.
    assert (0 < len (kb_mutations v)) by (destruct (kb_mutations v); [done|rewrite len_cons; pose proof (len_nonneg l); lia]).
    unfold U16_MAX in *. do 5 reads_step ltac:(first [assumption|lia]).
    rewrite (to_nat_len (kb_mutations v)). read_layout. rewrite Hb. destruct v. read_layout.
  - intros bs v d' Hd H. unfold_head H. law_read. destruct_and?. law_wf. rewrite app_nil_r. intros bs' He.
    unfold encode, encode_to in He; unfold_head He. cbn in He. rewrite durable_flags_inv in He by (lia || done). enc_inv_nested. nested_values.
    law_count. bytes_eq.
Qed.

Definition BatchResult_wf (v : BatchResult) : Prop :=
  is_u64 (br_store_revision v) ∧ Forall MutationResult_wf (br_results v) ∧ exts_wf (br_extensions v).
#[export] Instance BatchResult_WireLaws : WireLaws BatchResult BatchResult_wf.
Proof.
  eapply wire_laws_recheck; [law_appends|reflexivity|..].
  - intros v bs Hw He. law_written v Hw He. apply orb_false_iff in Hv as [[? ?%is_nil_false]%orb_false_iff ?]. law_reader.
    assert (0 < len (br_results v)) by (destruct (br_results v); [done|rewrite len_cons; pose proof (len_nonneg l); lia]).
    unfold U16_MAX in *. do 4 reads_step ltac:(first [assumption|lia]).
    rewrite (to_nat_len (br_results v)). read_layout. destruct v. read_layout.
  - intros bs v d' Hd H. unfold_head H. law_read. destruct_and?. law_wf. rewrite app_nil_r. intros bs' He.
    unfold encode, encode_to in He; unfold_head He. cbn in He. enc_inv_nested. nested_values.
    law_count. bytes_eq.
Qed.

(** ** Entries *)

Definition EntryRecord_wf (v : EntryRecord) : Prop :=
  length (er_content_hash v) = 32%nat ∧ is_u64 (er_byte_len v) ∧ is_u64 (er_modification_revision v) ∧ is_i64 (er_modified_unix_ns v)
  ∧ exts_wf (er_extensions v).
#[export] Instance EntryRecord_WireLaws : WireLaws EntryRecord EntryRecord_wf.
Proof.
  eapply wire_laws_direct; [|reflexivity|..].
  - intros v out o. unfold_encoder. destruct (er_inline_value v); enc_appends.
  - intros v bs Hw He. unfold_type Hw. destruct_and? Hw. unfold encode, encode_to in He. unfold_head He.
    destruct v as [key hash n rev ns [value|] exts]; cbn beta iota zeta in He; cbn in *; enc_inv_nested; (split; [done|]); law_reader.
    + do 5 reads_step ltac:(first [assumption|lia]). reads_step ltac:(by apply reads_u8). reads_step ltac:(apply (reads_reserved 3)).
      reads_step ltac:(by apply zeros_ok). change (kv_CONTENT_INLINE =? kv_CONTENT_NONE) with false. change (kv_CONTENT_INLINE =? kv_CONTENT_INLINE) with true.
      cbn iota. eapply reads_end_bind; [read_layout|]. read_layout.
    + do 5 reads_step ltac:(first [assumption|lia]). reads_step ltac:(by apply reads_u8). reads_step ltac:(apply (reads_reserved 3)).
      reads_step ltac:(by apply zeros_ok). change (kv_CONTENT_NONE =? kv_CONTENT_NONE) with true. cbn iota.
      eapply reads_end_bind_nil; [apply reads_mret|]. read_layout.
  - intros bs v d' Hd H Hc. unfold_head H. law_read.
    match goal with H : (if ?b then _ else _) _ = _ |- _ => destruct b eqn:? end;
      [|match goal with H : (if ?b then _ else _) _ = _ |- _ => destruct b eqn:? end]; law_read; try done;
      match goal with H : (_ =? _) = true |- _ => apply Z.eqb_eq in H; subst end; law_wf; rewrite app_nil_r; unfold_encoder;
      cbn [er_relative_key er_content_hash er_byte_len er_modification_revision er_modified_unix_ns er_inline_value er_extensions]; enc_again.
Qed.

Definition GetResult_wf (v : GetResult) : Prop := is_u64 (gr_modification_revision v) ∧ InlineOrTransfer_wf (gr_value v).
#[export] Instance GetResult_WireLaws : WireLaws GetResult GetResult_wf.
Proof. law_direct. Qed.

Definition StageValueResult_wf (v : StageValueResult) : Prop :=
  is_u64 (svr_staging_handle v) ∧ is_u64 (svr_byte_len v) ∧ length (svr_content_hash v) = 32%nat ∧ Descriptor_wf (svr_transfer v).
#[export] Instance StageValueResult_WireLaws : WireLaws StageValueResult StageValueResult_wf.
Proof. law_direct. Qed.

(** ** State records *)

(** An entry told to a watcher is read back, and nothing else is read as one. *)
Lemma entry_state_record v kind r :
  EntryRecord_wf v → EntryRecord_state_record v kind = Ok r → len (re_body r) <= ISIZE_MAX → entry_from_state_record r = Ok v.
Proof.
  unfold EntryRecord_state_record, entry_from_state_record. intros Hw H Hl. inv_ok. cbn in *. rewrite Hv. cbn [reject_if mbind result_bind].
  by apply wire_roundtrip.
Qed.

Definition RemovedEntry_wf (v : RemovedEntry) : Prop := is_u64 (rm_modification_revision v).

Lemma removed_state_record v r :
  RemovedEntry_wf v → RemovedEntry_state_record v = Ok r → len (re_body r) <= ISIZE_MAX → RemovedEntry_from_state_record r = Ok v.
Proof.
  unfold RemovedEntry_state_record, RemovedEntry_from_state_record, RemovedEntry_wf. intros Hw H Hl. enc_inv. cbn in Hl |- *.
  erewrite run_reads_end; [rewrite bind_is_ok; by rewrite Hv| |done].
  unfold RemovedEntry_read, put_u64. cbn [app]. read_layout. destruct v. read_layout.
Qed.
