(* ===== verification/ChannelWire.v ===== *)
(** * ChannelWire: the messages of the Channel family ([crates/yas/src/channel.rs])

    Named listeners, connects, and the endpoint both sides are told, with the
    wire laws of each. *)

From S2P Require Import Prelude Schema Codec CodecFacts Wire Transfer TransferFacts State StateFacts WireLayout.

Definition channel_OWNER_SESSION : Z := 0.
Definition channel_OWNER_EXTENSION : Z := 1.
Definition channel_CHANNEL_CONTENT_KIND : Z := 0.

Inductive OwnerKind := OwnerSession | OwnerExtension.

Definition OwnerKind_u8 (k : OwnerKind) : Z :=
  match k with OwnerSession => channel_OWNER_SESSION | OwnerExtension => channel_OWNER_EXTENSION end.
Definition OwnerKind_try_from (value : Z) : result Error OwnerKind :=
  if value =? channel_OWNER_SESSION then Ok OwnerSession
  else if value =? channel_OWNER_EXTENSION then Ok OwnerExtension
  else Err (Invalid "Channel owner kind").

(** ** Checks *)

Definition channel_validate_name (name : list byte) : result Error () :=
  reject_if (is_nil name || (channel_MAX_NAME_BYTES <? len name) || bool_decide (Byte.x00 ∈ name)) (Invalid "Channel name").

Definition validate_metadata (metadata : list byte) : result Error () :=
  reject_if (channel_MAX_METADATA_BYTES <? len metadata)
    (LimitExceeded "Channel metadata bytes" (len metadata) channel_MAX_METADATA_BYTES).

Definition channel_validate_operation_id (operation_id : list byte) : result Error () :=
  reject_if (forallb (λ b, bool_decide (b = Byte.x00)) operation_id) (Invalid "zero Channel operation ID").

Definition validate_session_id (session_id : list byte) : result Error () :=
  reject_if (forallb (λ b, bool_decide (b = Byte.x00)) session_id) (Invalid "zero Channel session ID").

Definition channel_validate_handle (handle : Z) (name : string) : result Error () := reject_if (handle =? 0) (Invalid name).

Definition channel_validate_identity (handle generation : Z) (name : string) : result Error () :=
  _ ← channel_validate_handle handle name;
  reject_if (generation =? 0) (Invalid "zero Channel generation").

Definition channel_reject_unknown_required (extensions : Extensions) (known : list Z) : result Error () :=
  _ ← Extensions_validate extensions;
  reject_if (existsb (λ e, ext_required e && negb (existsb (Z.eqb (ext_tag e)) known)) extensions)
    (Invalid "unknown required Channel extension").

Definition validate_channel_transfer (d : Descriptor) : result Error () :=
  let sensitive := existsb (λ e, (ext_tag e =? as_u16 transfer_SENSITIVE_CONTENT_EXTENSION) && ext_required e && is_nil (ext_value e))
                     (td_extensions d) in
  _ ← reject_if (negb (bool_decide (td_mode d = ModeMessage)) || negb (bool_decide (td_direction d = BIDIRECTIONAL))
                 || (td_max_item_bytes d =? 0) || (channel_MAX_MESSAGE_BYTES <? td_max_item_bytes d))
        (Invalid "Channel message Transfer descriptor");
  open ← Descriptor_max_open_messages d;
  _ ← reject_if ((channel_MAX_OPEN_MESSAGES <? open) || negb (td_content_family d =? family_CHANNEL)
                 || negb (td_content_kind d =? as_u16 channel_CHANNEL_CONTENT_KIND)
                 || negb (td_content_version d =? channel_VERSION) || negb sensitive)
        (Invalid "Channel message Transfer descriptor");
  Descriptor_validate d.

(** ** Listeners *)

Record ListenerRecord := mkListenerRecord {
  ls_listener_handle : Z; ls_generation : Z; ls_owner_kind : OwnerKind; ls_owner_session : list byte; ls_name : list byte;
  ls_metadata : list byte; ls_extensions : Extensions
}.

Definition ListenerRecord_validate (v : ListenerRecord) : result Error () :=
  _ ← channel_validate_identity (ls_listener_handle v) (ls_generation v) "Channel listener";
  _ ← validate_session_id (ls_owner_session v);
  _ ← channel_validate_name (ls_name v);
  _ ← validate_metadata (ls_metadata v);
  channel_reject_unknown_required (ls_extensions v) [].

#[export] Instance ListenerRecord_encode_to : Encode ListenerRecord := fun v out =>
  _ ← ListenerRecord_validate v;
  let out := put_u64 (put_u64 out (ls_listener_handle v)) (ls_generation v) in
  let out := put_u16 (push_u8 (push_u8 out (OwnerKind_u8 (ls_owner_kind v))) 0) 0 in
  out ← put_string_u16 (out ++ ls_owner_session v) (ls_name v);
  out ← put_bytes_u32 out (ls_metadata v);
  Extensions_encode_tail (ls_extensions v) out.

Definition ListenerRecord_read : decoder ListenerRecord :=
  listener_handle ← dec_u64;
  generation ← dec_u64;
  owner_kind ← dec_tag OwnerKind_try_from;
  reserved ← dec_u8;
  _ ← reject (negb (reserved =? 0)) (Invalid "Channel listener reserved fields");
  reserved ← dec_u16;
  _ ← reject (negb (reserved =? 0)) (Invalid "Channel listener reserved fields");
  owner_session ← dec_array_16;
  name ← dec_string_u16;
  metadata ← dec_len_bytes_u32;
  extensions ← dec_extensions;
  _ ← dec_finish;
  mret (mkListenerRecord listener_handle generation owner_kind owner_session name metadata extensions).

#[export] Instance ListenerRecord_decode : Decode ListenerRecord := fun input =>
  value ← run ListenerRecord_read (Decoder_new input);
  _ ← ListenerRecord_validate value;
  Ok value.

Definition listener_kind (k : RecordKind) : bool := match k with State.Add | State.Replace => true | _ => false end.

Definition ListenerRecord_state_record (v : ListenerRecord) (kind : RecordKind) : result Error StateRecord :=
  _ ← reject_if (negb (listener_kind kind)) (Invalid "Channel listener state record kind");
  body ← encode v;
  Ok (mkRecord kind false body).

Definition ListenerRecord_from_state_record (r : StateRecord) : result Error ListenerRecord :=
  _ ← reject_if (negb (listener_kind (re_kind r))) (Invalid "Channel listener state record kind");
  decode (re_body r).

Record RemovedListener := mkRemovedListener { rl_listener_handle : Z; rl_generation : Z }.

Definition RemovedListener_check (v : RemovedListener) : result Error () :=
  channel_validate_identity (rl_listener_handle v) (rl_generation v) "Channel listener".

#[export] Instance RemovedListener_encode_to : Encode RemovedListener := fun v out =>
  _ ← RemovedListener_check v;
  Ok (put_u64 (put_u64 out (rl_listener_handle v)) (rl_generation v)).

Definition RemovedListener_read : decoder RemovedListener :=
  listener_handle ← dec_u64;
  generation ← dec_u64;
  _ ← dec_finish;
  mret (mkRemovedListener listener_handle generation).

#[export] Instance RemovedListener_decode : Decode RemovedListener := fun input =>
  value ← run RemovedListener_read (Decoder_new input);
  _ ← RemovedListener_check value;
  Ok value.

Definition RemovedListener_state_record (v : RemovedListener) : result Error StateRecord :=
  _ ← RemovedListener_check v;
  body ← encode v;
  Ok (mkRecord State.Remove false body).

Definition RemovedListener_from_state_record (r : StateRecord) : result Error RemovedListener :=
  _ ← reject_if (match re_kind r with State.Remove => false | _ => true end) (Invalid "Channel listener remove record kind");
  decode (re_body r).

(** ** Requests *)

Record Listen := mkListen { li_operation_id : list byte; li_name : list byte; li_metadata : list byte; li_extensions : Extensions }.

Definition Listen_validate (v : Listen) : result Error () :=
  _ ← channel_validate_operation_id (li_operation_id v);
  _ ← channel_validate_name (li_name v);
  _ ← validate_metadata (li_metadata v);
  channel_reject_unknown_required (li_extensions v) [].

#[export] Instance Listen_encode_to : Encode Listen := fun v out =>
  _ ← Listen_validate v;
  out ← put_string_u16 (out ++ li_operation_id v) (li_name v);
  out ← put_bytes_u32 out (li_metadata v);
  Extensions_encode_tail (li_extensions v) out.

Definition Listen_read : decoder Listen :=
  operation_id ← dec_array_16;
  name ← dec_string_u16;
  metadata ← dec_len_bytes_u32;
  extensions ← dec_extensions;
  _ ← dec_finish;
  mret (mkListen operation_id name metadata extensions).

#[export] Instance Listen_decode : Decode Listen := fun input =>
  value ← run Listen_read (Decoder_new input);
  _ ← Listen_validate value;
  Ok value.

(** [ListenResult], [CloseListener] *)
Record ListenerIdentity := mkListenerIdentity { lid_listener_handle : Z; lid_generation : Z; lid_extensions : Extensions }.

Definition ListenerIdentity_validate (v : ListenerIdentity) : result Error () :=
  _ ← channel_validate_identity (lid_listener_handle v) (lid_generation v) "Channel listener";
  channel_reject_unknown_required (lid_extensions v) [].

#[export] Instance ListenerIdentity_encode_to : Encode ListenerIdentity := fun v out =>
  _ ← ListenerIdentity_validate v;
  Extensions_encode_tail (lid_extensions v) (put_u64 (put_u64 out (lid_listener_handle v)) (lid_generation v)).

Definition ListenerIdentity_read : decoder ListenerIdentity :=
  listener_handle ← dec_u64;
  generation ← dec_u64;
  extensions ← dec_extensions;
  _ ← dec_finish;
  mret (mkListenerIdentity listener_handle generation extensions).

#[export] Instance ListenerIdentity_decode : Decode ListenerIdentity := fun input =>
  value ← run ListenerIdentity_read (Decoder_new input);
  _ ← ListenerIdentity_validate value;
  Ok value.

Record Connect := mkConnect {
  cn_listener_handle : Z; cn_generation : Z; cn_initial_receive_credit : Z; cn_metadata : list byte; cn_extensions : Extensions
}.

Definition Connect_validate (v : Connect) : result Error () :=
  _ ← channel_validate_identity (cn_listener_handle v) (cn_generation v) "Channel listener";
  _ ← reject_if (cn_initial_receive_credit v =? 0) (Invalid "zero Channel receive credit");
  _ ← validate_metadata (cn_metadata v);
  channel_reject_unknown_required (cn_extensions v) [].

#[export] Instance Connect_encode_to : Encode Connect := fun v out =>
  _ ← Connect_validate v;
  let out := put_u64 (put_u64 out (cn_listener_handle v)) (cn_generation v) in
  out ← put_bytes_u32 (put_u64 out (cn_initial_receive_credit v)) (cn_metadata v);
  Extensions_encode_tail (cn_extensions v) out.

Definition Connect_read : decoder Connect :=
  listener_handle ← dec_u64;
  generation ← dec_u64;
  initial_receive_credit ← dec_u64;
  metadata ← dec_len_bytes_u32;
  extensions ← dec_extensions;
  _ ← dec_finish;
  mret (mkConnect listener_handle generation initial_receive_credit metadata extensions).

#[export] Instance Connect_decode : Decode Connect := fun input =>
  value ← run Connect_read (Decoder_new input);
  _ ← Connect_validate value;
  Ok value.

Record ChannelEndpoint := mkChannelEndpoint {
  ce_channel_handle : Z; ce_peer_channel_handle : Z; ce_peer_session : list byte; ce_listener_metadata : list byte;
  ce_connector_metadata : list byte; ce_descriptor : Descriptor; ce_extensions : Extensions
}.

Definition ChannelEndpoint_validate (v : ChannelEndpoint) : result Error () :=
  _ ← channel_validate_handle (ce_channel_handle v) "Channel handle";
  _ ← channel_validate_handle (ce_peer_channel_handle v) "peer Channel handle";
  _ ← validate_session_id (ce_peer_session v);
  _ ← validate_metadata (ce_listener_metadata v);
  _ ← validate_metadata (ce_connector_metadata v);
  _ ← validate_channel_transfer (ce_descriptor v);
  channel_reject_unknown_required (ce_extensions v) [].

#[export] Instance ChannelEndpoint_encode_to : Encode ChannelEndpoint := fun v out =>
  _ ← ChannelEndpoint_validate v;
  let out := put_u64 (put_u64 out (ce_channel_handle v)) (ce_peer_channel_handle v) in
  out ← put_bytes_u32 (out ++ ce_peer_session v) (ce_listener_metadata v);
  out ← put_bytes_u32 out (ce_connector_metadata v);
  out ← put_nested (ce_descriptor v) out;
  Extensions_encode_tail (ce_extensions v) out.

Definition ChannelEndpoint_read : decoder ChannelEndpoint :=
  channel_handle ← dec_u64;
  peer_channel_handle ← dec_u64;
  peer_session ← dec_array_16;
  listener_metadata ← dec_len_bytes_u32;
  connector_metadata ← dec_len_bytes_u32;
  descriptor ← dec_nested;
  extensions ← dec_extensions;
  _ ← dec_finish;
  mret (mkChannelEndpoint channel_handle peer_channel_handle peer_session listener_metadata connector_metadata descriptor extensions).

#[export] Instance ChannelEndpoint_decode : Decode ChannelEndpoint := fun input =>
  value ← run ChannelEndpoint_read (Decoder_new input);
  _ ← ChannelEndpoint_validate value;
  Ok value.

Record Accept := mkAccept { ac_listener_handle : Z; ac_generation : Z; ac_endpoint : ChannelEndpoint }.

#[export] Instance Accept_encode_to : Encode Accept := fun v out =>
  _ ← channel_validate_identity (ac_listener_handle v) (ac_generation v) "Channel listener";
  _ ← ChannelEndpoint_validate (ac_endpoint v);
  _ ← reject_if (negb (td_sender_send_credit (ce_descriptor (ac_endpoint v)) =? 0)) (Invalid "Channel ACCEPT initial send credit");
  encode_to (ac_endpoint v) (put_u64 (put_u64 out (ac_listener_handle v)) (ac_generation v)).

Definition Accept_read : decoder Accept :=
  listener_handle ← dec_u64;
  generation ← dec_u64;
  rest ← dec_rest;
  endpoint ← lift (decode rest);
  _ ← dec_finish;
  mret (mkAccept listener_handle generation endpoint).

#[export] Instance Accept_decode : Decode Accept := fun input =>
  value ← run Accept_read (Decoder_new input);
  _ ← encode_to value [];
  Ok value.

(** * Wire laws *)

#[export] Instance OwnerKind_Tag : Tag OwnerKind_u8 OwnerKind_try_from (λ _, True).
Proof. tag_laws. Qed.

Definition ListenerRecord_wf (v : ListenerRecord) : Prop :=
  is_u64 (ls_listener_handle v) ∧ is_u64 (ls_generation v) ∧ length (ls_owner_session v) = 16%nat ∧ utf8_valid (ls_name v) = true
  ∧ exts_wf (ls_extensions v).
#[export] Instance ListenerRecord_WireLaws : WireLaws ListenerRecord ListenerRecord_wf.
Proof. law_direct. Qed.

Definition RemovedListener_wf (v : RemovedListener) : Prop := is_u64 (rl_listener_handle v) ∧ is_u64 (rl_generation v).
#[export] Instance RemovedListener_WireLaws : WireLaws RemovedListener RemovedListener_wf.
Proof. law_direct. Qed.

Definition Listen_wf (v : Listen) : Prop := length (li_operation_id v) = 16%nat ∧ utf8_valid (li_name v) = true ∧ exts_wf (li_extensions v).
#[export] Instance Listen_WireLaws : WireLaws Listen Listen_wf.
Proof. law_direct. Qed.

Definition ListenerIdentity_wf (v : ListenerIdentity) : Prop :=
  is_u64 (lid_listener_handle v) ∧ is_u64 (lid_generation v) ∧ exts_wf (lid_extensions v).
#[export] Instance ListenerIdentity_WireLaws : WireLaws ListenerIdentity ListenerIdentity_wf.
Proof. law_direct. Qed.

Definition Connect_wf (v : Connect) : Prop :=
  is_u64 (cn_listener_handle v) ∧ is_u64 (cn_generation v) ∧ is_u64 (cn_initial_receive_credit v) ∧ exts_wf (cn_extensions v).
#[export] Instance Connect_WireLaws : WireLaws Connect Connect_wf.
Proof. law_direct. Qed.

Definition ChannelEndpoint_wf (v : ChannelEndpoint) : Prop :=
  is_u64 (ce_channel_handle v) ∧ is_u64 (ce_peer_channel_handle v) ∧ length (ce_peer_session v) = 16%nat
  ∧ Descriptor_wf (ce_descriptor v) ∧ exts_wf (ce_extensions v).
#[export] Instance ChannelEndpoint_WireLaws : WireLaws ChannelEndpoint ChannelEndpoint_wf.
Proof. law_direct. Qed.

Definition Accept_wf (v : Accept) : Prop :=
  is_u64 (ac_listener_handle v) ∧ is_u64 (ac_generation v) ∧ ChannelEndpoint_wf (ac_endpoint v).
#[export] Instance Accept_WireLaws : WireLaws Accept Accept_wf.
Proof. law_recheck. Qed.
