(* ===== verification/RelayWire.v ===== *)
(** * RelayWire: the messages of the Relay family ([crates/yas/src/relay.rs])

    Routes as they are told to watchers, connects and the tunnel a connect
    opens, with the wire laws of each. *)

From S2P Require Import Prelude Schema Codec CodecFacts Wire Transfer TransferFacts State StateFacts WireLayout.

Definition relay_AVAILABILITY_UNKNOWN : Z := 0.
Definition relay_AVAILABILITY_AVAILABLE : Z := 1.
Definition relay_AVAILABILITY_DEGRADED : Z := 2.
Definition relay_AVAILABILITY_UNAVAILABLE : Z := 3.
Definition relay_TRANSPORT_OTHER : Z := 0.
Definition relay_TRANSPORT_LOCAL : Z := 1.
Definition relay_TRANSPORT_SSH : Z := 2.
Definition relay_TRANSPORT_TCP : Z := 3.
Definition relay_TRANSPORT_WEBRTC : Z := 4.
Definition relay_TRANSPORT_UPLINK : Z := 5.
Definition relay_TRANSPORT_RELAY : Z := 6.
Definition relay_ROUTE_DEFAULT : Z := 1.
Definition relay_TUNNEL_CONTENT_KIND : Z := 0.
Definition relay_EARLY_DATA_EXTENSION : Z := 1.

Inductive Availability := AvailabilityUnknown | Available | Degraded | Unavailable.

Definition Availability_u8 (a : Availability) : Z :=
  match a with
  | AvailabilityUnknown => relay_AVAILABILITY_UNKNOWN
  | Available => relay_AVAILABILITY_AVAILABLE
  | Degraded => relay_AVAILABILITY_DEGRADED
  | Unavailable => relay_AVAILABILITY_UNAVAILABLE
  end.
Definition Availability_try_from (value : Z) : result Error Availability :=
  if value =? relay_AVAILABILITY_UNKNOWN then Ok AvailabilityUnknown
  else if value =? relay_AVAILABILITY_AVAILABLE then Ok Available
  else if value =? relay_AVAILABILITY_DEGRADED then Ok Degraded
  else if value =? relay_AVAILABILITY_UNAVAILABLE then Ok Unavailable
  else Err (Invalid "Relay availability").

Inductive TransportHint := HintOther | HintLocal | HintSsh | HintTcp | HintWebRtc | HintUplink | HintRelay.

Definition TransportHint_u8 (h : TransportHint) : Z :=
  match h with
  | HintOther => relay_TRANSPORT_OTHER
  | HintLocal => relay_TRANSPORT_LOCAL
  | HintSsh => relay_TRANSPORT_SSH
  | HintTcp => relay_TRANSPORT_TCP
  | HintWebRtc => relay_TRANSPORT_WEBRTC
  | HintUplink => relay_TRANSPORT_UPLINK
  | HintRelay => relay_TRANSPORT_RELAY
  end.
Definition TransportHint_try_from (value : Z) : result Error TransportHint :=
  if value =? relay_TRANSPORT_OTHER then Ok HintOther
  else if value =? relay_TRANSPORT_LOCAL then Ok HintLocal
  else if value =? relay_TRANSPORT_SSH then Ok HintSsh
  else if value =? relay_TRANSPORT_TCP then Ok HintTcp
  else if value =? relay_TRANSPORT_WEBRTC then Ok HintWebRtc
  else if value =? relay_TRANSPORT_UPLINK then Ok HintUplink
  else if value =? relay_TRANSPORT_RELAY then Ok HintRelay
  else Err (Invalid "Relay transport hint").

#[export] Instance Availability_Tag : Tag Availability_u8 Availability_try_from (λ _, True).
Proof. tag_laws. Qed.
#[export] Instance TransportHint_Tag : Tag TransportHint_u8 TransportHint_try_from (λ _, True).
Proof. tag_laws. Qed.

(** ** Routes *)

Record RouteRecord := mkRouteRecord {
  rr_route_handle : Z; rr_generation : Z; rr_availability : Availability; rr_transport_hint : TransportHint; rr_is_default : bool;
  rr_name : list byte; rr_label : list byte; rr_description : list byte; rr_extensions : Extensions
}.

Definition RouteRecord_validate (v : RouteRecord) : result Error () :=
  _ ← reject_if ((rr_route_handle v =? 0) || is_nil (rr_name v)) (Invalid "Relay route identity");
  Extensions_validate (rr_extensions v).

#[export] Instance RouteRecord_encode_to : Encode RouteRecord := fun v out =>
  _ ← RouteRecord_validate v;
  let out := put_u64 (put_u64 out (rr_route_handle v)) (rr_generation v) in
  let out := push_u8 (push_u8 out (Availability_u8 (rr_availability v))) (TransportHint_u8 (rr_transport_hint v)) in
  let out := put_u16 out (if rr_is_default v then relay_ROUTE_DEFAULT else 0) in
  out ← put_string_u16 out (rr_name v);
  out ← put_string_u16 out (rr_label v);
  out ← put_string_u32 out (rr_description v);
  Extensions_encode_tail (rr_extensions v) out.

Definition RouteRecord_read : decoder RouteRecord :=
  route_handle ← dec_u64;
  generation ← dec_u64;
  availability ← dec_tag Availability_try_from;
  transport_hint ← dec_tag TransportHint_try_from;
  flags ← dec_u16;
  _ ← reject (has_other_bits flags relay_ROUTE_DEFAULT) (Invalid "Relay route flags");
  name ← dec_string_u16;
  label ← dec_string_u16;
  description ← dec_string_u32;
  extensions ← dec_extensions;
  _ ← dec_finish;
  mret (mkRouteRecord route_handle generation availability transport_hint (has_bits flags relay_ROUTE_DEFAULT) name label description extensions).

#[export] Instance RouteRecord_decode : Decode RouteRecord := fun input =>
  value ← run RouteRecord_read (Decoder_new input);
  _ ← RouteRecord_validate value;
  Ok value.

Definition relay_route_kind (k : RecordKind) : bool := match k with State.Add | State.Replace => true | _ => false end.

Definition RouteRecord_state_record (v : RouteRecord) (kind : RecordKind) : result Error StateRecord :=
  _ ← reject_if (negb (relay_route_kind kind)) (Invalid "Relay route state record kind");
  body ← encode v;
  Ok (mkRecord kind false body).

Definition route_from_state_record (r : StateRecord) : result Error RouteRecord :=
  _ ← reject_if (negb (relay_route_kind (re_kind r))) (Invalid "Relay route state record kind");
  decode (re_body r).

Record RemovedRoute := mkRemovedRoute { rmr_route_handle : Z; rmr_generation : Z }.

Definition RemovedRoute_state_record (v : RemovedRoute) : result Error StateRecord :=
  _ ← reject_if (rmr_route_handle v =? 0) (Invalid "Relay removed route identity");
  Ok (mkRecord State.Remove false (put_u64 (put_u64 [] (rmr_route_handle v)) (rmr_generation v))).

Definition RemovedRoute_read : decoder RemovedRoute :=
  route_handle ← dec_u64;
  generation ← dec_u64;
  _ ← dec_finish;
  mret (mkRemovedRoute route_handle generation).

Definition RemovedRoute_from_state_record (r : StateRecord) : result Error RemovedRoute :=
  _ ← reject_if (match re_kind r with State.Remove => false | _ => true end) (Invalid "Relay remove state record kind");
  value ← run RemovedRoute_read (Decoder_new (re_body r));
  _ ← reject_if (rmr_route_handle value =? 0) (Invalid "Relay removed route identity");
  Ok value.

(** ** Connects *)

Record relay_Connect := mkRelayConnect {
  rc_route_handle : Z; rc_generation : Z; rc_initial_receive_credit : Z; rc_extensions : Extensions
}.

Definition relay_Connect_validate (v : relay_Connect) : result Error () :=
  _ ← reject_if (rc_route_handle v =? 0) (Invalid "Relay CONNECT identity");
  _ ← Extensions_validate (rc_extensions v);
  match find_ext (rc_extensions v) (as_u16 relay_EARLY_DATA_EXTENSION) with
  | Some early_data =>
      reject_if (relay_MAX_EARLY_DATA <? len (ext_value early_data))
        (LimitExceeded "Relay early data" (len (ext_value early_data)) relay_MAX_EARLY_DATA)
  | None => Ok ()
  end.

#[export] Instance relay_Connect_encode_to : Encode relay_Connect := fun v out =>
  _ ← relay_Connect_validate v;
  let out := put_u64 (put_u64 out (rc_route_handle v)) (rc_generation v) in
  let out := put_u16 (put_u16 (put_u64 out (rc_initial_receive_credit v)) 0) 0 in
  Extensions_encode_tail (rc_extensions v) out.

Definition relay_Connect_read : decoder relay_Connect :=
  route_handle ← dec_u64;
  generation ← dec_u64;
  initial_receive_credit ← dec_u64;
  flags ← dec_u16;
  _ ← reject (negb (flags =? 0)) (Invalid "Relay CONNECT flags or reserved field");
  reserved ← dec_u16;
  _ ← reject (negb (reserved =? 0)) (Invalid "Relay CONNECT flags or reserved field");
  extensions ← dec_extensions;
  _ ← dec_finish;
  mret (mkRelayConnect route_handle generation initial_receive_credit extensions).

#[export] Instance relay_Connect_decode : Decode relay_Connect := fun input =>
  value ← run relay_Connect_read (Decoder_new input);
  _ ← relay_Connect_validate value;
  Ok value.

Record relay_ConnectResult := mkRelayConnectResult {
  rcr_relay_handle : Z; rcr_route_handle : Z; rcr_generation : Z; rcr_transfer : Descriptor
}.

Definition relay_ConnectResult_validate (v : relay_ConnectResult) : result Error () :=
  _ ← reject_if ((rcr_relay_handle v =? 0) || (rcr_route_handle v =? 0)) (Invalid "Relay CONNECT result identity");
  let d := rcr_transfer v in
  _ ← reject_if (negb (bool_decide (td_mode d = ModeByte)) || negb (bool_decide (td_direction d = BIDIRECTIONAL))
                 || negb (td_content_family d =? family_RELAY) || negb (td_content_kind d =? as_u16 relay_TUNNEL_CONTENT_KIND)
                 || negb (td_content_version d =? relay_VERSION))
        (Invalid "Relay tunnel Transfer descriptor");
  sensitive ← Descriptor_sensitive_content d;
  _ ← reject_if (negb sensitive) (Invalid "Relay tunnel Transfer descriptor");
  Descriptor_validate d.

#[export] Instance relay_ConnectResult_encode_to : Encode relay_ConnectResult := fun v out =>
  _ ← relay_ConnectResult_validate v;
  encode_to (rcr_transfer v) (put_u64 (put_u64 (put_u64 out (rcr_relay_handle v)) (rcr_route_handle v)) (rcr_generation v)).

Definition relay_ConnectResult_read : decoder relay_ConnectResult :=
  relay_handle ← dec_u64;
  route_handle ← dec_u64;
  generation ← dec_u64;
  rest ← dec_rest;
  transfer ← lift (decode rest);
  _ ← dec_finish;
  mret (mkRelayConnectResult relay_handle route_handle generation transfer).

#[export] Instance relay_ConnectResult_decode : Decode relay_ConnectResult := fun input =>
  value ← run relay_ConnectResult_read (Decoder_new input);
  _ ← relay_ConnectResult_validate value;
  Ok value.

Record Disconnect := mkDisconnect { dc_relay_handle : Z; dc_reason : list byte }.

Definition Disconnect_check (v : Disconnect) : result Error () :=
  reject_if (dc_relay_handle v =? 0) (Invalid "zero Relay handle").

#[export] Instance Disconnect_encode_to : Encode Disconnect := fun v out =>
  _ ← Disconnect_check v;
  put_string_u32 (put_u64 out (dc_relay_handle v)) (dc_reason v).

Definition Disconnect_read : decoder Disconnect :=
  relay_handle ← dec_u64;
  reason ← dec_string_u32;
  _ ← dec_finish;
  mret (mkDisconnect relay_handle reason).

#[export] Instance Disconnect_decode : Decode Disconnect := fun input =>
  value ← run Disconnect_read (Decoder_new input);
  _ ← Disconnect_check value;
  Ok value.

(** * Wire laws *)

Definition RouteRecord_wf (v : RouteRecord) : Prop :=
  is_u64 (rr_route_handle v) ∧ is_u64 (rr_generation v) ∧ utf8_valid (rr_name v) = true ∧ utf8_valid (rr_label v) = true
  ∧ utf8_valid (rr_description v) = true ∧ exts_wf (rr_extensions v).
#[export] Instance RouteRecord_WireLaws : WireLaws RouteRecord RouteRecord_wf.
Proof.
  eapply wire_laws_direct; [law_appends|reflexivity|..].
  - intros v bs Hw He. law_written v Hw He. split; [done|]. destruct (flag_bit_facts (rr_is_default v)) as (? & ? & Hb). law_reader. unfold relay_ROUTE_DEFAULT. read_layout.
    rewrite Hb. destruct v. read_layout.
  - intros bs v d' Hd H Hc. unfold_head H. law_read. destruct_and?. law_wf. rewrite app_nil_r. unfold_encoder. cbn [rr_is_default]. unfold relay_ROUTE_DEFAULT in *.
    rewrite flag_bit_inv by (lia || done). enc_again.
Qed.

Definition relay_Connect_wf (v : relay_Connect) : Prop :=
  is_u64 (rc_route_handle v) ∧ is_u64 (rc_generation v) ∧ is_u64 (rc_initial_receive_credit v) ∧ exts_wf (rc_extensions v).
#[export] Instance relay_Connect_WireLaws : WireLaws relay_Connect relay_Connect_wf.
Proof. law_direct. Qed.

Definition relay_ConnectResult_wf (v : relay_ConnectResult) : Prop :=
  is_u64 (rcr_relay_handle v) ∧ is_u64 (rcr_route_handle v) ∧ is_u64 (rcr_generation v) ∧ Descriptor_wf (rcr_transfer v).
#[export] Instance relay_ConnectResult_WireLaws : WireLaws relay_ConnectResult relay_ConnectResult_wf.
Proof. law_direct. Qed.

Definition Disconnect_wf (v : Disconnect) : Prop := is_u64 (dc_relay_handle v) ∧ utf8_valid (dc_reason v) = true.
#[export] Instance Disconnect_WireLaws : WireLaws Disconnect Disconnect_wf.
Proof. law_direct. Qed.

(** ** State records *)

Lemma route_state_record v kind r :
  RouteRecord_wf v → RouteRecord_state_record v kind = Ok r → len (re_body r) <= ISIZE_MAX → route_from_state_record r = Ok v.
Proof.
  unfold RouteRecord_state_record, route_from_state_record. intros Hw H Hl. inv_ok. cbn in *. rewrite Hv. cbn [reject_if mbind result_bind].
  by apply wire_roundtrip.
Qed.

Definition RemovedRoute_wf (v : RemovedRoute) : Prop := is_u64 (rmr_route_handle v) ∧ is_u64 (rmr_generation v).

Lemma removed_route_state_record v r :
  RemovedRoute_wf v → RemovedRoute_state_record v = Ok r → RemovedRoute_from_state_record r = Ok v.
Proof.
  unfold RemovedRoute_state_record, RemovedRoute_from_state_record. intros [? ?] E. inv_ok. cbn.
  erewrite run_reads_end; [rewrite bind_is_ok; by rewrite Hv| |].
  - unfold RemovedRoute_read, put_u64. cbn [app]. read_layout. destruct v. read_layout.
  - unfold put_u64. rewrite !len_app, !len_to_le. unfold ISIZE_MAX, len. cbn. lia.
Qed.
