(* ===== verification/EnvWire.v ===== *)
(** * EnvWire: the Env family and the environment snapshot
      ([crates/yas/src/env.rs]; [encode_environment_batches] of [crates/server/src/yas.rs];
       the assembly of [crates/client/src/kv.rs])

    A server's environment is sent inline or as a sequence of batches; the
    receiver puts the batches together with [SnapshotAssembler]. *)

From S2P Require Import Prelude Schema Codec Composite Ordered Kv CodecFacts Wire Transfer TransferFacts WireLayout.

Definition env_DELIVERY_INLINE : Z := 0.
Definition env_DELIVERY_TRANSFER : Z := 1.
Definition env_SNAPSHOT_CONTENT_KIND : Z := 0.

Definition env_reject_unknown_required (extensions : Extensions) (known : list Z) : result Error () :=
  _ ← Extensions_validate extensions;
  reject_if (existsb (λ e, ext_required e && negb (existsb (Z.eqb (ext_tag e)) known)) extensions)
    (Invalid "unknown required Env extension").

(** ** Requests *)

Record env_Get := mkEnvGet { eg_initial_receive_credit : Z; eg_extensions : Extensions }.

Definition env_Get_check (v : env_Get) : result Error () := env_reject_unknown_required (eg_extensions v) [].

#[export] Instance env_Get_encode_to : Encode env_Get := fun v out =>
  _ ← env_Get_check v;
  Extensions_encode_tail (eg_extensions v) (put_u64 out (eg_initial_receive_credit v)).

Definition env_Get_read : decoder env_Get :=
  initial_receive_credit ← dec_u64;
  extensions ← dec_extensions;
  _ ← dec_finish;
  mret (mkEnvGet initial_receive_credit extensions).

#[export] Instance env_Get_decode : Decode env_Get := fun input =>
  value ← run env_Get_read (Decoder_new input);
  _ ← env_Get_check value;
  Ok value.

(** ** Entries *)

Record env_Entry := mkEnvEntry { en_key : list byte; en_value : list byte }.

Definition env_Entry_validate (e : env_Entry) : result Error () :=
  _ ← reject_if (is_nil (en_key e)) (Invalid "empty environment key");
  _ ← reject_if (env_MAX_KEY_BYTES <? len (en_key e)) (LimitExceeded "environment key bytes" (len (en_key e)) env_MAX_KEY_BYTES);
  _ ← reject_if (env_MAX_VALUE_BYTES <? len (en_value e))
        (LimitExceeded "environment value bytes" (len (en_value e)) env_MAX_VALUE_BYTES);
  _ ← reject_if (bool_decide (Byte.x00 ∈ en_key e) || bool_decide (Byte.x3d ∈ en_key e)) (Invalid "environment key");
  reject_if (bool_decide (Byte.x00 ∈ en_value e)) (Invalid "environment value").

#[export] Instance env_Entry_encode_to : Encode env_Entry := fun e out =>
  _ ← env_Entry_validate e;
  out ← put_bytes_u16 out (en_key e);
  put_bytes_u32 out (en_value e).

Definition env_Entry_decode_from : decoder env_Entry :=
  key ← dec_len_bytes_u16;
  value ← dec_len_bytes_u32;
  let value := mkEnvEntry key value in
  _ ← lift (env_Entry_validate value);
  mret value.

Definition env_Entry_read : decoder env_Entry :=
  value ← env_Entry_decode_from;
  _ ← dec_finish;
  mret value.

#[export] Instance env_Entry_decode : Decode env_Entry := fun input => run env_Entry_read (Decoder_new input).

(** [previous.is_some_and(|key| key >= next)] *)
Definition not_before (previous : option (list byte)) (next : list byte) : bool :=
  match previous with Some key => key_leb next key | None => false end.

Record EntrySummary := mkEntrySummary { es_count : Z; es_total_data_bytes : Z; es_encoded_entry_bytes : Z }.

(** The loop of [validate_entries]: the data and the wire bytes so far. *)
Fixpoint validate_entries_loop (previous : option (list byte)) (total encoded : Z) (entries : list env_Entry) : result Error (Z * Z) :=
  match entries with
  | [] => Ok (total, encoded)
  | e :: rest =>
      _ ← env_Entry_validate e;
      _ ← reject_if (not_before previous (en_key e)) (Invalid "environment key order");
      total ← ok_or (checked_add_u64 total (len (en_key e))) LengthOverflow;
      total ← ok_or (checked_add_u64 total (len (en_value e))) LengthOverflow;
      _ ← reject_if (env_MAX_TOTAL_DATA_BYTES <? total) (LimitExceeded "environment total data bytes" total env_MAX_TOTAL_DATA_BYTES);
      encoded ← ok_or (checked_add_u64 encoded (2 + len (en_key e) + 4 + len (en_value e))) LengthOverflow;
      validate_entries_loop (Some (en_key e)) total encoded rest
  end.

Definition validate_entries (entries : list env_Entry) (inline : bool) : result Error EntrySummary :=
  _ ← reject_if (env_MAX_ENTRIES <? len entries) (LimitExceeded "environment entries" (len entries) env_MAX_ENTRIES);
  sums ← validate_entries_loop None 0 0 entries;
  let '(total, encoded) := sums in
  _ ← reject_if (inline && (env_MAX_INLINE_BYTES <? encoded)) (LimitExceeded "inline environment bytes" encoded env_MAX_INLINE_BYTES);
  Ok (mkEntrySummary (as_u32 (len entries)) total encoded).

(** ** Results *)

Inductive env_Delivery := EnvInline (entries : list env_Entry) | EnvTransfer (transfer : Descriptor).

Record env_GetResult := mkEnvGetResult {
  egr_entry_count : Z; egr_total_data_bytes : Z; egr_delivery : env_Delivery; egr_extensions : Extensions
}.

Definition validate_snapshot_transfer (d : Descriptor) : result Error () :=
  _ ← reject_if (negb (bool_decide (td_mode d = ModeMessage)) || negb (bool_decide (td_direction d = SENDER_TO_RECEIVER))
                 || negb (td_content_family d =? family_ENV) || negb (td_content_kind d =? as_u16 env_SNAPSHOT_CONTENT_KIND)
                 || negb (td_content_version d =? env_VERSION) || (td_max_item_bytes d =? 0) || (env_MAX_BATCH_BYTES <? td_max_item_bytes d))
        (Invalid "Env snapshot Transfer descriptor");
  sensitive ← Descriptor_sensitive_content d;
  _ ← reject_if (negb sensitive
                 || negb (existsb (λ e, (ext_tag e =? as_u16 transfer_SENSITIVE_CONTENT_EXTENSION) && ext_required e) (td_extensions d)))
        (Invalid "Env snapshot Transfer descriptor");
  Descriptor_validate d.

(** The two limits that the encoder's and the decoder's checks begin with. *)
Definition env_check_totals (entry_count total_data_bytes : Z) : result Error () :=
  _ ← reject_if (env_MAX_ENTRIES <? entry_count) (LimitExceeded "environment entries" entry_count env_MAX_ENTRIES);
  reject_if (env_MAX_TOTAL_DATA_BYTES <? total_data_bytes)
    (LimitExceeded "environment total data bytes" total_data_bytes env_MAX_TOTAL_DATA_BYTES).

Definition env_GetResult_validate (v : env_GetResult) : result Error () :=
  _ ← env_check_totals (egr_entry_count v) (egr_total_data_bytes v);
  _ ← env_reject_unknown_required (egr_extensions v) [];
  match egr_delivery v with
  | EnvInline entries =>
      summary ← validate_entries entries true;
      reject_if (negb (es_count summary =? egr_entry_count v) || negb (es_total_data_bytes summary =? egr_total_data_bytes v))
        (Invalid "environment result summary")
  | EnvTransfer transfer =>
      _ ← reject_if ((egr_entry_count v =? 0) || (egr_total_data_bytes v =? 0)) (Invalid "empty transferred environment");
      validate_snapshot_transfer transfer
  end.

Definition env_GetResult_inline (entries : list env_Entry) (extensions : Extensions) : result Error env_GetResult :=
  summary ← validate_entries entries true;
  let value := mkEnvGetResult (es_count summary) (es_total_data_bytes summary) (EnvInline entries) extensions in
  _ ← env_GetResult_validate value;
  Ok value.

Definition env_GetResult_transfer (entry_count total_data_bytes : Z) (transfer : Descriptor) (extensions : Extensions) : result Error env_GetResult :=
  let value := mkEnvGetResult entry_count total_data_bytes (EnvTransfer transfer) extensions in
  _ ← env_GetResult_validate value;
  Ok value.

#[export] Instance env_GetResult_encode_to : Encode env_GetResult := fun v out =>
  _ ← env_GetResult_validate v;
  out ← match egr_delivery v with
        | EnvInline entries =>
            let out := push_u8 out env_DELIVERY_INLINE ++ zeros 3 in
            let out := put_u64 (put_u32 out (egr_entry_count v)) (egr_total_data_bytes v) in
            try_fold env_Entry_encode_to entries out
        | EnvTransfer transfer =>
            let out := push_u8 out env_DELIVERY_TRANSFER ++ zeros 3 in
            let out := put_u64 (put_u32 out (egr_entry_count v)) (egr_total_data_bytes v) in
            put_nested transfer out
        end;
  Extensions_encode_tail (egr_extensions v) out.

Definition env_Delivery_read (delivery entry_count : Z) : decoder env_Delivery :=
  if delivery =? env_DELIVERY_INLINE then
    entries ← dec_repeat (Z.to_nat entry_count) env_Entry_decode_from;
    mret (EnvInline entries)
  else if delivery =? env_DELIVERY_TRANSFER then
    transfer ← dec_nested;
    mret (EnvTransfer transfer)
  else lift (Err (Invalid "Env result delivery")).

Definition env_GetResult_read : decoder env_GetResult :=
  delivery ← dec_u8;
  reserved ← dec_take 3;
  _ ← reject (negb (bool_decide (reserved = zeros 3))) (Invalid "Env result reserved bytes");
  entry_count ← dec_u32;
  total_data_bytes ← dec_u64;
  _ ← lift (env_check_totals entry_count total_data_bytes);
  delivery ← env_Delivery_read delivery entry_count;
  extensions ← dec_extensions;
  _ ← dec_finish;
  mret (mkEnvGetResult entry_count total_data_bytes delivery extensions).

#[export] Instance env_GetResult_decode : Decode env_GetResult := fun input =>
  value ← run env_GetResult_read (Decoder_new input);
  _ ← env_GetResult_validate value;
  Ok value.

(** ** Batches of a snapshot *)

Record SnapshotBatch := mkSnapshotBatch { sb_first_index : Z; sb_entries : list env_Entry }.

Definition SnapshotBatch_validate (v : SnapshotBatch) : result Error () :=
  let n := len (sb_entries v) in
  _ ← reject_if (is_nil (sb_entries v)) (Invalid "empty environment snapshot batch");
  _ ← reject_if ((U16_MAX <? n) || (env_MAX_ENTRIES <? n) || (U32_MAX <? sb_first_index v + as_u32 n))
        (Invalid "environment snapshot batch count");
  summary ← validate_entries (sb_entries v) false;
  encoded_len ← ok_or (checked_add_u64 8 (es_encoded_entry_bytes summary)) LengthOverflow;
  reject_if (env_MAX_BATCH_BYTES <? encoded_len) (LimitExceeded "environment snapshot batch bytes" encoded_len env_MAX_BATCH_BYTES).

#[export] Instance SnapshotBatch_encode_to : Encode SnapshotBatch := fun v out =>
  _ ← SnapshotBatch_validate v;
  out ← put_len_u16 (put_u32 out (sb_first_index v)) (len (sb_entries v));
  try_fold env_Entry_encode_to (sb_entries v) (put_u16 out 0).

Definition SnapshotBatch_read : decoder SnapshotBatch :=
  first_index ← dec_u32;
  count ← dec_u16;
  reserved ← dec_u16;
  _ ← reject (negb (reserved =? 0)) (Invalid "Env snapshot batch reserved bytes");
  _ ← reject ((count =? 0) || (env_MAX_ENTRIES <? count)) (Invalid "environment snapshot batch count");
  entries ← dec_repeat (Z.to_nat count) env_Entry_decode_from;
  _ ← dec_finish;
  mret (mkSnapshotBatch first_index entries).

#[export] Instance SnapshotBatch_decode : Decode SnapshotBatch := fun input =>
  _ ← reject_if (env_MAX_BATCH_BYTES <? len input) (LimitExceeded "environment snapshot batch bytes" (len input) env_MAX_BATCH_BYTES);
  value ← run SnapshotBatch_read (Decoder_new input);
  _ ← SnapshotBatch_validate value;
  Ok value.

(** ** Assembly *)

Record SnapshotAssembler := mkAssembler {
  sa_expected_entry_count : Z; sa_expected_total_data_bytes : Z; sa_entries : list env_Entry; sa_total_data_bytes : Z
}.

Definition SnapshotAssembler_new (expected_entry_count expected_total_data_bytes : Z) : result Error SnapshotAssembler :=
  _ ← reject_if ((expected_entry_count =? 0) || (env_MAX_ENTRIES <? expected_entry_count)) (Invalid "transferred environment entry count");
  _ ← reject_if (env_MAX_TOTAL_DATA_BYTES <? expected_total_data_bytes)
        (LimitExceeded "environment total data bytes" expected_total_data_bytes env_MAX_TOTAL_DATA_BYTES);
  _ ← reject_if (expected_total_data_bytes =? 0) (Invalid "transferred environment total data bytes");
  Ok (mkAssembler expected_entry_count expected_total_data_bytes [] 0).

(** The loop over a batch: what the total is when it ends, early or not. *)
Fixpoint push_bytes (expected total : Z) (entries : list env_Entry) : Z * result Error () :=
  match entries with
  | [] => (total, Ok ())
  | e :: rest =>
      match checked_add_u64 total (len (en_key e) + len (en_value e)) with
      | None => (total, Err LengthOverflow)
      | Some total =>
          if expected <? total then (total, Err (Invalid "environment snapshot byte overrun"))
          else push_bytes expected total rest
      end
  end.

(** The checks of [push] before its loop. *)
Definition push_checks (s : SnapshotAssembler) (batch : SnapshotBatch) : result Error () :=
  _ ← SnapshotBatch_validate batch;
  _ ← reject_if (negb (sb_first_index batch =? len (sa_entries s))) (Invalid "environment snapshot batch index");
  new_count ← ok_or (checked_add_u64 (len (sa_entries s)) (len (sb_entries batch))) LengthOverflow;
  _ ← reject_if (sa_expected_entry_count s <? new_count) (Invalid "environment snapshot entry overrun");
  match last (sa_entries s), head (sb_entries batch) with
  | Some previous, Some first => reject_if (key_leb (en_key first) (en_key previous)) (Invalid "environment key order")
  | _, _ => Ok ()
  end.

Definition SnapshotAssembler_push (s : SnapshotAssembler) (batch : SnapshotBatch) : SnapshotAssembler * result Error () :=
  match push_checks s batch with
  | Err e => (s, Err e)
  | Ok _ =>
      match push_bytes (sa_expected_total_data_bytes s) (sa_total_data_bytes s) (sb_entries batch) with
      | (total, Err e) => (mkAssembler (sa_expected_entry_count s) (sa_expected_total_data_bytes s) (sa_entries s) total, Err e)
      | (total, Ok _) =>
          (mkAssembler (sa_expected_entry_count s) (sa_expected_total_data_bytes s) (sa_entries s ++ sb_entries batch) total, Ok ())
      end
  end.

Definition SnapshotAssembler_finish (s : SnapshotAssembler) : result Error (list env_Entry) :=
  _ ← reject_if (negb (len (sa_entries s) =? sa_expected_entry_count s)
                 || negb (sa_total_data_bytes s =? sa_expected_total_data_bytes s)) (Invalid "incomplete environment snapshot");
  Ok (sa_entries s).

(** The receiver: [for item in items { assembler.push(SnapshotBatch::decode(&item)?)?; } assembler.finish()?] *)
Fixpoint push_items (s : SnapshotAssembler) (items : list (list byte)) : result Error SnapshotAssembler :=
  match items with
  | [] => Ok s
  | item :: rest =>
      batch ← decode item;
      let '(s, r) := SnapshotAssembler_push s batch in
      _ ← r;
      push_items s rest
  end.

Definition assemble_environment (entry_count total_data_bytes : Z) (items : list (list byte)) : result Error (list env_Entry) :=
  assembler ← SnapshotAssembler_new entry_count total_data_bytes;
  assembler ← push_items assembler items;
  SnapshotAssembler_finish assembler.

(** ** The sender *)

(** [.map_err(|_| status)] *)
Definition or_status {A} (r : result Error A) (status : Status) : result Status A :=
  match r with Ok a => Ok a | Err _ => Err status end.

(** The variables of the loop. *)
Record Batching := mkBatching {
  bt_total : Z; bt_previous : option (list byte); bt_batches : list (list byte); bt_first_index : Z; bt_entries : list env_Entry; bt_bytes : Z
}.

(** The batch so far goes out. *)
Definition flush_batch (b : Batching) : result Status Batching :=
  completed_count ← ok_or (try_u32 (len (bt_entries b))) Status_ResourceExhausted;
  batch ← or_status (encode (mkSnapshotBatch (bt_first_index b) (bt_entries b))) Status_ResourceExhausted;
  first_index ← ok_or (if bt_first_index b + completed_count <=? U32_MAX then Some (bt_first_index b + completed_count) else None)
                  Status_ResourceExhausted;
  Ok (mkBatching (bt_total b) (bt_previous b) (bt_batches b ++ [batch]) first_index [] 8).

Definition batch_entry (e : env_Entry) (b : Batching) : result Status Batching :=
  _ ← reject_if (not_before (bt_previous b) (en_key e)) Status_Invalid;
  total ← ok_or (checked_add_u64 (bt_total b) (len (en_key e))) Status_ResourceExhausted;
  total ← ok_or (checked_add_u64 total (len (en_value e))) Status_ResourceExhausted;
  _ ← reject_if (env_MAX_TOTAL_DATA_BYTES <? total) Status_ResourceExhausted;
  encoded ← or_status (encode e) Status_ResourceExhausted;
  let b := mkBatching total (Some (en_key e)) (bt_batches b) (bt_first_index b) (bt_entries b) (bt_bytes b) in
  b ← (if match checked_add_u64 (bt_bytes b) (len encoded) with Some bytes => env_MAX_BATCH_BYTES <? bytes | None => true end
       then flush_batch b else Ok b);
  bytes ← ok_or (checked_add_u64 (bt_bytes b) (len encoded)) Status_ResourceExhausted;
  Ok (mkBatching (bt_total b) (bt_previous b) (bt_batches b) (bt_first_index b) (bt_entries b ++ [e]) bytes).

Definition encode_environment_batches (entries : list env_Entry) : result Status (Z * Z * list (list byte)) :=
  _ ← reject_if (is_nil entries || (env_MAX_ENTRIES <? len entries)) Status_ResourceExhausted;
  b ← try_fold batch_entry entries (mkBatching 0 None [] 0 [] 8);
  batch ← or_status (encode (mkSnapshotBatch (bt_first_index b) (bt_entries b))) Status_ResourceExhausted;
  count ← ok_or (try_u32 (len entries)) Status_ResourceExhausted;
  Ok (count, bt_total b, bt_batches b ++ [batch]).

(** * Facts *)

Definition env_data (e : env_Entry) : Z := len (en_key e) + len (en_value e).
Fixpoint env_data_bytes (es : list env_Entry) : Z := match es with [] => 0 | e :: es => env_data e + env_data_bytes es end.
Definition env_Entry_bytes (e : env_Entry) : list byte := lp16 (en_key e) ++ lp32 (en_value e).
Definition env_wire_bytes (es : list env_Entry) : Z := len (concat (map env_Entry_bytes es)).

(** Keys strictly ascending, and after [previous]. *)
Fixpoint env_ordered (previous : option (list byte)) (es : list env_Entry) : bool :=
  match es with
  | [] => true
  | e :: rest => negb (not_before previous (en_key e)) && env_ordered (Some (en_key e)) rest
  end.

Lemma env_data_bytes_app a b : env_data_bytes (a ++ b) = env_data_bytes a + env_data_bytes b.
Proof. induction a as [|e a IH]; cbn [app env_data_bytes]; lia. Qed.
Lemma env_data_nonneg e : 0 <= env_data e.
Proof. unfold env_data. pose proof (len_nonneg (en_key e)). pose proof (len_nonneg (en_value e)). lia. Qed.
Lemma env_data_bytes_nonneg es : 0 <= env_data_bytes es.
Proof. induction es as [|e es IH]; cbn [env_data_bytes]; [lia|]. pose proof (env_data_nonneg e). lia. Qed.
Lemma len_env_Entry_bytes e : len (env_Entry_bytes e) = 6 + env_data e.
Proof. unfold env_Entry_bytes, lp16, lp32, env_data. rewrite !len_app, !len_to_le. lia. Qed.
Lemma env_wire_bytes_app a b : env_wire_bytes (a ++ b) = env_wire_bytes a + env_wire_bytes b.
Proof. unfold env_wire_bytes. by rewrite map_app, concat_app, len_app. Qed.
Lemma env_wire_bytes_cons e es : env_wire_bytes (e :: es) = 6 + env_data e + env_wire_bytes es.
Proof. unfold env_wire_bytes. cbn [map concat]. by rewrite len_app, len_env_Entry_bytes. Qed.
Lemma env_wire_bytes_nonneg es : 0 <= env_wire_bytes es.
Proof. apply len_nonneg. Qed.
Lemma env_wire_data es : env_wire_bytes es = 6 * len es + env_data_bytes es.
Proof.
  induction es as [|e es IH]; [done|]. rewrite env_wire_bytes_cons, len_cons, IH. cbn [env_data_bytes]. lia.
Qed.

Lemma env_ordered_app p a b :
  env_ordered p (a ++ b) = env_ordered p a && env_ordered (match last a with Some e => Some (en_key e) | None => p end) b.
Proof.
  revert p. induction a as [|e a IH]; intros p; [done|]. cbn [app env_ordered]. rewrite IH, andb_assoc. do 2 f_equal.
  change (e :: a) with ([e] ++ a). rewrite last_app. by destruct (last a).
Qed.
Lemma env_ordered_weaken p es : env_ordered p es = true → env_ordered None es = true.
Proof. destruct es as [|e es]; [done|]. cbn [env_ordered not_before negb andb]. by intros [_ ?]%andb_true_iff. Qed.

(** ** Entries and batches on the wire *)

Lemma env_Entry_valid_fits e : env_Entry_validate e = Ok () → len (en_key e) <= U16_MAX ∧ len (en_value e) <= U32_MAX ∧ 0 < len (en_key e) ∧ 6 + env_data e <= env_MAX_BATCH_BYTES - 8.
Proof.
  unfold env_Entry_validate, env_data, U16_MAX, U32_MAX. intros H. inv_ok. unfold env_MAX_KEY_BYTES, env_MAX_VALUE_BYTES, env_MAX_BATCH_BYTES in *.
  destruct (en_key e) as [|b l]; [done|]. rewrite len_cons in *. pose proof (len_nonneg l). lia.
Qed.

#[export] Instance env_Entry_Field : Field env_Entry_encode_to env_Entry_decode_from env_Entry_bytes (λ e, env_Entry_validate e = Ok ()) (λ _, True).
Proof.
  split.
  - intros e out o. unfold env_Entry_encode_to, env_Entry_bytes. split.
    + intros H. enc_inv_nested. split; [bytes_eq|done].
    + intros [-> Hv]. destruct (env_Entry_valid_fits e Hv) as (? & ? & _). enc_again.
  - intros e _ Hv. destruct (env_Entry_valid_fits e Hv) as (? & ? & _). unfold env_Entry_decode_from, env_Entry_bytes. read_layout.
    destruct e. read_layout.
  - intros d l e d' Hd H. unfold env_Entry_decode_from in H. law_read. unfold env_Entry_bytes. eexists.
    split; [cbn; rewrite <- ?app_assoc; reflexivity|]. by split_and!.
Qed.

Lemma env_Entry_encode_iff e bs : encode e = Ok bs ↔ bs = env_Entry_bytes e ∧ env_Entry_validate e = Ok ().
Proof. unfold encode, encode_to. exact (field_put (put := env_Entry_encode_to) e [] bs). Qed.

Lemma checked_add_ok {E} (e : E) a b c : ok_or (checked_add_u64 a b) e = Ok c ↔ c = a + b ∧ a + b <= U64_MAX.
Proof. unfold ok_or. rewrite <- checked_add_u64_some. destruct (checked_add_u64 a b); naive_solver. Qed.

(** What [validate_entries] accepts, and what it counts. *)
Lemma validate_entries_loop_ok previous total encoded es t w :
  0 <= total → 0 <= encoded →
  validate_entries_loop previous total encoded es = Ok (t, w) ↔
    Forall (λ e, env_Entry_validate e = Ok ()) es ∧ env_ordered previous es = true
    ∧ t = total + env_data_bytes es ∧ w = encoded + env_wire_bytes es
    ∧ (es = [] ∨ t <= env_MAX_TOTAL_DATA_BYTES ∧ w <= U64_MAX).
Proof.
  revert previous total encoded. induction es as [|e es IH]; intros previous total encoded Ht He; cbn [validate_entries_loop env_ordered].
  - rewrite Forall_nil. change (env_wire_bytes []) with 0. cbn [env_data_bytes]. split; [intros [= <- <-]; split_and!; try done; try lia; by left|].
    intros (_ & _ & -> & -> & _). do 2 f_equal; lia.
  - pose proof (len_nonneg (en_key e)). pose proof (len_nonneg (en_value e)). pose proof (env_data_bytes_nonneg es). pose proof (env_wire_bytes_nonneg es).
    rewrite Forall_cons_iff, env_wire_bytes_cons, andb_true_iff, negb_true_iff. cbn [env_data_bytes]. unfold env_data. split.
    + intros Hv. inv_ok. repeat match goal with H : checked_add_u64 _ _ = Some _ |- _ => apply checked_add_u64_some in H as [-> ?] end. apply IH in Hv as (? & ? & -> & -> & Hb); [|lia|lia].
      split_and!; try done; try lia. right. destruct Hb as [-> | ?]; [|lia]. change (env_wire_bytes []) with 0. cbn [env_data_bytes]. lia.
    + intros ([Hv Hes] & [Ho Hos] & -> & -> & Hb). destruct Hb as [|[Hb1 Hb2]]; [done|]. apply bind_ok. exists (). split; [exact Hv|].
      apply bind_ok. exists (). split; [by apply reject_if_ok|].
      unfold env_MAX_TOTAL_DATA_BYTES, U64_MAX in *.
      apply bind_ok. exists (total + len (en_key e)). split; [apply checked_add_ok; unfold U64_MAX; lia|].
      apply bind_ok. exists (total + len (en_key e) + len (en_value e)). split; [apply checked_add_ok; unfold U64_MAX; lia|].
      apply bind_ok. exists (). split; [apply reject_if_ok; unfold env_MAX_TOTAL_DATA_BYTES; lia|].
      apply bind_ok. eexists. split; [apply checked_add_ok; unfold U64_MAX; split; [reflexivity|lia]|].
      apply IH; [lia|lia|]. split_and!; try done; try lia.
Qed.

(** A batch that [SnapshotBatch::validate] accepts. *)
Record valid_batch (v : SnapshotBatch) : Prop := {
  vb_some : sb_entries v ≠ [];
  vb_count : len (sb_entries v) <= env_MAX_ENTRIES;
  vb_index : sb_first_index v + len (sb_entries v) <= U32_MAX;
  vb_entries : Forall (λ e, env_Entry_validate e = Ok ()) (sb_entries v);
  vb_ordered : env_ordered None (sb_entries v) = true;
  vb_data : env_data_bytes (sb_entries v) <= env_MAX_TOTAL_DATA_BYTES;
  vb_bytes : 8 + env_wire_bytes (sb_entries v) <= env_MAX_BATCH_BYTES
}.

Lemma validate_entries_ok es inline s :
  validate_entries es inline = Ok s ↔
    len es <= env_MAX_ENTRIES ∧ Forall (λ e, env_Entry_validate e = Ok ()) es ∧ env_ordered None es = true
    ∧ env_data_bytes es <= env_MAX_TOTAL_DATA_BYTES ∧ (inline = true → env_wire_bytes es <= env_MAX_INLINE_BYTES)
    ∧ s = mkEntrySummary (len es) (env_data_bytes es) (env_wire_bytes es).
Proof.
  unfold validate_entries. pose proof (len_nonneg es). pose proof (env_data_bytes_nonneg es). pose proof (env_wire_data es) as Hw. split.
  - intros Hs. inv_ok. destruct v0 as [t w]. apply validate_entries_loop_ok in Hv0 as (? & ? & -> & -> & Hb); [|lia|lia]. inv_ok.
    assert (as_u32 (len es) = len es) as -> by (unfold as_u32, env_MAX_ENTRIES in *; apply Z.mod_small; lia).
    split_and!; try done; try lia.
    + destruct Hb as [-> | ?]; [done|lia].
    + intros ->. cbn in *. lia.
  - intros (Hl & Hv & Ho & Hd & Hi & ->). apply bind_ok. exists (). split; [apply reject_if_ok; lia|].
    apply bind_ok. exists (env_data_bytes es, env_wire_bytes es). split.
    + apply validate_entries_loop_ok; [lia|lia|]. split_and!; try done. right. split; [done|].
      unfold U64_MAX, env_MAX_ENTRIES, env_MAX_TOTAL_DATA_BYTES in *. lia.
    + apply bind_ok. exists (). split; [apply reject_if_ok; destruct inline; [|done]; specialize (Hi eq_refl); cbn; lia|].
      do 2 f_equal. unfold as_u32. apply Z.mod_small. unfold env_MAX_ENTRIES in *. lia.
Qed.

Lemma SnapshotBatch_validate_ok v : 0 <= sb_first_index v → SnapshotBatch_validate v = Ok () ↔ valid_batch v.
Proof.
  intros H0. unfold SnapshotBatch_validate. pose proof (len_nonneg (sb_entries v)). split.
  - intros Hv. inv_ok. apply validate_entries_ok in Hv2 as (? & ? & ? & ? & _ & ->). apply checked_add_u64_some in Hv3 as [-> ?].
    apply is_nil_false in Hv0. cbn in *. unfold as_u32, env_MAX_ENTRIES in *.
    rewrite Z.mod_small in Hv1 by lia. split; unfold env_MAX_ENTRIES; try done; lia.
  - intros [? ? ? ? ? ? ?]. apply bind_ok. exists (). split; [apply reject_if_ok; by destruct (sb_entries v)|].
    apply bind_ok. exists (). split.
    { apply reject_if_ok. unfold as_u32, env_MAX_ENTRIES, U16_MAX in *. rewrite Z.mod_small by lia. lia. }
    apply bind_ok. eexists. split; [apply validate_entries_ok; split_and!; done|]. cbn.
    apply bind_ok. eexists. split; [apply checked_add_ok; split; [reflexivity|]; unfold env_MAX_BATCH_BYTES, U64_MAX in *; lia|].
    apply reject_if_ok. lia.
Qed.

(** ** Wire laws *)

Definition env_Get_wf (v : env_Get) : Prop := is_u64 (eg_initial_receive_credit v) ∧ exts_wf (eg_extensions v).
#[export] Instance env_Get_WireLaws : WireLaws env_Get env_Get_wf.
Proof. law_direct. Qed.

Definition env_Entry_wf (e : env_Entry) : Prop := True.
#[export] Instance env_Entry_WireLaws : WireLaws env_Entry env_Entry_wf.
Proof.
  eapply (wire_laws_direct _ (λ _, Ok ()) env_Entry_read).
  - intros v out o. setoid_rewrite env_Entry_encode_iff. unfold encode_to. setoid_rewrite (field_put (put := env_Entry_encode_to)). naive_solver.
  - intros bs. unfold decode, env_Entry_decode. by destruct (run _ _).
  - intros v bs _ [-> Hv]%env_Entry_encode_iff. split; [done|]. unfold env_Entry_read. reads_step idtac. read_layout.
  - intros bs v d' Hd H _. unfold env_Entry_read in H. law_read. destruct_and?. split; [done|]. rewrite app_nil_r. by apply env_Entry_encode_iff.
Qed.

Definition env_Delivery_wf (v : env_Delivery) : Prop :=
  match v with EnvInline entries => True | EnvTransfer transfer => Descriptor_wf transfer end.
Definition env_GetResult_wf (v : env_GetResult) : Prop :=
  is_u32 (egr_entry_count v) ∧ is_u64 (egr_total_data_bytes v) ∧ env_Delivery_wf (egr_delivery v) ∧ exts_wf (egr_extensions v).

Lemma env_GetResult_validate_inv v :
  env_GetResult_validate v = Ok () →
  env_check_totals (egr_entry_count v) (egr_total_data_bytes v) = Ok ()
  ∧ (∀ entries, egr_delivery v = EnvInline entries → egr_entry_count v = len entries).
Proof.
  unfold env_GetResult_validate. intros H. apply bind_ok in H as ([] & Hc & H). apply bind_ok in H as ([] & _ & H). split; [done|].
  intros entries E. rewrite E in H. apply bind_ok in H as (s & (_ & _ & _ & _ & _ & ->)%validate_entries_ok & H).
  apply reject_if_ok, orb_false_iff in H as [H _]. cbn in H. lia.
Qed.

#[export] Instance env_GetResult_WireLaws : WireLaws env_GetResult env_GetResult_wf.
Proof.
  eapply wire_laws_direct; [|reflexivity|..].
  - intros v out o. unfold_encoder. destruct (egr_delivery v); cbn iota beta zeta; enc_appends.
  - intros v bs Hw He. unfold_type Hw. destruct_and? Hw. unfold encode, encode_to in He. unfold_head He. apply bind_ok in He as ([] & Hc & He).
    split; [done|]. apply env_GetResult_validate_inv in Hc as [Hc Hn].
    destruct v as [n t [entries|transfer] exts]; cbn [egr_delivery egr_entry_count egr_total_data_bytes egr_extensions env_Delivery_wf] in *;
      cbn beta iota zeta in He; enc_inv_nested; law_reader; reads_step ltac:(by apply reads_u8); read_layout; unfold env_Delivery_read; take_branch.
    + rewrite (Hn entries eq_refl).
      reads_step ltac:(eapply reads_bind_last; [rewrite to_nat_len; apply (field_reads_all (get := env_Entry_decode_from)); [by apply Forall_true|done]|apply reads_mret]).
      read_layout.
    + reads_step ltac:(eapply reads_bind_last; [eapply reads_nested; eassumption|apply reads_mret]). read_layout.
  - intros bs v d' Hd H Hc. unfold env_GetResult_read in H. unfold env_Delivery_read in H. law_read.
    match goal with H : (if ?b then _ else _) _ = _ |- _ => destruct b eqn:? end;
      [|match goal with H : (if ?b then _ else _) _ = _ |- _ => destruct b eqn:? end]; law_read; try done;
      match goal with H : (_ =? _) = true |- _ => apply Z.eqb_eq in H; subst end; destruct_and?;
      law_wf; rewrite app_nil_r; unfold_encoder; cbn [egr_delivery egr_entry_count egr_total_data_bytes egr_extensions]; enc_again.
Qed.

(** A decoder that looks at the input's length first. *)
Lemma wire_laws_guarded {A} `{Encode A} (D0 D : Decode A) (wf : A → Prop) (g : list byte → bool) (e : list byte → Error) :
  @WireLaws A _ D0 wf → (∀ bs, D bs = (_ ← reject_if (g bs) (e bs); D0 bs)) → (∀ v bs, wf v → encode v = Ok bs → g bs = false) → @WireLaws A _ D wf.
Proof.
  intros L HD Hg. split; [apply wire_append|..].
  - intros v bs Hw He Hl. unfold decode. rewrite HD, (Hg _ _ Hw He). cbn. by apply (wire_roundtrip v bs).
  - intros v bs Hl Hv. unfold decode in Hv. rewrite HD in Hv. apply bind_ok in Hv as ([] & _ & Hv). by apply (wire_canonical v bs).
Qed.

Definition SnapshotBatch_decode_any : Decode SnapshotBatch := fun input =>
  value ← run SnapshotBatch_read (Decoder_new input);
  _ ← SnapshotBatch_validate value;
  Ok value.

Lemma SnapshotBatch_encode_iff v bs :
  encode v = Ok bs ↔ SnapshotBatch_validate v = Ok () ∧ len (sb_entries v) <= U16_MAX ∧ Forall (λ e, env_Entry_validate e = Ok ()) (sb_entries v)
    ∧ bs = to_le 4 (sb_first_index v) ++ to_le 2 (len (sb_entries v)) ++ to_le 2 0 ++ concat (map env_Entry_bytes (sb_entries v)).
Proof.
  unfold_encoder. split.
  - intros He. enc_inv_nested. split_and!; try done.
  - intros (Hv & Hl & Hf & ->). enc_again.
Qed.

Definition SnapshotBatch_wf (v : SnapshotBatch) : Prop := is_u32 (sb_first_index v).
#[export] Instance SnapshotBatch_WireLaws : WireLaws SnapshotBatch SnapshotBatch_wf.
Proof.
  eapply (wire_laws_guarded SnapshotBatch_decode_any SnapshotBatch_decode); [|reflexivity|].
  - eapply wire_laws_direct; [law_appends|reflexivity|..].
    + intros v bs Hw (Hv & Hl & Hf & ->)%SnapshotBatch_encode_iff. split; [done|]. unfold SnapshotBatch_wf in Hw.
      apply SnapshotBatch_validate_ok in Hv as [? ? ? ? ? ? ?]; [|lia]. assert (0 < len (sb_entries v)) by (destruct (sb_entries v); [done|rewrite len_cons; pose proof (len_nonneg l); lia]).
      law_reader. read_layout. rewrite to_nat_len. reads_step ltac:(apply (field_reads_all (get := env_Entry_decode_from)); [by apply Forall_true|done]).
      destruct v. read_layout.
    + intros bs v d' Hd H Hc. unfold_head H. law_read. destruct_and?. law_count. law_wf. rewrite app_nil_r. apply SnapshotBatch_encode_iff. done.
  - intros v bs Hw (Hv & Hl & Hf & ->)%SnapshotBatch_encode_iff. unfold SnapshotBatch_wf in Hw.
    apply SnapshotBatch_validate_ok in Hv as [? ? ? ? ? ? ?]; [|lia]. rewrite !len_app, !len_to_le. change (len (concat _)) with (env_wire_bytes (sb_entries v)). apply Z.ltb_ge. change (Z.of_nat 4) with 4. change (Z.of_nat 2) with 2. lia.
Qed.

(** * The snapshot *)

(** What the receiver has after some items, when it has met no error. *)
Lemma push_ok s first_index es :
  valid_batch (mkSnapshotBatch first_index es) → first_index = len (sa_entries s) →
  len (sa_entries s) + len es <= sa_expected_entry_count s → sa_expected_entry_count s <= env_MAX_ENTRIES →
  env_ordered None (sa_entries s ++ es) = true →
  0 <= sa_total_data_bytes s → sa_total_data_bytes s + env_data_bytes es <= sa_expected_total_data_bytes s →
  sa_expected_total_data_bytes s <= env_MAX_TOTAL_DATA_BYTES →
  SnapshotAssembler_push s (mkSnapshotBatch first_index es) =
    (mkAssembler (sa_expected_entry_count s) (sa_expected_total_data_bytes s) (sa_entries s ++ es) (sa_total_data_bytes s + env_data_bytes es), Ok ()).
Proof.
  intros Hv -> Hn Hm Ho Ht Htot Hmax. unfold SnapshotAssembler_push.
  assert (push_checks s (mkSnapshotBatch (len (sa_entries s)) es) = Ok ()) as ->.
  { unfold push_checks. pose proof (len_nonneg (sa_entries s)). apply bind_ok. exists (). split; [by apply SnapshotBatch_validate_ok|]. cbn [sb_first_index sb_entries].
    apply bind_ok. exists (). split; [apply reject_if_ok; lia|].
    apply bind_ok. eexists. split; [apply checked_add_ok; split; [reflexivity|]; unfold U64_MAX, env_MAX_ENTRIES in *; lia|].
    apply bind_ok. exists (). split; [apply reject_if_ok; lia|].
    destruct (last (sa_entries s)) as [e|] eqn:El; [|done]. destruct es as [|e' es]; [done|]. cbn [head].
    apply reject_if_ok. rewrite env_ordered_app, El in Ho. apply andb_true_iff in Ho as [_ Ho]. cbn [env_ordered not_before] in Ho.
    apply andb_true_iff in Ho as [Ho _]. by apply negb_true_iff in Ho. }
  cbn [sb_entries]. assert (∀ t, 0 <= t → t + env_data_bytes es <= sa_expected_total_data_bytes s →
    push_bytes (sa_expected_total_data_bytes s) t es = (t + env_data_bytes es, Ok ())) as ->; [|done|done|done].
  clear - Hmax. induction es as [|e es IH]; intros t H0 Ht; cbn [push_bytes env_data_bytes] in *; [by rewrite Z.add_0_r|].
  pose proof (env_data_nonneg e). pose proof (env_data_bytes_nonneg es). fold (env_data e).
  assert (checked_add_u64 t (env_data e) = Some (t + env_data e)) as ->.
  { apply checked_add_u64_some. split; [done|]. unfold env_MAX_TOTAL_DATA_BYTES, U64_MAX in *. lia. }
  destruct (Z.ltb_spec (sa_expected_total_data_bytes s) (t + env_data e)); [lia|]. rewrite IH by lia. f_equal. lia.
Qed.

Lemma push_items_app s a b : push_items s (a ++ b) = (s' ← push_items s a; push_items s' b).
Proof.
  revert s. induction a as [|i a IH]; intros s; cbn [app push_items]; [by rewrite bind_is_ok|].
  destruct (decode i) as [batch|]; [|done]. rewrite !bind_is_ok. destruct (SnapshotAssembler_push s batch) as [s' [[]|]]; [|done]. by rewrite !bind_is_ok.
Qed.

(** A snapshot that may be sent. *)
Record snapshot_ok (all : list env_Entry) : Prop := {
  so_entries : Forall (λ e, env_Entry_validate e = Ok ()) all;
  so_ordered : env_ordered None all = true;
  so_count : len all <= env_MAX_ENTRIES;
  so_data : env_data_bytes all <= env_MAX_TOTAL_DATA_BYTES
}.

Section Sending.
Context (all : list env_Entry) (Hall : snapshot_ok all).

Definition receiver (es : list env_Entry) : SnapshotAssembler := mkAssembler (len all) (env_data_bytes all) es (env_data_bytes es).

(** The sender has gone through [done]: the batches sent bring the receiver to
    the entries before the open batch. *)
Record open_inv (done : list env_Entry) (b : Batching) : Prop := {
  bi_sent : ∃ es, push_items (receiver []) (bt_batches b) = Ok (receiver es) ∧ es ++ bt_entries b = done ∧ bt_first_index b = len es;
  bi_bytes : bt_bytes b = 8 + env_wire_bytes (bt_entries b);
  bi_fits : bt_bytes b <= env_MAX_BATCH_BYTES;
  bi_open : done ≠ [] → bt_entries b ≠ [];
  bi_small : Forall (λ i, len i <= env_MAX_BATCH_BYTES) (bt_batches b)
}.
Record batching_inv (done : list env_Entry) (b : Batching) : Prop := {
  bi_inv : open_inv done b;
  bi_total : bt_total b = env_data_bytes done;
  bi_previous : bt_previous b = match last done with Some e => Some (en_key e) | None => None end
}.

Lemma snapshot_prefix done todo : all = done ++ todo →
  Forall (λ e, env_Entry_validate e = Ok ()) done ∧ env_ordered None done = true ∧ len done <= len all ∧ env_data_bytes done <= env_data_bytes all.
Proof using Hall.
  destruct Hall as [He Ho Hc Hd]. intros ->. apply Forall_app in He as [? _]. rewrite env_ordered_app in Ho. apply andb_true_iff in Ho as [? _].
  rewrite len_app, env_data_bytes_app. pose proof (len_nonneg todo). pose proof (env_data_bytes_nonneg todo). split_and!; try done; lia.
Qed.

(** The open batch can be sent, and the receiver takes it. *)
Lemma open_batch_sent done todo b :
  all = done ++ todo → done ≠ [] → open_inv done b →
  ∃ bs, encode (mkSnapshotBatch (bt_first_index b) (bt_entries b)) = Ok bs ∧ len bs <= env_MAX_BATCH_BYTES
    ∧ push_items (receiver []) (bt_batches b ++ [bs]) = Ok (receiver done).
Proof using Hall.
  intros Ha Hne [(es & Hp & <- & Hi) Hb Hf Ho _]. destruct (snapshot_prefix _ _ Ha) as (He & Hord & Hn & Hd).
  destruct Hall as [_ _ Hc Hdm]. specialize (Ho Hne). apply Forall_app in He as [_ He]. rewrite len_app, env_data_bytes_app in *.
  pose proof (len_nonneg es). pose proof (env_data_bytes_nonneg es). pose proof (len_nonneg (bt_entries b)). rewrite Hi in *.
  assert (env_ordered None (bt_entries b) = true) as Hob.
  { rewrite env_ordered_app in Hord. apply andb_true_iff in Hord as [_ ?]. by eapply env_ordered_weaken. }
  assert (valid_batch (mkSnapshotBatch (len es) (bt_entries b))) as Hv.
  { split; cbn; try done; try lia. unfold env_MAX_ENTRIES, U32_MAX in *. lia. }
  assert (encode (mkSnapshotBatch (len es) (bt_entries b)) = Ok (to_le 4 (len es) ++ to_le 2 (len (bt_entries b)) ++ to_le 2 0 ++ concat (map env_Entry_bytes (bt_entries b)))) as Hen.
  { apply SnapshotBatch_encode_iff. split; [by apply SnapshotBatch_validate_ok|]. split; [|done]. unfold U16_MAX, env_MAX_ENTRIES in *. cbn. lia. }
  eexists. split; [exact Hen|]. assert (len (to_le 4 (len es) ++ to_le 2 (len (bt_entries b)) ++ to_le 2 0 ++ concat (map env_Entry_bytes (bt_entries b))) <= env_MAX_BATCH_BYTES) as Hlb.
  { rewrite !len_app, !len_to_le. change (len (concat _)) with (env_wire_bytes (bt_entries b)). change (Z.of_nat 4) with 4. change (Z.of_nat 2) with 2. lia. }
  split; [exact Hlb|]. rewrite push_items_app, Hp, bind_is_ok. cbn [push_items].
  assert (is_u32 (len es)) as Hu. { unfold env_MAX_ENTRIES in *. lia. }
  rewrite (wire_roundtrip (mkSnapshotBatch (len es) (bt_entries b)) _ Hu Hen ltac:(unfold ISIZE_MAX, env_MAX_BATCH_BYTES in *; lia)).
  rewrite bind_is_ok. rewrite push_ok; cbn [receiver sa_entries sa_expected_entry_count sa_expected_total_data_bytes sa_total_data_bytes]; try done; try lia.
  unfold receiver. by rewrite env_data_bytes_app.
Qed.

Lemma last_key_order done e rest p :
  env_ordered p (done ++ e :: rest) = true → not_before (match last done with Some e => Some (en_key e) | None => p end) (en_key e) = false.
Proof. rewrite env_ordered_app. intros [_ H]%andb_true_iff. cbn [env_ordered] in H. apply andb_true_iff in H as [H _]. by apply negb_true_iff in H. Qed.

(** The batch goes out when the next entry does not fit. *)
Lemma flush_ok done todo b :
  all = done ++ todo → done ≠ [] → open_inv done b →
  ∃ b', flush_batch b = Ok b' ∧ bt_entries b' = [] ∧ bt_bytes b' = 8 ∧ bt_total b' = bt_total b ∧ bt_previous b' = bt_previous b
    ∧ bt_first_index b' = len done ∧ push_items (receiver []) (bt_batches b') = Ok (receiver done)
    ∧ Forall (λ i, len i <= env_MAX_BATCH_BYTES) (bt_batches b').
Proof using Hall.
  intros Ha Hne Hi. destruct (open_batch_sent _ _ _ Ha Hne Hi) as (bs & He & Hl & Hp). destruct (snapshot_prefix _ _ Ha) as (_ & _ & Hn & _).
  destruct Hall as [_ _ Hc _], Hi as [(es & _ & Hd & Hix) _ _ _ Hs]. unfold flush_batch. rewrite He.
  subst done. rewrite len_app in *. pose proof (len_nonneg es). pose proof (len_nonneg (bt_entries b)). unfold env_MAX_ENTRIES in *.
  assert (try_u32 (len (bt_entries b)) = Some (len (bt_entries b))) as ->.
  { unfold try_u32, U32_MAX. destruct (Z.leb_spec (len (bt_entries b)) 4294967295); [done|lia]. }
  cbn [ok_or or_status mbind result_bind]. destruct (Z.leb_spec (bt_first_index b + len (bt_entries b)) U32_MAX); [|unfold U32_MAX in *; lia].
  eexists. split; [reflexivity|]. cbn [bt_entries bt_bytes bt_total bt_previous bt_first_index bt_batches]. split_and!; try done; [lia|].
  apply Forall_app. by rewrite Forall_singleton.
Qed.

Lemma batch_entry_ok done e todo b :
  all = done ++ e :: todo → batching_inv done b → ∃ b', batch_entry e b = Ok b' ∧ batching_inv (done ++ [e]) b'.
Proof using Hall.
  intros Ha Hi. assert (all = (done ++ [e]) ++ todo) as Ha' by (by rewrite <- app_assoc).
  destruct (snapshot_prefix _ _ Ha') as (Hv & _ & _ & Hd). apply Forall_app in Hv as [_ Hv]. apply Forall_cons_iff in Hv as [Hv _].
  rewrite env_data_bytes_app in Hd. cbn [env_data_bytes] in Hd.
  pose proof Hall as [_ Hord _ Hdm]. rewrite Ha in Hord. apply last_key_order in Hord. destruct (env_Entry_valid_fits e Hv) as (_ & _ & _ & Hfit).
  destruct Hi as [Hi Ht Hpv]. pose proof Hi as [(es & Hp & Hes & Hix) Hb Hf Hop Hs]. pose proof (env_data_bytes_nonneg done). pose proof (env_data_nonneg e).
  pose proof (env_wire_bytes_nonneg (bt_entries b)). pose proof (len_nonneg (en_value e)). pose proof (len_nonneg (en_key e)).
  unfold batch_entry. rewrite Hpv, Hord. cbn [reject_if]. rewrite bind_is_ok.
  assert (∀ a c, a + c <= env_MAX_TOTAL_DATA_BYTES → checked_add_u64 a c = Some (a + c)) as Hu.
  { intros a c Hle. apply checked_add_u64_some. split; [done|]. unfold env_MAX_TOTAL_DATA_BYTES, U64_MAX in *. lia. }
  unfold env_data in Hd. rewrite Hu by lia. cbn [ok_or]. rewrite bind_is_ok, Hu by lia. cbn [ok_or]. rewrite bind_is_ok.
  destruct (Z.ltb_spec env_MAX_TOTAL_DATA_BYTES (bt_total b + len (en_key e) + len (en_value e))); [lia|]. cbn [reject_if]. rewrite bind_is_ok.
  rewrite (proj2 (env_Entry_encode_iff e _) (conj eq_refl Hv)). cbn [or_status]. rewrite bind_is_ok, len_env_Entry_bytes.
  cbn [bt_bytes].
  assert (∀ c, 8 <= c <= env_MAX_BATCH_BYTES → checked_add_u64 c (6 + env_data e) = Some (c + (6 + env_data e))) as Hu2.
  { intros c Hc. apply checked_add_u64_some. split; [done|]. unfold env_MAX_BATCH_BYTES, U64_MAX in *. lia. }
  rewrite Hu2 by lia. destruct (Z.ltb_spec env_MAX_BATCH_BYTES (bt_bytes b + (6 + env_data e))) as [Hbig|Hsmall].
  - assert (done ≠ []) as Hne.
    { intros ->. destruct es; [|done]. cbn in Hes. rewrite Hes in Hb. change (env_wire_bytes []) with 0 in Hb. lia. }
    assert (open_inv done (mkBatching (bt_total b + len (en_key e) + len (en_value e)) (Some (en_key e)) (bt_batches b) (bt_first_index b) (bt_entries b) (bt_bytes b)))
      as Hi' by (by destruct Hi).
    destruct (flush_ok done (e :: todo) _ Ha Hne Hi') as (b' & Hfl & Hbe & Hbb & Hbt & Hbp & Hbi & Hbs & Hbl). cbn [bt_total bt_previous] in *.
    rewrite Hfl, bind_is_ok, Hbb, Hu2 by (unfold env_MAX_BATCH_BYTES; lia). cbn [ok_or]. rewrite bind_is_ok. eexists. split; [reflexivity|].
    split; cbn [bt_total bt_previous]; [split; cbn [bt_batches bt_entries bt_first_index bt_bytes]|..].
    + exists done. by rewrite Hbe.
    + rewrite Hbe. cbn [app]. rewrite env_wire_bytes_cons. change (env_wire_bytes []) with 0. lia.
    + unfold env_data in *. lia.
    + intros _. by destruct (bt_entries b').
    + done.
    + rewrite Hbt, Ht, env_data_bytes_app. cbn [env_data_bytes]. unfold env_data. lia.
    + by rewrite Hbp, last_snoc.
  - rewrite bind_is_ok. cbn [bt_bytes bt_total bt_previous bt_batches bt_first_index bt_entries]. rewrite Hu2 by lia. cbn [ok_or]. rewrite bind_is_ok.
    eexists. split; [reflexivity|]. split; cbn [bt_total bt_previous]; [split; cbn [bt_batches bt_entries bt_first_index bt_bytes]|..].
    + exists es. split_and!; [done| |done]. by rewrite app_assoc, Hes.
    + rewrite env_wire_bytes_app, env_wire_bytes_cons. change (env_wire_bytes []) with 0. lia.
    + done.
    + intros _. by destruct (bt_entries b).
    + done.
    + rewrite Ht, env_data_bytes_app. cbn [env_data_bytes]. unfold env_data. lia.
    + by rewrite last_snoc.
Qed.

Lemma batching_ok done todo b :
  all = done ++ todo → batching_inv done b → ∃ b', try_fold batch_entry todo b = Ok b' ∧ batching_inv all b'.
Proof using Hall.
  revert done b. induction todo as [|e todo IH]; intros done b Ha Hi; cbn [try_fold].
  - rewrite app_nil_r in Ha. subst done. eauto.
  - destruct (batch_entry_ok _ _ _ _ Ha Hi) as (b' & -> & Hi'). rewrite bind_is_ok. apply (IH (done ++ [e])); [by rewrite <- app_assoc|done].
Qed.
End Sending.

(** A snapshot within the limits is sent, and is what the receiver assembles. *)
Lemma snapshot_sent all :
  all ≠ [] → snapshot_ok all →
  ∃ batches, encode_environment_batches all = Ok (len all, env_data_bytes all, batches)
    ∧ assemble_environment (len all) (env_data_bytes all) batches = Ok all
    ∧ Forall (λ i, len i <= env_MAX_BATCH_BYTES) batches.
Proof.
  intros Hne Hall. destruct (batching_ok all Hall [] all (mkBatching 0 None [] 0 [] 8)) as (b & Hf & Hi); [done| |].
  { split; [|done|done]. split; cbn; try done. by exists []. }
  destruct (bi_inv _ _ _ Hi) as [_ _ _ _ Hs].
  destruct (open_batch_sent all Hall all [] b) as (bs & He & Hl & Hp); [by rewrite app_nil_r|done|apply Hi|].
  pose proof Hall as [Hv _ Hc Hd]. pose proof (len_nonneg all). exists (bt_batches b ++ [bs]). split_and!.
  - unfold encode_environment_batches. destruct (is_nil all) eqn:En; [by destruct all|].
    destruct (Z.ltb_spec env_MAX_ENTRIES (len all)); [lia|]. cbn [orb reject_if]. rewrite bind_is_ok, Hf, bind_is_ok, He. cbn [or_status]. rewrite bind_is_ok.
    unfold try_u32, U32_MAX, env_MAX_ENTRIES in *. destruct (Z.leb_spec (len all) 4294967295); [|lia]. cbn [ok_or]. rewrite bind_is_ok.
    by rewrite (bi_total _ _ _ Hi).
  - unfold assemble_environment, SnapshotAssembler_new.
    assert (0 < len all) by (destruct all; [done|rewrite len_cons; pose proof (len_nonneg all); lia]).
    assert (0 < env_data_bytes all).
    { destruct all as [|e all]; [done|]. apply Forall_cons_iff in Hv as [Hv _]. destruct (env_Entry_valid_fits e Hv) as (_ & _ & ? & _).
      cbn [env_data_bytes]. pose proof (env_data_bytes_nonneg all). unfold env_data. pose proof (len_nonneg (en_value e)). lia. }
    rewrite !reject_if_false by lia. rewrite !bind_is_ok. change (mkAssembler _ _ [] 0) with (receiver all []). rewrite Hp, bind_is_ok.
    unfold SnapshotAssembler_finish. cbn [receiver sa_entries sa_expected_entry_count sa_total_data_bytes sa_expected_total_data_bytes].
    by rewrite reject_if_false by lia.
  - apply Forall_app. split; [done|]. by constructor.
Qed.

(** What the sender has checked of [done]. *)
Definition checked_inv (done : list env_Entry) (b : Batching) : Prop :=
  Forall (λ e, env_Entry_validate e = Ok ()) done ∧ env_ordered None done = true
  ∧ bt_previous b = match last done with Some e => Some (en_key e) | None => None end
  ∧ bt_total b = env_data_bytes done ∧ env_data_bytes done <= env_MAX_TOTAL_DATA_BYTES.

Lemma flush_keeps b b' : flush_batch b = Ok b' → bt_total b' = bt_total b ∧ bt_previous b' = bt_previous b.
Proof. unfold flush_batch. intros H. inv_ok. by subst. Qed.

Lemma batch_entry_checked done e b b' : checked_inv done b → batch_entry e b = Ok b' → checked_inv (done ++ [e]) b'.
Proof.
  intros (Hv & Ho & Hp & Ht & Hd) H. unfold batch_entry in H. inv_ok.
  repeat match goal with H : checked_add_u64 _ _ = Some _ |- _ => apply checked_add_u64_some in H as [-> ?] end.
  destruct (encode e) as [bs|] eqn:He; [|done]. apply env_Entry_encode_iff in He as [-> He].
  assert (bt_total v4 = bt_total b + len (en_key e) + len (en_value e) ∧ bt_previous v4 = Some (en_key e)) as [Et Ep].
  { split_match Hv5; [by destruct (flush_keeps _ _ Hv5)|..]; by inv_ok; subst. }
  unfold checked_inv. cbn [bt_previous bt_total]. rewrite last_snoc, env_data_bytes_app, env_ordered_app, Ho. cbn [env_ordered env_data_bytes andb]. unfold env_data.
  rewrite <- Hp, Hv0, Et, Ht in *. split_and!; try done; try lia. apply Forall_app. split; [done|]. by constructor.
Qed.

Lemma batching_checked done todo b b' : checked_inv done b → try_fold batch_entry todo b = Ok b' → checked_inv (done ++ todo) b'.
Proof.
  revert done b. induction todo as [|e todo IH]; intros done b Hi H; cbn [try_fold] in H.
  - apply Ok_inj in H as <-. by rewrite app_nil_r.
  - apply bind_ok in H as (b1 & H1 & H). replace (done ++ e :: todo) with ((done ++ [e]) ++ todo) by (by rewrite <- app_assoc).
    eapply IH; [by eapply batch_entry_checked|done].
Qed.

Lemma sent_snapshot_ok all r : encode_environment_batches all = Ok r → all ≠ [] ∧ snapshot_ok all.
Proof.
  unfold encode_environment_batches. intros H. inv_ok. apply orb_false_iff in Hv as [Hn%is_nil_false Hc].
  apply (batching_checked [] all) in Hv0 as (? & ? & _ & _ & ?); [|by split_and!]. split; [done|]. by split; [..|lia|].
Qed.

(** ** The assembler against any sender *)

(** What an assembler holds after any pushes, refused ones included: a refused
    batch can only have raised its byte count past what is expected. *)
Definition assembler_inv (s : SnapshotAssembler) : Prop :=
  Forall (λ e, env_Entry_validate e = Ok ()) (sa_entries s) ∧ env_ordered None (sa_entries s) = true
  ∧ (sa_total_data_bytes s = env_data_bytes (sa_entries s) ∨ sa_expected_total_data_bytes s < sa_total_data_bytes s)
  ∧ 0 < sa_expected_entry_count s <= env_MAX_ENTRIES ∧ sa_expected_total_data_bytes s <= env_MAX_TOTAL_DATA_BYTES.

Lemma push_bytes_spec expected total es :
  Forall (λ e, env_Entry_validate e = Ok ()) es → expected <= env_MAX_TOTAL_DATA_BYTES →
  match push_bytes expected total es with
  | (t, Ok _) => t = total + env_data_bytes es
  | (t, Err _) => expected < t
  end.
Proof.
  intros Hv Hm. revert total. induction Hv as [|e es He _ IH]; intros total; cbn [push_bytes env_data_bytes]; [lia|].
  destruct (env_Entry_valid_fits e He) as (_ & _ & _ & Hf). fold (env_data e). unfold env_MAX_BATCH_BYTES, env_MAX_TOTAL_DATA_BYTES in *.
  destruct (checked_add_u64 total (env_data e)) as [t|] eqn:Ec.
  - apply checked_add_u64_some in Ec as [-> _]. destruct (Z.ltb_spec expected (total + env_data e)); [done|].
    specialize (IH (total + env_data e)). destruct (push_bytes _ _ es) as [t [[]|]]; lia.
  - unfold checked_add_u64 in Ec. split_match Ec. unfold U64_MAX in *. lia.
Qed.

Lemma push_checks_inv s batch :
  push_checks s batch = Ok () → 0 <= sb_first_index batch →
  valid_batch batch ∧ sb_first_index batch = len (sa_entries s) ∧ len (sa_entries s) + len (sb_entries batch) <= sa_expected_entry_count s
  ∧ (env_ordered None (sa_entries s) = true → env_ordered None (sa_entries s ++ sb_entries batch) = true).
Proof.
  unfold push_checks. intros H H0. apply bind_ok in H as ([] & Hv & H).
  apply SnapshotBatch_validate_ok in Hv; [|done]. pose proof Hv as [Hn ? ? ? Hob ? ?]. inv_ok.
  match goal with H : checked_add_u64 _ _ = Some _ |- _ => apply checked_add_u64_some in H as [-> _] end. split_and!; [done|lia|lia|]. intros Ho. rewrite env_ordered_app, Ho. cbn [andb].
  destruct (last (sa_entries s)) as [e|]; [|done]. destruct (sb_entries batch) as [|e' es]; [done|]. cbn [head] in H. apply reject_if_ok in H.
  cbn [env_ordered not_before negb andb] in Hob |- *. by rewrite H.
Qed.

Lemma push_assembler_inv s batch : 0 <= sb_first_index batch → assembler_inv s → assembler_inv (SnapshotAssembler_push s batch).1.
Proof.
  intros H0 Hinv. pose proof Hinv as (Hv & Ho & Ht & He & Hm). unfold SnapshotAssembler_push.
  destruct (push_checks s batch) as [[]|] eqn:Ec; [|exact Hinv].
  destruct (push_checks_inv _ _ Ec H0) as ([? ? ? Hve ? ? ?] & _ & Hc & Hord).
  pose proof (push_bytes_spec (sa_expected_total_data_bytes s) (sa_total_data_bytes s) (sb_entries batch) Hve Hm) as Hp.
  pose proof (env_data_bytes_nonneg (sb_entries batch)).
  destruct (push_bytes _ _ _) as [t [[]|]]; unfold assembler_inv; cbn; split_and!; try done; try lia; try (by right).
  - apply Forall_app. done.
  - by apply Hord.
  - rewrite env_data_bytes_app. lia.
Qed.

(** Pushes whose results are ignored. *)
Definition push_all (s : SnapshotAssembler) (batches : list SnapshotBatch) : SnapshotAssembler :=
  fold_left (λ s b, (SnapshotAssembler_push s b).1) batches s.

Lemma push_keeps_expected s b :
  sa_expected_entry_count (SnapshotAssembler_push s b).1 = sa_expected_entry_count s
  ∧ sa_expected_total_data_bytes (SnapshotAssembler_push s b).1 = sa_expected_total_data_bytes s.
Proof. unfold SnapshotAssembler_push. destruct (push_checks s b); [|done]. by destruct (push_bytes _ _ _) as [t []]. Qed.

Lemma push_all_inv batches s :
  Forall (λ b, is_u32 (sb_first_index b)) batches → assembler_inv s →
  assembler_inv (push_all s batches) ∧ sa_expected_entry_count (push_all s batches) = sa_expected_entry_count s
  ∧ sa_expected_total_data_bytes (push_all s batches) = sa_expected_total_data_bytes s.
Proof.
  intros Hb. revert s. induction Hb as [|b batches Hb _ IH]; intros s Hs; [done|]. cbn [push_all fold_left].
  destruct (push_keeps_expected s b) as [<- <-]. apply IH. apply push_assembler_inv; [lia|done].
Qed.

(** ** What the snapshot is for *)

(** C20: The sender of an environment accepts exactly the environments that are
    not empty, have valid entries in strictly ascending key order and are within
    the entry and byte limits; whatever it sends, batch by batch and encoded,
    the receiver decodes and assembles to the same entries, and every batch is
    within the batch limit. *)
Theorem environment_snapshot_delivered all :
  ((∃ r, encode_environment_batches all = Ok r) ↔ all ≠ [] ∧ snapshot_ok all)
  ∧ (∀ n t batches, encode_environment_batches all = Ok (n, t, batches) →
       n = len all ∧ t = env_data_bytes all ∧ assemble_environment n t batches = Ok all
       ∧ Forall (λ i, len i <= env_MAX_BATCH_BYTES) batches).
Proof.
  split; [split|].
  - intros [r H]. by eapply sent_snapshot_ok.
  - intros [Hne Hok]. destruct (snapshot_sent all Hne Hok) as (batches & H & _). eauto.
  - intros n t batches H. destruct (sent_snapshot_ok _ _ H) as [Hne Hok]. destruct (snapshot_sent all Hne Hok) as (batches' & H' & Ha & Hl).
    rewrite H' in H. apply Ok_inj in H. by injection H as <- <- <-.
Qed.

(** C37: However its batches come, refused ones included and their errors
    ignored, an assembler that finishes returns valid entries in strictly
    ascending key order, as many and with as many bytes as were announced, both
    within the limits: a refused batch never leaves a partial snapshot that
    passes for a whole one. *)
Theorem assembler_returns_whole_snapshots n t s batches es :
  is_u32 n → is_u64 t → SnapshotAssembler_new n t = Ok s → Forall (λ b, is_u32 (sb_first_index b)) batches →
  SnapshotAssembler_finish (push_all s batches) = Ok es →
  Forall (λ e, env_Entry_validate e = Ok ()) es ∧ env_ordered None es = true ∧ len es = n ∧ env_data_bytes es = t
  ∧ 0 < n <= env_MAX_ENTRIES ∧ 0 < t <= env_MAX_TOTAL_DATA_BYTES.
Proof.
  intros Hn Ht Hs Hb Hf. unfold SnapshotAssembler_new in Hs. inv_ok.
  destruct (push_all_inv batches (mkAssembler n t [] 0)) as ((He & Ho & Hd & _ & _) & En & Et); [done|by split_and!; cbn; try done; try lia; left|].
  unfold SnapshotAssembler_finish in Hf. inv_ok. rewrite En, Et in *. cbn [sa_expected_entry_count sa_expected_total_data_bytes] in *.
  split_and!; try done; lia.
Qed.

Lemma assembler_returns_whole_snapshots_witness :
  ∃ es, Forall (λ e, env_Entry_validate e = Ok ()) es ∧ env_ordered None es = true ∧ len es = 2 ∧ env_data_bytes es = 5.
Proof.
  exists [mkEnvEntry [Byte.x41] [Byte.x31]; mkEnvEntry [Byte.x42] [Byte.x32; Byte.x33]].
  destruct (assembler_returns_whole_snapshots 2 5 (mkAssembler 2 5 [] 0)
    [mkSnapshotBatch 0 [mkEnvEntry [Byte.x41] [Byte.x31]];
     mkSnapshotBatch 0 [mkEnvEntry [Byte.x42] [Byte.x32; Byte.x33]];
     mkSnapshotBatch 1 [mkEnvEntry [Byte.x42] [Byte.x32; Byte.x33]]]
    [mkEnvEntry [Byte.x41] [Byte.x31]; mkEnvEntry [Byte.x42] [Byte.x32; Byte.x33]]) as (He & Ho & Hl & Hd & _).
  - lia.
  - lia.
  - by vm_compute.
  - repeat (constructor; [cbn; lia|]). constructor.
  - by vm_compute.
  - done.
Defined.
