(* ===== verification/Forwarder.v ===== *)
(** * Forwarder: whom the WebRTC forwarder serves, and what it passes on
      ([crates/webrtc-forwarder/src/admission.rs], [dtls_dedupe.rs],
       [open_sealed] and the event loop of [lib.rs], [open_sealed_data] of [signaling.rs])

    The producer of a share learns of consumers from a signaling server it does
    not trust. A consumer that has announced itself is [pending] for ten
    seconds; a peer task is started for an offer that one of the two consumer
    keys sealed. Base64, JSON, the sealed box, UUIDs and SDP are parameters. *)

From S2P Require Import Prelude.

Inductive Access := AccessReadWrite | AccessReadOnly.
#[global] Instance Access_eq_dec : EqDecision Access.
Proof. solve_decision. Defined.

Definition MAX_PENDING_PEERS : nat := 64.
Definition MAX_SIGNAL_PEERS : nat := 64.
Definition SIGNAL_PER_PEER_QUEUE : nat := 64.
(** [Duration::from_secs(10)], in nanoseconds *)
Definition OFFER_TIMEOUT : Z := 10000000000.

Section Admission.
(** [serde_json], [base64], [crypto_box], [uuid] and [str0m]. *)
Context {Json Sdp SecretKey PublicKey : Type}.
Context (json_get : Json → string → option Json) (json_as_str : Json → option string) (from_slice : list byte → option Json).
Context (base64_decode : string → option (list byte)).
Context (salsa_decrypt : PublicKey → SecretKey → list byte → list byte → option (list byte)).
Context (parse_uuid : string → bool) (sdp_from_value : Json → option Sdp).

(** ** Keys *)

Record BoxKeys := mkBoxKeys { bk_our_secret : SecretKey; bk_their_public : PublicKey }.
Record ProducerKeys := mkProducerKeys { pk_our_secret : SecretKey; pk_consumer_rw : PublicKey; pk_consumer_ro : PublicKey }.

Definition open_sealed_data (data : Json) (box_keys : BoxKeys) : option Json :=
  sealed_b64 ← json_get data "box" ≫= json_as_str;
  sealed ← base64_decode sealed_b64;
  if (length sealed <? 24)%nat then None else
  let nonce := take 24 sealed in
  let ciphertext := drop 24 sealed in
  plaintext ← salsa_decrypt (bk_their_public box_keys) (bk_our_secret box_keys) nonce ciphertext;
  from_slice plaintext.

Definition box_keys_for (keys : ProducerKeys) (access : Access) : BoxKeys :=
  mkBoxKeys (pk_our_secret keys) (match access with AccessReadWrite => pk_consumer_rw keys | AccessReadOnly => pk_consumer_ro keys end).

Definition open_sealed (keys : ProducerKeys) (data : Json) : option (Json * Access) :=
  let box_rw := mkBoxKeys (pk_our_secret keys) (pk_consumer_rw keys) in
  match open_sealed_data data box_rw with
  | Some v => Some (v, AccessReadWrite)
  | None =>
      let box_ro := mkBoxKeys (pk_our_secret keys) (pk_consumer_ro keys) in
      match open_sealed_data data box_ro with
      | Some v => Some (v, AccessReadOnly)
      | None => None
      end
  end.

(** ** Peers *)

Record AuthenticatedOffer := mkOffer { ao_sdp : Sdp; ao_access : Access }.

(** [handle] is whether the task runs; [signal_tx] holds what is queued;
    [receiving] is whether the task still has the other end; [established] is
    set by the task. *)
Record PeerState := mkPeerState {
  ps_running : bool; ps_signal_tx : option (list Json); ps_receiving : bool; ps_established : bool; ps_access : Access
}.

Record Peers := mkPeers { pe_active : gmap string PeerState; pe_pending : gmap string Z }.
Definition Peers_default : Peers := mkPeers ∅ ∅.

(** [tx.try_send(data)] on a channel of [SIGNAL_PER_PEER_QUEUE]: what is queued
    after it, or the error. *)
Definition peer_try_send (queue : list Json) (receiving : bool) (data : Json) : option (list Json) :=
  if negb receiving then None
  else if (SIGNAL_PER_PEER_QUEUE <=? length queue)%nat then None
  else Some (queue ++ [data]).

Definition expire (now : Z) (p : Peers) : Peers :=
  mkPeers (filter (λ kv, ps_running kv.2 = true) (pe_active p)) (filter (λ kv, now < kv.2) (pe_pending p)).

Definition deadline (p : Peers) : option Z :=
  map_fold (λ _ d acc, Some (match acc with Some m => Z.min d m | None => d end)) None (pe_pending p).

Definition joined (now : Z) (session_id : string) (p : Peers) : Peers :=
  if negb (parse_uuid session_id) || bool_decide (is_Some (pe_active p !! session_id)) || (MAX_PENDING_PEERS <=? size (pe_pending p))%nat then p
  else match pe_pending p !! session_id with
       | Some _ => p
       | None => mkPeers (pe_active p) (<[session_id := now + OFFER_TIMEOUT]> (pe_pending p))
       end.

Definition left_peer (session_id : string) (p : Peers) : Peers :=
  let pending := delete session_id (pe_pending p) in
  match pe_active p !! session_id with
  | Some state =>
      if ps_established state
      then mkPeers (<[session_id := mkPeerState (ps_running state) None (ps_receiving state) (ps_established state) (ps_access state)]> (pe_active p)) pending
      else mkPeers (delete session_id (pe_active p)) pending
  | None => mkPeers (pe_active p) pending
  end.

(** The closure [run] passes as [start]: a task for the offer, with a queue of its own. *)
Definition start_peer (offer : AuthenticatedOffer) : PeerState := mkPeerState true (Some []) true false (ao_access offer).

(** The end of [signal]: an opened message that is not for a running peer. *)
Definition signal_offer (from : string) (data : Json) (access : Access) (p : Peers) : Peers * option AuthenticatedOffer :=
  match json_get data "sdp" ≫= sdp_from_value with
  | None => (p, None)
  | Some sdp =>
      if negb (bool_decide (is_Some (pe_active p !! from))) && (MAX_SIGNAL_PEERS <=? size (pe_active p))%nat then (p, None)
      else let offer := mkOffer sdp access in
           (mkPeers (<[from := start_peer offer]> (delete from (pe_active p))) (delete from (pe_pending p)), Some offer)
  end.

(** [signal], with the offer a task is started for. *)
Definition signal (keys : ProducerKeys) (from : string) (raw : Json) (p : Peers) : Peers * option AuthenticatedOffer :=
  if negb (parse_uuid from) then (p, None) else
  match open_sealed keys raw with
  | None => (p, None)
  | Some (data, access) =>
      match pe_active p !! from with
      | Some state =>
          if negb (bool_decide (access = ps_access state)) then (p, None)
          else if negb (match json_get data "sdp" with Some _ => negb (ps_established state) | None => false end) then
            match ps_signal_tx state with
            | Some queue =>
                match peer_try_send queue (ps_receiving state) data with
                | Some queue =>
                    (mkPeers (<[from := mkPeerState (ps_running state) (Some queue) (ps_receiving state) (ps_established state) (ps_access state)]> (pe_active p))
                       (pe_pending p), None)
                | None => (mkPeers (delete from (pe_active p)) (pe_pending p), None)
                end
            | None => (p, None)
            end
          else signal_offer from data access p
      | None => signal_offer from data access p
      end
  end.

(** ** The event loop *)

Inductive SignalingEvent :=
  | EvRegistered (session_id : string)
  | EvPeerJoined (session_id : string)
  | EvPeerLeft (session_id : string)
  | EvSignal (from : string) (data : Json)
  | EvError (message : string).

(** What a peer's task does to its own entry. *)
Inductive TaskStep := TaskEstablished | TaskReceived | TaskClosed | TaskFinished.
Definition task_step (t : TaskStep) (s : PeerState) : PeerState :=
  match t with
  | TaskEstablished => mkPeerState (ps_running s) (ps_signal_tx s) (ps_receiving s) true (ps_access s)
  | TaskReceived => mkPeerState (ps_running s) (tail <$> ps_signal_tx s) (ps_receiving s) (ps_established s) (ps_access s)
  | TaskClosed => mkPeerState (ps_running s) (ps_signal_tx s) false (ps_established s) (ps_access s)
  | TaskFinished => mkPeerState false (ps_signal_tx s) false (ps_established s) (ps_access s)
  end.

Definition task_act (t : string * TaskStep) (p : Peers) : Peers := mkPeers (alter (task_step t.2) t.1 (pe_active p)) (pe_pending p).

(** One turn of the loop of [run] that takes an event: it begins with [expire], at
    [began]; [waited] is what the peers' tasks do during the wait of [select!], and
    the event is handled at [now], with the peers as they then are. The result is
    the peers after it, and whom a task was started for. *)
Definition turn_peers (began : Z) (waited : list (string * TaskStep)) (p : Peers) : Peers :=
  fold_left (λ p t, task_act t p) waited (expire began p).

Definition run_turn (keys : ProducerKeys) (began : Z) (waited : list (string * TaskStep)) (now : Z) (event : SignalingEvent) (p : Peers) :
    Peers * list (string * AuthenticatedOffer) :=
  let p := turn_peers began waited p in
  match event with
  | EvRegistered _ | EvError _ => (p, [])
  | EvPeerJoined session_id => (joined now session_id p, [])
  | EvPeerLeft session_id => (left_peer session_id p, [])
  | EvSignal from data =>
      let '(p, started) := signal keys from data p in
      (p, match started with Some offer => [(from, offer)] | None => [] end)
  end.

(** A turn that takes an event, one that ends with the next deadline, or what a task
    does between turns. *)
Inductive Action :=
  | Turn (began : Z) (waited : list (string * TaskStep)) (now : Z) (event : SignalingEvent)
  | Wake (began : Z)
  | Task (session_id : string) (t : TaskStep).

Definition act (keys : ProducerKeys) (a : Action) (p : Peers) : Peers * list (string * AuthenticatedOffer) :=
  match a with
  | Turn began waited now event => run_turn keys began waited now event p
  | Wake began => (expire began p, [])
  | Task session_id t => (task_act (session_id, t) p, [])
  end.

(** The peers, and every task started, after the actions. *)
Definition run_actions (keys : ProducerKeys) (acts : list Action) : Peers * list (string * AuthenticatedOffer) :=
  fold_left (λ s a, let '(p, started) := act keys a s.1 in (p, s.2 ++ started)) acts (Peers_default, []).

(** ** Who gets in *)

(** [event] was handled at [now]. *)
Definition handled (acts : list Action) (now : Z) (event : SignalingEvent) : Prop := ∃ began waited, Turn began waited now event ∈ acts.

(** [data] came in [acts] from [session_id], sealed with the key for [access]. *)
Definition authentic (keys : ProducerKeys) (acts : list Action) (session_id : string) (data : Json) (access : Access) : Prop :=
  ∃ now raw, handled acts now (EvSignal session_id raw) ∧ open_sealed_data raw (box_keys_for keys access) = Some data.

Record admission_inv (keys : ProducerKeys) (acts : list Action) (p : Peers) (started : list (string * AuthenticatedOffer)) : Prop := {
  ai_pending : (size (pe_pending p) <= MAX_PENDING_PEERS)%nat;
  ai_active : (size (pe_active p) <= MAX_SIGNAL_PEERS)%nat;
  ai_disjoint : ∀ id, is_Some (pe_active p !! id) → pe_pending p !! id = None;
  ai_deadline : ∀ id d, pe_pending p !! id = Some d →
    parse_uuid id = true ∧ ∃ now, handled acts now (EvPeerJoined id) ∧ d = now + OFFER_TIMEOUT;
  ai_started : ∀ id offer, (id, offer) ∈ started →
    parse_uuid id = true ∧ ∃ data, authentic keys acts id data (ao_access offer) ∧ json_get data "sdp" ≫= sdp_from_value = Some (ao_sdp offer);
  ai_peer : ∀ id st, pe_active p !! id = Some st → ∃ sdp, (id, mkOffer sdp (ps_access st)) ∈ started;
  ai_queue : ∀ id st q, pe_active p !! id = Some st → ps_signal_tx st = Some q →
    (length q <= SIGNAL_PER_PEER_QUEUE)%nat ∧ Forall (λ data, authentic keys acts id data (ps_access st)) q
}.

Lemma open_sealed_key keys raw data access :
  open_sealed keys raw = Some (data, access) → open_sealed_data raw (box_keys_for keys access) = Some data.
Proof.
  unfold open_sealed. intros H. destruct (open_sealed_data raw (mkBoxKeys _ (pk_consumer_rw keys))) eqn:E1; [by simplify_eq|].
  destruct (open_sealed_data raw (mkBoxKeys _ (pk_consumer_ro keys))) eqn:E2; by simplify_eq.
Qed.

Lemma handled_more acts a now event : handled acts now event → handled (acts ++ [a]) now event.
Proof. intros (began & waited & Hin). exists began, waited. apply elem_of_app. by left. Qed.

Lemma authentic_more keys acts a id data access : authentic keys acts id data access → authentic keys (acts ++ [a]) id data access.
Proof. intros (now & raw & Hin & Ho). exists now, raw. split; [by apply handled_more|done]. Qed.

Lemma admission_more keys acts a p started : admission_inv keys acts p started → admission_inv keys (acts ++ [a]) p started.
Proof.
  intros [? ? ? Hd Hs ? Hq]. split; try done.
  - intros id d H. destruct (Hd id d H) as (? & now & Hin & ->). split; [done|]. exists now. split; [by apply handled_more|done].
  - intros id offer H. destruct (Hs id offer H) as (? & data & Ha & ?). split; [done|]. exists data. split; [by apply authentic_more|done].
  - intros id st q H1 H2. destruct (Hq id st q H1 H2) as [? Hf]. split; [done|]. eapply List.Forall_impl; [|exact Hf]. intros. by apply authentic_more.
Qed.

Lemma expire_admission keys acts now p started : admission_inv keys acts p started → admission_inv keys acts (expire now p) started.
Proof.
  intros [? ? Hx Hd Hs Hp Hq]. split; cbn [expire pe_active pe_pending]; try done.
  - etrans; [apply map_size_filter|done].
  - etrans; [apply map_size_filter|done].
  - intros id [st [Ha _]%map_lookup_filter_Some]. apply map_lookup_filter_None. left. apply Hx. eauto.
  - intros id d [H _]%map_lookup_filter_Some. eauto.
  - intros id st [H _]%map_lookup_filter_Some. eauto.
  - intros id st q [H _]%map_lookup_filter_Some. eauto.
Qed.

Lemma joined_inv keys acts now id p started :
  handled acts now (EvPeerJoined id) → admission_inv keys acts p started → admission_inv keys acts (joined now id p) started.
Proof.
  intros Hin Hi. unfold joined. destruct (_ || _) eqn:Hc; [done|]. apply orb_false_iff in Hc as [[Hu Hn]%orb_false_iff Hl].
  destruct (pe_pending p !! id) eqn:Hid; [done|]. destruct Hi as [? ? Hx Hd Hs Hp Hq]. split; cbn [pe_active pe_pending]; try done.
  - rewrite map_size_insert_None by done. apply Nat.leb_gt in Hl. lia.
  - intros id' Ha. rewrite lookup_insert_ne; [by apply Hx|]. intros <-. by rewrite bool_decide_eq_false in Hn.
  - intros id' d [[<- <-]|[? H]]%lookup_insert_Some; [|by apply Hd]. split; [by destruct (parse_uuid id)|]. eauto.
Qed.

(** Forgetting a presence, or a peer, or changing a peer within its access. *)
Lemma admission_shrink keys acts p started (active : gmap string PeerState) (pending : gmap string Z) :
  admission_inv keys acts p started → pending ⊆ pe_pending p →
  (∀ id st, active !! id = Some st → ∃ st0, pe_active p !! id = Some st0 ∧ ps_access st = ps_access st0 ∧
    ∀ q, ps_signal_tx st = Some q → (length q <= SIGNAL_PER_PEER_QUEUE)%nat ∧ Forall (λ data, authentic keys acts id data (ps_access st)) q) →
  admission_inv keys acts (mkPeers active pending) started.
Proof.
  intros [? ? Hx Hd Hs Hp Hq] Hsub Ha. split; cbn [pe_active pe_pending]; try done.
  - etrans; [|exact ai_pending0]. rewrite <- !size_dom. by apply subseteq_size, subseteq_dom.
  - etrans; [|done]. rewrite <- !size_dom. apply subseteq_size. intros id. rewrite !elem_of_dom. intros [st H].
    destruct (Ha id st H) as (st0 & ? & _). eauto.
  - intros id [st H]. destruct (Ha id st H) as (st0 & H0 & _). eapply lookup_weaken_None; [|exact Hsub]. apply Hx. eauto.
  - intros id d H. apply Hd. by eapply lookup_weaken.
  - intros id st H. destruct (Ha id st H) as (st0 & H0 & -> & _). eauto.
  - intros id st q H E. destruct (Ha id st H) as (st0 & H0 & _ & Hq'). by apply Hq'.
Qed.

Lemma queue_kept keys acts p started id st :
  admission_inv keys acts p started → pe_active p !! id = Some st →
  ∀ q, ps_signal_tx st = Some q → (length q <= SIGNAL_PER_PEER_QUEUE)%nat ∧ Forall (λ data, authentic keys acts id data (ps_access st)) q.
Proof. intros Hi H q. by apply (ai_queue _ _ _ _ Hi). Qed.

Lemma left_inv keys acts id p started : admission_inv keys acts p started → admission_inv keys acts (left_peer id p) started.
Proof.
  intros Hi. unfold left_peer. destruct (pe_active p !! id) as [st|] eqn:Hid; [destruct (ps_established st)|].
  all: apply (admission_shrink _ _ p); [done|apply delete_subseteq|].
  - intros id' st' [[<- <-]|[Hne H]]%lookup_insert_Some; [by exists st|]. exists st'. split_and!; [done|done|by apply (queue_kept _ _ _ _ _ _ Hi)].
  - intros id' st' [Hne H]%lookup_delete_Some. exists st'. split_and!; [done|done|by apply (queue_kept _ _ _ _ _ _ Hi)].
  - intros id' st' H. exists st'. split_and!; [done|done|by apply (queue_kept _ _ _ _ _ _ Hi)].
Qed.

Lemma task_inv keys acts task p started : admission_inv keys acts p started → admission_inv keys acts (task_act task p) started.
Proof.
  destruct task as [id t]. unfold task_act. cbn [fst snd]. intros Hi. apply (admission_shrink _ _ p); [done|done|]. intros id' st'. destruct (decide (id = id')) as [<-|Hne].
  - rewrite lookup_alter_eq. intros (st & H & ->)%fmap_Some. pose proof (queue_kept _ _ _ _ _ _ Hi H) as Hq. exists st. split; [done|].
    split; [by destruct t|]. destruct t; cbn; try done. intros q (q0 & E & ->)%fmap_Some. destruct (Hq q0 E) as [Hl Hf].
    split; [destruct q0; cbn in *; lia|]. destruct q0; [done|]. by apply Forall_cons_iff in Hf as [_ ?].
  - rewrite lookup_alter_ne by done. intros H. exists st'. split_and!; [done|done|by apply (queue_kept _ _ _ _ _ _ Hi)].
Qed.

Lemma turn_peers_inv keys acts began waited p started :
  admission_inv keys acts p started → admission_inv keys acts (turn_peers began waited p) started.
Proof.
  intros Hi%(expire_admission _ _ began). unfold turn_peers. revert Hi. generalize (expire began p).
  induction waited as [|t waited IH]; intros q Hq; [done|]. by apply IH, task_inv.
Qed.

Lemma signal_offer_inv keys acts from data access p p' r started :
  parse_uuid from = true → authentic keys acts from data access → admission_inv keys acts p started →
  signal_offer from data access p = (p', r) →
  admission_inv keys acts p' (started ++ match r with Some offer => [(from, offer)] | None => [] end).
Proof.
  intros Hu Ha Hi. unfold signal_offer. destruct (json_get data "sdp" ≫= sdp_from_value) as [sdp|] eqn:Hs; [|intros [= <- <-]; by rewrite app_nil_r].
  destruct (negb _ && _) eqn:Hc; [intros [= <- <-]; by rewrite app_nil_r|]. intros [= <- <-].
  destruct Hi as [? Hna Hx Hd Hst Hp Hq]. split; cbn [pe_active pe_pending].
  - etrans; [|exact ai_pending0]. rewrite map_size_delete. destruct (pe_pending p !! from); [apply Nat.le_pred_l|done].
  - rewrite map_size_insert_None by apply lookup_delete_eq. rewrite map_size_delete. apply andb_false_iff in Hc as [Hc|Hc].
    + rewrite negb_false_iff, bool_decide_eq_true in Hc. destruct Hc as [st Hc]. rewrite Hc.
      assert (size (pe_active p) ≠ 0%nat) by (intros E%map_size_empty_inv; rewrite E in Hc; done). lia.
    + apply Nat.leb_gt in Hc. destruct (pe_active p !! from); unfold id; lia.
  - intros id [st [[<- _]|[Hne [_ H]%lookup_delete_Some]]%lookup_insert_Some]; [by rewrite lookup_delete_eq|].
    rewrite lookup_delete_ne by done. apply Hx. eauto.
  - intros id d [_ H]%lookup_delete_Some. by apply Hd.
  - intros id offer [H|H]%elem_of_app; [by apply Hst|]. apply list_elem_of_singleton in H. injection H as -> ->. split; [done|]. by exists data.
  - intros id st [[<- <-]|[Hne [_ H]%lookup_delete_Some]]%lookup_insert_Some.
    + exists sdp. apply elem_of_app. right. by left.
    + destruct (Hp id st H) as [sdp' ?]. exists sdp'. apply elem_of_app. by left.
  - intros id st q [[<- <-]|[Hne [_ H]%lookup_delete_Some]]%lookup_insert_Some E; [|by apply Hq].
    injection E as <-. split; [cbn; lia|constructor].
Qed.

Lemma signal_inv keys acts now from raw p p' r started :
  handled acts now (EvSignal from raw) → admission_inv keys acts p started → signal keys from raw p = (p', r) →
  admission_inv keys acts p' (started ++ match r with Some offer => [(from, offer)] | None => [] end).
Proof.
  intros Hin Hi. unfold signal. destruct (parse_uuid from) eqn:Hu; cbn [negb]; [|intros [= <- <-]; by rewrite app_nil_r].
  destruct (open_sealed keys raw) as [[data access]|] eqn:Ho; [|intros [= <- <-]; by rewrite app_nil_r].
  assert (authentic keys acts from data access) as Ha by (exists now, raw; split; [done|by apply open_sealed_key]).
  destruct (pe_active p !! from) as [st|] eqn:Hst; [|by apply signal_offer_inv].
  destruct (bool_decide (access = ps_access st)) eqn:Hac; cbn [negb]; [|intros [= <- <-]; by rewrite app_nil_r].
  apply bool_decide_eq_true in Hac. destruct (negb _); [|by apply signal_offer_inv].
  destruct (ps_signal_tx st) as [q|] eqn:Hq; [|intros [= <- <-]; by rewrite app_nil_r].
  pose proof (queue_kept _ _ _ _ _ _ Hi Hst q Hq) as [Hl Hf].
  destruct (peer_try_send q (ps_receiving st) data) as [q'|] eqn:Ht; intros [= <- <-]; rewrite app_nil_r; apply (admission_shrink _ _ p); try done.
  - intros id' st' [[<- <-]|[Hne H]]%lookup_insert_Some.
    + exists st. split_and!; [done|done|]. cbn. intros q0 [= <-]. unfold peer_try_send in Ht. destruct (negb _); [done|].
      destruct (SIGNAL_PER_PEER_QUEUE <=? length q)%nat eqn:Hfull; [done|]. apply Nat.leb_gt in Hfull. injection Ht as <-.
      rewrite length_app. cbn [length]. split; [lia|]. apply Forall_app. split; [done|]. constructor; [by rewrite <- Hac|constructor].
    + exists st'. split_and!; [done|done|by apply (queue_kept _ _ _ _ _ _ Hi)].
  - intros id' st' [Hne H]%lookup_delete_Some. exists st'. split_and!; [done|done|by apply (queue_kept _ _ _ _ _ _ Hi)].
Qed.

Lemma act_inv keys acts a p p' r started :
  admission_inv keys acts p started → act keys a p = (p', r) → admission_inv keys (acts ++ [a]) p' (started ++ r).
Proof.
  intros Hi%(admission_more _ _ a). destruct a as [began waited now ev|began|id t]; cbn [act].
  - assert (handled (acts ++ [Turn began waited now ev]) now ev) as Hin by (exists began, waited; apply elem_of_app; right; by left).
    apply (turn_peers_inv _ _ began waited) in Hi. unfold run_turn. destruct ev as [|id|id|from raw|]; try (intros [= <- <-]; rewrite app_nil_r; done).
    + intros [= <- <-]. rewrite app_nil_r. by apply joined_inv.
    + intros [= <- <-]. rewrite app_nil_r. by apply left_inv.
    + destruct (signal keys from raw (turn_peers began waited p)) as [p1 r1] eqn:E. intros [= <- <-]. by eapply signal_inv.
  - intros [= <- <-]. rewrite app_nil_r. by apply expire_admission.
  - intros [= <- <-]. rewrite app_nil_r. by apply task_inv.
Qed.

Lemma run_actions_snoc keys acts a :
  run_actions keys (acts ++ [a]) = ((act keys a (run_actions keys acts).1).1, (run_actions keys acts).2 ++ (act keys a (run_actions keys acts).1).2).
Proof. unfold run_actions. rewrite fold_left_app. cbn [fold_left]. by destruct (act _ _ _). Qed.

Lemma run_actions_inv keys acts : admission_inv keys acts (run_actions keys acts).1 (run_actions keys acts).2.
Proof.
  induction acts as [|a acts IH] using rev_ind.
  - split; cbn [run_actions fold_left fst snd Peers_default pe_active pe_pending]; rewrite ?map_size_empty; try (unfold MAX_PENDING_PEERS, MAX_SIGNAL_PEERS; lia); try done.
    all: intros; match goal with H : _ ∈ [] |- _ => by apply elem_of_nil in H | H : ∅ !! _ = Some _ |- _ => by apply lookup_empty_Some in H end.
  - rewrite run_actions_snoc. cbn [fst snd]. eapply act_inv; [exact IH|]. apply surjective_pairing.
Qed.

Lemma deadline_spec p :
  match deadline p with
  | Some m => (∃ id, pe_pending p !! id = Some m) ∧ ∀ id d, pe_pending p !! id = Some d → m <= d
  | None => pe_pending p = ∅
  end.
Proof.
  unfold deadline. apply (map_fold_weak_ind (λ acc (m : gmap string Z), match acc with
    | Some x => (∃ id, m !! id = Some x) ∧ ∀ id d, m !! id = Some d → x <= d | None => m = ∅ end)); [done|].
  intros i x m [y|] Hi IH.
  - destruct IH as [[j Hj] Hmin]. destruct (Z.min_spec x y) as [[Hlt ->]|[Hle ->]]; split.
    + exists i. apply lookup_insert_eq.
    + intros id d [[<- <-]|[_ H]]%lookup_insert_Some; [lia|]. specialize (Hmin id d H). lia.
    + exists j. rewrite lookup_insert_ne; [done|]. intros ->. congruence.
    + intros id d [[<- <-]|[_ H]]%lookup_insert_Some; [lia|]. by apply (Hmin id d).
  - subst m. split; [exists i; apply lookup_insert_eq|]. intros id d [[<- <-]|[_ H]]%lookup_insert_Some; [lia|done].
Qed.

(** C21: Whatever the signaling server sends, and whatever the peer tasks do:
    at most 64 consumers are pending and at most 64 have a task, none both; a
    task is only ever started for a well-formed session id and the session
    description of a message that was sealed with one of the two consumer keys,
    with the access of that key; what is queued for a task was sealed with the
    key of the task's own access, at most 64 at a time; and a presence lasts
    at most ten seconds from when it was announced. *)
Theorem forwarder_serves_only_authentic_peers keys acts now :
  admission_inv keys acts (run_actions keys acts).1 (run_actions keys acts).2
  ∧ ∀ id d, pe_pending (expire now (run_actions keys acts).1) !! id = Some d →
      now < d ∧ ∃ at_time, handled acts at_time (EvPeerJoined id) ∧ d = at_time + OFFER_TIMEOUT.
Proof.
  pose proof (run_actions_inv keys acts) as Hi. split; [done|]. intros id d [H Hlt]%map_lookup_filter_Some. split; [done|].
  by destruct (ai_deadline _ _ _ _ Hi id d H) as (_ & ?).
Qed.

(** A task can be started for an offer of [access] from [from]. *)
Definition can_serve (p : Peers) (from : string) (access : Access) : Prop :=
  (pe_active p !! from = None ∧ (size (pe_active p) < MAX_SIGNAL_PEERS)%nat)
  ∨ ∃ st, pe_active p !! from = Some st ∧ ps_access st = access ∧ ps_established st = false.

Definition served (p : Peers) (from : string) (offer : AuthenticatedOffer) : Peers :=
  mkPeers (<[from := start_peer offer]> (delete from (pe_active p))) (delete from (pe_pending p)).

Definition others_kept (from : string) (p p' : Peers) : Prop :=
  ∀ id, id ≠ from → pe_active p' !! id = pe_active p !! id ∧ pe_pending p' !! id = pe_pending p !! id.

Lemma served_others p from offer : others_kept from p (served p from offer).
Proof. intros id Hne. cbn. by rewrite lookup_insert_ne, !lookup_delete_ne by done. Qed.

Lemma signal_offer_cases from data access p sdp :
  json_get data "sdp" ≫= sdp_from_value = Some sdp → (∀ st, pe_active p !! from = Some st → ps_access st = access ∧ ps_established st = false) →
  (can_serve p from access ∧ signal_offer from data access p = (served p from (mkOffer sdp access), Some (mkOffer sdp access)))
  ∨ (¬ can_serve p from access ∧ signal_offer from data access p = (p, None)).
Proof.
  intros Hs Ha. unfold signal_offer, can_serve. rewrite Hs. destruct (pe_active p !! from) as [st|] eqn:E.
  - left. split; [|done]. right. exists st. by split; [|apply Ha].
  - rewrite bool_decide_eq_false_2 by (by intros [? ?]). cbn [negb andb].
    destruct (Nat.leb_spec MAX_SIGNAL_PEERS (size (pe_active p))); [right|left]; (split; [|done]).
    + intros [[_ ?]|(st & ? & _)]; [lia|done].
    + by left.
Qed.

(** What an authentic offer does. *)
Lemma signal_sdp_cases keys from raw data access sdp p :
  parse_uuid from = true → open_sealed keys raw = Some (data, access) → json_get data "sdp" ≫= sdp_from_value = Some sdp →
  (can_serve p from access ∧ signal keys from raw p = (served p from (mkOffer sdp access), Some (mkOffer sdp access)))
  ∨ (¬ can_serve p from access ∧ ∃ p', signal keys from raw p = (p', None) ∧ others_kept from p p').
Proof.
  intros Hu Ho Hs. unfold signal. rewrite Hu, Ho. cbn [negb].
  assert (is_Some (json_get data "sdp")) as [j Hj] by (destruct (json_get data "sdp"); [eauto|done]).
  destruct (pe_active p !! from) as [st|] eqn:Hst.
  2: { destruct (signal_offer_cases from data access p sdp Hs) as [?|[? ->]]; [congruence|by left|right; by split; [|exists p]]. }
  assert (can_serve p from access → ps_access st = access ∧ ps_established st = false) as Hcan.
  { intros [[? _]|(st' & ? & ? & ?)]; [congruence|by simplify_eq]. }
  destruct (bool_decide_reflect (access = ps_access st)) as [Hac|Hac]; cbn [negb]; [|right; split; [naive_solver|by exists p]].
  rewrite Hj. destruct (ps_established st) eqn:He; cbn [negb].
  - right. split; [intros [_ ?]%Hcan; done|]. destruct (ps_signal_tx st) as [q|]; [|by exists p].
    destruct (peer_try_send q (ps_receiving st) data) as [q'|]; eexists; (split; [reflexivity|]); intros id Hne; cbn;
      by rewrite ?lookup_insert_ne, ?lookup_delete_ne by done.
  - destruct (signal_offer_cases from data access p sdp Hs) as [?|[? ->]]; [naive_solver|by left|right; by split; [|exists p]].
Qed.

(** C38: An authentic offer is answered exactly when there is a place for it, whatever the
    pending pool holds: from a consumer without a task while fewer than 64 have one, or from
    one whose task has the same access and is not established yet. The turn then starts a task
    for it and ends its presence; otherwise it starts none; nobody else is touched. The peers
    meant are those when the offer arrives: a turn drops the tasks that have ended before it
    waits, so one that ends during the wait still holds its place. *)
Theorem authentic_offer_is_served keys acts began waited now from raw data access sdp :
  parse_uuid from = true → open_sealed keys raw = Some (data, access) → json_get data "sdp" ≫= sdp_from_value = Some sdp →
  let p := turn_peers began waited (run_actions keys acts).1 in
  let '(p', started) := run_turn keys began waited now (EvSignal from raw) (run_actions keys acts).1 in
  (started = [(from, mkOffer sdp access)] ∨ started = [])
  ∧ (started = [(from, mkOffer sdp access)] ↔ can_serve p from access)
  ∧ (can_serve p from access → pe_active p' !! from = Some (start_peer (mkOffer sdp access)) ∧ pe_pending p' !! from = None)
  ∧ others_kept from p p'.
Proof.
  intros Hu Ho Hs p. unfold run_turn. fold p.
  destruct (signal_sdp_cases keys from raw data access sdp p Hu Ho Hs) as [[Hc ->]|(Hc & p' & -> & Hk)].
  - split_and!; [by left|done| |apply served_others]. intros _. split; [apply lookup_insert_eq|apply lookup_delete_eq].
  - split_and!; [by right|done|done|done].
Qed.
End Admission.

(** One key pair whose boxes open, and one that does not: the first offer is served; once
    its task is established a second is not, although the task ended during the wait. *)
Lemma authentic_offer_is_served_witness :
  let get (j k : string) := if String.eqb k "box" || String.eqb k "sdp" then Some j else None in
  let open (key : Z) (_ : ()) (_ text : list byte) := if key =? 2 then Some text else None in
  let turn := run_turn get Some (λ _, Some "offer"%string) (λ _, Some (zeros 30)) open (λ _, true) Some (mkProducerKeys () 1 2) in
  let before := run_actions get Some (λ _, Some "offer"%string) (λ _, Some (zeros 30)) open (λ _, true) Some (mkProducerKeys () 1 2) in
  let first := turn 5 [] 6 (EvSignal "a"%string "sealed"%string) (before [Turn 0 [] 1 (EvPeerJoined "a"%string)]).1 in
  let waited := [("a"%string, TaskEstablished); ("a"%string, TaskFinished)] in
  let second := turn 8 waited 9 (EvSignal "a"%string "sealed"%string)
                  (before [Turn 0 [] 1 (EvPeerJoined "a"%string); Turn 5 [] 6 (EvSignal "a"%string "sealed"%string)]).1 in
  first.2 = [("a"%string, mkOffer "offer"%string AccessReadOnly)] ∧ second.2 = [].
Proof.
  intros get open turn before first waited second.
  pose proof (λ acts began waited, authentic_offer_is_served get Some (λ _, Some "offer"%string) (λ _, Some (zeros 30)) open (λ _, true) Some
    (mkProducerKeys () 1 2) acts began waited (began + 1) "a"%string "sealed"%string "offer"%string AccessReadOnly "offer"%string eq_refl eq_refl eq_refl) as H.
  split.
  - specialize (H [Turn 0 [] 1 (EvPeerJoined "a"%string)] 5 []). cbv zeta in H. change (5 + 1) with 6 in H. fold turn before first in H.
    destruct first as [p' started]. cbn [snd]. apply H. left. split; [by vm_compute|]. vm_compute. lia.
  - specialize (H [Turn 0 [] 1 (EvPeerJoined "a"%string); Turn 5 [] 6 (EvSignal "a"%string "sealed"%string)] 8 waited). cbv zeta in H.
    change (8 + 1) with 9 in H. fold turn before second in H. destruct second as [p' started]. cbn [snd].
    destruct H as ([->| ->] & [Hc _] & _); [|done]. destruct (Hc eq_refl) as [[Hn _]|(st & Hst & _ & He)].
    + vm_compute in Hn. discriminate Hn.
    + vm_compute in Hst. injection Hst as <-. discriminate He.
Defined.

(** ** The DTLS filter ([dtls_dedupe.rs]) *)

Definition DTLS_CHANGE_CIPHER_SPEC : Z := 20.
Definition DTLS_RECORD_HEADER : Z := 13.

Record DtlsFlightDedupe := mkDedupe { dd_connected : bool }.
Definition DtlsFlightDedupe_new : DtlsFlightDedupe := mkDedupe false.
Definition dtls_connected (d : DtlsFlightDedupe) : DtlsFlightDedupe := mkDedupe true.

(** [u16::from_be_bytes([a, b])] *)
Definition be_u16 (a b : byte) : Z := byte_val a * 256 + byte_val b.

Definition dtls_accept (d : DtlsFlightDedupe) (datagram : list byte) : bool :=
  if negb (dd_connected d) then true
  else if (len datagram <? DTLS_RECORD_HEADER) || negb (byte_val (nth 0 datagram Byte.x00) =? DTLS_CHANGE_CIPHER_SPEC) then true
  else let epoch := be_u16 (nth 3 datagram Byte.x00) (nth 4 datagram Byte.x00) in
       if negb (epoch =? 0) then true else false.

(** Until the handshake is up everything passes; then only a datagram that
    leads with a ChangeCipherSpec record of epoch 0 is dropped. *)
Lemma dtls_dropped d datagram :
  dtls_accept d datagram = false ↔
  dd_connected d = true ∧ DTLS_RECORD_HEADER <= len datagram ∧ nth 0 datagram Byte.x00 = Byte.x14
  ∧ nth 3 datagram Byte.x00 = Byte.x00 ∧ nth 4 datagram Byte.x00 = Byte.x00.
Proof.
  unfold dtls_accept, be_u16, DTLS_RECORD_HEADER, DTLS_CHANGE_CIPHER_SPEC. destruct (dd_connected d); cbn [negb]; [|naive_solver].
  assert (∀ b c, byte_val b = byte_val c ↔ b = c) as Hb.
  { intros b c. split; [|by intros ->]. intros E. by rewrite <- (byte_of_val b), <- (byte_of_val c), E. }
  rewrite <- (Hb _ Byte.x14), <- (Hb (nth 3 _ _)), <- (Hb (nth 4 _ _)). change (byte_val Byte.x14) with 20. change (byte_val Byte.x00) with 0.
  pose proof (byte_val_bound (nth 3 datagram Byte.x00)). pose proof (byte_val_bound (nth 4 datagram Byte.x00)).
  destruct (Z.ltb_spec (len datagram) 13); cbn [orb]; [split; [done|lia]|].
  destruct (Z.eqb_spec (byte_val (nth 0 datagram Byte.x00)) 20); cbn [negb]; [|split; [done|lia]].
  destruct (Z.eqb_spec (byte_val (nth 3 datagram Byte.x00) * 256 + byte_val (nth 4 datagram Byte.x00)) 0); cbn [negb]; split; try done; try lia.
Qed.
