(* ===== verification/ProcessWire.v ===== *)
(** * ProcessWire: the messages of the Process family ([crates/yas/src/process.rs])

    Spawns with their working directory, arguments, environment and extensions,
    attaches, control, waits, exits, the streams of a process and its record in
    the catalogue, with the wire laws of each; and the way of what KEEP_OUTPUT
    dropped from the server's streams ([server/src/process.rs],
    [yas_process.rs], [yas.rs]) through the EXIT event to the client
    ([client/src/process.rs]). The family's limits are in [FamilyLimits]. *)

From stdpp Require Import sorting.
From S2P Require Import Prelude Schema Codec CodecFacts Wire Transfer TransferFacts State StateFacts Core CoreWire Composite Ordered Kv WireLayout OutputKeep OutputKeepFacts OutputKeepProps.

Definition process_SPAWN_MERGE_STDERR : Z := 1.
Definition process_SPAWN_DETACHABLE : Z := 2.
Definition process_SPAWN_LEAVE_RESIDUE : Z := 4.
Definition process_SPAWN_FLAGS : Z := 3.
Definition process_SPAWN_REPORT_EXIT : Z := 16.
Definition process_SPAWN_KEEP_OUTPUT : Z := 32.
Definition process_ENV_EMPTY : Z := 0.
Definition process_ENV_SESSION : Z := 1.
Definition process_CWD_SERVER_DEFAULT : Z := 0.
Definition process_CWD_PATH : Z := 1.
Definition process_CWD_TERMINAL : Z := 2.
Definition process_CWD_FS : Z := 3.
Definition process_ATTACH_STDIN : Z := 1.
Definition process_CONTROL_SIGNAL : Z := 0.
Definition process_CONTROL_TERMINATE : Z := 1.
Definition process_CONTROL_KILL : Z := 2.
Definition process_CONTROL_DETACH : Z := 3.
Definition process_SIGNAL_INTERRUPT : Z := 1.
Definition process_SIGNAL_HANGUP : Z := 4.
Definition process_LIFECYCLE_RUNNING : Z := 0.
Definition process_LIFECYCLE_EXITED : Z := 1.
Definition process_STREAM_STATE_FLAGS : Z := 15.
Definition process_BUNDLE_STDIN : Z := 1.
Definition process_BUNDLE_STDOUT : Z := 2.
Definition process_BUNDLE_STDERR : Z := 4.
Definition process_BUNDLE_MERGED_STDERR : Z := 8.
Definition process_BUNDLE_FLAGS : Z := 15.
Definition process_EXIT_KIND_CODE : Z := 0.
Definition process_EXIT_KIND_SIGNAL : Z := 1.
Definition process_EXIT_KIND_KILLED : Z := 2.
Definition process_EXIT_KIND_OTHER : Z := 3.
Definition process_EXIT_REASON_UNKNOWN : Z := 0.
Definition process_EXIT_REASON_INTERRUPT : Z := 1.
Definition process_EXIT_REASON_HANGUP : Z := 4.
Definition process_EXIT_REASON_CLIENT : Z := 5.
Definition process_EXIT_REASON_SERVER_SHUTDOWN : Z := 8.
Definition process_STREAM_STDIN_CONTENT_KIND : Z := 0.
Definition process_STREAM_STDOUT_CONTENT_KIND : Z := 1.
Definition process_STREAM_STDERR_CONTENT_KIND : Z := 2.
Definition process_SPAWN_SURFACE_APP_EXTENSION : Z := 1.
Definition process_SPAWN_RESOURCE_TAG_EXTENSION : Z := 2.
Definition process_SPAWN_RESIDUE_GRACE_EXTENSION : Z := 3.
Definition process_SPAWN_KEEP_OUTPUT_EXTENSION : Z := 4.
Definition process_MAX_KEEP_OUTPUT_TAIL_BYTES : Z := 1048576.
Definition process_MAX_ARG_LEN : Z := 65536.
Definition process_MAX_ENV_KEY_BYTES : Z := 255.
Definition process_MAX_ENV_VALUE_BYTES : Z := 65536.
Definition process_MAX_CWD_BYTES : Z := 4096.
Definition process_MAX_PATH_COMPONENTS : Z := 1024.

(** ** Checks *)

Definition process_validate_handle (handle : Z) (name : string) : result Error () := reject_if (handle =? 0) (Invalid name).

Definition process_validate_operation_id (operation_id : list byte) : result Error () :=
  reject_if (forallb (λ b, bool_decide (b = Byte.x00)) operation_id) (Invalid "zero Process operation ID").

Definition process_reject_unknown_required (extensions : Extensions) (known : list Z) : result Error () :=
  _ ← Extensions_validate extensions;
  reject_if (existsb (λ e, ext_required e && negb (existsb (Z.eqb (ext_tag e)) known)) extensions)
    (Invalid "unknown required Process extension").

Definition validate_arg (arg : list byte) : result Error () :=
  reject_if (is_nil arg || (process_MAX_ARG_LEN <? len arg) || bool_decide (Byte.x00 ∈ arg)) (Invalid "Process argument").

(** The loop of [validate_argv]; [total] is the bytes so far. *)
Fixpoint validate_argv_loop (total : Z) (argv : list (list byte)) : result Error () :=
  match argv with
  | [] => Ok ()
  | arg :: rest =>
      _ ← validate_arg arg;
      total ← ok_or (checked_add_u64 total (len arg)) LengthOverflow;
      _ ← reject_if (process_MAX_ARG_BYTES <? total) (LimitExceeded "Process argument bytes" total process_MAX_ARG_BYTES);
      validate_argv_loop total rest
  end.

Definition validate_argv (argv : list (list byte)) : result Error () :=
  _ ← reject_if (is_nil argv || (process_MAX_ARGC <? len argv)) (Invalid "Process argv count");
  validate_argv_loop 0 argv.

Record EnvEntry := mkProcessEnvEntry { pe_key : list byte; pe_value : list byte }.

(** [previous.is_some_and(|old| old >= key)] *)
Definition env_key_not_after (previous : option (list byte)) (key : list byte) : bool :=
  match previous with Some old => key_leb key old | None => false end.

(** The loop of [validate_env]. *)
Fixpoint validate_env_loop (previous : option (list byte)) (total : Z) (env : list EnvEntry) : result Error () :=
  match env with
  | [] => Ok ()
  | e :: rest =>
      _ ← reject_if (is_nil (pe_key e) || (process_MAX_ENV_KEY_BYTES <? len (pe_key e)) || (process_MAX_ENV_VALUE_BYTES <? len (pe_value e))
                     || bool_decide (Byte.x00 ∈ pe_key e) || bool_decide (Byte.x3d ∈ pe_key e) || bool_decide (Byte.x00 ∈ pe_value e)
                     || env_key_not_after previous (pe_key e))
            (Invalid "Process environment entry");
      total ← ok_or (checked_add_u64 total (len (pe_key e))) LengthOverflow;
      total ← ok_or (checked_add_u64 total (len (pe_value e))) LengthOverflow;
      _ ← reject_if (process_MAX_ENV_BYTES <? total) (LimitExceeded "Process environment bytes" total process_MAX_ENV_BYTES);
      validate_env_loop (Some (pe_key e)) total rest
  end.

Definition validate_env (env : list EnvEntry) : result Error () :=
  _ ← reject_if (process_MAX_ENVC_EXTENDED <? len env) (LimitExceeded "Process environment entries" (len env) process_MAX_ENVC_EXTENDED);
  validate_env_loop None 0 env.

Definition validate_native_path (path : list byte) : result Error () :=
  reject_if (is_nil path || (process_MAX_CWD_BYTES <? len path) || bool_decide (Byte.x00 ∈ path)) (Invalid "Process native cwd path").

Definition validate_component (component : list byte) : result Error () :=
  reject_if (is_nil component || bool_decide (component = [Byte.x2e]) || bool_decide (component = [Byte.x2e; Byte.x2e])
             || bool_decide (Byte.x00 ∈ component) || bool_decide (Byte.x2f ∈ component) || bool_decide (Byte.x5c ∈ component))
    (Invalid "Process FS cwd component").

Definition validate_signal (signal : Z) : result Error () :=
  reject_if (negb ((as_u16 process_SIGNAL_INTERRUPT <=? signal) && (signal <=? as_u16 process_SIGNAL_HANGUP))) (Invalid "Process portable signal").

Definition validate_stream_transfer (d : Descriptor) (content_kind : Z) (direction : Direction) : result Error () :=
  let sensitive := existsb (λ e, (ext_tag e =? as_u16 transfer_SENSITIVE_CONTENT_EXTENSION) && ext_required e && is_nil (ext_value e))
                     (td_extensions d) in
  _ ← reject_if (negb (bool_decide (td_mode d = ModeByte)) || negb (bool_decide (td_direction d = direction))
                 || negb (td_content_family d =? family_PROCESS) || negb (td_content_kind d =? content_kind)
                 || negb (td_content_version d =? process_VERSION) || negb sensitive)
        (Invalid "Process stream Transfer descriptor");
  Descriptor_validate d.

(** [extensions.0.iter().find(|extension| extension.tag == tag as u16)] *)
Definition find_extension (extensions : Extensions) (tag : Z) : option Extension :=
  List.find (λ e, ext_tag e =? as_u16 tag) extensions.

(** [let Some(extension) = … else { return Ok(None) }; u64::from_le_bytes(value.try_into()…)] *)
Definition extension_u64 (extensions : Extensions) (tag : Z) (name : string) : result Error (option Z) :=
  match find_extension extensions tag with
  | None => Ok None
  | Some e =>
      _ ← reject_if (negb (len (ext_value e) =? 8)) (Invalid name);
      Ok (Some (from_le (ext_value e)))
  end.

Definition validate_spawn_extensions (extensions : Extensions) : result Error () :=
  _ ← process_reject_unknown_required extensions
        [as_u16 process_SPAWN_SURFACE_APP_EXTENSION; as_u16 process_SPAWN_RESOURCE_TAG_EXTENSION;
         as_u16 process_SPAWN_RESIDUE_GRACE_EXTENSION; as_u16 process_SPAWN_KEEP_OUTPUT_EXTENSION];
  _ ← extension_u64 extensions process_SPAWN_RESIDUE_GRACE_EXTENSION "Process residue grace extension";
  handle ← extension_u64 extensions process_SPAWN_SURFACE_APP_EXTENSION "Process surface application extension";
  _ ← match handle with Some handle => process_validate_handle handle "Process surface application handle" | None => Ok () end;
  match find_extension extensions process_SPAWN_RESOURCE_TAG_EXTENSION with
  | Some e => reject_if (4096 <? len (ext_value e)) (LimitExceeded "Process resource tag bytes" (len (ext_value e)) 4096)
  | None => Ok ()
  end.

(** ** Working directories *)

Inductive Cwd :=
  | CwdServerDefault
  | CwdPath (path : list byte)
  | CwdTerminal (handle : Z)
  | CwdFs (root_handle : Z) (components : list (list byte)).

(** The loop over the components; [total] is the bytes so far. *)
Fixpoint cwd_components_loop (total : Z) (components : list (list byte)) : result Error () :=
  match components with
  | [] => Ok ()
  | component :: rest =>
      _ ← validate_component component;
      total ← ok_or (checked_add_u64 total (len component)) LengthOverflow;
      _ ← reject_if (process_MAX_CWD_BYTES <? total) (LimitExceeded "Process cwd bytes" total process_MAX_CWD_BYTES);
      cwd_components_loop total rest
  end.

Definition Cwd_validate (c : Cwd) : result Error () :=
  match c with
  | CwdServerDefault => Ok ()
  | CwdPath path => validate_native_path path
  | CwdTerminal handle => process_validate_handle handle "Process cwd terminal handle"
  | CwdFs root_handle components =>
      _ ← process_validate_handle root_handle "Process cwd FS root handle";
      _ ← reject_if (process_MAX_PATH_COMPONENTS <? len components)
            (LimitExceeded "Process cwd path components" (len components) process_MAX_PATH_COMPONENTS);
      cwd_components_loop 0 components
  end.

(** [put_bytes_u16(out, component)?] *)
Definition put_component (component out : list byte) : result Error (list byte) := put_bytes_u16 out component.

#[export] Instance Cwd_encode_to : Encode Cwd := fun v out =>
  _ ← Cwd_validate v;
  match v with
  | CwdServerDefault => Ok (push_u8 out process_CWD_SERVER_DEFAULT ++ zeros 3)
  | CwdPath path => put_bytes_u32 (push_u8 out process_CWD_PATH ++ zeros 3) path
  | CwdTerminal handle => Ok (put_u64 (push_u8 out process_CWD_TERMINAL ++ zeros 3) handle)
  | CwdFs root_handle components =>
      out ← put_len_u16 (put_u64 (push_u8 out process_CWD_FS ++ zeros 3) root_handle) (len components);
      try_fold put_component components out
  end.

Definition Cwd_read_body (kind : Z) : decoder Cwd :=
  if kind =? process_CWD_SERVER_DEFAULT then mret CwdServerDefault
  else if kind =? process_CWD_PATH then (path ← dec_len_bytes_u32; mret (CwdPath path))
  else if kind =? process_CWD_TERMINAL then (handle ← dec_u64; mret (CwdTerminal handle))
  else if kind =? process_CWD_FS then
    root_handle ← dec_u64;
    count ← dec_u16;
    _ ← reject (process_MAX_PATH_COMPONENTS <? count) (Invalid "Process cwd path component count");
    components ← dec_counted count 2 "Process cwd path component count" dec_len_bytes_u16;
    mret (CwdFs root_handle components)
  else lift (Err (Invalid "Process cwd kind")).

Definition Cwd_read : decoder Cwd :=
  kind ← dec_u8;
  reserved ← dec_take 3;
  _ ← reject (negb (bool_decide (reserved = zeros 3))) (Invalid "Process cwd reserved bytes");
  value ← Cwd_read_body kind;
  _ ← dec_finish;
  mret value.

#[export] Instance Cwd_decode : Decode Cwd := fun input =>
  value ← run Cwd_read (Decoder_new input);
  _ ← Cwd_validate value;
  Ok value.

(** ** Spawns *)

Inductive EnvironmentKind := EnvironmentEmpty | EnvironmentSession.

Definition EnvironmentKind_u8 (k : EnvironmentKind) : Z :=
  match k with EnvironmentEmpty => process_ENV_EMPTY | EnvironmentSession => process_ENV_SESSION end.
Definition EnvironmentKind_try_from (value : Z) : result Error EnvironmentKind :=
  if value =? process_ENV_EMPTY then Ok EnvironmentEmpty
  else if value =? process_ENV_SESSION then Ok EnvironmentSession
  else Err (Invalid "Process environment kind").
#[export] Instance EnvironmentKind_Tag : Tag EnvironmentKind_u8 EnvironmentKind_try_from (λ _, True).
Proof. tag_laws. Qed.

Record Spawn := mkSpawn {
  sp_operation_id : list byte; sp_flags : Z; sp_environment_kind : EnvironmentKind; sp_cwd : Cwd; sp_argv : list (list byte);
  sp_env : list EnvEntry; sp_stdout_receive_credit : Z; sp_stderr_receive_credit : Z; sp_extensions : Extensions
}.

Definition keep_output (v : Spawn) : result Error (option (Z * Z)) :=
  match find_extension (sp_extensions v) process_SPAWN_KEEP_OUTPUT_EXTENSION with
  | None => Ok None
  | Some e =>
      _ ← reject_if (negb (len (ext_value e) =? 16)) (Invalid "Process keep-output extension");
      let head := from_le (take 8 (ext_value e)) in
      let tail := from_le (drop 8 (ext_value e)) in
      _ ← reject_if (process_MAX_KEEP_OUTPUT_TAIL_BYTES <? tail)
            (LimitExceeded "Process keep-output tail bytes" tail process_MAX_KEEP_OUTPUT_TAIL_BYTES);
      Ok (Some (head, tail))
  end.

Definition keep_output_extension (head tail : Z) : Extension :=
  mkExtension (as_u16 process_SPAWN_KEEP_OUTPUT_EXTENSION) true (to_le 8 head ++ to_le 8 tail).

Definition residue_grace_ns (v : Spawn) : result Error (option Z) :=
  extension_u64 (sp_extensions v) process_SPAWN_RESIDUE_GRACE_EXTENSION "Process residue grace extension".

Definition surface_app_handle (v : Spawn) : result Error (option Z) :=
  extension_u64 (sp_extensions v) process_SPAWN_SURFACE_APP_EXTENSION "Process surface application extension".

Definition resource_tag (v : Spawn) : result Error (option (list byte)) :=
  match find_extension (sp_extensions v) process_SPAWN_RESOURCE_TAG_EXTENSION with
  | None => Ok None
  | Some e =>
      _ ← reject_if (4096 <? len (ext_value e)) (LimitExceeded "Process resource tag bytes" (len (ext_value e)) 4096);
      Ok (Some (ext_value e))
  end.

Definition Spawn_validate (v : Spawn) : result Error () :=
  _ ← process_validate_operation_id (sp_operation_id v);
  let known := Z.lor process_SPAWN_FLAGS process_SPAWN_LAUNCHER_FLAGS_EXTENDED in
  _ ← reject_if (has_other_bits (sp_flags v) (as_u16 known)) (Invalid "Process spawn flags");
  _ ← Cwd_validate (sp_cwd v);
  _ ← validate_argv (sp_argv v);
  _ ← validate_env (sp_env v);
  _ ← reject_if (sp_stdout_receive_credit v =? 0) (Invalid "zero Process stdout receive credit");
  let merged := has_bits (sp_flags v) (as_u16 process_SPAWN_MERGE_STDERR) in
  _ ← reject_if (negb (Bool.eqb merged (sp_stderr_receive_credit v =? 0))) (Invalid "Process stderr receive credit");
  _ ← validate_spawn_extensions (sp_extensions v);
  let leave_residue := has_bits (sp_flags v) (as_u16 process_SPAWN_LEAVE_RESIDUE) in
  _ ← (if negb leave_residue then
         grace ← residue_grace_ns v;
         reject_if (is_some grace) (Invalid "Process residue grace without LEAVE_RESIDUE")
       else Ok ());
  let keep := has_bits (sp_flags v) (as_u16 process_SPAWN_KEEP_OUTPUT) in
  let report_exit := has_bits (sp_flags v) (as_u16 process_SPAWN_REPORT_EXIT) in
  kept ← keep_output v;
  _ ← reject_if (negb (Bool.eqb keep (is_some kept))) (Invalid "Process KEEP_OUTPUT flag and extension go together");
  reject_if (keep && negb report_exit) (Invalid "Process KEEP_OUTPUT without REPORT_EXIT").

(** [put_bytes_u32(out, arg)?] *)
Definition put_arg (arg out : list byte) : result Error (list byte) := put_bytes_u32 out arg.
(** [put_bytes_u16(out, &entry.key)?; put_bytes_u32(out, &entry.value)?] *)
Definition put_env_entry (e : EnvEntry) (out : list byte) : result Error (list byte) :=
  out ← put_bytes_u16 out (pe_key e);
  put_bytes_u32 out (pe_value e).
Definition dec_env_entry : decoder EnvEntry :=
  key ← dec_len_bytes_u16;
  value ← dec_len_bytes_u32;
  mret (mkProcessEnvEntry key value).

#[export] Instance Spawn_encode_to : Encode Spawn := fun v out =>
  _ ← Spawn_validate v;
  let out := put_u16 (out ++ sp_operation_id v) (sp_flags v) in
  let out := push_u8 (push_u8 out (EnvironmentKind_u8 (sp_environment_kind v))) 0 in
  out ← put_nested (sp_cwd v) out;
  out ← put_len_u16 out (len (sp_argv v));
  out ← try_fold put_arg (sp_argv v) out;
  out ← put_len_u16 out (len (sp_env v));
  out ← try_fold put_env_entry (sp_env v) out;
  let out := put_u64 (put_u64 out (sp_stdout_receive_credit v)) (sp_stderr_receive_credit v) in
  Extensions_encode_tail (sp_extensions v) out.

Definition Spawn_read : decoder Spawn :=
  operation_id ← dec_array_16;
  flags ← dec_u16;
  environment_kind ← dec_tag EnvironmentKind_try_from;
  reserved ← dec_u8;
  _ ← reject (negb (reserved =? 0)) (Invalid "Process spawn reserved byte");
  cwd ← dec_nested;
  argc ← dec_u16;
  _ ← reject ((argc =? 0) || (process_MAX_ARGC <? argc)) (Invalid "Process argv count");
  argv ← dec_counted argc 4 "Process argv count" dec_len_bytes_u32;
  envc ← dec_u16;
  _ ← reject (process_MAX_ENVC_EXTENDED <? envc) (Invalid "Process environment count");
  env ← dec_counted envc 6 "Process environment count" dec_env_entry;
  stdout_receive_credit ← dec_u64;
  stderr_receive_credit ← dec_u64;
  extensions ← dec_extensions;
  _ ← dec_finish;
  mret (mkSpawn operation_id flags environment_kind cwd argv env stdout_receive_credit stderr_receive_credit extensions).

#[export] Instance Spawn_decode : Decode Spawn := fun input =>
  value ← run Spawn_read (Decoder_new input);
  _ ← Spawn_validate value;
  Ok value.

(** ** Attaches, control and waits *)

Record Attach := mkAttach {
  at_process_handle : Z; at_flags : Z; at_stdout_receive_credit : Z; at_stderr_receive_credit : Z; at_extensions : Extensions
}.

Definition Attach_validate (v : Attach) : result Error () :=
  _ ← process_validate_handle (at_process_handle v) "Process handle";
  _ ← reject_if (has_other_bits (at_flags v) (as_u16 process_ATTACH_STDIN)) (Invalid "Process attach flags");
  _ ← reject_if (at_stdout_receive_credit v =? 0) (Invalid "zero Process stdout receive credit");
  process_reject_unknown_required (at_extensions v) [].

#[export] Instance Attach_encode_to : Encode Attach := fun v out =>
  _ ← Attach_validate v;
  let out := put_u16 (put_u16 (put_u64 out (at_process_handle v)) (at_flags v)) 0 in
  Extensions_encode_tail (at_extensions v) (put_u64 (put_u64 out (at_stdout_receive_credit v)) (at_stderr_receive_credit v)).

Definition Attach_read : decoder Attach :=
  process_handle ← dec_u64;
  flags ← dec_u16;
  reserved ← dec_u16;
  _ ← reject (negb (reserved =? 0)) (Invalid "Process attach reserved field");
  stdout_receive_credit ← dec_u64;
  stderr_receive_credit ← dec_u64;
  extensions ← dec_extensions;
  _ ← dec_finish;
  mret (mkAttach process_handle flags stdout_receive_credit stderr_receive_credit extensions).

#[export] Instance Attach_decode : Decode Attach := fun input =>
  value ← run Attach_read (Decoder_new input);
  _ ← Attach_validate value;
  Ok value.

Inductive ControlAction := ControlSignal | ControlTerminate | ControlKill | ControlDetach.

Definition ControlAction_u8 (a : ControlAction) : Z :=
  match a with
  | ControlSignal => process_CONTROL_SIGNAL
  | ControlTerminate => process_CONTROL_TERMINATE
  | ControlKill => process_CONTROL_KILL
  | ControlDetach => process_CONTROL_DETACH
  end.
Definition ControlAction_try_from (value : Z) : result Error ControlAction :=
  if value =? process_CONTROL_SIGNAL then Ok ControlSignal
  else if value =? process_CONTROL_TERMINATE then Ok ControlTerminate
  else if value =? process_CONTROL_KILL then Ok ControlKill
  else if value =? process_CONTROL_DETACH then Ok ControlDetach
  else Err (Invalid "Process control action").
#[export] Instance ControlAction_Tag : Tag ControlAction_u8 ControlAction_try_from (λ _, True).
Proof. tag_laws. Qed.

Record Control := mkControl {
  co_process_handle : Z; co_operation_id : list byte; co_action : ControlAction; co_value : Z; co_extensions : Extensions
}.

Definition Control_validate (v : Control) : result Error () :=
  _ ← process_validate_handle (co_process_handle v) "Process handle";
  _ ← process_validate_operation_id (co_operation_id v);
  _ ← match co_action v with
      | ControlSignal => validate_signal (co_value v)
      | _ => reject_if (negb (co_value v =? 0)) (Invalid "Process control value")
      end;
  process_reject_unknown_required (co_extensions v) [].

#[export] Instance Control_encode_to : Encode Control := fun v out =>
  _ ← Control_validate v;
  let out := put_u64 out (co_process_handle v) ++ co_operation_id v in
  let out := push_u8 (push_u8 out (ControlAction_u8 (co_action v))) 0 in
  Extensions_encode_tail (co_extensions v) (put_u16 out (co_value v)).

Definition Control_read : decoder Control :=
  process_handle ← dec_u64;
  operation_id ← dec_array_16;
  action ← dec_tag ControlAction_try_from;
  reserved ← dec_u8;
  _ ← reject (negb (reserved =? 0)) (Invalid "Process control reserved byte");
  value ← dec_u16;
  extensions ← dec_extensions;
  _ ← dec_finish;
  mret (mkControl process_handle operation_id action value extensions).

#[export] Instance Control_decode : Decode Control := fun input =>
  value ← run Control_read (Decoder_new input);
  _ ← Control_validate value;
  Ok value.

Record ControlResult := mkControlResult { cr_state_revision : Z }.

Definition ControlResult_check (v : ControlResult) : result Error () :=
  reject_if (cr_state_revision v =? 0) (Invalid "zero Process state revision").

#[export] Instance ControlResult_encode_to : Encode ControlResult := fun v out =>
  _ ← ControlResult_check v;
  Ok (put_u64 out (cr_state_revision v)).

Definition ControlResult_read : decoder ControlResult :=
  state_revision ← dec_u64;
  _ ← dec_finish;
  mret (mkControlResult state_revision).

#[export] Instance ControlResult_decode : Decode ControlResult := fun input =>
  value ← run ControlResult_read (Decoder_new input);
  _ ← ControlResult_check value;
  Ok value.

Record Wait := mkWait { wa_process_handle : Z; wa_timeout_ns : Z; wa_extensions : Extensions }.

Definition Wait_check (v : Wait) : result Error () :=
  _ ← process_validate_handle (wa_process_handle v) "Process handle";
  process_reject_unknown_required (wa_extensions v) [].

#[export] Instance Wait_encode_to : Encode Wait := fun v out =>
  _ ← Wait_check v;
  Extensions_encode_tail (wa_extensions v) (put_u64 (put_u64 out (wa_process_handle v)) (wa_timeout_ns v)).

Definition Wait_read : decoder Wait :=
  process_handle ← dec_u64;
  timeout_ns ← dec_u64;
  extensions ← dec_extensions;
  _ ← dec_finish;
  mret (mkWait process_handle timeout_ns extensions).

#[export] Instance Wait_decode : Decode Wait := fun input =>
  value ← run Wait_read (Decoder_new input);
  _ ← Wait_check value;
  Ok value.

(** ** Exits *)

Inductive ExitKind := ExitCode | ExitSignal | ExitKilled | ExitOther.

Definition ExitKind_u8 (k : ExitKind) : Z :=
  match k with
  | ExitCode => process_EXIT_KIND_CODE
  | ExitSignal => process_EXIT_KIND_SIGNAL
  | ExitKilled => process_EXIT_KIND_KILLED
  | ExitOther => process_EXIT_KIND_OTHER
  end.
Definition ExitKind_try_from (value : Z) : result Error ExitKind :=
  if value =? process_EXIT_KIND_CODE then Ok ExitCode
  else if value =? process_EXIT_KIND_SIGNAL then Ok ExitSignal
  else if value =? process_EXIT_KIND_KILLED then Ok ExitKilled
  else if value =? process_EXIT_KIND_OTHER then Ok ExitOther
  else Err (Invalid "Process exit kind").
#[export] Instance ExitKind_Tag : Tag ExitKind_u8 ExitKind_try_from (λ _, True).
Proof. tag_laws. Qed.

Record ExitRecord := mkExitRecord {
  ex_kind : ExitKind; ex_reason : Z; ex_code : Z; ex_exited_server_ns : Z; ex_detail : list byte
}.

Definition ExitRecord_validate (v : ExitRecord) : result Error () :=
  let unknown := process_EXIT_REASON_UNKNOWN in
  let max_reason := process_EXIT_REASON_SERVER_SHUTDOWN in
  let reason := ex_reason v in
  _ ← reject_if ((max_reason <? reason) || (ex_exited_server_ns v =? 0) || (4096 <? len (ex_detail v))) (Invalid "Process exit record");
  let allowed := match ex_kind v with
                 | ExitCode => reason =? unknown
                 | ExitSignal => (process_EXIT_REASON_INTERRUPT <=? reason) && (reason <=? process_EXIT_REASON_HANGUP)
                 | ExitKilled => (process_EXIT_REASON_CLIENT <=? reason) && (reason <=? max_reason) && (ex_code v =? 0)
                 | ExitOther => (reason =? unknown) && (ex_code v =? 0) && negb (is_nil (ex_detail v))
                 end in
  reject_if (negb allowed) (Invalid "Process exit field combination").

#[export] Instance ExitRecord_encode_to : Encode ExitRecord := fun v out =>
  _ ← ExitRecord_validate v;
  let out := put_u16 (push_u8 (push_u8 out (ExitKind_u8 (ex_kind v))) (ex_reason v)) 0 in
  put_bytes_u32 (put_u64 (put_i32 out (ex_code v)) (ex_exited_server_ns v)) (ex_detail v).

Definition ExitRecord_read : decoder ExitRecord :=
  kind ← dec_tag ExitKind_try_from;
  reason ← dec_u8;
  reserved ← dec_u16;
  _ ← reject (negb (reserved =? 0)) (Invalid "Process exit reserved field");
  code ← dec_i32;
  exited_server_ns ← dec_u64;
  detail ← dec_len_bytes_u32;
  _ ← dec_finish;
  mret (mkExitRecord kind reason code exited_server_ns detail).

#[export] Instance ExitRecord_decode : Decode ExitRecord := fun input =>
  value ← run ExitRecord_read (Decoder_new input);
  _ ← ExitRecord_validate value;
  Ok value.

(** ** Streams *)

Record StreamBundle := mkStreamBundle {
  bu_process_handle : Z; bu_stdout_lifetime_offset : Z; bu_stderr_lifetime_offset : Z; bu_stdin : option Descriptor;
  bu_stdout : Descriptor; bu_stderr : option Descriptor; bu_merged_stderr : bool; bu_extensions : Extensions
}.

(** [ids.windows(2).any(|pair| pair[0] == pair[1])] *)
Fixpoint adjacent_equal (ids : list Z) : bool :=
  match ids with
  | a :: (b :: _) as rest => (a =? b) || adjacent_equal rest
  | _ => false
  end.

Definition StreamBundle_validate (v : StreamBundle) : result Error () :=
  _ ← process_validate_handle (bu_process_handle v) "Process handle";
  _ ← reject_if (negb (Bool.eqb (bu_merged_stderr v) (negb (is_some (bu_stderr v))))) (Invalid "Process stderr bundle shape");
  _ ← match bu_stdin v with
      | Some stdin => validate_stream_transfer stdin (as_u16 process_STREAM_STDIN_CONTENT_KIND) RECEIVER_TO_SENDER
      | None => Ok ()
      end;
  _ ← validate_stream_transfer (bu_stdout v) (as_u16 process_STREAM_STDOUT_CONTENT_KIND) SENDER_TO_RECEIVER;
  _ ← match bu_stderr v with
      | Some stderr => validate_stream_transfer stderr (as_u16 process_STREAM_STDERR_CONTENT_KIND) SENDER_TO_RECEIVER
      | None => Ok ()
      end;
  let ids := [td_transfer_id (bu_stdout v)] ++ map td_transfer_id (option_list (bu_stdin v)) ++ map td_transfer_id (option_list (bu_stderr v)) in
  _ ← reject_if (adjacent_equal (merge_sort Z.le ids)) (Invalid "reused Process stream Transfer ID");
  process_reject_unknown_required (bu_extensions v) [].

(** [let mut flags = BUNDLE_STDOUT; if … { flags |= … }] *)
Definition bundle_flags (stdin stderr merged_stderr : bool) : Z :=
  let flags := process_BUNDLE_STDOUT in
  let flags := if stdin then Z.lor flags process_BUNDLE_STDIN else flags in
  let flags := if stderr then Z.lor flags process_BUNDLE_STDERR else flags in
  if merged_stderr then Z.lor flags process_BUNDLE_MERGED_STDERR else flags.

(** [if let Some(v) = v { put_bytes_u32(out, &v.encode()?)?; }] *)
Definition put_present `{Encode A} (v : option A) (out : list byte) : result Error (list byte) :=
  match v with Some v => put_nested v out | None => Ok out end.
(** [if present { Some(T::decode(decoder.len_bytes_u32()?)?) } else { None }] *)
Definition dec_present `{Decode A} (present : bool) : decoder (option A) :=
  if present then (v ← dec_nested; mret (Some v)) else mret None.

#[export] Instance StreamBundle_encode_to : Encode StreamBundle := fun v out =>
  _ ← StreamBundle_validate v;
  let flags := bundle_flags (is_some (bu_stdin v)) (is_some (bu_stderr v)) (bu_merged_stderr v) in
  let out := put_u16 (put_u16 (put_u64 out (bu_process_handle v)) flags) 0 in
  let out := put_u64 (put_u64 out (bu_stdout_lifetime_offset v)) (bu_stderr_lifetime_offset v) in
  out ← put_present (bu_stdin v) out;
  out ← put_nested (bu_stdout v) out;
  out ← put_present (bu_stderr v) out;
  Extensions_encode_tail (bu_extensions v) out.

Definition StreamBundle_read : decoder StreamBundle :=
  process_handle ← dec_u64;
  flags ← dec_u16;
  _ ← reject (has_other_bits flags (as_u16 process_BUNDLE_FLAGS)) (Invalid "Process stream bundle flags");
  reserved ← dec_u16;
  _ ← reject (negb (reserved =? 0)) (Invalid "Process stream bundle flags");
  _ ← reject (negb (has_bits flags (as_u16 process_BUNDLE_STDOUT))) (Invalid "Process stdout descriptor missing");
  stdout_lifetime_offset ← dec_u64;
  stderr_lifetime_offset ← dec_u64;
  stdin ← dec_present (has_bits flags (as_u16 process_BUNDLE_STDIN));
  stdout ← dec_nested;
  stderr ← dec_present (has_bits flags (as_u16 process_BUNDLE_STDERR));
  extensions ← dec_extensions;
  _ ← dec_finish;
  mret (mkStreamBundle process_handle stdout_lifetime_offset stderr_lifetime_offset stdin stdout stderr
          (has_bits flags (as_u16 process_BUNDLE_MERGED_STDERR)) extensions).

#[export] Instance StreamBundle_decode : Decode StreamBundle := fun input =>
  value ← run StreamBundle_read (Decoder_new input);
  _ ← StreamBundle_validate value;
  Ok value.

(** ** The catalogue *)

Record ProcessRecord := mkProcessRecord {
  pr_process_handle : Z; pr_lifecycle : Z; pr_stream_state : Z; pr_flags : Z; pr_native_pid : Z; pr_owner_session : list byte;
  pr_argv0 : list byte; pr_stdin_received : Z; pr_stdout_produced : Z; pr_stderr_produced : Z; pr_retention_deadline_server_ns : Z;
  pr_exit : option ExitRecord; pr_extensions : Extensions
}.

Definition ProcessRecord_validate (v : ProcessRecord) : result Error () :=
  _ ← process_validate_handle (pr_process_handle v) "Process handle";
  let running := pr_lifecycle v =? process_LIFECYCLE_RUNNING in
  let exited := pr_lifecycle v =? process_LIFECYCLE_EXITED in
  _ ← reject_if ((negb running && negb exited) || has_other_bits (pr_stream_state v) process_STREAM_STATE_FLAGS
                 || has_other_bits (pr_flags v) (as_u16 process_SPAWN_FLAGS) || (pr_native_pid v =? 0)
                 || forallb (λ b, bool_decide (b = Byte.x00)) (pr_owner_session v))
        (Invalid "Process record identity or flags");
  _ ← validate_arg (pr_argv0 v);
  _ ← reject_if (negb (Bool.eqb exited (is_some (pr_exit v)))) (Invalid "Process lifecycle and exit record");
  _ ← reject_if (exited && negb (pr_stream_state v =? 0)) (Invalid "exited Process has open streams");
  _ ← reject_if (negb (has_bits (pr_flags v) (as_u16 process_SPAWN_DETACHABLE)) && negb (pr_retention_deadline_server_ns v =? 0))
        (Invalid "ordinary Process retention deadline");
  _ ← match pr_exit v with Some exit => ExitRecord_validate exit | None => Ok () end;
  process_reject_unknown_required (pr_extensions v) [].

#[export] Instance ProcessRecord_encode_to : Encode ProcessRecord := fun v out =>
  _ ← ProcessRecord_validate v;
  let out := push_u8 (push_u8 (put_u64 out (pr_process_handle v)) (pr_lifecycle v)) (pr_stream_state v) in
  let out := put_u64 (put_u16 out (pr_flags v)) (pr_native_pid v) in
  out ← put_bytes_u32 (out ++ pr_owner_session v) (pr_argv0 v);
  let out := put_u64 (put_u64 out (pr_stdin_received v)) (pr_stdout_produced v) in
  let out := put_u64 (put_u64 out (pr_stderr_produced v)) (pr_retention_deadline_server_ns v) in
  let out := push_u8 out (of_bool (is_some (pr_exit v))) ++ zeros 7 in
  out ← put_present (pr_exit v) out;
  Extensions_encode_tail (pr_extensions v) out.

Definition ProcessRecord_read : decoder ProcessRecord :=
  process_handle ← dec_u64;
  lifecycle ← dec_u8;
  stream_state ← dec_u8;
  flags ← dec_u16;
  native_pid ← dec_u64;
  owner_session ← dec_array_16;
  argv0 ← dec_len_bytes_u32;
  stdin_received ← dec_u64;
  stdout_produced ← dec_u64;
  stderr_produced ← dec_u64;
  retention_deadline_server_ns ← dec_u64;
  exit_present ← dec_u8;
  _ ← reject (1 <? exit_present) (Invalid "Process exit presence or reserved bytes");
  reserved ← dec_take 7;
  _ ← reject (negb (bool_decide (reserved = zeros 7))) (Invalid "Process exit presence or reserved bytes");
  exit ← dec_present (negb (exit_present =? 0));
  extensions ← dec_extensions;
  _ ← dec_finish;
  mret (mkProcessRecord process_handle lifecycle stream_state flags native_pid owner_session argv0 stdin_received stdout_produced
          stderr_produced retention_deadline_server_ns exit extensions).

#[export] Instance ProcessRecord_decode : Decode ProcessRecord := fun input =>
  value ← run ProcessRecord_read (Decoder_new input);
  _ ← ProcessRecord_validate value;
  Ok value.

Definition process_kind (k : RecordKind) : bool := match k with State.Add | State.Replace => true | _ => false end.

Definition ProcessRecord_state_record (v : ProcessRecord) (kind : RecordKind) : result Error StateRecord :=
  _ ← reject_if (negb (process_kind kind)) (Invalid "Process state record kind");
  body ← encode v;
  Ok (mkRecord kind false body).

Definition ProcessRecord_from_state_record (r : StateRecord) : result Error ProcessRecord :=
  _ ← reject_if (negb (process_kind (re_kind r))) (Invalid "Process state record kind");
  decode (re_body r).

Record RemovedProcess := mkRemovedProcess { rp_process_handle : Z }.

Definition RemovedProcess_check (v : RemovedProcess) : result Error () := process_validate_handle (rp_process_handle v) "Process handle".

#[export] Instance RemovedProcess_encode_to : Encode RemovedProcess := fun v out =>
  _ ← RemovedProcess_check v;
  Ok (put_u64 out (rp_process_handle v)).

Definition RemovedProcess_read : decoder RemovedProcess :=
  process_handle ← dec_u64;
  _ ← dec_finish;
  mret (mkRemovedProcess process_handle).

#[export] Instance RemovedProcess_decode : Decode RemovedProcess := fun input =>
  value ← run RemovedProcess_read (Decoder_new input);
  _ ← RemovedProcess_check value;
  Ok value.

Definition RemovedProcess_state_record (v : RemovedProcess) : result Error StateRecord :=
  _ ← RemovedProcess_check v;
  body ← encode v;
  Ok (mkRecord State.Remove false body).

(** ** EXIT events *)

Record ExitReport := mkExitReport { xr_process_handle : Z; xr_exit : ExitRecord; xr_extensions : Extensions }.

Definition ExitReport_check (v : ExitReport) : result Error () := process_validate_handle (xr_process_handle v) "Process handle".

#[export] Instance ExitReport_encode_to : Encode ExitReport := fun v out =>
  _ ← ExitReport_check v;
  out ← put_nested (xr_exit v) (put_u64 out (xr_process_handle v));
  Extensions_encode_tail (xr_extensions v) out.

Definition ExitReport_read : decoder ExitReport :=
  process_handle ← dec_u64;
  exit ← dec_nested;
  extensions ← dec_extensions;
  _ ← dec_finish;
  mret (mkExitReport process_handle exit extensions).

#[export] Instance ExitReport_decode : Decode ExitReport := fun input =>
  value ← run ExitReport_read (Decoder_new input);
  _ ← ExitReport_check value;
  Ok value.








(** * Wire laws *)

(** ** Parts that a flag announces *)

Section Present.
Context `{WireLaws A wf}.

Definition present_bytes (v : option A) : list byte := match v with Some v => lp32 (encoded v) | None => [] end.
Definition present_fits (v : option A) : Prop := match v with Some v => nested v (encoded v) | None => True end.
Definition present_wf (v : option A) : Prop := match v with Some v => wf v | None => True end.

Lemma present_field present : Field put_present (dec_present present) present_bytes present_fits (λ v, present_wf v ∧ is_some v = present).
Proof using All.
  split.
  - intros [v|] out o; cbn [put_present present_bytes present_fits].
    + rewrite put_nested_ok. split; [intros (bs & Hn & ->); pose proof (nested_encoded _ _ Hn) as Eb; by rewrite <- Eb|intros [-> ?]; eauto].
    + rewrite app_nil_r. split; [by intros [= <-]|by intros [-> _]].
  - intros [v|] [Hw <-] Hf; cbn [present_bytes present_fits present_wf is_some dec_present] in *; [|apply reads_mret].
    eapply reads_bind_last; [by apply reads_nested|apply reads_mret].
  - intros d l v d' Hd E. destruct present; cbn [dec_present] in E.
    + apply decoder_bind_ok in E as (x & d1 & E1 & E). destruct (spells_nested _ _ _ _ Hd E1) as (rest & -> & Hd1 & Hw & Hn).
      apply Ok_inj in E. injection E as <- <-. by exists rest.
    + apply Ok_inj in E. injection E as <- <-. by exists l.
Qed.
End Present.

#[export] Instance present_Field_some `{WireLaws A wf} :
  Field (put_present (A := A)) (dec_present true) present_bytes present_fits (λ v, present_wf (wf := wf) v ∧ is_some v = true) | 0 := present_field true.
#[export] Instance present_Field `{WireLaws A wf} present :
  Field (put_present (A := A)) (dec_present present) present_bytes present_fits (λ v, present_wf (wf := wf) v ∧ is_some v = present) | 1 := present_field present.

(** ** Working directories *)

#[export] Instance component_Field : Field put_component dec_len_bytes_u16 lp16 (λ p, len p <= U16_MAX) (λ _, True).
Proof.
  split.
  - intros p out o. apply put_bytes_u16_ok.
  - intros p _ Hl. by apply reads_len_bytes_u16.
  - intros d l p d' Hd H. destruct (spells_len_bytes_u16 _ _ _ _ Hd H) as (r & -> & Hd' & Hl). eauto 8.
Qed.
#[export] Instance arg_Field : Field put_arg dec_len_bytes_u32 lp32 (λ p, len p <= U32_MAX) (λ _, True).
Proof.
  split.
  - intros p out o. apply put_bytes_u32_ok.
  - intros p _ Hl. by apply reads_len_bytes_u32.
  - intros d l p d' Hd H. destruct (spells_len_bytes_u32 _ _ _ _ Hd H) as (r & -> & Hd' & Hl). eauto 8.
Qed.
Definition env_entry_bytes (e : EnvEntry) : list byte := lp16 (pe_key e) ++ lp32 (pe_value e).
#[export] Instance env_entry_Field :
  Field put_env_entry dec_env_entry env_entry_bytes (λ e, len (pe_key e) <= U16_MAX ∧ len (pe_value e) <= U32_MAX) (λ _, True).
Proof.
  split.
  - intros e out o. unfold put_env_entry, env_entry_bytes. split; [intros H; enc_inv_nested; split; [bytes_eq|done]|intros (-> & ? & ?); enc_again].
  - intros e _ [Hk Hv]. unfold dec_env_entry, env_entry_bytes. read_layout. destruct e. read_layout.
  - intros d l e d' Hd H. unfold dec_env_entry in H. law_read. unfold env_entry_bytes. cbn. eexists. by rewrite <- app_assoc.
Qed.

Definition Cwd_wf (c : Cwd) : Prop :=
  match c with CwdTerminal handle => is_u64 handle | CwdFs root_handle _ => is_u64 root_handle | _ => True end.

Definition Cwd_kind (c : Cwd) : Z :=
  match c with
  | CwdServerDefault => process_CWD_SERVER_DEFAULT
  | CwdPath _ => process_CWD_PATH
  | CwdTerminal _ => process_CWD_TERMINAL
  | CwdFs _ _ => process_CWD_FS
  end.
Definition Cwd_body_bytes (c : Cwd) : list byte :=
  match c with
  | CwdServerDefault => []
  | CwdPath path => lp32 path
  | CwdTerminal handle => to_le 8 handle
  | CwdFs root_handle components => to_le 8 root_handle ++ to_le 2 (len components) ++ concat (map lp16 components)
  end.
Definition Cwd_fits (c : Cwd) : Prop :=
  match c with
  | CwdPath path => len path <= U32_MAX
  | CwdFs _ components => len components <= U16_MAX ∧ (process_MAX_PATH_COMPONENTS <? len components) = false ∧ Forall (λ p, len p <= U16_MAX) components
  | _ => True
  end.
Definition Cwd_bytes (c : Cwd) : list byte := [byte_of (Cwd_kind c)] ++ zeros 3 ++ Cwd_body_bytes c.

Lemma Cwd_encode_ok c out o : encode_to c out = Ok o ↔ o = out ++ Cwd_bytes c ∧ Cwd_validate c = Ok () ∧ Cwd_fits c.
Proof.
  unfold_encoder. unfold Cwd_bytes. destruct c as [|path|handle|root_handle components]; cbn [Cwd_kind Cwd_body_bytes Cwd_fits].
  4: split; [intros H; enc_inv_nested; split; [bytes_eq|]; split; [done|]; split; [done|];
             split; [by unfold Cwd_validate in Hv; inv_ok|done]
            |intros (-> & Hv & ? & _ & ?); enc_again; by rewrite <- app_assoc].
  all: split; [intros H; enc_inv_nested; split; [bytes_eq|done]|intros (-> & Hv & ?); enc_again; by rewrite <- ?app_assoc].
Qed.

Lemma len_component p : 2 <= len (lp16 p).
Proof. rewrite len_lp16. pose proof (len_nonneg p). lia. Qed.

Lemma Cwd_reads_body c : Cwd_wf c → Cwd_fits c → reads (Cwd_read_body (Cwd_kind c)) (Cwd_body_bytes c) c.
Proof.
  destruct c; cbn [Cwd_wf Cwd_body_bytes Cwd_fits]; intros Hw Hf; destruct_and?; unfold Cwd_read_body, Cwd_kind; take_branch; try by read_layout.
  read_layout. eapply reads_bind_last; [|apply reads_mret].
  apply field_reads_counted; [lia|by intros; apply len_component|by apply Forall_true|assumption].
Qed.

Lemma Cwd_spells_body k : spells (Cwd_read_body k) Cwd_body_bytes (λ c, Cwd_wf c ∧ Cwd_fits c ∧ k = Cwd_kind c).
Proof.
  intros d l c d' Hd H. unfold Cwd_read_body in H. split_match H; law_read; try done;
    match goal with H : (_ =? _) = true |- _ => apply Z.eqb_eq in H; subst end; destruct_and?; law_count;
    eexists; (split; [cbn; rewrite <- ?app_assoc; reflexivity|]); split_and!; done.
Qed.
#[local] Hint Extern 1 (spells (Cwd_read_body ?k) _ _) => exact (Cwd_spells_body k) : spells.

#[export] Instance Cwd_WireLaws : WireLaws Cwd Cwd_wf.
Proof.
  eapply wire_laws_direct; [|reflexivity|..].
  - intros v out o. unfold encode. setoid_rewrite Cwd_encode_ok. split.
    + intros (-> & ? & ?). eexists. by split.
    + by intros (bs & (-> & ? & ?) & ->).
  - intros v bs Hw (-> & Hv & Hf)%Cwd_encode_ok. split; [done|]. unfold Cwd_bytes. law_reader.
    reads_step ltac:(apply reads_u8; by destruct v). reads_step ltac:(apply (reads_reserved 3)).
    reads_step ltac:(by apply zeros_ok). reads_step ltac:(by apply Cwd_reads_body). read_layout.
  - intros bs v d' Hd H Hc. unfold_head H. law_read. destruct_and?. subst. split; [done|]. unfold encode. apply Cwd_encode_ok.
    rewrite app_nil_r. by split_and!.
Qed.

(** ** Spawns *)

Lemma len_arg p : 4 <= len (lp32 p).
Proof. rewrite len_lp32. pose proof (len_nonneg p). lia. Qed.
Lemma len_env_entry e : 6 <= len (env_entry_bytes e).
Proof. unfold env_entry_bytes. autorewrite with len. pose proof (len_nonneg (pe_key e)). pose proof (len_nonneg (pe_value e)). lia. Qed.

(** The counts that a valid spawn has. *)
Lemma Spawn_counts v :
  Spawn_validate v = Ok () →
  ((len (sp_argv v) =? 0) || (process_MAX_ARGC <? len (sp_argv v))) = false ∧ (process_MAX_ENVC_EXTENDED <? len (sp_env v)) = false.
Proof.
  intros H. unfold Spawn_validate, validate_argv, validate_env in H. inv_ok.
  repeat match goal with H : _ || _ = false |- _ => apply orb_false_iff in H as [? ?] end.
  split; [|done]. apply orb_false_iff. split; [|done]. by destruct (sp_argv v).
Qed.

Definition Spawn_wf (v : Spawn) : Prop :=
  length (sp_operation_id v) = 16%nat ∧ is_u16 (sp_flags v) ∧ Cwd_wf (sp_cwd v) ∧ is_u64 (sp_stdout_receive_credit v)
  ∧ is_u64 (sp_stderr_receive_credit v) ∧ exts_wf (sp_extensions v).

#[export] Instance Spawn_WireLaws : WireLaws Spawn Spawn_wf.
Proof.
  eapply wire_laws_direct; [law_appends|reflexivity|..].
  - intros v bs Hw He. law_written v Hw He. split; [done|]. destruct (Spawn_counts v Hv) as [Ha He]. law_reader. read_layout.
    reads_step ltac:(apply field_reads_counted; [lia|by intros; apply len_arg|by apply Forall_true|assumption]). read_layout.
    reads_step ltac:(apply field_reads_counted; [lia|by intros; apply len_env_entry|by apply Forall_true|assumption]).
    destruct v. read_layout.
  - intros bs v d' Hd H Hc. unfold_head H. law_read. destruct_and?. law_count. law_wf. rewrite app_nil_r. unfold_encoder.
    match goal with H : Forall _ ?l |- _ => match type of l with list EnvEntry => apply List.Forall_and_inv in H as [_ ?] end end. enc_again.
Qed.

(** ** Attaches, control, waits and exits *)

Definition Attach_wf (v : Attach) : Prop :=
  is_u64 (at_process_handle v) ∧ is_u16 (at_flags v) ∧ is_u64 (at_stdout_receive_credit v) ∧ is_u64 (at_stderr_receive_credit v)
  ∧ exts_wf (at_extensions v).
#[export] Instance Attach_WireLaws : WireLaws Attach Attach_wf.
Proof. law_direct. Qed.

Definition Control_wf (v : Control) : Prop :=
  is_u64 (co_process_handle v) ∧ length (co_operation_id v) = 16%nat ∧ is_u16 (co_value v) ∧ exts_wf (co_extensions v).
#[export] Instance Control_WireLaws : WireLaws Control Control_wf.
Proof. law_direct. Qed.

Definition ControlResult_wf (v : ControlResult) : Prop := is_u64 (cr_state_revision v).
#[export] Instance ControlResult_WireLaws : WireLaws ControlResult ControlResult_wf.
Proof. law_direct. Qed.

Definition Wait_wf (v : Wait) : Prop := is_u64 (wa_process_handle v) ∧ is_u64 (wa_timeout_ns v) ∧ exts_wf (wa_extensions v).
#[export] Instance Wait_WireLaws : WireLaws Wait Wait_wf.
Proof. law_direct. Qed.

Definition ExitRecord_wf (v : ExitRecord) : Prop := is_u8 (ex_reason v) ∧ is_i32 (ex_code v) ∧ is_u64 (ex_exited_server_ns v).
#[export] Instance ExitRecord_WireLaws : WireLaws ExitRecord ExitRecord_wf.
Proof. law_direct. Qed.

Definition RemovedProcess_wf (v : RemovedProcess) : Prop := is_u64 (rp_process_handle v).
#[export] Instance RemovedProcess_WireLaws : WireLaws RemovedProcess RemovedProcess_wf.
Proof. law_direct. Qed.

Definition ExitReport_wf (v : ExitReport) : Prop := is_u64 (xr_process_handle v) ∧ ExitRecord_wf (xr_exit v) ∧ exts_wf (xr_extensions v).
#[export] Instance ExitReport_WireLaws : WireLaws ExitReport ExitReport_wf.
Proof. law_direct. Qed.

(** ** Streams *)

Lemma bundle_flags_facts i e m :
  let f := bundle_flags i e m in
  is_u16 f ∧ has_other_bits f 15 = false ∧ negb (has_bits f 2) = false ∧ has_bits f 1 = i ∧ has_bits f 4 = e ∧ has_bits f 8 = m.
Proof. by destruct i, e, m. Qed.

Lemma bundle_flags_inv f :
  0 <= f → has_other_bits f 15 = false → negb (has_bits f 2) = false → bundle_flags (has_bits f 1) (has_bits f 4) (has_bits f 8) = f.
Proof.
  intros Hf H1 H2. assert (0 <= f < 16) as Hb.
  { unfold has_other_bits in H1. rewrite negb_false_iff, Z.eqb_eq, <- Z.ldiff_land in H1.
    rewrite <- (Z.lor_ldiff_and f 15), H1, Z.lor_0_l. change 15 with (Z.ones 4). rewrite Z.land_ones by lia.
    pose proof (Z.mod_pos_bound f (2 ^ 4)). lia. }
  assert (Forall (λ f, negb (has_bits f 2) = false → bundle_flags (has_bits f 1) (has_bits f 4) (has_bits f 8) = f) (seqZ 0 16)) as HF
    by (repeat (constructor; [first [discriminate | reflexivity]|]); constructor).
  rewrite Forall_forall in HF. apply HF; [|done]. apply elem_of_seqZ. lia.
Qed.

Definition StreamBundle_wf (v : StreamBundle) : Prop :=
  is_u64 (bu_process_handle v) ∧ is_u64 (bu_stdout_lifetime_offset v) ∧ is_u64 (bu_stderr_lifetime_offset v)
  ∧ present_wf (wf := Descriptor_wf) (bu_stdin v) ∧ Descriptor_wf (bu_stdout v) ∧ present_wf (wf := Descriptor_wf) (bu_stderr v)
  ∧ exts_wf (bu_extensions v).

#[export] Instance StreamBundle_WireLaws : WireLaws StreamBundle StreamBundle_wf.
Proof.
  eapply wire_laws_direct; [law_appends|reflexivity|..].
  - intros v bs Hw He. law_written v Hw He. split; [done|].
    destruct (bundle_flags_facts (is_some (bu_stdin v)) (is_some (bu_stderr v)) (bu_merged_stderr v)) as (? & ? & ? & Hi & He & Hm).
    law_reader. read_layout. change (as_u16 process_BUNDLE_STDIN) with 1. change (as_u16 process_BUNDLE_STDERR) with 4.
    change (as_u16 process_BUNDLE_MERGED_STDERR) with 8. rewrite Hi, He, Hm.
    reads_step ltac:(by apply (field_reads (get := dec_present _))). read_layout.
    reads_step ltac:(by apply (field_reads (get := dec_present _))). destruct v. read_layout.
  - intros bs v d' Hd H Hc. unfold_head H. law_read. change (as_u16 process_BUNDLE_FLAGS) with 15 in *. change (as_u16 process_BUNDLE_STDIN) with 1 in *.
    change (as_u16 process_BUNDLE_STDOUT) with 2 in *. change (as_u16 process_BUNDLE_STDERR) with 4 in *. change (as_u16 process_BUNDLE_MERGED_STDERR) with 8 in *.
    destruct_and?. law_wf. rewrite app_nil_r. unfold_encoder. cbn [bu_stdin bu_stderr bu_merged_stderr].
    repeat match goal with H : is_some _ = has_bits _ _ |- _ => rewrite H; clear H end. rewrite bundle_flags_inv by done. enc_again.
Qed.

(** ** The catalogue *)

Definition ProcessRecord_wf (v : ProcessRecord) : Prop :=
  is_u64 (pr_process_handle v) ∧ is_u8 (pr_lifecycle v) ∧ is_u8 (pr_stream_state v) ∧ is_u16 (pr_flags v) ∧ is_u64 (pr_native_pid v)
  ∧ length (pr_owner_session v) = 16%nat ∧ is_u64 (pr_stdin_received v) ∧ is_u64 (pr_stdout_produced v) ∧ is_u64 (pr_stderr_produced v)
  ∧ is_u64 (pr_retention_deadline_server_ns v) ∧ present_wf (wf := ExitRecord_wf) (pr_exit v) ∧ exts_wf (pr_extensions v).

Lemma presence_facts (b : bool) : is_u8 (of_bool b) ∧ (1 <? of_bool b) = false ∧ negb (of_bool b =? 0) = b.
Proof. by destruct b. Qed.
Lemma presence_inv z : 0 <= z → (1 <? z) = false → of_bool (negb (z =? 0)) = z.
Proof. intros. assert (z = 0 ∨ z = 1) as [-> | ->] by lia; done. Qed.

#[export] Instance ProcessRecord_WireLaws : WireLaws ProcessRecord ProcessRecord_wf.
Proof.
  eapply wire_laws_direct; [law_appends|reflexivity|..].
  - intros v bs Hw He. law_written v Hw He. split; [done|]. destruct (presence_facts (is_some (pr_exit v))) as (? & ? & Hp).
    law_reader. read_layout. rewrite Hp.
    reads_step ltac:(by apply (field_reads (get := dec_present _))). destruct v. read_layout.
  - intros bs v d' Hd H Hc. unfold_head H. law_read. destruct_and?. law_wf. rewrite app_nil_r. unfold_encoder. cbn [pr_exit].
    match goal with H : is_some _ = negb _ |- _ => rewrite H; clear H end. rewrite presence_inv by done. enc_again.
Qed.

(** * What KEEP_OUTPUT dropped, from the server to the client *)

(** ** The server *)














(** ** The client *)


(** ** Counts of a text *)








(** ** Streams that ended *)










(** ** The report arrives *)










(** ** Every exit can be reported *)







(** ** End to end *)





