(* ===== verification/ReadOnly.v ===== *)
(** * ReadOnly: sessions made read-only on their way to the server
    ([crates/yas/src/read_only.rs])

    A relay feeds [ReadOnlyIngress] what a client sends and passes on what it
    returns. The first frame of the stream, the HELLO, is rewritten to ask for a
    read-only session; whatever follows it is passed through. *)

From S2P Require Import Prelude Schema Codec CodecFacts Wire Frame FrameFacts FrameProps Core CoreWire.

Definition READ_ONLY_TAG : Z := as_u16 core_CLIENT_HELLO_READ_ONLY_SESSION_EXTENSION.

Definition is_read_only (hello : ClientHello) : bool := existsb (λ e, ext_tag e =? READ_ONLY_TAG) (hc_extensions hello).

(** [slice.partition_point(f)]: where the elements that satisfy [f] end, in a slice
    in which they come first. *)
Fixpoint partition_point {A} (f : A → bool) (l : list A) : nat :=
  match l with x :: l => if f x then S (partition_point f l) else 0%nat | [] => 0%nat end.

(** [vec.insert(position, x)] *)
Definition vec_insert {A} (position : nat) (x : A) (l : list A) : list A := take position l ++ x :: drop position l.

Definition set_extensions (hello : ClientHello) (extensions : Extensions) : ClientHello :=
  mkClientHello (hc_min_minor hello) (hc_max_minor hello) (hc_receive hello) (hc_client_instance hello) (hc_client_name hello)
    (hc_client_release hello) (hc_families hello) (hc_codecs hello) extensions.

Definition restrict (hello : ClientHello) : ClientHello :=
  if is_read_only hello then hello else
  let position := partition_point (λ e, ext_tag e <? READ_ONLY_TAG) (hc_extensions hello) in
  set_extensions hello (vec_insert position (mkExtension READ_ONLY_TAG true []) (hc_extensions hello)).

Inductive ReadOnlyError := NotYas | HelloTooLarge (length : Z) | InvalidHello (error : Error).

(** [.map_err(ReadOnlyError::InvalidHello)] *)
Definition invalid_hello {A} (r : result Error A) : result ReadOnlyError A :=
  match r with Ok a => Ok a | Err e => Err (InvalidHello e) end.

Record ReadOnlyIngress := mkIngress { ri_pending : list byte; ri_negotiated : bool }.

Definition ReadOnlyIngress_new : ReadOnlyIngress := mkIngress [] false.
Definition is_negotiated (r : ReadOnlyIngress) : bool := ri_negotiated r.

Section Ingress.
Context (compress : list byte → list byte) (decompress : list byte → Z → option (list byte)).

(** What [push] does with a HELLO that is complete: [pending] up to [hello_end]. *)
Definition rewrite_hello (codec : FrameCodec) (pending : list byte) (hello_end : Z) : result ReadOnlyError (list byte) :=
  let p := length PREFACE in
  decoded ← invalid_hello (FrameCodec_decode_stream decompress codec (drop p (take (Z.to_nat hello_end) pending)));
  let '(frame, consumed) := decoded : Frame * Z in
  _ ← reject_if (negb (consumed =? hello_end - len PREFACE)) (InvalidHello (TrailingBytes (hello_end - len PREFACE - consumed)));
  let request_id := default 0 (fh_request_id (fr_header frame)) in
  _ ← reject_if (negb (bool_decide (fr_header frame = FrameHeader_request family_CORE core_request_HELLO request_id))
                 || fh_compressed (fr_header frame))
        (InvalidHello (Invalid "first frame (not a Core HELLO request)"));
  hello ← invalid_hello (decode (fr_payload frame));
  payload ← invalid_hello (encode (restrict hello));
  encoded ← invalid_hello (FrameCodec_encode_stream compress codec (mkFrame (fr_header frame) payload));
  Ok (PREFACE ++ encoded ++ drop (Z.to_nat hello_end) pending).

(** [push] on what is pending: what goes out, if the HELLO is complete. [None] is the
    panic of [expect] in [FrameCodec::pre_hello]. *)
Definition push_pending (pending : list byte) : option (result ReadOnlyError (option (list byte))) :=
  let p := length PREFACE in
  let compared := Nat.min (length pending) p in
  if negb (bool_decide (take compared pending = take compared PREFACE)) then Some (Err NotYas)
  else if len pending <? len PREFACE + 4 then Some (Ok None)
  else
    let length := from_le (take 4 (drop p pending)) in
    if max_wire_frame FrameLimits_pre_hello <? length then Some (Err (HelloTooLarge length))
    else
      let hello_end := len PREFACE + 4 + length in
      if len pending <? hello_end then Some (Ok None)
      else
        codec ← FrameCodec_pre_hello;
        Some (out ← rewrite_hello codec pending hello_end; Ok (Some out)).

Definition push (r : ReadOnlyIngress) (bytes : list byte) : option (result ReadOnlyError (option (list byte)) * ReadOnlyIngress) :=
  if ri_negotiated r then Some (Ok (if is_nil bytes then None else Some bytes), r)
  else
    let pending := ri_pending r ++ bytes in
    out ← push_pending pending;
    Some (out, match out with Ok (Some _) => mkIngress [] true | _ => mkIngress pending false end).

(** What a relay sends when it pushes chunk after chunk, and the error it stops at. *)
Fixpoint push_all (r : ReadOnlyIngress) (chunks : list (list byte)) : option (list byte * option ReadOnlyError * ReadOnlyIngress) :=
  match chunks with
  | [] => Some ([], None, r)
  | chunk :: chunks =>
      pushed ← push r chunk;
      match pushed with
      | (Err e, r) => Some ([], Some e, r)
      | (Ok out, r) => '(sent, e, r) ← push_all r chunks; Some (default [] out ++ sent, e, r)
      end
  end.
End Ingress.

(** * What the HELLO becomes *)

Definition read_only_session : Extension := mkExtension READ_ONLY_TAG true [].

Lemma is_read_only_true hello : is_read_only hello = true ↔ ∃ e, e ∈ hc_extensions hello ∧ ext_tag e = READ_ONLY_TAG.
Proof.
  unfold is_read_only. rewrite existsb_exists. setoid_rewrite <- list_elem_of_In. by setoid_rewrite Z.eqb_eq.
Qed.

Lemma elem_of_vec_insert {A} n (x y : A) l : y ∈ vec_insert n x l ↔ y = x ∨ y ∈ l.
Proof. unfold vec_insert. rewrite <- (take_drop n l) at 3. set_solver. Qed.

Lemma len_vec_insert {A} n (x : A) l : len (vec_insert n x l) = len l + 1.
Proof. unfold vec_insert. rewrite <- (take_drop n l) at 3. rewrite !len_app, len_cons. lia. Qed.

(** A valid HELLO that asks for a read-only session asks properly. *)
Lemma read_only_valid hello e :
  ClientHello_validate hello = Ok () → e ∈ hc_extensions hello → ext_tag e = READ_ONLY_TAG → e = read_only_session.
Proof.
  intros Hv He Ht. unfold ClientHello_validate in Hv. inv_ok. apply for_each_ok in Hv. rewrite Forall_forall in Hv. apply list_elem_of_In in He. specialize (Hv e He).
  unfold client_extension_check in Hv. rewrite Ht in Hv. cbn in Hv. destruct e as [tag required value]. cbn in *.
  destruct required; [|done]. by destruct value; [subst|].
Qed.

(** The restricted HELLO is the same but for the extension, which is the only one added. *)
Lemma restrict_adds hello e :
  ClientHello_validate hello = Ok () → e ∈ hc_extensions (restrict hello) ↔ e = read_only_session ∨ e ∈ hc_extensions hello.
Proof.
  intros Hv. unfold restrict. destruct (is_read_only hello) eqn:E.
  - split; [by right|]. intros [->|?]; [|done]. apply is_read_only_true in E as (e' & He & Ht). by rewrite <- (read_only_valid hello e').
  - cbn [hc_extensions set_extensions]. apply elem_of_vec_insert.
Qed.

Lemma restrict_same hello : restrict hello = set_extensions hello (hc_extensions (restrict hello)).
Proof. unfold restrict. destruct (is_read_only hello); by destruct hello. Qed.

Lemma restrict_wf hello : ClientHello_wf hello → ClientHello_wf (restrict hello).
Proof.
  intros Hw. unfold restrict. destruct (is_read_only hello); [done|]. unfold ClientHello_wf in *. cbn. split_and!; try apply Hw.
  unfold exts_wf in *. apply Forall_forall. intros e [->|He]%list_elem_of_In%elem_of_vec_insert; [done|].
  destruct Hw as (_ & _ & _ & _ & _ & _ & _ & _ & Hx). rewrite Forall_forall in Hx. by apply Hx, list_elem_of_In.
Qed.

(** ** It stays valid *)

Lemma tags_ordered_insert prev exts :
  tags_ordered prev exts = true → tag_not_after prev READ_ONLY_TAG = false → existsb (λ e, ext_tag e =? READ_ONLY_TAG) exts = false →
  tags_ordered prev (vec_insert (partition_point (λ e, ext_tag e <? READ_ONLY_TAG) exts) read_only_session exts) = true.
Proof.
  revert prev. induction exts as [|e exts IH]; intros prev Ho Hp Hx; unfold vec_insert in *; cbn [partition_point].
  - cbn [take drop app tags_ordered]. cbn. by rewrite Hp.
  - cbn [existsb] in Hx. apply orb_false_iff in Hx as [Hne Hx]. cbn [tags_ordered] in Ho. apply andb_true_iff in Ho as [Ho1 Ho2].
    destruct (Z.ltb_spec (ext_tag e) READ_ONLY_TAG) as [Hlt|Hge].
    + cbn [take drop app tags_ordered]. rewrite Ho1. cbn [andb]. apply IH; [done| |done]. cbn. lia.
    + cbn [take drop app tags_ordered]. change (ext_tag read_only_session) with READ_ONLY_TAG. rewrite Hp, Ho2. cbn. lia.
Qed.

Lemma restrict_valid hello :
  ClientHello_validate hello = Ok () → len (hc_extensions hello) < HARD_MAX_EXTENSION_ENTRIES → ClientHello_validate (restrict hello) = Ok ().
Proof.
  intros Hv Hl. unfold restrict. destruct (is_read_only hello) eqn:E; [done|].
  unfold ClientHello_validate in *. cbn [hc_min_minor hc_max_minor hc_receive hc_families hc_codecs hc_extensions set_extensions].
  repeat (apply bind_ok in Hv as ([] & H & Hv); rewrite H; cbn [mbind result_bind]; first [clear H | idtac]).
  apply bind_ok in Hv as ([] & [Hn Ho]%Extensions_validate_ok & Hv). fold read_only_session. apply bind_ok. exists (). split.
  - apply Extensions_validate_ok. rewrite len_vec_insert. split; [lia|]. by apply tags_ordered_insert.
  - apply for_each_ok in Hv. apply for_each_ok. rewrite Forall_forall in *. intros e [->|He]%list_elem_of_In%elem_of_vec_insert; [done|].
    by apply Hv, list_elem_of_In.
Qed.

Lemma entries_bytes_insert n exts : len (entries_bytes (vec_insert n read_only_session exts)) = len (entries_bytes exts) + 8.
Proof.
  unfold vec_insert, entries_bytes. rewrite <- (take_drop n exts) at 3. rewrite !map_app, !concat_app. cbn [map concat].
  rewrite !len_app. change (len (entry_bytes read_only_session)) with 8. lia.
Qed.

Lemma entries_bytes_restrict hello :
  len (entries_bytes (hc_extensions (restrict hello))) <= len (entries_bytes (hc_extensions hello)) + 8.
Proof.
  unfold restrict. destruct (is_read_only hello); [lia|]. cbn [hc_extensions set_extensions]. rewrite entries_bytes_insert. lia.
Qed.

(** A restricted HELLO is written in at most eight bytes more. *)
Lemma restrict_encodes hello payload :
  encode hello = Ok payload → len (hc_extensions hello) < HARD_MAX_EXTENSION_ENTRIES → len payload <= transport_PRE_HELLO_MAX_FRAME →
  ∃ payload', encode (restrict hello) = Ok payload' ∧ len payload' <= len payload + 8.
Proof.
  intros He Hn Hl. apply ClientHello_encode_ok in He as (-> & Hv & Hname & Hrel & Hx).
  exists (ClientHello_bytes (restrict hello)). pose proof (entries_bytes_restrict hello) as Hb.
  assert (len (ClientHello_bytes (restrict hello)) = len (ClientHello_bytes hello) - len (entries_bytes (hc_extensions hello))
          + len (entries_bytes (hc_extensions (restrict hello)))) as Hlen.
  { rewrite (restrict_same hello) at 1. unfold ClientHello_bytes, tail_bytes, lp32.
    cbn [set_extensions hc_min_minor hc_max_minor hc_receive hc_client_instance hc_client_name hc_client_release hc_families hc_codecs hc_extensions].
    rewrite !len_app, !len_to_le. lia. }
  rewrite app_nil_l in *. split; [|lia]. apply ClientHello_encode_ok. split; [done|]. split; [by apply restrict_valid|].
  rewrite (restrict_same hello). cbn [set_extensions hc_min_minor hc_max_minor hc_receive hc_client_instance hc_client_name hc_client_release hc_families hc_codecs hc_extensions].
  split_and!; try done.
  assert (len (entries_bytes (hc_extensions hello)) <= len (ClientHello_bytes hello)).
  { unfold ClientHello_bytes, tail_bytes, lp32. rewrite !len_app.
    repeat match goal with |- context [len ?l] => lazymatch goal with H : 0 <= len l |- _ => fail | _ => pose proof (len_nonneg l) end end. lia. }
  unfold transport_PRE_HELLO_MAX_FRAME, U32_MAX in *. lia.
Qed.

(** * The stream *)

(** [codec] is [FrameCodec::pre_hello()]. *)
Record HelloCodec (codec : FrameCodec) : Prop := { hello_codec_is : FrameCodec_pre_hello = Some codec }.

Lemma invalid_hello_ok {A} (r : result Error A) a : invalid_hello r = Ok a ↔ r = Ok a.
Proof. destruct r; cbn; naive_solver. Qed.

Lemma frame_decodes compress decompress
    (lz4_roundtrip : ∀ p, decompress (compress p) (len p) = Some p) (lz4_bounded : ∀ z n p, decompress z n = Some p → len p <= n)
    c (Hc : FrameCodec_wf c) f bs :
  FrameHeader_wf (fr_header f) → FrameCodec_encode compress c f = Ok bs → FrameCodec_decode decompress c bs = Ok f.
Proof. intros Hw (-> & Hf & Ha & Hl)%FrameCodec_encode_ok; [|done]. by apply FrameCodec_decode_bytes. Qed.

Section Stream.
Context (compress : list byte → list byte) (decompress : list byte → Z → option (list byte)).
Context (lz4_roundtrip : ∀ p, decompress (compress p) (len p) = Some p).
Context (lz4_bounded : ∀ z n p, decompress z n = Some p → len p <= n).

Context (codec : FrameCodec) (codec_ok : HelloCodec codec).
Abbreviation pend := (push_pending compress decompress).

Lemma codec_wf : FrameCodec_wf codec.
Proof. by apply FrameCodec_pre_hello_ok, hello_codec_is. Qed.
Lemma codec_limits : fc_limits codec = FrameLimits_pre_hello.
Proof. by apply FrameCodec_pre_hello_ok, hello_codec_is. Qed.

(** The frame that takes the place of the one in [body]. *)
Definition rewritten (body : list byte) : result ReadOnlyError (list byte) :=
  frame ← invalid_hello (FrameCodec_decode decompress codec body);
  let request_id := default 0 (fh_request_id (fr_header frame)) in
  _ ← reject_if (negb (bool_decide (fr_header frame = FrameHeader_request family_CORE core_request_HELLO request_id))
                 || fh_compressed (fr_header frame))
        (InvalidHello (Invalid "first frame (not a Core HELLO request)"));
  hello ← invalid_hello (decode (fr_payload frame));
  payload ← invalid_hello (encode (restrict hello));
  invalid_hello (FrameCodec_encode_stream compress codec (mkFrame (fr_header frame) payload)).

Lemma decode_stream_lp32 body rest :
  len body <= max_wire_frame FrameLimits_pre_hello →
  FrameCodec_decode_stream decompress codec (lp32 body ++ rest) = (frame ← FrameCodec_decode decompress codec body; Ok (frame, 4 + len body)).
Proof.
  intros Hl. unfold FrameCodec_decode_stream. pose proof (len_nonneg rest). pose proof (len_nonneg body).
  rewrite take_lp32, from_to_le by (cbn in Hl |- *; unfold transport_PRE_HELLO_MAX_FRAME in Hl; lia).
  autorewrite with len. rewrite reject_if_false, bind_is_ok by lia.
  destruct (check_wire_len codec (len body)) as [u|e] eqn:E; cycle 1.
  { unfold FrameCodec_decode. rewrite E. reflexivity. }
  rewrite !bind_is_ok.
  rewrite (proj2 (checked_add_u64_some 4 (len body) _)) by (cbn in Hl; unfold transport_PRE_HELLO_MAX_FRAME in Hl; unfold U64_MAX; split; [done|lia]).
  cbn [ok_or]. rewrite bind_is_ok, slice_get_lp32. cbn [ok_or]. rewrite bind_is_ok. reflexivity.
Qed.

Lemma rewrite_hello_eq body rest :
  len body <= max_wire_frame FrameLimits_pre_hello →
  rewrite_hello compress decompress codec (PREFACE ++ lp32 body ++ rest) (len PREFACE + 4 + len body)
  = (encoded ← rewritten body; Ok (PREFACE ++ encoded ++ rest)).
Proof.
  intros Hl. pose proof (len_nonneg body). unfold rewrite_hello.
  assert (Z.to_nat (len PREFACE + 4 + len body) = length (PREFACE ++ lp32 body)) as En.
  { rewrite length_app. pose proof (len_lp32 body). unfold len in *. lia. }
  rewrite En, app_assoc, take_app_length, drop_app_length. rewrite (drop_app_length PREFACE (lp32 body)).
  rewrite <- (app_nil_r (lp32 body)) at 1. rewrite decode_stream_lp32 by done. unfold rewritten.
  destruct (FrameCodec_decode decompress codec body) as [frame|e]; [|done]. cbn [invalid_hello mbind result_bind].
  replace (negb (4 + len body =? len PREFACE + 4 + len body - len PREFACE)) with false by lia. cbn [reject_if mbind result_bind].
  destruct (reject_if _ _); [|done]. cbn [mbind result_bind]. destruct (decode (fr_payload frame)); [|done]. cbn [invalid_hello mbind result_bind].
  destruct (encode (restrict _)); [|done]. cbn [invalid_hello mbind result_bind]. by destruct (FrameCodec_encode_stream _ _ _).
Qed.

(** ** What is pending *)

Definition starts_wrong (p : list byte) : Prop := take (Nat.min (length p) (length PREFACE)) p ≠ take (Nat.min (length p) (length PREFACE)) PREFACE.

Lemma pend_wrong p : starts_wrong p → pend p = Some (Err NotYas).
Proof. intros H. unfold push_pending. by rewrite bool_decide_eq_false_2. Qed.

Lemma starts_wrong_app p b : starts_wrong p → starts_wrong (p ++ b).
Proof.
  unfold starts_wrong. intros H E. apply H. rewrite length_app in E.
  apply (f_equal (take (Nat.min (length p) (length PREFACE)))) in E. rewrite !take_take in E.
  replace (Nat.min (Nat.min (length p) (length PREFACE)) (Nat.min (length p + length b) (length PREFACE)))
    with (Nat.min (length p) (length PREFACE)) in E by lia.
  rewrite <- E. symmetry. apply take_app_le. lia.
Qed.

Lemma preface_right l : ¬ starts_wrong (PREFACE ++ l).
Proof.
  unfold starts_wrong. rewrite length_app. replace (Nat.min _ _) with (length PREFACE) by lia. intros H. apply H. by rewrite take_app_length, take_ge.
Qed.

Lemma pend_body body rest :
  len body <= max_wire_frame FrameLimits_pre_hello →
  pend (PREFACE ++ lp32 body ++ rest) = Some (encoded ← rewritten body; Ok (Some (PREFACE ++ encoded ++ rest))).
Proof.
  intros Hl. pose proof (len_nonneg rest). pose proof (len_nonneg body). unfold push_pending. rewrite bool_decide_eq_true_2.
  2:{ destruct (decide (starts_wrong (PREFACE ++ lp32 body ++ rest))) as [Hw|Hw]; [by apply preface_right in Hw|]. unfold starts_wrong in Hw.
      by apply dec_stable in Hw. }
  cbn [negb]. rewrite drop_app_length, take_lp32, from_to_le by (cbn in Hl |- *; unfold transport_PRE_HELLO_MAX_FRAME in Hl; lia).
  rewrite !len_app, len_lp32. replace (_ <? len PREFACE + 4) with false by lia.
  replace (max_wire_frame FrameLimits_pre_hello <? len body) with false by lia.
  replace (_ <? len PREFACE + 4 + len body) with false by lia. rewrite (hello_codec_is _ codec_ok). cbn [mbind option_bind].
  rewrite rewrite_hello_eq by done. by destruct (rewritten body).
Qed.

Lemma pend_large n rest :
  is_u32 n → max_wire_frame FrameLimits_pre_hello < n → pend (PREFACE ++ to_le 4 n ++ rest) = Some (Err (HelloTooLarge n)).
Proof.
  intros Hn Hl. pose proof (len_nonneg rest). unfold push_pending. rewrite bool_decide_eq_true_2.
  2:{ destruct (decide (starts_wrong (PREFACE ++ to_le 4 n ++ rest))) as [Hw|Hw]; [by apply preface_right in Hw|]. unfold starts_wrong in Hw.
      by apply dec_stable in Hw. }
  cbn [negb]. rewrite drop_app_length, take_app_length' by by rewrite length_to_le. rewrite from_to_le by (cbn; lia).
  rewrite !len_app, len_to_le. destruct (Z.ltb_spec (len PREFACE + (Z.of_nat 4 + len rest)) (len PREFACE + 4)); [lia|].
  by destruct (Z.ltb_spec (max_wire_frame FrameLimits_pre_hello) n); [|lia].
Qed.

Lemma pend_cases p :
  starts_wrong p ∨ pend p = Some (Ok None)
  ∨ (∃ n rest, p = PREFACE ++ to_le 4 n ++ rest ∧ is_u32 n ∧ max_wire_frame FrameLimits_pre_hello < n)
  ∨ ∃ body rest, p = PREFACE ++ lp32 body ++ rest ∧ len body <= max_wire_frame FrameLimits_pre_hello.
Proof.
  unfold push_pending. destruct (bool_decide_reflect (take (Nat.min (length p) (length PREFACE)) p = take (Nat.min (length p) (length PREFACE)) PREFACE)) as [Hp|Hp];
    [|by left]. right. cbn [negb]. destruct (Z.ltb_spec (len p) (len PREFACE + 4)) as [Hs|Hs]; [by left|].
  assert (length PREFACE + 4 <= length p)%nat as Hlen by (unfold len in Hs; lia).
  replace (Nat.min (length p) (length PREFACE)) with (length PREFACE) in Hp by lia. rewrite (take_ge PREFACE) in Hp by lia.
  assert (p = PREFACE ++ drop (length PREFACE) p) as Ep by (rewrite <- Hp at 1; symmetry; apply take_drop).
  assert (length (drop (length PREFACE) p) = (length p - length PREFACE)%nat) as Hq by apply length_drop.
  set (q := drop (length PREFACE) p) in *. set (n := from_le (take 4 q)) in *.
  assert (q = to_le 4 n ++ drop 4 q) as Eq.
  { unfold n. rewrite to_from_le by (rewrite length_take; lia). symmetry. apply take_drop. }
  assert (is_u32 n) as Hn.
  { pose proof (from_le_bound (take 4 q)) as Hb. unfold len in Hb. rewrite length_take in Hb.
    replace (Nat.min 4 (length q)) with 4%nat in Hb by lia. exact Hb. }
  clearbody n q.
  destruct (Z.ltb_spec (max_wire_frame FrameLimits_pre_hello) n) as [Hm|Hm].
  { right. left. exists n, (drop 4 q). rewrite <- Eq. split; [exact Ep|]. split; [exact Hn|exact Hm]. }
  destruct (Z.ltb_spec (len p) (len PREFACE + 4 + n)) as [Hc|Hc]; [by left|]. right. right.
  exists (take (Z.to_nat n) (drop 4 q)), (drop (Z.to_nat n) (drop 4 q)).
  assert (len (take (Z.to_nat n) (drop 4 q)) = n) as Hb.
  { unfold len in *. rewrite length_take, length_drop. lia. }
  split; [|lia]. unfold lp32. rewrite Hb, <- app_assoc, take_drop, <- Eq. exact Ep.
Qed.

(** More bytes change neither an error nor the HELLO that went out. *)
Lemma pend_app p b v :
  pend p = Some v →
  match v with
  | Err e => pend (p ++ b) = Some (Err e)
  | Ok (Some out) => pend (p ++ b) = Some (Ok (Some (out ++ b)))
  | Ok None => True
  end.
Proof using codec_ok.
  intros E. destruct (pend_cases p) as [Hw|[Hn|[(n & rest & -> & Hn & Hm)|(body & rest & -> & Hl)]]].
  - rewrite (pend_wrong _ Hw) in E. injection E as <-. by apply pend_wrong, starts_wrong_app.
  - rewrite Hn in E. by injection E as <-.
  - rewrite pend_large in E by done. injection E as <-. rewrite <- !app_assoc. by apply pend_large.
  - rewrite pend_body in E by done. injection E as <-. rewrite <- !app_assoc, pend_body by done.
    destruct (rewritten body) as [encoded|]; [|done]. rewrite !bind_is_ok. cbn iota. rewrite (app_assoc encoded rest b). reflexivity.
Qed.

Lemma pend_defined p : ∃ v, pend p = Some v.
Proof using codec_ok.
  destruct (pend_cases p) as [Hw|[Hn|[(n & rest & -> & Hn & Hm)|(body & rest & -> & Hl)]]];
    eauto using pend_wrong, pend_large, pend_body.
Qed.

(** ** Chunk by chunk *)

#[local] Opaque push_pending rewritten.

Lemma push_all_negotiated chunks :
  push_all compress decompress (mkIngress [] true) chunks = Some (concat chunks, None, mkIngress [] true).
Proof.
  induction chunks as [|c chunks IH]; [done|]. cbn [push_all]. unfold push. cbn [ri_negotiated mbind option_bind]. rewrite IH. cbn [mbind option_bind concat].
  by destruct c.
Qed.

(** Pushing a stream in chunks comes to what pushing it at once comes to. *)
Lemma push_all_verdict chunks : ∀ r,
  ri_negotiated r = false → pend (ri_pending r) = Some (Ok None) →
  ∃ v r', pend (ri_pending r ++ concat chunks) = Some v
    ∧ push_all compress decompress r chunks
      = Some (match v with Ok (Some out) => (out, None, mkIngress [] true) | Ok None => ([], None, r') | Err e => ([], Some e, r') end)
    ∧ ri_negotiated r' = false.
Proof using codec_ok.
  induction chunks as [|c chunks IH]; intros r Hn Hp; cbn [push_all concat].
  - rewrite app_nil_r. exists (Ok None), r. split; [exact Hp|]. by split.
  - rewrite app_assoc. unfold push. rewrite Hn. destruct (pend_defined (ri_pending r ++ c)) as [v Hv]. rewrite Hv. cbn [mbind option_bind].
    pose proof (pend_app _ (concat chunks) _ Hv) as Ha. destruct v as [[out|]|e]; cbn iota in Ha.
    + rewrite push_all_negotiated. exists (Ok (Some (out ++ concat chunks))), (mkIngress [] false). split; [exact Ha|]. by split.
    + destruct (IH (mkIngress (ri_pending r ++ c) false) eq_refl Hv) as (v & r' & H1 & H2 & H3). exists v, r'. split; [exact H1|].
      rewrite H2. split; [|exact H3]. destruct v as [[]|]; reflexivity.
    + exists (Err e), (mkIngress (ri_pending r ++ c) false). split; [exact Ha|]. by split.
Qed.

(** ** What goes out *)

(** [bs], whatever follows it, is read as a HELLO request. *)
Definition carries_hello (bs : list byte) (request_id : Z) (hello : ClientHello) : Prop :=
  ∃ payload, decode payload = Ok hello
    ∧ ∀ rest, FrameCodec_decode_stream decompress codec (bs ++ rest)
              = Ok (mkFrame (FrameHeader_request family_CORE core_request_HELLO request_id) payload, len bs).

(** What a HELLO is, and what takes its place. *)
Lemma rewritten_ok body encoded :
  rewritten body = Ok encoded ↔
  ∃ request_id hello payload payload',
    FrameCodec_decode decompress codec body = Ok (mkFrame (FrameHeader_request family_CORE core_request_HELLO request_id) payload)
    ∧ decode payload = Ok hello ∧ encode (restrict hello) = Ok payload'
    ∧ FrameCodec_encode_stream compress codec (mkFrame (FrameHeader_request family_CORE core_request_HELLO request_id) payload') = Ok encoded.
Proof.
  with_strategy transparent [rewritten] unfold rewritten. split.
  - intros H. apply bind_ok in H as ([header payload] & Hd%invalid_hello_ok & H). cbn [fr_header fr_payload] in H.
    apply bind_ok in H as ([] & Hh%reject_if_ok & H). apply orb_false_iff in Hh as [Hh%negb_false_iff%bool_decide_eq_true _].
    apply bind_ok in H as (hello & Hp%invalid_hello_ok & H). apply bind_ok in H as (payload' & He%invalid_hello_ok & H%invalid_hello_ok).
    rewrite Hh in Hd, H. by exists (default 0 (fh_request_id header)), hello, payload, payload'.
  - intros (request_id & hello & payload & payload' & Hd & Hp & He & H). rewrite Hd. cbn [invalid_hello mbind result_bind fr_header fr_payload].
    cbn [fh_request_id FrameHeader_request default from_option id]. rewrite bool_decide_eq_true_2 by reflexivity.
    cbn [negb orb fh_compressed FrameHeader_request reject_if mbind result_bind]. rewrite Hp. cbn [invalid_hello mbind result_bind]. rewrite He.
    cbn [invalid_hello mbind result_bind]. by rewrite H.
Qed.

Lemma rewritten_carries body encoded :
  len body <= max_wire_frame FrameLimits_pre_hello → rewritten body = Ok encoded →
  ∃ request_id hello, carries_hello (lp32 body) request_id hello ∧ carries_hello encoded request_id (restrict hello)
    ∧ ClientHello_validate hello = Ok ().
Proof using All.
  intros Hl (request_id & hello & payload & payload' & Hd & Hp & He & Hs)%rewritten_ok. exists request_id, hello.
  pose proof (FrameCodec_decode_inv compress decompress lz4_bounded codec body _ codec_wf Hd) as (_ & Hw & (_ & _ & Hfit) & _ & _).
  pose proof (FrameCodec_wf_bounds _ codec_wf) as [_ Hmax]. cbn [fr_header fr_payload] in Hfit, Hw.
  assert (∀ h, 0 <= FrameHeader_encoded_len h) as Hh by (intros h; pose proof (header_len_range h); lia).
  assert (len payload <= ISIZE_MAX) as Hi by (specialize (Hh (FrameHeader_request family_CORE core_request_HELLO request_id)); unfold ISIZE_MAX; lia).
  destruct (wire_canonical hello payload Hi Hp) as [Hwf Henc]. split_and!.
  - exists payload. split; [exact Hp|]. intros rest. rewrite decode_stream_lp32, Hd by done. cbn [mbind result_bind]. by rewrite len_lp32.
  - exists payload'. split.
    + apply wire_roundtrip; [by apply restrict_wf|exact He|].
      apply FrameCodec_encode_stream_ok in Hs as (b & Hb & _); [|exact codec_wf].
      apply FrameCodec_encode_ok in Hb as (_ & (_ & _ & Hf) & _); [|exact codec_wf]. cbn [fr_header fr_payload] in Hf.
      specialize (Hh (FrameHeader_request family_CORE core_request_HELLO request_id)). unfold ISIZE_MAX. lia.
    + intros rest. apply (decode_stream_encoded compress decompress lz4_roundtrip lz4_bounded codec); [exact codec_wf|exact Hw|exact Hs].
  - by apply ClientHello_encode_ok in Henc as (_ & Hv & _).
Qed.

(** A HELLO with room for the extension, as a client puts it on the wire. *)
Definition hello_on_wire (hello : ClientHello) (request_id : Z) (bs : list byte) : Prop :=
  ∃ payload, encode hello = Ok payload ∧ ClientHello_wf hello ∧ is_u32 request_id
    ∧ len (hc_extensions hello) < HARD_MAX_EXTENSION_ENTRIES ∧ 9 + len payload + 8 <= transport_PRE_HELLO_MAX_FRAME
    ∧ FrameCodec_encode_stream compress codec (mkFrame (FrameHeader_request family_CORE core_request_HELLO request_id) payload) = Ok bs.

Lemma hello_rewritten hello request_id bs :
  hello_on_wire hello request_id bs →
  ∃ body encoded, bs = lp32 body ∧ len body <= max_wire_frame FrameLimits_pre_hello ∧ rewritten body = Ok encoded.
Proof using All.
  intros (payload & He & Hw & Hid & Hn & Hl & Hs).
  pose proof Hs as (body & Hb & ->)%FrameCodec_encode_stream_ok; [|exact codec_wf].
  pose proof Hb as (_ & (Hflags & Hval & Hdec) & Hav & Hlen)%FrameCodec_encode_ok; [|exact codec_wf].
  rewrite codec_limits in Hdec, Hlen. cbn [fr_header fr_payload max_decoded_frame max_wire_frame FrameLimits_pre_hello] in *.
  destruct (restrict_encodes hello payload He Hn) as (payload' & He' & Hl'); [pose proof (len_nonneg payload); lia|].
  assert (FrameHeader_wf (FrameHeader_request family_CORE core_request_HELLO request_id)) as Hhw by (split_and!; cbn; done || lia).
  set (frame' := mkFrame (FrameHeader_request family_CORE core_request_HELLO request_id) payload').
  assert (len (frame_bytes compress frame') = 9 + len payload') as Hfl.
  { unfold frame_bytes. rewrite len_app, len_FrameHeader_bytes by exact Hval. reflexivity. }
  assert (FrameCodec_encode compress codec frame' = Ok (frame_bytes compress frame')) as Hb'.
  { apply FrameCodec_encode_ok; [exact codec_wf|]. rewrite Hfl, codec_limits. split; [reflexivity|]. split; [|split; [exact Hav|cbn; lia]].
    split; [exact Hflags|]. split; [exact Hval|]. rewrite codec_limits.
    change (9 + len payload' <= transport_PRE_HELLO_MAX_FRAME). lia. }
  exists body, (lp32 (frame_bytes compress frame')). split; [done|]. split; [exact Hlen|].
  apply rewritten_ok. exists request_id, hello, payload, payload'. split; [|split; [|split; [exact He'|]]].
  - apply (frame_decodes compress decompress lz4_roundtrip lz4_bounded codec codec_wf _ body); [exact Hhw|exact Hb].
  - apply wire_roundtrip; [exact Hw|exact He|]. unfold transport_PRE_HELLO_MAX_FRAME, ISIZE_MAX in *. lia.
  - apply FrameCodec_encode_stream_ok; [exact codec_wf|]. by exists (frame_bytes compress frame').
Qed.

(** C39: A stream that goes through the ingress, in whatever chunks it comes, is read-only or
    does not reach the server at all. Either nothing has been sent; or the client's HELLO
    was complete, what was sent is the stream as it came but for the HELLO, and there the
    server reads the same request with the required read-only-session extension, nothing
    else added, changed or left out. A stream that starts with a HELLO with room for the
    extension does go through. *)
Theorem read_only_ingress_restricts chunks :
  ∃ sent error ingress,
    push_all compress decompress ReadOnlyIngress_new chunks = Some (sent, error, ingress)
    ∧ ((is_negotiated ingress = false ∧ sent = [])
       ∨ (is_negotiated ingress = true ∧ error = None
          ∧ ∃ bs bs' rest request_id hello,
              concat chunks = PREFACE ++ bs ++ rest ∧ sent = PREFACE ++ bs' ++ rest
              ∧ carries_hello bs request_id hello ∧ carries_hello bs' request_id (restrict hello)
              ∧ restrict hello = set_extensions hello (hc_extensions (restrict hello))
              ∧ ∀ e, e ∈ hc_extensions (restrict hello) ↔ e = mkExtension READ_ONLY_TAG true [] ∨ e ∈ hc_extensions hello))
    ∧ ∀ hello request_id bs rest,
        hello_on_wire hello request_id bs → concat chunks = PREFACE ++ bs ++ rest → is_negotiated ingress = true.
Proof using All.
  destruct (push_all_verdict chunks ReadOnlyIngress_new eq_refl) as (v & r & Hv & Hall & Hr); [reflexivity|].
  cbn [ri_pending ReadOnlyIngress_new app] in Hv.
  destruct v as [[out|]|e]; cbn iota in Hall.
  - exists out, None, (mkIngress [] true). split; [exact Hall|]. split; [|done]. right. split; [done|]. split; [done|].
    destruct (pend_cases (concat chunks)) as [Hw|[Hn|[(n & rest & Ec & Hn & Hm)|(body & rest & Ec & Hl)]]].
    1: rewrite (pend_wrong _ Hw) in Hv; discriminate Hv.
    1: rewrite Hn in Hv; discriminate Hv.
    1: rewrite Ec, pend_large in Hv by done; discriminate Hv.
    rewrite Ec, pend_body in Hv by done. destruct (rewritten body) as [encoded|] eqn:Er; [|discriminate Hv]. injection Hv as <-.
    destruct (rewritten_carries body encoded Hl Er) as (request_id & hello & H1 & H2 & Hvalid).
    exists (lp32 body), encoded, rest, request_id, hello. split; [exact Ec|]. split; [done|]. split; [exact H1|]. split; [exact H2|].
    split; [apply restrict_same|]. intros e. by apply restrict_adds.
  - exists [], None, r. split; [exact Hall|]. split; [by left|]. intros hello request_id bs rest (body & encoded & -> & Hl & Er)%hello_rewritten Ec.
    rewrite Ec, pend_body, Er in Hv by done. discriminate Hv.
  - exists [], (Some e), r. split; [exact Hall|]. split; [by left|]. intros hello request_id bs rest (body & encoded & -> & Hl & Er)%hello_rewritten Ec.
    rewrite Ec, pend_body, Er in Hv by done. discriminate Hv.
Qed.
End Stream.

(** ** A session *)

Definition sample_client_hello : ClientHello := mkClientHello 1 1 (ReceiveLimits_recommended 0) (zeros 16) [] [] [] [] [].
Definition sample_hello_bytes : list byte :=
  match (payload ← encode sample_client_hello;
         FrameCodec_encode_stream stored hello_codec (mkFrame (FrameHeader_request family_CORE core_request_HELLO 1) payload)) with
  | Ok bs => bs
  | Err _ => []
  end.

Lemma sample_hello_on_wire : hello_on_wire stored hello_codec sample_client_hello 1 sample_hello_bytes.
Proof.
  exists (match encode sample_client_hello with Ok p => p | Err _ => [] end). split; [vm_compute; reflexivity|]. split; [unfold ClientHello_wf, ReceiveLimits_wf, exts_wf; cbn; split_and!; first [done | constructor]|].
  split; [lia|]. split; [reflexivity|]. split; [by vm_compute|]. vm_compute. reflexivity.
Qed.

(** The HELLO, cut in the middle of the preface, and an event behind it. *)
Lemma read_only_ingress_restricts_witness :
  ∃ sent error ingress,
    push_all stored unstored ReadOnlyIngress_new [take 3 PREFACE; drop 3 PREFACE ++ sample_hello_bytes; bytes_of [1; 2; 3]]
    = Some (sent, error, ingress) ∧ is_negotiated ingress = true.
Proof.
  destruct (read_only_ingress_restricts stored unstored stored_roundtrip unstored_bounded hello_codec (Build_HelloCodec _ hello_codec_ok)
              [take 3 PREFACE; drop 3 PREFACE ++ sample_hello_bytes; bytes_of [1; 2; 3]]) as (sent & error & ingress & Hp & _ & Hlive).
  exists sent, error, ingress. split; [exact Hp|]. apply (Hlive _ _ _ (bytes_of [1; 2; 3]) sample_hello_on_wire). reflexivity.
Defined.
