(* ===== verification/FamilyWires.v ===== *)
(** * FamilyWires: the wire laws of the shared layers and of six families

    The extension tail, the datagram payloads, Transfer, State, KV, Channel,
    Relay, Net, Env and Process have their messages, encoders, decoders and laws
    in files of their own; here they are one theorem. *)

From S2P Require Import Prelude Schema Codec CodecFacts Wire Datagrams Transfer TransferFacts State StateFacts WireLayout KvWire ChannelWire RelayWire NetWire EnvWire ProcessWire.

(** C36: Every message of the KV, Channel, Relay, Net, Env and Process families, of
    Transfer, the fixed-layout State messages, the datagram payloads of Net,
    Surface and Media and the extension tail, with its numbers and byte arrays within
    their types, is read back exactly as it was written, but for two values: a
    Descriptor that allows neither direction (and a message that carries one), which
    the encoder writes and every decoder refuses, and a MutationResult whose status is
    [Unknown] with the code of a status that has a name, which no decoder returns.
    Nothing is accepted that its encoder would not have written byte for
    byte: no reserved byte, flag, length, unknown tag or trailing byte gets through,
    and a nested message obeys the same law. *)
Theorem family_wire_laws :
  (WireLaws kv_Open kv_Open_wf ∧ WireLaws kv_OpenResult kv_OpenResult_wf ∧ WireLaws kv_Close kv_Close_wf
   ∧ WireLaws kv_Watch kv_Watch_wf ∧ WireLaws EntryRecord EntryRecord_wf ∧ WireLaws kv_Get kv_Get_wf ∧ WireLaws GetResult GetResult_wf
   ∧ WireLaws StageValue StageValue_wf ∧ WireLaws StageValueResult StageValueResult_wf ∧ WireLaws kv_Put kv_Put_wf
   ∧ WireLaws kv_Delete kv_Delete_wf ∧ WireLaws kv_Mutation kv_Mutation_wf ∧ WireLaws MutationResult MutationResult_wf
   ∧ WireLaws kv_Batch kv_Batch_wf ∧ WireLaws BatchResult BatchResult_wf)
  ∧ (WireLaws ListenerRecord ListenerRecord_wf ∧ WireLaws RemovedListener RemovedListener_wf ∧ WireLaws Listen Listen_wf
     ∧ WireLaws ListenerIdentity ListenerIdentity_wf ∧ WireLaws Connect Connect_wf ∧ WireLaws ChannelEndpoint ChannelEndpoint_wf
     ∧ WireLaws Accept Accept_wf)
  ∧ (WireLaws RouteRecord RouteRecord_wf ∧ WireLaws relay_Connect relay_Connect_wf ∧ WireLaws relay_ConnectResult relay_ConnectResult_wf
     ∧ WireLaws Disconnect Disconnect_wf)
  ∧ (WireLaws Address Address_wf ∧ WireLaws TlsOptions TlsOptions_wf ∧ WireLaws net_Open net_Open_wf ∧ WireLaws net_Close net_Close_wf
     ∧ WireLaws Endpoint Endpoint_wf ∧ WireLaws DatagramStats DatagramStats_wf)
  ∧ (WireLaws env_Get env_Get_wf ∧ WireLaws env_Entry env_Entry_wf ∧ WireLaws env_GetResult env_GetResult_wf
     ∧ WireLaws SnapshotBatch SnapshotBatch_wf)
  ∧ (WireLaws Cwd Cwd_wf ∧ WireLaws Spawn Spawn_wf ∧ WireLaws Attach Attach_wf ∧ WireLaws Control Control_wf
     ∧ WireLaws ControlResult ControlResult_wf ∧ WireLaws Wait Wait_wf ∧ WireLaws ExitRecord ExitRecord_wf
     ∧ WireLaws StreamBundle StreamBundle_wf ∧ WireLaws ProcessRecord ProcessRecord_wf ∧ WireLaws RemovedProcess RemovedProcess_wf
     ∧ WireLaws ExitReport ExitReport_wf)
  ∧ (WireLaws Extensions exts_wf ∧ WireLaws Datagram Datagram_wf ∧ WireLaws SurfaceFrame SurfaceFrame_wf ∧ WireLaws MediaFrame MediaFrame_wf)
  ∧ (WireLaws Descriptor Descriptor_wf ∧ WireLaws InlineOrTransfer InlineOrTransfer_wf ∧ WireLaws ByteData ByteData_wf
     ∧ WireLaws MessageData MessageData_wf ∧ WireLaws Credit Credit_wf ∧ WireLaws Close Close_wf ∧ WireLaws Reset Reset_wf)
  ∧ (WireLaws Watch Watch_wf ∧ WireLaws WatchResult WatchResult_wf ∧ WireLaws Unwatch Unwatch_wf ∧ WireLaws StateAck StateAck_wf)
  ∧ (∀ d bs, td_direction d = mkDirection false false → encode d = Ok bs → len bs <= ISIZE_MAX → ∀ d', decode bs ≠ Ok (d' : Descriptor)).
Proof. split_and!; try apply _. intros d bs Hd He Hl d'. by apply (directionless_refused d). Qed.

Lemma family_wire_laws_witness :
  let d := mkDescriptor 1 ModeByte (mkDirection false false) 0 0 0 1 0 0 0 [] in
  encode d = Ok (Descriptor_bytes d) ∧ ∀ d', decode (Descriptor_bytes d) ≠ Ok (d' : Descriptor).
Proof.
  intros d. assert (encode d = Ok (Descriptor_bytes d)) as E by (vm_compute; reflexivity). split; [exact E|].
  destruct family_wire_laws as (_ & _ & _ & _ & _ & _ & _ & _ & _ & H). apply (H d _ eq_refl E). vm_compute. discriminate.
Defined.
